(* ===== verification/_CoqProject ===== *)
-Q . S2P
Prelude.v
CMem.v
Leb128.v
PbCommon.v
PbEncode.v
PbDecode.v
PbWire.v
PbEmits.v
PbEncodeSpec.v
PbEncodeProps.v
PbSafe.v
PbDecodeProps.v
PbFieldProps.v
PbMessageProps.v
CRead.v
DataParsing.v
ThreadState.v
ExprMachine.v
ExprSpec.v
ExprProps.v
DwarfUnwind.v
DwarfSpec.v
DwarfTotal.v
DwarfProps.v
DwarfRecords.v
CompactUnwind.v
CompactProps.v
LvCoding.v
LvCrc32c.v
LvEnv.v
LvLog.v
LvLogProps.v
LvComparator.v
LvDbFormat.v
LvWriteBatch.v
LvSkipList.v
LvSkipListProps.v
LvMemTable.v
LvMemTableProps.v
LvBlock.v
LvBlockProps.v
LvFilter.v
LvFilterProps.v
LvFormat.v
LvTable.v
LvTableProps.v
LvTableRead.v
LvVersion.v
LvVersionProps.v
LvFilename.v
LvTableCache.v
LvDbGet.v
LvOverlap.v
LvVersionEdit.v
LvBuilder.v
LvBuilderProps.v
LvManifest.v
LvManifestProps.v
LvRecovery.v
LvCompaction.v
LvCompactionProps.v
LvCompactionInstall.v
LvIterator.v
LvMergerProps.v
LvCompactWork.v
LvDropProps.v
LvDbIter.v
LvDbIterProps.v
LvTwoLevel.v
LvTwoLevelProps.v
LvTableIter.v
LvVersionIter.v
LvVersionIterProps.v
LvScan.v
LvDbWrite.v
LvReplay.v
LvDurable.v
LvOpenProps.v
