(* ===== verification/Prelude.v ===== *)
(** * Verification of the native code in the pods of the Cigars application

    The application is written in Kotlin; the C and C++ code of the repository
    is that of the pods its iOS build vendors under src/iosApp/Pods. This
    library models the parts of that code that carry logic of their own and
    proves them correct. Source paths below are relative to src/iosApp/Pods.

    ** The parts and how they interact

    - nanopb (nanopb/) encodes and decodes the protobuf messages that the
      Firebase pods exchange with their servers. Generated descriptor tables
      say where each member of a C structure lies; an iterator walks such a
      table, the encoder turns a structure into wire format on an output
      stream, the decoder fills a structure from an input stream.
    - The crash reporter (FirebaseCrashlytics/Crashlytics/Crashlytics) walks
      the stack of a crashed thread. For each frame it looks up the compact
      unwind information of the function; the encoding found there asks for
      unwinding by frame pointer or by DWARF call frame information, and that in
      turn may ask for the evaluation of a DWARF expression.
    - leveldb (leveldb-library/) is the storage engine of the database pods. A
      write is a batch of updates that goes to the write-ahead log and into the
      memtable, a skip list of internal keys; full memtables become files made
      of blocks of sorted entries. Reads look a key up at a snapshot, given by
      a sequence number.

    ** How the code is modelled

    Shared. Prelude: machine integers as [Z] with explicit wrap-around
    ([u8] ... [s64]), bytes, the tactics and hints of the development. Leb128:
    base-128 strings, independent of any code, for the three components that
    read or write them.

    C code. CMem is the machine of the code that writes memory: a map from
    addresses to bytes, a heap of blocks, and a monad whose outcomes are a value,
    a failure of the C function, a fault or exhausted fuel. Every access
    outside mapped memory and every other undefined behaviour is a fault, so a
    theorem that a function returns also says that it does none of it. CRead is
    the same for code that only reads memory. Code outside the repository is an
    argument: callbacks of messages, the SDK's register file ([MContext]) and
    compact unwind layout ([CompactEncoding]), with what the code relies on as
    laws. The configuration is that of the pods on a device: arm64, 64-bit
    pointers, PB_ENABLE_MALLOC, PB_FIELD_32BIT, no DEBUG code.

    C++ code (files Lv...). A std::string and a Slice are the list of their
    bytes; a pair of pointers into a buffer that is only read is the list of
    bytes between them. Objects are records that operations take and return.
    Virtual interfaces are type classes with their documented behaviour as
    laws: files ([WritableFile], [SequentialFile]; [FiniteFile] for files whose
    reads may fail), comparators ([Comparator],
    [ComparatorLaws]), handlers of batches ([Handler]),
    filter policies ([FilterPolicy]), caches ([Cache]), random access files
    ([RandomAccessFile]), environments ([Env], [FileEnv], [DirEnv]), table caches
    ([TableCacheGet], [TableCacheIter]), iterators ([Iter], [IterLaws]) and the
    receiver of read samples ([ReadSampler]); clients are proved
    against the laws and the implementations of the library discharge them.
    The build has no hardware checksum and no Snappy.

    ** Files and sources

    - PbCommon: nanopb/pb.h, pb_common.c. PbEncode: pb_encode.c. PbDecode:
      pb_decode.c, with the same function names. PbWire, PbEmits, PbSafe:
      program logics for what a function reads, what it writes to its stream,
      and which memory it touches. PbEncodeSpec: the wire format of a structure,
      as a function, with a message the witnesses use. PbEncodeProps,
      PbDecodeProps, PbFieldProps, PbMessageProps: the theorems.
    - DataParsing: Unwind/Dwarf/FIRCLSDataParsing.c. ExprMachine:
      FIRCLSDwarfExpressionMachine.c; ExprSpec its abstract semantics.
      DwarfUnwind: FIRCLSDwarfUnwind.c; DwarfSpec the meaning of call frame
      instructions. ThreadState: Helpers/FIRCLSThreadState.c and register access
      of Unwind/FIRCLSUnwind_arm.c. CompactUnwind:
      Unwind/Compact/FIRCLSCompactUnwind.c and the rest of FIRCLSUnwind_arm.c.
      ExprProps, DwarfTotal, DwarfProps, DwarfRecords,
      CompactProps: the theorems.
    - LvCoding: util/coding.{h,cc}. LvCrc32c: util/crc32c.{h,cc}.
      LvEnv: include/leveldb/status.h, util/status.cc and the file interfaces of
      include/leveldb/env.h. LvLog (Modules Writer and Reader): db/log_format.h,
      db/log_writer.cc, db/log_reader.cc. LvComparator: util/comparator.cc.
      LvDbFormat: db/dbformat.{h,cc}. LvWriteBatch: db/write_batch.cc.
      LvSkipList: db/skiplist.h, util/random.h. LvMemTable: db/memtable.{h,cc}
      and the insertion of batches. LvBlock: table/block_builder.cc,
      table/block.cc. LvLogProps, LvSkipListProps, LvMemTableProps,
      LvBlockProps: the theorems.
      LvFilter: util/hash.cc, util/bloom.cc, table/filter_block.cc; LvFilterProps
      its theorems. LvFormat: table/format.cc. LvTable: table/table_builder.cc,
      table/table.cc; LvTableProps what the builder writes, LvTableRead what
      a reader of it finds. LvVersion: FileMetaData, the lookups and the overlap
      tests of db/version_set.cc; LvVersionProps and LvOverlap their theorems.
      LvFilename: db/filename.cc, util/logging.cc. LvTableCache:
      db/table_cache.cc. LvDbGet: DBImpl::Get of db/db_impl.cc.
    - The set of files. LvVersionEdit: db/version_edit.cc. LvBuilder:
      VersionSet::Builder and Finalize; LvBuilderProps its theorems. LvManifest:
      LogAndApply and Recover of VersionSet, SetCurrentFile, util/env.cc;
      LvManifestProps, LvRecovery recovery after a crash. LvCompaction: the
      Compaction class and the choice of inputs; LvCompactionProps and
      LvCompactionInstall what the choice keeps. LvCompactWork: DoCompactionWork
      and its helpers in db/db_impl.cc; LvDropProps which entries it may drop.
    - Iterators. LvIterator: include/leveldb/iterator.h, table/iterator.cc,
      table/iterator_wrapper.h, table/merger.cc; LvMergerProps its theorems.
      LvTwoLevel, LvTwoLevelProps: table/two_level_iterator.cc. LvTableIter:
      Table::NewIterator.
      LvVersionIter, LvVersionIterProps: the iterators of levels, versions,
      memtables and compaction inputs, and DBImpl::NewIterator. LvDbIter,
      LvDbIterProps: db/db_iter.cc. LvScan: TableCache::NewIterator and all of
      them together.
    - Writing and opening. LvDbWrite: db/builder.cc; Write, BuildBatchGroup,
      MakeRoomForWrite, WriteLevel0Table, CompactMemTable and RecoverLogFile of
      db/db_impl.cc; and NewDB, Recover, RemoveObsoleteFiles, Open and DestroyDB
      there. LvReplay: the tables of memtables and the replay of a log.
      LvDurable: writes, a crash and the replay together, waiting writers and
      logs that fail. LvOpenProps: opening and obsolete files.

    ** What the theorems show

    - Encoding: a message in a large enough buffer becomes exactly its wire
      format, in a smaller one encoding fails inside the buffer; sizes and
      delimited messages follow. Decoding any bytes into statically allocated
      fields returns and stays inside the structure; values of all scalar
      types, strings and bytes survive a round trip; the required-field check,
      the iterator search and the allocation sizes are right.
    - Unwinding: the expression machine implements its abstract semantics,
      failures and undefined behaviour included; the call frame interpreter
      computes the row of the DWARF standard for the byte before the pc, for the
      programs that avoid the faults listed among the findings; CIE and FDE
      records are read back as written; for the standard frame DWARF and frame
      pointer agree unless the check for changed registers refuses the frame; the
      results of both levels of the compact lookup are determined. The fuel of
      the unwinders is enough on any section ([compact_unwind_total],
      [dwarf_unwind_total]), where undefined behaviour counts as an end.
    - Storage: a batch inserted into a memtable is found again at every
      snapshot; the skip list is a sorted set that is iterated in both
      directions, and well formed between any two of the stores that publish a
      node; a log cut at any byte yields exactly the records completed before
      the cut, and reading a log in any state, of files whose reads may fail,
      terminates; a block refines a cursor on its entries under any sequence of
      operations, and on corrupt contents they stay inside the block; the
      checksum is CRC-32C; batches and varints round trip.
    - Files: a table that was built from sorted entries finds each of them
      again and iterates over all of them, through index, filters, checksums and
      whatever the block cache keeps. A read of the database returns the newest
      entry at its snapshot over memtables and all levels; a scan shows exactly
      the values that reads find, in order, in both directions. A version is
      what the edits say, however they are batched; a manifest cut at any byte
      recovers the state of the last complete edit. The inputs of every
      compaction are closed, so that installing its outputs keeps the invariant
      of versions; what it drops no read can see, unless the next level keeps a
      file that begins with the last user key of an input (a finding).
    - Writing: every write that was acknowledged is in the memtable, and comes
      back from the log as far as its bytes were found again, in whole groups and
      in order, also over several logs; a writer that waits gets room while the
      background work goes on; a failed sync stops all writes. Obsolete files
      are removed, and only they. The other writers of the queue and the work
      of the background thread are arguments of these theorems, and so is the
      estimate of the memory of a memtable.
    - The iterators share one law: an iterator over sorted entries follows a
      cursor on them. Blocks, memtables, levels and tables have it; merging,
      two-level and database iterators have it whenever those they run over do.
    - The findings of PROJECT.json are lemmas here where they are about modelled code
      (for instance [entry_length_overflow], [varint32_counter_wraps],
      [advance_loc_resets]).

    ** Bounds and fuel

    Loops that are not structural take fuel. Where the bound is known the
    definition passes it: the digits of a varint, the nodes times levels of a
    skip list ([steps]), the bytes of a block or a batch (each round takes at
    least one), the size of a section. The decoder takes its fuel as an
    argument, and [pb_decode_safe] shows that more than the bytes of the stream
    plus the nesting depth of the message type is enough; [ReadRecord] likewise,
    with [ReadRecord_total]. A result [None] or "no fuel" is never identified
    with a success, and each theorem about such a function states that it
    returns. Lengths that the code stores in 32 bits are bounded by 2^32 in the
    hypotheses that mention them.

    ** Not modelled

    - Objective-C, Swift and Kotlin code, and generated descriptor tables (the
      theorems hold for every table that describes its structure).
    - Crashlytics: the walk over whole threads (Unwind/FIRCLSUnwind.c), the x86
      variant, the allocator, and the handlers and recorders, which are mostly
      system calls and output.
    - leveldb: the queue of writers with its condition variables (a call is
      modelled from its turn on), the scheduling of background work, manual
      compactions from outside, properties and statistics, repair, the LRU cache
      and the arena, and the POSIX environment. Of logs that are used again
      after opening only the model exists, not a theorem. Reference counts and
      clean-up functions, which only give memory back. An iterator carries the
      table cache as it last saw it; what other users change in between cannot
      change what it shows as long as the laws of caches hold, which
      [run_shared] states for one table.
    - Memory reclamation and the weak memory model: the order of the stores of
      an insertion into the skip list is modelled, reordering by the processor
      is not.
*)
From Stdlib Require Import ZArith Lia Bool List String Btauto.
From stdpp Require Import base list numbers.

(* Arithmetic of C integers reads best in [Z_scope]; list notations are
   stdpp's. *)
#[global] Open Scope Z_scope.

(** ** Machine integers

    A C integer of width [w] is a [Z] kept in range by an explicit conversion.
    [wrapu w] is the conversion to the unsigned type, [wraps w] the (two's
    complement) conversion to the signed type, as clang implements it on every
    Apple target. *)

Definition wrapu (w : Z) (x : Z) : Z := x mod 2 ^ w.
Definition wraps (w : Z) (x : Z) : Z :=
  (x + 2 ^ (w - 1)) mod 2 ^ w - 2 ^ (w - 1).

Declare Scope cint_scope.
Delimit Scope cint_scope with cint.
Notation "'u8'" := (wrapu 8) (only parsing) : cint_scope.
Notation "'u16'" := (wrapu 16) (only parsing) : cint_scope.
Notation "'u32'" := (wrapu 32) (only parsing) : cint_scope.
Notation "'u64'" := (wrapu 64) (only parsing) : cint_scope.
Notation "'s8'" := (wraps 8) (only parsing) : cint_scope.
Notation "'s16'" := (wraps 16) (only parsing) : cint_scope.
Notation "'s32'" := (wraps 32) (only parsing) : cint_scope.
Notation "'s64'" := (wraps 64) (only parsing) : cint_scope.
#[global] Open Scope cint_scope.

Definition is_byte (b : Z) : Prop := 0 <= b < 256.
Definition is_bytes (l : list Z) : Prop := Forall is_byte l.

Create HintDb cint discriminated.

(** ** Tactics *)

(** Turns the boolean comparisons of the code into propositions, in every
    hypothesis. *)
Ltac b2p :=
  repeat match goal with
  | H : (_ =? _)%Z = true |- _ => apply Z.eqb_eq in H
  | H : (_ =? _)%Z = false |- _ => apply Z.eqb_neq in H
  | H : (_ <? _)%Z = true |- _ => apply Z.ltb_lt in H
  | H : (_ <? _)%Z = false |- _ => apply Z.ltb_ge in H
  | H : (_ <=? _)%Z = true |- _ => apply Z.leb_le in H
  | H : (_ <=? _)%Z = false |- _ => apply Z.leb_gt in H
  | H : (_ >? _)%Z = true |- _ => rewrite Z.gtb_ltb in H; apply Z.ltb_lt in H
  | H : (_ >? _)%Z = false |- _ => rewrite Z.gtb_ltb in H; apply Z.ltb_ge in H
  | H : (_ >=? _)%Z = true |- _ => rewrite Z.geb_leb in H; apply Z.leb_le in H
  | H : (_ >=? _)%Z = false |- _ => rewrite Z.geb_leb in H; apply Z.leb_gt in H
  | H : (_ =? _)%nat = true |- _ => apply Nat.eqb_eq in H
  | H : (_ =? _)%nat = false |- _ => apply Nat.eqb_neq in H
  | H : _ && _ = true |- _ => apply andb_prop in H; destruct H
  | H : _ && _ = false |- _ => apply andb_false_iff in H
  | H : _ || _ = false |- _ => apply orb_false_elim in H; destruct H
  | H : _ || _ = true |- _ => apply orb_true_iff in H
  | H : negb _ = true |- _ => apply negb_true_iff in H
  | H : negb _ = false |- _ => apply negb_false_iff in H
  end.

(** Splits on a boolean scrutinee of the goal and reads the comparison. *)
Ltac bcase :=
  match goal with
  | |- context [if ?b then _ else _] =>
      lazymatch b with
      | context [if _ then _ else _] => fail
      | _ => let E := fresh "E" in destruct b eqn:E; b2p
      end
  end.

(** Equality of integers, bit by bit. *)
Ltac bitwise i Hi :=
  apply Z.bits_inj'; intros i Hi.

Ltac zpow := change (2 ^ 3) with 8 in *; change (2 ^ 7) with 128 in *;
  change (2 ^ 8) with 256 in *;
  change (2 ^ 16) with 65536 in *;
  change (2 ^ 31) with 2147483648 in *;
  change (2 ^ 32) with 4294967296 in *;
  change (2 ^ 63) with 9223372036854775808 in *;
  change (2 ^ 64) with 18446744073709551616 in *.

(** ** Conversions *)

Lemma wrapu_range w x : 0 <= w -> 0 <= wrapu w x < 2 ^ w.
Proof. intros. apply Z.mod_pos_bound, Z.pow_pos_nonneg; lia. Qed.

Lemma wrapu_small w x : 0 <= x < 2 ^ w -> wrapu w x = x.
Proof. apply Z.mod_small. Qed.

Lemma wrapu_wrapu w v x : 0 <= w <= v -> wrapu w (wrapu v x) = wrapu w x.
Proof.
  intros. unfold wrapu. apply Z.mod_mod_divide.
  exists (2 ^ (v - w)). rewrite <- Z.pow_add_r by lia. f_equal; lia.
Qed.

Lemma wraps_range w x : 0 < w -> - 2 ^ (w - 1) <= wraps w x < 2 ^ (w - 1).
Proof.
  intros. unfold wraps.
  assert (2 ^ w = 2 * 2 ^ (w - 1)) as E
    by (rewrite <- Z.pow_succ_r by lia; f_equal; lia).
  pose proof (Z.mod_pos_bound (x + 2 ^ (w - 1)) (2 ^ w)
                (Z.pow_pos_nonneg 2 w ltac:(lia) ltac:(lia))).
  lia.
Qed.

Lemma wraps_small w x : 0 < w -> - 2 ^ (w - 1) <= x < 2 ^ (w - 1) -> wraps w x = x.
Proof.
  intros. unfold wraps.
  assert (2 ^ w = 2 * 2 ^ (w - 1)) as E
    by (rewrite <- Z.pow_succ_r by lia; f_equal; lia).
  rewrite Z.mod_small; lia.
Qed.

Lemma wraps_wrapu w v x : 0 < w <= v -> wraps w (wrapu v x) = wraps w x.
Proof.
  intros. unfold wraps, wrapu. f_equal.
  rewrite <- (Zplus_mod_idemp_l (x mod 2 ^ v)), <- (Zplus_mod_idemp_l x).
  do 2 f_equal. apply (wrapu_wrapu w v x); lia.
Qed.

Lemma wrapu_wraps w v x : 0 < w <= v -> wrapu w (wraps v x) = wrapu w x.
Proof.
  intros. unfold wraps.
  assert (Hd : exists q, (x + 2 ^ (v - 1)) mod 2 ^ v - 2 ^ (v - 1) = x + q * 2 ^ v).
  { exists (- ((x + 2 ^ (v - 1)) / 2 ^ v)).
    rewrite Z.mod_eq by (apply Z.pow_nonzero; lia). lia. }
  destruct Hd as [q ->]. unfold wrapu.
  replace (2 ^ v) with (2 ^ (v - w) * 2 ^ w)
    by (rewrite <- Z.pow_add_r by lia; f_equal; lia).
  rewrite Z.mul_assoc. apply Z.mod_add. apply Z.pow_nonzero; lia.
Qed.

(** ** Bits *)

Lemma land_127 x : Z.land x 127 = x mod 128.
Proof. change 127 with (Z.ones 7). now rewrite Z.land_ones by lia. Qed.

Lemma land_255 x : Z.land x 255 = x mod 256.
Proof. change 255 with (Z.ones 8). now rewrite Z.land_ones by lia. Qed.

Lemma shiftr_div x n : 0 <= n -> Z.shiftr x n = x / 2 ^ n.
Proof. intros. now apply Z.shiftr_div_pow2. Qed.

(** Or-ing disjoint bit ranges is addition. *)
Lemma lor_shiftl_add a b n :
  0 <= n -> 0 <= a < 2 ^ n -> Z.lor a (Z.shiftl b n) = a + b * 2 ^ n.
Proof.
  intros Hn Ha. rewrite <- Z.shiftl_mul_pow2 by lia.
  symmetry. rewrite <- Z.lxor_lor; [rewrite Z.add_nocarry_lxor; [done|]|];
    bitwise i Hi; rewrite Z.land_spec, Z.bits_0, Z.shiftl_spec by lia;
    (destruct (Z.ltb_spec i n) as [L|L];
     [rewrite (Z.testbit_neg_r b) by lia; apply andb_false_r
     |rewrite <- (Z.mod_small a (2 ^ n)) by lia;
      rewrite Z.mod_pow2_bits_high by lia; reflexivity]).
Qed.

Lemma lor_128 a : 0 <= a < 128 -> Z.lor a 128 = a + 128.
Proof. intros. change 128 with (Z.shiftl 1 7). now rewrite lor_shiftl_add. Qed.

(** The continuation bit of a base-128 digit. *)
Lemma land_128 b : 0 <= b < 256 -> Z.land b 128 = if b <? 128 then 0 else 128.
Proof.
  intros H.
  assert (E : Z.land b 128 = b - b mod 128).
  { rewrite <- land_127.
    assert (Z.land b 128 + Z.land b 127 = Z.land b 255) as E1.
    { change 255 with (Z.lor 128 127). rewrite Z.land_lor_distr_r.
      rewrite <- Z.lxor_lor, Z.add_nocarry_lxor; [done| |];
        (rewrite <- Z.land_assoc, (Z.land_assoc 128), (Z.land_comm 128), <- Z.land_assoc;
         change (Z.land 128 127) with 0; now rewrite !Z.land_0_r). }
    rewrite (land_255 b), Z.mod_small in E1; lia. }
  rewrite E. destruct (Z.ltb_spec b 128).
  - rewrite Z.mod_small; lia.
  - assert (b mod 128 = b - 128); [|lia].
    symmetry. apply Z.mod_unique with 1; lia.
Qed.

(** ** Little-endian byte strings *)

(** The value of a little-endian byte string, and the [n] low bytes of a
    value. *)
Fixpoint le_val (l : list Z) : Z :=
  match l with
  | [] => 0
  | b :: l => b + 256 * le_val l
  end.

Fixpoint le_bytes (n : nat) (x : Z) : list Z :=
  match n with
  | O => []
  | S n => x mod 256 :: le_bytes n (x / 256)
  end.

Lemma length_le_bytes n x : length (le_bytes n x) = n.
Proof. revert x; induction n; intros; simpl; auto. Qed.

Lemma le_bytes_is_bytes n x : is_bytes (le_bytes n x).
Proof.
  revert x; induction n; intros; constructor; [|apply IHn].
  apply Z.mod_pos_bound; lia.
Qed.

Lemma le_val_bytes n x : le_val (le_bytes n x) = x mod 256 ^ Z.of_nat n.
Proof.
  revert x; induction n; intros x.
  - simpl. now rewrite Z.mod_1_r.
  - cbn [le_bytes le_val]. rewrite IHn, Nat2Z.inj_succ, Z.pow_succ_r by lia.
    rewrite Z.rem_mul_r; [lia|lia|]. apply Z.pow_pos_nonneg; lia.
Qed.

Lemma le_val_range l : is_bytes l -> 0 <= le_val l < 256 ^ Z.of_nat (length l).
Proof.
  induction 1 as [|b l Hb _ IH]; simpl length; simpl le_val; [lia|].
  rewrite Nat2Z.inj_succ, Z.pow_succ_r by lia. unfold is_byte in Hb. lia.
Qed.

Lemma le_bytes_val l : is_bytes l -> le_bytes (length l) (le_val l) = l.
Proof.
  induction 1 as [|b l Hb _ IH]; simpl; [done|].
  unfold is_byte in Hb. f_equal.
  - rewrite Z.mul_comm, Z.mod_add by lia. apply Z.mod_small; lia.
  - rewrite Z.mul_comm, Z.div_add, Z.div_small by lia. now rewrite Z.add_0_l.
Qed.

#[export] Hint Resolve length_le_bytes le_bytes_is_bytes : cint.

(** ** Checking a finite range by computation *)

Lemma range_forall (P : Z -> bool) (n : Z) :
  forallb P (seqZ 0 n) = true -> forall x, 0 <= x < n -> P x = true.
Proof.
  intros H x Hx. rewrite forallb_forall in H. apply H.
  apply list_elem_of_In, elem_of_seqZ. lia.
Qed.
