(* ===== verification/CMem.v ===== *)
(** * The C machine the code runs on

    Byte-addressed memory, the heap behind [realloc]/[free], and the monad the
    stateful code is written in. A load or store outside mapped memory, a use
    of a freed block and every other undefined behaviour the code could run
    into is the outcome [Fault]; a loop that has used up its fuel is
    [OutOfFuel]; the theorems show that neither happens. *)
From Stdlib Require Import ZArith Lia Bool List String.
From stdpp Require Import base list gmap numbers.
From S2P Require Import Prelude.

(** ** Outcomes *)

Inductive res (A : Type) : Type :=
| Ret (a : A)
| Fault
| OutOfFuel.
Arguments Ret {A} a.
Arguments Fault {A}.
Arguments OutOfFuel {A}.

Definition rbind {A B} (m : res A) (k : A -> res B) : res B :=
  match m with
  | Ret a => k a
  | Fault => Fault
  | OutOfFuel => OutOfFuel
  end.

(** A C expression that may touch unmapped memory. *)
Definition of_option {A} (o : option A) : res A :=
  match o with Some a => Ret a | None => Fault end.

(** ** Memory *)

Abbreviation mem := (gmap Z Z).

Fixpoint load_bytes (m : mem) (a : Z) (n : nat) : option (list Z) :=
  match n with
  | O => Some []
  | S n => match m !! a, load_bytes m (a + 1) n with
           | Some b, Some l => Some (b :: l)
           | _, _ => None
           end
  end.

Fixpoint store_bytes (m : mem) (a : Z) (l : list Z) : option mem :=
  match l with
  | [] => Some m
  | b :: l => match m !! a with
              | Some _ => store_bytes (<[a := b]> m) (a + 1) l
              | None => None
              end
  end.

(** [n] bytes at [a] are mapped. *)
Definition mapped (m : mem) (a n : Z) : Prop :=
  forall x, a <= x < a + n -> is_Some (m !! x).

(** The two memories agree outside [n] bytes at [a], and map the same
    addresses. *)
Definition frame (m m' : mem) (a n : Z) : Prop :=
  (forall x, is_Some (m !! x) <-> is_Some (m' !! x)) /\
  (forall x, ~ (a <= x < a + n) -> m' !! x = m !! x).

Definition bytes_ok (m : mem) : Prop := forall x b, m !! x = Some b -> is_byte b.

Lemma load_bytes_mapped m a n :
  mapped m a (Z.of_nat n) -> exists l, load_bytes m a n = Some l.
Proof.
  revert a; induction n as [|n IH]; intros a H; simpl; [eauto|].
  destruct (H a ltac:(lia)) as [b Hb]. rewrite Hb.
  destruct (IH (a + 1)) as [l Hl]; [intros x Hx; apply H; lia|].
  rewrite Hl. eauto.
Qed.

Lemma load_bytes_length m a n l : load_bytes m a n = Some l -> length l = n.
Proof.
  revert a l; induction n as [|n IH]; intros a l H; simpl in H.
  - now injection H as <-.
  - destruct (m !! a); [|discriminate].
    destruct (load_bytes m (a + 1) n) eqn:E; [|discriminate].
    injection H as <-. simpl. f_equal. eauto.
Qed.

Lemma load_bytes_lookup m a n l i :
  load_bytes m a n = Some l -> (i < n)%nat -> m !! (a + Z.of_nat i) = l !! i.
Proof.
  revert a l i; induction n as [|n IH]; intros a l i H Hi; [lia|]. simpl in H.
  destruct (m !! a) as [b|] eqn:Eb; [|discriminate].
  destruct (load_bytes m (a + 1) n) as [l'|] eqn:E; [|discriminate].
  injection H as <-. destruct i as [|i].
  - rewrite Z.add_0_r. exact Eb.
  - simpl. rewrite <- (IH (a + 1) l' i E) by lia. f_equal. lia.
Qed.

Lemma load_bytes_eq m m' a n :
  (forall x, a <= x < a + Z.of_nat n -> m' !! x = m !! x) ->
  load_bytes m' a n = load_bytes m a n.
Proof.
  revert a; induction n as [|n IH]; intros a H; simpl; [done|].
  rewrite H by lia. rewrite (IH (a + 1)); [done|]. intros; apply H; lia.
Qed.

Lemma load_bytes_app m a n1 n2 :
  load_bytes m a (n1 + n2) =
  match load_bytes m a n1, load_bytes m (a + Z.of_nat n1) n2 with
  | Some l1, Some l2 => Some (l1 ++ l2)
  | _, _ => None
  end.
Proof.
  revert a; induction n1 as [|n1 IH]; intros a.
  - simpl. rewrite Z.add_0_r. now destruct (load_bytes m a n2).
  - simpl. rewrite IH. destruct (m !! a) as [b|]; [|done].
    replace (a + Z.of_nat (S n1)) with (a + 1 + Z.of_nat n1) by lia.
    destruct (load_bytes m (a + 1) n1) as [l1|]; [|done].
    now destruct (load_bytes m (a + 1 + Z.of_nat n1) n2).
Qed.

Lemma load_bytes_is_bytes m a n l :
  bytes_ok m -> load_bytes m a n = Some l -> is_bytes l.
Proof.
  intros Hm. revert a l; induction n as [|n IH]; intros a l H; simpl in H.
  - injection H as <-. constructor.
  - destruct (m !! a) as [b|] eqn:E; [|discriminate].
    destruct (load_bytes m (a + 1) n) eqn:E'; [|discriminate].
    injection H as <-. constructor; [apply (Hm a b E)|]. now apply (IH (a + 1)).
Qed.

Lemma frame_refl m a n : frame m m a n.
Proof. split; [reflexivity|done]. Qed.

Lemma frame_trans m1 m2 m3 a n :
  frame m1 m2 a n -> frame m2 m3 a n -> frame m1 m3 a n.
Proof.
  intros [D1 F1] [D2 F2]. split; intros x.
  - now rewrite D1, D2.
  - intros H. now rewrite F2, F1.
Qed.

Lemma frame_weaken m m' a n a' n' :
  frame m m' a n -> a' <= a -> a + n <= a' + n' -> frame m m' a' n'.
Proof. intros [D F] H1 H2. split; [done|]. intros x Hx. apply F. lia. Qed.

Lemma frame_mapped m m' a n b k : frame m m' a n -> mapped m b k -> mapped m' b k.
Proof. intros [D _] H x Hx. apply D. auto. Qed.

Lemma mapped_weaken m a n a' n' :
  mapped m a n -> a <= a' -> a' + n' <= a + n -> mapped m a' n'.
Proof. intros H ? ? x Hx. apply H. lia. Qed.

Lemma store_bytes_mapped m a l :
  mapped m a (Z.of_nat (length l)) ->
  exists m', store_bytes m a l = Some m' /\ frame m m' a (Z.of_nat (length l)).
Proof.
  revert m a; induction l as [|b l IH]; intros m a H; simpl.
  - exists m. split; [done|apply frame_refl].
  - destruct (H a) as [c Hc]; [simpl; lia|]. rewrite Hc.
    assert (F : frame m (<[a := b]> m) a (Z.of_nat (S (length l)))).
    { split; intros x.
      - rewrite lookup_insert. case_decide; [subst; rewrite Hc|]; naive_solver.
      - intros Hx. rewrite lookup_insert_ne; [done|lia]. }
    destruct (IH (<[a := b]> m) (a + 1)) as (m' & E & F').
    { apply (frame_mapped _ _ _ _ _ _ F). eapply mapped_weaken; [exact H|simpl; lia..]. }
    exists m'. split; [done|].
    eapply frame_trans; [exact F|]. eapply frame_weaken; [exact F'|lia..].
Qed.

Lemma store_bytes_inv_mapped m a l m' :
  store_bytes m a l = Some m' -> mapped m a (Z.of_nat (length l)).
Proof.
  revert m a; induction l as [|c l IH]; intros m a H x Hx; simpl in *; [lia|].
  destruct (m !! a) eqn:E; [|discriminate].
  destruct (decide (x = a)) as [->|]; [now rewrite E|].
  specialize (IH _ _ H x ltac:(lia)). now rewrite lookup_insert_ne in IH by done.
Qed.

Lemma store_load_bytes m a l m' :
  store_bytes m a l = Some m' -> load_bytes m' a (length l) = Some l.
Proof.
  revert m a; induction l as [|b l IH]; intros m a H; simpl in *; [done|].
  destruct (m !! a) eqn:E; [|discriminate].
  destruct (store_bytes_mapped _ _ _ (store_bytes_inv_mapped _ _ _ _ H)) as (m2 & E2 & F).
  rewrite H in E2. injection E2 as <-.
  destruct F as [_ F]. rewrite (F a) by lia. rewrite lookup_insert_eq.
  now rewrite (IH _ _ H).
Qed.

Lemma store_bytes_frame m a l m' :
  store_bytes m a l = Some m' -> frame m m' a (Z.of_nat (length l)).
Proof.
  revert m a; induction l as [|b l IH]; intros m a H; simpl in *.
  - injection H as <-. apply frame_refl.
  - destruct (m !! a) eqn:E; [|discriminate].
    eapply frame_trans.
    2: { eapply frame_weaken; [exact (IH _ _ H)|lia..]. }
    split; intros x.
    + rewrite lookup_insert. case_decide; [subst; rewrite E|]; naive_solver.
    + intros Hx. rewrite lookup_insert_ne; [done|lia].
Qed.

Lemma store_bytes_ok m a l m' :
  bytes_ok m -> is_bytes l -> store_bytes m a l = Some m' -> bytes_ok m'.
Proof.
  intros Hm Hl. revert m a Hm; induction Hl as [|b l Hb _ IH]; intros m a Hm H; simpl in H.
  - now injection H as <-.
  - destruct (m !! a) eqn:E; [|discriminate].
    eapply IH; [|exact H]. intros x c. rewrite lookup_insert.
    case_decide; [intros [= <-]; done|apply Hm].
Qed.

(** ** The heap behind [realloc] and [free]

    A bump allocator over the addresses from [h_next] up to [h_limit]: an
    allocation that does not fit is refused (NULL), a block is unmapped when it
    is freed, so that a later access to it faults. *)
Record heap := mk_heap {
  h_next : Z;
  h_limit : Z;
  h_blocks : gmap Z Z;
}.

Record world := mk_world {
  w_mem : mem;
  w_heap : heap;
}.

(** The contents of fresh memory are indeterminate; the model fills it with a
    pattern no test of the code can mistake for zero. *)
Definition fresh_byte : Z := 205.

Fixpoint map_block (m : mem) (a : Z) (n : nat) : mem :=
  match n with
  | O => m
  | S n => <[a := fresh_byte]> (map_block m (a + 1) n)
  end.

Fixpoint unmap_block (m : mem) (a : Z) (n : nat) : mem :=
  match n with
  | O => m
  | S n => delete a (unmap_block m (a + 1) n)
  end.

(** [free(ptr)]: NULL is ignored; freeing what is not a live block faults. *)
Definition c_free (ptr : Z) (w : world) : res world :=
  if ptr =? 0 then Ret w
  else match h_blocks (w_heap w) !! ptr with
       | None => Fault
       | Some n =>
           Ret (mk_world (unmap_block (w_mem w) ptr (Z.to_nat n))
                  (mk_heap (h_next (w_heap w)) (h_limit (w_heap w))
                     (delete ptr (h_blocks (w_heap w)))))
       end.

(** [malloc(size)]. *)
Definition c_malloc (size : Z) (w : world) : Z * world :=
  let h := w_heap w in
  if h_limit h <? h_next h + size then (0, w)
  else (h_next h,
        mk_world (map_block (w_mem w) (h_next h) (Z.to_nat size))
          (mk_heap (h_next h + size) (h_limit h) (<[h_next h := size]> (h_blocks h)))).

(** [realloc(ptr, size)]: allocates, copies the common prefix, frees the old
    block; on failure the old block is left alone and NULL is returned. *)
Definition c_realloc (ptr size : Z) (w : world) : res (Z * world) :=
  if ptr =? 0 then Ret (c_malloc size w)
  else match h_blocks (w_heap w) !! ptr with
       | None => Fault
       | Some old =>
           let '(p, w1) := c_malloc size w in
           if p =? 0 then Ret (0, w)
           else
             rbind (of_option (load_bytes (w_mem w1) ptr (Z.to_nat (Z.min old size))))
               (fun data =>
             rbind (of_option (store_bytes (w_mem w1) p data)) (fun m2 =>
             rbind (c_free ptr (mk_world m2 (w_heap w1))) (fun w3 =>
             Ret (p, w3))))
       end.

(** ** The monad of the stream code

    A function of the library takes a stream by pointer and returns [false] on
    failure: a computation over a stream [S] returns [None] when the C function
    returns [false], together with the stream and the world it leaves. *)
Definition M (S A : Type) : Type := S -> world -> res (option A * S * world).

Section Monad.
Context {S : Type}.

Definition ret {A} (a : A) : M S A := fun s w => Ret (Some a, s, w).

(** [return false;] *)
Definition fail {A} : M S A := fun s w => Ret (None, s, w).

(** [if (!m) return false; ...] *)
Definition bind {A B} (m : M S A) (k : A -> M S B) : M S B := fun s w =>
  rbind (m s w) (fun '(o, s', w') =>
    match o with
    | Some a => k a s' w'
    | None => Ret (None, s', w')
    end).

(** The result of [m], [false] included, as a value. *)
Definition catch {A} (m : M S A) : M S (option A) := fun s w =>
  rbind (m s w) (fun '(o, s', w') => Ret (Some o, s', w')).

Definition fault {A} : M S A := fun _ _ => Fault.
Definition nofuel {A} : M S A := fun _ _ => OutOfFuel.
Definition get : M S S := fun s w => Ret (Some s, s, w).
Definition put (s : S) : M S unit := fun _ w => Ret (Some tt, s, w).
Definition get_world : M S world := fun s w => Ret (Some w, s, w).
Definition put_world (w : world) : M S unit := fun s _ => Ret (Some tt, s, w).
Definition lift_res {A} (r : res A) : M S A := fun s w =>
  rbind r (fun a => Ret (Some a, s, w)).

(** Reads and writes of C objects in memory. *)
Definition load (a n : Z) : M S (list Z) := fun s w =>
  rbind (of_option (load_bytes (w_mem w) a (Z.to_nat n))) (fun l => Ret (Some l, s, w)).
Definition store (a : Z) (l : list Z) : M S unit := fun s w =>
  rbind (of_option (store_bytes (w_mem w) a l)) (fun m =>
    Ret (Some tt, s, mk_world m (w_heap w))).

(** Little-endian objects of [n] bytes. *)
Definition load_u (a n : Z) : M S Z := bind (load a n) (fun l => ret (le_val l)).
Definition store_u (a n x : Z) : M S unit := store a (le_bytes (Z.to_nat n) x).

(** Runs [m] on another stream [s0], a local variable of the caller; the
    result and the final value of that variable are returned. *)
Definition on_stream {S' A} (s0 : S') (m : M S' A) : M S (option A * S') := fun s w =>
  rbind (m s0 w) (fun '(o, s1, w') => Ret (Some (o, s1), s, w')).

(** ** Total-correctness weakest preconditions *)

Definition wp {A} (m : M S A) (Q : option A -> S -> world -> Prop) (s : S) (w : world) : Prop :=
  match m s w with
  | Ret (o, s', w') => Q o s' w'
  | Fault => False
  | OutOfFuel => False
  end.

Lemma wp_ret {A} (a : A) Q s w : Q (Some a) s w -> wp (ret a) Q s w.
Proof. done. Qed.

Lemma wp_fail {A} Q s w : Q None s w -> wp (@fail A) Q s w.
Proof. done. Qed.

Lemma wp_bind {A B} (m : M S A) (k : A -> M S B) Q s w :
  wp m (fun o s' w' => match o with
                       | Some a => wp (k a) Q s' w'
                       | None => Q None s' w'
                       end) s w ->
  wp (bind m k) Q s w.
Proof.
  unfold wp, bind. destruct (m s w) as [[[[a|] s'] w']| |]; simpl; done.
Qed.

Lemma wp_catch {A} (m : M S A) Q s w :
  wp m (fun o s' w' => Q (Some o) s' w') s w -> wp (catch m) Q s w.
Proof. unfold wp, catch. destruct (m s w) as [[[o s'] w']| |]; simpl; done. Qed.

Lemma wp_get Q s w : Q (Some s) s w -> wp get Q s w.
Proof. done. Qed.

Lemma wp_put s0 Q s w : Q (Some tt) s0 w -> wp (put s0) Q s w.
Proof. done. Qed.

Lemma wp_get_world Q s w : Q (Some w) s w -> wp get_world Q s w.
Proof. done. Qed.

Lemma wp_mono {A} (m : M S A) (Q Q' : option A -> S -> world -> Prop) s w :
  wp m Q s w -> (forall o s' w', Q o s' w' -> Q' o s' w') -> wp m Q' s w.
Proof. unfold wp. destruct (m s w) as [[[o s'] w']| |]; auto. Qed.

Lemma wp_load a n Q s w l :
  load_bytes (w_mem w) a (Z.to_nat n) = Some l -> Q (Some l) s w -> wp (load a n) Q s w.
Proof. unfold wp, load. now intros -> ?. Qed.

Lemma wp_store a l Q s w m' :
  store_bytes (w_mem w) a l = Some m' ->
  Q (Some tt) s (mk_world m' (w_heap w)) -> wp (store a l) Q s w.
Proof. unfold wp, store. now intros -> ?. Qed.

Lemma wp_load_u a n Q s w l :
  load_bytes (w_mem w) a (Z.to_nat n) = Some l ->
  Q (Some (le_val l)) s w -> wp (load_u a n) Q s w.
Proof.
  intros H HQ. apply wp_bind. eapply wp_load; [done|]. now apply wp_ret.
Qed.
End Monad.

Lemma wp_on_stream {S S' A} (s0 : S') (m : M S' A) (Q : option (option A * S') -> S -> world -> Prop) s w :
  wp m (fun o s1 w' => Q (Some (o, s1)) s w') s0 w -> wp (on_stream s0 m) Q s w.
Proof. unfold wp, on_stream. destruct (m s0 w) as [[[o s1] w']| |]; simpl; done. Qed.

Declare Scope cm_scope.
Delimit Scope cm_scope with cm.
Notation "'let*' x ':=' m 'in' k" := (bind m (fun x => k))
  (at level 200, x binder, m at level 200, k at level 200,
   format "'[v' 'let*'  x  ':='  m  'in' '/' k ']'") : cm_scope.
Notation "m ;; k" := (bind m (fun _ => k))
  (at level 100, k at level 200, right associativity,
   format "'[v' m  ;; '/' k ']'") : cm_scope.
#[global] Open Scope cm_scope.

(** ** Streams report errors

    [PB_SET_ERROR] works on the two stream types of the library through their
    [errmsg] member: it keeps the first message. *)
Class HasErrmsg (S : Type) := {
  errmsg_of : S -> option string;
  with_errmsg : option string -> S -> S;
  errmsg_with : forall e s, errmsg_of (with_errmsg e s) = e;
}.

Definition PB_SET_ERROR {S} `{HasErrmsg S} (msg : string) : M S unit := fun s w =>
  Ret (Some tt, with_errmsg (match errmsg_of s with
                             | Some e => Some e
                             | None => Some msg
                             end) s, w).

(** [PB_RETURN_ERROR(stream, msg)]. *)
Definition PB_RETURN_ERROR {S A} `{HasErrmsg S} (msg : string) : M S A :=
  PB_SET_ERROR msg ;; fail.

Lemma wp_error {S A} `{HasErrmsg S} msg (Q : option A -> S -> world -> Prop) s w :
  Q None (with_errmsg (match errmsg_of s with Some e => Some e | None => Some msg end) s) w ->
  wp (PB_RETURN_ERROR msg) Q s w.
Proof. done. Qed.

Create HintDb wp discriminated.
#[export] Hint Resolve wp_ret wp_fail wp_get wp_put wp_get_world : wp.

(** One step of symbolic execution. *)
Ltac wp_step :=
  lazymatch goal with
  | |- wp (bind _ _) _ _ _ => apply wp_bind
  | |- wp (ret _) _ _ _ => apply wp_ret
  | |- wp fail _ _ _ => apply wp_fail
  | |- wp get _ _ _ => apply wp_get
  | |- wp get_world _ _ _ => apply wp_get_world
  | |- wp (put _) _ _ _ => apply wp_put
  | |- wp (catch _) _ _ _ => apply wp_catch
  | |- wp (PB_RETURN_ERROR _) _ _ _ => apply wp_error
  | |- wp (on_stream _ _) _ _ _ => apply wp_on_stream
  end.
Ltac wp_steps := repeat (wp_step; cbv beta iota).
