(* ===== verification/Leb128.v ===== *)
(** * Base-128 numbers as byte strings

    The little-endian base-128 encoding that the protobuf wire format calls a
    varint and DWARF calls ULEB128: a definition independent of the code, and
    the facts about it that the encoders and decoders share. *)
From Stdlib Require Import ZArith Lia Bool List.
From stdpp Require Import base list numbers.
From S2P Require Import Prelude.

(** ** The reference encoding *)

(** At most [n] base-128 digits of [v], least significant first, the
    continuation bit on all but the last. *)
Fixpoint varint_digits (n : nat) (v : Z) : list Z :=
  match n with
  | O => []
  | S n => if v <? 128 then [v] else v mod 128 + 128 :: varint_digits n (v / 128)
  end.

Definition varint_bytes (v : Z) : list Z := varint_digits 10 v.

(** A varint string: continuation bit on all bytes but the last. *)
Fixpoint is_varint (l : list Z) : Prop :=
  match l with
  | [] => False
  | [b] => 0 <= b < 128
  | b :: l => 128 <= b < 256 /\ is_varint l
  end.

(** The number a varint string denotes. *)
Fixpoint varint_val (l : list Z) : Z :=
  match l with
  | [] => 0
  | b :: l => b mod 128 + 128 * varint_val l
  end.

Lemma pow_7_S n : 2 ^ (7 * Z.of_nat (S n)) = 128 * 2 ^ (7 * Z.of_nat n).
Proof. rewrite Nat2Z.inj_succ, Z.mul_succ_r, Z.pow_add_r by lia. lia. Qed.

Lemma varint_digits_ok n v :
  (0 < n)%nat -> 0 <= v < 2 ^ (7 * Z.of_nat n) ->
  is_varint (varint_digits n v) /\ varint_val (varint_digits n v) = v /\
  (length (varint_digits n v) <= n)%nat.
Proof.
  revert v; induction n as [|n IH]; intros v Hn Hv; [lia|].
  rewrite pow_7_S in Hv. cbn [varint_digits]. destruct (Z.ltb_spec v 128) as [L|L].
  - simpl. rewrite Z.mod_small; lia.
  - destruct n as [|n]; [change (2 ^ (7 * Z.of_nat 0)) with 1 in Hv; lia|].
    assert (Hq : 0 <= v / 128 < 2 ^ (7 * Z.of_nat (S n))).
    { split; [apply Z.div_pos; lia|]. apply Z.div_lt_upper_bound; lia. }
    destruct (IH (v / 128) ltac:(lia) Hq) as (H1 & H2 & H3).
    pose proof (Z.mod_pos_bound v 128 ltac:(lia)).
    set (t := varint_digits (S n) (v / 128)) in *. split; [|split].
    + destruct t as [|c t]; [done|]. split; [lia|done].
    + cbn [varint_val]. rewrite H2.
      rewrite <- Zplus_mod_idemp_r. change (128 mod 128) with 0. rewrite Z.add_0_r.
      rewrite Z.mod_mod by lia. pose proof (Z.div_mod v 128). lia.
    + cbn [length]. lia.
Qed.

Lemma is_varint_bytes l : is_varint l -> is_bytes l.
Proof.
  induction l as [|b l IH]; [done|]. destruct l as [|c l].
  - simpl. intros. apply Forall_singleton. unfold is_byte. lia.
  - intros [H1 H2]. constructor; [unfold is_byte; lia|]. exact (IH H2).
Qed.

Lemma varint_val_range l : is_varint l -> 0 <= varint_val l < 2 ^ (7 * Z.of_nat (length l)).
Proof.
  induction l as [|b l IH]; [done|]. intros H.
  cbn [length]. rewrite pow_7_S. cbn [varint_val].
  pose proof (Z.mod_pos_bound b 128 ltac:(lia)).
  destruct l as [|c l].
  - simpl in *. lia.
  - destruct H as [_ H]. specialize (IH H). lia.
Qed.

Lemma varint_bytes_ok v :
  0 <= v < 2 ^ 64 ->
  is_varint (varint_bytes v) /\ varint_val (varint_bytes v) = v /\
  (1 <= length (varint_bytes v) <= 10)%nat.
Proof.
  intros H. destruct (varint_digits_ok 10 v) as (H1 & H2 & H3); [lia| |].
  - change (2 ^ (7 * Z.of_nat 10)) with 1180591620717411303424. zpow. lia.
  - split; [done|]. split; [done|]. split; [|done].
    unfold varint_bytes. destruct (varint_digits 10 v); [done|simpl; lia].
Qed.

(** Of all the varint strings that denote [v], the reference encoding is the
    shortest. *)
Lemma varint_digits_min n v l :
  is_varint l -> varint_val l = v -> 0 <= v < 2 ^ (7 * Z.of_nat n) -> (0 < n)%nat ->
  (length (varint_digits n v) <= length l)%nat.
Proof.
  revert v l; induction n as [|n IH]; intros v l Hl Hv Hb Hn; [lia|].
  cbn [varint_digits]. destruct (Z.ltb_spec v 128) as [L|L].
  - destruct l; simpl; [done|lia].
  - destruct l as [|b [|c l]]; [done| |].
    + simpl in *. rewrite Z.mod_small in Hv; lia.
    + destruct Hl as [Hb1 Hl]. cbn [varint_val] in Hv.
      destruct n as [|n]; [rewrite pow_7_S in Hb; simpl in Hb; lia|].
      cbn [length]. apply le_n_S.
      pose proof (Z.mod_pos_bound b 128 ltac:(lia)).
      set (q := varint_val (c :: l)) in *.
      assert (Eq : v / 128 = q).
      { symmetry. apply Z.div_unique with (b mod 128); [lia|].
        unfold q. cbn [varint_val]. lia. }
      change (S (length l)) with (length (c :: l)).
      apply (IH (v / 128) (c :: l)); [done|now symmetry| |lia].
      split; [apply Z.div_pos; lia|]. rewrite pow_7_S in Hb.
      apply Z.div_lt_upper_bound; lia.
Qed.

(** ** Digits and bits *)

(** Accumulating a digit in a [W]-bit register. *)
Lemma lor_digit W p r d :
  0 <= p <= W -> 0 <= r < 2 ^ p ->
  Z.lor r (wrapu W (Z.shiftl d p)) = wrapu W (r + d * 2 ^ p).
Proof.
  intros Hp Hr. unfold wrapu. rewrite Z.shiftl_mul_pow2 by lia.
  assert (E : d * 2 ^ p mod 2 ^ W = (d mod 2 ^ (W - p)) * 2 ^ p).
  { replace (2 ^ W) with (2 ^ (W - p) * 2 ^ p)
      by (rewrite <- Z.pow_add_r by lia; f_equal; lia).
    apply Z.mul_mod_distr_r; apply Z.pow_nonzero; lia. }
  rewrite E, <- Z.shiftl_mul_pow2, lor_shiftl_add by lia.
  rewrite <- Zplus_mod_idemp_r, E. symmetry. apply Z.mod_small.
  pose proof (Z.mod_pos_bound d (2 ^ (W - p)) (Z.pow_pos_nonneg 2 (W - p) ltac:(lia) ltac:(lia))).
  assert (2 ^ W = 2 ^ (W - p) * 2 ^ p) as ->
    by (rewrite <- Z.pow_add_r by lia; f_equal; lia).
  pose proof (Z.pow_pos_nonneg 2 p ltac:(lia) ltac:(lia)). nia.
Qed.

Lemma more_bit b : 0 <= b < 256 -> negb (Z.land b 128 =? 0) = (128 <=? b).
Proof.
  intros. rewrite land_128 by done.
  destruct (Z.ltb_spec b 128), (Z.leb_spec 128 b); try lia; done.
Qed.

Lemma is_varint_inv b l :
  is_varint (b :: l) ->
  0 <= b < 256 /\ (l = [] /\ b < 128 \/ l <> [] /\ 128 <= b /\ is_varint l).
Proof.
  destruct l as [|c l].
  - simpl. intros. split; [lia|]. left. split; [done|lia].
  - intros [? ?]. split; [lia|]. right. split; [done|]. split; [lia|done].
Qed.
