(* ===== verification/PbCommon.v ===== *)
(** * nanopb: field descriptors and the field iterator (pb.h, pb_common.c)

    The type codes and descriptor structure of [pb.h] in the configuration the
    pod is built with ([PB_FIELD_32BIT], [PB_ENABLE_MALLOC], 64-bit pointers),
    the iterator of [pb_common.c], and the theorems that make it correct: the
    iterator walks the descriptor array cyclically, the addresses it computes
    depend on the position only, and a search stops and finds a matching field
    if there is one. *)
From Stdlib Require Import ZArith Lia Bool List String.
From stdpp Require Import base list gmap numbers.
From S2P Require Import Prelude CMem.

(** ** pb.h: constants *)

Definition PB_LTYPE_BOOL := 0x00.
Definition PB_LTYPE_VARINT := 0x01.
Definition PB_LTYPE_UVARINT := 0x02.
Definition PB_LTYPE_SVARINT := 0x03.
Definition PB_LTYPE_FIXED32 := 0x04.
Definition PB_LTYPE_FIXED64 := 0x05.
Definition PB_LTYPE_LAST_PACKABLE := 0x05.
Definition PB_LTYPE_BYTES := 0x06.
Definition PB_LTYPE_STRING := 0x07.
Definition PB_LTYPE_SUBMESSAGE := 0x08.
Definition PB_LTYPE_EXTENSION := 0x09.
Definition PB_LTYPE_FIXED_LENGTH_BYTES := 0x0A.
Definition PB_LTYPES_COUNT := 0x0B.
Definition PB_LTYPE_MASK := 0x0F.

Definition PB_HTYPE_REQUIRED := 0x00.
Definition PB_HTYPE_OPTIONAL := 0x10.
Definition PB_HTYPE_REPEATED := 0x20.
Definition PB_HTYPE_ONEOF := 0x30.
Definition PB_HTYPE_MASK := 0x30.

Definition PB_ATYPE_STATIC := 0x00.
Definition PB_ATYPE_POINTER := 0x80.
Definition PB_ATYPE_CALLBACK := 0x40.
Definition PB_ATYPE_MASK := 0xC0.

Definition PB_ATYPE (x : Z) : Z := Z.land x PB_ATYPE_MASK.
Definition PB_HTYPE (x : Z) : Z := Z.land x PB_HTYPE_MASK.
Definition PB_LTYPE (x : Z) : Z := Z.land x PB_LTYPE_MASK.

Definition PB_WT_VARINT := 0.
Definition PB_WT_64BIT := 1.
Definition PB_WT_STRING := 2.
Definition PB_WT_32BIT := 5.

Definition PB_MAX_REQUIRED_FIELDS := 64.

(** [(pb_size_t)-1] with [PB_FIELD_32BIT]. *)
Definition PB_SIZE_MAX := 2 ^ 32 - 1.
Definition sizeof_pb_size_t := 4.
Definition sizeof_ptr := 8.
Definition sizeof_bool := 1.
(** [offsetof(pb_bytes_array_t, bytes)]. *)
Definition offsetof_bytes := 4.

(** [PB_BYTES_ARRAY_T_ALLOCSIZE(n)], computed in [size_t]. *)
Definition PB_BYTES_ARRAY_T_ALLOCSIZE (n : Z) : Z := u64 (n + offsetof_bytes).

(** ** pb.h: field descriptors

    [struct pb_field_s]. A pointer is the address it holds, 0 being NULL; [ptr]
    is the address of a default value, or of a descriptor array. *)
Record pb_field := mk_field {
  tag : Z;
  type : Z;
  data_offset : Z;
  size_offset : Z;
  data_size : Z;
  array_size : Z;
  ptr : Z;
}.

Definition PB_LAST_FIELD : pb_field := mk_field 0 0 0 0 0 0 0.

(** The constant descriptor arrays of the program, by address. An array is the
    list of its entries before the terminator [PB_LAST_FIELD]. *)
Abbreviation descriptors := (gmap Z (list pb_field)).

(** ** pb_common.c: the iterator

    [struct pb_field_iter_s]; [pos] is the index into the array [start] points
    to, whose entry at the end is the terminator. *)
Record pb_field_iter := mk_iter {
  it_start : list pb_field;
  it_pos : nat;
  required_field_index : Z;
  dest_struct : Z;
  pData : Z;
  pSize : Z;
}.

Definition field_at (fields : list pb_field) (pos : nat) : pb_field :=
  nth pos fields PB_LAST_FIELD.
(** [*iter->pos]. *)
Definition it_field (it : pb_field_iter) : pb_field := field_at (it_start it) (it_pos it).

Definition pb_field_iter_begin (fields : list pb_field) (dest : Z) : bool * pb_field_iter :=
  let f := field_at fields 0 in
  let it :=
    if dest =? 0 then mk_iter fields 0 0 dest 0 0
    else let d := dest + data_offset f in
         mk_iter fields 0 0 dest d (d + size_offset f) in
  (negb (tag f =? 0), it).

(** The size the previous field takes in the structure. *)
Definition iter_prev_size (prev : pb_field) : Z :=
  if (PB_ATYPE (type prev) =? PB_ATYPE_STATIC) && (PB_HTYPE (type prev) =? PB_HTYPE_REPEATED)
  then data_size prev * array_size prev
  else if PB_ATYPE (type prev) =? PB_ATYPE_POINTER then sizeof_ptr
  else data_size prev.

Definition pb_field_iter_next (it : pb_field_iter) : bool * pb_field_iter :=
  let prev := it_field it in
  if tag prev =? 0 then (false, it)
  else
    let pos := S (it_pos it) in
    let cur := field_at (it_start it) pos in
    if tag cur =? 0 then
      (false, snd (pb_field_iter_begin (it_start it) (dest_struct it)))
    else if (PB_HTYPE (type prev) =? PB_HTYPE_ONEOF)
         && (PB_HTYPE (type cur) =? PB_HTYPE_ONEOF)
         && (data_offset cur =? PB_SIZE_MAX) then
      (true, mk_iter (it_start it) pos (required_field_index it) (dest_struct it)
               (pData it) (pSize it))
    else
      let prev_size := iter_prev_size prev in
      let req := if PB_HTYPE (type prev) =? PB_HTYPE_REQUIRED
                 then required_field_index it + 1 else required_field_index it in
      let d := pData it + prev_size + data_offset cur in
      (true, mk_iter (it_start it) pos req (dest_struct it) d (d + size_offset cur)).

(** Walks the iterator, starting with the current field, until [found] holds or
    the walk is back at [start]: the loop of [pb_field_iter_find] and of
    [find_extension_field]. *)
Fixpoint iter_search (found : pb_field -> bool) (start : nat) (fuel : nat)
    (it : pb_field_iter) : res (bool * pb_field_iter) :=
  match fuel with
  | O => OutOfFuel
  | S fuel =>
      if found (it_field it) then Ret (true, it)
      else
        let it' := snd (pb_field_iter_next it) in
        if (it_pos it' =? start)%nat then Ret (false, it')
        else iter_search found start fuel it'
  end.

Definition iter_fuel (it : pb_field_iter) : nat := S (length (it_start it)).

Definition field_matches (t : Z) (f : pb_field) : bool :=
  (tag f =? t) && negb (PB_LTYPE (type f) =? PB_LTYPE_EXTENSION).

Definition pb_field_iter_find (it : pb_field_iter) (t : Z) : res (bool * pb_field_iter) :=
  iter_search (field_matches t) (it_pos it) (iter_fuel it) it.

(** ** The iterator after [n] steps *)

Fixpoint iter_at (fields : list pb_field) (dest : Z) (n : nat) : pb_field_iter :=
  match n with
  | O => snd (pb_field_iter_begin fields dest)
  | S n => snd (pb_field_iter_next (iter_at fields dest n))
  end.

(** A descriptor array: no entry before the terminator has tag 0. *)
Definition fields_wf (fields : list pb_field) : Prop := Forall (fun f => tag f <> 0) fields.

#[export] Instance fields_wf_dec fields : Decision (fields_wf fields).
Proof. apply Forall_dec. intros f. destruct (decide (tag f = 0)); [right|left]; auto. Defined.

Lemma fields_wf_at fields n :
  fields_wf fields -> (n < length fields)%nat -> tag (field_at fields n) <> 0.
Proof.
  intros H Hn. unfold field_at. pose proof (proj1 (Forall_forall _ _) H) as H'.
  apply H', nth_In. lia.
Qed.

Lemma field_at_end fields n : (length fields <= n)%nat -> field_at fields n = PB_LAST_FIELD.
Proof. apply nth_overflow. Qed.

Lemma iter_begin_start fields dest : it_start (snd (pb_field_iter_begin fields dest)) = fields.
Proof. unfold pb_field_iter_begin. now destruct (dest =? 0). Qed.
Lemma iter_begin_pos fields dest : it_pos (snd (pb_field_iter_begin fields dest)) = 0%nat.
Proof. unfold pb_field_iter_begin. now destruct (dest =? 0). Qed.
Lemma iter_begin_dest fields dest : dest_struct (snd (pb_field_iter_begin fields dest)) = dest.
Proof. unfold pb_field_iter_begin. now destruct (dest =? 0). Qed.

#[export] Hint Rewrite iter_begin_start iter_begin_pos iter_begin_dest : pb.

Lemma iter_next_start it : it_start (snd (pb_field_iter_next it)) = it_start it.
Proof. unfold pb_field_iter_next. repeat bcase; try done. apply iter_begin_start. Qed.
Lemma iter_next_dest it : dest_struct (snd (pb_field_iter_next it)) = dest_struct it.
Proof. unfold pb_field_iter_next. repeat bcase; try done. apply iter_begin_dest. Qed.

Lemma iter_at_start fields dest n : it_start (iter_at fields dest n) = fields.
Proof. induction n; simpl; [apply iter_begin_start|]. now rewrite iter_next_start. Qed.
Lemma iter_at_dest fields dest n : dest_struct (iter_at fields dest n) = dest.
Proof. induction n; simpl; [apply iter_begin_dest|]. now rewrite iter_next_dest. Qed.

(** Advancing inside the array moves to the next entry; advancing past the last
    one is a fresh start. *)
Lemma iter_next_inside it :
  tag (it_field it) <> 0 -> tag (field_at (it_start it) (S (it_pos it))) <> 0 ->
  fst (pb_field_iter_next it) = true /\ it_pos (snd (pb_field_iter_next it)) = S (it_pos it).
Proof.
  intros H1 H2. unfold pb_field_iter_next.
  apply Z.eqb_neq in H1, H2. rewrite H1, H2. now bcase.
Qed.

Lemma iter_next_wrap it :
  tag (it_field it) <> 0 -> tag (field_at (it_start it) (S (it_pos it))) = 0 ->
  pb_field_iter_next it = (false, snd (pb_field_iter_begin (it_start it) (dest_struct it))).
Proof.
  intros H1 H2. unfold pb_field_iter_next.
  apply Z.eqb_neq in H1. rewrite H1, H2. reflexivity.
Qed.

Section Walk.
Context (fields : list pb_field) (dest : Z).
Context (Hwf : fields_wf fields).

Lemma iter_at_pos n : (n < length fields)%nat -> it_pos (iter_at fields dest n) = n.
Proof.
  induction n as [|n IH]; intros H; simpl; [apply iter_begin_pos|].
  destruct (iter_next_inside (iter_at fields dest n)) as [_ ->].
  - unfold it_field. rewrite iter_at_start, IH by lia. apply fields_wf_at; [done|lia].
  - rewrite iter_at_start, IH by lia. apply fields_wf_at; [done|lia].
  - now rewrite IH by lia.
Qed.

Lemma iter_at_field n :
  (n < length fields)%nat -> it_field (iter_at fields dest n) = field_at fields n.
Proof. intros. unfold it_field. now rewrite iter_at_start, iter_at_pos. Qed.

(** One step from position [n] leads to position [n+1], or back to 0. *)
Lemma iter_at_next n :
  (n < length fields)%nat ->
  pb_field_iter_next (iter_at fields dest n) =
  (if (S n <? length fields)%nat then (true, iter_at fields dest (S n))
   else (false, iter_at fields dest 0)).
Proof.
  intros H. destruct (Nat.ltb_spec (S n) (length fields)) as [L|L].
  - destruct (iter_next_inside (iter_at fields dest n)) as [E _].
    + rewrite iter_at_field by done. now apply fields_wf_at.
    + rewrite iter_at_start, iter_at_pos by done. now apply fields_wf_at.
    + simpl. destruct (pb_field_iter_next _); simpl in *. now subst.
  - rewrite iter_next_wrap.
    + now rewrite iter_at_start, iter_at_dest.
    + rewrite iter_at_field by done. now apply fields_wf_at.
    + rewrite iter_at_start, iter_at_pos by done. now rewrite field_at_end by lia.
Qed.

Definition cyc_next (n : nat) : nat := if (S n <? length fields)%nat then S n else O.

Lemma iter_at_next_snd n :
  (n < length fields)%nat ->
  snd (pb_field_iter_next (iter_at fields dest n)) = iter_at fields dest (cyc_next n).
Proof. intros. rewrite iter_at_next by done. unfold cyc_next. now destruct (_ <? _)%nat. Qed.

Lemma cyc_next_lt n : (n < length fields)%nat -> (cyc_next n < length fields)%nat.
Proof. intros. unfold cyc_next. destruct (Nat.ltb_spec (S n) (length fields)); lia. Qed.

(** The distance still to walk from [n] before [start] is reached again. *)
Definition cyc_dist (start n : nat) : nat :=
  if (start <? n)%nat then (length fields - n + start)%nat
  else if (n <? start)%nat then (start - n)%nat else length fields.

Lemma cyc_dist_pos start n :
  (start < length fields)%nat -> (n < length fields)%nat -> (0 < cyc_dist start n)%nat.
Proof.
  intros. unfold cyc_dist.
  destruct (Nat.ltb_spec start n), (Nat.ltb_spec n start); lia.
Qed.

Lemma cyc_dist_next start n :
  (start < length fields)%nat -> (n < length fields)%nat -> cyc_next n <> start ->
  cyc_dist start n = S (cyc_dist start (cyc_next n)).
Proof.
  unfold cyc_dist, cyc_next. intros.
  destruct (Nat.ltb_spec (S n) (length fields)) as [L|L];
    [destruct (Nat.ltb_spec start n), (Nat.ltb_spec n start),
       (Nat.ltb_spec start (S n)), (Nat.ltb_spec (S n) start)
    |destruct (Nat.ltb_spec start n), (Nat.ltb_spec n start),
       (Nat.ltb_spec start 0), (Nat.ltb_spec 0 start)]; lia.
Qed.

(** The search from [n] returns at a match, or at [start] with every field
    walked over not matching. *)
Lemma iter_search_spec found start fuel n :
  (start < length fields)%nat -> (n < length fields)%nat ->
  (cyc_dist start n <= fuel)%nat -> (0 < fuel)%nat ->
  exists b k,
    iter_search found start fuel (iter_at fields dest n) = Ret (b, iter_at fields dest k) /\
    (k < length fields)%nat /\
    (if b then found (field_at fields k) = true
     else k = start /\
          forall j, (j < length fields)%nat ->
            ((start < n)%nat /\ (j < start \/ n <= j)%nat \/
             (n <= start)%nat /\ (n <= j)%nat /\ (n < start -> j < start)%nat \/
             (n = start)%nat) ->
            found (field_at fields j) = false).
Proof.
  revert n; induction fuel as [|fuel IH]; intros n Hs Hn Hf H0; [lia|].
  cbn [iter_search]. rewrite iter_at_field by done.
  destruct (found (field_at fields n)) eqn:Ef; [now exists true, n|].
  rewrite iter_at_next_snd by done.
  pose proof (cyc_next_lt n Hn) as Hn'.
  rewrite iter_at_pos by done.
  destruct (Nat.eqb_spec (cyc_next n) start) as [E|E].
  - exists false, (cyc_next n). do 3 (split; [done|]). intros j Hj Hcase.
    unfold cyc_next in E. destruct (Nat.ltb_spec (S n) (length fields)).
    + assert (j = n \/ n = start) as [->| ->] by lia; [done|lia].
    + assert (j = n) as -> by lia. done.
  - destruct (IH (cyc_next n)) as (b & k & HE & Hk & Hb); try done.
    + pose proof (cyc_dist_next start n Hs Hn E). lia.
    + pose proof (cyc_dist_next start n Hs Hn E). pose proof (cyc_dist_pos start (cyc_next n) Hs Hn'). lia.
    + exists b, k. split; [done|]. split; [done|]. destruct b; [done|].
      destruct Hb as [-> Hb]. split; [done|]. intros j Hj Hc.
      destruct (decide (j = n)) as [->|Hne]; [done|]. apply Hb; [done|].
      unfold cyc_next in *. destruct (Nat.ltb_spec (S n) (length fields)); lia.
Qed.
End Walk.

Lemma cyc_dist_le fields start n :
  (start < length fields)%nat -> (n < length fields)%nat ->
  (cyc_dist fields start n <= length fields)%nat.
Proof.
  intros. unfold cyc_dist.
  destruct (Nat.ltb_spec start n), (Nat.ltb_spec n start); lia.
Qed.

(** A search from any reachable position terminates; it stops at a match, or
    back where it started, with no match anywhere in the array. *)
Lemma iter_search_at fields dest found n :
  fields_wf fields -> (n < length fields)%nat ->
  exists b k,
    iter_search found n (S (length fields)) (iter_at fields dest n)
      = Ret (b, iter_at fields dest k) /\
    (k < length fields)%nat /\
    (if b then found (field_at fields k) = true
     else k = n /\ forall j, (j < length fields)%nat -> found (field_at fields j) = false).
Proof.
  intros Hwf Hn.
  pose proof (cyc_dist_le fields n n Hn Hn).
  destruct (iter_search_spec fields dest Hwf found n (S (length fields)) n)
    as (b & k & E & Hk & Hb); try lia.
  exists b, k. split; [done|]. split; [done|].
  destruct b; [done|]. destruct Hb as [-> Hb]. split; [done|].
  intros j Hj. apply Hb; [done|]. lia.
Qed.

Lemma iter_find_at fields dest t n :
  fields_wf fields -> (n < length fields)%nat ->
  exists b k,
    pb_field_iter_find (iter_at fields dest n) t = Ret (b, iter_at fields dest k) /\
    (k < length fields)%nat /\
    (if b then field_matches t (field_at fields k) = true
     else k = n /\ forall j, (j < length fields)%nat -> field_matches t (field_at fields j) = false).
Proof.
  intros Hwf Hn. unfold pb_field_iter_find, iter_fuel.
  rewrite iter_at_pos, iter_at_start by done. now apply iter_search_at.
Qed.

(** ** A loop over all fields: [do { body } while (pb_field_iter_next(&iter));] *)
Fixpoint iter_do {S} (body : pb_field_iter -> M S unit) (fuel : nat)
    (it : pb_field_iter) : M S unit :=
  match fuel with
  | O => nofuel
  | Datatypes.S fuel =>
      body it ;;
      let '(more, it') := pb_field_iter_next it in
      if more then iter_do body fuel it' else ret tt
  end.

(** An array with an entry is not empty. *)
Lemma begin_nonempty fields dest :
  fields_wf fields ->
  pb_field_iter_begin fields dest = (negb (length fields =? 0)%nat, iter_at fields dest 0).
Proof.
  intros Hwf. unfold pb_field_iter_begin. simpl. f_equal.
  destruct fields as [|f fs]; [done|]. simpl. inversion Hwf; subst.
  unfold field_at. simpl. now destruct (Z.eqb_spec (tag f) 0).
Qed.

(** ** Offsets in the structure *)

(** The offset of the data and of the has/count member of a field, as the
    iterator computes them. *)
Definition f_off (fields : list pb_field) (i : nat) : Z := pData (iter_at fields 1 i) - 1.
Definition f_soff (fields : list pb_field) (i : nat) : Z := pSize (iter_at fields 1 i) - 1.

Definition it_shift (k : Z) (it : pb_field_iter) : pb_field_iter :=
  mk_iter (it_start it) (it_pos it) (required_field_index it)
    (dest_struct it + k) (pData it + k) (pSize it + k).

Lemma iter_begin_shift fields d k :
  d <> 0 -> d + k <> 0 ->
  snd (pb_field_iter_begin fields (d + k)) = it_shift k (snd (pb_field_iter_begin fields d)).
Proof.
  intros H1 H2. unfold pb_field_iter_begin, it_shift.
  apply Z.eqb_neq in H1, H2. rewrite H1, H2. simpl. f_equal; lia.
Qed.

Lemma iter_next_shift k it :
  dest_struct it <> 0 -> dest_struct it + k <> 0 ->
  snd (pb_field_iter_next (it_shift k it)) = it_shift k (snd (pb_field_iter_next it)).
Proof.
  intros H1 H2. unfold pb_field_iter_next, it_field. simpl.
  destruct (tag _ =? 0); [done|]. destruct (tag _ =? 0).
  { simpl. now apply iter_begin_shift. }
  destruct (_ && _); [done|]. unfold it_shift. simpl. f_equal; lia.
Qed.

(** The iterator addresses are relative to the structure. *)
Lemma iter_at_off fields dest i :
  dest <> 0 ->
  pData (iter_at fields dest i) = dest + f_off fields i /\
  pSize (iter_at fields dest i) = dest + f_soff fields i.
Proof.
  intros H. assert (E : iter_at fields dest i = it_shift (dest - 1) (iter_at fields 1 i)).
  { induction i as [|i IH]; cbn [iter_at].
    - rewrite <- iter_begin_shift by lia. do 2 f_equal. lia.
    - rewrite IH. apply iter_next_shift; rewrite iter_at_dest; lia. }
  rewrite E. unfold f_off, f_soff. simpl. lia.
Qed.
