(* ===== verification/PbEncode.v ===== *)
(** * nanopb: the encoder (pb_encode.c)

    Output streams, the wire-level writers and the field encoders, one
    definition per C function. Encoding a submessage recurses into [pb_encode]:
    the functions in between take the recursive call as an argument, and
    [pb_encode] ties the knot with fuel, one unit per level of nesting. *)
From Stdlib Require Import ZArith Lia Bool List String.
From stdpp Require Import base list gmap numbers.
From S2P Require Import Prelude CMem PbCommon.

(** ** Output streams *)

(** The [callback] member: NULL is the sizing stream. *)
Inductive ocallback :=
| OCB_NULL
| OCB_buf_write
| OCB_user (fn : Z).

(** [struct pb_ostream_s]. *)
Record pb_ostream := mk_ostream {
  os_callback : ocallback;
  os_state : Z;
  max_size : Z;
  bytes_written : Z;
  os_errmsg : option string;
}.

#[export, refine] Instance pb_ostream_errmsg : HasErrmsg pb_ostream := {|
  errmsg_of := os_errmsg;
  with_errmsg e s := mk_ostream (os_callback s) (os_state s) (max_size s) (bytes_written s) e;
|}.
Proof. done. Defined.

Definition set_os_state (x : Z) (s : pb_ostream) : pb_ostream :=
  mk_ostream (os_callback s) x (max_size s) (bytes_written s) (os_errmsg s).
Definition set_bytes_written (x : Z) (s : pb_ostream) : pb_ostream :=
  mk_ostream (os_callback s) (os_state s) (max_size s) x (os_errmsg s).
Definition set_os_errmsg (e : option string) (s : pb_ostream) : pb_ostream :=
  mk_ostream (os_callback s) (os_state s) (max_size s) (bytes_written s) e.

Definition PB_OSTREAM_SIZING : pb_ostream := mk_ostream OCB_NULL 0 0 0 None.

Abbreviation Enc := (M pb_ostream).

(** Code of the application the encoder calls through function pointers: the
    callback of a user stream, of a callback field, of an extension type. *)
Record enc_externs := mk_enc_externs {
  x_write : Z -> list Z -> Enc unit;
  x_encode : Z -> pb_field -> Z -> Enc unit;
  x_ext_encode : Z -> Z -> Enc unit;
}.

(** A [const pb_byte_t *] argument: a local array of the caller, or an address. *)
Inductive cbuf :=
| BufLocal (l : list Z)
| BufMem (a : Z).
Definition BufNULL : cbuf := BufMem 0.

Definition buf_contents (buf : cbuf) (count : Z) : Enc (list Z) :=
  match buf with
  | BufLocal l => if Z.of_nat (length l) <? count then fault else ret (take (Z.to_nat count) l)
  | BufMem a => load a count
  end.

Definition buf_write (buf : cbuf) (count : Z) : Enc unit :=
  let* s := get in
  let* data := buf_contents buf count in
  put (set_os_state (os_state s + count) s) ;;
  store (os_state s) data.

Definition pb_ostream_from_buffer (buf bufsize : Z) : pb_ostream :=
  mk_ostream OCB_buf_write buf bufsize 0 None.

Section Encoder.
Context (X : enc_externs) (D : descriptors).

Definition call_write (buf : cbuf) (count : Z) : Enc unit :=
  let* s := get in
  match os_callback s with
  | OCB_NULL => fault
  | OCB_buf_write => buf_write buf count
  | OCB_user fn => let* data := buf_contents buf count in x_write X fn data
  end.

Definition pb_write (buf : cbuf) (count : Z) : Enc unit :=
  let* s := get in
  (if (0 <? count) && negb (match os_callback s with OCB_NULL => true | _ => false end) then
     if (u64 (bytes_written s + count) <? bytes_written s)
        || (max_size s <? u64 (bytes_written s + count))
     then PB_RETURN_ERROR "stream full"
     else
       let* ok := catch (call_write buf count) in
       match ok with
       | None => PB_RETURN_ERROR "io error"
       | Some _ => ret tt
       end
   else ret tt) ;;
  let* s := get in
  put (set_bytes_written (u64 (bytes_written s + count)) s).

(** ** Helper functions *)

(** [while (value) { buffer[i] = ...; value >>= 7; i++; }] with
    [pb_byte_t buffer[10]]. *)
Fixpoint encode_varint_loop (fuel : nat) (value : Z) (buffer : list Z) : res (list Z) :=
  match fuel with
  | O => OutOfFuel
  | S fuel =>
      if value =? 0 then Ret buffer
      else if 10 <=? Z.of_nat (length buffer) then Fault
      else encode_varint_loop fuel (Z.shiftr value 7)
             (buffer ++ [u8 (Z.lor (Z.land value 0x7F) 0x80)])
  end.

Definition pb_encode_varint (value : Z) : Enc unit :=
  if value <=? 0x7F then pb_write (BufLocal [u8 value]) 1
  else
    let* buffer := lift_res (encode_varint_loop 11 value []) in
    let i := length buffer in
    let buffer := alter (fun b => Z.land b 0x7F) (i - 1)%nat buffer in
    pb_write (BufLocal buffer) (Z.of_nat i).

Definition zigzag (value : Z) : Z :=
  if value <? 0 then u64 (Z.lnot (u64 (Z.shiftl (u64 value) 1)))
  else u64 (Z.shiftl (u64 value) 1).

Definition pb_encode_svarint (value : Z) : Enc unit := pb_encode_varint (zigzag value).

Definition fixed32_bytes (val : Z) : list Z :=
  [u8 (Z.land val 0xFF); u8 (Z.land (Z.shiftr val 8) 0xFF);
   u8 (Z.land (Z.shiftr val 16) 0xFF); u8 (Z.land (Z.shiftr val 24) 0xFF)].

Definition pb_encode_fixed32 (value : Z) : Enc unit :=
  let* val := load_u value 4 in
  pb_write (BufLocal (fixed32_bytes val)) 4.

Definition fixed64_bytes (val : Z) : list Z :=
  [u8 (Z.land val 0xFF); u8 (Z.land (Z.shiftr val 8) 0xFF);
   u8 (Z.land (Z.shiftr val 16) 0xFF); u8 (Z.land (Z.shiftr val 24) 0xFF);
   u8 (Z.land (Z.shiftr val 32) 0xFF); u8 (Z.land (Z.shiftr val 40) 0xFF);
   u8 (Z.land (Z.shiftr val 48) 0xFF); u8 (Z.land (Z.shiftr val 56) 0xFF)].

Definition pb_encode_fixed64 (value : Z) : Enc unit :=
  let* val := load_u value 8 in
  pb_write (BufLocal (fixed64_bytes val)) 8.

Definition pb_encode_tag (wiretype field_number : Z) : Enc unit :=
  pb_encode_varint (Z.lor (u64 (Z.shiftl field_number 3)) wiretype).

(** The wire type of a field, [None] for a type with none. *)
Definition wire_type_of (ltype : Z) : option Z :=
  if (ltype =? PB_LTYPE_BOOL) || (ltype =? PB_LTYPE_VARINT)
     || (ltype =? PB_LTYPE_UVARINT) || (ltype =? PB_LTYPE_SVARINT)
  then Some PB_WT_VARINT
  else if ltype =? PB_LTYPE_FIXED32 then Some PB_WT_32BIT
  else if ltype =? PB_LTYPE_FIXED64 then Some PB_WT_64BIT
  else if (ltype =? PB_LTYPE_BYTES) || (ltype =? PB_LTYPE_STRING)
          || (ltype =? PB_LTYPE_SUBMESSAGE) || (ltype =? PB_LTYPE_FIXED_LENGTH_BYTES)
  then Some PB_WT_STRING
  else None.

Definition pb_encode_tag_for_field (field : pb_field) : Enc unit :=
  match wire_type_of (PB_LTYPE (type field)) with
  | None => PB_RETURN_ERROR "invalid field type"
  | Some wiretype => pb_encode_tag wiretype (tag field)
  end.

Definition pb_encode_string (buffer : cbuf) (size : Z) : Enc unit :=
  pb_encode_varint size ;;
  pb_write buffer size.

(** [safe_read_bool]. *)
Definition safe_read_bool (p : Z) : Enc bool :=
  let* b := load_u p sizeof_bool in ret (negb (b =? 0)).

(** ** Submessages *)

Section Rec.
(** The recursive call of [pb_encode]. *)
Context (rec_encode : list pb_field -> Z -> Enc unit).

Definition pb_encode_submessage (fields : list pb_field) (src_struct : Z) : Enc unit :=
  let* r := on_stream PB_OSTREAM_SIZING (rec_encode fields src_struct) in
  let '(ok, substream) := r in
  match ok with
  | None => let* s := get in put (set_os_errmsg (os_errmsg substream) s) ;; fail
  | Some _ =>
      let size := bytes_written substream in
      pb_encode_varint size ;;
      let* s := get in
      match os_callback s with
      | OCB_NULL => pb_write BufNULL size
      | _ =>
          if max_size s <? u64 (bytes_written s + size) then PB_RETURN_ERROR "stream full"
          else
            let* r := on_stream (mk_ostream (os_callback s) (os_state s) size 0 None)
                        (rec_encode fields src_struct) in
            let '(status, substream) := r in
            let* s := get in
            put (mk_ostream (os_callback s) (os_state substream) (max_size s)
                   (u64 (bytes_written s + bytes_written substream)) (os_errmsg substream)) ;;
            if negb (bytes_written substream =? size) then PB_RETURN_ERROR "submsg size changed"
            else match status with Some _ => ret tt | None => fail end
      end
  end.

(** ** Field encoders *)

Definition pb_enc_bool (field : pb_field) (src : Z) : Enc unit :=
  let* b := safe_read_bool src in
  pb_encode_varint (if b then 1 else 0).

Definition pb_enc_varint (field : pb_field) (src : Z) : Enc unit :=
  let* value :=
    if data_size field =? 1 then let* x := load_u src 1 in ret (s8 x)
    else if data_size field =? 2 then let* x := load_u src 2 in ret (s16 x)
    else if data_size field =? 4 then let* x := load_u src 4 in ret (s32 x)
    else if data_size field =? 8 then let* x := load_u src 8 in ret (s64 x)
    else PB_RETURN_ERROR "invalid data_size" in
  pb_encode_varint (u64 value).

Definition pb_enc_uvarint (field : pb_field) (src : Z) : Enc unit :=
  let* value :=
    if data_size field =? 1 then load_u src 1
    else if data_size field =? 2 then load_u src 2
    else if data_size field =? 4 then load_u src 4
    else if data_size field =? 8 then load_u src 8
    else PB_RETURN_ERROR "invalid data_size" in
  pb_encode_varint value.

Definition pb_enc_svarint (field : pb_field) (src : Z) : Enc unit :=
  let* value :=
    if data_size field =? 1 then let* x := load_u src 1 in ret (s8 x)
    else if data_size field =? 2 then let* x := load_u src 2 in ret (s16 x)
    else if data_size field =? 4 then let* x := load_u src 4 in ret (s32 x)
    else if data_size field =? 8 then let* x := load_u src 8 in ret (s64 x)
    else PB_RETURN_ERROR "invalid data_size" in
  pb_encode_svarint value.

Definition pb_enc_fixed64 (field : pb_field) (src : Z) : Enc unit := pb_encode_fixed64 src.
Definition pb_enc_fixed32 (field : pb_field) (src : Z) : Enc unit := pb_encode_fixed32 src.

Definition pb_enc_bytes (field : pb_field) (src : Z) : Enc unit :=
  if src =? 0 then pb_encode_string BufNULL 0
  else
    let* size := load_u src sizeof_pb_size_t in
    if (PB_ATYPE (type field) =? PB_ATYPE_STATIC)
       && (u64 (data_size field - offsetof_bytes) <? size)
    then PB_RETURN_ERROR "bytes size exceeded"
    else pb_encode_string (BufMem (src + offsetof_bytes)) size.

(** [while (size < max_size && *p != '\0') { size++; p++; }] *)
Fixpoint strnlen_loop (fuel : nat) (p size max : Z) : Enc Z :=
  match fuel with
  | O => nofuel
  | S fuel =>
      if size <? max then
        let* c := load_u p 1 in
        if c =? 0 then ret size else strnlen_loop fuel (p + 1) (size + 1) max
      else ret size
  end.

Definition pb_enc_string (field : pb_field) (src : Z) : Enc unit :=
  let max := if PB_ATYPE (type field) =? PB_ATYPE_POINTER then 2 ^ 64 - 1
             else data_size field in
  let* size :=
    if src =? 0 then ret 0
    else (* every character read is at another mapped address *)
      let* w := get_world in strnlen_loop (2 + size (w_mem w)) src 0 max in
  pb_encode_string (BufMem src) size.

Definition pb_enc_submessage (field : pb_field) (src : Z) : Enc unit :=
  if ptr field =? 0 then PB_RETURN_ERROR "invalid field descriptor"
  else
    let* fields := lift_res (of_option (D !! ptr field)) in
    pb_encode_submessage fields src.

Definition pb_enc_fixed_length_bytes (field : pb_field) (src : Z) : Enc unit :=
  pb_encode_string (BufMem src) (data_size field).

(** [PB_ENCODERS[ltype]]: reading past the table faults; the entry of the
    extension type is NULL, and calling it faults. *)
Definition PB_ENCODERS (ltype : Z) : res (pb_field -> Z -> Enc unit) :=
  if ltype =? PB_LTYPE_BOOL then Ret pb_enc_bool
  else if ltype =? PB_LTYPE_VARINT then Ret pb_enc_varint
  else if ltype =? PB_LTYPE_UVARINT then Ret pb_enc_uvarint
  else if ltype =? PB_LTYPE_SVARINT then Ret pb_enc_svarint
  else if ltype =? PB_LTYPE_FIXED32 then Ret pb_enc_fixed32
  else if ltype =? PB_LTYPE_FIXED64 then Ret pb_enc_fixed64
  else if ltype =? PB_LTYPE_BYTES then Ret pb_enc_bytes
  else if ltype =? PB_LTYPE_STRING then Ret pb_enc_string
  else if ltype =? PB_LTYPE_SUBMESSAGE then Ret pb_enc_submessage
  else if ltype =? PB_LTYPE_EXTENSION then Ret (fun _ _ => fault)
  else if ltype =? PB_LTYPE_FIXED_LENGTH_BYTES then Ret pb_enc_fixed_length_bytes
  else Fault.

(** ** Encode a single field *)

(** [for (i = 0; i < count; i++) { if (!func(stream, field, p)) return false; p += data_size; }] *)
Fixpoint encode_items (func : pb_field -> Z -> Enc unit) (field : pb_field)
    (count : nat) (p : Z) : Enc unit :=
  match count with
  | O => ret tt
  | S count => func field p ;; encode_items func field count (p + data_size field)
  end.

(** The unpacked form: a tag before every entry, and one more dereference for
    the entries of a pointer array of strings or bytes. *)
Fixpoint encode_items_tagged (func : pb_field -> Z -> Enc unit) (field : pb_field)
    (count : nat) (p : Z) : Enc unit :=
  match count with
  | O => ret tt
  | S count =>
      pb_encode_tag_for_field field ;;
      (if (PB_ATYPE (type field) =? PB_ATYPE_POINTER)
          && ((PB_LTYPE (type field) =? PB_LTYPE_STRING)
              || (PB_LTYPE (type field) =? PB_LTYPE_BYTES))
       then let* q := load_u p sizeof_ptr in func field q
       else func field p) ;;
      encode_items_tagged func field count (p + data_size field)
  end.

Definition encode_array (field : pb_field) (pData count : Z)
    (func : pb_field -> Z -> Enc unit) : Enc unit :=
  if count =? 0 then ret tt
  else if negb (PB_ATYPE (type field) =? PB_ATYPE_POINTER) && (array_size field <? count)
  then PB_RETURN_ERROR "array max size exceeded"
  else if PB_LTYPE (type field) <=? PB_LTYPE_LAST_PACKABLE then
    pb_encode_tag PB_WT_STRING (tag field) ;;
    let* size :=
      if PB_LTYPE (type field) =? PB_LTYPE_FIXED32 then ret (u64 (4 * count))
      else if PB_LTYPE (type field) =? PB_LTYPE_FIXED64 then ret (u64 (8 * count))
      else
        let* r := on_stream PB_OSTREAM_SIZING (encode_items func field (Z.to_nat count) pData) in
        match r with
        | (None, _) => fail
        | (Some _, sizestream) => ret (bytes_written sizestream)
        end in
    pb_encode_varint size ;;
    let* s := get in
    match os_callback s with
    | OCB_NULL => pb_write BufNULL size
    | _ => encode_items func field (Z.to_nat count) pData
    end
  else encode_items_tagged func field (Z.to_nat count) pData.

End Rec.

(** [for (i = 0; i < data_size; i++) if (p[i] != 0) return false; return true;] *)
Fixpoint bytes_all_zero (n : nat) (p : Z) : Enc bool :=
  match n with
  | O => ret true
  | S n => let* b := load_u p 1 in
           if b =? 0 then bytes_all_zero n (p + 1) else ret false
  end.

(** The loop over the fields of a submessage: [true] when every field has its
    default value. *)
Fixpoint iter_all_default (check : pb_field -> Z -> Enc bool) (fuel : nat)
    (it : pb_field_iter) : Enc bool :=
  match fuel with
  | O => nofuel
  | S fuel =>
      let* d := check (it_field it) (pData it) in
      if negb d then ret false
      else
        let '(more, it') := pb_field_iter_next it in
        if more then iter_all_default check fuel it' else ret true
  end.

(** The part of [pb_check_proto3_default_value] for proto3 singular fields. *)
Definition check_proto3_singular (rec_check : pb_field -> Z -> Enc bool)
    (field : pb_field) (pData : Z) : Enc bool :=
  let ty := type field in
  if (PB_ATYPE ty =? PB_ATYPE_STATIC) && (PB_LTYPE ty =? PB_LTYPE_BYTES) then
    let* size := load_u pData sizeof_pb_size_t in ret (size =? 0)
  else if (PB_ATYPE ty =? PB_ATYPE_STATIC) && (PB_LTYPE ty =? PB_LTYPE_STRING) then
    let* c := load_u pData 1 in ret (c =? 0)
  else if (PB_ATYPE ty =? PB_ATYPE_STATIC) && (PB_LTYPE ty =? PB_LTYPE_FIXED_LENGTH_BYTES) then
    ret (data_size field =? 0)
  else if (PB_ATYPE ty =? PB_ATYPE_STATIC) && (PB_LTYPE ty =? PB_LTYPE_SUBMESSAGE) then
    let* fields := lift_res (of_option (D !! ptr field)) in
    let '(nonempty, it) := pb_field_iter_begin fields pData in
    if nonempty then iter_all_default rec_check (iter_fuel it) it else ret true
  else if (PB_ATYPE ty =? PB_ATYPE_POINTER) && (PB_LTYPE_LAST_PACKABLE <? PB_LTYPE ty) then
    let* p := load_u pData sizeof_ptr in ret (p =? 0)
  else bytes_all_zero (Z.to_nat (data_size field)) pData.

Fixpoint pb_check_proto3_default_value (fuel : nat) (field : pb_field) (pData : Z) : Enc bool :=
  match fuel with
  | O => nofuel
  | S fuel =>
      let ty := type field in
      let pSize := pData + size_offset field in
      let singular := check_proto3_singular (pb_check_proto3_default_value fuel) field pData in
      if PB_HTYPE ty =? PB_HTYPE_REQUIRED then ret false
      else if PB_HTYPE ty =? PB_HTYPE_REPEATED then
        if negb (size_offset field =? 0) then
          let* n := load_u pSize sizeof_pb_size_t in ret (n =? 0)
        else if PB_ATYPE ty =? PB_ATYPE_STATIC then ret false
        else singular
      else if PB_HTYPE ty =? PB_HTYPE_ONEOF then
        let* n := load_u pSize sizeof_pb_size_t in ret (n =? 0)
      else if negb (size_offset field =? 0) then
        let* b := safe_read_bool pSize in ret (negb b)
      else singular
  end.

Section Rec2.
Context (fuel : nat) (rec_encode : list pb_field -> Z -> Enc unit).

(** [pSize] is [None] when it is the address of the local [implicit_has]. *)
Definition encode_basic_field (field : pb_field) (pData0 : Z) : Enc unit :=
  let* func := lift_res (PB_ENCODERS rec_encode (PB_LTYPE (type field))) in
  let pSize := if size_offset field =? 0 then None else Some (pData0 + size_offset field) in
  let* implicit_has0 :=
    match pSize with
    | Some _ => ret false
    | None =>
        if PB_HTYPE (type field) =? PB_HTYPE_OPTIONAL
        then let* d := pb_check_proto3_default_value fuel field pData0 in ret (negb d)
        else ret true
    end in
  let* pd :=
    if PB_ATYPE (type field) =? PB_ATYPE_POINTER
    then let* p := load_u pData0 sizeof_ptr in ret (p, negb (p =? 0))
    else ret (pData0, implicit_has0) in
  let '(pData, implicit_has) := pd in
  if PB_HTYPE (type field) =? PB_HTYPE_REQUIRED then
    if pData =? 0 then PB_RETURN_ERROR "missing required field"
    else pb_encode_tag_for_field field ;; func field pData
  else if PB_HTYPE (type field) =? PB_HTYPE_OPTIONAL then
    let* has := match pSize with Some p => safe_read_bool p | None => ret implicit_has end in
    if has : bool then pb_encode_tag_for_field field ;; func field pData else ret tt
  else if PB_HTYPE (type field) =? PB_HTYPE_REPEATED then
    let* count := match pSize with
                  | Some p => load_u p sizeof_pb_size_t
                  | None => ret (array_size field)
                  end in
    encode_array field pData count func
  else (* PB_HTYPE_ONEOF *)
    let* which := match pSize with
                  | Some p => load_u p sizeof_pb_size_t
                  | None => fault
                  end in
    if which =? tag field then pb_encode_tag_for_field field ;; func field pData
    else ret tt.

(** [pb_callback_t]: the function pointer, then [arg]. *)
Definition encode_callback_field (field : pb_field) (pData : Z) : Enc unit :=
  let* fn := load_u pData sizeof_ptr in
  if negb (fn =? 0) then
    let* ok := catch (x_encode X fn field (pData + sizeof_ptr)) in
    match ok with
    | None => PB_RETURN_ERROR "callback error"
    | Some _ => ret tt
    end
  else ret tt.

Definition encode_field (field : pb_field) (pData : Z) : Enc unit :=
  let a := PB_ATYPE (type field) in
  if (a =? PB_ATYPE_STATIC) || (a =? PB_ATYPE_POINTER) then encode_basic_field field pData
  else if a =? PB_ATYPE_CALLBACK then encode_callback_field field pData
  else PB_RETURN_ERROR "invalid field type".

(** [struct pb_extension_s] is [type; dest; next; found]; the structure [type]
    points to is [decode; encode; arg]. *)
Definition default_extension_encoder (extension : Z) : Enc unit :=
  let* ty := load_u extension sizeof_ptr in
  let* arg := load_u (ty + 16) sizeof_ptr in
  let* fields := lift_res (of_option (D !! arg)) in
  let field := field_at fields 0 in
  if PB_ATYPE (type field) =? PB_ATYPE_POINTER then encode_field field (extension + 8)
  else let* dest := load_u (extension + 8) sizeof_ptr in encode_field field dest.

(** [while (extension) { ...; extension = extension->next; }] *)
Fixpoint encode_extensions (n : nat) (extension : Z) : Enc unit :=
  match n with
  | O => nofuel
  | S n =>
      if extension =? 0 then ret tt
      else
        let* ty := load_u extension sizeof_ptr in
        let* fn := load_u (ty + 8) sizeof_ptr in
        (if negb (fn =? 0) then x_ext_encode X fn extension
         else default_extension_encoder extension) ;;
        let* next := load_u (extension + 16) sizeof_ptr in
        encode_extensions n next
  end.

Definition encode_extension_field (field : pb_field) (pData : Z) : Enc unit :=
  let* extension := load_u pData sizeof_ptr in
  encode_extensions fuel extension.

(** The body of the loop of [pb_encode]. *)
Definition pb_encode_one (it : pb_field_iter) : Enc unit :=
  if PB_LTYPE (type (it_field it)) =? PB_LTYPE_EXTENSION
  then encode_extension_field (it_field it) (pData it)
  else encode_field (it_field it) (pData it).
End Rec2.

(** ** Encode all fields *)

Fixpoint pb_encode (fuel : nat) (fields : list pb_field) (src_struct : Z) : Enc unit :=
  match fuel with
  | O => nofuel
  | S fuel =>
      let '(nonempty, it) := pb_field_iter_begin fields src_struct in
      if nonempty then iter_do (pb_encode_one fuel (pb_encode fuel)) (iter_fuel it) it
      else ret tt
  end.

Definition pb_encode_delimited (fuel : nat) (fields : list pb_field) (src_struct : Z) : Enc unit :=
  pb_encode_submessage (pb_encode fuel) fields src_struct.

Definition pb_encode_nullterminated (fuel : nat) (fields : list pb_field) (src_struct : Z) : Enc unit :=
  pb_encode fuel fields src_struct ;;
  pb_write (BufLocal [0]) 1.

(** [pb_get_encoded_size]: the size is returned, [None] when the C function
    returns [false]. *)
Definition pb_get_encoded_size (fuel : nat) (fields : list pb_field) (src_struct : Z)
    (w : world) : res (option Z * world) :=
  rbind (pb_encode fuel fields src_struct PB_OSTREAM_SIZING w) (fun '(o, s, w') =>
    match o with
    | None => Ret (None, w')
    | Some _ => Ret (Some (bytes_written s), w')
    end).

End Encoder.
