(* ===== verification/PbDecode.v ===== *)
(** * nanopb: the decoder (pb_decode.c)

    Input streams, the wire-level readers, the field decoders, default values
    and the release of allocated fields, one definition per C function, for the
    configuration of the pod ([PB_ENABLE_MALLOC], [PB_FIELD_32BIT]). Decoding a
    submessage recurses into [pb_decode_noinit]: the functions in between take
    the recursive call as an argument. *)
From Stdlib Require Import ZArith Lia Bool List String.
From stdpp Require Import base list gmap numbers.
From S2P Require Import Prelude CMem PbCommon.

(** ** Input streams *)

Inductive icallback :=
| ICB_buf_read
| ICB_user (fn : Z).

(** What [state] points to: memory, or the rest of a local array of the
    caller. *)
Inductive isource :=
| SrcMem (a : Z)
| SrcLocal (l : list Z).

(** [struct pb_istream_s]. *)
Record pb_istream := mk_istream {
  is_callback : icallback;
  is_state : isource;
  bytes_left : Z;
  is_errmsg : option string;
}.

#[export, refine] Instance pb_istream_errmsg : HasErrmsg pb_istream := {|
  errmsg_of := is_errmsg;
  with_errmsg e s := mk_istream (is_callback s) (is_state s) (bytes_left s) e;
|}.
Proof. done. Defined.

Definition set_is_state (x : isource) (s : pb_istream) : pb_istream :=
  mk_istream (is_callback s) x (bytes_left s) (is_errmsg s).
Definition set_bytes_left (n : Z) (s : pb_istream) : pb_istream :=
  mk_istream (is_callback s) (is_state s) n (is_errmsg s).
Definition set_is_errmsg (e : option string) (s : pb_istream) : pb_istream :=
  mk_istream (is_callback s) (is_state s) (bytes_left s) e.

Abbreviation Dec := (M pb_istream).

(** Code of the application the decoder calls through function pointers: the
    callback of a user stream (it delivers the bytes), of a callback field, of
    an extension type. *)
Record dec_externs := mk_dec_externs {
  x_read : Z -> Z -> Dec (list Z);
  x_decode : Z -> pb_field -> Z -> Dec unit;
  x_ext_decode : Z -> Z -> Z -> Z -> Dec unit;
}.

(** The [buf] argument of a read: NULL, a local array, or memory. *)
Inductive rbuf :=
| RNull
| RLocal
| RMem (a : Z).

Definition src_load (src : isource) (count : Z) : Dec (list Z) :=
  match src with
  | SrcMem a => load a count
  | SrcLocal l => if Z.of_nat (length l) <? count then fault else ret (take (Z.to_nat count) l)
  end.

Definition src_advance (src : isource) (count : Z) : isource :=
  match src with
  | SrcMem a => SrcMem (a + count)
  | SrcLocal l => SrcLocal (drop (Z.to_nat count) l)
  end.

(** Delivers the bytes a read produced. *)
Definition deliver (buf : rbuf) (data : list Z) : Dec (list Z) :=
  match buf with
  | RMem a => store a data ;; ret data
  | _ => ret data
  end.

Definition buf_read (buf : rbuf) (count : Z) : Dec (list Z) :=
  let* s := get in
  put (set_is_state (src_advance (is_state s) count) s) ;;
  match buf with
  | RNull => ret []
  | _ => let* data := src_load (is_state s) count in deliver buf data
  end.

Definition pb_istream_from_buffer (src : isource) (bufsize : Z) : pb_istream :=
  mk_istream ICB_buf_read src bufsize None.

Section Decoder.
Context (X : dec_externs) (D : descriptors).

Definition call_read (buf : rbuf) (count : Z) : Dec (list Z) :=
  let* s := get in
  match is_callback s with
  | ICB_buf_read => buf_read buf count
  | ICB_user fn => let* data := x_read X fn count in deliver buf data
  end.

(** [pb_read] with a buffer, or with the buffer callback. *)
Definition pb_read_some (buf : rbuf) (count : Z) : Dec (list Z) :=
  let* s := get in
  if bytes_left s <? count then PB_RETURN_ERROR "end-of-stream"
  else
    let* ok := catch (call_read buf count) in
    match ok with
    | None => PB_RETURN_ERROR "io error"
    | Some data =>
        let* s := get in
        put (set_bytes_left (u64 (bytes_left s - count)) s) ;;
        ret data
    end.

(** [while (count > 16) { pb_read(stream, tmp, 16); count -= 16; }] *)
Fixpoint pb_skip_loop (fuel : nat) (count : Z) : Dec (list Z) :=
  match fuel with
  | O => nofuel
  | S fuel =>
      if 16 <? count then pb_read_some RLocal 16 ;; pb_skip_loop fuel (count - 16)
      else pb_read_some RLocal count
  end.

Definition pb_read (buf : rbuf) (count : Z) : Dec (list Z) :=
  if count =? 0 then ret []
  else
    let* s := get in
    match buf, is_callback s with
    | RNull, ICB_user _ => pb_skip_loop (Z.to_nat count) count
    | _, _ => pb_read_some buf count
    end.

Definition pb_readbyte : Dec Z :=
  let* s := get in
  if bytes_left s =? 0 then PB_RETURN_ERROR "end-of-stream"
  else
    let* ok := catch (call_read RLocal 1) in
    match ok with
    | None => PB_RETURN_ERROR "io error"
    | Some data =>
        let* s := get in
        put (set_bytes_left (u64 (bytes_left s - 1)) s) ;;
        match data with
        | b :: _ => ret b
        | [] => fault
        end
    end.

(** ** Helper functions *)

(** The multibyte loop of [pb_decode_varint32_eof]; [bitpos] is a
    [uint_fast8_t], eight bits wide. *)
Fixpoint varint32_loop (fuel : nat) (bitpos result : Z) : Dec Z :=
  match fuel with
  | O => nofuel
  | S fuel =>
      let* byte := pb_readbyte in
      let* result' :=
        if 32 <=? bitpos then
          let sign_extension := if bitpos <? 63 then 0xFF else 0x01 in
          if negb (Z.land byte 0x7F =? 0)
             && ((Z.shiftr result 31 =? 0) || negb (byte =? sign_extension))
          then PB_RETURN_ERROR "varint overflow"
          else ret result
        else ret (Z.lor result (u32 (Z.shiftl (Z.land byte 0x7F) bitpos))) in
      let bitpos' := u8 (bitpos + 7) in
      if negb (Z.land byte 0x80 =? 0) then varint32_loop fuel bitpos' result'
      else if (bitpos' =? 35) && negb (Z.land byte 0x70 =? 0)
      then PB_RETURN_ERROR "varint overflow"
      else ret result'
  end.

(** The value, if the C function returns [true], and the flag stored through
    [eof]. *)
Definition pb_decode_varint32_eof : Dec (option Z * bool) :=
  let* ok := catch pb_readbyte in
  match ok with
  | None => let* s := get in ret (None, bytes_left s =? 0)
  | Some byte =>
      if Z.land byte 0x80 =? 0 then ret (Some byte, false)
      else
        let* s := get in
        let* r := catch (varint32_loop (S (Z.to_nat (bytes_left s))) 7 (Z.land byte 0x7F)) in
        ret (r, false)
  end.

Definition pb_decode_varint32 : Dec Z :=
  let* r := pb_decode_varint32_eof in
  match fst r with
  | Some x => ret x
  | None => fail
  end.

(** [do { ... } while (byte & 0x80)] of [pb_decode_varint]. *)
Fixpoint varint_loop (fuel : nat) (bitpos result : Z) : Dec Z :=
  match fuel with
  | O => nofuel
  | S fuel =>
      if 64 <=? bitpos then PB_RETURN_ERROR "varint overflow"
      else
        let* byte := pb_readbyte in
        let result := Z.lor result (u64 (Z.shiftl (Z.land byte 0x7F) bitpos)) in
        let bitpos := u8 (bitpos + 7) in
        if negb (Z.land byte 0x80 =? 0) then varint_loop fuel bitpos result
        else ret result
  end.

Definition pb_decode_varint : Dec Z := varint_loop 11 0 0.

Fixpoint skip_varint_loop (fuel : nat) : Dec unit :=
  match fuel with
  | O => nofuel
  | S fuel =>
      let* data := pb_read RLocal 1 in
      match data with
      | byte :: _ => if negb (Z.land byte 0x80 =? 0) then skip_varint_loop fuel else ret tt
      | [] => fault
      end
  end.

Definition pb_skip_varint : Dec unit :=
  let* s := get in skip_varint_loop (S (Z.to_nat (bytes_left s))).

Definition pb_skip_string : Dec unit :=
  let* length := pb_decode_varint32 in
  pb_read RNull length ;; ret tt.

(** [pb_decode_tag]: [true] with the tag and wire type, or [false] with the
    flag [eof]. *)
Inductive tag_result :=
| TagOk (t wire_type : Z)
| TagFalse (eof : bool).

Definition pb_decode_tag : Dec tag_result :=
  let* r := pb_decode_varint32_eof in
  match r with
  | (None, eof) => ret (TagFalse eof)
  | (Some temp, _) =>
      if temp =? 0 then ret (TagFalse true)
      else ret (TagOk (Z.shiftr temp 3) (Z.land temp 7))
  end.

Definition pb_skip_field (wire_type : Z) : Dec unit :=
  if wire_type =? PB_WT_VARINT then pb_skip_varint
  else if wire_type =? PB_WT_64BIT then pb_read RNull 8 ;; ret tt
  else if wire_type =? PB_WT_STRING then pb_skip_string
  else if wire_type =? PB_WT_32BIT then pb_read RNull 4 ;; ret tt
  else PB_RETURN_ERROR "invalid wire_type".

(** The varint case of [read_raw_value]: the bytes of the varint, at most
    [max_size] of them. *)
Fixpoint raw_varint_loop (fuel : nat) (size max_size : Z) : Dec (list Z) :=
  match fuel with
  | O => nofuel
  | S fuel =>
      let size := size + 1 in
      if max_size <? size then fail
      else
        let* data := pb_read RLocal 1 in
        match data with
        | byte :: _ =>
            if negb (Z.land byte 0x80 =? 0)
            then let* rest := raw_varint_loop fuel size max_size in ret (byte :: rest)
            else ret [byte]
        | [] => fault
        end
  end.

(** [read_raw_value]: the bytes stored through [buf]; [*size] is their number. *)
Definition read_raw_value (wire_type max_size : Z) : Dec (list Z) :=
  if wire_type =? PB_WT_VARINT then raw_varint_loop (S (Z.to_nat max_size)) 0 max_size
  else if wire_type =? PB_WT_64BIT then pb_read RLocal 8
  else if wire_type =? PB_WT_32BIT then pb_read RLocal 4
  else PB_RETURN_ERROR "invalid wire_type".

Definition pb_make_string_substream : Dec pb_istream :=
  let* size := pb_decode_varint32 in
  let* s := get in
  if bytes_left s <? size then PB_RETURN_ERROR "parent stream too short"
  else
    put (set_bytes_left (u64 (bytes_left s - size)) s) ;;
    ret (set_bytes_left size s).

Definition pb_close_string_substream (substream : pb_istream) : Dec unit :=
  let* r :=
    if negb (bytes_left substream =? 0)
    then on_stream substream (pb_read RNull (bytes_left substream))
    else ret (Some [], substream) in
  match r with
  | (None, _) => fail
  | (Some _, sub) =>
      let* s := get in
      put (set_is_errmsg (is_errmsg sub) (set_is_state (is_state sub) s))
  end.

(** ** Field decoders for scalars *)

Definition pb_decode_svarint : Dec Z :=
  let* value := pb_decode_varint in
  if negb (Z.land value 1 =? 0) then ret (s64 (u64 (Z.lnot (Z.shiftr value 1))))
  else ret (s64 (Z.shiftr value 1)).

Definition pb_decode_fixed32 (dest : Z) : Dec unit :=
  let* bytes := pb_read RLocal 4 in
  match bytes with
  | [b0; b1; b2; b3] =>
      store_u dest 4 (Z.lor (Z.lor (Z.lor (Z.shiftl b0 0) (Z.shiftl b1 8))
                               (Z.shiftl b2 16)) (Z.shiftl b3 24))
  | _ => fault
  end.

Definition pb_decode_fixed64 (dest : Z) : Dec unit :=
  let* bytes := pb_read RLocal 8 in
  match bytes with
  | [b0; b1; b2; b3; b4; b5; b6; b7] =>
      store_u dest 8
        (Z.lor (Z.lor (Z.lor (Z.lor (Z.lor (Z.lor (Z.lor
           (Z.shiftl b0 0) (Z.shiftl b1 8)) (Z.shiftl b2 16)) (Z.shiftl b3 24))
           (Z.shiftl b4 32)) (Z.shiftl b5 40)) (Z.shiftl b6 48)) (Z.shiftl b7 56))
  | _ => fault
  end.

Definition pb_dec_bool (field : pb_field) (dest : Z) : Dec unit :=
  let* value := pb_decode_varint32 in
  store_u dest sizeof_bool (if negb (value =? 0) then 1 else 0).

Definition pb_decode_bool (dest : Z) : Dec unit := pb_dec_bool PB_LAST_FIELD dest.

Definition pb_dec_varint (field : pb_field) (dest : Z) : Dec unit :=
  let* value := pb_decode_varint in
  let svalue := if data_size field =? 8 then s64 value else s32 value in
  let* clamped :=
    if data_size field =? 8 then store_u dest 8 (u64 svalue) ;; ret svalue
    else if data_size field =? 4 then store_u dest 4 (u32 svalue) ;; ret (s32 svalue)
    else if data_size field =? 2 then store_u dest 2 (u16 svalue) ;; ret (s16 svalue)
    else if data_size field =? 1 then store_u dest 1 (u8 svalue) ;; ret (s8 svalue)
    else PB_RETURN_ERROR "invalid data_size" in
  if negb (clamped =? svalue) then PB_RETURN_ERROR "integer too large" else ret tt.

Definition pb_dec_uvarint (field : pb_field) (dest : Z) : Dec unit :=
  let* value := pb_decode_varint in
  let* clamped :=
    if data_size field =? 8 then store_u dest 8 value ;; ret value
    else if data_size field =? 4 then store_u dest 4 (u32 value) ;; ret (u32 value)
    else if data_size field =? 2 then store_u dest 2 (u16 value) ;; ret (u16 value)
    else if data_size field =? 1 then store_u dest 1 (u8 value) ;; ret (u8 value)
    else PB_RETURN_ERROR "invalid data_size" in
  if negb (clamped =? value) then PB_RETURN_ERROR "integer too large" else ret tt.

Definition pb_dec_svarint (field : pb_field) (dest : Z) : Dec unit :=
  let* value := pb_decode_svarint in
  let* clamped :=
    if data_size field =? 8 then store_u dest 8 (u64 value) ;; ret value
    else if data_size field =? 4 then store_u dest 4 (u32 value) ;; ret (s32 value)
    else if data_size field =? 2 then store_u dest 2 (u16 value) ;; ret (s16 value)
    else if data_size field =? 1 then store_u dest 1 (u8 value) ;; ret (s8 value)
    else PB_RETURN_ERROR "invalid data_size" in
  if negb (clamped =? value) then PB_RETURN_ERROR "integer too large" else ret tt.

Definition pb_dec_fixed32 (field : pb_field) (dest : Z) : Dec unit := pb_decode_fixed32 dest.
Definition pb_dec_fixed64 (field : pb_field) (dest : Z) : Dec unit := pb_decode_fixed64 dest.

(** ** Allocation *)

Definition allocate_field (pData data_size array_size : Z) : Dec unit :=
  let* ptr := load_u pData sizeof_ptr in
  if (data_size =? 0) || (array_size =? 0) then PB_RETURN_ERROR "invalid size"
  else
    let check_limit := 2 ^ 32 in
    if ((check_limit <=? data_size) || (check_limit <=? array_size))
       && ((2 ^ 64 - 1) / array_size <? data_size)
    then PB_RETURN_ERROR "size too large"
    else
      let* w := get_world in
      let* r := lift_res (c_realloc ptr (u64 (array_size * data_size)) w) in
      let '(p, w') := r in
      put_world w' ;;
      if p =? 0 then PB_RETURN_ERROR "realloc failed"
      else store_u pData sizeof_ptr p.

Definition pb_dec_bytes (field : pb_field) (dest : Z) : Dec unit :=
  let* size := pb_decode_varint32 in
  if PB_SIZE_MAX <? size then PB_RETURN_ERROR "bytes overflow"
  else
    let alloc_size := PB_BYTES_ARRAY_T_ALLOCSIZE size in
    if alloc_size <? size then PB_RETURN_ERROR "size too large"
    else
      let* bdest :=
        if PB_ATYPE (type field) =? PB_ATYPE_POINTER then
          let* s := get in
          if bytes_left s <? size then PB_RETURN_ERROR "end-of-stream"
          else allocate_field dest alloc_size 1 ;; load_u dest sizeof_ptr
        else
          if data_size field <? alloc_size then PB_RETURN_ERROR "bytes overflow"
          else ret dest in
      store_u bdest sizeof_pb_size_t size ;;
      pb_read (RMem (bdest + offsetof_bytes)) size ;; ret tt.

(** [alloc_size = size + 1] is computed in [uint32_t] before it is widened. *)
Definition pb_dec_string (field : pb_field) (dest0 : Z) : Dec unit :=
  let* size := pb_decode_varint32 in
  let alloc_size := u32 (size + 1) in
  if alloc_size <? size then PB_RETURN_ERROR "size too large"
  else
    let* dest :=
      if PB_ATYPE (type field) =? PB_ATYPE_POINTER then
        let* s := get in
        if bytes_left s <? size then PB_RETURN_ERROR "end-of-stream"
        else allocate_field dest0 alloc_size 1 ;; load_u dest0 sizeof_ptr
      else
        if data_size field <? alloc_size then PB_RETURN_ERROR "string overflow"
        else ret dest0 in
    let* status := catch (pb_read (RMem dest) size) in
    store_u (dest + size) 1 0 ;;
    match status with Some _ => ret tt | None => fail end.

Definition pb_dec_fixed_length_bytes (field : pb_field) (dest : Z) : Dec unit :=
  let* size := pb_decode_varint32 in
  if PB_SIZE_MAX <? size then PB_RETURN_ERROR "bytes overflow"
  else if size =? 0 then store dest (replicate (Z.to_nat (data_size field)) 0)
  else if negb (size =? data_size field)
  then PB_RETURN_ERROR "incorrect fixed length bytes size"
  else pb_read (RMem dest) (data_size field) ;; ret tt.

(** ** Default values *)

(** [iter_from_extension]; an extension is [type; dest; next; found]. *)
Definition iter_from_extension (extension : Z) : Dec pb_field_iter :=
  let* ty := load_u extension sizeof_ptr in
  let* arg := load_u (ty + 16) sizeof_ptr in
  let* dest := load_u (extension + 8) sizeof_ptr in
  let* fields := lift_res (of_option (D !! arg)) in
  let it := snd (pb_field_iter_begin fields dest) in
  let d := if PB_ATYPE (type (field_at fields 0)) =? PB_ATYPE_POINTER
           then extension + 8 else dest in
  ret (mk_iter (it_start it) (it_pos it) (required_field_index it) (dest_struct it)
         d (extension + 24)).

(** [while (ext != NULL) { ...; ext = ext->next; }] *)
Fixpoint foreach_extension (body : Z -> Dec unit) (fuel : nat) (ext : Z) : Dec unit :=
  match fuel with
  | O => nofuel
  | S fuel =>
      if ext =? 0 then ret tt
      else
        body ext ;;
        let* next := load_u (ext + 16) sizeof_ptr in
        foreach_extension body fuel next
  end.

Definition memset0 (a n : Z) : Dec unit := store a (replicate (Z.to_nat n) 0).

(** The body of [pb_field_set_to_default]; [set_defaults] is the call of
    [pb_message_set_to_defaults], [rec_field] its own recursive call. *)
Definition field_set_to_default (fuel : nat) (set_defaults : list pb_field -> Z -> Dec unit)
    (rec_field : pb_field_iter -> Dec unit) (it : pb_field_iter) : Dec unit :=
  let f := it_field it in
  let ty := type f in
  if PB_LTYPE ty =? PB_LTYPE_EXTENSION then
    let* ext := load_u (pData it) sizeof_ptr in
    foreach_extension (fun ext =>
      store_u (ext + 24) sizeof_bool 0 ;;
      let* ext_iter := iter_from_extension ext in
      rec_field ext_iter) fuel ext
  else if PB_ATYPE ty =? PB_ATYPE_STATIC then
    let* init_data :=
      if (PB_HTYPE ty =? PB_HTYPE_OPTIONAL) && negb (pSize it =? pData it)
      then store_u (pSize it) sizeof_bool 0 ;; ret true
      else if (PB_HTYPE ty =? PB_HTYPE_REPEATED) || (PB_HTYPE ty =? PB_HTYPE_ONEOF)
      then store_u (pSize it) sizeof_pb_size_t 0 ;; ret false
      else ret true in
    if init_data : bool then
      if PB_LTYPE ty =? PB_LTYPE_SUBMESSAGE then
        let* fields := lift_res (of_option (D !! ptr f)) in
        set_defaults fields (pData it)
      else if negb (ptr f =? 0) then
        let* l := load (ptr f) (data_size f) in store (pData it) l
      else memset0 (pData it) (data_size f)
    else ret tt
  else if PB_ATYPE ty =? PB_ATYPE_POINTER then
    store_u (pData it) sizeof_ptr 0 ;;
    if (PB_HTYPE ty =? PB_HTYPE_REPEATED) || (PB_HTYPE ty =? PB_HTYPE_ONEOF)
    then store_u (pSize it) sizeof_pb_size_t 0
    else ret tt
  else ret tt.

Fixpoint pb_field_set_to_default (fuel : nat) (it : pb_field_iter) : Dec unit :=
  match fuel with
  | O => nofuel
  | S fuel =>
      field_set_to_default fuel
        (fun fields dest =>
           let '(nonempty, it') := pb_field_iter_begin fields dest in
           if nonempty then iter_do (pb_field_set_to_default fuel) (iter_fuel it') it'
           else ret tt)
        (pb_field_set_to_default fuel) it
  end.

Definition pb_message_set_to_defaults (fuel : nat) (fields : list pb_field) (dest : Z) : Dec unit :=
  let '(nonempty, it) := pb_field_iter_begin fields dest in
  if nonempty then iter_do (pb_field_set_to_default fuel) (iter_fuel it) it else ret tt.

(** ** Release of allocated fields *)

Definition pb_free (p : Z) : Dec unit :=
  let* w := get_world in
  let* w' := lift_res (c_free p w) in
  put_world w'.

(** [for (; count > 0; count--) { pb_free( *pItem); *pItem++ = NULL; }] *)
Fixpoint release_strings (count : nat) (pItem : Z) : Dec unit :=
  match count with
  | O => ret tt
  | S count =>
      let* p := load_u pItem sizeof_ptr in
      pb_free p ;;
      store_u pItem sizeof_ptr 0 ;;
      release_strings count (pItem + sizeof_ptr)
  end.

(** [for (; count > 0; count--) { pb_release(ptr, pItem); pItem += data_size; }] *)
Fixpoint release_items (release : Z -> Dec unit) (step : Z) (count : nat) (pItem : Z) : Dec unit :=
  match count with
  | O => ret tt
  | S count => release pItem ;; release_items release step count (pItem + step)
  end.

Definition release_single_field (fuel : nat) (release : list pb_field -> Z -> Dec unit)
    (rec_field : pb_field_iter -> Dec unit) (it : pb_field_iter) : Dec unit :=
  let f := it_field it in
  let ty := type f in
  let* skip :=
    if PB_HTYPE ty =? PB_HTYPE_ONEOF
    then let* which := load_u (pSize it) sizeof_pb_size_t in ret (negb (which =? tag f))
    else ret false in
  if skip : bool then ret tt
  else
    (if PB_LTYPE ty =? PB_LTYPE_EXTENSION then
       let* ext := load_u (pData it) sizeof_ptr in
       foreach_extension (fun ext =>
         let* ext_iter := iter_from_extension ext in rec_field ext_iter) fuel ext
     else if (PB_LTYPE ty =? PB_LTYPE_SUBMESSAGE) && negb (PB_ATYPE ty =? PB_ATYPE_CALLBACK) then
       let* pItem := if PB_ATYPE ty =? PB_ATYPE_POINTER
                     then load_u (pData it) sizeof_ptr else ret (pData it) in
       let* count :=
         if PB_HTYPE ty =? PB_HTYPE_REPEATED then
           let* c := if (PB_ATYPE ty =? PB_ATYPE_STATIC) && (pSize it =? pData it)
                     then ret (array_size f) else load_u (pSize it) sizeof_pb_size_t in
           ret (if (PB_ATYPE ty =? PB_ATYPE_STATIC) && (array_size f <? c)
                then array_size f else c)
         else ret 1 in
       if negb (pItem =? 0) then
         let* fields := lift_res (of_option (D !! ptr f)) in
         release_items (release fields) (data_size f) (Z.to_nat count) pItem
       else ret tt
     else ret tt) ;;
    if PB_ATYPE ty =? PB_ATYPE_POINTER then
      (if (PB_HTYPE ty =? PB_HTYPE_REPEATED)
          && ((PB_LTYPE ty =? PB_LTYPE_STRING) || (PB_LTYPE ty =? PB_LTYPE_BYTES)) then
         let* pItem := load_u (pData it) sizeof_ptr in
         let* count := load_u (pSize it) sizeof_pb_size_t in
         release_strings (Z.to_nat count) pItem
       else ret tt) ;;
      (if PB_HTYPE ty =? PB_HTYPE_REPEATED
       then store_u (pSize it) sizeof_pb_size_t 0 else ret tt) ;;
      let* p := load_u (pData it) sizeof_ptr in
      pb_free p ;;
      store_u (pData it) sizeof_ptr 0
    else ret tt.

Fixpoint pb_release_single_field (fuel : nat) (it : pb_field_iter) : Dec unit :=
  match fuel with
  | O => nofuel
  | S fuel =>
      release_single_field fuel
        (fun fields dest =>
           if dest =? 0 then ret tt
           else
             let '(nonempty, it') := pb_field_iter_begin fields dest in
             if nonempty then iter_do (pb_release_single_field fuel) (iter_fuel it') it'
             else ret tt)
        (pb_release_single_field fuel) it
  end.

Definition pb_release (fuel : nat) (fields : list pb_field) (dest : Z) : Dec unit :=
  if dest =? 0 then ret tt
  else
    let '(nonempty, it) := pb_field_iter_begin fields dest in
    if nonempty then iter_do (pb_release_single_field fuel) (iter_fuel it) it else ret tt.

Definition pb_release_union_field (fuel : nat) (it : pb_field_iter) : Dec pb_field_iter :=
  let* old_tag := load_u (pSize it) sizeof_pb_size_t in
  let new_tag := tag (it_field it) in
  if old_tag =? 0 then ret it
  else if old_tag =? new_tag then ret it
  else
    let* r := lift_res (pb_field_iter_find it old_tag) in
    let '(found, it1) := r in
    if negb found then PB_RETURN_ERROR "invalid union tag"
    else
      pb_release_single_field fuel it1 ;;
      let* r := lift_res (pb_field_iter_find it1 new_tag) in
      let '(found, it2) := r in
      if negb found then PB_RETURN_ERROR "iterator error"
      else
        (if PB_ATYPE (type (it_field it2)) =? PB_ATYPE_POINTER
         then store_u (pData it2) sizeof_ptr 0 else ret tt) ;;
        ret it2.

(** Clears a newly allocated item that contains a pointer or is a submessage. *)
Definition initialize_pointer_field (fuel : nat) (pItem : Z) (it : pb_field_iter) : Dec unit :=
  let f := it_field it in
  if (PB_LTYPE (type f) =? PB_LTYPE_STRING) || (PB_LTYPE (type f) =? PB_LTYPE_BYTES)
  then store_u pItem sizeof_ptr 0
  else if PB_LTYPE (type f) =? PB_LTYPE_SUBMESSAGE then
    memset0 pItem (data_size f) ;;
    let* fields := lift_res (of_option (D !! ptr f)) in
    pb_message_set_to_defaults fuel fields pItem
  else ret tt.

(** ** Decode a single field *)

(** The value [iter->pSize] points at the local [fixed_count_size] of
    [pb_decode_noinit]; no object has this address. *)
Definition addr_fixed_count : Z := -1.

(** [*(pb_size_t* )iter->pSize], where [fixed] is the value of that local. *)
Definition read_size (it : pb_field_iter) (fixed : Z) : Dec Z :=
  if pSize it =? addr_fixed_count then ret fixed else load_u (pSize it) sizeof_pb_size_t.
(** Returns the new value of the local. *)
Definition write_size (it : pb_field_iter) (fixed n : Z) : Dec Z :=
  if pSize it =? addr_fixed_count then ret n
  else store_u (pSize it) sizeof_pb_size_t n ;; ret fixed.

Section Rec.
Context (fuel : nat) (rec_noinit : list pb_field -> Z -> Dec unit).

(** [pb_decode], called on the entries of an array of submessages. *)
Definition decode_with (fields : list pb_field) (dest : Z) : Dec unit :=
  pb_message_set_to_defaults fuel fields dest ;;
  let* status := catch (rec_noinit fields dest) in
  match status with
  | Some _ => ret tt
  | None => pb_release fuel fields dest ;; fail
  end.

Definition pb_dec_submessage (field : pb_field) (dest : Z) : Dec unit :=
  let* substream := pb_make_string_substream in
  if ptr field =? 0 then PB_RETURN_ERROR "invalid field descriptor"
  else
    let* submsg_fields := lift_res (of_option (D !! ptr field)) in
    let* r := on_stream substream
                (if PB_HTYPE (type field) =? PB_HTYPE_REPEATED
                 then decode_with submsg_fields dest
                 else rec_noinit submsg_fields dest) in
    let '(status, substream) := r in
    pb_close_string_substream substream ;;
    match status with Some _ => ret tt | None => fail end.

(** [PB_DECODERS[ltype]]. *)
Definition PB_DECODERS (ltype : Z) : res (pb_field -> Z -> Dec unit) :=
  if ltype =? PB_LTYPE_BOOL then Ret pb_dec_bool
  else if ltype =? PB_LTYPE_VARINT then Ret pb_dec_varint
  else if ltype =? PB_LTYPE_UVARINT then Ret pb_dec_uvarint
  else if ltype =? PB_LTYPE_SVARINT then Ret pb_dec_svarint
  else if ltype =? PB_LTYPE_FIXED32 then Ret pb_dec_fixed32
  else if ltype =? PB_LTYPE_FIXED64 then Ret pb_dec_fixed64
  else if ltype =? PB_LTYPE_BYTES then Ret pb_dec_bytes
  else if ltype =? PB_LTYPE_STRING then Ret pb_dec_string
  else if ltype =? PB_LTYPE_SUBMESSAGE then Ret pb_dec_submessage
  else if ltype =? PB_LTYPE_EXTENSION then Ret (fun _ _ => fault)
  else if ltype =? PB_LTYPE_FIXED_LENGTH_BYTES then Ret pb_dec_fixed_length_bytes
  else Fault.

(** The loop over a packed array, on the substream; returns the number of
    entries and whether every entry was decoded. *)
Fixpoint packed_loop (func : pb_field -> Z -> Dec unit) (it : pb_field_iter) (n : nat)
    (fixed : Z) : Dec (Z * bool) :=
  match n with
  | O => nofuel
  | S n =>
      let f := it_field it in
      let* sub := get in
      let* size := read_size it fixed in
      if (0 <? bytes_left sub) && (size <? array_size f) then
        let* ok := catch (func f (pData it + u32 (data_size f * size))) in
        match ok with
        | None => ret (fixed, false)
        | Some _ =>
            let* fixed := write_size it fixed (u32 (size + 1)) in
            packed_loop func it n fixed
        end
      else ret (fixed, true)
  end.

(** Decodes a statically allocated field; returns the new value of the local
    [fixed_count_size]. *)
Definition decode_static_field (wire_type : Z) (it : pb_field_iter) (fixed : Z) : Dec Z :=
  let f := it_field it in
  let ty := type f in
  let* func := lift_res (PB_DECODERS (PB_LTYPE ty)) in
  if PB_HTYPE ty =? PB_HTYPE_REQUIRED then func f (pData it) ;; ret fixed
  else if PB_HTYPE ty =? PB_HTYPE_OPTIONAL then
    (if negb (pSize it =? pData it) then store_u (pSize it) sizeof_bool 1 else ret tt) ;;
    func f (pData it) ;; ret fixed
  else if PB_HTYPE ty =? PB_HTYPE_REPEATED then
    if (wire_type =? PB_WT_STRING) && (PB_LTYPE ty <=? PB_LTYPE_LAST_PACKABLE) then
      let* substream := pb_make_string_substream in
      let* r := on_stream substream
                  (packed_loop func it (S (Z.to_nat (bytes_left substream))) fixed) in
      match r with
      | (Some (fixed, status), substream) =>
          if negb (bytes_left substream =? 0) then PB_RETURN_ERROR "array overflow"
          else
            pb_close_string_substream substream ;;
            if status : bool then ret fixed else fail
      | (None, _) => fail
      end
    else
      let* size := read_size it fixed in
      let* fixed := write_size it fixed (u32 (size + 1)) in
      if array_size f <=? size then PB_RETURN_ERROR "array overflow"
      else func f (pData it + u32 (data_size f * size)) ;; ret fixed
  else (* PB_HTYPE_ONEOF *)
    let* which := load_u (pSize it) sizeof_pb_size_t in
    (if (PB_LTYPE ty =? PB_LTYPE_SUBMESSAGE) && negb (which =? tag f) then
       memset0 (pData it) (data_size f) ;;
       let* fields := lift_res (of_option (D !! ptr f)) in
       pb_message_set_to_defaults fuel fields (pData it)
     else ret tt) ;;
    store_u (pSize it) sizeof_pb_size_t (tag f) ;;
    func f (pData it) ;; ret fixed.

(** The loop over a packed array into an allocated array: the entries that have
    been reserved, whether every entry was decoded, and the error message the
    loop sets on the parent stream. *)
Fixpoint packed_pointer_loop (func : pb_field -> Z -> Dec unit) (it : pb_field_iter) (n : nat)
    (fixed allocated_size : Z) : Dec (Z * bool * option string) :=
  match n with
  | O => nofuel
  | S n =>
      let f := it_field it in
      let* sub := get in
      if bytes_left sub =? 0 then ret (fixed, true, None)
      else
        let* size := read_size it fixed in
        if size =? PB_SIZE_MAX then ret (fixed, false, Some "too many array entries"%string)
        else
          let* alloc :=
            if allocated_size <? size + 1 then
              if data_size f =? 0 then fault (* division by zero *)
              else
                let remain := (bytes_left sub - 1) / data_size f + 1 in
                let allocated' :=
                  if remain <? u64 (PB_SIZE_MAX - allocated_size)
                  then u64 (allocated_size + remain) else u64 (allocated_size + 1) in
                let* ok := catch (allocate_field (pData it) (data_size f) allocated') in
                ret (match ok with Some _ => Some allocated' | None => None end)
            else ret (Some allocated_size) in
          match alloc with
          | None => ret (fixed, false, None)
          | Some allocated_size =>
              let* base := load_u (pData it) sizeof_ptr in
              let pItem := base + u32 (data_size f * size) in
              if pItem =? 0 then ret (fixed, false, None)
              else
                initialize_pointer_field fuel pItem it ;;
                let* ok := catch (func f pItem) in
                match ok with
                | None => ret (fixed, false, None)
                | Some _ =>
                    let* fixed := write_size it fixed (u32 (size + 1)) in
                    packed_pointer_loop func it n fixed allocated_size
                end
          end
  end.

Definition decode_pointer_field (wire_type : Z) (it : pb_field_iter) (fixed : Z) : Dec Z :=
  let f := it_field it in
  let ty := type f in
  let* func := lift_res (PB_DECODERS (PB_LTYPE ty)) in
  if negb (PB_HTYPE ty =? PB_HTYPE_REPEATED) then
    (if PB_LTYPE ty =? PB_LTYPE_SUBMESSAGE then
       let* p := load_u (pData it) sizeof_ptr in
       if negb (p =? 0) then pb_release_single_field fuel it else ret tt
     else ret tt) ;;
    (if PB_HTYPE ty =? PB_HTYPE_ONEOF
     then store_u (pSize it) sizeof_pb_size_t (tag f) else ret tt) ;;
    if (PB_LTYPE ty =? PB_LTYPE_STRING) || (PB_LTYPE ty =? PB_LTYPE_BYTES)
    then func f (pData it) ;; ret fixed
    else
      allocate_field (pData it) (data_size f) 1 ;;
      let* p := load_u (pData it) sizeof_ptr in
      initialize_pointer_field fuel p it ;;
      func f p ;; ret fixed
  else if (wire_type =? PB_WT_STRING) && (PB_LTYPE ty <=? PB_LTYPE_LAST_PACKABLE) then
    let* allocated_size := read_size it fixed in
    let* substream := pb_make_string_substream in
    let* r := on_stream substream
                (packed_pointer_loop func it (S (Z.to_nat (bytes_left substream)))
                   fixed allocated_size) in
    match r with
    | (Some (fixed, status, msg), substream) =>
        (match msg with
         | Some e => let* s := get in put (set_is_errmsg (Some e) s)
         | None => ret tt
         end) ;;
        pb_close_string_substream substream ;;
        if status : bool then ret fixed else fail
    | (None, _) => fail
    end
  else
    let* size := read_size it fixed in
    if size =? PB_SIZE_MAX then PB_RETURN_ERROR "too many array entries"
    else
      allocate_field (pData it) (data_size f) (u32 (size + 1)) ;;
      let* base := load_u (pData it) sizeof_ptr in
      let pItem := base + u32 (data_size f * size) in
      let* fixed := write_size it fixed (u32 (size + 1)) in
      initialize_pointer_field fuel pItem it ;;
      func f pItem ;; ret fixed.

(** [do { if (!decode(&substream, ...)) ... } while (substream.bytes_left);] *)
Fixpoint callback_loop (n : nat) (fn : Z) (field : pb_field) (arg : Z) : Dec unit :=
  match n with
  | O => nofuel
  | S n =>
      x_decode X fn field arg ;;
      let* sub := get in
      if negb (bytes_left sub =? 0) then callback_loop n fn field arg else ret tt
  end.

Definition decode_callback_field (wire_type : Z) (it : pb_field_iter) : Dec unit :=
  let pCallback := pData it in
  let* fn := if pCallback =? 0 then ret 0 else load_u pCallback sizeof_ptr in
  if fn =? 0 then pb_skip_field wire_type
  else
    let arg := pCallback + sizeof_ptr in
    if wire_type =? PB_WT_STRING then
      let* substream := pb_make_string_substream in
      let* r := on_stream substream (callback_loop fuel fn (it_field it) arg) in
      match r with
      | (None, _) => PB_RETURN_ERROR "callback failed"
      | (Some _, substream) => pb_close_string_substream substream
      end
    else
      let* buffer := read_raw_value wire_type 10 in
      let* r := on_stream (pb_istream_from_buffer (SrcLocal buffer) (Z.of_nat (length buffer)))
                  (x_decode X fn (it_field it) arg) in
      match r with
      | (None, _) => fail
      | (Some _, _) => ret tt
      end.

(** Returns the iterator, which releasing a union member moves, and the local
    [fixed_count_size]. *)
Definition decode_field (wire_type : Z) (it : pb_field_iter) (fixed : Z) : Dec (pb_field_iter * Z) :=
  let* it := if PB_HTYPE (type (it_field it)) =? PB_HTYPE_ONEOF
             then pb_release_union_field fuel it else ret it in
  let a := PB_ATYPE (type (it_field it)) in
  if a =? PB_ATYPE_STATIC then
    let* fixed := decode_static_field wire_type it fixed in ret (it, fixed)
  else if a =? PB_ATYPE_POINTER then
    let* fixed := decode_pointer_field wire_type it fixed in ret (it, fixed)
  else if a =? PB_ATYPE_CALLBACK then
    decode_callback_field wire_type it ;; ret (it, fixed)
  else PB_RETURN_ERROR "invalid field type".

(** ** Extensions *)

Definition default_extension_decoder (extension t wire_type : Z) : Dec unit :=
  let* ty := load_u extension sizeof_ptr in
  let* arg := load_u (ty + 16) sizeof_ptr in
  let* fields := lift_res (of_option (D !! arg)) in
  if negb (tag (field_at fields 0) =? t) then ret tt
  else
    let* it := iter_from_extension extension in
    store_u (extension + 24) sizeof_bool 1 ;;
    decode_field wire_type it 0 ;; ret tt.

(** [while (extension != NULL && pos == stream->bytes_left) { ... }] *)
Fixpoint extension_loop (n : nat) (extension t wire_type pos : Z) : Dec unit :=
  match n with
  | O => nofuel
  | S n =>
      let* s := get in
      if (extension =? 0) || negb (pos =? bytes_left s) then ret tt
      else
        let* ty := load_u extension sizeof_ptr in
        let* fn := load_u ty sizeof_ptr in
        (if negb (fn =? 0) then x_ext_decode X fn extension t wire_type
         else default_extension_decoder extension t wire_type) ;;
        let* next := load_u (extension + 16) sizeof_ptr in
        extension_loop n next t wire_type pos
  end.

Definition decode_extension (t wire_type : Z) (it : pb_field_iter) : Dec unit :=
  let* extension := load_u (pData it) sizeof_ptr in
  let* s := get in
  extension_loop fuel extension t wire_type (bytes_left s).

Definition find_extension_field (it : pb_field_iter) : res (bool * pb_field_iter) :=
  iter_search (fun f => PB_LTYPE (type f) =? PB_LTYPE_EXTENSION)
    (it_pos it) (iter_fuel it) it.

(** ** Decode all fields *)

(** The locals of [pb_decode_noinit]. *)
Record dec_state := mk_dec {
  d_iter : pb_field_iter;
  fields_seen : list Z;                (* uint32_t[2] *)
  extension_range_start : Z;
  fixed_count_field : option nat;      (* position in the descriptor array *)
  fixed_count_size : Z;
}.

Definition seen_required (it : pb_field_iter) (seen : list Z) : list Z :=
  if (PB_HTYPE (type (it_field it)) =? PB_HTYPE_REQUIRED)
     && (required_field_index it <? PB_MAX_REQUIRED_FIELDS)
  then alter (fun x => Z.lor x (u32 (Z.shiftl 1 (Z.land (required_field_index it) 31))))
         (Z.to_nat (Z.shiftr (required_field_index it) 5)) seen
  else seen.

(** [fixed_count_field != NULL && fixed_count_size != fixed_count_field->array_size] *)
Definition fixed_count_open (fields : list pb_field) (d : dec_state) : bool :=
  match fixed_count_field d with
  | None => false
  | Some p => negb (fixed_count_size d =? array_size (field_at fields p))
  end.

(** The branch taken when no regular field has the tag. *)
Definition decode_unknown (t wire_type : Z) (d : dec_state) : Dec dec_state :=
  if extension_range_start d <=? t then
    let* r := lift_res (find_extension_field (d_iter d)) in
    let '(found, it) := r in
    let start := if found then tag (it_field it) else 2 ^ 32 - 1 in
    let d := mk_dec it (fields_seen d) start (fixed_count_field d) (fixed_count_size d) in
    if start <=? t then
      let* s := get in
      decode_extension t wire_type it ;;
      let* s' := get in
      if negb (bytes_left s =? bytes_left s') then ret d
      else pb_skip_field wire_type ;; ret d
    else pb_skip_field wire_type ;; ret d
  else pb_skip_field wire_type ;; ret d.

(** The branch taken at a regular field. *)
Definition decode_known (fields : list pb_field) (wire_type : Z) (d : dec_state) : Dec dec_state :=
  let it := d_iter d in
  let* d :=
    if (PB_HTYPE (type (it_field it)) =? PB_HTYPE_REPEATED) && (pSize it =? pData it) then
      let it' := mk_iter (it_start it) (it_pos it) (required_field_index it)
                   (dest_struct it) (pData it) addr_fixed_count in
      let d' := mk_dec it' (fields_seen d) (extension_range_start d) in
      if bool_decide (fixed_count_field d = Some (it_pos it))
      then ret (d' (fixed_count_field d) (fixed_count_size d))
      else if fixed_count_open fields d then PB_RETURN_ERROR "wrong size for fixed count field"
      else ret (d' (Some (it_pos it)) 0)
    else ret d in
  let seen := seen_required (d_iter d) (fields_seen d) in
  let* r := decode_field wire_type (d_iter d) (fixed_count_size d) in
  ret (mk_dec (fst r) seen (extension_range_start d) (fixed_count_field d) (snd r)).

(** [while (stream->bytes_left) { ... }] *)
Fixpoint decode_loop (n : nat) (fields : list pb_field) (d : dec_state) : Dec dec_state :=
  match n with
  | O => nofuel
  | S n =>
      let* s := get in
      if bytes_left s =? 0 then ret d
      else
        let* r := pb_decode_tag in
        match r with
        | TagFalse true => ret d
        | TagFalse false => fail
        | TagOk t wire_type =>
            let* r := lift_res (pb_field_iter_find (d_iter d) t) in
            let '(found, it) := r in
            let d := mk_dec it (fields_seen d) (extension_range_start d)
                       (fixed_count_field d) (fixed_count_size d) in
            let* d := if negb found then decode_unknown t wire_type d
                      else decode_known fields wire_type d in
            decode_loop n fields d
        end
  end.

(** [do { req_field_count = ...; last_type = ...; } while (pb_field_iter_next(&iter));] *)
Fixpoint required_count_loop (n : nat) (it : pb_field_iter) : res (Z * Z * pb_field_iter) :=
  match n with
  | O => OutOfFuel
  | S n =>
      let count := required_field_index it in
      let last := type (it_field it) in
      let '(more, it') := pb_field_iter_next it in
      if more then required_count_loop n it' else Ret (count, last, it')
  end.

Definition allbits : Z := 2 ^ 32 - 1.

(** [for (i = 0; i < (req_field_count >> 5); i++) if (fields_seen[i] != allbits) ...] *)
Definition check_required (seen : list Z) (req_field_count : Z) : bool :=
  forallb (fun x => x =? allbits) (take (Z.to_nat (Z.shiftr req_field_count 5)) seen)
  && (if negb (Z.land req_field_count 31 =? 0)
      then nth (Z.to_nat (Z.shiftr req_field_count 5)) seen 0
             =? Z.shiftr allbits (32 - Z.land req_field_count 31)
      else true).

(** What [pb_decode_noinit] does before, around and after its loop. *)
Definition decode_message (fields : list pb_field) (dest : Z) : Dec unit :=
  let it := snd (pb_field_iter_begin fields dest) in
  let* d := decode_loop (S fuel) fields (mk_dec it [0; 0] 0 None 0) in
  if fixed_count_open fields d then PB_RETURN_ERROR "wrong size for fixed count field"
  else
    let* r := lift_res (required_count_loop (iter_fuel (d_iter d)) (d_iter d)) in
    let '(count, last_type, it) := r in
    let req_field_count :=
      Z.min PB_MAX_REQUIRED_FIELDS
        (if (PB_HTYPE last_type =? PB_HTYPE_REQUIRED) && negb (tag (it_field it) =? 0)
         then count + 1 else count) in
    if negb (0 <? req_field_count) || check_required (fields_seen d) req_field_count
    then ret tt
    else PB_RETURN_ERROR "missing required field".
End Rec.

Fixpoint pb_decode_noinit (fuel : nat) (fields : list pb_field) (dest : Z) : Dec unit :=
  match fuel with
  | O => nofuel
  | S fuel => decode_message fuel (pb_decode_noinit fuel) fields dest
  end.

Definition pb_decode (fuel : nat) (fields : list pb_field) (dest : Z) : Dec unit :=
  decode_with fuel (pb_decode_noinit fuel) fields dest.

Definition pb_decode_delimited_noinit (fuel : nat) (fields : list pb_field) (dest : Z) : Dec unit :=
  let* substream := pb_make_string_substream in
  let* r := on_stream substream (pb_decode_noinit fuel fields dest) in
  let '(status, substream) := r in
  pb_close_string_substream substream ;;
  match status with Some _ => ret tt | None => fail end.

Definition pb_decode_delimited (fuel : nat) (fields : list pb_field) (dest : Z) : Dec unit :=
  let* substream := pb_make_string_substream in
  let* r := on_stream substream (pb_decode fuel fields dest) in
  let '(status, substream) := r in
  pb_close_string_substream substream ;;
  match status with Some _ => ret tt | None => fail end.

Definition pb_decode_nullterminated (fuel : nat) (fields : list pb_field) (dest : Z) : Dec unit :=
  pb_decode fuel fields dest.
End Decoder.
