(* ===== verification/PbWire.v ===== *)
(** * nanopb: varints on streams

    The lemmas that connect the varint loops of pb_encode.c and pb_decode.c to
    the reference encoding of base-128 numbers, and what it means for an input
    stream to hold given bytes. *)
From Stdlib Require Import ZArith Lia Bool List String.
From stdpp Require Import base list gmap numbers.
From S2P Require Import Prelude CMem Leb128 PbCommon PbEncode PbDecode.

(** ** The encoder's loop *)

Lemma varint_byte v : Z.lor (Z.land v 0x7F) 0x80 = v mod 128 + 128.
Proof.
  rewrite land_127. apply lor_128. apply Z.mod_pos_bound. lia.
Qed.

Lemma encode_varint_loop_spec n fuel v buf :
  (0 < n)%nat -> 0 < v < 2 ^ (7 * Z.of_nat n) -> (length buf + n <= 10)%nat -> (n < fuel)%nat ->
  exists l d,
    encode_varint_loop fuel v buf = Ret (buf ++ l ++ [d + 128]) /\
    varint_digits n v = l ++ [d] /\ 0 <= d < 128.
Proof.
  revert fuel v buf; induction n as [|n IH]; intros fuel v buf Hn Hv Hb Hf; [lia|].
  destruct fuel as [|fuel]; [lia|]. cbn [encode_varint_loop varint_digits].
  destruct (Z.eqb_spec v 0); [lia|].
  destruct (Z.leb_spec 10 (Z.of_nat (length buf))); [lia|].
  rewrite varint_byte, shiftr_div by lia. change (2 ^ 7) with 128.
  pose proof (Z.mod_pos_bound v 128 ltac:(lia)).
  rewrite wrapu_small by (zpow; lia).
  destruct (Z.ltb_spec v 128) as [L|L].
  - exists [], v. rewrite Z.div_small by lia. rewrite Z.mod_small by lia.
    destruct fuel as [|fuel]; [lia|]. cbn [encode_varint_loop].
    split; [done|]. split; [done|lia].
  - rewrite pow_7_S in Hv. destruct n as [|n]; [simpl in Hv; lia|].
    destruct (IH fuel (v / 128) (buf ++ [v mod 128 + 128])) as (l & d & E & Ed & Hd).
    + lia.
    + split; [apply Z.div_str_pos; lia|]. apply Z.div_lt_upper_bound; lia.
    + rewrite length_app. simpl. lia.
    + lia.
    + exists ((v mod 128 + 128) :: l), d. rewrite E, Ed, <- app_assoc. done.
Qed.

(** The value of [buffer] when the loop of [pb_encode_varint] ends, last
    continuation bit cleared. *)
Lemma encode_varint_buffer v :
  127 < v < 2 ^ 64 ->
  exists buf,
    encode_varint_loop 11 v [] = Ret buf /\
    alter (fun b => Z.land b 0x7F) (length buf - 1)%nat buf = varint_bytes v /\
    length buf = length (varint_bytes v).
Proof.
  intros Hv. destruct (encode_varint_loop_spec 10 11 v []) as (l & d & E & Ed & Hd);
    [lia| |simpl; lia|lia|].
  { change (2 ^ (7 * Z.of_nat 10)) with 1180591620717411303424. zpow. lia. }
  exists (l ++ [d + 128]). split; [done|]. unfold varint_bytes. rewrite Ed. split.
  - rewrite length_app. simpl.
    replace (length l + 1 - 1)%nat with (length l + 0)%nat by lia.
    rewrite alter_app_r. simpl. f_equal. f_equal.
    rewrite land_127. rewrite <- (Zplus_mod_idemp_r 128). change (128 mod 128) with 0.
    rewrite Z.add_0_r. apply Z.mod_small. lia.
  - now rewrite !length_app.
Qed.

(** ** Input streams that deliver known bytes *)

(** The source holds the bytes [l] next. *)
Definition src_data (w : world) (src : isource) (l : list Z) : Prop :=
  match src with
  | SrcMem a => load_bytes (w_mem w) a (length l) = Some l
  | SrcLocal l' => l `prefix_of` l'
  end.

(** A memory-buffer stream whose next bytes are [l]. *)
Record has_bytes (s : pb_istream) (w : world) (l : list Z) : Prop := {
  hb_callback : is_callback s = ICB_buf_read;
  hb_left : Z.of_nat (length l) <= bytes_left s < 2 ^ 64;
  hb_data : src_data w (is_state s) l;
}.

(** The stream after [n] bytes have been read. *)
Definition consume (n : Z) (s : pb_istream) : pb_istream :=
  mk_istream (is_callback s) (src_advance (is_state s) n) (bytes_left s - n) (is_errmsg s).

Lemma src_advance_add src a b :
  0 <= a -> 0 <= b -> src_advance (src_advance src a) b = src_advance src (a + b).
Proof.
  intros. destruct src; simpl; f_equal; [lia|].
  rewrite drop_drop. f_equal. lia.
Qed.

Lemma src_advance_0 src : src_advance src 0 = src.
Proof. destruct src; simpl; f_equal. lia. Qed.

Lemma consume_add a b s : 0 <= a -> 0 <= b -> consume b (consume a s) = consume (a + b) s.
Proof. intros. unfold consume. simpl. rewrite src_advance_add by lia. f_equal. lia. Qed.

Lemma consume_0 s : consume 0 s = s.
Proof. destruct s. unfold consume. simpl. rewrite src_advance_0. f_equal. lia. Qed.

Lemma src_data_app w src l1 l2 :
  src_data w src (l1 ++ l2) <->
  src_data w src l1 /\ src_data w (src_advance src (Z.of_nat (length l1))) l2.
Proof.
  destruct src as [a|l]; simpl.
  - rewrite length_app, load_bytes_app. split.
    + destruct (load_bytes _ a _) as [x1|] eqn:E1; [|done].
      destruct (load_bytes _ _ (length l2)) as [x2|] eqn:E2; [|done].
      intros [= E]. apply app_inj_1 in E as [-> ->]; [done|].
      now apply load_bytes_length in E1.
    + intros [-> ->]. done.
  - rewrite Nat2Z.id. split.
    + intros [r ->]. rewrite <- !app_assoc. split; [by eexists|].
      rewrite drop_app_length. by eexists.
    + intros [[r ->] [r' H]]. rewrite drop_app_length in H. subst.
      rewrite app_assoc. by eexists.
Qed.

Lemma has_bytes_app s w l1 l2 :
  has_bytes s w (l1 ++ l2) <->
  has_bytes s w l1 /\ has_bytes (consume (Z.of_nat (length l1)) s) w l2.
Proof.
  split.
  - intros [Hc Hl Hd]. rewrite length_app in Hl.
    apply src_data_app in Hd as [Hd1 Hd2].
    split; constructor; simpl; try done; lia.
  - intros [[Hc Hl Hd] [Hc' Hl' Hd']]. simpl in *. constructor; [done| |].
    + rewrite length_app. lia.
    + apply src_data_app. done.
Qed.

Lemma has_bytes_nil s w :
  is_callback s = ICB_buf_read -> 0 <= bytes_left s < 2 ^ 64 -> has_bytes s w [].
Proof.
  intros. constructor; [done|simpl; lia|]. destruct (is_state s); simpl; [done|].
  apply prefix_nil.
Qed.

Lemma src_load_data w s l :
  src_data w (is_state s) l ->
  src_load (is_state s) (Z.of_nat (length l)) s w = Ret (Some l, s, w).
Proof.
  destruct (is_state s) as [a|l']; simpl.
  - intros H. unfold load. rewrite Nat2Z.id, H. done.
  - intros [r ->]. destruct (Z.ltb_spec (Z.of_nat (length (l ++ r))) (Z.of_nat (length l))).
    + rewrite length_app in *. lia.
    + rewrite Nat2Z.id, take_app_length. done.
Qed.

Section Streams.
Context (X : dec_externs).

(** Reading into a local array. *)
Lemma pb_read_local s w l :
  has_bytes s w l -> (0 < length l)%nat ->
  pb_read X RLocal (Z.of_nat (length l)) s w = Ret (Some l, consume (Z.of_nat (length l)) s, w).
Proof.
  intros [Hc Hl Hd] H0. unfold pb_read.
  destruct (Z.eqb_spec (Z.of_nat (length l)) 0); [lia|].
  unfold bind, get. cbn [rbind].
  unfold pb_read_some, bind at 1, get at 1. cbn [rbind].
  destruct (Z.ltb_spec (bytes_left s) (Z.of_nat (length l))); [lia|].
  unfold bind, catch, call_read, bind, get at 1. cbn [rbind]. rewrite Hc.
  unfold buf_read, bind, get, put. cbn [rbind].
  assert (Hd' : src_load (is_state s) (Z.of_nat (length l))
            (set_is_state (src_advance (is_state s) (Z.of_nat (length l))) s) w
          = Ret (Some l, set_is_state (src_advance (is_state s) (Z.of_nat (length l))) s, w)).
  { pose proof (src_load_data w s l Hd) as E. revert E.
    destruct (is_state s) as [a|l']; simpl.
    - unfold load. destruct (load_bytes _ _ _); [|done]. simpl. intros [= ->]. done.
    - destruct (_ <? _); [done|]. intros [= ->]. done. }
  rewrite Hd'. cbn [rbind deliver]. unfold ret. simpl.
  unfold set_bytes_left, consume. simpl. rewrite wrapu_small by lia. done.
Qed.

(** Skipping: no memory is touched. *)
Lemma pb_read_null s w n :
  is_callback s = ICB_buf_read -> 0 <= n <= bytes_left s -> bytes_left s < 2 ^ 64 ->
  exists l, pb_read X RNull n s w = Ret (Some l, consume n s, w).
Proof.
  intros Hc Hn Hl. unfold pb_read.
  destruct (Z.eqb_spec n 0) as [->|]; [exists []; now rewrite consume_0|].
  unfold bind, get. cbn [rbind]. rewrite Hc.
  unfold pb_read_some, bind at 1, get at 1. cbn [rbind].
  destruct (Z.ltb_spec (bytes_left s) n); [lia|].
  unfold bind, catch, call_read, bind, get at 1. cbn [rbind]. rewrite Hc.
  unfold buf_read, bind, get, put, ret. simpl.
  exists []. unfold set_bytes_left, consume. simpl. rewrite wrapu_small by lia. done.
Qed.

Lemma pb_readbyte_has s w b l :
  has_bytes s w (b :: l) -> pb_readbyte X s w = Ret (Some b, consume 1 s, w).
Proof.
  intros H. apply (has_bytes_app s w [b] l) in H as [H _].
  pose proof (pb_read_local s w [b] H ltac:(simpl; lia)) as E.
  destruct H as [Hc Hl Hd]. simpl length in *. change (Z.of_nat 1) with 1 in *.
  unfold pb_read in E. cbn [Z.eqb] in E.
  unfold bind at 1, get at 1 in E. cbn [rbind] in E.
  unfold pb_readbyte, bind at 1, get at 1. cbn [rbind].
  destruct (Z.eqb_spec (bytes_left s) 0); [lia|].
  unfold pb_read_some, bind at 1, get at 1 in E. cbn [rbind] in E.
  destruct (Z.ltb_spec (bytes_left s) 1); [lia|].
  unfold bind at 1 in E. unfold bind at 1.
  destruct (catch (call_read X RLocal 1) s w) as [[[[[d|]|] s'] w']| |]; simpl in E |- *; try done.
  unfold bind, get, put, ret in *. simpl in *.
  assert (d = [b]) as -> by congruence. congruence.
Qed.

(** At the end of the stream. *)
Lemma pb_readbyte_eof s w :
  bytes_left s = 0 ->
  pb_readbyte X s w =
    Ret (None, with_errmsg (match is_errmsg s with Some e => Some e
                            | None => Some "end-of-stream"%string end) s, w).
Proof.
  intros E. unfold pb_readbyte, bind, get. cbn [rbind]. now rewrite E.
Qed.
End Streams.

(** ** The decoder's loops *)

Section Varints.
Context (X : dec_externs).

Lemma varint_loop_spec k bs fuel r s w :
  is_varint bs -> has_bytes s w bs -> (k + length bs <= 10)%nat -> (length bs <= fuel)%nat ->
  0 <= r < 2 ^ (7 * Z.of_nat k) ->
  varint_loop X fuel (7 * Z.of_nat k) r s w =
    Ret (Some (u64 (r + varint_val bs * 2 ^ (7 * Z.of_nat k))),
         consume (Z.of_nat (length bs)) s, w).
Proof.
  revert k fuel r s; induction bs as [|b bs IH]; intros k fuel r s Hv Hs Hk Hf Hr; [done|].
  destruct fuel as [|fuel]; [simpl in Hf; lia|]. cbn [length] in *.
  cbn [varint_loop]. destruct (Z.leb_spec 64 (7 * Z.of_nat k)); [lia|].
  unfold bind at 1. rewrite (pb_readbyte_has X s w b bs Hs). cbn [rbind].
  destruct (is_varint_inv b bs Hv) as [Hb Hcase].
  rewrite more_bit by done.
  rewrite land_127, lor_digit by lia.
  rewrite (wrapu_small 8) by (zpow; lia).
  pose proof (Z.mod_pos_bound b 128 ltac:(lia)) as Hd.
  destruct Hcase as [[-> Hlt]|(Hne & Hge & Hv')].
  - destruct (Z.leb_spec 128 b); [lia|]. unfold ret. cbn [varint_val].
    rewrite Z.mul_0_r, Z.add_0_r. done.
  - destruct (Z.leb_spec 128 b); [|lia].
    assert (1 <= length bs)%nat by (destruct bs; [done|simpl; lia]).
    replace (7 * Z.of_nat k + 7) with (7 * Z.of_nat (S k)) by lia.
    assert (Hp : r + b mod 128 * 2 ^ (7 * Z.of_nat k) < 2 ^ (7 * Z.of_nat (S k)))
      by (rewrite pow_7_S; nia).
    assert (2 ^ (7 * Z.of_nat (S k)) <= 2 ^ 63) by (apply Z.pow_le_mono_r; lia).
    assert (0 <= r + b mod 128 * 2 ^ (7 * Z.of_nat k)) by nia.
    rewrite (wrapu_small 64) by (zpow; lia).
    apply (has_bytes_app s w [b] bs) in Hs as [_ Hs]. simpl length in Hs.
    rewrite IH by (try done; lia).
    rewrite consume_add by lia. cbn [varint_val].
    replace (r + b mod 128 * 2 ^ (7 * Z.of_nat k) + varint_val bs * 2 ^ (7 * Z.of_nat (S k)))
      with (r + (b mod 128 + 128 * varint_val bs) * 2 ^ (7 * Z.of_nat k))
      by (rewrite pow_7_S; lia).
    replace (1 + Z.of_nat (length bs)) with (Z.of_nat (S (length bs))) by lia. done.
Qed.

Lemma decode_varint_string bs s w :
  is_varint bs -> has_bytes s w bs -> (length bs <= 10)%nat ->
  pb_decode_varint X s w =
    Ret (Some (u64 (varint_val bs)), consume (Z.of_nat (length bs)) s, w).
Proof.
  intros. unfold pb_decode_varint. change 0 with (7 * Z.of_nat 0) at 1.
  rewrite (varint_loop_spec 0 bs) by (try done; simpl; lia).
  simpl (7 * Z.of_nat 0). rewrite Z.pow_0_r, Z.mul_1_r. done.
Qed.

(** The stream after the error message [msg] has been set. *)
Definition set_error (msg : string) (s : pb_istream) : pb_istream :=
  set_is_errmsg (match is_errmsg s with Some e => Some e | None => Some msg end) s.

Lemma land_112 b : 0 <= b < 128 -> (Z.land b 0x70 =? 0) = (b <? 16).
Proof.
  intros H.
  assert (F : forallb (fun i => Bool.eqb (Z.land (Z.of_nat i) 0x70 =? 0) (Z.of_nat i <? 16))
            (seq 0 128) = true) by reflexivity.
  rewrite forallb_forall in F. specialize (F (Z.to_nat b)).
  rewrite Z2Nat.id in F by lia. apply eqb_prop, F. apply in_seq. lia.
Qed.

(** Up to five bytes, [pb_decode_varint32] accepts exactly the values that fit
    in 32 bits. *)
Lemma varint32_loop_spec k bs fuel r s w :
  is_varint bs -> has_bytes s w bs -> (1 <= k)%nat -> (k + length bs <= 5)%nat ->
  (length bs <= fuel)%nat -> 0 <= r < 2 ^ (7 * Z.of_nat k) ->
  varint32_loop X fuel (7 * Z.of_nat k) r s w =
    (let v := r + varint_val bs * 2 ^ (7 * Z.of_nat k) in
     let s' := consume (Z.of_nat (length bs)) s in
     if v <? 2 ^ 32 then Ret (Some v, s', w)
     else Ret (None, set_error "varint overflow" s', w)).
Proof.
  revert k fuel r s; induction bs as [|b bs IH]; intros k fuel r s Hv Hs Hk1 Hk Hf Hr; [done|].
  destruct fuel as [|fuel]; [simpl in Hf; lia|]. cbn [length] in *.
  cbn [varint32_loop]. unfold bind at 1. rewrite (pb_readbyte_has X s w b bs Hs). cbn [rbind].
  destruct (Z.leb_spec 32 (7 * Z.of_nat k)); [lia|].
  unfold bind at 1, ret at 1. cbn [rbind].
  destruct (is_varint_inv b bs Hv) as [Hb Hcase].
  rewrite more_bit by done.
  rewrite land_127, lor_digit by lia.
  rewrite (wrapu_small 8) by (zpow; lia).
  pose proof (Z.mod_pos_bound b 128 ltac:(lia)) as Hd.
  assert (0 <= r + b mod 128 * 2 ^ (7 * Z.of_nat k)) by nia.
  destruct Hcase as [[-> Hlt]|(Hne & Hge & Hv')].
  - destruct (Z.leb_spec 128 b); [lia|]. cbn [varint_val].
    rewrite Z.mul_0_r, Z.add_0_r, land_112, (Z.mod_small b 128) by lia.
    rewrite (Z.mod_small b 128) in * by lia.
    destruct (Z.eqb_spec (7 * Z.of_nat k + 7) 35) as [E35|N35].
    + replace (7 * Z.of_nat k) with 28 in * by lia. cbn [andb negb].
      destruct (Z.ltb_spec b 16).
      * rewrite wrapu_small by (zpow; lia).
        destruct (Z.ltb_spec (r + b * 2 ^ 28) (2 ^ 32)); [done|zpow; lia].
      * destruct (Z.ltb_spec (r + b * 2 ^ 28) (2 ^ 32)); [zpow; lia|done].
    + cbn [andb].
      assert (2 ^ (7 * Z.of_nat (S k)) <= 2 ^ 28) by (apply Z.pow_le_mono_r; lia).
      assert (r + b * 2 ^ (7 * Z.of_nat k) < 2 ^ 28) by (rewrite pow_7_S in *; nia).
      rewrite wrapu_small by (change (2 ^ 28) with 268435456 in *; zpow; lia).
      destruct (Z.ltb_spec (r + b * 2 ^ (7 * Z.of_nat k)) (2 ^ 32)); [done|].
      change (2 ^ 28) with 268435456 in *; zpow; lia.
  - destruct (Z.leb_spec 128 b); [|lia].
    assert (1 <= length bs)%nat by (destruct bs; [done|simpl; lia]).
    replace (7 * Z.of_nat k + 7) with (7 * Z.of_nat (S k)) by lia.
    assert (Hp : r + b mod 128 * 2 ^ (7 * Z.of_nat k) < 2 ^ (7 * Z.of_nat (S k)))
      by (rewrite pow_7_S; nia).
    assert (2 ^ (7 * Z.of_nat (S k)) <= 2 ^ 28) by (apply Z.pow_le_mono_r; lia).
    rewrite (wrapu_small 32) by (change (2 ^ 28) with 268435456 in *; zpow; lia).
    apply (has_bytes_app s w [b] bs) in Hs as [_ Hs]. simpl length in Hs.
    rewrite IH by (try done; lia). cbv zeta.
    rewrite consume_add by lia. cbn [varint_val].
    replace (r + b mod 128 * 2 ^ (7 * Z.of_nat k) + varint_val bs * 2 ^ (7 * Z.of_nat (S k)))
      with (r + (b mod 128 + 128 * varint_val bs) * 2 ^ (7 * Z.of_nat k))
      by (rewrite pow_7_S; lia).
    replace (1 + Z.of_nat (length bs)) with (Z.of_nat (S (length bs))) by lia. done.
Qed.

Lemma decode_varint32_string bs s w :
  is_varint bs -> has_bytes s w bs -> (length bs <= 5)%nat ->
  pb_decode_varint32_eof X s w =
    (let s' := consume (Z.of_nat (length bs)) s in
     if varint_val bs <? 2 ^ 32 then Ret (Some (Some (varint_val bs), false), s', w)
     else Ret (Some (None, false), set_error "varint overflow" s', w)).
Proof.
  intros Hv Hs Hl. destruct bs as [|b bs]; [done|].
  unfold pb_decode_varint32_eof. unfold bind at 1, catch at 1.
  rewrite (pb_readbyte_has X s w b bs Hs). cbn [rbind].
  destruct (is_varint_inv b bs Hv) as [Hb Hcase].
  pose proof (more_bit b Hb) as Hm.
  destruct Hcase as [[-> Hlt]|(Hne & Hge & Hv')].
  - destruct (Z.leb_spec 128 b); [lia|]. apply negb_false_iff in Hm. rewrite Hm.
    cbn [varint_val length]. rewrite Z.mul_0_r, Z.add_0_r, Z.mod_small by lia.
    destruct (Z.ltb_spec b (2 ^ 32)); [done|zpow; lia].
  - destruct (Z.leb_spec 128 b); [|lia]. apply negb_true_iff in Hm. rewrite Hm.
    pose proof (Z.mod_pos_bound b 128 ltac:(lia)).
    pose proof (hb_left _ _ _ Hs) as Hleft.
    apply (has_bytes_app s w [b] bs) in Hs as [_ Hs]. simpl length in Hs.
    unfold bind, get, catch. cbn [rbind]. rewrite land_127.
    change 7 with (7 * Z.of_nat 1) at 1.
    rewrite (varint32_loop_spec 1 bs); try done; try lia.
    + cbv zeta. cbn [varint_val length] in *. rewrite consume_add by lia.
      replace (1 + Z.of_nat (length bs)) with (Z.of_nat (S (length bs))) by lia.
      change (2 ^ (7 * Z.of_nat 1)) with 128. rewrite (Z.mul_comm (varint_val bs)).
      destruct (_ <? _); done.
    + cbn [length] in Hleft. simpl. lia.
Qed.
End Varints.
