(* ===== verification/PbEmits.v ===== *)
(** * nanopb: what an encoder step writes

    [emits m0 h m a l]: on the message memory [m0], the encoder step [m] returns
    [a] and writes exactly the bytes [l], whatever the stream: it adds their
    number on a sizing stream; on a buffer stream it stores them and nothing
    else if they fit, and fails without leaving the buffer if they do not. The
    rules below compose the property along the code. *)
From Stdlib Require Import ZArith Lia Bool List String.
From stdpp Require Import base list gmap numbers.
From S2P Require Import Prelude CMem Leb128 PbCommon PbEncode PbDecode PbWire.

Notation len l := (Z.of_nat (length l)).

(** ** Memory *)

Lemma load_bytes_subseteq (m m' : mem) a n l :
  m ⊆ m' -> load_bytes m a n = Some l -> load_bytes m' a n = Some l.
Proof.
  intros Hs. revert a l; induction n as [|n IH]; intros a l H; [done|]. simpl in *.
  destruct (m !! a) as [b|] eqn:E; [|done].
  destruct (load_bytes m (a + 1) n) as [l'|] eqn:E'; [|done].
  rewrite (lookup_weaken _ _ _ _ E Hs), (IH _ _ E'). done.
Qed.

Lemma store_bytes_app m a l1 l2 m1 :
  store_bytes m a l1 = Some m1 ->
  store_bytes m a (l1 ++ l2) = store_bytes m1 (a + len l1) l2.
Proof.
  revert m a; induction l1 as [|b l1 IH]; intros m a H; simpl in *.
  - injection H as ->. f_equal. lia.
  - destruct (m !! a); [|done]. rewrite (IH _ _ H). f_equal. lia.
Qed.

(** [n] bytes can only be loaded from a memory that maps [n] addresses. *)
Lemma load_bytes_size (m : mem) a n l : load_bytes m a n = Some l -> (n <= size m)%nat.
Proof.
  revert m a l; induction n as [|n IH]; intros m a l H; [lia|]. simpl in H.
  destruct (m !! a) as [b|] eqn:E; [|done].
  destruct (load_bytes m (a + 1) n) as [l'|] eqn:E'; [|done].
  assert (E2 : load_bytes (delete a m) (a + 1) n = Some l').
  { rewrite <- E'. apply load_bytes_eq. intros x Hx. rewrite lookup_delete_ne by lia. done. }
  apply IH in E2. rewrite map_size_delete_Some in E2 by (rewrite E; done).
  destruct (size m) eqn:Es; [|lia].
  apply map_size_empty_inv in Es. subst. done.
Qed.

(** ** Streams *)

(** A sizing stream after [n] more bytes, a buffer stream after [n] more. *)
Definition bump (n : Z) (s : pb_ostream) : pb_ostream :=
  set_bytes_written (u64 (bytes_written s + n)) s.
Definition advance (n : Z) (s : pb_ostream) : pb_ostream :=
  mk_ostream (os_callback s) (os_state s + n) (max_size s) (bytes_written s + n) (os_errmsg s).

(** A buffer stream whose remaining space is mapped and apart from the
    message. *)
Record out_ok (m0 mm : mem) (s : pb_ostream) : Prop := {
  oo_callback : os_callback s = OCB_buf_write;
  oo_range : 0 <= bytes_written s <= max_size s;
  oo_max : max_size s < 2 ^ 63;
  oo_area : forall x, os_state s <= x < os_state s + (max_size s - bytes_written s) ->
            is_Some (mm !! x) /\ m0 !! x = None;
  oo_sub : m0 ⊆ mm;
  oo_err : os_errmsg s = None;
}.

Record emits {A} (m0 : mem) (h : heap) (m : Enc A) (a : A) (l : list Z) : Prop := {
  em_size mm s :
    m0 ⊆ mm -> os_callback s = OCB_NULL -> 0 <= bytes_written s < 2 ^ 64 ->
    m s (mk_world mm h) = Ret (Some a, bump (len l) s, mk_world mm h);
  em_fits mm s :
    out_ok m0 mm s -> bytes_written s + len l <= max_size s ->
    exists mm', store_bytes mm (os_state s) l = Some mm' /\
      m s (mk_world mm h) = Ret (Some a, advance (len l) s, mk_world mm' h);
  em_full mm s :
    out_ok m0 mm s -> len l < 2 ^ 63 -> max_size s < bytes_written s + len l ->
    exists s' mm', m s (mk_world mm h) = Ret (None, s', mk_world mm' h) /\
      frame mm mm' (os_state s) (max_size s - bytes_written s);
}.

Lemma bump_bump a b s : bump b (bump a s) = bump (a + b) s.
Proof.
  unfold bump, set_bytes_written. simpl. f_equal.
  unfold wrapu. rewrite Zplus_mod_idemp_l. f_equal. lia.
Qed.

Lemma advance_advance a b s : advance b (advance a s) = advance (a + b) s.
Proof. unfold advance. simpl. f_equal; lia. Qed.

Lemma bump_0 s : 0 <= bytes_written s < 2 ^ 64 -> bump 0 s = s.
Proof.
  intros. unfold bump, set_bytes_written. rewrite Z.add_0_r, wrapu_small by done. now destruct s.
Qed.

Lemma advance_0 s : advance 0 s = s.
Proof. destruct s. unfold advance. simpl. f_equal; lia. Qed.

(** The stream invariant after a step that fitted. *)
Lemma out_ok_advance m0 mm s l mm' :
  out_ok m0 mm s -> bytes_written s + len l <= max_size s ->
  store_bytes mm (os_state s) l = Some mm' -> out_ok m0 mm' (advance (len l) s).
Proof.
  intros [Hc Hr Hm Ha Hs He] Hfit Hst. pose proof (store_bytes_frame _ _ _ _ Hst) as [Hd Hf].
  constructor; simpl; [done|lia|done| | |done].
  - intros x Hx. destruct (Ha x ltac:(lia)) as [H1 H2]. split; [now apply Hd|done].
  - apply map_subseteq_spec. intros x b Hx.
    rewrite Hf; [now apply (lookup_weaken m0)|].
    intros Hin. destruct (Ha x ltac:(lia)) as [_ H2]. congruence.
Qed.

Section Rules.
Context (m0 : mem) (h : heap).

(** A step that neither reads nor writes the stream. *)
Lemma emits_pure {A} (m : Enc A) a :
  (forall mm s, m0 ⊆ mm -> m s (mk_world mm h) = Ret (Some a, s, mk_world mm h)) ->
  emits m0 h m a [].
Proof.
  intros H. constructor; simpl.
  - intros mm s Hs _ Hb. now rewrite H, bump_0.
  - intros mm s Ho _. exists mm. split; [done|]. rewrite H by apply Ho. now rewrite advance_0.
  - intros mm s Ho _ Hlt. pose proof (oo_range _ _ _ Ho). lia.
Qed.

Lemma emits_ret {A} (a : A) : emits m0 h (ret a) a [].
Proof. now apply emits_pure. Qed.

Lemma emits_load_u a n l :
  load_bytes m0 a (Z.to_nat n) = Some l -> emits m0 h (load_u a n) (le_val l) [].
Proof.
  intros H. apply emits_pure. intros mm s Hs. unfold load_u, bind, load. simpl.
  now rewrite (load_bytes_subseteq _ _ _ _ _ Hs H).
Qed.

Lemma emits_lift {A} (a : A) : emits m0 h (lift_res (Ret a)) a [].
Proof. now apply emits_pure. Qed.

Lemma emits_bind {A B} (m : Enc A) (k : A -> Enc B) a b l1 l2 :
  emits m0 h m a l1 -> emits m0 h (k a) b l2 -> emits m0 h (bind m k) b (l1 ++ l2).
Proof.
  intros H1 H2. constructor.
  - intros mm s Hs Hc Hb. unfold bind. rewrite (em_size _ _ _ _ _ H1) by done. cbn [rbind].
    rewrite (em_size _ _ _ _ _ H2); [|done|done|apply wrapu_range; lia].
    now rewrite bump_bump, length_app, Nat2Z.inj_add.
  - intros mm s Ho Hfit. rewrite length_app, Nat2Z.inj_add in *.
    destruct (em_fits _ _ _ _ _ H1 mm s Ho) as (mm1 & E1 & R1); [lia|].
    assert (Ho1 : out_ok m0 mm1 (advance (len l1) s)) by (eapply out_ok_advance; [done|lia|done]).
    destruct (em_fits _ _ _ _ _ H2 mm1 _ Ho1) as (mm2 & E2 & R2); [simpl; lia|].
    exists mm2. split; [now rewrite (store_bytes_app _ _ _ _ _ E1)|].
    unfold bind. rewrite R1. cbn [rbind]. rewrite R2. now rewrite advance_advance.
  - intros mm s Ho Hl Hfull. rewrite length_app, Nat2Z.inj_add in *. unfold bind.
    destruct (Z.le_gt_cases (bytes_written s + len l1) (max_size s)) as [L|L].
    + destruct (em_fits _ _ _ _ _ H1 mm s Ho L) as (mm1 & E1 & R1).
      pose proof (out_ok_advance _ _ _ _ _ Ho L E1) as Ho1.
      destruct (em_full _ _ _ _ _ H2 mm1 _ Ho1) as (s' & mm2 & R2 & F2); [lia|simpl; lia|].
      exists s', mm2. rewrite R1. cbn [rbind]. split; [done|].
      eapply frame_trans.
      * eapply frame_weaken; [exact (store_bytes_frame _ _ _ _ E1)|lia|lia].
      * eapply frame_weaken; [exact F2|simpl; lia|simpl; lia].
    + destruct (em_full _ _ _ _ _ H1 mm s Ho) as (s' & mm1 & R1 & F1); [lia|lia|].
      exists s', mm1. rewrite R1. done.
Qed.

(** The same where the second step, or the first, writes nothing. *)
Lemma emits_bind_l {A B} (m : Enc A) (k : A -> Enc B) a b l :
  emits m0 h m a [] -> emits m0 h (k a) b l -> emits m0 h (bind m k) b l.
Proof. apply (emits_bind m k a b [] l). Qed.

Lemma emits_bind_r {A B} (m : Enc A) (k : A -> Enc B) a b l :
  emits m0 h m a l -> emits m0 h (k a) b [] -> emits m0 h (bind m k) b l.
Proof. intros H1 H2. rewrite <- (app_nil_r l). eapply emits_bind; eauto. Qed.

(** ** Writing *)

Context (X : enc_externs).

(** A buffer argument that holds [l] whenever the message memory is [m0]. *)
Definition cbuf_holds (buf : cbuf) (l : list Z) : Prop :=
  forall mm s, m0 ⊆ mm ->
    buf_contents buf (len l) s (mk_world mm h) = Ret (Some l, s, mk_world mm h).

Lemma cbuf_holds_local l : cbuf_holds (BufLocal l) l.
Proof.
  intros mm s _. unfold buf_contents.
  destruct (Z.ltb_spec (len l) (len l)); [lia|].
  rewrite Nat2Z.id. now rewrite take_ge by lia.
Qed.

Lemma cbuf_holds_mem a l : load_bytes m0 a (length l) = Some l -> cbuf_holds (BufMem a) l.
Proof.
  intros H mm s Hs. unfold buf_contents, load. cbn [w_mem].
  rewrite Nat2Z.id. now rewrite (load_bytes_subseteq _ _ _ _ _ Hs H).
Qed.

Lemma emits_write buf l : cbuf_holds buf l -> emits m0 h (pb_write X buf (len l)) tt l.
Proof.
  intros Hbuf. constructor.
  - intros mm s Hs Hc Hb. unfold pb_write, bind, get, put, ret. cbn [rbind]. rewrite Hc.
    rewrite andb_false_r. done.
  - intros mm s Ho Hfit. destruct Ho as [Hc Hr Hm Ha Hs He].
    destruct (store_bytes_mapped mm (os_state s) l) as (mm' & E & F).
    { intros x Hx. apply Ha. lia. }
    exists mm'. split; [done|]. unfold pb_write, bind at 1, get at 1. cbn [rbind]. rewrite Hc.
    rewrite andb_true_r. destruct (Z.ltb_spec 0 (len l)) as [L|L].
    + rewrite wrapu_small by (zpow; lia).
      destruct (Z.ltb_spec (bytes_written s + len l) (bytes_written s)); [lia|].
      destruct (Z.ltb_spec (max_size s) (bytes_written s + len l)); [lia|]. cbn [orb].
      unfold bind, catch, call_write, bind, get. cbn [rbind]. rewrite Hc.
      unfold buf_write, bind, get, put. cbn [rbind].
      rewrite (Hbuf mm s Hs). cbn [rbind]. unfold store. simpl. rewrite E. simpl.
      unfold advance, set_bytes_written. simpl. rewrite wrapu_small by (zpow; lia). done.
    + assert (l = []) as -> by (destruct l; [done|simpl in L; lia]).
      simpl in E. injection E as <-. unfold bind, ret, get, put. cbn [rbind].
      unfold advance, set_bytes_written. simpl. rewrite !Z.add_0_r, wrapu_small by (zpow; lia). done.
  - intros mm s Ho Hl Hfull. destruct Ho as [Hc Hr Hm Ha Hs He].
    eexists _, mm. split; [|apply frame_refl].
    unfold pb_write, bind at 1, get at 1. cbn [rbind]. rewrite Hc, andb_true_r.
    destruct (Z.ltb_spec 0 (len l)); [|lia].
    rewrite wrapu_small by (zpow; lia).
    destruct (Z.ltb_spec (max_size s) (bytes_written s + len l)); [|lia].
    rewrite orb_true_r. unfold bind, PB_RETURN_ERROR. simpl. reflexivity.
Qed.

Lemma emits_write_local l : emits m0 h (pb_write X (BufLocal l) (len l)) tt l.
Proof. apply emits_write, cbuf_holds_local. Qed.

Lemma emits_varint v : 0 <= v < 2 ^ 64 -> emits m0 h (pb_encode_varint X v) tt (varint_bytes v).
Proof.
  intros Hv. unfold pb_encode_varint. destruct (Z.leb_spec v 0x7F) as [L|L].
  - rewrite wrapu_small by (zpow; lia).
    replace (varint_bytes v) with [v]; [apply (emits_write_local [v])|].
    unfold varint_bytes. cbn [varint_digits]. destruct (Z.ltb_spec v 128); [done|lia].
  - destruct (encode_varint_buffer v ltac:(lia)) as (buf & E & Ea & El).
    rewrite E. eapply emits_bind_l; [apply emits_lift|]. cbv zeta.
    rewrite Ea, El. apply emits_write_local.
Qed.

Lemma emits_string buf l :
  cbuf_holds buf l -> len l < 2 ^ 64 ->
  emits m0 h (pb_encode_string X buf (len l)) tt (varint_bytes (len l) ++ l).
Proof.
  intros. unfold pb_encode_string.
  eapply emits_bind; [apply emits_varint; lia|now apply emits_write].
Qed.

(** A tag is the varint of [field_number * 8 + wiretype]. *)
Lemma tag_value t wt :
  0 <= t < 2 ^ 32 -> 0 <= wt < 8 -> Z.lor (u64 (Z.shiftl t 3)) wt = t * 8 + wt.
Proof.
  intros. rewrite wrapu_small by (rewrite Z.shiftl_mul_pow2 by lia; zpow; lia).
  rewrite Z.lor_comm, lor_shiftl_add by (zpow; lia). zpow. lia.
Qed.

Lemma emits_tag wt t :
  0 <= t < 2 ^ 32 -> 0 <= wt < 8 ->
  emits m0 h (pb_encode_tag X wt t) tt (varint_bytes (t * 8 + wt)).
Proof.
  intros. unfold pb_encode_tag. rewrite tag_value by done. apply emits_varint. zpow. lia.
Qed.

Lemma emits_tag_for_field f wt :
  0 <= tag f < 2 ^ 32 -> wire_type_of (PB_LTYPE (type f)) = Some wt ->
  emits m0 h (pb_encode_tag_for_field X f) tt (varint_bytes (tag f * 8 + wt)).
Proof.
  intros Ht Hw. unfold pb_encode_tag_for_field. rewrite Hw. apply emits_tag; [done|].
  unfold wire_type_of, PB_WT_VARINT, PB_WT_32BIT, PB_WT_64BIT, PB_WT_STRING in Hw.
  destruct (_ || _); [injection Hw; lia|]. destruct (_ =? _); [injection Hw; lia|].
  destruct (_ =? _); [injection Hw; lia|]. destruct (_ || _); [injection Hw; lia|done].
Qed.

(** ** Sizing first, writing next *)

Lemma pb_write_sizing buf n s w :
  os_callback s = OCB_NULL -> pb_write X buf n s w = Ret (Some tt, bump n s, w).
Proof.
  intros Hc. unfold pb_write, bind, get, put, ret. cbn [rbind]. rewrite Hc, andb_false_r. done.
Qed.

(** [if (stream->callback == NULL) return pb_write(stream, NULL, size); ...] *)
Lemma emits_sizing_shortcut (m : Enc unit) l :
  emits m0 h m tt l ->
  emits m0 h (let* s := get in
              match os_callback s with
              | OCB_NULL => pb_write X BufNULL (len l)
              | _ => m
              end) tt l.
Proof.
  intros H. constructor.
  - intros mm s Hs Hc Hb. unfold bind, get. cbn [rbind]. rewrite Hc. now apply pb_write_sizing.
  - intros mm s Ho Hfit. unfold bind, get. cbn [rbind].
    rewrite (oo_callback _ _ _ Ho). now apply (em_fits _ _ _ _ _ H).
  - intros mm s Ho Hl Hfull. unfold bind, get. cbn [rbind].
    rewrite (oo_callback _ _ _ Ho). now apply (em_full _ _ _ _ _ H).
Qed.

(** A run on a local sizing stream: the number of bytes. *)
Lemma emits_on_sizing {A} (m : Enc A) a l :
  emits m0 h m a l -> len l < 2 ^ 64 ->
  emits m0 h (on_stream PB_OSTREAM_SIZING m)
    (Some a, mk_ostream OCB_NULL 0 0 (len l) None) [].
Proof.
  intros H Hl. apply emits_pure. intros mm s Hs. unfold on_stream.
  rewrite (em_size _ _ _ _ _ H) by (done || (simpl; lia)). cbn [rbind].
  unfold bump, set_bytes_written. simpl. rewrite wrapu_small by lia. done.
Qed.

Lemma emits_submessage rec fields src l :
  emits m0 h (rec fields src) tt l -> len l < 2 ^ 63 ->
  emits m0 h (pb_encode_submessage X rec fields src) tt (varint_bytes (len l) ++ l).
Proof.
  intros H Hl. unfold pb_encode_submessage.
  eapply emits_bind_l; [apply emits_on_sizing; [exact H|zpow; lia]|]. cbv beta iota zeta.
  cbn [bytes_written].
  eapply emits_bind; [apply emits_varint; zpow; lia|].
  constructor.
  - intros mm s Hs Hc Hb. unfold bind, get. cbn [rbind]. rewrite Hc. now apply pb_write_sizing.
  - intros mm s Ho Hfit. unfold bind at 1, get at 1. cbn [rbind].
    destruct Ho as [Hc Hr Hm Ha Hs He]. rewrite Hc.
    rewrite wrapu_small by (zpow; lia).
    destruct (Z.ltb_spec (max_size s) (bytes_written s + len l)); [lia|].
    destruct (em_fits _ _ _ _ _ H mm (mk_ostream OCB_buf_write (os_state s) (len l) 0 None))
      as (mm' & E & R); [| simpl; lia|].
    { constructor; simpl; try done; [lia|]. intros x Hx. apply Ha. lia. }
    exists mm'. split; [done|]. unfold bind, on_stream. rewrite R. cbn [rbind].
    unfold get, put. simpl. rewrite Z.eqb_refl. simpl. unfold ret.
    rewrite wrapu_small by (zpow; lia). unfold advance. rewrite He. done.
  - intros mm s Ho Hl' Hfull. unfold bind at 1, get at 1. cbn [rbind].
    destruct Ho as [Hc Hr Hm Ha Hs He]. rewrite Hc.
    rewrite wrapu_small by (zpow; lia).
    destruct (Z.ltb_spec (max_size s) (bytes_written s + len l)); [|lia].
    eexists _, mm. split; [reflexivity|apply frame_refl].
Qed.
End Rules.

Create HintDb emits discriminated.
#[export] Hint Resolve emits_ret emits_load_u emits_lift emits_varint emits_write_local
  emits_tag emits_tag_for_field : emits.
