(* ===== verification/PbEncodeSpec.v ===== *)
(** * nanopb: the wire format of a message, and that the encoder produces it

    [message_wire] is the reference: a pure function from the memory that holds
    a C structure, and the descriptor of its type, to the protobuf bytes of the
    message. It has no streams, buffers or sizing passes. The refinement lemma
    says that [pb_encode] emits exactly these bytes. At the end a message with
    its descriptors and a structure in memory, which the examples use. *)
From Stdlib Require Import ZArith Lia Bool List String.
From stdpp Require Import base list gmap numbers.
From S2P Require Import Prelude CMem Leb128 PbCommon PbEncode PbDecode PbWire PbEmits.

Section Wire.
Context (D : descriptors) (m : mem).

(** The little-endian integer of [n] bytes at [a]. *)
Definition rd (a n : Z) : option Z := le_val <$> load_bytes m a (Z.to_nat n).

(** The characters at [a] before the terminator, at most [room]. *)
Fixpoint cstr (fuel : nat) (a room : Z) : option (list Z) :=
  match fuel with
  | O => None
  | S fuel =>
      if 0 <? room then
        match m !! a with
        | None => None
        | Some c => if c =? 0 then Some [] else cons c <$> cstr fuel (a + 1) (room - 1)
        end
      else Some []
  end.

Definition int_size (n : Z) : bool := (n =? 1) || (n =? 2) || (n =? 4) || (n =? 8).

(** The zigzag code of a signed integer. *)
Definition zigzag_spec (v : Z) : Z := if v <? 0 then - 2 * v - 1 else 2 * v.

(** A length-delimited value. *)
Definition delimited (l : list Z) : option (list Z) :=
  if len l <? 2 ^ 63 then Some (varint_bytes (len l) ++ l) else None.

(** The bytes of one value of the field's type, without its tag; [sub] is the
    wire format of a submessage. *)
Definition item_wire (sub : list pb_field -> Z -> option (list Z)) (f : pb_field) (src : Z)
    : option (list Z) :=
  let lt := PB_LTYPE (type f) in
  if lt =? PB_LTYPE_BOOL then
    b ← rd src 1; Some (varint_bytes (if b =? 0 then 0 else 1))
  else if (lt =? PB_LTYPE_VARINT) && int_size (data_size f) then
    x ← rd src (data_size f); Some (varint_bytes (u64 (wraps (8 * data_size f) x)))
  else if (lt =? PB_LTYPE_UVARINT) && int_size (data_size f) then
    x ← rd src (data_size f); Some (varint_bytes x)
  else if (lt =? PB_LTYPE_SVARINT) && int_size (data_size f) then
    x ← rd src (data_size f); Some (varint_bytes (zigzag_spec (wraps (8 * data_size f) x)))
  else if lt =? PB_LTYPE_FIXED32 then load_bytes m src 4
  else if lt =? PB_LTYPE_FIXED64 then load_bytes m src 8
  else if lt =? PB_LTYPE_BYTES then
    if src =? 0 then Some [0]
    else
      n ← rd src 4;
      if (PB_ATYPE (type f) =? PB_ATYPE_STATIC) && negb (n + 4 <=? data_size f) then None
      else l ← load_bytes m (src + 4) (Z.to_nat n); delimited l
  else if lt =? PB_LTYPE_STRING then
    if src =? 0 then Some [0]
    else
      l ← cstr (2 + size m) src
            (if PB_ATYPE (type f) =? PB_ATYPE_POINTER then 2 ^ 64 - 1 else data_size f);
      delimited l
  else if lt =? PB_LTYPE_SUBMESSAGE then
    if ptr f =? 0 then None
    else fields ← D !! ptr f; l ← sub fields src; delimited l
  else if lt =? PB_LTYPE_FIXED_LENGTH_BYTES then
    l ← load_bytes m src (Z.to_nat (data_size f)); delimited l
  else None.

(** The tag of the field. *)
Definition tag_wire (f : pb_field) : option (list Z) :=
  wt ← wire_type_of (PB_LTYPE (type f)); Some (varint_bytes (tag f * 8 + wt)).

Definition tagged_wire (f : pb_field) (item : option (list Z)) : option (list Z) :=
  t ← tag_wire f; l ← item; Some (t ++ l).

(** The concatenation of [count] items, [step] bytes apart. *)
Fixpoint items_wire (item : Z -> option (list Z)) (step : Z) (count : nat) (p : Z)
    : option (list Z) :=
  match count with
  | O => Some []
  | S count => l ← item p; r ← items_wire item step count (p + step); Some (l ++ r)
  end.

(** A repeated field: packed when the type allows it, else one tag per item. *)
Definition array_wire (sub : list pb_field -> Z -> option (list Z)) (f : pb_field)
    (p count : Z) : option (list Z) :=
  if count =? 0 then Some []
  else if negb (PB_ATYPE (type f) =? PB_ATYPE_POINTER) && (array_size f <? count) then None
  else if PB_LTYPE (type f) <=? PB_LTYPE_LAST_PACKABLE then
    l ← items_wire (item_wire sub f) (data_size f) (Z.to_nat count) p;
    d ← delimited l;
    Some (varint_bytes (tag f * 8 + PB_WT_STRING) ++ d)
  else
    items_wire
      (fun q => tagged_wire f
         (if (PB_ATYPE (type f) =? PB_ATYPE_POINTER)
             && ((PB_LTYPE (type f) =? PB_LTYPE_STRING) || (PB_LTYPE (type f) =? PB_LTYPE_BYTES))
          then q' ← rd q 8; item_wire sub f q'
          else item_wire sub f q))
      (data_size f) (Z.to_nat count) p.

Definition all_zero (a n : Z) : option bool :=
  l ← load_bytes m a (Z.to_nat n); Some (forallb (fun b => b =? 0) l).

(** Whether every field of a structure satisfies [check]. *)
Definition all_fields (check : pb_field -> Z -> option bool) (fields : list pb_field) (src : Z)
    : option bool :=
  foldr (fun i acc => b ← check (field_at fields i) (pData (iter_at fields src i));
                      if b : bool then acc else Some false)
    (Some true) (seq 0 (length fields)).

(** Whether a proto3 singular field has its default value, which is not
    encoded; [rec] is the same question for a field of a submessage. *)
Definition singular_spec (rec : pb_field -> Z -> option bool) (f : pb_field) (p : Z)
    : option bool :=
  let a := PB_ATYPE (type f) in
  let lt := PB_LTYPE (type f) in
  if (a =? PB_ATYPE_STATIC) && (lt =? PB_LTYPE_BYTES) then n ← rd p 4; Some (n =? 0)
  else if (a =? PB_ATYPE_STATIC) && (lt =? PB_LTYPE_STRING) then c ← rd p 1; Some (c =? 0)
  else if (a =? PB_ATYPE_STATIC) && (lt =? PB_LTYPE_FIXED_LENGTH_BYTES) then
    Some (data_size f =? 0)
  else if (a =? PB_ATYPE_STATIC) && (lt =? PB_LTYPE_SUBMESSAGE) then
    fields ← D !! ptr f;
    if bool_decide (fields_wf fields) then all_fields rec fields p else None
  else if (a =? PB_ATYPE_POINTER) && (PB_LTYPE_LAST_PACKABLE <? lt) then
    q ← rd p 8; Some (q =? 0)
  else all_zero p (data_size f).

Fixpoint default_spec (fuel : nat) (f : pb_field) (p : Z) : option bool :=
  match fuel with
  | O => None
  | S fuel =>
      let count := n ← rd (p + size_offset f) 4; Some (n =? 0) in
      let singular := singular_spec (default_spec fuel) f p in
      if PB_HTYPE (type f) =? PB_HTYPE_REQUIRED then Some false
      else if PB_HTYPE (type f) =? PB_HTYPE_REPEATED then
        if negb (size_offset f =? 0) then count
        else if PB_ATYPE (type f) =? PB_ATYPE_STATIC then Some false else singular
      else if PB_HTYPE (type f) =? PB_HTYPE_ONEOF then count
      else if negb (size_offset f =? 0) then b ← rd (p + size_offset f) 1; Some (b =? 0)
      else singular
  end.

(** The bytes of a field of a structure, [p] being the address of its data. *)
Definition field_wire (fuel : nat) (sub : list pb_field -> Z -> option (list Z))
    (f : pb_field) (p : Z) : option (list Z) :=
  let ty := type f in
  let pointer := PB_ATYPE ty =? PB_ATYPE_POINTER in
  if PB_LTYPE ty =? PB_LTYPE_EXTENSION then
    (* an extension placeholder, when no extension is registered *)
    q ← rd p 8; if q =? 0 then Some [] else None
  else if (PB_ATYPE ty =? PB_ATYPE_STATIC) || pointer then
    data ← (if pointer then rd p 8 else Some p);
    if PB_HTYPE ty =? PB_HTYPE_REQUIRED then
      if data =? 0 then None else tagged_wire f (item_wire sub f data)
    else if PB_HTYPE ty =? PB_HTYPE_OPTIONAL then
      has ← (if negb (size_offset f =? 0)
             then b ← rd (p + size_offset f) 1; Some (negb (b =? 0))
             else
               d ← default_spec fuel f p;
               Some (if pointer then negb (data =? 0) else negb d));
      if has : bool then tagged_wire f (item_wire sub f data) else Some []
    else if PB_HTYPE ty =? PB_HTYPE_REPEATED then
      count ← (if negb (size_offset f =? 0) then rd (p + size_offset f) 4
               else Some (array_size f));
      array_wire sub f data count
    else
      if size_offset f =? 0 then None
      else
        which ← rd (p + size_offset f) 4;
        if which =? tag f then tagged_wire f (item_wire sub f data) else Some []
  else if PB_ATYPE ty =? PB_ATYPE_CALLBACK then
    (* a callback field whose callback is not set *)
    fn ← rd p 8; if fn =? 0 then Some [] else None
  else None.

(** The concatenation of the fields, in descriptor order. *)
Definition fields_wire (fw : pb_field -> Z -> option (list Z)) (fields : list pb_field) (src : Z)
    (idxs : list nat) : option (list Z) :=
  foldr (fun i acc => l ← fw (field_at fields i) (pData (iter_at fields src i));
                      r ← acc; Some (l ++ r)) (Some []) idxs.

(** A descriptor entry whose members are in range. *)
Definition field_ok (f : pb_field) : bool :=
  (0 <? tag f) && (tag f <? 2 ^ 32) && (0 <=? data_size f) && (data_size f <? 2 ^ 32)
  && (0 <=? array_size f) && (PB_LTYPE (type f) <? PB_LTYPES_COUNT).
Definition fields_ok (fields : list pb_field) : bool := forallb field_ok fields.

Fixpoint message_wire (fuel : nat) (fields : list pb_field) (src : Z) : option (list Z) :=
  match fuel with
  | O => None
  | S fuel =>
      if fields_ok fields
      then fields_wire (field_wire fuel (message_wire fuel)) fields src (seq 0 (length fields))
      else None
  end.
End Wire.

(** ** Reading the message *)

Ltac obind H x E := apply bind_Some in H; destruct H as (x & E & H).

Lemma rd_Some m a n x :
  rd m a n = Some x -> exists l, load_bytes m a (Z.to_nat n) = Some l /\ x = le_val l.
Proof. unfold rd. destruct (load_bytes _ _ _); simpl; intros; simplify_eq. eauto. Qed.

Lemma rd_range m a n x :
  bytes_ok m -> 0 <= n -> rd m a n = Some x -> 0 <= x < 2 ^ (8 * n).
Proof.
  intros Hm Hn H. apply rd_Some in H as (l & E & ->).
  pose proof (le_val_range l (load_bytes_is_bytes _ _ _ _ Hm E)) as R.
  rewrite (load_bytes_length _ _ _ _ E), Z2Nat.id in R by done.
  rewrite Z.pow_mul_r by lia. exact R.
Qed.

Lemma cstr_load m fuel a room l :
  cstr m fuel a room = Some l -> load_bytes m a (length l) = Some l.
Proof.
  revert a room l; induction fuel as [|fuel IH]; intros a room l H; [done|]. simpl in H.
  destruct (0 <? room); [|now simplify_eq].
  destruct (m !! a) as [c|] eqn:E; [|done].
  destruct (c =? 0); [now simplify_eq|].
  destruct (cstr m fuel (a + 1) (room - 1)) as [l'|] eqn:E'; simpl in H; [|done].
  simplify_eq. simpl. rewrite E, (IH _ _ _ E'). done.
Qed.

Lemma zigzag_correct v : - 2 ^ 63 <= v < 2 ^ 63 -> zigzag v = zigzag_spec v /\ 0 <= zigzag v < 2 ^ 64.
Proof.
  intros Hv. unfold zigzag, zigzag_spec. destruct (Z.ltb_spec v 0).
  - assert (E1 : u64 v = v + 2 ^ 64)
      by (unfold wrapu; symmetry; apply Z.mod_unique with (-1); zpow; lia).
    assert (E2 : u64 (Z.shiftl (v + 2 ^ 64) 1) = 2 * v + 2 ^ 64).
    { rewrite Z.shiftl_mul_pow2 by lia. unfold wrapu.
      symmetry. apply Z.mod_unique with 1; zpow; lia. }
    rewrite E1, E2. unfold Z.lnot, wrapu.
    assert (Z.pred (- (2 * v + 2 ^ 64)) mod 2 ^ 64 = - 2 * v - 1) as ->
      by (symmetry; apply Z.mod_unique with (-1); zpow; lia).
    zpow. lia.
  - rewrite (wrapu_small 64 v), Z.shiftl_mul_pow2 by (zpow; lia).
    rewrite wrapu_small by (zpow; lia). zpow. lia.
Qed.

Lemma int_size_cases n : int_size n = true -> n = 1 \/ n = 2 \/ n = 4 \/ n = 8.
Proof. unfold int_size. intros. b2p. lia. Qed.

Ltac int_cases H :=
  apply int_size_cases in H; destruct H as [->|[->|[->| ->]]].

Ltac ltypes :=
  unfold PB_LTYPE_BOOL, PB_LTYPE_VARINT, PB_LTYPE_UVARINT, PB_LTYPE_SVARINT, PB_LTYPE_FIXED32,
    PB_LTYPE_FIXED64, PB_LTYPE_BYTES, PB_LTYPE_STRING, PB_LTYPE_SUBMESSAGE,
    PB_LTYPE_FIXED_LENGTH_BYTES, PB_LTYPE_EXTENSION, PB_LTYPE_LAST_PACKABLE in *.

Lemma item_wire_ltype D m sub f src l :
  item_wire D m sub f src = Some l ->
  PB_LTYPE (type f) ∈ [0; 1; 2; 3; 4; 5; 6; 7; 8; 10].
Proof.
  unfold item_wire. cbv zeta. generalize (PB_LTYPE (type f)). intros lt. ltypes.
  repeat (match goal with |- context [lt =? ?n] => destruct (Z.eqb_spec lt n) end;
          [subst; intros; set_solver|]).
  done.
Qed.

Section Refine.
Context (X : enc_externs) (D : descriptors) (m : mem) (h : heap).
Context (Hm : bytes_ok m).

Lemma emits_rd a n x : rd m a n = Some x -> emits m h (load_u a n) x [].
Proof. intros H. apply rd_Some in H as (l & E & ->). now apply emits_load_u. Qed.

Lemma emits_rd_then {B} a n x (k : Z -> Enc B) b l :
  rd m a n = Some x -> emits m h (k x) b l -> emits m h (bind (load_u a n) k) b l.
Proof. intros. eapply emits_bind_l; [apply emits_rd; eassumption|done]. Qed.

Lemma emits_read_bool p b :
  rd m p 1 = Some b -> emits m h (safe_read_bool p) (negb (b =? 0)) [].
Proof. intros. eapply emits_rd_then; [done|]. apply emits_ret. Qed.

Lemma emits_delimited buf l d :
  cbuf_holds m h buf l -> delimited l = Some d ->
  emits m h (pb_encode_string X buf (len l)) tt d.
Proof.
  unfold delimited. intros Hb. destruct (Z.ltb_spec (len l) (2 ^ 63)); [|done].
  intros [= <-]. apply emits_string; [done|zpow; lia].
Qed.

Lemma emits_empty_string : emits m h (pb_encode_string X BufNULL 0) tt [0].
Proof.
  change [0] with (varint_bytes (len (@nil Z)) ++ []).
  apply (emits_string m h X BufNULL []); [|simpl; zpow; lia].
  apply cbuf_holds_mem. done.
Qed.

(** The scanning loop of [pb_enc_string]. *)
Lemma emits_strnlen fuel fuel' a n room l :
  cstr m fuel a room = Some l -> (fuel <= fuel')%nat ->
  emits m h (strnlen_loop fuel' a n (n + room)) (n + len l) [].
Proof.
  revert fuel' a n room l; induction fuel as [|fuel IH]; intros fuel' a n room l H Hf; [done|].
  destruct fuel' as [|fuel']; [lia|]. cbn [cstr] in H. cbn [strnlen_loop].
  replace (n <? n + room) with (0 <? room)
    by (destruct (Z.ltb_spec 0 room), (Z.ltb_spec n (n + room)); lia).
  destruct (0 <? room).
  2: { simplify_eq. rewrite Z.add_0_r. apply emits_ret. }
  destruct (m !! a) as [c|] eqn:E; [|done].
  assert (R : rd m a 1 = Some c).
  { unfold rd. simpl. rewrite E. simpl. f_equal. lia. }
  eapply emits_rd_then; [exact R|]. destruct (c =? 0).
  - simplify_eq. rewrite Z.add_0_r. apply emits_ret.
  - destruct (cstr m fuel (a + 1) (room - 1)) as [l'|] eqn:E'; simpl in H; [|done].
    simplify_eq. replace (n + room) with (n + 1 + (room - 1)) by lia.
    replace (n + len (c :: l')) with (n + 1 + len l') by (simpl length; lia).
    eapply IH; [exact E'|lia].
Qed.

Lemma fixed32_le val l :
  is_bytes l -> length l = 4%nat -> val = le_val l -> fixed32_bytes val = l.
Proof.
  intros Hl H4 ->. pose proof (le_val_range l Hl) as R. rewrite H4 in R.
  rewrite <- (le_bytes_val l Hl) at 2. rewrite H4. unfold fixed32_bytes, le_bytes.
  rewrite !land_255, !shiftr_div by lia.
  rewrite !Z.div_div by lia. rewrite !(wrapu_small 8) by (apply Z.mod_pos_bound; lia). done.
Qed.

Lemma fixed64_le val l :
  is_bytes l -> length l = 8%nat -> val = le_val l -> fixed64_bytes val = l.
Proof.
  intros Hl H8 ->. rewrite <- (le_bytes_val l Hl) at 2. rewrite H8.
  unfold fixed64_bytes, le_bytes.
  rewrite !land_255, !shiftr_div by lia.
  rewrite !Z.div_div by lia. rewrite !(wrapu_small 8) by (apply Z.mod_pos_bound; lia). done.
Qed.

(** ** One value *)

(** The three integer encoders read the field at its width. *)
Lemma emits_read_signed f src x :
  int_size (data_size f) = true -> rd m src (data_size f) = Some x ->
  emits m h
    (if data_size f =? 1 then let* x := load_u src 1 in ret (s8 x)
     else if data_size f =? 2 then let* x := load_u src 2 in ret (s16 x)
     else if data_size f =? 4 then let* x := load_u src 4 in ret (s32 x)
     else if data_size f =? 8 then let* x := load_u src 8 in ret (s64 x)
     else PB_RETURN_ERROR "invalid data_size") (wraps (8 * data_size f) x) [].
Proof.
  intros Hi Hr. destruct f as [tg ty dof so ds asz pt]. simpl in *.
  int_cases Hi; (eapply emits_rd_then; [exact Hr|apply emits_ret]).
Qed.

Lemma emits_read_unsigned f src x :
  int_size (data_size f) = true -> rd m src (data_size f) = Some x ->
  emits m h
    (if data_size f =? 1 then load_u src 1
     else if data_size f =? 2 then load_u src 2
     else if data_size f =? 4 then load_u src 4
     else if data_size f =? 8 then load_u src 8
     else PB_RETURN_ERROR "invalid data_size") x [].
Proof.
  intros Hi Hr. destruct f as [tg ty dof so ds asz pt]. simpl in *.
  int_cases Hi; apply emits_rd; exact Hr.
Qed.

Lemma int_value_range n a x :
  int_size n = true -> rd m a n = Some x ->
  0 <= x < 2 ^ 64 /\ - 2 ^ 63 <= wraps (8 * n) x < 2 ^ 63.
Proof.
  intros Hi Hr. assert (0 <= n) by (apply int_size_cases in Hi; lia).
  pose proof (rd_range m a n x Hm H Hr).
  pose proof (wraps_range (8 * n) x ltac:(apply int_size_cases in Hi; lia)).
  int_cases Hi; simpl in *; zpow; lia.
Qed.

Lemma emits_enc_varint f src x :
  int_size (data_size f) = true -> rd m src (data_size f) = Some x ->
  emits m h (pb_enc_varint X f src) tt (varint_bytes (u64 (wraps (8 * data_size f) x))).
Proof.
  intros Hi Hr. eapply emits_bind_l; [apply emits_read_signed; eassumption|].
  apply emits_varint. apply wrapu_range. lia.
Qed.

Lemma emits_enc_uvarint f src x :
  int_size (data_size f) = true -> rd m src (data_size f) = Some x ->
  emits m h (pb_enc_uvarint X f src) tt (varint_bytes x).
Proof.
  intros Hi Hr. eapply emits_bind_l; [apply emits_read_unsigned; eassumption|].
  apply emits_varint. now apply (int_value_range (data_size f) src).
Qed.

Lemma emits_enc_svarint f src x :
  int_size (data_size f) = true -> rd m src (data_size f) = Some x ->
  emits m h (pb_enc_svarint X f src) tt
    (varint_bytes (zigzag_spec (wraps (8 * data_size f) x))).
Proof.
  intros Hi Hr. eapply emits_bind_l; [apply emits_read_signed; eassumption|].
  destruct (int_value_range _ _ _ Hi Hr) as [_ R].
  destruct (zigzag_correct _ R) as [E R']. rewrite <- E. now apply emits_varint.
Qed.

Lemma emits_enc_bool f src b :
  rd m src 1 = Some b ->
  emits m h (pb_enc_bool X f src) tt (varint_bytes (if b =? 0 then 0 else 1)).
Proof.
  intros Hr. eapply emits_bind_l; [apply emits_read_bool; exact Hr|].
  destruct (b =? 0); apply emits_varint; zpow; simpl; lia.
Qed.

Lemma emits_enc_fixed32 f src l :
  load_bytes m src 4 = Some l -> emits m h (pb_enc_fixed32 X f src) tt l.
Proof.
  intros H. eapply emits_bind_l; [apply (emits_load_u m h src 4 l); exact H|].
  pose proof (load_bytes_length _ _ _ _ H) as H4.
  rewrite (fixed32_le _ l) by (done || exact (load_bytes_is_bytes _ _ _ _ Hm H)).
  pose proof (emits_write_local m h X l) as E. rewrite H4 in E. exact E.
Qed.

Lemma emits_enc_fixed64 f src l :
  load_bytes m src 8 = Some l -> emits m h (pb_enc_fixed64 X f src) tt l.
Proof.
  intros H. eapply emits_bind_l; [apply (emits_load_u m h src 8 l); exact H|].
  pose proof (load_bytes_length _ _ _ _ H) as H8.
  rewrite (fixed64_le _ l) by (done || exact (load_bytes_is_bytes _ _ _ _ Hm H)).
  pose proof (emits_write_local m h X l) as E. rewrite H8 in E. exact E.
Qed.

Lemma emits_mem_string a n l d :
  load_bytes m a (Z.to_nat n) = Some l -> 0 <= n -> delimited l = Some d ->
  emits m h (pb_encode_string X (BufMem a) n) tt d.
Proof.
  intros H Hn Hd. pose proof (load_bytes_length _ _ _ _ H) as E.
  replace n with (len l) by lia. apply emits_delimited; [|done].
  apply cbuf_holds_mem. now rewrite E.
Qed.

Lemma emits_enc_bytes f src n l d :
  0 <= data_size f < 2 ^ 32 -> src <> 0 -> rd m src 4 = Some n ->
  (PB_ATYPE (type f) =? PB_ATYPE_STATIC) && negb (n + 4 <=? data_size f) = false ->
  load_bytes m (src + 4) (Z.to_nat n) = Some l -> delimited l = Some d ->
  emits m h (pb_enc_bytes X f src) tt d.
Proof.
  intros Hds Hs Hr Hc Hl Hd. unfold pb_enc_bytes. destruct (Z.eqb_spec src 0); [done|].
  pose proof (rd_range m src 4 n Hm ltac:(lia) Hr) as Rn.
  eapply emits_rd_then; [exact Hr|].
  match goal with |- context [if ?c then _ else _] => assert (c = false) as -> end.
  { apply andb_false_iff. b2p. destruct Hc as [->|Hc]; [now left|].
    b2p. right. apply Z.ltb_ge. unfold offsetof_bytes.
    rewrite wrapu_small by (zpow; lia). lia. }
  apply (emits_mem_string (src + 4) n l d); [done|lia|done].
Qed.

Lemma emits_get_world {B} (k : world -> Enc B) b l :
  (forall mm, m ⊆ mm -> emits m h (k (mk_world mm h)) b l) ->
  emits m h (bind get_world k) b l.
Proof.
  intros H. constructor; intros mm s H1.
  - now apply (em_size _ _ _ _ _ (H mm H1)).
  - now apply (em_fits _ _ _ _ _ (H mm (oo_sub _ _ _ H1))).
  - now apply (em_full _ _ _ _ _ (H mm (oo_sub _ _ _ H1))).
Qed.

Lemma emits_enc_string f src l d :
  src <> 0 ->
  cstr m (2 + size m) src
    (if PB_ATYPE (type f) =? PB_ATYPE_POINTER then 2 ^ 64 - 1 else data_size f) = Some l ->
  delimited l = Some d -> emits m h (pb_enc_string X f src) tt d.
Proof.
  intros Hs Hl Hd. unfold pb_enc_string. destruct (Z.eqb_spec src 0); [done|].
  eapply emits_bind_l.
  - apply emits_get_world. intros mm Hmm.
    eapply (emits_strnlen _ _ src 0); [exact Hl|]. apply map_subseteq_size in Hmm.
    cbn [w_mem]. lia.
  - rewrite Z.add_0_l. eapply emits_mem_string; [|lia|exact Hd].
    rewrite Nat2Z.id. exact (cstr_load _ _ _ _ _ Hl).
Qed.

(** The recursive call, of which only the bytes it writes matter. *)
Context (rec : list pb_field -> Z -> Enc unit) (sub : list pb_field -> Z -> option (list Z)).
Context (Hsub : forall fields src l, sub fields src = Some l -> emits m h (rec fields src) tt l).

Lemma emits_enc_submessage f src fields l d :
  ptr f <> 0 -> D !! ptr f = Some fields -> sub fields src = Some l -> delimited l = Some d ->
  emits m h (pb_enc_submessage X D rec f src) tt d.
Proof.
  intros Hp Hf Hl Hd. unfold pb_enc_submessage. destruct (Z.eqb_spec (ptr f) 0); [done|].
  rewrite Hf. eapply emits_bind_l; [apply emits_lift|].
  unfold delimited in Hd. destruct (Z.ltb_spec (len l) (2 ^ 63)); simplify_eq.
  apply emits_submessage; auto.
Qed.

Lemma field_ok_spec f :
  field_ok f = true ->
  0 < tag f < 2 ^ 32 /\ 0 <= data_size f < 2 ^ 32 /\ 0 <= array_size f /\
  0 <= PB_LTYPE (type f) < 11.
Proof.
  unfold field_ok, PB_LTYPES_COUNT. intros. b2p.
  assert (0 <= PB_LTYPE (type f)) by (apply Z.land_nonneg; unfold PB_LTYPE_MASK; lia). lia.
Qed.

(** The encoder the table selects for a field writes its value. *)
Lemma item_emits f src l :
  field_ok f = true -> item_wire D m sub f src = Some l ->
  exists func, PB_ENCODERS X D rec (PB_LTYPE (type f)) = Ret func /\ emits m h (func f src) tt l.
Proof.
  intros Hok H. apply field_ok_spec in Hok as (Ht & Hds & _ & _).
  pose proof (item_wire_ltype D m sub f src l H) as Hlt.
  unfold item_wire in H. cbv zeta in H. unfold PB_ENCODERS. revert Hlt H.
  generalize (PB_LTYPE (type f)). intros lt. ltypes.
  rewrite !elem_of_cons, elem_of_nil.
  intros Hlt H; repeat destruct Hlt as [->|Hlt]; [..|done];
    cbn [Z.eqb Pos.eqb andb] in H |- *; (eexists; split; [reflexivity|]).
  - obind H b E. simplify_eq. now apply emits_enc_bool.
  - destruct (int_size (data_size f)) eqn:Hi; [|done]. obind H x E. simplify_eq.
    now apply emits_enc_varint.
  - destruct (int_size (data_size f)) eqn:Hi; [|done]. obind H x E. simplify_eq.
    now apply emits_enc_uvarint.
  - destruct (int_size (data_size f)) eqn:Hi; [|done]. obind H x E. simplify_eq.
    now apply emits_enc_svarint.
  - now apply emits_enc_fixed32.
  - now apply emits_enc_fixed64.
  - destruct (Z.eqb_spec src 0) as [->|Hs]; [simplify_eq; apply emits_empty_string|].
    obind H n E. destruct (_ && _) eqn:Ec; [done|]. obind H l' E'.
    eapply emits_enc_bytes; eauto.
  - destruct (Z.eqb_spec src 0) as [->|Hs]; [simplify_eq; apply emits_empty_string|].
    obind H l' E. eapply emits_enc_string; eauto.
  - destruct (Z.eqb_spec (ptr f) 0) as [|Hp]; [done|]. obind H fs E. obind H l' E'.
    eapply emits_enc_submessage; eauto.
  - obind H l' E. now apply (emits_mem_string src (data_size f) l').
Qed.

(** ** Default values *)

Lemma emits_all_zero a n b :
  all_zero m a n = Some b -> emits m h (bytes_all_zero (Z.to_nat n) a) b [].
Proof.
  unfold all_zero. intros H. obind H l E. simplify_eq. revert E. generalize (Z.to_nat n).
  intros k. revert a l; induction k as [|k IH]; intros a l E; simpl in E |- *.
  - simplify_eq. apply emits_ret.
  - destruct (m !! a) as [c|] eqn:Ec; [|done].
    destruct (load_bytes m (a + 1) k) as [l'|] eqn:E'; [|done]. simplify_eq.
    assert (Hr : rd m a 1 = Some c) by (unfold rd; simpl; rewrite Ec; simpl; f_equal; lia).
    eapply emits_rd_then; [exact Hr|]. simpl. destruct (c =? 0); [|apply emits_ret].
    now apply IH.
Qed.

Lemma emits_iter_all check check' fields src k i fuel b :
  fields_wf fields ->
  (forall f p b, check f p = Some b -> emits m h (check' f p) b []) ->
  (i + S k = length fields)%nat -> (S k <= fuel)%nat ->
  foldr (fun i acc => b ← check (field_at fields i) (pData (iter_at fields src i));
                      if b : bool then acc else Some false) (Some true) (seq i (S k)) = Some b ->
  emits m h (iter_all_default check' fuel (iter_at fields src i)) b [].
Proof.
  intros Hwf Hc. revert i fuel; induction k as [|k IH]; intros i fuel Hi Hf H;
    (destruct fuel as [|fuel]; [lia|]);
    rewrite <- cons_seq in H; cbn [foldr] in H; obind H d E; cbn [iter_all_default];
    rewrite iter_at_field, iter_at_next by (done || lia);
    (eapply emits_bind_l; [apply Hc; exact E|]); (destruct d; cbn [negb]; [|simplify_eq; apply emits_ret]).
  - destruct (Nat.ltb_spec (S i) (length fields)); [lia|]. simpl in H. simplify_eq. apply emits_ret.
  - destruct (Nat.ltb_spec (S i) (length fields)); [|lia]. apply IH; [lia|lia|done].
Qed.

Lemma emits_rd_zero a n (b : bool) :
  (x ← rd m a n; Some (x =? 0)) = Some b ->
  emits m h (let* x := load_u a n in ret (x =? 0)) b [].
Proof. intros H. obind H x E. simplify_eq. eapply emits_rd_then; [exact E|apply emits_ret]. Qed.

Lemma singular_emits check check' f p b :
  (forall f p b, check f p = Some b -> emits m h (check' f p) b []) ->
  singular_spec D m check f p = Some b -> emits m h (check_proto3_singular D check' f p) b [].
Proof.
  intros Hc. unfold singular_spec, check_proto3_singular. cbv zeta.
  repeat match goal with
  | |- (if ?c then _ else _) = _ -> _ => destruct c eqn:?
  end; intros H.
  - now apply emits_rd_zero.
  - now apply emits_rd_zero.
  - simplify_eq. apply emits_ret.
  - obind H fields E. case_bool_decide as Hwf; [|done]. rewrite E.
    eapply emits_bind_l; [apply emits_lift|]. rewrite begin_nonempty by done.
    unfold all_fields in H. unfold iter_fuel. rewrite iter_at_start.
    destruct (length fields) as [|k] eqn:El; cbn [Nat.eqb negb].
    + simpl in H. simplify_eq. apply emits_ret.
    + eapply emits_iter_all; eauto.
  - now apply emits_rd_zero.
  - now apply emits_all_zero.
Qed.

Lemma default_emits fuel fuel' f p b :
  (fuel <= fuel')%nat -> default_spec D m fuel f p = Some b ->
  emits m h (pb_check_proto3_default_value D fuel' f p) b [].
Proof.
  revert fuel' f p b; induction fuel as [|fuel IH]; intros fuel' f p b Hf H; [done|].
  destruct fuel' as [|fuel']; [lia|]. cbn [default_spec] in H. cbv zeta in H.
  cbn [pb_check_proto3_default_value]. cbv zeta.
  pose proof (fun f p b => IH fuel' f p b ltac:(lia)) as IH'.
  repeat match type of H with
  | (if ?c then _ else _) = _ => destruct c eqn:?
  end; try (simplify_eq; apply emits_ret); try (now apply emits_rd_zero);
    try (eapply singular_emits; eauto; fail).
  obind H x E. simplify_eq. eapply emits_bind_l; [apply emits_read_bool; exact E|].
  rewrite negb_involutive. apply emits_ret.
Qed.

(** ** Arrays *)

Lemma encoder_exists lt : 0 <= lt < 11 -> exists func, PB_ENCODERS X D rec lt = Ret func.
Proof.
  intros H. unfold PB_ENCODERS. ltypes.
  assert (lt = 0 \/ lt = 1 \/ lt = 2 \/ lt = 3 \/ lt = 4 \/ lt = 5 \/ lt = 6 \/ lt = 7 \/
          lt = 8 \/ lt = 9 \/ lt = 10) as Hc by lia.
  repeat destruct Hc as [->|Hc]; [..|subst]; eexists; reflexivity.
Qed.

Section Array.
Context (f : pb_field) (Hok : field_ok f = true).
Context (func : pb_field -> Z -> Enc unit).
Context (Hfunc : PB_ENCODERS X D rec (PB_LTYPE (type f)) = Ret func).

Lemma func_emits src l : item_wire D m sub f src = Some l -> emits m h (func f src) tt l.
Proof.
  intros H. destruct (item_emits f src l Hok H) as (g & Hg & He). congruence.
Qed.

Lemma emits_tagged (item : option (list Z)) (e : Enc unit) l :
  (forall l, item = Some l -> emits m h e tt l) ->
  tagged_wire f item = Some l ->
  emits m h (pb_encode_tag_for_field X f ;; e) tt l.
Proof.
  intros He H. destruct (field_ok_spec _ Hok) as (Ht & _).
  unfold tagged_wire, tag_wire in H. obind H t E. obind E wt Ew. simplify_eq.
  obind H l' E'. simplify_eq.
  eapply emits_bind; [apply emits_tag_for_field; [lia|exact Ew]|auto].
Qed.

Lemma emits_items n p l :
  items_wire (item_wire D m sub f) (data_size f) n p = Some l ->
  emits m h (encode_items func f n p) tt l.
Proof.
  revert p l; induction n as [|n IH]; intros p l H; simpl in H |- *.
  - simplify_eq. apply emits_ret.
  - obind H l1 E1. obind H l2 E2. simplify_eq.
    eapply emits_bind; [apply func_emits; exact E1|now apply IH].
Qed.

Lemma emits_items_tagged n p l :
  items_wire
    (fun q => tagged_wire f
       (if (PB_ATYPE (type f) =? PB_ATYPE_POINTER)
           && ((PB_LTYPE (type f) =? PB_LTYPE_STRING) || (PB_LTYPE (type f) =? PB_LTYPE_BYTES))
        then q' ← rd m q 8; item_wire D m sub f q'
        else item_wire D m sub f q)) (data_size f) n p = Some l ->
  emits m h (encode_items_tagged X func f n p) tt l.
Proof.
  revert p l; induction n as [|n IH]; intros p l H; simpl in H |- *.
  - simplify_eq. apply emits_ret.
  - obind H l1 E1. obind H l2 E2. simplify_eq.
    unfold tagged_wire, tag_wire in E1. obind E1 t E. obind E wt Ew. obind E1 l' E'. simplify_eq.
    destruct (field_ok_spec _ Hok) as (Ht & _). rewrite <- (assoc app).
    eapply emits_bind; [apply emits_tag_for_field; [lia|exact Ew]|].
    eapply emits_bind; [|now apply IH].
    destruct (_ && _); [|now apply func_emits].
    obind E' q E3. eapply emits_rd_then; [exact E3|now apply func_emits].
Qed.

(** The fixed-size types: the code does not run a sizing pass. *)
Lemma items_fixed_length k n p l :
  PB_LTYPE (type f) = PB_LTYPE_FIXED32 /\ k = 4 \/ PB_LTYPE (type f) = PB_LTYPE_FIXED64 /\ k = 8 ->
  items_wire (item_wire D m sub f) (data_size f) n p = Some l -> len l = k * Z.of_nat n.
Proof.
  intros Hk. revert p l; induction n as [|n IH]; intros p l H; simpl in H; [simplify_eq; simpl; lia|].
  obind H l1 E1. obind H l2 E2. simplify_eq. rewrite length_app, Nat2Z.inj_add, (IH _ _ E2).
  unfold item_wire in E1. cbv zeta in E1.
  destruct Hk as [[Hk ->]|[Hk ->]]; rewrite Hk in E1; ltypes;
    cbn [Z.eqb Pos.eqb andb] in E1; apply load_bytes_length in E1; lia.
Qed.

Lemma emits_packed_size n p l :
  items_wire (item_wire D m sub f) (data_size f) (Z.to_nat n) p = Some l ->
  0 <= n -> len l < 2 ^ 63 ->
  emits m h
    (if PB_LTYPE (type f) =? PB_LTYPE_FIXED32 then ret (u64 (4 * n))
     else if PB_LTYPE (type f) =? PB_LTYPE_FIXED64 then ret (u64 (8 * n))
     else
       let* r := on_stream PB_OSTREAM_SIZING (encode_items func f (Z.to_nat n) p) in
       match r with
       | (None, _) => fail
       | (Some _, sizestream) => ret (bytes_written sizestream)
       end) (len l) [].
Proof.
  intros H Hn Hl. destruct (Z.eqb_spec (PB_LTYPE (type f)) PB_LTYPE_FIXED32) as [E|].
  { pose proof (items_fixed_length 4 _ _ _ ltac:(eauto) H). rewrite Z2Nat.id in * by done.
    rewrite wrapu_small by (zpow; lia). replace (4 * n) with (len l). apply emits_ret. }
  destruct (Z.eqb_spec (PB_LTYPE (type f)) PB_LTYPE_FIXED64) as [E|].
  { pose proof (items_fixed_length 8 _ _ _ ltac:(eauto) H). rewrite Z2Nat.id in * by done.
    rewrite wrapu_small by (zpow; lia). replace (8 * n) with (len l). apply emits_ret. }
  eapply emits_bind_l.
  - apply emits_on_sizing; [apply emits_items; exact H|zpow; lia].
  - apply emits_ret.
Qed.

Lemma array_emits p count l :
  0 <= count -> array_wire D m sub f p count = Some l ->
  emits m h (encode_array X f p count func) tt l.
Proof.
  intros Hn. unfold array_wire, encode_array.
  destruct (count =? 0); [intros; simplify_eq; apply emits_ret|].
  destruct (_ && _); [done|]. destruct (_ <=? _); [|apply emits_items_tagged].
  intros H. obind H l1 E1. obind H d E2. simplify_eq.
  destruct (field_ok_spec _ Hok) as (Ht & _).
  eapply emits_bind; [apply emits_tag; unfold PB_WT_STRING; lia|].
  unfold delimited in E2. destruct (Z.ltb_spec (len l1) (2 ^ 63)); [|done]. simplify_eq.
  eapply emits_bind_l; [apply emits_packed_size; eassumption|].
  eapply emits_bind; [apply emits_varint; zpow; lia|].
  apply emits_sizing_shortcut. now apply emits_items.
Qed.
End Array.

(** ** Fields *)

(** The presence of an optional field. *)
Lemma emits_has fuel fuel' f p data b :
  (fuel <= fuel')%nat ->
  (if PB_ATYPE (type f) =? PB_ATYPE_POINTER then rd m p 8 else Some p) = Some data ->
  (if negb (size_offset f =? 0)
   then b ← rd m (p + size_offset f) 1; Some (negb (b =? 0))
   else d ← default_spec D m fuel f p;
        Some (if PB_ATYPE (type f) =? PB_ATYPE_POINTER then negb (data =? 0) else negb d))
    = Some b ->
  PB_HTYPE (type f) = PB_HTYPE_OPTIONAL ->
  exists has0,
    emits m h
      (match (if size_offset f =? 0 then None else Some (p + size_offset f)) with
       | Some _ => ret false
       | None =>
           if PB_HTYPE (type f) =? PB_HTYPE_OPTIONAL
           then let* d := pb_check_proto3_default_value D fuel' f p in ret (negb d)
           else ret true
       end) has0 [] /\
    emits m h
      (match (if size_offset f =? 0 then None else Some (p + size_offset f)) with
       | Some q => safe_read_bool q
       | None => ret (if PB_ATYPE (type f) =? PB_ATYPE_POINTER then negb (data =? 0) else has0)
       end) b [].
Proof.
  intros Hf Hd Hb Hh. rewrite Hh. destruct (size_offset f =? 0); cbn [negb] in Hb.
  - obind Hb d E. eexists. split.
    + cbn [Z.eqb Pos.eqb]. eapply emits_bind_l; [eapply default_emits; eassumption|apply emits_ret].
    + destruct (_ =? PB_ATYPE_POINTER); simplify_eq; apply emits_ret.
  - obind Hb x E. simplify_eq. eexists. split; [apply emits_ret|]. now apply emits_read_bool.
Qed.

Lemma emits_pointer_data f p data has0 :
  (if PB_ATYPE (type f) =? PB_ATYPE_POINTER then rd m p 8 else Some p) = Some data ->
  emits m h
    (if PB_ATYPE (type f) =? PB_ATYPE_POINTER
     then let* q := load_u p sizeof_ptr in ret (q, negb (q =? 0))
     else ret (p, has0))
    (data, if PB_ATYPE (type f) =? PB_ATYPE_POINTER then negb (data =? 0) else has0) [].
Proof.
  destruct (_ =? PB_ATYPE_POINTER); intros H.
  - eapply emits_rd_then; [exact H|apply emits_ret].
  - simplify_eq. apply emits_ret.
Qed.

Lemma emits_implicit_other fuel f p :
  PB_HTYPE (type f) <> PB_HTYPE_OPTIONAL ->
  exists has0,
    emits m h
      (match (if size_offset f =? 0 then None else Some (p + size_offset f)) with
       | Some _ => ret false
       | None =>
           if PB_HTYPE (type f) =? PB_HTYPE_OPTIONAL
           then let* d := pb_check_proto3_default_value D fuel f p in ret (negb d)
           else ret true
       end) has0 [].
Proof.
  intros H. apply Z.eqb_neq in H. rewrite H.
  destruct (size_offset f =? 0); eexists; apply emits_ret.
Qed.

Lemma field_emits fuel fuel' f p l :
  (fuel <= fuel')%nat -> field_ok f = true ->
  PB_LTYPE (type f) <> PB_LTYPE_EXTENSION ->
  field_wire D m fuel sub f p = Some l ->
  emits m h (encode_field X D fuel' rec f p) tt l.
Proof.
  intros Hf Hok Hext H. unfold field_wire in H. cbv zeta in H. unfold encode_field. cbv zeta.
  destruct (Z.eqb_spec (PB_LTYPE (type f)) PB_LTYPE_EXTENSION); [done|].
  destruct (_ || _).
  2: { destruct (_ =? PB_ATYPE_CALLBACK); [|done]. obind H fn E. destruct (fn =? 0) eqn:E0; [|done].
       simplify_eq. eapply emits_rd_then; [exact E|]. rewrite E0. apply emits_ret. }
  obind H data E. destruct (field_ok_spec _ Hok) as (Ht & Hds & Has & Hlt).
  destruct (encoder_exists _ Hlt) as [func Hfunc].
  pose proof (emits_pointer_data f p data) as Hpd.
  pose proof (fun l => emits_tagged f Hok (item_wire D m sub f data) (func f data) l
                (fun l => func_emits f Hok func Hfunc data l)) as Htag.
  unfold encode_basic_field. rewrite Hfunc. eapply emits_bind_l; [apply emits_lift|]. cbv zeta.
  destruct (Z.eqb_spec (PB_HTYPE (type f)) PB_HTYPE_OPTIONAL) as [Ho|Ho].
  - rewrite Ho in H. cbn in H. obind H has Eh.
    destruct (emits_has fuel fuel' f p data has Hf E Eh Ho) as (has0 & H1 & H2). rewrite Ho in H1 |- *.
    eapply emits_bind_l; [exact H1|]. eapply emits_bind_l; [now apply Hpd|]. cbn.
    eapply emits_bind_l; [exact H2|]. destruct has; [now apply Htag|].
    simplify_eq. apply emits_ret.
  - destruct (emits_implicit_other fuel' f p Ho) as (has0 & H1).
    apply Z.eqb_neq in Ho. rewrite Ho in *.
    eapply emits_bind_l; [exact H1|]. eapply emits_bind_l; [now apply Hpd|]. cbv beta iota.
    destruct (_ =? PB_HTYPE_REQUIRED).
    { destruct (data =? 0); [done|]. now apply Htag. }
    destruct (_ =? PB_HTYPE_REPEATED).
    + obind H count Ec. eapply emits_bind_l with (a := count).
      * destruct (size_offset f =? 0); cbn [negb] in Ec; [simplify_eq; apply emits_ret|].
        now apply emits_rd.
      * apply array_emits; [done|done| |done].
        destruct (negb _); [|simplify_eq; done]. apply (rd_range m _ 4 _ Hm) in Ec; lia.
    + destruct (size_offset f =? 0); [done|]. obind H which Ew.
      eapply emits_rd_then; [exact Ew|]. destruct (which =? tag f); [now apply Htag|].
      simplify_eq. apply emits_ret.
Qed.

Lemma one_emits fuel fuel' it f p l :
  (fuel < fuel')%nat -> field_ok f = true -> it_field it = f -> pData it = p ->
  field_wire D m fuel sub f p = Some l ->
  emits m h (pb_encode_one X D fuel' rec it) tt l.
Proof.
  intros Hf Hok <- <- H. unfold pb_encode_one.
  destruct (Z.eqb_spec (PB_LTYPE (type (it_field it))) PB_LTYPE_EXTENSION) as [E|E].
  - unfold field_wire in H. rewrite E in H. simpl in H. obind H q E1.
    destruct (q =? 0) eqn:E0; [|done]. simplify_eq.
    eapply emits_rd_then; [exact E1|]. destruct fuel' as [|fuel']; [lia|].
    simpl. rewrite E0. apply emits_ret.
  - apply (field_emits fuel); [lia|done..].
Qed.

Lemma fields_ok_at fields i :
  fields_ok fields = true -> (i < length fields)%nat -> field_ok (field_at fields i) = true.
Proof.
  intros H Hi. unfold fields_ok in H. rewrite forallb_forall in H. apply H.
  unfold field_at. apply nth_In. lia.
Qed.

Lemma fields_ok_wf fields : fields_ok fields = true -> fields_wf fields.
Proof.
  unfold fields_ok. rewrite forallb_forall. intros H. unfold fields_wf.
  rewrite List.Forall_forall. intros f Hf. pose proof (field_ok_spec f (H f Hf)). lia.
Qed.

Lemma emits_fields fuel fuel' fields src k i n l :
  (fuel < fuel')%nat -> fields_ok fields = true ->
  (i + S k = length fields)%nat -> (S k <= n)%nat ->
  fields_wire (field_wire D m fuel sub) fields src (seq i (S k)) = Some l ->
  emits m h (iter_do (pb_encode_one X D fuel' rec) n (iter_at fields src i)) tt l.
Proof.
  intros Hf Hok. pose proof (fields_ok_wf _ Hok) as Hwf. unfold fields_wire.
  revert i n l; induction k as [|k IH]; intros i n l Hi Hn H;
    (destruct n as [|n]; [lia|]);
    rewrite <- cons_seq in H; cbn [foldr] in H; obind H l1 E1; obind H l2 E2; simplify_eq;
    cbn [iter_do]; rewrite iter_at_next by (done || lia);
    (eapply emits_bind;
     [eapply (one_emits fuel fuel' _ (field_at fields i)); eauto;
      [apply fields_ok_at; [done|lia]|now rewrite iter_at_field by (done || lia)]|]).
  - destruct (Nat.ltb_spec (S i) (length fields)); [lia|]. simpl in E2. simplify_eq. apply emits_ret.
  - destruct (Nat.ltb_spec (S i) (length fields)); [|lia]. apply IH; [lia|lia|done].
Qed.
End Refine.

(** ** Messages *)

(** [pb_encode] emits the wire format of the message. *)
Lemma message_emits X D m h fuel fuel' fields src l :
  bytes_ok m -> (fuel < fuel')%nat ->
  message_wire D m fuel fields src = Some l ->
  emits m h (pb_encode X D fuel' fields src) tt l.
Proof.
  intros Hm. revert fuel' fields src l; induction fuel as [|fuel IH]; intros fuel' fields src l Hf H;
    [done|].
  destruct fuel' as [|fuel']; [lia|]. cbn [message_wire] in H.
  destruct (fields_ok fields) eqn:Hok; [|done]. cbn [pb_encode].
  rewrite begin_nonempty by now apply fields_ok_wf.
  unfold iter_fuel. rewrite iter_at_start.
  destruct (length fields) as [|k] eqn:El; cbn [Nat.eqb negb].
  - simpl in H. simplify_eq. apply emits_ret.
  - eapply (emits_fields X D m h Hm (pb_encode X D fuel') (message_wire D m fuel));
      [| |exact Hok| | |exact H]; [|lia..].
    intros fs a l' H'. eapply IH; [|exact H']. lia.
Qed.

(** ** A message for the examples *)

(** ** Deciding the side conditions *)

Definition bytes_okb (m : mem) : bool :=
  forallb (fun p => (0 <=? p.2) && (p.2 <? 256)) (map_to_list m).

Lemma bytes_okb_ok m : bytes_okb m = true -> bytes_ok m.
Proof.
  unfold bytes_okb. rewrite forallb_forall. intros H x b E.
  specialize (H (x, b)). apply elem_of_map_to_list, list_elem_of_In in E.
  specialize (H E). simpl in H. b2p. unfold is_byte. lia.
Qed.

(** Every address of the area is mapped in [mm] and not in [m]. *)
Definition area_okb (m mm : mem) (a : Z) (n : nat) : bool :=
  forallb (fun i => match mm !! (a + Z.of_nat i), m !! (a + Z.of_nat i) with
                    | Some _, None => true
                    | _, _ => false
                    end) (seq 0 n).

Lemma area_okb_ok m mm a n :
  area_okb m mm a n = true ->
  forall x, a <= x < a + Z.of_nat n -> is_Some (mm !! x) /\ m !! x = None.
Proof.
  unfold area_okb. rewrite forallb_forall. intros H x Hx.
  specialize (H (Z.to_nat (x - a)) ltac:(apply in_seq; lia)).
  rewrite Z2Nat.id in H by lia. replace (a + (x - a)) with x in H by lia.
  destruct (mm !! x), (m !! x); done.
Qed.

Lemma mapped_load m a n l : load_bytes m a n = Some l -> mapped m a (Z.of_nat n).
Proof.
  intros H x Hx. pose proof (load_bytes_lookup m a n l (Z.to_nat (x - a)) H ltac:(lia)) as E.
  rewrite Z2Nat.id in E by lia. replace (a + (x - a)) with x in E by lia. rewrite E.
  apply lookup_lt_is_Some. rewrite (load_bytes_length _ _ _ _ H). lia.
Qed.

(** ** Memories *)

Definition block (a : Z) (l : list Z) : mem :=
  list_to_map (zip (map (fun i => a + Z.of_nat i) (seq 0 (length l))) l).

Definition zeros (n : nat) : list Z := repeat 0 n.

Definition no_heap : heap := mk_heap 100000 200000 ∅.

(** Applications that register no callbacks. *)
Definition no_enc_externs : enc_externs :=
  mk_enc_externs (fun _ _ => fault) (fun _ _ _ => fault) (fun _ _ => fault).
Definition no_dec_externs : dec_externs :=
  mk_dec_externs (fun _ _ => fault) (fun _ _ _ => fault) (fun _ _ _ _ => fault).

(** ** A message type

<<
    message Sub { required uint32 x = 1; }           // x: uint8_t
    message Msg { optional sint32 a = 1;             // has_a, a
                  required string s = 2;             // char s[8]
                  repeated uint32 r = 3 [packed];    // r_count, r[3]
                  optional Sub m = 4;                // has_m, m
                  required fixed32 f = 5; }
>>
    as [struct { bool has_a; int32_t a; char s[8]; pb_size_t r_count; uint32_t r[3];
    bool has_m; Sub m; uint32_t f; }]. *)
Definition sub_fields : list pb_field := [mk_field 1 (PB_HTYPE_REQUIRED + PB_LTYPE_UVARINT) 0 0 1 0 0].

Definition msg_fields : list pb_field := [
  mk_field 1 (PB_HTYPE_OPTIONAL + PB_LTYPE_SVARINT) 4 (-4) 4 0 0;
  mk_field 2 (PB_HTYPE_REQUIRED + PB_LTYPE_STRING) 0 0 8 0 0;
  mk_field 3 (PB_HTYPE_REPEATED + PB_LTYPE_UVARINT) 4 (-4) 4 3 0;
  mk_field 4 (PB_HTYPE_OPTIONAL + PB_LTYPE_SUBMESSAGE) 4 (-4) 1 0 777;
  mk_field 5 (PB_HTYPE_REQUIRED + PB_LTYPE_FIXED32) 3 0 4 0 0].

Definition msg_desc : descriptors := {[777 := sub_fields]}.

(** [{.has_a = true, .a = -5, .s = "ABC", .r = {1, 300}, .m = {7}, .f = 0x01020304}]
    at address 5000. *)
Definition msg_struct : list Z :=
  [1; 0; 0; 0; 251; 255; 255; 255; 65; 66; 67; 0; 0; 0; 0; 0; 2; 0; 0; 0;
   1; 0; 0; 0; 44; 1; 0; 0; 0; 0; 0; 0; 1; 0; 0; 0; 7; 0; 0; 0; 4; 3; 2; 1].
Definition msg_mem : mem := block 5000 msg_struct.
(** The same with a buffer of 64 bytes at 9000. *)
Definition msg_mem_buf : mem := msg_mem ∪ block 9000 (zeros 64).

Definition msg_wire : list Z :=
  [0x08; 9; 0x12; 3; 65; 66; 67; 0x1a; 3; 1; 0xac; 2; 0x22; 2; 0x08; 7; 0x2d; 4; 3; 2; 1].

Example msg_wire_ok : message_wire msg_desc msg_mem 3 msg_fields 5000 = Some msg_wire.
Proof. vm_compute. reflexivity. Qed.
