(* ===== verification/PbEncodeProps.v ===== *)
(** * nanopb: properties of the encoder

    What the encoder guarantees to its caller, from the refinement lemma of
    [PbEncodeSpec] and the rules of [PbEmits]. *)
From Stdlib Require Import ZArith Lia Bool List String.
From stdpp Require Import base list gmap numbers.
From S2P Require Import Prelude CMem Leb128 PbCommon PbEncode PbDecode PbWire PbEmits.
From S2P Require Import PbEncodeSpec.

(** A buffer of [size] bytes at [buf], apart from the message. *)
Definition buffer_for (m mm : mem) (buf size : Z) : Prop :=
  0 <= size < 2 ^ 63 /\ m ⊆ mm /\
  forall x, buf <= x < buf + size -> is_Some (mm !! x) /\ m !! x = None.

Lemma buffer_out_ok m mm buf size :
  buffer_for m mm buf size -> out_ok m mm (pb_ostream_from_buffer buf size).
Proof.
  intros (Hs & Hm & Ha). constructor; simpl; try done; [lia|lia|].
  intros x Hx. apply Ha. lia.
Qed.

(** What a step leaves in the buffer when its bytes fit. *)
Lemma emits_buffer {A} m h (c : Enc A) a l mm buf size :
  emits m h c a l -> buffer_for m mm buf size -> len l <= size ->
  exists mm',
    c (pb_ostream_from_buffer buf size) (mk_world mm h)
      = Ret (Some a, mk_ostream OCB_buf_write (buf + len l) size (len l) None, mk_world mm' h) /\
    load_bytes mm' buf (length l) = Some l /\ frame mm mm' buf (len l).
Proof.
  intros He Hb Hl.
  destruct (em_fits _ _ _ _ _ He mm _ (buffer_out_ok _ _ _ _ Hb)) as (mm' & E & R); [simpl; lia|].
  exists mm'. split; [rewrite R; now unfold advance|].
  split; [exact (store_load_bytes _ _ _ _ E)|exact (store_bytes_frame _ _ _ _ E)].
Qed.

(** C18: encoding a message into a buffer that is large enough succeeds, the
    buffer then holds exactly the protobuf wire format of the message, the
    stream counts its bytes, and no other byte of memory changes. *)
Theorem pb_encode_correct X D m h fuel fuel' fields src l mm buf size :
  bytes_ok m -> (fuel < fuel')%nat -> message_wire D m fuel fields src = Some l ->
  buffer_for m mm buf size -> len l <= size ->
  exists mm',
    pb_encode X D fuel' fields src (pb_ostream_from_buffer buf size) (mk_world mm h)
      = Ret (Some tt, mk_ostream OCB_buf_write (buf + len l) size (len l) None, mk_world mm' h) /\
    load_bytes mm' buf (length l) = Some l /\ frame mm mm' buf (len l).
Proof.
  intros Hm Hf Hw. apply emits_buffer. now apply (message_emits X D m h fuel).
Qed.

Lemma msg_buffer : buffer_for msg_mem msg_mem_buf 9000 64.
Proof.
  split; [zpow; lia|]. split; [apply map_union_subseteq_l|].
  apply (area_okb_ok _ _ 9000 64). vm_compute. reflexivity.
Qed.

Lemma pb_encode_correct_witness :
  exists mm',
    pb_encode no_enc_externs msg_desc 4 msg_fields 5000 (pb_ostream_from_buffer 9000 64)
      (mk_world msg_mem_buf no_heap)
      = Ret (Some tt, mk_ostream OCB_buf_write 9021 64 21 None, mk_world mm' no_heap) /\
    load_bytes mm' 9000 21 = Some msg_wire /\ frame msg_mem_buf mm' 9000 21.
Proof.
  apply (pb_encode_correct no_enc_externs msg_desc msg_mem no_heap 3 4 msg_fields 5000 msg_wire
           msg_mem_buf 9000 64).
  - apply bytes_okb_ok. vm_compute. reflexivity.
  - lia.
  - exact msg_wire_ok.
  - exact msg_buffer.
  - vm_compute. discriminate.
Defined.

(** C25: encoding into a buffer that is too small fails, and writes nothing
    outside the buffer. *)
Theorem pb_encode_full X D m h fuel fuel' fields src l mm buf size :
  bytes_ok m -> (fuel < fuel')%nat -> message_wire D m fuel fields src = Some l ->
  buffer_for m mm buf size -> size < len l < 2 ^ 63 ->
  exists s' mm',
    pb_encode X D fuel' fields src (pb_ostream_from_buffer buf size) (mk_world mm h)
      = Ret (None, s', mk_world mm' h) /\
    frame mm mm' buf size.
Proof.
  intros Hm Hf Hw Hb Hl.
  destruct (em_full _ _ _ _ _ (message_emits X D m h fuel fuel' fields src l Hm Hf Hw) mm _
              (buffer_out_ok _ _ _ _ Hb)) as (s' & mm' & R & F); [lia|simpl; lia|].
  exists s', mm'. split; [done|]. simpl in F. now rewrite Z.sub_0_r in F.
Qed.

Lemma pb_encode_full_witness :
  exists s' mm',
    pb_encode no_enc_externs msg_desc 4 msg_fields 5000 (pb_ostream_from_buffer 9000 20)
      (mk_world msg_mem_buf no_heap) = Ret (None, s', mk_world mm' no_heap) /\
    frame msg_mem_buf mm' 9000 20.
Proof.
  apply (pb_encode_full no_enc_externs msg_desc msg_mem no_heap 3 4 msg_fields 5000 msg_wire).
  - apply bytes_okb_ok. vm_compute. reflexivity.
  - lia.
  - exact msg_wire_ok.
  - destruct msg_buffer as (_ & H1 & H2). split; [zpow; lia|]. split; [done|].
    intros x Hx. apply H2. lia.
  - split; vm_compute; reflexivity.
Defined.

(** [pb_get_encoded_size] returns the length of the wire format, and
    changes nothing. *)
Theorem pb_get_encoded_size_correct X D m h fuel fuel' fields src l :
  bytes_ok m -> (fuel < fuel')%nat -> message_wire D m fuel fields src = Some l ->
  len l < 2 ^ 64 ->
  pb_get_encoded_size X D fuel' fields src (mk_world m h) = Ret (Some (len l), mk_world m h).
Proof.
  intros Hm Hf Hw Hl. unfold pb_get_encoded_size.
  rewrite (em_size _ _ _ _ _ (message_emits X D m h fuel fuel' fields src l Hm Hf Hw));
    [|done|done|simpl; lia].
  simpl. rewrite wrapu_small by lia. done.
Qed.

Lemma pb_get_encoded_size_correct_witness :
  pb_get_encoded_size no_enc_externs msg_desc 4 msg_fields 5000 (mk_world msg_mem no_heap)
    = Ret (Some 21, mk_world msg_mem no_heap).
Proof.
  apply (pb_get_encoded_size_correct no_enc_externs msg_desc msg_mem no_heap 3 4 msg_fields 5000
           msg_wire).
  - apply bytes_okb_ok. vm_compute. reflexivity.
  - lia.
  - exact msg_wire_ok.
  - vm_compute. reflexivity.
Defined.

(** [pb_encode_delimited] writes the length of the message as a varint and
    then the message, although it encodes it twice. *)
Theorem pb_encode_delimited_correct X D m h fuel fuel' fields src l mm buf size :
  bytes_ok m -> (fuel < fuel')%nat -> message_wire D m fuel fields src = Some l ->
  buffer_for m mm buf size -> len (varint_bytes (len l) ++ l) <= size ->
  exists mm',
    pb_encode_delimited X D fuel' fields src (pb_ostream_from_buffer buf size) (mk_world mm h)
      = Ret (Some tt, mk_ostream OCB_buf_write (buf + len (varint_bytes (len l) ++ l)) size
                        (len (varint_bytes (len l) ++ l)) None, mk_world mm' h) /\
    load_bytes mm' buf (length (varint_bytes (len l) ++ l)) = Some (varint_bytes (len l) ++ l) /\
    frame mm mm' buf (len (varint_bytes (len l) ++ l)).
Proof.
  intros Hm Hf Hw Hb Hl. apply (emits_buffer m); [|done|done].
  apply emits_submessage; [now apply (message_emits X D m h fuel)|].
  destruct Hb as (Hb & _). rewrite length_app in Hl. lia.
Qed.

Lemma pb_encode_delimited_correct_witness :
  exists mm',
    pb_encode_delimited no_enc_externs msg_desc 4 msg_fields 5000 (pb_ostream_from_buffer 9000 64)
      (mk_world msg_mem_buf no_heap)
      = Ret (Some tt, mk_ostream OCB_buf_write 9022 64 22 None, mk_world mm' no_heap) /\
    load_bytes mm' 9000 22 = Some (21 :: msg_wire) /\ frame msg_mem_buf mm' 9000 22.
Proof.
  apply (pb_encode_delimited_correct no_enc_externs msg_desc msg_mem no_heap 3 4 msg_fields 5000
           msg_wire msg_mem_buf 9000 64).
  - apply bytes_okb_ok. vm_compute. reflexivity.
  - lia.
  - exact msg_wire_ok.
  - exact msg_buffer.
  - vm_compute. discriminate.
Defined.

(** the encoding of a varint is at most ten bytes, denotes the value, and no
    other varint string for the value is shorter. *)
Theorem pb_encode_varint_correct X m h v mm buf size :
  0 <= v < 2 ^ 64 -> buffer_for m mm buf size -> 10 <= size ->
  exists l mm',
    pb_encode_varint X v (pb_ostream_from_buffer buf size) (mk_world mm h)
      = Ret (Some tt, mk_ostream OCB_buf_write (buf + len l) size (len l) None, mk_world mm' h) /\
    load_bytes mm' buf (length l) = Some l /\ frame mm mm' buf (len l) /\
    is_varint l /\ varint_val l = v /\ (length l <= 10)%nat /\
    (forall l', is_varint l' -> varint_val l' = v -> (length l <= length l')%nat).
Proof.
  intros Hv Hb Hs. destruct (varint_bytes_ok v Hv) as (H1 & H2 & H3 & H4).
  destruct (emits_buffer m h (pb_encode_varint X v) tt (varint_bytes v) mm buf size)
    as (mm' & R & L & F); [now apply emits_varint|done|lia|].
  exists (varint_bytes v), mm'. do 6 (split; [done|]). intros l' Hl' Hv'.
  apply varint_digits_min; [done|done| |lia].
  change (2 ^ (7 * Z.of_nat 10)) with 1180591620717411303424. zpow. lia.
Qed.

Lemma pb_encode_varint_correct_witness :
  exists l mm',
    pb_encode_varint no_enc_externs 300 (pb_ostream_from_buffer 9000 64)
      (mk_world msg_mem_buf no_heap)
      = Ret (Some tt, mk_ostream OCB_buf_write (9000 + len l) 64 (len l) None,
             mk_world mm' no_heap) /\
    load_bytes mm' 9000 (length l) = Some l /\ frame msg_mem_buf mm' 9000 (len l) /\
    is_varint l /\ varint_val l = 300 /\ (length l <= 10)%nat /\
    (forall l', is_varint l' -> varint_val l' = 300 -> (length l <= length l')%nat).
Proof. apply (pb_encode_varint_correct no_enc_externs msg_mem); [zpow; lia|exact msg_buffer|lia]. Defined.
