(* ===== verification/PbSafe.v ===== *)
(** * nanopb: decoding untrusted bytes is memory safe and terminates

    [safe s w m Q]: from the stream [s] and the world [w], the step [m] returns;
    it writes nothing outside the area [A, A+N) of the destination structure;
    the stream only moves forward; and [Q] holds of the result if the C function
    returns [true]. Nothing is assumed of the bytes that are decoded. *)
From Stdlib Require Import ZArith Lia Bool List String.
From stdpp Require Import base list gmap numbers.
From S2P Require Import Prelude CMem Leb128 PbCommon PbEncode PbDecode PbWire.

(** ** Message types

    A message type whose fields are all statically allocated: [layout D m n
    fields sz] checks that the members of a structure of [sz] bytes lie inside
    it, the submessages (nested less than [n] deep) too, and that the default
    values are mapped in [m]. *)

Definition size_min (lt : Z) : Z :=
  if lt =? PB_LTYPE_BOOL then 1
  else if lt =? PB_LTYPE_FIXED32 then 4
  else if lt =? PB_LTYPE_FIXED64 then 8
  else 0.

Definition field_layout (sub : list pb_field -> Z -> bool) (D : descriptors) (m : mem)
    (fields : list pb_field) (sz : Z) (i : nat) : bool :=
  let f := field_at fields i in
  let lt := PB_LTYPE (type f) in
  let ht := PB_HTYPE (type f) in
  let o := f_off fields i in
  let so := f_soff fields i in
  (0 <? tag f) && (PB_ATYPE (type f) =? PB_ATYPE_STATIC)
  && (lt <? PB_LTYPES_COUNT) && negb (lt =? PB_LTYPE_EXTENSION)
  && (size_min lt <=? data_size f) && (data_size f <? 2 ^ 32) && (0 <=? array_size f)
  && (0 <=? o)
  && (o + (if ht =? PB_HTYPE_REPEATED then data_size f * array_size f else data_size f) <=? sz)
  && (if ht =? PB_HTYPE_REQUIRED then true
      else if ht =? PB_HTYPE_OPTIONAL then (so =? o) || ((0 <=? so) && (so + 1 <=? sz))
      else (0 <=? so) && (so + 4 <=? sz))
  && (if lt =? PB_LTYPE_SUBMESSAGE then
        match D !! ptr f with
        | Some sf => negb (ptr f =? 0) && sub sf (data_size f)
        | None => false
        end
      else (ptr f =? 0) || bool_decide (is_Some (load_bytes m (ptr f) (Z.to_nat (data_size f))))).

Fixpoint layout (D : descriptors) (m : mem) (n : nat) (fields : list pb_field) (sz : Z) : bool :=
  match n with
  | O => false
  | S n => forallb (field_layout (layout D m n) D m fields sz) (seq 0 (length fields))
           && negb (length fields =? 0)%nat
  end.

(** ** Streams *)

Section Safe.
Context (X : dec_externs) (D : descriptors).
(** The world before decoding and the area that may be written. *)
Context (w0 : world) (A N : Z).
Context (Harea : mapped (w_mem w0) A N).

(** The memory invariant. *)
Record inv (w : world) : Prop := {
  inv_heap : w_heap w = w_heap w0;
  inv_frame : frame (w_mem w0) (w_mem w) A N;
  inv_bytes : bytes_ok (w_mem w);
}.

(** The source has at least [n] bytes. *)
Definition src_ok (src : isource) (n : Z) : Prop :=
  match src with
  | SrcMem a => mapped (w_mem w0) a n
  | SrcLocal l => n <= Z.of_nat (length l) /\ is_bytes l
  end.

Record sok (s : pb_istream) : Prop := {
  sok_callback : is_callback s = ICB_buf_read;
  sok_left : 0 <= bytes_left s < 2 ^ 64;
  sok_src : src_ok (is_state s) (bytes_left s);
}.

(** The stream after a failure: it has not gained bytes. *)
Definition weak (s s' : pb_istream) : Prop :=
  is_callback s' = ICB_buf_read /\ 0 <= bytes_left s' <= bytes_left s.

(** The stream after a success: some bytes have been consumed. *)
Definition adv (s s' : pb_istream) : Prop :=
  is_callback s' = is_callback s /\ 0 <= bytes_left s' <= bytes_left s /\
  is_state s' = src_advance (is_state s) (bytes_left s - bytes_left s').

Lemma src_ok_advance src n k : 0 <= k <= n -> src_ok src n -> src_ok (src_advance src k) (n - k).
Proof.
  destruct src as [a|l]; simpl; intros Hk H.
  - eapply mapped_weaken; [exact H|lia|lia].
  - destruct H as [H1 H2]. split; [rewrite length_drop; lia|].
    unfold is_bytes. now apply Forall_drop.
Qed.

Lemma adv_refl s : sok s -> adv s s.
Proof.
  intros [_ Hl _]. split; [done|]. split; [lia|]. rewrite Z.sub_diag. now rewrite src_advance_0.
Qed.

Lemma adv_trans s1 s2 s3 : adv s1 s2 -> adv s2 s3 -> adv s1 s3.
Proof.
  intros (C1 & L1 & S1) (C2 & L2 & S2). split; [congruence|]. split; [lia|].
  rewrite S2, S1, src_advance_add by lia. f_equal. lia.
Qed.

Lemma adv_sok s s' : sok s -> adv s s' -> sok s'.
Proof.
  intros [Hc Hl Hs] (C & L & S). constructor; [congruence|lia|].
  rewrite S. replace (bytes_left s') with (bytes_left s - (bytes_left s - bytes_left s')) at 2 by lia.
  apply src_ok_advance; [lia|done].
Qed.

Lemma adv_weak s1 s2 s3 : adv s1 s2 -> weak s2 s3 -> weak s1 s3.
Proof. intros (C & L & S) (C' & L'). split; [done|lia]. Qed.

Lemma weak_refl s : sok s -> weak s s.
Proof. intros [Hc Hl _]. split; [done|lia]. Qed.

(** ** The predicate and its rules *)

Definition safe {B} (s : pb_istream) (w : world) (m : Dec B) (Q : B -> pb_istream -> Prop) : Prop :=
  wp m (fun o s' w' =>
    inv w' /\ match o with Some a => adv s s' /\ Q a s' | None => weak s s' end) s w.

Lemma safe_mono {B} s w (m : Dec B) (Q Q' : B -> pb_istream -> Prop) :
  safe s w m Q -> (forall a s', adv s s' -> Q a s' -> Q' a s') -> safe s w m Q'.
Proof.
  intros H HQ. eapply wp_mono; [exact H|]. intros [a|] s' w' [Hi H1]; [|done].
  split; [done|]. destruct H1. auto.
Qed.

Lemma safe_bind {B C} s w (m : Dec B) (k : B -> Dec C) Q1 Q :
  sok s -> safe s w m Q1 ->
  (forall a s1 w1, inv w1 -> sok s1 -> adv s s1 -> Q1 a s1 -> safe s1 w1 (k a) Q) ->
  safe s w (bind m k) Q.
Proof.
  intros Hs Hm Hk. apply wp_bind. eapply wp_mono; [exact Hm|].
  intros [a|] s1 w1 [Hi H]; [|done]. destruct H as [Ha HQ].
  eapply wp_mono; [apply Hk; try done; now apply (adv_sok s)|].
  intros [b|] s2 w2 [Hi2 H2]; (split; [done|]).
  - destruct H2. split; [now apply (adv_trans s s1)|done].
  - now apply (adv_weak s s1).
Qed.

Lemma safe_ret {B} s w (a : B) (Q : B -> pb_istream -> Prop) :
  inv w -> sok s -> Q a s -> safe s w (ret a) Q.
Proof. intros. apply wp_ret. split; [done|]. split; [now apply adv_refl|done]. Qed.

Lemma safe_fail {B} s w (Q : B -> pb_istream -> Prop) : inv w -> sok s -> safe s w fail Q.
Proof. intros. apply wp_fail. split; [done|]. now apply weak_refl. Qed.

Lemma safe_error {B} s w msg (Q : B -> pb_istream -> Prop) :
  inv w -> sok s -> safe s w (PB_RETURN_ERROR msg) Q.
Proof. intros Hw Hs. apply wp_error. split; [done|]. destruct (weak_refl s Hs). done. Qed.

Lemma safe_get {C} s w (k : pb_istream -> Dec C) Q :
  safe s w (k s) Q -> safe s w (bind get k) Q.
Proof. intros H. apply wp_bind, wp_get. exact H. Qed.

Lemma safe_get_world {C} s w (k : world -> Dec C) Q :
  safe s w (k w) Q -> safe s w (bind get_world k) Q.
Proof. intros H. apply wp_bind, wp_get_world. exact H. Qed.

Lemma safe_lift {B C} s w (r : res B) a (k : B -> Dec C) Q :
  r = Ret a -> safe s w (k a) Q -> safe s w (bind (lift_res r) k) Q.
Proof. intros -> H. exact H. Qed.

(** ** Memory *)

Lemma inv_mapped w a n : inv w -> mapped (w_mem w0) a n -> mapped (w_mem w) a n.
Proof. intros [_ Hf _] H. exact (frame_mapped _ _ _ _ _ _ Hf H). Qed.

Lemma store_ok (s : pb_istream) w a l :
  inv w -> A <= a -> a + Z.of_nat (length l) <= A + N -> is_bytes l ->
  exists w', store a l s w = Ret (Some tt, s, w') /\ inv w'.
Proof.
  intros Hw H1 H2 Hl.
  destruct (store_bytes_mapped (w_mem w) a l) as (m' & E & F).
  { apply (inv_mapped w); [done|]. eapply mapped_weaken; [exact Harea|lia|lia]. }
  unfold store. rewrite E. eexists. split; [reflexivity|].
  destruct Hw as [Hh Hf Hb]. constructor; simpl; [done| |now apply (store_bytes_ok _ _ _ _ Hb Hl E)].
  eapply frame_trans; [exact Hf|]. eapply frame_weaken; [exact F|lia|lia].
Qed.

Lemma safe_store s w a l (Q : unit -> pb_istream -> Prop) :
  inv w -> sok s -> A <= a -> a + Z.of_nat (length l) <= A + N -> is_bytes l -> Q tt s ->
  safe s w (store a l) Q.
Proof.
  intros Hw Hs H1 H2 Hl HQ. destruct (store_ok s w a l Hw H1 H2 Hl) as (w' & E & Hw').
  unfold safe, wp. rewrite E. split; [done|]. split; [now apply adv_refl|done].
Qed.

Lemma safe_store_u s w a n x (Q : unit -> pb_istream -> Prop) :
  inv w -> sok s -> A <= a -> 0 <= n -> a + n <= A + N -> Q tt s -> safe s w (store_u a n x) Q.
Proof.
  intros. apply safe_store; auto with cint. rewrite length_le_bytes. lia.
Qed.

Lemma safe_load s w a n (Q : list Z -> pb_istream -> Prop) :
  inv w -> sok s -> mapped (w_mem w0) a n ->
  (forall l, is_bytes l -> length l = Z.to_nat n -> Q l s) -> safe s w (load a n) Q.
Proof.
  intros Hw Hs Hm HQ. destruct (load_bytes_mapped (w_mem w) a (Z.to_nat n)) as [l E].
  { intros x Hx. apply (inv_mapped w a n); [done..|lia]. }
  eapply wp_load; [exact E|]. split; [done|]. split; [now apply adv_refl|]. apply HQ.
  - exact (load_bytes_is_bytes _ _ _ _ (inv_bytes _ Hw) E).
  - exact (load_bytes_length _ _ _ _ E).
Qed.

Lemma safe_load_u s w a n (Q : Z -> pb_istream -> Prop) :
  inv w -> sok s -> 0 <= n -> mapped (w_mem w0) a n ->
  (forall x, 0 <= x < 2 ^ (8 * n) -> Q x s) -> safe s w (load_u a n) Q.
Proof.
  intros Hw Hs Hn Hm HQ. eapply (safe_bind _ _ _ _ (fun l s' => is_bytes l /\ length l = Z.to_nat n /\ s' = s));
    [done|apply safe_load; auto|].
  intros l s1 w1 Hw1 Hs1 _ (Hl & Hlen & ->). apply safe_ret; [done|done|]. apply HQ.
  pose proof (le_val_range l Hl) as R. rewrite Hlen, Z2Nat.id in R by done.
  rewrite Z.pow_mul_r by lia. exact R.
Qed.

Lemma area_mapped a n : A <= a -> a + n <= A + N -> mapped (w_mem w0) a n.
Proof. intros. eapply mapped_weaken; [exact Harea|lia|lia]. Qed.

(** ** Reading *)

(** The destination of a read lies in the area. *)
Definition rbuf_ok (buf : rbuf) (n : Z) : Prop :=
  match buf with RMem a => A <= a /\ a + n <= A + N | _ => True end.

Definition read_len (buf : rbuf) (n : Z) (l : list Z) : Prop :=
  match buf with RNull => l = [] | _ => length l = Z.to_nat n /\ is_bytes l end.

(** [buf_read] moves the stream's source but not yet its count. *)
Lemma buf_read_spec buf n s w :
  inv w -> sok s -> 0 <= n <= bytes_left s -> rbuf_ok buf n ->
  exists l w', buf_read buf n s w
      = Ret (Some l, set_is_state (src_advance (is_state s) n) s, w') /\
    inv w' /\ read_len buf n l.
Proof.
  intros Hw Hs Hn Hb. unfold buf_read, bind, get, put. cbn [rbind].
  set (s1 := set_is_state _ s). set (s2 := set_bytes_left (bytes_left s - n) s1).
  assert (Hsrc : src_ok (is_state s) n).
  { destruct Hs as [_ _ H]. destruct (is_state s) as [a|l]; simpl in *.
    - eapply mapped_weaken; [exact H|lia|lia].
    - destruct H. split; [lia|done]. }
  assert (L : exists l, src_load (is_state s) n s1 w = Ret (Some l, s1, w) /\
                        length l = Z.to_nat n /\ is_bytes l).
  { destruct (is_state s) as [a|l]; simpl in *.
    - destruct (load_bytes_mapped (w_mem w) a (Z.to_nat n)) as [l E].
      { intros x Hx. apply (inv_mapped w a n); [done..|lia]. }
      exists l. unfold load. rewrite E. split; [done|].
      split; [exact (load_bytes_length _ _ _ _ E)
             |exact (load_bytes_is_bytes _ _ _ _ (inv_bytes _ Hw) E)].
    - destruct Hsrc as [H1 H2]. destruct (Z.ltb_spec (Z.of_nat (length l)) n); [lia|].
      eexists. split; [reflexivity|]. split; [rewrite length_take; lia|now apply Forall_take]. }
  destruct L as (l & El & Hlen & Hl).
  destruct buf as [| |a]; simpl.
  - now exists [], w.
  - rewrite El. simpl. now exists l, w.
  - rewrite El. simpl in Hb |- *. destruct (store_ok s1 w a l Hw) as (w' & E & Hw');
      [lia|lia|done|].
    unfold bind. rewrite E. simpl. eexists l, _. split; [reflexivity|]. done.
Qed.

Lemma consume_adv s n e :
  sok s -> 0 <= n <= bytes_left s ->
  adv s (mk_istream (is_callback s) (src_advance (is_state s) n) (u64 (bytes_left s - n)) e).
Proof.
  intros [Hc Hl Hs] Hn. rewrite wrapu_small by lia. split; [done|]. simpl. split; [lia|].
  f_equal. lia.
Qed.

Lemma safe_read buf n s w (Q : list Z -> pb_istream -> Prop) :
  inv w -> sok s -> 0 <= n -> rbuf_ok buf n ->
  (forall l s', bytes_left s' = bytes_left s - n -> (n <> 0 -> read_len buf n l) -> Q l s') ->
  safe s w (pb_read X buf n) Q.
Proof.
  intros Hw Hs Hn Hb HQ. unfold pb_read. destruct (Z.eqb_spec n 0) as [->|Hne].
  { apply safe_ret; [done|done|]. apply HQ; [lia|done]. }
  apply safe_get. pose proof (sok_callback _ Hs) as Hc.
  assert (H : safe s w (pb_read_some X buf n) Q).
  { unfold pb_read_some. apply safe_get. destruct (Z.ltb_spec (bytes_left s) n).
    { now apply safe_error. }
    destruct (buf_read_spec buf n s w Hw Hs ltac:(lia) Hb) as (l & w' & E & Hw' & Hl).
    unfold safe, wp, bind, catch, call_read, bind, get at 1. cbn [rbind]. rewrite Hc, E.
    cbn [rbind]. unfold put, ret, get. cbn [rbind]. unfold set_bytes_left. cbn.
    split; [done|]. split; [now apply consume_adv|]. apply HQ; [|done]. cbn.
    destruct Hs. rewrite wrapu_small; lia. }
  rewrite Hc. now destruct buf.
Qed.

Lemma readbyte_some s w :
  inv w -> sok s -> bytes_left s <> 0 ->
  exists b s' w', pb_readbyte X s w = Ret (Some b, s', w') /\ inv w' /\ adv s s' /\
    0 <= b < 256 /\ bytes_left s' = bytes_left s - 1.
Proof.
  intros Hw Hs H0. pose proof (sok_callback _ Hs) as Hc. pose proof (sok_left _ Hs).
  destruct (buf_read_spec RLocal 1 s w Hw Hs ltac:(lia) I) as (l & w' & E & Hw' & Hl & Hb).
  destruct l as [|b [|c l]]; [done| |done]. inversion Hb; subst.
  eexists b, _, w'. split.
  - apply Z.eqb_neq in H0. unfold pb_readbyte, bind, catch, call_read, bind, get at 1.
    cbn [rbind]. rewrite H0. cbn [rbind]. unfold get at 1. cbn [rbind]. rewrite Hc, E.
    cbn [rbind]. unfold put, ret, get. cbn [rbind]. reflexivity.
  - unfold set_bytes_left. cbn. split; [done|]. split; [apply consume_adv; [done|lia]|].
    split; [done|]. rewrite wrapu_small; lia.
Qed.

Lemma safe_readbyte s w (Q : Z -> pb_istream -> Prop) :
  inv w -> sok s ->
  (forall b s', 0 <= b < 256 -> bytes_left s' = bytes_left s - 1 -> Q b s') ->
  safe s w (pb_readbyte X) Q.
Proof.
  intros Hw Hs HQ. destruct (Z.eq_dec (bytes_left s) 0) as [E|E].
  - unfold safe, wp. rewrite pb_readbyte_eof by done. split; [done|].
    destruct (weak_refl s Hs). done.
  - destruct (readbyte_some s w Hw Hs E) as (b & s' & w' & R & H1 & H2 & H3 & H4).
    unfold safe, wp. rewrite R. auto.
Qed.

(** ** Varints *)

Lemma lor_u32 a b : 0 <= a < 2 ^ 32 -> 0 <= b < 2 ^ 32 -> 0 <= Z.lor a b < 2 ^ 32.
Proof.
  intros Ha Hb. assert (E : Z.lor a b = Z.lor a b mod 2 ^ 32).
  { rewrite <- Z.land_ones, Z.land_lor_distr_l, !Z.land_ones, !Z.mod_small by lia. done. }
  rewrite E. apply Z.mod_pos_bound. lia.
Qed.

Lemma safe_varint32_loop fuel bitpos result s w :
  inv w -> sok s -> bytes_left s < Z.of_nat fuel -> 0 <= result < 2 ^ 32 ->
  safe s w (varint32_loop X fuel bitpos result) (fun v _ => 0 <= v < 2 ^ 32).
Proof.
  revert bitpos result s w; induction fuel as [|fuel IH]; intros bitpos result s w Hw Hs Hf Hr.
  { destruct Hs. lia. }
  cbn [varint32_loop].
  eapply (safe_bind _ _ _ _ (fun b s' => 0 <= b < 256 /\ bytes_left s' = bytes_left s - 1));
    [done|apply safe_readbyte; auto|].
  intros byte s1 w1 Hw1 Hs1 _ [Hb Hl].
  eapply (safe_bind _ _ _ _ (fun r s' => 0 <= r < 2 ^ 32 /\ s' = s1)); [done| |].
  { destruct (32 <=? bitpos).
    - cbv zeta. destruct (_ && _); [now apply safe_error|now apply safe_ret].
    - apply safe_ret; [done|done|]. split; [|done]. apply lor_u32; [done|].
      apply wrapu_range. lia. }
  intros r s2 w2 Hw2 Hs2 _ [Hr2 ->]. cbv zeta. destruct (negb _).
  - apply IH; [done|done|lia|done].
  - destruct (_ && _); [now apply safe_error|now apply safe_ret].
Qed.

(** The result of the function, its two ways to fail included. *)
Lemma safe_varint32_eof s w :
  inv w -> sok s ->
  wp (pb_decode_varint32_eof X) (fun o s' w' =>
    inv w' /\
    match o with
    | Some (Some v, _) => adv s s' /\ 0 <= v < 2 ^ 32 /\ bytes_left s' < bytes_left s
    | Some (None, true) => sok s' /\ adv s s' /\ bytes_left s' = 0
    | Some (None, false) => weak s s'
    | None => False
    end) s w.
Proof.
  intros Hw Hs. unfold pb_decode_varint32_eof. apply wp_bind, wp_catch.
  destruct (Z.eq_dec (bytes_left s) 0) as [E0|E0].
  { unfold wp at 1. rewrite pb_readbyte_eof by done. apply wp_bind, wp_get. cbn. rewrite E0. cbn.
    assert (Ha : adv s (with_errmsg (match is_errmsg s with Some e => Some e
                                     | None => Some "end-of-stream"%string end) s))
      by (destruct (adv_refl s Hs) as (H1 & H2 & H3); now repeat split).
    unfold with_errmsg in *; cbn in *. rewrite E0 in *.
    split; [done|]. split; [now apply (adv_sok s)|done]. }
  destruct (readbyte_some s w Hw Hs E0) as (b & s1 & w1 & R & Hw1 & Ha & Hb & Hl).
  pose proof (adv_sok s s1 Hs Ha) as Hs1.
  unfold wp at 1. rewrite R. destruct (Z.land b 128 =? 0).
  { apply wp_ret. split; [done|]. split; [done|]. split; [zpow; lia|lia]. }
  apply wp_bind, wp_get, wp_bind, wp_catch. pose proof (sok_left _ Hs1).
  eapply wp_mono; [apply (safe_varint32_loop _ 7 (Z.land b 127)); [done|done|lia|]|].
  { rewrite land_127. pose proof (Z.mod_pos_bound b 128). zpow. lia. }
  intros [v|] s2 w2 [Hw2 H2]; apply wp_ret; (split; [done|]).
  - destruct H2 as [Ha2 Hv]. split; [now apply (adv_trans s s1)|]. split; [done|].
    destruct Ha2 as (_ & L & _). lia.
  - now apply (adv_weak s s1).
Qed.

Lemma safe_varint32 s w :
  inv w -> sok s ->
  safe s w (pb_decode_varint32 X) (fun v s' => 0 <= v < 2 ^ 32 /\ bytes_left s' < bytes_left s).
Proof.
  intros Hw Hs. apply wp_bind. eapply wp_mono; [now apply safe_varint32_eof|].
  intros [[[v|] e]|] s' w' [Hw' H]; [| |done]; cbn [fst].
  - apply wp_ret. split; [done|]. destruct H as (? & ? & ?). auto.
  - apply wp_fail. split; [done|]. destruct e; [|done]. destruct H as (H1 & (C & L & _) & _).
    split; [|lia]. now rewrite C, (sok_callback _ Hs).
Qed.

Lemma safe_varint_loop fuel k result s w :
  inv w -> sok s -> (k + fuel = 11)%nat -> (k <= 10)%nat ->
  safe s w (varint_loop X fuel (7 * Z.of_nat k) result) (fun v s' => bytes_left s' < bytes_left s).
Proof.
  revert k result s w; induction fuel as [|fuel IH]; intros k result s w Hw Hs Hf Hk.
  { lia. }
  cbn [varint_loop]. destruct (Z.leb_spec 64 (7 * Z.of_nat k)); [now apply safe_error|].
  eapply (safe_bind _ _ _ _ (fun b s' => 0 <= b < 256 /\ bytes_left s' = bytes_left s - 1));
    [done|apply safe_readbyte; auto|].
  intros byte s1 w1 Hw1 Hs1 _ [Hb Hl]. cbv zeta. destruct (negb _).
  - rewrite wrapu_small by (zpow; lia).
    replace (7 * Z.of_nat k + 7) with (7 * Z.of_nat (S k)) by lia.
    eapply safe_mono; [apply IH; [done|done|lia|lia]|]. cbn. intros. lia.
  - apply safe_ret; [done|done|]. lia.
Qed.

Lemma safe_varint s w :
  inv w -> sok s -> safe s w (pb_decode_varint X) (fun _ s' => bytes_left s' < bytes_left s).
Proof. intros. apply (safe_varint_loop 11 0 0); [done|done|lia|lia]. Qed.

Lemma safe_svarint s w :
  inv w -> sok s -> safe s w (pb_decode_svarint X) (fun _ s' => bytes_left s' < bytes_left s).
Proof.
  intros Hw Hs. eapply safe_bind; [done|now apply safe_varint|].
  intros v s1 w1 Hw1 Hs1 _ Hl. destruct (negb _); now apply safe_ret.
Qed.

(** ** Skipping *)

Lemma safe_skip_varint s w :
  inv w -> sok s -> safe s w (pb_skip_varint X) (fun _ _ => True).
Proof.
  intros Hw Hs. apply safe_get.
  assert (H : forall fuel s w, inv w -> sok s -> bytes_left s < Z.of_nat fuel ->
            safe s w (skip_varint_loop X fuel) (fun _ _ => True)).
  { clear s w Hw Hs. intros fuel. induction fuel as [|fuel IH]; intros s w Hw Hs Hf.
    { destruct Hs. lia. }
    cbn [skip_varint_loop].
    eapply (safe_bind _ _ _ _ (fun l s' => length l = 1%nat /\ bytes_left s' = bytes_left s - 1));
      [done| |].
    - apply safe_read; [done|done|lia|done|]. intros l s' Hl Hr. destruct (Hr ltac:(lia)). auto.
    - intros [|b [|c l]] s1 w1 Hw1 Hs1 _ [Hl Hleft]; [done| |done].
      destruct (negb _); [apply IH; [done|done|lia]|now apply safe_ret]. }
  pose proof (sok_left _ Hs). apply H; [done|done|lia].
Qed.

Lemma safe_read_unit buf n s w :
  inv w -> sok s -> 0 <= n -> rbuf_ok buf n ->
  safe s w (pb_read X buf n ;; ret tt) (fun _ _ => True).
Proof.
  intros. eapply (safe_bind _ _ _ _ (fun _ _ => True)); [done|now apply safe_read|].
  intros. now apply safe_ret.
Qed.

Lemma safe_skip_field wt s w :
  inv w -> sok s -> safe s w (pb_skip_field X wt) (fun _ _ => True).
Proof.
  intros Hw Hs. unfold pb_skip_field. repeat bcase.
  - now apply safe_skip_varint.
  - apply safe_read_unit; [done|done|lia|done].
  - eapply safe_bind; [done|now apply safe_varint32|]. intros n s1 w1 Hw1 Hs1 _ [Hn _].
    apply safe_read_unit; [done|done|lia|done].
  - apply safe_read_unit; [done|done|lia|done].
  - now apply safe_error.
Qed.

(** ** Substreams *)

(** [sub] is a substream of [s1], and [s] is the parent, of which the
    substream's bytes have been taken. *)
Definition split_stream (s1 s sub : pb_istream) : Prop :=
  exists n, 0 <= n <= bytes_left s1 /\
    s = set_bytes_left (bytes_left s1 - n) s1 /\ sub = set_bytes_left n s1.

Lemma split_sub_sok s1 s sub : sok s1 -> split_stream s1 s sub -> sok sub.
Proof.
  intros [Hc Hl Hs] (n & Hn & -> & ->). constructor; cbn; [done|lia|].
  destruct (is_state s1) as [a|l]; simpl in *; [|split; [lia|tauto]].
  eapply mapped_weaken; [exact Hs|lia|lia].
Qed.

Lemma wp_make_substream s w :
  inv w -> sok s ->
  wp (pb_make_string_substream X) (fun o s' w' =>
    inv w' /\
    match o with
    | Some sub => exists s1, sok s1 /\ adv s s1 /\ bytes_left s1 < bytes_left s /\
                             split_stream s1 s' sub
    | None => weak s s'
    end) s w.
Proof.
  intros Hw Hs. apply wp_bind. eapply wp_mono; [now apply safe_varint32|].
  intros [n|] s1 w1 [Hw1 H]; [|done]. destruct H as (Ha & Hn & Hl).
  pose proof (adv_sok _ _ Hs Ha) as Hs1. pose proof (sok_left _ Hs1).
  apply wp_bind, wp_get. destruct (Z.ltb_spec (bytes_left s1) n).
  - apply wp_error. split; [done|]. apply (adv_weak s s1); [done|].
    destruct (weak_refl s1 Hs1). done.
  - apply wp_bind, wp_put, wp_ret. split; [done|]. exists s1. do 3 (split; [done|]).
    exists n. rewrite wrapu_small by lia. split; [lia|done].
Qed.

Lemma close_substream s sub w :
  is_callback sub = ICB_buf_read -> 0 <= bytes_left sub < 2 ^ 64 ->
  exists e, pb_close_string_substream X sub s w
    = Ret (Some tt, set_is_errmsg e (set_is_state (src_advance (is_state sub) (bytes_left sub)) s), w).
Proof.
  intros Hc Hl. unfold pb_close_string_substream.
  destruct (Z.eqb_spec (bytes_left sub) 0) as [E|E]; cbn [negb].
  - unfold bind, ret, get, put. cbn [rbind]. rewrite E, src_advance_0. eauto.
  - destruct (pb_read_null X sub w (bytes_left sub)) as [l R]; [done|lia|lia|].
    unfold bind at 1, on_stream. rewrite R. cbn [rbind]. unfold bind, get, put. cbn. eauto.
Qed.

(** Closing a substream that was left in order brings the parent forward. *)
Lemma close_adv s1 s sub sub' w :
  sok s1 -> split_stream s1 s sub -> adv sub sub' ->
  exists s', pb_close_string_substream X sub' s w = Ret (Some tt, s', w) /\ adv s1 s'.
Proof.
  intros Hs1 (n & Hn & -> & ->) (C & L & S). destruct Hs1 as [Hc Hl Hs]. cbn in *.
  destruct (close_substream (set_bytes_left (bytes_left s1 - n) s1) sub' w) as [e E];
    [congruence|lia|].
  eexists. split; [exact E|]. rewrite S. split; [done|]. cbn. split; [lia|].
  rewrite src_advance_add by lia. f_equal. lia.
Qed.

Lemma close_weak s1 s sub sub' w :
  sok s1 -> split_stream s1 s sub -> weak sub sub' ->
  exists s', pb_close_string_substream X sub' s w = Ret (Some tt, s', w) /\ weak s1 s'.
Proof.
  intros Hs1 (n & Hn & -> & ->) (C & L). destruct Hs1 as [Hc Hl Hs]. cbn in *.
  destruct (close_substream (set_bytes_left (bytes_left s1 - n) s1) sub' w) as [e E];
    [done|lia|].
  eexists. split; [exact E|]. split; [done|]. cbn. lia.
Qed.

(** A step run on a substream that is closed afterwards, its result kept. *)
Lemma safe_in_substream {B C} s1 s sub w (m : Dec B) (k : option B -> Dec C) (Q : C -> pb_istream -> Prop) :
  sok s1 -> split_stream s1 s sub ->
  wp m (fun o s' w' => inv w' /\ match o with Some _ => adv sub s' | None => weak sub s' end) sub w ->
  (forall b s' w', inv w' -> sok s' -> adv s1 s' -> safe s' w' (k (Some b)) Q) ->
  (forall s' w', inv w' -> weak s1 s' -> k None s' w' = Ret (None, s', w')) ->
  wp (let* r := on_stream sub m in
      let '(o, sub') := r in pb_close_string_substream X sub' ;; k o)
    (fun o s' w' => inv w' /\ match o with Some a => adv s1 s' /\ Q a s' | None => weak s1 s' end) s w.
Proof.
  intros Hs1 Hsp Hm Hk Hk'. apply wp_bind, wp_on_stream. eapply wp_mono; [exact Hm|].
  intros [b|] sub' w' [Hw' H]; apply wp_bind; unfold wp at 1.
  - destruct (close_adv s1 s sub sub' w' Hs1 Hsp H) as (s' & E & Ha). rewrite E.
    pose proof (adv_sok _ _ Hs1 Ha) as Hs'.
    eapply wp_mono; [apply Hk; done|]. intros [c|] s2 w2 [Hw2 H2]; (split; [done|]).
    + destruct H2. split; [now apply (adv_trans s1 s')|done].
    + now apply (adv_weak s1 s').
  - destruct (close_weak s1 s sub sub' w' Hs1 Hsp H) as (s' & E & Ha). rewrite E.
    unfold wp. rewrite Hk' by done. done.
Qed.

(** ** Field decoders *)

Definition consumed (s s' : pb_istream) : Prop := bytes_left s' < bytes_left s.

(** A step that first consumes something. *)
Lemma safe_consuming {B C} s w (m : Dec B) (k : B -> Dec C) (Q1 : B -> Prop) :
  sok s -> safe s w m (fun a s' => Q1 a /\ consumed s s') ->
  (forall a s1 w1, inv w1 -> sok s1 -> Q1 a -> safe s1 w1 (k a) (fun _ _ => True)) ->
  safe s w (bind m k) (fun _ s' => consumed s s').
Proof.
  intros Hs Hm Hk. eapply safe_bind; [done|exact Hm|]. intros a s1 w1 Hw1 Hs1 Ha [H1 H2].
  eapply safe_mono; [apply Hk; done|]. cbn. intros _ s' (_ & L & _) _. unfold consumed in *. lia.
Qed.

Lemma safe_varint' s w :
  inv w -> sok s -> safe s w (pb_decode_varint X) (fun _ s' => True /\ consumed s s').
Proof. intros. eapply safe_mono; [now apply safe_varint|]. auto. Qed.

Lemma safe_svarint' s w :
  inv w -> sok s -> safe s w (pb_decode_svarint X) (fun _ s' => True /\ consumed s s').
Proof. intros. eapply safe_mono; [now apply safe_svarint|]. auto. Qed.

(** Storing an integer and comparing it with what was read. *)
Lemma safe_store_clamp s w dest n x y v :
  inv w -> sok s -> A <= dest -> 0 <= n -> dest + n <= A + N ->
  safe s w (let* clamped := (store_u dest n x ;; ret y) in
            if negb (clamped =? v) then PB_RETURN_ERROR "integer too large" else ret tt)
    (fun _ _ => True).
Proof.
  intros. eapply (safe_bind _ _ _ _ (fun _ _ => True)); [done| |].
  - eapply (safe_bind _ _ _ _ (fun _ _ => True)); [done|now apply safe_store_u|].
    intros. now apply safe_ret.
  - intros. destruct (negb _); [now apply safe_error|now apply safe_ret].
Qed.

Lemma safe_bad_size {B} s w (k : Z -> Dec B) (Q : B -> pb_istream -> Prop) :
  inv w -> sok s -> safe s w (bind (PB_RETURN_ERROR "invalid data_size") k) Q.
Proof.
  intros. eapply (safe_bind _ _ _ _ (fun _ _ => False)); [done|now apply safe_error|done].
Qed.

Section Field.
Context (f : pb_field) (dest : Z).
Context (Hd1 : A <= dest) (Hd2 : dest + data_size f <= A + N) (Hd3 : 0 <= data_size f < 2 ^ 32).

Lemma safe_dec_varint s w :
  inv w -> sok s -> safe s w (pb_dec_varint X f dest) (fun _ s' => consumed s s').
Proof.
  intros Hw Hs. apply (safe_consuming _ _ _ _ (fun _ => True)); [done|now apply safe_varint'|].
  intros v s1 w1 Hw1 Hs1 _. cbv zeta. repeat bcase;
    try (apply safe_store_clamp; [done|done|done|lia|lia]). now apply safe_bad_size.
Qed.

Lemma safe_dec_uvarint s w :
  inv w -> sok s -> safe s w (pb_dec_uvarint X f dest) (fun _ s' => consumed s s').
Proof.
  intros Hw Hs. apply (safe_consuming _ _ _ _ (fun _ => True)); [done|now apply safe_varint'|].
  intros v s1 w1 Hw1 Hs1 _. cbv zeta. repeat bcase;
    try (apply safe_store_clamp; [done|done|done|lia|lia]). now apply safe_bad_size.
Qed.

Lemma safe_dec_svarint s w :
  inv w -> sok s -> safe s w (pb_dec_svarint X f dest) (fun _ s' => consumed s s').
Proof.
  intros Hw Hs. apply (safe_consuming _ _ _ _ (fun _ => True)); [done|now apply safe_svarint'|].
  intros v s1 w1 Hw1 Hs1 _. cbv zeta. repeat bcase;
    try (apply safe_store_clamp; [done|done|done|lia|lia]). now apply safe_bad_size.
Qed.

Lemma safe_dec_bool s w :
  1 <= data_size f -> inv w -> sok s ->
  safe s w (pb_dec_bool X f dest) (fun _ s' => consumed s s').
Proof.
  intros H1 Hw Hs. eapply safe_consuming; [done|now apply safe_varint32|].
  intros v s1 w1 Hw1 Hs1 _. unfold sizeof_bool. apply safe_store_u; auto; lia.
Qed.

Lemma safe_read_local n s w :
  inv w -> sok s -> (0 < n)%nat ->
  safe s w (pb_read X RLocal (Z.of_nat n)) (fun l s' => length l = n /\ consumed s s').
Proof.
  intros. apply safe_read; [done|done|lia|done|]. intros l s' Hl Hr.
  destruct (Hr ltac:(lia)) as [Hr' _]. unfold consumed. split; lia.
Qed.

Lemma safe_dec_fixed32 s w :
  4 <= data_size f -> inv w -> sok s ->
  safe s w (pb_dec_fixed32 X f dest) (fun _ s' => consumed s s').
Proof.
  intros H4 Hw Hs. eapply safe_consuming; [done|apply (safe_read_local 4); [done|done|lia]|].
  intros l s1 w1 Hw1 Hs1 Hl. do 5 (destruct l as [|? l]; try done).
  apply safe_store_u; auto; lia.
Qed.

Lemma safe_dec_fixed64 s w :
  8 <= data_size f -> inv w -> sok s ->
  safe s w (pb_dec_fixed64 X f dest) (fun _ s' => consumed s s').
Proof.
  intros H4 Hw Hs. eapply safe_consuming; [done|apply (safe_read_local 8); [done|done|lia]|].
  intros l s1 w1 Hw1 Hs1 Hl. do 9 (destruct l as [|? l]; try done).
  apply safe_store_u; auto; lia.
Qed.

Lemma safe_dec_bytes s w :
  PB_ATYPE (type f) = PB_ATYPE_STATIC -> inv w -> sok s ->
  safe s w (pb_dec_bytes X f dest) (fun _ s' => consumed s s').
Proof.
  intros Hst Hw Hs. eapply safe_consuming; [done|now apply safe_varint32|].
  intros n s1 w1 Hw1 Hs1 Hn. cbv beta in Hn. rewrite Hst. cbv zeta. change (PB_ATYPE_STATIC =? PB_ATYPE_POINTER) with false.
  unfold PB_BYTES_ARRAY_T_ALLOCSIZE, offsetof_bytes. rewrite wrapu_small by (zpow; lia).
  destruct (PB_SIZE_MAX <? n); [now apply safe_error|].
  destruct (n + 4 <? n); [now apply safe_error|].
  destruct (Z.ltb_spec (data_size f) (n + 4)).
  { eapply (safe_bind _ _ _ _ (fun _ _ => False)); [done|now apply safe_error|done]. }
  eapply (safe_bind _ _ _ _ (fun d _ => d = dest)); [done|now apply safe_ret|].
  intros d s2 w2 Hw2 Hs2 _ ->. unfold sizeof_pb_size_t.
  eapply (safe_bind _ _ _ _ (fun _ _ => True)); [done|apply safe_store_u; auto; lia|].
  intros _ s3 w3 Hw3 Hs3 _ _. apply safe_read_unit; [done|done|lia|]. cbn. lia.
Qed.

Lemma safe_dec_string s w :
  PB_ATYPE (type f) = PB_ATYPE_STATIC -> inv w -> sok s ->
  safe s w (pb_dec_string X f dest) (fun _ s' => consumed s s').
Proof.
  intros Hst Hw Hs. eapply safe_consuming; [done|now apply safe_varint32|].
  intros n s1 w1 Hw1 Hs1 Hn. cbv beta in Hn. rewrite Hst. cbv zeta. change (PB_ATYPE_STATIC =? PB_ATYPE_POINTER) with false.
  destruct (Z.ltb_spec (u32 (n + 1)) n) as [|L1]; [now apply safe_error|].
  assert (E : u32 (n + 1) = n + 1).
  { destruct (Z.eq_dec n (2 ^ 32 - 1)) as [->|]; [vm_compute in L1; now destruct L1|].
    apply wrapu_small. lia. }
  rewrite E. destruct (Z.ltb_spec (data_size f) (n + 1)).
  { eapply (safe_bind _ _ _ _ (fun _ _ => False)); [done|now apply safe_error|done]. }
  eapply (safe_bind _ _ _ _ (fun d _ => d = dest)); [done|now apply safe_ret|].
  intros d s2 w2 Hw2 Hs2 _ ->.
  apply wp_bind, wp_catch.
  eapply wp_mono; [apply (safe_read (RMem dest) n s2 w2 (fun _ _ => True)); try done; cbn; lia|].
  intros o s3 w3 [Hw3 H3]. apply wp_bind.
  assert (Hs3 : weak s2 s3).
  { destruct o; [|done]. destruct H3 as [(C & L & _) _]. split; [|done].
    now rewrite C, (sok_callback _ Hs2). }
  destruct (store_ok s3 w3 (dest + n) (le_bytes 1 0) Hw3) as (w4 & Em & Hw4);
    [lia|cbn; lia|apply le_bytes_is_bytes|].
  unfold wp at 1, store_u. change (Z.to_nat 1) with 1%nat. rewrite Em.
  destruct o; [apply wp_ret|apply wp_fail]; (split; [done|]); [|done]. tauto.
Qed.

Lemma safe_dec_fixed_length_bytes s w :
  inv w -> sok s -> safe s w (pb_dec_fixed_length_bytes X f dest) (fun _ s' => consumed s s').
Proof.
  intros Hw Hs. eapply safe_consuming; [done|now apply safe_varint32|].
  intros n s1 w1 Hw1 Hs1 Hn. repeat bcase; try (now apply safe_error).
  - apply safe_store; [done|done|done| | |done].
    + rewrite length_replicate. lia.
    + apply Forall_replicate. unfold is_byte. lia.
  - apply safe_read_unit; [done|done|lia|]. cbn. lia.
Qed.
End Field.

(** ** Walking the fields *)

Lemma safe_iter_do body fields dest k i n s w :
  fields_wf fields -> (i + S k = length fields)%nat -> (S k <= n)%nat ->
  (forall j s w, (j < length fields)%nat -> inv w -> sok s ->
     safe s w (body (iter_at fields dest j)) (fun _ _ => True)) ->
  inv w -> sok s -> safe s w (iter_do body n (iter_at fields dest i)) (fun _ _ => True).
Proof.
  intros Hwf Hi Hn Hb. revert i n s w Hi Hn; induction k as [|k IH]; intros i n s w Hi Hn Hw Hs;
    (destruct n as [|n]; [lia|]); cbn [iter_do]; rewrite iter_at_next by (done || lia);
    (eapply safe_bind; [done|apply Hb; [lia|done|done]|]); intros _ s1 w1 Hw1 Hs1 _ _.
  - destruct (Nat.ltb_spec (S i) (length fields)); [lia|]. now apply safe_ret.
  - destruct (Nat.ltb_spec (S i) (length fields)); [|lia]. apply IH; [lia|lia|done|done].
Qed.

Lemma mapped_loadable a n : is_Some (load_bytes (w_mem w0) a n) -> mapped (w_mem w0) a (Z.of_nat n).
Proof.
  intros [l H] x Hx.
  pose proof (load_bytes_lookup _ a n l (Z.to_nat (x - a)) H ltac:(lia)) as E.
  rewrite Z2Nat.id in E by lia. replace (a + (x - a)) with x in E by lia. rewrite E.
  apply lookup_lt_is_Some. rewrite (load_bytes_length _ _ _ _ H). lia.
Qed.

(** What the layout says of one field of a structure at [dest]. *)
Record field_at_ok (n : nat) (fields : list pb_field) (dest : Z) (i : nat) : Prop := {
  fa_static : PB_ATYPE (type (field_at fields i)) = PB_ATYPE_STATIC;
  fa_ltype : 0 <= PB_LTYPE (type (field_at fields i)) < 11;
  fa_noext : PB_LTYPE (type (field_at fields i)) <> PB_LTYPE_EXTENSION;
  fa_min : size_min (PB_LTYPE (type (field_at fields i))) <= data_size (field_at fields i);
  fa_size : 0 <= data_size (field_at fields i) < 2 ^ 32;
  fa_array : 0 <= array_size (field_at fields i);
  fa_data : A <= pData (iter_at fields dest i);
  fa_data_end : pData (iter_at fields dest i) +
    (if PB_HTYPE (type (field_at fields i)) =? PB_HTYPE_REPEATED
     then data_size (field_at fields i) * array_size (field_at fields i)
     else data_size (field_at fields i)) <= A + N;
  fa_has : PB_HTYPE (type (field_at fields i)) = PB_HTYPE_OPTIONAL ->
    pSize (iter_at fields dest i) <> pData (iter_at fields dest i) ->
    A <= pSize (iter_at fields dest i) /\ pSize (iter_at fields dest i) + 1 <= A + N;
  fa_count : PB_HTYPE (type (field_at fields i)) <> PB_HTYPE_OPTIONAL ->
    PB_HTYPE (type (field_at fields i)) <> PB_HTYPE_REQUIRED ->
    A <= pSize (iter_at fields dest i) /\ pSize (iter_at fields dest i) + 4 <= A + N;
  fa_sub : PB_LTYPE (type (field_at fields i)) = PB_LTYPE_SUBMESSAGE ->
    ptr (field_at fields i) <> 0 /\
    exists sf, D !! ptr (field_at fields i) = Some sf /\
      layout D (w_mem w0) n sf (data_size (field_at fields i)) = true;
  fa_default : PB_LTYPE (type (field_at fields i)) <> PB_LTYPE_SUBMESSAGE ->
    ptr (field_at fields i) <> 0 ->
    mapped (w_mem w0) (ptr (field_at fields i)) (data_size (field_at fields i));
}.

Context (HA : 0 < A).

Lemma layout_field n fields sz dest i :
  layout D (w_mem w0) (S n) fields sz = true -> A <= dest -> dest + sz <= A + N ->
  (i < length fields)%nat -> field_at_ok n fields dest i.
Proof.
  intros Hl Hd1 Hd2 Hi. cbn [layout] in Hl. apply andb_prop in Hl as [Hl _].
  rewrite forallb_forall in Hl. specialize (Hl i ltac:(apply in_seq; lia)).
  destruct (iter_at_off fields dest i ltac:(lia)) as [E1 E2].
  unfold field_layout, PB_LTYPES_COUNT in Hl. cbv zeta in Hl.
  set (f := field_at fields i) in *.
  apply andb_prop in Hl as [Hl Hptr]. apply andb_prop in Hl as [Hl Hsz]. b2p.
  assert (0 <= size_min (PB_LTYPE (type f))) by (unfold size_min; repeat bcase; lia).
  assert (0 <= PB_LTYPE (type f)) by (apply Z.land_nonneg; unfold PB_LTYPE_MASK; lia).
  constructor; fold f; try done; try lia.
  - intros Ho Hne. rewrite Ho in Hsz. cbn in Hsz. apply orb_true_iff in Hsz as [Hsz|Hsz]; b2p; lia.
  - intros Hno Hnr. apply Z.eqb_neq in Hno, Hnr. rewrite Hno, Hnr in Hsz. b2p. lia.
  - intros Hs. rewrite Hs in Hptr. cbn in Hptr. destruct (D !! ptr f) as [sf|]; [|done].
    b2p. eauto.
  - intros Hs Hp. apply Z.eqb_neq in Hs, Hp. rewrite Hs, Hp in Hptr. cbn in Hptr.
    apply bool_decide_eq_true in Hptr. apply mapped_loadable in Hptr.
    intros x Hx. apply Hptr. lia.
Qed.

Lemma layout_wf n fields sz : layout D (w_mem w0) n fields sz = true -> fields_wf fields.
Proof.
  destruct n as [|n]; [done|]. cbn [layout]. intros Hl. apply andb_prop in Hl as [Hl _].
  rewrite forallb_forall in Hl. unfold fields_wf. rewrite List.Forall_forall. intros f Hf.
  apply (In_nth _ _ PB_LAST_FIELD) in Hf as (i & Hi & <-).
  specialize (Hl i ltac:(apply in_seq; lia)). unfold field_layout in Hl. cbv zeta in Hl.
  unfold field_at in Hl. b2p. lia.
Qed.

Lemma layout_nonempty n fields sz : layout D (w_mem w0) n fields sz = true -> (0 < length fields)%nat.
Proof. destruct n; [done|]. cbn [layout]. intros H. b2p. lia. Qed.

(** ** Default values *)

Lemma safe_memset0 a n s w :
  inv w -> sok s -> A <= a -> 0 <= n -> a + n <= A + N -> safe s w (memset0 a n) (fun _ _ => True).
Proof.
  intros. apply safe_store; [done|done|done| | |done].
  - rewrite length_replicate. lia.
  - apply Forall_replicate. unfold is_byte. lia.
Qed.

(** All the fields of a structure, through the iterator. *)
Lemma safe_all_fields body fields dest s w :
  fields_wf fields ->
  (forall j s w, (j < length fields)%nat -> inv w -> sok s ->
     safe s w (body (iter_at fields dest j)) (fun _ _ => True)) ->
  inv w -> sok s ->
  safe s w (let '(nonempty, it) := pb_field_iter_begin fields dest in
            if nonempty then iter_do body (iter_fuel it) it else ret tt) (fun _ _ => True).
Proof.
  intros Hwf Hb Hw Hs. rewrite begin_nonempty by done.
  unfold iter_fuel. rewrite iter_at_start.
  destruct (length fields) as [|k] eqn:El; cbn [Nat.eqb negb]; [now apply safe_ret|].
  apply (safe_iter_do _ _ _ k); [done|lia|lia| |done|done]. rewrite El. exact Hb.
Qed.

Lemma safe_init_flags it (ht : Z) s w :
  inv w -> sok s ->
  (ht = PB_HTYPE_OPTIONAL -> pSize it <> pData it -> A <= pSize it /\ pSize it + 1 <= A + N) ->
  (ht <> PB_HTYPE_OPTIONAL -> ht <> PB_HTYPE_REQUIRED -> A <= pSize it /\ pSize it + 4 <= A + N) ->
  safe s w
    (if (ht =? PB_HTYPE_OPTIONAL) && negb (pSize it =? pData it)
     then store_u (pSize it) sizeof_bool 0 ;; ret true
     else if (ht =? PB_HTYPE_REPEATED) || (ht =? PB_HTYPE_ONEOF)
     then store_u (pSize it) sizeof_pb_size_t 0 ;; ret false
     else ret true) (fun b _ => b = true -> ht <> PB_HTYPE_REPEATED).
Proof.
  intros Hw Hs H1 H2. unfold sizeof_bool, sizeof_pb_size_t.
  destruct (_ && _) eqn:E1; b2p.
  - destruct (H1 ltac:(done) ltac:(done)).
    eapply (safe_bind _ _ _ _ (fun _ _ => True)); [done|apply safe_store_u; auto; lia|].
    intros. apply safe_ret; [done|done|]. subst. done.
  - destruct (_ || _) eqn:E2.
    + assert (ht <> PB_HTYPE_OPTIONAL /\ ht <> PB_HTYPE_REQUIRED) as [N1 N2].
      { b2p. destruct E2; b2p; subst; done. }
      destruct (H2 N1 N2).
      eapply (safe_bind _ _ _ _ (fun _ _ => True)); [done|apply safe_store_u; auto; lia|].
      intros. now apply safe_ret.
    + b2p. now apply safe_ret.
Qed.

Lemma safe_set_default fuel n fields sz dest i s w :
  (n < fuel)%nat -> layout D (w_mem w0) (S n) fields sz = true -> A <= dest -> dest + sz <= A + N ->
  (i < length fields)%nat -> inv w -> sok s ->
  safe s w (pb_field_set_to_default D fuel (iter_at fields dest i)) (fun _ _ => True).
Proof.
  revert n fields sz dest i s w.
  induction fuel as [|fuel IH]; intros n fields sz dest i s w Hf Hl Hd1 Hd2 Hi Hw Hs; [lia|].
  pose proof (layout_field n fields sz dest i Hl Hd1 Hd2 Hi) as F.
  pose proof (layout_wf _ _ _ Hl) as Hwf.
  cbn [pb_field_set_to_default]. unfold field_set_to_default.
  rewrite iter_at_field by done. cbv zeta. destruct F.
  apply Z.eqb_neq in fa_noext0. rewrite fa_noext0, fa_static0.
  change (PB_ATYPE_STATIC =? PB_ATYPE_STATIC) with true. cbv iota.
  eapply safe_bind; [done|apply safe_init_flags; eauto; lia|].
  intros b s1 w1 Hw1 Hs1 _ Hb. destruct b; [|now apply safe_ret].
  specialize (Hb eq_refl). apply Z.eqb_neq in Hb. rewrite Hb in fa_data_end0.
  destruct (Z.eqb_spec (PB_LTYPE (type (field_at fields i))) PB_LTYPE_SUBMESSAGE) as [E|E].
  - destruct (fa_sub0 E) as (Hp & sf & Hsf & Hlsub). rewrite Hsf.
    eapply safe_lift; [reflexivity|].
    apply safe_all_fields; [now apply (layout_wf n sf (data_size (field_at fields i)))| |done|done].
    intros j s2 w2 Hj Hw2 Hs2. destruct n as [|n]; [done|].
    apply (IH n sf (data_size (field_at fields i))); [lia|done|done|lia|done|done|done].
  - destruct (Z.eqb_spec (ptr (field_at fields i)) 0) as [Ep|Ep]; cbn [negb].
    + apply safe_memset0; auto; lia.
    + eapply (safe_bind _ _ _ _ (fun l _ => is_bytes l /\ length l = Z.to_nat (data_size (field_at fields i))));
        [done|apply safe_load; auto|].
      intros l s2 w2 Hw2 Hs2 _ [Hlb Hll]. apply safe_store; auto. lia.
Qed.

Lemma safe_set_defaults fuel n fields sz dest s w :
  (n <= fuel)%nat -> layout D (w_mem w0) n fields sz = true -> A <= dest -> dest + sz <= A + N ->
  inv w -> sok s ->
  safe s w (pb_message_set_to_defaults D fuel fields dest) (fun _ _ => True).
Proof.
  intros Hf Hl Hd1 Hd2 Hw Hs. destruct n as [|n]; [done|].
  apply safe_all_fields; [now apply (layout_wf (S n) fields sz)| |done|done].
  intros j s1 w1 Hj Hw1 Hs1. now apply (safe_set_default fuel n fields sz).
Qed.

(** ** Release: statically allocated fields own no memory *)

(** The step only reads. *)
Definition quiet {B} (w : world) (m : Dec B) (a : B) : Prop := forall s, m s w = Ret (Some a, s, w).

Lemma quiet_bind {B C} w (m : Dec B) (k : B -> Dec C) a b :
  quiet w m a -> quiet w (k a) b -> quiet w (bind m k) b.
Proof. intros H1 H2 s. unfold bind. rewrite H1. apply H2. Qed.

Lemma quiet_ret {B} w (a : B) : quiet w (ret a) a.
Proof. done. Qed.

Lemma quiet_load_u w a n :
  inv w -> 0 <= n -> mapped (w_mem w0) a n -> exists x, quiet w (load_u a n) x /\ 0 <= x < 2 ^ (8 * n).
Proof.
  intros Hw Hn Hm. destruct (load_bytes_mapped (w_mem w) a (Z.to_nat n)) as [l E].
  { intros x Hx. apply (inv_mapped w a n); [done..|lia]. }
  exists (le_val l). split.
  - intros s. unfold load_u, bind, load. rewrite E. done.
  - pose proof (le_val_range l (load_bytes_is_bytes _ _ _ _ (inv_bytes _ Hw) E)) as R.
    rewrite (load_bytes_length _ _ _ _ E), Z2Nat.id in R by done.
    rewrite Z.pow_mul_r by lia. exact R.
Qed.

Lemma quiet_iter_do body fields dest k i n w :
  fields_wf fields -> (i + S k = length fields)%nat -> (S k <= n)%nat ->
  (forall j, (j < length fields)%nat -> quiet w (body (iter_at fields dest j)) tt) ->
  quiet w (iter_do body n (iter_at fields dest i)) tt.
Proof.
  intros Hwf Hi Hn Hb. revert i n Hi Hn; induction k as [|k IH]; intros i n Hi Hn;
    (destruct n as [|n]; [lia|]); cbn [iter_do]; rewrite iter_at_next by (done || lia);
    (eapply quiet_bind; [apply Hb; lia|]).
  - destruct (Nat.ltb_spec (S i) (length fields)); [lia|]. apply quiet_ret.
  - destruct (Nat.ltb_spec (S i) (length fields)); [|lia]. apply IH; lia.
Qed.

Lemma quiet_all_fields body fields dest w :
  fields_wf fields ->
  (forall j, (j < length fields)%nat -> quiet w (body (iter_at fields dest j)) tt) ->
  quiet w (let '(nonempty, it) := pb_field_iter_begin fields dest in
           if nonempty then iter_do body (iter_fuel it) it else ret tt) tt.
Proof.
  intros Hwf Hb. rewrite begin_nonempty by done. unfold iter_fuel. rewrite iter_at_start.
  destruct (length fields) as [|k] eqn:El; cbn [Nat.eqb negb]; [apply quiet_ret|].
  apply (quiet_iter_do _ _ _ k); [done|lia|lia|]. rewrite El. exact Hb.
Qed.

Lemma quiet_release_items release step k p w :
  (forall j, (j < k)%nat -> quiet w (release (p + step * Z.of_nat j)) tt) ->
  quiet w (release_items release step k p) tt.
Proof.
  revert p; induction k as [|k IH]; intros p H; cbn [release_items]; [apply quiet_ret|].
  eapply quiet_bind.
  - specialize (H 0%nat ltac:(lia)). now rewrite Z.mul_0_r, Z.add_0_r in H.
  - apply IH. intros j Hj. specialize (H (S j) ltac:(lia)).
    replace (p + step + step * Z.of_nat j) with (p + step * Z.of_nat (S j)) by lia. exact H.
Qed.

(** The number of entries [pb_release_single_field] walks over. *)
Lemma quiet_count it f w :
  inv w -> 0 <= array_size f ->
  (PB_HTYPE (type f) = PB_HTYPE_REPEATED -> A <= pSize it /\ pSize it + 4 <= A + N) ->
  exists c,
    quiet w
      (if PB_HTYPE (type f) =? PB_HTYPE_REPEATED then
         let* c := if (PB_ATYPE_STATIC =? PB_ATYPE_STATIC) && (pSize it =? pData it)
                   then ret (array_size f) else load_u (pSize it) sizeof_pb_size_t in
         ret (if (PB_ATYPE_STATIC =? PB_ATYPE_STATIC) && (array_size f <? c)
              then array_size f else c)
       else ret 1) c /\
    0 <= c <= (if PB_HTYPE (type f) =? PB_HTYPE_REPEATED then array_size f else 1).
Proof.
  intros Hw Ha Hs. destruct (Z.eqb_spec (PB_HTYPE (type f)) PB_HTYPE_REPEATED) as [E|E].
  2: { exists 1. split; [apply quiet_ret|lia]. }
  destruct (Hs E) as [H1 H2]. change (PB_ATYPE_STATIC =? PB_ATYPE_STATIC) with true. cbn [andb].
  destruct (pSize it =? pData it).
  - exists (array_size f). split; [|lia]. eapply quiet_bind; [apply quiet_ret|].
    rewrite Z.ltb_irrefl. apply quiet_ret.
  - destruct (quiet_load_u w (pSize it) 4 Hw ltac:(lia)) as (x & Hx & Rx); [apply area_mapped; lia|].
    eexists. split; [eapply quiet_bind; [exact Hx|apply quiet_ret]|].
    destruct (Z.ltb_spec (array_size f) x); lia.
Qed.

Lemma quiet_release_field fuel n fields sz dest i w :
  (n < fuel)%nat -> layout D (w_mem w0) (S n) fields sz = true -> A <= dest -> dest + sz <= A + N ->
  (i < length fields)%nat -> inv w ->
  quiet w (pb_release_single_field D fuel (iter_at fields dest i)) tt.
Proof.
  revert n fields sz dest i w.
  induction fuel as [|fuel IH]; intros n fields sz dest i w Hf Hl Hd1 Hd2 Hi Hw; [lia|].
  pose proof (layout_field n fields sz dest i Hl Hd1 Hd2 Hi) as F.
  pose proof (layout_wf _ _ _ Hl) as Hwf.
  cbn [pb_release_single_field]. unfold release_single_field.
  rewrite iter_at_field by done. cbv zeta. destruct F.
  set (f := field_at fields i) in *. set (it := iter_at fields dest i) in *.
  rewrite fa_static0. change (PB_ATYPE_STATIC =? PB_ATYPE_POINTER) with false.
  change (PB_ATYPE_STATIC =? PB_ATYPE_CALLBACK) with false.
  assert (Hskip : exists b, quiet w
     (if PB_HTYPE (type f) =? PB_HTYPE_ONEOF
      then let* which := load_u (pSize it) sizeof_pb_size_t in ret (negb (which =? tag f))
      else ret false) b).
  { destruct (Z.eqb_spec (PB_HTYPE (type f)) PB_HTYPE_ONEOF) as [E|E]; [|eexists; apply quiet_ret].
    destruct fa_count0; [now rewrite E|now rewrite E|].
    destruct (quiet_load_u w (pSize it) 4 Hw ltac:(lia)) as (x & Hx & _); [apply area_mapped; lia|].
    eexists. eapply quiet_bind; [exact Hx|apply quiet_ret]. }
  destruct Hskip as [b Hb]. eapply quiet_bind; [exact Hb|]. destruct b; [apply quiet_ret|].
  eapply quiet_bind; [|apply quiet_ret].
  apply Z.eqb_neq in fa_noext0. rewrite fa_noext0. cbn [negb]. rewrite andb_true_r.
  destruct (Z.eqb_spec (PB_LTYPE (type f)) PB_LTYPE_SUBMESSAGE) as [E|E]; [|apply quiet_ret].
  eapply quiet_bind; [apply quiet_ret|].
  destruct (quiet_count it f w Hw fa_array0) as (c & Hc & Rc).
  { intros Hr. apply fa_count0; now rewrite Hr. }
  eapply quiet_bind; [exact Hc|].
  destruct (Z.eqb_spec (pData it) 0) as [E0|E0]; [lia|]. cbn [negb].
  destruct (fa_sub0 E) as (Hp & sf & Hsf & Hlsub). rewrite Hsf.
  eapply quiet_bind; [intros s; reflexivity|].
  apply quiet_release_items. intros j Hj.
  assert (Hr : A <= pData it + data_size f * Z.of_nat j /\
               pData it + data_size f * Z.of_nat j + data_size f <= A + N).
  { destruct (PB_HTYPE (type f) =? PB_HTYPE_REPEATED); nia. }
  destruct (Z.eqb_spec (pData it + data_size f * Z.of_nat j) 0); [lia|].
  apply quiet_all_fields; [now apply (layout_wf n sf (data_size f))|].
  intros k Hk. destruct n as [|n]; [done|].
  apply (IH n sf (data_size f)); [lia|done|lia|lia|done|done].
Qed.

Lemma quiet_release fuel n fields sz dest w :
  (n <= fuel)%nat -> layout D (w_mem w0) n fields sz = true -> A <= dest -> dest + sz <= A + N ->
  inv w -> quiet w (pb_release D fuel fields dest) tt.
Proof.
  intros Hf Hl Hd1 Hd2 Hw. destruct n as [|n]; [done|]. unfold pb_release.
  destruct (Z.eqb_spec dest 0); [lia|].
  apply quiet_all_fields; [now apply (layout_wf (S n) fields sz)|].
  intros j Hj. now apply (quiet_release_field fuel n fields sz).
Qed.

(** ** Fields *)

Section Rec.
(** The recursive call on the submessages, nested less than [n] deep. *)
Context (n fuel : nat) (rec : list pb_field -> Z -> Dec unit).
Context (Hrec : forall sf sz d s w,
  layout D (w_mem w0) n sf sz = true -> A <= d -> d + sz <= A + N -> inv w -> sok s ->
  bytes_left s + Z.of_nat n < Z.of_nat fuel -> safe s w (rec sf d) (fun _ _ => True)).

(** [pb_decode]: on failure what was decoded is released. *)
Lemma safe_decode_with sf sz d s w :
  layout D (w_mem w0) n sf sz = true -> A <= d -> d + sz <= A + N -> inv w -> sok s ->
  bytes_left s + Z.of_nat n < Z.of_nat fuel ->
  safe s w (decode_with D fuel rec sf d) (fun _ _ => True).
Proof.
  intros Hl Hd1 Hd2 Hw Hs Hf. pose proof (sok_left _ Hs).
  eapply safe_bind; [done|apply (safe_set_defaults fuel n sf sz); [lia|done..]|].
  intros _ s1 w1 Hw1 Hs1 (_ & L & _) _. apply wp_bind, wp_catch.
  eapply wp_mono; [apply (Hrec sf sz d); [done..|lia]|].
  intros [u|] s2 w2 [Hw2 H2]; [now apply wp_ret|].
  apply wp_bind. unfold wp at 1.
  rewrite (quiet_release fuel n sf sz d w2 ltac:(lia) Hl Hd1 Hd2 Hw2 s2). now apply wp_fail.
Qed.

Lemma safe_dec_submessage f d s w :
  ptr f <> 0 -> (exists sf, D !! ptr f = Some sf /\ layout D (w_mem w0) n sf (data_size f) = true) ->
  A <= d -> d + data_size f <= A + N -> inv w -> sok s -> bytes_left s + Z.of_nat n <= Z.of_nat fuel ->
  safe s w (pb_dec_submessage X D fuel rec f d) (fun _ s' => consumed s s').
Proof.
  intros Hp (sf & Hsf & Hl) Hd1 Hd2 Hw Hs Hf. apply wp_bind.
  eapply wp_mono; [now apply wp_make_substream|].
  intros [sub|] s' w1 [Hw1 H]; [|done]. destruct H as (s1 & Hs1 & Ha & Hlt & Hsp).
  destruct (Z.eqb_spec (ptr f) 0); [done|]. rewrite Hsf.
  assert (Hsub : sok sub) by now apply (split_sub_sok s1 s').
  assert (Hsubl : bytes_left sub <= bytes_left s1) by (destruct Hsp as (k & ? & _ & ->); cbn; lia).
  set (m := if PB_HTYPE (type f) =? PB_HTYPE_REPEATED then decode_with D fuel rec sf d else rec sf d).
  change (wp (let* r := on_stream sub m in
    let '(o, sub') := r in
    pb_close_string_substream X sub' ;; match o with Some _ => ret tt | None => fail end)
    (fun o s'' w'' => inv w'' /\ match o with Some _ => adv s s'' /\ consumed s s''
                                 | None => weak s s'' end) s' w1).
  eapply wp_mono;
    [apply (safe_in_substream s1 s' sub w1 m (fun o => match o with Some _ => ret tt | None => fail end)
              (fun _ _ => True)); [done|done| | |]|].
  - assert (Hm : safe sub w1 m (fun _ _ => True)).
    { unfold m. destruct (_ =? _).
      - apply (safe_decode_with sf (data_size f)); auto. lia.
      - apply (Hrec sf (data_size f)); auto. lia. }
    eapply wp_mono; [exact Hm|]. intros [u|] s2 w2 [Hw2 H2]; [|done]. tauto.
  - intros b s2 w2 Hw2 Hs2 _. now apply safe_ret.
  - done.
  - cbn. intros [u|] s2 w2 [Hw2 H2]; (split; [done|]).
    + destruct H2 as [H2 _]. split; [now apply (adv_trans s s1)|].
      destruct H2 as (_ & L & _). unfold consumed. lia.
    + now apply (adv_weak s s1).
Qed.

(** The decoder the table selects for a field. *)
Lemma safe_func fields dest i d :
  field_at_ok n fields dest i -> A <= d -> d + data_size (field_at fields i) <= A + N ->
  exists func, PB_DECODERS X D fuel rec (PB_LTYPE (type (field_at fields i))) = Ret func /\
    forall s w, inv w -> sok s -> bytes_left s + Z.of_nat n <= Z.of_nat fuel ->
      safe s w (func (field_at fields i) d) (fun _ s' => consumed s s').
Proof.
  intros [] Hd1 Hd2. set (f := field_at fields i) in *. clear fa_has0 fa_count0 fa_default0.
  revert fa_min0 fa_noext0 fa_sub0 fa_ltype0. unfold size_min, PB_DECODERS.
  generalize (PB_LTYPE (type f)). intros lt.
  unfold PB_LTYPE_BOOL, PB_LTYPE_VARINT, PB_LTYPE_UVARINT, PB_LTYPE_SVARINT, PB_LTYPE_FIXED32,
    PB_LTYPE_FIXED64, PB_LTYPE_BYTES, PB_LTYPE_STRING, PB_LTYPE_SUBMESSAGE, PB_LTYPE_EXTENSION,
    PB_LTYPE_FIXED_LENGTH_BYTES.
  intros Hmin Hext Hsub Hlt.
  assert (lt = 0 \/ lt = 1 \/ lt = 2 \/ lt = 3 \/ lt = 4 \/ lt = 5 \/ lt = 6 \/ lt = 7 \/
          lt = 8 \/ lt = 10) as Hc by lia.
  repeat destruct Hc as [->|Hc]; [..|subst lt]; cbn in Hmin |- *;
    (eexists; split; [reflexivity|]; intros s w Hw Hs Hf).
  - now apply safe_dec_bool.
  - now apply safe_dec_varint.
  - now apply safe_dec_uvarint.
  - now apply safe_dec_svarint.
  - now apply safe_dec_fixed32.
  - now apply safe_dec_fixed64.
  - now apply safe_dec_bytes.
  - now apply safe_dec_string.
  - destruct (Hsub eq_refl). now apply safe_dec_submessage.
  - now apply safe_dec_fixed_length_bytes.
Qed.

Definition set_psize (p : Z) (it : pb_field_iter) : pb_field_iter :=
  mk_iter (it_start it) (it_pos it) (required_field_index it) (dest_struct it) (pData it) p.

(** The iterator at position [i], whose count may have been redirected to the
    local of [pb_decode_noinit]. *)
Definition near (fields : list pb_field) (dest : Z) (i : nat) (it : pb_field_iter) : Prop :=
  it = iter_at fields dest i \/
  PB_HTYPE (type (field_at fields i)) = PB_HTYPE_REPEATED /\
  it = set_psize addr_fixed_count (iter_at fields dest i).

Lemma near_pData fields dest i it :
  near fields dest i it -> pData it = pData (iter_at fields dest i).
Proof. now intros [->|[_ ->]]. Qed.

Lemma near_field fields dest i it :
  fields_wf fields -> (i < length fields)%nat -> near fields dest i it ->
  it_field it = field_at fields i.
Proof.
  intros Hwf Hi [->|[_ ->]]; [now apply iter_at_field|].
  rewrite <- (iter_at_field fields dest Hwf i Hi). done.
Qed.

Section OneField.
Context (fields : list pb_field) (dest : Z) (i : nat) (it : pb_field_iter).
Context (Hwf : fields_wf fields) (Hi : (i < length fields)%nat).
Context (Hok : field_at_ok n fields dest i) (Hnear : near fields dest i it).
Notation fld := (field_at fields i) (only parsing).

Lemma count_area :
  PB_HTYPE (type fld) = PB_HTYPE_REPEATED -> pSize it <> addr_fixed_count ->
  A <= pSize it /\ pSize it + 4 <= A + N.
Proof.
  intros Hr Hp. destruct Hnear as [->|[_ ->]]; [|done].
  apply (fa_count _ _ _ _ Hok); now rewrite Hr.
Qed.

Lemma read_size_ok fixed w :
  PB_HTYPE (type fld) = PB_HTYPE_REPEATED -> 0 <= fixed -> inv w ->
  exists x, quiet w (read_size it fixed) x /\ 0 <= x.
Proof.
  intros Hr Hx Hw. unfold read_size. destruct (Z.eqb_spec (pSize it) addr_fixed_count) as [E|E].
  { exists fixed. now split. }
  destruct (count_area Hr E).
  destruct (quiet_load_u w (pSize it) 4 Hw ltac:(lia)) as (x & Hq & Rx); [apply area_mapped; lia|].
  exists x. split; [done|lia].
Qed.

Lemma write_size_ok fixed v s w :
  PB_HTYPE (type fld) = PB_HTYPE_REPEATED -> 0 <= fixed -> inv w ->
  exists x w', write_size it fixed (u32 v) s w = Ret (Some x, s, w') /\ inv w' /\ 0 <= x.
Proof.
  intros Hr Hx Hw. pose proof (wrapu_range 32 v ltac:(lia)).
  unfold write_size. destruct (Z.eqb_spec (pSize it) addr_fixed_count) as [E|E].
  { exists (u32 v), w. split; [done|]. split; [done|lia]. }
  destruct (count_area Hr E).
  destruct (store_ok s w (pSize it) (le_bytes 4 (u32 v)) Hw) as (w' & Es & Hw');
    [lia|rewrite length_le_bytes; lia|apply le_bytes_is_bytes|].
  exists fixed, w'. split; [|done]. unfold bind, store_u.
  change (Z.to_nat sizeof_pb_size_t) with 4%nat. now rewrite Es.
Qed.

(** An entry of a repeated field lies in the structure. *)
Lemma item_area x :
  PB_HTYPE (type fld) = PB_HTYPE_REPEATED -> 0 <= x < array_size fld ->
  A <= pData it + u32 (data_size fld * x) /\ pData it + u32 (data_size fld * x) + data_size fld <= A + N.
Proof.
  intros Hr Hx. rewrite (near_pData _ _ _ _ Hnear). destruct Hok.
  rewrite Hr in fa_data_end0. cbn in fa_data_end0.
  assert (Hp : 0 <= data_size fld * x) by (apply Z.mul_nonneg_nonneg; lia).
  pose proof (wrapu_range 32 (data_size fld * x) ltac:(lia)).
  pose proof (Z.mod_le (data_size fld * x) (2 ^ 32) Hp ltac:(lia)) as Hle. change (_ mod 2 ^ 32) with (u32 (data_size fld * x)) in Hle. nia.
Qed.

Context (func : pb_field -> Z -> Dec unit).
Context (Hfunc : PB_DECODERS X D fuel rec (PB_LTYPE (type fld)) = Ret func).

Lemma safe_func_at d s w :
  A <= d -> d + data_size fld <= A + N -> inv w -> sok s ->
  bytes_left s + Z.of_nat n <= Z.of_nat fuel ->
  safe s w (func fld d) (fun _ s' => consumed s s').
Proof.
  intros Hd1 Hd2 Hw Hs Hf. destruct (safe_func fields dest i d Hok Hd1 Hd2) as (g & Hg & H).
  rewrite Hfunc in Hg. injection Hg as <-. now apply H.
Qed.

Lemma wp_packed_loop k fixed s w :
  PB_HTYPE (type fld) = PB_HTYPE_REPEATED -> 0 <= fixed -> inv w -> sok s ->
  bytes_left s < Z.of_nat k -> bytes_left s + Z.of_nat n <= Z.of_nat fuel ->
  wp (packed_loop func it k fixed) (fun o s' w' =>
    inv w' /\ exists fx st, o = Some (fx, st) /\ 0 <= fx /\
      if (st : bool) then adv s s' else weak s s') s w.
Proof.
  intros Hr. revert fixed s w; induction k as [|k IH]; intros fixed s w Hx Hw Hs Hk Hf.
  { destruct Hs. lia. }
  cbn [packed_loop]. rewrite (near_field fields dest i it Hwf Hi Hnear).
  apply wp_bind, wp_get, wp_bind.
  destruct (read_size_ok fixed w Hr Hx Hw) as (x & Hq & Hx1).
  unfold wp at 1. rewrite (Hq s).
  destruct (Z.ltb_spec 0 (bytes_left s)), (Z.ltb_spec x (array_size fld)); cbn [andb];
    try (apply wp_ret; split; [done|]; exists fixed, true; split; [done|]; split; [done|];
         now apply adv_refl).
  destruct (item_area x Hr ltac:(lia)) as [Hd1 Hd2].
  apply wp_bind, wp_catch.
  eapply wp_mono; [apply (safe_func_at (pData it + u32 (data_size fld * x))); auto|].
  intros [u|] s2 w2 [Hw2 H2].
  2: { apply wp_ret. split; [done|]. now exists fixed, false. }
  destruct H2 as [Ha Hc]. unfold consumed in Hc. pose proof (adv_sok _ _ Hs Ha) as Hs2.
  apply wp_bind. destruct (write_size_ok fixed (x + 1) s2 w2 Hr Hx Hw2) as (fx & w3 & E & Hw3 & Hfx).
  unfold wp at 1. rewrite E.
  eapply wp_mono; [apply IH; [done|done|done|lia|lia]|].
  intros o s4 w4 (Hw4 & fx' & st & -> & Hfx' & H4). split; [done|]. exists fx', st.
  split; [done|]. split; [done|].
  destruct st; [now apply (adv_trans s s2)|now apply (adv_weak s s2)].
Qed.

Lemma near_regular : PB_HTYPE (type fld) <> PB_HTYPE_REPEATED -> it = iter_at fields dest i.
Proof. intros H. destruct Hnear as [->|[? _]]; done. Qed.

Lemma single_area :
  PB_HTYPE (type fld) <> PB_HTYPE_REPEATED ->
  A <= pData it /\ pData it + data_size fld <= A + N.
Proof.
  intros H. rewrite (near_pData _ _ _ _ Hnear). destruct Hok.
  apply Z.eqb_neq in H. rewrite H in fa_data_end0. done.
Qed.

Lemma safe_single fixed s w :
  PB_HTYPE (type fld) <> PB_HTYPE_REPEATED -> 0 <= fixed -> inv w -> sok s ->
  bytes_left s + Z.of_nat n <= Z.of_nat fuel ->
  safe s w (func fld (pData it) ;; ret fixed) (fun fx _ => 0 <= fx).
Proof.
  intros Hr Hx Hw Hs Hf. destruct (single_area Hr).
  eapply safe_bind; [done|now apply safe_func_at|]. intros. now apply safe_ret.
Qed.

Lemma safe_packed fixed s w :
  PB_HTYPE (type fld) = PB_HTYPE_REPEATED -> 0 <= fixed -> inv w -> sok s ->
  bytes_left s + Z.of_nat n <= Z.of_nat fuel ->
  safe s w
    (let* substream := pb_make_string_substream X in
     let* r := on_stream substream
                 (packed_loop func it (S (Z.to_nat (bytes_left substream))) fixed) in
     match r with
     | (Some (fixed, status), substream) =>
         if negb (bytes_left substream =? 0) then PB_RETURN_ERROR "array overflow"
         else
           pb_close_string_substream X substream ;;
           if status : bool then ret fixed else fail
     | (None, _) => fail
     end) (fun fx _ => 0 <= fx).
Proof.
  intros Hr Hx Hw Hs Hf. apply wp_bind. eapply wp_mono; [now apply wp_make_substream|].
  intros [sub|] s' w1 [Hw1 H]; [|done]. destruct H as (s1 & Hs1 & Ha & Hlt & Hsp).
  pose proof (split_sub_sok _ _ _ Hs1 Hsp) as Hsub. pose proof (sok_left _ Hsub).
  assert (Hsubl : bytes_left sub <= bytes_left s1) by (destruct Hsp as (k & ? & _ & ->); cbn; lia).
  apply wp_bind, wp_on_stream.
  eapply wp_mono; [apply wp_packed_loop; [done|done|done|done|lia|lia]|].
  intros o sub' w2 (Hw2 & fx & st & -> & Hfx & Hst).
  assert (Hweak : weak s s').
  { apply (adv_weak s s1); [done|]. destruct Hsp as (k & ? & -> & _).
    destruct Hs1. split; [done|]. cbn. lia. }
  destruct (negb _).
  { apply wp_error. split; [done|]. exact Hweak. }
  apply wp_bind. unfold wp at 1. destruct st.
  - destruct (close_adv s1 s' sub sub' w2 Hs1 Hsp Hst) as (s2 & E & Ha2). rewrite E.
    apply wp_ret. split; [done|]. split; [now apply (adv_trans s s1)|done].
  - destruct (close_weak s1 s' sub sub' w2 Hs1 Hsp Hst) as (s2 & E & Ha2). rewrite E.
    apply wp_fail. split; [done|]. now apply (adv_weak s s1).
Qed.

Lemma safe_append fixed s w :
  PB_HTYPE (type fld) = PB_HTYPE_REPEATED -> 0 <= fixed -> inv w -> sok s ->
  bytes_left s + Z.of_nat n <= Z.of_nat fuel ->
  safe s w
    (let* size := read_size it fixed in
     let* fixed := write_size it fixed (u32 (size + 1)) in
     if array_size fld <=? size then PB_RETURN_ERROR "array overflow"
     else func fld (pData it + u32 (data_size fld * size)) ;; ret fixed) (fun fx _ => 0 <= fx).
Proof.
  intros Hr Hx Hw Hs Hf. apply wp_bind.
  destruct (read_size_ok fixed w Hr Hx Hw) as (x & Hq & Hx1). unfold wp at 1. rewrite (Hq s).
  apply wp_bind.
  destruct (write_size_ok fixed (x + 1) s w Hr Hx Hw) as (fx & w3 & E & Hw3 & Hfx).
  unfold wp at 1. rewrite E. destruct (Z.leb_spec (array_size fld) x).
  { now apply safe_error. }
  destruct (item_area x Hr ltac:(lia)) as [Hd1 Hd2].
  eapply (safe_bind s w3); [done|now apply safe_func_at|]. intros. now apply safe_ret.
Qed.

Lemma safe_oneof fixed s w :
  PB_HTYPE (type fld) <> PB_HTYPE_REPEATED -> PB_HTYPE (type fld) <> PB_HTYPE_OPTIONAL ->
  PB_HTYPE (type fld) <> PB_HTYPE_REQUIRED -> 0 <= fixed -> inv w -> sok s ->
  bytes_left s + Z.of_nat n <= Z.of_nat fuel ->
  safe s w
    (let* which := load_u (pSize it) sizeof_pb_size_t in
     (if (PB_LTYPE (type fld) =? PB_LTYPE_SUBMESSAGE) && negb (which =? tag fld) then
        memset0 (pData it) (data_size fld) ;;
        let* fs := lift_res (of_option (D !! ptr fld)) in
        pb_message_set_to_defaults D fuel fs (pData it)
      else ret tt) ;;
     store_u (pSize it) sizeof_pb_size_t (tag fld) ;;
     func fld (pData it) ;; ret fixed) (fun fx _ => 0 <= fx).
Proof.
  intros Hr Ho Hq Hx Hw Hs Hf. destruct (single_area Hr) as [Hd1 Hd2].
  destruct (fa_count _ _ _ _ Hok Ho Hq) as [H1 H2]. rewrite <- (near_regular Hr) in H1, H2.
  pose proof (sok_left _ Hs). destruct (fa_size _ _ _ _ Hok) as [Hds _].
  eapply (safe_bind _ _ _ _ (fun _ _ => True)); [done| |].
  { apply safe_load_u; auto; [unfold sizeof_pb_size_t; lia|].
    apply area_mapped; unfold sizeof_pb_size_t; lia. }
  intros which s1 w1 Hw1 Hs1 (_ & L1 & _) _.
  eapply (safe_bind _ _ _ _ (fun _ _ => True)); [done| |].
  { destruct (Z.eqb_spec (PB_LTYPE (type fld)) PB_LTYPE_SUBMESSAGE) as [E|E]; cbn [andb];
      [|now apply safe_ret].
    destruct (negb _); [|now apply safe_ret].
    destruct (fa_sub _ _ _ _ Hok E) as (Hp & sf & Hsf & Hl).
    eapply (safe_bind _ _ _ _ (fun _ _ => True)); [done|now apply safe_memset0|].
    intros _ s2 w2 Hw2 Hs2 _ _. rewrite Hsf. eapply safe_lift; [reflexivity|].
    apply (safe_set_defaults fuel n sf (data_size fld)); [lia|done..]. }
  intros _ s2 w2 Hw2 Hs2 (_ & L2 & _) _.
  eapply (safe_bind _ _ _ _ (fun _ _ => True)); [done| |].
  { unfold sizeof_pb_size_t. apply safe_store_u; auto; lia. }
  intros _ s3 w3 Hw3 Hs3 (_ & L3 & _) _. apply safe_single; auto. lia.
Qed.
End OneField.

Lemma safe_static_field fields dest i it wt fixed s w :
  fields_wf fields -> (i < length fields)%nat -> field_at_ok n fields dest i ->
  near fields dest i it -> 0 <= fixed -> inv w -> sok s ->
  bytes_left s + Z.of_nat n <= Z.of_nat fuel ->
  safe s w (decode_static_field X D fuel rec wt it fixed) (fun fx _ => 0 <= fx).
Proof.
  intros Hwf Hi Hok Hnear Hx Hw Hs Hf. unfold decode_static_field.
  rewrite (near_field _ _ _ _ Hwf Hi Hnear).
  assert (Hfunc : exists func, PB_DECODERS X D fuel rec (PB_LTYPE (type (field_at fields i))) = Ret func).
  { destruct (fa_ltype _ _ _ _ Hok) as [L1 L2]. revert L1 L2.
    generalize (PB_LTYPE (type (field_at fields i))). intros lt L1 L2.
    assert (lt = 0 \/ lt = 1 \/ lt = 2 \/ lt = 3 \/ lt = 4 \/ lt = 5 \/ lt = 6 \/ lt = 7 \/
            lt = 8 \/ lt = 9 \/ lt = 10) as Hc by lia.
    repeat destruct Hc as [->|Hc]; [..|subst lt]; eexists; reflexivity. }
  destruct Hfunc as [func Hfunc]. rewrite Hfunc. eapply safe_lift; [reflexivity|]. cbv zeta.
  destruct (Z.eqb_spec (PB_HTYPE (type (field_at fields i))) PB_HTYPE_REQUIRED) as [E1|E1].
  { apply (safe_single fields dest i); auto. now rewrite E1. }
  destruct (Z.eqb_spec (PB_HTYPE (type (field_at fields i))) PB_HTYPE_OPTIONAL) as [E2|E2].
  { eapply (safe_bind _ _ _ _ (fun _ _ => True)); [done| |].
    - destruct (Z.eqb_spec (pSize it) (pData it)) as [E|E]; cbn [negb]; [now apply safe_ret|].
      rewrite (near_regular fields dest i it Hnear) in * by now rewrite E2.
      destruct (fa_has _ _ _ _ Hok E2 E). unfold sizeof_bool. apply safe_store_u; auto; lia.
    - intros _ s1 w1 Hw1 Hs1 (_ & L1 & _) _. apply (safe_single fields dest i); auto; [|lia].
      now rewrite E2. }
  destruct (Z.eqb_spec (PB_HTYPE (type (field_at fields i))) PB_HTYPE_REPEATED) as [E3|E3].
  { destruct (_ && _); [now apply (safe_packed fields dest i)|now apply (safe_append fields dest i)]. }
  now apply (safe_oneof fields dest i).
Qed.

(** ** The iterator of the decoding loop *)

Section Loop.
Context (fields : list pb_field) (sz dest : Z).
Context (Hl : layout D (w_mem w0) (S n) fields sz = true).
Context (Hd1 : A <= dest) (Hd2 : dest + sz <= A + N).

Lemma loop_wf : fields_wf fields.
Proof. now apply (layout_wf (S n) fields sz). Qed.
#[local] Hint Resolve loop_wf : core.

Lemma loop_field i : (i < length fields)%nat -> field_at_ok n fields dest i.
Proof. now apply (layout_field n fields sz). Qed.

(** The iterator is at some field. *)
Definition at_field (it : pb_field_iter) : Prop :=
  exists i, (i < length fields)%nat /\ near fields dest i it.

Lemma next_set_psize p i :
  (i < length fields)%nat -> PB_HTYPE (type (field_at fields i)) = PB_HTYPE_REPEATED ->
  pb_field_iter_next (set_psize p (iter_at fields dest i))
    = pb_field_iter_next (iter_at fields dest i).
Proof.
  intros Hi Hr. unfold pb_field_iter_next.
  change (it_field (set_psize p (iter_at fields dest i))) with (it_field (iter_at fields dest i)).
  rewrite iter_at_field by auto. pose proof (fields_wf_at fields i loop_wf Hi) as Ht.
  apply Z.eqb_neq in Ht. rewrite Ht. cbn [set_psize it_start it_pos].
  destruct (tag _ =? 0); [done|]. rewrite Hr. reflexivity.
Qed.

Lemma near_search found it :
  at_field it ->
  exists b it', iter_search found (it_pos it) (iter_fuel it) it = Ret (b, it') /\ at_field it' /\
    (if b then found (it_field it') = true
     else forall j, (j < length fields)%nat -> found (field_at fields j) = false).
Proof.
  intros (i & Hi & Hn).
  destruct (iter_search_at fields dest found i loop_wf Hi) as (b & k & E & Hk & Hb).
  assert (Hreg : exists b it',
    iter_search found i (S (length fields)) (iter_at fields dest i) = Ret (b, it') /\ at_field it' /\
    (if b then found (it_field it') = true
     else forall j, (j < length fields)%nat -> found (field_at fields j) = false)).
  { exists b, (iter_at fields dest k). split; [done|]. split; [exists k; split; [done|now left]|].
    destruct b; [now rewrite iter_at_field|tauto]. }
  unfold iter_fuel. destruct Hn as [->|[Hr ->]].
  - now rewrite iter_at_pos, iter_at_start by auto.
  - change (it_pos (set_psize addr_fixed_count (iter_at fields dest i)))
      with (it_pos (iter_at fields dest i)).
    change (it_start (set_psize addr_fixed_count (iter_at fields dest i)))
      with (it_start (iter_at fields dest i)).
    rewrite iter_at_pos, iter_at_start by auto.
    cbn [iter_search] in Hreg |- *. rewrite next_set_psize by done.
    change (it_field (set_psize addr_fixed_count (iter_at fields dest i)))
      with (it_field (iter_at fields dest i)).
    destruct (found (it_field (iter_at fields dest i))) eqn:Ef; [|exact Hreg].
    eexists true, _. split; [reflexivity|]. split; [|exact Ef].
    exists i. split; [done|]. now right.
Qed.

Lemma required_count_ok it : at_field it -> exists r, required_count_loop (iter_fuel it) it = Ret r.
Proof.
  intros (i & Hi & Hn).
  assert (H : forall k i m, (i + S k = length fields)%nat -> (S k <= m)%nat ->
            exists r, required_count_loop m (iter_at fields dest i) = Ret r).
  { clear i it Hi Hn. intros k. induction k as [|k IH]; intros i m Hi Hm;
      (destruct m as [|m]; [lia|]); cbn [required_count_loop]; rewrite iter_at_next by (auto || lia).
    - destruct (Nat.ltb_spec (S i) (length fields)); [lia|]. eauto.
    - destruct (Nat.ltb_spec (S i) (length fields)); [|lia]. apply IH; lia. }
  assert (Hreg : exists r, required_count_loop (S (length fields)) (iter_at fields dest i) = Ret r)
    by (apply (H (length fields - S i)%nat); lia).
  unfold iter_fuel. destruct Hn as [->|[Hr ->]]; [now rewrite iter_at_start|].
  change (it_start (set_psize addr_fixed_count (iter_at fields dest i)))
    with (it_start (iter_at fields dest i)).
  rewrite iter_at_start. cbn [required_count_loop] in Hreg |- *. rewrite next_set_psize by done.
  exact Hreg.
Qed.

(** ** One field of the input *)

Lemma safe_release_union it s w :
  at_field it -> PB_HTYPE (type (it_field it)) = PB_HTYPE_ONEOF ->
  inv w -> sok s -> (n < fuel)%nat ->
  safe s w (pb_release_union_field D fuel it) (fun it' _ => at_field it').
Proof.
  intros Hat Ho Hw Hs Hf. pose proof Hat as (i & Hi & Hn).
  rewrite (near_field _ _ _ _ loop_wf Hi Hn) in Ho.
  assert (it = iter_at fields dest i) as -> by (apply near_regular; [done|now rewrite Ho]).
  destruct (fa_count _ _ _ _ (loop_field i Hi)) as [H1 H2]; [now rewrite Ho|now rewrite Ho|].
  unfold pb_release_union_field.
  eapply (safe_bind _ _ _ _ (fun _ _ => True)); [done| |].
  { apply safe_load_u; auto; [unfold sizeof_pb_size_t; lia|].
    apply area_mapped; unfold sizeof_pb_size_t; lia. }
  intros old s1 w1 Hw1 Hs1 _ _. cbv zeta.
  destruct (old =? 0); [now apply safe_ret|]. destruct (old =? _); [now apply safe_ret|].
  destruct (iter_find_at fields dest old i loop_wf Hi) as (b & k & E & Hk & Hb).
  rewrite E. eapply safe_lift; [reflexivity|]. destruct b; cbn [negb]; [|now apply safe_error].
  apply wp_bind. unfold wp at 1.
  rewrite (quiet_release_field fuel n fields sz dest k w1 Hf Hl Hd1 Hd2 Hk Hw1 s1).
  destruct (iter_find_at fields dest (tag (it_field (iter_at fields dest i))) k loop_wf Hk)
    as (b2 & k2 & E2 & Hk2 & Hb2).
  rewrite E2. eapply (safe_lift s1 w1); [reflexivity|]. destruct b2; cbn [negb]; [|now apply safe_error].
  rewrite iter_at_field by auto. rewrite (fa_static _ _ _ _ (loop_field k2 Hk2)).
  change (PB_ATYPE_STATIC =? PB_ATYPE_POINTER) with false.
  eapply (safe_bind s1 w1 _ _ (fun _ _ => True)); [done|now apply safe_ret|].
  intros. apply safe_ret; [done|done|]. exists k2. split; [done|now left].
Qed.

Lemma safe_decode_field it wt fixed s w :
  at_field it -> 0 <= fixed -> inv w -> sok s -> bytes_left s + Z.of_nat n < Z.of_nat fuel ->
  safe s w (decode_field X D fuel rec wt it fixed) (fun r _ => at_field (fst r) /\ 0 <= snd r).
Proof.
  intros Hat Hx Hw Hs Hf. pose proof (sok_left _ Hs). unfold decode_field.
  eapply (safe_bind _ _ _ _ (fun it' _ => at_field it')); [done| |].
  { destruct (Z.eqb_spec (PB_HTYPE (type (it_field it))) PB_HTYPE_ONEOF) as [E|E];
      [apply safe_release_union; auto; lia|now apply safe_ret]. }
  intros it' s1 w1 Hw1 Hs1 (_ & L1 & _) Hat'. cbv zeta. pose proof Hat' as (i & Hi & Hn).
  rewrite (near_field _ _ _ _ loop_wf Hi Hn), (fa_static _ _ _ _ (loop_field i Hi)).
  change (PB_ATYPE_STATIC =? PB_ATYPE_STATIC) with true. cbv iota.
  eapply safe_bind; [done|apply (safe_static_field fields dest i); auto using loop_field; lia|].
  intros fx s2 w2 Hw2 Hs2 _ Hfx. now apply safe_ret.
Qed.

(** The locals of the loop. *)
Definition dec_ok (d : dec_state) : Prop := at_field (d_iter d) /\ 0 <= fixed_count_size d.

Lemma safe_unknown t wt d s w :
  dec_ok d -> 0 <= t < 2 ^ 29 -> inv w -> sok s ->
  safe s w (decode_unknown X D fuel rec t wt d) (fun d' _ => dec_ok d').
Proof.
  intros [Hat Hx] Ht Hw Hs. unfold decode_unknown.
  assert (Hskip : forall d s w, dec_ok d -> inv w -> sok s ->
            safe s w (pb_skip_field X wt ;; ret d) (fun d' _ => dec_ok d')).
  { intros d0 s0 w2 H0 Hw0 Hs0. eapply safe_bind; [done|now apply safe_skip_field|].
    intros. now apply safe_ret. }
  destruct (extension_range_start d <=? t); [|now apply Hskip].
  destruct (near_search (fun f => PB_LTYPE (type f) =? PB_LTYPE_EXTENSION) (d_iter d) Hat)
    as (b & it' & E & Hat' & Hb).
  unfold find_extension_field. rewrite E. eapply safe_lift; [reflexivity|]. destruct b.
  - exfalso. pose proof Hat' as (i & Hi & Hn). rewrite (near_field _ _ _ _ loop_wf Hi Hn) in Hb.
    apply Z.eqb_eq in Hb. exact (fa_noext _ _ _ _ (loop_field i Hi) Hb).
  - cbv zeta. destruct (Z.leb_spec (2 ^ 32 - 1) t).
    + change (2 ^ 29) with 536870912 in Ht. zpow. lia.
    + now apply Hskip.
Qed.

Lemma safe_known wt d s w :
  dec_ok d -> inv w -> sok s -> bytes_left s + Z.of_nat n < Z.of_nat fuel ->
  safe s w (decode_known X D fuel rec fields wt d) (fun d' _ => dec_ok d').
Proof.
  intros [Hat Hx] Hw Hs Hf. unfold decode_known. cbv zeta.
  eapply (safe_bind _ _ _ _ (fun d' _ => dec_ok d')); [done| |].
  - destruct (Z.eqb_spec (PB_HTYPE (type (it_field (d_iter d)))) PB_HTYPE_REPEATED) as [Er|Er];
      cbn [andb]; [|now apply safe_ret].
    destruct (_ =? _); [|now apply safe_ret].
    assert (Hat' : at_field (set_psize addr_fixed_count (d_iter d))).
    { destruct Hat as (i & Hi & Hn). exists i. split; [done|]. right.
      rewrite (near_field _ _ _ _ loop_wf Hi Hn) in Er. split; [done|].
      now destruct Hn as [->|[_ ->]]. }
    case_bool_decide; [now apply safe_ret|].
    destruct (fixed_count_open fields d); [now apply safe_error|].
    apply safe_ret; [done|done|]. split; [exact Hat'|done].
  - intros d' s1 w1 Hw1 Hs1 (_ & L1 & _) [Hat' Hx'].
    eapply safe_bind; [done|apply safe_decode_field; auto; lia|].
    intros r s2 w2 Hw2 Hs2 _ [H1 H2]. apply safe_ret; [done|done|]. now split.
Qed.

Lemma wp_decode_tag s w :
  inv w -> sok s ->
  wp (pb_decode_tag X) (fun o s' w' =>
    inv w' /\
    match o with
    | Some (TagOk t _) => adv s s' /\ 0 <= t < 2 ^ 29 /\ bytes_left s' < bytes_left s
    | Some (TagFalse true) => adv s s'
    | Some (TagFalse false) => weak s s'
    | None => False
    end) s w.
Proof.
  intros Hw Hs. apply wp_bind. eapply wp_mono; [now apply safe_varint32_eof|].
  intros [[[v|] e]|] s' w' [Hw' H]; [| |done].
  - destruct H as (Ha & Hv & Hlt). destruct (v =? 0); apply wp_ret; (split; [done|]); [done|].
    split; [done|]. split; [|done]. rewrite shiftr_div by lia.
    change (2 ^ 29) with 536870912. zpow.
    split; [apply Z.div_pos; lia|apply Z.div_lt_upper_bound; lia].
  - destruct e; apply wp_ret; (split; [done|]); tauto.
Qed.

Lemma safe_decode_loop k d s w :
  dec_ok d -> inv w -> sok s -> bytes_left s < Z.of_nat k ->
  bytes_left s + Z.of_nat n <= Z.of_nat fuel ->
  safe s w (decode_loop X D fuel rec k fields d) (fun d' _ => dec_ok d').
Proof.
  revert d s w; induction k as [|k IH]; intros d s w Hd Hw Hs Hk Hf.
  { destruct Hs. lia. }
  cbn [decode_loop]. apply safe_get. destruct (bytes_left s =? 0); [now apply safe_ret|].
  apply wp_bind. eapply wp_mono; [now apply wp_decode_tag|].
  intros [[t wt|[|]]|] s1 w1 [Hw1 H]; [| | |done].
  - destruct H as (Ha & Ht & Hlt). pose proof (adv_sok _ _ Hs Ha) as Hs1.
    destruct Hd as [Hat Hx].
    destruct (near_search (field_matches t) (d_iter d) Hat) as (b & it' & E & Hat' & _).
    assert (Hrest : safe s1 w1
      (let* r := lift_res (pb_field_iter_find (d_iter d) t) in
       let '(found, it) := r in
       let d := mk_dec it (fields_seen d) (extension_range_start d)
                  (fixed_count_field d) (fixed_count_size d) in
       let* d := if negb found then decode_unknown X D fuel rec t wt d
                 else decode_known X D fuel rec fields wt d in
       decode_loop X D fuel rec k fields d) (fun d' _ => dec_ok d')).
    { unfold pb_field_iter_find. rewrite E. eapply safe_lift; [reflexivity|]. cbv zeta.
      eapply (safe_bind _ _ _ _ (fun d' _ => dec_ok d')); [done| |].
      - destruct b; cbn [negb]; [apply safe_known|apply safe_unknown]; try done; lia.
      - intros d' s2 w2 Hw2 Hs2 (_ & L2 & _) Hd'. apply IH; [done..|lia|lia]. }
    eapply wp_mono; [exact Hrest|]. intros [d'|] s2 w2 [Hw2 H2]; (split; [done|]).
    + destruct H2. split; [now apply (adv_trans s s1)|done].
    + now apply (adv_weak s s1).
  - apply wp_ret. split; [done|]. now split.
  - apply wp_fail. now split.
Qed.

Lemma safe_decode_message s w :
  inv w -> sok s -> bytes_left s + Z.of_nat n <= Z.of_nat fuel ->
  safe s w (decode_message X D fuel rec fields dest) (fun _ _ => True).
Proof.
  intros Hw Hs Hf. unfold decode_message. cbv zeta.
  pose proof (layout_nonempty (S n) fields sz Hl) as Hne.
  eapply safe_bind; [done|apply safe_decode_loop; [|done|done|lia|lia]|].
  { split; [|cbn; lia]. exists 0%nat. split; [done|]. now left. }
  intros d s1 w1 Hw1 Hs1 _ [Hat Hx]. destruct (fixed_count_open fields d); [now apply safe_error|].
  destruct (required_count_ok (d_iter d) Hat) as [[[count last] it] E].
  rewrite E. eapply safe_lift; [reflexivity|]. cbv beta iota zeta.
  match goal with |- safe _ _ (if ?c then _ else _) _ => destruct c end;
    [now apply safe_ret|now apply safe_error].
Qed.
End Loop.
End Rec.

(** ** Messages *)

Lemma safe_noinit fuel n fields sz dest s w :
  layout D (w_mem w0) n fields sz = true -> A <= dest -> dest + sz <= A + N -> inv w -> sok s ->
  bytes_left s + Z.of_nat n <= Z.of_nat fuel ->
  safe s w (pb_decode_noinit X D fuel fields dest) (fun _ _ => True).
Proof.
  revert n fields sz dest s w.
  induction fuel as [|fuel IH]; intros n fields sz dest s w Hl Hd1 Hd2 Hw Hs Hf;
    (destruct n as [|n]; [done|]).
  { destruct Hs. lia. }
  cbn [pb_decode_noinit]. apply (safe_decode_message n fuel _) with (sz := sz); auto; [|lia].
  intros sf sz' d s' w' Hl' H1 H2 Hw' Hs' Hf'. apply (IH n sf sz'); auto. lia.
Qed.

Lemma safe_decode fuel n fields sz dest s w :
  layout D (w_mem w0) n fields sz = true -> A <= dest -> dest + sz <= A + N -> inv w -> sok s ->
  bytes_left s + Z.of_nat n < Z.of_nat fuel ->
  safe s w (pb_decode X D fuel fields dest) (fun _ _ => True).
Proof.
  intros Hl Hd1 Hd2 Hw Hs Hf. apply (safe_decode_with n fuel _) with (sz := sz); auto.
  intros sf sz' d s' w' Hl' H1 H2 Hw' Hs' Hf'. apply (safe_noinit fuel n sf sz'); auto. lia.
Qed.
End Safe.
