(* ===== verification/PbDecodeProps.v ===== *)
(** * nanopb: properties of the decoder

    Safety of decoding untrusted bytes, and round trips of the wire-level
    writers and readers. *)
From Stdlib Require Import ZArith Lia Bool List String.
From stdpp Require Import base list gmap numbers.
From S2P Require Import Prelude CMem Leb128 PbCommon PbEncode PbDecode PbWire PbEmits.
From S2P Require Import PbEncodeSpec PbEncodeProps PbSafe.

(** C19: whatever bytes the stream delivers, decoding a message of statically
    allocated fields into a structure returns - it neither runs out of fuel nor
    touches unmapped memory - and writes only inside the structure; the heap is
    not used. *)
Theorem pb_decode_safe X D fuel n fields sz dest s w :
  layout D (w_mem w) n fields sz = true -> 0 < dest ->
  mapped (w_mem w) dest sz -> bytes_ok (w_mem w) ->
  is_callback s = ICB_buf_read -> 0 <= bytes_left s < 2 ^ 64 ->
  src_ok w (is_state s) (bytes_left s) ->
  bytes_left s + Z.of_nat n < Z.of_nat fuel ->
  exists o s' w', pb_decode X D fuel fields dest s w = Ret (o, s', w') /\
    w_heap w' = w_heap w /\ frame (w_mem w) (w_mem w') dest sz /\ bytes_ok (w_mem w') /\
    0 <= bytes_left s' <= bytes_left s.
Proof.
  intros Hl Hd Hm Hb Hc Hleft Hsrc Hf.
  assert (Hs : sok w s) by now constructor.
  pose proof (safe_decode X D w dest sz Hm Hd fuel n fields sz dest s w Hl ltac:(lia) ltac:(lia)) as H.
  unfold safe, wp in H.
  destruct (pb_decode X D fuel fields dest s w) as [[[o s'] w']| |];
    [|destruct H; [constructor; [done|apply frame_refl|done]|done|lia]..].
  destruct H as [[Hh Hfr Hb'] Ho]; [constructor; [done|apply frame_refl|done]|done|lia|].
  exists o, s', w'. do 4 (split; [done|]).
  destruct o; [destruct Ho as [(_ & L & _) _]|destruct Ho as [_ L]]; lia.
Qed.

(** An input that is not a message: a truncated string, after the tag of a field
    that does not exist. *)
Definition bad_input : list Z := [0x4a; 200; 1; 2].

Lemma pb_decode_safe_witness :
  exists o s' w',
    pb_decode no_dec_externs msg_desc 10 msg_fields 5000
      (pb_istream_from_buffer (SrcLocal bad_input) 4) (mk_world msg_mem no_heap) = Ret (o, s', w') /\
    w_heap w' = no_heap /\ frame msg_mem (w_mem w') 5000 44 /\ bytes_ok (w_mem w') /\
    0 <= bytes_left s' <= 4.
Proof.
  apply (pb_decode_safe no_dec_externs msg_desc 10 3 msg_fields 44 5000
           (pb_istream_from_buffer (SrcLocal bad_input) 4) (mk_world msg_mem no_heap)).
  - vm_compute. reflexivity.
  - lia.
  - apply (mapped_load _ 5000 44 msg_struct). vm_compute. reflexivity.
  - apply bytes_okb_ok. vm_compute. reflexivity.
  - reflexivity.
  - cbn. zpow. lia.
  - cbn. split; [lia|]. repeat constructor; lia.
  - cbn. lia.
Defined.

(** ** Round trips *)

(** The bytes that were written are read back. *)
Lemma written_bytes mm buf l n h :
  load_bytes mm buf (length l) = Some l -> len l <= n < 2 ^ 64 ->
  has_bytes (pb_istream_from_buffer (SrcMem buf) n) (mk_world mm h) l.
Proof. intros H Hn. constructor; [done|cbn; lia|exact H]. Qed.

(** [pb_decode_varint] returns the value [pb_encode_varint] wrote, and stops
    right after its bytes. *)
Theorem varint_roundtrip XE XD m h v mm buf size :
  0 <= v < 2 ^ 64 -> buffer_for m mm buf size -> 10 <= size ->
  exists k mm',
    pb_encode_varint XE v (pb_ostream_from_buffer buf size) (mk_world mm h)
      = Ret (Some tt, mk_ostream OCB_buf_write (buf + k) size k None, mk_world mm' h) /\
    pb_decode_varint XD (pb_istream_from_buffer (SrcMem buf) size) (mk_world mm' h)
      = Ret (Some v, mk_istream ICB_buf_read (SrcMem (buf + k)) (size - k) None, mk_world mm' h).
Proof.
  intros Hv Hb Hs. destruct (varint_bytes_ok v Hv) as (H1 & H2 & H3 & H4).
  destruct (emits_buffer m h (pb_encode_varint XE v) tt (varint_bytes v) mm buf size)
    as (mm' & R & L & F); [now apply emits_varint|done|lia|].
  exists (len (varint_bytes v)), mm'. split; [exact R|].
  destruct Hb as (Hb & _).
  rewrite (decode_varint_string XD (varint_bytes v)); [|done| |lia].
  - rewrite H2, wrapu_small by done. done.
  - apply written_bytes; [done|]. zpow. lia.
Qed.

Lemma varint_roundtrip_witness :
  exists k mm',
    pb_encode_varint no_enc_externs (2 ^ 64 - 1) (pb_ostream_from_buffer 9000 64)
      (mk_world msg_mem_buf no_heap)
      = Ret (Some tt, mk_ostream OCB_buf_write (9000 + k) 64 k None, mk_world mm' no_heap) /\
    pb_decode_varint no_dec_externs (pb_istream_from_buffer (SrcMem 9000) 64) (mk_world mm' no_heap)
      = Ret (Some (2 ^ 64 - 1), mk_istream ICB_buf_read (SrcMem (9000 + k)) (64 - k) None,
             mk_world mm' no_heap).
Proof.
  apply (varint_roundtrip no_enc_externs no_dec_externs msg_mem); [zpow; lia|exact msg_buffer|lia].
Defined.

(** Undoing the zigzag code. *)
Lemma unzigzag v :
  - 2 ^ 63 <= v < 2 ^ 63 ->
  (if negb (Z.land (zigzag_spec v) 1 =? 0)
   then s64 (u64 (Z.lnot (Z.shiftr (zigzag_spec v) 1)))
   else s64 (Z.shiftr (zigzag_spec v) 1)) = v.
Proof.
  intros Hv. change (Z.land (zigzag_spec v) 1) with (Z.land (zigzag_spec v) (Z.ones 1)).
  rewrite Z.land_ones, shiftr_div by lia. change (2 ^ 1) with 2. unfold zigzag_spec.
  destruct (Z.ltb_spec v 0).
  - assert ((- 2 * v - 1) mod 2 = 1) as -> by (symmetry; apply Z.mod_unique with (- v - 1); lia).
    assert ((- 2 * v - 1) / 2 = - v - 1) as -> by (symmetry; apply Z.div_unique with 1; lia).
    cbn [Z.eqb negb]. unfold Z.lnot. rewrite wraps_wrapu by lia.
    rewrite wraps_small; [lia|lia|]. change (64 - 1) with 63. lia.
  - assert ((2 * v) mod 2 = 0) as -> by (symmetry; apply Z.mod_unique with v; lia).
    assert ((2 * v) / 2 = v) as -> by (symmetry; apply Z.div_unique with 0; lia).
    cbn [Z.eqb negb]. apply wraps_small; [lia|]. change (64 - 1) with 63. lia.
Qed.

(** every signed 64-bit value survives the zigzag encoding of
    [pb_encode_svarint] and the decoding of [pb_decode_svarint]. *)
Theorem svarint_roundtrip XE XD m h v mm buf size :
  - 2 ^ 63 <= v < 2 ^ 63 -> buffer_for m mm buf size -> 10 <= size ->
  exists k mm',
    pb_encode_svarint XE v (pb_ostream_from_buffer buf size) (mk_world mm h)
      = Ret (Some tt, mk_ostream OCB_buf_write (buf + k) size k None, mk_world mm' h) /\
    pb_decode_svarint XD (pb_istream_from_buffer (SrcMem buf) size) (mk_world mm' h)
      = Ret (Some v, mk_istream ICB_buf_read (SrcMem (buf + k)) (size - k) None, mk_world mm' h).
Proof.
  intros Hv Hb Hs. destruct (zigzag_correct v Hv) as [Ez Rz].
  unfold pb_encode_svarint. rewrite Ez in *. set (z := zigzag_spec v) in *.
  destruct (varint_bytes_ok z Rz) as (H1 & H2 & H3 & H4).
  destruct (emits_buffer m h (pb_encode_varint XE z) tt (varint_bytes z) mm buf size)
    as (mm' & R & L & F); [now apply emits_varint|done|lia|].
  exists (len (varint_bytes z)), mm'. split; [exact R|].
  destruct Hb as (Hb & _). unfold pb_decode_svarint, bind.
  rewrite (decode_varint_string XD (varint_bytes z)); [|done| |lia].
  - rewrite H2, wrapu_small by done. cbn [rbind]. pose proof (unzigzag v Hv) as Hu. fold z in Hu.
    destruct (negb _); unfold ret; rewrite Hu; done.
  - apply written_bytes; [done|]. zpow. lia.
Qed.

Lemma svarint_roundtrip_witness :
  exists k mm',
    pb_encode_svarint no_enc_externs (- 2 ^ 63) (pb_ostream_from_buffer 9000 64)
      (mk_world msg_mem_buf no_heap)
      = Ret (Some tt, mk_ostream OCB_buf_write (9000 + k) 64 k None, mk_world mm' no_heap) /\
    pb_decode_svarint no_dec_externs (pb_istream_from_buffer (SrcMem 9000) 64) (mk_world mm' no_heap)
      = Ret (Some (- 2 ^ 63), mk_istream ICB_buf_read (SrcMem (9000 + k)) (64 - k) None,
             mk_world mm' no_heap).
Proof.
  apply (svarint_roundtrip no_enc_externs no_dec_externs msg_mem); [zpow; lia|exact msg_buffer|lia].
Defined.

(** ** Tags *)

Lemma varint_bytes_short v n :
  0 <= v < 2 ^ (7 * Z.of_nat n) -> (0 < n <= 9)%nat -> (length (varint_bytes v) <= n)%nat.
Proof.
  intros Hv Hn. destruct (varint_digits_ok n v ltac:(lia) Hv) as (H1 & H2 & H3).
  pose proof (varint_digits_min 10 v (varint_digits n v) H1 H2) as H.
  assert (2 ^ (7 * Z.of_nat n) <= 2 ^ (7 * Z.of_nat 10)) by (apply Z.pow_le_mono_r; lia).
  specialize (H ltac:(lia) ltac:(lia)). unfold varint_bytes. lia.
Qed.

Lemma decode_varint32_value X v s w :
  0 <= v < 2 ^ 32 -> has_bytes s w (varint_bytes v) ->
  pb_decode_varint32_eof X s w
    = Ret (Some (Some v, false), consume (len (varint_bytes v)) s, w).
Proof.
  intros Hv Hs. destruct (varint_bytes_ok v ltac:(zpow; lia)) as (H1 & H2 & _).
  rewrite (decode_varint32_string X (varint_bytes v)); [|done|done|].
  - rewrite H2. cbv zeta. destruct (Z.ltb_spec v (2 ^ 32)); [done|lia].
  - apply varint_bytes_short; [|lia]. change (2 ^ (7 * Z.of_nat 5)) with 34359738368. zpow. lia.
Qed.

(** [pb_decode_tag] returns the field number and wire type that
    [pb_encode_tag] wrote, for every legal field number. *)
Theorem tag_roundtrip XE XD m h wt t mm buf size :
  0 < t < 2 ^ 29 -> 0 <= wt < 8 -> buffer_for m mm buf size -> 10 <= size ->
  exists k mm',
    pb_encode_tag XE wt t (pb_ostream_from_buffer buf size) (mk_world mm h)
      = Ret (Some tt, mk_ostream OCB_buf_write (buf + k) size k None, mk_world mm' h) /\
    pb_decode_tag XD (pb_istream_from_buffer (SrcMem buf) size) (mk_world mm' h)
      = Ret (Some (TagOk t wt), mk_istream ICB_buf_read (SrcMem (buf + k)) (size - k) None,
             mk_world mm' h).
Proof.
  intros Ht Hwt Hb Hs. change (2 ^ 29) with 536870912 in Ht.
  assert (Hv : 0 <= t * 8 + wt < 2 ^ 32) by (zpow; lia).
  destruct (varint_bytes_ok (t * 8 + wt) ltac:(zpow; lia)) as (H1 & H2 & H3 & H4).
  destruct (emits_buffer m h (pb_encode_tag XE wt t) tt (varint_bytes (t * 8 + wt)) mm buf size)
    as (mm' & R & L & F); [apply emits_tag; zpow; lia|done|lia|].
  exists (len (varint_bytes (t * 8 + wt))), mm'. split; [exact R|].
  destruct Hb as (Hb & _). unfold pb_decode_tag, bind.
  rewrite (decode_varint32_value XD (t * 8 + wt)) by (done || (apply written_bytes; [done|zpow; lia])).
  cbn [rbind]. destruct (Z.eqb_spec (t * 8 + wt) 0); [lia|]. unfold ret.
  rewrite shiftr_div by lia. change (Z.land (t * 8 + wt) 7) with (Z.land (t * 8 + wt) (Z.ones 3)).
  rewrite Z.land_ones by lia. change (2 ^ 3) with 8.
  replace ((t * 8 + wt) / 8) with t by (apply Z.div_unique with wt; lia).
  replace ((t * 8 + wt) mod 8) with wt by (apply Z.mod_unique with t; lia). done.
Qed.

Lemma tag_roundtrip_witness :
  exists k mm',
    pb_encode_tag no_enc_externs 2 1000 (pb_ostream_from_buffer 9000 64)
      (mk_world msg_mem_buf no_heap)
      = Ret (Some tt, mk_ostream OCB_buf_write (9000 + k) 64 k None, mk_world mm' no_heap) /\
    pb_decode_tag no_dec_externs (pb_istream_from_buffer (SrcMem 9000) 64) (mk_world mm' no_heap)
      = Ret (Some (TagOk 1000 2), mk_istream ICB_buf_read (SrcMem (9000 + k)) (64 - k) None,
             mk_world mm' no_heap).
Proof.
  apply (tag_roundtrip no_enc_externs no_dec_externs msg_mem);
    [change (2 ^ 29) with 536870912; lia|lia|exact msg_buffer|lia].
Defined.

(** ** 32-bit varints *)

(** a varint of at most five bytes is accepted by [pb_decode_varint32]
    exactly when its value fits in 32 bits, and the value is then returned; all
    its bytes are consumed either way. *)
Theorem varint32_short_exact X bs s w :
  is_varint bs -> has_bytes s w bs -> (length bs <= 5)%nat ->
  pb_decode_varint32 X s w =
    (if varint_val bs <? 2 ^ 32 then Ret (Some (varint_val bs), consume (len bs) s, w)
     else Ret (None, set_error "varint overflow" (consume (len bs) s), w)).
Proof.
  intros Hv Hs Hl. unfold pb_decode_varint32, bind.
  rewrite (decode_varint32_string X bs) by done. cbv zeta.
  destruct (varint_val bs <? 2 ^ 32); done.
Qed.

Lemma varint32_short_exact_witness :
  pb_decode_varint32 no_dec_externs
      (pb_istream_from_buffer (SrcLocal [255; 255; 255; 255; 31]) 5) (mk_world ∅ no_heap)
    = Ret (None, mk_istream ICB_buf_read (SrcLocal []) 0 (Some "varint overflow"%string),
           mk_world ∅ no_heap).
Proof.
  refine (varint32_short_exact no_dec_externs [255; 255; 255; 255; 31]
           (pb_istream_from_buffer (SrcLocal [255; 255; 255; 255; 31]) 5) (mk_world ∅ no_heap) _ _ _).
  - cbn. lia.
  - constructor; [done|cbn; zpow; lia|]. cbn. exists []. done.
  - cbn. lia.
Defined.

(** the overflow check is incomplete for longer varints: the six bytes
    80 80 80 80 F0 00 denote 30064771072, beyond 32 bits, and are accepted as 0,
    where the five-byte form of the same number is refused. *)
Theorem varint32_six_bytes_truncated :
  varint_val [0x80; 0x80; 0x80; 0x80; 0xF0; 0x00] = 30064771072 /\
  (forall X w, pb_decode_varint32 X
     (pb_istream_from_buffer (SrcLocal [0x80; 0x80; 0x80; 0x80; 0xF0; 0x00]) 6) w
   = Ret (Some 0, mk_istream ICB_buf_read (SrcLocal []) 0 None, w)) /\
  varint_val [0x80; 0x80; 0x80; 0x80; 0x70] = 30064771072 /\
  (forall X w, pb_decode_varint32 X
     (pb_istream_from_buffer (SrcLocal [0x80; 0x80; 0x80; 0x80; 0x70]) 5) w
   = Ret (None, mk_istream ICB_buf_read (SrcLocal []) 0 (Some "varint overflow"%string), w)).
Proof. repeat split; intros; reflexivity. Qed.

(** the shift counter of [pb_decode_varint32_eof] is eight bits wide and is
    not bounded: after 37 continuation bytes it has wrapped to 3, and the 38th
    byte is or-ed into the low bits of the result, so that a varint of 38 bytes
    that denotes 2^259 is accepted as 8. *)
Theorem varint32_counter_wraps :
  varint_val (repeat 0x80 37 ++ [1]) = 2 ^ 259 /\
  (forall X w, pb_decode_varint32 X
     (pb_istream_from_buffer (SrcLocal (repeat 0x80 37 ++ [1])) 38) w
   = Ret (Some 8, mk_istream ICB_buf_read (SrcLocal []) 0 None, w)).
Proof. split; [reflexivity|]. intros. reflexivity. Qed.

(** ** Skipping *)

(** The bytes of one value of a wire type. *)
Definition value_bytes (wt : Z) (l : list Z) : Prop :=
  wt = PB_WT_VARINT /\ is_varint l \/
  wt = PB_WT_64BIT /\ length l = 8%nat \/
  wt = PB_WT_32BIT /\ length l = 4%nat \/
  wt = PB_WT_STRING /\ exists d, len d < 2 ^ 32 /\ l = varint_bytes (len d) ++ d.

Lemma skip_varint_loop_spec X bs fuel s w :
  is_varint bs -> has_bytes s w bs -> (length bs <= fuel)%nat ->
  skip_varint_loop X fuel s w = Ret (Some tt, consume (len bs) s, w).
Proof.
  revert fuel s; induction bs as [|b bs IH]; intros fuel s Hv Hs Hf; [done|].
  destruct fuel as [|fuel]; [simpl in Hf; lia|]. cbn [skip_varint_loop].
  pose proof Hs as Hs'. apply (has_bytes_app s w [b] bs) in Hs' as [Hb Hrest].
  unfold bind. pose proof (pb_read_local X s w [b] Hb ltac:(simpl; lia)) as R.
  simpl length in R, Hrest. change (Z.of_nat 1) with 1 in R, Hrest. rewrite R. cbn [rbind].
  destruct (is_varint_inv b bs Hv) as [Hrange Hcase]. rewrite more_bit by done.
  destruct Hcase as [[-> Hlt]|(Hne & Hge & Hv')].
  - destruct (Z.leb_spec 128 b); [lia|]. done.
  - destruct (Z.leb_spec 128 b); [|lia]. rewrite IH; [|done|done|simpl in Hf; lia].
    rewrite consume_add by lia. cbn [length]. do 3 f_equal. f_equal. lia.
Qed.

(** skipping an unknown field consumes exactly the bytes of its value, for
    each of the four wire types, and touches neither memory nor the error
    message. *)
Theorem pb_skip_field_exact X wt l s w :
  value_bytes wt l -> has_bytes s w l ->
  pb_skip_field X wt s w = Ret (Some tt, consume (len l) s, w).
Proof.
  intros Hval Hs. pose proof Hs as [Hc Hl Hd]. unfold pb_skip_field.
  assert (Hnull : forall n s, is_callback s = ICB_buf_read -> 0 <= n <= bytes_left s ->
            bytes_left s < 2 ^ 64 ->
            (pb_read X RNull n ;; ret tt) s w = Ret (Some tt, consume n s, w)).
  { intros n s0 Hc0 Hn0 Hb0. destruct (pb_read_null X s0 w n Hc0 Hn0 Hb0) as [l0 E].
    unfold bind. rewrite E. done. }
  destruct Hval as [[-> Hv]|[[-> Hv]|[[-> Hv]|[-> (d & Hdl & ->)]]]];
    unfold PB_WT_VARINT, PB_WT_64BIT, PB_WT_32BIT, PB_WT_STRING; cbn [Z.eqb Pos.eqb].
  - unfold pb_skip_varint, bind, get. cbn [rbind].
    apply skip_varint_loop_spec; [done|done|]. lia.
  - rewrite Hv. apply Hnull; [done|lia|lia].
  - rewrite Hv. apply Hnull; [done|lia|lia].
  - apply has_bytes_app in Hs as [H1 H2]. unfold pb_skip_string, pb_decode_varint32.
    unfold bind at 1 2. rewrite (decode_varint32_value X (len d)) by (done || lia).
    cbn [rbind fst]. unfold ret at 1. cbn [rbind].
    destruct H2 as [Hc2 Hl2 Hd2]. rewrite Hnull; [|done|lia|lia].
    rewrite consume_add by lia. rewrite length_app, Nat2Z.inj_add. done.
Qed.

Lemma pb_skip_field_exact_witness :
  pb_skip_field no_dec_externs PB_WT_STRING
      (pb_istream_from_buffer (SrcLocal [3; 65; 66; 67; 0x08]) 5) (mk_world ∅ no_heap)
    = Ret (Some tt, mk_istream ICB_buf_read (SrcLocal [0x08]) 1 None, mk_world ∅ no_heap).
Proof.
  refine (pb_skip_field_exact no_dec_externs PB_WT_STRING [3; 65; 66; 67]
            (pb_istream_from_buffer (SrcLocal [3; 65; 66; 67; 0x08]) 5) (mk_world ∅ no_heap) _ _).
  - right. right. right. split; [done|]. exists [65; 66; 67]. split; [cbn; zpow; lia|done].
  - constructor; [done|cbn; zpow; lia|]. cbn. now exists [0x08].
Defined.

(** ** The field iterator *)

(** from any position, [pb_field_iter_find] terminates; it stops at a field
    with the wanted tag if the message type has one, else it reports failure at
    the position where it started; the data and size pointers it leaves are the
    ones a walk from the beginning computes. *)
Theorem pb_field_iter_find_correct fields dest t n :
  fields_wf fields -> (n < length fields)%nat ->
  exists b k,
    pb_field_iter_find (iter_at fields dest n) t = Ret (b, iter_at fields dest k) /\
    (k < length fields)%nat /\
    (b = true -> tag (field_at fields k) = t) /\
    (b = false -> k = n) /\
    (b = true <-> exists j, (j < length fields)%nat /\ tag (field_at fields j) = t /\
                   PB_LTYPE (type (field_at fields j)) <> PB_LTYPE_EXTENSION).
Proof.
  intros Hwf Hn. destruct (iter_find_at fields dest t n Hwf Hn) as (b & k & E & Hk & Hb).
  exists b, k. split; [done|]. split; [done|]. unfold field_matches in Hb. destruct b.
  - b2p. split; [done|]. split; [done|]. split; [|done]. intros _. exists k. auto.
  - destruct Hb as [-> Hb]. split; [done|]. split; [done|]. split; [done|].
    intros (j & Hj & Ht & He). specialize (Hb j Hj). rewrite Ht, Z.eqb_refl in Hb.
    apply Z.eqb_neq in He. now rewrite He in Hb.
Qed.

Lemma pb_field_iter_find_correct_witness :
  exists b k,
    pb_field_iter_find (iter_at msg_fields 5000 3) 2 = Ret (b, iter_at msg_fields 5000 k) /\
    (k < 5)%nat /\ (b = true -> tag (field_at msg_fields k) = 2) /\ (b = false -> k = 3%nat) /\
    (b = true <-> exists j, (j < 5)%nat /\ tag (field_at msg_fields j) = 2 /\
                   PB_LTYPE (type (field_at msg_fields j)) <> PB_LTYPE_EXTENSION).
Proof.
  apply (pb_field_iter_find_correct msg_fields 5000 2 3).
  - repeat constructor; discriminate.
  - cbn. lia.
Defined.

(** a message type without fields ends with the terminator, whose tag is 0,
    and the search for tag 0 finds it: the tag byte 0x01 (field number 0) in a
    message of an empty type is decoded as a bool into the first byte of a
    structure that has no members, instead of being refused. *)
Theorem empty_message_tag_zero :
  forall X D,
  pb_decode_noinit X D 3 [] 5000 (pb_istream_from_buffer (SrcLocal [0x01; 0x07]) 2)
      (mk_world {[5000 := 99]} no_heap)
    = Ret (Some tt, mk_istream ICB_buf_read (SrcLocal []) 0 None, mk_world {[5000 := 1]} no_heap).
Proof. intros. vm_compute. reflexivity. Qed.
