(* ===== verification/PbFieldProps.v ===== *)
(** * nanopb: decoding a field gives back the value that was encoded

    For each type of field that is not a submessage: the decoder of
    pb_decode.c, run on the bytes the encoder of pb_encode.c writes for a member
    of a structure, stores a member that has the same wire format, consumes
    exactly these bytes, and writes nothing outside the member. *)
From Stdlib Require Import ZArith Lia Bool List String.
From stdpp Require Import base list gmap numbers.
From S2P Require Import Prelude CMem Leb128 PbCommon PbEncode PbDecode PbWire PbEmits.
From S2P Require Import PbEncodeSpec PbDecodeProps.

(** Evaluates the widths of a member. *)
Ltac widths :=
  change (8 * 1) with 8 in *; change (8 * 2) with 16 in *; change (8 * 4) with 32 in *;
  change (8 * 8) with 64 in *; change (8 - 1) with 7 in *; change (16 - 1) with 15 in *;
  change (32 - 1) with 31 in *; change (64 - 1) with 63 in *.

Section Field.
Context (X : dec_externs).

Lemma rd_store m a n x m' :
  0 <= n -> 0 <= x < 2 ^ (8 * n) ->
  store_bytes m a (le_bytes (Z.to_nat n) x) = Some m' -> rd m' a n = Some x.
Proof.
  intros Hn Hx E. apply store_load_bytes in E. rewrite length_le_bytes in E.
  unfold rd. rewrite E. simpl. f_equal. rewrite le_val_bytes, Z2Nat.id by done.
  apply Z.mod_small. rewrite Z.pow_mul_r in Hx by lia. exact Hx.
Qed.

Lemma store_u_mapped (s : pb_istream) w dest n x :
  0 <= n -> mapped (w_mem w) dest n ->
  exists m', store_bytes (w_mem w) dest (le_bytes (Z.to_nat n) x) = Some m' /\
    store_u dest n x s w = Ret (Some tt, s, mk_world m' (w_heap w)).
Proof.
  intros Hn Hm. destruct (store_bytes_mapped (w_mem w) dest (le_bytes (Z.to_nat n) x)) as (m' & E & F).
  { rewrite length_le_bytes. intros y Hy. apply Hm. lia. }
  exists m'. split; [done|]. unfold store_u, store. now rewrite E.
Qed.

(** A varint that was written for [v]. *)
Lemma decode_varint_value v s w :
  0 <= v < 2 ^ 64 -> has_bytes s w (varint_bytes v) ->
  pb_decode_varint X s w = Ret (Some v, consume (len (varint_bytes v)) s, w).
Proof.
  intros Hv Hs. destruct (varint_bytes_ok v Hv) as (H1 & H2 & H3 & H4).
  rewrite (decode_varint_string X (varint_bytes v)) by done. now rewrite H2, wrapu_small.
Qed.

(** The three integer decoders, on a value that fits in the member. *)
Lemma dec_uvarint_ok f dest x s w :
  int_size (data_size f) = true -> 0 <= x < 2 ^ (8 * data_size f) ->
  has_bytes s w (varint_bytes x) -> mapped (w_mem w) dest (data_size f) ->
  exists m', store_bytes (w_mem w) dest (le_bytes (Z.to_nat (data_size f)) x) = Some m' /\
    pb_dec_uvarint X f dest s w
      = Ret (Some tt, consume (len (varint_bytes x)) s, mk_world m' (w_heap w)).
Proof.
  intros Hi Hx Hs Hm. destruct f as [tg ty dof so ds asz pt]. cbn [data_size] in *.
  unfold pb_dec_uvarint. cbn [data_size].
  assert (Hx64 : 0 <= x < 2 ^ 64) by (int_cases Hi; simpl in Hx; zpow; lia).
  destruct (store_u_mapped (consume (len (varint_bytes x)) s) w dest ds x
              ltac:(int_cases Hi; lia) Hm) as (m' & E & R).
  exists m'. split; [done|]. unfold bind at 1. rewrite (decode_varint_value x) by done. cbn [rbind].
  int_cases Hi; cbn [Z.eqb Pos.eqb]; unfold bind;
    rewrite ?(wrapu_small _ x) by (simpl in *; zpow; lia); rewrite R; cbn [rbind]; unfold ret;
    cbn [rbind]; rewrite Z.eqb_refl; done.
Qed.

(** A [n]-byte signed member. *)
Lemma wraps_mod n x : 0 <= x < 2 ^ (8 * n) -> int_size n = true ->
  wrapu (8 * n) (wraps (8 * n) x) = x.
Proof.
  intros Hx Hi. rewrite wrapu_wraps by (int_cases Hi; lia). now apply wrapu_small.
Qed.

Lemma dec_varint_ok f dest x s w :
  int_size (data_size f) = true -> 0 <= x < 2 ^ (8 * data_size f) ->
  has_bytes s w (varint_bytes (u64 (wraps (8 * data_size f) x))) ->
  mapped (w_mem w) dest (data_size f) ->
  exists m', store_bytes (w_mem w) dest (le_bytes (Z.to_nat (data_size f)) x) = Some m' /\
    pb_dec_varint X f dest s w
      = Ret (Some tt, consume (len (varint_bytes (u64 (wraps (8 * data_size f) x)))) s,
             mk_world m' (w_heap w)).
Proof.
  intros Hi Hx Hs Hm. destruct f as [tg ty dof so ds asz pt]. cbn [data_size] in *.
  unfold pb_dec_varint. cbn [data_size].
  pose proof (wraps_mod ds x Hx Hi) as Hmod.
  set (v := wraps (8 * ds) x) in *.
  assert (Hv : - 2 ^ (8 * ds - 1) <= v < 2 ^ (8 * ds - 1))
    by (apply wraps_range; int_cases Hi; lia).
  destruct (store_u_mapped (consume (len (varint_bytes (u64 v))) s) w dest ds x
              ltac:(int_cases Hi; lia) Hm) as (m' & E & R).
  exists m'. split; [done|]. unfold bind at 1.
  rewrite (decode_varint_value (u64 v)) by (done || (apply wrapu_range; lia)). cbn [rbind].
  rewrite !wraps_wrapu by lia.
  int_cases Hi; cbn [Z.eqb Pos.eqb]; unfold bind; widths;
    rewrite ?(wraps_small 64 v), ?(wraps_small 32 v), ?(wraps_small 16 v), ?(wraps_small 8 v)
      by (widths; simpl in *; lia);
    rewrite ?(wraps_small 64 v), ?(wraps_small 32 v), ?(wraps_small 16 v), ?(wraps_small 8 v)
      by (widths; simpl in *; lia); try rewrite Hmod in R; rewrite Hmod, R; cbn [rbind]; unfold ret; cbn [rbind];
    rewrite Z.eqb_refl; done.
Qed.

Lemma dec_svarint_ok f dest x s w :
  int_size (data_size f) = true -> 0 <= x < 2 ^ (8 * data_size f) ->
  has_bytes s w (varint_bytes (zigzag_spec (wraps (8 * data_size f) x))) ->
  mapped (w_mem w) dest (data_size f) ->
  exists m', store_bytes (w_mem w) dest (le_bytes (Z.to_nat (data_size f)) x) = Some m' /\
    pb_dec_svarint X f dest s w
      = Ret (Some tt, consume (len (varint_bytes (zigzag_spec (wraps (8 * data_size f) x)))) s,
             mk_world m' (w_heap w)).
Proof.
  intros Hi Hx Hs Hm. destruct f as [tg ty dof so ds asz pt]. cbn [data_size] in *.
  unfold pb_dec_svarint. cbn [data_size].
  pose proof (wraps_mod ds x Hx Hi) as Hmod.
  set (v := wraps (8 * ds) x) in *.
  assert (Hv : - 2 ^ (8 * ds - 1) <= v < 2 ^ (8 * ds - 1))
    by (apply wraps_range; int_cases Hi; lia).
  assert (Hv64 : - 2 ^ 63 <= v < 2 ^ 63) by (int_cases Hi; simpl in Hv; zpow; lia).
  destruct (zigzag_correct v Hv64) as [Ez Rz]. rewrite Ez in Rz.
  destruct (store_u_mapped (consume (len (varint_bytes (zigzag_spec v))) s) w dest ds x
              ltac:(int_cases Hi; lia) Hm) as (m' & E & R).
  exists m'. split; [done|]. unfold pb_decode_svarint. unfold bind at 1. unfold bind at 1.
  rewrite (decode_varint_value (zigzag_spec v)) by done. cbn [rbind].
  pose proof (unzigzag v Hv64) as Hu.
  assert (Hdec : (if negb (Z.land (zigzag_spec v) 1 =? 0)
      then ret (s64 (u64 (Z.lnot (Z.shiftr (zigzag_spec v) 1))))
      else ret (s64 (Z.shiftr (zigzag_spec v) 1)))
      (consume (len (varint_bytes (zigzag_spec v))) s) w
      = Ret (Some v, consume (len (varint_bytes (zigzag_spec v))) s, w)).
  { destruct (negb _); unfold ret; now rewrite Hu. }
  rewrite Hdec. cbn [rbind].
  int_cases Hi; cbn [Z.eqb Pos.eqb]; unfold bind; widths;
    rewrite ?(wraps_small 64 v), ?(wraps_small 32 v), ?(wraps_small 16 v), ?(wraps_small 8 v)
      by (widths; simpl in *; lia); try rewrite Hmod in R; rewrite Hmod, R; cbn [rbind]; unfold ret; cbn [rbind];
    rewrite Z.eqb_refl; done.
Qed.

Lemma dec_varint32_value v s w :
  0 <= v < 2 ^ 32 -> has_bytes s w (varint_bytes v) ->
  pb_decode_varint32 X s w = Ret (Some v, consume (len (varint_bytes v)) s, w).
Proof.
  intros Hv Hs. unfold pb_decode_varint32, bind. now rewrite (decode_varint32_value X v).
Qed.

Lemma dec_bool_ok f dest b s w :
  b = 0 \/ b = 1 -> has_bytes s w (varint_bytes b) -> mapped (w_mem w) dest 1 ->
  exists m', store_bytes (w_mem w) dest (le_bytes 1 b) = Some m' /\
    pb_dec_bool X f dest s w
      = Ret (Some tt, consume (len (varint_bytes b)) s, mk_world m' (w_heap w)).
Proof.
  intros Hb Hs Hm.
  destruct (store_u_mapped (consume (len (varint_bytes b)) s) w dest 1 b ltac:(lia) Hm)
    as (m' & E & R).
  exists m'. split; [done|]. unfold pb_dec_bool, bind.
  rewrite (dec_varint32_value b) by (done || (zpow; lia)). cbn [rbind].
  unfold sizeof_bool. replace (if negb (b =? 0) then 1 else 0) with b; [exact R|].
  destruct Hb as [->| ->]; done.
Qed.

(** Or-ing the bytes of a little-endian number. *)
Lemma lor_le32 b0 b1 b2 b3 :
  is_bytes [b0; b1; b2; b3] ->
  Z.lor (Z.lor (Z.lor (Z.shiftl b0 0) (Z.shiftl b1 8)) (Z.shiftl b2 16)) (Z.shiftl b3 24)
    = le_val [b0; b1; b2; b3].
Proof.
  intros H. unfold is_bytes in H. rewrite !List.Forall_cons_iff in H. unfold is_byte in H.
  destruct H as (H0 & H1 & H2 & H3 & _). rewrite Z.shiftl_0_r.
  rewrite (lor_shiftl_add b0 b1 8) by (zpow; lia).
  rewrite (lor_shiftl_add _ b2 16) by (zpow; lia).
  rewrite (lor_shiftl_add _ b3 24) by (change (2 ^ 24) with 16777216; zpow; lia).
  cbn [le_val]. change (2 ^ 24) with 16777216. zpow. lia.
Qed.

Lemma lor_le64 b0 b1 b2 b3 b4 b5 b6 b7 :
  is_bytes [b0; b1; b2; b3; b4; b5; b6; b7] ->
  Z.lor (Z.lor (Z.lor (Z.lor (Z.lor (Z.lor (Z.lor
    (Z.shiftl b0 0) (Z.shiftl b1 8)) (Z.shiftl b2 16)) (Z.shiftl b3 24))
    (Z.shiftl b4 32)) (Z.shiftl b5 40)) (Z.shiftl b6 48)) (Z.shiftl b7 56)
    = le_val [b0; b1; b2; b3; b4; b5; b6; b7].
Proof.
  intros H. pose proof H as H'. unfold is_bytes in H. rewrite !List.Forall_cons_iff in H. unfold is_byte in H.
  destruct H as (H0 & H1 & H2 & H3 & H4 & H5 & H6 & H7 & _).
  rewrite (lor_le32 b0 b1 b2 b3) by (repeat constructor; unfold is_byte; lia).
  cbn [le_val].
  rewrite (lor_shiftl_add _ b4 32) by (zpow; lia).
  rewrite (lor_shiftl_add _ b5 40) by (change (2 ^ 40) with 1099511627776; zpow; lia).
  rewrite (lor_shiftl_add _ b6 48)
    by (change (2 ^ 40) with 1099511627776; change (2 ^ 48) with 281474976710656; zpow; lia).
  rewrite (lor_shiftl_add _ b7 56)
    by (change (2 ^ 40) with 1099511627776; change (2 ^ 48) with 281474976710656;
        change (2 ^ 56) with 72057594037927936; zpow; lia).
  change (2 ^ 40) with 1099511627776; change (2 ^ 48) with 281474976710656;
    change (2 ^ 56) with 72057594037927936. zpow. lia.
Qed.

Lemma dec_fixed32_ok f dest l s w :
  length l = 4%nat -> is_bytes l -> has_bytes s w l -> mapped (w_mem w) dest 4 ->
  exists m', store_bytes (w_mem w) dest l = Some m' /\
    pb_dec_fixed32 X f dest s w = Ret (Some tt, consume 4 s, mk_world m' (w_heap w)).
Proof.
  intros Hl Hb Hs Hm.
  destruct (store_u_mapped (consume 4 s) w dest 4 (le_val l) ltac:(lia) Hm) as (m' & E & R).
  change (Z.to_nat 4) with 4%nat in E. rewrite <- Hl, le_bytes_val in E by done.
  exists m'. split; [done|]. unfold pb_dec_fixed32, pb_decode_fixed32, bind.
  pose proof (pb_read_local X s w l Hs ltac:(lia)) as Rd. rewrite Hl in Rd.
  change (Z.of_nat 4) with 4 in Rd. rewrite Rd. cbn [rbind].
  do 5 (destruct l as [|? l]; try done). rewrite lor_le32 by done. exact R.
Qed.

Lemma dec_fixed64_ok f dest l s w :
  length l = 8%nat -> is_bytes l -> has_bytes s w l -> mapped (w_mem w) dest 8 ->
  exists m', store_bytes (w_mem w) dest l = Some m' /\
    pb_dec_fixed64 X f dest s w = Ret (Some tt, consume 8 s, mk_world m' (w_heap w)).
Proof.
  intros Hl Hb Hs Hm.
  destruct (store_u_mapped (consume 8 s) w dest 8 (le_val l) ltac:(lia) Hm) as (m' & E & R).
  change (Z.to_nat 8) with 8%nat in E. rewrite <- Hl, le_bytes_val in E by done.
  exists m'. split; [done|]. unfold pb_dec_fixed64, pb_decode_fixed64, bind.
  pose proof (pb_read_local X s w l Hs ltac:(lia)) as Rd. rewrite Hl in Rd.
  change (Z.of_nat 8) with 8 in Rd. rewrite Rd. cbn [rbind].
  do 9 (destruct l as [|? l]; try done). rewrite lor_le64 by done. exact R.
Qed.
End Field.

(** ** Numbers *)

(** What the destination holds after a store of the value's bytes. *)
Lemma stored_int m dest n x m' :
  0 <= n -> 0 <= x < 2 ^ (8 * n) ->
  store_bytes m dest (le_bytes (Z.to_nat n) x) = Some m' ->
  rd m' dest n = Some x /\ frame m m' dest n.
Proof.
  intros Hn Hx Es. split; [now apply (rd_store m)|].
  pose proof (store_bytes_frame _ _ _ _ Es) as F. now rewrite length_le_bytes, Z2Nat.id in F.
Qed.

Lemma stored_raw m dest l k m' :
  length l = k -> store_bytes m dest l = Some m' ->
  load_bytes m' dest k = Some l /\ frame m m' dest (Z.of_nat k).
Proof.
  intros <- Es. split; [exact (store_load_bytes _ _ _ _ Es)|exact (store_bytes_frame _ _ _ _ Es)].
Qed.

(** C26: for every numeric type of field (bool, the varint types of every width,
    fixed32, fixed64): decoding the encoded value of a member stores, in the
    destination member, a value with the same encoding, consumes exactly its
    bytes and writes only that member. *)
Theorem scalar_roundtrip X D fuel rec sub m f src l dest s w :
  PB_LTYPE (type f) <= PB_LTYPE_LAST_PACKABLE -> bytes_ok m ->
  item_wire D m sub f src = Some l ->
  (PB_LTYPE (type f) = PB_LTYPE_BOOL -> data_size f = 1) ->
  (PB_LTYPE (type f) = PB_LTYPE_FIXED32 -> data_size f = 4) ->
  (PB_LTYPE (type f) = PB_LTYPE_FIXED64 -> data_size f = 8) ->
  has_bytes s w l -> mapped (w_mem w) dest (data_size f) ->
  exists func m',
    PB_DECODERS X D fuel rec (PB_LTYPE (type f)) = Ret func /\
    func f dest s w = Ret (Some tt, consume (len l) s, mk_world m' (w_heap w)) /\
    item_wire D m' sub f dest = Some l /\
    frame (w_mem w) m' dest (data_size f).
Proof.
  intros Hlt Hm H Hb1 Hb4 Hb8 Hs Hd. pose proof (item_wire_ltype D m sub f src l H) as Hin.
  unfold item_wire in *. cbv zeta in *. unfold PB_DECODERS. revert Hlt Hin H Hb1 Hb4 Hb8.
  generalize (PB_LTYPE (type f)). intros lt. ltypes. rewrite !elem_of_cons, elem_of_nil.
  intros Hlt Hin H Hb1 Hb4 Hb8; repeat destruct Hin as [->|Hin]; [..|done]; try lia;
    cbn [Z.eqb Pos.eqb andb] in H |- *; eexists.
  - rewrite (Hb1 eq_refl) in *. obind H b E. simplify_eq.
    destruct (dec_bool_ok X f dest (if b =? 0 then 0 else 1) s w) as (m' & Es & R);
      [destruct (b =? 0); auto|done|done|].
    destruct (stored_int _ dest 1 (if b =? 0 then 0 else 1) m' ltac:(lia)
                ltac:(destruct (b =? 0); simpl; lia) Es) as [Er F].
    exists m'. rewrite Er. do 2 (split; [done|]). split; [|done]. destruct (b =? 0); done.
  - destruct (int_size (data_size f)) eqn:Hi; [|done]. obind H x E. simplify_eq.
    assert (0 <= data_size f) by (int_cases Hi; lia).
    pose proof (rd_range m _ _ _ Hm ltac:(done) E) as Rx.
    destruct (dec_varint_ok X f dest x s w Hi Rx Hs Hd) as (m' & Es & R).
    destruct (stored_int _ _ _ _ _ ltac:(done) Rx Es) as [Er F].
    exists m'. rewrite Er. do 2 (split; [done|]). done.
  - destruct (int_size (data_size f)) eqn:Hi; [|done]. obind H x E. simplify_eq.
    assert (0 <= data_size f) by (int_cases Hi; lia).
    pose proof (rd_range m _ _ _ Hm ltac:(done) E) as Rx.
    destruct (dec_uvarint_ok X f dest x s w Hi Rx Hs Hd) as (m' & Es & R).
    destruct (stored_int _ _ _ _ _ ltac:(done) Rx Es) as [Er F].
    exists m'. rewrite Er. do 2 (split; [done|]). done.
  - destruct (int_size (data_size f)) eqn:Hi; [|done]. obind H x E. simplify_eq.
    assert (0 <= data_size f) by (int_cases Hi; lia).
    pose proof (rd_range m _ _ _ Hm ltac:(done) E) as Rx.
    destruct (dec_svarint_ok X f dest x s w Hi Rx Hs Hd) as (m' & Es & R).
    destruct (stored_int _ _ _ _ _ ltac:(done) Rx Es) as [Er F].
    exists m'. rewrite Er. do 2 (split; [done|]). done.
  - rewrite (Hb4 eq_refl) in *. pose proof (load_bytes_length _ _ _ _ H) as Hl.
    destruct (dec_fixed32_ok X f dest l s w Hl (load_bytes_is_bytes _ _ _ _ Hm H) Hs Hd)
      as (m' & Es & R).
    destruct (stored_raw _ _ _ _ _ Hl Es) as [El F].
    exists m'. rewrite Hl. do 2 (split; [done|]). done.
  - rewrite (Hb8 eq_refl) in *. pose proof (load_bytes_length _ _ _ _ H) as Hl.
    destruct (dec_fixed64_ok X f dest l s w Hl (load_bytes_is_bytes _ _ _ _ Hm H) Hs Hd)
      as (m' & Es & R).
    destruct (stored_raw _ _ _ _ _ Hl Es) as [El F].
    exists m'. rewrite Hl. do 2 (split; [done|]). done.
Qed.

(** A 16-bit [sint32] member that holds -300, decoded into another place. *)
Definition sfield : pb_field := mk_field 7 (PB_HTYPE_REQUIRED + PB_LTYPE_SVARINT) 0 0 2 0 0.

Lemma scalar_roundtrip_witness :
  exists func m',
    PB_DECODERS no_dec_externs ∅ 0 (fun _ _ => fail) 3 = Ret func /\
    func sfield 6000 (pb_istream_from_buffer (SrcLocal [0xd7; 4]) 2)
      (mk_world (block 6000 (zeros 2)) no_heap)
      = Ret (Some tt, mk_istream ICB_buf_read (SrcLocal []) 0 None, mk_world m' no_heap) /\
    item_wire ∅ m' (fun _ _ => None) sfield 6000 = Some [0xd7; 4] /\
    frame (block 6000 (zeros 2)) m' 6000 2.
Proof.
  refine (scalar_roundtrip no_dec_externs ∅ 0 (fun _ _ => fail) (fun _ _ => None)
    (block 5000 [212; 254]) sfield 5000 [0xd7; 4] 6000
    (pb_istream_from_buffer (SrcLocal [0xd7; 4]) 2) (mk_world (block 6000 (zeros 2)) no_heap)
    _ _ _ _ _ _ _ _).
  - vm_compute. discriminate.
  - apply bytes_okb_ok. vm_compute. reflexivity.
  - vm_compute. reflexivity.
  - vm_compute. discriminate.
  - vm_compute. discriminate.
  - vm_compute. discriminate.
  - constructor; [done|cbn; zpow; lia|]. cbn. now exists [].
  - apply (mapped_load _ 6000 2 [0; 0]). vm_compute. reflexivity.
Defined.

(** ** Strings and bytes *)

Lemma pb_read_mem X dest l s w :
  has_bytes s w l -> mapped (w_mem w) dest (len l) ->
  exists m', store_bytes (w_mem w) dest l = Some m' /\
    pb_read X (RMem dest) (len l) s w = Ret (Some l, consume (len l) s, mk_world m' (w_heap w)).
Proof.
  intros [Hc Hl Hd] Hm. destruct (store_bytes_mapped (w_mem w) dest l Hm) as (m' & E & F).
  exists m'. split; [done|]. unfold pb_read. destruct (Z.eqb_spec (len l) 0) as [E0|E0].
  { destruct l; [|simpl in E0; lia]. simpl in E. injection E as <-.
    simpl. rewrite consume_0. now destruct w. }
  unfold bind, get. cbn [rbind]. unfold pb_read_some, bind at 1, get at 1. cbn [rbind].
  destruct (Z.ltb_spec (bytes_left s) (len l)); [lia|].
  unfold bind, catch, call_read, bind, get at 1. cbn [rbind]. rewrite Hc.
  unfold buf_read, bind, get, put. cbn [rbind].
  set (s1 := set_is_state _ s).
  assert (Hd' : src_load (is_state s) (len l) s1 w = Ret (Some l, s1, w)).
  { pose proof (src_load_data w s l Hd) as E1. revert E1.
    destruct (is_state s) as [a|l']; simpl.
    - unfold load. destruct (load_bytes _ _ _); [|done]. simpl. intros [= ->]. done.
    - destruct (_ <? _); [done|]. intros [= ->]. done. }
  rewrite Hd'. cbn [rbind deliver]. unfold bind, store. rewrite E. simpl.
  unfold set_bytes_left, consume. simpl. rewrite wrapu_small by lia. done.
Qed.

(** The rest of the input is not where the field is stored. *)
Definition apart (s : pb_istream) (dest n : Z) : Prop :=
  match is_state s with
  | SrcMem a => a + bytes_left s <= dest \/ dest + n <= a
  | SrcLocal _ => True
  end.

Lemma has_bytes_frame s w m' l dest n :
  has_bytes s w l -> apart s dest n -> frame (w_mem w) m' dest n ->
  has_bytes s (mk_world m' (w_heap w)) l.
Proof.
  intros [Hc Hl Hd] Ha [_ F]. constructor; [done|done|]. unfold apart in Ha.
  destruct (is_state s) as [a|l']; simpl in *; [|done]. rewrite <- Hd. apply load_bytes_eq.
  intros x Hx. apply F. lia.
Qed.

Lemma apart_consume s k dest n :
  0 <= k -> apart s dest n -> apart (consume k s) dest n.
Proof. unfold apart. destruct s as [c [a|l] b e]; simpl; [lia|done]. Qed.

Lemma cstr_nonzero m fuel a room l :
  cstr m fuel a room = Some l -> Forall (fun c => c <> 0) l.
Proof.
  revert a room l; induction fuel as [|fuel IH]; intros a room l H; [done|]. simpl in H.
  destruct (0 <? room); [|simplify_eq; constructor].
  destruct (m !! a) as [c|]; [|done].
  destruct (Z.eqb_spec c 0); [simplify_eq; constructor|].
  destruct (cstr m fuel (a + 1) (room - 1)) as [l'|] eqn:E; simpl in H; [|done].
  simplify_eq. constructor; [done|]. eauto.
Qed.

Lemma cstr_intro m fuel a room l :
  load_bytes m a (length l + 1) = Some (l ++ [0]) -> Forall (fun c => c <> 0) l ->
  len l < room -> (length l < fuel)%nat -> cstr m fuel a room = Some l.
Proof.
  revert fuel a room; induction l as [|c l IH]; intros fuel a room H Hz Hr Hf;
    (destruct fuel as [|fuel]; [simpl in Hf; lia|]); simpl in H |- *;
    (destruct (Z.ltb_spec 0 room); [|simpl in Hr; lia]).
  - destruct (m !! a) as [c|]; [|done]. simpl in H. now simplify_eq.
  - destruct (m !! a) as [c'|]; [|done].
    destruct (load_bytes m (a + 1) (length l + 1)) as [l'|] eqn:E; [|done].
    simplify_eq. inversion Hz; subst. destruct (Z.eqb_spec c 0); [done|].
    rewrite (IH fuel (a + 1) (room - 1)); [done|done|done|simpl in Hr; lia|simpl in Hf; lia].
Qed.

(** a terminated string member survives the round trip: its characters and
    the terminator are stored in the destination. *)
Theorem string_roundtrip X D sub m f src chars l dest s w :
  PB_LTYPE (type f) = PB_LTYPE_STRING -> PB_ATYPE (type f) = PB_ATYPE_STATIC ->
  src <> 0 -> dest <> 0 -> data_size f < 2 ^ 32 ->
  cstr m (2 + size m) src (data_size f) = Some chars -> len chars < data_size f ->
  item_wire D m sub f src = Some l ->
  has_bytes s w l -> mapped (w_mem w) dest (data_size f) ->
  exists m',
    pb_dec_string X f dest s w = Ret (Some tt, consume (len l) s, mk_world m' (w_heap w)) /\
    load_bytes m' dest (length chars + 1) = Some (chars ++ [0]) /\
    item_wire D m' sub f dest = Some l /\
    frame (w_mem w) m' dest (data_size f).
Proof.
  intros Hlt Hat Hsrc Hdest Hds Hc Hlen H Hs Hd.
  pose proof (cstr_nonzero _ _ _ _ _ Hc) as Hnz.
  unfold item_wire in *. cbv zeta in *. rewrite Hlt, Hat in *. ltypes.
  cbn [Z.eqb Pos.eqb andb] in H |- *. change (PB_ATYPE_STATIC =? PB_ATYPE_POINTER) with false in *.
  apply Z.eqb_neq in Hsrc, Hdest. rewrite Hsrc in H. rewrite Hdest.
  rewrite Hc in H. simpl in H. unfold delimited in H.
  assert (len chars < 2 ^ 63) by (zpow; lia).
  destruct (Z.ltb_spec (len chars) (2 ^ 63)); [|lia]. simplify_eq.
  apply has_bytes_app in Hs as [Hs1 Hs2].
  destruct (pb_read_mem X dest chars _ w Hs2) as (m1 & E1 & R1); [eapply mapped_weaken; [exact Hd|lia|lia]|].
  set (s2 := consume (len chars) (consume (len (varint_bytes (len chars))) s)) in *.
  pose proof (store_bytes_frame _ _ _ _ E1) as F1.
  destruct (store_u_mapped s2 (mk_world m1 (w_heap w)) (dest + len chars) 1 0) as (m2 & E2 & R2); [lia| |].
  { cbn [w_mem]. apply (frame_mapped _ _ _ _ _ _ F1). eapply mapped_weaken; [exact Hd|lia|lia]. }
  cbn [w_mem w_heap] in E2, R2.
  assert (E12 : store_bytes (w_mem w) dest (chars ++ [0]) = Some m2)
    by (rewrite (store_bytes_app _ _ _ _ _ E1); exact E2).
  pose proof (store_load_bytes _ _ _ _ E12) as L. rewrite length_app in L.
  exists m2. split; [|split; [exact L|split]].
  - unfold pb_dec_string. unfold bind at 1.
    rewrite (dec_varint32_value X (len chars)) by (done || lia). cbn [rbind]. cbv zeta.
    rewrite wrapu_small by lia. destruct (Z.ltb_spec (len chars + 1) (len chars)); [lia|].
    rewrite Hat. change (PB_ATYPE_STATIC =? PB_ATYPE_POINTER) with false.
    destruct (Z.ltb_spec (data_size f) (len chars + 1)); [lia|].
    unfold bind at 1, ret at 1. cbn [rbind]. unfold bind at 1, catch. rewrite R1. cbn [rbind].
    unfold bind. rewrite R2. cbn [rbind]. unfold ret, s2. rewrite consume_add by lia.
    rewrite length_app, Nat2Z.inj_add. done.
  - rewrite (cstr_intro m2 _ dest (data_size f) chars); [|exact L|done|lia|].
    + simpl. unfold delimited. now rewrite (proj2 (Z.ltb_lt _ _)).
    + apply load_bytes_size in L. lia.
  - eapply frame_weaken; [exact (store_bytes_frame _ _ _ _ E12)|lia|rewrite length_app; simpl; lia].
Qed.

Definition str_field : pb_field := mk_field 2 (PB_HTYPE_REQUIRED + PB_LTYPE_STRING) 0 0 8 0 0.

Lemma string_roundtrip_witness :
  exists m',
    pb_dec_string no_dec_externs str_field 6000 (pb_istream_from_buffer (SrcLocal [2; 72; 105]) 3)
      (mk_world (block 6000 (zeros 8)) no_heap)
      = Ret (Some tt, mk_istream ICB_buf_read (SrcLocal []) 0 None, mk_world m' no_heap) /\
    load_bytes m' 6000 3 = Some [72; 105; 0] /\
    item_wire ∅ m' (fun _ _ => None) str_field 6000 = Some [2; 72; 105] /\
    frame (block 6000 (zeros 8)) m' 6000 8.
Proof.
  refine (string_roundtrip no_dec_externs ∅ (fun _ _ => None) (block 5000 [72; 105; 0; 9; 9; 9; 9; 9])
    str_field 5000 [72; 105] [2; 72; 105] 6000 (pb_istream_from_buffer (SrcLocal [2; 72; 105]) 3)
    (mk_world (block 6000 (zeros 8)) no_heap) _ _ _ _ _ _ _ _ _ _).
  - reflexivity.
  - reflexivity.
  - lia.
  - lia.
  - cbn. zpow. lia.
  - vm_compute. reflexivity.
  - cbn. lia.
  - vm_compute. reflexivity.
  - constructor; [done|cbn; zpow; lia|]. cbn. now exists [].
  - apply (mapped_load _ 6000 8 (zeros 8)). vm_compute. reflexivity.
Defined.

(** a bytes member survives the round trip: its length and contents are
    stored in the destination. *)
Theorem bytes_roundtrip X D sub m f src n data l dest s w :
  PB_LTYPE (type f) = PB_LTYPE_BYTES -> PB_ATYPE (type f) = PB_ATYPE_STATIC ->
  src <> 0 -> dest <> 0 -> data_size f < 2 ^ 32 -> bytes_ok m ->
  rd m src 4 = Some n -> load_bytes m (src + 4) (Z.to_nat n) = Some data ->
  item_wire D m sub f src = Some l ->
  has_bytes s w l -> apart s dest (data_size f) -> mapped (w_mem w) dest (data_size f) ->
  exists m',
    pb_dec_bytes X f dest s w = Ret (Some tt, consume (len l) s, mk_world m' (w_heap w)) /\
    rd m' dest 4 = Some n /\ load_bytes m' (dest + 4) (Z.to_nat n) = Some data /\
    item_wire D m' sub f dest = Some l /\
    frame (w_mem w) m' dest (data_size f).
Proof.
  intros Hlt Hat Hsrc Hdest Hds Hm Hn Hdata H Hs Hap Hd.
  pose proof (rd_range m src 4 n Hm ltac:(lia) Hn) as Rn. change (8 * 4) with 32 in Rn.
  pose proof (load_bytes_length _ _ _ _ Hdata) as Hlen.
  unfold item_wire in *. cbv zeta in *. rewrite Hlt, Hat in *. ltypes.
  cbn [Z.eqb Pos.eqb andb] in H |- *. change (PB_ATYPE_STATIC =? PB_ATYPE_STATIC) with true in *.
  apply Z.eqb_neq in Hsrc, Hdest. rewrite Hsrc in H. rewrite Hdest.
  rewrite Hn in H. simpl in H. destruct (Z.leb_spec (n + 4) (data_size f)) as [Hfit|]; [|done].
  cbn [negb] in H. rewrite Hdata in H. simpl in H.
  assert (n = len data) as -> by lia. unfold delimited in H.
  destruct (Z.ltb_spec (len data) (2 ^ 63)); [|zpow; lia]. simplify_eq.
  apply has_bytes_app in Hs as [Hs1 Hs2].
  set (s1 := consume (len (varint_bytes (len data))) s) in *.
  destruct (store_u_mapped s1 w dest 4 (len data)) as (m1 & E1 & R1);
    [lia|eapply mapped_weaken; [exact Hd|lia|lia]|].
  destruct (stored_int (w_mem w) dest 4 (len data) m1 ltac:(lia) ltac:(widths; lia) E1) as [Er1 F1].
  assert (Hs2' : has_bytes s1 (mk_world m1 (w_heap w)) data).
  { eapply has_bytes_frame; [exact Hs2|apply apart_consume; [lia|exact Hap]|].
    eapply frame_weaken; [exact F1|lia|lia]. }
  destruct (pb_read_mem X (dest + 4) data s1 (mk_world m1 (w_heap w)) Hs2') as (m2 & E2 & R2).
  { cbn [w_mem]. apply (frame_mapped _ _ _ _ _ _ F1). eapply mapped_weaken; [exact Hd|lia|lia]. }
  cbn [w_mem w_heap] in E2, R2. pose proof (store_bytes_frame _ _ _ _ E2) as F2.
  pose proof (store_load_bytes _ _ _ _ E2) as L2.
  assert (Er2 : rd m2 dest 4 = Some (len data)).
  { rewrite <- Er1. unfold rd. f_equal. apply load_bytes_eq. intros x Hx. apply F2. lia. }
  exists m2. rewrite Nat2Z.id, Er2. simpl. rewrite Nat2Z.id, L2. simpl.
  destruct (Z.leb_spec (len data + 4) (data_size f)); [|lia]. cbn [negb].
  split; [|split; [done|split; [done|split]]].
  - unfold pb_dec_bytes. unfold bind at 1.
    rewrite (dec_varint32_value X (len data)) by (done || lia). cbn [rbind]. cbv zeta.
    unfold PB_SIZE_MAX. destruct (Z.ltb_spec (2 ^ 32 - 1) (len data)); [lia|].
    unfold PB_BYTES_ARRAY_T_ALLOCSIZE, offsetof_bytes. rewrite wrapu_small by (zpow; lia).
    destruct (Z.ltb_spec (len data + 4) (len data)); [lia|].
    rewrite Hat. change (PB_ATYPE_STATIC =? PB_ATYPE_POINTER) with false.
    destruct (Z.ltb_spec (data_size f) (len data + 4)); [lia|].
    unfold bind at 1, ret at 1. cbn [rbind]. unfold bind, sizeof_pb_size_t. fold s1.
    rewrite R1. cbn [rbind]. rewrite R2. cbn [rbind]. unfold ret, s1.
    rewrite consume_add by lia. rewrite length_app, Nat2Z.inj_add. done.
  - unfold delimited. destruct (Z.ltb_spec (len data) (2 ^ 63)); [done|lia].
  - eapply frame_trans.
    + eapply frame_weaken; [exact F1|lia|lia].
    + eapply frame_weaken; [exact F2|lia|lia].
Qed.

Definition bytes_field : pb_field := mk_field 2 (PB_HTYPE_REQUIRED + PB_LTYPE_BYTES) 0 0 8 0 0.

Lemma bytes_roundtrip_witness :
  exists m',
    pb_dec_bytes no_dec_externs bytes_field 6000 (pb_istream_from_buffer (SrcLocal [2; 0; 255]) 3)
      (mk_world (block 6000 (zeros 8)) no_heap)
      = Ret (Some tt, mk_istream ICB_buf_read (SrcLocal []) 0 None, mk_world m' no_heap) /\
    rd m' 6000 4 = Some 2 /\ load_bytes m' 6004 2 = Some [0; 255] /\
    item_wire ∅ m' (fun _ _ => None) bytes_field 6000 = Some [2; 0; 255] /\
    frame (block 6000 (zeros 8)) m' 6000 8.
Proof.
  refine (bytes_roundtrip no_dec_externs ∅ (fun _ _ => None) (block 5000 [2; 0; 0; 0; 0; 255; 9; 9])
    bytes_field 5000 2 [0; 255] [2; 0; 255] 6000 (pb_istream_from_buffer (SrcLocal [2; 0; 255]) 3)
    (mk_world (block 6000 (zeros 8)) no_heap) _ _ _ _ _ _ _ _ _ _ _ _).
  - reflexivity.
  - reflexivity.
  - lia.
  - lia.
  - cbn. zpow. lia.
  - apply bytes_okb_ok. vm_compute. reflexivity.
  - vm_compute. reflexivity.
  - vm_compute. reflexivity.
  - vm_compute. reflexivity.
  - constructor; [done|cbn; zpow; lia|]. cbn. now exists [].
  - exact I.
  - apply (mapped_load _ 6000 8 (zeros 8)). vm_compute. reflexivity.
Defined.

(** a string that does not fit in its member, terminator included, is
    refused before anything is stored. *)
Theorem string_overflow_refused X f n rest dest s w :
  PB_ATYPE (type f) = PB_ATYPE_STATIC -> 0 <= n < 2 ^ 32 -> data_size f <= n ->
  has_bytes s w (varint_bytes n ++ rest) ->
  exists s', pb_dec_string X f dest s w = Ret (None, s', w).
Proof.
  intros Hat Hn Hds Hs. apply has_bytes_app in Hs as [Hs _].
  unfold pb_dec_string, bind at 1. rewrite (dec_varint32_value X n) by (done || lia). cbn [rbind].
  cbv zeta. destruct (Z.ltb_spec (u32 (n + 1)) n) as [|L].
  { eexists. reflexivity. }
  assert (E : u32 (n + 1) = n + 1).
  { destruct (Z.eq_dec n (2 ^ 32 - 1)) as [->|]; [vm_compute in L; now destruct L|].
    apply wrapu_small. lia. }
  rewrite E, Hat. change (PB_ATYPE_STATIC =? PB_ATYPE_POINTER) with false.
  destruct (Z.ltb_spec (data_size f) (n + 1)); [|lia]. eexists. reflexivity.
Qed.

Lemma string_overflow_refused_witness :
  exists s', pb_dec_string no_dec_externs str_field 6000
      (pb_istream_from_buffer (SrcLocal [8; 1; 2; 3; 4; 5; 6; 7; 8]) 9) (mk_world ∅ no_heap)
    = Ret (None, s', mk_world ∅ no_heap).
Proof.
  apply (string_overflow_refused no_dec_externs str_field 8 [1; 2; 3; 4; 5; 6; 7; 8]).
  - reflexivity.
  - zpow. lia.
  - cbn. lia.
  - constructor; [done|cbn; zpow; lia|]. cbn. now exists [].
Defined.
