(* ===== verification/PbMessageProps.v ===== *)
(** * nanopb: required fields, allocation and substreams *)
From Stdlib Require Import ZArith Lia Bool List String.
From stdpp Require Import base list gmap numbers.
From S2P Require Import Prelude CMem Leb128 PbCommon PbEncode PbDecode PbWire PbEmits.
From S2P Require Import PbEncodeSpec PbDecodeProps PbFieldProps.

(** ** The check for required fields *)

(** The bitmap after the fields at [its] have been decoded. *)
Definition marks (its : list pb_field_iter) : list Z :=
  fold_left (fun seen it => seen_required it seen) its [0; 0].

Definition idx_seen (i : Z) (its : list pb_field_iter) : bool :=
  existsb (fun it => required_field_index it =? i) its.

Lemma idx_seen_app i its it :
  idx_seen i (its ++ [it]) = idx_seen i its || (required_field_index it =? i).
Proof. unfold idx_seen. rewrite existsb_app. simpl. now rewrite orb_false_r. Qed.

Lemma testbit_mark a k j :
  0 <= k < 32 -> 0 <= j ->
  Z.testbit (Z.lor a (u32 (Z.shiftl 1 k))) j = Z.testbit a j || (k =? j).
Proof.
  intros Hk Hj. rewrite Z.lor_spec. f_equal.
  rewrite Z.shiftl_mul_pow2, Z.mul_1_l by lia.
  rewrite wrapu_small.
  - rewrite Z.pow2_bits_eqb by lia. done.
  - split; [apply Z.pow_nonneg; lia|apply Z.pow_lt_mono_r; lia].
Qed.

Lemma marks_spec its :
  Forall (fun it => PB_HTYPE (type (it_field it)) = PB_HTYPE_REQUIRED /\
                    0 <= required_field_index it < 64) its ->
  exists a b, marks its = [a; b] /\
    forall j, 0 <= j ->
      Z.testbit a j = (j <? 32) && idx_seen j its /\
      Z.testbit b j = (j <? 32) && idx_seen (32 + j) its.
Proof.
  induction its as [|it its IH] using rev_ind; intros H.
  { exists 0, 0. split; [done|]. intros j Hj. rewrite Z.bits_0. now rewrite !andb_false_r. }
  apply Forall_app in H as [H Hit]. inversion Hit as [|? ? [Hreq Hidx] _]; subst.
  destruct (IH H) as (a & b & E & Hab).
  assert (Em : marks (its ++ [it]) = seen_required it [a; b])
    by (unfold marks in *; rewrite fold_left_app; simpl; now rewrite E).
  unfold seen_required in Em. rewrite Hreq in Em. change (PB_HTYPE_REQUIRED =? PB_HTYPE_REQUIRED) with true in Em.
  destruct (Z.ltb_spec (required_field_index it) PB_MAX_REQUIRED_FIELDS) as [_|L];
    [|unfold PB_MAX_REQUIRED_FIELDS in L; lia]. cbn [andb] in Em.
  set (r := required_field_index it) in *.
  change 31 with (Z.ones 5) in Em. rewrite Z.land_ones, shiftr_div in Em by lia.
  change (2 ^ 5) with 32 in Em.
  assert (Hr : r / 32 = 0 /\ r mod 32 = r /\ r < 32 \/ r / 32 = 1 /\ r mod 32 = r - 32 /\ 32 <= r).
  { destruct (Z.lt_ge_cases r 32).
    - left. rewrite Z.div_small, Z.mod_small by lia. lia.
    - right. assert (r / 32 = 1) as E1 by (symmetry; apply Z.div_unique with (r - 32); lia).
      assert (r mod 32 = r - 32) by (symmetry; apply Z.mod_unique with 1; lia). lia. }
  destruct Hr as [(E1 & E2 & Hr)|(E1 & E2 & Hr)]; rewrite E1, E2 in Em; rewrite Em; simpl; eexists _, _; (split; [done|]);
    intros j Hj; destruct (Hab j Hj) as [Ha Hb]; rewrite !idx_seen_app; fold r;
    rewrite ?testbit_mark by lia; rewrite ?Ha, ?Hb; split.
  - destruct (Z.ltb_spec j 32); cbn [andb orb]; [done|]. apply Z.eqb_neq. lia.
  - destruct (Z.ltb_spec j 32); cbn [andb]; [|done]. rewrite (proj2 (Z.eqb_neq r (32 + j))) by lia.
    now rewrite orb_false_r.
  - destruct (Z.ltb_spec j 32); cbn [andb]; [|done]. rewrite (proj2 (Z.eqb_neq r j)) by lia.
    now rewrite orb_false_r.
  - destruct (Z.ltb_spec j 32); cbn [andb orb]; [|apply Z.eqb_neq; lia]. f_equal.
    destruct (Z.eqb_spec (r - 32) j), (Z.eqb_spec r (32 + j)); lia.
Qed.

(** A word all of whose bits from [k] on are clear is the mask of [k] bits
    exactly when its other bits are set. *)
Lemma eqb_ones a k :
  0 <= k -> (forall j, k <= j -> Z.testbit a j = false) ->
  (a =? Z.ones k) = true <-> forall j, 0 <= j < k -> Z.testbit a j = true.
Proof.
  intros Hk Hhi. rewrite Z.eqb_eq. split.
  - intros -> j Hj. rewrite Z.testbit_ones by lia.
    destruct (Z.leb_spec 0 j), (Z.ltb_spec j k); lia || done.
  - intros H. bitwise j Hj. rewrite Z.testbit_ones by lia.
    destruct (Z.leb_spec 0 j); [|lia]. destruct (Z.ltb_spec j k); [apply H; lia|now apply Hhi].
Qed.

(** A word of the bitmap, [P] saying which of its bits are set. *)
Lemma word_check x (P : Z -> bool) k :
  (forall j, 0 <= j -> Z.testbit x j = (j <? 32) && P j) -> 0 <= k <= 32 ->
  (forall j, k <= j < 32 -> P j = false) ->
  (x =? Z.ones k) = true <-> forall i, 0 <= i < k -> P i = true.
Proof.
  intros Hx Hk Hz. rewrite eqb_ones; [|lia|].
  - split; intros H j Hj; specialize (H j Hj);
      [rewrite Hx in H by lia|rewrite Hx by lia]; destruct (Z.ltb_spec j 32); lia || done.
  - intros j Hj. rewrite Hx by lia. destruct (Z.ltb_spec j 32); [|done]. cbn [andb]. apply Hz. lia.
Qed.

Lemma allbits_shift r : 0 <= r <= 32 -> Z.shiftr allbits (32 - r) = Z.ones r.
Proof.
  intros Hr. change allbits with (Z.ones 32). bitwise j Hj.
  rewrite Z.shiftr_spec, !Z.testbit_ones by lia.
  destruct (Z.leb_spec 0 (j + (32 - r))), (Z.ltb_spec (j + (32 - r)) 32), (Z.leb_spec 0 j),
    (Z.ltb_spec j r); lia || done.
Qed.

Lemma forall_split (P : Z -> Prop) k c :
  0 <= k <= c -> (forall j, 0 <= j < c -> P j) <->
    (forall j, 0 <= j < k -> P j) /\ (forall j, 0 <= j < c - k -> P (k + j)).
Proof.
  intros Hk. split.
  - intros H. split; intros j Hj; apply H; lia.
  - intros [H1 H2] j Hj. destruct (Z.lt_ge_cases j k); [apply H1; lia|].
    replace j with (k + (j - k)) by lia. apply H2. lia.
Qed.

(** for a message type with up to 64 required fields, the check at the end
    of [pb_decode_noinit] passes exactly when each of them has been decoded at
    least once. *)
Theorem check_required_correct its count :
  0 < count <= PB_MAX_REQUIRED_FIELDS ->
  Forall (fun it => PB_HTYPE (type (it_field it)) = PB_HTYPE_REQUIRED /\
                    0 <= required_field_index it < count) its ->
  check_required (marks its) count = true <->
  forall i, 0 <= i < count -> exists it, In it its /\ required_field_index it = i.
Proof.
  unfold PB_MAX_REQUIRED_FIELDS. intros Hc Hits.
  assert (Hits' : Forall (fun it => PB_HTYPE (type (it_field it)) = PB_HTYPE_REQUIRED /\
                    0 <= required_field_index it < 64) its)
    by (revert Hits; apply List.Forall_impl; cbn; intros it [? ?]; split; [done|lia]).
  destruct (marks_spec its Hits') as (a & b & E & Hab). rewrite E.
  assert (Hseen : forall i, idx_seen i its = true <->
                    exists it, In it its /\ required_field_index it = i).
  { intros i. unfold idx_seen. rewrite existsb_exists. split; intros (it & H1 & H2);
      exists it; (split; [done|]); now apply Z.eqb_eq. }
  assert (Hhigh : forall i, count <= i -> idx_seen i its = false).
  { intros i Hi. apply not_true_is_false. intros Hs. apply Hseen in Hs as (it & Hin & Hx).
    pose proof (proj1 (List.Forall_forall _ _) Hits it Hin) as [_ ?]. lia. }
  assert (Hgoal : (forall i, 0 <= i < count -> exists it, In it its /\ required_field_index it = i)
                  <-> (forall i, 0 <= i < count -> idx_seen i its = true))
    by (split; intros H i Hi; apply Hseen; auto).
  rewrite Hgoal. unfold check_required.
  change 31 with (Z.ones 5). rewrite Z.land_ones, shiftr_div by lia. change (2 ^ 5) with 32.
  pose proof (fun k => word_check a (fun i => idx_seen i its) k (fun j Hj => proj1 (Hab j Hj))) as Ha.
  pose proof (fun k => word_check b (fun i => idx_seen (32 + i) its) k (fun j Hj => proj2 (Hab j Hj))) as Hb.
  cbv beta in Ha, Hb.
  assert (Hc4 : count < 32 \/ count = 32 \/ 32 < count < 64 \/ count = 64) by lia.
  destruct Hc4 as [Hc1|[->|[Hc1| ->]]].
  - rewrite Z.div_small, Z.mod_small by lia. simpl. destruct (Z.eqb_spec count 0); [lia|].
    cbn [negb]. rewrite allbits_shift by lia. apply Ha; [lia|]. intros; apply Hhigh; lia.
  - simpl. rewrite !andb_true_r. change allbits with (Z.ones 32). apply Ha; [lia|]. lia.
  - assert (count / 32 = 1) as -> by (symmetry; apply Z.div_unique with (count - 32); lia).
    assert (count mod 32 = count - 32) as -> by (symmetry; apply Z.mod_unique with 1; lia).
    simpl. destruct (Z.eqb_spec (count - 32) 0); [lia|]. cbn [negb].
    rewrite andb_true_r, allbits_shift by lia. rewrite (forall_split _ 32 count) by lia.
    change allbits with (Z.ones 32). rewrite andb_true_iff.
    rewrite Ha by lia. rewrite Hb; [done|lia|]. intros; apply Hhigh; lia.
  - simpl. rewrite !andb_true_r, andb_true_iff. change allbits with (Z.ones 32).
    rewrite (forall_split _ 32 64) by lia. rewrite Ha by lia. now rewrite Hb by lia.
Qed.

Lemma check_required_correct_witness :
  check_required (marks [iter_at msg_fields 5000 4; iter_at msg_fields 5000 1]) 2 = true <->
  forall i, 0 <= i < 2 -> exists it,
    In it [iter_at msg_fields 5000 4; iter_at msg_fields 5000 1] /\ required_field_index it = i.
Proof.
  apply check_required_correct.
  - unfold PB_MAX_REQUIRED_FIELDS. lia.
  - repeat constructor; vm_compute; congruence.
Defined.

(** ** Allocation *)

Lemma map_block_lookup m a n x :
  map_block m a n !! x = if (a <=? x) && (x <? a + Z.of_nat n) then Some fresh_byte else m !! x.
Proof.
  revert a. induction n as [|n IH]; intros a; cbn [map_block].
  - destruct (Z.leb_spec a x), (Z.ltb_spec x (a + Z.of_nat 0)); (done || lia).
  - rewrite lookup_insert, IH.
    case_decide; destruct (Z.leb_spec a x), (Z.leb_spec (a + 1) x), (Z.ltb_spec x (a + 1 + Z.of_nat n)),
      (Z.ltb_spec x (a + Z.of_nat (S n))); (done || lia).
Qed.

Lemma unmap_block_lookup m a n x :
  unmap_block m a n !! x = if (a <=? x) && (x <? a + Z.of_nat n) then None else m !! x.
Proof.
  revert a. induction n as [|n IH]; intros a; cbn [unmap_block].
  - destruct (Z.leb_spec a x), (Z.ltb_spec x (a + Z.of_nat 0)); (done || lia).
  - rewrite lookup_delete, IH.
    case_decide; destruct (Z.leb_spec a x), (Z.leb_spec (a + 1) x), (Z.ltb_spec x (a + 1 + Z.of_nat n)),
      (Z.ltb_spec x (a + Z.of_nat (S n))); (done || lia).
Qed.

(** A pointer that may be given to [realloc]: NULL, or a block of [old] bytes. *)
Definition live_block (w : world) (ptr old : Z) : Prop :=
  ptr = 0 /\ old = 0 \/
  0 < ptr /\ 0 < old /\ h_blocks (w_heap w) !! ptr = Some old /\ ptr + old <= h_next (w_heap w) /\ mapped (w_mem w) ptr old.

(** The blocks after the block at [ptr] was replaced by a new one. *)
Definition moved_blocks (h : heap) (ptr size : Z) : gmap Z Z :=
  let blocks := <[h_next h := size]> (h_blocks h) in if ptr =? 0 then blocks else delete ptr blocks.

Lemma realloc_fails ptr old size w :
  live_block w ptr old -> h_limit (w_heap w) < h_next (w_heap w) + size -> c_realloc ptr size w = Ret (0, w).
Proof.
  intros Hb Hs. unfold c_realloc, c_malloc. rewrite (proj2 (Z.ltb_lt _ _) Hs).
  destruct Hb as [[-> _]|(H1 & _ & H3 & _)]; [done|]. destruct (Z.eqb_spec ptr 0); [lia|]. now rewrite H3.
Qed.

(** [realloc] moves the common prefix to a new block and gives up the old one. *)
Lemma realloc_moves ptr old size w (h := w_heap w) :
  live_block w ptr old -> 0 < h_next h -> 0 < size -> h_next h + size <= h_limit h ->
  exists m', c_realloc ptr size w =
      Ret (h_next h, mk_world m' (mk_heap (h_next h + size) (h_limit h) (moved_blocks h ptr size))) /\
    (forall i, 0 <= i < Z.min old size -> m' !! (h_next h + i) = w_mem w !! (ptr + i)) /\
    mapped m' (h_next h) size /\ (forall x, ptr <= x < ptr + old -> m' !! x = None) /\
    (forall x, ~ (ptr <= x < ptr + old) -> ~ (h_next h <= x < h_next h + size) -> m' !! x = w_mem w !! x).
Proof.
  intros Hb Hn Hs Hl. unfold c_realloc, c_malloc, moved_blocks. fold h.
  destruct (Z.ltb_spec (h_limit h) (h_next h + size)); [lia|]. set (m1 := map_block _ _ _).
  assert (M1 : forall x, m1 !! x = if (h_next h <=? x) && (x <? h_next h + size) then Some fresh_byte else w_mem w !! x).
  { intros x. unfold m1. rewrite map_block_lookup. now rewrite Z2Nat.id by lia. }
  destruct Hb as [[-> ->]|(Hp & Ho & Hbl & Hbn & Hm)].
  - change (0 =? 0) with true. cbv iota. exists m1. split; [reflexivity|]. split; [lia|]. split.
    { intros x Hx. rewrite M1. destruct (Z.leb_spec (h_next h) x), (Z.ltb_spec x (h_next h + size)); (lia || done). }
    split; [lia|]. intros x _ Hx. rewrite M1. destruct (Z.leb_spec (h_next h) x), (Z.ltb_spec x (h_next h + size)); (lia || done).
  - destruct (Z.eqb_spec ptr 0); [lia|]. fold h in Hbl. rewrite Hbl. destruct (Z.eqb_spec (h_next h) 0); [lia|]. cbn [w_mem w_heap].
    assert (Hold : forall x, ptr <= x < ptr + old -> m1 !! x = w_mem w !! x).
    { intros x Hx. rewrite M1. destruct (Z.leb_spec (h_next h) x); [unfold h in *; lia|done]. }
    destruct (load_bytes_mapped m1 ptr (Z.to_nat (Z.min old size))) as [data Ed].
    { intros x Hx. rewrite Hold by lia. apply Hm. lia. }
    rewrite Ed. cbn [of_option rbind]. pose proof (load_bytes_length _ _ _ _ Ed) as Hdl.
    destruct (store_bytes_mapped m1 (h_next h) data) as (m2 & E2 & F2).
    { intros x Hx. rewrite M1. destruct (Z.leb_spec (h_next h) x), (Z.ltb_spec x (h_next h + size)); (lia || done). }
    rewrite E2. cbn [of_option rbind]. unfold c_free. cbn [w_heap h_blocks w_mem h_next h_limit].
    destruct (Z.eqb_spec ptr 0); [lia|]. rewrite lookup_insert_ne by (unfold h in *; lia). rewrite Hbl.
    cbn [rbind]. eexists. split; [reflexivity|].
    assert (M3 : forall x, ~ (ptr <= x < ptr + old) -> unmap_block m2 ptr (Z.to_nat old) !! x = m2 !! x).
    { intros x Hx. rewrite unmap_block_lookup, Z2Nat.id by lia. destruct (Z.leb_spec ptr x), (Z.ltb_spec x (ptr + old)); (lia || done). }
    unfold h in Hbn |- *. split; [|split; [|split]].
    + intros i Hi. rewrite M3 by lia. pose proof (store_load_bytes _ _ _ _ E2) as Es. rewrite Hdl in Es.
      pose proof (load_bytes_lookup _ _ _ _ (Z.to_nat i) Es ltac:(lia)) as L1.
      pose proof (load_bytes_lookup _ _ _ _ (Z.to_nat i) Ed ltac:(lia)) as L2. rewrite Z2Nat.id in L1, L2 by lia.
      rewrite Hold in L2 by lia. unfold h in L1. congruence.
    + intros x Hx. rewrite M3 by lia. apply F2. rewrite M1. unfold h.
      destruct (Z.leb_spec (h_next (w_heap w)) x), (Z.ltb_spec x (h_next (w_heap w) + size)); (lia || done).
    + intros x Hx. rewrite unmap_block_lookup, Z2Nat.id by lia. destruct (Z.leb_spec ptr x), (Z.ltb_spec x (ptr + old)); (lia || done).
    + intros x Hx1 Hx2. rewrite M3 by done. destruct F2 as [_ F2]. rewrite F2 by (unfold h; lia). rewrite M1. unfold h.
      destruct (Z.leb_spec (h_next (w_heap w)) x), (Z.ltb_spec x (h_next (w_heap w) + size)); (lia || done).
Qed.

Lemma rd_mapped m a n x : 0 <= n -> rd m a n = Some x -> mapped m a n.
Proof.
  intros Hn H. apply rd_Some in H as (l & E & _). apply mapped_load in E. now rewrite Z2Nat.id in E.
Qed.

Lemma load_u_rd {S} a n x (s : S) w :
  rd (w_mem w) a n = Some x -> load_u a n s w = Ret (Some x, s, w).
Proof.
  intros H. apply rd_Some in H as (l & E & ->). unfold load_u, bind, load. rewrite E. done.
Qed.

(** C31: [allocate_field] gets the memory that it asks for.  Whether the pointer is
    NULL or has a block of [old] bytes, the call succeeds exactly if the product
    of count and element size, taken in the integers, is positive and the heap has
    that many bytes left; so a product that does not fit in [size_t] is refused,
    and none that fits.  Then the pointer holds the address of a new block of
    exactly that size, its first bytes are those of the old block, which is gone,
    and nothing else in memory changes.  A call that is refused changes
    nothing. *)
Theorem allocate_field_no_overflow pData ptr old ds n s w :
  0 <= ds < 2 ^ 64 -> 0 <= n < 2 ^ 64 -> rd (w_mem w) pData 8 = Some ptr -> live_block w ptr old ->
  pData + 8 <= ptr \/ ptr + old <= pData ->
  pData + 8 <= h_next (w_heap w) -> 0 < h_next (w_heap w) -> h_limit (w_heap w) < 2 ^ 64 ->
  let p := h_next (w_heap w) in
  exists o s' w', allocate_field pData ds n s w = Ret (o, s', w') /\
    (o = Some tt <-> 0 < n * ds /\ p + n * ds <= h_limit (w_heap w)) /\
    match o with
    | None => w' = w
    | Some _ =>
        rd (w_mem w') pData 8 = Some p /\ h_blocks (w_heap w') = moved_blocks (w_heap w) ptr (n * ds) /\
        mapped (w_mem w') p (n * ds) /\
        (forall i, 0 <= i < Z.min old (n * ds) -> w_mem w' !! (p + i) = w_mem w !! (ptr + i)) /\
        (forall x, ~ (pData <= x < pData + 8) -> ~ (ptr <= x < ptr + old) -> ~ (p <= x < p + n * ds) ->
           w_mem w' !! x = w_mem w !! x)
    end.
Proof.
  intros Hds Hn Hp Hb Hdis Hfar Hnext Hlim p. pose proof (rd_mapped _ _ 8 _ ltac:(lia) Hp) as Hm.
  unfold allocate_field, bind. unfold sizeof_ptr at 1. rewrite (load_u_rd _ _ _ _ _ Hp). cbn [rbind].
  destruct (Z.eqb_spec ds 0) as [->|Hd0].
  { eexists None, _, _. split; [reflexivity|]. split; [|done]. split; [done|lia]. }
  destruct (Z.eqb_spec n 0) as [->|Hn0].
  { eexists None, _, _. split; [reflexivity|]. split; [|done]. split; [done|lia]. }
  assert (Hpos : 0 < n * ds) by (apply Z.mul_pos_pos; lia). cbn [orb]. cbv zeta.
  match goal with |- context [if ?c then _ else _] => destruct c eqn:Eover end.
  { eexists None, _, _. split; [reflexivity|]. split; [|done]. split; [done|]. intros [_ Hs]. exfalso.
    apply andb_prop in Eover as [_ E2]. apply Z.ltb_lt in E2.
    pose proof (Z.mul_succ_div_gt (2 ^ 64 - 1) n ltac:(lia)). unfold p in Hs. nia. }
  assert (Hprod : n * ds < 2 ^ 64).
  { apply andb_false_iff in Eover as [E1|E1]; b2p; [zpow; nia|].
    pose proof (Z.mul_div_le (2 ^ 64 - 1) n ltac:(lia)). nia. }
  unfold get_world. cbn [rbind]. rewrite wrapu_small by lia. unfold lift_res.
  destruct (Z.le_gt_cases (p + n * ds) (h_limit (w_heap w))) as [Hfit|Hfull].
  - destruct (realloc_moves ptr old (n * ds) w Hb Hnext Hpos Hfit) as (m' & -> & Hcp & Hmap & _ & Hfr).
    cbn [rbind]. unfold put_world. cbn [rbind]. fold p. destruct (Z.eqb_spec p 0); [unfold p in *; lia|]. unfold sizeof_ptr.
    assert (Hm' : mapped m' pData 8).
    { intros x Hx. rewrite Hfr; [now apply Hm|lia|unfold p in *; lia]. }
    set (w1 := mk_world m' _). destruct (store_u_mapped s w1 pData 8 p) as (m2 & E2 & R2); [lia|done|].
    rewrite R2. eexists (Some tt), _, _. split; [reflexivity|]. split; [done|]. pose proof (store_bytes_frame _ _ _ _ E2) as [D2 F2].
    rewrite length_le_bytes in F2. change (Z.of_nat (Z.to_nat 8)) with 8 in F2. cbn [w_mem w_heap h_blocks w1] in *.
    split; [apply (rd_store m'); [lia|widths; unfold p in *; lia|exact E2]|]. split; [done|]. fold p in Hmap, Hcp, Hfr. split; [|split].
    + intros x Hx. apply D2, Hmap. done.
    + intros i Hi. rewrite F2 by (unfold p in *; lia). now apply Hcp.
    + intros x H1 H2 H3. rewrite F2 by lia. now apply Hfr.
  - rewrite (realloc_fails ptr old) by (done || unfold p in *; lia). cbn. destruct w. eexists None, _, _.
    split; [reflexivity|]. split; [|done]. split; [done|lia].
Qed.

(** An array of two elements of 4 bytes at 100000 grows to three. *)
Definition grow_world : world :=
  mk_world (block 5000 (le_bytes 8 100000) ∪ block 100000 [1; 2; 3; 4; 5; 6; 7; 8]) (mk_heap 100008 200000 {[100000 := 8]}).

Lemma allocate_field_no_overflow_witness :
  exists s' w', allocate_field 5000 4 3 (pb_istream_from_buffer (SrcLocal []) 0) grow_world = Ret (Some tt, s', w') /\
    rd (w_mem w') 5000 8 = Some 100008 /\ h_blocks (w_heap w') !! 100008 = Some 12 /\
    (forall i, 0 <= i < 8 -> w_mem w' !! (100008 + i) = w_mem grow_world !! (100000 + i)).
Proof.
  destruct (allocate_field_no_overflow 5000 100000 8 4 3 (pb_istream_from_buffer (SrcLocal []) 0) grow_world)
    as (o & s' & w' & E & Ho & H).
  - lia.
  - lia.
  - vm_compute. reflexivity.
  - right. split; [lia|]. split; [lia|]. split; [reflexivity|]. split; [vm_compute; discriminate|].
    intros x Hx. assert (C : forallb (fun x => bool_decide (is_Some (w_mem grow_world !! x))) (seqZ 100000 8) = true) by (vm_compute; reflexivity).
    rewrite forallb_forall in C. specialize (C x ltac:(apply list_elem_of_In, elem_of_seqZ; lia)). now apply bool_decide_eq_true in C.
  - left. lia.
  - vm_compute. discriminate.
  - reflexivity.
  - reflexivity.
  - cbv zeta in H. cbn [w_heap grow_world h_next h_limit] in Ho, H. destruct o as [[]|].
    + destruct H as (H1 & H2 & _ & H4 & _). exists s', w'. split; [exact E|]. split; [exact H1|].
      split; [rewrite H2; vm_compute; reflexivity|]. intros i Hi. apply H4. lia.
    + destruct Ho as [_ Ho]. discriminate Ho. lia.
Defined.

(** ** Length-delimited data *)

(** a substream covers exactly the bytes its length prefix announces; after
    any number of them have been read, closing it leaves the parent right after
    the last one. *)
Theorem substream_exact X d k rest s w :
  len d < 2 ^ 32 -> has_bytes s w (varint_bytes (len d) ++ d ++ rest) -> 0 <= k <= len d ->
  exists parent sub parent',
    pb_make_string_substream X s w = Ret (Some sub, parent, w) /\
    has_bytes sub w d /\ bytes_left sub = len d /\
    pb_close_string_substream X (consume k sub) parent w = Ret (Some tt, parent', w) /\
    parent' = consume (len (varint_bytes (len d) ++ d)) s /\
    has_bytes parent' w rest.
Proof.
  intros Hd Hs Hk. pose proof Hs as Hs0. rewrite app_assoc in Hs0.
  apply has_bytes_app in Hs0 as [_ Hrest].
  apply has_bytes_app in Hs as [H1 H2]. pose proof H2 as H3. apply has_bytes_app in H3 as [H3 _].
  set (p := len (varint_bytes (len d))) in *. set (s1 := consume p s) in *.
  pose proof (hb_left _ _ _ H2) as Hl2. rewrite length_app in Hl2.
  assert (Hmake : pb_make_string_substream X s w
    = Ret (Some (set_bytes_left (len d) s1), set_bytes_left (bytes_left s1 - len d) s1, w)).
  { unfold pb_make_string_substream, bind at 1. rewrite (dec_varint32_value X (len d)) by (done || lia).
    cbn [rbind]. unfold bind, get. cbn [rbind]. fold p. fold s1.
    destruct (Z.ltb_spec (bytes_left s1) (len d)); [lia|]. unfold put, ret. cbn [rbind].
    rewrite wrapu_small by lia. done. }
  eexists _, _, _. split; [exact Hmake|]. split; [|split; [done|]].
  { destruct H3. constructor; [done|cbn; zpow; lia|done]. }
  assert (Hclose : forall n sub, n = bytes_left sub -> is_callback sub = ICB_buf_read ->
    0 <= n < 2 ^ 64 -> is_errmsg sub = is_errmsg s ->
    src_advance (is_state sub) n = src_advance (is_state s1) (len d) ->
    pb_close_string_substream X sub (set_bytes_left (bytes_left s1 - len d) s1) w
      = Ret (Some tt, consume (len d) s1, w)).
  { intros n sub -> Hc Hn He Ha. unfold pb_close_string_substream.
    destruct (Z.eqb_spec (bytes_left sub) 0) as [E0|E0]; cbn [negb].
    - rewrite E0, src_advance_0 in Ha. unfold bind, ret, get, put. cbn [rbind].
      rewrite Ha, He. done.
    - destruct (pb_read_null X sub w (bytes_left sub)) as [l R]; [done|lia|lia|].
      unfold bind at 1, on_stream. rewrite R. cbn [rbind]. unfold bind, get, put. cbn.
      rewrite Ha, He. done. }
  split; [apply (Hclose (len d - k)); try done|].
  - apply H3.
  - zpow. lia.
  - cbn. rewrite src_advance_add by lia. f_equal. lia.
  - assert (E : consume (len d) s1 = consume (len (varint_bytes (len d) ++ d)) s).
    { unfold s1. rewrite consume_add by lia. f_equal. unfold p. rewrite length_app. lia. }
    rewrite E. split; [done|exact Hrest].
Qed.

Lemma substream_exact_witness :
  exists parent sub parent',
    pb_make_string_substream no_dec_externs
      (pb_istream_from_buffer (SrcLocal [3; 10; 20; 30; 99]) 5) (mk_world ∅ no_heap)
      = Ret (Some sub, parent, mk_world ∅ no_heap) /\
    has_bytes sub (mk_world ∅ no_heap) [10; 20; 30] /\ bytes_left sub = 3 /\
    pb_close_string_substream no_dec_externs (consume 1 sub) parent (mk_world ∅ no_heap)
      = Ret (Some tt, parent', mk_world ∅ no_heap) /\
    parent' = consume 4 (pb_istream_from_buffer (SrcLocal [3; 10; 20; 30; 99]) 5) /\
    has_bytes parent' (mk_world ∅ no_heap) [99].
Proof.
  apply (substream_exact no_dec_externs [10; 20; 30] 1 [99]).
  - cbn. zpow. lia.
  - constructor; [done|split; vm_compute; congruence|]. now exists [].
  - cbn. lia.
Defined.
