(* ===== verification/CRead.v ===== *)
(** * Read-only C code

    The unwinder of the crash reporter only reads the memory of the process:
    its functions work on local variables and structures of their caller.  A
    function is a computation over that local state [S] with the memory as a
    fixed argument.  Undefined behaviour (an access outside mapped memory, a
    signed overflow, a shift by too much) is [Fault]. *)
From Stdlib Require Import ZArith Lia Bool List.
From stdpp Require Import base list gmap numbers.
From S2P Require Import Prelude CMem.

Definition R (S A : Type) : Type := mem -> S -> res (A * S).

Section Reader.
Context {S : Type}.

Definition rd_ret {A} (a : A) : R S A := fun _ s => Ret (a, s).
Definition rd_bind {A B} (m : R S A) (k : A -> R S B) : R S B := fun g s =>
  rbind (m g s) (fun '(a, s') => k a g s').
Definition rd_fault {A} : R S A := fun _ _ => Fault.
Definition rd_nofuel {A} : R S A := fun _ _ => OutOfFuel.
Definition rd_get : R S S := fun _ s => Ret (s, s).
Definition rd_put (s : S) : R S unit := fun _ _ => Ret (tt, s).

(** [*( uintN_t* )a], little-endian. *)
Definition rd_load (a n : Z) : R S Z := fun g s =>
  rbind (of_option (load_bytes g a (Z.to_nat n))) (fun l => Ret (le_val l, s)).

(** Runs code that works on another variable, the part [s0] of the state. *)
Definition rd_on {S' A} (s0 : S') (m : R S' A) : R S (A * S') := fun g s =>
  rbind (m g s0) (fun r => Ret (r, s)).

(** [x << n] on a non-negative [int]: undefined for a count of 32 or more and
    for a result that is not an [int]. *)
Definition int_shl (x n : Z) : R S Z :=
  if (0 <=? n) && (n <? 32) && (0 <=? x) && (Z.shiftl x n <? 2 ^ 31)
  then rd_ret (Z.shiftl x n) else rd_fault.

(** [x + y] and [x * y] on [int64_t]: undefined when the result is not an [int64_t]. *)
Definition int64_check (x : Z) : R S Z :=
  if (- 2 ^ 63 <=? x) && (x <? 2 ^ 63) then rd_ret x else rd_fault.
Definition int64_add (x y : Z) : R S Z := int64_check (x + y).
Definition int64_mul (x y : Z) : R S Z := int64_check (x * y).

(** ** Weakest preconditions

    [rwp ok m Q]: [m] terminates, and ends in [Q] unless it runs into
    undefined behaviour, which it may only where [ok] holds.  [rwp False] is
    total correctness, [rwp True] termination whatever the memory holds. *)
Definition rwp (ok : Prop) {A} (m : R S A) (Q : A -> S -> Prop) (g : mem) (s : S) : Prop :=
  match m g s with
  | Ret (a, s') => Q a s'
  | Fault => ok
  | OutOfFuel => False
  end.

Lemma rwp_ret ok {A} (a : A) Q g s : Q a s -> rwp ok (rd_ret a) Q g s.
Proof. done. Qed.

Lemma rwp_bind ok {A B} (m : R S A) (k : A -> R S B) Q g s :
  rwp ok m (fun a s' => rwp ok (k a) Q g s') g s -> rwp ok (rd_bind m k) Q g s.
Proof. unfold rwp, rd_bind. destruct (m g s) as [[a s']| |]; done. Qed.

Lemma rwp_mono ok {A} (m : R S A) (Q Q' : A -> S -> Prop) g s :
  rwp ok m Q g s -> (forall a s', Q a s' -> Q' a s') -> rwp ok m Q' g s.
Proof. unfold rwp. destruct (m g s) as [[a s']| |]; auto. Qed.

Lemma rwp_get ok Q g s : Q s s -> rwp ok rd_get Q g s.
Proof. done. Qed.

Lemma rwp_put ok s0 Q g s : Q tt s0 -> rwp ok (rd_put s0) Q g s.
Proof. done. Qed.

Lemma rwp_fault {A} (Q : A -> S -> Prop) g s : rwp True rd_fault Q g s.
Proof. done. Qed.

Lemma rwp_load ok a n l (Q : Z -> S -> Prop) g s :
  load_bytes g a (Z.to_nat n) = Some l -> Q (le_val l) s -> rwp ok (rd_load a n) Q g s.
Proof. unfold rwp, rd_load. now intros -> ?. Qed.

Lemma rwp_load_any a n (Q : Z -> S -> Prop) g s :
  (forall x, Q x s) -> rwp True (rd_load a n) Q g s.
Proof. unfold rwp, rd_load. intros H. now destruct (load_bytes g a (Z.to_nat n)); simpl. Qed.

Lemma rwp_int64_any x (Q : Z -> S -> Prop) g s :
  Q x s -> rwp True (int64_check x) Q g s.
Proof. unfold rwp, int64_check. now bcase. Qed.

Lemma rwp_int64 ok x (Q : Z -> S -> Prop) g s :
  - 2 ^ 63 <= x < 2 ^ 63 -> Q x s -> rwp ok (int64_check x) Q g s.
Proof.
  intros H HQ. unfold rwp, int64_check.
  destruct (Z.leb_spec (- 2 ^ 63) x), (Z.ltb_spec x (2 ^ 63)); try lia. done.
Qed.

Lemma rwp_int_shl_any x n (Q : Z -> S -> Prop) g s :
  (0 <= n -> 0 <= x -> Q (Z.shiftl x n) s) -> rwp True (int_shl x n) Q g s.
Proof. unfold rwp, int_shl. intros H. bcase; try done. simpl. b2p. apply H; tauto. Qed.

Lemma rwp_int_shl ok x n (Q : Z -> S -> Prop) g s :
  0 <= n < 32 -> 0 <= x -> x * 2 ^ n < 2 ^ 31 -> Q (x * 2 ^ n) s -> rwp ok (int_shl x n) Q g s.
Proof.
  intros Hn Hx Hs HQ. unfold rwp, int_shl. rewrite Z.shiftl_mul_pow2 by lia.
  destruct (Z.leb_spec 0 n), (Z.ltb_spec n 32), (Z.leb_spec 0 x),
    (Z.ltb_spec (x * 2 ^ n) (2 ^ 31)); try lia. done.
Qed.

Lemma int_shl_undefined x n g s : 2 ^ 31 <= x * 2 ^ n -> 0 <= n -> int_shl x n g s = Fault.
Proof.
  intros H Hn. unfold int_shl. rewrite Z.shiftl_mul_pow2 by lia.
  destruct (Z.ltb_spec (x * 2 ^ n) (2 ^ 31)); [lia|]. now rewrite andb_false_r.
Qed.

Lemma rwp_run ok {A} (m : R S A) (Q : A -> S -> Prop) g s :
  rwp ok m Q g s -> ~ ok -> exists a s', m g s = Ret (a, s') /\ Q a s'.
Proof. unfold rwp. destruct (m g s) as [[a s']| |]; naive_solver. Qed.

Lemma rwp_of {A} (m : R S A) (Q : A -> S -> Prop) ok g s a s' :
  m g s = Ret (a, s') -> Q a s' -> rwp ok m Q g s.
Proof. unfold rwp. now intros ->. Qed.
End Reader.

Lemma rwp_on ok {S S' A} (s0 : S') (m : R S' A) (Q : A * S' -> S -> Prop) g s :
  rwp ok m (fun a s1 => Q (a, s1) s) g s0 -> rwp ok (rd_on s0 m) Q g s.
Proof. unfold rwp, rd_on. destruct (m g s0) as [[a s1]| |]; done. Qed.

Declare Scope cr_scope.
Delimit Scope cr_scope with cr.
Notation "'let*' x ':=' m 'in' k" := (rd_bind m (fun x => k))
  (at level 200, x binder, m at level 200, k at level 200,
   format "'[v' 'let*'  x  ':='  m  'in' '/' k ']'") : cr_scope.
Notation "m ;; k" := (rd_bind m (fun _ => k))
  (at level 100, k at level 200, right associativity,
   format "'[v' m  ;; '/' k ']'") : cr_scope.
#[global] Open Scope cr_scope.

(** One step of symbolic execution of the read-only code. *)
Ltac rwp_step :=
  lazymatch goal with
  | |- rwp _ (rd_bind _ _) _ _ _ => apply rwp_bind
  | |- rwp _ (rd_ret _) _ _ _ => apply rwp_ret
  | |- rwp _ rd_get _ _ _ => apply rwp_get
  | |- rwp _ (rd_put _) _ _ _ => apply rwp_put
  | |- rwp _ (rd_on _ _) _ _ _ => apply rwp_on
  end.
Ltac rwp_steps := repeat (rwp_step; cbv beta iota).

(** ** Memory seen by the unwinder *)

(** [FIRCLSIsValidPointer(x)]: the zero page is never mapped. *)
Definition FIRCLSIsValidPointer (x : Z) : bool := 4096 <=? x.

(** [FIRCLSReadMemory(src, dest, len)]: the pointer check, then a read by the
    kernel, which fails on unmapped memory where a plain access would fault. *)
Definition FIRCLSReadMemory (g : mem) (src len : Z) : option (list Z) :=
  if FIRCLSIsValidPointer src then load_bytes g src (Z.to_nat len) else None.

(** The bytes [l] are at [a]. *)
Definition has_at (g : mem) (a : Z) (l : list Z) : Prop := load_bytes g a (length l) = Some l.

Lemma has_at_app g a l1 l2 :
  has_at g a (l1 ++ l2) <-> has_at g a l1 /\ has_at g (a + Z.of_nat (length l1)) l2.
Proof.
  unfold has_at. rewrite length_app, load_bytes_app. split.
  - destruct (load_bytes g a (length l1)) as [x|] eqn:E1; [|discriminate].
    destruct (load_bytes g (a + _) (length l2)) as [y|] eqn:E2; [|discriminate].
    intros [= H]. apply app_inj_1 in H as [-> ->]; [done|].
    exact (load_bytes_length _ _ _ _ E1).
  - intros [-> ->]. done.
Qed.

Lemma has_at_cons g a b l : has_at g a (b :: l) <-> g !! a = Some b /\ has_at g (a + 1) l.
Proof.
  unfold has_at; simpl. destruct (g !! a) as [c|]; [|naive_solver].
  destruct (load_bytes g (a + 1) (length l)); naive_solver.
Qed.

Lemma has_at_nil g a : has_at g a [].
Proof. done. Qed.

Lemma has_at_load {S} ok g a n l (Q : Z -> S -> Prop) s :
  has_at g a l -> n = Z.of_nat (length l) -> Q (le_val l) s -> rwp ok (rd_load a n) Q g s.
Proof. intros H -> HQ. eapply rwp_load; [rewrite Nat2Z.id; exact H|done]. Qed.

(** ** C strings *)

(** [strlen]: the distance to the first zero byte. A run of mapped bytes is no
    longer than the memory, which is the fuel that is always enough. *)
Fixpoint strlen_loop (g : mem) (fuel : nat) (a n : Z) : res Z :=
  match fuel with
  | O => OutOfFuel
  | S fuel => match g !! a with
              | None => Fault
              | Some b => if b =? 0 then Ret n else strlen_loop g fuel (a + 1) (n + 1)
              end
  end.

Definition strlen (g : mem) (a : Z) : res Z := strlen_loop g (S (size g)) a 0.

Lemma mapped_run_size (g : mem) a n : mapped g a (Z.of_nat n) -> (n <= size g)%nat.
Proof.
  intros H. rewrite <- (size_dom (D := gset Z) g).
  transitivity (size (list_to_set (seqZ a (Z.of_nat n)) : gset Z)).
  - rewrite size_list_to_set by apply NoDup_seqZ. rewrite length_seqZ. lia.
  - apply subseteq_size. intros x Hx. apply elem_of_list_to_set, elem_of_seqZ in Hx.
    apply elem_of_dom, H. lia.
Qed.

(** Where the scan has got to is mapped all along, so it never runs dry. *)
Lemma strlen_terminates g a fuel n k :
  mapped g (a - Z.of_nat k) (Z.of_nat k) -> (size g < fuel + k)%nat ->
  strlen_loop g fuel a n <> OutOfFuel.
Proof.
  revert a n k; induction fuel as [|fuel IH]; intros a n k Hm Hf; simpl.
  - pose proof (mapped_run_size _ _ _ Hm). lia.
  - destruct (g !! a) as [b|] eqn:E; [|done]. destruct (b =? 0); [done|].
    apply (IH (a + 1) (n + 1) (S k)); [|lia]. intros x Hx.
    destruct (decide (x = a)) as [->|]; [now rewrite E|apply Hm; lia].
Qed.

Lemma strlen_total g a : strlen g a <> OutOfFuel.
Proof. apply (strlen_terminates g a _ _ 0); [intros x Hx; lia|lia]. Qed.

(** On a terminated string it is the length before the terminator. *)
Lemma strlen_string g a l :
  has_at g a (l ++ [0]) -> Forall (fun b => b <> 0) l -> strlen g a = Ret (Z.of_nat (length l)).
Proof.
  intros H Hl. unfold strlen.
  assert (Hs : (length l < S (size g))%nat).
  { assert (mapped g a (Z.of_nat (length (l ++ [0])))) as Hm.
    { intros x Hx. replace x with (a + Z.of_nat (Z.to_nat (x - a))) by lia.
      rewrite (load_bytes_lookup _ _ _ _ _ H) by lia. apply lookup_lt_is_Some. lia. }
    apply mapped_run_size in Hm. rewrite length_app in Hm. simpl in Hm. lia. }
  revert Hs. generalize (S (size g)). intros fuel Hs.
  assert (E : forall n, strlen_loop g fuel a n = Ret (n + Z.of_nat (length l))); [|apply E].
  revert a fuel H Hs. induction Hl as [|b l Hb _ IH]; intros a fuel H Hs n;
    (destruct fuel as [|fuel]; [simpl in Hs; lia|]); simpl in *.
  - apply has_at_cons in H as [-> _]. simpl. f_equal. lia.
  - apply has_at_cons in H as [-> H]. apply Z.eqb_neq in Hb. rewrite Hb.
    rewrite IH; [f_equal; lia|done|lia].
Qed.
