(* ===== verification/DataParsing.v ===== *)
(** * Crashlytics: reading the unwind sections

    FIRCLSDataParsing.c: the readers that take a cursor by pointer and move it
    past what they have read. The local state is the cursor; the bytes come
    from the process's memory, unchecked. The constants are those of dwarf.h. At
    the end the theorems: which values the readers get right. *)
From Stdlib Require Import ZArith Lia Bool List.
From stdpp Require Import base list gmap numbers.
From S2P Require Import Prelude CMem Leb128 CRead.

(** ** Constants *)

Definition CLS_INVALID_ADDRESS : Z := 0xffffffffffffffff.
Definition DWARF_EXTENDED_LENGTH_FLAG : Z := 0xffffffff.
Definition DW_EH_PE_VALUE_MASK : Z := 0x0F.
Definition DW_EH_PE_RELATIVE_OFFSET_MASK : Z := 0x70.
Definition DW_EH_PE_ptr : Z := 0x00.
Definition DW_EH_PE_uleb128 : Z := 0x01.
Definition DW_EH_PE_udata2 : Z := 0x02.
Definition DW_EH_PE_udata4 : Z := 0x03.
Definition DW_EH_PE_udata8 : Z := 0x04.
Definition DW_EH_PE_sleb128 : Z := 0x09.
Definition DW_EH_PE_sdata2 : Z := 0x0A.
Definition DW_EH_PE_sdata4 : Z := 0x0B.
Definition DW_EH_PE_sdata8 : Z := 0x0C.
Definition DW_EH_PE_absptr : Z := 0x00.
Definition DW_EH_PE_pcrel : Z := 0x10.
Definition DW_EH_PE_indirect : Z := 0x80.
Definition DW_EH_PE_omit : Z := 0xFF.

(** ** Readers *)

(** [tmp = **cursor; *cursor += sizeof(tmp); return tmp;] *)
Definition parse_bytes (n : Z) : R Z Z :=
  let* c := rd_get in
  let* tmp := rd_load c n in
  rd_put (c + n) ;;
  rd_ret tmp.

Definition FIRCLSParseUint8AndAdvance : R Z Z := parse_bytes 1.
Definition FIRCLSParseUint16AndAdvance : R Z Z := parse_bytes 2.
Definition FIRCLSParseInt16AndAdvance : R Z Z :=
  let* tmp := parse_bytes 2 in rd_ret (s16 tmp).
Definition FIRCLSParseUint32AndAdvance : R Z Z := parse_bytes 4.
Definition FIRCLSParseInt32AndAdvance : R Z Z :=
  let* tmp := parse_bytes 4 in rd_ret (s32 tmp).
Definition FIRCLSParseUint64AndAdvance : R Z Z := parse_bytes 8.
Definition FIRCLSParseInt64AndAdvance : R Z Z :=
  let* tmp := parse_bytes 8 in rd_ret (s64 tmp).
Definition FIRCLSParsePointerAndAdvance : R Z Z := parse_bytes 8.

(** The loop of [FIRCLSParseULEB128AndAdvance], [n] iterations from its end.
    The digit is shifted as an [int]; [shift] stays below 64. *)
Fixpoint uleb_loop (n : nat) (result shift : Z) : R Z Z :=
  match n with
  | O => rd_ret result
  | S n =>
      let* c := rd_get in
      let* b := rd_load c 1 in
      let byte := s8 b in
      rd_put (c + 1) ;;
      let* digit := int_shl (Z.land 0x7F byte) shift in
      let result := Z.lor result digit in
      if Z.land 0x80 byte =? 0 then rd_ret result
      else uleb_loop n result (shift + 7)
  end.

Definition FIRCLSParseULEB128AndAdvance : R Z Z := uleb_loop 8 0 0.

(** The loop of [FIRCLSParseLEB128AndAdvance] returns [result], [shift] and the
    last [byte]. *)
Fixpoint sleb_loop (n : nat) (result shift byte : Z) : R Z (Z * Z * Z) :=
  match n with
  | O => rd_ret (result, shift, byte)
  | S n =>
      let* c := rd_get in
      let* b := rd_load c 1 in
      let byte := s8 b in
      rd_put (c + 1) ;;
      let* digit := int_shl (Z.land 0x7F byte) shift in
      let result := Z.lor result digit in
      let shift := shift + 7 in
      if Z.land 0x80 byte =? 0 then rd_ret (result, shift, byte)
      else sleb_loop n result shift byte
  end.

Definition FIRCLSParseLEB128AndAdvance : R Z Z :=
  let* r := sleb_loop 8 0 0 0 in
  let '(result, shift, byte) := r in
  if (shift <? 64) && negb (Z.land 0x40 byte =? 0) then
    let* bit := int_shl 1 shift in
    rd_ret (s64 (Z.lor result (u64 (- bit))))
  else rd_ret (s64 result).

Definition FIRCLSParseStringAndAdvance : R Z Z := fun g string =>
  rbind (strlen g string) (fun n => Ret (string, string + (n + 1))).

Definition FIRCLSParseRecordLengthAndAdvance : R Z Z :=
  let* length := FIRCLSParseUint32AndAdvance in
  if length =? DWARF_EXTENDED_LENGTH_FLAG then FIRCLSParseUint64AndAdvance
  else rd_ret length.

(** The value part of an encoded address, by the low bits of [encoding]; [None]
    for an encoding that is not handled. *)
Definition parse_encoded_value (encoding : Z) : R Z (option Z) :=
  let some (m : R Z Z) : R Z (option Z) := let* x := m in rd_ret (Some (s64 x)) in
  let v := Z.land encoding DW_EH_PE_VALUE_MASK in
  if v =? DW_EH_PE_ptr then some FIRCLSParsePointerAndAdvance
  else if v =? DW_EH_PE_uleb128 then some FIRCLSParseULEB128AndAdvance
  else if v =? DW_EH_PE_udata2 then some FIRCLSParseUint16AndAdvance
  else if v =? DW_EH_PE_udata4 then some FIRCLSParseUint32AndAdvance
  else if v =? DW_EH_PE_udata8 then some FIRCLSParseUint64AndAdvance
  else if v =? DW_EH_PE_sleb128 then some FIRCLSParseLEB128AndAdvance
  else if v =? DW_EH_PE_sdata2 then some FIRCLSParseInt16AndAdvance
  else if v =? DW_EH_PE_sdata4 then some FIRCLSParseInt32AndAdvance
  else if v =? DW_EH_PE_sdata8 then some FIRCLSParseInt64AndAdvance
  else rd_ret None.

Definition FIRCLSParseAddressWithEncodingAndAdvance (encoding : Z) : R Z Z :=
  if encoding =? DW_EH_PE_omit then rd_ret 0
  else
    let* cursor := rd_get in
    if cursor =? 0 then rd_ret CLS_INVALID_ADDRESS
    else
      let inputAddr := s64 cursor in
      let* value := parse_encoded_value encoding in
      match value with
      | None => rd_ret CLS_INVALID_ADDRESS
      | Some addr =>
          let finish (addr : Z) : R Z Z :=
            if negb (Z.land encoding DW_EH_PE_indirect =? 0) then
              if addr =? 0 then rd_ret CLS_INVALID_ADDRESS
              else rd_load (u64 addr) 8
            else rd_ret (u64 addr) in
          let r := Z.land encoding DW_EH_PE_RELATIVE_OFFSET_MASK in
          if r =? DW_EH_PE_absptr then finish addr
          else if r =? DW_EH_PE_pcrel then
            let* addr := int64_add addr inputAddr in finish addr
          else rd_ret CLS_INVALID_ADDRESS
      end.

(** ** Lemmas *)

Lemma parse_bytes_spec ok n l (Q : Z -> Z -> Prop) g c :
  has_at g c l -> n = Z.of_nat (length l) -> Q (le_val l) (c + n) -> rwp ok (parse_bytes n) Q g c.
Proof.
  intros H Hn HQ. unfold parse_bytes. rwp_steps. eapply has_at_load; [done..|]. now rwp_steps.
Qed.

(** What a plain byte says as a [char]. *)
Lemma char_digit b : 0 <= b < 256 -> Z.land 0x7F (s8 b) = b mod 128.
Proof.
  intros H. apply Z.eqb_eq.
  exact (range_forall (fun b => Z.land 0x7F (s8 b) =? b mod 128) 256 ltac:(vm_compute; done) b H).
Qed.

Lemma char_more b : 0 <= b < 256 -> (Z.land 0x80 (s8 b) =? 0) = (b <? 128).
Proof.
  intros H. apply eqb_prop.
  exact (range_forall (fun b => Bool.eqb (Z.land 0x80 (s8 b) =? 0) (b <? 128)) 256
           ltac:(vm_compute; done) b H).
Qed.

(** The sign bit of the last digit. *)
Lemma char_sign b : 0 <= b < 128 -> (Z.land 0x40 (s8 b) =? 0) = (b <? 64).
Proof.
  intros H. apply eqb_prop.
  exact (range_forall (fun b => Bool.eqb (Z.land 0x40 (s8 b) =? 0) (b <? 64)) 128
           ltac:(vm_compute; done) b H).
Qed.

(** ** LEB128 *)

(** The varint strings the readers can take: the digits are shifted as [int]s,
    so five digits at most, and a value below 2^31. *)
Definition leb_ok (k : nat) (r : Z) (l : list Z) : bool :=
  (k + length l <=? 5)%nat && (r + varint_val l * 2 ^ (7 * Z.of_nat k) <? 2 ^ 31).

(** One iteration of either loop on the byte [b]: the digit is or-ed in, or the
    shift is undefined and so is the whole string. *)
Lemma leb_digit {T} k r b l (g : mem) (s : T) :
  is_varint (b :: l) -> 0 <= r < 2 ^ (7 * Z.of_nat k) ->
  let d := b mod 128 in
  (int_shl (Z.land 0x7F (s8 b)) (7 * Z.of_nat k) g s = Fault /\ leb_ok k r (b :: l) = false) \/
  (exists x, int_shl (Z.land 0x7F (s8 b)) (7 * Z.of_nat k) g s = Ret (x, s) /\
     let r' := r + d * 2 ^ (7 * Z.of_nat k) in
     Z.lor r x = r' /\ 0 <= r' < 2 ^ (7 * Z.of_nat (k + 1)) /\ r' < 2 ^ 31 /\ (k <= 4)%nat /\
     leb_ok k r (b :: l) = match l with [] => true | _ => leb_ok (k + 1) r' l end).
Proof.
  intros Hv Hr d. destruct (is_varint_inv _ _ Hv) as [Hb Hc].
  rewrite char_digit by done. fold d.
  assert (Hd : 0 <= d < 128) by (apply Z.mod_pos_bound; lia).
  assert (Hl : 0 <= varint_val l).
  { destruct Hc as [[-> _]|(_ & _ & Hl)]; [done|]. pose proof (varint_val_range _ Hl). lia. }
  assert (Hp : 0 < 2 ^ (7 * Z.of_nat k)) by (apply Z.pow_pos_nonneg; lia).
  assert (Hp1 : 2 ^ (7 * Z.of_nat (k + 1)) = 128 * 2 ^ (7 * Z.of_nat k))
    by (rewrite Nat.add_1_r; apply pow_7_S).
  unfold leb_ok. cbn [varint_val length]. fold d.
  destruct (le_lt_dec k 4) as [K|K].
  - destruct (Z.lt_ge_cases (d * 2 ^ (7 * Z.of_nat k)) (2 ^ 31)) as [Q|Q].
    + right. exists (d * 2 ^ (7 * Z.of_nat k)).
      split.
      { unfold int_shl. rewrite Z.shiftl_mul_pow2 by lia. bcase; try lia. done. }
      assert (Hs : 2 ^ (7 * Z.of_nat k) <= 2 ^ 28) by (apply Z.pow_le_mono_r; lia).
      split; [rewrite <- (lor_shiftl_add r d) by lia; now rewrite Z.shiftl_mul_pow2 by lia|].
      split; [rewrite Hp1; nia|].
      assert (r + d * 2 ^ (7 * Z.of_nat k) < 2 ^ 31).
      { destruct (decide (k = 4%nat)) as [->|].
        - change (2 ^ (7 * Z.of_nat 4)) with 268435456 in *. zpow. lia.
        - assert (2 ^ (7 * Z.of_nat k) <= 2 ^ 21) by (apply Z.pow_le_mono_r; lia). nia. }
      split; [done|]. split; [done|]. destruct l as [|c l].
      * simpl varint_val. rewrite Z.mul_0_r, Z.add_0_r. apply andb_true_intro.
        split; [apply Nat.leb_le; simpl; lia|apply Z.ltb_lt; lia].
      * f_equal.
        -- f_equal. cbn [length]. lia.
        -- f_equal. rewrite Hp1. lia.
    + left. split; [apply int_shl_undefined; lia|].
      destruct (Z.ltb_spec (r + (d + 128 * varint_val l) * 2 ^ (7 * Z.of_nat k)) (2 ^ 31));
        [nia|]. apply andb_false_r.
  - left. split.
    + unfold int_shl. destruct (Z.ltb_spec (7 * Z.of_nat k) 32); [lia|].
      now rewrite andb_false_r.
    + destruct (Nat.leb_spec (k + S (length l)) 5); [lia|done].
Qed.

Lemma load_byte {T} (g : mem) c b (s : T) : g !! c = Some b -> rd_load c 1 g s = Ret (b, s).
Proof. intros E. unfold rd_load. simpl. rewrite E. simpl. do 2 f_equal. lia. Qed.

(** What both loops do with the next byte. *)
Lemma leb_step {A} (k : Z -> R Z A) g c b :
  g !! c = Some b ->
  (let* c := rd_get in let* b := rd_load c 1 in rd_put (c + 1) ;; k b) g c = k b g (c + 1).
Proof. intros E. unfold rd_bind, rd_get, rd_put. simpl. now rewrite (load_byte g c b c E). Qed.

Lemma uleb_loop_spec n k r l g c :
  is_varint l -> has_at g c l -> (n + k = 8)%nat -> (k <= 5)%nat ->
  0 <= r < 2 ^ (7 * Z.of_nat k) ->
  uleb_loop n r (7 * Z.of_nat k) g c =
  if leb_ok k r l then Ret (r + varint_val l * 2 ^ (7 * Z.of_nat k), c + Z.of_nat (length l))
  else Fault.
Proof.
  revert n k r c; induction l as [|b l IH]; intros n k r c Hv Hg Hn Hk Hr; [done|].
  destruct (is_varint_inv _ _ Hv) as [Hb Hc]. destruct n as [|n]; [lia|].
  apply has_at_cons in Hg as [Eb Hg]. cbn [uleb_loop]. rewrite (leb_step _ _ _ _ Eb).
  unfold rd_bind at 1. rewrite char_more by done.
  destruct (leb_digit k r b l g (c + 1) Hv Hr) as [[-> ->]|(x & -> & E2 & Hr' & Hs & Hk' & E3)];
    [done|].
  cbn [rbind]. rewrite E2, E3. destruct Hc as [[-> Lt]|(Hne & Ge & Hl)].
  - destruct (Z.ltb_spec b 128); [|lia]. unfold rd_ret. simpl. do 2 f_equal; lia.
  - destruct (Z.ltb_spec b 128); [lia|]. destruct l as [|e l]; [done|]. cbv beta iota zeta in *.
    replace (7 * Z.of_nat k + 7) with (7 * Z.of_nat (k + 1)) by lia.
    rewrite (IH n (k + 1)%nat) by (done || lia).
    clear E3. destruct (leb_ok _ _ _); [|done]. f_equal. f_equal.
    + cbn [varint_val]. replace (k + 1)%nat with (S k) by lia. rewrite pow_7_S. lia.
    + cbn [length]. lia.
Qed.

(** What the loop leaves behind for the sign: the number of bits and the last digit. *)
Lemma sleb_loop_spec n k r l y g c :
  is_varint l -> has_at g c l -> (n + k = 8)%nat -> (k <= 5)%nat ->
  0 <= r < 2 ^ (7 * Z.of_nat k) ->
  sleb_loop n r (7 * Z.of_nat k) y g c =
  if leb_ok k r l
  then Ret (r + varint_val l * 2 ^ (7 * Z.of_nat k), 7 * Z.of_nat (k + length l),
            s8 (List.last l 0), c + Z.of_nat (length l))
  else Fault.
Proof.
  revert n k r y c; induction l as [|b l IH]; intros n k r y c Hv Hg Hn Hk Hr; [done|].
  destruct (is_varint_inv _ _ Hv) as [Hb Hc]. destruct n as [|n]; [lia|].
  apply has_at_cons in Hg as [Eb Hg]. cbn [sleb_loop]. rewrite (leb_step _ _ _ _ Eb).
  unfold rd_bind at 1. rewrite char_more by done.
  destruct (leb_digit k r b l g (c + 1) Hv Hr) as [[-> ->]|(x & -> & E2 & Hr' & Hs & Hk' & E3)];
    [done|].
  cbn [rbind]. rewrite E2, E3.
  replace (7 * Z.of_nat k + 7) with (7 * Z.of_nat (k + 1)) by lia.
  destruct Hc as [[-> Lt]|(Hne & Ge & Hl)].
  - destruct (Z.ltb_spec b 128); [|lia]. unfold rd_ret. simpl. f_equal. apply f_equal2; [|lia]. apply f_equal2; [apply f_equal2|done]; lia.
  - destruct (Z.ltb_spec b 128); [lia|]. destruct l as [|e l]; [done|]. cbv beta iota zeta in *.
    rewrite (IH n (k + 1)%nat) by (done || lia).
    clear E3. destruct (leb_ok _ _ _); [|done]. f_equal.
    apply f_equal2; [apply f_equal2; [apply f_equal2|done]|].
    + cbn [varint_val]. replace (k + 1)%nat with (S k) by lia. rewrite pow_7_S. lia.
    + cbn [length]. lia.
    + cbn [length]. lia.
Qed.

Lemma uleb_parse l g c :
  is_varint l -> has_at g c l ->
  FIRCLSParseULEB128AndAdvance g c =
  if leb_ok 0 0 l then Ret (varint_val l, c + Z.of_nat (length l)) else Fault.
Proof.
  intros Hv Hg. unfold FIRCLSParseULEB128AndAdvance.
  rewrite (uleb_loop_spec 8 0 0 l) by (done || lia). destruct (leb_ok 0 0 l); [|done].
  do 2 f_equal. lia.
Qed.

(** The signed number of a base-128 string: the two's complement reading of its
    7-bit digits. *)
Definition sleb_val (l : list Z) : Z := wraps (7 * Z.of_nat (length l)) (varint_val l).

(** The sign of the number is the sign bit of the last digit. *)
Lemma sleb_val_sign l :
  is_varint l ->
  sleb_val l = if List.last l 0 <? 64 then varint_val l
               else varint_val l - 2 ^ (7 * Z.of_nat (length l)).
Proof.
  intros Hv. pose proof (varint_val_range l Hv) as Hr. unfold sleb_val, wraps.
  assert (Hp : 2 ^ (7 * Z.of_nat (length l)) = 2 * 2 ^ (7 * Z.of_nat (length l) - 1)).
  { rewrite <- Z.pow_succ_r by (destruct l; [done|simpl; lia]). f_equal. lia. }
  assert (Hs : (List.last l 0 <? 64) = (varint_val l <? 2 ^ (7 * Z.of_nat (length l) - 1))).
  { clear Hr Hp. induction l as [|b l IH]; [done|].
    destruct (is_varint_inv _ _ Hv) as [Hb [[-> Lt]|(Hne & Ge & Hl)]].
    - simpl. rewrite Z.mod_small by lia. now rewrite Z.add_0_r.
    - assert (List.last (b :: l) 0 = List.last l 0) as -> by (destruct l; done).
      rewrite IH by done. cbn [length varint_val].
      replace (7 * Z.of_nat (S (length l)) - 1) with (7 * Z.of_nat (length l) - 1 + 7) by lia.
      rewrite Z.pow_add_r by (destruct l; [done|simpl; lia]). zpow.
      pose proof (Z.mod_pos_bound b 128 ltac:(lia)).
      destruct (Z.ltb_spec (varint_val l) (2 ^ (7 * Z.of_nat (length l) - 1))),
        (Z.ltb_spec (b mod 128 + 128 * varint_val l) (2 ^ (7 * Z.of_nat (length l) - 1) * 128));
        lia. }
  rewrite Hs. rewrite Hp in *. set (h := 2 ^ (7 * Z.of_nat (length l) - 1)) in *.
  destruct (Z.ltb_spec (varint_val l) h).
  - rewrite Z.mod_small; lia.
  - rewrite <- (Z.mod_unique (varint_val l + h) (2 * h) 1 (varint_val l - h)); lia.
Qed.

Lemma last_varint l : is_varint l -> 0 <= List.last l 0 < 128.
Proof.
  induction l as [|b l IH]; [done|]. intros Hv.
  destruct (is_varint_inv _ _ Hv) as [Hb [[-> Lt]|(Hne & Ge & Hl)]]; [simpl; lia|].
  destruct l; [done|]. exact (IH Hl).
Qed.

(** Setting the high bits of a number of [n] bits subtracts [2 ^ n] from it. *)
Lemma sign_extend r n :
  0 <= r < 2 ^ n -> 0 <= n < 63 -> s64 (Z.lor r (u64 (- 2 ^ n))) = r - 2 ^ n.
Proof.
  intros Hr Hn.
  assert (2 ^ n <= 2 ^ 62) by (apply Z.pow_le_mono_r; lia).
  assert (E : u64 (- 2 ^ n) = Z.shiftl (2 ^ (64 - n) - 1) n).
  { rewrite Z.shiftl_mul_pow2, Z.mul_sub_distr_r, <- Z.pow_add_r by lia.
    replace (64 - n + n) with 64 by lia. unfold wrapu.
    symmetry. apply Z.mod_unique with (-1); lia. }
  rewrite E, lor_shiftl_add by lia.
  rewrite Z.mul_sub_distr_r, <- Z.pow_add_r by lia. replace (64 - n + n) with 64 by lia.
  unfold wraps. change (64 - 1) with 63.
  rewrite <- (Z.mod_unique (r + (2 ^ 64 - 1 * 2 ^ n) + 2 ^ 63) (2 ^ 64) 1 (r - 2 ^ n + 2 ^ 63));
    lia.
Qed.

(** A signed string of five digits is taken only when it is positive. *)
Definition sleb_ok (l : list Z) : bool := leb_ok 0 0 l.

Lemma sleb_parse l g c :
  is_varint l -> has_at g c l ->
  FIRCLSParseLEB128AndAdvance g c =
  if sleb_ok l then Ret (sleb_val l, c + Z.of_nat (length l)) else Fault.
Proof.
  intros Hv Hg. unfold FIRCLSParseLEB128AndAdvance, sleb_ok, rd_bind at 1.
  rewrite (sleb_loop_spec 8 0 0 l) by (done || lia).
  destruct (leb_ok 0 0 l) eqn:Ok; [|done]. cbn [rbind].
  change (2 ^ (7 * Z.of_nat 0)) with 1. rewrite Z.mul_1_r, Z.add_0_l, Nat.add_0_l.
  pose proof (last_varint _ Hv) as Hl. rewrite char_sign by done.
  pose proof (varint_val_range _ Hv) as Hr. rewrite sleb_val_sign by done.
  unfold leb_ok in Ok. change (2 ^ (7 * Z.of_nat 0)) with 1 in Ok.
  rewrite Z.mul_1_r, Z.add_0_l in Ok. apply andb_prop in Ok as [L V].
  apply Nat.leb_le in L. apply Z.ltb_lt in V. zpow.
  destruct (Z.ltb_spec (7 * Z.of_nat (length l)) 64); [|lia]. cbn [andb].
  destruct (Z.ltb_spec (List.last l 0) 64); cbn [negb].
  - unfold rd_ret. rewrite wraps_small; [done|lia|zpow; simpl; lia].
  - assert (length l <> 5%nat) as N.
    { intros N. pose proof (sleb_val_sign l Hv) as S.
      destruct (Z.ltb_spec (List.last l 0) 64); [lia|]. rewrite N in S.
      unfold sleb_val in S. rewrite N in S.
      rewrite wraps_small in S; [|lia|]; change (7 * Z.of_nat 5) with 35 in *;
        change (2 ^ (35 - 1)) with 17179869184; lia. }
    unfold rd_bind. unfold int_shl. rewrite Z.shiftl_mul_pow2 by lia. rewrite Z.mul_1_l.
    assert (2 ^ (7 * Z.of_nat (length l)) <= 2 ^ 28) by (apply Z.pow_le_mono_r; lia).
    destruct (Z.leb_spec 0 (7 * Z.of_nat (length l))), (Z.ltb_spec (7 * Z.of_nat (length l)) 32),
      (Z.ltb_spec (2 ^ (7 * Z.of_nat (length l))) (2 ^ 31)); zpow; try lia.
    cbn. rewrite sign_extend by lia. done.
Qed.

Lemma parse_bytes_eq n l g c :
  has_at g c l -> n = Z.of_nat (length l) -> parse_bytes n g c = Ret (le_val l, c + n).
Proof.
  intros H ->. unfold parse_bytes, rd_bind, rd_get, rd_load, rd_put. simpl.
  rewrite Nat2Z.id, H. done.
Qed.

(** ** Encoded addresses *)

(** The pointer encodings of fixed size: the size and whether it is signed. *)
Definition fixed_format (v : Z) : option (Z * bool) :=
  if v =? DW_EH_PE_ptr then Some (8, false)
  else if v =? DW_EH_PE_udata2 then Some (2, false)
  else if v =? DW_EH_PE_udata4 then Some (4, false)
  else if v =? DW_EH_PE_udata8 then Some (8, false)
  else if v =? DW_EH_PE_sdata2 then Some (2, true)
  else if v =? DW_EH_PE_sdata4 then Some (4, true)
  else if v =? DW_EH_PE_sdata8 then Some (8, true)
  else None.

Definition format_val (f : Z * bool) (l : list Z) : Z :=
  if snd f then wraps (8 * fst f) (le_val l) else le_val l.

Lemma parse_fixed e f l g c :
  fixed_format (Z.land e DW_EH_PE_VALUE_MASK) = Some f ->
  has_at g c l -> Z.of_nat (length l) = fst f ->
  parse_encoded_value e g c = Ret (Some (s64 (format_val f l)), c + fst f).
Proof.
  unfold fixed_format, parse_encoded_value. generalize (Z.land e DW_EH_PE_VALUE_MASK). intros v.
  intros H Hg Hl.
  repeat match type of H with
  | (if ?v =? ?k then _ else _) = _ =>
      destruct (Z.eqb_spec v k); [subst v; injection H as <-; cbn in Hl |- *|]
  end; try discriminate;
  unfold FIRCLSParsePointerAndAdvance, FIRCLSParseUint16AndAdvance, FIRCLSParseUint32AndAdvance,
    FIRCLSParseUint64AndAdvance, FIRCLSParseInt16AndAdvance, FIRCLSParseInt32AndAdvance,
    FIRCLSParseInt64AndAdvance, rd_bind;
  rewrite (parse_bytes_eq _ l) by (done || lia); done.
Qed.

(** The address read so far, followed where the encoding is indirect. *)
Definition follow (e addr : Z) (g : mem) : res Z :=
  if negb (Z.land e DW_EH_PE_indirect =? 0) then
    if addr =? 0 then Ret CLS_INVALID_ADDRESS
    else rbind (of_option (load_bytes g (u64 addr) 8)) (fun l => Ret (le_val l))
  else Ret (u64 addr).

Lemma encoded_address e f l g c :
  e <> DW_EH_PE_omit ->
  fixed_format (Z.land e DW_EH_PE_VALUE_MASK) = Some f ->
  Z.land e DW_EH_PE_RELATIVE_OFFSET_MASK = DW_EH_PE_absptr \/
  Z.land e DW_EH_PE_RELATIVE_OFFSET_MASK = DW_EH_PE_pcrel ->
  has_at g c l -> Z.of_nat (length l) = fst f -> 0 < c < 2 ^ 63 ->
  let base := if Z.land e DW_EH_PE_RELATIVE_OFFSET_MASK =? DW_EH_PE_pcrel then c else 0 in
  let addr := s64 (format_val f l) + base in
  addr < 2 ^ 63 ->
  FIRCLSParseAddressWithEncodingAndAdvance e g c =
  rbind (follow e addr g) (fun a => Ret (a, c + fst f)).
Proof.
  intros Ho Hf Hr Hg Hl Hc base addr Ha.
  unfold FIRCLSParseAddressWithEncodingAndAdvance.
  destruct (Z.eqb_spec e DW_EH_PE_omit); [done|].
  unfold rd_bind at 1, rd_get at 1. cbn [rbind].
  destruct (Z.eqb_spec c 0); [lia|]. unfold rd_bind at 1.
  rewrite (parse_fixed e f l g c Hf Hg Hl). cbn [rbind].
  assert (Hs : s64 c = c) by (apply wraps_small; [lia|zpow; simpl; lia]). rewrite Hs.
  pose proof (wraps_range 64 (format_val f l) ltac:(lia)) as Hv. zpow. simpl in Hv.
  unfold addr, base in *. unfold follow.
  destruct Hr as [Hr|Hr]; rewrite Hr in *; cbn [Z.eqb DW_EH_PE_absptr DW_EH_PE_pcrel] in *.
  - rewrite Z.add_0_r. destruct (Z.land e DW_EH_PE_indirect =? 0); [done|].
    cbn [negb]. destruct (_ =? 0); [done|]. unfold rd_load.
    destruct (load_bytes _ _ _); done.
  - change (Pos.eqb 16 16) with true in *. cbv iota in *.
    unfold rd_bind, int64_add, int64_check.
    destruct (Z.leb_spec (- 2 ^ 63) (s64 (format_val f l) + c)),
      (Z.ltb_spec (s64 (format_val f l) + c) (2 ^ 63)); zpow; try lia.
    cbn [andb]. unfold rd_ret at 1. cbn [rbind].
    destruct (Z.land e DW_EH_PE_indirect =? 0); [done|].
    cbn [negb]. destruct (_ =? 0); [done|]. unfold rd_load.
    destruct (load_bytes _ _ _); done.
Qed.

(** ** Theorems *)

(** [FIRCLSParseULEB128AndAdvance] on any ULEB128 string: with at most five
    digits and a value below 2^31 it returns that value and moves the cursor
    right behind it; every longer or larger string makes the [int] shift
    undefined, although the result type has 64 bits. *)
Theorem uleb_exact l g c :
  is_varint l -> has_at g c l ->
  FIRCLSParseULEB128AndAdvance g c =
  if (length l <=? 5)%nat && (varint_val l <? 2 ^ 31)
  then Ret (varint_val l, c + Z.of_nat (length l)) else Fault.
Proof.
  intros Hv Hg. rewrite (uleb_parse l g c Hv Hg). unfold leb_ok.
  now rewrite Z.mul_1_r, Z.add_0_l.
Qed.

Definition leb_mem : mem := list_to_map (zip (seqZ 8192 3) [0xE5; 0x8E; 0x26]).

Lemma uleb_exact_witness :
  FIRCLSParseULEB128AndAdvance leb_mem 8192 = Ret (624485, 8195).
Proof.
  rewrite (uleb_exact [0xE5; 0x8E; 0x26] leb_mem 8192).
  - reflexivity.
  - simpl. lia.
  - vm_compute. reflexivity.
Defined.

(** [FIRCLSParseLEB128AndAdvance] on any signed LEB128 string: it returns
    the two's complement value of the digits and moves the cursor right behind
    them for every string of at most four digits and the positive ones of five
    digits below 2^31; on all others the [int] shifts are undefined. *)
Theorem sleb_exact l g c :
  is_varint l -> has_at g c l ->
  FIRCLSParseLEB128AndAdvance g c =
  if (length l <=? 5)%nat && (varint_val l <? 2 ^ 31)
  then Ret (wraps (7 * Z.of_nat (length l)) (varint_val l), c + Z.of_nat (length l))
  else Fault.
Proof.
  intros Hv Hg. rewrite (sleb_parse l g c Hv Hg). unfold sleb_ok, leb_ok.
  now rewrite Z.mul_1_r, Z.add_0_l.
Qed.

Definition sleb_mem : mem := list_to_map (zip (seqZ 8192 3) [0xC0; 0xBB; 0x78]).

Lemma sleb_exact_witness :
  FIRCLSParseLEB128AndAdvance sleb_mem 8192 = Ret (-123456, 8195).
Proof.
  rewrite (sleb_exact [0xC0; 0xBB; 0x78] sleb_mem 8192).
  - reflexivity.
  - simpl. lia.
  - vm_compute. reflexivity.
Defined.

(** an address in any of the fixed-size pointer encodings is the stored
    number, signed or not as the encoding says, plus the address of the field
    itself when the encoding is pc-relative, and then looked up in memory when
    it is indirect; the cursor ends right behind the field. *)
Theorem address_encoding_exact e f l g c :
  e <> DW_EH_PE_omit ->
  fixed_format (Z.land e DW_EH_PE_VALUE_MASK) = Some f ->
  Z.land e DW_EH_PE_RELATIVE_OFFSET_MASK = DW_EH_PE_absptr \/
  Z.land e DW_EH_PE_RELATIVE_OFFSET_MASK = DW_EH_PE_pcrel ->
  has_at g c l -> Z.of_nat (length l) = fst f -> 0 < c < 2 ^ 63 ->
  let base := if Z.land e DW_EH_PE_RELATIVE_OFFSET_MASK =? DW_EH_PE_pcrel then c else 0 in
  let addr := s64 (format_val f l) + base in
  addr < 2 ^ 63 ->
  FIRCLSParseAddressWithEncodingAndAdvance e g c =
  rbind (follow e addr g) (fun a => Ret (a, c + fst f)).
Proof. apply encoded_address. Qed.

(** A personality pointer as the linker emits it: indirect, pc-relative, 4
    bytes; the slot it points to, 16 bytes further, holds 0x100004000. *)
Definition personality_mem : mem :=
  list_to_map (zip (seqZ 8192 4) (le_bytes 4 16) ++ zip (seqZ 8208 8) (le_bytes 8 0x100004000)).

Lemma address_encoding_exact_witness :
  FIRCLSParseAddressWithEncodingAndAdvance 0x9B personality_mem 8192 = Ret (0x100004000, 8196).
Proof.
  rewrite (address_encoding_exact 0x9B (4, true) (le_bytes 4 16) personality_mem 8192).
  - vm_compute. reflexivity.
  - discriminate.
  - reflexivity.
  - right. reflexivity.
  - vm_compute. reflexivity.
  - reflexivity.
  - lia.
  - vm_compute. reflexivity.
Defined.
