(* ===== verification/ThreadState.v ===== *)
(** * Crashlytics: the registers of a thread

    FIRCLSThreadState.c and the register access of FIRCLSUnwind_arm.c, for
    arm64. The register file itself ([_STRUCT_MCONTEXT] and the
    [arm_thread_state64_*] accessors) belongs to the SDK: it is the interface
    [MContext], with the behaviour the accessors are documented to have. *)
From Stdlib Require Import ZArith Lia Bool List.
From stdpp Require Import base list gmap numbers.
From S2P Require Import Prelude CMem CRead.

(** ** The SDK's register file *)

(** The registers the code reaches: [__ss.__x[0..28]] and those behind the
    [arm_thread_state64_get_*] and [..._set_*] accessors. *)
Inductive ss_reg := X (i : Z) | FP | LR | SP | PC.

#[export] Instance ss_reg_eq_dec : EqDecision ss_reg.
Proof. solve_decision. Defined.

Class MContext (C : Type) := {
  ss_get : C -> ss_reg -> Z;
  ss_set : C -> ss_reg -> Z -> C;
}.

(** The bits of a pointer that are an address. *)
Definition CLS_PTRAUTH_STRIP (p : Z) : Z := Z.land p 0x0000000FFFFFFFFF.

(** A register keeps what is written to it, and writing one leaves the others
    alone. The accessors of [pc] and [lr] sign and authenticate the pointer: only
    the address bits are certain to come back. *)
Class MContextLaws (C : Type) `{MContext C} := {
  ss_get_range : forall c r, 0 <= ss_get c r < 2 ^ 64;
  ss_get_set_ne : forall c r r' v, r <> r' -> ss_get (ss_set c r v) r' = ss_get c r';
  ss_get_set_x : forall c i v, 0 <= v < 2 ^ 64 -> ss_get (ss_set c (X i) v) (X i) = v;
  ss_get_set_strip : forall c r v,
    CLS_PTRAUTH_STRIP (ss_get (ss_set c r v) r) = CLS_PTRAUTH_STRIP v;
}.

(** ** Register numbers of DWARF *)

Definition CLS_DWARF_ARM64_FP : Z := 29.
Definition CLS_DWARF_ARM64_LR : Z := 30.
Definition CLS_DWARF_ARM64_SP : Z := 31.
Definition CLS_DWARF_MAX_REGISTER_NUM : Z := CLS_DWARF_ARM64_SP.
Definition CLS_DWARF_REG_RETURN : Z := CLS_DWARF_ARM64_LR.
Definition CLS_DWARF_REG_SP : Z := CLS_DWARF_ARM64_SP.
Definition CLS_DWARF_INVALID_REGISTER_NUM : Z := CLS_DWARF_MAX_REGISTER_NUM + 1.

Section Registers.
Context {C : Type} `{MContext C}.

(** ** Register access. The context is the caller's structure, never NULL. *)

Definition FIRCLSThreadContextGetPC (c : C) : Z := CLS_PTRAUTH_STRIP (ss_get c PC).
Definition FIRCLSThreadContextGetStackPointer (c : C) : Z := CLS_PTRAUTH_STRIP (ss_get c SP).
Definition FIRCLSThreadContextSetStackPointer (c : C) (value : Z) : C := ss_set c SP value.
Definition FIRCLSThreadContextGetLinkRegister (c : C) : Z := CLS_PTRAUTH_STRIP (ss_get c LR).
Definition FIRCLSThreadContextSetLinkRegister (c : C) (value : Z) : C := ss_set c LR value.
Definition FIRCLSThreadContextSetPC (c : C) (value : Z) : C := ss_set c PC value.
Definition FIRCLSThreadContextGetFramePointer (c : C) : Z := CLS_PTRAUTH_STRIP (ss_get c FP).
Definition FIRCLSThreadContextSetFramePointer (c : C) (value : Z) : C := ss_set c FP value.

(** Unknown numbers read as zero. *)
Definition FIRCLSDwarfUnwindGetRegisterValue (c : C) (num : Z) : Z :=
  if (0 <=? num) && (num <=? 28) then ss_get c (X num)
  else if num =? CLS_DWARF_ARM64_FP then FIRCLSThreadContextGetFramePointer c
  else if num =? CLS_DWARF_ARM64_LR then FIRCLSThreadContextGetLinkRegister c
  else if num =? CLS_DWARF_ARM64_SP then FIRCLSThreadContextGetStackPointer c
  else 0.

(** Restoring the link register is what moves the PC; [None] is [return false]. *)
Definition FIRCLSDwarfUnwindSetRegisterValue (c : C) (num value : Z) : option C :=
  if (0 <=? num) && (num <=? 28) then Some (ss_set c (X num) value)
  else if num =? CLS_DWARF_ARM64_FP then Some (FIRCLSThreadContextSetFramePointer c value)
  else if num =? CLS_DWARF_ARM64_SP then Some (FIRCLSThreadContextSetStackPointer c value)
  else if num =? CLS_DWARF_ARM64_LR then
    Some (FIRCLSThreadContextSetPC (FIRCLSThreadContextSetLinkRegister c value) value)
  else None.

(** ** Unwinding one frame without unwind data *)

(** Return address in LR; [None] is [return false], which leaves the registers. *)
Definition FIRCLSUnwindWithLRRegister (registers : C) : option C :=
  let value := FIRCLSThreadContextGetLinkRegister registers in
  if negb (FIRCLSIsValidPointer value) then None
  else Some (FIRCLSThreadContextSetPC registers value).

(** [framePtr + 2 * sizeof(void* )]. *)
Definition FIRCLSUnwindStackPointerFromFramePointer (framePtr : Z) : Z := u64 (framePtr + 2 * 8).

Definition FIRCLSUnwindWithFramePointer (g : mem) (registers : C) (allowScanning : bool)
  : option C :=
  let from_frame :=
    let framePointer := FIRCLSThreadContextGetFramePointer registers in
    match FIRCLSReadMemory g framePointer 16 with
    | None => None
    | Some stack =>
        let registers := FIRCLSThreadContextSetPC registers (le_val (drop 8 stack)) in
        let registers := FIRCLSThreadContextSetFramePointer registers (le_val (take 8 stack)) in
        Some (FIRCLSThreadContextSetStackPointer registers
                (FIRCLSUnwindStackPointerFromFramePointer framePointer))
    end in
  if allowScanning then
    match FIRCLSUnwindWithLRRegister registers with
    | Some registers => Some registers
    | None => from_frame
    end
  else from_frame.

(** ** Lemmas *)

Context `{!MContextLaws C}.

Lemma strip_range p : 0 <= CLS_PTRAUTH_STRIP p < 2 ^ 36.
Proof.
  unfold CLS_PTRAUTH_STRIP. change 0x0000000FFFFFFFFF with (Z.ones 36).
  rewrite Z.land_ones by lia. apply Z.mod_pos_bound. lia.
Qed.

Lemma strip_small p : 0 <= p < 2 ^ 36 -> CLS_PTRAUTH_STRIP p = p.
Proof.
  intros Hp. unfold CLS_PTRAUTH_STRIP. change 0x0000000FFFFFFFFF with (Z.ones 36).
  rewrite Z.land_ones by lia. now apply Z.mod_small.
Qed.

Lemma register_value_range c num : 0 <= FIRCLSDwarfUnwindGetRegisterValue c num < 2 ^ 64.
Proof.
  unfold FIRCLSDwarfUnwindGetRegisterValue, FIRCLSThreadContextGetFramePointer,
    FIRCLSThreadContextGetLinkRegister, FIRCLSThreadContextGetStackPointer.
  assert (forall p, 0 <= CLS_PTRAUTH_STRIP p < 2 ^ 64).
  { intros p. pose proof (strip_range p). zpow. lia. }
  repeat match goal with |- context [if ?b then _ else _] => destruct b end; auto.
  - apply ss_get_range.
  - zpow. lia.
Qed.

(** What reading register [num] gives after register [num'] was set: the value
    (its address bits, for the pointers), or what was there. *)
Lemma get_set_register c num num' value c' :
  FIRCLSDwarfUnwindSetRegisterValue c num' value = Some c' -> num <> num' ->
  FIRCLSDwarfUnwindGetRegisterValue c' num = FIRCLSDwarfUnwindGetRegisterValue c num.
Proof.
  unfold FIRCLSDwarfUnwindSetRegisterValue, FIRCLSDwarfUnwindGetRegisterValue,
    FIRCLSThreadContextGetFramePointer, FIRCLSThreadContextGetLinkRegister,
    FIRCLSThreadContextGetStackPointer, FIRCLSThreadContextSetPC,
    FIRCLSThreadContextSetLinkRegister, FIRCLSThreadContextSetStackPointer,
    FIRCLSThreadContextSetFramePointer.
  intros Hs Hn.
  repeat match type of Hs with
  | (if ?b then _ else _) = _ => let E := fresh "E" in destruct b eqn:E
  end; simplify_eq;
  repeat match goal with |- context [if ?b then _ else _] => let E := fresh "E" in destruct b eqn:E end;
  b2p; subst; try done; try lia; rewrite ?ss_get_set_ne by congruence; done.
Qed.

Lemma get_set_same c num value c' :
  FIRCLSDwarfUnwindSetRegisterValue c num value = Some c' -> 0 <= value < 2 ^ 64 ->
  FIRCLSDwarfUnwindGetRegisterValue c' num =
  if num <=? 28 then value else CLS_PTRAUTH_STRIP value.
Proof.
  unfold FIRCLSDwarfUnwindSetRegisterValue, FIRCLSDwarfUnwindGetRegisterValue,
    FIRCLSThreadContextGetFramePointer, FIRCLSThreadContextGetLinkRegister,
    FIRCLSThreadContextGetStackPointer, FIRCLSThreadContextSetPC,
    FIRCLSThreadContextSetLinkRegister, FIRCLSThreadContextSetStackPointer,
    FIRCLSThreadContextSetFramePointer.
  intros Hs Hv.
  repeat match type of Hs with
  | (if ?b then _ else _) = _ => let E := fresh "E" in destruct b eqn:E
  end; simplify_eq; b2p; subst; cbn;
    rewrite ?(ss_get_set_ne _ PC) by congruence; rewrite ?ss_get_set_strip; try done.
  destruct (Z.leb_spec num 28); [|lia]. now apply ss_get_set_x.
Qed.
End Registers.

(** ** A register file without pointer authentication *)

Definition plain_context := ss_reg -> Z.

#[export] Instance plain_mcontext : MContext plain_context := {|
  ss_get := fun c r => u64 (c r);
  ss_set := fun c r v r' => if decide (r = r') then v else c r';
|}.

#[export] Instance plain_mcontext_laws : MContextLaws plain_context.
Proof.
  split; simpl.
  - intros. apply wrapu_range. lia.
  - intros. now rewrite decide_False.
  - intros. rewrite decide_True by done. now apply wrapu_small.
  - intros c r v. rewrite decide_True by done. unfold CLS_PTRAUTH_STRIP.
    change 0x0000000FFFFFFFFF with (Z.ones 36). rewrite !Z.land_ones by lia.
    apply (wrapu_wrapu 36 64). lia.
Qed.
