(* ===== verification/ExprMachine.v ===== *)
(** * Crashlytics: the DWARF expression machine

    FIRCLSDwarfExpressionMachine.c: a stack of 100 words with a stack pointer
    that becomes NULL on over- or underflow, and the opcodes that work on it. *)
From Stdlib Require Import ZArith Lia Bool List.
From stdpp Require Import base list gmap numbers.
From S2P Require Import Prelude CMem Leb128 CRead DataParsing ThreadState.

Definition CLS_DWARF_EXPRESSION_STACK_SIZE : Z := 100.

Definition DW_OP_deref : Z := 0x06.
Definition DW_OP_dup : Z := 0x12.
Definition DW_OP_swap : Z := 0x16.
Definition DW_OP_and : Z := 0x1A.
Definition DW_OP_plus : Z := 0x22.
Definition DW_OP_plus_uconst : Z := 0x23.
Definition DW_OP_ne : Z := 0x2E.
Definition DW_OP_lit0 : Z := 0x30.
Definition DW_OP_lit31 : Z := 0x4F.
Definition DW_OP_breg0 : Z := 0x70.
Definition DW_OP_breg31 : Z := 0x8F.
Definition DW_OP_deref_size : Z := 0x94.

(** ** The stack *)

(** [pointer] is [None] for NULL and otherwise the distance from [buffer]. *)
Record FIRCLSDwarfExpressionStack := mk_stack {
  buffer : list Z;
  pointer : option Z;
}.

Definition FIRCLSDwarfExpressionStackInit : FIRCLSDwarfExpressionStack :=
  mk_stack (repeat 0 (Z.to_nat CLS_DWARF_EXPRESSION_STACK_SIZE)) (Some 0).

Definition FIRCLSDwarfExpressionStackIsValid (stack : FIRCLSDwarfExpressionStack) : bool :=
  match pointer stack with
  | None => false
  | Some p =>
      if p <? 0 then false
      else if CLS_DWARF_EXPRESSION_STACK_SIZE <? p then false
      else true
  end.

(** [*p] and [*p = value] for a [p] into the buffer: undefined outside it. *)
Definition buffer_get (p : Z) : R FIRCLSDwarfExpressionStack Z :=
  let* stack := rd_get in
  if p <? 0 then rd_fault
  else match buffer stack !! Z.to_nat p with
       | Some v => rd_ret v
       | None => rd_fault
       end.
Definition buffer_set (p value : Z) : R FIRCLSDwarfExpressionStack unit :=
  let* stack := rd_get in
  if (p <? 0) || (Z.of_nat (length (buffer stack)) <=? p) then rd_fault
  else rd_put (mk_stack (<[Z.to_nat p := value]> (buffer stack)) (pointer stack)).
Definition set_pointer (p : option Z) : R FIRCLSDwarfExpressionStack unit :=
  let* stack := rd_get in rd_put (mk_stack (buffer stack) p).

Definition FIRCLSDwarfExpressionStackPush (value : Z) : R FIRCLSDwarfExpressionStack bool :=
  let* stack := rd_get in
  match pointer stack with
  | Some p =>
      if negb (FIRCLSDwarfExpressionStackIsValid stack) then rd_ret false
      else if p =? CLS_DWARF_EXPRESSION_STACK_SIZE then
        set_pointer None ;; rd_ret false
      else
        buffer_set p value ;;
        set_pointer (Some (p + 1)) ;;
        rd_ret true
  | None => rd_ret false
  end.

Definition FIRCLSDwarfExpressionStackPeek : R FIRCLSDwarfExpressionStack Z :=
  let* stack := rd_get in
  match pointer stack with
  | Some p =>
      if negb (FIRCLSDwarfExpressionStackIsValid stack) then rd_ret 0
      else if p =? 0 then set_pointer None ;; rd_ret 0
      else buffer_get (p - 1)
  | None => rd_ret 0
  end.

Definition FIRCLSDwarfExpressionStackPop : R FIRCLSDwarfExpressionStack Z :=
  let* stack := rd_get in
  match pointer stack with
  | Some p =>
      if negb (FIRCLSDwarfExpressionStackIsValid stack) then rd_ret 0
      else if p =? 0 then set_pointer None ;; rd_ret 0
      else
        set_pointer (Some (p - 1)) ;;
        buffer_get (p - 1)
  | None => rd_ret 0
  end.

(** ** The machine *)

Section Machine.
Context {C : Type} `{MContext C}.

Record FIRCLSDwarfExpressionMachine := mk_machine {
  stack : FIRCLSDwarfExpressionStack;
  dataCursor : Z;
  endAddress : Z;
  registers : C;
}.

(** [f(&machine->dataCursor)] and [f(&machine->stack)]. *)
Definition on_cursor {A} (m : R Z A) : R FIRCLSDwarfExpressionMachine A :=
  let* mc := rd_get in
  let* r := rd_on (dataCursor mc) m in
  rd_put (mk_machine (stack mc) (snd r) (endAddress mc) (registers mc)) ;;
  rd_ret (fst r).
Definition on_stack {A} (m : R FIRCLSDwarfExpressionStack A) : R FIRCLSDwarfExpressionMachine A :=
  let* mc := rd_get in
  let* r := rd_on (stack mc) m in
  rd_put (mk_machine (snd r) (dataCursor mc) (endAddress mc) (registers mc)) ;;
  rd_ret (fst r).

(** [None] is [return false]. *)
Definition FIRCLSDwarfExpressionMachineInit (cursor : Z) (regs : C) (stackValue : Z) (g : mem)
  : res (option FIRCLSDwarfExpressionMachine) :=
  if negb (FIRCLSIsValidPointer cursor) then Ret None
  else
    rbind (FIRCLSDwarfExpressionStackPush stackValue g FIRCLSDwarfExpressionStackInit)
      (fun '(success, s) =>
    Ret (if success then Some (mk_machine s cursor 0 regs) else None)).

Definition FIRCLSDwarfExpressionMachinePrepareForExecution : R FIRCLSDwarfExpressionMachine bool :=
  let* expressionLength := on_cursor FIRCLSParseULEB128AndAdvance in
  if expressionLength =? 0 then rd_ret false
  else
    let* mc := rd_get in
    rd_put (mk_machine (stack mc) (dataCursor mc) (dataCursor mc + expressionLength)
              (registers mc)) ;;
    rd_ret true.

Definition FIRCLSDwarfExpressionMachineIsFinished (mc : FIRCLSDwarfExpressionMachine) : bool :=
  if negb (FIRCLSIsValidPointer (endAddress mc)) || negb (FIRCLSIsValidPointer (dataCursor mc))
  then true
  else if negb (FIRCLSDwarfExpressionStackIsValid (stack mc)) then true
  else endAddress mc <=? dataCursor mc.

(** The result, or [None] for [return false]. *)
Definition FIRCLSDwarfExpressionMachineGetResult : R FIRCLSDwarfExpressionMachine (option Z) :=
  let* mc := rd_get in
  if negb (dataCursor mc =? endAddress mc) then rd_ret None
  else
    let* result := on_stack FIRCLSDwarfExpressionStackPeek in
    let* mc := rd_get in
    rd_ret (if FIRCLSDwarfExpressionStackIsValid (stack mc) then Some result else None).

Definition FIRCLSDwarfExpressionMachineStackPop : R FIRCLSDwarfExpressionMachine Z :=
  on_stack FIRCLSDwarfExpressionStackPop.
Definition FIRCLSDwarfExpressionMachineStackPush (value : Z) : R FIRCLSDwarfExpressionMachine bool :=
  on_stack (FIRCLSDwarfExpressionStackPush value).

(** ** Opcodes *)

Definition FIRCLSDwarfExpressionMachineExecute_bregN (opcode : Z)
  : R FIRCLSDwarfExpressionMachine bool :=
  let regNum := u8 (opcode - DW_OP_breg0) in
  if CLS_DWARF_MAX_REGISTER_NUM <? regNum then rd_ret false
  else
    let* offset := on_cursor FIRCLSParseLEB128AndAdvance in
    let* mc := rd_get in
    let value := s64 (FIRCLSDwarfUnwindGetRegisterValue (registers mc) regNum + offset) in
    FIRCLSDwarfExpressionMachineStackPush value.

Definition FIRCLSDwarfExpressionMachineExecute_deref : R FIRCLSDwarfExpressionMachine bool :=
  let* value := FIRCLSDwarfExpressionMachineStackPop in
  let* word := (fun g s => Ret (FIRCLSReadMemory g (u64 value) 8, s)) in
  match word with
  | None => rd_ret false
  | Some l => FIRCLSDwarfExpressionMachineStackPush (s64 (le_val l))
  end.

Definition FIRCLSDwarfExpressionMachineExecute_plus_uconst : R FIRCLSDwarfExpressionMachine bool :=
  let* value := FIRCLSDwarfExpressionMachineStackPop in
  let* n := on_cursor FIRCLSParseULEB128AndAdvance in
  FIRCLSDwarfExpressionMachineStackPush (s64 (value + n)).

Definition FIRCLSDwarfExpressionMachineExecute_and : R FIRCLSDwarfExpressionMachine bool :=
  let* value := FIRCLSDwarfExpressionMachineStackPop in
  let* other := FIRCLSDwarfExpressionMachineStackPop in
  FIRCLSDwarfExpressionMachineStackPush (Z.land value other).

Definition FIRCLSDwarfExpressionMachineExecute_plus : R FIRCLSDwarfExpressionMachine bool :=
  let* value := FIRCLSDwarfExpressionMachineStackPop in
  let* other := FIRCLSDwarfExpressionMachineStackPop in
  let* sum := int64_add value other in
  FIRCLSDwarfExpressionMachineStackPush sum.

Definition FIRCLSDwarfExpressionMachineExecute_dup : R FIRCLSDwarfExpressionMachine bool :=
  let* value := on_stack FIRCLSDwarfExpressionStackPeek in
  FIRCLSDwarfExpressionMachineStackPush value.

Definition FIRCLSDwarfExpressionMachineExecute_swap : R FIRCLSDwarfExpressionMachine bool :=
  let* valueA := FIRCLSDwarfExpressionMachineStackPop in
  let* valueB := FIRCLSDwarfExpressionMachineStackPop in
  let* success := FIRCLSDwarfExpressionMachineStackPush valueA in
  if negb success then rd_ret false
  else FIRCLSDwarfExpressionMachineStackPush valueB.

(** The memory is read through the parsers, without [FIRCLSReadMemory]. *)
Definition FIRCLSDwarfExpressionMachineExecute_deref_size : R FIRCLSDwarfExpressionMachine bool :=
  let* address := FIRCLSDwarfExpressionMachineStackPop in
  let* readSize := on_cursor FIRCLSParseUint8AndAdvance in
  let push (m : R Z Z) : R FIRCLSDwarfExpressionMachine bool :=
    let* r := rd_on (u64 address) m in
    FIRCLSDwarfExpressionMachineStackPush (s64 (fst r)) in
  if readSize =? 1 then push FIRCLSParseUint8AndAdvance
  else if readSize =? 2 then push FIRCLSParseUint16AndAdvance
  else if readSize =? 4 then push FIRCLSParseUint32AndAdvance
  else if readSize =? 8 then push FIRCLSParseUint64AndAdvance
  else rd_ret false.

Definition FIRCLSDwarfExpressionMachineExecute_ne : R FIRCLSDwarfExpressionMachine bool :=
  let* value := FIRCLSDwarfExpressionMachineStackPop in
  let* other := FIRCLSDwarfExpressionMachineStackPop in
  FIRCLSDwarfExpressionMachineStackPush (if value =? other then 0 else 1).

Definition FIRCLSDwarfExpressionMachineExecute_litN (opcode : Z)
  : R FIRCLSDwarfExpressionMachine bool :=
  let value := u8 (opcode - DW_OP_lit0) in
  FIRCLSDwarfExpressionMachineStackPush value.

Definition FIRCLSDwarfExpressionMachineExecuteNextOpcode : R FIRCLSDwarfExpressionMachine bool :=
  let* opcode := on_cursor FIRCLSParseUint8AndAdvance in
  if opcode =? DW_OP_deref then FIRCLSDwarfExpressionMachineExecute_deref
  else if opcode =? DW_OP_dup then FIRCLSDwarfExpressionMachineExecute_dup
  else if opcode =? DW_OP_and then FIRCLSDwarfExpressionMachineExecute_and
  else if opcode =? DW_OP_plus then FIRCLSDwarfExpressionMachineExecute_plus
  else if opcode =? DW_OP_swap then FIRCLSDwarfExpressionMachineExecute_swap
  else if opcode =? DW_OP_plus_uconst then FIRCLSDwarfExpressionMachineExecute_plus_uconst
  else if opcode =? DW_OP_ne then FIRCLSDwarfExpressionMachineExecute_ne
  else if (DW_OP_lit0 <=? opcode) && (opcode <=? DW_OP_lit31) then
    FIRCLSDwarfExpressionMachineExecute_litN opcode
  else if (DW_OP_breg0 <=? opcode) && (opcode <=? DW_OP_breg31) then
    FIRCLSDwarfExpressionMachineExecute_bregN opcode
  else if opcode =? DW_OP_deref_size then FIRCLSDwarfExpressionMachineExecute_deref_size
  else rd_ret false.

(** ** Evaluation (FIRCLSDwarfUnwind.c) *)

(** [while (!IsFinished(&machine)) if (!ExecuteNextOpcode(&machine)) return false;] *)
Fixpoint execute_loop (fuel : nat) : R FIRCLSDwarfExpressionMachine bool :=
  let* mc := rd_get in
  if FIRCLSDwarfExpressionMachineIsFinished mc then rd_ret true
  else match fuel with
       | O => rd_nofuel
       | S fuel =>
           let* success := FIRCLSDwarfExpressionMachineExecuteNextOpcode in
           if negb success then rd_ret false else execute_loop fuel
       end.

(** Every opcode takes at least one byte, so the length of the expression
    bounds the number of iterations. *)
Definition run_expression : R FIRCLSDwarfExpressionMachine (option Z) :=
  let* prepared := FIRCLSDwarfExpressionMachinePrepareForExecution in
  if negb prepared then rd_ret None
  else
    let* mc := rd_get in
    let* success := execute_loop (Z.to_nat (endAddress mc - dataCursor mc)) in
    if negb success then rd_ret None
    else FIRCLSDwarfExpressionMachineGetResult.

Definition FIRCLSDwarfEvalulateExpression (cursor : Z) (regs : C) (stackValue : Z) (g : mem)
  : res (option Z) :=
  if negb (FIRCLSIsValidPointer cursor) then Ret None
  else
    rbind (FIRCLSDwarfExpressionMachineInit cursor regs stackValue g) (fun machine =>
    match machine with
    | None => Ret None
    | Some mc => rbind (run_expression g mc) (fun '(result, _) => Ret result)
    end).
End Machine.
Arguments FIRCLSDwarfExpressionMachine C : clear implicits.
