(* ===== verification/ExprSpec.v ===== *)
(** * Crashlytics: expressions as programs on a stack of words

    An abstract semantics of the DWARF expressions the unwinder supports, on a
    list of words with a capacity, and the proof that the machine of
    FIRCLSDwarfExpressionMachine.c implements it: buffer, stack pointer, opcode
    bytes, operands and all. *)
From Stdlib Require Import ZArith Lia Bool List.
From stdpp Require Import base list gmap numbers.
From S2P Require Import Prelude CMem Leb128 CRead DataParsing ThreadState ExprMachine.

(** ** Abstract semantics *)

Inductive dw_op :=
| OpDeref
| OpDup
| OpAnd
| OpPlus
| OpSwap
| OpPlusUconst (n : Z)
| OpNe
| OpLit (n : Z)
| OpBreg (reg offset : Z)
| OpDerefSize (n : Z).

(** The byte strings an operation may be written as. *)
Definition op_bytes (op : dw_op) (l : list Z) : Prop :=
  match op with
  | OpDeref => l = [DW_OP_deref]
  | OpDup => l = [DW_OP_dup]
  | OpAnd => l = [DW_OP_and]
  | OpPlus => l = [DW_OP_plus]
  | OpSwap => l = [DW_OP_swap]
  | OpPlusUconst n => exists u, l = DW_OP_plus_uconst :: u /\ is_varint u /\
                        leb_ok 0 0 u = true /\ varint_val u = n
  | OpNe => l = [DW_OP_ne]
  | OpLit n => 0 <= n <= 31 /\ l = [DW_OP_lit0 + n]
  | OpBreg r o => 0 <= r <= 31 /\ exists u, l = DW_OP_breg0 + r :: u /\ is_varint u /\
                    sleb_ok u = true /\ sleb_val u = o
  | OpDerefSize n => is_byte n /\ l = [DW_OP_deref_size; n]
  end.

Section Spec.
Context {C : Type} `{MContext C}.

(** The top of the stack is the head of the list. [None] is failure. *)
Definition sp_push (v : Z) (st : list Z) : option (list Z) :=
  if (length st <? 100)%nat then Some (v :: st) else None.

(** One operation: a new stack, a failure, or undefined behaviour. *)
Definition op_step (regs : C) (g : mem) (op : dw_op) (st : list Z) : res (option (list Z)) :=
  match op, st with
  | OpDeref, v :: st =>
      Ret (match FIRCLSReadMemory g (u64 v) 8 with
           | Some l => sp_push (s64 (le_val l)) st
           | None => None
           end)
  | OpDup, v :: st => Ret (sp_push v (v :: st))
  | OpAnd, a :: b :: st => Ret (Some (Z.land a b :: st))
  | OpPlus, a :: b :: st =>
      if (- 2 ^ 63 <=? a + b) && (a + b <? 2 ^ 63) then Ret (Some (a + b :: st)) else Fault
  | OpSwap, a :: b :: st => Ret (Some (b :: a :: st))
  | OpPlusUconst n, v :: st => Ret (Some (s64 (v + n) :: st))
  | OpNe, a :: b :: st => Ret (Some ((if a =? b then 0 else 1) :: st))
  | OpLit n, st => Ret (sp_push n st)
  | OpBreg r o, st => Ret (sp_push (s64 (FIRCLSDwarfUnwindGetRegisterValue regs r + o)) st)
  | OpDerefSize n, v :: st =>
      if (n =? 1) || (n =? 2) || (n =? 4) || (n =? 8) then
        match load_bytes g (u64 v) (Z.to_nat n) with
        | Some l => Ret (Some (s64 (le_val l) :: st))
        | None => Fault
        end
      else Ret None
  | _, _ => Ret None
  end.

Fixpoint ops_run (regs : C) (g : mem) (ops : list dw_op) (st : list Z) : res (option (list Z)) :=
  match ops with
  | [] => Ret (Some st)
  | op :: ops => rbind (op_step regs g op st) (fun o =>
                   match o with
                   | Some st => ops_run regs g ops st
                   | None => Ret None
                   end)
  end.

(** Operations that never find the stack too short: at least one word is there,
    and it stays so. *)
Lemma op_step_nonempty regs g op st st' :
  st <> [] -> op_step regs g op st = Ret (Some st') -> st' <> [].
Proof.
  intros Hs E. destruct op, st as [|v [|v' st]]; simpl in E; try done;
    unfold sp_push in E; repeat case_match; naive_solver.
Qed.

(** ** The machine's stack represents a list *)

Definition stack_rel (s : FIRCLSDwarfExpressionStack) (st : list Z) : Prop :=
  pointer s = Some (Z.of_nat (length st)) /\ length (buffer s) = 100%nat /\
  exists rest, buffer s = rev st ++ rest.

Lemma stack_rel_len s st : stack_rel s st -> (length st <= 100)%nat.
Proof.
  intros (_ & L & rest & E). rewrite E, length_app, length_rev in L. lia.
Qed.

Lemma stack_rel_valid s st : stack_rel s st -> FIRCLSDwarfExpressionStackIsValid s = true.
Proof.
  intros H1. pose proof (stack_rel_len _ _ H1) as L. destruct H1 as (P & _).
  unfold FIRCLSDwarfExpressionStackIsValid, CLS_DWARF_EXPRESSION_STACK_SIZE. rewrite P.
  destruct (Z.ltb_spec (Z.of_nat (length st)) 0), (Z.ltb_spec 100 (Z.of_nat (length st)));
    (lia || done).
Qed.

Lemma stack_rel_init : stack_rel FIRCLSDwarfExpressionStackInit [].
Proof. split; [done|]. split; [done|]. now eexists. Qed.

(** A stack whose pointer was cleared takes nothing more. *)
Definition dead (s : FIRCLSDwarfExpressionStack) : Prop := pointer s = None.

Lemma push_dead v g s : dead s -> FIRCLSDwarfExpressionStackPush v g s = Ret (false, s).
Proof. unfold dead. intros D. unfold FIRCLSDwarfExpressionStackPush, rd_bind, rd_get. simpl. now rewrite D. Qed.

Lemma pop_dead g s : dead s -> FIRCLSDwarfExpressionStackPop g s = Ret (0, s).
Proof. unfold dead. intros D. unfold FIRCLSDwarfExpressionStackPop, rd_bind, rd_get. simpl. now rewrite D. Qed.

Lemma push_full v g s st :
  stack_rel s st -> length st = 100%nat ->
  exists s', FIRCLSDwarfExpressionStackPush v g s = Ret (false, s') /\ dead s'.
Proof.
  intros Hs L. pose proof (stack_rel_valid _ _ Hs) as V. destruct Hs as (P & B & _).
  unfold FIRCLSDwarfExpressionStackPush, rd_bind, rd_get. cbn [rbind]. rewrite P, V, L.
  simpl. now eexists.
Qed.

Lemma push_rel v g s st :
  stack_rel s st -> (length st < 100)%nat ->
  exists s', FIRCLSDwarfExpressionStackPush v g s = Ret (true, s') /\ stack_rel s' (v :: st).
Proof.
  intros Hs L. pose proof (stack_rel_valid _ _ Hs) as V. destruct Hs as (P & B & rest & E).
  unfold FIRCLSDwarfExpressionStackPush, rd_bind, rd_get. cbn [rbind]. rewrite P, V.
  unfold CLS_DWARF_EXPRESSION_STACK_SIZE, buffer_set, set_pointer, rd_bind, rd_get. cbn [rbind negb].
  destruct (Z.eqb_spec (Z.of_nat (length st)) 100); [lia|]. rewrite B.
  destruct (Z.ltb_spec (Z.of_nat (length st)) 0), (Z.leb_spec (Z.of_nat 100) (Z.of_nat (length st)));
    try lia. cbn [orb].
  eexists. split; [reflexivity|]. split; [|split]; cbn [buffer pointer].
  - f_equal. cbn [length]. lia.
  - now rewrite length_insert.
  - rewrite E in B |- *. rewrite length_app, length_rev in B.
    destruct rest as [|x rest]; [simpl in B; lia|]. exists rest.
    rewrite Nat2Z.id, insert_app_r_alt by (rewrite length_rev; lia).
    rewrite length_rev, Nat.sub_diag. simpl. now rewrite <- app_assoc.
Qed.

Lemma pop_rel v g s st :
  stack_rel s (v :: st) ->
  exists s', FIRCLSDwarfExpressionStackPop g s = Ret (v, s') /\ stack_rel s' st.
Proof.
  intros Hs. pose proof (stack_rel_valid _ _ Hs) as V. destruct Hs as (P & B & rest & E).
  unfold FIRCLSDwarfExpressionStackPop, rd_bind, rd_get. cbn [rbind]. rewrite P, V.
  unfold buffer_get, set_pointer, rd_bind, rd_get. cbn [rbind negb length].
  destruct (Z.eqb_spec (Z.of_nat (S (length st))) 0); [lia|]. cbn [rd_put rbind buffer].
  destruct (Z.ltb_spec (Z.of_nat (S (length st)) - 1) 0); [lia|].
  replace (Z.to_nat (Z.of_nat (S (length st)) - 1)) with (length st) by lia.
  simpl in E. rewrite <- app_assoc in E.
  rewrite E, lookup_app_r, length_rev, Nat.sub_diag by (rewrite length_rev; lia). simpl.
  eexists. split; [reflexivity|]. split; [|split]; cbn [buffer pointer].
  - f_equal. lia.
  - now rewrite E in B.
  - now eexists.
Qed.

Lemma pop_empty g s :
  stack_rel s [] -> exists s', FIRCLSDwarfExpressionStackPop g s = Ret (0, s') /\ dead s'.
Proof.
  intros Hs. pose proof (stack_rel_valid _ _ Hs) as V. destruct Hs as (P & B & rest & E).
  unfold FIRCLSDwarfExpressionStackPop, rd_bind, rd_get. cbn [rbind]. rewrite P, V.
  simpl. now eexists.
Qed.

Lemma peek_rel v g s st :
  stack_rel s (v :: st) -> FIRCLSDwarfExpressionStackPeek g s = Ret (v, s).
Proof.
  intros Hs. pose proof (stack_rel_valid _ _ Hs) as V. destruct Hs as (P & B & rest & E).
  unfold FIRCLSDwarfExpressionStackPeek, rd_bind, rd_get. cbn [rbind]. rewrite P, V.
  unfold buffer_get, rd_bind, rd_get. cbn [rbind negb length].
  destruct (Z.eqb_spec (Z.of_nat (S (length st))) 0); [lia|].
  destruct (Z.ltb_spec (Z.of_nat (S (length st)) - 1) 0); [lia|].
  replace (Z.to_nat (Z.of_nat (S (length st)) - 1)) with (length st) by lia.
  simpl in E. rewrite <- app_assoc in E.
  rewrite E, lookup_app_r, length_rev, Nat.sub_diag by (rewrite length_rev; lia). done.
Qed.

(** ** Opcodes implement operations *)

(** What running code on the machine has to give for an abstract outcome: the
    cursor is at [c], the rest of the machine is as before but for the stack. *)
Definition refines (r : res (option (list Z))) (c e : Z) (regs : C)
    (out : res (bool * FIRCLSDwarfExpressionMachine C)) : Prop :=
  match r with
  | Ret (Some st) => exists s, out = Ret (true, mk_machine s c e regs) /\ stack_rel s st
  | Ret None => exists m, out = Ret (false, m)
  | Fault => out = Fault
  | OutOfFuel => False
  end.

Lemma on_stack_eq {A} (f : R FIRCLSDwarfExpressionStack A) g s s' a c e (regs : C) :
  f g s = Ret (a, s') ->
  on_stack f g (mk_machine s c e regs) = Ret (a, mk_machine s' c e regs).
Proof. intros E. unfold on_stack, rd_bind, rd_get, rd_on, rd_put. cbn. now rewrite E. Qed.

Lemma on_cursor_eq {A} (f : R Z A) g s c c' a e (regs : C) :
  f g c = Ret (a, c') ->
  on_cursor f g (mk_machine s c e regs) = Ret (a, mk_machine s c' e regs).
Proof. intros E. unfold on_cursor, rd_bind, rd_get, rd_on, rd_put. cbn. now rewrite E. Qed.

(** Pushing at the machine is the bounded push of the abstract stack. *)
Lemma machine_push v g s st c e (regs : C) :
  stack_rel s st ->
  refines (Ret (sp_push v st)) c e regs
    (FIRCLSDwarfExpressionMachineStackPush v g (mk_machine s c e regs)).
Proof.
  intros Hs. pose proof (stack_rel_len _ _ Hs) as L. unfold sp_push.
  destruct (Nat.ltb_spec (length st) 100).
  - destruct (push_rel v g s st Hs) as (s' & E & Hs'); [done|].
    exists s'. split; [now apply on_stack_eq|done].
  - destruct (push_full v g s st Hs) as (s' & E & D); [lia|].
    eexists. apply on_stack_eq. exact E.
Qed.

Lemma machine_push_dead v g s c e (regs : C) :
  dead s -> FIRCLSDwarfExpressionMachineStackPush v g (mk_machine s c e regs) =
            Ret (false, mk_machine s c e regs).
Proof. intros D. apply on_stack_eq. now apply push_dead. Qed.

(** A push right after a pop has room. *)
Lemma machine_push_room v g s st c e (regs : C) :
  stack_rel s st -> (length st < 100)%nat ->
  refines (Ret (Some (v :: st))) c e regs
    (FIRCLSDwarfExpressionMachineStackPush v g (mk_machine s c e regs)).
Proof.
  intros Hs L. pose proof (machine_push v g s st c e regs Hs) as P. unfold sp_push in P.
  destruct (Nat.ltb_spec (length st) 100); [done|lia].
Qed.

(** Popping gives the top; popping an empty stack gives 0 and kills it. *)
Lemma machine_pop g s st c e (regs : C) :
  stack_rel s st ->
  exists s', FIRCLSDwarfExpressionMachineStackPop g (mk_machine s c e regs) =
             Ret (default 0 (head st), mk_machine s' c e regs) /\
             match st with [] => dead s' | _ :: st => stack_rel s' st end.
Proof.
  intros Hs. destruct st as [|v st].
  - destruct (pop_empty g s Hs) as (s' & E & D). exists s'. split; [now apply on_stack_eq|done].
  - destruct (pop_rel v g s st Hs) as (s' & E & D). exists s'. split; [now apply on_stack_eq|done].
Qed.

Lemma machine_pop_dead g s c e (regs : C) :
  dead s -> FIRCLSDwarfExpressionMachineStackPop g (mk_machine s c e regs) =
            Ret (0, mk_machine s c e regs).
Proof. intros D. apply on_stack_eq. now apply pop_dead. Qed.

Ltac exec := unfold rd_bind at 1.
Ltac pop_step Hs := exec;
  match goal with
  | |- context [FIRCLSDwarfExpressionMachineStackPop ?g (mk_machine ?s ?c ?e ?r)] =>
      let s' := fresh "s" in let E := fresh "E" in let H' := fresh "Hp" in
      destruct (machine_pop g s _ c e r Hs) as (s' & E & H'); rewrite E; clear E; cbn [rbind]
  end.

Lemma exec_deref g s st c e (regs : C) :
  stack_rel s st ->
  refines (op_step regs g OpDeref st) c e regs
    (FIRCLSDwarfExpressionMachineExecute_deref g (mk_machine s c e regs)).
Proof.
  intros Hs. unfold FIRCLSDwarfExpressionMachineExecute_deref. pop_step Hs.
  exec. destruct st as [|v st]; cbn [head from_option id default op_step rbind].
  - unfold FIRCLSReadMemory. simpl. now eexists.
  - cbv beta. destruct (FIRCLSReadMemory g (u64 v) 8) as [l|]; [|now eexists].
    now apply machine_push.
Qed.

Lemma exec_dup g s st c e (regs : C) :
  stack_rel s st ->
  refines (op_step regs g OpDup st) c e regs
    (FIRCLSDwarfExpressionMachineExecute_dup g (mk_machine s c e regs)).
Proof.
  intros Hs. unfold FIRCLSDwarfExpressionMachineExecute_dup. exec.
  destruct st as [|v st]; cbn [op_step].
  - pose proof (stack_rel_valid _ _ Hs) as V. destruct Hs as (P & _).
    assert (E : FIRCLSDwarfExpressionStackPeek g s = Ret (0, mk_stack (buffer s) None)).
    { unfold FIRCLSDwarfExpressionStackPeek, rd_bind, rd_get. cbn [rbind]. rewrite P, V. done. }
    rewrite (on_stack_eq _ _ _ _ _ c e regs E). cbn [rbind].
    rewrite machine_push_dead by done. now eexists.
  - rewrite (on_stack_eq _ _ _ _ _ c e regs (peek_rel v g s st Hs)). cbn [rbind].
    now apply machine_push.
Qed.

(** The operations on two words share their start: pop two. *)
Lemma pop_two {A} (f : Z -> Z -> R (FIRCLSDwarfExpressionMachine C) A) g s st c e (regs : C) :
  stack_rel s st ->
  exists s',
    (let* a := FIRCLSDwarfExpressionMachineStackPop in
     let* b := FIRCLSDwarfExpressionMachineStackPop in f a b) g (mk_machine s c e regs) =
    f (default 0 (head st)) (default 0 (head (tail st))) g (mk_machine s' c e regs) /\
    match st with
    | _ :: _ :: st => stack_rel s' st /\ (length st < 99)%nat
    | _ => dead s'
    end.
Proof.
  intros Hs. pose proof (stack_rel_len _ _ Hs). pop_step Hs. exec.
  destruct st as [|v st]; cbn [head from_option id default tail].
  - rewrite machine_pop_dead by done. now eexists.
  - destruct (machine_pop g s0 st c e regs Hp) as (s1 & E & Hp1). rewrite E. cbn [rbind].
    exists s1. split; [done|]. destruct st; [done|]. split; [done|]. simpl in *. lia.
Qed.

Ltac pop_two_step Hs :=
  match goal with
  | |- context [rd_bind FIRCLSDwarfExpressionMachineStackPop
                  (fun a => rd_bind FIRCLSDwarfExpressionMachineStackPop (@?f a))
                  ?g (mk_machine ?s ?c ?e ?r)] =>
      let s' := fresh "s" in let E := fresh "E" in let H' := fresh "Hp" in
      destruct (pop_two f g s _ c e r Hs) as (s' & E & H'); rewrite E; clear E
  end.

(** Pushing one word after popping two. *)
Lemma push_binary v g s st c e (regs : C) :
  match st with _ :: _ :: st => stack_rel s st /\ (length st < 99)%nat | _ => dead s end ->
  refines (Ret (match st with _ :: _ :: st => Some (v :: st) | _ => None end)) c e regs
    (FIRCLSDwarfExpressionMachineStackPush v g (mk_machine s c e regs)).
Proof.
  intros Hp. destruct st as [|a [|b st]].
  - rewrite machine_push_dead by done. now eexists.
  - rewrite machine_push_dead by done. now eexists.
  - destruct Hp. apply machine_push_room; [done|lia].
Qed.

Lemma exec_and g s st c e (regs : C) :
  stack_rel s st ->
  refines (op_step regs g OpAnd st) c e regs
    (FIRCLSDwarfExpressionMachineExecute_and g (mk_machine s c e regs)).
Proof.
  intros Hs. unfold FIRCLSDwarfExpressionMachineExecute_and. pop_two_step Hs.
  pose proof (fun v => push_binary v g s0 st c e regs Hp) as P.
  destruct st as [|a [|b st]]; apply P.
Qed.

Lemma exec_ne g s st c e (regs : C) :
  stack_rel s st ->
  refines (op_step regs g OpNe st) c e regs
    (FIRCLSDwarfExpressionMachineExecute_ne g (mk_machine s c e regs)).
Proof.
  intros Hs. unfold FIRCLSDwarfExpressionMachineExecute_ne. pop_two_step Hs.
  pose proof (fun v => push_binary v g s0 st c e regs Hp) as P.
  destruct st as [|a [|b st]]; apply P.
Qed.

(** The words of the stack are [intptr_t]s. *)
Definition words (st : list Z) : Prop := Forall (fun v => - 2 ^ 63 <= v < 2 ^ 63) st.

Lemma exec_plus g s st c e (regs : C) :
  stack_rel s st -> words st ->
  refines (op_step regs g OpPlus st) c e regs
    (FIRCLSDwarfExpressionMachineExecute_plus g (mk_machine s c e regs)).
Proof.
  intros Hs Hw. unfold FIRCLSDwarfExpressionMachineExecute_plus. pop_two_step Hs.
  exec. unfold int64_add, int64_check.
  destruct st as [|a [|b st]]; cbn [head tail from_option id default op_step].
  - simpl. rewrite machine_push_dead by done. now eexists.
  - inversion_clear Hw. rewrite Z.add_0_r.
    destruct (Z.leb_spec (- 2 ^ 63) a), (Z.ltb_spec a (2 ^ 63)); try lia. simpl.
    rewrite machine_push_dead by done. now eexists.
  - destruct ((- 2 ^ 63 <=? a + b) && (a + b <? 2 ^ 63)); [|done]. cbn [rbind rd_ret].
    destruct Hp. apply machine_push_room; [done|lia].
Qed.

Lemma exec_swap g s st c e (regs : C) :
  stack_rel s st ->
  refines (op_step regs g OpSwap st) c e regs
    (FIRCLSDwarfExpressionMachineExecute_swap g (mk_machine s c e regs)).
Proof.
  intros Hs. unfold FIRCLSDwarfExpressionMachineExecute_swap. pop_two_step Hs. exec.
  destruct st as [|a [|b st]]; cbn [head tail from_option id default op_step].
  1,2: rewrite machine_push_dead by done; now eexists.
  destruct Hp as [Hp L].
  destruct (machine_push_room a g s0 st c e regs Hp) as (s1 & E & Hs1); [lia|].
  rewrite E. cbn [rbind negb]. apply machine_push_room; [done|simpl; lia].
Qed.

Lemma exec_plus_uconst g s st c e (regs : C) u :
  stack_rel s st -> is_varint u -> leb_ok 0 0 u = true -> has_at g c u ->
  refines (op_step regs g (OpPlusUconst (varint_val u)) st) (c + Z.of_nat (length u)) e regs
    (FIRCLSDwarfExpressionMachineExecute_plus_uconst g (mk_machine s c e regs)).
Proof.
  intros Hs Hv Ok Hg. unfold FIRCLSDwarfExpressionMachineExecute_plus_uconst.
  pose proof (stack_rel_len _ _ Hs). pop_step Hs. exec.
  pose proof (uleb_parse u g c Hv Hg) as E. rewrite Ok in E.
  rewrite (on_cursor_eq _ _ _ _ _ _ e regs E). cbn [rbind].
  destruct st as [|v st]; cbn [head from_option id default op_step].
  - rewrite machine_push_dead by done. now eexists.
  - apply machine_push_room; [done|]. simpl in *. lia.
Qed.

Lemma exec_lit g s st c e (regs : C) n :
  stack_rel s st -> 0 <= n <= 31 ->
  refines (op_step regs g (OpLit n) st) c e regs
    (FIRCLSDwarfExpressionMachineExecute_litN (DW_OP_lit0 + n) g (mk_machine s c e regs)).
Proof.
  intros Hs Hn. unfold FIRCLSDwarfExpressionMachineExecute_litN.
  replace (u8 (DW_OP_lit0 + n - DW_OP_lit0)) with n; [now apply machine_push|].
  symmetry. rewrite Z.add_simpl_l. apply wrapu_small. zpow. simpl. lia.
Qed.

Lemma exec_breg g s st c e (regs : C) n u :
  stack_rel s st -> 0 <= n <= 31 -> is_varint u -> sleb_ok u = true -> has_at g c u ->
  refines (op_step regs g (OpBreg n (sleb_val u)) st) (c + Z.of_nat (length u)) e regs
    (FIRCLSDwarfExpressionMachineExecute_bregN (DW_OP_breg0 + n) g (mk_machine s c e regs)).
Proof.
  intros Hs Hn Hv Ok Hg. unfold FIRCLSDwarfExpressionMachineExecute_bregN.
  assert (u8 (DW_OP_breg0 + n - DW_OP_breg0) = n) as ->.
  { rewrite Z.add_simpl_l. apply wrapu_small. zpow. simpl. lia. }
  unfold CLS_DWARF_MAX_REGISTER_NUM, CLS_DWARF_ARM64_SP. destruct (Z.ltb_spec 31 n); [lia|].
  exec. pose proof (sleb_parse u g c Hv Hg) as E. rewrite Ok in E.
  rewrite (on_cursor_eq _ _ _ _ _ _ e regs E). cbn [rbind]. exec. cbn [rd_get rbind registers].
  now apply machine_push.
Qed.

Lemma exec_deref_size g s st c e (regs : C) n :
  stack_rel s st -> st <> [] -> g !! c = Some n ->
  refines (op_step regs g (OpDerefSize n) st) (c + 1) e regs
    (FIRCLSDwarfExpressionMachineExecute_deref_size g (mk_machine s c e regs)).
Proof.
  intros Hs Hne Hg. unfold FIRCLSDwarfExpressionMachineExecute_deref_size.
  pose proof (stack_rel_len _ _ Hs). pop_step Hs. exec.
  assert (E : FIRCLSParseUint8AndAdvance g c = Ret (n, c + 1)).
  { unfold FIRCLSParseUint8AndAdvance, parse_bytes, rd_bind, rd_get, rd_put. cbn [rbind].
    now rewrite (load_byte _ _ _ _ Hg). }
  rewrite (on_cursor_eq _ _ _ _ _ _ e regs E). cbn [rbind]. clear E.
  destruct st as [|v st]; [done|]. cbn [head from_option id default op_step].
  assert (P : forall k, (k = 1 \/ k = 2 \/ k = 4 \/ k = 8) ->
    refines (match load_bytes g (u64 v) (Z.to_nat k) with
             | Some l => Ret (Some (s64 (le_val l) :: st)) | None => Fault end) (c + 1) e regs
      ((let* r := rd_on (u64 v) (parse_bytes k) in
        FIRCLSDwarfExpressionMachineStackPush (s64 (fst r))) g (mk_machine s0 (c + 1) e regs))).
  { intros k Hk. unfold rd_bind at 1, rd_on, parse_bytes, rd_bind, rd_get, rd_load, rd_put.
    cbn [rbind]. destruct (load_bytes g (u64 v) (Z.to_nat k)); [|done]. cbn [of_option rbind rd_ret fst].
    apply machine_push_room; [done|]. simpl in *. lia. }
  destruct (Z.eqb_spec n 1) as [->|]; [apply (P 1); auto|].
  destruct (Z.eqb_spec n 2) as [->|]; [apply (P 2); auto|].
  destruct (Z.eqb_spec n 4) as [->|]; [apply (P 4); auto|].
  destruct (Z.eqb_spec n 8) as [->|]; [apply (P 8); auto|]. now eexists.
Qed.

(** ** One opcode, any operation *)

Lemma op_refines op l g s st c e (regs : C) :
  op_bytes op l -> has_at g c l -> stack_rel s st -> words st -> st <> [] ->
  refines (op_step regs g op st) (c + Z.of_nat (length l)) e regs
    (FIRCLSDwarfExpressionMachineExecuteNextOpcode g (mk_machine s c e regs)).
Proof.
  intros Ho Hg Hs Hw Hne. unfold FIRCLSDwarfExpressionMachineExecuteNextOpcode.
  assert (exists b u, l = b :: u) as (b & u & ->).
  { destruct op; simpl in Ho; naive_solver. }
  apply has_at_cons in Hg as [Hb Hg].
  exec. assert (E : FIRCLSParseUint8AndAdvance g c = Ret (b, c + 1)).
  { unfold FIRCLSParseUint8AndAdvance, parse_bytes, rd_bind, rd_get, rd_put. cbn [rbind].
    now rewrite (load_byte _ _ _ _ Hb). }
  rewrite (on_cursor_eq _ _ _ _ _ _ e regs E). cbn [rbind]. clear E.
  replace (c + Z.of_nat (length (b :: u))) with (c + 1 + Z.of_nat (length u)) by (simpl; lia).
  assert (Z0 : u = [] -> c + 1 + Z.of_nat (length u) = c + 1) by (intros ->; simpl; lia).
  destruct op; cbn [op_bytes] in Ho.
  - injection Ho as -> ->. rewrite Z0 by done. now apply exec_deref.
  - injection Ho as -> ->. rewrite Z0 by done. now apply exec_dup.
  - injection Ho as -> ->. rewrite Z0 by done. now apply exec_and.
  - injection Ho as -> ->. rewrite Z0 by done. now apply exec_plus.
  - injection Ho as -> ->. rewrite Z0 by done. now apply exec_swap.
  - destruct Ho as (u' & [= -> ->] & Hv & Ok & <-). now apply exec_plus_uconst.
  - injection Ho as -> ->. rewrite Z0 by done. now apply exec_ne.
  - destruct Ho as (Hn & [= -> ->]). rewrite Z0 by done.
    pose proof (exec_lit g s st (c + 1) e regs n Hs Hn) as P.
    unfold DW_OP_deref, DW_OP_dup, DW_OP_and, DW_OP_plus, DW_OP_swap, DW_OP_plus_uconst,
      DW_OP_ne, DW_OP_lit31, DW_OP_lit0 in *.
    repeat match goal with |- context [?x =? ?y] => destruct (Z.eqb_spec x y); [lia|] end.
    destruct (Z.leb_spec 48 (48 + n)), (Z.leb_spec (48 + n) 79); try lia. exact P.
  - destruct Ho as (Hn & u' & [= -> ->] & Hv & Ok & <-).
    pose proof (exec_breg g s st (c + 1) e regs reg u' Hs Hn Hv Ok Hg) as P.
    unfold DW_OP_deref, DW_OP_dup, DW_OP_and, DW_OP_plus, DW_OP_swap, DW_OP_plus_uconst,
      DW_OP_ne, DW_OP_lit31, DW_OP_lit0, DW_OP_breg0, DW_OP_breg31 in *.
    repeat match goal with |- context [?x =? ?y] => destruct (Z.eqb_spec x y); [lia|] end.
    destruct (Z.leb_spec 48 (112 + reg)), (Z.leb_spec (112 + reg) 79),
      (Z.leb_spec 112 (112 + reg)), (Z.leb_spec (112 + reg) 143); try lia. exact P.
  - destruct Ho as (Hn & [= -> ->]). apply has_at_cons in Hg as [Hg _].
    exact (exec_deref_size g s st (c + 1) e regs n Hs Hne Hg).
Qed.

Lemma land_word a b : - 2 ^ 63 <= a < 2 ^ 63 -> - 2 ^ 63 <= b < 2 ^ 63 ->
  - 2 ^ 63 <= Z.land a b < 2 ^ 63.
Proof.
  assert (forall x, - 2 ^ 63 <= x < 2 ^ 63 <-> Z.shiftr x 63 = 0 \/ Z.shiftr x 63 = -1) as K.
  { intros x. rewrite Z.shiftr_div_pow2 by lia.
    pose proof (Z.div_mod x (2 ^ 63) ltac:(lia)). pose proof (Z.mod_pos_bound x (2 ^ 63) ltac:(lia)).
    split; [|nia]. intros.
    assert (-1 <= x / 2 ^ 63) by (apply Z.div_le_lower_bound; lia).
    assert (x / 2 ^ 63 < 1) by (apply Z.div_lt_upper_bound; lia). lia. }
  intros Ha Hb. apply K in Ha, Hb. apply K. rewrite Z.shiftr_land.
  destruct Ha as [-> | ->], Hb as [-> | ->]; auto.
Qed.

Lemma op_step_words (regs : C) g op l st st' :
  op_bytes op l -> words st -> op_step regs g op st = Ret (Some st') -> words st'.
Proof.
  intros Ho Hw E. unfold words in *.
  assert (W : forall x, - 2 ^ 63 <= s64 x < 2 ^ 63) by (intros; apply (wraps_range 64); lia).
  assert (P : forall v s, - 2 ^ 63 <= v < 2 ^ 63 -> Forall (fun v => - 2 ^ 63 <= v < 2 ^ 63) s ->
    sp_push v s = Some st' -> Forall (fun v => - 2 ^ 63 <= v < 2 ^ 63) st').
  { unfold sp_push. intros v s Hv Hs Ep. destruct (_ <? _)%nat; [|discriminate].
    injection Ep as <-. now constructor. }
  destruct op; cbn [op_step op_bytes] in *;
    repeat match goal with
    | H : Forall _ (_ :: _) |- _ => inversion H; subst; clear H
    | H : match ?st with [] => _ | _ :: _ => _ end = _ |- _ => destruct st; try discriminate
    | H : (if ?b then _ else _) = _ |- _ => let E := fresh "E" in destruct b eqn:E; try discriminate
    | H : match ?o with Some _ => _ | None => _ end = Ret _ |- _ =>
        destruct o; try discriminate
    | H : Ret _ = Ret _ |- _ => injection H as H
    | H : Some _ = Some _ |- _ => injection H as <-
    | H : match ?o with Some _ => _ | None => _ end = Some _ |- _ =>
        destruct o; try discriminate
    end; eauto; try subst st'; rewrite ?List.Forall_cons_iff; repeat split; auto; try apply W.
  all: lazymatch goal with
       | |- context [Z.land _ _] => now apply land_word
       | |- context [if _ then _ else _] => destruct (_ =? _); lia
       | _ => b2p; try lia
       end.
  eapply (P n); eauto. lia.
Qed.

(** ** Whole expressions *)

Fixpoint ops_bytes (ops : list dw_op) (l : list Z) : Prop :=
  match ops with
  | [] => l = []
  | op :: ops => exists l1 l2, l = l1 ++ l2 /\ op_bytes op l1 /\ ops_bytes ops l2
  end.

Lemma op_bytes_length op l : op_bytes op l -> (1 <= length l)%nat.
Proof. destruct op; simpl; intros; destruct l; naive_solver (simpl; lia). Qed.

Lemma loop_refines ops l g s st c (regs : C) fuel :
  ops_bytes ops l -> has_at g c l -> stack_rel s st -> words st -> st <> [] ->
  4096 <= c -> (length l <= fuel)%nat ->
  let e := c + Z.of_nat (length l) in
  refines (ops_run regs g ops st) e e regs (execute_loop fuel g (mk_machine s c e regs)).
Proof.
  revert l s st c fuel; induction ops as [|op ops IH]; intros l s st c fuel Hb Hg Hs Hw Hne Hc Hf e.
  - simpl in Hb. subst l. subst e. simpl length. rewrite Z.add_0_r.
    assert (F : FIRCLSDwarfExpressionMachineIsFinished (mk_machine s c c regs) = true).
    { unfold FIRCLSDwarfExpressionMachineIsFinished. cbn. rewrite (stack_rel_valid _ _ Hs), Z.leb_refl.
      destruct (negb _ || negb _); done. }
    destruct fuel; cbn [execute_loop]; unfold rd_bind, rd_get; cbn [rbind]; rewrite F; now eexists.
  - destruct Hb as (l1 & l2 & -> & Ho & Hb). pose proof (op_bytes_length _ _ Ho).
    rewrite length_app in Hf. destruct fuel as [|fuel]; [lia|].
    apply has_at_app in Hg as [Hg1 Hg2].
    assert (F : FIRCLSDwarfExpressionMachineIsFinished (mk_machine s c e regs) = false).
    { unfold FIRCLSDwarfExpressionMachineIsFinished, FIRCLSIsValidPointer. cbn.
      rewrite (stack_rel_valid _ _ Hs). subst e. rewrite length_app.
      repeat match goal with |- context [?x <=? ?y] => destruct (Z.leb_spec x y); try lia end. done. }
    cbn [execute_loop]. unfold rd_bind at 1, rd_get. cbn [rbind]. rewrite F. unfold rd_bind at 1.
    cbn [ops_run].
    pose proof (op_refines op l1 g s st c e regs Ho Hg1 Hs Hw Hne) as P.
    destruct (op_step regs g op st) as [[st'|]| |] eqn:E; cbn [refines rbind] in P |- *.
    + destruct P as (s' & -> & Hs'). cbn [rbind negb].
      replace e with (c + Z.of_nat (length l1) + Z.of_nat (length l2))
        by (subst e; rewrite length_app; lia).
      apply IH; try done; [exact (op_step_words _ _ _ _ _ _ Ho Hw E)|exact (op_step_nonempty _ _ _ _ _ Hne E)|lia|lia].
    + destruct P as (m & ->). now eexists.
    + now rewrite P.
    + done.
Qed.
End Spec.
