(* ===== verification/ExprProps.v ===== *)
(** * Crashlytics: evaluation of DWARF expressions

    Termination of [FIRCLSDwarfEvalulateExpression] on whatever bytes the
    unwind section holds, and its result on well-formed expressions. *)
From Stdlib Require Import ZArith Lia Bool List.
From stdpp Require Import base list gmap numbers.
From S2P Require Import Prelude CMem Leb128 CRead DataParsing ThreadState ExprMachine ExprSpec.

(** ** Every opcode moves the cursor on *)

Section Termination.
Context {C : Type} `{MContext C}.

Lemma parse_bytes_moves n (Q : Z -> Z -> Prop) g c :
  0 < n -> (forall x, Q x (c + n)) -> rwp True (parse_bytes n) Q g c.
Proof.
  intros Hn HQ. unfold parse_bytes. rwp_steps. apply rwp_load_any. intros x. rwp_steps. apply HQ.
Qed.

Lemma uleb_loop_moves n result shift (Q : Z -> Z -> Prop) g c :
  (forall x c', c + match n with O => 0 | S _ => 1 end <= c' -> Q x c') ->
  rwp True (uleb_loop n result shift) Q g c.
Proof.
  revert result shift c; induction n as [|n IH]; intros result shift c HQ; cbn [uleb_loop].
  - rwp_steps. apply HQ. lia.
  - rwp_steps. apply rwp_load_any. intros b. rwp_steps. apply rwp_int_shl_any. intros _ _.
    destruct (_ =? 0); rwp_steps; [apply HQ; lia|]. apply IH. intros x c' Hc. apply HQ.
    destruct n; lia.
Qed.

Lemma sleb_loop_moves n result shift byte (Q : Z * Z * Z -> Z -> Prop) g c :
  (forall x c', c + match n with O => 0 | S _ => 1 end <= c' -> Q x c') ->
  rwp True (sleb_loop n result shift byte) Q g c.
Proof.
  revert result shift byte c; induction n as [|n IH]; intros result shift byte c HQ; cbn [sleb_loop].
  - rwp_steps. apply HQ. lia.
  - rwp_steps. apply rwp_load_any. intros b. rwp_steps. apply rwp_int_shl_any. intros _ _.
    destruct (_ =? 0); rwp_steps; [apply HQ; lia|]. apply IH. intros x c' Hc. apply HQ.
    destruct n; lia.
Qed.

Lemma uleb_moves (Q : Z -> Z -> Prop) g c :
  (forall x c', c + 1 <= c' -> Q x c') -> rwp True FIRCLSParseULEB128AndAdvance Q g c.
Proof. apply (uleb_loop_moves 8). Qed.

Lemma sleb_moves (Q : Z -> Z -> Prop) g c :
  (forall x c', c + 1 <= c' -> Q x c') -> rwp True FIRCLSParseLEB128AndAdvance Q g c.
Proof.
  intros HQ. unfold FIRCLSParseLEB128AndAdvance. rwp_steps. apply (sleb_loop_moves 8).
  intros [[result shift] byte] c' Hc. destruct (_ && _); rwp_steps; [|now apply HQ].
  apply rwp_int_shl_any. intros _ _. rwp_steps. now apply HQ.
Qed.

(** The machine from [mc] on: the cursor has not gone back, the end is the same. *)
Definition ahead (mc : FIRCLSDwarfExpressionMachine C) (k : Z) (mc' : FIRCLSDwarfExpressionMachine C) :=
  dataCursor mc + k <= dataCursor mc' /\ endAddress mc' = endAddress mc.

(** Code that terminates and never moves the machine back. *)
Definition forward {A} (m : R (FIRCLSDwarfExpressionMachine C) A) : Prop :=
  forall g mc, rwp True m (fun _ mc' => ahead mc 0 mc') g mc.

Lemma ahead_trans a k b b' k' : ahead a k b -> ahead b k' b' -> 0 <= k' -> ahead a k b'.
Proof. unfold ahead. intros [? ?] [? ?] ?. split; [lia|congruence]. Qed.

Lemma forward_bind {A B} (m : R (FIRCLSDwarfExpressionMachine C) A) (k : A -> R _ B) :
  forward m -> (forall a, forward (k a)) -> forward (rd_bind m k).
Proof.
  intros Hm Hk g mc. apply rwp_bind. eapply rwp_mono; [apply Hm|]. intros a mc1 H1.
  eapply rwp_mono; [apply Hk|]. intros b mc2 H2. exact (ahead_trans _ _ _ _ _ H1 H2 ltac:(lia)).
Qed.

Lemma forward_ret {A} (a : A) : forward (rd_ret a).
Proof. intros g mc. rwp_steps. unfold ahead. lia. Qed.

Lemma forward_get : forward rd_get.
Proof. intros g mc. rwp_steps. unfold ahead. lia. Qed.

Lemma forward_pure {A} (f : mem -> A) : forward (fun g s => Ret (f g, s)).
Proof. intros g mc. unfold rwp, ahead. lia. Qed.

Lemma forward_check x : forward (int64_check x).
Proof. intros g mc. apply rwp_int64_any. unfold ahead. lia. Qed.

Lemma forward_on {S A} (s0 : S) (m : R S A) :
  (forall g, rwp True m (fun _ _ => True) g s0) -> forward (rd_on s0 m).
Proof.
  intros Hm g mc. apply rwp_on. eapply rwp_mono; [apply Hm|]. intros. unfold ahead. lia.
Qed.

Lemma forward_stack {A} (f : R FIRCLSDwarfExpressionStack A) :
  (forall g s, f g s <> OutOfFuel) -> forward (on_stack f).
Proof.
  intros Hf g mc. unfold on_stack. rwp_steps.
  eapply rwp_mono with (Q := fun _ _ => True).
  - unfold rwp. specialize (Hf g (stack mc)). destruct (f g (stack mc)) as [[a s']| |]; done.
  - intros a s' _. rwp_steps. split; cbn [dataCursor endAddress fst snd]; lia.
Qed.

Lemma forward_cursor {A} (f : R Z A) :
  (forall g c, rwp True f (fun _ c' => c <= c') g c) -> forward (on_cursor f).
Proof.
  intros Hf g mc. unfold on_cursor. rwp_steps. eapply rwp_mono; [apply Hf|].
  intros a c' Hc; cbv beta in Hc. rwp_steps. split; cbn [dataCursor endAddress fst snd]; lia.
Qed.

Lemma push_runs v g s : FIRCLSDwarfExpressionStackPush v g s <> OutOfFuel.
Proof.
  unfold FIRCLSDwarfExpressionStackPush, buffer_set, set_pointer, rd_bind, rd_get. cbn.
  repeat case_match; simplify_eq/=; repeat case_match; done.
Qed.

Lemma pop_runs g s : FIRCLSDwarfExpressionStackPop g s <> OutOfFuel.
Proof.
  unfold FIRCLSDwarfExpressionStackPop, buffer_get, set_pointer, rd_bind, rd_get. cbn.
  repeat case_match; simplify_eq/=; repeat case_match; done.
Qed.

Lemma peek_runs g s : FIRCLSDwarfExpressionStackPeek g s <> OutOfFuel.
Proof.
  unfold FIRCLSDwarfExpressionStackPeek, buffer_get, set_pointer, rd_bind, rd_get. cbn.
  repeat case_match; simplify_eq/=; repeat case_match; done.
Qed.

Lemma parse_any n g c : 0 < n -> rwp True (parse_bytes n) (fun _ _ => True) g c.
Proof. intros. now apply parse_bytes_moves. Qed.

Lemma forward_push v : forward (FIRCLSDwarfExpressionMachineStackPush v).
Proof. apply forward_stack. intros. apply push_runs. Qed.

Lemma forward_pop : forward FIRCLSDwarfExpressionMachineStackPop.
Proof. apply forward_stack. intros. apply pop_runs. Qed.

Lemma forward_peek : forward (on_stack FIRCLSDwarfExpressionStackPeek).
Proof. apply forward_stack. intros. apply peek_runs. Qed.

Lemma forward_uleb : forward (on_cursor FIRCLSParseULEB128AndAdvance).
Proof. apply forward_cursor. intros. apply uleb_moves. intros. lia. Qed.

Lemma forward_sleb : forward (on_cursor FIRCLSParseLEB128AndAdvance).
Proof. apply forward_cursor. intros. apply sleb_moves. intros. lia. Qed.

Lemma forward_uint8 : forward (on_cursor FIRCLSParseUint8AndAdvance).
Proof. apply forward_cursor. intros. apply parse_bytes_moves; intros; lia. Qed.

Local Ltac forward_step :=
  lazymatch goal with
  | |- forward (rd_ret _) => apply forward_ret
  | |- forward rd_get => apply forward_get
  | |- forward (FIRCLSDwarfExpressionMachineStackPush _) => apply forward_push
  | |- forward FIRCLSDwarfExpressionMachineStackPop => apply forward_pop
  | |- forward (on_stack FIRCLSDwarfExpressionStackPeek) => apply forward_peek
  | |- forward (on_cursor FIRCLSParseULEB128AndAdvance) => apply forward_uleb
  | |- forward (on_cursor FIRCLSParseLEB128AndAdvance) => apply forward_sleb
  | |- forward (on_cursor FIRCLSParseUint8AndAdvance) => apply forward_uint8
  | |- forward (int64_check _) => apply forward_check
  | |- forward (rd_on _ _) => apply forward_on; intros ?; apply parse_any; lia
  | |- forward (rd_bind _ _) => apply forward_bind; [|intros ?]
  | |- forward (if ?b then _ else _) => destruct b
  | |- forward (match ?o with Some _ => _ | None => _ end) => destruct o
  | |- forward (fun g s => Ret (_, s)) => apply forward_pure
  end.

(** After the opcode byte, every opcode only goes forward: the cursor has moved by at
    least one, on success and on failure. *)
Lemma next_opcode_moves g mc :
  rwp True FIRCLSDwarfExpressionMachineExecuteNextOpcode (fun _ mc' => ahead mc 1 mc') g mc.
Proof.
  unfold FIRCLSDwarfExpressionMachineExecuteNextOpcode. apply rwp_bind.
  unfold on_cursor. rwp_steps. apply parse_bytes_moves; [lia|]. intros opcode. rwp_steps. cbn [fst snd].
  match goal with |- rwp True ?m _ _ _ => assert (Hf : forward m) end.
  { unfold FIRCLSDwarfExpressionMachineExecute_deref, FIRCLSDwarfExpressionMachineExecute_dup,
    FIRCLSDwarfExpressionMachineExecute_and, FIRCLSDwarfExpressionMachineExecute_plus,
    FIRCLSDwarfExpressionMachineExecute_swap, FIRCLSDwarfExpressionMachineExecute_plus_uconst,
    FIRCLSDwarfExpressionMachineExecute_ne, FIRCLSDwarfExpressionMachineExecute_litN,
    FIRCLSDwarfExpressionMachineExecute_bregN, FIRCLSDwarfExpressionMachineExecute_deref_size,
    int64_add.
    cbv zeta. repeat forward_step. }
  eapply rwp_mono; [apply Hf|]. intros a mc' Ha.
  eapply ahead_trans with (k' := 0); [|exact Ha|lia].
  split; cbn [dataCursor endAddress fst snd]; lia.
Qed.

Lemma execute_loop_terminates fuel g mc :
  endAddress mc - dataCursor mc <= Z.of_nat fuel ->
  rwp True (execute_loop fuel) (fun _ _ => True) g mc.
Proof.
  revert mc; induction fuel as [|fuel IH]; intros mc Hf; cbn [execute_loop]; rwp_steps;
    (destruct (FIRCLSDwarfExpressionMachineIsFinished mc) eqn:F; [now rwp_steps|]).
  - unfold FIRCLSDwarfExpressionMachineIsFinished in F.
    repeat case_match; try discriminate. b2p. lia.
  - rwp_steps. eapply rwp_mono; [apply next_opcode_moves|]. intros ok mc' [Hc He]; cbv beta in *.
    destruct ok; cbn [negb]; [|now rwp_steps]. apply IH. rewrite He. lia.
Qed.

Lemma run_expression_terminates g mc :
  rwp True run_expression (fun _ _ => True) g mc.
Proof.
  unfold run_expression, FIRCLSDwarfExpressionMachinePrepareForExecution. rwp_steps.
  eapply rwp_mono; [apply forward_uleb|]. intros n mc1 _.
  destruct (n =? 0); rwp_steps; [now rwp_steps|]. cbn [negb]. rwp_steps.
  eapply rwp_mono; [apply execute_loop_terminates; lia|]. intros ok mc2 _.
  destruct ok; cbn [negb]; [|now rwp_steps].
  eapply rwp_mono with (Q := fun _ mc' => ahead mc2 0 mc'); [|done].
  cut (forward FIRCLSDwarfExpressionMachineGetResult); [intros Hf; apply Hf|].
  unfold FIRCLSDwarfExpressionMachineGetResult. repeat forward_step.
Qed.

Lemma evaluate_terminates cursor (regs : C) v g :
  FIRCLSDwarfEvalulateExpression cursor regs v g <> OutOfFuel.
Proof.
  unfold FIRCLSDwarfEvalulateExpression, FIRCLSDwarfExpressionMachineInit.
  destruct (negb _); [done|].
  pose proof (push_runs v g FIRCLSDwarfExpressionStackInit) as P.
  destruct (FIRCLSDwarfExpressionStackPush v g _) as [[b s]| |]; [|done..]. cbn [rbind].
  destruct b; [|done]. pose proof (run_expression_terminates g (mk_machine s cursor 0 regs)) as T.
  unfold rwp in T. destruct (run_expression g _) as [[r s']| |]; done.
Qed.
End Termination.

(** ** The result of an expression *)

Section Result.
Context {C : Type} `{MContext C}.

Lemma prepare_spec (s : FIRCLSDwarfExpressionStack) u g c (regs : C) :
  is_varint u -> leb_ok 0 0 u = true -> varint_val u <> 0 -> has_at g c u ->
  FIRCLSDwarfExpressionMachinePrepareForExecution g (mk_machine s c 0 regs) =
  let c' := c + Z.of_nat (length u) in Ret (true, mk_machine s c' (c' + varint_val u) regs).
Proof.
  intros Hv Ok Hn Hg. unfold FIRCLSDwarfExpressionMachinePrepareForExecution, rd_bind at 1.
  pose proof (uleb_parse u g c Hv Hg) as E. rewrite Ok in E.
  rewrite (on_cursor_eq _ _ _ _ _ _ 0 regs E). cbn [rbind].
  destruct (Z.eqb_spec (varint_val u) 0); [done|]. done.
Qed.

Lemma get_result_spec s st g e (regs : C) v :
  stack_rel s (v :: st) ->
  FIRCLSDwarfExpressionMachineGetResult g (mk_machine s e e regs) =
  Ret (Some v, mk_machine s e e regs).
Proof.
  intros Hs. unfold FIRCLSDwarfExpressionMachineGetResult, rd_bind at 1, rd_get. cbn [rbind].
  cbn [dataCursor endAddress]. rewrite Z.eqb_refl. cbn [negb]. unfold rd_bind at 1.
  rewrite (on_stack_eq _ _ _ _ _ e e regs (peek_rel v g s st Hs)). cbn.
  now rewrite (stack_rel_valid _ _ Hs).
Qed.

Lemma ops_run_nonempty (regs : C) g ops l st st' :
  ops_bytes ops l -> st <> [] -> ops_run regs g ops st = Ret (Some st') -> st' <> [].
Proof.
  revert l st; induction ops as [|op ops IH]; intros l st Hb Hne E; simpl in E; [naive_solver|].
  destruct Hb as (l1 & l2 & -> & Ho & Hb).
  destruct (op_step regs g op st) as [[st1|]| |] eqn:Es; try discriminate. simpl in E.
  eapply IH; [exact Hb| |exact E]. exact (op_step_nonempty _ _ _ _ _ Hne Es).
Qed.

(** C23: evaluating an expression written as any sequence of the supported
    operations, behind its length, gives what the operations compute on an
    abstract stack that starts with the given word: the top of the final stack,
    a failure when an operation fails (unreadable memory, stack over- or
    underflow, bad operand size), and undefined behaviour exactly where an
    addition overflows or a sized read leaves mapped memory. *)
Theorem evaluate_correct (regs : C) g cursor v u l ops :
  is_varint u -> (length u <= 5)%nat -> varint_val u = Z.of_nat (length l) -> l <> [] ->
  Z.of_nat (length l) < 2 ^ 31 -> ops_bytes ops l -> has_at g cursor (u ++ l) ->
  4096 <= cursor -> - 2 ^ 63 <= v < 2 ^ 63 ->
  FIRCLSDwarfEvalulateExpression cursor regs v g =
  rbind (ops_run regs g ops [v]) (fun o => Ret (match o with Some st => head st | None => None end)).
Proof.
  intros Hv Hu Hl Hne Hlen Hb Hg Hc Hw. apply has_at_app in Hg as [Hg1 Hg2].
  assert (Ok : leb_ok 0 0 u = true).
  { unfold leb_ok. apply andb_true_intro. split; [now apply Nat.leb_le|].
    apply Z.ltb_lt. change (2 ^ (7 * Z.of_nat 0)) with 1. lia. }
  assert (Hn : varint_val u <> 0) by (destruct l; [done|simpl in Hl; lia]).
  unfold FIRCLSDwarfEvalulateExpression, FIRCLSDwarfExpressionMachineInit, FIRCLSIsValidPointer.
  destruct (Z.leb_spec 4096 cursor); [|lia]. cbn [negb].
  destruct (push_rel v g _ [] stack_rel_init) as (s & -> & Hs); [simpl; lia|]. cbn [rbind].
  unfold run_expression, rd_bind at 1. rewrite (prepare_spec s u g cursor regs Hv Ok Hn Hg1).
  cbv zeta. cbn [rbind negb]. unfold rd_bind at 1, rd_get. cbn [rbind]. unfold rd_bind at 1.
  cbn [endAddress dataCursor]. rewrite Z.add_simpl_l. rewrite Hl.
  pose proof (loop_refines ops l g s [v] (cursor + Z.of_nat (length u)) regs
    (Z.to_nat (Z.of_nat (length l))) Hb Hg2 Hs) as P.
  cbv zeta in P. specialize (P ltac:(constructor; [lia|constructor]) ltac:(done) ltac:(lia) ltac:(lia)).
  destruct (ops_run regs g ops [v]) as [[st|]| |] eqn:E; cbn [refines] in P.
  - destruct P as (s' & -> & Hs'). cbn [rbind negb].
    pose proof (ops_run_nonempty regs g ops l [v] st Hb ltac:(done) E) as Hst.
    destruct st as [|top st]; [done|]. now rewrite (get_result_spec _ _ _ _ _ _ Hs').
  - destruct P as (m & ->). done.
  - now rewrite P.
  - done.
Qed.

(** evaluation terminates on whatever bytes the unwind section holds: the
    length of the expression bounds the number of opcodes, although operands and
    opcodes are not checked against it. *)
Theorem evaluate_total cursor (regs : C) v g :
  FIRCLSDwarfEvalulateExpression cursor regs v g <> OutOfFuel.
Proof. apply evaluate_terminates. Qed.
End Result.

(** The saved-context expression of a signal trampoline, in part: the word at
    x29 - 16, plus 8: [breg29 -16; deref; plus_uconst 8]. *)
Definition frame_expr : list Z := [0x8D; 0x70; 0x06; 0x23; 0x08].
Definition frame_mem : mem :=
  list_to_map (zip (seqZ 8192 6) (5 :: frame_expr) ++ zip (seqZ 16384 8) (le_bytes 8 20480)).
Definition frame_regs : plain_context := fun r => if decide (r = FP) then 16400 else 0.

Lemma evaluate_correct_witness :
  FIRCLSDwarfEvalulateExpression 8192 frame_regs 0 frame_mem = Ret (Some 20488).
Proof.
  rewrite (evaluate_correct frame_regs frame_mem 8192 0 [5] frame_expr
             [OpBreg 29 (-16); OpDeref; OpPlusUconst 8]).
  - vm_compute. reflexivity.
  - simpl. lia.
  - simpl. lia.
  - reflexivity.
  - discriminate.
  - vm_compute. reflexivity.
  - exists [0x8D; 0x70], [0x06; 0x23; 0x08]. split; [reflexivity|]. split.
    { split; [lia|]. exists [0x70]. repeat split; simpl; lia. }
    exists [0x06], [0x23; 0x08]. split; [reflexivity|]. split; [reflexivity|].
    exists [0x23; 0x08], []. split; [reflexivity|]. split; [|reflexivity].
    exists [0x08]. repeat split; simpl; lia.
  - vm_compute. reflexivity.
  - lia.
  - lia.
Defined.
