(* ===== verification/DwarfUnwind.v ===== *)
(** * Crashlytics: unwinding with DWARF call frame information

    FIRCLSDwarfUnwind.c: the CIE and FDE records of __eh_frame, the call frame
    instructions, and the computation of the caller's registers. Structures
    passed by pointer are the caller's variables, never NULL; pointers into the
    unwind section are addresses, checked as the code checks them. *)
From Stdlib Require Import ZArith Lia Bool List.
From stdpp Require Import base list gmap numbers.
From S2P Require Import Prelude CMem Leb128 CRead DataParsing ThreadState ExprMachine.

Definition DWARF_CIE_ID_CIE_FLAG : Z := 0.
Definition DW_CFA_OPCODE_MASK : Z := 0xC0.
Definition DW_CFA_OPERAND_MASK : Z := 0x3F.
Definition DW_CFA_nop : Z := 0x0.
Definition DW_CFA_set_loc : Z := 0x1.
Definition DW_CFA_advance_loc1 : Z := 0x2.
Definition DW_CFA_advance_loc2 : Z := 0x3.
Definition DW_CFA_advance_loc4 : Z := 0x4.
Definition DW_CFA_offset_extended : Z := 0x5.
Definition DW_CFA_restore_extended : Z := 0x6.
Definition DW_CFA_undefined : Z := 0x7.
Definition DW_CFA_same_value : Z := 0x8.
Definition DW_CFA_register : Z := 0x9.
Definition DW_CFA_remember_state : Z := 0xA.
Definition DW_CFA_restore_state : Z := 0xB.
Definition DW_CFA_def_cfa : Z := 0xC.
Definition DW_CFA_def_cfa_register : Z := 0xD.
Definition DW_CFA_def_cfa_offset : Z := 0xE.
Definition DW_CFA_def_cfa_expression : Z := 0xF.
Definition DW_CFA_expression : Z := 0x10.
Definition DW_CFA_offset_extended_sf : Z := 0x11.
Definition DW_CFA_def_cfa_sf : Z := 0x12.
Definition DW_CFA_def_cfa_offset_sf : Z := 0x13.
Definition DW_CFA_val_offset : Z := 0x14.
Definition DW_CFA_val_offset_sf : Z := 0x15.
Definition DW_CFA_val_expression : Z := 0x16.
Definition DW_CFA_advance_loc : Z := 0x40.
Definition DW_CFA_offset : Z := 0x80.
Definition DW_CFA_GNU_window_save : Z := 0x2D.
Definition DW_CFA_GNU_args_size : Z := 0x2E.
Definition DW_CFA_GNU_negative_offset_extended : Z := 0x2F.

(** ** Records (FIRCLSDwarfUnwind.h) *)

Record DWARFInstructions := mk_instructions {
  ins_length : Z;
  ins_data : Z;
}.

Record DWARFCIERecord := mk_cie {
  cie_length : Z;
  version : Z;
  ehData : Z;
  augmentation : Z;
  pointerEncoding : Z;
  lsdaEncoding : Z;
  personalityEncoding : Z;
  personalityFunction : Z;
  codeAlignFactor : Z;
  dataAlignFactor : Z;
  returnAddressRegister : Z;
  signalFrame : bool;
  cie_instructions : DWARFInstructions;
}.

Record DWARFFDERecord := mk_fde {
  fde_length : Z;
  cieOffset : Z;
  startAddress : Z;
  rangeSize : Z;
  fde_instructions : DWARFInstructions;
}.

Record FIRCLSDwarfCFIRecord := mk_cfi {
  cfi_cie : DWARFCIERecord;
  cfi_fde : DWARFFDERecord;
}.

Inductive FIRCLSDwarfRegisterLocation :=
| FIRCLSDwarfRegisterUnused
| FIRCLSDwarfRegisterInCFA
| FIRCLSDwarfRegisterOffsetFromCFA
| FIRCLSDwarfRegisterInRegister
| FIRCLSDwarfRegisterAtExpression
| FIRCLSDwarfRegisterIsExpression.

Record FIRCLSDwarfRegister := mk_register {
  location : FIRCLSDwarfRegisterLocation;
  value : Z;
}.

Record FIRCLSDwarfState := mk_dstate {
  cfaRegister : Z;
  cfaRegisterOffset : Z;
  cfaExpression : Z;
  spArgSize : Z;
  dregisters : list FIRCLSDwarfRegister;
}.

(** ** Properties of a CIE *)

Definition FIRCLSDwarfCIEIsValid (cie : DWARFCIERecord) : bool :=
  if cie_length cie =? 0 then false
  else if negb (version cie =? 1) && negb (version cie =? 3) then false
  else true.

Definition FIRCLSDwarfCIEHasAugmentationData {S} (cie : DWARFCIERecord) : R S bool :=
  if augmentation cie =? 0 then rd_ret false
  else
    let* c := rd_load (augmentation cie) 1 in
    rd_ret (c =? 122).

(** ** Record parsing. The local state is the cursor; [None] is [return false]. *)

Definition set_lsda (r : DWARFCIERecord) (x : Z) : DWARFCIERecord :=
  mk_cie (cie_length r) (version r) (ehData r) (augmentation r) (pointerEncoding r) x
    (personalityEncoding r) (personalityFunction r) (codeAlignFactor r) (dataAlignFactor r)
    (returnAddressRegister r) (signalFrame r) (cie_instructions r).
Definition set_pointer_encoding (r : DWARFCIERecord) (x : Z) : DWARFCIERecord :=
  mk_cie (cie_length r) (version r) (ehData r) (augmentation r) x (lsdaEncoding r)
    (personalityEncoding r) (personalityFunction r) (codeAlignFactor r) (dataAlignFactor r)
    (returnAddressRegister r) (signalFrame r) (cie_instructions r).
Definition set_personality (r : DWARFCIERecord) (e f : Z) : DWARFCIERecord :=
  mk_cie (cie_length r) (version r) (ehData r) (augmentation r) (pointerEncoding r) (lsdaEncoding r)
    e f (codeAlignFactor r) (dataAlignFactor r)
    (returnAddressRegister r) (signalFrame r) (cie_instructions r).
Definition set_signal_frame (r : DWARFCIERecord) : DWARFCIERecord :=
  mk_cie (cie_length r) (version r) (ehData r) (augmentation r) (pointerEncoding r) (lsdaEncoding r)
    (personalityEncoding r) (personalityFunction r) (codeAlignFactor r) (dataAlignFactor r)
    (returnAddressRegister r) true (cie_instructions r).
Definition set_instructions (r : DWARFCIERecord) (i : DWARFInstructions) : DWARFCIERecord :=
  mk_cie (cie_length r) (version r) (ehData r) (augmentation r) (pointerEncoding r) (lsdaEncoding r)
    (personalityEncoding r) (personalityFunction r) (codeAlignFactor r) (dataAlignFactor r)
    (returnAddressRegister r) (signalFrame r) i.

(** One character of the augmentation string and the data that belongs to it. *)
Definition augmentation_entry (c : Z) (record : DWARFCIERecord) : R Z (option DWARFCIERecord) :=
  if c =? 76 (* 'L' *) then
    let* e := FIRCLSParseUint8AndAdvance in
    rd_ret (Some (set_lsda record e))
  else if c =? 82 (* 'R' *) then
    let* e := FIRCLSParseUint8AndAdvance in
    rd_ret (Some (set_pointer_encoding record e))
  else if c =? 80 (* 'P' *) then
    let* e := FIRCLSParseUint8AndAdvance in
    let* f := FIRCLSParseAddressWithEncodingAndAdvance e in
    if f =? CLS_INVALID_ADDRESS then rd_ret None
    else rd_ret (Some (set_personality record e f))
  else if c =? 83 (* 'S' *) then rd_ret (Some (set_signal_frame record))
  else rd_ret None.

(** [for (i = ...; i < stringLength; ++i)], [n] characters from the end. *)
Fixpoint augmentation_loop (n : nat) (i : Z) (ending : Z) (record : DWARFCIERecord)
  : R Z (option DWARFCIERecord) :=
  match n with
  | O => rd_ret (Some record)
  | S n =>
      let* c := rd_load (augmentation record + i) 1 in
      let* r := augmentation_entry c record in
      match r with
      | None => rd_ret None
      | Some record =>
          let* ptr := rd_get in
          if ending <? ptr then rd_ret None
          else augmentation_loop n (i + 1) ending record
      end
  end.

Definition FIRCLSDwarfParseAndProcessAugmentation (record : DWARFCIERecord)
  : R Z (option DWARFCIERecord) :=
  if augmentation record =? 0 then rd_ret None
  else
    let* c := rd_load (augmentation record) 1 in
    if c =? 0 then rd_ret (Some record)
    else if negb (c =? 122) then rd_ret None
    else
      let* stringLength := (fun g s => rbind (strlen g (augmentation record)) (fun n => Ret (n, s))) in
      let* dataLength := FIRCLSParseULEB128AndAdvance in
      let* ptr := rd_get in
      let ending := ptr + dataLength in
      augmentation_loop (Z.to_nat (stringLength - 1)) 1 ending record.

Definition parse_cie_body : R Z (option DWARFCIERecord) :=
  let* length := FIRCLSParseRecordLengthAndAdvance in
  if length =? 0 then rd_ret None
  else
    let* ptr := rd_get in
    let endAddress := ptr + length in
    let* flag := FIRCLSParseUint32AndAdvance in (* only logged when it is not the CIE flag *)
    let* ver := FIRCLSParseUint8AndAdvance in
    let* aug := FIRCLSParseStringAndAdvance in
    let* codeAlign := FIRCLSParseULEB128AndAdvance in
    let* dataAlign := FIRCLSParseLEB128AndAdvance in
    let finish (returnRegister : Z) : R Z (option DWARFCIERecord) :=
      let record := mk_cie length ver 0 aug DW_EH_PE_absptr DW_EH_PE_absptr 0 0 codeAlign dataAlign
                      returnRegister false (mk_instructions 0 0) in
      let* r := FIRCLSDwarfParseAndProcessAugmentation record in
      match r with
      | None => rd_ret None
      | Some record =>
          let* ptr := rd_get in
          rd_ret (Some (set_instructions record (mk_instructions (u32 (endAddress - ptr)) ptr)))
      end in
    if ver =? 1 then let* r := FIRCLSParseUint8AndAdvance in finish r
    else if ver =? 3 then let* r := FIRCLSParseULEB128AndAdvance in finish r
    else rd_ret None.

Definition FIRCLSDwarfParseCIERecord (ptr : Z) (g : mem) : res (option DWARFCIERecord) :=
  if ptr =? 0 then Ret None
  else rbind (parse_cie_body g ptr) (fun '(r, _) => Ret r).

(** The part of [FIRCLSDwarfParseFDERecord] behind the CIE: addresses and
    instructions. *)
Definition parse_fde_body (length offset endAddress : Z) (cie : DWARFCIERecord)
  : R Z (option (DWARFFDERecord * DWARFCIERecord)) :=
  if negb (FIRCLSDwarfCIEIsValid cie) then rd_ret None
  else
    let* start := FIRCLSParseAddressWithEncodingAndAdvance (pointerEncoding cie) in
    if start =? CLS_INVALID_ADDRESS then rd_ret None
    else
      let* range := FIRCLSParseAddressWithEncodingAndAdvance
                      (Z.land (pointerEncoding cie) DW_EH_PE_VALUE_MASK) in
      if range =? CLS_INVALID_ADDRESS then rd_ret None
      else
        let* has := FIRCLSDwarfCIEHasAugmentationData cie in
        (if has then
           let* augmentationLength := FIRCLSParseULEB128AndAdvance in
           let* ptr := rd_get in
           rd_put (ptr + augmentationLength)
         else rd_ret tt) ;;
        let* ptr := rd_get in
        rd_ret (Some (mk_fde length offset start range
                        (mk_instructions (u32 (endAddress - ptr)) ptr), cie)).

Definition parse_fde_record (parseCIE : bool) (cieRecord : DWARFCIERecord)
  : R Z (option (DWARFFDERecord * DWARFCIERecord)) :=
  let* length := FIRCLSParseRecordLengthAndAdvance in
  if length =? 0 then rd_ret None
  else
    let* ptr := rd_get in
    let endAddress := ptr + length in
    let* offset := FIRCLSParseUint32AndAdvance in
    if offset =? 0 then rd_ret None
    else if parseCIE then
      let* ptr := rd_get in
      let ciePointer := ptr - offset - 4 in
      let* r := (fun g s => rbind (FIRCLSDwarfParseCIERecord ciePointer g) (fun r => Ret (r, s))) in
      match r with
      | None => rd_ret None
      | Some cie => parse_fde_body length offset endAddress cie
      end
    else parse_fde_body length offset endAddress cieRecord.

Definition FIRCLSDwarfParseFDERecord (parseCIE : bool) (cieRecord : DWARFCIERecord) (ptr : Z)
    (g : mem) : res (option (DWARFFDERecord * DWARFCIERecord)) :=
  if ptr =? 0 then Ret None
  else rbind (parse_fde_record parseCIE cieRecord g ptr) (fun '(r, _) => Ret r).

(** The CIE is parsed, so its previous contents do not matter. *)
Definition no_cie : DWARFCIERecord :=
  mk_cie 0 0 0 0 0 0 0 0 0 0 0 false (mk_instructions 0 0).

Definition FIRCLSDwarfParseCFIFromFDERecord (ptr : Z) (g : mem) : res (option FIRCLSDwarfCFIRecord) :=
  if ptr =? 0 then Ret None
  else rbind (FIRCLSDwarfParseFDERecord true no_cie ptr g) (fun r =>
         Ret (match r with Some (fde, cie) => Some (mk_cfi cie fde) | None => None end)).

Definition FIRCLSDwarfParseCFIFromFDERecordOffset (ehFrame fdeOffset : Z) (g : mem)
  : res (option FIRCLSDwarfCFIRecord) :=
  if (ehFrame =? 0) || (fdeOffset =? 0) then Ret None
  else FIRCLSDwarfParseCFIFromFDERecord (ehFrame + fdeOffset) g.

(** ** Call frame instructions *)

(** The local variables of [FIRCLSDwarfInstructionsEnumerate] and the state it
    fills in. *)
Record exec := mk_exec {
  ex_cursor : Z;
  codeOffset : Z;
  ex_state : FIRCLSDwarfState;
}.

(** [f(&cursor)]. *)
Definition ex_parse {A} (m : R Z A) : R exec A :=
  let* x := rd_get in
  let* r := rd_on (ex_cursor x) m in
  rd_put (mk_exec (snd r) (codeOffset x) (ex_state x)) ;;
  rd_ret (fst r).
Definition ex_set_offset (o : Z) : R exec unit :=
  let* x := rd_get in rd_put (mk_exec (ex_cursor x) o (ex_state x)).
Definition ex_set_state (st : FIRCLSDwarfState) : R exec unit :=
  let* x := rd_get in rd_put (mk_exec (ex_cursor x) (codeOffset x) st).
Definition ex_advance (n : Z) : R exec unit :=
  let* x := rd_get in rd_put (mk_exec (ex_cursor x + n) (codeOffset x) (ex_state x)).

(** [state->registers[n] = r]: undefined outside the array. *)
Definition set_dregister (n : Z) (r : FIRCLSDwarfRegister) : R exec unit :=
  let* x := rd_get in
  let st := ex_state x in
  if (n <? 0) || (Z.of_nat (length (dregisters st)) <=? n) then rd_fault
  else ex_set_state (mk_dstate (cfaRegister st) (cfaRegisterOffset st) (cfaExpression st)
                       (spArgSize st) (<[Z.to_nat n := r]> (dregisters st))).

(** [state->registers[n].value], for the writes that only change the location. *)
Definition get_dregister (n : Z) : R exec FIRCLSDwarfRegister :=
  let* x := rd_get in
  if n <? 0 then rd_fault
  else match dregisters (ex_state x) !! Z.to_nat n with
       | Some r => rd_ret r
       | None => rd_fault
       end.

Definition FIRCLSDwarfParseAndExecute_set_loc (cieRecord : DWARFCIERecord) : R exec bool :=
  let* operand := ex_parse (FIRCLSParseAddressWithEncodingAndAdvance (pointerEncoding cieRecord)) in
  ex_set_offset (s64 operand) ;;
  rd_ret true.

(** [*codeOffset += offset] for an operand times the code alignment, the product
    being unsigned. *)
Definition advance_by (operand : Z) (cieRecord : DWARFCIERecord) : R exec bool :=
  let offset := s64 (operand * codeAlignFactor cieRecord) in
  let* x := rd_get in
  let* o := int64_add (codeOffset x) offset in
  ex_set_offset o ;;
  rd_ret true.

Definition FIRCLSDwarfParseAndExecute_advance_loc1 (cieRecord : DWARFCIERecord) : R exec bool :=
  let* n := ex_parse FIRCLSParseUint8AndAdvance in advance_by n cieRecord.
Definition FIRCLSDwarfParseAndExecute_advance_loc2 (cieRecord : DWARFCIERecord) : R exec bool :=
  let* n := ex_parse FIRCLSParseUint16AndAdvance in advance_by n cieRecord.
Definition FIRCLSDwarfParseAndExecute_advance_loc4 (cieRecord : DWARFCIERecord) : R exec bool :=
  let* n := ex_parse FIRCLSParseUint32AndAdvance in advance_by n cieRecord.

Definition FIRCLSDwarfParseAndExecute_def_cfa : R exec bool :=
  let* regNum := ex_parse FIRCLSParseULEB128AndAdvance in
  if CLS_DWARF_MAX_REGISTER_NUM <? regNum then rd_ret false
  else
    let* offset := ex_parse FIRCLSParseULEB128AndAdvance in
    let* x := rd_get in
    let st := ex_state x in
    ex_set_state (mk_dstate regNum (s64 offset) (cfaExpression st) (spArgSize st) (dregisters st)) ;;
    rd_ret true.

Definition FIRCLSDwarfParseAndExecute_def_cfa_register : R exec bool :=
  let* regNum := ex_parse FIRCLSParseULEB128AndAdvance in
  if CLS_DWARF_MAX_REGISTER_NUM <? regNum then rd_ret false
  else
    let* x := rd_get in
    let st := ex_state x in
    ex_set_state (mk_dstate regNum (cfaRegisterOffset st) (cfaExpression st) (spArgSize st)
                    (dregisters st)) ;;
    rd_ret true.

Definition FIRCLSDwarfParseAndExecute_def_cfa_offset : R exec bool :=
  let* offset := ex_parse FIRCLSParseULEB128AndAdvance in
  let* x := rd_get in
  let st := ex_state x in
  ex_set_state (mk_dstate (cfaRegister st) (s64 offset) (cfaExpression st) (spArgSize st)
                  (dregisters st)) ;;
  rd_ret true.

Definition FIRCLSDwarfParseAndExecute_same_value : R exec bool :=
  let* regNum := ex_parse FIRCLSParseULEB128AndAdvance in
  if CLS_DWARF_MAX_REGISTER_NUM <? regNum then rd_ret false
  else
    let* r := get_dregister regNum in
    set_dregister regNum (mk_register FIRCLSDwarfRegisterUnused (value r)) ;;
    rd_ret true.

Definition FIRCLSDwarfParseAndExecute_register : R exec bool :=
  let* regNum := ex_parse FIRCLSParseULEB128AndAdvance in
  if CLS_DWARF_MAX_REGISTER_NUM <? regNum then rd_ret false
  else
    let* regValue := ex_parse FIRCLSParseULEB128AndAdvance in
    if CLS_DWARF_MAX_REGISTER_NUM <? regValue then rd_ret false
    else
      set_dregister regNum (mk_register FIRCLSDwarfRegisterInRegister regValue) ;;
      rd_ret true.

(** Registers whose rule is an expression keep the address of the expression,
    which is then skipped. *)
Definition FIRCLSDwarfParseAndExecute_expression : R exec bool :=
  let* regNum := ex_parse FIRCLSParseULEB128AndAdvance in
  if CLS_DWARF_MAX_REGISTER_NUM <? regNum then rd_ret false
  else
    let* x := rd_get in
    set_dregister regNum (mk_register FIRCLSDwarfRegisterAtExpression (ex_cursor x)) ;;
    let* length := ex_parse FIRCLSParseULEB128AndAdvance in
    ex_advance length ;;
    rd_ret true.

Definition FIRCLSDwarfParseAndExecute_val_expression : R exec bool :=
  let* regNum := ex_parse FIRCLSParseULEB128AndAdvance in
  if CLS_DWARF_MAX_REGISTER_NUM <? regNum then rd_ret false
  else
    let* x := rd_get in
    set_dregister regNum (mk_register FIRCLSDwarfRegisterIsExpression (ex_cursor x)) ;;
    let* length := ex_parse FIRCLSParseULEB128AndAdvance in
    ex_advance length ;;
    rd_ret true.

Definition FIRCLSDwarfParseAndExecute_def_cfa_expression : R exec bool :=
  let* x := rd_get in
  let st := ex_state x in
  ex_set_state (mk_dstate CLS_DWARF_INVALID_REGISTER_NUM (cfaRegisterOffset st) (ex_cursor x)
                  (spArgSize st) (dregisters st)) ;;
  let* length := ex_parse FIRCLSParseULEB128AndAdvance in
  ex_advance length ;;
  rd_ret true.

Definition FIRCLSDwarfParseAndExecute_offset (cieRecord : DWARFCIERecord) (regNum : Z) : R exec bool :=
  if CLS_DWARF_MAX_REGISTER_NUM <? regNum then rd_ret false
  else
    let* n := ex_parse FIRCLSParseULEB128AndAdvance in
    let offset := s64 (n * dataAlignFactor cieRecord) in
    set_dregister regNum (mk_register FIRCLSDwarfRegisterInCFA (u64 offset)) ;;
    rd_ret true.

(** [*codeOffset = delta * (intptr_t)codeAlignFactor] *)
Definition FIRCLSDwarfParseAndExecute_advance_loc (cieRecord : DWARFCIERecord) (delta : Z)
  : R exec bool :=
  let* o := int64_mul delta (s64 (codeAlignFactor cieRecord)) in
  ex_set_offset o ;;
  rd_ret true.

Definition FIRCLSDwarfParseAndExecuteInstructionWithOperand (instruction : Z)
    (cieRecord : DWARFCIERecord) : R exec bool :=
  let operand := Z.land instruction DW_CFA_OPERAND_MASK in
  let opcode := Z.land instruction DW_CFA_OPCODE_MASK in
  if opcode =? DW_CFA_offset then FIRCLSDwarfParseAndExecute_offset cieRecord operand
  else if opcode =? DW_CFA_advance_loc then FIRCLSDwarfParseAndExecute_advance_loc cieRecord operand
  else rd_ret false.

(** The instructions the code recognises and refuses. *)
Definition unimplemented (instruction : Z) : bool :=
  existsb (Z.eqb instruction)
    [DW_CFA_offset_extended; DW_CFA_restore_extended; DW_CFA_undefined; DW_CFA_remember_state;
     DW_CFA_restore_state; DW_CFA_offset_extended_sf; DW_CFA_def_cfa_sf; DW_CFA_def_cfa_offset_sf;
     DW_CFA_val_offset; DW_CFA_val_offset_sf; DW_CFA_GNU_window_save; DW_CFA_GNU_args_size;
     DW_CFA_GNU_negative_offset_extended].

Definition execute_instruction (cieRecord : DWARFCIERecord) (instruction : Z) : R exec bool :=
  if instruction =? DW_CFA_nop then rd_ret true
  else if instruction =? DW_CFA_set_loc then FIRCLSDwarfParseAndExecute_set_loc cieRecord
  else if instruction =? DW_CFA_advance_loc1 then FIRCLSDwarfParseAndExecute_advance_loc1 cieRecord
  else if instruction =? DW_CFA_advance_loc2 then FIRCLSDwarfParseAndExecute_advance_loc2 cieRecord
  else if instruction =? DW_CFA_advance_loc4 then FIRCLSDwarfParseAndExecute_advance_loc4 cieRecord
  else if instruction =? DW_CFA_def_cfa then FIRCLSDwarfParseAndExecute_def_cfa
  else if instruction =? DW_CFA_def_cfa_register then FIRCLSDwarfParseAndExecute_def_cfa_register
  else if instruction =? DW_CFA_def_cfa_offset then FIRCLSDwarfParseAndExecute_def_cfa_offset
  else if instruction =? DW_CFA_same_value then FIRCLSDwarfParseAndExecute_same_value
  else if instruction =? DW_CFA_register then FIRCLSDwarfParseAndExecute_register
  else if instruction =? DW_CFA_def_cfa_expression then FIRCLSDwarfParseAndExecute_def_cfa_expression
  else if instruction =? DW_CFA_expression then FIRCLSDwarfParseAndExecute_expression
  else if instruction =? DW_CFA_val_expression then FIRCLSDwarfParseAndExecute_val_expression
  else if unimplemented instruction then rd_ret false
  else FIRCLSDwarfParseAndExecuteInstructionWithOperand instruction cieRecord.

Fixpoint enumerate_loop (fuel : nat) (cieRecord : DWARFCIERecord) (endAddress pcOffset : Z)
  : R exec bool :=
  let* x := rd_get in
  if negb ((ex_cursor x <? endAddress) && (codeOffset x <? pcOffset)) then rd_ret true
  else match fuel with
       | O => rd_nofuel
       | S fuel =>
           let* instruction := ex_parse FIRCLSParseUint8AndAdvance in
           let* success := execute_instruction cieRecord instruction in
           if negb success then rd_ret false
           else enumerate_loop fuel cieRecord endAddress pcOffset
       end.

(** Every instruction takes at least one byte: their length is enough fuel. The
    state is returned with the success. *)
Definition FIRCLSDwarfInstructionsEnumerate (instructions : DWARFInstructions)
    (cieRecord : DWARFCIERecord) (state : FIRCLSDwarfState) (pcOffset : Z) (g : mem)
  : res (bool * FIRCLSDwarfState) :=
  let endAddress := ins_data instructions + ins_length instructions in
  rbind (enumerate_loop (Z.to_nat (ins_length instructions)) cieRecord endAddress pcOffset g
           (mk_exec (ins_data instructions) 0 state))
    (fun '(success, x) => Ret (success, ex_state x)).

(** ** Registers of the caller *)

Section Compute.
Context {C : Type} `{MContext C}.

Definition FIRCLSDwarfCompareRegisters (a b : C) (registerNum : Z) : bool :=
  FIRCLSDwarfUnwindGetRegisterValue a registerNum =? FIRCLSDwarfUnwindGetRegisterValue b registerNum.

(** The CFA; [None] is [return false]. *)
Definition FIRCLSDwarfGetCFA (state : FIRCLSDwarfState) (registers : C) (g : mem) : res (option Z) :=
  if negb (cfaExpression state =? 0) then
    rbind (FIRCLSDwarfEvalulateExpression (cfaExpression state) registers 0 g) (fun r =>
    Ret (match r with Some cfa => Some (u64 cfa) | None => None end))
  else
    Ret (Some (u64 (FIRCLSDwarfUnwindGetRegisterValue registers (cfaRegister state)
                    + cfaRegisterOffset state))).

(** A value that cannot be found is zero. *)
Definition FIRCLSDwarfGetSavedRegister (registers : C) (cfaRegister : Z)
    (dRegister : FIRCLSDwarfRegister) (g : mem) : res Z :=
  match location dRegister with
  | FIRCLSDwarfRegisterInCFA =>
      let address := u64 (cfaRegister + value dRegister) in
      Ret (match FIRCLSReadMemory g address 8 with Some l => le_val l | None => 0 end)
  | FIRCLSDwarfRegisterInRegister =>
      Ret (FIRCLSDwarfUnwindGetRegisterValue registers (value dRegister))
  | FIRCLSDwarfRegisterOffsetFromCFA => Ret 0
  | FIRCLSDwarfRegisterAtExpression =>
      rbind (FIRCLSDwarfEvalulateExpression (value dRegister) registers (s64 cfaRegister) g)
        (fun r =>
      Ret (match r with
           | None => 0
           | Some a => match FIRCLSReadMemory g (u64 a) 8 with Some l => le_val l | None => 0 end
           end))
  | FIRCLSDwarfRegisterIsExpression =>
      rbind (FIRCLSDwarfEvalulateExpression (value dRegister) registers (s64 cfaRegister) g)
        (fun r => Ret (match r with None => 0 | Some a => u64 a end))
  | FIRCLSDwarfRegisterUnused => Ret 0
  end.

(** [for (i = ...; i <= CLS_DWARF_MAX_REGISTER_NUM; ++i)] over the rules from
    number [i] on; [newThreadState] is the copy that is changed. *)
Fixpoint assign_loop (rules : list FIRCLSDwarfRegister) (i : Z) (registers : C) (cfaRegister : Z)
    (newThreadState : C) (g : mem) : res (option C) :=
  match rules with
  | [] => Ret (Some newThreadState)
  | r :: rules =>
      match location r with
      | FIRCLSDwarfRegisterUnused => assign_loop rules (i + 1) registers cfaRegister newThreadState g
      | _ =>
          rbind (FIRCLSDwarfGetSavedRegister registers cfaRegister r g) (fun v =>
          match FIRCLSDwarfUnwindSetRegisterValue newThreadState i v with
          | None => Ret None
          | Some c => assign_loop rules (i + 1) registers cfaRegister c g
          end)
      end
  end.

Definition FIRCLSDwarfUnwindAssignRegisters (state : FIRCLSDwarfState) (registers : C)
    (cfaRegister : Z) (g : mem) : res (option C) :=
  rbind (assign_loop (dregisters state) 0 registers cfaRegister registers g) (fun r =>
  Ret (match r with
       | None => None
       | Some newThreadState =>
           match FIRCLSDwarfUnwindSetRegisterValue newThreadState CLS_DWARF_REG_SP cfaRegister with
           | None => None
           | Some newThreadState =>
               if FIRCLSDwarfCompareRegisters registers newThreadState CLS_DWARF_REG_SP then None
               else if FIRCLSDwarfCompareRegisters registers newThreadState CLS_DWARF_REG_RETURN
               then None
               else Some newThreadState
           end
       end)).

Definition INTPTR_MAX : Z := 2 ^ 63 - 1.

(** [memset(&state, 0, sizeof(state))] *)
Definition zero_dstate : FIRCLSDwarfState :=
  mk_dstate 0 0 0 0
    (repeat (mk_register FIRCLSDwarfRegisterUnused 0) (Z.to_nat (CLS_DWARF_MAX_REGISTER_NUM + 1))).

(** The caller's registers; [None] is [return false], which leaves them alone. *)
Definition FIRCLSDwarfUnwindComputeRegisters (record : FIRCLSDwarfCFIRecord) (registers : C) (g : mem)
  : res (option C) :=
  let cie := cfi_cie record in
  let fde := cfi_fde record in
  rbind (FIRCLSDwarfInstructionsEnumerate (cie_instructions cie) cie zero_dstate INTPTR_MAX g)
    (fun '(ok, state) =>
  if negb ok then Ret None
  else
    let pcOffset := s64 (FIRCLSThreadContextGetPC registers - startAddress fde) in
    if pcOffset <? 0 then Ret None
    else
      rbind (FIRCLSDwarfInstructionsEnumerate (fde_instructions fde) cie state pcOffset g)
        (fun '(ok, state) =>
      if negb ok then Ret None
      else
        rbind (FIRCLSDwarfGetCFA state registers g) (fun r =>
        match r with
        | None => Ret None
        | Some cfa => FIRCLSDwarfUnwindAssignRegisters state registers cfa g
        end))).
End Compute.
