(* ===== verification/DwarfSpec.v ===== *)
(** * Crashlytics: call frame instructions as a table of rules

    The interpreter of FIRCLSDwarfUnwind.c on decoded instructions; the row of
    rules that the DWARF standard (section 6.4.3) assigns to an address; and the
    proofs that the code runs the former, and that this gives the latter for the
    byte before the pc. *)
From Stdlib Require Import ZArith Lia Bool List.
From stdpp Require Import base list gmap numbers.
From S2P Require Import Prelude CMem Leb128 CRead DataParsing ThreadState ExprMachine ExprSpec.
From S2P Require Import DwarfUnwind.

(** ** Abstract instructions *)

Inductive cfi_op :=
| CNop
| CAdvanceLoc (delta : Z)
| CAdvanceLocN (width : Z) (delta : Z)
| CDefCfa (reg offset : Z)
| CDefCfaRegister (reg : Z)
| CDefCfaOffset (offset : Z)
| CDefCfaExpression (addr : Z) (expr : list Z)
| CSameValue (reg : Z)
| CRegister (reg reg' : Z)
| COffset (reg factored : Z)
| CExpression (reg addr : Z) (expr : list Z)
| CValExpression (reg addr : Z) (expr : list Z).

(** [u] is a ULEB128 string for [n]. *)
Definition uleb (u : list Z) (n : Z) : Prop :=
  is_varint u /\ leb_ok 0 0 u = true /\ varint_val u = n.

Definition advance_opcode (width : Z) : option Z :=
  if width =? 1 then Some DW_CFA_advance_loc1
  else if width =? 2 then Some DW_CFA_advance_loc2
  else if width =? 4 then Some DW_CFA_advance_loc4
  else None.

(** The strings an instruction at address [pos] may be written as. *)
Definition cfi_bytes (pos : Z) (op : cfi_op) (l : list Z) : Prop :=
  match op with
  | CNop => l = [DW_CFA_nop]
  | CAdvanceLoc d => 0 <= d < 64 /\ l = [DW_CFA_advance_loc + d]
  | CAdvanceLocN w d => exists b, advance_opcode w = Some b /\ 0 <= d < 2 ^ (8 * w) /\
                          l = b :: le_bytes (Z.to_nat w) d
  | CDefCfa r o => exists u v, l = DW_CFA_def_cfa :: u ++ v /\ uleb u r /\ uleb v o
  | CDefCfaRegister r => exists u, l = DW_CFA_def_cfa_register :: u /\ uleb u r
  | CDefCfaOffset o => exists u, l = DW_CFA_def_cfa_offset :: u /\ uleb u o
  | CDefCfaExpression a x =>
      exists u, l = DW_CFA_def_cfa_expression :: u ++ x /\ uleb u (Z.of_nat (length x)) /\ a = pos + 1
  | CSameValue r => exists u, l = DW_CFA_same_value :: u /\ uleb u r
  | CRegister r r' => exists u v, l = DW_CFA_register :: u ++ v /\ uleb u r /\ uleb v r'
  | COffset r n => 0 <= r < 64 /\ exists u, l = DW_CFA_offset + r :: u /\ uleb u n
  | CExpression r a x =>
      exists u v, l = DW_CFA_expression :: u ++ v ++ x /\ uleb u r /\
                  uleb v (Z.of_nat (length x)) /\ a = pos + 1 + Z.of_nat (length u)
  | CValExpression r a x =>
      exists u v, l = DW_CFA_val_expression :: u ++ v ++ x /\ uleb u r /\
                  uleb v (Z.of_nat (length x)) /\ a = pos + 1 + Z.of_nat (length u)
  end.

Fixpoint cfi_program (pos : Z) (ops : list cfi_op) (l : list Z) : Prop :=
  match ops with
  | [] => l = []
  | op :: ops => exists l1 l2, l = l1 ++ l2 /\ cfi_bytes pos op l1 /\
                   cfi_program (pos + Z.of_nat (length l1)) ops l2
  end.

(** ** What the interpreter does with them *)

Definition set_cfa (r o : Z) (st : FIRCLSDwarfState) : FIRCLSDwarfState :=
  mk_dstate r o (cfaExpression st) (spArgSize st) (dregisters st).

(** A rule for register [r]; there is none for numbers above SP. *)
Definition set_rule (r : Z) (rule : FIRCLSDwarfRegister) (st : FIRCLSDwarfState)
  : option FIRCLSDwarfState :=
  if r <=? 31 then
    Some (mk_dstate (cfaRegister st) (cfaRegisterOffset st) (cfaExpression st) (spArgSize st)
            (<[Z.to_nat r := rule]> (dregisters st)))
  else None.

Definition keep_loc (loc : Z) (o : option FIRCLSDwarfState) : res (option (Z * FIRCLSDwarfState)) :=
  Ret (match o with Some st => Some (loc, st) | None => None end).

(** The location counter is an [intptr_t]: passing its end is undefined. *)
Definition move_loc (loc : Z) (st : FIRCLSDwarfState) : res (option (Z * FIRCLSDwarfState)) :=
  if loc <? 2 ^ 63 then Ret (Some (loc, st)) else Fault.

(** One instruction at location [loc]. *)
Definition cfi_step (cie : DWARFCIERecord) (op : cfi_op) (loc : Z) (st : FIRCLSDwarfState)
  : res (option (Z * FIRCLSDwarfState)) :=
  match op with
  | CNop => keep_loc loc (Some st)
  | CAdvanceLoc d => move_loc (loc + d * codeAlignFactor cie) st
  | CAdvanceLocN _ d => move_loc (loc + d * codeAlignFactor cie) st
  | CDefCfa r o => keep_loc loc (if r <=? 31 then Some (set_cfa r o st) else None)
  | CDefCfaRegister r =>
      keep_loc loc (if r <=? 31 then Some (set_cfa r (cfaRegisterOffset st) st) else None)
  | CDefCfaOffset o => keep_loc loc (Some (set_cfa (cfaRegister st) o st))
  | CDefCfaExpression a _ =>
      keep_loc loc (Some (mk_dstate CLS_DWARF_INVALID_REGISTER_NUM (cfaRegisterOffset st) a
                            (spArgSize st) (dregisters st)))
  | CSameValue r =>
      keep_loc loc (set_rule r (mk_register FIRCLSDwarfRegisterUnused
                                  (default 0 (value <$> dregisters st !! Z.to_nat r))) st)
  | CRegister r r' =>
      keep_loc loc (if r' <=? 31 then set_rule r (mk_register FIRCLSDwarfRegisterInRegister r') st
                    else None)
  | COffset r n =>
      keep_loc loc (set_rule r (mk_register FIRCLSDwarfRegisterInCFA
                                  (u64 (n * dataAlignFactor cie))) st)
  | CExpression r a _ => keep_loc loc (set_rule r (mk_register FIRCLSDwarfRegisterAtExpression a) st)
  | CValExpression r a _ => keep_loc loc (set_rule r (mk_register FIRCLSDwarfRegisterIsExpression a) st)
  end.

(** The loop of the code: instructions apply while the location counter is below
    [pc]. *)
Fixpoint cfi_run (cie : DWARFCIERecord) (pc : Z) (ops : list cfi_op) (loc : Z)
    (st : FIRCLSDwarfState) : res (option FIRCLSDwarfState) :=
  match ops with
  | [] => Ret (Some st)
  | op :: ops =>
      if loc <? pc then
        rbind (cfi_step cie op loc st) (fun o =>
        match o with
        | Some (loc, st) => cfi_run cie pc ops loc st
        | None => Ret None
        end)
      else Ret (Some st)
  end.

(** Programs whose short advance comes before every other advance: at that point
    the location counter is still zero. *)
Fixpoint short_advance_first (moved : bool) (ops : list cfi_op) : bool :=
  match ops with
  | [] => true
  | CAdvanceLoc _ :: ops => negb moved && short_advance_first true ops
  | CAdvanceLocN _ _ :: ops => short_advance_first true ops
  | _ :: ops => short_advance_first moved ops
  end.

(** ** One instruction *)

Definition cfi_refines (r : res (option (Z * FIRCLSDwarfState))) (c : Z) (out : res (bool * exec))
  : Prop :=
  match r with
  | Ret (Some (loc, st)) => out = Ret (true, mk_exec c loc st)
  | Ret None => exists x, out = Ret (false, x)
  | Fault => out = Fault
  | OutOfFuel => False
  end.

Lemma ex_parse_eq {A} (f : R Z A) g c c' a o st :
  f g c = Ret (a, c') -> ex_parse f g (mk_exec c o st) = Ret (a, mk_exec c' o st).
Proof. intros E. unfold ex_parse, rd_bind, rd_get, rd_on, rd_put. cbn. now rewrite E. Qed.

Lemma uleb_eq u n g c :
  uleb u n -> has_at g c u ->
  FIRCLSParseULEB128AndAdvance g c = Ret (n, c + Z.of_nat (length u)).
Proof. intros (Hv & Ok & <-) Hg. rewrite (uleb_parse u g c Hv Hg). now rewrite Ok. Qed.

Lemma uleb_range u n : uleb u n -> 0 <= n < 2 ^ 31.
Proof.
  intros (Hv & Ok & <-). pose proof (varint_val_range _ Hv). unfold leb_ok in Ok.
  apply andb_prop in Ok as [_ Ok]. apply Z.ltb_lt in Ok.
  change (2 ^ (7 * Z.of_nat 0)) with 1 in Ok. lia.
Qed.

Lemma uleb_small n : 0 <= n < 128 -> uleb [n] n.
Proof.
  intros Hn. split; [simpl; lia|]. split.
  - unfold leb_ok. apply andb_true_intro. split; [done|]. apply Z.ltb_lt. cbn [varint_val].
    rewrite Z.mod_small by lia. change (2 ^ (7 * Z.of_nat 0)) with 1. lia.
  - cbn [varint_val]. rewrite Z.mod_small; lia.
Qed.

(** Rules are set inside the array. *)
Definition dstate_ok (st : FIRCLSDwarfState) : Prop := length (dregisters st) = 32%nat.

Lemma set_dregister_eq n rule g c o st :
  dstate_ok st -> 0 <= n <= 31 ->
  set_dregister n rule g (mk_exec c o st) =
  Ret (tt, mk_exec c o (mk_dstate (cfaRegister st) (cfaRegisterOffset st) (cfaExpression st)
                          (spArgSize st) (<[Z.to_nat n := rule]> (dregisters st)))).
Proof.
  intros Ok Hn. unfold set_dregister, rd_bind, rd_get. cbn [rbind ex_state]. rewrite Ok.
  destruct (Z.ltb_spec n 0), (Z.leb_spec (Z.of_nat 32) n); try lia. done.
Qed.

Lemma get_dregister_eq n g c o st :
  dstate_ok st -> 0 <= n <= 31 ->
  exists r, dregisters st !! Z.to_nat n = Some r /\
            get_dregister n g (mk_exec c o st) = Ret (r, mk_exec c o st).
Proof.
  intros Ok Hn. destruct (lookup_lt_is_Some_2 (dregisters st) (Z.to_nat n)) as [r Er];
    [rewrite Ok; lia|].
  exists r. split; [done|]. unfold get_dregister, rd_bind, rd_get. cbn [rbind ex_state].
  destruct (Z.ltb_spec n 0); [lia|]. now rewrite Er.
Qed.

Lemma set_rule_eq r rule st :
  0 <= r <= 31 ->
  set_rule r rule st =
  Some (mk_dstate (cfaRegister st) (cfaRegisterOffset st) (cfaExpression st)
          (spArgSize st) (<[Z.to_nat r := rule]> (dregisters st))).
Proof. intros. unfold set_rule. destruct (Z.leb_spec r 31); [done|lia]. Qed.

Lemma set_rule_none r rule st : 31 < r -> set_rule r rule st = None.
Proof. intros. unfold set_rule. destruct (Z.leb_spec r 31); [lia|done]. Qed.

Ltac ex_cbn :=
  unfold ex_set_state, ex_advance, ex_set_offset, rd_bind, rd_get, rd_put, rd_ret;
  cbn [rbind ex_state ex_cursor codeOffset cfi_refines keep_loc].
Ltac ex_uleb H Hg :=
  unfold rd_bind at 1;
  rewrite (ex_parse_eq _ _ _ _ _ _ _ (uleb_eq _ _ _ _ H Hg)); cbn [rbind].
Ltac reg_guard n :=
  change CLS_DWARF_MAX_REGISTER_NUM with 31;
  destruct (Z.ltb_spec 31 n), (Z.leb_spec n 31); try lia; [now eexists|].

Section Instructions.
Context (cie : DWARFCIERecord) (g : mem).
Context (Hcaf : 0 <= codeAlignFactor cie < 2 ^ 31).

Lemma exec_advance_by d c loc st :
  0 <= d < 2 ^ 32 -> 0 <= loc ->
  cfi_refines (move_loc (loc + d * codeAlignFactor cie) st) c
    (advance_by d cie g (mk_exec c loc st)).
Proof.
  intros Hd Hl.
  assert (Hp : 0 <= d * codeAlignFactor cie < 2 ^ 63).
  { split; [apply Z.mul_nonneg_nonneg; lia|]. change (2 ^ 63) with (2 ^ 32 * 2 ^ 31).
    apply Z.mul_lt_mono_nonneg; lia. }
  unfold advance_by, move_loc, rd_bind, rd_get, int64_add, int64_check.
  cbn [rbind codeOffset]. rewrite wraps_small by (change (64 - 1) with 63; lia).
  destruct (Z.leb_spec (- 2 ^ 63) (loc + d * codeAlignFactor cie)); [|lia].
  destruct (Z.ltb_spec (loc + d * codeAlignFactor cie) (2 ^ 63)); done.
Qed.

Lemma exec_advance_loc d c st :
  0 <= d < 64 ->
  cfi_refines (move_loc (0 + d * codeAlignFactor cie) st) c
    (FIRCLSDwarfParseAndExecute_advance_loc cie d g (mk_exec c 0 st)).
Proof.
  intros Hd. unfold FIRCLSDwarfParseAndExecute_advance_loc, move_loc, rd_bind, int64_mul, int64_check.
  rewrite wraps_small by (zpow; simpl; lia). rewrite Z.add_0_l.
  assert (Hp : 0 <= d * codeAlignFactor cie < 2 ^ 63).
  { split; [apply Z.mul_nonneg_nonneg; lia|]. zpow. nia. }
  destruct (Z.leb_spec (- 2 ^ 63) (d * codeAlignFactor cie)); [|lia].
  destruct (Z.ltb_spec (d * codeAlignFactor cie) (2 ^ 63)); [|lia]. done.
Qed.

Lemma exec_def_cfa u v r o c loc st :
  uleb u r -> uleb v o -> has_at g c (u ++ v) ->
  cfi_refines (cfi_step cie (CDefCfa r o) loc st) (c + Z.of_nat (length (u ++ v)))
    (FIRCLSDwarfParseAndExecute_def_cfa g (mk_exec c loc st)).
Proof.
  intros Hu Hv Hg. apply has_at_app in Hg as [Hg1 Hg2].
  pose proof (uleb_range _ _ Hu). pose proof (uleb_range _ _ Hv).
  unfold FIRCLSDwarfParseAndExecute_def_cfa. cbn [cfi_step]. ex_uleb Hu Hg1. reg_guard r.
  ex_uleb Hv Hg2. unfold rd_bind, rd_get. ex_cbn. f_equal. f_equal. f_equal.
  - rewrite length_app. lia.
  - unfold set_cfa. f_equal. apply wraps_small; zpow; simpl; lia.
Qed.

Lemma exec_def_cfa_register u r c loc st :
  uleb u r -> has_at g c u ->
  cfi_refines (cfi_step cie (CDefCfaRegister r) loc st) (c + Z.of_nat (length u))
    (FIRCLSDwarfParseAndExecute_def_cfa_register g (mk_exec c loc st)).
Proof.
  intros Hu Hg. pose proof (uleb_range _ _ Hu).
  unfold FIRCLSDwarfParseAndExecute_def_cfa_register. cbn [cfi_step]. ex_uleb Hu Hg.
  reg_guard r. done.
Qed.

Lemma exec_def_cfa_offset u o c loc st :
  uleb u o -> has_at g c u ->
  cfi_refines (cfi_step cie (CDefCfaOffset o) loc st) (c + Z.of_nat (length u))
    (FIRCLSDwarfParseAndExecute_def_cfa_offset g (mk_exec c loc st)).
Proof.
  intros Hu Hg. pose proof (uleb_range _ _ Hu).
  unfold FIRCLSDwarfParseAndExecute_def_cfa_offset. cbn [cfi_step]. ex_uleb Hu Hg.
  unfold rd_bind, rd_get. ex_cbn. unfold set_cfa. do 4 f_equal. apply wraps_small; zpow; simpl; lia.
Qed.

Lemma exec_same_value u r c loc st :
  dstate_ok st -> uleb u r -> has_at g c u ->
  cfi_refines (cfi_step cie (CSameValue r) loc st) (c + Z.of_nat (length u))
    (FIRCLSDwarfParseAndExecute_same_value g (mk_exec c loc st)).
Proof.
  intros Ok Hu Hg. pose proof (uleb_range _ _ Hu).
  unfold FIRCLSDwarfParseAndExecute_same_value. cbn [cfi_step]. ex_uleb Hu Hg.
  unfold set_rule. reg_guard r. unfold rd_bind at 1.
  destruct (get_dregister_eq r g (c + Z.of_nat (length u)) loc st Ok) as (x & Ex & E); [lia|].
  rewrite E, Ex. cbn [rbind]. unfold rd_bind. rewrite set_dregister_eq by (done || lia). done.
Qed.

Lemma exec_register u v r r' c loc st :
  dstate_ok st -> uleb u r -> uleb v r' -> has_at g c (u ++ v) ->
  cfi_refines (cfi_step cie (CRegister r r') loc st) (c + Z.of_nat (length (u ++ v)))
    (FIRCLSDwarfParseAndExecute_register g (mk_exec c loc st)).
Proof.
  intros Ok Hu Hv Hg. apply has_at_app in Hg as [Hg1 Hg2].
  pose proof (uleb_range _ _ Hu). pose proof (uleb_range _ _ Hv).
  unfold FIRCLSDwarfParseAndExecute_register. cbn [cfi_step]. ex_uleb Hu Hg1.
  change CLS_DWARF_MAX_REGISTER_NUM with 31. destruct (Z.ltb_spec 31 r).
  - rewrite set_rule_none by lia. destruct (r' <=? 31); now eexists.
  - ex_uleb Hv Hg2. reg_guard r'. rewrite set_rule_eq by lia.
    unfold rd_bind. rewrite set_dregister_eq by (done || lia). ex_cbn. do 3 f_equal.
    rewrite length_app. lia.
Qed.

Lemma exec_offset u r n c loc st :
  dstate_ok st -> 0 <= r < 64 -> uleb u n -> has_at g c u ->
  cfi_refines (cfi_step cie (COffset r n) loc st) (c + Z.of_nat (length u))
    (FIRCLSDwarfParseAndExecute_offset cie r g (mk_exec c loc st)).
Proof.
  intros Ok Hr Hu Hg. unfold FIRCLSDwarfParseAndExecute_offset. cbn [cfi_step].
  unfold set_rule. reg_guard r. ex_uleb Hu Hg.
  unfold rd_bind. rewrite set_dregister_eq by (done || lia). ex_cbn. do 6 f_equal.
  apply wrapu_wraps. lia.
Qed.

(** The three rules made of expressions: the operand is its address, and it is
    skipped. *)
Lemma exec_skip_expression {A} (k : R exec A) v (x : list Z) c loc st :
  uleb v (Z.of_nat (length x)) -> has_at g c v ->
  (let* n := ex_parse FIRCLSParseULEB128AndAdvance in ex_advance n ;; k) g (mk_exec c loc st) =
  k g (mk_exec (c + Z.of_nat (length v) + Z.of_nat (length x)) loc st).
Proof. intros Hv Hg. ex_uleb Hv Hg. done. Qed.

Lemma exec_def_cfa_expression u x c loc st :
  uleb u (Z.of_nat (length x)) -> has_at g c (u ++ x) ->
  cfi_refines (cfi_step cie (CDefCfaExpression c x) loc st) (c + Z.of_nat (length (u ++ x)))
    (FIRCLSDwarfParseAndExecute_def_cfa_expression g (mk_exec c loc st)).
Proof.
  intros Hu Hg. apply has_at_app in Hg as [Hg1 Hg2].
  unfold FIRCLSDwarfParseAndExecute_def_cfa_expression, rd_bind at 1, rd_get. cbn [rbind ex_state ex_cursor].
  unfold rd_bind at 1. cbn [ex_set_state rd_bind rd_get rd_put rbind ex_cursor codeOffset].
  rewrite (exec_skip_expression _ u x) by done. ex_cbn. do 3 f_equal.
  rewrite length_app. lia.
Qed.

Lemma exec_expression u v r x c loc st :
  dstate_ok st -> uleb u r -> uleb v (Z.of_nat (length x)) -> has_at g c (u ++ v ++ x) ->
  cfi_refines (cfi_step cie (CExpression r (c + Z.of_nat (length u)) x) loc st)
    (c + Z.of_nat (length (u ++ v ++ x)))
    (FIRCLSDwarfParseAndExecute_expression g (mk_exec c loc st)).
Proof.
  intros Ok Hu Hv Hg. apply has_at_app in Hg as [Hg1 Hg]. apply has_at_app in Hg as [Hg2 Hg3].
  pose proof (uleb_range _ _ Hu).
  unfold FIRCLSDwarfParseAndExecute_expression. cbn [cfi_step]. ex_uleb Hu Hg1.
  unfold set_rule. reg_guard r. unfold rd_bind at 1, rd_get. cbn [rbind ex_cursor].
  unfold rd_bind at 1. rewrite set_dregister_eq by (done || lia). cbn [rbind].
  rewrite (exec_skip_expression _ v x) by done. ex_cbn. do 3 f_equal.
  rewrite !length_app. lia.
Qed.

Lemma exec_val_expression u v r x c loc st :
  dstate_ok st -> uleb u r -> uleb v (Z.of_nat (length x)) -> has_at g c (u ++ v ++ x) ->
  cfi_refines (cfi_step cie (CValExpression r (c + Z.of_nat (length u)) x) loc st)
    (c + Z.of_nat (length (u ++ v ++ x)))
    (FIRCLSDwarfParseAndExecute_val_expression g (mk_exec c loc st)).
Proof.
  intros Ok Hu Hv Hg. apply has_at_app in Hg as [Hg1 Hg]. apply has_at_app in Hg as [Hg2 Hg3].
  pose proof (uleb_range _ _ Hu).
  unfold FIRCLSDwarfParseAndExecute_val_expression. cbn [cfi_step]. ex_uleb Hu Hg1.
  unfold set_rule. reg_guard r. unfold rd_bind at 1, rd_get. cbn [rbind ex_cursor].
  unfold rd_bind at 1. rewrite set_dregister_eq by (done || lia). cbn [rbind].
  rewrite (exec_skip_expression _ v x) by done. ex_cbn. do 3 f_equal.
  rewrite !length_app. lia.
Qed.
End Instructions.

(** ** Programs *)

(** Opcodes with an operand in their low bits. *)
Lemma operand_dispatch cie b d :
  0 <= d < 64 -> b = 64 \/ b = 128 ->
  execute_instruction cie (b + d) =
  if b =? 128 then FIRCLSDwarfParseAndExecute_offset cie d
  else FIRCLSDwarfParseAndExecute_advance_loc cie d.
Proof.
  intros Hd Hb. unfold execute_instruction.
  assert (U : unimplemented (b + d) = false).
  { unfold unimplemented. cbn [existsb].
    repeat match goal with |- context [?x =? ?y] => destruct (Z.eqb_spec x y);
      [exfalso; match type of e with _ = ?k => let v := eval vm_compute in k in
                change k with v in e end; lia|] end. done. }
  rewrite U. unfold DW_CFA_nop, DW_CFA_set_loc, DW_CFA_advance_loc1, DW_CFA_advance_loc2,
    DW_CFA_advance_loc4, DW_CFA_def_cfa, DW_CFA_def_cfa_register, DW_CFA_def_cfa_offset,
    DW_CFA_same_value, DW_CFA_register, DW_CFA_def_cfa_expression, DW_CFA_expression,
    DW_CFA_val_expression.
  repeat match goal with |- context [b + d =? ?y] => destruct (Z.eqb_spec (b + d) y); [lia|] end.
  unfold FIRCLSDwarfParseAndExecuteInstructionWithOperand.
  assert (E : forall d, 0 <= d < 64 ->
    (Z.land (64 + d) DW_CFA_OPERAND_MASK =? d) && (Z.land (64 + d) DW_CFA_OPCODE_MASK =? 64) &&
    (Z.land (128 + d) DW_CFA_OPERAND_MASK =? d) && (Z.land (128 + d) DW_CFA_OPCODE_MASK =? 128) = true).
  { apply (range_forall (fun d => (Z.land (64 + d) DW_CFA_OPERAND_MASK =? d) &&
      (Z.land (64 + d) DW_CFA_OPCODE_MASK =? 64) && (Z.land (128 + d) DW_CFA_OPERAND_MASK =? d) &&
      (Z.land (128 + d) DW_CFA_OPCODE_MASK =? 128))). vm_compute. reflexivity. }
  specialize (E d Hd). b2p. destruct Hb; subst b.
  - rewrite H, H2. done.
  - rewrite H1, H0. done.
Qed.

Lemma ex_read_opcode b l g c loc st :
  has_at g c (b :: l) ->
  ex_parse FIRCLSParseUint8AndAdvance g (mk_exec c loc st) = Ret (b, mk_exec (c + 1) loc st) /\
  has_at g (c + 1) l.
Proof.
  intros Hg. apply has_at_cons in Hg as [Hb Hg]. split; [|done]. apply ex_parse_eq.
  unfold FIRCLSParseUint8AndAdvance, parse_bytes, rd_bind, rd_get, rd_put. cbn [rbind].
  now rewrite (load_byte _ _ _ _ Hb).
Qed.

Lemma ex_read_operand w d g c loc st :
  0 <= w -> 0 <= d < 2 ^ (8 * w) -> has_at g c (le_bytes (Z.to_nat w) d) ->
  ex_parse (parse_bytes w) g (mk_exec c loc st) = Ret (d, mk_exec (c + w) loc st).
Proof.
  intros Hw Hd Hg. apply ex_parse_eq.
  rewrite (parse_bytes_eq w _ g c Hg) by (rewrite length_le_bytes; lia).
  rewrite le_val_bytes, Z.mod_small; [done|]. rewrite Z2Nat.id by lia.
  rewrite Z.pow_mul_r in Hd by lia. exact Hd.
Qed.

Section Program.
Context (cie : DWARFCIERecord) (g : mem).
Context (Hcaf : 0 <= codeAlignFactor cie < 2 ^ 31).

Definition one_instruction : R exec bool :=
  let* instruction := ex_parse FIRCLSParseUint8AndAdvance in execute_instruction cie instruction.

Lemma instruction_refines op l c loc st :
  cfi_bytes c op l -> has_at g c l -> dstate_ok st -> 0 <= loc ->
  (match op with CAdvanceLoc _ => loc = 0 | _ => True end) ->
  cfi_refines (cfi_step cie op loc st) (c + Z.of_nat (length l)) (one_instruction g (mk_exec c loc st)).
Proof.
  intros Hb Hg Ok Hl Ha. unfold one_instruction, rd_bind at 1.
  assert (exists b u, l = b :: u) as (b & u & ->) by (destruct op; simpl in Hb; naive_solver).
  destruct (ex_read_opcode b u g c loc st Hg) as [-> Hg']. cbn [rbind].
  replace (c + Z.of_nat (length (b :: u))) with (c + 1 + Z.of_nat (length u)) by (simpl; lia).
  destruct op; cbn [cfi_bytes] in Hb.
  - injection Hb as -> ->. change (Z.of_nat (length [])) with 0. now rewrite Z.add_0_r.
  - destruct Hb as (Hd & [= -> ->]). subst loc. rewrite operand_dispatch by (done || auto).
    change (c + 1 + Z.of_nat (length [])) with (c + 1 + 0). rewrite Z.add_0_r.
    now apply exec_advance_loc.
  - destruct Hb as (b' & Hw & Hd & [= -> ->]). rewrite length_le_bytes.
    assert (W : (width = 1 \/ width = 2 \/ width = 4) /\ execute_instruction cie b' =
              (let* n := ex_parse (parse_bytes width) in advance_by n cie)).
    { unfold advance_opcode in Hw.
      destruct (Z.eqb_spec width 1) as [->|]; [injection Hw as <-; auto|].
      destruct (Z.eqb_spec width 2) as [->|]; [injection Hw as <-; auto|].
      destruct (Z.eqb_spec width 4) as [->|]; [injection Hw as <-; auto|discriminate]. }
    destruct W as [W ->]. unfold rd_bind. rewrite (ex_read_operand width delta) by (done || lia).
    cbn [rbind]. rewrite Z2Nat.id by lia. apply exec_advance_by; [done| |done].
    split; [lia|]. destruct Hd as [_ Hd].
    assert (2 ^ (8 * width) <= 2 ^ 32) by (apply Z.pow_le_mono_r; lia). lia.
  - destruct Hb as (u1 & u2 & [= -> ->] & H1 & H2). now apply exec_def_cfa.
  - destruct Hb as (u1 & [= -> ->] & H1). now apply exec_def_cfa_register.
  - destruct Hb as (u1 & [= -> ->] & H1). now apply exec_def_cfa_offset.
  - destruct Hb as (u1 & [= -> ->] & H1 & ->). now apply exec_def_cfa_expression.
  - destruct Hb as (u1 & [= -> ->] & H1). now apply exec_same_value.
  - destruct Hb as (u1 & u2 & [= -> ->] & H1 & H2). now apply exec_register.
  - destruct Hb as (Hr & u1 & [= -> ->] & H1). rewrite operand_dispatch by (done || auto).
    now apply exec_offset.
  - destruct Hb as (u1 & u2 & [= -> ->] & H1 & H2 & ->). now apply exec_expression.
  - destruct Hb as (u1 & u2 & [= -> ->] & H1 & H2 & ->). now apply exec_val_expression.
Qed.

Lemma set_rule_ok r rule st st' : dstate_ok st -> set_rule r rule st = Some st' -> dstate_ok st'.
Proof.
  unfold set_rule, dstate_ok. intros Ok E. destruct (r <=? 31); [|discriminate].
  injection E as <-. cbn [dregisters]. now rewrite length_insert.
Qed.

(** The array of rules keeps its size, the location counter does not go back. *)
Lemma cfi_step_ok op l c loc st loc' st' :
  cfi_bytes c op l -> dstate_ok st -> 0 <= loc -> cfi_step cie op loc st = Ret (Some (loc', st')) ->
  dstate_ok st' /\ 0 <= loc' /\
  match op with CAdvanceLoc _ | CAdvanceLocN _ _ => True | _ => loc' = loc end.
Proof.
  intros Hb Ok Hl E.
  assert (M : forall d, 0 <= d -> move_loc (loc + d * codeAlignFactor cie) st = Ret (Some (loc', st')) ->
    dstate_ok st' /\ 0 <= loc').
  { unfold move_loc. intros d Hd Em. destruct (_ <? _); [|discriminate]. injection Em as <- <-.
    split; [done|]. nia. }
  assert (K : forall o, (forall s, o = Some s -> dstate_ok s) -> keep_loc loc o = Ret (Some (loc', st')) ->
    dstate_ok st' /\ 0 <= loc' /\ loc' = loc).
  { unfold keep_loc. intros [s|] Ho Ek; [|discriminate]. injection Ek as <- <-. auto. }
  destruct op; cbn [cfi_step cfi_bytes] in *;
    try (apply K in E; [tauto|]; intros s Es;
         repeat match type of Es with (if ?b then _ else _) = _ => destruct b end;
         try discriminate; first [injection Es as <-; exact Ok|exact (set_rule_ok _ _ _ _ Ok Es)]).
  - destruct (M delta) as [? ?]; [lia|done|auto].
  - destruct Hb as (b & _ & Hd & _). destruct (M delta) as [? ?]; [lia|done|auto].
Qed.

Definition run_refines (r : res (option FIRCLSDwarfState)) (out : res (bool * exec)) : Prop :=
  match r with
  | Ret (Some st) => exists c loc, out = Ret (true, mk_exec c loc st)
  | Ret None => exists x, out = Ret (false, x)
  | Fault => out = Fault
  | OutOfFuel => False
  end.

Lemma cfi_bytes_length c op l : cfi_bytes c op l -> (1 <= length l)%nat.
Proof. destruct op; simpl; intros; destruct l; naive_solver (simpl; lia). Qed.

Lemma program_refines ops pc l c loc st fuel moved :
  cfi_program c ops l -> has_at g c l -> dstate_ok st -> 0 <= loc ->
  (moved = false -> loc = 0) -> short_advance_first moved ops = true ->
  (length l <= fuel)%nat ->
  run_refines (cfi_run cie pc ops loc st)
    (enumerate_loop fuel cie (c + Z.of_nat (length l)) pc g (mk_exec c loc st)).
Proof.
  revert l c loc st fuel moved; induction ops as [|op ops IH];
    intros l c loc st fuel moved Hp Hg Ok Hl Hm Hs Hf.
  - simpl in Hp. subst l. destruct fuel; cbn [enumerate_loop]; unfold rd_bind at 1, rd_get;
      cbn [rbind ex_cursor codeOffset]; rewrite Z.add_0_r, Z.ltb_irrefl; now do 2 eexists.
  - destruct Hp as (l1 & l2 & -> & Hb & Hp). pose proof (cfi_bytes_length _ _ _ Hb).
    rewrite length_app in Hf. destruct fuel as [|fuel]; [lia|].
    apply has_at_app in Hg as [Hg1 Hg2].
    cbn [enumerate_loop cfi_run]. unfold rd_bind at 1, rd_get. cbn [rbind ex_cursor codeOffset].
    rewrite length_app. destruct (Z.ltb_spec c (c + Z.of_nat (length l1 + length l2))); [|lia].
    destruct (loc <? pc); cbn [negb andb]; [|now do 2 eexists].
    assert (Ha : match op with CAdvanceLoc _ => loc = 0 | _ => True end).
    { destruct op; try done. simpl in Hs. apply Hm. destruct moved; done. }
    pose proof (instruction_refines op l1 c loc st Hb Hg1 Ok Hl Ha) as P.
    assert (A : forall k : bool -> R exec bool, (let* i := ex_parse FIRCLSParseUint8AndAdvance in
                 let* s := execute_instruction cie i in k s) g (mk_exec c loc st) =
              rbind (one_instruction g (mk_exec c loc st)) (fun '(s, x) => k s g x)).
    { intros k. unfold one_instruction, rd_bind.
      destruct (ex_parse FIRCLSParseUint8AndAdvance g (mk_exec c loc st)) as [[i x]| |]; done. }
    rewrite A. clear A.
    destruct (cfi_step cie op loc st) as [[[loc' st']|]| |] eqn:E; cbn [cfi_refines] in P; cbn [rbind].
    + rewrite P. cbn [rbind negb].
      destruct (cfi_step_ok op l1 c loc st loc' st' Hb Ok Hl E) as (Ok' & Hl' & Hk).
      replace (c + Z.of_nat (length l1 + length l2))
        with (c + Z.of_nat (length l1) + Z.of_nat (length l2)) by lia.
      apply (IH _ _ _ _ _ (match op with CAdvanceLoc _ | CAdvanceLocN _ _ => true | _ => moved end));
        try done; try lia.
      * destruct op; try done; intros Hmv; specialize (Hm Hmv); congruence.
      * destruct op; simpl in Hs |- *; try done. apply andb_prop in Hs. tauto.
    + destruct P as (x & ->). now eexists.
    + now rewrite P.
    + done.
Qed.
End Program.

(** ** The table of the standard *)

Inductive cfa_rule := CfaRegister (reg offset : Z) | CfaExpression (addr : Z).
Inductive reg_rule :=
| RSameValue
| ROffset (n : Z)
| RValOffset (n : Z)
| RRegister (reg : Z)
| RExpression (addr : Z)
| RValExpression (addr : Z).
Record cfi_row := mk_row { row_cfa : cfa_rule; row_rules : list reg_rule }.

(** A rule for one of the 32 registers of the machine. *)
Definition row_set (r : Z) (rule : reg_rule) (row : cfi_row) : option cfi_row :=
  if r <=? 31 then Some (mk_row (row_cfa row) (<[Z.to_nat r := rule]> (row_rules row))) else None.
Definition row_set_cfa (r o : Z) (row : cfi_row) : option cfi_row :=
  if r <=? 31 then Some (mk_row (CfaRegister r o) (row_rules row)) else None.

(** Instructions for the current row.  Changing only the register or only the
    offset of the CFA is valid when the CFA is given by a register. *)
Definition row_step (cie : DWARFCIERecord) (op : cfi_op) (row : cfi_row) : option cfi_row :=
  match op with
  | CNop | CAdvanceLoc _ | CAdvanceLocN _ _ => Some row
  | CDefCfa r o => row_set_cfa r o row
  | CDefCfaRegister r => match row_cfa row with CfaRegister _ o => row_set_cfa r o row | CfaExpression _ => None end
  | CDefCfaOffset o =>
      match row_cfa row with CfaRegister r _ => Some (mk_row (CfaRegister r o) (row_rules row)) | CfaExpression _ => None end
  | CDefCfaExpression a _ => Some (mk_row (CfaExpression a) (row_rules row))
  | CSameValue r => row_set r RSameValue row
  | CRegister r r' => if r' <=? 31 then row_set r (RRegister r') row else None
  | COffset r n => row_set r (ROffset (n * dataAlignFactor cie)) row
  | CExpression r a _ => row_set r (RExpression a) row
  | CValExpression r a _ => row_set r (RValExpression a) row
  end.

Definition row_advance (cie : DWARFCIERecord) (op : cfi_op) : option Z :=
  match op with
  | CAdvanceLoc d | CAdvanceLocN _ d => Some (d * codeAlignFactor cie)
  | _ => None
  end.

(** The row for address [a]: an advance beyond it ends the search. *)
Fixpoint row_at (cie : DWARFCIERecord) (a : Z) (ops : list cfi_op) (loc : Z) (row : cfi_row) : option cfi_row :=
  match ops with
  | [] => Some row
  | op :: ops =>
      match row_advance cie op with
      | Some d => if loc + d <=? a then row_at cie a ops (loc + d) row else Some row
      | None => match row_step cie op row with Some row => row_at cie a ops loc row | None => None end
      end
  end.

(** The last location of the table. *)
Definition cfi_extent (cie : DWARFCIERecord) (ops : list cfi_op) : Z :=
  fold_right (fun op n => default 0 (row_advance cie op) + n) 0 ops.

(** Programs in which an expression for the CFA, once given, is not replaced by a
    register or changed; [expr] says whether one was given before. *)
Fixpoint cfa_expression_last (expr : bool) (ops : list cfi_op) : bool :=
  match ops with
  | [] => true
  | (CDefCfa _ _ | CDefCfaRegister _ | CDefCfaOffset _) :: ops => negb expr && cfa_expression_last expr ops
  | CDefCfaExpression _ _ :: ops => cfa_expression_last true ops
  | _ :: ops => cfa_expression_last expr ops
  end.

(** The row that a state of the interpreter stands for. *)
Definition rule_of (r : FIRCLSDwarfRegister) : reg_rule :=
  match location r with
  | FIRCLSDwarfRegisterUnused => RSameValue
  | FIRCLSDwarfRegisterInCFA => ROffset (s64 (value r))
  | FIRCLSDwarfRegisterOffsetFromCFA => RValOffset (s64 (value r))
  | FIRCLSDwarfRegisterInRegister => RRegister (value r)
  | FIRCLSDwarfRegisterAtExpression => RExpression (value r)
  | FIRCLSDwarfRegisterIsExpression => RValExpression (value r)
  end.
Definition cfa_of (st : FIRCLSDwarfState) : cfa_rule :=
  if cfaExpression st =? 0 then CfaRegister (cfaRegister st) (cfaRegisterOffset st) else CfaExpression (cfaExpression st).
Definition row_of (st : FIRCLSDwarfState) : cfi_row := mk_row (cfa_of st) (map rule_of (dregisters st)).

Lemma row_of_set_rule r rule st : row_set r (rule_of rule) (row_of st) = option_map row_of (set_rule r rule st).
Proof.
  unfold row_set, set_rule. destruct (r <=? 31); [|done]. cbn. f_equal. unfold row_of. cbn [row_cfa row_rules dregisters].
  f_equal. symmetry. apply list_fmap_insert.
Qed.

Section Rows.
Context (cie : DWARFCIERecord).
Context (Hcaf : 0 <= codeAlignFactor cie < 2 ^ 31) (Hdaf : - 2 ^ 31 <= dataAlignFactor cie < 2 ^ 31).

(** An instruction that does not advance has the same effect on a state and on its
    row. *)
Lemma step_row op l c loc st :
  cfi_bytes c op l -> 0 <= c -> row_advance cie op = None ->
  cfa_expression_last (negb (cfaExpression st =? 0)) [op] = true ->
  exists o, cfi_step cie op loc st = keep_loc loc o /\ row_step cie op (row_of st) = option_map row_of o /\
    forall ops, cfa_expression_last (negb (cfaExpression st =? 0)) (op :: ops) = true ->
      forall st', o = Some st' -> cfa_expression_last (negb (cfaExpression st' =? 0)) ops = true.
Proof.
  intros Hb Hc Ha Hx.
  assert (S : forall r rule st', set_rule r rule st = Some st' -> cfaExpression st' = cfaExpression st).
  { intros r rule st'. unfold set_rule. destruct (r <=? 31); [|done]. now intros [= <-]. }
  destruct op; cbn [cfi_bytes row_advance] in *; try discriminate;
    cbn [cfa_expression_last] in Hx |- *; try (rewrite andb_true_r in Hx);
    try (apply negb_true_iff, negb_false_iff, Z.eqb_eq in Hx).
  - exists (Some st). split; [done|]. split; [done|]. intros ops H st' [= <-]. exact H.
  - eexists. split; [reflexivity|]. cbn [row_step]. unfold row_set_cfa. split.
    + destruct (reg <=? 31); [|done]. cbn. unfold row_of, cfa_of, set_cfa. cbn. now rewrite Hx.
    + intros ops H st'. destruct (reg <=? 31); [|done]. intros [= <-]. cbn. now apply andb_prop in H.
  - eexists. split; [reflexivity|]. cbn [row_step]. unfold row_of at 1, cfa_of at 1, row_set_cfa. cbn [row_cfa]. rewrite Hx. cbn [Z.eqb]. split.
    + destruct (reg <=? 31); [|done]. cbn. unfold row_of, cfa_of, set_cfa. cbn. now rewrite Hx.
    + intros ops H st'. destruct (reg <=? 31); [|done]. intros [= <-]. cbn [set_cfa cfaExpression]. rewrite ?Hx. now apply andb_prop in H.
  - eexists. split; [reflexivity|]. cbn [row_step]. unfold row_of at 1, cfa_of at 1, row_set_cfa. cbn [row_cfa]. rewrite Hx. cbn [Z.eqb]. split.
    + unfold row_of, cfa_of, set_cfa. cbn. now rewrite Hx.
    + intros ops H st' [= <-]. cbn [set_cfa cfaExpression]. rewrite ?Hx. now apply andb_prop in H.
  - destruct Hb as (u & _ & _ & ->). eexists. split; [reflexivity|]. split.
    + cbn. unfold row_of, cfa_of. cbn. destruct (Z.eqb_spec (c + 1) 0); [lia|done].
    + intros ops H st' [= <-]. cbn. destruct (Z.eqb_spec (c + 1) 0); [lia|done].
  - eexists. split; [reflexivity|]. split; [now rewrite <- row_of_set_rule|]. intros ops H st' E. now rewrite (S _ _ _ E).
  - eexists. split; [reflexivity|]. cbn [row_step]. split.
    + destruct (reg' <=? 31); [|done]. now rewrite <- row_of_set_rule.
    + intros ops H st' E. destruct (reg' <=? 31); [|done]. now rewrite (S _ _ _ E).
  - destruct Hb as (_ & u & _ & Hu). pose proof (uleb_range _ _ Hu) as Hn. eexists. split; [reflexivity|]. split.
    + cbn [row_step]. rewrite <- row_of_set_rule. unfold rule_of. cbn [location value]. do 2 f_equal.
      symmetry. assert (- 2 ^ 63 <= factored * dataAlignFactor cie < 2 ^ 63) by (zpow; nia).
      rewrite <- (wraps_small 64 (factored * dataAlignFactor cie)) at 2 by (change (64 - 1) with 63; lia).
      apply wraps_wrapu; lia.
    + intros ops H st' E. now rewrite (S _ _ _ E).
  - eexists. split; [reflexivity|]. split; [now rewrite <- row_of_set_rule|]. intros ops H st' E. now rewrite (S _ _ _ E).
  - eexists. split; [reflexivity|]. split; [now rewrite <- row_of_set_rule|]. intros ops H st' E. now rewrite (S _ _ _ E).
Qed.

Lemma extent_nonneg ops pos l : cfi_program pos ops l -> 0 <= cfi_extent cie ops.
Proof.
  revert pos l. induction ops as [|op ops IH]; intros pos l Hp; [done|]. destruct Hp as (l1 & l2 & -> & Hb & Hp).
  specialize (IH _ _ Hp). change (0 <= default 0 (row_advance cie op) + cfi_extent cie ops).
  destruct op; cbn [row_advance from_option id default cfi_bytes] in *; try lia.
  destruct Hb as (b & _ & Hd & _). pose proof (Z.mul_nonneg_nonneg delta (codeAlignFactor cie) ltac:(lia) ltac:(lia)). lia.
Qed.

(** The loop computes the row of the address before [pc]. *)
Lemma run_row ops pos l pc loc st :
  cfi_program pos ops l -> 0 <= pos -> 0 <= loc < pc -> loc + cfi_extent cie ops < 2 ^ 63 ->
  cfa_expression_last (negb (cfaExpression st =? 0)) ops = true ->
  exists o, cfi_run cie pc ops loc st = Ret o /\ option_map row_of o = row_at cie (pc - 1) ops loc (row_of st).
Proof.
  revert pos l loc st. induction ops as [|op ops IH]; intros pos l loc st Hp Hpos Hloc Hext Hx.
  { exists (Some st). now split. }
  destruct Hp as (l1 & l2 & -> & Hb & Hp). pose proof (extent_nonneg _ _ _ Hp) as Hn.
  change (loc + (default 0 (row_advance cie op) + cfi_extent cie ops) < 2 ^ 63) in Hext.
  cbn [cfi_run row_at]. rewrite (proj2 (Z.ltb_lt loc pc)) by lia. destruct (row_advance cie op) as [d|] eqn:Ea.
  - assert (Hd : 0 <= d /\ cfi_step cie op loc st = move_loc (loc + d) st /\
      cfa_expression_last (negb (cfaExpression st =? 0)) ops = true).
    { destruct op; try discriminate; injection Ea as <-; cbn [cfi_bytes] in Hb; (split; [|now split]); apply Z.mul_nonneg_nonneg; try lia.
      destruct Hb as (b & _ & Hd & _). lia. }
    destruct Hd as (Hd & Es & Hx'). cbn [from_option id default] in Hext. rewrite Es. unfold move_loc.
    rewrite (proj2 (Z.ltb_lt (loc + d) (2 ^ 63))) by lia. cbn [rbind]. destruct (Z.leb_spec (loc + d) (pc - 1)) as [Hle|Hgt].
    + apply (IH _ _ (loc + d) st Hp); try lia. done.
    + exists (Some st). split; [|done]. destruct ops; cbn [cfi_run]; [done|]. destruct (Z.ltb_spec (loc + d) pc); [lia|done].
  - destruct (step_row op l1 pos loc st Hb Hpos Ea) as (o & Es & Er & Hk).
    { destruct op; cbn [cfa_expression_last] in Hx |- *; try done; now rewrite andb_true_r; apply andb_prop in Hx. }
    rewrite Es, Er. destruct o as [st'|]; cbn [keep_loc rbind option_map].
    + apply (IH _ _ loc st' Hp); [lia|done|cbn [from_option id default] in Hext; lia|]. exact (Hk ops Hx st' eq_refl).
    + exists None. now split.
Qed.
End Rows.
