(* ===== verification/DwarfTotal.v ===== *)
(** * Crashlytics: DWARF unwinding terminates

    Whatever the unwind section holds: the readers only move the cursor
    forward, so the loops over augmentation strings, call frame instructions and
    expressions end. *)
From Stdlib Require Import ZArith Lia Bool List.
From stdpp Require Import base list gmap numbers.
From S2P Require Import Prelude CMem Leb128 CRead DataParsing ThreadState ExprMachine ExprSpec.
From S2P Require Import ExprProps DwarfUnwind.

(** ** The readers *)

(** A reader that terminates without moving the cursor back. *)
Definition reads {A} (m : R Z A) : Prop :=
  forall g c, rwp True m (fun _ c' => c <= c') g c.

Lemma reads_bind {A B} (m : R Z A) (k : A -> R Z B) :
  reads m -> (forall a, reads (k a)) -> reads (rd_bind m k).
Proof.
  intros Hm Hk g c. apply rwp_bind. eapply rwp_mono; [apply Hm|]. intros a c1 H1.
  eapply rwp_mono; [apply Hk|]. intros b c2 H2. cbv beta in *. lia.
Qed.

Lemma reads_ret {A} (a : A) : reads (rd_ret a).
Proof. intros g c. rwp_steps. lia. Qed.

Lemma reads_get : reads rd_get.
Proof. intros g c. rwp_steps. lia. Qed.

Lemma reads_load a n : reads (rd_load a n).
Proof. intros g c. apply rwp_load_any. intros. lia. Qed.

Lemma reads_check x : reads (int64_check x).
Proof. intros g c. apply rwp_int64_any. lia. Qed.

Lemma reads_bytes n : 0 < n -> reads (parse_bytes n).
Proof. intros Hn g c. apply parse_bytes_moves; [done|]. intros. lia. Qed.

Lemma reads_uleb : reads FIRCLSParseULEB128AndAdvance.
Proof. intros g c. apply uleb_moves. intros. lia. Qed.

Lemma reads_sleb : reads FIRCLSParseLEB128AndAdvance.
Proof. intros g c. apply sleb_moves. intros. lia. Qed.

Lemma uleb_nonneg (Q : Z -> Z -> Prop) g c :
  (forall x c', 0 <= x -> c + 1 <= c' -> Q x c') -> rwp True FIRCLSParseULEB128AndAdvance Q g c.
Proof.
  intros HQ. unfold FIRCLSParseULEB128AndAdvance.
  assert (L : forall n r sh c', 0 <= r -> c + match n with 8%nat => 0 | _ => 1 end <= c' ->
    (n <= 8)%nat -> rwp True (uleb_loop n r sh) Q g c').
  { induction n as [|n IH]; intros r sh c' Hr Hc Hn; cbn [uleb_loop].
    - rwp_steps. apply HQ; lia.
    - rwp_steps. apply rwp_load_any. intros b. rwp_steps. apply rwp_int_shl_any. intros Hsh Hb.
      assert (0 <= Z.lor r (Z.shiftl (Z.land 0x7F (s8 b)) sh)).
      { apply Z.lor_nonneg. split; [done|]. now apply Z.shiftl_nonneg. }
      assert (c + 1 <= c' + 1) by (destruct n as [|[|[|[|[|[|[|[|]]]]]]]]; lia).
      destruct (_ =? 0); rwp_steps; [apply HQ; lia|]. apply IH; [done| |lia].
      destruct n as [|[|[|[|[|[|[|[|[|]]]]]]]]]; lia. }
  apply L; lia.
Qed.

Lemma reads_string : reads FIRCLSParseStringAndAdvance.
Proof.
  intros g c. unfold rwp, FIRCLSParseStringAndAdvance. pose proof (strlen_total g c) as T.
  assert (N : forall fuel a n r, strlen_loop g fuel a n = Ret r -> n <= r).
  { induction fuel as [|fuel IH]; intros a n r E; simpl in E; [discriminate|].
    destruct (g !! a); [|discriminate]. destruct (_ =? 0); [injection E as <-; lia|].
    apply IH in E. lia. }
  destruct (strlen g c) as [n| |] eqn:E; [|done..]. cbn. apply N in E. lia.
Qed.

Ltac reads_step :=
  lazymatch goal with
  | |- reads (rd_ret _) => apply reads_ret
  | |- reads rd_get => apply reads_get
  | |- reads (rd_load _ _) => apply reads_load
  | |- reads (int64_check _) => apply reads_check
  | |- reads (int64_add _ _) => apply reads_check
  | |- reads (parse_bytes _) => apply reads_bytes; lia
  | |- reads FIRCLSParseUint8AndAdvance => apply reads_bytes; lia
  | |- reads FIRCLSParseUint16AndAdvance => apply reads_bytes; lia
  | |- reads FIRCLSParseUint32AndAdvance => apply reads_bytes; lia
  | |- reads FIRCLSParseUint64AndAdvance => apply reads_bytes; lia
  | |- reads FIRCLSParsePointerAndAdvance => apply reads_bytes; lia
  | |- reads FIRCLSParseInt16AndAdvance => unfold FIRCLSParseInt16AndAdvance
  | |- reads FIRCLSParseInt32AndAdvance => unfold FIRCLSParseInt32AndAdvance
  | |- reads FIRCLSParseInt64AndAdvance => unfold FIRCLSParseInt64AndAdvance
  | |- reads FIRCLSParseULEB128AndAdvance => apply reads_uleb
  | |- reads FIRCLSParseLEB128AndAdvance => apply reads_sleb
  | |- reads FIRCLSParseStringAndAdvance => apply reads_string
  | |- reads (rd_bind _ _) => apply reads_bind; [|intros ?]
  | |- reads (if ?b then _ else _) => destruct b
  | |- reads (match ?o with Some _ => _ | None => _ end) => destruct o
  end.
Ltac reads := cbv zeta; repeat (reads_step; cbv zeta beta).

Lemma reads_address e : reads (FIRCLSParseAddressWithEncodingAndAdvance e).
Proof. unfold FIRCLSParseAddressWithEncodingAndAdvance, parse_encoded_value. reads. Qed.

Lemma reads_length : reads FIRCLSParseRecordLengthAndAdvance.
Proof. unfold FIRCLSParseRecordLengthAndAdvance. reads. Qed.

(** ** Records *)

Lemma reads_augmentation_loop n i ending r : reads (augmentation_loop n i ending r).
Proof.
  revert i r; induction n as [|n IH]; intros i r; cbn [augmentation_loop]; [reads|].
  unfold augmentation_entry. reads; try apply reads_address; apply IH.
Qed.

Lemma reads_augmentation r : reads (FIRCLSDwarfParseAndProcessAugmentation r).
Proof.
  unfold FIRCLSDwarfParseAndProcessAugmentation. reads; [|apply reads_augmentation_loop].
  intros g c. unfold rwp. pose proof (strlen_total g (augmentation r)).
  destruct (strlen g (augmentation r)); simpl; (done || lia).
Qed.

Lemma cie_terminates ptr g : FIRCLSDwarfParseCIERecord ptr g <> OutOfFuel.
Proof.
  unfold FIRCLSDwarfParseCIERecord. destruct (ptr =? 0); [done|].
  assert (P : reads parse_cie_body).
  { unfold parse_cie_body. reads; first [apply reads_length|apply reads_augmentation]. }
  specialize (P g ptr). unfold rwp in P. destruct (parse_cie_body g ptr) as [[r c]| |]; done.
Qed.

(** The end of an FDE: only the augmentation data moves the cursor by what it says. *)
Lemma fde_terminates parseCIE cie ptr g : FIRCLSDwarfParseFDERecord parseCIE cie ptr g <> OutOfFuel.
Proof.
  unfold FIRCLSDwarfParseFDERecord. destruct (ptr =? 0); [done|].
  assert (B : forall len off e c0 g c, rwp True (parse_fde_body len off e c0) (fun _ _ => True) g c).
  { intros len off e c0 g' c. unfold parse_fde_body, FIRCLSDwarfCIEHasAugmentationData.
    destruct (negb _); [now rwp_steps|]. rwp_steps. eapply rwp_mono; [apply reads_address|].
    intros start c1 _. destruct (start =? _); [now rwp_steps|]. rwp_steps.
    eapply rwp_mono; [apply reads_address|]. intros range c2 _.
    destruct (range =? _); [now rwp_steps|]. rwp_steps.
    destruct (augmentation c0 =? 0); rwp_steps; [done|]. apply rwp_load_any. intros x. rwp_steps.
    destruct (x =? 122); rwp_steps; [|done]. eapply rwp_mono; [apply reads_uleb|]. intros n c3 _. now rwp_steps. }
  assert (P : rwp True (parse_fde_record parseCIE cie) (fun _ _ => True) g ptr).
  { unfold parse_fde_record. rwp_steps. eapply rwp_mono; [apply reads_length|]. intros len c1 _.
    destruct (len =? 0); [now rwp_steps|]. rwp_steps. apply parse_bytes_moves; [lia|]. intros off.
    destruct (off =? 0); [now rwp_steps|]. destruct parseCIE; [|apply B]. rwp_steps.
    unfold rwp at 1. pose proof (cie_terminates (c1 + 4 - off - 4) g).
    destruct (FIRCLSDwarfParseCIERecord (c1 + 4 - off - 4) g) as [r| |]; [|done..]. cbn [rbind].
    destruct r; [apply B|now rwp_steps]. }
  unfold rwp in P. destruct (parse_fde_record parseCIE cie g ptr) as [[r c]| |]; done.
Qed.

Lemma cfi_terminates ehFrame off g : FIRCLSDwarfParseCFIFromFDERecordOffset ehFrame off g <> OutOfFuel.
Proof.
  unfold FIRCLSDwarfParseCFIFromFDERecordOffset, FIRCLSDwarfParseCFIFromFDERecord.
  destruct (_ || _); [done|]. destruct (_ =? 0); [done|].
  pose proof (fde_terminates true no_cie (ehFrame + off) g).
  destruct (FIRCLSDwarfParseFDERecord true no_cie (ehFrame + off) g); done.
Qed.

(** ** Call frame instructions *)

(** An instruction's code: terminates, and the cursor does not go back. *)
Definition ex_forward {A} (m : R exec A) : Prop :=
  forall g x, rwp True m (fun _ x' => ex_cursor x <= ex_cursor x') g x.

Lemma ex_forward_bind {A B} (m : R exec A) (k : A -> R exec B) :
  ex_forward m -> (forall a, ex_forward (k a)) -> ex_forward (rd_bind m k).
Proof.
  intros Hm Hk g x. apply rwp_bind. eapply rwp_mono; [apply Hm|]. intros a x1 H1.
  eapply rwp_mono; [apply Hk|]. intros b x2 H2. cbv beta in *. lia.
Qed.

Lemma ex_forward_ret {A} (a : A) : ex_forward (rd_ret a).
Proof. intros g x. rwp_steps. lia. Qed.

Lemma ex_forward_get : ex_forward rd_get.
Proof. intros g x. rwp_steps. lia. Qed.

Lemma ex_forward_check n : ex_forward (int64_check n).
Proof. intros g x. apply rwp_int64_any. lia. Qed.

Lemma ex_forward_parse {A} (m : R Z A) : reads m -> ex_forward (ex_parse m).
Proof.
  intros Hm g x. unfold ex_parse. rwp_steps. eapply rwp_mono; [apply Hm|]. intros a c Hc.
  cbv beta in Hc. rwp_steps. cbn [ex_cursor snd]. lia.
Qed.

Lemma ex_forward_offset o : ex_forward (ex_set_offset o).
Proof. intros g x. unfold ex_set_offset. rwp_steps. cbn. lia. Qed.

Lemma ex_forward_state st : ex_forward (ex_set_state st).
Proof. intros g x. unfold ex_set_state. rwp_steps. cbn. lia. Qed.

Lemma ex_forward_fault {A} : ex_forward (@rd_fault exec A).
Proof. intros g x. apply rwp_fault. Qed.

Lemma ex_forward_set n r : ex_forward (set_dregister n r).
Proof.
  unfold set_dregister. apply ex_forward_bind; [apply ex_forward_get|]. intros x.
  destruct (_ || _); [apply ex_forward_fault|apply ex_forward_state].
Qed.

Lemma ex_forward_getreg n : ex_forward (get_dregister n).
Proof.
  unfold get_dregister. apply ex_forward_bind; [apply ex_forward_get|]. intros x.
  destruct (_ <? _); [apply ex_forward_fault|].
  destruct (_ !! _); [apply ex_forward_ret|apply ex_forward_fault].
Qed.

(** Skipping an expression: its length is not negative. *)
Lemma ex_forward_skip {A} (k : R exec A) :
  ex_forward k ->
  ex_forward (let* n := ex_parse FIRCLSParseULEB128AndAdvance in ex_advance n ;; k).
Proof.
  intros Hk g x. unfold ex_parse, ex_advance. rwp_steps. apply uleb_nonneg. intros n c Hn Hc.
  rwp_steps. cbn [fst snd ex_cursor]. eapply rwp_mono; [apply Hk|]. intros a x' Hx.
  cbn [ex_cursor] in Hx. lia.
Qed.

Ltac ex_forward_step :=
  lazymatch goal with
  | |- ex_forward (rd_ret _) => apply ex_forward_ret
  | |- ex_forward rd_get => apply ex_forward_get
  | |- ex_forward (int64_add _ _) => apply ex_forward_check
  | |- ex_forward (int64_mul _ _) => apply ex_forward_check
  | |- ex_forward (ex_set_offset _) => apply ex_forward_offset
  | |- ex_forward (ex_set_state _) => apply ex_forward_state
  | |- ex_forward (set_dregister _ _) => apply ex_forward_set
  | |- ex_forward (get_dregister _) => apply ex_forward_getreg
  | |- ex_forward (ex_parse _) => apply ex_forward_parse; first [apply reads_address|reads_step]
  | |- ex_forward (rd_bind (ex_parse _) (fun n => rd_bind (ex_advance n) _)) => apply ex_forward_skip
  | |- ex_forward (rd_bind _ _) => apply ex_forward_bind; [|intros ?]
  | |- ex_forward (if ?b then _ else _) => destruct b
  end.
Ltac ex_forward_all := cbv zeta; repeat (ex_forward_step; cbv zeta beta).

Lemma execute_forward cie i : ex_forward (execute_instruction cie i).
Proof.
  unfold execute_instruction, FIRCLSDwarfParseAndExecute_set_loc,
    FIRCLSDwarfParseAndExecute_advance_loc1, FIRCLSDwarfParseAndExecute_advance_loc2,
    FIRCLSDwarfParseAndExecute_advance_loc4, advance_by, FIRCLSDwarfParseAndExecute_def_cfa,
    FIRCLSDwarfParseAndExecute_def_cfa_register, FIRCLSDwarfParseAndExecute_def_cfa_offset,
    FIRCLSDwarfParseAndExecute_same_value, FIRCLSDwarfParseAndExecute_register,
    FIRCLSDwarfParseAndExecute_def_cfa_expression, FIRCLSDwarfParseAndExecute_expression,
    FIRCLSDwarfParseAndExecute_val_expression, FIRCLSDwarfParseAndExecuteInstructionWithOperand,
    FIRCLSDwarfParseAndExecute_offset, FIRCLSDwarfParseAndExecute_advance_loc.
  ex_forward_all.
Qed.

Lemma enumerate_loop_terminates fuel cie e pc g x :
  e - ex_cursor x <= Z.of_nat fuel ->
  rwp True (enumerate_loop fuel cie e pc) (fun _ _ => True) g x.
Proof.
  revert x; induction fuel as [|fuel IH]; intros x Hf; cbn [enumerate_loop]; rwp_steps;
    (destruct (Z.ltb_spec (ex_cursor x) e); [|now rwp_steps]; try lia).
  destruct (codeOffset x <? pc); cbn [negb andb]; [|now rwp_steps]. rwp_steps.
  unfold ex_parse. rwp_steps. apply parse_bytes_moves; [lia|]. intros i. rwp_steps. cbn [fst snd].
  eapply rwp_mono; [apply execute_forward|]. intros ok x' Hx. cbn [ex_cursor] in Hx.
  destruct ok; cbn [negb]; [|now rwp_steps]. apply IH. lia.
Qed.

Lemma enumerate_terminates ins cie st pc g :
  FIRCLSDwarfInstructionsEnumerate ins cie st pc g <> OutOfFuel.
Proof.
  unfold FIRCLSDwarfInstructionsEnumerate.
  pose proof (enumerate_loop_terminates (Z.to_nat (ins_length ins)) cie
    (ins_data ins + ins_length ins) pc g (mk_exec (ins_data ins) 0 st)) as T.
  specialize (T ltac:(cbn [ex_cursor]; lia)). unfold rwp in T.
  destruct (enumerate_loop _ _ _ _ _ _) as [[b x]| |]; done.
Qed.

(** ** Registers *)

Section Registers.
Context {C : Type} `{MContext C}.

Lemma saved_terminates (regs : C) cfa r g : FIRCLSDwarfGetSavedRegister regs cfa r g <> OutOfFuel.
Proof.
  unfold FIRCLSDwarfGetSavedRegister. destruct (location r); try done;
    pose proof (evaluate_terminates (value r) regs (s64 cfa) g);
    destruct (FIRCLSDwarfEvalulateExpression (value r) regs (s64 cfa) g); done.
Qed.

Lemma assign_terminates rules i (regs : C) cfa c g : assign_loop rules i regs cfa c g <> OutOfFuel.
Proof.
  revert i c; induction rules as [|r rules IH]; intros i c; cbn [assign_loop]; [done|].
  pose proof (saved_terminates regs cfa r g) as T.
  destruct (location r); try apply IH;
    (destruct (FIRCLSDwarfGetSavedRegister regs cfa r g) as [v| |]; [|done..]; cbn [rbind];
     destruct (FIRCLSDwarfUnwindSetRegisterValue c i v); [apply IH|done]).
Qed.

Lemma compute_terminates record (regs : C) g :
  FIRCLSDwarfUnwindComputeRegisters record regs g <> OutOfFuel.
Proof.
  unfold FIRCLSDwarfUnwindComputeRegisters.
  pose proof (enumerate_terminates (cie_instructions (cfi_cie record)) (cfi_cie record)
                zero_dstate INTPTR_MAX g) as T1.
  destruct (FIRCLSDwarfInstructionsEnumerate _ _ _ _ _) as [[ok st]| |]; [|done..]. cbn [rbind].
  destruct ok; [|done]. cbn [negb]. cbv zeta. destruct (_ <? 0); [done|].
  pose proof (enumerate_terminates (fde_instructions (cfi_fde record)) (cfi_cie record) st
    (s64 (FIRCLSThreadContextGetPC regs - startAddress (cfi_fde record))) g) as T2.
  destruct (FIRCLSDwarfInstructionsEnumerate _ _ _ _ _) as [[ok st2]| |]; [|done..]. cbn [rbind].
  destruct ok; [|done]. cbn [negb].
  assert (T3 : FIRCLSDwarfGetCFA st2 regs g <> OutOfFuel).
  { unfold FIRCLSDwarfGetCFA. destruct (negb _); [|done].
    pose proof (evaluate_terminates (cfaExpression st2) regs 0 g).
    destruct (FIRCLSDwarfEvalulateExpression _ _ _ _); done. }
  destruct (FIRCLSDwarfGetCFA st2 regs g) as [[cfa|]| |]; try done. cbn [rbind].
  unfold FIRCLSDwarfUnwindAssignRegisters.
  pose proof (assign_terminates (dregisters st2) 0 regs cfa regs g).
  destruct (assign_loop _ _ _ _ _ _); done.
Qed.

(** The fuel of the definitions is enough, whatever bytes the __eh_frame section
    and the stack hold, for parsing the FDE and its CIE, and then running the
    call frame instructions, evaluating the expressions and restoring the
    registers: each returns or reaches undefined behaviour ([Fault]), after which
    the code may do anything. *)
Theorem dwarf_unwind_total ehFrame off record (regs : C) g :
  FIRCLSDwarfParseCFIFromFDERecordOffset ehFrame off g <> OutOfFuel /\
  FIRCLSDwarfUnwindComputeRegisters record regs g <> OutOfFuel.
Proof. split; [apply cfi_terminates|apply compute_terminates]. Qed.
End Registers.
