(* ===== verification/DwarfProps.v ===== *)
(** * Crashlytics: what DWARF unwinding computes

    The call frame instructions give the rules of the DWARF standard, the rules
    give the registers of the caller, and for the frame layout every arm64
    compiler emits the result is that of following the frame pointer. *)
From Stdlib Require Import ZArith Lia Bool List.
From stdpp Require Import base list gmap numbers.
From S2P Require Import Prelude CMem Leb128 CRead DataParsing ThreadState ExprMachine ExprSpec.
From S2P Require Import DwarfUnwind DwarfSpec.

(** ** Call frame instructions *)

Lemma enumerate_run cie g ops l pos st pc :
  0 <= codeAlignFactor cie < 2 ^ 31 -> dstate_ok st -> cfi_program pos ops l -> has_at g pos l ->
  short_advance_first false ops = true ->
  match cfi_run cie pc ops 0 st with
  | Ret (Some st') =>
      FIRCLSDwarfInstructionsEnumerate (mk_instructions (Z.of_nat (length l)) pos) cie st pc g =
      Ret (true, st')
  | Ret None => exists st',
      FIRCLSDwarfInstructionsEnumerate (mk_instructions (Z.of_nat (length l)) pos) cie st pc g =
      Ret (false, st')
  | Fault =>
      FIRCLSDwarfInstructionsEnumerate (mk_instructions (Z.of_nat (length l)) pos) cie st pc g = Fault
  | OutOfFuel => False
  end.
Proof.
  intros Hc Ok Hp Hg Hs. unfold FIRCLSDwarfInstructionsEnumerate. cbn [ins_length ins_data].
  pose proof (program_refines cie g Hc ops pc l pos 0 st (Z.to_nat (Z.of_nat (length l))) false
    Hp Hg Ok ltac:(lia) ltac:(done) Hs ltac:(lia)) as P.
  destruct (cfi_run cie pc ops 0 st) as [[st'|]| |]; cbn [run_refines] in P.
  - destruct P as (c & loc & ->). done.
  - destruct P as (x & ->). cbn. eauto.
  - now rewrite P.
  - done.
Qed.


(** The CIE and the instructions clang emits for a function with a frame:
    advance_loc 3 (times 4); def_cfa fp 16; offset lr -8; offset fp -16. *)
Definition frame_cie : DWARFCIERecord :=
  mk_cie 16 1 0 0 0x10 0 0 0 4 (-8) 30 false (mk_instructions 0 0).
Definition frame_cfi : list Z := [0x43; 0x0C; 29; 16; 0x9E; 1; 0x9D; 2].
Definition frame_ops : list cfi_op := [CAdvanceLoc 3; CDefCfa 29 16; COffset 30 1; COffset 29 2].
Definition frame_cfi_mem : mem := list_to_map (zip (seqZ 8192 8) frame_cfi).

Lemma frame_program pos : cfi_program pos frame_ops frame_cfi.
Proof.
  exists [0x43], [0x0C; 29; 16; 0x9E; 1; 0x9D; 2]. repeat split; try lia.
  exists [0x0C; 29; 16], [0x9E; 1; 0x9D; 2]. split; [done|]. split.
  { exists [29], [16]. split; [done|]. split; apply uleb_small; lia. }
  exists [0x9E; 1], [0x9D; 2]. split; [done|]. split.
  { split; [lia|]. exists [1]. split; [done|]. apply uleb_small; lia. }
  exists [0x9D; 2], []. split; [done|]. split; [|done].
  split; [lia|]. exists [2]. split; [done|]. apply uleb_small; lia.
Qed.

(** The rules that result. *)
Definition frame_rules (st : FIRCLSDwarfState) : FIRCLSDwarfState :=
  mk_dstate 29 16 (cfaExpression st) (spArgSize st)
    (<[29%nat := mk_register FIRCLSDwarfRegisterInCFA (2 ^ 64 - 16)]>
       (<[30%nat := mk_register FIRCLSDwarfRegisterInCFA (2 ^ 64 - 8)]> (dregisters st))).


(** The short form of DW_CFA_advance_loc sets the location counter instead
    of adding to it. After two of them, by 4 and by 8, the standard has moved to
    location 12 and a rule that follows does not apply at offset 10; the code is
    at location 8 and applies it. *)
Theorem advance_loc_resets :
  exists cie g ops l,
    cfi_program 8192 ops l /\ has_at g 8192 l /\
    row_at cie 10 ops 0 (row_of zero_dstate) = Some (row_of zero_dstate) /\
    FIRCLSDwarfInstructionsEnumerate (mk_instructions (Z.of_nat (length l)) 8192) cie zero_dstate 10 g =
    Ret (true, set_cfa 0 32 zero_dstate).
Proof.
  exists frame_cie, (list_to_map (zip (seqZ 8192 4) [0x41; 0x42; 0x0E; 32])),
    [CAdvanceLoc 1; CAdvanceLoc 2; CDefCfaOffset 32], [0x41; 0x42; 0x0E; 32].
  split; [|repeat split; vm_compute; reflexivity].
  exists [0x41], [0x42; 0x0E; 32]. repeat split; try lia.
  exists [0x42], [0x0E; 32]. repeat split; try lia.
  exists [0x0E; 32], []. split; [done|]. split; [|done].
  exists [32]. split; [done|]. apply uleb_small; lia.
Qed.

(** ** Restoring registers *)

Section Assign.
Context {C : Type} `{MContextLaws C}.

(** an expression for the CFA stays in force for good: a later
    DW_CFA_def_cfa is executed and its register and offset recorded, but the CFA
    is still computed from the expression. *)
Theorem def_cfa_after_expression (regs : C) g st c loc u v r o :
  uleb u r -> uleb v o -> r <= 31 -> has_at g c (u ++ v) -> cfaExpression st <> 0 ->
  exists st',
    FIRCLSDwarfParseAndExecute_def_cfa g (mk_exec c loc st) =
      Ret (true, mk_exec (c + Z.of_nat (length (u ++ v))) loc st') /\
    cfaRegister st' = r /\ cfaRegisterOffset st' = o /\
    FIRCLSDwarfGetCFA st' regs g = FIRCLSDwarfGetCFA st regs g.
Proof.
  intros Hu Hv Hr Hg He. exists (set_cfa r o st).
  pose proof (exec_def_cfa no_cie g u v r o c loc st Hu Hv Hg) as P.
  cbn [cfi_step] in P. destruct (Z.leb_spec r 31); [|lia]. cbn [keep_loc cfi_refines] in P.
  split; [exact P|]. split; [done|]. split; [done|].
  unfold FIRCLSDwarfGetCFA. cbn [cfaExpression set_cfa].
  now destruct (Z.eqb_spec (cfaExpression st) 0).
Qed.

(** What a restored register reads as: pointers are stripped of their metadata. *)
Definition as_read (num v : Z) : Z := if num <=? 28 then v else CLS_PTRAUTH_STRIP v.

Lemma saved_range (regs : C) cfa r g v :
  bytes_ok g -> FIRCLSDwarfGetSavedRegister regs cfa r g = Ret v -> 0 <= v < 2 ^ 64.
Proof.
  intros Hb E. unfold FIRCLSDwarfGetSavedRegister in E.
  assert (L : forall a, 0 <= match FIRCLSReadMemory g a 8 with Some l => le_val l | None => 0 end < 2 ^ 64).
  { intros a. unfold FIRCLSReadMemory. destruct (FIRCLSIsValidPointer a); [|zpow; lia].
    destruct (load_bytes g a (Z.to_nat 8)) as [l|] eqn:El; [|zpow; lia].
    pose proof (le_val_range l (load_bytes_is_bytes _ _ _ _ Hb El)) as R1.
    rewrite (load_bytes_length _ _ _ _ El) in R1. change (256 ^ Z.of_nat (Z.to_nat 8)) with (2 ^ 64) in R1.
    exact R1. }
  destruct (location r); try (injection E as <-); try (zpow; lia); try apply L;
    try apply register_value_range;
    destruct (FIRCLSDwarfEvalulateExpression (value r) regs (s64 cfa) g) as [[a|]| |];
    try discriminate; injection E as <-; try (zpow; lia); [apply L|].
  apply wrapu_range. lia.
Qed.

(** The PC follows the link register. *)
Lemma get_pc_set c num v c' :
  FIRCLSDwarfUnwindSetRegisterValue c num v = Some c' ->
  FIRCLSThreadContextGetPC c' =
  if num =? CLS_DWARF_ARM64_LR then CLS_PTRAUTH_STRIP v else FIRCLSThreadContextGetPC c.
Proof.
  unfold FIRCLSDwarfUnwindSetRegisterValue, FIRCLSThreadContextGetPC, FIRCLSThreadContextSetPC,
    FIRCLSThreadContextSetLinkRegister, FIRCLSThreadContextSetStackPointer,
    FIRCLSThreadContextSetFramePointer, CLS_DWARF_ARM64_FP, CLS_DWARF_ARM64_SP, CLS_DWARF_ARM64_LR.
  intros Hs.
  repeat match type of Hs with
  | (if ?b then _ else _) = _ => let E := fresh "E" in destruct b eqn:E
  end; simplify_eq; b2p; subst; try (destruct (Z.eqb_spec num 30); [lia|]); cbn;
    rewrite ?ss_get_set_strip, ?ss_get_set_ne by congruence; done.
Qed.

Definition used (r : FIRCLSDwarfRegister) : bool :=
  match location r with FIRCLSDwarfRegisterUnused => false | _ => true end.

(** After the loop over the rules from number [i] on. *)
Lemma assign_loop_spec rules i (regs : C) cfa c g c' :
  bytes_ok g -> 0 <= i -> assign_loop rules i regs cfa c g = Ret (Some c') ->
  (forall num, num < i -> FIRCLSDwarfUnwindGetRegisterValue c' num = FIRCLSDwarfUnwindGetRegisterValue c num) /\
  (forall k r, rules !! k = Some r ->
     if used r
     then exists v, FIRCLSDwarfGetSavedRegister regs cfa r g = Ret v /\
            FIRCLSDwarfUnwindGetRegisterValue c' (i + Z.of_nat k) = as_read (i + Z.of_nat k) v /\
            (i + Z.of_nat k = CLS_DWARF_ARM64_LR -> FIRCLSThreadContextGetPC c' = CLS_PTRAUTH_STRIP v)
     else FIRCLSDwarfUnwindGetRegisterValue c' (i + Z.of_nat k) =
          FIRCLSDwarfUnwindGetRegisterValue c (i + Z.of_nat k)) /\
  (CLS_DWARF_ARM64_LR < i -> FIRCLSThreadContextGetPC c' = FIRCLSThreadContextGetPC c).
Proof.
  intros Hb. revert i c; induction rules as [|r rules IH]; intros i c Hi E; cbn [assign_loop] in E.
  - injection E as <-. split; [done|]. split; [|done]. intros k r Hk. discriminate.
  - destruct (used r) eqn:U.
    + assert (E' : rbind (FIRCLSDwarfGetSavedRegister regs cfa r g) (fun v =>
          match FIRCLSDwarfUnwindSetRegisterValue c i v with
          | None => Ret None | Some c => assign_loop rules (i + 1) regs cfa c g end) = Ret (Some c')).
      { unfold used in U. destruct (location r); (discriminate || exact E). }
      clear E. destruct (FIRCLSDwarfGetSavedRegister regs cfa r g) as [v| |] eqn:Ev; try discriminate.
      cbn [rbind] in E'. destruct (FIRCLSDwarfUnwindSetRegisterValue c i v) as [c1|] eqn:Es; [|discriminate].
      destruct (IH (i + 1) c1 ltac:(lia) E') as (I1 & I2 & I3).
      pose proof (saved_range _ _ _ _ _ Hb Ev) as Rv. split; [|split].
      * intros num Hn. rewrite I1 by lia. apply (get_set_register _ _ _ _ _ Es). lia.
      * intros [|k] r' Hk; cbn in Hk.
        -- injection Hk as <-. rewrite U. exists v. split; [done|]. rewrite Z.add_0_r. split.
           ++ rewrite I1 by lia. exact (get_set_same _ _ _ _ Es Rv).
           ++ intros ->. rewrite I3 by lia. rewrite (get_pc_set _ _ _ _ Es). now rewrite Z.eqb_refl.
        -- specialize (I2 k r' Hk). replace (i + 1 + Z.of_nat k) with (i + Z.of_nat (S k)) in I2 by lia.
           destruct (used r'); [done|]. rewrite I2. apply (get_set_register _ _ _ _ _ Es). lia.
      * intros Hlr. rewrite I3 by lia. rewrite (get_pc_set _ _ _ _ Es).
        destruct (Z.eqb_spec i CLS_DWARF_ARM64_LR); [lia|done].
    + assert (E' : assign_loop rules (i + 1) regs cfa c g = Ret (Some c')).
      { unfold used in U. destruct (location r); (discriminate || exact E). }
      destruct (IH (i + 1) c ltac:(lia) E') as (I1 & I2 & I3). split; [|split].
      * intros num Hn. apply I1. lia.
      * intros [|k] r' Hk; cbn in Hk.
        -- injection Hk as <-. rewrite U, Z.add_0_r. apply I1. lia.
        -- specialize (I2 k r' Hk). replace (i + 1 + Z.of_nat k) with (i + Z.of_nat (S k)) in I2 by lia.
           done.
      * intros Hlr. apply I3. lia.
Qed.

(** when the registers of the caller are computed, the stack pointer is the
    CFA, every register with a rule has the value its rule gives, every other
    register is as it was, and the PC is the restored link register; the stack
    pointer and the link register have really changed, so that unwinding makes
    progress. *)
Theorem assign_registers_correct st (regs : C) cfa g c' :
  bytes_ok g -> length (dregisters st) = 32%nat -> 0 <= cfa < 2 ^ 64 ->
  FIRCLSDwarfUnwindAssignRegisters st regs cfa g = Ret (Some c') ->
  FIRCLSThreadContextGetStackPointer c' = CLS_PTRAUTH_STRIP cfa /\
  (forall num r, 0 <= num < CLS_DWARF_REG_SP -> dregisters st !! Z.to_nat num = Some r ->
     if used r
     then exists v, FIRCLSDwarfGetSavedRegister regs cfa r g = Ret v /\
                    FIRCLSDwarfUnwindGetRegisterValue c' num = as_read num v
     else FIRCLSDwarfUnwindGetRegisterValue c' num = FIRCLSDwarfUnwindGetRegisterValue regs num) /\
  FIRCLSThreadContextGetPC c' = FIRCLSThreadContextGetLinkRegister c' /\
  FIRCLSThreadContextGetStackPointer c' <> FIRCLSThreadContextGetStackPointer regs /\
  FIRCLSThreadContextGetLinkRegister c' <> FIRCLSThreadContextGetLinkRegister regs.
Proof.
  intros Hb Hl Hc E. unfold FIRCLSDwarfUnwindAssignRegisters in E.
  destruct (assign_loop (dregisters st) 0 regs cfa regs g) as [[c1|]| |] eqn:Ea; try discriminate.
  cbn [rbind] in E. injection E as E.
  set (c2 := FIRCLSThreadContextSetStackPointer c1 cfa) in E.
  assert (Es : FIRCLSDwarfUnwindSetRegisterValue c1 CLS_DWARF_REG_SP cfa = Some c2) by done.
  clearbody c2. unfold FIRCLSDwarfCompareRegisters in E.
  destruct (Z.eqb_spec (FIRCLSDwarfUnwindGetRegisterValue regs CLS_DWARF_REG_SP)
              (FIRCLSDwarfUnwindGetRegisterValue c2 CLS_DWARF_REG_SP)) as [|N1]; [discriminate|].
  destruct (Z.eqb_spec (FIRCLSDwarfUnwindGetRegisterValue regs CLS_DWARF_REG_RETURN)
              (FIRCLSDwarfUnwindGetRegisterValue c2 CLS_DWARF_REG_RETURN)) as [|N2]; [discriminate|].
  injection E as <-.
  destruct (assign_loop_spec (dregisters st) 0 regs cfa regs g c1 Hb ltac:(lia) Ea) as (_ & I2 & _).
  assert (Hother : forall num, num <> CLS_DWARF_REG_SP ->
    FIRCLSDwarfUnwindGetRegisterValue c2 num = FIRCLSDwarfUnwindGetRegisterValue c1 num)
    by (intros; now apply (get_set_register _ _ _ _ _ Es)).
  assert (Hrules : forall num r, 0 <= num < CLS_DWARF_REG_SP -> dregisters st !! Z.to_nat num = Some r ->
     if used r
     then exists v, FIRCLSDwarfGetSavedRegister regs cfa r g = Ret v /\
                    FIRCLSDwarfUnwindGetRegisterValue c2 num = as_read num v
     else FIRCLSDwarfUnwindGetRegisterValue c2 num = FIRCLSDwarfUnwindGetRegisterValue regs num).
  { intros num r Hn Hr. specialize (I2 _ _ Hr). rewrite Z.add_0_l, Z2Nat.id in I2 by lia.
    rewrite Hother by lia. destruct (used r); [|done]. naive_solver. }
  split; [|split; [exact Hrules|split; [|split]]].
  - pose proof (get_set_same _ _ _ _ Es Hc) as S. exact S.
  - destruct (lookup_lt_is_Some_2 (dregisters st) 30) as [r Hr]; [rewrite Hl; lia|].
    specialize (I2 30%nat r Hr). specialize (Hrules 30 r ltac:(unfold CLS_DWARF_REG_SP, CLS_DWARF_ARM64_SP; lia) Hr).
    destruct (used r); [|destruct (N2 (eq_sym Hrules))].
    destruct I2 as (v & Ev & Eg & Ep). destruct Hrules as (v' & Ev' & Eg').
    rewrite (get_pc_set _ _ _ _ Es). cbn [Z.eqb CLS_DWARF_REG_SP]. 
    change (CLS_DWARF_REG_SP =? CLS_DWARF_ARM64_LR) with false. cbv iota.
    rewrite Ep by done. rewrite Ev in Ev'. injection Ev' as <-. exact (eq_sym Eg').
  - exact (fun E => N1 (eq_sym E)).
  - exact (fun E => N2 (eq_sym E)).
Qed.
End Assign.

(** ** The standard frame *)

(** What a CIE says before any instruction of the function has run: the CFA is
    SP + 0. *)
Definition entry_cfi : list Z := [0x0C; 31; 0].

Lemma entry_program pos : cfi_program pos [CDefCfa 31 0] entry_cfi.
Proof.
  exists entry_cfi, []. split; [done|]. split; [|done].
  exists [31], [0]. split; [done|]. split; apply uleb_small; lia.
Qed.

Section Frame.
Context {C : Type} `{MContextLaws C}.

(** A record with the standard CIE and FDE, its instructions in memory. *)
Definition standard_record (record : FIRCLSDwarfCFIRecord) (g : mem) : Prop :=
  let cie := cfi_cie record in
  let fde := cfi_fde record in
  codeAlignFactor cie = 4 /\ dataAlignFactor cie = -8 /\
  ins_length (cie_instructions cie) = 3 /\ has_at g (ins_data (cie_instructions cie)) entry_cfi /\
  ins_length (fde_instructions fde) = 8 /\ has_at g (ins_data (fde_instructions fde)) frame_cfi.

Lemma frame_run cie pc st :
  codeAlignFactor cie = 4 -> dataAlignFactor cie = -8 -> 12 < pc ->
  cfi_run cie pc frame_ops 0 st = Ret (Some (frame_rules st)).
Proof.
  intros Hcaf Hdaf Hpc.
  assert (L0 : (0 <? pc) = true) by (apply Z.ltb_lt; lia).
  assert (L : (12 <? pc) = true) by (now apply Z.ltb_lt).
  unfold frame_ops. cbn [cfi_run cfi_step]. rewrite L0. unfold move_loc, keep_loc, set_rule.
  rewrite Hcaf, Hdaf. change (0 + 3 * 4) with 12. change (12 <? 2 ^ 63) with true.
  change (29 <=? 31) with true. change (30 <=? 31) with true. cbn [rbind].
  repeat (rewrite L; cbv iota beta; cbn [rbind]). reflexivity.
Qed.

Lemma standard_rules record g pc :
  standard_record record g -> 12 < pc ->
  FIRCLSDwarfInstructionsEnumerate (cie_instructions (cfi_cie record)) (cfi_cie record) zero_dstate
    INTPTR_MAX g = Ret (true, set_cfa 31 0 zero_dstate) /\
  FIRCLSDwarfInstructionsEnumerate (fde_instructions (cfi_fde record)) (cfi_cie record)
    (set_cfa 31 0 zero_dstate) pc g = Ret (true, frame_rules zero_dstate).
Proof.
  intros (Hcaf & Hdaf & L1 & G1 & L2 & G2) Hpc.
  destruct record as [cie fde]; cbn [cfi_cie cfi_fde] in *.
  destruct (cie_instructions cie) as [n1 p1], (fde_instructions fde) as [n2 p2].
  cbn [ins_length ins_data] in *. subst n1 n2.
  pose proof (enumerate_run cie g _ _ p1 zero_dstate INTPTR_MAX ltac:(lia) ltac:(done)
    (entry_program p1) G1 ltac:(done)) as P1.
  pose proof (enumerate_run cie g _ _ p2 (set_cfa 31 0 zero_dstate) pc ltac:(lia) ltac:(done)
    (frame_program p2) G2 ltac:(done)) as P2.
  rewrite frame_run in P2 by done. split; [exact P1|exact P2].
Qed.

Lemma word_bytes x : 0 <= x < 2 ^ 64 -> le_val (le_bytes 8 x) = x.
Proof.
  intros Hx. rewrite le_val_bytes. change (256 ^ Z.of_nat 8) with (2 ^ 64). now apply Z.mod_small.
Qed.

(** The saved frame pointer and return address, 16 bytes at the frame pointer. *)
Lemma frame_slot g fp k l :
  0 <= fp -> 0 < k <= 16 -> fp + 16 < 2 ^ 64 -> 4096 <= fp ->
  has_at g (fp + 16 - k) l -> length l = 8%nat ->
  match FIRCLSReadMemory g (u64 (fp + 16 + (2 ^ 64 - k))) 8 with Some l => le_val l | None => 0 end
  = le_val l.
Proof.
  intros Hf Hk Hlt Hv Hg Hl.
  assert (u64 (fp + 16 + (2 ^ 64 - k)) = fp + 16 - k) as ->.
  { unfold wrapu. symmetry. apply Z.mod_unique with 1; lia. }
  unfold FIRCLSReadMemory, FIRCLSIsValidPointer. destruct (Z.leb_spec 4096 (fp + 16 - k)); [|lia].
  unfold has_at in Hg. rewrite Hl in Hg. change (Z.to_nat 8) with 8%nat. now rewrite Hg.
Qed.

(** The rules of the standard frame, applied. *)
Lemma standard_assign (regs : C) g fp' lr' :
  let fp := FIRCLSThreadContextGetFramePointer regs in
  4096 <= fp -> 0 <= fp' < 2 ^ 64 -> 0 <= lr' < 2 ^ 64 ->
  has_at g fp (le_bytes 8 fp' ++ le_bytes 8 lr') ->
  assign_loop (dregisters (frame_rules zero_dstate)) 0 regs (fp + 16) regs g =
  Ret (Some (ss_set (ss_set (ss_set regs FP fp') LR lr') PC lr')).
Proof.
  intros fp Hfp Hfp' Hlr' Hg.
  assert (Hfr : 0 <= fp < 2 ^ 36) by apply strip_range.
  apply has_at_app in Hg as [G1 G2]. rewrite length_le_bytes in G2.
  pose proof (frame_slot g fp 16 _ ltac:(lia) ltac:(lia) ltac:(zpow; lia) Hfp
    ltac:(replace (fp + 16 - 16) with fp by lia; exact G1) (length_le_bytes 8 fp')) as S1.
  pose proof (frame_slot g fp 8 _ ltac:(lia) ltac:(lia) ltac:(zpow; lia) Hfp
    ltac:(replace (fp + 16 - 8) with (fp + 8) by lia; exact G2) (length_le_bytes 8 lr')) as S2.
  rewrite word_bytes in S1, S2 by done.
  let l := eval vm_compute in (dregisters (frame_rules zero_dstate)) in
    change (dregisters (frame_rules zero_dstate)) with l.
  cbn [assign_loop location]. unfold FIRCLSDwarfGetSavedRegister. cbn [location value rbind].
  change 18446744073709551600 with (2 ^ 64 - 16). change 18446744073709551608 with (2 ^ 64 - 8).
  rewrite S1, S2. reflexivity.
Qed.

(** The check that the stack and the return address moved. *)
Lemma standard_changed (regs d : C) cfa lr' :
  FIRCLSDwarfUnwindGetRegisterValue d CLS_DWARF_REG_RETURN = CLS_PTRAUTH_STRIP lr' ->
  FIRCLSDwarfCompareRegisters regs (ss_set d SP cfa) CLS_DWARF_REG_SP
    = (FIRCLSThreadContextGetStackPointer regs =? CLS_PTRAUTH_STRIP cfa) /\
  FIRCLSDwarfCompareRegisters regs (ss_set d SP cfa) CLS_DWARF_REG_RETURN
    = (FIRCLSThreadContextGetLinkRegister regs =? CLS_PTRAUTH_STRIP lr').
Proof.
  intros Hd. unfold FIRCLSDwarfCompareRegisters. split.
  - change (FIRCLSDwarfUnwindGetRegisterValue (ss_set d SP cfa) CLS_DWARF_REG_SP)
      with (CLS_PTRAUTH_STRIP (ss_get (ss_set d SP cfa) SP)).
    now rewrite ss_get_set_strip.
  - change (FIRCLSDwarfUnwindGetRegisterValue (ss_set d SP cfa) CLS_DWARF_REG_RETURN)
      with (CLS_PTRAUTH_STRIP (ss_get (ss_set d SP cfa) LR)).
    rewrite ss_get_set_ne by congruence.
    change (CLS_PTRAUTH_STRIP (ss_get d LR)) with (FIRCLSDwarfUnwindGetRegisterValue d CLS_DWARF_REG_RETURN).
    now rewrite Hd.
Qed.

(** C27: for the frame every arm64 compiler sets up (frame pointer and return
    address saved in a pair, the CFA 16 bytes above it) and a pc behind the three
    instructions that set it up, following the frame pointer succeeds; computing
    the registers of the caller from the DWARF rules is refused just when the
    stack pointer or the link register already has the value of the caller, and
    otherwise succeeds and agrees on the PC, the frame pointer and the stack
    pointer.  (The link register has that value in a function that has called
    nothing since its prologue: there only the frame pointer gives the caller.) *)
Theorem standard_frame_equiv record (regs : C) g fp' lr' :
  standard_record record g ->
  12 < s64 (FIRCLSThreadContextGetPC regs - startAddress (cfi_fde record)) ->
  let fp := FIRCLSThreadContextGetFramePointer regs in
  4096 <= fp -> 0 <= fp' < 2 ^ 64 -> 0 <= lr' < 2 ^ 64 ->
  has_at g fp (le_bytes 8 fp' ++ le_bytes 8 lr') ->
  exists c2, FIRCLSUnwindWithFramePointer g regs false = Some c2 /\
    if (FIRCLSThreadContextGetStackPointer regs =? CLS_PTRAUTH_STRIP (fp + 16))
       || (FIRCLSThreadContextGetLinkRegister regs =? CLS_PTRAUTH_STRIP lr')
    then FIRCLSDwarfUnwindComputeRegisters record regs g = Ret None
    else exists c1, FIRCLSDwarfUnwindComputeRegisters record regs g = Ret (Some c1) /\
      FIRCLSThreadContextGetPC c1 = FIRCLSThreadContextGetPC c2 /\
      FIRCLSThreadContextGetFramePointer c1 = FIRCLSThreadContextGetFramePointer c2 /\
      FIRCLSThreadContextGetStackPointer c1 = FIRCLSThreadContextGetStackPointer c2.
Proof.
  intros Hr Hpc fp Hfp Hfp' Hlr' Hg.
  destruct (standard_rules record g _ Hr Hpc) as [E1 E2].
  assert (Hfr : 0 <= fp < 2 ^ 36) by apply strip_range.
  assert (Ecfa : u64 (fp + 16) = fp + 16) by (apply wrapu_small; zpow; lia).
  pose proof (standard_assign regs g fp' lr' Hfp Hfp' Hlr' Hg) as Ea. fold fp in Ea.
  set (d := ss_set (ss_set (ss_set regs FP fp') LR lr') PC lr') in Ea.
  assert (Ec : FIRCLSDwarfUnwindComputeRegisters record regs g =
    Ret (if (FIRCLSThreadContextGetStackPointer regs =? CLS_PTRAUTH_STRIP (fp + 16))
            || (FIRCLSThreadContextGetLinkRegister regs =? CLS_PTRAUTH_STRIP lr')
         then None else Some (ss_set d SP (fp + 16)))).
  { unfold FIRCLSDwarfUnwindComputeRegisters. rewrite E1. cbn [rbind negb]. cbv zeta.
    destruct (Z.ltb_spec (s64 (FIRCLSThreadContextGetPC regs - startAddress (cfi_fde record))) 0); [lia|].
    rewrite E2. cbn [rbind negb]. unfold FIRCLSDwarfGetCFA.
    change (cfaExpression (frame_rules zero_dstate) =? 0) with true. cbn [negb rbind].
    change (FIRCLSDwarfUnwindGetRegisterValue regs (cfaRegister (frame_rules zero_dstate)) +
            cfaRegisterOffset (frame_rules zero_dstate)) with (fp + 16).
    rewrite Ecfa. unfold FIRCLSDwarfUnwindAssignRegisters. rewrite Ea. cbn [rbind].
    change (FIRCLSDwarfUnwindSetRegisterValue d CLS_DWARF_REG_SP (fp + 16))
      with (Some (ss_set d SP (fp + 16))). cbv iota beta.
    destruct (standard_changed regs d (fp + 16) lr') as [-> ->]; [|now destruct (_ =? _)].
    change (CLS_PTRAUTH_STRIP (ss_get d LR) = CLS_PTRAUTH_STRIP lr'). unfold d.
    rewrite ss_get_set_ne by congruence. apply ss_get_set_strip. }
  eexists. split.
  - unfold FIRCLSUnwindWithFramePointer. fold fp. unfold FIRCLSReadMemory, FIRCLSIsValidPointer.
    destruct (Z.leb_spec 4096 fp); [|lia]. unfold has_at in Hg.
    rewrite length_app, !length_le_bytes in Hg. change (Z.to_nat 16) with (8 + 8)%nat. rewrite Hg.
    rewrite drop_app_length', take_app_length' by (now rewrite length_le_bytes).
    rewrite !word_bytes by done.
    unfold FIRCLSUnwindStackPointerFromFramePointer. change (2 * 8) with 16. rewrite Ecfa. reflexivity.
  - rewrite Ec. destruct (_ || _); [done|]. eexists. split; [reflexivity|].
    unfold FIRCLSThreadContextGetPC, FIRCLSThreadContextGetFramePointer,
      FIRCLSThreadContextGetStackPointer, FIRCLSThreadContextSetPC,
      FIRCLSThreadContextSetFramePointer, FIRCLSThreadContextSetStackPointer, d.
    rewrite !ss_get_set_strip, !(ss_get_set_ne _ SP PC), !(ss_get_set_ne _ SP FP),
      !(ss_get_set_ne _ PC FP), !(ss_get_set_ne _ LR FP), !(ss_get_set_ne _ FP PC) by congruence.
    rewrite !ss_get_set_strip. done.
Qed.
End Frame.

(** ** Witnesses *)

(** A frame at 0x5000 that saved fp = 0x6000 and lr = 0x100004000, the standard
    records at 0x2000, and a thread at pc 0x100001040 in it. *)
Definition unwind_mem : mem :=
  list_to_map (zip (seqZ 0x2000 3) entry_cfi ++ zip (seqZ 0x2010 8) frame_cfi ++
               zip (seqZ 0x5000 16) (le_bytes 8 0x6000 ++ le_bytes 8 0x100004000)).
Definition unwind_regs : plain_context := fun r =>
  match r with FP => 0x5000 | SP => 0x4f00 | LR => 0x100002000 | PC => 0x100001040 | X i => i end.
Definition unwind_record : FIRCLSDwarfCFIRecord :=
  mk_cfi (mk_cie 16 1 0 0 0x10 0 0 0 4 (-8) 30 false (mk_instructions 3 0x2000))
    (mk_fde 32 24 0x100001000 0x100 (mk_instructions 8 0x2010)).

Lemma standard_frame_equiv_witness :
  exists c1 c2,
    FIRCLSDwarfUnwindComputeRegisters unwind_record unwind_regs unwind_mem = Ret (Some c1) /\
    FIRCLSUnwindWithFramePointer unwind_mem unwind_regs false = Some c2 /\
    FIRCLSThreadContextGetPC c1 = FIRCLSThreadContextGetPC c2 /\
    FIRCLSThreadContextGetFramePointer c1 = FIRCLSThreadContextGetFramePointer c2 /\
    FIRCLSThreadContextGetStackPointer c1 = FIRCLSThreadContextGetStackPointer c2.
Proof.
  destruct (standard_frame_equiv unwind_record unwind_regs unwind_mem 0x6000 0x100004000) as (c2 & E2 & H).
  - repeat split; vm_compute; reflexivity.
  - vm_compute. reflexivity.
  - vm_compute. discriminate.
  - lia.
  - lia.
  - vm_compute. reflexivity.
  - replace (_ || _) with false in H by (vm_compute; reflexivity). destruct H as (c1 & E1 & H). exists c1, c2.
    split; [exact E1|]. split; [exact E2|exact H].
Defined.

Lemma bytes_ok_list l : forallb (fun '(_, b) => (0 <=? b) && (b <? 256)) l = true ->
  bytes_ok (list_to_map l).
Proof.
  intros Hl x b Hx. apply elem_of_list_to_map_2 in Hx. rewrite forallb_forall in Hl.
  apply list_elem_of_In in Hx. specialize (Hl _ Hx). simpl in Hl. b2p. unfold is_byte. lia.
Qed.

Lemma assign_registers_correct_witness :
  exists c', FIRCLSDwarfUnwindAssignRegisters (frame_rules zero_dstate) unwind_regs 0x5010 unwind_mem
             = Ret (Some c') /\
             FIRCLSThreadContextGetStackPointer c' = CLS_PTRAUTH_STRIP 0x5010.
Proof.
  eexists. split; [vm_compute; reflexivity|].
  eapply (assign_registers_correct (frame_rules zero_dstate) unwind_regs 0x5010 unwind_mem).
  - apply bytes_ok_list. vm_compute. reflexivity.
  - reflexivity.
  - lia.
  - vm_compute. reflexivity.
Defined.

(** A CFA expression, then DW_CFA_def_cfa fp, 16. *)
Lemma def_cfa_after_expression_witness :
  exists st', FIRCLSDwarfParseAndExecute_def_cfa frame_cfi_mem
                (mk_exec 8194 0 (mk_dstate 32 0 0x3000 0 [])) = Ret (true, mk_exec 8196 0 st') /\
    cfaRegister st' = 29 /\ cfaRegisterOffset st' = 16 /\
    FIRCLSDwarfGetCFA st' unwind_regs frame_cfi_mem =
    FIRCLSDwarfGetCFA (mk_dstate 32 0 0x3000 0 []) unwind_regs frame_cfi_mem.
Proof.
  apply (def_cfa_after_expression unwind_regs frame_cfi_mem (mk_dstate 32 0 0x3000 0 []) 8194 0
           [29] [16] 29 16).
  - apply uleb_small. lia.
  - apply uleb_small. lia.
  - lia.
  - vm_compute. reflexivity.
  - discriminate.
Defined.
