(* ===== verification/DwarfRecords.v ===== *)
(** * Crashlytics: reading CIE and FDE records

    The records of __eh_frame as compilers and linkers write them (a CIE with an
    augmentation string of the characters L, P, R and S in any order, or without
    one, and an FDE that refers to it, with pointers in any encoding of fixed
    size), and the proof that FIRCLSDwarfUnwind.c reads back every field. *)
From Stdlib Require Import ZArith Lia Bool List.
From stdpp Require Import base list gmap numbers.
From S2P Require Import Prelude CMem Leb128 CRead DataParsing ThreadState ExprMachine ExprSpec.
From S2P Require Import DwarfUnwind DwarfSpec.

(** ** Records as bytes *)

(** [l] at the address [c] is the pointer [v], in the encoding [e]: absolute or
    relative to [c], of a fixed size, and perhaps the address of a word that
    holds the pointer. *)
Definition pointer_at (g : mem) (c e : Z) (l : list Z) (v : Z) : Prop :=
  exists f, e <> DW_EH_PE_omit /\ fixed_format (Z.land e DW_EH_PE_VALUE_MASK) = Some f /\
    Z.of_nat (length l) = fst f /\ v <> CLS_INVALID_ADDRESS /\
    ((Z.land e DW_EH_PE_RELATIVE_OFFSET_MASK = DW_EH_PE_absptr /\ follow e (s64 (format_val f l)) g = Ret v) \/
     (Z.land e DW_EH_PE_RELATIVE_OFFSET_MASK = DW_EH_PE_pcrel /\ s64 (format_val f l) + c < 2 ^ 63 /\
      follow e (s64 (format_val f l) + c) g = Ret v)).

(** The entries of an augmentation: the encoding of the LSDA pointer, the encoding
    of the pointers of an FDE, the personality function, and the mark of a signal
    frame. *)
Inductive aug :=
| AugL (e : Z)
| AugR (e : Z)
| AugP (e : Z) (l : list Z) (v : Z)
| AugS.

Definition aug_char (a : aug) : Z := match a with AugL _ => 76 | AugR _ => 82 | AugP _ _ _ => 80 | AugS => 83 end.
Definition aug_bytes (a : aug) : list Z :=
  match a with AugL e => [e] | AugR e => [e] | AugP e l _ => e :: l | AugS => [] end.
Definition aug_data (augs : list aug) : list Z := concat (map aug_bytes augs).

(** The pointers among the data at address [c]. *)
Fixpoint augs_ok (g : mem) (c : Z) (augs : list aug) : Prop :=
  match augs with
  | [] => True
  | a :: augs =>
      match a with AugP e l v => pointer_at g (c + 1) e l v | _ => True end /\
      augs_ok g (c + Z.of_nat (length (aug_bytes a))) augs
  end.

(** Everything a CIE says.  [c_caf], [c_daf] and [c_return] are the strings of the
    alignment factors and of the number [c_return_val] of the return address
    register; [c_aug] is the string of the size of the augmentation data and its
    entries, if there is any. *)
Record cie_desc := mk_cie_desc {
  c_version : Z;
  c_caf : list Z;
  c_daf : list Z;
  c_return : list Z;
  c_return_val : Z;
  c_aug : option (list Z * list aug);
  c_instrs : list Z;
}.

Definition c_entries (d : cie_desc) : list aug := match c_aug d with Some (_, augs) => augs | None => [] end.
Definition c_chars (d : cie_desc) : list Z := match c_aug d with Some (_, augs) => 122 :: map aug_char augs | None => [] end.
Definition c_size (d : cie_desc) : list Z := match c_aug d with Some (u, _) => u | None => [] end.

(** The bytes in front of the augmentation data. *)
Definition cie_head (d : cie_desc) : list Z :=
  le_bytes 4 0 ++ [c_version d] ++ (c_chars d ++ [0]) ++ c_caf d ++ c_daf d ++ c_return d ++ c_size d.
Definition cie_body (d : cie_desc) : list Z := cie_head d ++ aug_data (c_entries d) ++ c_instrs d.
Definition cie_record (d : cie_desc) : list Z :=
  le_bytes 4 (Z.of_nat (length (cie_body d))) ++ cie_body d.

(** A CIE at the address [p]. *)
Definition cie_ok (g : mem) (p : Z) (d : cie_desc) : Prop :=
  uleb (c_caf d) (varint_val (c_caf d)) /\ is_varint (c_daf d) /\ sleb_ok (c_daf d) = true /\
  (c_version d = 1 /\ c_return d = [c_return_val d] \/ c_version d = 3 /\ uleb (c_return d) (c_return_val d)) /\
  match c_aug d with
  | Some (u, augs) => uleb u (Z.of_nat (length (aug_data augs))) /\
      augs_ok g (p + 4 + Z.of_nat (length (cie_head d))) augs
  | None => True
  end /\
  Z.of_nat (length (cie_body d)) < 2 ^ 31.

(** An FDE: the distance back to its CIE, the encoded start and size of the code,
    the string of the size of the augmentation data and the data, if there are
    any, instructions. *)
Record fde_desc := mk_fde_desc {
  f_offset : Z;
  f_start : list Z;
  f_start_val : Z;
  f_range : list Z;
  f_range_val : Z;
  f_aug : option (list Z * list Z);
  f_instrs : list Z;
}.

Definition f_aug_bytes (d : fde_desc) : list Z := match f_aug d with Some (u, data) => u ++ data | None => [] end.
Definition fde_body (d : fde_desc) : list Z :=
  le_bytes 4 (f_offset d) ++ f_start d ++ f_range d ++ f_aug_bytes d ++ f_instrs d.
Definition fde_record (d : fde_desc) : list Z :=
  le_bytes 4 (Z.of_nat (length (fde_body d))) ++ fde_body d.

(** What the entries say; the last one of a kind counts. *)
Definition last_entry (f : aug -> option Z) (augs : list aug) (x : Z) : Z :=
  fold_left (fun x a => default x (f a)) augs x.
Definition r_entry (a : aug) : option Z := match a with AugR e => Some e | _ => None end.
Definition l_entry (a : aug) : option Z := match a with AugL e => Some e | _ => None end.
Definition pe_entry (a : aug) : option Z := match a with AugP e _ _ => Some e | _ => None end.
Definition pf_entry (a : aug) : option Z := match a with AugP _ _ v => Some v | _ => None end.
Definition s_entry (a : aug) : bool := match a with AugS => true | _ => false end.

Definition fde_encoding (d : cie_desc) : Z := last_entry r_entry (c_entries d) DW_EH_PE_absptr.

(** An FDE at the address [q] for the CIE [d]: it has augmentation data if the CIE
    has. *)
Definition fde_ok (g : mem) (q : Z) (d : cie_desc) (f : fde_desc) : Prop :=
  0 < f_offset f < 2 ^ 32 /\
  pointer_at g (q + 8) (fde_encoding d) (f_start f) (f_start_val f) /\
  pointer_at g (q + 8 + Z.of_nat (length (f_start f))) (Z.land (fde_encoding d) DW_EH_PE_VALUE_MASK)
    (f_range f) (f_range_val f) /\
  match f_aug f, c_aug d with
  | Some (u, data), Some _ => uleb u (Z.of_nat (length data))
  | None, None => True
  | _, _ => False
  end /\
  Z.of_nat (length (fde_body f)) < 2 ^ 31.

(** What they mean at the addresses [p] and [q]. *)
Definition cie_at (d : cie_desc) (p : Z) : DWARFCIERecord :=
  let len := Z.of_nat (length (cie_body d)) in
  let augs := c_entries d in
  mk_cie len (c_version d) 0 (p + 9) (fde_encoding d) (last_entry l_entry augs DW_EH_PE_absptr)
    (last_entry pe_entry augs 0) (last_entry pf_entry augs 0) (varint_val (c_caf d))
    (sleb_val (c_daf d)) (c_return_val d) (existsb s_entry augs)
    (mk_instructions (Z.of_nat (length (c_instrs d))) (p + 4 + len - Z.of_nat (length (c_instrs d)))).
Definition fde_at (d : fde_desc) (q : Z) : DWARFFDERecord :=
  let len := Z.of_nat (length (fde_body d)) in
  mk_fde len (f_offset d) (f_start_val d) (f_range_val d)
    (mk_instructions (Z.of_nat (length (f_instrs d))) (q + 4 + len - Z.of_nat (length (f_instrs d)))).

(** ** Reading in sequence *)

(** A reader in front of [l1 ++ l2] that takes [l1]. *)
Lemma bind_at {A B} (m : R Z A) (k : A -> R Z B) g c l1 l2 a :
  has_at g c (l1 ++ l2) ->
  (has_at g c l1 -> m g c = Ret (a, c + Z.of_nat (length l1))) ->
  rd_bind m k g c = k a g (c + Z.of_nat (length l1)) /\ has_at g (c + Z.of_nat (length l1)) l2.
Proof.
  intros Hg Hm. apply has_at_app in Hg as [H1 H2]. unfold rd_bind. rewrite (Hm H1). done.
Qed.

Ltac read_next Hg l v :=
  let E := fresh "E" in let H' := fresh "Hg" in
  match goal with
  | |- context [rd_bind ?m ?k ?g ?c] =>
      destruct (bind_at m k g c l _ v Hg) as [E H'];
      [intros ?|rewrite E; clear E; cbv beta; clear Hg; rename H' into Hg]
  end.

Lemma read_bytes n x g c :
  0 <= x < 256 ^ Z.of_nat n -> has_at g c (le_bytes n x) ->
  parse_bytes (Z.of_nat n) g c = Ret (x, c + Z.of_nat (length (le_bytes n x))).
Proof.
  intros Hx Hg. rewrite (parse_bytes_eq (Z.of_nat n) (le_bytes n x)) by
    (rewrite ?length_le_bytes; done).
  rewrite le_val_bytes, Z.mod_small by done. now rewrite length_le_bytes.
Qed.

Lemma read_u32 x g c :
  0 <= x < 2 ^ 32 -> has_at g c (le_bytes 4 x) ->
  FIRCLSParseUint32AndAdvance g c = Ret (x, c + Z.of_nat (length (le_bytes 4 x))).
Proof. intros Hx. now apply (read_bytes 4). Qed.

Lemma read_u8 x g c :
  has_at g c [x] -> FIRCLSParseUint8AndAdvance g c = Ret (x, c + Z.of_nat (length [x])).
Proof.
  intros Hg. unfold FIRCLSParseUint8AndAdvance. rewrite (parse_bytes_eq 1 [x]) by done.
  simpl. do 2 f_equal. lia.
Qed.

Lemma read_length x g c :
  0 <= x < 2 ^ 32 - 1 -> has_at g c (le_bytes 4 x) ->
  FIRCLSParseRecordLengthAndAdvance g c = Ret (x, c + Z.of_nat (length (le_bytes 4 x))).
Proof.
  intros Hx Hg. unfold FIRCLSParseRecordLengthAndAdvance, rd_bind. rewrite (read_u32 x) by (done || lia).
  cbn [rbind]. unfold DWARF_EXTENDED_LENGTH_FLAG.
  destruct (Z.eqb_spec x 0xffffffff); [zpow; lia|done].
Qed.

Lemma read_string l g c :
  Forall (fun b => b <> 0) l -> has_at g c (l ++ [0]) ->
  FIRCLSParseStringAndAdvance g c = Ret (c, c + Z.of_nat (length (l ++ [0]))).
Proof.
  intros Hl Hg. unfold FIRCLSParseStringAndAdvance. rewrite (strlen_string g c l Hg Hl). cbn [rbind].
  do 2 f_equal. rewrite length_app. simpl. lia.
Qed.

Lemma read_pointer e l v g c :
  pointer_at g c e l v -> 0 < c < 2 ^ 63 -> has_at g c l ->
  FIRCLSParseAddressWithEncodingAndAdvance e g c = Ret (v, c + Z.of_nat (length l)).
Proof.
  intros (f & Ho & Hf & Hl & Hv & Hr) Hc Hg.
  pose proof (encoded_address e f l g c Ho Hf) as P. cbv zeta in P. rewrite Hl.
  pose proof (wraps_range 64 (format_val f l) ltac:(lia)) as Hw. change (64 - 1) with 63 in Hw.
  destruct Hr as [[Er Ef]|(Er & Ha & Ef)]; rewrite Er in P; cbn [Z.eqb DW_EH_PE_absptr DW_EH_PE_pcrel] in P.
  - rewrite Z.add_0_r in P. rewrite P; [now rewrite Ef|now left|done|done|done|lia].
  - change (Pos.eqb 16 16) with true in P. cbv iota in P. rewrite P; [now rewrite Ef|now right|done|done|done|done].
Qed.

(** ** The CIE *)

(** The record that the entries make of [r]. *)
Definition with_entries (augs : list aug) (r : DWARFCIERecord) : DWARFCIERecord :=
  mk_cie (cie_length r) (version r) (ehData r) (augmentation r) (last_entry r_entry augs (pointerEncoding r))
    (last_entry l_entry augs (lsdaEncoding r)) (last_entry pe_entry augs (personalityEncoding r))
    (last_entry pf_entry augs (personalityFunction r)) (codeAlignFactor r) (dataAlignFactor r)
    (returnAddressRegister r) (existsb s_entry augs || signalFrame r) (cie_instructions r).

(** One entry. *)
Lemma entry_spec a r g c :
  augs_ok g c [a] -> 0 < c < 2 ^ 62 -> has_at g c (aug_bytes a) ->
  augmentation_entry (aug_char a) r g c = Ret (Some (with_entries [a] r), c + Z.of_nat (length (aug_bytes a))).
Proof.
  intros [Ha _] Hc Hg. destruct r, a; unfold augmentation_entry, with_entries; cbn in Hg |- *.
  - unfold rd_bind. now rewrite (read_u8 _ _ _ Hg).
  - unfold rd_bind. now rewrite (read_u8 _ _ _ Hg).
  - unfold rd_bind. apply (has_at_app g c [e]) in Hg as [H1 H2]. rewrite (read_u8 _ _ _ H1). cbn [rbind].
    change (Z.of_nat (length [e])) with 1 in *. rewrite (read_pointer e l v g (c + 1) Ha) by (done || lia). cbn [rbind].
    destruct Ha as (f & _ & _ & _ & Hv & _). destruct (Z.eqb_spec v CLS_INVALID_ADDRESS); [done|].
    unfold rd_ret. do 2 f_equal. lia.
  - unfold rd_ret. do 2 f_equal. lia.
Qed.

Lemma entries_spec augs r g c i ending :
  augs_ok g c augs -> 0 < c -> c + Z.of_nat (length (aug_data augs)) <= ending -> ending < 2 ^ 62 ->
  has_at g c (aug_data augs) -> has_at g (augmentation r + i) (map aug_char augs) ->
  augmentation_loop (length augs) i ending r g c =
  Ret (Some (with_entries augs r), c + Z.of_nat (length (aug_data augs))).
Proof.
  revert r c i. induction augs as [|a augs IH]; intros r c i Ho Hc He Hm Hg Hs.
  - cbn. unfold rd_ret. rewrite Z.add_0_r. now destruct r.
  - change (aug_data (a :: augs)) with (aug_bytes a ++ aug_data augs) in *. rewrite length_app in *.
    apply has_at_app in Hg as [Hg1 Hg2]. cbn [map] in Hs. apply has_at_cons in Hs as [Hs1 Hs2]. destruct Ho as [Ho1 Ho2].
    cbn [augmentation_loop length]. unfold rd_bind at 1. rewrite (load_byte _ _ _ _ Hs1). cbn [rbind].
    unfold rd_bind at 1. rewrite (entry_spec a r g c) by (done || lia). cbn [rbind].
    unfold rd_bind, rd_get. cbn [rbind]. destruct (Z.ltb_spec ending (c + Z.of_nat (length (aug_bytes a)))); [lia|].
    rewrite (IH _ _ (i + 1)); [|done|lia|lia|done|done|].
    + f_equal. f_equal; [|lia]. f_equal. destruct r, a; unfold with_entries, last_entry; cbn; f_equal.
      all: now rewrite ?orb_true_r, ?orb_false_r.
    + cbn [with_entries augmentation]. now rewrite Z.add_assoc.
Qed.

Lemma chars_nonzero augs : Forall (fun b => b <> 0) (122 :: map aug_char augs).
Proof. constructor; [done|]. apply List.Forall_map, List.Forall_forall. intros a _. now destruct a. Qed.

(** The augmentation of a CIE, from the size of its data on. *)
Lemma augmentation_spec d r g c :
  has_at g (augmentation r) (c_chars d ++ [0]) -> augmentation r <> 0 ->
  has_at g c (c_size d ++ aug_data (c_entries d)) -> 0 < c ->
  match c_aug d with
  | Some (u, augs) => uleb u (Z.of_nat (length (aug_data augs))) /\ augs_ok g (c + Z.of_nat (length u)) augs
  | None => True
  end -> c + Z.of_nat (length (c_size d ++ aug_data (c_entries d))) < 2 ^ 62 ->
  FIRCLSDwarfParseAndProcessAugmentation r g c =
  Ret (Some (with_entries (c_entries d) r), c + Z.of_nat (length (c_size d ++ aug_data (c_entries d)))).
Proof.
  intros Ha Hn Hg Hc Hd Hm. unfold FIRCLSDwarfParseAndProcessAugmentation.
  destruct (Z.eqb_spec (augmentation r) 0); [done|]. unfold c_chars, c_size, c_entries in *.
  destruct (c_aug d) as [[u augs]|].
  - destruct Hd as [Hu Ho]. pose proof Ha as Ha0. cbn [app] in Ha0. apply has_at_cons in Ha0 as [A0 Ha0].
    apply has_at_app in Ha0 as [A1 _].
    unfold rd_bind at 1. rewrite (load_byte _ _ _ _ A0). cbn [rbind].
    change (122 =? 0) with false. change (122 =? 122) with true. cbn [negb]. cbv iota.
    unfold rd_bind at 1. cbv beta. rewrite (strlen_string g (augmentation r) (122 :: map aug_char augs) Ha (chars_nonzero augs)).
    cbn [rbind]. rewrite length_app in *.
    read_next Hg u (Z.of_nat (length (aug_data augs))); [now apply uleb_eq|].
    unfold rd_bind at 1, rd_get. cbn [rbind].
    replace (Z.to_nat (Z.of_nat (length (122 :: map aug_char augs)) - 1)) with (length augs)
      by (cbn [length]; rewrite length_map; lia).
    rewrite entries_spec; [|done|lia|lia|lia|done|done]. do 2 f_equal. lia.
  - apply has_at_cons in Ha as [A0 _]. unfold rd_bind at 1. rewrite (load_byte _ _ _ _ A0). cbn.
    unfold rd_ret. rewrite Z.add_0_r. now destruct r.
Qed.

Lemma read_sleb l g c :
  is_varint l -> sleb_ok l = true -> has_at g c l ->
  FIRCLSParseLEB128AndAdvance g c = Ret (sleb_val l, c + Z.of_nat (length l)).
Proof. intros Hv Ok Hg. rewrite (sleb_parse l g c Hv Hg). now rewrite Ok. Qed.

Lemma leb_short l : leb_ok 0 0 l = true -> (length l <= 5)%nat.
Proof. intros Ok. apply andb_prop in Ok as [Ok _]. now apply Nat.leb_le in Ok. Qed.

(** The record behind the length field. *)
Lemma cie_parse d g p :
  cie_ok g p d -> 0 < p < 2 ^ 61 -> has_at g p (cie_record d) ->
  FIRCLSDwarfParseCIERecord p g = Ret (Some (cie_at d p)).
Proof.
  intros (Hcaf & Hd & Od & Hv & Ha & Hlen) Hp Hg.
  unfold FIRCLSDwarfParseCIERecord. destruct (Z.eqb_spec p 0); [lia|].
  assert (Elen : length (cie_body d) = (length (cie_head d) + (length (aug_data (c_entries d)) + length (c_instrs d)))%nat)
    by (unfold cie_body; now rewrite !length_app).
  assert (Ehead : length (cie_head d) = (4 + (1 + (length (c_chars d ++ [0%Z]) + (length (c_caf d) + (length (c_daf d) + (length (c_return d) + length (c_size d)))))))%nat)
    by (unfold cie_head; rewrite !length_app, length_le_bytes; simpl; lia).
  unfold parse_cie_body, cie_record in *.
  read_next Hg (le_bytes 4 (Z.of_nat (length (cie_body d)))) (Z.of_nat (length (cie_body d)));
    [apply read_length; [zpow; lia|done]|].
  destruct (Z.eqb_spec (Z.of_nat (length (cie_body d))) 0); [lia|].
  unfold rd_bind at 1, rd_get at 1. cbn [rbind]. set (len := Z.of_nat (length (cie_body d))) in *.
  unfold cie_body, cie_head in Hg. rewrite <- !app_assoc in Hg. rewrite length_le_bytes in *.
  read_next Hg (le_bytes 4 0) 0; [apply read_u32; [lia|done]|]. rewrite length_le_bytes in *.
  read_next Hg [c_version d] (c_version d); [now apply read_u8|].
  set (a := p + Z.of_nat 4 + Z.of_nat 4 + Z.of_nat (length [c_version d])) in *.
  rewrite app_assoc in Hg. pose proof Hg as Hchars. apply has_at_app in Hchars as [Hchars _].
  read_next Hg (c_chars d ++ [0]) a.
  { apply read_string; [|done]. unfold c_chars. destruct (c_aug d) as [[u augs]|]; [apply chars_nonzero|constructor]. }
  read_next Hg (c_caf d) (varint_val (c_caf d)); [now apply uleb_eq|].
  read_next Hg (c_daf d) (sleb_val (c_daf d)); [now apply read_sleb|].
  cbv zeta.
  assert (Ea : a = p + 9) by (subst a; simpl length; lia).
  set (c := a + Z.of_nat (length (c_chars d ++ [0])) + Z.of_nat (length (c_caf d)) + Z.of_nat (length (c_daf d))) in *.
  assert (F : forall k : Z -> R Z (option DWARFCIERecord),
    (if c_version d =? 1 then let* r := FIRCLSParseUint8AndAdvance in k r
     else if c_version d =? 3 then let* r := FIRCLSParseULEB128AndAdvance in k r
     else rd_ret None) g c = k (c_return_val d) g (c + Z.of_nat (length (c_return d)))).
  { intros k. apply has_at_app in Hg as [Hg _]. destruct Hv as [[-> E]|[-> Hu]];
      change (3 =? 1) with false; change (3 =? 3) with true; change (1 =? 1) with true; cbv iota;
      unfold rd_bind.
    - rewrite E in *. now rewrite (read_u8 _ _ _ Hg).
    - now rewrite (uleb_eq _ _ g c Hu Hg). }
  rewrite F. clear F. apply has_at_app in Hg as [_ Hg]. rewrite app_assoc in Hg. apply has_at_app in Hg as [Hg _].
  set (c' := c + Z.of_nat (length (c_return d))) in *.
  assert (Ec : c' + Z.of_nat (length (c_size d ++ aug_data (c_entries d))) = p + 4 + len - Z.of_nat (length (c_instrs d))).
  { unfold c', c, len. rewrite Elen, Ehead, !length_app. cbn [length]. lia. }
  assert (Hc' : 0 < c') by (unfold c', c; lia).
  unfold rd_bind at 1.
  rewrite (augmentation_spec d _ g c'); [|exact Hchars|cbn [augmentation]; lia|exact Hg|done| |].
  - cbn [rbind]. unfold rd_bind, rd_get, rd_ret. cbn [rbind]. rewrite Ec.
    unfold cie_at, set_instructions, with_entries. fold len. cbn. rewrite Ea, orb_false_r.
    replace (p + Z.of_nat 4 + len - (p + 4 + len - Z.of_nat (length (c_instrs d)))) with (Z.of_nat (length (c_instrs d))) by lia.
    rewrite wrapu_small by (zpow; lia). reflexivity.
  - destruct (c_aug d) as [[u augs]|] eqn:Eaug; [|done]. destruct Ha as [Hu Ho]. split; [done|].
    replace (c' + Z.of_nat (length u)) with (p + 4 + Z.of_nat (length (cie_head d))); [done|].
    unfold c', c. rewrite Ehead. unfold c_size. rewrite Eaug. lia.
  - rewrite Ec. zpow. lia.
Qed.

(** ** The FDE *)

(** The "z" of the augmentation string. *)
Lemma cie_has_augmentation {S} d g p (s : S) :
  0 < p -> has_at g p (cie_record d) ->
  FIRCLSDwarfCIEHasAugmentationData (cie_at d p) g s = Ret (match c_aug d with Some _ => true | None => false end, s).
Proof.
  intros Hp Hg. unfold FIRCLSDwarfCIEHasAugmentationData. cbn [augmentation cie_at].
  destruct (Z.eqb_spec (p + 9) 0); [lia|]. unfold cie_record, cie_body, cie_head in Hg. rewrite <- !app_assoc in Hg.
  apply has_at_app in Hg as [_ Hg]. rewrite length_le_bytes in Hg.
  apply has_at_app in Hg as [_ Hg]. rewrite length_le_bytes in Hg.
  apply has_at_app in Hg as [_ Hg]. simpl length in Hg. replace (p + Z.of_nat 4 + Z.of_nat 4 + Z.of_nat 1) with (p + 9) in Hg by lia.
  unfold c_chars in Hg. destruct (c_aug d) as [[u augs]|]; cbn [app] in Hg; apply has_at_cons in Hg as [Hg _];
    unfold rd_bind; now rewrite (load_byte _ _ _ _ Hg).
Qed.

Lemma fde_parse d f g p q :
  cie_ok g p d -> fde_ok g q d f -> 0 < p < 2 ^ 61 -> 0 < q < 2 ^ 61 ->
  p = q + 4 - f_offset f -> has_at g p (cie_record d) -> has_at g q (fde_record f) ->
  FIRCLSDwarfParseFDERecord true no_cie q g = Ret (Some (fde_at f q, cie_at d p)).
Proof.
  intros Hd (Ho & Hst & Hra & Hau & Hlen) Hp Hq Hpq Hc Hg.
  assert (Elen : length (fde_body f) = (4 + (length (f_start f) + (length (f_range f) + (length (f_aug_bytes f) + length (f_instrs f)))))%nat)
    by (unfold fde_body; rewrite !length_app, length_le_bytes; lia).
  unfold FIRCLSDwarfParseFDERecord. destruct (Z.eqb_spec q 0); [lia|]. unfold parse_fde_record, fde_record in *.
  read_next Hg (le_bytes 4 (Z.of_nat (length (fde_body f)))) (Z.of_nat (length (fde_body f)));
    [apply read_length; [zpow; lia|done]|].
  set (len := Z.of_nat (length (fde_body f))) in *.
  destruct (Z.eqb_spec len 0); [lia|]. unfold rd_bind at 1, rd_get at 1. cbn [rbind].
  unfold fde_body in Hg. rewrite length_le_bytes in *.
  read_next Hg (le_bytes 4 (f_offset f)) (f_offset f); [apply read_u32; [lia|done]|].
  destruct (Z.eqb_spec (f_offset f) 0); [lia|]. rewrite length_le_bytes in *.
  unfold rd_bind at 1, rd_get at 1. cbn [rbind]. unfold rd_bind at 1. cbv beta.
  replace (q + Z.of_nat 4 + Z.of_nat 4 - f_offset f - 4) with p by lia.
  rewrite (cie_parse d g p Hd Hp Hc). cbn [rbind]. unfold parse_fde_body.
  assert (V : FIRCLSDwarfCIEIsValid (cie_at d p) = true).
  { unfold FIRCLSDwarfCIEIsValid. cbn [cie_length version cie_at].
    assert (0 < Z.of_nat (length (cie_body d))) by (unfold cie_body, cie_head; rewrite !length_app, length_le_bytes; lia).
    destruct (Z.eqb_spec (Z.of_nat (length (cie_body d))) 0); [lia|].
    destruct Hd as (_ & _ & _ & [[-> _]|[-> _]] & _); done. }
  rewrite V. cbn [negb]. change (pointerEncoding (cie_at d p)) with (fde_encoding d).
  replace (q + 8) with (q + Z.of_nat 4 + Z.of_nat 4) in * by lia.
  read_next Hg (f_start f) (f_start_val f); [apply read_pointer; [done|zpow; lia|done]|].
  assert (Hi1 : f_start_val f <> CLS_INVALID_ADDRESS) by (destruct Hst as (? & ? & ? & ? & ? & _); done).
  assert (Hi2 : f_range_val f <> CLS_INVALID_ADDRESS) by (destruct Hra as (? & ? & ? & ? & ? & _); done).
  destruct (Z.eqb_spec (f_start_val f) CLS_INVALID_ADDRESS); [done|].
  read_next Hg (f_range f) (f_range_val f); [apply read_pointer; [done|zpow; lia|done]|].
  destruct (Z.eqb_spec (f_range_val f) CLS_INVALID_ADDRESS); [done|].
  unfold rd_bind at 1. rewrite (cie_has_augmentation d g p _ ltac:(lia) Hc). cbn [rbind].
  set (c := q + Z.of_nat 4 + Z.of_nat 4 + Z.of_nat (length (f_start f)) + Z.of_nat (length (f_range f))) in *.
  assert (Ec : c + Z.of_nat (length (f_aug_bytes f)) = q + 4 + len - Z.of_nat (length (f_instrs f))).
  { unfold c, len. rewrite Elen. lia. }
  assert (F : forall k : unit -> R Z (option (DWARFFDERecord * DWARFCIERecord)),
    rd_bind (if match c_aug d with Some _ => true | None => false end then
               let* n := FIRCLSParseULEB128AndAdvance in let* ptr := rd_get in rd_put (ptr + n)
             else rd_ret tt) k g c = k tt g (q + 4 + len - Z.of_nat (length (f_instrs f)))).
  { intros k. rewrite <- Ec. unfold f_aug_bytes in *. destruct (f_aug f) as [[u data]|], (c_aug d); try done.
    - rewrite <- app_assoc in Hg. apply has_at_app in Hg as [Hg _]. unfold rd_bind. rewrite (uleb_eq u _ g c Hau Hg).
      cbn [rbind]. unfold rd_get, rd_put. cbn [rbind]. f_equal. rewrite length_app. lia.
    - unfold rd_bind, rd_ret. cbn. now rewrite Z.add_0_r. }
  rewrite F. clear F. unfold rd_bind, rd_get, rd_ret. cbn [rbind].
  unfold fde_at. fold len. replace (q + Z.of_nat 4 + len - (q + 4 + len - Z.of_nat (length (f_instrs f)))) with (Z.of_nat (length (f_instrs f))) by lia.
  rewrite wrapu_small; [done|]. zpow. lia.
Qed.

(** C29: CIE and FDE records are read back: from the offset of an FDE in the
    section, every field of it and of the CIE it points back to is recovered, and
    the two instruction streams are exactly the tails of the two records.  The
    CIE may have an augmentation with the entries L, R, P and S in any order, and
    then both records have augmentation data, which is skipped in the FDE; the
    pointers (personality function, start and size of the code) may be absolute
    or relative to their address, of any fixed size, and indirect. *)
Theorem parse_cfi_correct d f g ehFrame fdeOffset :
  ehFrame <> 0 -> fdeOffset <> 0 ->
  let q := ehFrame + fdeOffset in
  let p := q + 4 - f_offset f in
  0 < p < 2 ^ 61 -> 0 < q < 2 ^ 61 ->
  cie_ok g p d -> fde_ok g q d f ->
  has_at g p (cie_record d) -> has_at g q (fde_record f) ->
  FIRCLSDwarfParseCFIFromFDERecordOffset ehFrame fdeOffset g =
  Ret (Some (mk_cfi (cie_at d p) (fde_at f q))).
Proof.
  intros He Ho q p Hp Hq Hd Hf Hc Hg. unfold FIRCLSDwarfParseCFIFromFDERecordOffset.
  destruct (Z.eqb_spec ehFrame 0); [done|]. destruct (Z.eqb_spec fdeOffset 0); [done|].
  cbn [orb]. fold q. unfold FIRCLSDwarfParseCFIFromFDERecord. destruct (Z.eqb_spec q 0); [lia|].
  now rewrite (fde_parse d f g p q).
Qed.

(** A section with the records of a C++ function: augmentation "zPLR", an
    indirect personality pointer of 4 bytes, and an LSDA pointer in the FDE. *)
Definition sample_cie : cie_desc :=
  mk_cie_desc 1 [4] [0x78] [30] 30 (Some ([7], [AugP 0x9B (le_bytes 4 0x100) 0x100004000; AugL 0x10; AugR 0x10])) [0x0C; 31; 0].
Definition sample_fde : fde_desc :=
  mk_fde_desc 32 (le_bytes 8 0x1000) 0x3024 (le_bytes 8 64) 64 (Some ([8], le_bytes 8 0x500))
    [0x43; 0x0C; 29; 16; 0x9E; 1; 0x9D; 2].
Definition sample_eh_frame : mem :=
  list_to_map (zip (seqZ 0x2000 28) (cie_record sample_cie) ++
               zip (seqZ 0x201C 41) (fde_record sample_fde) ++ zip (seqZ 0x2113 8) (le_bytes 8 0x100004000)).

Lemma parse_cfi_correct_witness :
  FIRCLSDwarfParseCFIFromFDERecordOffset 0x2000 0x1C sample_eh_frame =
  Ret (Some (mk_cfi (cie_at sample_cie 0x2000) (fde_at sample_fde 0x201C))).
Proof.
  apply (parse_cfi_correct sample_cie sample_fde sample_eh_frame 0x2000 0x1C).
  - discriminate.
  - discriminate.
  - simpl. lia.
  - simpl. lia.
  - split; [exact (uleb_small 4 ltac:(lia))|]. split; [simpl; lia|]. split; [reflexivity|]. split; [left; split; reflexivity|].
    split; [|vm_compute; reflexivity]. split; [exact (uleb_small 7 ltac:(lia))|]. split; [|repeat split].
    exists (4, true). split; [discriminate|]. split; [reflexivity|]. split; [reflexivity|]. split; [discriminate|].
    right. repeat split; vm_compute; reflexivity.
  - split; [simpl; lia|]. split.
    { exists (8, false). split; [discriminate|]. split; [reflexivity|]. split; [reflexivity|]. split; [discriminate|].
      right. repeat split; vm_compute; reflexivity. }
    split.
    { exists (8, false). split; [discriminate|]. split; [reflexivity|]. split; [reflexivity|]. split; [discriminate|].
      left. repeat split; vm_compute; reflexivity. }
    split; [exact (uleb_small 8 ltac:(lia))|vm_compute; reflexivity].
  - vm_compute. reflexivity.
  - vm_compute. reflexivity.
Defined.
