(* ===== verification/CompactUnwind.v ===== *)
(** * Crashlytics: unwinding with compact unwind information

    FIRCLSCompactUnwind.c and [FIRCLSCompactUnwindComputeRegisters] of
    FIRCLSUnwind_arm.c: the two-level lookup in the __unwind_info section and
    the dispatch on the encoding it finds. The layout of the section is that of
    the SDK's mach-o/compact_unwind_encoding.h, which is not part of the
    repository: its constants, structure offsets and macros are the interface
    [CompactEncoding]. *)
From Stdlib Require Import ZArith Lia Bool List.
From stdpp Require Import base list gmap numbers.
From S2P Require Import Prelude CMem CRead ThreadState DwarfUnwind.

Class CompactEncoding := {
  UNWIND_SECTION_VERSION : Z;
  UNWIND_SECOND_LEVEL_REGULAR : Z;
  UNWIND_SECOND_LEVEL_COMPRESSED : Z;
  UNWIND_ARM64_MODE_MASK : Z;
  UNWIND_ARM64_MODE_FRAMELESS : Z;
  UNWIND_ARM64_MODE_DWARF : Z;
  UNWIND_ARM64_MODE_FRAME : Z;
  UNWIND_ARM64_DWARF_SECTION_OFFSET : Z;
  (* struct unwind_info_section_header: its size and the offsets of members *)
  sizeof_section_header : Z;
  off_version : Z;
  off_commonEncodingsArraySectionOffset : Z;
  off_commonEncodingsArrayCount : Z;
  off_indexSectionOffset : Z;
  off_indexCount : Z;
  (* struct unwind_info_section_header_index_entry *)
  sizeof_index_entry : Z;
  off_functionOffset : Z;
  off_secondLevelPagesSectionOffset : Z;
  (* struct unwind_info_compressed_second_level_page_header, 16-bit members *)
  off_entryPageOffset : Z;
  off_entryCount : Z;
  off_encodingsPageOffset : Z;
  (* macros on compressed entries *)
  UNWIND_INFO_COMPRESSED_ENTRY_FUNC_OFFSET : Z -> Z;
  UNWIND_INFO_COMPRESSED_ENTRY_ENCODING_INDEX : Z -> Z;
}.

(** The members of the section header and of an index entry that the code uses. *)
Record unwind_info_section_header := mk_section_header {
  usversion : Z;
  commonEncodingsArraySectionOffset : Z;
  commonEncodingsArrayCount : Z;
  indexSectionOffset : Z;
  indexCount : Z;
}.

Record unwind_info_section_header_index_entry := mk_index_entry {
  functionOffset : Z;
  secondLevelPagesSectionOffset : Z;
}.

Record FIRCLSCompactUnwindContext := mk_context {
  unwindInfo : Z;
  ehFrame : Z;
  loadAddress : Z;
  unwindHeader : unwind_info_section_header;
  indexHeader : unwind_info_section_header_index_entry;
  firstLevelNextFunctionOffset : Z;
}.

Record FIRCLSCompactUnwindResult := mk_result {
  encoding : Z;
  functionStart : Z;
  functionEnd : Z;
  lsda : Z;
  personality : Z;
}.

(** [*( uintN_t* )a] for plain reads of the section. *)
Definition read_mem (g : mem) (a n : Z) : res Z :=
  rbind (of_option (load_bytes g a (Z.to_nat n))) (fun l => Ret (le_val l)).

(** A 32-bit member of a structure that was copied out of memory. *)
Definition field32 (l : list Z) (off : Z) : Z := le_val (take 4 (drop (Z.to_nat off) l)).

Section Compact.
Context `{CompactEncoding} {C : Type} `{MContext C}.

(** ** Setup. [None] is [return false]. *)

Definition FIRCLSCompactUnwindInit (unwindInfo ehFrame loadAddress : Z) (g : mem)
  : option FIRCLSCompactUnwindContext :=
  if negb (FIRCLSIsValidPointer unwindInfo) then None
  else if negb (FIRCLSIsValidPointer loadAddress) then None
  else
    match FIRCLSReadMemory g unwindInfo sizeof_section_header with
    | None => None
    | Some l =>
        let header := mk_section_header (field32 l off_version)
                        (field32 l off_commonEncodingsArraySectionOffset)
                        (field32 l off_commonEncodingsArrayCount)
                        (field32 l off_indexSectionOffset) (field32 l off_indexCount) in
        if negb (usversion header =? UNWIND_SECTION_VERSION) then None
        else Some (mk_context unwindInfo ehFrame loadAddress header (mk_index_entry 0 0) 0)
    end.

Definition FIRCLSCompactUnwindGetIndexData (context : FIRCLSCompactUnwindContext) : Z :=
  u64 (unwindInfo context + indexSectionOffset (unwindHeader context)).

Definition FIRCLSCompactUnwindGetCommonEncodings (context : FIRCLSCompactUnwindContext) : Z :=
  u64 (unwindInfo context + commonEncodingsArraySectionOffset (unwindHeader context)).

Definition FIRCLSCompactUnwindGetSecondLevelData (context : FIRCLSCompactUnwindContext) : Z :=
  u64 (unwindInfo context + secondLevelPagesSectionOffset (indexHeader context)).

Definition FIRCLSCompactUnwindGetIndexFunctionOffset (context : FIRCLSCompactUnwindContext) : Z :=
  u64 (loadAddress context + functionOffset (indexHeader context)).

Definition FIRCLSCompactUnwindGetTargetAddress (context : FIRCLSCompactUnwindContext) (pc : Z) : Z :=
  let offset := FIRCLSCompactUnwindGetIndexFunctionOffset context in
  if pc <=? offset then 0 else pc - offset.

(** ** First level *)

(** [indexEntries[index]] *)
Definition index_entry (g : mem) (indexEntries index : Z)
  : res unwind_info_section_header_index_entry :=
  let a := indexEntries + index * sizeof_index_entry in
  rbind (read_mem g (a + off_functionOffset) 4) (fun f =>
  rbind (read_mem g (a + off_secondLevelPagesSectionOffset) 4) (fun s =>
  Ret (mk_index_entry f s))).

(** [for (index = ...; index < indexCount - 1; ++index)], [n] entries from the end. *)
Fixpoint first_level_loop (n : nat) (index indexEntries address : Z)
    (context : FIRCLSCompactUnwindContext) (g : mem) : res (option FIRCLSCompactUnwindContext) :=
  match n with
  | O => Ret None
  | S n =>
      rbind (read_mem g (indexEntries + index * sizeof_index_entry + off_functionOffset) 4)
        (fun value =>
      rbind (read_mem g (indexEntries + (index + 1) * sizeof_index_entry + off_functionOffset) 4)
        (fun nextValue =>
      if (value <=? address) && (address <? nextValue) then
        rbind (index_entry g indexEntries index) (fun e =>
        Ret (Some (mk_context (unwindInfo context) (ehFrame context) (loadAddress context)
                     (unwindHeader context) e nextValue)))
      else first_level_loop n (index + 1) indexEntries address context g))
  end.

(** The context with the entry that was found; [None] is [return false]. *)
Definition FIRCLSCompactUnwindLookupFirstLevel (context : FIRCLSCompactUnwindContext) (address : Z)
    (g : mem) : res (option FIRCLSCompactUnwindContext) :=
  let count := indexCount (unwindHeader context) in
  if count <? 2 then Ret None
  else if address <? loadAddress context then Ret None
  else
    let indexEntries := FIRCLSCompactUnwindGetIndexData context in
    if indexEntries =? 0 then Ret None
    else first_level_loop (Z.to_nat (count - 1)) 0 indexEntries (address - loadAddress context)
           context g.

(** ** Second level *)

Definition FIRCLSCompactUnwindGetSecondLevelPageKind (context : FIRCLSCompactUnwindContext) (g : mem)
  : res Z := read_mem g (FIRCLSCompactUnwindGetSecondLevelData context) 4.

(** Not implemented by the code either. *)
Definition FIRCLSCompactUnwindLookupSecondLevelRegular : res (option FIRCLSCompactUnwindResult) :=
  Ret None.

(** The loop of the binary search: the value returned and [*index]. *)
Fixpoint search_loop (fuel : nat) (address index highIndex entryCount entryArray : Z) (g : mem)
  : res (bool * Z) :=
  if index <? highIndex then
    match fuel with
    | O => OutOfFuel
    | S fuel =>
        let midIndex := (index + highIndex) / 2 in
        rbind (read_mem g (entryArray + 4 * midIndex) 4) (fun e =>
        let value := UNWIND_INFO_COMPRESSED_ENTRY_FUNC_OFFSET e in
        if address <? value then
          if highIndex =? midIndex then Ret (false, index)
          else search_loop fuel address index midIndex entryCount entryArray g
        else
          let index := midIndex in
          if midIndex =? entryCount - 1 then Ret (false, index)
          else
            rbind (read_mem g (entryArray + 4 * (midIndex + 1)) 4) (fun e =>
            let nextValue := UNWIND_INFO_COMPRESSED_ENTRY_FUNC_OFFSET e in
            if address <? nextValue then Ret (index <? entryCount, index)
            else search_loop fuel address (index + 1) highIndex entryCount entryArray g))
    end
  else Ret (index <? entryCount, index).

(** The interval shrinks in every iteration: its size is enough fuel. *)
Definition FIRCLSCompactUnwindBinarySearchSecondLevel (address entryCount entryArray : Z) (g : mem)
  : res (bool * Z) :=
  if entryArray =? 0 then Ret (false, 0)
  else if entryCount =? 0 then Ret (false, 0)
  else if address =? 0 then Ret (false, 0)
  else search_loop (Z.to_nat entryCount) address 0 entryCount entryCount entryArray g.

Definition FIRCLSCompactUnwindLookupSecondLevelCompressed (context : FIRCLSCompactUnwindContext)
    (pc : Z) (g : mem) : res (option FIRCLSCompactUnwindResult) :=
  let ptr := FIRCLSCompactUnwindGetSecondLevelData context in
  if ptr =? 0 then Ret None
  else
    let targetAddress := FIRCLSCompactUnwindGetTargetAddress context pc in
    rbind (read_mem g (ptr + off_entryPageOffset) 2) (fun entryPageOffset =>
    let entryArray := ptr + entryPageOffset in
    rbind (read_mem g (ptr + off_entryCount) 2) (fun entryCount =>
    rbind (FIRCLSCompactUnwindBinarySearchSecondLevel targetAddress entryCount entryArray g)
      (fun '(found, index) =>
    if negb found then Ret None
    else
      rbind (read_mem g (entryArray + 4 * index) 4) (fun entry =>
      let functionStart := u64 (UNWIND_INFO_COMPRESSED_ENTRY_FUNC_OFFSET entry
                                + FIRCLSCompactUnwindGetIndexFunctionOffset context) in
      rbind (if index <? entryCount - 1 then
               rbind (read_mem g (entryArray + 4 * (index + 1)) 4) (fun next =>
               Ret (u64 (loadAddress context
                         + u32 (UNWIND_INFO_COMPRESSED_ENTRY_FUNC_OFFSET next
                                + functionOffset (indexHeader context)))))
             else Ret (u64 (loadAddress context + firstLevelNextFunctionOffset context)))
        (fun functionEnd =>
      if (pc <? functionStart) || (functionEnd <=? pc) then Ret None
      else
        let encodingIndex := UNWIND_INFO_COMPRESSED_ENTRY_ENCODING_INDEX entry in
        rbind (if encodingIndex <? commonEncodingsArrayCount (unwindHeader context) then
                 read_mem g (FIRCLSCompactUnwindGetCommonEncodings context + 4 * encodingIndex) 4
               else
                 let encodingIndex := encodingIndex - commonEncodingsArrayCount (unwindHeader context) in
                 rbind (read_mem g (ptr + off_encodingsPageOffset) 2) (fun encodingsPageOffset =>
                 read_mem g (ptr + encodingsPageOffset + 4 * encodingIndex) 4))
          (fun enc =>
        Ret (if enc =? 0 then None else Some (mk_result enc functionStart functionEnd 0 0)))))))).

Definition FIRCLSCompactUnwindLookupSecondLevel (context : FIRCLSCompactUnwindContext) (pc : Z)
    (g : mem) : res (option FIRCLSCompactUnwindResult) :=
  rbind (FIRCLSCompactUnwindGetSecondLevelPageKind context g) (fun kind =>
  if kind =? UNWIND_SECOND_LEVEL_REGULAR then FIRCLSCompactUnwindLookupSecondLevelRegular
  else if kind =? UNWIND_SECOND_LEVEL_COMPRESSED then
    FIRCLSCompactUnwindLookupSecondLevelCompressed context pc g
  else Ret None).

(** The result and the context as the lookup leaves it. *)
Definition FIRCLSCompactUnwindLookup (context : FIRCLSCompactUnwindContext) (pc : Z) (g : mem)
  : res (option (FIRCLSCompactUnwindResult * FIRCLSCompactUnwindContext)) :=
  rbind (FIRCLSCompactUnwindLookupFirstLevel context pc g) (fun r =>
  match r with
  | None => Ret None
  | Some context =>
      rbind (FIRCLSCompactUnwindLookupSecondLevel context pc g) (fun r =>
      Ret (match r with Some result => Some (result, context) | None => None end))
  end).

(** ** Unwinding *)

Definition FIRCLSCompactUnwindDwarfFrame (context : FIRCLSCompactUnwindContext) (dwarfOffset : Z)
    (registers : C) (g : mem) : res (option C) :=
  rbind (FIRCLSDwarfParseCFIFromFDERecordOffset (ehFrame context) dwarfOffset g) (fun r =>
  match r with
  | None => Ret None
  | Some record => FIRCLSDwarfUnwindComputeRegisters record registers g
  end).

Definition FIRCLSCompactUnwindComputeRegisters (context : FIRCLSCompactUnwindContext)
    (result : FIRCLSCompactUnwindResult) (registers : C) (g : mem) : res (option C) :=
  let mode := Z.land (encoding result) UNWIND_ARM64_MODE_MASK in
  if mode =? UNWIND_ARM64_MODE_FRAMELESS then Ret (FIRCLSUnwindWithLRRegister registers)
  else if mode =? UNWIND_ARM64_MODE_DWARF then
    FIRCLSCompactUnwindDwarfFrame context
      (Z.land (encoding result) UNWIND_ARM64_DWARF_SECTION_OFFSET) registers g
  else if mode =? UNWIND_ARM64_MODE_FRAME then
    Ret (FIRCLSUnwindWithFramePointer g registers false)
  else Ret None.

Definition FIRCLSCompactUnwindLookupAndCompute (context : FIRCLSCompactUnwindContext)
    (registers : C) (g : mem) : res (option C) :=
  let pc := FIRCLSThreadContextGetPC registers in
  if pc <? loadAddress context then Ret None
  else
    rbind (FIRCLSCompactUnwindLookup context pc g) (fun r =>
    match r with
    | None => Ret None
    | Some (result, context) => FIRCLSCompactUnwindComputeRegisters context result registers g
    end).
End Compact.

(** ** The layout of the public header *)

#[export] Instance apple_encoding : CompactEncoding := {|
  UNWIND_SECTION_VERSION := 1;
  UNWIND_SECOND_LEVEL_REGULAR := 2;
  UNWIND_SECOND_LEVEL_COMPRESSED := 3;
  UNWIND_ARM64_MODE_MASK := 0x0F000000;
  UNWIND_ARM64_MODE_FRAMELESS := 0x02000000;
  UNWIND_ARM64_MODE_DWARF := 0x03000000;
  UNWIND_ARM64_MODE_FRAME := 0x04000000;
  UNWIND_ARM64_DWARF_SECTION_OFFSET := 0x00FFFFFF;
  sizeof_section_header := 28;
  off_version := 0;
  off_commonEncodingsArraySectionOffset := 4;
  off_commonEncodingsArrayCount := 8;
  off_indexSectionOffset := 20;
  off_indexCount := 24;
  sizeof_index_entry := 12;
  off_functionOffset := 0;
  off_secondLevelPagesSectionOffset := 4;
  off_entryPageOffset := 4;
  off_entryCount := 6;
  off_encodingsPageOffset := 8;
  UNWIND_INFO_COMPRESSED_ENTRY_FUNC_OFFSET := fun e => Z.land e 0x00FFFFFF;
  UNWIND_INFO_COMPRESSED_ENTRY_ENCODING_INDEX := fun e => Z.land (Z.shiftr e 24) 0xFF;
|}.
