(* ===== verification/CompactProps.v ===== *)
(** * Crashlytics: the compact unwind lookup

    Correctness of the two-level search, what a successful lookup guarantees,
    the entry it misses, and termination on any section. *)
From Stdlib Require Import ZArith Lia Bool List.
From stdpp Require Import base list gmap numbers.
From S2P Require Import Prelude CMem CRead ThreadState DwarfUnwind DwarfTotal CompactUnwind.

Lemma read_mem_has g a n l :
  has_at g a l -> n = Z.of_nat (length l) -> read_mem g a n = Ret (le_val l).
Proof. intros Hg ->. unfold read_mem. rewrite Nat2Z.id. unfold has_at in Hg. now rewrite Hg. Qed.

Section Compact.
Context `{CompactEncoding}.

(** ** First level *)

(** The index at [base]: the start and the page of its entry [i]. *)
Definition index_at (g : mem) (base : Z) (es : list unwind_info_section_header_index_entry) : Prop :=
  forall i e, es !! i = Some e ->
    let a := base + Z.of_nat i * sizeof_index_entry in
    read_mem g (a + off_functionOffset) 4 = Ret (functionOffset e) /\
    read_mem g (a + off_secondLevelPagesSectionOffset) 4 = Ret (secondLevelPagesSectionOffset e).

(** Entry [i] of the index is the one that covers [rel]. *)
Definition covers (es : list unwind_info_section_header_index_entry) (i : nat) (rel : Z) : Prop :=
  exists e e', es !! i = Some e /\ es !! S i = Some e' /\
               functionOffset e <= rel < functionOffset e'.

Lemma first_level_loop_spec n i base es rel ctx g :
  index_at g base es -> (i + n + 1 = length es)%nat ->
  match first_level_loop n (Z.of_nat i) base rel ctx g with
  | Ret (Some ctx') =>
      exists j e e', (i <= j)%nat /\ es !! j = Some e /\ es !! S j = Some e' /\
        functionOffset e <= rel < functionOffset e' /\
        ctx' = mk_context (unwindInfo ctx) (ehFrame ctx) (loadAddress ctx) (unwindHeader ctx) e
                 (functionOffset e')
  | Ret None => forall j, (i <= j)%nat -> ~ covers es j rel
  | _ => False
  end.
Proof.
  intros He. revert i; induction n as [|n IH]; intros i Hl; cbn [first_level_loop].
  - intros j Hj (e & e' & E1 & E2 & _). apply lookup_lt_Some in E2. lia.
  - destruct (lookup_lt_is_Some_2 es i) as [e Ee]; [lia|].
    destruct (lookup_lt_is_Some_2 es (S i)) as [e' Ee']; [lia|].
    destruct (He i e Ee) as [F1 S1]. destruct (He (S i) e' Ee') as [F2 _].
    replace (Z.of_nat (S i)) with (Z.of_nat i + 1) in F2 by lia.
    rewrite F1, F2. cbn [rbind].
    destruct (Z.leb_spec (functionOffset e) rel), (Z.ltb_spec rel (functionOffset e')); cbn [andb].
    1:{ unfold index_entry. rewrite F1, S1. cbn [rbind]. exists i, e, e'.
        split; [lia|]. split; [done|]. split; [done|]. split; [lia|]. now destruct e. }
    all: replace (Z.of_nat i + 1) with (Z.of_nat (S i)) by lia;
      specialize (IH (S i) ltac:(lia));
      destruct (first_level_loop n (Z.of_nat (S i)) base rel ctx g) as [[ctx'|]| |]; try done;
      [destruct IH as (j & e1 & e1' & Hj & ?); exists j, e1, e1'; split; [lia|done]|];
      intros j Hj; destruct (decide (j = i)) as [->|]; [|apply IH; lia];
      intros (e1 & e1' & E1 & E1' & ?); rewrite Ee in E1; rewrite Ee' in E1'; simplify_eq; lia.
Qed.

(** the first-level lookup finds the index entry whose range holds the
    address, records it and the start of the next one, and changes nothing else;
    it fails only when no entry but the last, which only ends the range, covers
    the address. *)
Theorem first_level_correct ctx address es g :
  index_at g (FIRCLSCompactUnwindGetIndexData ctx) es ->
  indexCount (unwindHeader ctx) = Z.of_nat (length es) -> (2 <= length es)%nat ->
  FIRCLSCompactUnwindGetIndexData ctx <> 0 -> loadAddress ctx <= address ->
  exists r, FIRCLSCompactUnwindLookupFirstLevel ctx address g = Ret r /\
  match r with
  | Some ctx' =>
      exists i e e', es !! i = Some e /\ es !! S i = Some e' /\
        functionOffset e <= address - loadAddress ctx < functionOffset e' /\
        ctx' = mk_context (unwindInfo ctx) (ehFrame ctx) (loadAddress ctx) (unwindHeader ctx) e
                 (functionOffset e')
  | None => forall i, ~ covers es i (address - loadAddress ctx)
  end.
Proof.
  intros He Hc Hl Hb Ha. unfold FIRCLSCompactUnwindLookupFirstLevel. rewrite Hc.
  destruct (Z.ltb_spec (Z.of_nat (length es)) 2); [lia|].
  destruct (Z.ltb_spec address (loadAddress ctx)); [lia|].
  destruct (Z.eqb_spec (FIRCLSCompactUnwindGetIndexData ctx) 0); [done|].
  pose proof (first_level_loop_spec (Z.to_nat (Z.of_nat (length es) - 1)) 0 _ es
    (address - loadAddress ctx) ctx g He ltac:(lia)) as P. change (Z.of_nat 0) with 0 in P.
  destruct (first_level_loop _ _ _ _ _ _) as [[ctx'|]| |]; try done; eexists; split; try reflexivity.
  - destruct P as (j & e & e' & _ & P). eauto.
  - intros i. apply P. lia.
Qed.

(** ** Second level: the binary search *)

Definition entry_offset (es : list Z) (i : Z) : Z :=
  UNWIND_INFO_COMPRESSED_ENTRY_FUNC_OFFSET (default 0 (es !! Z.to_nat i)).

Definition entries_at (g : mem) (a : Z) (es : list Z) : Prop :=
  forall i e, es !! i = Some e -> read_mem g (a + 4 * Z.of_nat i) 4 = Ret e.

Lemma read_entry g a es i :
  entries_at g a es -> 0 <= i < Z.of_nat (length es) ->
  read_mem g (a + 4 * i) 4 = Ret (default 0 (es !! Z.to_nat i)).
Proof.
  intros He Hi. destruct (lookup_lt_is_Some_2 es (Z.to_nat i)) as [e Ee]; [lia|].
  rewrite Ee. specialize (He _ _ Ee). now rewrite Z2Nat.id in He by lia.
Qed.

(** The offsets do not decrease. *)
Definition ascending (es : list Z) : Prop :=
  forall i j, 0 <= i <= j -> j < Z.of_nat (length es) -> entry_offset es i <= entry_offset es j.

(** Where the search ends: below the first entry (reported as found), at the
    last entry or behind it (reported as not found), or at the entry whose
    offset and the next one's enclose the address. *)
Definition search_result (es : list Z) (address : Z) (r : bool * Z) : Prop :=
  let n := Z.of_nat (length es) in
  (address < entry_offset es 0 /\ r = (true, 0)) \/
  (entry_offset es (n - 1) <= address /\ r = (false, n - 1)) \/
  (exists i, 0 <= i < n - 1 /\ entry_offset es i <= address < entry_offset es (i + 1) /\ r = (true, i)).

Lemma search_loop_spec fuel address index high a es g :
  let n := Z.of_nat (length es) in
  entries_at g a es -> ascending es -> 0 <= index <= high -> high <= n -> 0 < n ->
  high - index <= Z.of_nat fuel ->
  (index = 0 \/ index < high /\ entry_offset es index <= address) ->
  (high = n \/ address < entry_offset es high) ->
  exists r, search_loop fuel address index high n a g = Ret r /\ search_result es address r.
Proof.
  intros n He Hs. revert index high; induction fuel as [|fuel IH]; intros index high Hi Hh Hn Hf L U;
    cbn [search_loop]; destruct (Z.ltb_spec index high) as [Hlt|Hge]; try lia.
  1,3: assert (index = high) as -> by lia; destruct L as [->|]; [|lia];
    destruct U as [|U]; [lia|]; eexists; split; [reflexivity|]; left; split; [done|];
    f_equal; destruct (Z.ltb_spec 0 n); (done || lia).
  set (mid := (index + high) / 2).
  assert (Hm : index <= mid < high).
  { split; [apply Z.div_le_lower_bound; lia|apply Z.div_lt_upper_bound; lia]. }
  clearbody mid.
  rewrite (read_entry g a es mid He) by lia. cbn [rbind]. fold (entry_offset es mid).
  destruct (Z.ltb_spec address (entry_offset es mid)) as [Q|Q].
  - destruct (Z.eqb_spec high mid); [lia|]. apply IH; try lia.
    destruct L as [->|[L1 L2]]; [now left|]. right. split; [|done].
    destruct (decide (index = mid)) as [->|]; [lia|]. lia.
  - destruct (Z.eqb_spec mid (n - 1)) as [->|].
    + eexists. split; [reflexivity|]. right; left. auto.
    + rewrite (read_entry g a es (mid + 1) He) by lia. cbn [rbind]. fold (entry_offset es (mid + 1)).
      destruct (Z.ltb_spec address (entry_offset es (mid + 1))) as [Q2|Q2].
      * eexists. split; [reflexivity|]. right; right. exists mid. split; [lia|]. split; [lia|].
        f_equal. destruct (Z.ltb_spec mid n); (done || lia).
      * apply IH; try lia. right. split; [|done].
        destruct U as [->|U]; [lia|]. destruct (decide (mid + 1 = high)) as [E|]; [|lia].
        rewrite E in Q2. lia.
Qed.

Lemma binary_search_spec address a es g :
  let n := Z.of_nat (length es) in
  entries_at g a es -> ascending es -> 0 < n -> a <> 0 -> address <> 0 ->
  exists r, FIRCLSCompactUnwindBinarySearchSecondLevel address n a g = Ret r /\
            search_result es address r.
Proof.
  intros n He Hs Hn Ha Hz. unfold FIRCLSCompactUnwindBinarySearchSecondLevel.
  destruct (Z.eqb_spec a 0); [done|]. destruct (Z.eqb_spec n 0); [lia|].
  destruct (Z.eqb_spec address 0); [done|].
  apply search_loop_spec; (done || lia || auto).
Qed.


(** the last entry of a page is never found: for an address at or behind its
    offset the lookup in the page fails, although the code that follows the
    search takes the end of the last function from the first level. *)
Theorem last_entry_not_found ctx pc es off g :
  let ptr := FIRCLSCompactUnwindGetSecondLevelData ctx in
  let base := FIRCLSCompactUnwindGetIndexFunctionOffset ctx in
  ptr <> 0 -> ptr + off <> 0 -> base < pc ->
  read_mem g (ptr + off_entryPageOffset) 2 = Ret off ->
  read_mem g (ptr + off_entryCount) 2 = Ret (Z.of_nat (length es)) ->
  entries_at g (ptr + off) es -> ascending es -> 0 < Z.of_nat (length es) ->
  entry_offset es (Z.of_nat (length es) - 1) <= pc - base ->
  FIRCLSCompactUnwindLookupSecondLevelCompressed ctx pc g = Ret None.
Proof.
  intros ptr base Hp Ho Hb R1 R2 He Hs Hn Hl.
  unfold FIRCLSCompactUnwindLookupSecondLevelCompressed. fold ptr.
  destruct (Z.eqb_spec ptr 0); [done|]. rewrite R1. cbn [rbind]. rewrite R2. cbn [rbind].
  unfold FIRCLSCompactUnwindGetTargetAddress. fold base. destruct (Z.leb_spec pc base); [lia|].
  destruct (binary_search_spec (pc - base) (ptr + off) es g He Hs Hn Ho ltac:(lia)) as (r & E & R).
  cbv zeta in E. rewrite E. cbn [rbind].
  destruct R as [[R ->]|[[R ->]|(j & Hj & R & ->)]]; [|done|].
  - pose proof (Hs 0 (Z.of_nat (length es) - 1) ltac:(lia) ltac:(lia)). lia.
  - pose proof (Hs (j + 1) (Z.of_nat (length es) - 1) ltac:(lia) ltac:(lia)). lia.
Qed.

(** ** What a successful lookup guarantees *)

Lemma first_level_context ctx address ctx' g :
  FIRCLSCompactUnwindLookupFirstLevel ctx address g = Ret (Some ctx') ->
  loadAddress ctx <= address /\ unwindInfo ctx' = unwindInfo ctx /\ ehFrame ctx' = ehFrame ctx /\
  loadAddress ctx' = loadAddress ctx /\ unwindHeader ctx' = unwindHeader ctx.
Proof.
  unfold FIRCLSCompactUnwindLookupFirstLevel. destruct (_ <? 2); [discriminate|].
  destruct (Z.ltb_spec address (loadAddress ctx)); [discriminate|]. destruct (_ =? 0); [discriminate|].
  generalize (FIRCLSCompactUnwindGetIndexData ctx) as base. intros base.
  generalize 0 as i. generalize (Z.to_nat (indexCount (unwindHeader ctx) - 1)) as n.
  induction n as [|n IH]; intros i E; cbn [first_level_loop] in E; [discriminate|].
  destruct (read_mem g _ 4) as [v| |]; try discriminate. cbn [rbind] in E.
  destruct (read_mem g _ 4) as [v'| |]; try discriminate. cbn [rbind] in E.
  destruct (_ && _); [|exact (IH _ E)].
  destruct (index_entry g base i) as [e| |]; try discriminate. injection E as <-. auto.
Qed.

(** a lookup that succeeds has found a function around the PC: the PC is
    inside the image, not before the function's start and before its end, and
    the encoding is not the empty one; the context still describes the same
    image. This holds for any contents of the section. *)
Theorem lookup_covers_pc ctx pc g r ctx' :
  FIRCLSCompactUnwindLookup ctx pc g = Ret (Some (r, ctx')) ->
  functionStart r <= pc < functionEnd r /\ encoding r <> 0 /\ loadAddress ctx <= pc /\
  unwindInfo ctx' = unwindInfo ctx /\ ehFrame ctx' = ehFrame ctx /\
  loadAddress ctx' = loadAddress ctx /\ unwindHeader ctx' = unwindHeader ctx.
Proof.
  unfold FIRCLSCompactUnwindLookup. intros E.
  destruct (FIRCLSCompactUnwindLookupFirstLevel ctx pc g) as [[c1|]| |] eqn:E1; try discriminate.
  apply first_level_context in E1 as (Hl & K). cbn [rbind] in E.
  destruct (FIRCLSCompactUnwindLookupSecondLevel c1 pc g) as [[r'|]| |] eqn:E2; try discriminate.
  injection E as <- <-. enough (functionStart r' <= pc < functionEnd r' /\ encoding r' <> 0) by tauto.
  unfold FIRCLSCompactUnwindLookupSecondLevel in E2.
  destruct (FIRCLSCompactUnwindGetSecondLevelPageKind c1 g) as [k| |]; try discriminate.
  cbn [rbind] in E2. destruct (k =? _); [discriminate|]. destruct (k =? _); [|discriminate].
  unfold FIRCLSCompactUnwindLookupSecondLevelCompressed in E2. destruct (_ =? 0); [discriminate|].
  repeat match type of E2 with
  | rbind ?m _ = _ => let x := fresh "x" in let Em := fresh "Em" in
                      destruct m as [x| |] eqn:Em; try discriminate; cbn [rbind] in E2
  | (let '(_, _) := ?p in _) = _ => destruct p
  | (if negb ?b then _ else _) = _ => destruct b; cbn [negb] in E2; try discriminate
  | (if ?b then _ else _) = _ => let Eb := fresh "Eb" in destruct b eqn:Eb; try discriminate
  end.
  injection E2 as E2.
  match type of E2 with (if ?e =? 0 then _ else _) = _ => destruct (Z.eqb_spec e 0); [discriminate|] end. injection E2 as <-.
  cbn [functionStart functionEnd encoding]. b2p. split; [lia|done].
Qed.

(** ** Termination *)

Lemma read_mem_total g a n : read_mem g a n <> OutOfFuel.
Proof. unfold read_mem. now destruct (load_bytes g a (Z.to_nat n)). Qed.

(** Reading memory and going on terminates if going on does. *)
Lemma bind_read_total {A} g a n (k : Z -> res A) :
  (forall x, k x <> OutOfFuel) -> rbind (read_mem g a n) k <> OutOfFuel.
Proof. intros Hk. pose proof (read_mem_total g a n). destruct (read_mem g a n); simpl; auto. Qed.

Lemma search_loop_total fuel address index high n a g :
  0 <= index -> high - index <= Z.of_nat fuel ->
  search_loop fuel address index high n a g <> OutOfFuel.
Proof.
  revert index high; induction fuel as [|fuel IH]; intros index high Hi Hf; cbn [search_loop];
    destruct (Z.ltb_spec index high); try done; try lia.
  assert (Hm : index <= (index + high) / 2 < high).
  { split; [apply Z.div_le_lower_bound; lia|apply Z.div_lt_upper_bound; lia]. }
  apply bind_read_total. intros x. destruct (address <? _).
  - destruct (Z.eqb_spec high ((index + high) / 2)); [done|]. apply IH; lia.
  - destruct (_ =? _); [done|]. apply bind_read_total. intros y.
    destruct (address <? _); [done|]. apply IH; lia.
Qed.

Lemma first_level_total ctx address g : FIRCLSCompactUnwindLookupFirstLevel ctx address g <> OutOfFuel.
Proof.
  unfold FIRCLSCompactUnwindLookupFirstLevel. destruct (_ <? 2); [done|]. destruct (_ <? _); [done|].
  destruct (_ =? 0); [done|]. generalize 0 at 1 as i.
  generalize (Z.to_nat (indexCount (unwindHeader ctx) - 1)) as n.
  induction n as [|n IH]; intros i; cbn [first_level_loop]; [done|].
  apply bind_read_total. intros v. apply bind_read_total. intros v'. destruct (_ && _); [|apply IH].
  unfold index_entry.
  pose proof (read_mem_total g) as T.
  destruct (read_mem g (_ + off_functionOffset) 4) eqn:E1; [|done|now destruct (T _ _ E1)].
  cbn [rbind].
  destruct (read_mem g (_ + off_secondLevelPagesSectionOffset) 4) eqn:E2; [done|done|now destruct (T _ _ E2)].
Qed.

Lemma second_level_total ctx pc g :
  FIRCLSCompactUnwindLookupSecondLevel ctx pc g <> OutOfFuel.
Proof.
  unfold FIRCLSCompactUnwindLookupSecondLevel, FIRCLSCompactUnwindGetSecondLevelPageKind.
  apply bind_read_total. intros k. destruct (k =? _); [done|]. destruct (k =? _); [|done].
  unfold FIRCLSCompactUnwindLookupSecondLevelCompressed. destruct (_ =? 0); [done|].
  apply bind_read_total. intros off. apply bind_read_total. intros n.
  assert (B : FIRCLSCompactUnwindBinarySearchSecondLevel
    (FIRCLSCompactUnwindGetTargetAddress ctx pc) n
    (FIRCLSCompactUnwindGetSecondLevelData ctx + off) g <> OutOfFuel).
  { unfold FIRCLSCompactUnwindBinarySearchSecondLevel. destruct (_ =? 0); [done|].
    destruct (_ =? 0); [done|]. destruct (_ =? 0); [done|]. apply search_loop_total; lia. }
  destruct (FIRCLSCompactUnwindBinarySearchSecondLevel _ _ _ _) as [[found i]| |]; [|done..].
  cbn [rbind]. destruct found; [|done]. cbn [negb]. apply bind_read_total. intros e.
  assert (K : forall (m : res Z) (k : Z -> res (option FIRCLSCompactUnwindResult)),
    m <> OutOfFuel -> (forall x, k x <> OutOfFuel) -> rbind m k <> OutOfFuel)
    by (intros [x| |] k' Hm Hk; simpl; auto).
  apply K; [destruct (_ <? _); [now apply bind_read_total|done]|]. intros fe.
  destruct (_ || _); [done|]. apply K; [|done].
  destruct (_ <? _); [apply read_mem_total|]. apply bind_read_total. intros. apply read_mem_total.
Qed.

(** The fuel of the definitions is enough for every section, every stack and
    every set of registers: unwinding a frame through the compact unwind section
    returns or reaches undefined behaviour ([Fault], for instance the int shifts
    of [FIRCLSParseULEB128AndAdvance] in DWARF data).  What the compiled code does after
    that, endless loops included, is not covered. *)
Theorem compact_unwind_total {C : Type} `{MContext C} ctx (regs : C) g :
  FIRCLSCompactUnwindLookupAndCompute ctx regs g <> OutOfFuel.
Proof.
  unfold FIRCLSCompactUnwindLookupAndCompute, FIRCLSCompactUnwindLookup.
  destruct (_ <? _); [done|].
  pose proof (first_level_total ctx (FIRCLSThreadContextGetPC regs) g).
  destruct (FIRCLSCompactUnwindLookupFirstLevel _ _ _) as [[c1|]| |]; try done. cbn [rbind].
  pose proof (second_level_total c1 (FIRCLSThreadContextGetPC regs) g).
  destruct (FIRCLSCompactUnwindLookupSecondLevel _ _ _) as [[r|]| |]; try done. cbn [rbind].
  unfold FIRCLSCompactUnwindComputeRegisters. destruct (_ =? _); [done|].
  destruct (_ =? _); [|now destruct (_ =? _)]. unfold FIRCLSCompactUnwindDwarfFrame.
  pose proof (cfi_terminates (ehFrame c1) (Z.land (encoding r) UNWIND_ARM64_DWARF_SECTION_OFFSET) g).
  destruct (FIRCLSDwarfParseCFIFromFDERecordOffset _ _ _) as [[rec|]| |]; try done.
  apply compute_terminates.
Qed.
End Compact.

(** ** Witnesses: a section with one page of three functions *)

Definition sample_entries : list Z := [0x000000; 0x000100; 0x000200].
Definition sample_index : list unwind_info_section_header_index_entry :=
  [mk_index_entry 0x1000 56; mk_index_entry 0x2000 0].
Definition sample_section : list Z :=
  concat (map (le_bytes 4) [1; 28; 1; 0; 0; 32; 2; 0x04000000]) ++
  concat (map (le_bytes 4) [0x1000; 56; 0; 0x2000; 0; 0]) ++
  le_bytes 4 3 ++ concat (map (le_bytes 2) [12; 3; 24; 0]) ++
  concat (map (le_bytes 4) sample_entries).
Definition sample_unwind_info : mem := list_to_map (zip (seqZ 0x10000 80) sample_section).
Definition sample_load : Z := 0x100000000.
Definition sample_context : FIRCLSCompactUnwindContext :=
  mk_context 0x10000 0 sample_load (mk_section_header 1 28 1 32 2) (mk_index_entry 0x1000 56) 0x2000.

Lemma first_level_correct_witness :
  exists r, FIRCLSCompactUnwindLookupFirstLevel sample_context (sample_load + 0x1150)
              sample_unwind_info = Ret r /\ r = Some sample_context.
Proof.
  destruct (first_level_correct sample_context (sample_load + 0x1150) sample_index sample_unwind_info)
    as (r & E & _).
  - intros [|[|i]] e He; try discriminate; injection He as <-; split; vm_compute; reflexivity.
  - reflexivity.
  - simpl. lia.
  - vm_compute. discriminate.
  - simpl. lia.
  - exists r. split; [exact E|]. vm_compute in E. injection E as <-. reflexivity.
Defined.

Lemma sample_entries_at : entries_at sample_unwind_info (0x10000 + 56 + 12) sample_entries.
Proof. intros [|[|[|i]]] e He; try discriminate; injection He as <-; vm_compute; reflexivity. Defined.

Lemma sample_ascending : ascending sample_entries.
Proof.
  intros i j Hi Hj. simpl in Hj.
  assert (i = 0 \/ i = 1 \/ i = 2) as [->|[->| ->]] by lia;
  assert (j = 0 \/ j = 1 \/ j = 2) as [->|[->| ->]] by lia; vm_compute; try discriminate; lia.
Defined.


(** A PC in the third function, which runs up to the next first-level entry. *)
Lemma last_entry_not_found_witness :
  sample_load + 0x1250 < sample_load + firstLevelNextFunctionOffset sample_context /\
  FIRCLSCompactUnwindLookupSecondLevelCompressed sample_context (sample_load + 0x1250)
    sample_unwind_info = Ret None.
Proof.
  split; [vm_compute; reflexivity|].
  apply (last_entry_not_found sample_context (sample_load + 0x1250) sample_entries 12 sample_unwind_info).
  - vm_compute. discriminate.
  - vm_compute. discriminate.
  - vm_compute. reflexivity.
  - vm_compute. reflexivity.
  - vm_compute. reflexivity.
  - exact sample_entries_at.
  - exact sample_ascending.
  - reflexivity.
  - vm_compute. discriminate.
Defined.

Lemma lookup_covers_pc_witness :
  exists r ctx', FIRCLSCompactUnwindLookup sample_context (sample_load + 0x1150) sample_unwind_info =
                 Ret (Some (r, ctx')) /\
                 functionStart r <= sample_load + 0x1150 < functionEnd r.
Proof.
  eexists. eexists. split; [vm_compute; reflexivity|].
  eapply (lookup_covers_pc sample_context (sample_load + 0x1150) sample_unwind_info).
  vm_compute. reflexivity.
Defined.
