(* ===== verification/LvCoding.v ===== *)
(** * leveldb: fixed-width and variable-width integers (util/coding.h, util/coding.cc)

    A [std::string] is the list of its bytes.  A [Slice], and a pair of
    pointers [p], [limit] into a buffer the code only reads, is the list of
    the bytes it spans, so that advancing [p] drops bytes from the front.  A
    routine that writes into a buffer returns the bytes it writes. *)
From Stdlib Require Import ZArith Lia Bool List.
From stdpp Require Import base list numbers.
From S2P Require Import Prelude Leb128.

Definition EncodeFixed32 (value : Z) : list Z :=
  [ u8 value; u8 (Z.shiftr value 8); u8 (Z.shiftr value 16); u8 (Z.shiftr value 24) ].

Definition EncodeFixed64 (value : Z) : list Z :=
  [ u8 value; u8 (Z.shiftr value 8); u8 (Z.shiftr value 16); u8 (Z.shiftr value 24);
    u8 (Z.shiftr value 32); u8 (Z.shiftr value 40); u8 (Z.shiftr value 48);
    u8 (Z.shiftr value 56) ].

(** The byte [buffer[i]]; the callers keep [i] below the length, see
    [DecodeFixed32_ok] and [DecodeFixed64_ok]. *)
Definition byte_at (buffer : list Z) (i : nat) : Z := nth i buffer 0.

Definition DecodeFixed32 (buffer : list Z) : Z :=
  Z.lor (Z.lor (Z.lor (byte_at buffer 0)
    (u32 (Z.shiftl (byte_at buffer 1) 8)))
    (u32 (Z.shiftl (byte_at buffer 2) 16)))
    (u32 (Z.shiftl (byte_at buffer 3) 24)).

Definition DecodeFixed64 (buffer : list Z) : Z :=
  Z.lor (Z.lor (Z.lor (Z.lor (Z.lor (Z.lor (Z.lor (byte_at buffer 0)
    (u64 (Z.shiftl (byte_at buffer 1) 8)))
    (u64 (Z.shiftl (byte_at buffer 2) 16)))
    (u64 (Z.shiftl (byte_at buffer 3) 24)))
    (u64 (Z.shiftl (byte_at buffer 4) 32)))
    (u64 (Z.shiftl (byte_at buffer 5) 40)))
    (u64 (Z.shiftl (byte_at buffer 6) 48)))
    (u64 (Z.shiftl (byte_at buffer 7) 56)).

Definition PutFixed32 (dst : list Z) (value : Z) : list Z := dst ++ EncodeFixed32 value.
Definition PutFixed64 (dst : list Z) (value : Z) : list Z := dst ++ EncodeFixed64 value.

Definition EncodeVarint32 (v : Z) : list Z :=
  let B := 128 in
  if v <? Z.shiftl 1 7 then [u8 v]
  else if v <? Z.shiftl 1 14 then [u8 (Z.lor v B); u8 (Z.shiftr v 7)]
  else if v <? Z.shiftl 1 21 then
    [u8 (Z.lor v B); u8 (Z.lor (Z.shiftr v 7) B); u8 (Z.shiftr v 14)]
  else if v <? Z.shiftl 1 28 then
    [u8 (Z.lor v B); u8 (Z.lor (Z.shiftr v 7) B); u8 (Z.lor (Z.shiftr v 14) B);
     u8 (Z.shiftr v 21)]
  else
    [u8 (Z.lor v B); u8 (Z.lor (Z.shiftr v 7) B); u8 (Z.lor (Z.shiftr v 14) B);
     u8 (Z.lor (Z.shiftr v 21) B); u8 (Z.shiftr v 28)].

Definition PutVarint32 (dst : list Z) (v : Z) : list Z := dst ++ EncodeVarint32 v.

(** The loop of [EncodeVarint64]; the buffer of its callers has 10 bytes, and
    so many iterations are enough for a 64-bit value. *)
Fixpoint EncodeVarint64_loop (fuel : nat) (v : Z) : list Z :=
  match fuel with
  | O => []
  | S fuel =>
      if 128 <=? v then u8 (Z.lor v 128) :: EncodeVarint64_loop fuel (Z.shiftr v 7)
      else [u8 v]
  end.

Definition EncodeVarint64 (v : Z) : list Z := EncodeVarint64_loop 10 v.
Definition PutVarint64 (dst : list Z) (v : Z) : list Z := dst ++ EncodeVarint64 v.

Definition PutLengthPrefixedSlice (dst value : list Z) : list Z :=
  PutVarint32 dst (u32 (Z.of_nat (length value))) ++ value.

Fixpoint VarintLength_loop (fuel : nat) (v len : Z) : Z :=
  match fuel with
  | O => len
  | S fuel => if 128 <=? v then VarintLength_loop fuel (Z.shiftr v 7) (len + 1) else len
  end.
Definition VarintLength (v : Z) : Z := VarintLength_loop 10 v 1.

(** The loops of the two varint readers differ in the width of the result and
    in the last shift: 28 and 63.  The result is the value with the bytes
    left, or nothing for the null pointer. *)
Fixpoint GetVarint32Ptr_loop (fuel : nat) (shift result : Z) (p : list Z)
    : option (Z * list Z) :=
  match fuel with
  | O => None
  | S fuel =>
      if negb (shift <=? 28) then None else
      match p with
      | [] => None
      | byte :: p =>
          if negb (Z.land byte 128 =? 0) then
            GetVarint32Ptr_loop fuel (shift + 7)
              (Z.lor result (u32 (Z.shiftl (Z.land byte 127) shift))) p
          else Some (Z.lor result (u32 (Z.shiftl byte shift)), p)
      end
  end.

Definition GetVarint32PtrFallback (p : list Z) : option (Z * list Z) :=
  GetVarint32Ptr_loop 6 0 0 p.

Definition GetVarint32Ptr (p : list Z) : option (Z * list Z) :=
  match p with
  | result :: q =>
      if Z.land result 128 =? 0 then Some (result, q) else GetVarint32PtrFallback p
  | [] => GetVarint32PtrFallback p
  end.

Definition GetVarint32 (input : list Z) : option (Z * list Z) := GetVarint32Ptr input.

Fixpoint GetVarint64Ptr_loop (fuel : nat) (shift result : Z) (p : list Z)
    : option (Z * list Z) :=
  match fuel with
  | O => None
  | S fuel =>
      if negb (shift <=? 63) then None else
      match p with
      | [] => None
      | byte :: p =>
          if negb (Z.land byte 128 =? 0) then
            GetVarint64Ptr_loop fuel (shift + 7)
              (Z.lor result (u64 (Z.shiftl (Z.land byte 127) shift))) p
          else Some (Z.lor result (u64 (Z.shiftl byte shift)), p)
      end
  end.

Definition GetVarint64Ptr (p : list Z) : option (Z * list Z) :=
  GetVarint64Ptr_loop 11 0 0 p.

Definition GetVarint64 (input : list Z) : option (Z * list Z) := GetVarint64Ptr input.

(** The two overloads of [GetLengthPrefixedSlice]: on a pair of pointers and
    on a slice. *)
Definition GetLengthPrefixedSlicePtr (p : list Z) : option (list Z * list Z) :=
  match GetVarint32Ptr p with
  | None => None
  | Some (len, p) =>
      if Z.of_nat (length p) <? len then None
      else Some (take (Z.to_nat len) p, drop (Z.to_nat len) p)
  end.

Definition GetLengthPrefixedSlice (input : list Z) : option (list Z * list Z) :=
  match GetVarint32 input with
  | None => None
  | Some (len, input) =>
      if len <=? Z.of_nat (length input)
      then Some (take (Z.to_nat len) input, drop (Z.to_nat len) input)
      else None
  end.

(** ** Fixed-width integers *)

Lemma shiftr_8 x n : 0 <= n -> Z.shiftr x (8 + n) = Z.shiftr (x / 256) n.
Proof.
  intros. rewrite <- Z.shiftr_shiftr by lia. now rewrite (shiftr_div x 8) by lia.
Qed.

Lemma EncodeFixed32_le value : EncodeFixed32 value = le_bytes 4 value.
Proof.
  unfold EncodeFixed32. cbn [le_bytes]. rewrite !shiftr_div by lia.
  rewrite !Z.div_div by lia. reflexivity.
Qed.

Lemma EncodeFixed64_le value : EncodeFixed64 value = le_bytes 8 value.
Proof.
  unfold EncodeFixed64. cbn [le_bytes]. rewrite !shiftr_div by lia.
  rewrite !Z.div_div by lia. reflexivity.
Qed.

(** One more byte on top of a little-endian value. *)
Lemma lor_byte W r b k :
  0 <= k -> k + 8 <= W -> 0 <= r < 2 ^ k -> is_byte b ->
  Z.lor r (wrapu W (Z.shiftl b k)) = r + b * 2 ^ k /\ 0 <= r + b * 2 ^ k < 2 ^ (k + 8).
Proof.
  unfold is_byte. intros Hk HW Hr Hb.
  assert (Hp : 0 <= r + b * 2 ^ k < 2 ^ (k + 8)).
  { rewrite Z.pow_add_r by lia. change (2 ^ 8) with 256. nia. }
  split; [|done]. rewrite lor_digit by lia. apply wrapu_small.
  pose proof (Z.pow_le_mono_r 2 (k + 8) W ltac:(lia) ltac:(lia)). lia.
Qed.

Ltac or_bytes :=
  repeat match goal with
  | |- context [Z.lor ?r (wrapu ?W (Z.shiftl ?b ?k))] =>
      lazymatch r with
      | context [Z.lor] => fail
      | _ =>
        let E := fresh "E" in let R := fresh "R" in
        destruct (lor_byte W r b k) as [E R];
          [lia|lia|first [eassumption|unfold is_byte in *; lia]|done|];
        rewrite E; simpl (_ + 8)%Z in R; clear E
      end
  end.

Lemma is_bytes_cons b l : is_bytes (b :: l) <-> is_byte b /\ is_bytes l.
Proof. apply List.Forall_cons_iff. Qed.

Lemma DecodeFixed32_le l rest :
  is_bytes l -> length l = 4%nat -> DecodeFixed32 (l ++ rest) = le_val l.
Proof.
  intros Hb Hl. destruct l as [|b0 [|b1 [|b2 [|b3 [|]]]]]; try discriminate Hl.
  rewrite !is_bytes_cons in Hb. destruct Hb as (H0 & H1 & H2 & H3 & _).
  unfold DecodeFixed32, byte_at. cbn [app nth le_val].
  or_bytes. lia.
Qed.

Lemma DecodeFixed64_le l rest :
  is_bytes l -> length l = 8%nat -> DecodeFixed64 (l ++ rest) = le_val l.
Proof.
  intros Hb Hl.
  destruct l as [|b0 [|b1 [|b2 [|b3 [|b4 [|b5 [|b6 [|b7 [|]]]]]]]]]; try discriminate Hl.
  rewrite !is_bytes_cons in Hb.
  destruct Hb as (H0 & H1 & H2 & H3 & H4 & H5 & H6 & H7 & _).
  unfold DecodeFixed64, byte_at. cbn [app nth le_val].
  or_bytes. lia.
Qed.

Lemma Fixed32_roundtrip v rest :
  0 <= v < 2 ^ 32 -> DecodeFixed32 (EncodeFixed32 v ++ rest) = v.
Proof.
  intros H. rewrite EncodeFixed32_le, DecodeFixed32_le by auto with cint.
  rewrite le_val_bytes. now apply Z.mod_small.
Qed.

Lemma Fixed64_roundtrip v rest :
  0 <= v < 2 ^ 64 -> DecodeFixed64 (EncodeFixed64 v ++ rest) = v.
Proof.
  intros H. rewrite EncodeFixed64_le, DecodeFixed64_le by auto with cint.
  rewrite le_val_bytes. now apply Z.mod_small.
Qed.

Lemma length_EncodeFixed32 v : length (EncodeFixed32 v) = 4%nat.
Proof. done. Qed.
Lemma length_EncodeFixed64 v : length (EncodeFixed64 v) = 8%nat.
Proof. done. Qed.
Lemma EncodeFixed32_bytes v : is_bytes (EncodeFixed32 v).
Proof. rewrite EncodeFixed32_le. auto with cint. Qed.
Lemma EncodeFixed64_bytes v : is_bytes (EncodeFixed64 v).
Proof. rewrite EncodeFixed64_le. auto with cint. Qed.
#[export] Hint Resolve EncodeFixed32_bytes EncodeFixed64_bytes : cint.

(** ** Varints: writing *)

(** One digit with its continuation bit, truncated to a byte. *)
Lemma u8_lor_128 v : 0 <= v -> u8 (Z.lor v 128) = v mod 128 + 128.
Proof.
  intros Hv. rewrite (Z.div_mod v 128) at 1 by lia.
  pose proof (Z.mod_pos_bound v 128 ltac:(lia)) as Hm.
  replace (128 * (v / 128) + v mod 128) with (v mod 128 + (v / 128) * 2 ^ 7) by (zpow; lia).
  rewrite <- lor_shiftl_add by (zpow; lia). rewrite <- Z.lor_assoc, (Z.lor_comm _ 128), Z.lor_assoc.
  rewrite lor_128 by lia. unfold wrapu. bitwise i Hi.
  rewrite Z.testbit_mod_pow2 by lia.
  destruct (Z.ltb_spec i 8) as [L|L]; simpl.
  - rewrite Z.lor_spec, Z.shiftl_spec by lia. destruct (Z.eqb_spec i 7) as [->|N].
    + replace (v mod 128 + 128) with (v mod 128 + 1 * 2 ^ 7) by (zpow; lia).
      rewrite Z.testbit_odd, Z.shiftr_div_pow2, Z.div_add, Z.div_small by (zpow; lia).
      reflexivity.
    + rewrite (Z.testbit_neg_r (v / 128)) by lia. apply orb_false_r.
  - symmetry. rewrite <- (Z.mod_small (v mod 128 + 128) (2 ^ 8)) by (zpow; lia).
    apply Z.mod_pow2_bits_high; lia.
Qed.

Lemma EncodeVarint64_loop_digits fuel v :
  0 <= v -> EncodeVarint64_loop fuel v = varint_digits fuel v.
Proof.
  revert v; induction fuel as [|fuel IH]; intros v Hv; [done|].
  cbn [EncodeVarint64_loop varint_digits].
  destruct (Z.leb_spec 128 v), (Z.ltb_spec v 128); try lia.
  - rewrite u8_lor_128, shiftr_div, IH by (try apply Z.div_pos; lia). done.
  - now rewrite wrapu_small by (zpow; lia).
Qed.

Lemma EncodeVarint64_varint v : 0 <= v -> EncodeVarint64 v = varint_bytes v.
Proof. apply EncodeVarint64_loop_digits. Qed.

(** The unrolled writer is the loop: every branch of [EncodeVarint32] is the
    reference encoding. *)
Lemma EncodeVarint32_varint v : 0 <= v < 2 ^ 32 -> EncodeVarint32 v = varint_bytes v.
Proof.
  intros Hv. unfold EncodeVarint32, varint_bytes.
  change (Z.shiftl 1 7) with 128; change (Z.shiftl 1 14) with 16384;
  change (Z.shiftl 1 21) with 2097152; change (Z.shiftl 1 28) with 268435456.
  zpow. cbn [varint_digits].
  rewrite !u8_lor_128 by (try rewrite shiftr_div; try apply Z.div_pos; lia).
  rewrite !shiftr_div, !Z.div_div by lia.
  change (2 ^ 7) with 128; change (2 ^ 14) with 16384;
  change (2 ^ 21) with 2097152; change (2 ^ 28) with 268435456.
  change (128 * 128) with 16384; change (16384 * 128) with 2097152;
  change (2097152 * 128) with 268435456.
  assert (Hd : forall k c, 0 < k -> 0 <= v < k * c -> 0 <= v / k < c).
  { intros k c Hk H. split; [apply Z.div_pos; lia|apply Z.div_lt_upper_bound; lia]. }
  assert (Hg : forall k c, 0 < k -> k * c <= v -> c <= v / k)
    by (intros; now apply Z.div_le_lower_bound).
  destruct (Z.ltb_spec v 128); [now rewrite wrapu_small by (zpow; lia)|].
  destruct (Z.ltb_spec v 16384) as [L|L].
  { specialize (Hd 128 128 ltac:(lia) ltac:(lia)).
    destruct (Z.ltb_spec (v / 128) 128); [|lia]. rewrite wrapu_small by (zpow; lia). done. }
  pose proof (Hg 128 128 ltac:(lia) ltac:(lia)).
  destruct (Z.ltb_spec (v / 128) 128); [lia|].
  destruct (Z.ltb_spec v 2097152) as [L2|L2].
  { specialize (Hd 16384 128 ltac:(lia) ltac:(lia)).
    destruct (Z.ltb_spec (v / 16384) 128); [|lia]. rewrite wrapu_small by (zpow; lia). done. }
  pose proof (Hg 16384 128 ltac:(lia) ltac:(lia)).
  destruct (Z.ltb_spec (v / 16384) 128); [lia|].
  destruct (Z.ltb_spec v 268435456) as [L3|L3].
  { specialize (Hd 2097152 128 ltac:(lia) ltac:(lia)).
    destruct (Z.ltb_spec (v / 2097152) 128); [|lia]. rewrite wrapu_small by (zpow; lia). done. }
  pose proof (Hg 2097152 128 ltac:(lia) ltac:(lia)).
  destruct (Z.ltb_spec (v / 2097152) 128); [lia|].
  specialize (Hd 268435456 16 ltac:(lia) ltac:(lia)).
  destruct (Z.ltb_spec (v / 268435456) 128); [|lia]. rewrite wrapu_small by (zpow; lia). done.
Qed.

Lemma VarintLength_loop_len fuel v len :
  (0 < fuel)%nat -> 0 <= v < 2 ^ (7 * Z.of_nat fuel) ->
  VarintLength_loop fuel v len = len + Z.of_nat (length (varint_digits fuel v)) - 1.
Proof.
  revert v len; induction fuel as [|fuel IH]; intros v len Hf Hv; [lia|].
  rewrite pow_7_S in Hv. cbn [VarintLength_loop varint_digits].
  destruct (Z.leb_spec 128 v), (Z.ltb_spec v 128); try lia.
  - destruct fuel as [|fuel]; [change (2 ^ (7 * Z.of_nat 0)) with 1 in Hv; lia|].
    rewrite shiftr_div, IH by first [lia|split; [apply Z.div_pos; lia|apply Z.div_lt_upper_bound; lia]].
    cbn [length]. zpow. lia.
  - simpl. lia.
Qed.

(** [VarintLength] is the number of bytes the writers produce. *)
Lemma VarintLength_correct v :
  0 <= v < 2 ^ 64 -> VarintLength v = Z.of_nat (length (EncodeVarint64 v)).
Proof.
  intros H. rewrite EncodeVarint64_varint by lia. unfold VarintLength, varint_bytes.
  rewrite VarintLength_loop_len; [lia|lia|].
  change (2 ^ (7 * Z.of_nat 10)) with 1180591620717411303424. zpow. lia.
Qed.

(** ** Varints: reading *)

(** What a reader with at most [n] bytes and [W] bits of result does: the
    value of the first varint string of the input, if it is short enough. *)
Definition reads_varint (W : Z) (n : nat) (p : list Z) (r : option (Z * list Z)) : Prop :=
  (forall v rest, r = Some (v, rest) ->
     exists w, p = w ++ rest /\ is_varint w /\ (length w <= n)%nat /\
               v = wrapu W (varint_val w)) /\
  (r = None -> forall w rest, p = w ++ rest -> is_varint w -> (n < length w)%nat).

(** Both loops, with the width and the last shift as arguments. *)
Fixpoint varint_scan (W m : Z) (fuel : nat) (shift result : Z) (p : list Z)
    : option (Z * list Z) :=
  match fuel with
  | O => None
  | S fuel =>
      if negb (shift <=? m) then None else
      match p with
      | [] => None
      | byte :: p =>
          if negb (Z.land byte 128 =? 0) then
            varint_scan W m fuel (shift + 7)
              (Z.lor result (wrapu W (Z.shiftl (Z.land byte 127) shift))) p
          else Some (Z.lor result (wrapu W (Z.shiftl byte shift)), p)
      end
  end.

Lemma GetVarint32Ptr_loop_gen fuel s r p :
  GetVarint32Ptr_loop fuel s r p = varint_scan 32 28 fuel s r p.
Proof.
  revert s r p; induction fuel as [|fuel IH]; intros; [done|]. simpl.
  bcase; [done|]. destruct p; [done|]. bcase; [apply IH|done].
Qed.

Lemma GetVarint64Ptr_loop_gen fuel s r p :
  GetVarint64Ptr_loop fuel s r p = varint_scan 64 63 fuel s r p.
Proof.
  revert s r p; induction fuel as [|fuel IH]; intros; [done|]. simpl.
  bcase; [done|]. destruct p; [done|]. bcase; [apply IH|done].
Qed.

(** A varint string is a prefix of the input in at most one way. *)
Lemma is_varint_prefix w w' r r' :
  is_varint w -> is_varint w' -> w ++ r = w' ++ r' -> w = w' /\ r = r'.
Proof.
  revert w'; induction w as [|b w IH]; intros w' Hw Hw' E; [done|].
  destruct w' as [|b' w']; [done|].
  injection E as <- E.
  apply is_varint_inv in Hw as (Hb & [[-> Hlt]|(Hne & Hge & Hw)]);
    apply is_varint_inv in Hw' as (_ & [[-> Hlt']|(Hne' & Hge' & Hw')]); try lia.
  - now split.
  - destruct (IH w' Hw Hw' E) as [-> ->]. done.
Qed.

Lemma is_varint_cons b w : 128 <= b < 256 -> is_varint w -> is_varint (b :: w).
Proof. intros Hb Hw. destruct w; [done|]. split; [done|exact Hw]. Qed.

Lemma varint_loop_reads W m n shift result p :
  m < W -> 0 <= shift -> m < shift + 7 * Z.of_nat n -> shift + 7 * Z.of_nat n <= m + 7 ->
  (shift <= m -> 0 <= result < 2 ^ shift) -> is_bytes p ->
  (forall v rest, varint_scan W m (S n) shift result p = Some (v, rest) ->
     exists w, p = w ++ rest /\ is_varint w /\ (length w <= n)%nat /\
               v = wrapu W (result + varint_val w * 2 ^ shift)) /\
  (varint_scan W m (S n) shift result p = None ->
     forall w rest, p = w ++ rest -> is_varint w -> (n < length w)%nat).
Proof.
  intros HmW. revert shift result p; induction n as [|n IH]; intros shift result p Hs H1 H2 Hr Hp.
  { cbn [varint_scan]. destruct (Z.leb_spec shift m); [lia|]. cbn [negb].
    split; [done|]. intros _ w rest _ Hw. destruct w; [done|simpl; lia]. }
  remember (S n) as fuel. cbn [varint_scan]. subst fuel.
  destruct (Z.leb_spec shift m) as [L|L]; [|lia]. cbn [negb].
  specialize (Hr L).
  destruct p as [|b p].
  { split; [done|]. intros _ w rest E Hw. symmetry in E.
    apply app_eq_nil in E as [-> ->]. done. }
  apply is_bytes_cons in Hp as [Hb Hp]. rewrite more_bit by exact Hb.
  unfold is_byte in Hb.
  destruct (Z.leb_spec 128 b) as [G|G].
  - rewrite land_127, lor_digit by lia.
    set (r' := wrapu W (result + b mod 128 * 2 ^ shift)).
    pose proof (Z.mod_pos_bound b 128 ltac:(lia)) as Hd.
    assert (Hr' : shift + 7 <= m ->
                  r' = result + b mod 128 * 2 ^ shift /\ 0 <= r' < 2 ^ (shift + 7)).
    { intros Hm.
      assert (0 <= result + b mod 128 * 2 ^ shift < 2 ^ (shift + 7)).
      { rewrite Z.pow_add_r by lia. change (2 ^ 7) with 128. nia. }
      assert (E : r' = result + b mod 128 * 2 ^ shift); [|rewrite E; now split].
      apply wrapu_small.
      pose proof (Z.pow_le_mono_r 2 (shift + 7) W ltac:(lia) ltac:(lia)). lia. }
    destruct (IH (shift + 7) r' p) as [IH1 IH2]; [lia..| |done|].
    { intros Hm. now apply Hr'. }
    split.
    + intros v rest E. destruct (IH1 v rest E) as (w & -> & Hw & Hl & ->).
      exists (b :: w). split; [done|]. split; [now apply is_varint_cons|].
      split; [simpl; lia|]. cbn [varint_val].
      assert (Hrec : r' mod 2 ^ W = (result + b mod 128 * 2 ^ shift) mod 2 ^ W).
      { unfold r', wrapu. rewrite Z.mod_mod; [done|]. apply Z.pow_nonzero; lia. }
      unfold wrapu. rewrite <- Zplus_mod_idemp_l, Hrec, Zplus_mod_idemp_l.
      f_equal. rewrite Z.pow_add_r by lia. change (2 ^ 7) with 128. lia.
    + intros E w rest Ew Hw. destruct w as [|b' w]; [done|].
      injection Ew as <- Ew. apply is_varint_inv in Hw as (_ & [[-> ?]|(_ & _ & Hw)]); [lia|].
      specialize (IH2 E w rest Ew Hw). simpl; lia.
  - split.
    + intros v rest E. injection E as <- <-. exists [b]. split; [done|].
      split; [simpl; lia|]. split; [simpl; lia|].
      rewrite lor_digit by lia. cbn [varint_val].
      rewrite (Z.mod_small b 128) by lia. f_equal. lia.
    + discriminate.
Qed.

(** The reader of 32-bit varints: the value of the varint string at the front
    of the input, of at most five bytes, and what follows it; nothing if there
    is no such string.  Of a fifth byte the bits that do not fit are lost. *)
Lemma GetVarint32Ptr_reads p : is_bytes p -> reads_varint 32 5 p (GetVarint32Ptr p).
Proof.
  intros Hp.
  assert (E : GetVarint32Ptr p = GetVarint32PtrFallback p).
  { destruct p as [|b p]; [done|]. apply is_bytes_cons in Hp as [Hb _]. unfold GetVarint32Ptr.
    destruct (Z.land b 128 =? 0) eqn:Eb; [|done].
    unfold GetVarint32PtrFallback. cbn [GetVarint32Ptr_loop]. rewrite Eb. simpl.
    rewrite Z.lor_0_l, Z.shiftl_0_r, wrapu_small; [done|]. unfold is_byte in Hb. zpow. lia. }
  rewrite E. unfold GetVarint32PtrFallback. rewrite GetVarint32Ptr_loop_gen.
  destruct (varint_loop_reads 32 28 5 0 0 p) as [H1 H2]; try lia; [done|].
  split; [|exact H2]. intros v rest Ev. destruct (H1 v rest Ev) as (w & ? & ? & ? & ->).
  exists w. repeat split; try done. f_equal. lia.
Qed.

Lemma GetVarint64Ptr_reads p : is_bytes p -> reads_varint 64 10 p (GetVarint64Ptr p).
Proof.
  intros Hp. unfold GetVarint64Ptr. rewrite GetVarint64Ptr_loop_gen.
  destruct (varint_loop_reads 64 63 10 0 0 p) as [H1 H2]; try lia; [done|].
  split; [|exact H2]. intros v rest Ev. destruct (H1 v rest Ev) as (w & ? & ? & ? & ->).
  exists w. repeat split; try done. f_equal. lia.
Qed.

Lemma reads_varint_app W n w rest r :
  reads_varint W n (w ++ rest) r -> is_varint w -> (length w <= n)%nat ->
  r = Some (wrapu W (varint_val w), rest).
Proof.
  intros [H1 H2] Hw Hl. destruct r as [[v q]|].
  - destruct (H1 v q eq_refl) as (w' & E & Hw' & _ & ->).
    destruct (is_varint_prefix w w' rest q Hw Hw' E) as [<- <-]. done.
  - specialize (H2 eq_refl w rest eq_refl Hw). lia.
Qed.

Lemma varint_bytes_len5 v : 0 <= v < 2 ^ 32 -> (length (varint_bytes v) <= 5)%nat.
Proof.
  intros H. rewrite <- EncodeVarint32_varint by done. unfold EncodeVarint32.
  repeat (bcase; [simpl; lia|]). simpl; lia.
Qed.

Lemma EncodeVarint32_bytes v : 0 <= v < 2 ^ 32 -> is_bytes (EncodeVarint32 v).
Proof.
  intros H. rewrite EncodeVarint32_varint by done.
  apply is_varint_bytes, varint_bytes_ok. zpow; lia.
Qed.

Lemma EncodeVarint64_bytes v : 0 <= v < 2 ^ 64 -> is_bytes (EncodeVarint64 v).
Proof.
  intros H. rewrite EncodeVarint64_varint by lia.
  now apply is_varint_bytes, varint_bytes_ok.
Qed.

Lemma is_bytes_app a b : is_bytes (a ++ b) <-> is_bytes a /\ is_bytes b.
Proof. apply List.Forall_app. Qed.

Lemma GetVarint32_Encode v rest :
  0 <= v < 2 ^ 32 -> is_bytes rest -> GetVarint32 (EncodeVarint32 v ++ rest) = Some (v, rest).
Proof.
  intros Hv Hr. pose proof (EncodeVarint32_bytes v Hv) as Hb.
  destruct (varint_bytes_ok v) as (H1 & H2 & _); [zpow; lia|].
  unfold GetVarint32. rewrite EncodeVarint32_varint in * by done.
  rewrite (reads_varint_app 32 5 (varint_bytes v) rest (GetVarint32Ptr (varint_bytes v ++ rest)));
    [now rewrite H2, wrapu_small|..|done|now apply varint_bytes_len5].
  apply GetVarint32Ptr_reads. now apply is_bytes_app.
Qed.

Lemma GetVarint64_Encode v rest :
  0 <= v < 2 ^ 64 -> is_bytes rest -> GetVarint64 (EncodeVarint64 v ++ rest) = Some (v, rest).
Proof.
  intros Hv Hr. pose proof (EncodeVarint64_bytes v Hv) as Hb.
  destruct (varint_bytes_ok v) as (H1 & H2 & H3); [lia|].
  unfold GetVarint64. rewrite EncodeVarint64_varint in * by lia.
  rewrite (reads_varint_app 64 10 (varint_bytes v) rest (GetVarint64Ptr (varint_bytes v ++ rest)));
    [now rewrite H2, wrapu_small|..|done|lia].
  apply GetVarint64Ptr_reads. now apply is_bytes_app.
Qed.

Lemma GetLengthPrefixedSlice_Put s rest :
  is_bytes s -> is_bytes rest -> Z.of_nat (length s) < 2 ^ 32 ->
  GetLengthPrefixedSlice (PutLengthPrefixedSlice [] s ++ rest) = Some (s, rest).
Proof.
  intros Hs Hr Hl. unfold GetLengthPrefixedSlice, PutLengthPrefixedSlice, PutVarint32.
  cbn [app]. rewrite <- app_assoc, wrapu_small by lia.
  rewrite GetVarint32_Encode by (try lia; now apply is_bytes_app).
  rewrite length_app. destruct (Z.leb_spec (Z.of_nat (length s)) (Z.of_nat (length s + length rest)));
    [|lia].
  now rewrite Nat2Z.id, take_app_length, drop_app_length.
Qed.

(** The two overloads agree. *)
Lemma GetLengthPrefixedSlice_Ptr input :
  GetLengthPrefixedSlicePtr input = GetLengthPrefixedSlice input.
Proof.
  unfold GetLengthPrefixedSlicePtr, GetLengthPrefixedSlice, GetVarint32.
  destruct (GetVarint32Ptr input) as [[len p]|]; [|done].
  destruct (Z.ltb_spec (Z.of_nat (length p)) len), (Z.leb_spec len (Z.of_nat (length p)));
    try lia; done.
Qed.

(** C40: On any bytes, the 32- and 64-bit varint readers return the value of
    the first varint string of at most five and ten bytes, truncated to their
    width, and what follows it; they fail only when there is no such string. What the
    writers emit is such a string, so every number is read back exactly, with
    what follows untouched. *)
Theorem varint_coding_correct (p rest : list Z) (v : Z) :
  is_bytes p -> is_bytes rest -> 0 <= v < 2 ^ 64 ->
  reads_varint 32 5 p (GetVarint32Ptr p) /\ reads_varint 64 10 p (GetVarint64Ptr p) /\
  (v < 2 ^ 32 -> GetVarint32 (PutVarint32 [] v ++ rest) = Some (v, rest)) /\
  GetVarint64 (PutVarint64 [] v ++ rest) = Some (v, rest) /\
  VarintLength v = Z.of_nat (length (PutVarint64 [] v)).
Proof.
  intros Hp Hr Hv. unfold PutVarint32, PutVarint64. rewrite !app_nil_l.
  split; [now apply GetVarint32Ptr_reads|]. split; [now apply GetVarint64Ptr_reads|].
  split; [intros; apply GetVarint32_Encode; [lia|done]|].
  split; [now apply GetVarint64_Encode|now apply VarintLength_correct].
Qed.

Lemma varint_coding_correct_witness :
  reads_varint 32 5 [0x80; 0x80; 0x80; 0x80; 0x80; 1] (GetVarint32Ptr [0x80; 0x80; 0x80; 0x80; 0x80; 1]) /\
  reads_varint 64 10 [0x80; 0x80; 0x80; 0x80; 0x80; 1] (GetVarint64Ptr [0x80; 0x80; 0x80; 0x80; 0x80; 1]) /\
  (300 < 2 ^ 32 -> GetVarint32 (PutVarint32 [] 300 ++ [7]) = Some (300, [7])) /\
  GetVarint64 (PutVarint64 [] 300 ++ [7]) = Some (300, [7]) /\
  VarintLength 300 = Z.of_nat (length (PutVarint64 [] 300)).
Proof.
  apply (varint_coding_correct [0x80; 0x80; 0x80; 0x80; 0x80; 1] [7] 300).
  - repeat constructor; lia.
  - repeat constructor; lia.
  - lia.
Defined.
