(* ===== verification/LvEnv.v ===== *)
(** * leveldb: statuses and files (include/leveldb/status.h, util/status.cc, include/leveldb/env.h)

    The status every fallible operation returns, and the file interfaces of
    the environment: type classes with the operations the library calls, the
    documented behaviour of a file that does not fail as laws, and a file held
    in memory as an instance. *)
From Stdlib Require Import ZArith Lia Bool List String.
From stdpp Require Import base list strings numbers.
From S2P Require Import Prelude.

(** ** Status *)

Inductive Code := kOk | kNotFound | kCorruption | kNotSupported | kInvalidArgument | kIOError.

(** The null [state_] is success; otherwise the array holds code and message. *)
Inductive Status := OK | Error (code : Code) (message : string).

#[global] Instance Code_eq_dec : EqDecision Code.
Proof. solve_decision. Defined.
#[global] Instance Status_eq_dec : EqDecision Status.
Proof. solve_decision. Defined.

Definition ok (s : Status) : bool := match s with OK => true | Error _ _ => false end.

Definition code (s : Status) : Code := match s with OK => kOk | Error c _ => c end.

(** The constructor with two parts of the message. *)
Definition mkStatus (c : Code) (msg msg2 : string) : Status :=
  Error c (if (String.length msg2 =? 0)%nat then msg else msg +:+ ": " +:+ msg2).

Definition NotFound (msg : string) : Status := mkStatus kNotFound msg "".
Definition Corruption (msg : string) : Status := mkStatus kCorruption msg "".
Definition NotSupported (msg : string) : Status := mkStatus kNotSupported msg "".
Definition InvalidArgument (msg : string) : Status := mkStatus kInvalidArgument msg "".
Definition IOError (msg : string) : Status := mkStatus kIOError msg "".

Definition IsNotFound (s : Status) : bool := bool_decide (code s = kNotFound).
Definition IsCorruption (s : Status) : bool := bool_decide (code s = kCorruption).

Definition ToString (s : Status) : string :=
  match s with
  | OK => "OK"
  | Error c message =>
      (match c with
       | kOk => "OK"
       | kNotFound => "NotFound: "
       | kCorruption => "Corruption: "
       | kNotSupported => "Not implemented: "
       | kInvalidArgument => "Invalid argument: "
       | kIOError => "IO error: "
       end) +:+ message
  end.

(** ** Files *)

Class WritableFile (F : Type) := {
  Append : F -> list Z -> Status * F;
  Flush : F -> Status * F;
}.

Class SequentialFile (F : Type) := {
  Read : F -> Z -> Status * list Z * F;
  Skip : F -> Z -> Status * F;
}.

(** A file for writing whose operations succeed: [written] is what has been
    appended to it. *)
Class WritableFileLaws (F : Type) {W : WritableFile F} := {
  written : F -> list Z;
  Append_law : forall f d,
    exists f', Append f d = (OK, f') /\ written f' = written f ++ d;
  Flush_law : forall f, exists f', Flush f = (OK, f') /\ written f' = written f;
}.

(** A file for reading whose operations succeed: [unread] is what is left of
    it.  A read returns fewer bytes than asked for only at the end of the
    file. *)
Class SequentialFileLaws (F : Type) {S : SequentialFile F} := {
  unread : F -> list Z;
  Read_law : forall f n, 0 <= n ->
    exists f', Read f n = (OK, take (Z.to_nat n) (unread f), f') /\
               unread f' = drop (Z.to_nat n) (unread f);
  Skip_law : forall f n, 0 <= n ->
    exists f', Skip f n = (OK, f') /\ unread f' = drop (Z.to_nat n) (unread f);
}.

(** A file for reading whose operations may fail, and that delivers at most
    [bytes_ahead] more bytes. *)
Class FiniteFile (F : Type) {S : SequentialFile F} := {
  bytes_ahead : F -> nat;
  Read_ahead : forall f n, let '(s, data, f') := Read f n in
    ok s = true -> (length data + bytes_ahead f' <= bytes_ahead f)%nat;
  Skip_ahead : forall f n, (bytes_ahead (snd (Skip f n)) <= bytes_ahead f)%nat;
}.

(** A file in memory. *)
Record mem_file := MemFile { mem_contents : list Z }.

#[global] Instance mem_writable : WritableFile mem_file := {
  Append f d := (OK, MemFile (mem_contents f ++ d));
  Flush f := (OK, f);
}.
#[global, program] Instance mem_writable_laws : WritableFileLaws mem_file := {
  written := mem_contents;
}.
Next Obligation. intros. eexists. split; reflexivity. Qed.
Next Obligation. intros. eexists. split; reflexivity. Qed.

#[global] Instance mem_sequential : SequentialFile mem_file := {
  Read f n := (OK, take (Z.to_nat n) (mem_contents f), MemFile (drop (Z.to_nat n) (mem_contents f)));
  Skip f n := (OK, MemFile (drop (Z.to_nat n) (mem_contents f)));
}.
#[global, program] Instance mem_sequential_laws : SequentialFileLaws mem_file := {
  unread := mem_contents;
}.
Next Obligation. intros. eexists. split; reflexivity. Qed.
Next Obligation. intros. eexists. split; reflexivity. Qed.
