(* ===== verification/LvLog.v ===== *)
(** * leveldb: the write-ahead log (db/log_format.h, db/log_writer.cc, db/log_reader.cc)

    The writer cuts records into fragments that fit blocks of 32 KiB and
    precedes each with a checksum, a length and a type; the reader reads whole
    blocks, checks the fragments and joins them.  Both are state passing over
    a file of the environment's interface. *)
From Stdlib Require Import ZArith Lia Bool List String.
From stdpp Require Import base list strings numbers pretty.
From S2P Require Import Prelude LvCoding LvCrc32c LvEnv.

(** ** Format *)

Inductive RecordType := kZeroType | kFullType | kFirstType | kMiddleType | kLastType.

Definition type_code (t : RecordType) : Z :=
  match t with
  | kZeroType => 0 | kFullType => 1 | kFirstType => 2 | kMiddleType => 3 | kLastType => 4
  end.

Definition kMaxRecordType : Z := 4.
Definition kBlockSize : Z := 32768.
Definition kHeaderSize : Z := 4 + 2 + 1.

(** The checksum of a buffer does not depend on its address ([Extend_ok]), so
    the callers run [Extend] at address 0. *)
Definition crc_extend (crc : Z) (data : list Z) : Z := default 0 (Extend 0 crc data).

(** ** Writer *)

Module Writer.

Record WriterState (F : Type) := Mk { dest_ : F; block_offset_ : Z }.
Arguments Mk {F}. Arguments dest_ {F}. Arguments block_offset_ {F}.

Section Writer.
Context {F : Type} {WF : WritableFile F}.

(** The two constructors; [type_crc_] is computed where it is used. *)
Definition make_Writer (dest : F) : WriterState F := Mk dest 0.
Definition make_Writer_at (dest : F) (dest_length : Z) : WriterState F := Mk dest (dest_length mod kBlockSize).

Definition type_crc_ (ty : RecordType) : Z := crc_extend 0 [type_code ty].

Definition EmitPhysicalRecord (w : WriterState F) (ty : RecordType) (ptr : list Z) : Status * WriterState F :=
  let length := Z.of_nat (length ptr) in
  let crc := Mask (crc_extend (type_crc_ ty) ptr) in
  let buf := EncodeFixed32 crc ++
             [u8 (Z.land length 0xff); u8 (Z.shiftr length 8); u8 (type_code ty)] in
  let '(s, dest) := Append (dest_ w) buf in
  let '(s, dest) :=
    if ok s then
      let '(s, dest) := Append dest ptr in
      if ok s then Flush dest else (s, dest)
    else (s, dest) in
  (s, Mk dest (block_offset_ w + kHeaderSize + length)).

(** The start of an iteration of [AddRecord]: no header fits, so the rest of
    the block is filled and a new block begun. *)
Definition SwitchBlock (w : WriterState F) : WriterState F :=
  let leftover := kBlockSize - block_offset_ w in
  if leftover <? kHeaderSize then
    let dest :=
      if 0 <? leftover
      then snd (Append (dest_ w) (take (Z.to_nat leftover) [0; 0; 0; 0; 0; 0]))
      else dest_ w in
    Mk dest 0
  else w.

Definition fragment_type (begin end_ : bool) : RecordType :=
  if begin && end_ then kFullType
  else if begin then kFirstType
  else if end_ then kLastType
  else kMiddleType.

(** The do-while loop of [AddRecord].  [left] is the length of [ptr]. *)
Fixpoint AddRecord_loop (fuel : nat) (w : WriterState F) (ptr : list Z) (begin : bool)
    : option (Status * WriterState F) :=
  match fuel with
  | O => None
  | S fuel =>
      let left := Z.of_nat (length ptr) in
      let w := SwitchBlock w in
      let avail := kBlockSize - block_offset_ w - kHeaderSize in
      let fragment_length := if left <? avail then left else avail in
      let end_ := left =? fragment_length in
      let ty := fragment_type begin end_ in
      let '(s, w) := EmitPhysicalRecord w ty (take (Z.to_nat fragment_length) ptr) in
      let ptr := drop (Z.to_nat fragment_length) ptr in
      let left := left - fragment_length in
      if ok s && (0 <? left) then AddRecord_loop fuel w ptr false
      else Some (s, w)
  end.

(** Every iteration but the first takes a byte or more. *)
Definition AddRecord (w : WriterState F) (slice : list Z) : option (Status * WriterState F) :=
  AddRecord_loop (length slice + 2) w slice true.

End Writer.
End Writer.

(** ** Reader *)

Module Reader.

Record ReaderState (F : Type) := Mk {
  file_ : F;
  reporter_ : bool;                   (* whether there is a reporter *)
  checksum_ : bool;
  buffer_ : list Z;
  eof_ : bool;
  last_record_offset_ : Z;
  end_of_buffer_offset_ : Z;
  initial_offset_ : Z;
  resyncing_ : bool;
  reports : list (Z * Status);        (* the calls of Reporter::Corruption *)
}.
Arguments Mk {F}. Arguments file_ {F}. Arguments reporter_ {F}. Arguments checksum_ {F}.
Arguments buffer_ {F}. Arguments eof_ {F}. Arguments last_record_offset_ {F}.
Arguments end_of_buffer_offset_ {F}. Arguments initial_offset_ {F}.
Arguments resyncing_ {F}. Arguments reports {F}.

(** The special values that [ReadPhysicalRecord] returns in place of a record
    type of the file.  All are an [unsigned int]: a type byte 5 or 6 in the file
    cannot be told from them. *)
Definition kEof : Z := kMaxRecordType + 1.
Definition kBadRecord : Z := kMaxRecordType + 2.

Section Reader.
Context {F : Type} {SF : SequentialFile F}.

Definition make_Reader (file : F) (reporter checksum : bool) (initial_offset : Z) : ReaderState F :=
  Mk file reporter checksum [] false 0 0 initial_offset (0 <? initial_offset) [].

Definition set_buffer (b : list Z) (r : ReaderState F) : ReaderState F :=
  Mk (file_ r) (reporter_ r) (checksum_ r) b (eof_ r) (last_record_offset_ r)
     (end_of_buffer_offset_ r) (initial_offset_ r) (resyncing_ r) (reports r).
Definition set_eof (r : ReaderState F) : ReaderState F :=
  Mk (file_ r) (reporter_ r) (checksum_ r) (buffer_ r) true (last_record_offset_ r)
     (end_of_buffer_offset_ r) (initial_offset_ r) (resyncing_ r) (reports r).
Definition set_last_record_offset (o : Z) (r : ReaderState F) : ReaderState F :=
  Mk (file_ r) (reporter_ r) (checksum_ r) (buffer_ r) (eof_ r) o
     (end_of_buffer_offset_ r) (initial_offset_ r) (resyncing_ r) (reports r).
Definition set_file (f : F) (eob : Z) (r : ReaderState F) : ReaderState F :=
  Mk f (reporter_ r) (checksum_ r) (buffer_ r) (eof_ r) (last_record_offset_ r)
     eob (initial_offset_ r) (resyncing_ r) (reports r).
Definition set_resyncing (b : bool) (r : ReaderState F) : ReaderState F :=
  Mk (file_ r) (reporter_ r) (checksum_ r) (buffer_ r) (eof_ r) (last_record_offset_ r)
     (end_of_buffer_offset_ r) (initial_offset_ r) b (reports r).
Definition add_report (x : Z * Status) (r : ReaderState F) : ReaderState F :=
  Mk (file_ r) (reporter_ r) (checksum_ r) (buffer_ r) (eof_ r) (last_record_offset_ r)
     (end_of_buffer_offset_ r) (initial_offset_ r) (resyncing_ r) (reports r ++ [x]).

(** [buffer_.size()] *)
Definition buffer_size (r : ReaderState F) : Z := Z.of_nat (length (buffer_ r)).

Definition ReportDrop (bytes : Z) (reason : Status) (r : ReaderState F) : ReaderState F :=
  if reporter_ r &&
     (initial_offset_ r <=? u64 (end_of_buffer_offset_ r - buffer_size r - bytes))
  then add_report (bytes, reason) r else r.

Definition ReportCorruption (bytes : Z) (reason : string) (r : ReaderState F) : ReaderState F :=
  ReportDrop bytes (Corruption reason) r.

Definition SkipToInitialBlock (r : ReaderState F) : bool * ReaderState F :=
  let offset_in_block := initial_offset_ r mod kBlockSize in
  let block_start_location := initial_offset_ r - offset_in_block in
  let block_start_location :=
    if kBlockSize - 6 <? offset_in_block then u64 (block_start_location + kBlockSize)
    else block_start_location in
  let r := set_file (file_ r) block_start_location r in
  if 0 <? block_start_location then
    let '(skip_status, f) := Skip (file_ r) block_start_location in
    let r := set_file f (end_of_buffer_offset_ r) r in
    if ok skip_status then (true, r)
    else (false, ReportDrop block_start_location skip_status r)
  else (true, r).

(** The part of [ReadPhysicalRecord] after the buffer is known to hold a
    header.  [result] is the caller's fragment, which some paths leave alone. *)
Definition ParsePhysicalRecord (r : ReaderState F) (result : list Z) : Z * list Z * ReaderState F :=
  let header := buffer_ r in
  let a := Z.land (byte_at header 4) 0xff in
  let b := Z.land (byte_at header 5) 0xff in
  let type := u32 (s8 (byte_at header 6)) in
  let length := Z.lor a (u32 (Z.shiftl b 8)) in
  if buffer_size r <? kHeaderSize + length then
    let drop_size := buffer_size r in
    let r := set_buffer [] r in
    if negb (eof_ r) then
      (kBadRecord, result, ReportCorruption drop_size "bad record length" r)
    else (kEof, result, r)
  else if (type =? type_code kZeroType) && (length =? 0) then
    (kBadRecord, result, set_buffer [] r)
  else if checksum_ r &&
    negb (crc_extend 0 (take (Z.to_nat (1 + length)) (drop 6 header))
          =? Unmask (DecodeFixed32 header)) then
    let drop_size := buffer_size r in
    let r := set_buffer [] r in
    (kBadRecord, result, ReportCorruption drop_size "checksum mismatch" r)
  else
    let r := set_buffer (drop (Z.to_nat (kHeaderSize + length)) header) r in
    if u64 (end_of_buffer_offset_ r - buffer_size r - kHeaderSize - length) <? initial_offset_ r
    then (kBadRecord, [], r)
    else (type, take (Z.to_nat length) (drop (Z.to_nat kHeaderSize) header), r).

(** The loop of [ReadPhysicalRecord]: it reads at most one block, so that two
    iterations are enough. *)
Fixpoint ReadPhysicalRecord_loop (fuel : nat) (r : ReaderState F) (result : list Z)
    : option (Z * list Z * ReaderState F) :=
  match fuel with
  | O => None
  | S fuel =>
      if buffer_size r <? kHeaderSize then
        if negb (eof_ r) then
          let '(status, data, f) := Read (file_ r) kBlockSize in
          let r := set_buffer data r in
          let r := set_file f (u64 (end_of_buffer_offset_ r + buffer_size r)) r in
          if negb (ok status) then
            let r := set_buffer [] r in
            let r := ReportDrop kBlockSize status r in
            Some (kEof, result, set_eof r)
          else
            let r := if buffer_size r <? kBlockSize then set_eof r else r in
            ReadPhysicalRecord_loop fuel r result
        else Some (kEof, result, set_buffer [] r)
      else Some (ParsePhysicalRecord r result)
  end.

Definition ReadPhysicalRecord (r : ReaderState F) (result : list Z) : option (Z * list Z * ReaderState F) :=
  ReadPhysicalRecord_loop 2 r result.

(** What one round of the loop of [ReadRecord] leaves: a result, or the state
    of the local variables [scratch], [in_fragmented_record],
    [prospective_record_offset] for the next round. *)
Inductive round :=
  | Done (found : bool) (record : list Z) (r : ReaderState F)
  | Next (scratch : list Z) (in_fragmented_record : bool) (prospective : Z) (r : ReaderState F).

(** The [switch] on the record type. *)
Definition ReadRecord_switch (record_type : Z) (fragment : list Z)
    (physical_record_offset : Z) (scratch : list Z) (in_fragmented_record : bool)
    (prospective : Z) (r : ReaderState F) : round :=
  let size (l : list Z) := Z.of_nat (length l) in
  if record_type =? type_code kFullType then
    let r := if in_fragmented_record && (0 <? size scratch)
             then ReportCorruption (size scratch) "partial record without end(1)" r else r in
    Done true fragment (set_last_record_offset physical_record_offset r)
  else if record_type =? type_code kFirstType then
    let r := if in_fragmented_record && (0 <? size scratch)
             then ReportCorruption (size scratch) "partial record without end(2)" r else r in
    Next fragment true physical_record_offset r
  else if record_type =? type_code kMiddleType then
    if negb in_fragmented_record then
      Next scratch in_fragmented_record prospective
        (ReportCorruption (size fragment) "missing start of fragmented record(1)" r)
    else Next (scratch ++ fragment) in_fragmented_record prospective r
  else if record_type =? type_code kLastType then
    if negb in_fragmented_record then
      Next scratch in_fragmented_record prospective
        (ReportCorruption (size fragment) "missing start of fragmented record(2)" r)
    else Done true (scratch ++ fragment) (set_last_record_offset prospective r)
  else if record_type =? kEof then Done false [] r
  else if record_type =? kBadRecord then
    if in_fragmented_record then
      Next [] false prospective
        (ReportCorruption (size scratch) "error in middle of record" r)
    else Next scratch in_fragmented_record prospective r
  else
    let r := ReportCorruption
               (size fragment + (if in_fragmented_record then size scratch else 0))
               ("unknown record type " +:+ pretty (Z.to_N record_type)) r in
    Next [] false prospective r.

(** The resynchronisation before the [switch]: whether the round ends there. *)
Definition Resync (record_type : Z) (r : ReaderState F) : bool * ReaderState F :=
  if resyncing_ r then
    if record_type =? type_code kMiddleType then (true, r)
    else if record_type =? type_code kLastType then (true, set_resyncing false r)
    else (false, set_resyncing false r)
  else (false, r).

Fixpoint ReadRecord_loop (fuel : nat) (fragment scratch : list Z) (in_fragmented_record : bool)
    (prospective : Z) (r : ReaderState F) : option (bool * list Z * ReaderState F) :=
  match fuel with
  | O => None
  | S fuel =>
      match ReadPhysicalRecord r fragment with
      | None => None
      | Some (record_type, fragment, r) =>
          let physical_record_offset :=
            u64 (end_of_buffer_offset_ r - buffer_size r - kHeaderSize
                 - Z.of_nat (length fragment)) in
          let '(skip, r) := Resync record_type r in
          if skip then
            ReadRecord_loop fuel fragment scratch in_fragmented_record prospective r
          else
            match ReadRecord_switch record_type fragment physical_record_offset scratch
                    in_fragmented_record prospective r with
            | Done found record r => Some (found, record, r)
            | Next scratch in_fragmented_record prospective r =>
                ReadRecord_loop fuel fragment scratch in_fragmented_record prospective r
            end
      end
  end.

(** The first argument bounds the number of physical records looked at. *)
Definition ReadRecord (fuel : nat) (r : ReaderState F) : option (bool * list Z * ReaderState F) :=
  let '(skipped, r) :=
    if last_record_offset_ r <? initial_offset_ r then SkipToInitialBlock r else (true, r) in
  if negb skipped then Some (false, [], r)
  else ReadRecord_loop fuel [] [] false 0 r.

Definition LastRecordOffset (r : ReaderState F) : Z := last_record_offset_ r.

End Reader.
End Reader.
