(* ===== verification/LvLogProps.v ===== *)
(** * leveldb: what the log keeps (theorems about LvLog)

    What the writer puts into a file, as fragments placed in blocks; and that
    the reader, on any prefix of that file, returns exactly the records that
    are complete in it. *)
From Stdlib Require Import ZArith Lia Bool List String.
From stdpp Require Import base list strings numbers.
From S2P Require Import Prelude LvCoding LvCrc32c LvEnv LvLog.

(** ** Placement of fragments *)

(** A physical record with the padding before it. *)
Record item := Item { pad : Z; ity : RecordType; payload : list Z }.

Notation len l := (Z.of_nat (length l)).

(** Where the next physical record starts when [off] bytes of the block are
    used, and the padding before it. *)
Definition start_of (off : Z) : Z := if kBlockSize - off <? kHeaderSize then 0 else off.
Definition pad_of (off : Z) : Z :=
  if kBlockSize - off <? kHeaderSize then kBlockSize - off else 0.

Definition enc_fragment (ty : RecordType) (p : list Z) : list Z :=
  EncodeFixed32 (Mask (crc32c_ref 0 (type_code ty :: p))) ++
  [u8 (Z.land (len p) 0xff); u8 (Z.shiftr (len p) 8); type_code ty] ++ p.

Definition enc_item (i : item) : list Z :=
  replicate (Z.to_nat (pad i)) 0 ++ enc_fragment (ity i) (payload i).

Definition enc_items (l : list item) : list Z := concat (map enc_item l).

(** The fragments of a record, or of its rest when [begin] is false, written
    from offset [off] of a block on; [off'] is the offset behind them. *)
Inductive fragments : Z -> bool -> list Z -> list item -> Z -> Prop :=
  | fragments_last off (begin : bool) data :
      start_of off + kHeaderSize + len data <= kBlockSize ->
      fragments off begin data
        [Item (pad_of off) (if begin then kFullType else kLastType) data]
        (start_of off + kHeaderSize + len data)
  | fragments_more off (begin : bool) a b items off' :
      start_of off + kHeaderSize + len a = kBlockSize -> b <> [] ->
      fragments kBlockSize false b items off' ->
      fragments off begin (a ++ b)
        (Item (pad_of off) (if begin then kFirstType else kMiddleType) a :: items) off'.

Lemma start_of_range off : 0 <= off <= kBlockSize -> 0 <= start_of off <= kBlockSize - kHeaderSize.
Proof. unfold start_of, kBlockSize, kHeaderSize. intros. bcase; lia. Qed.

Lemma pad_start off :
  0 <= off <= kBlockSize -> 0 <= pad_of off < kHeaderSize /\
  (pad_of off = 0 /\ start_of off = off \/ pad_of off = kBlockSize - off /\ start_of off = 0).
Proof. unfold start_of, pad_of, kBlockSize, kHeaderSize. intros. bcase; lia. Qed.

Lemma fragments_off off begin data items off' :
  fragments off begin data items off' -> 0 <= off <= kBlockSize -> 0 <= off' <= kBlockSize.
Proof.
  induction 1; intros Ho.
  - pose proof (start_of_range off Ho). unfold kHeaderSize in *. lia.
  - apply IHfragments. unfold kBlockSize. lia.
Qed.

(** ** Checksums *)

Lemma crc_extend_ok crc data :
  0 <= crc < 2 ^ 32 -> is_bytes data -> len data < 2 ^ 63 ->
  crc_extend crc data = crc32c_ref crc data.
Proof. intros. unfold crc_extend. rewrite Extend_ok; try done; zpow; lia. Qed.

Lemma type_byte ty : is_byte (type_code ty).
Proof. destruct ty; unfold is_byte; simpl; lia. Qed.

Lemma writer_crc ty p :
  is_bytes p -> len p < 2 ^ 63 ->
  crc_extend (Writer.type_crc_ ty) p = crc32c_ref 0 (type_code ty :: p).
Proof.
  intros Hp Hl. unfold Writer.type_crc_.
  assert (Ht : is_bytes [type_code ty]) by (apply Forall_singleton, type_byte).
  rewrite (crc_extend_ok 0 [type_code ty]) by (try done; simpl; zpow; lia).
  rewrite crc_extend_ok by first [done|apply crc32c_ref_range; [zpow; lia|done]].
  symmetry. apply (crc32c_ref_app 0 [type_code ty] p).
Qed.

(** ** The writer *)

Section WriterSpec.
Context {F : Type} {WF : WritableFile F} {WL : WritableFileLaws F}.
Import Writer.

Lemma Append_ok f d : exists f', Append f d = (OK, f') /\ written f' = written f ++ d.
Proof. apply Append_law. Qed.

Lemma EmitPhysicalRecord_ok (w : WriterState F) ty p :
  is_bytes p -> len p < 2 ^ 16 ->
  exists w', EmitPhysicalRecord w ty p = (OK, w') /\
    written (dest_ w') = written (dest_ w) ++ enc_fragment ty p /\
    block_offset_ w' = block_offset_ w + kHeaderSize + len p.
Proof.
  intros Hp Hl. unfold EmitPhysicalRecord.
  rewrite writer_crc by (try done; zpow; lia).
  rewrite (wrapu_small 8 (type_code ty)) by (pose proof (type_byte ty) as Hb; exact Hb).
  set (buf := EncodeFixed32 _ ++ _).
  destruct (Append_ok (dest_ w) buf) as (f1 & -> & E1). simpl.
  destruct (Append_ok f1 p) as (f2 & -> & E2). simpl.
  destruct (Flush_law f2) as (f3 & -> & E3).
  eexists. split; [reflexivity|]. simpl. split; [|done].
  rewrite E3, E2, E1. unfold buf, enc_fragment. rewrite <- !app_assoc. done.
Qed.

Lemma SwitchBlock_ok (w : WriterState F) :
  0 <= block_offset_ w <= kBlockSize ->
  written (dest_ (SwitchBlock w)) =
    written (dest_ w) ++ replicate (Z.to_nat (pad_of (block_offset_ w))) 0 /\
  block_offset_ (SwitchBlock w) = start_of (block_offset_ w).
Proof.
  intros Hw. unfold SwitchBlock, pad_of, start_of.
  destruct (Z.ltb_spec (kBlockSize - block_offset_ w) kHeaderSize) as [L|L].
  - split; [|done]. simpl. destruct (Z.ltb_spec 0 (kBlockSize - block_offset_ w)) as [P|P].
    + destruct (Append_ok (dest_ w) (take (Z.to_nat (kBlockSize - block_offset_ w)) [0; 0; 0; 0; 0; 0]))
        as (f1 & E1 & E2). rewrite E1. cbn [snd]. rewrite E2. f_equal.
      unfold kHeaderSize in L.
      assert (Hn : (Z.to_nat (kBlockSize - block_offset_ w) <= 6)%nat) by lia.
      change [0; 0; 0; 0; 0; 0] with (replicate 6 0).
      rewrite take_replicate, Nat.min_l by lia. done.
    + replace (Z.to_nat (kBlockSize - block_offset_ w)) with 0%nat by lia.
      simpl. now rewrite app_nil_r.
  - simpl. now rewrite app_nil_r.
Qed.

Lemma fragment_type_begin begin :
  fragment_type begin true = (if begin then kFullType else kLastType) /\
  fragment_type begin false = (if begin then kFirstType else kMiddleType).
Proof. now destruct begin. Qed.

(** One iteration of the loop: the fragment that [fragments] prescribes.  The
    fuel is enough when a byte of progress is left for every iteration but the
    first two. *)
Lemma AddRecord_loop_ok fuel (w : WriterState F) data begin :
  is_bytes data -> 0 <= block_offset_ w <= kBlockSize ->
  (length data + (if (block_offset_ w =? kBlockSize)%Z then 1 else 2) <= fuel)%nat ->
  exists w' items, AddRecord_loop fuel w data begin = Some (OK, w') /\
    fragments (block_offset_ w) begin data items (block_offset_ w') /\
    written (dest_ w') = written (dest_ w) ++ enc_items items.
Proof.
  revert w data begin; induction fuel as [|fuel IH]; intros w data begin Hb Hw Hf.
  { destruct (_ =? _); lia. }
  cbn [AddRecord_loop].
  destruct (SwitchBlock_ok w Hw) as [ES EO].
  pose proof (start_of_range _ Hw) as Hs.
  set (w1 := SwitchBlock w) in *. rewrite EO.
  set (off := block_offset_ w) in *.
  set (avail := kBlockSize - start_of off - kHeaderSize) in *.
  destruct (Z.ltb_spec (len data) avail) as [L|L];
    [|destruct (Z.eqb_spec (len data) avail) as [E|NE]].
  - rewrite Z.eqb_refl, (proj1 (fragment_type_begin begin)), Z.sub_diag, Nat2Z.id.
    rewrite firstn_all.
    destruct (EmitPhysicalRecord_ok w1 (if begin then kFullType else kLastType) data Hb)
      as (w2 & -> & EW & EB).
    { unfold avail, kBlockSize, kHeaderSize in *. lia. }
    cbn [ok andb Z.ltb]. rewrite Z.ltb_irrefl.
    eexists _, _. split; [reflexivity|]. rewrite EB, EO. split.
    + apply fragments_last. unfold avail in L. lia.
    + rewrite EW, ES. unfold enc_items. cbn [map concat].
      unfold enc_item. simpl. now rewrite app_nil_r, <- app_assoc.
  - rewrite <- E, (proj1 (fragment_type_begin begin)), Z.sub_diag, Nat2Z.id.
    rewrite firstn_all.
    destruct (EmitPhysicalRecord_ok w1 (if begin then kFullType else kLastType) data Hb)
      as (w2 & -> & EW & EB).
    { unfold avail, kBlockSize, kHeaderSize in *. lia. }
    cbn [ok andb]. rewrite Z.ltb_irrefl.
    eexists _, _. split; [reflexivity|]. rewrite EB, EO. split.
    + apply fragments_last. unfold avail in E. lia.
    + rewrite EW, ES. unfold enc_items. cbn [map concat].
      unfold enc_item. simpl. now rewrite app_nil_r, <- app_assoc.
  - rewrite (proj2 (fragment_type_begin begin)).
    set (k := Z.to_nat avail).
    assert (Hk : avail = len (take k data)) by (rewrite length_take; lia).
    destruct (EmitPhysicalRecord_ok w1 (if begin then kFirstType else kMiddleType) (take k data))
      as (w2 & -> & EW & EB).
    { now apply Forall_take. }
    { rewrite <- Hk. unfold avail, kBlockSize, kHeaderSize in *. lia. }
    cbn [ok andb]. destruct (Z.ltb_spec 0 (len data - avail)) as [P|P]; [|lia].
    assert (EB' : block_offset_ w2 = kBlockSize) by (rewrite EB, EO, <- Hk; unfold avail; lia).
    destruct (IH w2 (drop k data) false) as (w' & items & -> & HF & HW).
    { now apply Forall_drop. }
    { rewrite EB'. unfold kBlockSize. lia. }
    { rewrite EB', Z.eqb_refl, length_drop. destruct (Z.eqb_spec off kBlockSize) as [Eo|No]; [|lia].
      assert (avail = kBlockSize - kHeaderSize)
        by (unfold avail; rewrite Eo; reflexivity). unfold kBlockSize, kHeaderSize in *. lia. }
    exists w', (Item (pad_of off) (if begin then kFirstType else kMiddleType) (take k data) :: items).
    split; [reflexivity|]. rewrite EB' in HF. split.
    + rewrite <- (take_drop k data) at 1. apply fragments_more; [|intros E|exact HF].
      * rewrite <- Hk. unfold avail. lia.
      * apply (f_equal length) in E. rewrite length_drop in E. simpl in E. lia.
    + rewrite HW, EW, ES. unfold enc_items. cbn [map concat].
      unfold enc_item at 2. simpl. now rewrite <- !app_assoc.
Qed.

(** [AddRecord] succeeds on a file that does: it appends the fragments of the
    record, and leaves the offset behind them. *)
Lemma AddRecord_ok (w : WriterState F) data :
  is_bytes data -> 0 <= block_offset_ w <= kBlockSize ->
  exists w' items, AddRecord w data = Some (OK, w') /\
    fragments (block_offset_ w) true data items (block_offset_ w') /\
    written (dest_ w') = written (dest_ w) ++ enc_items items.
Proof.
  intros Hb Hw. apply AddRecord_loop_ok; [done|done|]. destruct (_ =? _); lia.
Qed.

End WriterSpec.

(** ** The reader on one physical record *)

Lemma len_bytes n :
  0 <= n < 2 ^ 16 ->
  Z.lor (Z.land (u8 (Z.land n 0xff)) 0xff) (u32 (Z.shiftl (Z.land (u8 (Z.shiftr n 8)) 0xff) 8)) = n.
Proof.
  intros Hn. zpow. rewrite !land_255, shiftr_div by lia.
  pose proof (Z.mod_pos_bound n 256 ltac:(lia)) as Hm.
  assert (Hd : 0 <= n / 256 < 256)
    by (split; [apply Z.div_pos; lia|apply Z.div_lt_upper_bound; lia]).
  rewrite (wrapu_small 8 (n mod 256)), (wrapu_small 8 (n / 2 ^ 8)) by (zpow; lia).
  zpow. rewrite !Z.mod_mod, (Z.mod_small (n / 256)) by lia.
  destruct (lor_byte 32 (n mod 256) (n / 256) 8) as [-> _]; [lia|lia|zpow; lia|done|].
  zpow. pose proof (Z.div_mod n 256). lia.
Qed.

Lemma type_roundtrip ty : u32 (s8 (type_code ty)) = type_code ty.
Proof. now destruct ty. Qed.

Lemma length_enc_fragment ty p : len (enc_fragment ty p) = kHeaderSize + len p.
Proof. unfold enc_fragment. rewrite !length_app. unfold kHeaderSize. simpl. lia. Qed.

(** The seven bytes of the header, whatever follows. *)
Lemma enc_fragment_cons ty p :
  enc_fragment ty p =
    EncodeFixed32 (Mask (crc32c_ref 0 (type_code ty :: p))) ++
    u8 (Z.land (len p) 0xff) :: u8 (Z.shiftr (len p) 8) :: type_code ty :: p.
Proof. reflexivity. Qed.

Section ReaderSpec.
Context {F : Type} {SF : SequentialFile F} {SL : SequentialFileLaws F}.
Import Reader.

(** The fields of the header. *)
Lemma header_fields ty p q (buf := enc_fragment ty p ++ q) :
  is_bytes p -> len p < 2 ^ 16 ->
  Z.lor (Z.land (byte_at buf 4) 0xff) (u32 (Z.shiftl (Z.land (byte_at buf 5) 0xff) 8)) = len p /\
  u32 (s8 (byte_at buf 6)) = type_code ty /\
  Unmask (DecodeFixed32 buf) = crc32c_ref 0 (type_code ty :: p) /\
  drop 6 buf = type_code ty :: p ++ q.
Proof.
  intros Hp Hl. unfold buf. rewrite enc_fragment_cons, <- app_assoc.
  assert (Hc : 0 <= crc32c_ref 0 (type_code ty :: p) < 2 ^ 32).
  { apply crc32c_ref_range; [zpow; lia|]. apply is_bytes_cons. split; [apply type_byte|done]. }
  split; [|split; [|split]].
  - unfold byte_at. cbn [app EncodeFixed32 nth]. apply len_bytes. lia.
  - apply type_roundtrip.
  - rewrite Fixed32_roundtrip by apply Mask_range. now apply Unmask_Mask.
  - done.
Qed.

Lemma Parse_complete (r : ReaderState F) result ty p q :
  buffer_ r = enc_fragment ty p ++ q -> is_bytes p -> len p < 2 ^ 16 ->
  ty <> kZeroType -> initial_offset_ r = 0 ->
  ParsePhysicalRecord r result = (type_code ty, p, set_buffer q r).
Proof.
  intros E Hp Hl Ht Hi.
  destruct (header_fields ty p q Hp Hl) as (F1 & F2 & F3 & F4).
  unfold ParsePhysicalRecord, buffer_size. rewrite E, F1, F2, F3, F4.
  destruct (Z.ltb_spec (len (enc_fragment ty p ++ q)) (kHeaderSize + len p)) as [L|_].
  { rewrite length_app in L. pose proof (length_enc_fragment ty p). lia. }
  replace (type_code ty =? type_code kZeroType) with false by now destruct ty.
  cbn [andb].
  replace (take (Z.to_nat (1 + len p)) (type_code ty :: p ++ q)) with (type_code ty :: p).
  2:{ replace (Z.to_nat (1 + len p)) with (S (length p)) by lia. cbn [take]. now rewrite take_app_length. }
  assert (Hcp : is_bytes (type_code ty :: p))
    by (apply is_bytes_cons; split; [apply type_byte|done]).
  rewrite crc_extend_ok by (try done; cbn [length]; zpow; lia).
  rewrite Z.eqb_refl. cbn [negb]. rewrite andb_false_r. simpl initial_offset_. rewrite Hi.
  match goal with |- context [?x <? 0] => destruct (Z.ltb_spec x 0) as [L|_] end.
  { pose proof (wrapu_range 64 (end_of_buffer_offset_ r - buffer_size
      (set_buffer (drop (Z.to_nat (kHeaderSize + len p)) (enc_fragment ty p ++ q)) r)
        - kHeaderSize - len p) ltac:(lia)) as R.
    exfalso. revert L. apply Z.le_ngt. apply R. }
  assert (Ed : drop (Z.to_nat (kHeaderSize + len p)) (enc_fragment ty p ++ q) = q).
  { rewrite <- length_enc_fragment with (ty := ty). now rewrite Nat2Z.id, drop_app_length. }
  rewrite Ed. do 2 f_equal.
  replace (Z.to_nat kHeaderSize) with (6 + 1)%nat by done.
  rewrite <- drop_drop, F4. cbn [drop]. now rewrite drop_0, Nat2Z.id, take_app_length.
Qed.

(** A record cut short by the end of the file is the end of the file. *)
Lemma Parse_truncated (r : ReaderState F) result ty p q m :
  buffer_ r = take m (enc_fragment ty p ++ q) -> is_bytes p -> len p < 2 ^ 16 ->
  eof_ r = true -> kHeaderSize <= Z.of_nat m < kHeaderSize + len p ->
  ParsePhysicalRecord r result = (kEof, result, set_buffer [] r).
Proof.
  intros E Hp Hl He Hm. unfold kHeaderSize in Hm.
  assert (Eb : take m (enc_fragment ty p ++ q) =
    EncodeFixed32 (Mask (crc32c_ref 0 (type_code ty :: p))) ++
    [u8 (Z.land (len p) 0xff); u8 (Z.shiftr (len p) 8); type_code ty] ++ take (m - 7) (p ++ q)).
  { rewrite enc_fragment_cons. do 7 (destruct m as [|m]; [lia|]). cbn [app EncodeFixed32 take].
    do 7 f_equal. cbn [Nat.sub]. now rewrite ?Nat.sub_0_r. }
  unfold ParsePhysicalRecord, buffer_size. rewrite E, Eb.
  unfold byte_at. cbn [app EncodeFixed32 nth]. rewrite len_bytes by lia.
  match goal with |- context [?x <? ?y] => destruct (Z.ltb_spec x y) as [L|L] end.
  - simpl eof_. rewrite He. done.
  - exfalso. revert L. cbn [length]. rewrite length_take, length_app.
    pose proof (length_enc_fragment ty p). unfold kHeaderSize in *. lia.
Qed.

(** The reader stands at offset [off] of a block with [rem] left in the file:
    its buffer holds [rem] up to the end of the block, and it has seen the end
    of the file only if that is all there is. *)
Record at_ (r : ReaderState F) (off : Z) (rem : list Z) : Prop := {
  at_off : 0 <= off <= kBlockSize;
  at_buffer : buffer_ r = take (Z.to_nat (kBlockSize - off)) rem;
  at_file : unread (file_ r) = drop (Z.to_nat (kBlockSize - off)) rem;
  at_eof : if eof_ r then len rem <= kBlockSize - off else kBlockSize - off <= len rem;
  at_initial : initial_offset_ r = 0;
  at_resync : resyncing_ r = false;
  at_reports : reports r = [];
  at_last : 0 <= last_record_offset_ r;
}.

Lemma at_size r off rem : at_ r off rem -> buffer_size r = Z.min (kBlockSize - off) (len rem).
Proof. intros []. unfold buffer_size. rewrite at_buffer0, length_take. lia. Qed.

(** Reading the next block. *)
Lemma fill_ok (r : ReaderState F) off rem :
  at_ r off rem -> eof_ r = false ->
  exists data f, Read (file_ r) kBlockSize = (OK, data, f) /\
    let r1 := set_buffer data r in
    let r1 := set_file f (u64 (end_of_buffer_offset_ r1 + buffer_size r1)) r1 in
    at_ (if buffer_size r1 <? kBlockSize then set_eof r1 else r1) 0
        (drop (Z.to_nat (kBlockSize - off)) rem).
Proof.
  intros [] He. rewrite He in at_eof0.
  destruct (Read_law (file_ r) kBlockSize) as (f & E & Ef); [unfold kBlockSize; lia|].
  eexists _, f. split; [exact E|]. cbv zeta.
  set (rem' := drop _ rem) in *. rewrite at_file0 in *.
  unfold buffer_size, set_file, set_buffer. cbn [buffer_]. rewrite length_take.
  destruct (Z.ltb_spec (Z.of_nat (Z.to_nat kBlockSize `min` length rem')) kBlockSize) as [L|L];
    (split; cbn [buffer_ file_ eof_ initial_offset_ resyncing_ reports last_record_offset_ set_eof];
     rewrite ?Z.sub_0_r, ?Ef; try done; try (unfold kBlockSize in *; lia)).
  - rewrite He. unfold kBlockSize in *; lia.
Qed.

Lemma parse_at (r : ReaderState F) result off ty p rest n :
  at_ r off (take n (enc_fragment ty p ++ rest)) ->
  off + kHeaderSize + len p <= kBlockSize -> is_bytes p -> ty <> kZeroType ->
  kHeaderSize <= buffer_size r ->
  (kHeaderSize + len p <= Z.of_nat n ->
     exists r', ParsePhysicalRecord r result = (type_code ty, p, r') /\
       at_ r' (off + kHeaderSize + len p) (take (n - Z.to_nat (kHeaderSize + len p)) rest)) /\
  (Z.of_nat n < kHeaderSize + len p ->
     exists r', ParsePhysicalRecord r result = (kEof, result, r') /\ reports r' = []).
Proof.
  intros A Hfit Hp Ht Hbuf. pose proof (at_size _ _ _ A) as Hs. destruct A as [].
  assert (Hl : len p < 2 ^ 16) by (unfold kBlockSize, kHeaderSize in *; zpow; lia).
  pose proof (length_enc_fragment ty p) as Lf.
  rewrite take_take in at_buffer0.
  set (K := Z.to_nat (kHeaderSize + len p)) in *.
  assert (HK : length (enc_fragment ty p) = K) by lia.
  split; intros Hn.
  - assert (Eb : buffer_ r = enc_fragment ty p ++ take (Z.to_nat (kBlockSize - off) `min` n - K) rest).
    { rewrite at_buffer0, take_app_ge, HK; [done|]. rewrite HK. unfold kHeaderSize in *. lia. }
    eexists. split; [now apply Parse_complete with (1 := Eb)|].
    split; cbn [buffer_ file_ eof_ initial_offset_ resyncing_ reports set_buffer]; try done.
    + unfold kHeaderSize in *. lia.
    + rewrite take_take. f_equal. lia.
    + rewrite at_file0. rewrite !skipn_firstn_comm. 
      replace (drop (Z.to_nat (kBlockSize - off)) (enc_fragment ty p ++ rest))
        with (drop (Z.to_nat (kBlockSize - off) - K) rest)
        by (rewrite drop_app_ge by lia; now rewrite HK).
      f_equal; [lia|f_equal; lia].
    + rewrite length_take, length_app in at_eof0. rewrite length_take.
      destruct (eof_ r); lia.
  - assert (He : eof_ r = true).
    { destruct (eof_ r); [done|]. rewrite length_take, length_app in at_eof0. lia. }
    rewrite length_take, length_app in Hs.
    assert (Eb : buffer_ r = take n (enc_fragment ty p ++ rest)).
    { rewrite at_buffer0. f_equal. lia. }
    eexists. split; [eapply Parse_truncated; try done|exact at_reports0].
    split; [|done]. unfold buffer_size in *. lia.
Qed.

Definition placed (off : Z) (i : item) : Prop :=
  pad i = pad_of off /\ start_of off + kHeaderSize + len (payload i) <= kBlockSize /\
  ity i <> kZeroType /\ is_bytes (payload i).

Lemma length_enc_item i : 0 <= pad i -> len (enc_item i) = pad i + kHeaderSize + len (payload i).
Proof.
  intros. unfold enc_item. rewrite length_app, length_replicate.
  pose proof (length_enc_fragment (ity i) (payload i)). lia.
Qed.

(** What [ReadPhysicalRecord] does in front of a placed record of which [n]
    bytes are in the file. *)
Lemma ReadPhysicalRecord_ok (r : ReaderState F) result off i rest n :
  at_ r off (take n (enc_item i ++ rest)) -> placed off i ->
  (len (enc_item i) <= Z.of_nat n ->
     exists r', ReadPhysicalRecord r result = Some (type_code (ity i), payload i, r') /\
       at_ r' (start_of off + kHeaderSize + len (payload i))
           (take (n - length (enc_item i)) rest)) /\
  (Z.of_nat n < len (enc_item i) ->
     exists r', ReadPhysicalRecord r result = Some (kEof, result, r') /\ reports r' = []).
Proof.
  intros A (Hpad & Hfit & Ht & Hb).
  pose proof (at_size _ _ _ A) as Hs. pose proof (at_off _ _ _ A) as Ho.
  destruct (pad_start off Ho) as [Hp Hc].
  pose proof (length_enc_item i ltac:(lia)) as Li.
  pose proof (length_enc_fragment (ity i) (payload i)) as Lf.
  unfold ReadPhysicalRecord. cbn [ReadPhysicalRecord_loop].
  rewrite length_take, length_app in Hs.
  destruct (Z.ltb_spec (buffer_size r) kHeaderSize) as [L|L].
  - destruct (eof_ r) eqn:He; cbn [negb].
    + (* the end of the file is in sight *)
      pose proof (at_eof _ _ _ A) as Hr. rewrite He, length_take, length_app in Hr.
      split; intros Hn; [|eexists; split; [reflexivity|exact (at_reports _ _ _ A)]].
      exfalso. unfold kHeaderSize in *. lia.
    + (* the rest of the block is padding *)
      pose proof (at_eof _ _ _ A) as Hr. rewrite He, length_take, length_app in Hr.
      assert (Hc2 : pad_of off = kBlockSize - off /\ start_of off = 0) by (unfold kHeaderSize in *; lia).
      destruct Hc2 as [Hc2 Hs0]. rewrite Hs0 in *.
      destruct (fill_ok r off _ A He) as (data & f & -> & A1). cbv zeta in A1. cbv zeta.
      cbn [ok negb]. rewrite skipn_firstn_comm in A1.
      unfold enc_item in A1. rewrite <- app_assoc, drop_app_length' in A1
        by (rewrite length_replicate, Hpad, Hc2; done).
      set (r1 := if buffer_size (set_file f _ _) <? kBlockSize then _ else _) in *.
      pose proof (at_size _ _ _ A1) as Hs1. rewrite length_take, length_app in Hs1.
      pose proof (at_eof _ _ _ A1) as Hr1. rewrite length_take, length_app in Hr1.
      cbn [ReadPhysicalRecord_loop].
      destruct (Z.ltb_spec (buffer_size r1) kHeaderSize) as [L1|L1].
      * replace (eof_ r1) with true by (destruct (eof_ r1); [done|unfold kBlockSize, kHeaderSize in *; lia]).
        cbn [negb]. split; intros Hn; [|eexists; split; [reflexivity|exact (at_reports _ _ _ A1)]].
        exfalso. unfold kBlockSize, kHeaderSize in *. lia.
      * destruct (parse_at r1 result 0 _ _ _ _ A1 ltac:(lia) Hb Ht L1) as [P1 P2].
        split; intros Hn.
        -- destruct P1 as (r' & -> & A2); [lia|]. eexists; split; [reflexivity|].
           replace (n - length (enc_item i))%nat
             with (n - Z.to_nat (kBlockSize - off) - Z.to_nat (kHeaderSize + len (payload i)))%nat
             by (unfold kHeaderSize in *; lia). exact A2.
        -- destruct P2 as (r' & -> & E); [lia|]. eexists; split; [reflexivity|done].
  - (* a header is in the buffer *)
    assert (Hc2 : pad_of off = 0 /\ start_of off = off) by (unfold kHeaderSize in *; lia).
    destruct Hc2 as [Hc2 Hs0]. rewrite Hs0 in *.
    assert (Ei : enc_item i = enc_fragment (ity i) (payload i)).
    { unfold enc_item. rewrite Hpad, Hc2. done. }
    rewrite Ei in *.
    destruct (parse_at r result off _ _ _ _ A Hfit Hb Ht L) as [P1 P2].
    split; intros Hn.
    + destruct P1 as (r' & -> & A2); [lia|]. eexists; split; [reflexivity|].
      replace (n - length (enc_fragment (ity i) (payload i)))%nat
        with (n - Z.to_nat (kHeaderSize + len (payload i)))%nat by lia. exact A2.
    + destruct P2 as (r' & -> & E); [lia|]. eexists; split; [reflexivity|done].
Qed.

(** The items of a record are placed one behind the other. *)
Lemma fragments_placed off begin data items off' :
  fragments off begin data items off' -> is_bytes data -> 0 <= off <= kBlockSize ->
  exists i items', items = i :: items' /\ placed off i.
Proof.
  destruct 1 as [off begin data H|off begin a b items off' H Hb HF]; intros Hd Ho.
  - eexists _, _. split; [reflexivity|]. repeat split; simpl; try done. now destruct begin.
  - apply is_bytes_app in Hd as [Ha _].
    eexists _, _. split; [reflexivity|]. repeat split; simpl; try done; [lia|now destruct begin].
Qed.

Lemma no_resync r off rem x : at_ r off rem -> Resync x r = (false, r).
Proof. intros A. unfold Resync. now rewrite (at_resync _ _ _ A). Qed.

Lemma at_set_last r off rem o : 0 <= o -> at_ r off rem -> at_ (set_last_record_offset o r) off rem.
Proof. intros ? []. now split. Qed.

Lemma enc_items_cons i items : enc_items (i :: items) = enc_item i ++ enc_items items.
Proof. reflexivity. Qed.

(** The loop of [ReadRecord] in front of the fragments of a record, or of the
    rest of one, of which [n] bytes are in the file. *)
Lemma ReadRecord_loop_ok off begin data items off' rest :
  fragments off begin data items off' -> is_bytes data ->
  forall fuel n (r : ReaderState F) fragment scratch prospective,
  (n < fuel)%nat -> 0 <= prospective ->
  at_ r off (take n (enc_items items ++ rest)) ->
  (len (enc_items items) <= Z.of_nat n ->
     exists r', ReadRecord_loop fuel fragment scratch (negb begin) prospective r
                = Some (true, (if begin then data else scratch ++ data), r') /\
                at_ r' off' (take (n - length (enc_items items)) rest)) /\
  (Z.of_nat n < len (enc_items items) ->
     exists r', ReadRecord_loop fuel fragment scratch (negb begin) prospective r
                = Some (false, [], r') /\ reports r' = []).
Proof.
  induction 1 as [off begin data H|off begin a b items off' H Hb HF IH];
    intros Hd fuel n r fragment scratch prospective Hf Hpr A;
    (destruct fuel as [|fuel]; [lia|]);
    rewrite enc_items_cons, <- app_assoc in A;
    pose proof (at_off _ _ _ A) as Ho.
  - change (enc_items []) with (@nil Z) in A.
    set (i := Item _ _ data) in *.
    assert (Hpl : placed off i) by (repeat split; simpl; try done; now destruct begin).
    destruct (ReadPhysicalRecord_ok r fragment off i _ n A Hpl) as [P1 P2].
    rewrite enc_items_cons. change (enc_items []) with (@nil Z). rewrite app_nil_r.
    cbn [ReadRecord_loop]. split; intros Hn.
    + destruct (P1 Hn) as (r' & -> & A'). rewrite (no_resync _ _ _ _ A').
      unfold i, ReadRecord_switch. simpl ity.
      destruct begin; simpl; (eexists; split; [reflexivity|apply at_set_last; [|done]]);
        [apply wrapu_range; lia|done].
    + destruct (P2 Hn) as (r' & -> & E). unfold Resync.
      destruct (resyncing_ r'); simpl; eexists; split; try reflexivity; done.
  - apply is_bytes_app in Hd as [Ha Hbb].
    set (i := Item _ _ a) in *.
    assert (Hpl : placed off i)
      by (repeat split; simpl; try done; [lia|now destruct begin]).
    destruct (ReadPhysicalRecord_ok r fragment off i _ n A Hpl) as [P1 P2].
    rewrite enc_items_cons, length_app.
    cbn [ReadRecord_loop].
    destruct (Z.ltb_spec (Z.of_nat n) (len (enc_item i))) as [L|L].
    + split; intros Hn; [lia|].
      destruct (P2 L) as (r' & -> & E). unfold Resync.
      destruct (resyncing_ r'); simpl; eexists; split; try reflexivity; done.
    + destruct (P1 L) as (r' & -> & A'). rewrite (no_resync _ _ _ _ A').
      simpl payload in A'. rewrite H in A'.
      set (po := wrapu 64 _).
      assert (Hpo : 0 <= po) by (apply wrapu_range; lia).
      assert (Hi : (7 <= length (enc_item i))%nat).
      { pose proof (length_enc_item i) as Li. destruct (pad_start off Ho) as [[? _] _].
        simpl pad in Li. unfold kHeaderSize in Li. lia. }
      assert (IH' : forall scr pr, 0 <= pr ->
        (len (enc_items items) <= Z.of_nat (n - length (enc_item i)) ->
          exists r1, ReadRecord_loop fuel a scr true pr r' = Some (true, scr ++ b, r1) /\
                     at_ r1 off' (take (n - length (enc_item i) - length (enc_items items)) rest)) /\
        (Z.of_nat (n - length (enc_item i)) < len (enc_items items) ->
          exists r1, ReadRecord_loop fuel a scr true pr r' = Some (false, [], r1) /\
                     reports r1 = [])).
      { intros scr pr Hpr'. apply (IH Hbb); [lia|exact Hpr'|exact A']. }
      change (payload i) with a. unfold ReadRecord_switch. destruct begin.
      * change (ity i) with kFirstType. cbn [type_code Z.eqb Pos.eqb negb andb].
        destruct (IH' a po Hpo) as [I1 I2]. split; intros Hn.
        -- destruct I1 as (r1 & -> & A1); [lia|]. eexists; split; [reflexivity|].
           now rewrite Nat.sub_add_distr.
        -- apply I2. lia.
      * change (ity i) with kMiddleType. cbn [type_code Z.eqb Pos.eqb negb].
        destruct (IH' (scratch ++ a) prospective Hpr) as [I1 I2]. split; intros Hn.
        -- destruct I1 as (r1 & -> & A1); [lia|]. eexists; split; [now rewrite app_assoc|].
           now rewrite Nat.sub_add_distr.
        -- apply I2. lia.
Qed.

Lemma ReadRecord_ok off data items off' rest fuel n (r : ReaderState F) :
  fragments off true data items off' -> is_bytes data -> (n < fuel)%nat ->
  at_ r off (take n (enc_items items ++ rest)) ->
  (len (enc_items items) <= Z.of_nat n ->
     exists r', ReadRecord fuel r = Some (true, data, r') /\
                at_ r' off' (take (n - length (enc_items items)) rest)) /\
  (Z.of_nat n < len (enc_items items) ->
     exists r', ReadRecord fuel r = Some (false, [], r') /\ reports r' = []).
Proof.
  intros HF Hd Hf A. pose proof (at_last _ _ _ A). unfold ReadRecord. rewrite (at_initial _ _ _ A).
  destruct (Z.ltb_spec (last_record_offset_ r) 0); [lia|]. cbn [negb].
  exact (ReadRecord_loop_ok off true data items off' rest HF Hd fuel n r [] [] 0 Hf (Z.le_refl 0) A).
Qed.

(** At the end of the file there is no record. *)
Lemma ReadRecord_end off fuel (r : ReaderState F) :
  at_ r off [] -> exists r', ReadRecord (S fuel) r = Some (false, [], r') /\ reports r' = [].
Proof.
  intros A. unfold ReadRecord. rewrite (at_initial _ _ _ A). pose proof (at_last _ _ _ A).
  destruct (Z.ltb_spec (last_record_offset_ r) 0); [lia|]. cbn [negb ReadRecord_loop].
  assert (E : exists r', ReadPhysicalRecord r [] = Some (kEof, [], r') /\
                         reports r' = [] /\ resyncing_ r' = false).
  { unfold ReadPhysicalRecord. cbn [ReadPhysicalRecord_loop].
    pose proof (at_size _ _ _ A) as Hs. pose proof (at_eof _ _ _ A) as Hr.
    pose proof (at_off _ _ _ A) as Ho. cbn [length] in *.
    destruct (Z.ltb_spec (buffer_size r) kHeaderSize); [|unfold kHeaderSize in *; lia].
    destruct (eof_ r) eqn:He; cbn [negb].
    { eexists. split; [reflexivity|]. split; [apply A|apply A]. }
    destruct (fill_ok r off [] A He) as (data & f & -> & A1). cbv zeta in *. cbn [ok negb].
    set (r1 := if buffer_size (set_file f _ _) <? kBlockSize then _ else _) in *.
    rewrite drop_nil in A1. pose proof (at_size _ _ _ A1) as Hs1.
    pose proof (at_eof _ _ _ A1) as Hr1. cbn [length] in *.
    destruct (Z.ltb_spec (buffer_size r1) kHeaderSize); [|unfold kHeaderSize, kBlockSize in *; lia].
    replace (eof_ r1) with true by (destruct (eof_ r1); [done|unfold kBlockSize in *; lia]).
    cbn [negb]. eexists. split; [reflexivity|]. split; apply A1. }
  destruct E as (r' & -> & E1 & E2). unfold Resync. rewrite E2. simpl.
  eexists. split; [reflexivity|done].
Qed.

(** ** A whole log *)

(** Reading up to [k] records, until there is none. *)
Fixpoint read_all (k fuel : nat) (r : ReaderState F) : option (list (list Z) * ReaderState F) :=
  match k with
  | O => None
  | S k =>
      match ReadRecord fuel r with
      | None => None
      | Some (false, _, r) => Some ([], r)
      | Some (true, record, r) =>
          match read_all k fuel r with
          | None => None
          | Some (records, r) => Some (record :: records, r)
          end
      end
  end.

End ReaderSpec.

(** Records written one behind the other. *)
Inductive logged : Z -> list (list Z) -> list (list item) -> Prop :=
  | logged_nil off : logged off [] []
  | logged_cons off data records items rest off' :
      fragments off true data items off' -> logged off' records rest ->
      logged off (data :: records) (items :: rest).

Definition enc_log (l : list (list item)) : list Z := concat (map enc_items l).

(** [j] of the records are complete in the first [n] bytes of the log. *)
Definition complete (l : list (list item)) (n j : nat) : Prop :=
  (j <= length l)%nat /\ (length (enc_log (take j l)) <= n)%nat /\
  ((j < length l)%nat -> (n < length (enc_log (take (S j) l)))%nat).

Lemma complete_cons items l n j :
  (length (enc_items items) <= n)%nat -> complete l (n - length (enc_items items)) j ->
  complete (items :: l) n (S j).
Proof.
  intros Hn (H1 & H2 & H3). unfold complete, enc_log in *.
  rewrite !firstn_cons. cbn [length map concat]. rewrite !length_app.
  repeat split; [lia|lia|].
  intros Hj. specialize (H3 ltac:(lia)). lia.
Qed.

Section LogSpec.
Context {F : Type} {SF : SequentialFile F} {SL : SequentialFileLaws F}.

Lemma read_all_ok off records l :
  logged off records l -> Forall is_bytes records ->
  forall fuel n (r : Reader.ReaderState F), (n < fuel)%nat -> at_ r off (take n (enc_log l)) ->
  exists j r', read_all (S (length records)) fuel r = Some (take j records, r') /\
    Reader.reports r' = [] /\ complete l n j.
Proof.
  induction 1 as [off|off data records items rest off' HF HL IH]; intros Hb fuel n r Hf A.
  - destruct fuel as [|fuel]; [lia|]. cbn [read_all length].
    change (enc_log []) with (@nil Z) in A. rewrite take_nil in A.
    destruct (ReadRecord_end off fuel r A) as (r' & -> & E).
    exists 0%nat, r'. split; [done|]. split; [done|]. unfold complete. simpl. lia.
  - apply List.Forall_cons_iff in Hb as [Hd Hb].
    change (enc_log (items :: rest)) with (enc_items items ++ enc_log rest) in A.
    destruct (ReadRecord_ok off data items off' (enc_log rest) fuel n r HF Hd Hf A) as [P1 P2].
    remember (S (length records)) as k eqn:Ek. cbn [length]. rewrite <- Ek. cbn [read_all].
    destruct (Nat.ltb_spec n (length (enc_items items))) as [L|L].
    + destruct P2 as (r' & -> & E); [lia|]. exists 0%nat, r'. split; [done|].
      split; [done|]. split; [simpl; lia|]. split; [simpl; lia|]. intros _.
      unfold enc_log. cbn [take map concat]. rewrite take_0. simpl. now rewrite app_nil_r.
    + destruct P1 as (r' & -> & A'); [lia|].
      destruct (IH Hb fuel (n - length (enc_items items))%nat r') as (j & r1 & E1 & E2 & C);
        [lia|exact A'|].
      rewrite E1. exists (S j), r1. split; [done|]. split; [done|]. now apply complete_cons.
Qed.

(** The initial reader stands before the first block. *)
Lemma make_at_0 (f : F) rem reporter checksum :
  unread f = rem -> at_ (Reader.make_Reader f reporter checksum 0) kBlockSize rem.
Proof.
  intros E. split; cbn [Reader.make_Reader Reader.buffer_ Reader.file_ Reader.eof_ Reader.initial_offset_
    Reader.resyncing_ Reader.reports Reader.last_record_offset_];
    rewrite ?Z.sub_diag; try done; unfold kBlockSize; lia.
Qed.

End LogSpec.

(** A new block may be entered from its beginning or from the end of the one
    before. *)
Lemma fragments_0 begin data items off' :
  fragments 0 begin data items off' -> fragments kBlockSize begin data items off'.
Proof.
  inversion 1; subst; [|].
  - change (start_of 0) with (start_of kBlockSize).
    change (pad_of 0) with (pad_of kBlockSize). now constructor.
  - change (pad_of 0) with (pad_of kBlockSize). now constructor.
Qed.

Lemma logged_0 records l : logged 0 records l -> logged kBlockSize records l.
Proof.
  inversion 1; subst; [constructor|]. eapply logged_cons; [apply fragments_0; eassumption|done].
Qed.

Section LogWrite.
Context {W : Type} {WF : WritableFile W} {WL : WritableFileLaws W}.

(** Adding records one by one, as long as that succeeds. *)
Fixpoint write_all (w : Writer.WriterState W) (records : list (list Z)) : option (Writer.WriterState W) :=
  match records with
  | [] => Some w
  | data :: records =>
      match Writer.AddRecord w data with
      | Some (OK, w) => write_all w records
      | _ => None
      end
  end.

(** What is in the file after that. *)
Definition log_of (dest : W) (records : list (list Z)) : list Z :=
  match write_all (Writer.make_Writer dest) records with
  | Some w => written (Writer.dest_ w)
  | None => []
  end.

Lemma write_all_ok (w : Writer.WriterState W) records :
  Forall is_bytes records -> 0 <= Writer.block_offset_ w <= kBlockSize ->
  exists l, logged (Writer.block_offset_ w) records l /\
    forall j, exists w', write_all w (take j records) = Some w' /\
      written (Writer.dest_ w') = written (Writer.dest_ w) ++ enc_log (take j l).
Proof.
  revert w; induction records as [|data records IH]; intros w Hb Hw.
  - exists []. split; [constructor|]. intros j. exists w. rewrite !take_nil.
    split; [done|]. unfold enc_log. simpl. now rewrite app_nil_r.
  - apply List.Forall_cons_iff in Hb as [Hd Hb].
    destruct (AddRecord_ok w data Hd Hw) as (w1 & items & E1 & HF & EW).
    destruct (IH w1 Hb (fragments_off _ _ _ _ _ HF Hw)) as (l & HL & HJ).
    exists (items :: l). split; [now apply logged_cons with (Writer.block_offset_ w1)|].
    intros [|j].
    + exists w. split; [done|]. unfold enc_log. simpl. now rewrite app_nil_r.
    + destruct (HJ j) as (w' & E' & EW'). exists w'. cbn [take write_all]. rewrite E1.
      split; [done|]. rewrite EW', EW, <- app_assoc. done.
Qed.

End LogWrite.

(** ** Theorems *)

(** C15: A log survives a crash.  Whatever records are written to an empty
    file, the writes succeed; and a reader given the first [n] bytes of that
    file, for any [n], returns exactly the records that were complete in those
    bytes, in order, and then the end of the log, without reporting
    corruption.  With all the bytes it returns all the records. *)
Theorem log_prefix_roundtrip
    {W : Type} {WF : WritableFile W} {WL : WritableFileLaws W}
    {F : Type} {SF : SequentialFile F} {SL : SequentialFileLaws F}
    (dest : W) (file : F) (records : list (list Z)) (n : nat) (reporter checksum : bool) :
  Forall is_bytes records -> written dest = [] ->
  unread file = take n (log_of dest records) ->
  exists j r',
    read_all (S (length records)) (S (length (unread file)))
             (Reader.make_Reader file reporter checksum 0) = Some (take j records, r') /\
    Reader.reports r' = [] /\
    (j <= length records)%nat /\
    (length (log_of dest (take j records)) <= n)%nat /\
    ((j < length records)%nat -> (n < length (log_of dest (take (S j) records)))%nat) /\
    write_all (Writer.make_Writer dest) records <> None.
Proof.
  intros Hb Hd Hf.
  destruct (write_all_ok (Writer.make_Writer dest) records Hb) as (l & HL & HJ).
  { simpl. unfold kBlockSize. lia. }
  assert (Hlog : forall j, log_of dest (take j records) = enc_log (take j l)).
  { intros j. unfold log_of. destruct (HJ j) as (w' & -> & E). rewrite E. simpl. now rewrite Hd. }
  assert (Hlen : length l = length records).
  { clear -HL. induction HL; simpl; congruence. }
  pose proof (Hlog (length records)) as Hall. rewrite firstn_all in Hall.
  rewrite firstn_all2 in Hall by lia. rewrite Hall in Hf.
  assert (Hf' : unread file = take (length (unread file)) (enc_log l)).
  { rewrite Hf at 1. rewrite Hf, length_take.
    destruct (Nat.le_ge_cases n (length (enc_log l)));
      [now rewrite Nat.min_l|now rewrite Nat.min_r, firstn_all, firstn_all2]. }
  destruct (read_all_ok kBlockSize records l (logged_0 _ _ HL) Hb (S (length (unread file)))
              (length (unread file)) (Reader.make_Reader file reporter checksum 0)) as (j & r' & E1 & E2 & E3).
  { lia. }
  { now apply make_at_0. }
  destruct E3 as (C1 & C2 & C3). exists j, r'. split; [exact E1|]. split; [exact E2|].
  rewrite !Hlog. rewrite Hf, length_take in C2, C3.
  split; [lia|]. split; [lia|]. split.
  - intros Hj. specialize (C3 ltac:(lia)).
    assert (length (enc_log (take (S j) l)) <= length (enc_log l))%nat; [|lia].
    unfold enc_log. rewrite <- (take_drop (S j) l) at 2. rewrite map_app, concat_app, length_app. lia.
  - destruct (HJ (length records)) as (w' & E & _). rewrite firstn_all in E. now rewrite E.
Qed.

(** The log of two records, cut after 20 bytes: the second record, of nine
    bytes with its header, is not complete. *)
Lemma log_prefix_roundtrip_witness :
  let records := [[104; 101; 108; 108; 111]; [1; 2]] in
  let file := MemFile (take 20 (log_of (MemFile []) records)) in
  exists j r',
    read_all (S (length records)) (S (length (unread file))) (Reader.make_Reader file true true 0)
      = Some (take j records, r') /\
    Reader.reports r' = [] /\ (j <= length records)%nat /\
    (length (log_of (MemFile []) (take j records)) <= 20)%nat /\
    ((j < length records)%nat -> (20 < length (log_of (MemFile []) (take (S j) records)))%nat) /\
    write_all (Writer.make_Writer (MemFile [])) records <> None.
Proof.
  intros records file.
  apply (log_prefix_roundtrip (MemFile []) file records 20 true true);
    [|reflexivity|reflexivity].
  repeat constructor; unfold is_byte; lia.
Defined.

(** ** Any file *)

Section ReaderTotal.
Context {F : Type} {SF : SequentialFile F} {FF : FiniteFile F}.
Import Reader.

(** What the reader has not yet looked at. *)
Definition ahead (r : ReaderState F) : nat := (length (buffer_ r) + bytes_ahead (file_ r))%nat.

Lemma ahead_ReportDrop n s (r : ReaderState F) : ahead (ReportDrop n s r) = ahead r.
Proof. unfold ReportDrop. now destruct (_ && _). Qed.
Lemma ahead_ReportCorruption n s (r : ReaderState F) : ahead (ReportCorruption n s r) = ahead r.
Proof. apply ahead_ReportDrop. Qed.
Lemma ahead_Resync x (r : ReaderState F) : ahead (snd (Resync x r)) = ahead r.
Proof. unfold Resync. destruct (resyncing_ r); repeat case_match; done. Qed.
Lemma ahead_set_buffer b (r : ReaderState F) :
  ahead (set_buffer b r) = (length b + bytes_ahead (file_ r))%nat.
Proof. done. Qed.

Lemma Parse_progress (r : ReaderState F) result :
  kHeaderSize <= buffer_size r ->
  let '(_, _, r') := ParsePhysicalRecord r result in (ahead r' < ahead r)%nat.
Proof.
  intros Hb. unfold buffer_size, kHeaderSize in Hb. unfold ParsePhysicalRecord.
  set (n := Z.lor _ _).
  assert (Hn : 0 <= n).
  { apply Z.lor_nonneg. split; [rewrite land_255; apply Z.mod_pos_bound; lia|].
    apply wrapu_range; lia. }
  assert (H0 : forall s x, (ahead (ReportCorruption x s (set_buffer [] r)) < ahead r)%nat)
    by (intros; rewrite ahead_ReportCorruption, ahead_set_buffer; unfold ahead; simpl; lia).
  assert (H1 : (ahead (set_buffer [] r) < ahead r)%nat)
    by (rewrite ahead_set_buffer; unfold ahead; simpl; lia).
  assert (H2 : (ahead (set_buffer (drop (Z.to_nat (kHeaderSize + n)) (buffer_ r)) r) < ahead r)%nat).
  { rewrite ahead_set_buffer, length_drop. unfold ahead, kHeaderSize. lia. }
  repeat (bcase; [auto|]); auto.
Qed.

(** [ReadPhysicalRecord] returns, with the end of the file or closer to it. *)
Lemma ReadPhysicalRecord_total (r : ReaderState F) result :
  exists x result' r', ReadPhysicalRecord r result = Some (x, result', r') /\
    (x = kEof \/ (ahead r' < ahead r)%nat).
Proof.
  assert (HP : forall r1 : ReaderState F, kHeaderSize <= buffer_size r1 -> (ahead r1 <= ahead r)%nat ->
    exists x result' r', Some (ParsePhysicalRecord r1 result) = Some (x, result', r') /\
      (x = kEof \/ (ahead r' < ahead r)%nat)).
  { intros r1 H1 H2. pose proof (Parse_progress r1 result H1) as P.
    destruct (ParsePhysicalRecord r1 result) as [[x res] r'].
    eexists _, _, _. split; [reflexivity|]. right. lia. }
  unfold ReadPhysicalRecord. cbn [ReadPhysicalRecord_loop].
  destruct (Z.ltb_spec (buffer_size r) kHeaderSize) as [L|L]; [|now apply HP].
  destruct (eof_ r) eqn:He; cbn [negb]; [eexists _, _, _; split; [reflexivity|now left]|].
  pose proof (Read_ahead (file_ r) kBlockSize) as Hrd. destruct (Read (file_ r) kBlockSize) as [[s data] f].
  destruct (ok s); cbn [negb]; [|eexists _, _, _; split; [reflexivity|now left]]. specialize (Hrd eq_refl).
  cbv zeta.
  set (r0 := set_file f _ _).
  assert (H0 : (ahead r0 <= ahead r)%nat)
    by (unfold ahead, r0; cbn [buffer_ file_ set_file set_buffer]; lia).
  clearbody r0. set (r1 := if buffer_size r0 <? kBlockSize then _ else _).
  assert (E1 : buffer_size r1 = buffer_size r0 /\ ahead r1 = ahead r0 /\
    (buffer_size r0 < kBlockSize -> eof_ r1 = true)).
  { unfold r1. destruct (Z.ltb_spec (buffer_size r0) kBlockSize) as [B|B];
      (split; [reflexivity|split; [reflexivity|]]); intros H; [reflexivity|].
    exfalso. exact (Zlt_not_le _ _ H B). }
  destruct E1 as (E1 & E2 & E3).
  destruct (Z.ltb_spec (buffer_size r1) kHeaderSize) as [L1|L1].
  - rewrite E3 by (rewrite <- E1; unfold kBlockSize, kHeaderSize in *; lia). cbn [negb].
    eexists _, _, _; split; [reflexivity|now left].
  - apply HP; [done|]. lia.
Qed.

(** The end of the file ends [ReadRecord]; nothing else changes what is ahead. *)
Lemma switch_ahead x frag o scratch inf pr (r : ReaderState F) :
  match ReadRecord_switch x frag o scratch inf pr r with
  | Done found _ r' => (found = true -> x <> kEof) /\ ahead r' = ahead r
  | Next _ _ _ r' => x <> kEof /\ ahead r' = ahead r
  end.
Proof.
  unfold ReadRecord_switch.
  destruct (Z.eqb_spec x (type_code kFullType)) as [->|]; [split; [done|]; destruct (inf && _); [exact (ahead_ReportCorruption _ _ r)|done]|].
  destruct (Z.eqb_spec x (type_code kFirstType)) as [->|]; [split; [done|]; destruct (inf && _); [exact (ahead_ReportCorruption _ _ r)|done]|].
  destruct (Z.eqb_spec x (type_code kMiddleType)) as [->|]; [destruct inf; (split; [done|]); cbn [negb]; now rewrite ?ahead_ReportCorruption|].
  destruct (Z.eqb_spec x (type_code kLastType)) as [->|]; [destruct inf; (split; [done|]); now rewrite ?ahead_ReportCorruption|].
  destruct (Z.eqb_spec x kEof) as [->|Hne]; [now split|].
  destruct (Z.eqb_spec x kBadRecord) as [->|]; [destruct inf|]; (split; [done|]); now rewrite ?ahead_ReportCorruption.
Qed.

Lemma ReadRecord_loop_total fuel frag scratch inf pr (r : ReaderState F) :
  (ahead r < fuel)%nat ->
  exists found record r', ReadRecord_loop fuel frag scratch inf pr r = Some (found, record, r') /\
    (found = true -> (ahead r' < ahead r)%nat).
Proof.
  revert frag scratch inf pr r; induction fuel as [|fuel IH]; intros frag scratch inf pr r Hf; [lia|].
  cbn [ReadRecord_loop].
  destruct (ReadPhysicalRecord_total r frag) as (x & frag' & r' & -> & Hx).
  pose proof (ahead_Resync x r') as Hr.
  destruct (Resync x r') as [skip r1] eqn:ER. simpl in Hr.
  assert (Hgo : forall a b c r2, x <> kEof -> ahead r2 = ahead r1 ->
    exists found record r3, ReadRecord_loop fuel frag' a b c r2 = Some (found, record, r3) /\ (found = true -> (ahead r3 < ahead r)%nat)).
  { intros a b c r2 Hne E2. destruct Hx as [->|Hlt]; [done|].
    destruct (IH frag' a b c r2) as (found & record & r3 & E & Hp); [lia|]. exists found, record, r3. split; [done|]. intros Hfd.
    specialize (Hp Hfd). lia. }
  destruct skip.
  - apply Hgo; [|done]. intros ->. unfold Resync in ER. change (kEof =? type_code kMiddleType) with false in ER.
    change (kEof =? type_code kLastType) with false in ER. destruct (resyncing_ r'); congruence.
  - match goal with |- context [ReadRecord_switch ?a ?b ?c ?d ?e ?f ?g] =>
      pose proof (switch_ahead a b c d e f g) as HS;
      destruct (ReadRecord_switch a b c d e f g) end; destruct HS as [HS1 HS2].
    + eexists _, _, _. split; [reflexivity|]. intros Hfd. destruct Hx as [->|Hlt]; [now destruct (HS1 Hfd)|lia].
    + now apply Hgo.
Qed.

(** C37: Reading a log always ends.  On any file that delivers finitely many bytes,
    whatever they are and whether or not its reads and skips succeed, and from
    any state of the reader, [ReadRecord] returns after looking at no more
    physical records than there are bytes ahead of it; and when it returns a
    record, fewer bytes are ahead than before, so that reading record after
    record ends, too. *)
Theorem ReadRecord_total (r : ReaderState F) :
  exists found record r', ReadRecord (S (ahead r)) r = Some (found, record, r') /\
    (found = true -> (ahead r' < ahead r)%nat).
Proof.
  unfold ReadRecord.
  assert (H : exists b r1, (if last_record_offset_ r <? initial_offset_ r
                            then SkipToInitialBlock r else (true, r)) = (b, r1) /\
                           (ahead r1 <= ahead r)%nat).
  { destruct (_ <? _); [|eexists _, _; split; [reflexivity|lia]].
    unfold SkipToInitialBlock. cbv zeta.
    set (loc := if kBlockSize - 6 <? _ then _ else _). destruct (Z.ltb_spec 0 loc) as [L|L].
    - cbn [file_ set_file]. pose proof (Skip_ahead (file_ r) loc) as Hs. destruct (Skip (file_ r) loc) as [s f]. cbn in Hs.
      destruct (ok s); eexists _, _; (split; [reflexivity|]); rewrite ?ahead_ReportDrop; unfold ahead; cbn [buffer_ file_ set_file]; lia.
    - eexists _, _. split; [reflexivity|]. done. }
  destruct H as (b & r1 & -> & Hr). destruct b; cbn [negb]; [|eexists _, _, _; now split].
  destruct (ReadRecord_loop_total (S (ahead r)) [] [] false 0 r1) as (found & record & r' & E & Hp); [lia|].
  exists found, record, r'. split; [done|]. intros Hf. specialize (Hp Hf). lia.
Qed.

End ReaderTotal.

(** ** Examples *)

(** A file whose reads fail after some that succeeded. *)
Record torn_file := Torn { torn_contents : list Z; torn_good : nat }.

#[global] Instance torn_sequential : SequentialFile torn_file := {
  Read f n :=
    match torn_good f with
    | O => (IOError "read", [], f)
    | S k => (OK, take (Z.to_nat n) (torn_contents f), Torn (drop (Z.to_nat n) (torn_contents f)) k)
    end;
  Skip f n := (OK, Torn (drop (Z.to_nat n) (torn_contents f)) (torn_good f));
}.

#[global, program] Instance torn_finite : FiniteFile torn_file := { bytes_ahead f := length (torn_contents f) }.
Next Obligation. intros f n. cbn. destruct (torn_good f); [done|]. intros _. cbn. rewrite length_take, length_drop. lia. Qed.
Next Obligation. intros f n. cbn. rewrite length_drop. lia. Qed.

(** Arbitrary bytes behind a block of zeros; the second read fails. *)
Lemma ReadRecord_total_witness :
  let r := Reader.make_Reader (Torn (replicate (Z.to_nat kBlockSize) 0 ++ [7; 0; 0; 0; 255; 255; 9; 1; 2; 3]) 1) true true 0 in
  exists found record r', Reader.ReadRecord (S (ahead r)) r = Some (found, record, r') /\
    (found = true -> (ahead r' < ahead r)%nat).
Proof. intros r. exact (ReadRecord_total r). Defined.

(** A record of type 5 with a correct checksum and, behind it, a record that the
    writer wrote: the reader takes the first for the end of the file. *)
Definition type5_log : list Z :=
  EncodeFixed32 (Mask (crc32c_ref 0 [5; 1])) ++ [1; 0; 5; 1] ++ log_of (MemFile []) [[104; 105]].

Lemma type5_ends_log :
  exists r', Reader.ReadRecord 10 (Reader.make_Reader (MemFile type5_log) true true 0) = Some (false, [], r') /\
    Reader.reports r' = [] /\ Reader.buffer_ r' = log_of (MemFile []) [[104; 105]].
Proof. eexists. vm_compute. repeat split; reflexivity. Qed.
