(* ===== verification/LvComparator.v ===== *)
(** * leveldb: comparators (include/leveldb/comparator.h, include/leveldb/slice.h, util/comparator.cc)

    The interface of an order on keys as a type class, what the library relies
    on as its laws, and the bytewise comparator as an instance. *)
From Stdlib Require Import ZArith Lia Bool List.
From stdpp Require Import base list numbers.
From S2P Require Import Prelude.

(** ** The interface *)

(** [Compare] returns a negative, zero or positive number; the two others
    shorten keys for the index of a table. *)
Class Comparator := {
  Compare : list Z -> list Z -> Z;
  FindShortestSeparator : list Z -> list Z -> list Z;
  FindShortSuccessor : list Z -> list Z;
}.

(** The documented behaviour on the keys [valid]: a total preorder, and
    shortened keys that stay within their bounds.  The documentation promises
    the bounds of a separator for [start < limit]; the comparator of internal
    keys also calls it with equal user keys, for which [Separator_same] states
    what it relies on. *)
Class ComparatorLaws (C : Comparator) (valid : list Z -> Prop) : Prop := {
  Compare_antisym a b : valid a -> valid b -> (Compare a b < 0 <-> 0 < Compare b a);
  Compare_trans a b c : valid a -> valid b -> valid c ->
    Compare a b <= 0 -> Compare b c <= 0 -> Compare a c <= 0;
  Separator_valid start limit :
    valid start -> valid limit -> valid (FindShortestSeparator start limit);
  Separator_ok start limit : valid start -> valid limit -> Compare start limit < 0 ->
    Compare start (FindShortestSeparator start limit) <= 0 /\
    Compare (FindShortestSeparator start limit) limit < 0;
  Separator_same start limit : valid start -> valid limit -> Compare start limit = 0 ->
    Compare start (FindShortestSeparator start limit) = 0;
  Successor_valid key : valid key -> valid (FindShortSuccessor key);
  Successor_ok key : valid key -> Compare key (FindShortSuccessor key) <= 0;
}.

Section Laws.
Context {C : Comparator} {valid : list Z -> Prop} {L : ComparatorLaws C valid}.

Lemma Compare_refl a : valid a -> Compare a a = 0.
Proof. intros Ha. pose proof (Compare_antisym a a Ha Ha). lia. Qed.

Lemma Compare_eq_sym a b : valid a -> valid b -> Compare a b = 0 -> Compare b a = 0.
Proof.
  intros Ha Hb E. pose proof (Compare_antisym a b Ha Hb). pose proof (Compare_antisym b a Hb Ha). lia.
Qed.

Lemma Compare_flip a b : valid a -> valid b -> (Compare a b <= 0 <-> 0 <= Compare b a).
Proof.
  intros Ha Hb. pose proof (Compare_antisym a b Ha Hb). pose proof (Compare_antisym b a Hb Ha). lia.
Qed.

Lemma Compare_lt_le_trans a b c : valid a -> valid b -> valid c ->
  Compare a b < 0 -> Compare b c <= 0 -> Compare a c < 0.
Proof.
  intros Ha Hb Hc H1 H2.
  destruct (Z.lt_ge_cases (Compare a c) 0) as [?|G]; [done|].
  assert (Compare c a <= 0) by (apply Compare_flip; done).
  assert (Compare b a <= 0) by (eapply Compare_trans; [..|eassumption|eassumption]; done).
  pose proof (Compare_antisym a b Ha Hb). lia.
Qed.

Lemma Compare_le_lt_trans a b c : valid a -> valid b -> valid c ->
  Compare a b <= 0 -> Compare b c < 0 -> Compare a c < 0.
Proof.
  intros Ha Hb Hc H1 H2.
  destruct (Z.lt_ge_cases (Compare a c) 0) as [?|G]; [done|].
  assert (Compare c a <= 0) by (apply Compare_flip; done).
  assert (Compare c b <= 0) by (eapply Compare_trans; [..|eassumption|eassumption]; done).
  pose proof (Compare_antisym b c Hb Hc). lia.
Qed.

Lemma Compare_eq_trans a b c : valid a -> valid b -> valid c ->
  Compare a b = 0 -> Compare b c = 0 -> Compare a c = 0.
Proof.
  intros Ha Hb Hc H1 H2.
  assert (Compare a c <= 0) by (eapply (Compare_trans a b c); try done; lia).
  assert (Compare c a <= 0).
  { eapply (Compare_trans c b a); try done.
    - rewrite (Compare_eq_sym b c) by done. lia.
    - rewrite (Compare_eq_sym a b) by done. lia. }
  pose proof (Compare_antisym a c Ha Hc). pose proof (Compare_antisym c a Hc Ha). lia.
Qed.

End Laws.

(** ** Slices *)

(** [memcmp] on buffers of equal length; of its result only the sign is
    specified and used. *)
Fixpoint memcmp (a b : list Z) : Z :=
  match a, b with
  | x :: a, y :: b => if x <? y then -1 else if y <? x then 1 else memcmp a b
  | _, _ => 0
  end.

Definition slice_compare (a b : list Z) : Z :=
  let min_len := Nat.min (length a) (length b) in
  let r := memcmp (take min_len a) (take min_len b) in
  if r =? 0 then
    if (length a <? length b)%nat then -1
    else if (length b <? length a)%nat then 1 else r
  else r.

Definition starts_with (a x : list Z) : bool :=
  (length x <=? length a)%nat && (memcmp (take (length x) a) x =? 0).

(** ** Bytewise comparator *)

(** The length of the common prefix: the loop on [diff_index]. *)
Fixpoint common_prefix (a b : list Z) : nat :=
  match a, b with
  | x :: a, y :: b => if x =? y then S (common_prefix a b) else O
  | _, _ => O
  end.

Definition bytewise_separator (start limit : list Z) : list Z :=
  let min_length := Nat.min (length start) (length limit) in
  let diff_index := common_prefix start limit in
  if (min_length <=? diff_index)%nat then start
  else
    let diff_byte := nth diff_index start 0 in
    if (diff_byte <? 0xff) && (diff_byte + 1 <? nth diff_index limit 0)
    then take diff_index start ++ [u8 (diff_byte + 1)]
    else start.

(** The loop of [FindShortSuccessor]; [done_] is the part before [i]. *)
Fixpoint bytewise_successor_loop (done_ key : list Z) : list Z :=
  match key with
  | [] => done_
  | byte :: key =>
      if negb (byte =? 0xff) then done_ ++ [u8 (byte + 1)]
      else bytewise_successor_loop (done_ ++ [byte]) key
  end.

Definition bytewise_successor (key : list Z) : list Z := bytewise_successor_loop [] key.

#[global] Instance BytewiseComparator : Comparator := {
  Compare := slice_compare;
  FindShortestSeparator := bytewise_separator;
  FindShortSuccessor := bytewise_successor;
}.

(** ** The order *)

(** Lexicographic order of byte strings, structurally. *)
Fixpoint lex (a b : list Z) : Z :=
  match a, b with
  | [], [] => 0
  | [], _ => -1
  | _, [] => 1
  | x :: a, y :: b => if x <? y then -1 else if y <? x then 1 else lex a b
  end.

Lemma slice_compare_lex a b : slice_compare a b = lex a b.
Proof.
  revert b; induction a as [|x a IH]; intros [|y b]; try reflexivity.
  specialize (IH b). unfold slice_compare in *. cbn [length Nat.min take memcmp lex].
  destruct (Z.ltb_spec x y); [done|]. destruct (Z.ltb_spec y x); [done|]. exact IH.
Qed.

Lemma lex_antisym a b : lex b a = - lex a b.
Proof.
  revert b; induction a as [|x a IH]; intros [|y b]; simpl; try done.
  destruct (Z.ltb_spec x y), (Z.ltb_spec y x); try lia; done.
Qed.

Lemma lex_refl a : lex a a = 0.
Proof. induction a; simpl; [done|]. rewrite Z.ltb_irrefl. done. Qed.

(** Equal is identical. *)
Lemma lex_eq a b : lex a b = 0 -> a = b.
Proof.
  revert b; induction a as [|x a IH]; intros [|y b]; simpl; try done.
  destruct (Z.ltb_spec x y), (Z.ltb_spec y x); try done; intros E.
  f_equal; [lia|now apply IH].
Qed.

Lemma lex_range a b : -1 <= lex a b <= 1.
Proof.
  revert b; induction a as [|x a IH]; intros [|y b]; simpl; try lia.
  destruct (Z.ltb_spec x y), (Z.ltb_spec y x); try lia; apply IH.
Qed.

Lemma lex_trans a b c : lex a b <= 0 -> lex b c <= 0 -> lex a c <= 0.
Proof.
  revert b c; induction a as [|x a IH]; intros [|y b] [|z c]; simpl; try lia.
  destruct (Z.ltb_spec x y), (Z.ltb_spec y x), (Z.ltb_spec y z), (Z.ltb_spec z y),
    (Z.ltb_spec x z), (Z.ltb_spec z x); try lia; apply IH.
Qed.

Lemma lex_app p a b : lex (p ++ a) (p ++ b) = lex a b.
Proof. induction p as [|x p IH]; simpl; [done|]. now rewrite Z.ltb_irrefl. Qed.

Lemma common_prefix_spec a b :
  let k := common_prefix a b in
  take k a = take k b /\ (k <= length a)%nat /\ (k <= length b)%nat /\
  ((k < Nat.min (length a) (length b))%nat -> nth k a 0 <> nth k b 0).
Proof.
  revert b; induction a as [|x a IH]; intros [|y b]; simpl; try (repeat split; lia).
  destruct (Z.eqb_spec x y) as [->|N]; simpl.
  - destruct (IH b) as (E & H1 & H2 & H3). rewrite E. repeat split; try lia;
      intros H; apply H3; lia.
  - repeat split; try lia; done.
Qed.

(** A string cut at position [k]. *)
Lemma split_at k (l : list Z) :
  (k < length l)%nat -> l = take k l ++ nth k l 0 :: drop (S k) l.
Proof.
  revert l; induction k as [|k IH]; intros [|x l] H; simpl in *; try lia.
  - now rewrite drop_0.
  - f_equal. apply IH. lia.
Qed.

Lemma bytewise_separator_ok start limit :
  is_bytes start -> lex start limit < 0 ->
  is_bytes (bytewise_separator start limit) /\
  lex start (bytewise_separator start limit) <= 0 /\ lex (bytewise_separator start limit) limit < 0.
Proof.
  intros Hb Hlt. unfold bytewise_separator.
  destruct (common_prefix_spec start limit) as (E & H1 & H2 & H3).
  set (k := common_prefix start limit) in *.
  assert (Hself : is_bytes start /\ lex start start <= 0 /\ lex start limit < 0)
    by (rewrite lex_refl; repeat split; [done|lia|done]).
  destruct (Nat.leb_spec (Nat.min (length start) (length limit)) k) as [L|L]; [done|].
  destruct (_ && _) eqn:C; [|done]. b2p.
  pose proof (split_at k start ltac:(lia)) as Es. pose proof (split_at k limit ltac:(lia)) as El.
  set (d := nth k start 0) in *. set (d' := nth k limit 0) in *.
  assert (Hd : is_byte d).
  { rewrite Es in Hb. apply List.Forall_app in Hb as [_ Hb]. now inversion Hb. }
  unfold is_byte in Hd. rewrite wrapu_small by (zpow; lia).
  split; [|split].
  - apply List.Forall_app. split; [now apply Forall_take|]. apply Forall_singleton. unfold is_byte. lia.
  - rewrite Es at 1. rewrite lex_app. simpl.
    destruct (Z.ltb_spec d (d + 1)); lia.
  - rewrite E. rewrite El at 2. rewrite lex_app. simpl.
    destruct (Z.ltb_spec (d + 1) d'); lia.
Qed.

Lemma bytewise_successor_loop_ok done_ key :
  is_bytes done_ -> is_bytes key ->
  is_bytes (bytewise_successor_loop done_ key) /\
  lex (done_ ++ key) (bytewise_successor_loop done_ key) <= 0.
Proof.
  revert done_; induction key as [|b key IH]; intros done_ Hd Hk; simpl.
  - rewrite app_nil_r, lex_refl. split; [done|lia].
  - apply List.Forall_cons_iff in Hk as [Hb Hk].
    destruct (Z.eqb_spec b 255) as [->|N]; simpl.
    + destruct (IH (done_ ++ [255])) as [H1 H2].
      { apply List.Forall_app. split; [done|]. now apply Forall_singleton. }
      { done. }
      split; [done|]. now rewrite <- app_assoc in H2.
    + unfold is_byte in Hb. rewrite wrapu_small by (zpow; lia). split.
      * apply List.Forall_app. split; [done|]. apply Forall_singleton. unfold is_byte. lia.
      * rewrite lex_app. simpl. destruct (Z.ltb_spec b (b + 1)); lia.
Qed.

#[global] Instance bytewise_laws : ComparatorLaws BytewiseComparator is_bytes.
Proof.
  split; simpl; intros; rewrite ?slice_compare_lex in *.
  - rewrite (lex_antisym a b). lia.
  - eauto using lex_trans.
  - destruct (Z.lt_ge_cases (lex start limit) 0) as [Hlt|Hge].
    + now apply bytewise_separator_ok.
    + unfold bytewise_separator.
      destruct (common_prefix_spec start limit) as (E & H1 & H2 & H3).
      destruct (_ <=? _)%nat; [done|]. destruct (_ && _) eqn:Cd; [|done]. b2p.
      apply List.Forall_app. split; [now apply Forall_take|]. apply Forall_singleton.
      apply wrapu_range. lia.
  - now apply bytewise_separator_ok.
  - rewrite (lex_eq start limit) by done. unfold bytewise_separator.
    destruct (common_prefix_spec limit limit) as (_ & _ & _ & Hk).
    destruct (Nat.leb_spec (Nat.min (length limit) (length limit)) (common_prefix limit limit));
      [apply lex_refl|]. now specialize (Hk ltac:(lia)).
  - apply (bytewise_successor_loop_ok [] key); [constructor|done].
  - apply (bytewise_successor_loop_ok [] key); [constructor|done].
Qed.
