(* ===== verification/LvDbFormat.v ===== *)
(** * leveldb: internal keys (db/dbformat.h, db/dbformat.cc)

    A user key followed by eight bytes of sequence number and type; the order
    on such keys, built over the user's comparator; and the key for lookups. *)
From Stdlib Require Import ZArith Lia Bool List.
From stdpp Require Import base list numbers.
From S2P Require Import Prelude LvCoding LvComparator.

Inductive ValueType := kTypeDeletion | kTypeValue.
Definition value_type_code (t : ValueType) : Z :=
  match t with kTypeDeletion => 0 | kTypeValue => 1 end.
Definition kValueTypeForSeek : ValueType := kTypeValue.
Definition kMaxSequenceNumber : Z := Z.shiftl 1 56 - 1.

#[global] Instance ValueType_eq_dec : EqDecision ValueType.
Proof. solve_decision. Defined.

Record ParsedInternalKey := ParsedKey { user_key : list Z; sequence : Z; type : ValueType }.

Definition InternalKeyEncodingLength (key : ParsedInternalKey) : Z :=
  Z.of_nat (length (user_key key)) + 8.

Definition PackSequenceAndType (seq : Z) (t : ValueType) : Z :=
  Z.lor (u64 (Z.shiftl seq 8)) (value_type_code t).

Definition AppendInternalKey (result : list Z) (key : ParsedInternalKey) : list Z :=
  PutFixed64 (result ++ user_key key) (PackSequenceAndType (sequence key) (type key)).

Definition ExtractUserKey (internal_key : list Z) : list Z :=
  take (length internal_key - 8) internal_key.

(** [DecodeFixed64] of the last eight bytes. *)
Definition ExtractTag (internal_key : list Z) : Z :=
  DecodeFixed64 (drop (length internal_key - 8) internal_key).

Definition ParseInternalKey (internal_key : list Z) : option ParsedInternalKey :=
  if (length internal_key <? 8)%nat then None else
  let num := ExtractTag internal_key in
  let c := Z.land num 0xff in
  if c =? value_type_code kTypeValue then
    Some (ParsedKey (ExtractUserKey internal_key) (Z.shiftr num 8) kTypeValue)
  else if c =? value_type_code kTypeDeletion then
    Some (ParsedKey (ExtractUserKey internal_key) (Z.shiftr num 8) kTypeDeletion)
  else None.

(** ** The comparator of internal keys *)

Section Internal.
Context (user_comparator : Comparator).
Notation user_compare := (@Compare user_comparator).

Definition internal_compare (akey bkey : list Z) : Z :=
  let r := user_compare (ExtractUserKey akey) (ExtractUserKey bkey) in
  if r =? 0 then
    let anum := ExtractTag akey in
    let bnum := ExtractTag bkey in
    if bnum <? anum then -1 else if anum <? bnum then 1 else r
  else r.

Definition internal_separator (start limit : list Z) : list Z :=
  let user_start := ExtractUserKey start in
  let user_limit := ExtractUserKey limit in
  let tmp := @FindShortestSeparator user_comparator user_start user_limit in
  if (length tmp <? length user_start)%nat && (user_compare user_start tmp <? 0) then
    PutFixed64 tmp (PackSequenceAndType kMaxSequenceNumber kValueTypeForSeek)
  else start.

Definition internal_successor (key : list Z) : list Z :=
  let user_key := ExtractUserKey key in
  let tmp := @FindShortSuccessor user_comparator user_key in
  if (length tmp <? length user_key)%nat && (user_compare user_key tmp <? 0) then
    PutFixed64 tmp (PackSequenceAndType kMaxSequenceNumber kValueTypeForSeek)
  else key.

Definition InternalKeyComparator : Comparator := {|
  Compare := internal_compare;
  FindShortestSeparator := internal_separator;
  FindShortSuccessor := internal_successor;
|}.

End Internal.

(** ** Keys for lookups *)

(** The array between [start_] and [end_]; [kstart_] is behind the length. *)
Record LookupKey := Lookup { klength : list Z; kdata : list Z }.

Definition make_LookupKey (user_key : list Z) (s : Z) : LookupKey :=
  Lookup (EncodeVarint32 (u32 (Z.of_nat (length user_key) + 8)))
         (user_key ++ EncodeFixed64 (PackSequenceAndType s kValueTypeForSeek)).

Definition memtable_key (k : LookupKey) : list Z := klength k ++ kdata k.
Definition lookup_internal_key (k : LookupKey) : list Z := kdata k.
Definition lookup_user_key (k : LookupKey) : list Z := take (length (kdata k) - 8) (kdata k).

(** ** Parsing and printing *)

Lemma Pack_value seq t :
  0 <= seq < 2 ^ 56 -> PackSequenceAndType seq t = seq * 256 + value_type_code t /\
  0 <= PackSequenceAndType seq t < 2 ^ 64.
Proof.
  intros H. unfold PackSequenceAndType.
  rewrite wrapu_small by (rewrite Z.shiftl_mul_pow2 by lia; lia).
  assert (Ht : 0 <= value_type_code t < 2) by (destruct t; simpl; lia).
  rewrite Z.lor_comm, lor_shiftl_add by lia. zpow. lia.
Qed.

Lemma Extract_app k v :
  ExtractUserKey (k ++ EncodeFixed64 v) = k /\
  ExtractTag (k ++ EncodeFixed64 v) = DecodeFixed64 (EncodeFixed64 v).
Proof.
  unfold ExtractUserKey, ExtractTag. rewrite length_app, length_EncodeFixed64.
  replace (length k + 8 - 8)%nat with (length k) by lia.
  now rewrite take_app_length, drop_app_length.
Qed.

Lemma Extract_Put k v :
  0 <= v < 2 ^ 64 ->
  ExtractUserKey (PutFixed64 k v) = k /\ ExtractTag (PutFixed64 k v) = v.
Proof.
  intros H. destruct (Extract_app k v) as [E1 E2]. unfold PutFixed64. split; [done|].
  rewrite E2, <- (app_nil_r (EncodeFixed64 v)). now apply Fixed64_roundtrip.
Qed.

Lemma tag_fields seq t :
  0 <= seq < 2 ^ 56 ->
  Z.land (PackSequenceAndType seq t) 0xff = value_type_code t /\
  Z.shiftr (PackSequenceAndType seq t) 8 = seq.
Proof.
  intros H. destruct (Pack_value seq t H) as [-> _].
  assert (Ht : 0 <= value_type_code t < 2) by (destruct t; simpl; lia).
  rewrite land_255, shiftr_div by lia. zpow. split.
  - rewrite Z.add_comm, Z.mod_add by lia. apply Z.mod_small. lia.
  - rewrite Z.div_add_l, Z.div_small by lia. lia.
Qed.

Lemma Parse_Append key :
  0 <= sequence key < 2 ^ 56 -> ParseInternalKey (AppendInternalKey [] key) = Some key.
Proof.
  intros H. destruct key as [k s t]. simpl in H. unfold AppendInternalKey. simpl.
  destruct (Pack_value s t H) as [_ Hr]. destruct (Extract_Put k _ Hr) as [E1 E2].
  destruct (tag_fields s t H) as [E3 E4].
  unfold ParseInternalKey. rewrite E1, E2, E3, E4.
  unfold PutFixed64. rewrite length_app, length_EncodeFixed64.
  destruct (Nat.ltb_spec (length k + 8) 8); [lia|]. now destruct t.
Qed.

(** ** The comparator keeps its promises *)

(** An internal key is long enough and its user key is one of the user's. *)
Definition internal_valid (valid : list Z -> Prop) (k : list Z) : Prop :=
  (8 <= length k)%nat /\ valid (ExtractUserKey k).

Lemma internal_valid_Put (valid : list Z -> Prop) k v :
  0 <= v < 2 ^ 64 -> valid k -> internal_valid valid (PutFixed64 k v).
Proof.
  intros Hv Hk. split.
  - unfold PutFixed64. rewrite length_app, length_EncodeFixed64. lia.
  - now rewrite (proj1 (Extract_Put k v Hv)).
Qed.

Section InternalLaws.
Context {C : Comparator} {valid : list Z -> Prop} {L : ComparatorLaws C valid}.
Notation seek_tag := (PackSequenceAndType kMaxSequenceNumber kValueTypeForSeek).

Lemma seek_tag_range : 0 <= seek_tag < 2 ^ 64.
Proof. vm_compute. split; [discriminate|reflexivity]. Qed.

(** The lexicographic reading of the code. *)
Lemma internal_compare_lt a b :
  internal_compare C a b < 0 <->
  Compare (ExtractUserKey a) (ExtractUserKey b) < 0 \/
  Compare (ExtractUserKey a) (ExtractUserKey b) = 0 /\ ExtractTag b < ExtractTag a.
Proof. unfold internal_compare. repeat (bcase; try lia). Qed.

Lemma internal_compare_gt a b :
  0 < internal_compare C a b <->
  0 < Compare (ExtractUserKey a) (ExtractUserKey b) \/
  Compare (ExtractUserKey a) (ExtractUserKey b) = 0 /\ ExtractTag a < ExtractTag b.
Proof. unfold internal_compare. repeat (bcase; try lia). Qed.

Lemma internal_compare_le a b :
  internal_compare C a b <= 0 <->
  Compare (ExtractUserKey a) (ExtractUserKey b) < 0 \/
  Compare (ExtractUserKey a) (ExtractUserKey b) = 0 /\ ExtractTag b <= ExtractTag a.
Proof. pose proof (internal_compare_gt a b). lia. Qed.

Lemma internal_compare_eq a b :
  internal_compare C a b = 0 <->
  Compare (ExtractUserKey a) (ExtractUserKey b) = 0 /\ ExtractTag a = ExtractTag b.
Proof. pose proof (internal_compare_lt a b). pose proof (internal_compare_gt a b). lia. Qed.

Lemma internal_trans a b c :
  internal_valid valid a -> internal_valid valid b -> internal_valid valid c ->
  internal_compare C a b <= 0 -> internal_compare C b c <= 0 -> internal_compare C a c <= 0.
Proof.
  intros [_ Ha] [_ Hb] [_ Hc]. rewrite !internal_compare_le.
  intros [H1|[H1 T1]] [H2|[H2 T2]].
  - left. apply (Compare_lt_le_trans _ (ExtractUserKey b)); try done. lia.
  - left. apply (Compare_lt_le_trans _ (ExtractUserKey b)); try done. lia.
  - left. apply (Compare_le_lt_trans _ (ExtractUserKey b)); try done. lia.
  - right. split; [|lia]. now apply (Compare_eq_trans _ (ExtractUserKey b)).
Qed.

#[global] Instance internal_laws : ComparatorLaws (InternalKeyComparator C) (internal_valid valid).
Proof.
  pose proof seek_tag_range as Hr.
  split; simpl.
  - intros a b [_ Ha] [_ Hb]. rewrite internal_compare_lt, internal_compare_gt.
    pose proof (Compare_antisym _ _ Ha Hb). pose proof (Compare_antisym _ _ Hb Ha). lia.
  - apply internal_trans.
  - intros start limit [H1 Hs] [H2 Hl]. unfold internal_separator.
    destruct (_ && _); [|done]. apply internal_valid_Put; [done|]. now apply Separator_valid.
  - intros start limit [H1 Hs] [H2 Hl] Hlt. unfold internal_separator.
    assert (Hself : internal_compare C start start <= 0 /\ internal_compare C start limit < 0).
    { split; [|done]. apply internal_compare_le. right. rewrite (Compare_refl _ Hs). lia. }
    destruct (_ && _) eqn:E; [|done]. b2p.
    destruct (Extract_Put (FindShortestSeparator (ExtractUserKey start) (ExtractUserKey limit)) _ Hr)
      as [E1 E2].
    rewrite internal_compare_le, internal_compare_lt, E1.
    apply internal_compare_lt in Hlt as [Hlt|[Heq _]].
    + split; left; [done|]. now apply Separator_ok.
    + pose proof (Separator_same _ _ Hs Hl Heq). lia.
  - intros start limit [H1 Hs] [H2 Hl] [Heq Ht]%internal_compare_eq. unfold internal_separator.
    rewrite (Separator_same _ _ Hs Hl Heq). cbn [Z.ltb Z.compare]. rewrite andb_false_r.
    apply internal_compare_eq. now rewrite (Compare_refl _ Hs).
  - intros key [H1 Hk]. unfold internal_successor.
    destruct (_ && _); [|done]. apply internal_valid_Put; [done|]. now apply Successor_valid.
  - intros key [H1 Hk]. unfold internal_successor.
    destruct (_ && _) eqn:E.
    + b2p. apply internal_compare_le. left.
      now rewrite (proj1 (Extract_Put (FindShortSuccessor (ExtractUserKey key)) _ Hr)).
    + apply internal_compare_le. right. rewrite (Compare_refl _ Hk). lia.
Qed.

End InternalLaws.
