(* ===== verification/LvWriteBatch.v ===== *)
(** * leveldb: write batches (include/leveldb/write_batch.h, db/write_batch.cc)

    A batch is one string: a header of sequence number and count, then the
    updates.  The operations that build it, the iteration that decodes it into
    calls of a handler, and the invariant that ties them together. *)
From Stdlib Require Import ZArith Lia Bool List String.
From stdpp Require Import base list numbers.
From S2P Require Import Prelude LvCoding LvEnv LvDbFormat.

(** [WriteBatch::rep_] *)
Definition WriteBatch := list Z.

Definition kHeader : nat := 12.

Definition Clear : WriteBatch := replicate kHeader 0.

(** Writing [bytes] over a string at position [i]. *)
Definition overwrite (i : nat) (bytes rep : list Z) : list Z :=
  take i rep ++ bytes ++ drop (i + length bytes) rep.

Definition Count (b : WriteBatch) : Z := s32 (DecodeFixed32 (drop 8 b)).
Definition SetCount (b : WriteBatch) (n : Z) : WriteBatch := overwrite 8 (EncodeFixed32 (u32 n)) b.
Definition Sequence (b : WriteBatch) : Z := DecodeFixed64 b.
Definition SetSequence (b : WriteBatch) (seq : Z) : WriteBatch := overwrite 0 (EncodeFixed64 seq) b.

Definition Contents (b : WriteBatch) : list Z := b.
Definition ByteSize (b : WriteBatch) : Z := Z.of_nat (length b).
Definition SetContents (contents : list Z) : WriteBatch := contents.

Definition Put (b : WriteBatch) (key value : list Z) : WriteBatch :=
  let b := SetCount b (Count b + 1) in
  let b := b ++ [value_type_code kTypeValue] in
  let b := PutLengthPrefixedSlice b key in
  PutLengthPrefixedSlice b value.

Definition Delete (b : WriteBatch) (key : list Z) : WriteBatch :=
  let b := SetCount b (Count b + 1) in
  let b := b ++ [value_type_code kTypeDeletion] in
  PutLengthPrefixedSlice b key.

Definition AppendBatch (dst src : WriteBatch) : WriteBatch :=
  SetCount dst (Count dst + Count src) ++ drop kHeader src.

(** [WriteBatch::Handler] *)
Class Handler (H : Type) := {
  handler_Put : H -> list Z -> list Z -> H;
  handler_Delete : H -> list Z -> H;
}.

Section Iterate.
Context {H : Type} {HH : Handler H}.

(** The loop of [Iterate]: every round takes at least the tag. *)
Fixpoint Iterate_loop (fuel : nat) (input : list Z) (found : Z) (h : H) : Status * Z * H :=
  match fuel with
  | O => (OK, found, h)
  | S fuel =>
      match input with
      | [] => (OK, found, h)
      | tag :: input =>
          let found := found + 1 in
          if s8 tag =? value_type_code kTypeValue then
            match GetLengthPrefixedSlice input with
            | Some (key, input) =>
                match GetLengthPrefixedSlice input with
                | Some (value, input) => Iterate_loop fuel input found (handler_Put h key value)
                | None => (Corruption "bad WriteBatch Put", found, h)
                end
            | None => (Corruption "bad WriteBatch Put", found, h)
            end
          else if s8 tag =? value_type_code kTypeDeletion then
            match GetLengthPrefixedSlice input with
            | Some (key, input) => Iterate_loop fuel input found (handler_Delete h key)
            | None => (Corruption "bad WriteBatch Delete", found, h)
            end
          else (Corruption "unknown WriteBatch tag", found, h)
      end
  end.

Definition Iterate (b : WriteBatch) (h : H) : Status * H :=
  if (length b <? kHeader)%nat then (Corruption "malformed WriteBatch (too small)", h)
  else
    let input := drop kHeader b in
    let '(s, found, h) := Iterate_loop (length input) input 0 h in
    if negb (ok s) then (s, h)
    else if negb (found =? Count b) then (Corruption "WriteBatch has wrong count", h)
    else (OK, h).

End Iterate.

(** ** What a batch stands for *)

Inductive update := UPut (key value : list Z) | UDelete (key : list Z).

Definition enc_slice (s : list Z) : list Z := PutLengthPrefixedSlice [] s.

Definition enc_update (u : update) : list Z :=
  match u with
  | UPut key value => value_type_code kTypeValue :: enc_slice key ++ enc_slice value
  | UDelete key => value_type_code kTypeDeletion :: enc_slice key
  end.

Definition enc_updates (l : list update) : list Z := concat (map enc_update l).

(** Keys and values are byte strings whose length fits 32 bits. *)
Definition slice_ok (s : list Z) : Prop := is_bytes s /\ Z.of_nat (length s) < 2 ^ 32.
Definition update_ok (u : update) : Prop :=
  match u with
  | UPut key value => slice_ok key /\ slice_ok value
  | UDelete key => slice_ok key
  end.

(** The representation of the updates [l] from sequence number [seq]. *)
Definition batch_is (b : WriteBatch) (seq : Z) (l : list update) : Prop :=
  b = EncodeFixed64 seq ++ EncodeFixed32 (Z.of_nat (length l)) ++ enc_updates l.

Definition run_handler {H} {HH : Handler H} (h : H) (u : update) : H :=
  match u with
  | UPut key value => handler_Put h key value
  | UDelete key => handler_Delete h key
  end.

Lemma PutLengthPrefixedSlice_app dst s : PutLengthPrefixedSlice dst s = dst ++ enc_slice s.
Proof. unfold enc_slice, PutLengthPrefixedSlice, PutVarint32. simpl. now rewrite <- app_assoc. Qed.

Lemma enc_slice_bytes s : slice_ok s -> is_bytes (enc_slice s).
Proof.
  intros [Hb Hl]. unfold enc_slice, PutLengthPrefixedSlice, PutVarint32. simpl.
  apply is_bytes_app. split; [|done]. apply EncodeVarint32_bytes. apply wrapu_range. lia.
Qed.

Lemma enc_update_bytes u : update_ok u -> is_bytes (enc_update u).
Proof.
  destruct u; simpl; [intros [H1 H2]|intros H1]; apply is_bytes_cons;
    (split; [unfold is_byte; simpl; lia|]).
  - apply is_bytes_app. split; now apply enc_slice_bytes.
  - now apply enc_slice_bytes.
Qed.

Lemma enc_updates_bytes l : Forall update_ok l -> is_bytes (enc_updates l).
Proof.
  induction 1 as [|u l Hu _ IH]; [constructor|]. unfold enc_updates. simpl.
  apply is_bytes_app. split; [now apply enc_update_bytes|done].
Qed.

Lemma Get_enc_slice s rest :
  slice_ok s -> is_bytes rest -> GetLengthPrefixedSlice (enc_slice s ++ rest) = Some (s, rest).
Proof. intros [Hb Hl] Hr. now apply GetLengthPrefixedSlice_Put. Qed.

Lemma enc_updates_app l l' : enc_updates (l ++ l') = enc_updates l ++ enc_updates l'.
Proof. unfold enc_updates. now rewrite map_app, concat_app. Qed.

(** ** The operations keep the representation *)

Section Header.
Context (b : WriteBatch) (seq : Z) (l : list update) (Hb : batch_is b seq l).

Lemma batch_length : (kHeader <= length b)%nat.
Proof. rewrite Hb. unfold kHeader. rewrite !length_app. simpl. lia. Qed.

Lemma batch_data : drop kHeader b = enc_updates l.
Proof. now rewrite Hb. Qed.

Lemma batch_count : Z.of_nat (length l) < 2 ^ 31 -> Count b = Z.of_nat (length l).
Proof.
  intros Hl. unfold Count.
  replace (drop 8 b) with (EncodeFixed32 (Z.of_nat (length l)) ++ enc_updates l) by now rewrite Hb.
  rewrite Fixed32_roundtrip by (zpow; lia). apply wraps_small; [lia|]. simpl. zpow. lia.
Qed.

Lemma batch_sequence : 0 <= seq < 2 ^ 64 -> Sequence b = seq.
Proof. intros Hs. unfold Sequence. rewrite Hb. now apply Fixed64_roundtrip. Qed.

Lemma batch_SetCount n l' :
  u32 n = Z.of_nat (length (l ++ l')) ->
  batch_is (SetCount b n ++ enc_updates l') seq (l ++ l').
Proof.
  intros E. unfold SetCount, overwrite, batch_is. rewrite E, Hb, enc_updates_app. reflexivity.
Qed.

Lemma batch_SetSequence seq' : batch_is (SetSequence b seq') seq' l.
Proof. unfold SetSequence, overwrite, batch_is. now rewrite Hb. Qed.

End Header.

Lemma Clear_batch : batch_is Clear 0 [].
Proof. reflexivity. Qed.

Lemma count_step n : 0 <= n < 2 ^ 31 - 1 -> u32 (n + 1) = n + 1.
Proof. intros. apply wrapu_small. lia. Qed.

Lemma Put_batch b seq l key value :
  batch_is b seq l -> Z.of_nat (length l) + 1 < 2 ^ 31 ->
  batch_is (Put b key value) seq (l ++ [UPut key value]).
Proof.
  intros Hb Hl. unfold Put. rewrite !PutLengthPrefixedSlice_app, <- !app_assoc.
  rewrite (batch_count b seq l Hb) by lia.
  replace ([value_type_code kTypeValue] ++ enc_slice key ++ enc_slice value)
    with (enc_updates [UPut key value]) by (unfold enc_updates; simpl; now rewrite app_nil_r).
  apply batch_SetCount; [done|]. rewrite length_app, count_step by lia. simpl. lia.
Qed.

Lemma Delete_batch b seq l key :
  batch_is b seq l -> Z.of_nat (length l) + 1 < 2 ^ 31 ->
  batch_is (Delete b key) seq (l ++ [UDelete key]).
Proof.
  intros Hb Hl. unfold Delete. rewrite !PutLengthPrefixedSlice_app, <- !app_assoc.
  rewrite (batch_count b seq l Hb) by lia.
  replace ([value_type_code kTypeDeletion] ++ enc_slice key)
    with (enc_updates [UDelete key]) by (unfold enc_updates; simpl; now rewrite app_nil_r).
  apply batch_SetCount; [done|]. rewrite length_app, count_step by lia. simpl. lia.
Qed.

Lemma AppendBatch_batch b seq l b' seq' l' :
  batch_is b seq l -> batch_is b' seq' l' -> Z.of_nat (length l + length l') < 2 ^ 31 ->
  batch_is (AppendBatch b b') seq (l ++ l').
Proof.
  intros Hb Hb' Hl. unfold AppendBatch. rewrite (batch_data b' seq' l' Hb').
  rewrite (batch_count b seq l Hb), (batch_count b' seq' l' Hb') by lia.
  apply batch_SetCount; [done|]. rewrite length_app, Nat2Z.inj_add. apply wrapu_small. zpow. lia.
Qed.

(** ** Iteration decodes *)

Section IterateSpec.
Context {H : Type} {HH : Handler H}.

Lemma Iterate_loop_ok fuel l found (h : H) :
  Forall update_ok l -> (length (enc_updates l) <= fuel)%nat ->
  Iterate_loop fuel (enc_updates l) found h
  = (OK, found + Z.of_nat (length l), fold_left run_handler l h).
Proof.
  revert fuel found h; induction l as [|u l IH]; intros fuel found h Hl Hf.
  - simpl. rewrite Z.add_0_r. now destruct fuel.
  - apply List.Forall_cons_iff in Hl as [Hu Hl].
    pose proof (enc_updates_bytes l Hl) as Hb.
    change (enc_updates (u :: l)) with (enc_update u ++ enc_updates l) in *.
    rewrite length_app in Hf.
    destruct fuel as [|fuel]; [destruct u; simpl in Hf; lia|].
    cbn [length fold_left]. destruct u as [key value|key]; cbn [enc_update app] in *;
      simpl length in Hf; cbn [Iterate_loop].
    + change (s8 (value_type_code kTypeValue) =? value_type_code kTypeValue) with true. cbv iota.
      destruct Hu as [Hk Hv]. rewrite <- app_assoc, Get_enc_slice; [|done|].
      2:{ apply is_bytes_app. split; [now apply enc_slice_bytes|done]. }
      rewrite Get_enc_slice by done. rewrite IH by (try done; rewrite length_app in Hf; lia).
      f_equal. f_equal. lia.
    + change (s8 (value_type_code kTypeDeletion) =? value_type_code kTypeValue) with false.
      change (s8 (value_type_code kTypeDeletion) =? value_type_code kTypeDeletion) with true.
      cbv iota. rewrite Get_enc_slice by done. rewrite IH by (try done; lia).
      f_equal. f_equal. lia.
Qed.

Lemma Iterate_ok b seq l (h : H) :
  batch_is b seq l -> Forall update_ok l -> Z.of_nat (length l) < 2 ^ 31 ->
  Iterate b h = (OK, fold_left run_handler l h).
Proof.
  intros Hb Hl Hn. unfold Iterate. pose proof (batch_length b seq l Hb) as Hk.
  destruct (Nat.ltb_spec (length b) kHeader); [lia|].
  rewrite (batch_data b seq l Hb), Iterate_loop_ok by (try done; lia).
  cbn [ok negb]. rewrite (batch_count b seq l Hb) by done. simpl. now rewrite Z.eqb_refl.
Qed.

End IterateSpec.

(** ** Batches built by the public operations *)

(** The batches a program can build, with the sequence number that was set last
    and the updates it asked for.  Appending keeps the number of the batch that is
    appended to. *)
Inductive numbered : WriteBatch -> Z -> list update -> Prop :=
  | numbered_Clear : numbered Clear 0 []
  | numbered_Put b seq l key value : numbered b seq l -> numbered (Put b key value) seq (l ++ [UPut key value])
  | numbered_Delete b seq l key : numbered b seq l -> numbered (Delete b key) seq (l ++ [UDelete key])
  | numbered_Append b seq l b' seq' l' : numbered b seq l -> numbered b' seq' l' -> numbered (AppendBatch b b') seq (l ++ l')
  | numbered_SetSequence b seq l seq' : numbered b seq l -> numbered (SetSequence b seq') seq' l.

Lemma numbered_is b seq l : numbered b seq l -> Z.of_nat (length l) < 2 ^ 31 -> batch_is b seq l.
Proof.
  induction 1; intros Hl; try (rewrite length_app in Hl; simpl in Hl).
  - apply Clear_batch.
  - apply Put_batch; [apply IHnumbered; lia|lia].
  - apply Delete_batch; [apply IHnumbered; lia|lia].
  - apply AppendBatch_batch with (seq' := seq'); [apply IHnumbered1; lia|apply IHnumbered2; lia|lia].
  - apply (batch_SetSequence _ seq). now apply IHnumbered.
Qed.

(** Batches with the updates of [l] and any number. *)
Definition built (b : WriteBatch) (l : list update) : Prop := exists seq, numbered b seq l.

Lemma built_Clear : built Clear [].
Proof. exists 0. apply numbered_Clear. Qed.
Lemma built_Put b l key value : built b l -> built (Put b key value) (l ++ [UPut key value]).
Proof. intros [seq H]. exists seq. now apply numbered_Put. Qed.
Lemma built_Delete b l key : built b l -> built (Delete b key) (l ++ [UDelete key]).
Proof. intros [seq H]. exists seq. now apply numbered_Delete. Qed.

Lemma built_is b l : built b l -> Z.of_nat (length l) < 2 ^ 31 -> exists seq, batch_is b seq l.
Proof. intros [seq H] Hl. exists seq. now apply numbered_is. Qed.

(** C30: A batch is faithful.  However a batch is built from the public
    operations, its sequence number is the one that was set last (the one of the
    first batch, when batches are appended), its count is the number of updates,
    and iterating over it makes exactly the calls of the handler that were asked
    for, in order, and succeeds, as long as there are fewer than 2^31 updates and
    every key and value is shorter than 4 GiB. *)
Theorem write_batch_faithful {H : Type} {HH : Handler H} (b : WriteBatch) (seq : Z) (l : list update) (h : H) :
  numbered b seq l -> 0 <= seq < 2 ^ 64 -> Forall update_ok l -> Z.of_nat (length l) < 2 ^ 31 ->
  Iterate b h = (OK, fold_left run_handler l h) /\ Count b = Z.of_nat (length l) /\ Sequence b = seq.
Proof.
  intros HB Hs Hu Hl. pose proof (numbered_is b seq l HB Hl) as E. split; [|split].
  - now apply Iterate_ok with (1 := E).
  - now apply batch_count with (1 := E).
  - now apply batch_sequence with (1 := E).
Qed.

(** A handler that records the calls. *)
#[global] Instance record_handler : Handler (list update) := {
  handler_Put h key value := h ++ [UPut key value];
  handler_Delete h key := h ++ [UDelete key];
}.

Lemma write_batch_faithful_witness :
  let b := AppendBatch (Put (SetSequence (Delete Clear [1; 2]) 300) [3] [4; 5]) (SetSequence (Put Clear [6] []) 7) in
  Iterate b [] = (OK, [UDelete [1; 2]; UPut [3] [4; 5]; UPut [6] []]) /\ Count b = 3 /\ Sequence b = 300.
Proof.
  intros b. apply (write_batch_faithful (HH := record_handler) b 300 ([UDelete [1; 2]; UPut [3] [4; 5]] ++ [UPut [6] []]) []).
  - apply numbered_Append with (seq' := 7).
    + apply (numbered_Put _ _ [UDelete [1; 2]]), numbered_SetSequence with (seq := 0). apply (numbered_Delete _ _ []). constructor.
    + apply numbered_SetSequence with (seq := 0). apply (numbered_Put _ _ []). constructor.
  - lia.
  - repeat constructor; simpl; try lia; unfold is_byte; lia.
  - simpl. lia.
Defined.
