(* ===== verification/LvSkipList.v ===== *)
(** * leveldb: the skip list (db/skiplist.h, util/random.h)

    Nodes are numbers, the head is node 0; [next_] holds the links of all
    nodes, absent for the null pointer.  [Insert] is a sequence of steps, each
    of which links the new node at one level, in the order in which the code
    publishes them to concurrent readers. *)
From Stdlib Require Import ZArith Lia Bool List Sorted Znumtheory.
From stdpp Require Import base list gmap numbers.
From S2P Require Import Prelude.

(** ** Random numbers *)

Definition Random_make (s : Z) : Z :=
  let seed := Z.land s 0x7fffffff in
  if (seed =? 0) || (seed =? 2147483647) then 1 else seed.

Definition Random_Next (seed : Z) : Z :=
  let M := 2147483647 in
  let A := 16807 in
  let product := u64 (seed * A) in
  let seed := u32 (Z.shiftr product 31 + Z.land product M) in
  if M <? seed then seed - M else seed.

(** The generator is multiplication modulo 2^31 - 1, and never leaves the
    range of its seeds. *)
Lemma Random_Next_mod seed :
  0 < seed < 2147483647 -> Random_Next seed = (seed * 16807) mod 2147483647 /\ 0 < Random_Next seed < 2147483647.
Proof.
  intros H. unfold Random_Next. rewrite (wrapu_small 64) by (zpow; lia).
  assert (El : forall x, Z.land x 2147483647 = x mod 2147483648)
    by (intros; change 2147483647 with (Z.ones 31); apply Z.land_ones; lia).
  rewrite El, shiftr_div by lia. zpow.
  set (p := seed * 16807).
  pose proof (Z.div_mod p 2147483648 ltac:(lia)) as E.
  pose proof (Z.mod_pos_bound p 2147483648 ltac:(lia)) as Hm.
  assert (Hd : 0 <= p / 2147483648 < 16807)
    by (split; [apply Z.div_pos; lia|apply Z.div_lt_upper_bound; lia]).
  set (q := p / 2147483648) in *. set (r := p mod 2147483648) in *.
  rewrite (wrapu_small 32) by (zpow; lia).
  assert (Hne : q + r <> 2147483647 /\ q + r <> 0 /\ q + r <> 2 * 2147483647).
  { assert (Hc : p mod 2147483647 <> 0).
    { intros D. apply Z.mod_divide in D; [|lia]. unfold p in D. rewrite Z.mul_comm in D.
      apply (Gauss 2147483647 16807 seed) in D; [|apply Zgcd_1_rel_prime; reflexivity].
      apply Z.divide_pos_le in D; lia. }
    assert (Hq : p mod 2147483647 = (q + r) mod 2147483647).
    { replace p with (q + r + q * 2147483647) by lia. apply Z.mod_add. lia. }
    repeat split; intros X; rewrite X in Hq; apply Hc; rewrite Hq; reflexivity. }
  assert (Ep : p mod 2147483647 = (q + r) mod 2147483647).
  { replace p with (q + r + q * 2147483647) by lia. apply Z.mod_add. lia. }
  rewrite Ep. destruct (Z.ltb_spec 2147483647 (q + r)).
  - split; [|lia]. symmetry. rewrite <- (Z.mod_small (q + r - 2147483647) 2147483647) by lia.
    rewrite <- (Z.mod_add (q + r - 2147483647) 1) by lia. f_equal. lia.
  - split; [|lia]. symmetry. apply Z.mod_small. lia.
Qed.


(** ** The list *)

Definition kMaxHeight : nat := 12.
Definition kBranching : Z := 4.

Record SkipList (K : Type) := Mk {
  key_ : gmap nat K;             (* the key of every node but the head *)
  next_ : gmap (nat * nat) nat;  (* (node, level) to the next node at that level *)
  max_height_ : nat;
  rnd_ : Z;
  fresh_ : nat;                  (* the node the arena gives out next *)
}.
Arguments Mk {K}. Arguments key_ {K}. Arguments next_ {K}. Arguments max_height_ {K}.
Arguments rnd_ {K}. Arguments fresh_ {K}.

Definition head_ : nat := 0.

Section Ops.
Context {K : Type} (compare_ : K -> K -> Z).

Definition make_SkipList : SkipList K := Mk ∅ ∅ 1 (Random_make 0xdeadbeef) 1.

Definition Next (s : SkipList K) (x n : nat) : option nat := next_ s !! (x, n).

Definition SetNext (x n : nat) (y : option nat) (s : SkipList K) : SkipList K :=
  Mk (key_ s) (partial_alter (fun _ => y) (x, n) (next_ s)) (max_height_ s) (rnd_ s) (fresh_ s).

Definition NewNode (k : K) (s : SkipList K) : nat * SkipList K :=
  (fresh_ s, Mk (<[fresh_ s := k]> (key_ s)) (next_ s) (max_height_ s) (rnd_ s) (S (fresh_ s))).

(** The loop of [RandomHeight], with at most [fuel] more increments. *)
Fixpoint RandomHeight_loop (fuel : nat) (height : nat) (rnd : Z) : nat * Z :=
  match fuel with
  | O => (height, rnd)
  | S fuel =>
      if (height <? kMaxHeight)%nat then
        let rnd := Random_Next rnd in
        if rnd mod kBranching =? 0 then RandomHeight_loop fuel (S height) rnd
        else (height, rnd)
      else (height, rnd)
  end.

Definition RandomHeight (s : SkipList K) : nat * SkipList K :=
  let '(h, r) := RandomHeight_loop kMaxHeight 1 (rnd_ s) in
  (h, Mk (key_ s) (next_ s) (max_height_ s) r (fresh_ s)).

(** A null node is after every key. *)
Definition KeyIsAfterNode (s : SkipList K) (key : K) (n : option nat) : bool :=
  match n with
  | None => false
  | Some n =>
      match key_ s !! n with
      | Some k => compare_ k key <? 0
      | None => false
      end
  end.

(** The search down the levels.  [prev] records, level by level, the last node
    before [key]; the callers that pass the null pointer ignore it. *)
Fixpoint FindGreaterOrEqual_loop (fuel : nat) (s : SkipList K) (key : K) (x level : nat)
    (prev : gmap nat nat) : option (option nat * gmap nat nat) :=
  match fuel with
  | O => None
  | S fuel =>
      let next := Next s x level in
      match next with
      | Some y =>
          if KeyIsAfterNode s key next then FindGreaterOrEqual_loop fuel s key y level prev
          else
            let prev := <[level := x]> prev in
            match level with
            | O => Some (next, prev)
            | S level => FindGreaterOrEqual_loop fuel s key x level prev
            end
      | None =>
          let prev := <[level := x]> prev in
          match level with
          | O => Some (next, prev)
          | S level => FindGreaterOrEqual_loop fuel s key x level prev
          end
      end
  end.

(** No search makes more steps than there are nodes at all levels. *)
Definition steps (s : SkipList K) : nat := kMaxHeight * S (size (key_ s)).

Definition FindGreaterOrEqual (s : SkipList K) (key : K) : option (option nat * gmap nat nat) :=
  FindGreaterOrEqual_loop (steps s) s key head_ (max_height_ s - 1) ∅.

Fixpoint FindLessThan_loop (fuel : nat) (s : SkipList K) (key : K) (x level : nat) : option nat :=
  match fuel with
  | O => None
  | S fuel =>
      let next := Next s x level in
      let stop := match next with
                  | None => true
                  | Some y =>
                      match key_ s !! y with
                      | Some k => 0 <=? compare_ k key
                      | None => true
                      end
                  end in
      if stop then
        match level with
        | O => Some x
        | S level => FindLessThan_loop fuel s key x level
        end
      else
        match next with
        | Some y => FindLessThan_loop fuel s key y level
        | None => None
        end
  end.

Definition FindLessThan (s : SkipList K) (key : K) : option nat :=
  FindLessThan_loop (steps s) s key head_ (max_height_ s - 1).

Fixpoint FindLast_loop (fuel : nat) (s : SkipList K) (x level : nat) : option nat :=
  match fuel with
  | O => None
  | S fuel =>
      match Next s x level with
      | None =>
          match level with
          | O => Some x
          | S level => FindLast_loop fuel s x level
          end
      | Some y => FindLast_loop fuel s y level
      end
  end.

Definition FindLast (s : SkipList K) : option nat :=
  FindLast_loop (steps s) s head_ (max_height_ s - 1).

(** One round of the last loop of [Insert]: node [x] at level [i]. *)
Definition Insert_link (x i : nat) (prev : gmap nat nat) (s : SkipList K) : SkipList K :=
  let p := default head_ (prev !! i) in
  let s := SetNext x i (Next s p i) s in
  SetNext p i (Some x) s.

(** The levels below [i + n] from [i] on. *)
Fixpoint Insert_links (n i x : nat) (prev : gmap nat nat) (s : SkipList K) : SkipList K :=
  match n with
  | O => s
  | S n => Insert_links n (S i) x prev (Insert_link x i prev s)
  end.

(** [prev[i] = head_] for the levels the list did not have. *)
Fixpoint fill_prev (n i : nat) (prev : gmap nat nat) : gmap nat nat :=
  match n with
  | O => prev
  | S n => fill_prev n (S i) (<[i := head_]> prev)
  end.

Definition set_max_height (h : nat) (s : SkipList K) : SkipList K :=
  Mk (key_ s) (next_ s) h (rnd_ s) (fresh_ s).

(** [Insert] up to its last loop: the height, the nodes to link behind, the
    new node, and the state before the first link. *)
Definition Insert_prepare (s : SkipList K) (key : K)
    : option (nat * gmap nat nat * nat * SkipList K) :=
  match FindGreaterOrEqual s key with
  | None => None
  | Some (_, prev) =>
      let '(height, s) := RandomHeight s in
      let '(prev, s) :=
        if (max_height_ s <? height)%nat then
          (fill_prev (height - max_height_ s) (max_height_ s) prev, set_max_height height s)
        else (prev, s) in
      let '(x, s) := NewNode key s in
      Some (height, prev, x, s)
  end.

Definition Insert (s : SkipList K) (key : K) : option (SkipList K) :=
  match Insert_prepare s key with
  | None => None
  | Some (height, prev, x, s) => Some (Insert_links height 0 x prev s)
  end.

Definition Contains (s : SkipList K) (key : K) : option bool :=
  match FindGreaterOrEqual s key with
  | None => None
  | Some (Some x, _) =>
      match key_ s !! x with
      | Some k => Some (compare_ key k =? 0)
      | None => None
      end
  | Some (None, _) => Some false
  end.

(** *** The iterator: a node or the null pointer *)

Definition Iter_Valid (node : option nat) : bool := match node with Some _ => true | None => false end.
Definition Iter_key (s : SkipList K) (node : option nat) : option K :=
  match node with Some n => key_ s !! n | None => None end.
Definition Iter_Next (s : SkipList K) (node : option nat) : option nat :=
  match node with Some n => Next s n 0 | None => None end.
Definition Iter_Seek (s : SkipList K) (target : K) : option (option nat) :=
  fst <$> FindGreaterOrEqual s target.
Definition Iter_SeekToFirst (s : SkipList K) : option nat := Next s head_ 0.
Definition null_head (n : nat) : option nat := if (n =? head_)%nat then None else Some n.
Definition Iter_Prev (s : SkipList K) (node : option nat) : option (option nat) :=
  match Iter_key s node with
  | Some k => null_head <$> FindLessThan s k
  | None => None
  end.
Definition Iter_SeekToLast (s : SkipList K) : option (option nat) := null_head <$> FindLast s.

End Ops.
