(* ===== verification/LvSkipListProps.v ===== *)
(** * leveldb: the skip list keeps a sorted set (theorems about LvSkipList)

    The invariant of the links, its preservation by every single step of an
    insertion, and what searches and iterators find. *)
From Stdlib Require Import ZArith Lia Bool List Sorted.
From stdpp Require Import base list gmap numbers sorting.
From S2P Require Import Prelude LvSkipList.

(** What the list needs of its comparator. *)
Class KeyOrder {K : Type} (compare_ : K -> K -> Z) (valid : K -> Prop) : Prop := {
  key_antisym a b : valid a -> valid b -> (compare_ a b < 0 <-> 0 < compare_ b a);
  key_trans a b c : valid a -> valid b -> valid c ->
    compare_ a b <= 0 -> compare_ b c <= 0 -> compare_ a c <= 0;
}.

Section Order.
Context {K : Type} {compare_ : K -> K -> Z} {valid : K -> Prop} {KO : KeyOrder compare_ valid}.

Lemma key_lt_irrefl a : valid a -> ~ compare_ a a < 0.
Proof. intros Ha H. pose proof (key_antisym a a Ha Ha). lia. Qed.

Lemma key_lt_le_trans a b c : valid a -> valid b -> valid c ->
  compare_ a b < 0 -> compare_ b c <= 0 -> compare_ a c < 0.
Proof.
  intros Ha Hb Hc H1 H2. destruct (Z.lt_ge_cases (compare_ a c) 0) as [?|G]; [done|].
  pose proof (key_antisym c a Hc Ha). pose proof (key_antisym a c Ha Hc).
  assert (compare_ b a <= 0) by (apply (key_trans b c a); try done; lia).
  pose proof (key_antisym a b Ha Hb). lia.
Qed.

Lemma key_le_lt_trans a b c : valid a -> valid b -> valid c ->
  compare_ a b <= 0 -> compare_ b c < 0 -> compare_ a c < 0.
Proof.
  intros Ha Hb Hc H1 H2. destruct (Z.lt_ge_cases (compare_ a c) 0) as [?|G]; [done|].
  pose proof (key_antisym c a Hc Ha). pose proof (key_antisym a c Ha Hc).
  assert (compare_ c b <= 0) by (apply (key_trans c a b); try done; lia).
  pose proof (key_antisym b c Hb Hc). lia.
Qed.

End Order.

Section SkipListProps.
Context {K : Type} {compare_ : K -> K -> Z} {valid : K -> Prop} {KO : KeyOrder compare_ valid}.
Implicit Types (s : SkipList K) (L : nat -> list nat).

(** ** Chains and the invariant *)

(** From [x], the links of level [i] lead through [l] to the null pointer. *)
Fixpoint chain s (i x : nat) (l : list nat) : Prop :=
  match l with
  | [] => Next s x i = None
  | y :: l => Next s x i = Some y /\ chain s i y l
  end.

Definition less s (a b : nat) : Prop :=
  exists ka kb, key_ s !! a = Some ka /\ key_ s !! b = Some kb /\ compare_ ka kb < 0.

(** [L i] are the nodes of level [i]: all levels are sorted, each is part of
    the one below, and there are none above [max_height_]. *)
Record inv s L : Prop := {
  inv_chain i : (i < kMaxHeight)%nat -> chain s i head_ (L i);
  inv_sub i : (S i < kMaxHeight)%nat -> L (S i) `sublist_of` L i;
  inv_sorted : StronglySorted (less s) (L 0%nat);
  inv_top i : (max_height_ s <= i)%nat -> L i = [];
  inv_height : (1 <= max_height_ s <= kMaxHeight)%nat;
  inv_nodes n : n ∈ L 0%nat -> (head_ < n < fresh_ s)%nat /\ exists k, key_ s !! n = Some k /\ valid k;
  inv_fresh : (0 < fresh_ s)%nat;
}.

Lemma inv_sub0 s L i : inv s L -> (i < kMaxHeight)%nat -> L i `sublist_of` L 0%nat.
Proof.
  intros I. induction i as [|i IH]; intros Hi; [done|].
  etrans; [now apply I|apply IH; lia].
Qed.

Lemma less_sublist_sorted s (l l' : list nat) :
  StronglySorted (less s) l -> l' `sublist_of` l -> StronglySorted (less s) l'.
Proof.
  intros H Hs. induction Hs as [|x l1 l2 Hs IH|x l1 l2 Hs IH].
  - constructor.
  - apply StronglySorted_inv in H as [H1 H2]. constructor; [now apply IH|].
    rewrite Forall_forall in *. intros y Hy. apply H2. exact (elem_of_sublist _ _ y Hy Hs).
  - apply StronglySorted_inv in H as [H1 _]. now apply IH.
Qed.

Lemma inv_sorted_at s L i : inv s L -> (i < kMaxHeight)%nat -> StronglySorted (less s) (L i).
Proof. intros I Hi. eapply less_sublist_sorted; [apply I|now apply (inv_sub0 s)]. Qed.

Lemma sorted_NoDup s (l : list nat) :
  (forall n, n ∈ l -> exists k, key_ s !! n = Some k /\ valid k) ->
  StronglySorted (less s) l -> NoDup l.
Proof.
  induction l as [|x l IH]; intros Hk Hs; [constructor|].
  apply StronglySorted_inv in Hs as [H1 H2]. constructor.
  - intros Hx. rewrite Forall_forall in H2. destruct (H2 x Hx) as (ka & kb & E1 & E2 & Hlt).
    destruct (Hk x) as (k & Ek & Hv); [now left|]. simplify_eq. now apply (key_lt_irrefl _ Hv) in Hlt.
  - apply IH; [|done]. intros n Hn. apply Hk. now right.
Qed.

(** ** Before and after a key *)

Definition below s (key : K) (n : nat) : bool := KeyIsAfterNode compare_ s key (Some n).
Definition before s key (l : list nat) : list nat := List.filter (below s key) l.
Definition after s key (l : list nat) : list nat := List.filter (fun n => negb (below s key n)) l.

Definition keyed s (l : list nat) : Prop :=
  forall n, n ∈ l -> exists k, key_ s !! n = Some k /\ valid k.

Lemma keyed_cons s x l : keyed s (x :: l) -> keyed s l.
Proof. intros H n Hn. apply H. now right. Qed.

(** What is not after the key is followed by such nodes only. *)
Lemma below_mono s key a b :
  valid key -> keyed s [a; b] -> less s a b -> below s key b = true -> below s key a = true.
Proof.
  intros Hv Hk (ka & kb & Ea & Eb & Hlt). unfold below, KeyIsAfterNode. rewrite Ea, Eb.
  intros H%Z.ltb_lt. apply Z.ltb_lt.
  destruct (Hk a) as (k1 & E1 & V1); [now left|]. destruct (Hk b) as (k2 & E2 & V2); [now right; left|].
  simplify_eq. apply (key_lt_le_trans ka kb); try done. lia.
Qed.

Lemma before_none s key x l :
  valid key -> keyed s (x :: l) -> StronglySorted (less s) (x :: l) -> below s key x = false ->
  before s key l = [] /\ after s key l = l.
Proof.
  intros Hv Hk Hs Hx. apply StronglySorted_inv in Hs as [_ Hs].
  rewrite Forall_forall in Hs.
  assert (H : forall n, n ∈ l -> below s key n = false).
  { intros n Hn. destruct (below s key n) eqn:E; [|done].
    rewrite (below_mono s key x n) in Hx; try done; [|now apply Hs].
    intros m Hm. apply Hk. rewrite !elem_of_cons, elem_of_nil in Hm. destruct Hm as [->|[->|[]]];
      [now left|now right]. }
  clear -H. unfold before, after. induction l as [|y l IH]; [done|]. simpl.
  rewrite (H y) by now left. simpl. destruct IH as [-> ->]; [|done].
  intros n Hn. apply H. now right.
Qed.

Lemma before_after s key l :
  valid key -> keyed s l -> StronglySorted (less s) l -> l = before s key l ++ after s key l.
Proof.
  intros Hv. induction l as [|x l IH]; intros Hk Hs; [done|].
  destruct (below s key x) eqn:E.
  - unfold before, after. simpl. rewrite E. simpl. f_equal.
    apply IH; [now apply keyed_cons in Hk|now apply StronglySorted_inv in Hs].
  - destruct (before_none s key x l Hv Hk Hs E) as [E1 E2].
    unfold before, after in *. simpl. rewrite E. simpl. now rewrite E1, E2.
Qed.

Lemma filter_sublist (f : nat -> bool) (l l' : list nat) :
  l `sublist_of` l' -> List.filter f l `sublist_of` List.filter f l'.
Proof. induction 1; simpl; [done| |]; destruct (f x); try constructor; done. Qed.

(** ** Searching *)

(** Following a chain behind a prefix of it. *)
Lemma chain_skip s i x a b : chain s i x (a ++ b) -> chain s i (List.last a x) b.
Proof.
  revert x; induction a as [|y a IH]; intros x H; [done|].
  destruct H as [_ H]. specialize (IH y H). destruct a; [done|].
  replace (List.last (y :: n :: a) x) with (List.last (n :: a) y); [done|].
  clear. revert n. induction a as [|m a IH]; intros n; [done|]. simpl in *. apply IH.
Qed.

Lemma last_app (a b : list nat) x : List.last (a ++ b) x = List.last b (List.last a x).
Proof.
  revert x; induction a as [|y a IH]; intros x; [done|].
  destruct a as [|z a]; simpl in *; [|apply IH].
  clear. destruct b as [|n b]; [done|]. revert n. induction b as [|m b IH]; intros n; [done|].
  simpl in *. apply IH.
Qed.

Lemma last_cons y (l : list nat) x : List.last (y :: l) x = List.last l y.
Proof. apply (last_app [y] l x). Qed.

(** One level of the search: from [x] over the nodes of [post] before the key. *)
Lemma search_level fuel s key i x post prev :
  valid key -> keyed s post -> StronglySorted (less s) post -> chain s i x post ->
  let x1 := List.last (before s key post) x in
  FindGreaterOrEqual_loop compare_ (length (before s key post) + S fuel) s key x i prev
  = match i with
    | O => Some (head (after s key post), <[i := x1]> prev)
    | S j => FindGreaterOrEqual_loop compare_ fuel s key x1 j (<[i := x1]> prev)
    end.
Proof.
  intros Hv. revert x; induction post as [|y post IH]; intros x Hk Hs Hc.
  - simpl in *. rewrite Hc. now destruct i.
  - destruct Hc as [Hn Hc]. destruct (below s key y) eqn:E.
    + unfold before, after in *. simpl. rewrite E. cbn [length Nat.add FindGreaterOrEqual_loop negb].
      rewrite Hn. unfold below in E. rewrite E.
      rewrite IH; [|now apply keyed_cons in Hk|now apply StronglySorted_inv in Hs|done].
      change (match List.filter (below s key) post with [] => y | _ :: _ => _ end)
        with (List.last (y :: List.filter (below s key) post) x).
      now rewrite last_cons.
    + destruct (before_none s key y post Hv Hk Hs E) as [E1 E2].
      unfold before, after in *. simpl. rewrite E. simpl. rewrite E1. cbn [length Nat.add List.last].
      cbn [FindGreaterOrEqual_loop]. rewrite Hn. unfold below in E. rewrite E.
      now destruct i.
Qed.

(** A node before the key splits the level it is on into nodes before the key
    and the rest. *)
Lemma split_level s key l x :
  valid key -> keyed s l -> StronglySorted (less s) l ->
  x = head_ \/ x ∈ l /\ below s key x = true ->
  exists pre post, l = pre ++ post /\ x = List.last pre head_ /\
    before s key l = pre ++ before s key post /\ after s key l = after s key post.
Proof.
  intros Hv Hk Hs [->|[Hx Hb]]; [exists [], l; done|].
  apply list_elem_of_split in Hx as (p1 & p2 & ->).
  exists (p1 ++ [x]), p2. split; [now rewrite <- app_assoc|]. split; [now rewrite last_app|].
  assert (Hp : forall n, n ∈ p1 -> below s key n = true).
  { intros n Hn. apply (below_mono s key n x); try done.
    - intros m Hm. apply Hk. rewrite !elem_of_cons, elem_of_nil in Hm.
      destruct Hm as [->|[->|[]]]; apply elem_of_app; [now left|right; now left].
    - apply (StronglySorted_app_1_elem_of _ p1 (x :: p2)); [done|done|now left]. }
  unfold before, after. rewrite !List.filter_app. simpl. rewrite Hb. simpl.
  assert (E : List.filter (below s key) p1 = p1 /\
              List.filter (fun n => negb (below s key n)) p1 = []).
  { clear -Hp. induction p1 as [|n p1 IH]; [done|]. simpl. rewrite (Hp n) by now left. simpl.
    destruct IH as [-> ->]; [|done]. intros m Hm. apply Hp. now right. }
  destruct E as [-> ->]. now rewrite <- app_assoc.
Qed.

Lemma last_In (l : list nat) x : List.last l x = x \/ List.last l x ∈ l.
Proof.
  revert x; induction l as [|y l IH]; intros x; [now left|]. right. rewrite last_cons.
  destruct (IH y) as [->|H]; [now left|now right].
Qed.

Lemma before_In s key l n : n ∈ before s key l -> n ∈ l /\ below s key n = true.
Proof. unfold before. rewrite !list_elem_of_In. apply filter_In. Qed.

Lemma inv_keyed s L i : inv s L -> (i < kMaxHeight)%nat -> keyed s (L i).
Proof.
  intros I Hi n Hn. apply (inv_nodes _ _ I). eapply elem_of_sublist; [exact Hn|].
  now apply (inv_sub0 s).
Qed.

Lemma search_all s L key i fuel x prev :
  inv s L -> valid key -> (i < kMaxHeight)%nat ->
  x = head_ \/ x ∈ L i /\ below s key x = true ->
  (S i * S (length (L 0%nat)) <= fuel)%nat ->
  exists prev', FindGreaterOrEqual_loop compare_ fuel s key x i prev
                  = Some (head (after s key (L 0%nat)), prev') /\
    (forall j, (j <= i)%nat -> prev' !! j = Some (List.last (before s key (L j)) head_)) /\
    (forall j, (i < j)%nat -> prev' !! j = prev !! j).
Proof.
  intros I Hv. revert fuel x prev; induction i as [|i IH]; intros fuel x prev Hi Hx Hf;
    pose proof (inv_keyed s L _ I Hi) as Hk; pose proof (inv_sorted_at s L _ I Hi) as Hs;
    pose proof (sublist_length _ _ (inv_sub0 s L _ I Hi)) as Hl;
    destruct (split_level s key _ x Hv Hk Hs Hx) as (pre & post & E & Ex & Eb & Ea);
    pose proof (inv_chain s L I _ Hi) as Hc; rewrite E in Hc; apply chain_skip in Hc;
    rewrite <- Ex in Hc;
    (assert (Hk' : keyed s post) by (intros n Hn; apply Hk; rewrite E; apply elem_of_app; now right));
    (assert (Hs' : StronglySorted (less s) post)
       by (rewrite E in Hs; now apply StronglySorted_app_1_r in Hs));
    (assert (Hlb : (length (before s key post) <= length (L 0%nat))%nat)
       by (pose proof (f_equal length E) as HE; rewrite length_app in HE;
           etrans; [apply filter_length_le|]; lia));
    pose proof (f_equal (fun l => List.last l head_) Eb) as El; cbv beta in El;
    rewrite last_app, <- Ex in El.
  - replace fuel with (length (before s key post) + S (fuel - length (before s key post) - 1))%nat by lia.
    rewrite (search_level _ s key 0 x post prev Hv Hk' Hs' Hc).
    eexists. split; [now rewrite Ea|]. rewrite <- El. split.
    + intros j Hj. replace j with 0%nat by lia. now rewrite lookup_insert_eq.
    + intros j Hj. now rewrite lookup_insert_ne by lia.
  - replace fuel with (length (before s key post) + S (fuel - length (before s key post) - 1))%nat by lia.
    rewrite (search_level _ s key (S i) x post prev Hv Hk' Hs' Hc). rewrite <- El.
    set (x1 := List.last (before s key (L (S i))) head_).
    destruct (IH (fuel - length (before s key post) - 1)%nat x1 (<[S i := x1]> prev))
      as (prev' & E1 & E2 & E3).
    { lia. }
    { destruct (last_In (before s key (L (S i))) head_) as [H|H]; [now left|]. right.
      apply before_In in H as [H1 H2]. split; [|done].
      eapply elem_of_sublist; [exact H1|]. now apply (inv_sub s L I). }
    { lia. }
    exists prev'. split; [exact E1|]. split.
    + intros j Hj. destruct (Nat.eq_dec j (S i)) as [->|N]; [|apply E2; lia].
      rewrite E3 by lia. now rewrite lookup_insert_eq.
    + intros j Hj. rewrite E3 by lia. now rewrite lookup_insert_ne by lia.
Qed.

(** There are no more nodes than keys. *)
Lemma inv_size s L : inv s L -> (length (L 0%nat) <= size (key_ s))%nat.
Proof.
  intros I. assert (Hk : keyed s (L 0%nat)) by (apply inv_keyed; [done|unfold kMaxHeight; lia]).
  pose proof (sorted_NoDup s (L 0%nat) Hk (inv_sorted s L I)) as Hn.
  rewrite <- (size_list_to_set (C := gset nat)) by done. rewrite <- (size_dom (key_ s)).
  apply subseteq_size. intros n Hin%elem_of_list_to_set. apply elem_of_dom.
  destruct (Hk n Hin) as (k & -> & _). done.
Qed.

Lemma FindGreaterOrEqual_ok s L key :
  inv s L -> valid key ->
  exists prev, FindGreaterOrEqual compare_ s key = Some (head (after s key (L 0%nat)), prev) /\
    forall j, (j < max_height_ s)%nat -> prev !! j = Some (List.last (before s key (L j)) head_).
Proof.
  intros I Hv. pose proof (inv_height s L I) as Hh. pose proof (inv_size s L I) as Hn.
  destruct (search_all s L key (max_height_ s - 1) (steps s) head_ ∅ I Hv) as (prev & E1 & E2 & _).
  - lia.
  - now left.
  - unfold steps. unfold kMaxHeight in *. nia.
  - exists prev. split; [exact E1|]. intros j Hj. apply E2. lia.
Qed.

(** ** One link *)

Lemma Next_SetNext s x i y z j :
  Next (SetNext x i y s) z j = if decide ((x, i) = (z, j)) then y else Next s z j.
Proof.
  unfold Next, SetNext. simpl. case_decide as H.
  - rewrite <- H. now rewrite lookup_partial_alter_eq.
  - now rewrite lookup_partial_alter_ne.
Qed.

Lemma chain_ext s s' i x l :
  (forall y, y = x \/ y ∈ l -> Next s' y i = Next s y i) -> chain s i x l -> chain s' i x l.
Proof.
  revert x; induction l as [|y l IH]; intros x He; cbn [chain]; [rewrite (He x) by (now left); done|].
  rewrite (He x) by now left. intros [H1 H2]. split; [done|]. apply IH; [|done].
  intros z [->|Hz]; apply He; right; [now left|now right].
Qed.

(** Linking node [x] behind [a]: at the level of the link the node is between
    [a] and [b]. *)
Lemma chain_insert s s' x i h a b :
  (forall y, Next s' y i = if decide (y = List.last a h) then Some x
                           else if decide (y = x) then Next s (List.last a h) i else Next s y i) ->
  chain s i h (a ++ b) -> NoDup (h :: a ++ b) -> x ∉ h :: a ++ b ->
  chain s' i h (a ++ x :: b).
Proof.
  revert h; induction a as [|y a IH]; intros h HN Hc Hn Hx; cbn [app] in *.
  - simpl in HN. apply not_elem_of_cons in Hx as [Hxh Hxb]. apply NoDup_cons in Hn as [Hhb Hnb].
    cbn [chain]. rewrite HN, decide_True by done. split; [done|].
    destruct b as [|z b]; cbn [chain] in *.
    + now rewrite HN, decide_False, decide_True by done.
    + destruct Hc as [Hz Hc]. rewrite HN, decide_False, decide_True by done. split; [done|].
      apply (chain_ext s); [|done]. intros w Hw.
      assert (Hwz : w ∈ z :: b) by (destruct Hw as [->|]; [now left|now right]).
      rewrite HN, !decide_False; [done|intros ->; done..].
  - destruct Hc as [Hy Hc]. apply NoDup_cons in Hn as [Hh Hn].
    apply not_elem_of_cons in Hx as [Hxh Hx].
    rewrite last_cons in HN. cbn [chain]. split.
    + rewrite HN, !decide_False; [done|congruence|].
      intros E. apply Hh. rewrite E. destruct (last_In a y) as [->|H]; [now left|].
      right. apply elem_of_app. now left.
    + now apply IH.
Qed.

Lemma Next_link s x i prev y j (p := default head_ (prev !! i)) :
  Next (Insert_link x i prev s) y j =
    if decide ((p, i) = (y, j)) then Some x
    else if decide ((x, i) = (y, j)) then Next s p i else Next s y j.
Proof. unfold Insert_link. now rewrite !Next_SetNext. Qed.

Lemma chain_link s x i prev a b :
  chain s i head_ (a ++ b) -> default head_ (prev !! i) = List.last a head_ ->
  NoDup (head_ :: a ++ b) -> x ∉ head_ :: a ++ b ->
  chain (Insert_link x i prev s) i head_ (a ++ x :: b).
Proof.
  intros Hc Hp. apply chain_insert with (s := s); [|done].
  intros y. rewrite Next_link, Hp. repeat case_decide; simplify_eq; done.
Qed.

Lemma chain_link_other s x i prev j l :
  i <> j -> chain s j head_ l -> chain (Insert_link x i prev s) j head_ l.
Proof.
  intros Hij. apply chain_ext. intros y _. rewrite Next_link.
  repeat case_decide; simplify_eq; done.
Qed.

(** ** Insertion, step by step *)

Lemma RandomHeight_loop_range fuel h r :
  (1 <= h <= kMaxHeight)%nat -> (1 <= fst (RandomHeight_loop fuel h r) <= kMaxHeight)%nat.
Proof.
  revert h r; induction fuel as [|fuel IH]; intros h r Hh; [done|]. cbn [RandomHeight_loop].
  destruct (Nat.ltb_spec h kMaxHeight); [|done]. destruct (_ =? _); [|done]. apply IH. lia.
Qed.

Section Insertion.
Context (s : SkipList K) (L : nat -> list nat) (I : inv s L) (key : K) (Hv : valid key).
(* Nothing equal to the key is in the list. *)
Context (Hnew : forall n k, n ∈ L 0%nat -> key_ s !! n = Some k -> compare_ k key <> 0).

Notation x := (fresh_ s).
Notation A j := (before s key (L j)).
Notation B j := (after s key (L j)).

(** The levels when the node is linked at those below [k]. *)
Definition levels (k j : nat) : list nat :=
  if (j <? k)%nat then A j ++ x :: B j else L j.

Lemma levels_lt k j : (j < k)%nat -> levels k j = A j ++ x :: B j.
Proof. intros H. unfold levels. now destruct (Nat.ltb_spec j k); [|lia]. Qed.
Lemma levels_ge k j : (k <= j)%nat -> levels k j = L j.
Proof. intros H. unfold levels. now destruct (Nat.ltb_spec j k); [lia|]. Qed.

Lemma level_split j : (j < kMaxHeight)%nat -> L j = A j ++ B j.
Proof.
  intros Hj. apply before_after; [done|now apply (inv_keyed s L)|now apply (inv_sorted_at s L)].
Qed.

Lemma level_node j n : (j < kMaxHeight)%nat -> n ∈ L j -> (head_ < n < x)%nat.
Proof.
  intros Hj Hn. apply (inv_nodes s L I). eapply elem_of_sublist; [exact Hn|now apply (inv_sub0 s L)].
Qed.

Lemma split_elem n : n ∈ A 0%nat ++ x :: B 0%nat -> n = x \/ n ∈ L 0%nat.
Proof.
  intros H. assert (H' : n = x \/ n ∈ A 0%nat ++ B 0%nat).
  { rewrite elem_of_app, elem_of_cons in H. rewrite elem_of_app. tauto. }
  now rewrite <- level_split in H' by (unfold kMaxHeight; lia).
Qed.

(** The state between the links: the node has its key, the rest is as before. *)
Record between (t : SkipList K) : Prop := {
  bw_key : key_ t = <[x := key]> (key_ s);
  bw_fresh : fresh_ t = S x;
}.

Lemma bw_old t n : between t -> (n < x)%nat -> key_ t !! n = key_ s !! n.
Proof. intros [E _] Hn. rewrite E. now rewrite lookup_insert_ne by lia. Qed.

Lemma bw_new t : between t -> key_ t !! x = Some key.
Proof. intros [E _]. rewrite E. now rewrite lookup_insert_eq. Qed.

Lemma bw_sorted t : between t -> StronglySorted (less t) (L 0%nat).
Proof.
  intros Ht. assert (H : forall l, (forall n, n ∈ l -> n ∈ L 0%nat) -> StronglySorted (less s) l ->
    StronglySorted (less t) l); [|apply H; [done|apply (inv_sorted s L I)]].
  induction l as [|n l IH]; intros Hin Hs; [constructor|].
  apply StronglySorted_inv in Hs as [H1 H2]. constructor.
  - apply IH; [|done]. intros m Hm. apply Hin. now right.
  - rewrite Forall_forall in *. intros m Hm. destruct (H2 m Hm) as (ka & kb & E1 & E2 & Hlt).
    exists ka, kb. rewrite !(bw_old t) by
      (done || (apply (level_node 0); [unfold kMaxHeight; lia|apply Hin; (now left) || (now right)])).
    done.
Qed.

(** The new node belongs between the two parts. *)
Lemma before_less t n : between t -> n ∈ A 0%nat -> less t n x.
Proof.
  intros Ht [Hn Hb]%before_In. unfold below, KeyIsAfterNode in Hb.
  destruct (inv_nodes s L I n Hn) as [Hr (k & Ek & Hk)]. rewrite Ek in Hb. apply Z.ltb_lt in Hb.
  exists k, key. rewrite (bw_old t), (bw_new t) by (done || lia). done.
Qed.

Lemma after_less t n : between t -> n ∈ B 0%nat -> less t x n.
Proof.
  intros Ht Hin. unfold after in Hin. rewrite list_elem_of_In, filter_In, <- list_elem_of_In in Hin.
  destruct Hin as [Hn Hb]. unfold below, KeyIsAfterNode in Hb.
  destruct (inv_nodes s L I n Hn) as [Hr (k & Ek & Hk)]. rewrite Ek in Hb.
  apply negb_true_iff, Z.ltb_ge in Hb. pose proof (Hnew n k Hn Ek).
  exists key, k. rewrite (bw_new t), (bw_old t n) by (done || lia). split; [done|]. split; [done|].
  apply (key_antisym key k Hv Hk). lia.
Qed.

Lemma inserted_sorted t : between t -> StronglySorted (less t) (A 0%nat ++ x :: B 0%nat).
Proof.
  intros Ht. pose proof (bw_sorted t Ht) as Hs.
  pose proof (level_split 0 ltac:(unfold kMaxHeight; lia)) as E. rewrite E in Hs at 1.
  apply StronglySorted_app in Hs as (H1 & H2 & H3). apply StronglySorted_app_2.
  - intros a b Ha Hb. apply elem_of_cons in Hb as [->|Hb]; [now apply before_less|now apply H1].
  - done.
  - constructor; [done|]. rewrite Forall_forall. intros n Hn. now apply after_less.
Qed.

Lemma levels_sub k i :
  (S i < kMaxHeight)%nat -> levels k (S i) `sublist_of` levels k i.
Proof.
  intros Hi. pose proof (inv_sub s L I i Hi) as Hs.
  destruct (Nat.lt_ge_cases (S i) k) as [H|H].
  - rewrite !levels_lt by lia. apply sublist_app; [now apply filter_sublist|].
    apply sublist_skip. now apply filter_sublist.
  - rewrite (levels_ge k (S i)) by lia. destruct (Nat.lt_ge_cases i k) as [H'|H'].
    + rewrite levels_lt by lia. etrans; [exact Hs|]. rewrite (level_split i) at 1 by lia.
      apply sublist_app; [done|]. now apply sublist_cons.
    + now rewrite levels_ge by lia.
Qed.

Lemma levels_sorted t k : between t -> StronglySorted (less t) (levels k 0%nat).
Proof.
  intros Ht. destruct k as [|k]; [rewrite levels_ge by lia; now apply bw_sorted|].
  rewrite levels_lt by lia. now apply inserted_sorted.
Qed.

Lemma levels_nodes t k n :
  between t -> n ∈ levels k 0%nat ->
  (head_ < n < fresh_ t)%nat /\ exists k0, key_ t !! n = Some k0 /\ valid k0.
Proof.
  intros Ht Hn. rewrite (bw_fresh t Ht).
  assert (Hor : n = x \/ n ∈ L 0%nat).
  { destruct k as [|k]; [rewrite levels_ge in Hn by lia; now right|].
    rewrite levels_lt in Hn by lia. now apply split_elem. }
  destruct Hor as [->|Hin].
  - split; [pose proof (inv_fresh s L I); unfold head_; lia|]. exists key. now rewrite (bw_new t).
  - destruct (inv_nodes s L I n Hin) as [Hr Hk]. split; [lia|]. now rewrite (bw_old t) by (done || lia).
Qed.

(** Linking at level [k] takes the levels one step further. *)
Lemma link_inv t prev k :
  between t -> inv t (levels k) -> (k < max_height_ t)%nat ->
  default head_ (prev !! k) = List.last (A k) head_ ->
  inv (Insert_link x k prev t) (levels (S k)).
Proof.
  intros Ht It Hk Hp. pose proof (inv_height t _ It) as Hh.
  assert (Ht' : between (Insert_link x k prev t)) by (destruct Ht; now split).
  split.
  - intros i Hi. destruct (Nat.eq_dec i k) as [->|N].
    + rewrite levels_lt by lia.
      pose proof (inv_chain t _ It k Hi) as Hc. rewrite levels_ge, level_split in Hc by lia.
      apply chain_link; [done|done| |]; rewrite <- level_split by lia.
      * apply NoDup_cons. split; [intros H; apply level_node in H; [unfold head_ in H; lia|lia]|].
        apply (sorted_NoDup s); [now apply (inv_keyed s L)|now apply (inv_sorted_at s L)].
      * intros [E|H]%elem_of_cons; [pose proof (inv_fresh s L I); unfold head_ in E; lia|].
        apply level_node in H; lia.
    + apply chain_link_other; [lia|]. pose proof (inv_chain t _ It i Hi) as Hc.
      unfold levels in *. destruct (Nat.ltb_spec i k), (Nat.ltb_spec i (S k)); try lia; done.
  - intros i Hi. now apply levels_sub.
  - now apply levels_sorted.
  - intros i Hi. simpl in Hi. rewrite levels_ge by lia. pose proof (inv_top t _ It i Hi) as E.
    now rewrite levels_ge in E by lia.
  - exact Hh.
  - intros n. now apply levels_nodes.
  - destruct Ht'. lia.
Qed.

Lemma links_inv n k t prev :
  between t -> inv t (levels k) -> (k + n <= max_height_ t)%nat ->
  (forall j, (j < max_height_ t)%nat -> default head_ (prev !! j) = List.last (A j) head_) ->
  inv (Insert_links n k x prev t) (levels (k + n)) /\ between (Insert_links n k x prev t).
Proof.
  revert k t; induction n as [|n IH]; intros k t Ht It Hk Hp; cbn [Insert_links].
  - now rewrite Nat.add_0_r.
  - replace (k + S n)%nat with (S k + n)%nat by lia. apply IH.
    + destruct Ht; now split.
    + apply link_inv; try done; [lia|apply Hp; lia].
    + simpl. lia.
    + done.
Qed.

End Insertion.

(** ** The list as a sorted sequence of keys *)

Definition keys s (l : list nat) : list K := omap (fun n => key_ s !! n) l.

(** The keys in the list, in order. *)
Definition represents s (ks : list K) : Prop := exists L, inv s L /\ keys s (L 0%nat) = ks.

(** Where a new key goes. *)
Definition lt_key (key k : K) : bool := compare_ k key <? 0.
Definition sorted_insert (key : K) (ks : list K) : list K :=
  List.filter (lt_key key) ks ++ key :: List.filter (fun k => negb (lt_key key k)) ks.

Lemma keys_ext s t l : (forall n, n ∈ l -> key_ t !! n = key_ s !! n) -> keys t l = keys s l.
Proof.
  induction l as [|n l IH]; intros H; [done|]. unfold keys in *. cbn [omap list_omap].
  rewrite (H n) by now left. rewrite IH; [done|]. intros m Hm. apply H. now right.
Qed.

Lemma keys_app s a b : keys s (a ++ b) = keys s a ++ keys s b.
Proof. apply omap_app. Qed.

Lemma keys_before s key l :
  keyed s l ->
  keys s (before s key l) = List.filter (lt_key key) (keys s l) /\
  keys s (after s key l) = List.filter (fun k => negb (lt_key key k)) (keys s l).
Proof.
  induction l as [|n l IH]; intros Hk; [done|].
  destruct (IH (keyed_cons _ _ _ Hk)) as [E1 E2]. destruct (Hk n) as (k & Ek & _); [now left|].
  unfold keys, before, after in *. cbn [List.filter omap list_omap].
  replace (below s key n) with (lt_key key k) by (unfold below, KeyIsAfterNode; now rewrite Ek).
  rewrite Ek. cbn [List.filter]. destruct (lt_key key k); cbn [negb omap list_omap]; rewrite ?Ek;
    rewrite ?E1, ?E2; done.
Qed.

Lemma keys_lookup s l p : keyed s l -> keys s l !! p = (l !! p) ≫= (fun n => key_ s !! n).
Proof.
  revert p; induction l as [|n l IH]; intros p Hk; [done|].
  destruct (Hk n) as (k & Ek & _); [now left|]. unfold keys in *. cbn [omap list_omap]. rewrite Ek.
  destruct p as [|p]; [exact (eq_sym Ek)|]. apply IH. now apply keyed_cons in Hk.
Qed.

Lemma keys_length s l : keyed s l -> length (keys s l) = length l.
Proof.
  induction l as [|n l IH]; intros Hk; [done|].
  destruct (Hk n) as (k & Ek & _); [now left|]. unfold keys in *. cbn [omap list_omap]. rewrite Ek.
  simpl. f_equal. apply IH. now apply keyed_cons in Hk.
Qed.

Lemma fill_prev_lookup n i prev j :
  fill_prev n i prev !! j =
    if decide (i <= j < i + n)%nat then Some head_ else prev !! j.
Proof.
  revert i prev; induction n as [|n IH]; intros i prev; cbn [fill_prev].
  - now rewrite decide_False by lia.
  - rewrite IH. destruct (Nat.eq_dec i j) as [->|N].
    + rewrite decide_False, decide_True by lia. now rewrite lookup_insert_eq.
    + rewrite lookup_insert_ne by lia. destruct (decide (S i <= j < S i + n)%nat).
      * now rewrite decide_True by lia.
      * now rewrite decide_False by lia.
Qed.

Lemma make_inv : inv (make_SkipList : SkipList K) (fun _ => []).
Proof.
  split; simpl; intros; try done; try lia; [constructor|unfold kMaxHeight; lia|].
  now apply elem_of_nil in H.
Qed.

Lemma Insert_prepare_ok s L key :
  inv s L -> valid key -> (forall n k, n ∈ L 0%nat -> key_ s !! n = Some k -> compare_ k key <> 0) ->
  exists h prev t, Insert_prepare compare_ s key = Some (h, prev, fresh_ s, t) /\
    between s key t /\ inv t (levels s L key 0) /\ (1 <= h <= max_height_ t)%nat /\
    (forall j, (j < max_height_ t)%nat ->
       default head_ (prev !! j) = List.last (before s key (L j)) head_).
Proof.
  intros I Hv Hnew. unfold Insert_prepare.
  destruct (FindGreaterOrEqual_ok s L key I Hv) as (prev & -> & Hprev).
  pose proof (RandomHeight_loop_range kMaxHeight 1 (rnd_ s) ltac:(unfold kMaxHeight; lia)) as Hh.
  unfold RandomHeight. destruct (RandomHeight_loop kMaxHeight 1 (rnd_ s)) as [h r]. simpl in Hh.
  pose proof (inv_height s L I) as Hm. cbn [max_height_].
  assert (It : forall m, (max_height_ s <= m <= kMaxHeight)%nat ->
    let t := Mk (<[fresh_ s := key]> (key_ s)) (next_ s) m r (S (fresh_ s)) in
    between s key t /\ inv t (levels s L key 0)).
  { intros m Hmm t. assert (Ht : between s key t) by now split. split; [done|]. split.
    - intros i Hi. rewrite levels_ge by lia. apply (chain_ext s); [done|].
      exact (inv_chain s L I i Hi).
    - intros i Hi. now apply levels_sub.
    - now apply levels_sorted.
    - intros i Hi. rewrite levels_ge by lia. apply (inv_top s L I). simpl in Hi. lia.
    - simpl. lia.
    - intros n. now apply levels_nodes.
    - simpl. lia. }
  destruct (Nat.ltb_spec (max_height_ s) h) as [Hlt|Hge];
    unfold NewNode, set_max_height; cbn [key_ next_ max_height_ rnd_ fresh_];
    (eexists _, _, _; split; [reflexivity|]; cbn [max_height_]);
    (split; [apply It; lia|]); (split; [apply It; lia|]); (split; [lia|]); intros j Hj.
  - rewrite fill_prev_lookup. case_decide as Hd.
    + now rewrite (inv_top s L I j) by lia.
    + now rewrite (Hprev j) by lia.
  - now rewrite (Hprev j) by lia.
Qed.

Lemma Insert_ok s L key :
  inv s L -> valid key -> (forall n k, n ∈ L 0%nat -> key_ s !! n = Some k -> compare_ k key <> 0) ->
  exists h s', Insert compare_ s key = Some s' /\
    inv s' (levels s L key (S h)) /\ between s key s'.
Proof.
  intros I Hv Hnew. unfold Insert.
  destruct (Insert_prepare_ok s L key I Hv Hnew) as (h & prev & t & -> & Ht & It & Hh & Hp).
  destruct (links_inv s L I key Hv Hnew h 0 t prev Ht It) as [I' B']; [lia|done|].
  exists (h - 1)%nat. eexists. split; [reflexivity|]. split; [|exact B'].
  replace (S (h - 1)) with (0 + h)%nat by lia. exact I'.
Qed.

Lemma inv_keyed0 s L : inv s L -> keyed s (L 0%nat).
Proof. intros I. apply inv_keyed; [done|unfold kMaxHeight; lia]. Qed.

Lemma keys_elem s L k :
  inv s L -> k ∈ keys s (L 0%nat) <-> exists n, n ∈ L 0%nat /\ key_ s !! n = Some k.
Proof. intros I. unfold keys. rewrite list_elem_of_omap. done. Qed.

Lemma represents_make : represents (make_SkipList : SkipList K) [].
Proof. exists (fun _ => []). split; [apply make_inv|done]. Qed.

Lemma old_keys s L key t l :
  inv s L -> between s key t -> (forall n, n ∈ l -> n ∈ L 0%nat) -> keys t l = keys s l.
Proof.
  intros I B Hl. apply keys_ext. intros n Hn. apply (bw_old s key); [done|].
  now apply (inv_nodes s L I), Hl.
Qed.

(** The keys with the new node linked at the bottom. *)
Lemma inserted_keys s L key t :
  inv s L -> between s key t ->
  keys t (before s key (L 0%nat) ++ fresh_ s :: after s key (L 0%nat))
  = sorted_insert key (keys s (L 0%nat)).
Proof.
  intros I B. rewrite keys_app. unfold sorted_insert.
  destruct (keys_before s key (L 0%nat) (inv_keyed0 s L I)) as [<- <-].
  rewrite (old_keys s L key t (before s key (L 0%nat)) I B)
    by (intros n Hn; exact (proj1 (before_In _ _ _ _ Hn))).
  f_equal. unfold keys at 1. cbn [omap list_omap]. rewrite (bw_new s key t B). f_equal.
  apply (old_keys s L key t _ I B). intros n Hn. unfold after in Hn.
  rewrite list_elem_of_In, filter_In, <- list_elem_of_In in Hn. now destruct Hn.
Qed.

Lemma Insert_represents s ks key :
  represents s ks -> valid key -> Forall (fun k => compare_ k key <> 0) ks ->
  exists s', Insert compare_ s key = Some s' /\ represents s' (sorted_insert key ks).
Proof.
  intros (L & I & <-) Hv Hnew. rewrite Forall_forall in Hnew.
  destruct (Insert_ok s L key I Hv) as (h & s' & E & I' & B').
  { intros n k Hn Hk. apply Hnew. apply (keys_elem s L k I). now exists n. }
  exists s'. split; [exact E|]. eexists. split; [exact I'|].
  rewrite levels_lt by lia. now apply inserted_keys.
Qed.

(** ** Positions of an iterator *)

(** The iterator stands at the [p]-th key; behind the last it is invalid. *)
Definition at_position s (ks : list K) (node : option nat) (p : nat) : Prop :=
  exists L, inv s L /\ keys s (L 0%nat) = ks /\ node = L 0%nat !! p.

Lemma chain_Next s i x l p n :
  chain s i x l -> l !! p = Some n -> Next s n i = l !! S p.
Proof.
  revert x p; induction l as [|y l IH]; intros x p Hc Hp; [done|].
  destruct Hc as [H1 H2]. destruct p as [|p]; simpl in Hp; simplify_eq.
  - destruct l; [exact H2|apply H2].
  - now apply (IH y p).
Qed.

Lemma chain_first s i x l : chain s i x l -> Next s x i = l !! 0%nat.
Proof. destruct l; [done|]. now intros [? _]. Qed.

Lemma position_key s ks node p : at_position s ks node p -> Iter_key s node = ks !! p.
Proof.
  intros (L & I & <- & ->). rewrite keys_lookup by now apply inv_keyed0.
  unfold Iter_key. now destruct (L 0%nat !! p).
Qed.

Lemma position_valid s ks node p :
  at_position s ks node p -> Iter_Valid node = (p <? length ks)%nat.
Proof.
  intros (L & I & <- & ->). rewrite keys_length by now apply inv_keyed0.
  destruct (L 0%nat !! p) eqn:E.
  - apply lookup_lt_Some in E. symmetry. now apply Nat.ltb_lt.
  - apply lookup_ge_None in E. symmetry. now apply Nat.ltb_ge.
Qed.

Lemma position_Next s ks node p :
  at_position s ks node p -> (p < length ks)%nat -> at_position s ks (Iter_Next s node) (S p).
Proof.
  intros (L & I & <- & ->) Hp. exists L. split; [done|]. split; [done|].
  rewrite keys_length in Hp by now apply inv_keyed0.
  apply lookup_lt_is_Some in Hp as [n Hn]. rewrite Hn. cbn [Iter_Next].
  apply (chain_Next s 0 head_); [|done]. apply (inv_chain s L I). unfold kMaxHeight. lia.
Qed.

Lemma position_first s ks : represents s ks -> at_position s ks (Iter_SeekToFirst s) 0.
Proof.
  intros (L & I & <-). exists L. split; [done|]. split; [done|].
  apply chain_first. apply (inv_chain s L I). unfold kMaxHeight. lia.
Qed.

(** [Seek] goes to the first key that is not before the target. *)
Lemma position_Seek s ks target :
  represents s ks -> valid target ->
  exists node, Iter_Seek compare_ s target = Some node /\
    at_position s ks node (length (List.filter (lt_key target) ks)).
Proof.
  intros (L & I & <-) Hv. destruct (FindGreaterOrEqual_ok s L target I Hv) as (prev & E & _).
  unfold Iter_Seek. rewrite E. cbn [fmap option_fmap option_map fst].
  eexists. split; [reflexivity|]. exists L. split; [done|]. split; [done|].
  destruct (keys_before s target (L 0%nat) (inv_keyed0 s L I)) as [<- _].
  rewrite keys_length.
  2:{ intros n [Hn _]%before_In. now apply (inv_keyed0 s L I). }
  rewrite (before_after s target (L 0%nat)) at 3
    by (done || now apply inv_keyed0 || now apply (inv_sorted s L I)).
  rewrite lookup_app_r by lia. rewrite Nat.sub_diag. now destruct (after s target (L 0%nat)).
Qed.

(** The search for the last smaller key follows the other search. *)
Lemma FindLessThan_prev fuel s key x level prev r prev' :
  FindGreaterOrEqual_loop compare_ fuel s key x level prev = Some (r, prev') ->
  FindLessThan_loop compare_ fuel s key x level = prev' !! 0%nat.
Proof.
  revert x level prev; induction fuel as [|fuel IH]; intros x level prev; [done|].
  cbn [FindGreaterOrEqual_loop FindLessThan_loop].
  destruct (Next s x level) as [y|] eqn:En.
  - unfold KeyIsAfterNode. destruct (key_ s !! y) as [k|].
    + destruct (Z.ltb_spec (compare_ k key) 0), (Z.leb_spec 0 (compare_ k key)); try lia; [apply IH|].
      destruct level; [intros [= <- <-]; now rewrite lookup_insert_eq|apply IH].
    + destruct level; [intros [= <- <-]; now rewrite lookup_insert_eq|apply IH].
  - destruct level; [intros [= <- <-]; now rewrite lookup_insert_eq|apply IH].
Qed.

Lemma FindLessThan_ok s L key :
  inv s L -> valid key ->
  FindLessThan compare_ s key = Some (List.last (before s key (L 0%nat)) head_).
Proof.
  intros I Hv. destruct (FindGreaterOrEqual_ok s L key I Hv) as (prev & E & Hp).
  unfold FindLessThan. unfold FindGreaterOrEqual in E. rewrite (FindLessThan_prev _ _ _ _ _ _ _ _ E).
  apply Hp. pose proof (inv_height s L I). lia.
Qed.

(** The node before position [p], or none. *)
Lemma null_head_last (l : list nat) :
  head_ ∉ l -> null_head (List.last l head_) = match length l with O => None | S q => l !! q end.
Proof.
  intros Hh. destruct l as [|a l _] using rev_ind; [done|].
  rewrite List.last_last, length_app. simpl. rewrite Nat.add_1_r.
  rewrite lookup_app_r, Nat.sub_diag by lia. simpl. unfold null_head.
  destruct (Nat.eqb_spec a head_) as [->|]; [|done].
  exfalso. apply Hh, elem_of_app. right. now left.
Qed.

Lemma head_not_in s L : inv s L -> head_ ∉ L 0%nat.
Proof. intros I H. apply (inv_nodes s L I) in H as [H _]. lia. Qed.

(** In a strictly sorted list the nodes before a node's own key are those in
    front of it. *)
Lemma before_own s L p n k :
  inv s L -> L 0%nat !! p = Some n -> key_ s !! n = Some k ->
  before s k (L 0%nat) = take p (L 0%nat).
Proof.
  intros I Hp Hk. pose proof (inv_keyed0 s L I) as HK. pose proof (inv_sorted s L I) as HS.
  destruct (HK n) as (k' & E' & Hv); [now apply list_elem_of_lookup_2 in Hp|]. simplify_eq.
  rewrite <- (take_drop_middle _ _ _ Hp) in HS |- * at 1.
  set (a := take p (L 0%nat)) in *. set (b := drop (S p) (L 0%nat)) in *.
  assert (Hin : forall m, m ∈ a \/ m ∈ b -> m ∈ L 0%nat).
  { intros m Hm. rewrite <- (take_drop_middle _ _ _ Hp). fold a b.
    rewrite elem_of_app, elem_of_cons. tauto. }
  apply StronglySorted_app in HS as (H1 & _ & H3). apply StronglySorted_inv in H3 as [_ H3].
  rewrite Forall_forall in H3. unfold before. rewrite List.filter_app. cbn [List.filter].
  assert (Hown : below s k n = false).
  { unfold below, KeyIsAfterNode. rewrite Hk. apply Z.ltb_ge.
    pose proof (key_lt_irrefl k Hv). lia. }
  rewrite Hown.
  assert (Ha : List.filter (below s k) a = a).
  { apply forallb_filter_id, forallb_forall. intros m Hm%list_elem_of_In.
    destruct (H1 m n Hm ltac:(now left)) as (ka & kb & E1 & E2 & Hlt). simplify_eq.
    unfold below, KeyIsAfterNode. rewrite E1. now apply Z.ltb_lt. }
  assert (Hb : List.filter (below s k) b = []).
  { destruct (List.filter (below s k) b) as [|m l] eqn:E; [done|].
    assert (Hm : m ∈ List.filter (below s k) b) by (rewrite E; now left).
    rewrite list_elem_of_In, filter_In, <- list_elem_of_In in Hm. destruct Hm as [Hm Hbel].
    destruct (H3 m Hm) as (ka & kb & E1 & E2 & Hlt). simplify_eq.
    unfold below, KeyIsAfterNode in Hbel. rewrite E2 in Hbel. apply Z.ltb_lt in Hbel.
    destruct (HK m (Hin m (or_intror Hm))) as (k2 & E3 & V2). simplify_eq.
    pose proof (key_antisym k kb Hv V2). lia. }
  now rewrite Ha, Hb, app_nil_r.
Qed.

Lemma position_Prev s ks node p :
  at_position s ks node p -> (p < length ks)%nat ->
  exists node', Iter_Prev compare_ s node = Some node' /\
    match p with O => node' = None | S q => at_position s ks node' q end.
Proof.
  intros (L & I & <- & ->) Hp. pose proof (inv_keyed0 s L I) as HK.
  rewrite keys_length in Hp by done. apply lookup_lt_is_Some in Hp as [n Hn].
  destruct (HK n) as (k & Ek & Hv); [now apply list_elem_of_lookup_2 in Hn|].
  unfold Iter_Prev. rewrite Hn. cbn [Iter_key]. rewrite Ek.
  rewrite (FindLessThan_ok s L k I Hv), (before_own s L p n k I Hn Ek).
  cbn [fmap option_fmap option_map]. eexists. split; [reflexivity|].
  rewrite null_head_last.
  2:{ intros H. apply (head_not_in s L I). eapply elem_of_take in H as (i & Hi & _).
      now apply list_elem_of_lookup_2 in Hi. }
  rewrite length_take_le by (apply lookup_lt_Some in Hn; lia).
  destruct p as [|q]; [done|]. exists L. split; [done|]. split; [done|].
  now rewrite lookup_take_lt by lia.
Qed.

(** ** The last key *)

Lemma last_level fuel s i x post :
  chain s i x post ->
  FindLast_loop (length post + S fuel) s x i
  = match i with
    | O => Some (List.last post x)
    | S j => FindLast_loop fuel s (List.last post x) j
    end.
Proof.
  revert x; induction post as [|y post IH]; intros x Hc.
  - cbn [length Nat.add FindLast_loop chain] in *. rewrite Hc. now destruct i.
  - destruct Hc as [Hn Hc]. cbn [length Nat.add FindLast_loop]. rewrite Hn, last_cons. now apply IH.
Qed.

Lemma last_all s L i fuel x :
  inv s L -> (i < kMaxHeight)%nat -> x = head_ \/ x ∈ L i ->
  (S i * S (length (L 0%nat)) <= fuel)%nat ->
  FindLast_loop fuel s x i = Some (List.last (L 0%nat) head_).
Proof.
  intros I. revert fuel x; induction i as [|i IH]; intros fuel x Hi Hx Hf;
    pose proof (sublist_length _ _ (inv_sub0 s L _ I Hi)) as Hl;
    match type of Hi with (?j < _)%nat =>
      assert (Hs : exists pre post, L j = pre ++ post /\ x = List.last pre head_)
        by (destruct Hx as [->|Hx]; [exists [], (L j); done|];
            apply list_elem_of_split in Hx as (p1 & p2 & ->); exists (p1 ++ [x]), p2;
            split; [now rewrite <- app_assoc|now rewrite last_app])
    end;
    destruct Hs as (pre & post & E & Ex);
    pose proof (inv_chain s L I _ Hi) as Hc; rewrite E in Hc; apply chain_skip in Hc;
    rewrite <- Ex in Hc;
    pose proof (f_equal length E) as HE; rewrite length_app in HE;
    pose proof (f_equal (fun l => List.last l head_) E) as El; cbv beta in El;
    rewrite last_app, <- Ex in El;
    replace fuel with (length post + S (fuel - length post - 1))%nat by lia;
    rewrite (last_level _ s _ x post Hc), <- El.
  - done.
  - apply IH; [lia| |lia]. destruct (last_In (L (S i)) head_) as [H|H]; [now left|right].
    eapply elem_of_sublist; [exact H|now apply (inv_sub s L I)].
Qed.

Lemma position_last s ks :
  represents s ks ->
  exists node, Iter_SeekToLast s = Some node /\
    match length ks with O => node = None | S q => at_position s ks node q end.
Proof.
  intros (L & I & <-). pose proof (inv_height s L I) as Hh. pose proof (inv_size s L I) as Hn.
  unfold Iter_SeekToLast, FindLast.
  rewrite (last_all s L (max_height_ s - 1) (steps s) head_ I);
    [|lia|now left|unfold steps; unfold kMaxHeight in *; nia].
  cbn [fmap option_fmap option_map]. eexists. split; [reflexivity|].
  rewrite null_head_last by now apply (head_not_in s L).
  rewrite keys_length by now apply inv_keyed0. destruct (length (L 0%nat)); [done|].
  exists L. done.
Qed.

(** ** Membership *)

Lemma keys_sorted s L :
  inv s L -> StronglySorted (fun a b => compare_ a b < 0) (keys s (L 0%nat)) /\
             Forall valid (keys s (L 0%nat)).
Proof.
  intros I. pose proof (inv_sorted s L I) as HS. pose proof (inv_keyed0 s L I) as HK.
  induction (L 0%nat) as [|n l IH]; [split; constructor|].
  apply StronglySorted_inv in HS as [H1 H2]. destruct (HK n) as (k & Ek & Hv); [now left|].
  destruct (IH H1 (keyed_cons _ _ _ HK)) as [IH1 IH2].
  unfold keys in *. cbn [omap list_omap]. rewrite Ek. split; constructor; try done.
  rewrite Forall_forall in H2. rewrite Forall_forall. intros k2 Hk2. apply list_elem_of_omap in Hk2 as (m & Hm & Em).
  destruct (H2 m Hm) as (ka & kb & E1 & E2 & Hlt). now simplify_eq.
Qed.

(** Of a sorted sequence only the first key that is not smaller can be equal. *)
Lemma existsb_first key ks :
  valid key -> Forall valid ks -> StronglySorted (fun a b => compare_ a b < 0) ks ->
  existsb (fun k => compare_ key k =? 0) ks =
    match head (List.filter (fun k => negb (lt_key key k)) ks) with
    | Some k => compare_ key k =? 0
    | None => false
    end.
Proof.
  intros Hv. induction ks as [|k ks IH]; intros HV HS; [done|].
  apply StronglySorted_inv in HS as [H1 H2]. apply List.Forall_cons_iff in HV as [Vk HV].
  cbn [existsb List.filter]. unfold lt_key at 1. destruct (Z.ltb_spec (compare_ k key) 0) as [L|L].
  - cbn [negb]. rewrite <- IH by done.
    destruct (Z.eqb_spec (compare_ key k) 0) as [E|_]; [|done].
    pose proof (key_antisym k key Vk Hv). lia.
  - cbn [negb head]. destruct (Z.eqb_spec (compare_ key k) 0) as [E|N]; [done|]. simpl.
    destruct (existsb _ ks) eqn:Ex; [|done]. exfalso.
    apply existsb_exists in Ex as (k2 & Hin & E2). apply Z.eqb_eq in E2.
    rewrite Forall_forall in H2, HV. rewrite <- list_elem_of_In in Hin.
    specialize (H2 k2 Hin). specialize (HV k2 Hin).
    assert (Hlt : compare_ k key < 0).
    { apply (key_lt_le_trans k k2 key); try done.
      pose proof (key_antisym k2 key HV Hv). pose proof (key_antisym key k2 Hv HV). lia. }
    lia.
Qed.

Lemma Contains_ok s ks key :
  represents s ks -> valid key ->
  Contains compare_ s key = Some (existsb (fun k => compare_ key k =? 0) ks).
Proof.
  intros (L & I & <-) Hv. destruct (keys_sorted s L I) as [HS HV].
  rewrite (existsb_first key _ Hv HV HS).
  destruct (keys_before s key (L 0%nat) (inv_keyed0 s L I)) as [_ <-].
  destruct (FindGreaterOrEqual_ok s L key I Hv) as (prev & E & _). unfold Contains. rewrite E.
  destruct (after s key (L 0%nat)) as [|n l] eqn:Ea; [done|]. cbn [head].
  destruct (inv_keyed0 s L I n) as (k & Ek & _).
  { assert (Hn : n ∈ after s key (L 0%nat)) by (rewrite Ea; now left). unfold after in Hn.
    rewrite list_elem_of_In, filter_In, <- list_elem_of_In in Hn. now destruct Hn. }
  unfold keys. cbn [omap list_omap]. now rewrite Ek.
Qed.

(** What [Seek] finds, in terms of the keys alone. *)
Lemma Seek_first s ks target :
  represents s ks -> valid target ->
  exists node, Iter_Seek compare_ s target = Some node /\
    match node with
    | None => forall k, k ∈ ks -> compare_ k target < 0
    | Some n => exists k, key_ s !! n = Some k /\ k ∈ ks /\ 0 <= compare_ k target /\
        forall k', k' ∈ ks -> compare_ k' target < 0 \/ k' = k \/ compare_ k k' < 0
    end.
Proof.
  intros (L & I & <-) Hv. destruct (FindGreaterOrEqual_ok s L target I Hv) as (prev & E & _).
  unfold Iter_Seek. rewrite E. cbn [fmap option_fmap option_map fst].
  eexists. split; [reflexivity|].
  pose proof (before_after s target (L 0%nat) Hv (inv_keyed0 s L I) (inv_sorted s L I)) as Es.
  pose proof (inv_sorted s L I) as HS. rewrite Es in HS. apply StronglySorted_app_1_r in HS.
  assert (Hb : forall n k, n ∈ before s target (L 0%nat) -> key_ s !! n = Some k -> compare_ k target < 0).
  { intros n k [_ Hn]%before_In Hk. unfold below, KeyIsAfterNode in Hn. rewrite Hk in Hn.
    now apply Z.ltb_lt. }
  destruct (after s target (L 0%nat)) as [|n l] eqn:Ea; cbn [head].
  - intros k (n & Hn & Hk)%(keys_elem s L k I). rewrite Es, app_nil_r in Hn. now apply (Hb n).
  - assert (Hn : n ∈ after s target (L 0%nat)) by (rewrite Ea; now left).
    unfold after in Hn. rewrite list_elem_of_In, filter_In, <- list_elem_of_In in Hn.
    destruct Hn as [Hn Hlt]. destruct (inv_keyed0 s L I n Hn) as (k & Ek & Vk).
    exists k. split; [done|]. split; [apply (keys_elem s L k I); now exists n|]. split.
    { unfold below, KeyIsAfterNode in Hlt. rewrite Ek in Hlt. now apply negb_true_iff, Z.ltb_ge in Hlt. }
    intros k' (m & Hm & Hk')%(keys_elem s L k' I). rewrite Es in Hm.
    apply elem_of_app in Hm as [Hm|Hm]; [left; now apply (Hb m)|right].
    apply elem_of_cons in Hm as [->|Hm]; [left; congruence|right].
    apply StronglySorted_inv in HS as [_ HS]. rewrite Forall_forall in HS.
    destruct (HS m Hm) as (ka & kb & E1 & E2 & Hl). congruence.
Qed.

(** ** Theorems *)

(** C22: Readers never see a broken list.  An insertion of a key that is not in
    the list links its node level by level from the bottom; in every state in
    between, however many of the links are made, all levels are sorted chains
    that end, each level is part of the one below, and the bottom level holds
    the old keys and, from the first link on, the new one. *)
Theorem insert_steps_inv s L key :
  inv s L -> valid key ->
  (forall n k, n ∈ L 0%nat -> key_ s !! n = Some k -> compare_ k key <> 0) ->
  exists h prev x t, Insert_prepare compare_ s key = Some (h, prev, x, t) /\
    Insert compare_ s key = Some (Insert_links h 0 x prev t) /\
    forall m, (m <= h)%nat -> exists L',
      inv (Insert_links m 0 x prev t) L' /\
      keys (Insert_links m 0 x prev t) (L' 0%nat) =
        if (m =? 0)%nat then keys s (L 0%nat) else sorted_insert key (keys s (L 0%nat)).
Proof.
  intros I Hv Hnew.
  destruct (Insert_prepare_ok s L key I Hv Hnew) as (h & prev & t & E & Ht & It & Hh & Hp).
  exists h, prev, (fresh_ s), t. split; [exact E|]. split; [unfold Insert; now rewrite E|].
  intros m Hm. destruct (links_inv s L I key Hv Hnew m 0 t prev Ht It) as [I' B']; [lia|done|].
  exists (levels s L key (0 + m)). split; [exact I'|].
  destruct m as [|m]; [rewrite levels_ge by lia; now apply (old_keys s L key)|].
  rewrite levels_lt by lia. now apply inserted_keys.
Qed.

(** C21: The skip list implements a sorted sequence of keys.  A list that
    represents the sequence [ks] answers membership and searches as the
    sequence does: [Contains] tells whether an equal key is in [ks], [Seek]
    stops at the first key that is not smaller, [SeekToFirst] and [SeekToLast]
    at its ends; an iterator at a position shows the key there, [Next] moves to
    the next position and past the last one becomes invalid, [Prev] moves to the
    previous position and from the first one becomes invalid; inserting a new key
    succeeds and gives a list that represents [ks] with the key put in its place. *)
Theorem skiplist_refines s ks key :
  represents s ks -> valid key ->
  Contains compare_ s key = Some (existsb (fun k => compare_ key k =? 0) ks) /\
  (exists node, Iter_Seek compare_ s key = Some node /\
     at_position s ks node (length (List.filter (lt_key key) ks))) /\
  at_position s ks (Iter_SeekToFirst s) 0 /\
  (exists node, Iter_SeekToLast s = Some node /\
     match length ks with O => node = None | S q => at_position s ks node q end) /\
  (forall node p, at_position s ks node p ->
     Iter_Valid node = (p <? length ks)%nat /\ Iter_key s node = ks !! p /\
     ((p < length ks)%nat ->
        at_position s ks (Iter_Next s node) (S p) /\
        exists node', Iter_Prev compare_ s node = Some node' /\
          match p with O => node' = None | S q => at_position s ks node' q end)) /\
  (Forall (fun k => compare_ k key <> 0) ks ->
     exists s', Insert compare_ s key = Some s' /\ represents s' (sorted_insert key ks)).
Proof.
  intros R Hv. split; [now apply Contains_ok|]. split; [now apply position_Seek|].
  split; [now apply position_first|]. split; [now apply position_last|]. split; [|intros Hn; now apply Insert_represents].
  intros node p Hp. split; [now apply (position_valid s)|]. split; [now apply position_key|]. intros Hlt.
  split; [now apply position_Next|now apply position_Prev].
Qed.

End SkipListProps.

(** ** Integers as keys *)

#[global] Instance Z_key_order : KeyOrder (fun a b : Z => a - b) (fun _ => True).
Proof. split; intros; lia. Qed.

(** The list of 5, 3 and 9, inserted in that order. *)
Definition example_list : option (SkipList Z) :=
  let ins o k := match o with Some s => Insert (fun a b => a - b) s k | None => None end in
  fold_left ins [5; 3; 9] (Some make_SkipList).

Definition example : SkipList Z := default make_SkipList example_list.

Lemma insert_steps_inv_witness :
  exists h prev x t, Insert_prepare (fun a b => a - b) make_SkipList 7 = Some (h, prev, x, t) /\
    Insert (fun a b => a - b) make_SkipList 7 = Some (Insert_links h 0 x prev t) /\
    forall m, (m <= h)%nat -> exists L',
      inv (compare_ := fun a b => a - b) (valid := fun _ => True) (Insert_links m 0 x prev t) L' /\
      keys (Insert_links m 0 x prev t) (L' 0%nat) =
        if (m =? 0)%nat then keys make_SkipList [] else sorted_insert (compare_ := fun a b => a - b) 7 (keys make_SkipList []).
Proof.
  apply (insert_steps_inv make_SkipList (fun _ => []) 7); [apply make_inv|done|].
  intros n k Hn. now apply elem_of_nil in Hn.
Defined.

Lemma example_represents :
  represents (compare_ := fun a b => a - b) (valid := fun _ => True) example [3; 5; 9].
Proof.
  destruct (Insert_represents (KO := Z_key_order) make_SkipList [] 5) as (s1 & E1 & R1);
    [apply represents_make|done|repeat constructor|].
  destruct (Insert_represents s1 [5] 3 R1) as (s2 & E2 & R2); [done|repeat constructor; lia|].
  destruct (Insert_represents s2 [3; 5] 9 R2) as (s3 & E3 & R3); [done|repeat constructor; lia|].
  unfold example, example_list. cbn [fold_left]. rewrite E1, E2, E3. exact R3.
Qed.

(** 4 is looked for: the iterator stops at 5, and goes back to 3. *)
Lemma skiplist_refines_witness :
  Contains (fun a b => a - b) example 4 = Some false /\
  exists node node', Iter_Seek (fun a b => a - b) example 4 = Some node /\ Iter_key example node = Some 5 /\
    Iter_Prev (fun a b => a - b) example node = Some node' /\ Iter_key example node' = Some 3.
Proof.
  destruct (skiplist_refines example [3; 5; 9] 4 example_represents I) as (Hc & (node & Es & Hp) & _ & _ & Hi & _).
  split; [exact Hc|]. exists node. change (length (List.filter _ _)) with 1%nat in Hp. destruct (Hi node 1%nat Hp) as (_ & Ek & Hn).
  destruct (Hn ltac:(cbn; lia)) as (_ & node' & Ep & Hp').
  exists node'. split; [exact Es|]. split; [exact Ek|]. split; [exact Ep|]. destruct (Hi node' 0%nat Hp') as (_ & Ek' & _). exact Ek'.
Defined.

(** Iterating over it gives the keys in order. *)
Example example_iterates :
  let first := Iter_SeekToFirst example in
  let second := Iter_Next example first in
  let third := Iter_Next example second in
  (Iter_key example first, Iter_key example second, Iter_key example third,
   Iter_Valid (Iter_Next example third)) = (Some 3, Some 5, Some 9, false).
Proof. vm_compute. reflexivity. Qed.
