(* ===== verification/LvMemTable.v ===== *)
(** * leveldb: the memtable (db/memtable.h, db/memtable.cc)

    A skip list of entries, each an internal key and a value in one buffer;
    adding entries, looking up a key at a snapshot, and inserting a batch. *)
From Stdlib Require Import ZArith Lia Bool List Permutation.
From stdpp Require Import base list gmap numbers.
From S2P Require Import Prelude LvCoding LvEnv LvComparator LvDbFormat LvWriteBatch.
From S2P Require Import LvSkipList.

Section MemTable.
Context (user_comparator : Comparator).

(** [GetVarint32Ptr(p, p + 5, &len)] on an entry, with what follows in the
    buffer: the entry is assumed not to be corrupted. *)
Definition entry_varint (data : list Z) : option (Z * list Z) :=
  match GetVarint32Ptr (take 5 data) with
  | None => None
  | Some (len, rest) => Some (len, drop (length (take 5 data) - length rest) data)
  end.

(** The [GetLengthPrefixedSlice] of this file: the slice and what follows. *)
Definition entry_slice (data : list Z) : option (list Z * list Z) :=
  match entry_varint data with
  | None => None
  | Some (len, p) => Some (take (Z.to_nat len) p, drop (Z.to_nat len) p)
  end.

(** The internal key at the front of an entry. *)
Definition entry_key (data : list Z) : list Z :=
  match entry_slice data with Some (k, _) => k | None => [] end.

(** [KeyComparator::operator()] *)
Definition entry_compare (a b : list Z) : Z :=
  internal_compare user_comparator (entry_key a) (entry_key b).

Record MemTable := Mem { table_ : SkipList (list Z); refs_ : Z }.

Definition make_MemTable : MemTable := Mem make_SkipList 0.
Definition Ref (m : MemTable) : MemTable := Mem (table_ m) (refs_ m + 1).
(** Nothing is left when the last reference is dropped. *)
Definition Unref (m : MemTable) : option MemTable :=
  if refs_ m - 1 <=? 0 then None else Some (Mem (table_ m) (refs_ m - 1)).

(** The bytes [Add] writes into the buffer it allocates, and the size of that
    buffer. *)
Definition entry (s : Z) (ty : ValueType) (key value : list Z) : list Z :=
  let internal_key_size := Z.of_nat (length key) + 8 in
  let val_size := Z.of_nat (length value) in
  EncodeVarint32 (u32 internal_key_size) ++ key ++
  EncodeFixed64 (Z.lor (u64 (Z.shiftl s 8)) (value_type_code ty)) ++
  EncodeVarint32 (u32 val_size) ++ value.

Definition encoded_len (key value : list Z) : Z :=
  let internal_key_size := Z.of_nat (length key) + 8 in
  let val_size := Z.of_nat (length value) in
  VarintLength internal_key_size + internal_key_size + VarintLength val_size + val_size.

Definition Add (m : MemTable) (s : Z) (ty : ValueType) (key value : list Z) : option MemTable :=
  match Insert entry_compare (table_ m) (entry s ty key value) with
  | Some t => Some (Mem t (refs_ m))
  | None => None
  end.

(** The outcomes of [Get]: false; true with a value; true with the status
    NotFound. *)
Inductive get_result := Miss | Found (value : list Z) | Deleted.

(** [Get]; nothing stands for a search that does not end or a corrupted entry. *)
Definition Get (m : MemTable) (key : LookupKey) : option get_result :=
  match Iter_Seek entry_compare (table_ m) (memtable_key key) with
  | None => None
  | Some None => Some Miss
  | Some (Some n) =>
      match key_ (table_ m) !! n with
      | None => None
      | Some e =>
          match entry_varint e with
          | None => None
          | Some (key_length, key_ptr) =>
              let k := take (Z.to_nat (u32 (key_length - 8))) key_ptr in
              if @Compare user_comparator k (lookup_user_key key) =? 0 then
                let tag := DecodeFixed64 (drop (Z.to_nat (key_length - 8)) key_ptr) in
                let c := Z.land tag 0xff in
                if c =? value_type_code kTypeValue then
                  match entry_slice (drop (Z.to_nat key_length) key_ptr) with
                  | Some (v, _) => Some (Found v)
                  | None => None
                  end
                else if c =? value_type_code kTypeDeletion then Some Deleted
                else Some Miss
              else Some Miss
          end
      end
  end.

(** ** The iterator *)

(** [EncodeKey]: a search key for an internal key. *)
Definition EncodeKey (target : list Z) : list Z :=
  PutVarint32 [] (u32 (Z.of_nat (length target))) ++ target.

(** [MemTableIterator]: the position is that of the iterator of the list. *)
Definition MemTableIterator_Seek (m : MemTable) (k : list Z) : option (option nat) :=
  Iter_Seek entry_compare (table_ m) (EncodeKey k).

(** [key()] and [value()] of a valid iterator. *)
Definition MemTableIterator_key (m : MemTable) (node : option nat) : option (list Z) :=
  match Iter_key (table_ m) node with
  | Some e => fst <$> entry_slice e
  | None => None
  end.

Definition MemTableIterator_value (m : MemTable) (node : option nat) : option (list Z) :=
  match Iter_key (table_ m) node with
  | Some e =>
      match entry_slice e with
      | Some (_, rest) => fst <$> entry_slice rest
      | None => None
      end
  | None => None
  end.

(** [MemTableInserter]: the handler that adds to a memtable.  Nothing is the
    state after an insertion that did not end. *)
Record MemTableInserter := Inserter { sequence_ : Z; mem_ : option MemTable }.

Definition inserter_add (h : MemTableInserter) (ty : ValueType) (key value : list Z)
    : MemTableInserter :=
  Inserter (u64 (sequence_ h + 1))
    (match mem_ h with Some m => Add m (sequence_ h) ty key value | None => None end).

#[global] Instance inserter_handler : Handler MemTableInserter := {
  handler_Put h key value := inserter_add h kTypeValue key value;
  handler_Delete h key := inserter_add h kTypeDeletion key [];
}.

(** [WriteBatchInternal::InsertInto] *)
Definition InsertInto (b : WriteBatch) (m : MemTable) : Status * option MemTable :=
  let '(s, h) := Iterate b (Inserter (Sequence b) (Some m)) in (s, mem_ h).

End MemTable.
