(* ===== verification/LvMemTableProps.v ===== *)
(** * leveldb: the memtable is a multi-version map (theorems about LvMemTable)

    The memtable against a list of the entries added to it: what a lookup at a
    snapshot returns, and what inserting a batch adds. *)
From Stdlib Require Import ZArith Lia Bool List Permutation Sorted.
From stdpp Require Import base list gmap numbers sorting.
From S2P Require Import Prelude Leb128 LvCoding LvEnv LvComparator LvDbFormat LvWriteBatch.
From S2P Require Import LvSkipList LvSkipListProps LvMemTable.

(** ** Entries *)

(** An entry as the callers of [Add] give it. *)
Record added := Added { a_seq : Z; a_type : ValueType; a_key : list Z; a_value : list Z }.

Lemma take_app_cut (k : nat) (a b : list Z) :
  (length a <= k)%nat -> take k (a ++ b) = a ++ take (k - length a) b.
Proof. intros H. now rewrite take_app_ge by lia. Qed.

Lemma entry_varint_ok n rest :
  0 <= n < 2 ^ 32 -> is_bytes rest ->
  entry_varint (EncodeVarint32 n ++ rest) = Some (n, rest).
Proof.
  intros Hn Hr. unfold entry_varint.
  assert (Hl : (length (EncodeVarint32 n) <= 5)%nat).
  { rewrite EncodeVarint32_varint by done. now apply varint_bytes_len5. }
  rewrite take_app_cut by done.
  pose proof (GetVarint32_Encode n (take (5 - length (EncodeVarint32 n)) rest) Hn) as E.
  unfold GetVarint32 in E. rewrite E by now apply Forall_take.
  rewrite length_app, Nat.add_sub. now rewrite drop_app_length.
Qed.

Lemma entry_slice_ok s rest :
  is_bytes s -> is_bytes rest -> Z.of_nat (length s) < 2 ^ 32 ->
  entry_slice (EncodeVarint32 (u32 (Z.of_nat (length s))) ++ s ++ rest) = Some (s, rest).
Proof.
  intros Hs Hr Hl. unfold entry_slice. rewrite wrapu_small by lia.
  rewrite entry_varint_ok by (try lia; now apply is_bytes_app).
  now rewrite Nat2Z.id, take_app_length, drop_app_length.
Qed.

(** The bytes of an entry that fits the format. *)
Definition added_ok (a : added) : Prop :=
  0 <= a_seq a < 2 ^ 56 /\ is_bytes (a_key a) /\ is_bytes (a_value a) /\
  Z.of_nat (length (a_key a)) + 8 < 2 ^ 32 /\ Z.of_nat (length (a_value a)) < 2 ^ 32.

Definition tag_of (a : added) : Z := PackSequenceAndType (a_seq a) (a_type a).
Definition ikey_of (a : added) : list Z := PutFixed64 (a_key a) (tag_of a).
Definition entry_of (a : added) : list Z := entry (a_seq a) (a_type a) (a_key a) (a_value a).

Lemma entry_of_app a :
  entry_of a = EncodeVarint32 (u32 (Z.of_nat (length (ikey_of a)))) ++ ikey_of a ++
               EncodeVarint32 (u32 (Z.of_nat (length (a_value a)))) ++ a_value a.
Proof.
  unfold entry_of, entry, ikey_of, PutFixed64, tag_of, PackSequenceAndType.
  rewrite length_app, length_EncodeFixed64, <- app_assoc.
  now replace (Z.of_nat (length (a_key a) + 8)) with (Z.of_nat (length (a_key a)) + 8) by lia.
Qed.

Lemma value_bytes a :
  added_ok a -> is_bytes (EncodeVarint32 (u32 (Z.of_nat (length (a_value a)))) ++ a_value a).
Proof.
  intros (_ & _ & Hv & _ & Hl). apply is_bytes_app. split; [|done].
  apply EncodeVarint32_bytes, wrapu_range. lia.
Qed.

Lemma ikey_bytes a : added_ok a -> is_bytes (ikey_of a).
Proof.
  intros (_ & Hk & _). unfold ikey_of, PutFixed64. apply is_bytes_app. auto with cint.
Qed.

Lemma ikey_length a : length (ikey_of a) = (length (a_key a) + 8)%nat.
Proof. unfold ikey_of, PutFixed64. now rewrite length_app. Qed.

Lemma entry_key_ok a : added_ok a -> entry_key (entry_of a) = ikey_of a.
Proof.
  intros Ha. unfold entry_key. rewrite entry_of_app, entry_slice_ok; [done| | |].
  - now apply ikey_bytes.
  - now apply value_bytes.
  - rewrite ikey_length. destruct Ha as (_ & _ & _ & Hl & _). lia.
Qed.

(** The buffer [Add] allocates has exactly the size of what it writes. *)
Lemma entry_fits a :
  added_ok a -> Z.of_nat (length (entry_of a)) = encoded_len (a_key a) (a_value a).
Proof.
  intros Ha. pose proof Ha as (_ & _ & _ & Hk & Hv).
  rewrite entry_of_app, !length_app, ikey_length. unfold encoded_len.
  assert (Hvl : forall n, 0 <= n < 2 ^ 32 -> Z.of_nat (length (EncodeVarint32 (u32 n))) = VarintLength n).
  { intros n Hn. rewrite VarintLength_correct by (zpow; lia).
    rewrite wrapu_small by lia. rewrite EncodeVarint32_varint, EncodeVarint64_varint by lia. done. }
  replace (Z.of_nat (length (a_key a) + 8)) with (Z.of_nat (length (a_key a)) + 8) by lia.
  rewrite !Nat2Z.inj_add, !Hvl by lia. lia.
Qed.

(** ** The order of entries *)

Section Props.
Context {C : Comparator} {valid : list Z -> Prop} {CL : ComparatorLaws C valid}.
Context (valid_bytes : forall k, valid k -> is_bytes k).

Definition entry_valid (e : list Z) : Prop := internal_valid valid (entry_key e).

#[global] Instance entry_order : KeyOrder (entry_compare C) entry_valid.
Proof.
  pose proof (internal_laws (C := C) (valid := valid)) as IL. split; unfold entry_valid, entry_compare.
  - intros a b Ha Hb. exact (@Compare_antisym _ _ IL _ _ Ha Hb).
  - intros a b c Ha Hb Hc. exact (@Compare_trans _ _ IL _ _ _ Ha Hb Hc).
Qed.

(** Entries the table may hold. *)
Definition added_valid (a : added) : Prop := added_ok a /\ valid (a_key a).

Lemma tag_range a : added_ok a -> 0 <= tag_of a < 2 ^ 64.
Proof. intros (Hs & _). now apply Pack_value. Qed.

Lemma ikey_extract a :
  added_ok a -> ExtractUserKey (ikey_of a) = a_key a /\ ExtractTag (ikey_of a) = tag_of a.
Proof. intros Ha. apply Extract_Put. now apply tag_range. Qed.

Lemma entry_valid_ok a : added_valid a -> entry_valid (entry_of a).
Proof.
  intros [Ha Hk]. unfold entry_valid. rewrite entry_key_ok by done.
  apply internal_valid_Put; [now apply tag_range|done].
Qed.

Lemma entry_compare_ok a b :
  added_ok a -> added_ok b ->
  entry_compare C (entry_of a) (entry_of b) = internal_compare C (ikey_of a) (ikey_of b).
Proof. intros Ha Hb. unfold entry_compare. now rewrite !entry_key_ok. Qed.

Lemma tag_lt a b :
  added_ok a -> added_ok b -> a_seq a < a_seq b -> tag_of a < tag_of b.
Proof.
  intros (Ha & _) (Hb & _) Hlt. unfold tag_of.
  destruct (Pack_value (a_seq a) (a_type a) Ha) as [-> _].
  destruct (Pack_value (a_seq b) (a_type b) Hb) as [-> _].
  destruct (a_type a), (a_type b); simpl; lia.
Qed.

(** Different sequence numbers make_SkipList different keys. *)
Lemma entries_differ a b :
  added_ok a -> added_ok b -> a_seq a <> a_seq b ->
  entry_compare C (entry_of a) (entry_of b) <> 0.
Proof.
  intros Ha Hb Hne. rewrite entry_compare_ok by done. intros [_ E]%internal_compare_eq.
  rewrite (proj2 (ikey_extract a Ha)), (proj2 (ikey_extract b Hb)) in E.
  pose proof (tag_lt a b Ha Hb). pose proof (tag_lt b a Hb Ha). lia.
Qed.

(** ** The memtable against the list of additions *)

Definition mem_is (m : MemTable) (l : list added) : Prop :=
  Forall added_valid l /\ NoDup (map a_seq l) /\
  exists ks, represents (compare_ := entry_compare C) (valid := entry_valid) (table_ m) ks /\
             Permutation ks (map entry_of l).

Lemma make_mem_is : mem_is make_MemTable [].
Proof.
  split; [constructor|]. split; [constructor|]. exists []. split; [apply represents_make|done].
Qed.

Lemma filter_perm (f : list Z -> bool) ks :
  Permutation (List.filter f ks ++ List.filter (fun k => negb (f k)) ks) ks.
Proof.
  induction ks as [|k ks IH]; [done|]. simpl. destruct (f k); simpl.
  - now constructor.
  - rewrite <- Permutation_middle. now constructor.
Qed.

Lemma Add_ok m l a :
  mem_is m l -> added_valid a -> ~ In (a_seq a) (map a_seq l) ->
  exists m', Add C m (a_seq a) (a_type a) (a_key a) (a_value a) = Some m' /\ mem_is m' (a :: l).
Proof.
  intros (Hl & Hn & ks & R & P) Ha Hnew. unfold Add. fold (entry_of a).
  destruct (Insert_represents (compare_ := entry_compare C) (valid := entry_valid)
              (table_ m) ks (entry_of a) R) as (t & -> & R').
  { now apply entry_valid_ok. }
  { rewrite Forall_forall. intros k Hk. rewrite P in Hk.
    apply list_elem_of_In, in_map_iff in Hk as (b & <- & Hb).
    rewrite List.Forall_forall in Hl. apply entries_differ; [now apply Hl|apply Ha|].
    intros E. apply Hnew. rewrite <- E. now apply in_map. }
  eexists. split; [reflexivity|]. split; [now constructor|]. split.
  { simpl. constructor; [now rewrite list_elem_of_In|done]. }
  eexists. split; [exact R'|]. unfold sorted_insert. simpl.
  rewrite <- Permutation_middle. constructor. now rewrite filter_perm.
Qed.

(** ** Lookups *)

(** What a lookup of [key] at snapshot [s] returns when [l] has been added:
    the newest entry of the key that is not newer than the snapshot. *)
Definition get_spec (l : list added) (key : list Z) (s : Z) (r : get_result) : Prop :=
  (r = Miss /\ forall b, In b l -> Compare (a_key b) key = 0 -> s < a_seq b) \/
  (exists a, In a l /\ Compare (a_key a) key = 0 /\ a_seq a <= s /\
     (forall b, In b l -> Compare (a_key b) key = 0 -> a_seq b <= s -> a_seq b <= a_seq a) /\
     r = match a_type a with kTypeValue => Found (a_value a) | kTypeDeletion => Deleted end).

(** The key of a lookup as an entry without value. *)
Lemma lookup_entry key s :
  is_bytes key -> Z.of_nat (length key) + 8 < 2 ^ 32 -> 0 <= s < 2 ^ 56 ->
  entry_key (memtable_key (make_LookupKey key s))
    = PutFixed64 key (PackSequenceAndType s kValueTypeForSeek) /\
  lookup_user_key (make_LookupKey key s) = key.
Proof.
  intros Hb Hl Hs. unfold memtable_key, make_LookupKey, lookup_user_key. cbn [klength kdata].
  set (k := key ++ _).
  assert (Hk : length k = (length key + 8)%nat) by (unfold k; now rewrite length_app).
  split.
  - unfold entry_key.
    replace (Z.of_nat (length key) + 8) with (Z.of_nat (length k)) by lia.
    rewrite <- (app_nil_r (EncodeVarint32 _ ++ k)), <- app_assoc.
    rewrite entry_slice_ok; [done| |constructor|lia].
    unfold k. apply is_bytes_app. auto with cint.
  - rewrite Hk, Nat.add_sub. unfold k. now rewrite take_app_length.
Qed.

(** An entry is not before the lookup key exactly if its user key is greater,
    or equal and its sequence number is in the snapshot. *)
Lemma entry_ge_target a key s :
  added_ok a -> is_bytes key -> Z.of_nat (length key) + 8 < 2 ^ 32 -> 0 <= s < 2 ^ 56 ->
  entry_compare C (entry_of a) (memtable_key (make_LookupKey key s)) < 0 <->
  Compare (a_key a) key < 0 \/ Compare (a_key a) key = 0 /\ s < a_seq a.
Proof.
  intros Ha Hb Hl Hs. unfold entry_compare.
  destruct (lookup_entry key s Hb Hl Hs) as [-> _]. rewrite entry_key_ok by done.
  rewrite internal_compare_lt.
  destruct (ikey_extract a Ha) as [-> ->].
  destruct (Pack_value s kValueTypeForSeek Hs) as [Et Er].
  destruct (Extract_Put key _ Er) as [-> ->]. rewrite Et. unfold tag_of.
  destruct Ha as (Hsa & _). destruct (Pack_value (a_seq a) (a_type a) Hsa) as [-> _].
  destruct (a_type a); simpl; lia.
Qed.

(** Reading the entry the search stops at. *)
Lemma Get_entry m key s n a :
  added_ok a -> is_bytes key -> Z.of_nat (length key) + 8 < 2 ^ 32 -> 0 <= s < 2 ^ 56 ->
  Iter_Seek (entry_compare C) (table_ m) (memtable_key (make_LookupKey key s)) = Some (Some n) ->
  key_ (table_ m) !! n = Some (entry_of a) ->
  Get C m (make_LookupKey key s) = Some
    (if Compare (a_key a) key =? 0 then
       match a_type a with kTypeValue => Found (a_value a) | kTypeDeletion => Deleted end
     else Miss).
Proof.
  intros Ha Hb Hl Hs Hseek Hn. pose proof Ha as (Hsa & Hka & Hva & Hlk & Hlv).
  unfold Get. rewrite Hseek, Hn, entry_of_app.
  rewrite entry_varint_ok.
  2:{ rewrite wrapu_small; rewrite ikey_length; zpow; lia. }
  2:{ apply is_bytes_app. split; [now apply ikey_bytes|now apply value_bytes]. }
  rewrite (wrapu_small 32 (Z.of_nat (length (ikey_of a)))) by (rewrite ikey_length; zpow; lia).
  destruct (lookup_entry key s Hb Hl Hs) as [_ ->].
  rewrite ikey_length, (wrapu_small 32 (_ - 8)) by lia.
  replace (Z.to_nat (Z.of_nat (length (a_key a) + 8) - 8)) with (length (a_key a)) by lia.
  unfold ikey_of at 1, PutFixed64. rewrite <- app_assoc, take_app_length.
  destruct (Z.eqb_spec (Compare (a_key a) key) 0); [|done].
  assert (Htag : forall rest, DecodeFixed64 (drop (length (a_key a)) (ikey_of a ++ rest)) = tag_of a).
  { intros rest. unfold ikey_of, PutFixed64. rewrite <- app_assoc, drop_app_length.
    apply Fixed64_roundtrip. now apply tag_range. }
  cbv zeta. rewrite !Htag, Nat2Z.id, <- ikey_length, drop_app_length.
  unfold tag_of. rewrite (proj1 (tag_fields (a_seq a) (a_type a) Hsa)).
  destruct (a_type a); cbn [value_type_code Z.eqb Pos.eqb]; [done|].
  rewrite <- (app_nil_r (a_value a)) at 2. rewrite entry_slice_ok by (try done; constructor). done.
Qed.

(** What the iterator shows at an entry. *)
Lemma iterator_entry m n a : added_ok a -> key_ (table_ m) !! n = Some (entry_of a) ->
  MemTableIterator_key m (Some n) = Some (ikey_of a) /\
  MemTableIterator_value m (Some n) = Some (a_value a).
Proof.
  intros Ha Hn. pose proof Ha as (Hsa & Hka & Hva & Hlk & Hlv).
  unfold MemTableIterator_key, MemTableIterator_value, Iter_key. rewrite Hn, entry_of_app.
  rewrite entry_slice_ok;
    [|now apply ikey_bytes|now apply value_bytes|rewrite ikey_length; lia].
  split; [done|]. rewrite <- (app_nil_r (a_value a)) at 2.
  now rewrite entry_slice_ok by (try done; constructor).
Qed.

(** [EncodeKey] of an internal key reads back as that key. *)
Lemma EncodeKey_ok k : is_bytes k -> Z.of_nat (length k) < 2 ^ 32 -> entry_key (EncodeKey k) = k.
Proof.
  intros Hb Hl. unfold entry_key, EncodeKey, PutVarint32. rewrite app_nil_l.
  rewrite <- (app_nil_r k) at 2. now rewrite entry_slice_ok by (try done; constructor).
Qed.

Lemma Get_ok m l key s :
  mem_is m l -> valid key -> Z.of_nat (length key) + 8 < 2 ^ 32 -> 0 <= s < 2 ^ 56 ->
  exists r, Get C m (make_LookupKey key s) = Some r /\ get_spec l key s r.
Proof.
  intros (Hl & Hn & ks & R & P) Hv Hlen Hs. pose proof (valid_bytes key Hv) as Hb.
  rewrite List.Forall_forall in Hl.
  set (target := memtable_key (make_LookupKey key s)).
  assert (Vt : entry_valid target).
  { unfold entry_valid, target. rewrite (proj1 (lookup_entry key s Hb Hlen Hs)).
    apply internal_valid_Put; [now apply Pack_value|done]. }
  assert (Hin : forall b, In b l -> entry_of b ∈ ks).
  { intros b Hb'. rewrite P. apply list_elem_of_In. now apply in_map. }
  destruct (Seek_first (compare_ := entry_compare C) (valid := entry_valid) (table_ m) ks target R Vt)
    as (node & Es & Hnode).
  destruct node as [n|].
  - destruct Hnode as (e & En & He & Hge & Hall).
    rewrite P in He. apply list_elem_of_In, in_map_iff in He as (a & <- & Ha).
    destruct (Hl a Ha) as [Oa Va].
    eexists. split; [apply (Get_entry m key s n a); assumption|].
    assert (Hrest : forall b, In b l -> Compare (a_key b) key = 0 -> a_seq b <= s ->
              Compare (a_key a) key = 0 /\ a_seq b <= a_seq a).
    { intros b Ib Eb Sb. destruct (Hl b Ib) as [Ob Vb].
      assert (Hnb : ~ entry_compare C (entry_of b) target < 0)
        by (unfold target; rewrite entry_ge_target by done; lia).
      assert (Hna : ~ entry_compare C (entry_of a) target < 0) by lia.
      unfold target in Hna. rewrite entry_ge_target in Hna by done.
      destruct (Hall (entry_of b) (Hin b Ib)) as [H|[H|H]]; [lia| |].
      - apply (f_equal entry_key) in H. rewrite !entry_key_ok in H by done.
        pose proof (f_equal ExtractUserKey H) as H1. pose proof (f_equal ExtractTag H) as H2.
        destruct (ikey_extract a Oa) as [E1 E2], (ikey_extract b Ob) as [E3 E4].
        rewrite E1, E3 in H1. rewrite E2, E4 in H2. rewrite <- H1. split; [done|].
        pose proof (tag_lt a b Oa Ob). lia.
      - rewrite entry_compare_ok in H by done. apply internal_compare_lt in H.
        destruct (ikey_extract a Oa) as [E1 E2], (ikey_extract b Ob) as [E3 E4].
        rewrite E1, E2, E3, E4 in H.
        assert (Hkb : Compare (a_key a) key <= 0).
        { apply (Compare_trans (a_key a) (a_key b) key); try done; lia. }
        pose proof (tag_lt a b Oa Ob).
        assert (Hka : Compare (a_key a) key = 0) by lia. split; [done|].
        assert (Compare (a_key a) (a_key b) = 0); [|lia].
        apply (Compare_eq_trans _ key); try done. now apply Compare_eq_sym. }
    destruct (Z.eqb_spec (Compare (a_key a) key) 0) as [E|N].
    + right. exists a. split; [done|]. split; [done|]. split.
      { assert (Hna : ~ entry_compare C (entry_of a) target < 0) by lia.
        unfold target in Hna. rewrite entry_ge_target in Hna by done. lia. }
      split; [|done]. intros b Ib Eb Sb. now apply Hrest.
    + left. split; [done|]. intros b Ib Eb.
      destruct (Z.lt_ge_cases s (a_seq b)) as [|G]; [done|].
      destruct (Hrest b Ib Eb ltac:(lia)). done.
  - exists Miss. split; [unfold Get; fold target; now rewrite Es|]. left. split; [done|].
    intros b Ib Eb. destruct (Hl b Ib) as [Ob Vb].
    specialize (Hnode _ (Hin b Ib)). unfold target in Hnode. rewrite entry_ge_target in Hnode by done. lia.
Qed.

(** ** Inserting a batch *)

(** The entries of the updates [us] from sequence number [seq] on. *)
Fixpoint number (seq : Z) (us : list update) : list added :=
  match us with
  | [] => []
  | UPut key value :: us => Added seq kTypeValue key value :: number (seq + 1) us
  | UDelete key :: us => Added seq kTypeDeletion key [] :: number (seq + 1) us
  end.

Definition update_valid (u : update) : Prop :=
  match u with
  | UPut key value => valid key /\ Z.of_nat (length key) + 8 < 2 ^ 32 /\ slice_ok value
  | UDelete key => valid key /\ Z.of_nat (length key) + 8 < 2 ^ 32
  end.

Lemma update_valid_ok u : update_valid u -> update_ok u.
Proof.
  destruct u; simpl; [intros (H1 & H2 & H3); split; [|done]|intros (H1 & H2)];
    (split; [now apply valid_bytes|lia]).
Qed.

Lemma run_inserter us l m seq :
  mem_is m l -> Forall update_valid us -> 0 <= seq -> seq + Z.of_nat (length us) < 2 ^ 56 ->
  (forall a, In a l -> a_seq a < seq) ->
  exists m', fold_left (run_handler (HH := inserter_handler C)) us (Inserter seq (Some m))
               = Inserter (seq + Z.of_nat (length us)) (Some m') /\
             mem_is m' (rev (number seq us) ++ l).
Proof.
  revert l m seq; induction us as [|u us IH]; intros l m seq Hm Hu Hs Hb Hlt.
  - exists m. simpl. rewrite Z.add_0_r. done.
  - apply List.Forall_cons_iff in Hu as [Hu Hus]. cbn [length] in Hb.
    set (a := match u with UPut key value => Added seq kTypeValue key value
                         | UDelete key => Added seq kTypeDeletion key [] end).
    assert (Ea : number seq (u :: us) = a :: number (seq + 1) us) by now destruct u.
    assert (Va : added_valid a).
    { destruct u as [key value|key]; simpl in Hu; unfold a.
      - destruct Hu as (V & L & Sv & Lv). repeat split; simpl; try done; try lia. now apply valid_bytes.
      - destruct Hu as (V & L). repeat split; simpl; try done; try lia; [now apply valid_bytes|constructor]. }
    assert (Sa : a_seq a = seq) by (unfold a; now destruct u).
    destruct (Add_ok m l a Hm Va) as (m1 & E1 & M1).
    { intros (b & Eb & Ib)%in_map_iff. specialize (Hlt b Ib). lia. }
    assert (Er : run_handler (HH := inserter_handler C) (Inserter seq (Some m)) u
                 = Inserter (seq + 1) (Some m1)).
    { rewrite Sa in E1. unfold a in E1.
      destruct u; simpl; unfold inserter_add; cbn [mem_ sequence_]; simpl in E1; rewrite E1;
        rewrite wrapu_small by (zpow; lia); done. }
    cbn [fold_left]. rewrite Er.
    destruct (IH (a :: l) m1 (seq + 1) M1 Hus) as (m' & E' & M'); [lia|lia| |].
    { intros b [<-|Ib]; [lia|specialize (Hlt b Ib); lia]. }
    exists m'. split.
    + rewrite E'. f_equal. cbn [length]. lia.
    + rewrite Ea. cbn [rev]. now rewrite <- app_assoc.
Qed.

Lemma number_seq seq us a : In a (number seq us) -> seq <= a_seq a < seq + Z.of_nat (length us).
Proof.
  revert seq; induction us as [|u us IH]; intros seq; [done|].
  destruct u; cbn [number length]; intros [<-|H]; simpl; try lia; specialize (IH _ H); lia.
Qed.

(** C11: A write is visible to later reads at the right snapshots.  Into a
    memtable that holds the entries [l], all older than [seq], a batch of the
    updates [us] with sequence number [seq] is inserted; the insertion
    succeeds, the updates get consecutive sequence numbers, and from then on a
    lookup of any key at any snapshot returns the newest entry of that key that
    is not newer than the snapshot: its value, or that it was deleted, or that
    there is none. *)
Theorem memtable_batch_get (m : MemTable) (l : list added) (b : WriteBatch) (us : list update) (seq : Z) :
  mem_is m l -> built b us -> Forall update_valid us ->
  0 <= seq -> seq + Z.of_nat (length us) < 2 ^ 56 -> Z.of_nat (length us) < 2 ^ 31 ->
  (forall a, In a l -> a_seq a < seq) ->
  exists m', InsertInto C (SetSequence b seq) m = (OK, Some m') /\
    mem_is m' (rev (number seq us) ++ l) /\
    forall key s, valid key -> Z.of_nat (length key) + 8 < 2 ^ 32 -> 0 <= s < 2 ^ 56 ->
      exists r, Get C m' (make_LookupKey key s) = Some r /\
                get_spec (rev (number seq us) ++ l) key s r.
Proof.
  intros Hm Hb Hu H0 Hs Hn Hlt.
  destruct (built_is b us Hb Hn) as [seq0 B0].
  pose proof (batch_SetSequence b seq0 us B0 seq) as B.
  destruct (run_inserter us l m seq Hm Hu H0 Hs Hlt) as (m' & E & M).
  exists m'. split.
  - unfold InsertInto. rewrite (batch_sequence _ seq us B) by (zpow; lia).
    rewrite (Iterate_ok _ seq us _ B); [now rewrite E| |done].
    eapply Forall_impl; [exact Hu|]. apply update_valid_ok.
  - split; [exact M|]. intros key s Hv Hl Hsn. now apply Get_ok.
Qed.

End Props.

(** The bytewise order; two updates of one key and a deletion of another. *)
Lemma memtable_batch_get_witness :
  let b := Delete (Put (Put Clear [1] [10]) [1] [11]) [2] in
  let us := [UPut [1] [10]; UPut [1] [11]; UDelete [2]] in
  exists m', InsertInto BytewiseComparator (SetSequence b 100) make_MemTable = (OK, Some m') /\
    mem_is (C := BytewiseComparator) (valid := is_bytes) m' (rev (number 100 us) ++ []) /\
    forall key s, is_bytes key -> Z.of_nat (length key) + 8 < 2 ^ 32 -> 0 <= s < 2 ^ 56 ->
      exists r, Get BytewiseComparator m' (make_LookupKey key s) = Some r /\
                get_spec (C := BytewiseComparator) (rev (number 100 us) ++ []) key s r.
Proof.
  intros b us.
  apply (memtable_batch_get (C := BytewiseComparator) (valid := is_bytes) (fun k H => H)
           make_MemTable [] b us 100).
  - apply make_mem_is.
  - apply (built_Delete _ [UPut [1] [10]; UPut [1] [11]]), (built_Put _ [UPut [1] [10]]), (built_Put _ []).
    apply built_Clear.
  - repeat constructor; simpl; try lia; unfold is_byte; lia.
  - lia.
  - simpl. lia.
  - simpl. lia.
  - intros a [].
Defined.

(** The lookups of that table, computed. *)
Example memtable_gets :
  let b := SetSequence (Delete (Put (Put Clear [1] [10]) [1] [11]) [2]) 100 in
  match InsertInto BytewiseComparator b make_MemTable with
  | (OK, Some m) =>
      map (fun q => Get BytewiseComparator m (make_LookupKey (fst q) (snd q)))
          [([1], 99); ([1], 100); ([1], 200); ([2], 101); ([2], 102); ([3], 102)]
      = [Some Miss; Some (Found [10]); Some (Found [11]); Some Miss; Some Deleted; Some Miss]
  | _ => False
  end.
Proof. vm_compute. reflexivity. Qed.
