(* ===== verification/LvBlock.v ===== *)
(** * leveldb: blocks of sorted entries (table/block_builder.cc, table/block.h, table/block.cc)

    The builder that compresses shared prefixes and places restart points, and
    the iterator that reads a block.  Positions in the block are offsets from
    [data_].  Where the code would read outside the block the result is
    nothing. *)
From Stdlib Require Import ZArith Lia Bool List String.
From stdpp Require Import base list numbers.
From S2P Require Import Prelude LvCoding LvEnv LvComparator.

(** ** The builder *)

Record BlockBuilder := Builder {
  buffer_ : list Z;
  b_restarts_ : list Z;
  counter_ : Z;
  finished_ : bool;
  last_key_ : list Z;
}.

(** Constructor and [Reset]. *)
Definition BlockBuilder_Reset : BlockBuilder := Builder [] [0] 0 false [].

Definition CurrentSizeEstimate (b : BlockBuilder) : Z :=
  Z.of_nat (length (buffer_ b)) + Z.of_nat (length (b_restarts_ b)) * 4 + 4.

Definition BlockBuilder_Finish (b : BlockBuilder) : BlockBuilder :=
  let buffer := fold_left PutFixed32 (b_restarts_ b) (buffer_ b) in
  let buffer := PutFixed32 buffer (u32 (Z.of_nat (length (b_restarts_ b)))) in
  Builder buffer (b_restarts_ b) (counter_ b) true (last_key_ b).

(** [common_prefix] is the loop on [shared], as in the comparator. *)
Definition BlockBuilder_Add (interval : Z) (b : BlockBuilder) (key value : list Z) : BlockBuilder :=
  let '(shared, restarts, counter) :=
    if counter_ b <? interval then
      (common_prefix (last_key_ b) key, b_restarts_ b, counter_ b)
    else (O, b_restarts_ b ++ [u32 (Z.of_nat (length (buffer_ b)))], 0) in
  let non_shared := (length key - shared)%nat in
  let buffer := PutVarint32 (buffer_ b) (u32 (Z.of_nat shared)) in
  let buffer := PutVarint32 buffer (u32 (Z.of_nat non_shared)) in
  let buffer := PutVarint32 buffer (u32 (Z.of_nat (length value))) in
  let buffer := buffer ++ drop shared key in
  let buffer := buffer ++ value in
  Builder buffer restarts (counter + 1) (finished_ b)
    (take shared (last_key_ b) ++ drop shared key).

(** ** The block *)

Record Block := MkBlock { data_ : list Z; size_ : Z; restart_offset_ : Z }.

(** [NumRestarts] of [size] bytes. *)
Definition NumRestarts_at (data : list Z) (size : Z) : Z :=
  DecodeFixed32 (drop (Z.to_nat (size - 4)) data).
Definition NumRestarts (b : Block) : Z := NumRestarts_at (data_ b) (size_ b).

Definition make_Block (contents : list Z) : Block :=
  let size := Z.of_nat (length contents) in
  if size <? 4 then MkBlock contents 0 0
  else
    let max_restarts_allowed := (size - 4) / 4 in
    let n := NumRestarts_at contents size in
    if max_restarts_allowed <? n then MkBlock contents 0 0
    else MkBlock contents size (u32 (u32 size - u64 (u32 (1 + n) * 4))).

(** ** Decoding an entry *)

(** [p] are the bytes up to [limit].  The result is a null pointer, or the three
    numbers and the bytes behind them; there is none when a byte outside is
    read. *)
Definition DecodeEntry (p : list Z) : option (option (Z * Z * Z * list Z)) :=
  if (length p <? 3)%nat then Some None else
  match p !! 0%nat, p !! 1%nat, p !! 2%nat with
  | Some shared, Some non_shared, Some value_length =>
      let decoded :=
        if Z.lor (Z.lor shared non_shared) value_length <? 128
        then Some (shared, non_shared, value_length, drop 3 p)
        else
          match GetVarint32Ptr p with
          | None => None
          | Some (shared, p) =>
              match GetVarint32Ptr p with
              | None => None
              | Some (non_shared, p) =>
                  match GetVarint32Ptr p with
                  | None => None
                  | Some (value_length, p) => Some (shared, non_shared, value_length, p)
                  end
              end
          end in
      Some (match decoded with
            | None => None
            | Some (shared, non_shared, value_length, p) =>
                if u32 (Z.of_nat (length p)) <? u32 (non_shared + value_length) then None
                else Some (shared, non_shared, value_length, p)
            end)
  | _, _, _ => None
  end.

(** ** The iterator *)

Record BlockIter := MkIter {
  i_data_ : list Z;
  i_restarts_ : Z;
  i_num_restarts_ : Z;
  i_current_ : Z;
  i_restart_index_ : Z;
  i_key_ : list Z;
  i_value_ : option (Z * Z);   (* offset and size in the block; none when cleared *)
  i_status_ : Status;
}.

Section Iter.
Context (comparator_ : Comparator).

Definition make_Iter (data : list Z) (restarts num_restarts : Z) : BlockIter :=
  MkIter data restarts num_restarts restarts num_restarts [] None OK.

Definition Block_Valid (i : BlockIter) : bool := i_current_ i <? i_restarts_ i.

(** There is no offset when the value was cleared, and points to no byte of the
    block. *)
Definition NextEntryOffset (i : BlockIter) : option Z :=
  match i_value_ i with
  | Some (o, n) => Some (u32 (o + n))
  | None => None
  end.

(** Nothing is the result of reading outside the block. *)
Definition GetRestartPoint (i : BlockIter) (index : Z) : option Z :=
  let o := i_restarts_ i + index * 4 in
  if (0 <=? o) && (o + 4 <=? Z.of_nat (length (i_data_ i)))
  then Some (DecodeFixed32 (drop (Z.to_nat o) (i_data_ i))) else None.

Definition SeekToRestartPoint (index : Z) (i : BlockIter) : option BlockIter :=
  match GetRestartPoint i index with
  | None => None
  | Some offset =>
      Some (MkIter (i_data_ i) (i_restarts_ i) (i_num_restarts_ i) (i_current_ i) index []
              (Some (offset, 0)) (i_status_ i))
  end.

Definition CorruptionError (i : BlockIter) : BlockIter :=
  MkIter (i_data_ i) (i_restarts_ i) (i_num_restarts_ i) (i_restarts_ i) (i_num_restarts_ i) []
    None (Corruption "bad entry in block").

Definition mark_invalid (i : BlockIter) : BlockIter :=
  MkIter (i_data_ i) (i_restarts_ i) (i_num_restarts_ i) (i_restarts_ i) (i_num_restarts_ i)
    (i_key_ i) (i_value_ i) (i_status_ i).

(** The loop on [restart_index_]; it takes no more rounds than there are restart
    points. *)
Fixpoint advance_restart (fuel : nat) (i : BlockIter) (index : Z) : option Z :=
  match fuel with
  | O => None
  | S fuel =>
      if index + 1 <? i_num_restarts_ i then
        match GetRestartPoint i (index + 1) with
        | None => None
        | Some o => if o <? i_current_ i then advance_restart fuel i (index + 1) else Some index
        end
      else Some index
  end.

(** The bytes from offset [o] to the restart array. *)
Definition entry_bytes (i : BlockIter) (o : Z) : list Z :=
  drop (Z.to_nat o) (take (Z.to_nat (i_restarts_ i)) (i_data_ i)).

(** Nothing is the result, too, when the entry claims more bytes than there are,
    which the check in [DecodeEntry] lets through when the sum of the lengths
    overflows. *)
Definition ParseNextKey (i : BlockIter) : option (bool * BlockIter) :=
  match NextEntryOffset i with
  | None => None
  | Some current =>
      if i_restarts_ i <=? current then Some (false, mark_invalid i)
      else
        match DecodeEntry (entry_bytes i current) with
        | None => None
        | Some None => Some (false, CorruptionError i)
        | Some (Some (shared, non_shared, value_length, p)) =>
            if Z.of_nat (length (i_key_ i)) <? shared then Some (false, CorruptionError i)
            else if Z.of_nat (length p) <? non_shared + value_length then None
            else
              let key := take (Z.to_nat shared) (i_key_ i) ++ take (Z.to_nat non_shared) p in
              let value := (i_restarts_ i - Z.of_nat (length p) + non_shared, value_length) in
              let i := MkIter (i_data_ i) (i_restarts_ i) (i_num_restarts_ i) current
                         (i_restart_index_ i) key (Some value) (i_status_ i) in
              match advance_restart (S (Z.to_nat (i_num_restarts_ i))) i (i_restart_index_ i) with
              | None => None
              | Some index =>
                  Some (true, MkIter (i_data_ i) (i_restarts_ i) (i_num_restarts_ i) current index key
                                (Some value) (i_status_ i))
              end
        end
  end.

(** The value of a valid iterator. *)
Definition Block_value (i : BlockIter) : list Z :=
  match i_value_ i with
  | Some (o, n) => take (Z.to_nat n) (drop (Z.to_nat o) (i_data_ i))
  | None => []
  end.

Definition Block_Next (i : BlockIter) : option BlockIter := snd <$> ParseNextKey i.

Definition Block_SeekToFirst (i : BlockIter) : option BlockIter :=
  match SeekToRestartPoint 0 i with
  | None => None
  | Some i => snd <$> ParseNextKey i
  end.

(** The binary search of [Seek] over the restart points; the result is the
    last one whose key is smaller than the target, or an iterator in error. *)
Fixpoint seek_restart (fuel : nat) (i : BlockIter) (target : list Z) (left right : Z)
    : option (Z + BlockIter) :=
  match fuel with
  | O => None
  | S fuel =>
      if left <? right then
        let mid := u32 (left + right + 1) / 2 in
        match GetRestartPoint i mid with
        | None => None
        | Some region_offset =>
            match DecodeEntry (entry_bytes i region_offset) with
            | None => None
            | Some None => Some (inr (CorruptionError i))
            | Some (Some (shared, non_shared, value_length, p)) =>
                if negb (shared =? 0) then Some (inr (CorruptionError i))
                else if Z.of_nat (length p) <? non_shared then None
                else if Compare (take (Z.to_nat non_shared) p) target <? 0
                then seek_restart fuel i target mid right
                else seek_restart fuel i target left (mid - 1)
            end
        end
      else Some (inl left)
  end.

(** The linear search of [Seek]. *)
Fixpoint seek_linear (fuel : nat) (i : BlockIter) (target : list Z) : option BlockIter :=
  match fuel with
  | O => None
  | S fuel =>
      match ParseNextKey i with
      | None => None
      | Some (false, i) => Some i
      | Some (true, i) =>
          if 0 <=? Compare (i_key_ i) target then Some i else seek_linear fuel i target
      end
  end.

(** An entry takes at least three bytes of the block. *)
Definition Block_Seek (i : BlockIter) (target : list Z) : option BlockIter :=
  match seek_restart (Z.to_nat (i_num_restarts_ i)) i target 0 (i_num_restarts_ i - 1) with
  | None => None
  | Some (inr i) => Some i
  | Some (inl first) =>
      match SeekToRestartPoint first i with
      | None => None
      | Some i => seek_linear (S (length (i_data_ i))) i target
      end
  end.

(** [while (ParseNextKey() && NextEntryOffset() < bound)], the loop of
    [SeekToLast] and, as a do-while, of [Prev]. *)
Fixpoint skip_until (fuel : nat) (i : BlockIter) (bound : Z) : option BlockIter :=
  match fuel with
  | O => None
  | S fuel =>
      match ParseNextKey i with
      | None => None
      | Some (false, i) => Some i
      | Some (true, i) =>
          match NextEntryOffset i with
          | None => None
          | Some o => if o <? bound then skip_until fuel i bound else Some i
          end
      end
  end.

(** The entries from a restart point on. *)
Definition skip_from (index : Z) (i : BlockIter) (bound : Z) : option BlockIter :=
  match SeekToRestartPoint index i with
  | None => None
  | Some i => skip_until (S (length (i_data_ i))) i bound
  end.

Definition Block_SeekToLast (i : BlockIter) : option BlockIter :=
  skip_from (i_num_restarts_ i - 1) i (i_restarts_ i).

(** The scan of [Prev] back to a restart point before the current entry, if there
    is one. *)
Fixpoint back_restart (fuel : nat) (i : BlockIter) (original index : Z) : option (option Z) :=
  match fuel with
  | O => None
  | S fuel =>
      match GetRestartPoint i index with
      | None => None
      | Some o =>
          if original <=? o then
            if index =? 0 then Some None else back_restart fuel i original (index - 1)
          else Some (Some index)
      end
  end.

Definition Block_Prev (i : BlockIter) : option BlockIter :=
  let original := i_current_ i in
  match back_restart (S (Z.to_nat (i_restart_index_ i))) i original (i_restart_index_ i) with
  | None => None
  | Some None => Some (mark_invalid i)
  | Some (Some index) => skip_from index i original
  end.

(** [Block::NewIterator]: an iterator in error, an empty one, or one over the
    entries. *)
Inductive NewIterator_result := ErrorIterator (s : Status) | EmptyIterator | Iterator (i : BlockIter).

Definition NewIterator (b : Block) : NewIterator_result :=
  if size_ b <? 4 then ErrorIterator (Corruption "bad block contents")
  else
    let num_restarts := NumRestarts b in
    if num_restarts =? 0 then EmptyIterator
    else Iterator (make_Iter (data_ b) (restart_offset_ b) num_restarts).

End Iter.
