(* ===== verification/LvBlockProps.v ===== *)
(** * leveldb: a block gives back its entries (theorems about LvBlock)

    The layout of a finished block, what the iterator does at each position of
    it, and that building and reading a block is the identity on sorted
    entries. *)
From Stdlib Require Import ZArith Lia Bool String List Sorted.
From stdpp Require Import base list numbers sorting.
From S2P Require Import Prelude Leb128 LvCoding LvEnv LvComparator LvBlock.

(** ** Layout *)

(** An entry and the number of bytes it shares with the key before it. *)
Record bitem := BItem { b_key : list Z; b_val : list Z; b_shared : nat }.

Definition enc_lens (i : bitem) : list Z :=
  EncodeVarint32 (u32 (Z.of_nat (b_shared i))) ++
  EncodeVarint32 (u32 (Z.of_nat (length (b_key i) - b_shared i))) ++
  EncodeVarint32 (u32 (Z.of_nat (length (b_val i)))).

Definition enc (i : bitem) : list Z := enc_lens i ++ drop (b_shared i) (b_key i) ++ b_val i.
Definition encs (l : list bitem) : list Z := concat (map enc l).

(** The offset of entry [n]. *)
Definition off (l : list bitem) (n : nat) : nat := length (encs (take n l)).

(** The shared prefixes are those of the keys before. *)
Fixpoint prefixes (prev : list Z) (l : list bitem) : Prop :=
  match l with
  | [] => True
  | i :: l =>
      ((b_shared i <= length prev)%nat /\ (b_shared i <= length (b_key i))%nat /\
       take (b_shared i) prev = take (b_shared i) (b_key i)) /\
      prefixes (b_key i) l
  end.

(** Keys and values are bytes, of lengths that fit. *)
Definition bitem_ok (i : bitem) : Prop :=
  is_bytes (b_key i) /\ is_bytes (b_val i) /\
  Z.of_nat (length (b_key i)) + Z.of_nat (length (b_val i)) < 2 ^ 32.

Lemma encs_app a b : encs (a ++ b) = encs a ++ encs b.
Proof. unfold encs. now rewrite map_app, concat_app. Qed.

Lemma encs_cons i l : encs (i :: l) = enc i ++ encs l.
Proof. reflexivity. Qed.

Lemma varint32_len v : 0 <= v < 2 ^ 32 -> (1 <= length (EncodeVarint32 v) <= 5)%nat.
Proof.
  intros H. rewrite EncodeVarint32_varint by done. split; [|now apply varint_bytes_len5].
  apply varint_bytes_ok. zpow. lia.
Qed.

Lemma enc_length i : bitem_ok i -> (3 <= length (enc i))%nat.
Proof.
  intros (_ & _ & H). unfold enc, enc_lens. rewrite !length_app.
  pose proof (varint32_len (u32 (Z.of_nat (b_shared i))) ltac:(apply wrapu_range; lia)).
  pose proof (varint32_len (u32 (Z.of_nat (length (b_key i) - b_shared i))) ltac:(apply wrapu_range; lia)).
  pose proof (varint32_len (u32 (Z.of_nat (length (b_val i)))) ltac:(apply wrapu_range; lia)). lia.
Qed.

Lemma enc_bytes i : bitem_ok i -> is_bytes (enc i).
Proof.
  intros (Hk & Hv & _). unfold enc, enc_lens.
  assert (Hw : forall x, is_bytes (EncodeVarint32 (u32 x)))
    by (intros; apply EncodeVarint32_bytes, wrapu_range; lia).
  rewrite !is_bytes_app. repeat split; try apply Hw; [now apply Forall_drop|done].
Qed.

Lemma encs_bytes l : Forall bitem_ok l -> is_bytes (encs l).
Proof.
  induction 1 as [|i l Hi _ IH]; [constructor|]. rewrite encs_cons. apply is_bytes_app.
  split; [now apply enc_bytes|done].
Qed.

Lemma encs_length l : Forall bitem_ok l -> (3 * length l <= length (encs l))%nat.
Proof.
  induction 1 as [|i l Hi _ IH]; [done|]. rewrite encs_cons, length_app.
  pose proof (enc_length i Hi). cbn [length]. lia.
Qed.

Lemma off_S l n i : l !! n = Some i -> off l (S n) = (off l n + length (enc i))%nat.
Proof.
  intros H. unfold off. rewrite (take_S_r _ _ _ H), encs_app, length_app. f_equal.
  unfold encs. simpl. now rewrite app_nil_r.
Qed.

Lemma off_mono l n m : (n <= m)%nat -> (off l n <= off l m)%nat.
Proof.
  intros H. unfold off. replace m with (n + (m - n))%nat by lia.
  rewrite <- take_take_drop, encs_app, length_app. lia.
Qed.

Lemma off_lt l n m :
  Forall bitem_ok l -> (n < m)%nat -> (n < length l)%nat -> (off l n < off l m)%nat.
Proof.
  intros Hl Hm Hn. destruct (lookup_lt_is_Some_2 l n Hn) as [i Hi].
  assert (3 <= length (enc i))%nat.
  { apply enc_length. rewrite Forall_forall in Hl. apply Hl. now apply list_elem_of_lookup_2 in Hi. }
  pose proof (off_S l n i Hi). pose proof (off_mono l (S n) m ltac:(lia)). lia.
Qed.

Lemma off_end l n : (length l <= n)%nat -> off l n = length (encs l).
Proof. intros H. unfold off. now rewrite take_ge. Qed.

Lemma drop_off l n : drop (off l n) (encs l) = encs (drop n l).
Proof.
  unfold off. rewrite <- (take_drop n l) at 2. rewrite encs_app. now rewrite drop_app_length.
Qed.

(** ** Decoding an entry *)

Lemma lor_lt_128 a b c :
  0 <= a < 256 -> 0 <= b < 256 -> 0 <= c < 256 ->
  Z.lor (Z.lor a b) c <? 128 = (a <? 128) && (b <? 128) && (c <? 128).
Proof.
  assert (H2 : forall x y, 0 <= x < 256 -> 0 <= y < 256 ->
     0 <= Z.lor x y < 256 /\ (Z.lor x y <? 128 = (x <? 128) && (y <? 128))).
  { intros x y Hx Hy.
    pose proof (range_forall (fun x => forallb (fun y => (0 <=? Z.lor x y) && (Z.lor x y <? 256) &&
        Bool.eqb (Z.lor x y <? 128) ((x <? 128) && (y <? 128))) (seqZ 0 256)) 256
        ltac:(vm_compute; reflexivity) x Hx) as H.
    pose proof (range_forall _ 256 H y Hy) as E. cbv beta in E. b2p.
    apply eqb_prop in H1. split; [lia|done]. }
  intros Ha Hb Hc. destruct (H2 a b Ha Hb) as [R1 E1]. destruct (H2 _ c R1 Hc) as [_ E2].
  now rewrite E2, E1.
Qed.

Lemma varint_short v : 0 <= v < 128 -> EncodeVarint32 v = [v].
Proof.
  intros H. unfold EncodeVarint32. change (Z.shiftl 1 7) with 128.
  destruct (Z.ltb_spec v 128); [|lia]. now rewrite wrapu_small by (zpow; lia).
Qed.

Lemma varint_long v :
  128 <= v < 2 ^ 32 -> exists b l, EncodeVarint32 v = b :: l /\ 128 <= b < 256 /\ l <> [].
Proof.
  intros H. rewrite EncodeVarint32_varint by lia.
  destruct (varint_bytes_ok v) as (H1 & H2 & _); [zpow; lia|].
  destruct (varint_bytes v) as [|b l]; [done|]. exists b, l.
  apply is_varint_inv in H1 as (Hb & [[-> Hlt]|(Hne & Hge & _)]); [|unfold is_byte in *; repeat split; (done || lia)].
  simpl in H2. rewrite Z.mod_small in H2 by lia. lia.
Qed.

(** The three lengths at the front of [p], decoded on either path. *)
Lemma DecodeEntry_lens s n v rest :
  0 <= s < 2 ^ 32 -> 0 <= n < 2 ^ 32 -> 0 <= v < 2 ^ 32 -> is_bytes rest ->
  DecodeEntry (EncodeVarint32 s ++ EncodeVarint32 n ++ EncodeVarint32 v ++ rest) =
    Some (if u32 (Z.of_nat (length rest)) <? u32 (n + v) then None else Some (s, n, v, rest)).
Proof.
  intros Hs Hn Hv Hr.
  pose proof (varint32_len s Hs). pose proof (varint32_len n Hn). pose proof (varint32_len v Hv).
  unfold DecodeEntry. rewrite !length_app.
  destruct (Nat.ltb_spec (length (EncodeVarint32 s) + (length (EncodeVarint32 n) +
    (length (EncodeVarint32 v) + length rest))) 3); [lia|].
  pose proof (EncodeVarint32_bytes s Hs) as Bs. pose proof (EncodeVarint32_bytes n Hn) as Bn.
  pose proof (EncodeVarint32_bytes v Hv) as Bv.
  assert (Hslow : GetVarint32Ptr (EncodeVarint32 s ++ EncodeVarint32 n ++ EncodeVarint32 v ++ rest)
                    = Some (s, EncodeVarint32 n ++ EncodeVarint32 v ++ rest) /\
                  GetVarint32Ptr (EncodeVarint32 n ++ EncodeVarint32 v ++ rest)
                    = Some (n, EncodeVarint32 v ++ rest) /\
                  GetVarint32Ptr (EncodeVarint32 v ++ rest) = Some (v, rest)).
  { repeat split; apply GetVarint32_Encode; try done; rewrite ?is_bytes_app; done. }
  destruct Hslow as (S1 & S2 & S3).
  set (p := EncodeVarint32 s ++ _) in *.
  assert (Hfast : s < 128 -> n < 128 -> v < 128 -> p = s :: n :: v :: rest).
  { intros. unfold p. rewrite !varint_short by lia. done. }
  assert (Hpb : is_bytes p) by (unfold p; rewrite !is_bytes_app; done).
  assert (Hby : forall k, is_byte (byte_at p k)).
  { intros k. unfold byte_at. destruct (Nat.lt_ge_cases k (length p)) as [L|L].
    - unfold is_bytes in Hpb. rewrite List.Forall_forall in Hpb. apply Hpb. now apply nth_In.
    - rewrite nth_overflow by lia. unfold is_byte. lia. }
  assert (Hat : forall k, (k < 3)%nat -> p !! k = Some (byte_at p k)).
  { intros k Hk. unfold byte_at. destruct (lookup_lt_is_Some_2 p k) as [x Ex]; [unfold p; rewrite !length_app; lia|].
    rewrite Ex. f_equal. symmetry. now apply nth_lookup_Some. }
  rewrite !Hat by lia. rewrite lor_lt_128 by apply Hby.
  destruct ((byte_at p 0 <? 128) && (byte_at p 1 <? 128) && (byte_at p 2 <? 128)) eqn:E.
  - rewrite !andb_true_iff, !Z.ltb_lt in E. destruct E as [[E1 E2] E3].
    assert (Hs' : s < 128).
    { destruct (Z.lt_ge_cases s 128); [done|]. destruct (varint_long s ltac:(lia)) as (b & l & El & Hb & _).
      unfold p, byte_at in E1. rewrite El in E1. simpl in E1. lia. }
    assert (Hn' : n < 128).
    { destruct (Z.lt_ge_cases n 128); [done|]. destruct (varint_long n ltac:(lia)) as (b & l & El & Hb & _).
      unfold p, byte_at in E2. rewrite El, varint_short in E2 by lia. simpl in E2. lia. }
    assert (Hv' : v < 128).
    { destruct (Z.lt_ge_cases v 128); [done|]. destruct (varint_long v ltac:(lia)) as (b & l & El & Hb & _).
      unfold p, byte_at in E3. rewrite El, !varint_short in E3 by lia. simpl in E3. lia. }
    rewrite (Hfast Hs' Hn' Hv'). reflexivity.
  - now rewrite S1, S2, S3.
Qed.

(** ** The builder *)

(** [ridx] are the entries at the restart points. *)
Record restarts_ok (l : list bitem) (ridx : list nat) : Prop := {
  ro_first : ridx !! 0%nat = Some 0%nat;
  ro_sorted : StronglySorted lt ridx;
  ro_in r k : ridx !! r = Some k -> k = 0%nat \/ (k < length l)%nat;
  ro_whole r k i : ridx !! r = Some k -> l !! k = Some i -> b_shared i = 0%nat;
}.

Definition last_key (l : list bitem) : list Z := from_option b_key [] (last l).

Record built (b : BlockBuilder) (l : list bitem) (ridx : list nat) : Prop := {
  bt_buffer : buffer_ b = encs l;
  bt_restarts : b_restarts_ b = map (fun k => u32 (Z.of_nat (off l k))) ridx;
  bt_ok : restarts_ok l ridx;
  bt_prefixes : prefixes [] l;
  bt_last : last_key_ b = last_key l;
  bt_counter : 0 <= counter_ b;
  bt_empty : l = [] -> counter_ b = 0 /\ ridx = [0%nat];
}.

Lemma common_prefix_ok a b :
  (common_prefix a b <= length a)%nat /\ (common_prefix a b <= length b)%nat /\
  take (common_prefix a b) a = take (common_prefix a b) b.
Proof.
  revert b. induction a as [|x a IH]; intros [|y b]; simpl; try (split; [lia|split; [lia|done]]).
  destruct (Z.eqb_spec x y) as [->|]; simpl; [|repeat split; lia].
  destruct (IH b) as (? & ? & E). rewrite E. repeat split; lia.
Qed.

Lemma prefixes_snoc prev l i :
  prefixes prev (l ++ [i]) <-> prefixes prev l /\ prefixes (from_option b_key prev (last l)) [i].
Proof.
  revert prev. induction l as [|j l IH]; intros prev; simpl; [tauto|].
  rewrite IH. destruct l as [|j' l]; simpl; [tauto|]. change (last (j' :: l)) with (last (j' :: l)).
  destruct (last (j' :: l)) eqn:E; simpl; [tauto|].
  apply last_None in E. done.
Qed.

Lemma off_snoc l i n : (n <= length l)%nat -> off (l ++ [i]) n = off l n.
Proof. intros H. unfold off. now rewrite take_app_le. Qed.

Lemma sorted_snoc (l : list nat) x :
  StronglySorted lt l -> Forall (fun y => (y < x)%nat) l -> StronglySorted lt (l ++ [x]).
Proof.
  induction 1 as [|y l Hs IH Hy]; intros H; simpl; [repeat constructor|].
  apply Forall_cons in H as [H1 H2]. constructor; [now apply IH|].
  apply Forall_app. split; [done|]. now constructor.
Qed.

Lemma restarts_grow l ridx i : restarts_ok l ridx -> (l = [] -> b_shared i = 0%nat /\ ridx = [0%nat]) ->
  restarts_ok (l ++ [i]) ridx.
Proof.
  intros [H1 H2 H3 H4] He. constructor; [done|done| |].
  - intros r k Hr. rewrite length_app. destruct (H3 r k Hr); lia.
  - intros r k j Hr Hk. apply lookup_app_Some in Hk as [Hk|[Hk Hj]]; [now apply (H4 r k)|].
    apply list_lookup_singleton_Some in Hj as [Hj <-].
    destruct (H3 r k Hr) as [->|]; [|lia].
    apply He. destruct l; simpl in *; [done|lia].
Qed.

Lemma restarts_push l ridx i :
  restarts_ok l ridx -> l <> [] -> b_shared i = 0%nat ->
  restarts_ok (l ++ [i]) (ridx ++ [length l]).
Proof.
  intros Hok Hne Hi. pose proof (restarts_grow l ridx i Hok ltac:(intros; exfalso; auto)) as G.
  destruct Hok as [H1 H2 H3 H4]. constructor.
  - now apply lookup_app_l_Some.
  - apply sorted_snoc; [done|]. apply Forall_forall. intros k Hk.
    apply list_elem_of_lookup in Hk as [r Hr].
    destruct l; [done|]. simpl in *. destruct (H3 r k Hr); lia.
  - intros r k Hr. rewrite length_app. simpl.
    apply lookup_app_Some in Hr as [Hr|[Hr Hj]]; [destruct (H3 r k Hr); lia|].
    apply list_lookup_singleton_Some in Hj as [_ <-]. lia.
  - intros r k j Hr Hk. apply lookup_app_Some in Hr as [Hr|[Hr Hj]]; [now apply (ro_whole _ _ G r k)|].
    apply list_lookup_singleton_Some in Hj as [_ <-].
    rewrite lookup_app_r, Nat.sub_diag in Hk by lia. simpl in Hk. now simplify_eq.
Qed.

Lemma restarts_off l ridx i : restarts_ok l ridx ->
  map (fun k => u32 (Z.of_nat (off l k))) ridx = map (fun k => u32 (Z.of_nat (off (l ++ [i]) k))) ridx.
Proof.
  intros H. apply map_ext_in. intros k Hk. apply list_elem_of_In, list_elem_of_lookup in Hk as [r Hr].
  rewrite off_snoc; [done|]. destruct (ro_in _ _ H r k Hr); lia.
Qed.

Lemma BlockBuilder_Reset_built : built BlockBuilder_Reset [] [0%nat].
Proof.
  constructor; try done. constructor; [done|repeat constructor| |done].
  intros [|r] k; [|done]. intros [= <-]. now left.
Qed.

(** [Add] appends an entry, and a restart point when the counter asks. *)
Lemma BlockBuilder_Add_built interval b l ridx key value :
  1 <= interval -> built b l ridx ->
  exists i ridx', b_key i = key /\ b_val i = value /\
    built (BlockBuilder_Add interval b key value) (l ++ [i]) ridx'.
Proof.
  intros Hint B. unfold BlockBuilder_Add.
  destruct (counter_ b <? interval) eqn:Ec.
  - set (s := common_prefix (last_key_ b) key). exists (BItem key value s), ridx.
    destruct (common_prefix_ok (last_key_ b) key) as (C1 & C2 & C3). fold s in C1, C2, C3.
    split; [done|]. split; [done|]. constructor; simpl.
    + unfold PutVarint32. rewrite (bt_buffer _ _ _ B), encs_app. unfold encs at 3. simpl.
      unfold enc, enc_lens. simpl. now rewrite app_nil_r, <- !app_assoc.
    + rewrite (bt_restarts _ _ _ B). apply restarts_off, B.
    + apply restarts_grow; [apply B|]. intros ->. split; [|now apply (bt_empty _ _ _ B)].
      simpl. rewrite (bt_last _ _ _ B) in C1. simpl in C1. lia.
    + apply prefixes_snoc. split; [apply B|]. simpl. split; [|done].
      rewrite (bt_last _ _ _ B) in C1, C3. unfold last_key in *.
      destruct (last l); simpl in *; done.
    + rewrite C3, take_drop. unfold last_key. now rewrite last_snoc.
    + pose proof (bt_counter _ _ _ B). lia.
    + intros Hn. now apply app_eq_nil in Hn as [_ ?].
  - apply Z.ltb_ge in Ec.
    assert (Hne : l <> []) by (intros ->; destruct (bt_empty _ _ _ B eq_refl); lia).
    exists (BItem key value 0), (ridx ++ [length l]).
    split; [done|]. split; [done|]. constructor; simpl.
    + unfold PutVarint32. rewrite (bt_buffer _ _ _ B), encs_app. unfold encs at 3. simpl.
      unfold enc, enc_lens. simpl. rewrite app_nil_r, <- !app_assoc.
      now replace (length key - 0)%nat with (length key) by lia.
    + rewrite map_app, (bt_restarts _ _ _ B). f_equal; [apply restarts_off, B|]. simpl.
      rewrite off_snoc by done. unfold off. rewrite take_ge by done. now rewrite (bt_buffer _ _ _ B).
    + apply restarts_push; [apply B|done|done].
    + apply prefixes_snoc. split; [apply B|]. simpl. repeat split; lia.
    + rewrite drop_0. unfold last_key. now rewrite last_snoc.
    + lia.
    + intros Hn. now apply app_eq_nil in Hn as [_ ?].
Qed.

(** Building a block from a list of entries. *)
Definition build_block (interval : Z) (entries : list (list Z * list Z)) : BlockBuilder :=
  fold_left (fun b e => BlockBuilder_Add interval b e.1 e.2) entries BlockBuilder_Reset.

Definition item_entry (i : bitem) : list Z * list Z := (b_key i, b_val i).

Lemma build_block_built interval entries : 1 <= interval ->
  exists l ridx, built (build_block interval entries) l ridx /\ map item_entry l = entries.
Proof.
  intros Hint. unfold build_block.
  cut (forall es b l ridx, built b l ridx ->
    exists l' ridx', built (fold_left (fun b e => BlockBuilder_Add interval b e.1 e.2) es b) l' ridx' /\
      map item_entry l' = map item_entry l ++ es).
  { intros H. apply (H entries _ _ _ BlockBuilder_Reset_built). }
  induction es as [|[k v] es IH]; intros b l ridx B; simpl.
  - exists l, ridx. now rewrite app_nil_r.
  - destruct (BlockBuilder_Add_built interval b l ridx k v Hint B) as (i & ridx' & <- & <- & B').
    destruct (IH _ _ _ B') as (l' & r' & B'' & E). exists l', r'. split; [done|].
    rewrite E, map_app, <- app_assoc. done.
Qed.

(** ** The finished block *)

Section Layout.
Context (l : list bitem) (ridx : list nat).

Definition restart_bytes : list Z := concat (map (fun k => EncodeFixed32 (Z.of_nat (off l k))) ridx).
Definition contents : list Z :=
  encs l ++ restart_bytes ++ EncodeFixed32 (Z.of_nat (length ridx)).
Definition rs : Z := Z.of_nat (length (encs l)).

Hypothesis Hr : restarts_ok l ridx.
Hypothesis Hp : prefixes [] l.
Hypothesis Hl : Forall bitem_ok l.
Hypothesis Hsize : rs + 4 * Z.of_nat (length ridx) + 4 < 2 ^ 32.

Lemma off_le n : Z.of_nat (off l n) <= rs.
Proof.
  clear. unfold rs. pose proof (off_mono l n (n + length l) ltac:(lia)) as H.
  rewrite (off_end l (n + length l)) in H by lia. lia.
Qed.

Lemma off_u32 n : u32 (Z.of_nat (off l n)) = Z.of_nat (off l n).
Proof. apply wrapu_small. pose proof (off_le n). lia. Qed.

Lemma length_restart_bytes : length restart_bytes = (4 * length ridx)%nat.
Proof.
  unfold restart_bytes. clear. induction ridx as [|k r IH]; [done|]. cbn [map concat]. rewrite length_app, length_EncodeFixed32, IH.
  simpl length. lia.
Qed.

Lemma length_contents : Z.of_nat (length contents) = rs + 4 * Z.of_nat (length ridx) + 4.
Proof.
  unfold contents, rs. rewrite !length_app, length_restart_bytes, length_EncodeFixed32. lia.
Qed.

Lemma num_restarts_pos : (0 < length ridx)%nat.
Proof. apply (lookup_lt_Some ridx 0%nat 0%nat), Hr. Qed.

Lemma NumRestarts_contents : NumRestarts_at contents (Z.of_nat (length contents)) = Z.of_nat (length ridx).
Proof.
  unfold NumRestarts_at, contents. rewrite app_assoc.
  replace (Z.to_nat _) with (length (encs l ++ restart_bytes)).
  2:{ rewrite !length_app, length_EncodeFixed32. lia. }
  rewrite drop_app_length. rewrite <- (app_nil_r (EncodeFixed32 _)).
  apply Fixed32_roundtrip. unfold rs in Hsize. lia.
Qed.

Lemma make_Block_contents : make_Block contents = MkBlock contents (Z.of_nat (length contents)) rs.
Proof.
  unfold make_Block. rewrite NumRestarts_contents. pose proof length_contents as E.
  destruct (Z.ltb_spec (Z.of_nat (length contents)) 4); [unfold rs in *; lia|].
  destruct (Z.ltb_spec ((Z.of_nat (length contents) - 4) / 4) (Z.of_nat (length ridx))) as [B|_].
  { rewrite E in B. replace (rs + 4 * Z.of_nat (length ridx) + 4 - 4)
      with (rs + Z.of_nat (length ridx) * 4) in B by lia.
    rewrite Z.div_add in B by lia. pose proof (Z.div_pos rs 4 ltac:(unfold rs; lia) ltac:(lia)). lia. }
  f_equal. assert (0 <= rs) by (unfold rs; lia). rewrite E.
  rewrite (wrapu_small 32 (1 + _)) by lia. rewrite (wrapu_small 64) by (zpow; lia).
  rewrite (wrapu_small 32 (rs + _ + _)) by lia. rewrite wrapu_small; lia.
Qed.

(** ** The iterator at a position *)

Definition shape (i : BlockIter) : Prop :=
  i_data_ i = contents /\ i_restarts_ i = rs /\ i_num_restarts_ i = Z.of_nat (length ridx).

Lemma restart_point i r k : shape i -> ridx !! r = Some k ->
  GetRestartPoint i (Z.of_nat r) = Some (Z.of_nat (off l k)).
Proof.
  intros (E1 & E2 & E3) Hk. unfold GetRestartPoint. rewrite E1, E2. cbv zeta.
  pose proof (lookup_lt_Some _ _ _ Hk) as Hlt.
  replace ((0 <=? rs + Z.of_nat r * 4) && (rs + Z.of_nat r * 4 + 4 <=? Z.of_nat (length contents))) with true.
  2:{ symmetry. apply andb_true_iff. rewrite !Z.leb_le, length_contents. unfold rs. lia. }
  f_equal. unfold contents, rs.
  replace (Z.to_nat _) with (length (encs l) + 4 * r)%nat by lia.
  rewrite drop_app_add.
  assert (E : exists rest, drop (4 * r) restart_bytes = EncodeFixed32 (Z.of_nat (off l k)) ++ rest).
  { unfold restart_bytes. clear -Hk. revert r Hk. induction ridx as [|x q IH]; intros [|r] Hk; try done.
    - injection Hk as ->. simpl. eauto.
    - replace (4 * S r)%nat with (length (EncodeFixed32 (Z.of_nat (off l x))) + 4 * r)%nat
        by (rewrite length_EncodeFixed32; lia).
      cbn [map concat]. rewrite drop_app_add. now apply IH. }
  destruct E as [rest E].
  assert (4 * r <= length restart_bytes)%nat
    by (rewrite length_restart_bytes; apply lookup_lt_Some in Hk; lia).
  rewrite drop_app_le by done. rewrite E, <- app_assoc. apply Fixed32_roundtrip.
  pose proof (off_le k). unfold rs in *. lia.
Qed.

Lemma entry_bytes_off i n : shape i -> entry_bytes i (Z.of_nat (off l n)) = encs (drop n l).
Proof.
  intros (E1 & E2 & _). unfold entry_bytes. rewrite E1, E2. unfold contents, rs.
  rewrite !Nat2Z.id, take_app_length. apply drop_off.
Qed.

(** The next entry to parse is [n], and the key has the bytes it shares. *)
Definition ready (i : BlockIter) (n : nat) : Prop :=
  shape i /\ NextEntryOffset i = Some (Z.of_nat (off l n)) /\ (n <= length l)%nat /\
  (forall it, l !! n = Some it ->
     (b_shared it <= length (i_key_ i))%nat /\
     take (b_shared it) (i_key_ i) = take (b_shared it) (b_key it)) /\
  exists r k, i_restart_index_ i = Z.of_nat r /\ ridx !! r = Some k /\ (k <= n)%nat.

(** The iterator is at entry [n]. *)
Definition positioned (i : BlockIter) (n : nat) : Prop :=
  shape i /\ i_current_ i = Z.of_nat (off l n) /\
  (exists it, l !! n = Some it /\ i_key_ i = b_key it /\
     i_value_ i = Some (Z.of_nat (off l (S n)) - Z.of_nat (length (b_val it)), Z.of_nat (length (b_val it)))) /\
  exists r k, i_restart_index_ i = Z.of_nat r /\ ridx !! r = Some k /\ (k <= n)%nat.

Lemma prefixes_at prev q n a b :
  prefixes prev q -> q !! n = Some a -> q !! S n = Some b ->
  (b_shared b <= length (b_key a))%nat /\ take (b_shared b) (b_key a) = take (b_shared b) (b_key b).
Proof.
  revert prev n. induction q as [|i q IH]; intros prev n H Ha Hb; [done|].
  destruct H as [H1 H2].
  destruct n as [|n]; [|now apply (IH (b_key i) n)].
  injection Ha as ->. destruct q as [|j q]; [done|]. injection Hb as ->. destruct H2 as [(? & ? & ?) _]. done.
Qed.

Lemma prefixes_own prev q n a : prefixes prev q -> q !! n = Some a -> (b_shared a <= length (b_key a))%nat.
Proof.
  revert prev n. induction q as [|i q IH]; intros prev n H Ha; [done|].
  destruct H as [H1 H2].
  destruct n as [|n]; [|now apply (IH (b_key i) n)]. injection Ha as ->. apply H1.
Qed.

Lemma item_ok n it : l !! n = Some it -> bitem_ok it.
Proof. intros H. rewrite Forall_lookup in Hl. now apply (Hl n). Qed.

Lemma positioned_ready i n : positioned i n -> ready i (S n).
Proof.
  intros (Sh & Ec & (it & Hit & Ek & Ev) & r & k & E1 & E2 & E3). repeat split; try apply Sh.
  - unfold NextEntryOffset. rewrite Ev, Z.sub_add. f_equal. apply off_u32.
  - apply lookup_lt_Some in Hit. lia.
  - rewrite Ek. now apply (prefixes_at [] l n it).
  - rewrite Ek. now apply (prefixes_at [] l n it).
  - exists r, k. repeat split; try done. lia.
Qed.

Lemma restart_ready i r k :
  shape i -> ridx !! r = Some k ->
  exists i', SeekToRestartPoint (Z.of_nat r) i = Some i' /\ ready i' k /\ i_status_ i' = i_status_ i.
Proof.
  intros Sh Hk. unfold SeekToRestartPoint. rewrite (restart_point i r k Sh Hk). eexists. split; [reflexivity|]. split; [|done].
  repeat split; try apply Sh.
  - unfold NextEntryOffset. cbn [i_value_]. rewrite Z.add_0_r. f_equal. apply off_u32.
  - destruct (ro_in _ _ Hr r k Hk); lia.
  - rewrite (ro_whole _ _ Hr r k it) by done. lia.
  - rewrite (ro_whole _ _ Hr r k it) by done. done.
  - exists r, k. now repeat split.
Qed.

Lemma DecodeEntry_at n it : l !! n = Some it ->
  exists p, DecodeEntry (encs (drop n l)) =
      Some (Some (Z.of_nat (b_shared it), Z.of_nat (length (b_key it) - b_shared it),
                  Z.of_nat (length (b_val it)), p)) /\
    p = drop (b_shared it) (b_key it) ++ b_val it ++ encs (drop (S n) l).
Proof.
  intros Hit. eexists. split; [|reflexivity].
  rewrite (drop_S _ _ _ Hit), encs_cons. unfold enc, enc_lens. rewrite <- !app_assoc.
  destruct (item_ok n it Hit) as (Bk & Bv & Hlen).
  pose proof (prefixes_own [] l n it Hp Hit).
  rewrite !(wrapu_small 32) by lia.
  rewrite DecodeEntry_lens; [|lia|lia|lia|].
  2:{ rewrite !is_bytes_app. repeat split; [now apply Forall_drop|done|].
      apply encs_bytes. now apply Forall_drop. }
  match goal with |- context [?a <? ?b] => destruct (Z.ltb_spec a b) as [B|_]; [|done] end.
  exfalso. revert B. rewrite !length_app, length_drop.
  assert (Hrest : Z.of_nat (length (encs (drop (S n) l))) <= rs).
  { rewrite <- drop_off, length_drop. unfold rs. lia. }
  assert (Hk : (length (b_key it) - b_shared it + length (b_val it) +
     length (encs (drop (S n) l)) <= length (encs l))%nat).
  { rewrite <- (take_drop n l) at 2. rewrite encs_app, (drop_S _ _ _ Hit), encs_cons, !length_app.
    unfold enc. rewrite !length_app, length_drop. lia. }
  unfold rs in *. rewrite !(wrapu_small 32) by lia. lia.
Qed.

Lemma advance_restart_ok fuel i r k n :
  shape i -> i_current_ i = Z.of_nat (off l n) -> ridx !! r = Some k -> (k <= n)%nat -> (length ridx - r < fuel)%nat ->
  exists r' k', advance_restart fuel i (Z.of_nat r) = Some (Z.of_nat r') /\ ridx !! r' = Some k' /\ (k' <= n)%nat.
Proof.
  intros Sh Ec. revert r k. induction fuel as [|fuel IH]; intros r k Hk Hkn Hf; [lia|]. simpl.
  destruct (Z.ltb_spec (Z.of_nat r + 1) (i_num_restarts_ i)) as [B|_]; simpl; [|now exists r, k].
  assert (Hlt : (S r < length ridx)%nat) by (destruct Sh as (_ & _ & E); lia).
  destruct (lookup_lt_is_Some_2 ridx _ Hlt) as [k' Hk'].
  replace (Z.of_nat r + 1) with (Z.of_nat (S r)) by lia.
  rewrite (restart_point i _ k' Sh Hk'), Ec.
  destruct (Z.ltb_spec (Z.of_nat (off l k')) (Z.of_nat (off l n))) as [B'|_]; [|now exists r, k].
  apply (IH _ k' Hk'); [|lia]. destruct (Nat.le_gt_cases k' n) as [|G]; [done|].
  pose proof (off_mono l n k' ltac:(lia)). lia.
Qed.

Lemma off_val n it : l !! n = Some it ->
  (off l (S n) = off l n + length (enc_lens it) + (length (b_key it) - b_shared it) + length (b_val it))%nat.
Proof. intros H. rewrite (off_S _ _ _ H). unfold enc. rewrite !length_app, length_drop. lia. Qed.

Lemma encs_split n : (off l n + length (encs (drop n l)) = length (encs l))%nat.
Proof. unfold off. rewrite <- length_app, <- encs_app. now rewrite take_drop. Qed.

(** Parsing moves from ready to positioned. *)
Lemma ParseNextKey_ok i n : ready i n -> (n < length l)%nat ->
  exists i', ParseNextKey i = Some (true, i') /\ positioned i' n /\ i_status_ i' = i_status_ i.
Proof.
  intros (Sh & En & _ & Hkey & r & k & Er & Hk & Hkn) Hn.
  destruct (lookup_lt_is_Some_2 l n Hn) as [it Hit]. destruct (Hkey it Hit) as [Hs Ht].
  pose proof (off_lt l n (length l) Hl Hn Hn) as Ho. rewrite (off_end l (length l)) in Ho by done.
  unfold ParseNextKey. rewrite En. pose proof Sh as (E1 & E2 & E3).
  rewrite E2. destruct (Z.leb_spec rs (Z.of_nat (off l n))); [unfold rs in *; lia|].
  rewrite entry_bytes_off by done.
  destruct (DecodeEntry_at n it Hit) as (p & -> & Hpp).
  destruct (Z.ltb_spec (Z.of_nat (length (i_key_ i))) (Z.of_nat (b_shared it))); [lia|].
  pose proof (prefixes_own [] l n it Hp Hit) as Hown.
  assert (Hlen : length p = (length (b_key it) - b_shared it + (length (b_val it) + length (encs (drop (S n) l))))%nat)
    by (rewrite Hpp, !length_app, length_drop; done).
  match goal with |- context [?a <? ?b] => destruct (Z.ltb_spec a b); [lia|] end.
  match goal with |- context [advance_restart ?f ?j ?x] =>
    assert (Sh1 : shape j) by done; assert (Ex : x = Z.of_nat r) by exact Er;
    destruct (advance_restart_ok f j r k n Sh1 eq_refl Hk Hkn) as (r' & k' & Ea & Hk' & Hkn');
    [cbn [i_num_restarts_]; lia|]; rewrite Ex, Ea
  end.
  eexists. split; [reflexivity|]. split; [|done].
  split; [done|]. split; [done|]. split; [|now exists r', k'].
  exists it. split; [done|]. split.
  - cbn [i_key_]. rewrite !Nat2Z.id, Ht, Hpp, take_app_le by (rewrite length_drop; lia).
    rewrite (take_ge (drop _ _)) by (rewrite length_drop; lia). apply take_drop.
  - simpl. f_equal. f_equal. pose proof (encs_split (S n)). unfold rs. lia.
Qed.

Lemma ParseNextKey_end i : ready i (length l) -> ParseNextKey i = Some (false, mark_invalid i).
Proof.
  intros ((E1 & E2 & E3) & En & _). unfold ParseNextKey. rewrite En, E2, off_end by done.
  destruct (Z.leb_spec rs (Z.of_nat (length (encs l)))); [done|unfold rs in *; lia].
Qed.

Lemma positioned_value i n it : positioned i n -> l !! n = Some it -> Block_value i = b_val it.
Proof.
  intros ((E1 & _) & _ & (it' & Hit & _ & Ev) & _) Hit'. rewrite Hit in Hit'. injection Hit' as ->.
  unfold Block_value. rewrite Ev, E1. unfold contents.
  pose proof (off_val n it Hit) as Ho. pose proof (encs_split (S n)) as Hsp.
  replace (Z.to_nat (Z.of_nat (off l (S n)) - Z.of_nat (length (b_val it))))
    with (off l n + (length (enc_lens it) + (length (b_key it) - b_shared it)))%nat by lia.
  rewrite <- drop_drop, drop_app_le by (pose proof (off_le n); unfold rs in *; lia).
  rewrite drop_off, (drop_S _ _ _ Hit), encs_cons. unfold enc. rewrite <- !app_assoc.
  rewrite drop_app_add. rewrite <- length_drop, drop_app_length, Nat2Z.id. apply take_app_length.
Qed.

Lemma positioned_valid i n : positioned i n -> Block_Valid i = true.
Proof.
  intros ((_ & E2 & _) & Ec & (it & Hit & _) & _). unfold Block_Valid. rewrite Ec, E2. unfold rs.
  pose proof (off_lt l n (length l) Hl). rewrite (off_end l (length l)) in H by done.
  apply lookup_lt_Some in Hit. lia.
Qed.

(** ** The operations *)

(** The iterator is at entry [n], or past the last one. *)
Definition at_entry (i : BlockIter) (n : nat) : Prop :=
  i_status_ i = OK /\ (positioned i n \/ n = length l /\ shape i /\ i_current_ i = rs).

Lemma invalid_end i : ready i (length l) -> i_status_ i = OK -> at_entry (mark_invalid i) (length l).
Proof. intros ((E1 & E2 & E3) & _) Hs. split; [done|]. right. repeat split; done. Qed.

Lemma block_parse_at i n : ready i n -> i_status_ i = OK ->
  exists b i', ParseNextKey i = Some (b, i') /\ at_entry i' n /\ b = (n <? length l)%nat.
Proof.
  intros R Hs. destruct (Nat.ltb_spec n (length l)) as [Hn|Hn].
  - destruct (ParseNextKey_ok i n R Hn) as (i' & E & P & St). exists true, i'.
    split; [done|]. split; [|done]. split; [congruence|now left].
  - assert (n = length l) as -> by (destruct R as (_ & _ & ? & _); lia).
    exists false, (mark_invalid i). split; [now apply ParseNextKey_end|]. split; [now apply invalid_end|done].
Qed.

Lemma at_entry_lt i n : at_entry i n -> (n < length l)%nat -> positioned i n.
Proof. intros [_ [P|[-> _]]] H; [done|lia]. Qed.

Lemma at_entry_shape i n : at_entry i n -> shape i.
Proof. intros [_ [[S _]|(_ & S & _)]]; done. Qed.

Lemma at_entry_status i n : at_entry i n -> i_status_ i = OK.
Proof. now intros [? _]. Qed.

(** The loop on [NextEntryOffset] stops at the entry before its bound. *)
Lemma skip_until_ok fuel i n m :
  ready i n -> i_status_ i = OK -> (n < m <= length l)%nat -> (m - n <= fuel)%nat ->
  exists i', skip_until fuel i (Z.of_nat (off l m)) = Some i' /\ at_entry i' (m - 1).
Proof.
  revert i n. induction fuel as [|fuel IH]; intros i n R Hs Hm Hf; [lia|]. simpl.
  destruct (block_parse_at i n R Hs) as (b & i' & E & A & ->). rewrite E.
  destruct (Nat.ltb_spec n (length l)); [|lia].
  assert (P : positioned i' n) by now apply at_entry_lt.
  pose proof (positioned_ready i' n P) as R'. pose proof R' as (_ & En' & _).
  rewrite En'. destruct (Z.ltb_spec (Z.of_nat (off l (S n))) (Z.of_nat (off l m))) as [B|B].
  - apply (IH i' (S n)); [now apply positioned_ready|apply A| |lia].
    destruct (Nat.eq_dec (S n) m) as [<-|]; [lia|lia].
  - exists i'. split; [done|].
    destruct (Nat.eq_dec (S n) m) as [<-|]; [now replace (S n - 1)%nat with n by lia|].
    pose proof (off_lt l (S n) m Hl ltac:(lia) ltac:(lia)). lia.
Qed.

Lemma fuel_enough n : (length l - n <= S (length contents))%nat.
Proof.
  pose proof (encs_length l Hl). unfold contents. rewrite length_app. lia.
Qed.

(** The entries from a restart point on, up to the one before [m]. *)
Lemma skip_from_ok i r k m :
  shape i -> i_status_ i = OK -> ridx !! r = Some k -> (k < m <= length l)%nat ->
  exists i', skip_from (Z.of_nat r) i (Z.of_nat (off l m)) = Some i' /\ at_entry i' (m - 1).
Proof.
  intros Sh Hs Hk Hm. unfold skip_from. destruct (restart_ready i r k Sh Hk) as (i' & -> & R & Hs').
  pose proof R as ((E1 & _) & _). rewrite E1. apply (skip_until_ok _ _ k); [done|congruence|done|].
  pose proof (fuel_enough k). lia.
Qed.

Lemma Block_SeekToFirst_ok i n : at_entry i n ->
  exists i', Block_SeekToFirst i = Some i' /\ at_entry i' 0.
Proof.
  intros A. unfold Block_SeekToFirst.
  destruct (restart_ready i 0 0) as (i1 & E1 & R & Hs); [now apply (at_entry_shape i n)|apply Hr|].
  change (Z.of_nat 0) with 0 in E1. rewrite E1.
  destruct (block_parse_at _ _ R) as (b & i' & E & A' & _); [rewrite Hs; apply A|]. rewrite E. now exists i'.
Qed.

Lemma Block_Next_ok i n : at_entry i n -> (n < length l)%nat ->
  exists i', Block_Next i = Some i' /\ at_entry i' (S n).
Proof.
  intros A Hn. unfold Block_Next.
  destruct (block_parse_at i (S n)) as (b & i' & E & A' & _); [|apply A|].
  - apply positioned_ready. now apply at_entry_lt.
  - rewrite E. now exists i'.
Qed.

Lemma Block_SeekToLast_ok i n : at_entry i n ->
  exists i', Block_SeekToLast i = Some i' /\ at_entry i' (length l - 1).
Proof.
  intros A. pose proof (at_entry_shape i n A) as Sh. pose proof Sh as (E1 & E2 & E3).
  unfold Block_SeekToLast. rewrite E2, E3.
  pose proof num_restarts_pos as Hpos.
  destruct (lookup_lt_is_Some_2 ridx (length ridx - 1) ltac:(lia)) as [k Hk].
  replace (Z.of_nat (length ridx) - 1) with (Z.of_nat (length ridx - 1)) by lia.
  destruct (Nat.lt_ge_cases k (length l)) as [Hlt|Hge].
  - replace rs with (Z.of_nat (off l (length l))) by (unfold rs; now rewrite off_end).
    apply (skip_from_ok i _ k); [done|apply A|done|lia].
  - (* no entries *)
    assert (k = 0%nat /\ length l = 0%nat) as [-> E0] by (destruct (ro_in _ _ Hr _ k Hk); lia).
    unfold skip_from. destruct (restart_ready i _ _ Sh Hk) as (i1 & -> & R & Hs). cbn [skip_until].
    destruct (block_parse_at _ _ R) as (b & i' & E & A' & Hb); [rewrite Hs; apply A|].
    rewrite E, Hb, E0. simpl. exists i'. split; [done|]. exact A'.
Qed.

(** [Prev] scans back over the restart points at or behind the entry. *)
Lemma back_restart_ok fuel i r k n :
  shape i -> ridx !! r = Some k -> (r < fuel)%nat -> (n < length l)%nat ->
  exists o, back_restart fuel i (Z.of_nat (off l n)) (Z.of_nat r) = Some o /\
  match o with
  | None => n = 0%nat
  | Some x => exists r' k', x = Z.of_nat r' /\ ridx !! r' = Some k' /\ (k' < n)%nat
  end.
Proof.
  intros Sh. revert r k. induction fuel as [|fuel IH]; intros r k Hk Hf Hn; [lia|]. simpl.
  rewrite (restart_point i r k Sh Hk).
  destruct (Z.leb_spec (Z.of_nat (off l n)) (Z.of_nat (off l k))) as [B|B].
  - destruct (Z.eqb_spec (Z.of_nat r) 0) as [E|E].
    + exists None. split; [done|]. assert (r = 0%nat) as -> by lia. rewrite (ro_first _ _ Hr) in Hk. injection Hk as <-.
      destruct (Nat.eq_dec n 0%nat); [done|]. pose proof (off_lt l 0 n Hl ltac:(lia) ltac:(lia)). lia.
    + destruct (lookup_lt_is_Some_2 ridx (r - 1)) as [k' Hk']; [apply lookup_lt_Some in Hk; lia|].
      replace (Z.of_nat r - 1) with (Z.of_nat (r - 1)) by lia. apply (IH _ k'); [done|lia|done].
  - exists (Some (Z.of_nat r)). split; [done|]. exists r, k. repeat split; try done. destruct (Nat.le_gt_cases n k) as [G|]; [|done].
    pose proof (off_mono l n k G). lia.
Qed.

Lemma Block_Prev_ok i n : at_entry i n -> (n < length l)%nat ->
  exists i', Block_Prev i = Some i' /\
    at_entry i' (match n with O => length l | S m => m end).
Proof.
  intros A Hn. pose proof (at_entry_lt i n A Hn) as (Sh & Ec & _ & r & k & Er & Hk & Hkn).
  unfold Block_Prev. rewrite Ec, Er, Nat2Z.id.
  destruct (back_restart_ok (S r) i r k n Sh Hk ltac:(lia) Hn) as (o & -> & B).
  destruct o as [x|].
  - destruct B as (r' & k' & -> & Hk' & Hlt). destruct n as [|m]; [lia|].
    destruct (skip_from_ok i r' k' (S m) Sh) as (i' & E & A'); [apply A|done|lia|].
    exists i'. split; [done|]. now replace (S m - 1)%nat with m in A' by lia.
  - subst n. eexists. split; [reflexivity|]. split; [apply A|]. right.
    destruct Sh as (E1 & E2 & E3). repeat split; done.
Qed.

(** ** Seek *)

Section Seek.
Context {C : Comparator} {valid : list Z -> Prop} {L : ComparatorLaws C valid}.
Hypothesis Hsorted : StronglySorted (fun a b => Compare (b_key a) (b_key b) < 0) l.
Hypothesis Hvalid : Forall (fun i => valid (b_key i)) l.
Context (target : list Z) (Ht : valid target).

(** Every entry before [n] has a key smaller than the target. *)
Definition below (n : nat) : Prop :=
  forall j it, (j < n)%nat -> l !! j = Some it -> Compare (b_key it) target < 0.

Lemma below_S n it : below n -> l !! n = Some it -> Compare (b_key it) target < 0 -> below (S n).
Proof.
  intros B Hit Hc j jt Hj Hjt. destruct (Nat.eq_dec j n) as [->|]; [congruence|].
  apply (B j); [lia|done].
Qed.

Lemma keys_lt j k a b : (j < k)%nat -> l !! j = Some a -> l !! k = Some b -> Compare (b_key a) (b_key b) < 0.
Proof.
  clear -Hsorted. revert j k. induction Hsorted as [|x q Hs IH Hx]; intros j k Hj Ha Hb; [done|].
  destruct k as [|k]; [lia|]. simpl in Hb. destruct j as [|j].
  - injection Ha as ->. rewrite Forall_lookup in Hx. now apply (Hx k).
  - apply (IH Hs j k); [lia|done|done].
Qed.

Lemma below_key k it : l !! k = Some it -> Compare (b_key it) target < 0 -> below k.
Proof.
  intros Hk Hc j jt Hj Hjt. rewrite Forall_lookup in Hvalid.
  apply (Compare_lt_le_trans _ (b_key it)); [now apply (Hvalid j)|now apply (Hvalid k)|done| |lia].
  now apply (keys_lt j k).
Qed.

Lemma seek_restart_ok fuel i a b k :
  shape i -> (a <= b < length ridx)%nat -> ridx !! a = Some k -> below k -> (b - a < fuel)%nat ->
  exists r k', seek_restart C fuel i target (Z.of_nat a) (Z.of_nat b) = Some (inl (Z.of_nat r)) /\
    ridx !! r = Some k' /\ below k'.
Proof.
  intros Sh. revert a b k. induction fuel as [|fuel IH]; intros a b k Hab Ha Bk Hf; [lia|]. simpl.
  destruct (Z.ltb_spec (Z.of_nat a) (Z.of_nat b)) as [Hlt|_]; [|now exists a, k].
  set (m := ((a + b + 1) / 2)%nat).
  assert (Hm : (a < m <= b)%nat).
  { unfold m. pose proof (Nat.div_mod (a + b + 1) 2 ltac:(lia)).
    pose proof (Nat.mod_upper_bound (a + b + 1) 2 ltac:(lia)). lia. }
  assert (Em : u32 (Z.of_nat a + Z.of_nat b + 1) / 2 = Z.of_nat m).
  { unfold rs in Hsize. rewrite wrapu_small by lia. unfold m. rewrite Nat2Z.inj_div. f_equal. lia. }
  rewrite Em.
  destruct (lookup_lt_is_Some_2 ridx m ltac:(lia)) as [km Hkm].
  rewrite (restart_point i m km Sh Hkm), entry_bytes_off by done.
  assert (Hklt : (km < length l)%nat).
  { destruct (ro_in _ _ Hr m km Hkm) as [->|]; [|done].
    pose proof (ro_sorted _ _ Hr) as Hs. exfalso.
    assert (forall x y p q, (x < y)%nat -> ridx !! x = Some p -> ridx !! y = Some q -> (p < q)%nat) as Hmono.
    { clear -Hs. induction Hs as [|z q Hs IH Hz]; intros x y p0 q0 Hxy Hx Hy; [done|].
      destruct y as [|y]; [lia|]. simpl in Hy. destruct x as [|x].
      - injection Hx as ->. rewrite Forall_lookup in Hz. now apply (Hz y).
      - apply (IH x y); [lia|done|done]. }
    pose proof (Hmono 0%nat m 0%nat 0%nat ltac:(lia) (ro_first _ _ Hr) Hkm). lia. }
  destruct (lookup_lt_is_Some_2 l km Hklt) as [it Hit].
  destruct (DecodeEntry_at km it Hit) as (p & -> & Epp).
  rewrite (ro_whole _ _ Hr m km it Hkm Hit). simpl (Z.of_nat 0 =? 0). cbn [negb].
  rewrite (ro_whole _ _ Hr m km it Hkm Hit) in Epp. rewrite drop_0 in Epp.
  replace (length (b_key it) - 0)%nat with (length (b_key it)) by lia.
  destruct (Z.ltb_spec (Z.of_nat (length p)) (Z.of_nat (length (b_key it)))) as [B|_].
  { rewrite Epp, length_app in B. lia. }
  rewrite Nat2Z.id, Epp, take_app_length.
  destruct (Z.ltb_spec (Compare (b_key it) target) 0) as [Hc|Hc].
  - apply (IH m b km); [lia|done|now apply (below_key km it)|lia].
  - replace (Z.of_nat m - 1) with (Z.of_nat (m - 1)) by lia. apply (IH a (m - 1)%nat k); [lia|done|done|lia].
Qed.

Lemma seek_linear_ok fuel i n :
  ready i n -> i_status_ i = OK -> below n -> (length l - n < fuel)%nat ->
  exists i' m, seek_linear C fuel i target = Some i' /\ at_entry i' m /\ below m /\ (m <= length l)%nat /\
    (forall it, l !! m = Some it -> 0 <= Compare (b_key it) target).
Proof.
  revert i n. induction fuel as [|fuel IH]; intros i n R Hs B Hf; [lia|]. simpl.
  destruct (block_parse_at i n R Hs) as (b & i' & E & A & ->). rewrite E.
  destruct (Nat.ltb_spec n (length l)) as [Hn|Hn].
  - pose proof (at_entry_lt i' n A Hn) as P. pose proof P as (_ & _ & (it & Hit & Ek & _) & _). rewrite Ek.
    destruct (Z.leb_spec 0 (Compare (b_key it) target)) as [Hc|Hc].
    + exists i', n. split; [done|]. split; [done|]. split; [done|]. split; [lia|].
      intros jt Hjt. congruence.
    + apply (IH i' (S n)); [now apply positioned_ready|apply A|now apply (below_S n it)|lia].
  - assert (n = length l) by (destruct R as (_ & _ & ? & _); lia). subst n.
    exists i', (length l). split; [done|]. split; [done|]. split; [done|]. split; [done|].
    intros it Hit. apply lookup_lt_Some in Hit. lia.
Qed.

Lemma Block_Seek_ok i n : at_entry i n ->
  exists i' m, Block_Seek C i target = Some i' /\ at_entry i' m /\ below m /\ (m <= length l)%nat /\
    (forall it, l !! m = Some it -> 0 <= Compare (b_key it) target).
Proof.
  intros A. pose proof (at_entry_shape i n A) as Sh. pose proof Sh as (E1 & E2 & E3).
  pose proof num_restarts_pos. unfold Block_Seek. rewrite E3.
  destruct (seek_restart_ok (Z.to_nat (Z.of_nat (length ridx))) i 0 (length ridx - 1) 0)
    as (r & k & E & Hk & Bk); [done|lia|apply Hr| |lia|].
  { intros j it Hj. lia. }
  replace (Z.of_nat (length ridx) - 1) with (Z.of_nat (length ridx - 1)) by lia.
  change (Z.of_nat 0) with 0 in E. rewrite E. destruct (restart_ready i r k Sh Hk) as (i1 & -> & R & Hs).
  pose proof R as ((E1' & _) & _). rewrite E1'.
  apply (seek_linear_ok _ _ k); [done|rewrite Hs; apply A|done|].
  pose proof (encs_length l Hl). pose proof length_contents as Hlc. unfold rs in Hlc. lia.
Qed.

End Seek.
End Layout.

(** ** Refinement of a cursor on the entries *)

Inductive block_op := OpFirst | OpLast | OpNext | OpPrev | OpSeek (target : list Z).

(** What the iterator shows. *)
Definition observe (i : BlockIter) : option (list Z * list Z) :=
  if Block_Valid i then Some (i_key_ i, Block_value i) else None.

Section Cursor.
Context (C : Comparator).

(** The operations of the iterator and of a cursor, an index into the entries
    that is past them when the iterator is not valid.  [Next] and [Prev] are
    called on a valid iterator. *)
Definition run_op (i : BlockIter) (op : block_op) : option BlockIter :=
  match op with
  | OpFirst => Block_SeekToFirst i
  | OpLast => Block_SeekToLast i
  | OpNext => if Block_Valid i then Block_Next i else None
  | OpPrev => if Block_Valid i then Block_Prev i else None
  | OpSeek target => Block_Seek C i target
  end.

Fixpoint first_ge (target : list Z) (entries : list (list Z * list Z)) : nat :=
  match entries with
  | [] => O
  | (k, _) :: entries => if Compare k target <? 0 then S (first_ge target entries) else O
  end.

Definition cursor_op (entries : list (list Z * list Z)) (n : nat) (op : block_op) : option nat :=
  match op with
  | OpFirst => Some O
  | OpLast => Some (length entries - 1)%nat
  | OpNext => if (n <? length entries)%nat then Some (S n) else None
  | OpPrev =>
      if (n <? length entries)%nat
      then Some (match n with O => length entries | S m => m end) else None
  | OpSeek target => Some (first_ge target entries)
  end.

Fixpoint run_ops {S} (step : S -> block_op -> option S) (s : S) (ops : list block_op) : option S :=
  match ops with
  | [] => Some s
  | op :: ops => match step s op with None => None | Some s => run_ops step s ops end
  end.

Definition op_valid (valid : list Z -> Prop) (op : block_op) : Prop :=
  match op with OpSeek target => valid target | _ => True end.

Lemma first_ge_intro target entries n :
  (forall j e, (j < n)%nat -> entries !! j = Some e -> Compare e.1 target < 0) -> (n <= length entries)%nat ->
  (forall e, entries !! n = Some e -> 0 <= Compare e.1 target) -> first_ge target entries = n.
Proof.
  revert n. induction entries as [|[k v] es IH]; intros n H1 H2 H3; simpl in *; [lia|].
  destruct n as [|n].
  - specialize (H3 _ eq_refl). simpl in H3. destruct (Z.ltb_spec (Compare k target) 0); [lia|done].
  - pose proof (H1 0%nat _ ltac:(lia) eq_refl) as H0. simpl in H0.
    destruct (Z.ltb_spec (Compare k target) 0); [|lia]. f_equal. apply IH; [|lia|done].
    intros j e Hj He. apply (H1 (S j)); [lia|done].
Qed.

Lemma build_ok interval entries l ridx :
  built (build_block interval entries) l ridx -> map item_entry l = entries ->
  Forall (fun e => is_bytes e.1 /\ is_bytes e.2) entries ->
  CurrentSizeEstimate (build_block interval entries) < 2 ^ 32 -> Forall bitem_ok l.
Proof.
  intros B <- Hb Hsz. unfold CurrentSizeEstimate in Hsz. rewrite (bt_buffer _ _ _ B) in Hsz.
  pose proof (bt_prefixes _ _ _ B) as Hp. clear B. rewrite List.Forall_map in Hb.
  apply Forall_lookup. intros n it Hit. rewrite Forall_lookup in Hb. destruct (Hb n it Hit) as [H1 H2].
  split; [done|]. split; [done|].
  assert (Hsh : forall prev q n it, prefixes prev q -> q !! n = Some it ->
     (length (b_key it) + length (b_val it) <= length (encs q) + length prev)%nat).
  { clear. intros prev q. revert prev. induction q as [|i q IH]; intros prev n it H Hit; [done|].
    destruct H as [(P1 & P2 & _) H2]. rewrite encs_cons, length_app. unfold enc. rewrite !length_app, length_drop.
    destruct n as [|n]; [injection Hit as ->; lia|]. pose proof (IH _ n it H2 Hit). lia. }
  pose proof (Hsh [] l n it Hp Hit). simpl in H. lia.
Qed.

Lemma Finish_contents b l ridx :
  built b l ridx -> Z.of_nat (length (encs l)) + 4 * Z.of_nat (length ridx) + 4 < 2 ^ 32 ->
  buffer_ (BlockBuilder_Finish b) = contents l ridx.
Proof.
  intros B Hsz. unfold BlockBuilder_Finish, contents. simpl. unfold PutFixed32 at 1.
  rewrite (bt_restarts _ _ _ B), (bt_buffer _ _ _ B), length_map, wrapu_small by lia.
  assert (E : forall q acc, fold_left PutFixed32 (map (fun k => u32 (Z.of_nat (off l k))) q) acc =
                       acc ++ restart_bytes l q).
  { unfold restart_bytes. induction q as [|k q IH]; intros acc; cbn [map concat fold_left];
      [now rewrite app_nil_r|]. rewrite IH. unfold PutFixed32. rewrite <- app_assoc.
    rewrite (wrapu_small 32) at 1; [done|]. pose proof (off_le l k). unfold rs in *. lia. }
  now rewrite E, <- app_assoc.
Qed.

End Cursor.

Lemma StronglySorted_map {A B} (f : A -> B) (R : B -> B -> Prop) q :
  StronglySorted R (map f q) -> StronglySorted (fun a b => R (f a) (f b)) q.
Proof.
  induction q as [|x q IH]; intros H; [constructor|]. apply StronglySorted_inv in H as [H1 H2].
  constructor; [now apply IH|]. revert H2. clear. simpl. induction q as [|y q IH]; intros H; [constructor|].
  apply Forall_cons in H as [H1 H2]. constructor; [done|now apply IH].
Qed.

(** One operation keeps the iterator at the entry of the cursor. *)
Section Step.
Context (C : Comparator) (valid : list Z -> Prop) {L : ComparatorLaws C valid}.
Context (l : list bitem) (ridx : list nat).
Hypothesis Hr : restarts_ok l ridx.
Hypothesis Hp : prefixes [] l.
Hypothesis Hl : Forall bitem_ok l.
Hypothesis Hsize : rs l + 4 * Z.of_nat (length ridx) + 4 < 2 ^ 32.
Hypothesis Hsorted : StronglySorted (fun a b => Compare (b_key a) (b_key b) < 0) l.
Hypothesis Hvalid : Forall (fun i => valid (b_key i)) l.

Lemma at_entry_valid i n : at_entry l ridx i n -> Block_Valid i = (n <? length l)%nat.
Proof.
  intros A. destruct (Nat.ltb_spec n (length l)) as [Hn|Hn].
  - now apply (positioned_valid l ridx Hl i n), at_entry_lt.
  - destruct A as [_ [(_ & _ & (it & Hit & _) & _)|(_ & (_ & E & _) & Ec)]].
    + apply lookup_lt_Some in Hit. lia.
    + unfold Block_Valid. rewrite Ec, E. lia.
Qed.

Lemma at_entry_observe i n : at_entry l ridx i n -> observe i = map item_entry l !! n.
Proof.
  intros A. unfold observe. rewrite (at_entry_valid i n A), list_lookup_fmap.
  destruct (Nat.ltb_spec n (length l)) as [Hn|Hn].
  - pose proof (at_entry_lt l ridx i n A Hn) as P. pose proof P as (_ & _ & (it & Hit & Ek & _) & _).
    now rewrite Hit, Ek, (positioned_value l ridx i n it P Hit).
  - now rewrite lookup_ge_None_2 by done.
Qed.

Lemma cursor_step i n op m : at_entry l ridx i n -> op_valid valid op ->
  cursor_op C (map item_entry l) n op = Some m ->
  exists i', run_op C i op = Some i' /\ at_entry l ridx i' m.
Proof.
  intros A Ho Hc. destruct op as [| | | |target]; simpl in *; rewrite ?length_map in Hc.
  - injection Hc as <-. now apply (Block_SeekToFirst_ok l ridx Hr Hp Hl Hsize i n).
  - injection Hc as <-. now apply (Block_SeekToLast_ok l ridx Hr Hp Hl Hsize i n).
  - rewrite (at_entry_valid i n A). destruct (Nat.ltb_spec n (length l)); [|done].
    injection Hc as <-. now apply Block_Next_ok.
  - rewrite (at_entry_valid i n A). destruct (Nat.ltb_spec n (length l)); [|done].
    injection Hc as <-. now apply Block_Prev_ok.
  - injection Hc as <-.
    destruct (Block_Seek_ok l ridx Hr Hp Hl Hsize Hsorted Hvalid target Ho i n A)
      as (i' & m & E & A' & Bm & Hm & Hge).
    exists i'. split; [done|]. replace (first_ge C target _) with m; [done|]. symmetry.
    apply first_ge_intro.
    + intros j e Hj He. rewrite list_lookup_fmap in He. destruct (l !! j) as [it|] eqn:Eit; [|done].
      injection He as <-. now apply (Bm j).
    + now rewrite length_map.
    + intros e He. rewrite list_lookup_fmap in He. destruct (l !! m) as [it|] eqn:Eit; [|done].
      injection He as <-. now apply Hge.
Qed.

Lemma cursor_steps ops i n m : at_entry l ridx i n -> Forall (op_valid valid) ops ->
  run_ops (cursor_op C (map item_entry l)) n ops = Some m ->
  exists i', run_ops (run_op C) i ops = Some i' /\ at_entry l ridx i' m.
Proof.
  revert i n. induction ops as [|op ops IH]; intros i n A Ho Hc; simpl in *.
  - injection Hc as <-. now exists i.
  - apply Forall_cons in Ho as [Ho Hos]. destruct (cursor_op _ _ n op) as [n'|] eqn:E; [|done].
    destruct (cursor_step i n op n' A Ho E) as (i' & -> & A'). now apply (IH i' n').
Qed.

End Step.

(** Any sequence of operations on a built block follows the cursor. *)
Lemma block_cursor (C : Comparator) (valid : list Z -> Prop) (L : ComparatorLaws C valid)
    interval entries ops n :
  1 <= interval ->
  StronglySorted (fun a b => Compare a.1 b.1 < 0) entries ->
  Forall (fun e => is_bytes e.1 /\ is_bytes e.2) entries ->
  Forall (fun e => valid e.1) entries -> Forall (op_valid valid) ops ->
  CurrentSizeEstimate (build_block interval entries) < 2 ^ 32 ->
  run_ops (cursor_op C entries) (length entries) ops = Some n ->
  exists i0 i,
    NewIterator (make_Block (buffer_ (BlockBuilder_Finish (build_block interval entries)))) = Iterator i0 /\
    run_ops (run_op C) i0 ops = Some i /\ i_status_ i = OK /\ observe i = entries !! n.
Proof.
  intros Hint Hs Hb Hv Hops Hsz Hrun.
  destruct (build_block_built interval entries Hint) as (l & ridx & B & El).
  pose proof (build_ok interval entries l ridx B El Hb Hsz) as Hl.
  pose proof (bt_ok _ _ _ B) as Hr. pose proof (bt_prefixes _ _ _ B) as Hp.
  assert (Hsize : rs l + 4 * Z.of_nat (length ridx) + 4 < 2 ^ 32).
  { revert Hsz. unfold CurrentSizeEstimate, rs. rewrite (bt_buffer _ _ _ B), (bt_restarts _ _ _ B), length_map. lia. }
  rewrite (Finish_contents _ l ridx B Hsize), (make_Block_contents l ridx) by done.
  exists (make_Iter (contents l ridx) (rs l) (Z.of_nat (length ridx))).
  pose proof (num_restarts_pos l ridx Hr). pose proof (length_contents l ridx) as Elen.
  assert (Hs' : StronglySorted (fun a b => Compare (b_key a) (b_key b) < 0) l)
    by (apply (StronglySorted_map item_entry (fun a b => Compare a.1 b.1 < 0)); now rewrite El).
  assert (Hv' : Forall (fun i => valid (b_key i)) l) by (rewrite <- El, List.Forall_map in Hv; done).
  rewrite <- El in Hrun |- *.
  destruct (cursor_steps C valid l ridx Hr Hp Hl Hsize Hs' Hv' ops
     (make_Iter (contents l ridx) (rs l) (Z.of_nat (length ridx))) (length l) n) as (i & E & A).
  - split; [done|]. right. done.
  - done.
  - now rewrite length_map in Hrun.
  - exists i. split; [|split; [done|split; [apply A|now apply (at_entry_observe l ridx)]]].
    unfold NewIterator, NumRestarts. cbn [size_ data_ restart_offset_].
    rewrite NumRestarts_contents by done. unfold rs in Elen.
    destruct (Z.ltb_spec (Z.of_nat (length (contents l ridx))) 4); [lia|].
    destruct (Z.eqb_spec (Z.of_nat (length ridx)) 0); [lia|done].
Qed.

(** C14: A block built from strictly increasing keys (any restart interval, keys
    and values of any bytes, less than 4 GiB in all) and read back refines a
    cursor on the list of entries: after any sequence of SeekToFirst,
    SeekToLast, Next, Prev and Seek that the cursor allows, the iterator has no
    error, it never read outside the block, its loops ended, and it shows
    exactly the entry the cursor is at, Seek having gone to the first key not
    smaller than its target. *)
Theorem block_refines_cursor (C : Comparator) (valid : list Z -> Prop) (L : ComparatorLaws C valid)
    interval entries ops n :
  1 <= interval ->
  StronglySorted (fun a b => Compare a.1 b.1 < 0) entries ->
  Forall (fun e => is_bytes e.1 /\ is_bytes e.2) entries ->
  Forall (fun e => valid e.1) entries -> Forall (op_valid valid) ops ->
  CurrentSizeEstimate (build_block interval entries) < 2 ^ 32 ->
  run_ops (cursor_op C entries) (length entries) ops = Some n ->
  exists i0 i,
    NewIterator (make_Block (buffer_ (BlockBuilder_Finish (build_block interval entries)))) = Iterator i0 /\
    run_ops (run_op C) i0 ops = Some i /\ i_status_ i = OK /\ observe i = entries !! n.
Proof. intros. now apply (block_cursor C valid L). Qed.

Definition example_entries : list (list Z * list Z) := [([97], [1; 2]); ([97; 98], []); ([99], [3])].

(** At a block of three entries in two restart regions. *)
Lemma block_refines_cursor_witness :
  exists i0 i,
    NewIterator (make_Block (buffer_ (BlockBuilder_Finish (build_block 2 example_entries)))) = Iterator i0 /\
    run_ops (run_op BytewiseComparator) i0 [OpSeek [98]; OpPrev; OpPrev; OpNext] = Some i /\
    i_status_ i = OK /\ observe i = Some ([97; 98], []).
Proof.
  apply (block_refines_cursor BytewiseComparator is_bytes bytewise_laws 2 example_entries
    [OpSeek [98]; OpPrev; OpPrev; OpNext] 1).
  - lia.
  - repeat constructor.
  - repeat constructor; unfold is_byte; lia.
  - repeat constructor; unfold is_byte; lia.
  - repeat constructor; unfold is_byte; lia.
  - reflexivity.
  - reflexivity.
Defined.

(** ** Corrupt blocks *)

(** A block whose first entry claims [2 ^ 32 - 1] key bytes and one value byte:
    the sum of the two, in 32 bits, is zero, the check of [DecodeEntry] passes
    and parsing the entry reads the key far outside the block. *)
Definition overflow_block : list Z :=
  [0] ++ EncodeVarint32 (2 ^ 32 - 1) ++ [1] ++ EncodeFixed32 0 ++ EncodeFixed32 1.

Theorem entry_length_overflow :
  exists i, NewIterator (make_Block overflow_block) = Iterator i /\
    Block_SeekToFirst i = None /\
    DecodeEntry (entry_bytes i 0) = Some (Some (0, 2 ^ 32 - 1, 1, [])).
Proof. eexists. repeat split; reflexivity. Qed.

(** No bytes of the block decode to such an entry. *)
Definition lengths_fit (entries : list Z) : Prop :=
  forall o s n v p, DecodeEntry (drop o entries) = Some (Some (s, n, v, p)) -> n + v < 2 ^ 32.

Lemma DecodeEntry_reads p : exists r, DecodeEntry p = Some r.
Proof.
  unfold DecodeEntry. destruct (Nat.ltb_spec (length p) 3); [eauto|].
  destruct p as [|a [|b [|c p]]]; cbn [length] in *; try lia. cbn [lookup list_lookup]. eauto.
Qed.

Lemma varint32_read p v q : is_bytes p -> GetVarint32Ptr p = Some (v, q) ->
  0 <= v /\ is_bytes q /\ (length q < length p)%nat.
Proof.
  intros Hp E. pose proof (GetVarint32Ptr_reads p Hp) as R. rewrite E in R.
  destruct (proj1 R v q eq_refl) as (l & -> & Hl & _ & ->). apply is_bytes_app in Hp as [_ Hq]. split; [apply wrapu_range; lia|]. split; [done|].
  rewrite length_app. destruct l; [done|]. cbn. lia.
Qed.

(** What a decoded entry says: its header took bytes, and its key and value are in
    the rest unless the sum of their lengths wrapped around. *)
Lemma DecodeEntry_entry p s n v q : is_bytes p -> DecodeEntry p = Some (Some (s, n, v, q)) ->
  0 <= s /\ 0 <= n /\ 0 <= v /\ (length q < length p)%nat /\ (n + v < 2 ^ 32 -> n + v <= Z.of_nat (length q)).
Proof.
  intros Hp E. unfold DecodeEntry in E. destruct (Nat.ltb_spec (length p) 3); [done|].
  destruct p as [|a [|b [|c p]]]; cbn [length] in *; try lia. cbn [lookup list_lookup] in E.
  match type of E with Some (match ?d with _ => _ end) = _ => destruct d as [[[[s' n'] v'] q']|] eqn:Ed; [|done] end.
  destruct (Z.ltb_spec (u32 (Z.of_nat (length q'))) (u32 (n' + v'))) as [|G]; [done|]. injection E as <- <- <- <-.
  assert (H3 : 0 <= s' /\ 0 <= n' /\ 0 <= v' /\ (length q' < S (S (S (length p))))%nat).
  { destruct (_ <? 128).
    - injection Ed as <- <- <- <-. rewrite !is_bytes_cons in Hp. unfold is_byte in Hp. rewrite drop_0. repeat split; try tauto; lia.
    - destruct (GetVarint32Ptr (a :: _)) as [[s1 p1]|] eqn:E1; [|done]. destruct (GetVarint32Ptr p1) as [[n1 p2]|] eqn:E2; [|done].
      destruct (GetVarint32Ptr p2) as [[v1 p3]|] eqn:E3; [|done]. injection Ed as <- <- <- <-.
      destruct (varint32_read _ _ _ Hp E1) as (A1 & B1 & C1). destruct (varint32_read _ _ _ B1 E2) as (A2 & B2 & C2).
      destruct (varint32_read _ _ _ B2 E3) as (A3 & B3 & C3). cbn [length] in C1. repeat split; try done; lia. }
  destruct H3 as (A1 & A2 & A3 & A4). repeat (split; [done|]). intros Hs.
  rewrite (wrapu_small 32 (n' + v')) in G by lia.
  pose proof (Z.mod_le (Z.of_nat (length q')) (2 ^ 32) ltac:(lia) ltac:(lia)). unfold wrapu in G. lia.
Qed.

Section Corrupt.
Context (C : Comparator) (data : list Z) (rs num : Z).
Hypothesis Hbytes : is_bytes data.
Hypothesis Hrs : 0 <= rs /\ rs + 4 * num <= Z.of_nat (length data) /\ 1 <= num /\ Z.of_nat (length data) < 2 ^ 32.
Hypothesis Hfit : lengths_fit (take (Z.to_nat rs) data).

(** An iterator over the block. *)
Definition of_block (i : BlockIter) : Prop := i_data_ i = data /\ i_restarts_ i = rs /\ i_num_restarts_ i = num.

(** One whose next entry begins at [o], if that is before the restart array. *)
Definition about_to (i : BlockIter) (o : Z) : Prop :=
  of_block i /\ NextEntryOffset i = Some o /\ 0 <= o /\ 0 <= i_restart_index_ i < num.

(** One that has no entry, or an entry with its value in the block. *)
Definition sound (i : BlockIter) : Prop :=
  of_block i /\
  if Block_Valid i
  then exists o n, i_value_ i = Some (o, n) /\ 0 <= n /\ 0 <= o /\ o + n <= rs /\ about_to i (o + n)
  else True.

Lemma restart_in i index : of_block i -> 0 <= index < num -> exists o, GetRestartPoint i index = Some o.
Proof.
  intros (E1 & E2 & E3) Hi. unfold GetRestartPoint. rewrite E1, E2. cbv zeta.
  replace ((0 <=? rs + index * 4) && (rs + index * 4 + 4 <=? Z.of_nat (length data))) with true; [eauto|].
  symmetry. apply andb_true_iff. rewrite !Z.leb_le. lia.
Qed.

Lemma seek_to_in i index : of_block i -> 0 <= index < num -> exists i' o, SeekToRestartPoint index i = Some i' /\ about_to i' o.
Proof.
  intros Hb Hi. unfold SeekToRestartPoint. destruct (restart_in i index Hb Hi) as [o ->]. eexists _, (u32 (o + 0)).
  split; [reflexivity|]. split; [exact Hb|]. split; [done|]. split; [apply wrapu_range; lia|exact Hi].
Qed.

Lemma advance_in fuel i index : of_block i -> 0 <= index < num -> num - index < Z.of_nat fuel ->
  exists index', advance_restart fuel i index = Some index' /\ 0 <= index' < num.
Proof.
  intros Hb. pose proof Hb as (_ & _ & E3). revert index. induction fuel as [|fuel IH]; intros index Hi Hf; [lia|].
  cbn [advance_restart]. rewrite E3. destruct (Z.ltb_spec (index + 1) num); [|exists index; split; [done|lia]].
  destruct (restart_in i (index + 1) Hb) as [o ->]; [lia|]. destruct (o <? i_current_ i); [|exists index; split; [done|lia]].
  apply IH; lia.
Qed.

Lemma error_sound i : of_block i -> sound (CorruptionError i) /\ Block_Valid (CorruptionError i) = false.
Proof.
  intros (E1 & E2 & E3). assert (Hv : Block_Valid (CorruptionError i) = false) by apply Z.ltb_irrefl.
  split; [|done]. split; [done|]. now rewrite Hv.
Qed.

(** Parsing an entry stays inside the block and moves on. *)
Lemma ParseNextKey_sound i o : about_to i o ->
  exists b i', ParseNextKey i = Some (b, i') /\ sound i' /\ Block_Valid i' = b /\
    (b = true -> exists o', about_to i' o' /\ o < o' <= rs).
Proof.
  intros (Hb & En & Ho & Hi). pose proof Hb as (E1 & E2 & E3). unfold ParseNextKey. rewrite En, E2.
  destruct (Z.leb_spec rs o) as [B|B].
  { exists false, (mark_invalid i). assert (Hv : Block_Valid (mark_invalid i) = false) by apply Z.ltb_irrefl.
    split; [done|]. split; [|done]. split; [done|]. now rewrite Hv. }
  destruct (error_sound i Hb) as [Hes Hev].
  destruct (DecodeEntry_reads (entry_bytes i o)) as [r Er]. rewrite Er.
  destruct r as [[[[s n] v] p]|]; [|now exists false, (CorruptionError i)].
  destruct (Z.of_nat (length (i_key_ i)) <? s); [now exists false, (CorruptionError i)|].
  unfold entry_bytes in Er. rewrite E1, E2 in Er.
  assert (Hpb : is_bytes (drop (Z.to_nat o) (take (Z.to_nat rs) data))) by now apply Forall_drop, Forall_take.
  destruct (DecodeEntry_entry _ s n v p Hpb Er) as (Hs & Hn & Hv & Hlt & Hle).
  specialize (Hle (Hfit _ _ _ _ _ Er)). rewrite length_drop, length_take in Hlt.
  destruct (Z.ltb_spec (Z.of_nat (length p)) (n + v)); [lia|].
  match goal with |- context [advance_restart ?f ?j ?x] =>
    destruct (advance_in f j x) as (index & Ea & Hx); [done|exact Hi|cbn [i_num_restarts_ i_restart_index_]; rewrite E3; lia|]; rewrite Ea end.
  eexists true, _. split; [reflexivity|]. cbn [i_num_restarts_ i_restarts_ i_data_ i_status_].
  assert (Hval : Block_Valid (MkIter (i_data_ i) (i_restarts_ i) (i_num_restarts_ i) o index
    (take (Z.to_nat s) (i_key_ i) ++ take (Z.to_nat n) p) (Some (rs - Z.of_nat (length p) + n, v)) (i_status_ i)) = true).
  { unfold Block_Valid. cbn. rewrite E2. now apply Z.ltb_lt. }
  assert (Hab : about_to (MkIter (i_data_ i) (i_restarts_ i) (i_num_restarts_ i) o index
    (take (Z.to_nat s) (i_key_ i) ++ take (Z.to_nat n) p) (Some (rs - Z.of_nat (length p) + n, v)) (i_status_ i))
    (rs - Z.of_nat (length p) + n + v)).
  { split; [done|]. unfold NextEntryOffset. cbn [i_value_]. rewrite wrapu_small by lia. split; [done|]. split; [lia|exact Hx]. }
  rewrite E1, E2, E3 in *. split; [|split].
  - split; [done|]. rewrite Hval. exists (rs - Z.of_nat (length p) + n), v. split; [done|]. split; [lia|]. split; [lia|]. split; [lia|done].
  - exact Hval.
  - intros _. exists (rs - Z.of_nat (length p) + n + v). split; [done|]. lia.
Qed.

Lemma skip_until_sound fuel i o bound : about_to i o -> (Z.to_nat (rs - o) < fuel)%nat ->
  exists i', skip_until fuel i bound = Some i' /\ sound i'.
Proof.
  revert i o. induction fuel as [|fuel IH]; intros i o Ha Hf; [lia|]. cbn [skip_until].
  destruct (ParseNextKey_sound i o Ha) as (b & i' & -> & Hs & _ & Hn). destruct b; [|now exists i'].
  destruct (Hn eq_refl) as (o' & Ha' & Ho'). pose proof Ha' as (_ & -> & _). destruct (o' <? bound); [|now exists i'].
  apply (IH i' o' Ha'). lia.
Qed.

Lemma seek_linear_sound fuel i o target : about_to i o -> (Z.to_nat (rs - o) < fuel)%nat ->
  exists i', seek_linear C fuel i target = Some i' /\ sound i'.
Proof.
  revert i o. induction fuel as [|fuel IH]; intros i o Ha Hf; [lia|]. cbn [seek_linear].
  destruct (ParseNextKey_sound i o Ha) as (b & i' & -> & Hs & _ & Hn). destruct b; [|now exists i'].
  destruct (Hn eq_refl) as (o' & Ha' & Ho'). destruct (0 <=? _); [now exists i'|]. apply (IH i' o' Ha'). lia.
Qed.

Lemma skip_from_sound index i bound : of_block i -> 0 <= index < num -> exists i', skip_from index i bound = Some i' /\ sound i'.
Proof.
  intros Hb Hi. unfold skip_from. destruct (seek_to_in i index Hb Hi) as (i1 & o & -> & Ha). pose proof Ha as ((E1 & _) & _ & Ho & _).
  apply (skip_until_sound _ _ o); [done|]. rewrite E1. lia.
Qed.

Lemma seek_restart_sound fuel i target left right : of_block i -> 0 <= left <= right -> right < num -> right - left < Z.of_nat fuel ->
  exists r, seek_restart C fuel i target left right = Some r /\
    match r with inl index => 0 <= index < num | inr i' => sound i' end.
Proof.
  intros Hb. pose proof Hb as (E1 & E2 & E3). revert left right. induction fuel as [|fuel IH]; intros left right Hl Hr Hf; [lia|].
  cbn [seek_restart]. destruct (Z.ltb_spec left right) as [Hlt|Hge]; [|exists (inl left); split; [done|lia]].
  rewrite wrapu_small by lia.
  pose proof (Z.div_mod (left + right + 1) 2 ltac:(lia)). pose proof (Z.mod_pos_bound (left + right + 1) 2 ltac:(lia)).
  set (mid := (left + right + 1) / 2) in *. assert (Hm : left < mid <= right) by lia.
  destruct (restart_in i mid Hb) as [o ->]; [lia|].
  destruct (error_sound i Hb) as [Hes _]. destruct (DecodeEntry_reads (entry_bytes i o)) as [r Er]. rewrite Er.
  destruct r as [[[[s n] v] p]|]; [|now exists (inr (CorruptionError i))].
  destruct (negb (s =? 0)); [now exists (inr (CorruptionError i))|].
  unfold entry_bytes in Er. rewrite E1, E2 in Er.
  assert (Hpb : is_bytes (drop (Z.to_nat o) (take (Z.to_nat rs) data))) by now apply Forall_drop, Forall_take.
  destruct (DecodeEntry_entry _ s n v p Hpb Er) as (_ & Hn & Hv & _ & Hle). specialize (Hle (Hfit _ _ _ _ _ Er)).
  destruct (Z.ltb_spec (Z.of_nat (length p)) n); [lia|]. destruct (_ <? 0); apply IH; lia.
Qed.

Lemma back_restart_in fuel i original index : of_block i -> 0 <= index < num -> index < Z.of_nat fuel ->
  exists r, back_restart fuel i original index = Some r /\ match r with Some x => 0 <= x < num | None => True end.
Proof.
  intros Hb. revert index. induction fuel as [|fuel IH]; intros index Hi Hf; [lia|]. cbn [back_restart].
  destruct (restart_in i index Hb Hi) as [o ->]. destruct (original <=? o); [|now exists (Some index)].
  destruct (Z.eqb_spec index 0); [now exists None|]. apply IH; lia.
Qed.

(** Every operation stays inside the block and ends. *)
Lemma run_op_sound i op : sound i -> (op = OpNext \/ op = OpPrev -> Block_Valid i = true) ->
  exists i', run_op C i op = Some i' /\ sound i'.
Proof.
  intros (Hb & Hv) Hop. pose proof Hb as (E1 & E2 & E3). destruct op; cbn [run_op].
  - unfold Block_SeekToFirst. destruct (seek_to_in i 0 Hb) as (i1 & o & -> & Ha); [lia|].
    destruct (ParseNextKey_sound i1 o Ha) as (b & i' & -> & Hs & _). now exists i'.
  - unfold Block_SeekToLast. rewrite E2, E3. apply skip_from_sound; [done|lia].
  - rewrite Hop in Hv |- * by now left. destruct Hv as (o & n & _ & _ & _ & _ & Ha). unfold Block_Next.
    destruct (ParseNextKey_sound i (o + n) Ha) as (b & i' & -> & Hs & _). now exists i'.
  - rewrite Hop in Hv |- * by now right. destruct Hv as (o & n & _ & _ & _ & _ & _ & _ & _ & Hi). unfold Block_Prev.
    destruct (back_restart_in (S (Z.to_nat (i_restart_index_ i))) i (i_current_ i) (i_restart_index_ i)) as ([x|] & -> & Hx); [done|done|lia| |].
    + now apply skip_from_sound.
    + exists (mark_invalid i). split; [done|]. assert (Hm : Block_Valid (mark_invalid i) = false) by apply Z.ltb_irrefl.
      split; [done|]. now rewrite Hm.
  - unfold Block_Seek. rewrite E3.
    destruct (seek_restart_sound (Z.to_nat num) i target 0 (num - 1) Hb) as (r & -> & Hr); [lia|lia|lia|].
    destruct r as [index|i']; [|now exists i']. destruct (seek_to_in i index Hb Hr) as (i1 & o & -> & Ha).
    pose proof Ha as ((E1' & _) & _ & Ho & _). apply (seek_linear_sound _ _ o); [done|]. rewrite E1'. lia.
Qed.
End Corrupt.

(** A user of an iterator, who calls [Next] and [Prev] only when it is valid. *)
Definition careful_op (C : Comparator) (i : BlockIter) (op : block_op) : option BlockIter :=
  match op with
  | OpNext | OpPrev => if Block_Valid i then run_op C i op else Some i
  | _ => run_op C i op
  end.

Lemma new_iterator_sound contents i : is_bytes contents -> Z.of_nat (length contents) < 2 ^ 32 ->
  NewIterator (make_Block contents) = Iterator i ->
  0 <= i_restarts_ i /\ i_restarts_ i + 4 * i_num_restarts_ i <= Z.of_nat (length contents) /\ 1 <= i_num_restarts_ i /\
  sound contents (i_restarts_ i) (i_num_restarts_ i) i.
Proof.
  intros Hb Hlen E. unfold NewIterator, make_Block in E. destruct (Z.ltb_spec (Z.of_nat (length contents)) 4) as [|H4]; [done|].
  set (n := NumRestarts_at contents (Z.of_nat (length contents))) in *.
  assert (Hn : 0 <= n).
  { unfold n, NumRestarts_at, DecodeFixed32.
    assert (Hby : forall k, 0 <= byte_at (drop (Z.to_nat (Z.of_nat (length contents) - 4)) contents) k).
    { intros k. unfold byte_at. assert (Hd : is_bytes (drop (Z.to_nat (Z.of_nat (length contents) - 4)) contents)) by now apply Forall_drop.
      destruct (Nat.lt_ge_cases k (length (drop (Z.to_nat (Z.of_nat (length contents) - 4)) contents))) as [L|L]; [|rewrite nth_overflow by lia; lia].
      unfold is_bytes in Hd. rewrite List.Forall_forall in Hd. now apply Hd, nth_In. }
    repeat (apply Z.lor_nonneg; split); try apply Hby; apply wrapu_range; lia. }
  destruct (Z.ltb_spec ((Z.of_nat (length contents) - 4) / 4) n) as [|Hmax]; [done|].
  cbn [size_] in E. destruct (Z.ltb_spec (Z.of_nat (length contents)) 4); [lia|].
  change (NumRestarts (MkBlock contents (Z.of_nat (length contents)) _)) with n in E. destruct (Z.eqb_spec n 0); [done|].
  injection E as <-. cbn [i_restarts_ i_num_restarts_ make_Iter restart_offset_ data_].
  pose proof (Z.mul_div_le (Z.of_nat (length contents) - 4) 4 ltac:(lia)).
  rewrite (wrapu_small 32 (1 + n)) by lia. rewrite (wrapu_small 64) by (zpow; lia). rewrite (wrapu_small 32 (Z.of_nat _)) by lia.
  rewrite wrapu_small by lia. split; [lia|]. split; [lia|]. split; [lia|]. split; [done|].
  unfold Block_Valid. cbn. now rewrite Z.ltb_irrefl.
Qed.

(** C38: A corrupt block does no harm.  On a block of any contents shorter than
    4 GiB from which an iterator is made, any sequence of SeekToFirst,
    SeekToLast, Seek, Next and Prev (these two when the iterator is valid)
    returns: no loop goes on forever, no byte outside the block is read, neither
    of the entries nor of the restart array, and a valid iterator shows a value
    that lies before the restart array.  The only exception are blocks in which
    some bytes decode to an entry whose key and value are together 4 GiB or more
    long: there the 32-bit check of [DecodeEntry] overflows (see
    [entry_length_overflow]). *)
Theorem corrupt_block_safe (C : Comparator) (contents : list Z) (i : BlockIter) (ops : list block_op) :
  is_bytes contents -> Z.of_nat (length contents) < 2 ^ 32 ->
  NewIterator (make_Block contents) = Iterator i ->
  lengths_fit (take (Z.to_nat (i_restarts_ i)) contents) ->
  exists i', run_ops (careful_op C) i ops = Some i' /\
    (Block_Valid i' = true -> exists o n, i_value_ i' = Some (o, n) /\ 0 <= o /\ 0 <= n /\ o + n <= i_restarts_ i).
Proof.
  intros Hb Hlen E Hfit. destruct (new_iterator_sound contents i Hb Hlen E) as (H1 & H2 & H3 & Hs).
  set (rs := i_restarts_ i) in *. set (num := i_num_restarts_ i) in *. clearbody rs num. clear E. revert i Hs.
  induction ops as [|op ops IH]; intros i Hs; cbn [run_ops].
  - exists i. split; [done|]. intros Hv. destruct Hs as [_ Hs]. rewrite Hv in Hs. destruct Hs as (o & n & Ev & Hn & Ho & Hle & _). eauto 10.
  - assert (Hc : exists i', careful_op C i op = Some i' /\ sound contents rs num i').
    { unfold careful_op. pose proof (run_op_sound C contents rs num Hb ltac:(lia) Hfit i op Hs) as R.
      destruct op; try (apply R; intros [?|?]; discriminate); (destruct (Block_Valid i) eqn:Hv; [now apply R|now exists i]). }
    destruct Hc as (i' & -> & Hs'). now apply IH.
Qed.

(** A block whose first entry shares a byte with no key, and whose two restart
    points are far outside. *)
Definition corrupt_block : list Z := [1; 0; 0] ++ EncodeFixed32 0 ++ EncodeFixed32 (2 ^ 32 - 1) ++ EncodeFixed32 2.

Lemma corrupt_block_safe_witness :
  exists i i', NewIterator (make_Block corrupt_block) = Iterator i /\
    run_ops (careful_op BytewiseComparator) i [OpFirst; OpNext; OpSeek [5]; OpPrev; OpLast] = Some i' /\
    (Block_Valid i' = true -> exists o n, i_value_ i' = Some (o, n) /\ 0 <= o /\ 0 <= n /\ o + n <= i_restarts_ i).
Proof.
  eexists (make_Iter corrupt_block 3 2).
  destruct (corrupt_block_safe BytewiseComparator corrupt_block (make_Iter corrupt_block 3 2) [OpFirst; OpNext; OpSeek [5]; OpPrev; OpLast]) as (i' & E & H).
  - apply (bool_decide_unpack _). vm_compute. exact I.
  - vm_compute. reflexivity.
  - vm_compute. reflexivity.
  - assert (Et : take (Z.to_nat (i_restarts_ (make_Iter corrupt_block 3 2))) corrupt_block = [1; 0; 0]) by (vm_compute; reflexivity).
    rewrite Et. intros o s n v p E. destruct o as [|[|[|o]]].
    + assert (E0 : DecodeEntry (drop 0 [1; 0; 0]) = Some (Some (1, 0, 0, []))) by (vm_compute; reflexivity).
      rewrite E0 in E. injection E as <- <- <- <-. reflexivity.
    + discriminate E.
    + discriminate E.
    + rewrite drop_ge in E by (cbn; lia). discriminate E.
  - exists i'. split; [vm_compute; reflexivity|]. split; [exact E|exact H].
Defined.
