(* ===== verification/LvFilter.v ===== *)
(** * leveldb: filters (include/leveldb/filter_policy.h, util/hash.cc, util/bloom.cc, table/filter_block.cc)

    The interface of a filter policy as a type class with its law, the Bloom
    filter and the policy for internal keys as instances, and the block that
    holds the filters of a table.  Where the code would shift by a width or
    more the result is nothing. *)
From Stdlib Require Import ZArith Lia Bool List.
From stdpp Require Import base list numbers.
From S2P Require Import Prelude LvCoding LvDbFormat.

(** ** The interface *)

(** [CreateFilter keys dst] is [dst] with the filter appended. *)
Class FilterPolicy := {
  policy_Name : list Z;
  CreateFilter : list (list Z) -> list Z -> list Z;
  KeyMayMatch : list Z -> list Z -> bool;
}.

(** The documented behaviour, for lists of keys that are [fine]. *)
Class FilterPolicyLaws (P : FilterPolicy) (fine : list (list Z) -> Prop) : Prop := {
  CreateFilter_appends keys dst : CreateFilter keys dst = dst ++ CreateFilter keys [];
  KeyMayMatch_in keys key :
    fine keys -> key ∈ keys -> KeyMayMatch key (CreateFilter keys []) = true;
  CreateFilter_bytes keys : is_bytes (CreateFilter keys []);
  Name_bytes : is_bytes policy_Name;
}.

(** ** Hashing *)

(** The loop over four bytes at a time; [n] is the number of words. *)
Fixpoint Hash_words (n : nat) (data : list Z) (h : Z) : Z * list Z :=
  match n with
  | O => (h, data)
  | S n =>
      let w := DecodeFixed32 data in
      let h := u32 (h + w) in
      let h := u32 (h * 0xc6a4a793) in
      let h := Z.lxor h (Z.shiftr h 16) in
      Hash_words n (drop 4 data) h
  end.

Definition Hash (data : list Z) (seed : Z) : Z :=
  let m := 0xc6a4a793 in
  let r := 24 in
  let n := Z.of_nat (length data) in
  let h := Z.lxor seed (u32 (u32 n * m)) in
  let '(h, data) := Hash_words (Nat.div (length data) 4) data h in
  let h := if (length data =? 3)%nat then u32 (h + Z.shiftl (byte_at data 2) 16) else h in
  let h := if (2 <=? length data)%nat then u32 (h + Z.shiftl (byte_at data 1) 8) else h in
  if (1 <=? length data)%nat then
    let h := u32 (h + byte_at data 0) in
    let h := u32 (h * m) in
    Z.lxor h (Z.shiftr h r)
  else h.

(** ** The Bloom filter *)

Definition BloomHash (key : list Z) : Z := Hash key 0xbc9f1d34.

(** [bits_per_key * 0.69] is computed in floating point.  The product is not
    close to a whole number for arguments below 44, and from 44 on [k_] is 30,
    so rounding plays no role. *)
Definition bloom_k (bits_per_key : Z) : Z :=
  let k := bits_per_key * 69 / 100 in
  let k := if k <? 1 then 1 else k in
  if 30 <? k then 30 else k.

(** Rotation right by 17 bits. *)
Definition bloom_delta (h : Z) : Z := Z.lor (Z.shiftr h 17) (u32 (Z.shiftl h 15)).

Definition set_bit (array : list Z) (bitpos : Z) : list Z :=
  let i := Z.to_nat (bitpos / 8) in
  <[i := u8 (Z.lor (byte_at array i) (Z.shiftl 1 (bitpos mod 8)))]> array.

Definition test_bit (array : list Z) (bitpos : Z) : bool :=
  negb (Z.land (byte_at array (Z.to_nat (bitpos / 8))) (Z.shiftl 1 (bitpos mod 8)) =? 0).

(** The inner loop of [CreateFilter]. *)
Fixpoint bloom_add (k : nat) (bits h delta : Z) (array : list Z) : list Z :=
  match k with
  | O => array
  | S k => bloom_add k bits (u32 (h + delta)) delta (set_bit array (h mod bits))
  end.

Definition bloom_add_key (k : nat) (bits : Z) (array key : list Z) : list Z :=
  let h := BloomHash key in bloom_add k bits h (bloom_delta h) array.

Definition bloom_CreateFilter (bits_per_key : Z) (keys : list (list Z)) (dst : list Z) : list Z :=
  let n := Z.of_nat (length keys) in
  let bits := u64 (n * bits_per_key) in
  let bits := if bits <? 64 then 64 else bits in
  let bytes := u64 (bits + 7) / 8 in
  let bits := bytes * 8 in
  let k_ := bloom_k bits_per_key in
  let array := fold_left (bloom_add_key (Z.to_nat k_) bits) keys (replicate (Z.to_nat bytes) 0) in
  dst ++ array ++ [u8 k_].

(** The loop of [KeyMayMatch]. *)
Fixpoint bloom_probe (k : nat) (bits h delta : Z) (array : list Z) : bool :=
  match k with
  | O => true
  | S k =>
      if negb (test_bit array (h mod bits)) then false
      else bloom_probe k bits (u32 (h + delta)) delta array
  end.

Definition bloom_KeyMayMatch (key bloom_filter : list Z) : bool :=
  let len := Z.of_nat (length bloom_filter) in
  if len <? 2 then false
  else
    let bits := (len - 1) * 8 in
    let k := u64 (s8 (byte_at bloom_filter (length bloom_filter - 1))) in
    if 30 <? k then true
    else
      let h := BloomHash key in
      bloom_probe (Z.to_nat k) bits h (bloom_delta h) bloom_filter.

(** "leveldb.BuiltinBloomFilter2" *)
Definition bloom_Name : list Z :=
  [108; 101; 118; 101; 108; 100; 98; 46; 66; 117; 105; 108; 116; 105; 110; 66; 108; 111; 111; 109;
   70; 105; 108; 116; 101; 114; 50].

Definition BloomFilterPolicy (bits_per_key : Z) : FilterPolicy := {|
  policy_Name := bloom_Name;
  CreateFilter := bloom_CreateFilter bits_per_key;
  KeyMayMatch := bloom_KeyMayMatch;
|}.

(** ** The policy for internal keys *)

Definition InternalFilterPolicy (user_policy : FilterPolicy) : FilterPolicy := {|
  policy_Name := @policy_Name user_policy;
  CreateFilter keys dst := @CreateFilter user_policy (map ExtractUserKey keys) dst;
  KeyMayMatch key f := @KeyMayMatch user_policy (ExtractUserKey key) f;
|}.

(** ** The filter block *)

Definition kFilterBaseLg : Z := 11.
Definition kFilterBase : Z := Z.shiftl 1 kFilterBaseLg.

(** [tmp_keys_] only lives inside [GenerateFilter]. *)
Record FilterBlockBuilder := FBuilder {
  keys_ : list Z;
  start_ : list Z;
  result_ : list Z;
  filter_offsets_ : list Z;
}.

Section Block.
Context (policy_ : FilterPolicy).

Definition make_FilterBlockBuilder : FilterBlockBuilder := FBuilder [] [] [] [].

(** The keys cut out of [keys_] at the positions [start]. *)
Fixpoint tmp_keys (keys start : list Z) : list (list Z) :=
  match start with
  | a :: ((b :: _) as start) =>
      take (Z.to_nat (b - a)) (drop (Z.to_nat a) keys) :: tmp_keys keys start
  | _ => []
  end.

Definition GenerateFilter (b : FilterBlockBuilder) : FilterBlockBuilder :=
  let num_keys := length (start_ b) in
  let offset := u32 (Z.of_nat (length (result_ b))) in
  if (num_keys =? 0)%nat then
    FBuilder (keys_ b) (start_ b) (result_ b) (filter_offsets_ b ++ [offset])
  else
    let start := start_ b ++ [Z.of_nat (length (keys_ b))] in
    FBuilder [] [] (CreateFilter (tmp_keys (keys_ b) start) (result_ b))
      (filter_offsets_ b ++ [offset]).

(** Every round adds an offset. *)
Fixpoint StartBlock_loop (fuel : nat) (filter_index : Z) (b : FilterBlockBuilder) : FilterBlockBuilder :=
  match fuel with
  | O => b
  | S fuel =>
      if Z.of_nat (length (filter_offsets_ b)) <? filter_index
      then StartBlock_loop fuel filter_index (GenerateFilter b)
      else b
  end.

Definition StartBlock (b : FilterBlockBuilder) (block_offset : Z) : FilterBlockBuilder :=
  let filter_index := block_offset / kFilterBase in
  StartBlock_loop (Z.to_nat filter_index) filter_index b.

Definition AddKey (b : FilterBlockBuilder) (key : list Z) : FilterBlockBuilder :=
  FBuilder (keys_ b ++ key) (start_ b ++ [Z.of_nat (length (keys_ b))]) (result_ b) (filter_offsets_ b).

Definition FilterBlock_Finish (b : FilterBlockBuilder) : list Z :=
  let b := if (length (start_ b) =? 0)%nat then b else GenerateFilter b in
  let array_offset := u32 (Z.of_nat (length (result_ b))) in
  let result := fold_left PutFixed32 (filter_offsets_ b) (result_ b) in
  PutFixed32 result array_offset ++ [kFilterBaseLg].

(** [data_] is the whole block, [offset_] a position in it; an unusable block
    has no filters. *)
Record FilterBlockReader := FReader { f_data_ : list Z; f_offset_ : Z; f_num_ : Z; f_base_lg_ : Z }.

Definition make_FilterBlockReader (contents : list Z) : FilterBlockReader :=
  let n := Z.of_nat (length contents) in
  if n <? 5 then FReader [] 0 0 0
  else
    let base_lg := u64 (s8 (byte_at contents (length contents - 1))) in
    let last_word := DecodeFixed32 (drop (length contents - 5) contents) in
    if n - 5 <? last_word then FReader [] 0 0 base_lg
    else FReader contents last_word ((n - 5 - last_word) / 4) base_lg.

Definition FilterBlock_KeyMayMatch (r : FilterBlockReader) (block_offset : Z) (key : list Z) : option bool :=
  if 64 <=? f_base_lg_ r then None
  else
    let index := Z.shiftr block_offset (f_base_lg_ r) in
    if index <? f_num_ r then
      let start := DecodeFixed32 (drop (Z.to_nat (f_offset_ r + index * 4)) (f_data_ r)) in
      let limit := DecodeFixed32 (drop (Z.to_nat (f_offset_ r + index * 4 + 4)) (f_data_ r)) in
      if (start <=? limit) && (limit <=? f_offset_ r) then
        Some (KeyMayMatch key (take (Z.to_nat (limit - start)) (drop (Z.to_nat start) (f_data_ r))))
      else if start =? limit then Some false
      else Some true
    else Some true.

End Block.
