(* ===== verification/LvFilterProps.v ===== *)
(** * leveldb: filters never miss a key (theorems about LvFilter)

    The law of filter policies for the Bloom filter and for internal keys, and
    the filter block against any policy that has it. *)
From Stdlib Require Import ZArith Lia Bool List Sorted.
From stdpp Require Import base list numbers sorting.
From S2P Require Import Prelude LvCoding LvDbFormat LvFilter.

(** The published test vectors of the hash. *)
Example Hash_vectors :
  Hash [] 0xbc9f1d34 = 0xbc9f1d34 /\ Hash [0x62] 0xbc9f1d34 = 0xef1345c4 /\
  Hash [0xc3; 0x97] 0xbc9f1d34 = 0x5b663814 /\ Hash [0xe2; 0x99; 0xa5] 0xbc9f1d34 = 0x323c078f /\
  Hash [0xe1; 0x80; 0xb9; 0x32] 0xbc9f1d34 = 0xed21633a.
Proof. repeat split; reflexivity. Qed.

(** ** The Bloom filter *)

Lemma bit_mask n b : 0 <= n < 8 -> negb (Z.land b (Z.shiftl 1 n) =? 0) = Z.testbit b n.
Proof.
  intros Hn. rewrite Z.shiftl_1_l. destruct (Z.testbit b n) eqn:E.
  - apply negb_true_iff, Z.eqb_neq. intros H.
    assert (Z.testbit (Z.land b (2 ^ n)) n = false) by (rewrite H; apply Z.bits_0).
    rewrite Z.land_spec, E, Z.pow2_bits_true in * by lia. done.
  - apply negb_false_iff, Z.eqb_eq. apply Z.bits_inj'. intros i Hi.
    rewrite Z.land_spec, Z.bits_0. destruct (Z.eq_dec i n) as [->|Hne]; [now rewrite E|].
    rewrite Z.pow2_bits_false by lia. apply andb_false_r.
Qed.

Lemma test_bit_testbit a p :
  test_bit a p = Z.testbit (byte_at a (Z.to_nat (p / 8))) (p mod 8).
Proof. apply bit_mask. apply Z.mod_pos_bound. lia. Qed.

Lemma length_set_bit a p : length (set_bit a p) = length a.
Proof. apply length_insert. Qed.

Lemma byte_set_bit a p i : 0 <= p < 8 * Z.of_nat (length a) ->
  byte_at (set_bit a p) i =
    if (i =? Z.to_nat (p / 8))%nat then u8 (Z.lor (byte_at a i) (Z.shiftl 1 (p mod 8))) else byte_at a i.
Proof.
  intros Hp. assert (Hi : (Z.to_nat (p / 8) < length a)%nat).
  { assert (p / 8 < Z.of_nat (length a)) by (apply Z.div_lt_upper_bound; lia). lia. }
  unfold byte_at, set_bit, byte_at. rewrite !nth_lookup.
  destruct (Nat.eqb_spec i (Z.to_nat (p / 8))) as [->|Hne].
  - now rewrite list_lookup_insert_eq by done.
  - now rewrite list_lookup_insert_ne by done.
Qed.

Lemma u8_testbit x n : 0 <= n < 8 -> Z.testbit (u8 x) n = Z.testbit x n.
Proof. intros H. unfold wrapu. now rewrite Z.mod_pow2_bits_low by lia. Qed.

(** Setting a bit sets it and keeps the others. *)
Lemma test_set_bit a p q : 0 <= p < 8 * Z.of_nat (length a) -> 0 <= q ->
  test_bit a q = true \/ p = q -> test_bit (set_bit a p) q = true.
Proof.
  intros Hp Hq H. rewrite test_bit_testbit in *. rewrite byte_set_bit by done.
  pose proof (Z.mod_pos_bound q 8 ltac:(lia)).
  destruct (Nat.eqb_spec (Z.to_nat (q / 8)) (Z.to_nat (p / 8))) as [E|E].
  - rewrite u8_testbit, Z.lor_spec by done. apply orb_true_iff.
    destruct H as [H| ->]; [now left|]. right. rewrite Z.shiftl_1_l. apply Z.pow2_bits_true. lia.
  - destruct H as [H| ->]; done.
Qed.

(** Every probe of a key that has been added succeeds, and stays so. *)
Section Bits.
Context (bits : Z) (Hbits : 0 < bits).

Lemma length_bloom_add k h d a : length (bloom_add k bits h d a) = length a.
Proof. revert h a. induction k as [|k IH]; intros h a; [done|]. simpl. now rewrite IH, length_set_bit. Qed.

Lemma bloom_add_keeps k h d a q : 8 * Z.of_nat (length a) = bits -> 0 <= q ->
  test_bit a q = true -> test_bit (bloom_add k bits h d a) q = true.
Proof.
  revert h a. induction k as [|k IH]; intros h a Ha Hq H; [done|]. simpl.
  pose proof (Z.mod_pos_bound h bits Hbits).
  apply IH; [now rewrite length_set_bit|done|]. apply test_set_bit; [lia|done|now left].
Qed.

Lemma bloom_probe_keeps k h d a b :
  (forall q, 0 <= q -> test_bit a q = true -> test_bit b q = true) ->
  bloom_probe k bits h d a = true -> bloom_probe k bits h d b = true.
Proof.
  intros Hab. revert h. induction k as [|k IH]; intros h H; [done|]. simpl in *.
  pose proof (Z.mod_pos_bound h bits Hbits).
  destruct (test_bit a (h mod bits)) eqn:E; [|done]. simpl in H.
  rewrite (Hab (h mod bits) ltac:(lia) E). simpl. now apply IH.
Qed.

Lemma bloom_add_probe k h d a : 8 * Z.of_nat (length a) = bits ->
  bloom_probe k bits h d (bloom_add k bits h d a) = true.
Proof.
  revert h a. induction k as [|k IH]; intros h a Ha; [done|]. simpl.
  pose proof (Z.mod_pos_bound h bits Hbits).
  rewrite bloom_add_keeps; [|now rewrite length_set_bit|lia|apply test_set_bit; [lia|lia|now right]].
  simpl. apply IH. now rewrite length_set_bit.
Qed.

Lemma fold_add_keeps k keys a :
  8 * Z.of_nat (length a) = bits ->
  length (fold_left (bloom_add_key k bits) keys a) = length a /\
  forall q, 0 <= q -> test_bit a q = true -> test_bit (fold_left (bloom_add_key k bits) keys a) q = true.
Proof.
  revert a. induction keys as [|key keys IH]; intros a Ha; [done|]. simpl.
  assert (El : length (bloom_add_key k bits a key) = length a) by apply length_bloom_add.
  destruct (IH (bloom_add_key k bits a key)) as [H1 H2]; [now rewrite El|].
  split; [now rewrite H1|]. intros q Hq H. apply H2; [done|]. now apply bloom_add_keeps.
Qed.

Lemma fold_add_probe k keys a key : 8 * Z.of_nat (length a) = bits -> key ∈ keys ->
  bloom_probe k bits (BloomHash key) (bloom_delta (BloomHash key))
    (fold_left (bloom_add_key k bits) keys a) = true.
Proof.
  intros Ha Hk. revert a Ha. induction Hk as [key keys|key x keys _ IH]; intros a Ha; simpl.
  - assert (El : length (bloom_add_key k bits a key) = length a) by apply length_bloom_add.
    apply (bloom_probe_keeps _ _ _ (bloom_add_key k bits a key)); [|now apply bloom_add_probe].
    apply fold_add_keeps. now rewrite El.
  - apply IH. unfold bloom_add_key. now rewrite length_bloom_add.
Qed.

(** The byte behind the array does not matter. *)
Lemma bloom_probe_app k h d a b : 8 * Z.of_nat (length a) = bits ->
  bloom_probe k bits h d (a ++ b) = bloom_probe k bits h d a.
Proof.
  intros Ha. revert h. induction k as [|k IH]; intros h; [done|]. simpl. rewrite IH.
  replace (test_bit (a ++ b) (h mod bits)) with (test_bit a (h mod bits)); [done|].
  unfold test_bit, byte_at. rewrite app_nth1; [done|].
  pose proof (Z.mod_pos_bound h bits Hbits).
  assert (h mod bits / 8 < Z.of_nat (length a)) by (apply Z.div_lt_upper_bound; lia).
  pose proof (Z.div_pos (h mod bits) 8 ltac:(lia) ltac:(lia)). lia.
Qed.

End Bits.

Lemma bloom_k_range b : 1 <= bloom_k b <= 30.
Proof.
  unfold bloom_k. destruct (Z.ltb_spec (b * 69 / 100) 1); simpl; [lia|].
  destruct (Z.ltb_spec 30 (b * 69 / 100)); lia.
Qed.

(** Keys that [CreateFilter] can count. *)
Definition few_keys (keys : list (list Z)) : Prop := Z.of_nat (length keys) < 2 ^ 31.

Lemma set_bit_bytes a p : is_bytes a -> is_bytes (set_bit a p).
Proof. intros H. apply Forall_insert; [done|]. apply (wrapu_range 8). lia. Qed.

Lemma bloom_add_bytes k bits h d a : is_bytes a -> is_bytes (bloom_add k bits h d a).
Proof. revert h a. induction k as [|k IH]; intros h a H; [done|]. now apply IH, set_bit_bytes. Qed.

Lemma bloom_CreateFilter_bytes bits_per_key keys : is_bytes (bloom_CreateFilter bits_per_key keys []).
Proof.
  unfold bloom_CreateFilter. rewrite app_nil_l. apply is_bytes_app. split.
  - assert (H : forall k bits a, is_bytes a -> is_bytes (fold_left (bloom_add_key k bits) keys a)).
    { intros k bits. induction keys as [|key keys IH]; intros a Ha; [done|].
      now apply IH, bloom_add_bytes. }
    apply H, Forall_replicate. unfold is_byte. lia.
  - repeat constructor; apply (wrapu_range 8); lia.
Qed.

Lemma bloom_laws bits_per_key (Hb : 0 <= bits_per_key < 2 ^ 31) :
  FilterPolicyLaws (BloomFilterPolicy bits_per_key) few_keys.
Proof.
  split; [done| |apply bloom_CreateFilter_bytes|].
  2:{ unfold is_bytes, is_byte. repeat constructor; lia. }
  intros keys key Hf Hk. unfold few_keys in Hf. simpl. unfold bloom_KeyMayMatch, bloom_CreateFilter.
  rewrite app_nil_l.
  set (bits0 := if u64 (Z.of_nat (length keys) * bits_per_key) <? 64 then 64
                else u64 (Z.of_nat (length keys) * bits_per_key)).
  assert (H0 : 64 <= bits0 < 2 ^ 63).
  { unfold bits0. rewrite wrapu_small by nia. destruct (Z.ltb_spec (Z.of_nat (length keys) * bits_per_key) 64); nia. }
  rewrite (wrapu_small 64 (bits0 + 7)) by lia.
  set (bytes := (bits0 + 7) / 8).
  assert (H1 : 8 <= bytes).
  { unfold bytes. apply Z.div_le_lower_bound; lia. }
  set (a := fold_left _ _ _).
  destruct (fold_add_keeps (bytes * 8) ltac:(lia) (Z.to_nat (bloom_k bits_per_key)) keys
     (replicate (Z.to_nat bytes) 0)) as [Ea _]; [rewrite length_replicate; lia|].
  fold a in Ea. rewrite length_replicate in Ea. rewrite length_app, Ea. simpl length.
  destruct (Z.ltb_spec (Z.of_nat (Z.to_nat bytes + 1)) 2); [lia|].
  assert (Ek : forall x, byte_at (a ++ [x]) (Z.to_nat bytes + 1 - 1) = x).
  { intros x. unfold byte_at. rewrite app_nth2 by lia.
    now replace (Z.to_nat bytes + 1 - 1 - length a)%nat with 0%nat by lia. }
  rewrite !Ek.
  pose proof (bloom_k_range bits_per_key) as Hkr.
  rewrite (wrapu_small 8), (wraps_small 8), (wrapu_small 64) by (zpow; lia).
  destruct (Z.ltb_spec 30 (bloom_k bits_per_key)); [lia|].
  replace ((Z.of_nat (Z.to_nat bytes + 1) - 1) * 8) with (bytes * 8) by lia.
  rewrite bloom_probe_app by lia. apply fold_add_probe; [lia|rewrite length_replicate; lia|done].
Qed.

(** A policy for user keys gives one for internal keys. *)
#[global] Instance internal_filter_laws P fine (L : FilterPolicyLaws P fine) :
  FilterPolicyLaws (InternalFilterPolicy P) (fun keys => fine (map ExtractUserKey keys)).
Proof.
  split; simpl.
  - intros. apply CreateFilter_appends.
  - intros keys key Hf Hk. apply KeyMayMatch_in; [done|].
    now apply list_elem_of_fmap_2.
  - intros. apply CreateFilter_bytes.
  - apply (Name_bytes (P := P)).
Qed.

(** ** The filter block *)

Section FilterBlock.
Context (P : FilterPolicy) (fine : list (list Z) -> Prop) {L : FilterPolicyLaws P fine}.

(** The filter of a group of keys, and the offset of filter [n]. *)
Definition filt (ks : list (list Z)) : list Z :=
  match ks with [] => [] | _ => CreateFilter ks [] end.
Definition filts (groups : list (list (list Z))) : list Z := concat (map filt groups).
Definition foff (groups : list (list (list Z))) (n : nat) : nat := length (filts (take n groups)).

Fixpoint starts (a : Z) (pend : list (list Z)) : list Z :=
  match pend with
  | [] => []
  | k :: pend => a :: starts (a + Z.of_nat (length k)) pend
  end.

(** The builder has made filters for the groups [groups] and holds the keys
    [pend]. *)
Record fb_is (b : FilterBlockBuilder) (groups : list (list (list Z))) (pend : list (list Z)) : Prop := {
  fb_keys : keys_ b = concat pend;
  fb_start : start_ b = starts 0 pend;
  fb_result : result_ b = filts groups;
  fb_offsets : filter_offsets_ b = map (fun n => u32 (Z.of_nat (foff groups n))) (seq 0 (length groups));
}.

Lemma starts_app a p q :
  starts a (p ++ q) = starts a p ++ starts (a + Z.of_nat (length (concat p))) q.
Proof.
  revert a. induction p as [|k p IH]; intros a; simpl; [now rewrite Z.add_0_r|].
  rewrite IH, length_app. do 3 f_equal. lia.
Qed.

Lemma tmp_keys_starts pre pend :
  tmp_keys (pre ++ concat pend)
    (starts (Z.of_nat (length pre)) pend ++ [Z.of_nat (length pre) + Z.of_nat (length (concat pend))]) = pend.
Proof.
  revert pre. induction pend as [|k pend IH]; intros pre; [done|].
  specialize (IH (pre ++ k)). rewrite length_app, <- app_assoc in IH.
  assert (Ek : take (Z.to_nat (Z.of_nat (length pre + length k) - Z.of_nat (length pre)))
                 (drop (Z.to_nat (Z.of_nat (length pre))) (pre ++ k ++ concat pend)) = k).
  { rewrite Nat2Z.id, drop_app_length. replace (Z.to_nat _) with (length k) by lia. apply take_app_length. }
  replace (Z.of_nat (length pre) + Z.of_nat (length (concat (k :: pend))))
    with (Z.of_nat (length pre + length k) + Z.of_nat (length (concat pend)))
    by (simpl; rewrite length_app; lia).
  simpl starts. rewrite <- Nat2Z.inj_add. cbn [concat].
  destruct pend as [|k' pend].
  - simpl in *. rewrite Z.add_0_r in *. now rewrite Ek.
  - cbn [starts app tmp_keys] in *. rewrite Ek. f_equal. exact IH.
Qed.

Lemma foff_snoc groups g n : (n <= length groups)%nat -> foff (groups ++ [g]) n = foff groups n.
Proof. intros H. unfold foff. now rewrite take_app_le. Qed.

Lemma filts_app a b : filts (a ++ b) = filts a ++ filts b.
Proof. unfold filts. now rewrite map_app, concat_app. Qed.

Lemma offsets_snoc groups g :
  map (fun n => u32 (Z.of_nat (foff (groups ++ [g]) n))) (seq 0 (length (groups ++ [g]))) =
  map (fun n => u32 (Z.of_nat (foff groups n))) (seq 0 (length groups)) ++ [u32 (Z.of_nat (length (filts groups)))].
Proof.
  rewrite length_app, seq_app, map_app. simpl. f_equal.
  - apply map_ext_in. intros n Hn. apply in_seq in Hn. rewrite foff_snoc by lia. done.
  - rewrite foff_snoc by done. unfold foff. now rewrite take_ge.
Qed.

Lemma GenerateFilter_ok b groups pend :
  fb_is b groups pend -> fb_is (GenerateFilter P b) (groups ++ [pend]) [].
Proof.
  intros [H1 H2 H3 H4]. unfold GenerateFilter. rewrite H1, H2, H3, H4.
  destruct pend as [|k pend]; simpl length; simpl Nat.eqb; cbv iota.
  - constructor; cbn [keys_ start_ result_ filter_offsets_]; [done|done| |now rewrite offsets_snoc].
    rewrite filts_app. unfold filts at 3. simpl. now rewrite app_nil_r.
  - constructor; cbn [keys_ start_ result_ filter_offsets_]; [done|done| |now rewrite offsets_snoc].
    pose proof (tmp_keys_starts [] (k :: pend)) as E. simpl length in E.
    rewrite Z.add_0_l in E. change (Z.of_nat 0) with 0 in E. rewrite app_nil_l in E. rewrite E.
    rewrite filts_app. unfold filts at 3. simpl. rewrite app_nil_r. apply CreateFilter_appends.
Qed.

Lemma AddKey_ok b groups pend key :
  fb_is b groups pend -> fb_is (AddKey b key) groups (pend ++ [key]).
Proof.
  intros [H1 H2 H3 H4]. constructor; cbn [AddKey keys_ start_ result_ filter_offsets_]; [| |done|done].
  - rewrite H1, concat_app. simpl. now rewrite app_nil_r.
  - rewrite H1, H2, starts_app. simpl. now rewrite Z.add_0_l.
Qed.

(** Every key of a started block is in the group its offset belongs to; the
    last group is the one still collected. *)
Definition covered (groups : list (list (list Z))) (pend : list (list Z)) (blocks : list (Z * list (list Z))) : Prop :=
  forall o ks key, (o, ks) ∈ blocks -> key ∈ ks ->
    exists g, (groups ++ [pend]) !! Z.to_nat (o / kFilterBase) = Some g /\ key ∈ g.

Lemma covered_generate groups pend blocks :
  covered groups pend blocks -> covered (groups ++ [pend]) [] blocks.
Proof.
  intros H o ks key Hin Hk. destruct (H o ks key Hin Hk) as (g & Hg & Hkg). exists g.
  split; [|done]. now apply lookup_app_l_Some.
Qed.

Lemma covered_add groups pend blocks key :
  covered groups pend blocks -> covered groups (pend ++ [key]) blocks.
Proof.
  intros H o ks k Hin Hk. destruct (H o ks k Hin Hk) as (g & Hg & Hkg).
  apply lookup_app_Some in Hg as [Hg|[Hlen Hg]].
  - exists g. split; [now apply lookup_app_l_Some|done].
  - apply list_lookup_singleton_Some in Hg as [Hi <-]. exists (pend ++ [key]).
    split; [|apply elem_of_app; now left].
    rewrite lookup_app_r by done. now rewrite Hi.
Qed.

Lemma StartBlock_loop_ok fuel i b groups pend blocks :
  fb_is b groups pend -> covered groups pend blocks ->
  Z.of_nat (length groups) <= i -> i - Z.of_nat (length groups) <= Z.of_nat fuel ->
  exists groups' pend', fb_is (StartBlock_loop P fuel i b) groups' pend' /\
    covered groups' pend' blocks /\ Z.of_nat (length groups') = i /\
    concat (groups' ++ [pend']) = concat (groups ++ [pend]).
Proof.
  revert b groups pend. induction fuel as [|fuel IH]; intros b groups pend B C Hi Hf; simpl.
  { exists groups, pend. split; [done|]. split; [done|]. split; [lia|done]. }
  assert (El : length (filter_offsets_ b) = length groups)
    by (rewrite (fb_offsets _ _ _ B), length_map, length_seq; done).
  rewrite El. destruct (Z.ltb_spec (Z.of_nat (length groups)) i) as [Hlt|Hge].
  - destruct (IH (GenerateFilter P b) (groups ++ [pend]) []) as (g' & p' & B' & C' & Hl & Ec).
    + now apply GenerateFilter_ok.
    + now apply covered_generate.
    + rewrite length_app. simpl. lia.
    + rewrite length_app. simpl. lia.
    + exists g', p'. split; [done|]. split; [done|]. split; [done|]. rewrite Ec, concat_app. simpl. now rewrite app_nil_r.
  - exists groups, pend. split; [done|]. split; [done|]. split; [lia|done].
Qed.

(** A data block at an offset with its keys. *)
Definition add_block (b : FilterBlockBuilder) (x : Z * list (list Z)) : FilterBlockBuilder :=
  fold_left AddKey x.2 (StartBlock P b x.1).
Definition build_filters (blocks : list (Z * list (list Z))) : FilterBlockBuilder :=
  fold_left add_block blocks make_FilterBlockBuilder.

Lemma AddKeys_ok keys b groups pend : fb_is b groups pend ->
  fb_is (fold_left AddKey keys b) groups (pend ++ keys).
Proof.
  revert b pend. induction keys as [|k keys IH]; intros b pend B; simpl; [now rewrite app_nil_r|].
  replace (pend ++ k :: keys) with ((pend ++ [k]) ++ keys) by now rewrite <- app_assoc.
  now apply IH, AddKey_ok.
Qed.

Lemma covered_keys groups pend blocks o keys :
  covered groups pend blocks -> 0 <= o -> Z.of_nat (length groups) = o / kFilterBase ->
  covered groups (pend ++ keys) (blocks ++ [(o, keys)]).
Proof.
  intros C Ho Hl o' ks key Hin Hk.
  apply elem_of_app in Hin as [Hin|Hin].
  - destruct (C o' ks key Hin Hk) as (g & Hg & Hkg).
    apply lookup_app_Some in Hg as [Hg|[Hlen Hg]].
    + exists g. split; [now apply lookup_app_l_Some|done].
    + apply list_lookup_singleton_Some in Hg as [Hi <-]. exists (pend ++ keys).
      split; [|apply elem_of_app; now left]. rewrite lookup_app_r by done. now rewrite Hi.
  - apply list_elem_of_singleton in Hin. simplify_eq. exists (pend ++ keys).
    split; [|apply elem_of_app; now right]. rewrite <- Hl, Nat2Z.id.
    rewrite lookup_app_r, Nat.sub_diag by done. done.
Qed.

Lemma build_filters_ok blocks :
  Forall (fun x => 0 <= x.1) blocks -> StronglySorted (fun x y => x.1 <= y.1) blocks ->
  exists groups pend, fb_is (build_filters blocks) groups pend /\ covered groups pend blocks /\
    concat (groups ++ [pend]) = concat (map snd blocks) /\
    (forall x, last blocks = Some x -> Z.of_nat (length groups) = x.1 / kFilterBase) /\
    (blocks = [] -> groups = []).
Proof.
  induction blocks as [|[o keys] blocks IH] using rev_ind; intros Hp Hs.
  - exists [], []. split; [done|]. split; [intros o ks key Hin; now apply elem_of_nil in Hin|].
    split; [done|]. split; [intros x Hx; done|done].
  - apply Forall_app in Hp as [Hp Hpo]. apply Forall_cons in Hpo as [Ho _]. simpl in Ho.
    assert (Hs' : StronglySorted (fun x y => x.1 <= y.1) blocks /\ Forall (fun x => x.1 <= o) blocks).
    { clear -Hs. induction blocks as [|x blocks IH]; [split; constructor|].
      apply StronglySorted_inv in Hs as [Hs Hx]. destruct (IH Hs) as [H1 H2].
      apply Forall_app in Hx as [Hx1 Hx2]. apply Forall_cons in Hx2 as [Hx2 _].
      split; constructor; done. }
    destruct Hs' as [Hs' Hle].
    destruct (IH Hp Hs') as (groups & pend & B & C & Ec & Hlen & Hnil).
    assert (Hg : Z.of_nat (length groups) <= o / kFilterBase).
    { destruct (last blocks) as [x|] eqn:El.
      - rewrite (Hlen x eq_refl). apply Z.div_le_mono; [reflexivity|].
        apply last_Some_elem_of in El. rewrite Forall_forall in Hle. now apply Hle.
      - apply last_None in El. rewrite (Hnil El). apply Z.div_pos; [done|reflexivity]. }
    destruct (StartBlock_loop_ok (Z.to_nat (o / kFilterBase)) (o / kFilterBase)
                (build_filters blocks) groups pend blocks B C Hg) as (g' & p' & B' & C' & Hl' & Ec'); [lia|].
    exists g', (p' ++ keys). unfold build_filters. rewrite fold_left_app. cbn [fold_left]. unfold add_block at 1.
    split; [now apply AddKeys_ok|]. split; [now apply covered_keys|].
    split; [|split; [|intros Hn; now apply app_eq_nil in Hn as [_ ?]]].
    + rewrite map_app, (concat_app (map snd blocks)), <- Ec, <- Ec', !concat_app. simpl. now rewrite !app_nil_r, app_assoc.
    + intros x Hx. rewrite last_snoc in Hx. now injection Hx as <-.
Qed.

Lemma fold_PutFixed32 l acc : fold_left PutFixed32 l acc = acc ++ concat (map EncodeFixed32 l).
Proof.
  revert acc. induction l as [|x l IH]; intros acc; cbn [fold_left map concat]; [now rewrite app_nil_r|].
  rewrite IH. unfold PutFixed32. now rewrite <- app_assoc.
Qed.

(** The finished block: the filters, their offsets, where the offsets start
    and the base. *)
Definition filter_contents (groups : list (list (list Z))) : list Z :=
  filts groups ++
  concat (map EncodeFixed32 (map (fun n => u32 (Z.of_nat (foff groups n))) (seq 0 (length groups)))) ++
  EncodeFixed32 (u32 (Z.of_nat (length (filts groups)))) ++ [kFilterBaseLg].

Lemma Finish_ok b groups pend blocks : fb_is b groups pend -> covered groups pend blocks ->
  exists groups', FilterBlock_Finish P b = filter_contents groups' /\
    concat groups' = concat (groups ++ [pend]) /\
    forall o ks key, (o, ks) ∈ blocks -> key ∈ ks ->
      exists g, groups' !! Z.to_nat (o / kFilterBase) = Some g /\ key ∈ g.
Proof.
  intros B C. unfold FilterBlock_Finish.
  assert (Hfin : forall b' groups' pend', fb_is b' groups' pend' ->
     PutFixed32 (fold_left PutFixed32 (filter_offsets_ b') (result_ b')) (u32 (Z.of_nat (length (result_ b')))) ++
       [kFilterBaseLg] = filter_contents groups').
  { intros b' groups' pend' [_ _ H3 H4]. rewrite H3, H4, fold_PutFixed32. unfold PutFixed32, filter_contents.
    now rewrite <- !app_assoc. }
  rewrite (fb_start _ _ _ B). destruct pend as [|k pend]; simpl Nat.eqb; cbv iota.
  - exists groups. split; [now apply (Hfin b groups [])|].
    split; [rewrite concat_app; simpl; now rewrite app_nil_r|].
    intros o ks key Hin Hk. destruct (C o ks key Hin Hk) as (g & Hg & Hkg). exists g. split; [|done].
    apply lookup_app_Some in Hg as [Hg|[_ Hg]]; [done|].
    apply list_lookup_singleton_Some in Hg as [_ <-]. now apply elem_of_nil in Hkg.
  - exists (groups ++ [k :: pend]). split; [|split; [done|exact C]].
    apply (Hfin _ _ []). now apply GenerateFilter_ok.
Qed.

Lemma length_offsets (l : list Z) : length (concat (map EncodeFixed32 l)) = (4 * length l)%nat.
Proof.
  induction l as [|x l IH]; [done|]. cbn [map concat]. rewrite length_app, length_EncodeFixed32, IH.
  simpl length. lia.
Qed.

Lemma offset_at (l : list Z) rest i x : l !! i = Some x -> 0 <= x < 2 ^ 32 ->
  DecodeFixed32 (drop (4 * i) (concat (map EncodeFixed32 l) ++ rest)) = x.
Proof.
  revert i. induction l as [|y l IH]; intros [|i] Hl Hx; try done.
  - injection Hl as ->. cbn [map concat]. rewrite Nat.mul_0_r, drop_0, <- app_assoc.
    now apply Fixed32_roundtrip.
  - cbn [map concat]. rewrite <- app_assoc.
    replace (4 * S i)%nat with (length (EncodeFixed32 y) + 4 * i)%nat by (rewrite length_EncodeFixed32; lia).
    rewrite drop_app_add. now apply IH.
Qed.

(** Reading the filter of a group. *)
Lemma reader_ok groups i g key :
  Z.of_nat (length (filter_contents groups)) < 2 ^ 32 -> groups !! i = Some g ->
  forall o, 0 <= o -> Z.to_nat (o / kFilterBase) = i ->
  FilterBlock_KeyMayMatch P (make_FilterBlockReader (filter_contents groups)) o key =
    Some (KeyMayMatch key (filt g)).
Proof.
  intros Hsz Hi o Ho Eo.
  set (F := filts groups). set (offs := map (fun n => u32 (Z.of_nat (foff groups n))) (seq 0 (length groups))).
  assert (Elo : length offs = length groups) by (unfold offs; now rewrite length_map, length_seq).
  assert (Elen : length (filter_contents groups) = (length F + 4 * length groups + 5)%nat).
  { unfold filter_contents. fold F offs. rewrite !length_app, length_offsets, length_EncodeFixed32, Elo. simpl. lia. }
  assert (EF : u32 (Z.of_nat (length F)) = Z.of_nat (length F)) by (apply wrapu_small; lia).
  assert (Ec : filter_contents groups =
    F ++ concat (map EncodeFixed32 (offs ++ [Z.of_nat (length F)])) ++ [kFilterBaseLg]).
  { unfold filter_contents. fold F offs. rewrite EF, map_app, concat_app. cbn [map concat].
    now rewrite app_nil_r, <- !app_assoc. }
  pose proof (lookup_lt_Some _ _ _ Hi) as Hlt.
  assert (Hf : forall n, (n <= length groups)%nat ->
     (offs ++ [Z.of_nat (length F)]) !! n = Some (Z.of_nat (foff groups n)) /\ (foff groups n <= length F)%nat).
  { intros n Hn. assert (Hle : (foff groups n <= length F)%nat).
    { unfold foff, F. rewrite <- (take_drop n groups) at 2. rewrite filts_app, length_app. lia. }
    split; [|done]. destruct (Nat.eq_dec n (length groups)) as [->|Hne].
    - rewrite lookup_app_r by lia. rewrite Elo, Nat.sub_diag. simpl. unfold foff. now rewrite take_ge.
    - apply lookup_app_l_Some. unfold offs. rewrite list_lookup_fmap, lookup_seq_lt by lia. simpl.
      f_equal. apply wrapu_small. lia. }
  unfold make_FilterBlockReader. rewrite Elen.
  destruct (Z.ltb_spec (Z.of_nat (length F + 4 * length groups + 5)) 5); [lia|].
  assert (Elast : byte_at (filter_contents groups) (length F + 4 * length groups + 5 - 1) = kFilterBaseLg).
  { unfold byte_at. rewrite Ec, app_assoc, app_nth2; rewrite length_app, length_offsets, length_app, Elo; simpl length; [|lia].
    now replace (_ - _)%nat with 0%nat by lia. }
  assert (Eword : DecodeFixed32 (drop (length F + 4 * length groups + 5 - 5) (filter_contents groups)) = Z.of_nat (length F)).
  { rewrite Ec. replace (length F + 4 * length groups + 5 - 5)%nat with (length F + 4 * length groups)%nat by lia.
    rewrite drop_app_add. apply offset_at; [|lia].
    destruct (Hf (length groups) ltac:(lia)) as [E _]. rewrite E. f_equal. unfold foff. now rewrite take_ge. }
  rewrite Elast, Eword.
  destruct (Z.ltb_spec (Z.of_nat (length F + 4 * length groups + 5) - 5) (Z.of_nat (length F))); [lia|].
  unfold FilterBlock_KeyMayMatch. cbn [f_base_lg_ f_num_ f_offset_ f_data_].
  change (u64 (s8 kFilterBaseLg)) with 11. simpl (64 <=? 11). cbv iota.
  assert (Ei : Z.shiftr o 11 = Z.of_nat i).
  { rewrite shiftr_div by lia. rewrite <- Eo. change kFilterBase with (2 ^ 11). rewrite Z2Nat.id; [done|].
    apply Z.div_pos; lia. }
  rewrite Ei.
  replace ((Z.of_nat (length F + 4 * length groups + 5) - 5 - Z.of_nat (length F)) / 4) with (Z.of_nat (length groups)).
  2:{ replace (_ - _ - _) with (Z.of_nat (length groups) * 4) by lia. now rewrite Z.div_mul. }
  destruct (Z.ltb_spec (Z.of_nat i) (Z.of_nat (length groups))); [|lia].
  assert (Erd : forall n, (n <= length groups)%nat ->
     DecodeFixed32 (drop (length F + 4 * n) (filter_contents groups)) = Z.of_nat (foff groups n)).
  { intros n Hn. rewrite Ec, drop_app_add. destruct (Hf n Hn) as [E ?]. now apply offset_at; [|lia]. }
  replace (Z.to_nat (Z.of_nat (length F) + Z.of_nat i * 4)) with (length F + 4 * i)%nat by lia.
  replace (Z.to_nat (Z.of_nat (length F) + Z.of_nat i * 4 + 4)) with (length F + 4 * S i)%nat by lia.
  rewrite !Erd by lia.
  assert (ES : foff groups (S i) = (foff groups i + length (filt g))%nat).
  { unfold foff. rewrite (take_S_r _ _ _ Hi), filts_app, length_app. f_equal. unfold filts. simpl. now rewrite app_nil_r. }
  destruct (Hf (S i) ltac:(lia)) as [_ Hle].
  rewrite ES. destruct (Z.leb_spec (Z.of_nat (foff groups i)) (Z.of_nat (foff groups i + length (filt g)))); [|lia].
  destruct (Z.leb_spec (Z.of_nat (foff groups i + length (filt g))) (Z.of_nat (length F))); [|lia].
  simpl. do 2 f_equal. rewrite Nat2Z.id.
  replace (Z.to_nat _) with (length (filt g)) by lia.
  rewrite Ec, drop_app_le by lia. unfold F. rewrite <- (take_drop i groups) at 2.
  rewrite filts_app. unfold foff at 1. rewrite drop_app_length, (drop_S _ _ _ Hi).
  unfold filts at 1. cbn [map concat]. rewrite <- app_assoc. apply take_app_length.
Qed.

End FilterBlock.

Lemma elem_sublist {A} (g : list A) gs : g ∈ gs -> g `sublist_of` concat gs.
Proof.
  induction 1 as [g gs|g x gs _ IH]; simpl.
  - now apply sublist_inserts_r.
  - now apply sublist_inserts_l.
Qed.

(** The filter of a block is asked about a key of the block. *)
Lemma filter_block_covers (P : FilterPolicy) (fine : list (list Z) -> Prop)
    (L : FilterPolicyLaws P fine) blocks o ks key :
  Forall (fun x => 0 <= x.1) blocks -> StronglySorted (fun x y => x.1 <= y.1) blocks ->
  (forall g, g `sublist_of` concat (map snd blocks) -> fine g) ->
  Z.of_nat (length (FilterBlock_Finish P (build_filters P blocks))) < 2 ^ 32 ->
  (o, ks) ∈ blocks -> key ∈ ks ->
  FilterBlock_KeyMayMatch P (make_FilterBlockReader (FilterBlock_Finish P (build_filters P blocks))) o key
    = Some true.
Proof.
  intros Hp Hs Hfine Hsz Hin Hk.
  destruct (build_filters_ok P fine blocks Hp Hs) as (groups & pend & B & C & Ec & _).
  destruct (Finish_ok P fine _ groups pend blocks B C) as (gs & E & Egs & Hcov).
  rewrite E in Hsz |- *. destruct (Hcov o ks key Hin Hk) as (g & Hg & Hkg).
  rewrite (reader_ok P gs _ g key Hsz Hg); [|now rewrite Forall_forall in Hp; apply (Hp (o, ks))|done].
  f_equal. destruct g as [|k g]; [now apply elem_of_nil in Hkg|].
  apply KeyMayMatch_in; [|done]. apply Hfine. rewrite <- Ec, <- Egs. apply elem_sublist.
  now apply list_elem_of_lookup_2 in Hg.
Qed.

(** The filter block is made of bytes. *)
Lemma filter_block_bytes (P : FilterPolicy) (fine : list (list Z) -> Prop)
    (L : FilterPolicyLaws P fine) blocks :
  Forall (fun x => 0 <= x.1) blocks -> StronglySorted (fun x y => x.1 <= y.1) blocks ->
  is_bytes (FilterBlock_Finish P (build_filters P blocks)).
Proof.
  intros Hp Hs. destruct (build_filters_ok P fine blocks Hp Hs) as (groups & pend & B & C & _).
  destruct (Finish_ok P fine _ groups pend blocks B C) as (gs & -> & _).
  unfold filter_contents. rewrite !is_bytes_app. split; [|split; [|split]].
  - unfold filts. induction gs as [|g gs IH]; [constructor|]. cbn [map concat]. apply is_bytes_app. split; [|done].
    destruct g; [constructor|]. apply CreateFilter_bytes.
  - apply Forall_concat, Forall_map, Forall_true. intros. apply EncodeFixed32_bytes.
  - apply EncodeFixed32_bytes.
  - repeat constructor; unfold is_byte, kFilterBaseLg; lia.
Qed.

(** C36: The filter block of a table has no false negatives, whatever the
    filter policy that keeps its own promise: after building filters for
    data blocks at increasing offsets, asking the finished block about a key of
    a block, at the offset of that block, always answers that it may be
    there, although one filter may serve several blocks and large blocks leave
    empty filters behind. *)
Theorem filter_block_no_false_negative (P : FilterPolicy) (fine : list (list Z) -> Prop)
    (L : FilterPolicyLaws P fine) blocks o ks key :
  Forall (fun x => 0 <= x.1) blocks -> StronglySorted (fun x y => x.1 <= y.1) blocks ->
  (forall g, g `sublist_of` concat (map snd blocks) -> fine g) ->
  Z.of_nat (length (FilterBlock_Finish P (build_filters P blocks))) < 2 ^ 32 ->
  (o, ks) ∈ blocks -> key ∈ ks ->
  FilterBlock_KeyMayMatch P (make_FilterBlockReader (FilterBlock_Finish P (build_filters P blocks))) o key
    = Some true.
Proof. apply (filter_block_covers P fine L). Qed.

(** Three blocks, two of them under one filter, the last behind two empty
    filters. *)
Definition example_blocks : list (Z * list (list Z)) :=
  [(0, [[1; 2]; [3]]); (1000, [[4]]); (7000, [[5]; []])].

Lemma filter_block_no_false_negative_witness :
  FilterBlock_KeyMayMatch (BloomFilterPolicy 10)
    (make_FilterBlockReader (FilterBlock_Finish (BloomFilterPolicy 10)
       (build_filters (BloomFilterPolicy 10) example_blocks))) 7000 [5] = Some true.
Proof.
  apply (filter_block_no_false_negative (BloomFilterPolicy 10) few_keys (bloom_laws 10 ltac:(lia))
           example_blocks 7000 [[5]; []] [5]).
  - repeat constructor; simpl; lia.
  - repeat constructor; simpl; lia.
  - intros g Hg. apply sublist_length in Hg. unfold few_keys. simpl in Hg. lia.
  - vm_compute. reflexivity.
  - apply elem_of_cons. right. apply elem_of_cons. right. apply list_elem_of_singleton. reflexivity.
  - apply elem_of_cons. left. reflexivity.
Defined.

(** A key that was not added is refused, so that the filter is of use. *)
Example filter_refuses :
  FilterBlock_KeyMayMatch (BloomFilterPolicy 10)
    (make_FilterBlockReader (FilterBlock_Finish (BloomFilterPolicy 10)
       (build_filters (BloomFilterPolicy 10) example_blocks))) 7000 [6] = Some false.
Proof. vm_compute. reflexivity. Qed.
