(* ===== verification/LvFormat.v ===== *)
(** * leveldb: block handles, footer and stored blocks (table/format.h, table/format.cc)

    How a table file points to its blocks and how a block is stored: its
    contents, a byte for the compression and a checksum.  Where the code would
    read outside what it has read from the file the result is nothing. *)
From Stdlib Require Import ZArith Lia Bool List String.
From stdpp Require Import base list numbers.
From S2P Require Import Prelude Leb128 LvCoding LvCrc32c LvEnv LvLog.

(** ** Files for random access *)

(** [Read] also says whether the data is in the scratch buffer. *)
Class RandomAccessFile (F : Type) := {
  ra_Read : F -> Z -> Z -> Status * list Z * bool;
}.

(** A file that holds [ra_contents] and whose reads succeed. *)
Class RandomAccessFileLaws (F : Type) {R : RandomAccessFile F} := {
  ra_contents : F -> list Z;
  ra_Read_law : forall f offset n, 0 <= offset -> 0 <= n ->
    exists in_scratch,
      ra_Read f offset n = (OK, take (Z.to_nat n) (drop (Z.to_nat offset) (ra_contents f)), in_scratch);
}.

#[global] Instance mem_random_access : RandomAccessFile mem_file := {
  ra_Read f offset n := (OK, take (Z.to_nat n) (drop (Z.to_nat offset) (mem_contents f)), true);
}.
#[global, program] Instance mem_random_access_laws : RandomAccessFileLaws mem_file := {
  ra_contents := mem_contents;
}.
Next Obligation. intros. eexists. reflexivity. Qed.

(** ** Block handles *)

Record BlockHandle := Handle { h_offset : Z; h_size : Z }.

(** The constructor: both numbers are ~0. *)
Definition make_BlockHandle : BlockHandle := Handle (2 ^ 64 - 1) (2 ^ 64 - 1).

Definition BlockHandle_EncodeTo (h : BlockHandle) (dst : list Z) : list Z :=
  PutVarint64 (PutVarint64 dst (h_offset h)) (h_size h).

(** The handle and the rest of the input; nothing is the status Corruption,
    "bad block handle". *)
Definition BlockHandle_DecodeFrom (input : list Z) : option (BlockHandle * list Z) :=
  match GetVarint64 input with
  | None => None
  | Some (offset, input) =>
      match GetVarint64 input with
      | None => None
      | Some (size, input) => Some (Handle offset size, input)
      end
  end.

Definition bad_block_handle : Status := Corruption "bad block handle".

(** ** The footer *)

Definition kMaxEncodedLength : nat := 10 + 10.
Definition kEncodedLength : nat := 2 * kMaxEncodedLength + 8.
Definition kTableMagicNumber : Z := 0xdb4775248b80fb57.

Record Footer := MkFooter { metaindex_handle : BlockHandle; index_handle : BlockHandle }.

(** [std::string::resize] *)
Definition string_resize (n : nat) (s : list Z) : list Z := take n s ++ replicate (n - length s) 0.

Definition Footer_EncodeTo (f : Footer) (dst : list Z) : list Z :=
  let dst := BlockHandle_EncodeTo (metaindex_handle f) dst in
  let dst := BlockHandle_EncodeTo (index_handle f) dst in
  let dst := string_resize (2 * kMaxEncodedLength) dst in
  let dst := PutFixed32 dst (u32 (Z.land kTableMagicNumber 0xffffffff)) in
  PutFixed32 dst (u32 (Z.shiftr kTableMagicNumber 32)).

(** The magic number is read without looking at the length of the input:
    nothing is the result of an input that is too short. *)
Definition Footer_DecodeFrom (input : list Z) : option (Status * Footer * list Z) :=
  if (length input <? kEncodedLength)%nat then None
  else
    let magic_ptr := drop (kEncodedLength - 8) input in
    let magic_lo := DecodeFixed32 magic_ptr in
    let magic_hi := DecodeFixed32 (drop 4 magic_ptr) in
    let magic := Z.lor (u64 (Z.shiftl magic_hi 32)) magic_lo in
    let none := MkFooter make_BlockHandle make_BlockHandle in
    if negb (magic =? kTableMagicNumber)
    then Some (Corruption "not an sstable (bad magic number)", none, input)
    else
      match BlockHandle_DecodeFrom input with
      | None => Some (bad_block_handle, none, input)
      | Some (mh, rest) =>
          match BlockHandle_DecodeFrom rest with
          | None => Some (bad_block_handle, MkFooter mh make_BlockHandle, rest)
          | Some (ih, _) => Some (OK, MkFooter mh ih, drop 8 magic_ptr)
          end
      end.

(** ** Stored blocks *)

Inductive CompressionType := kNoCompression | kSnappyCompression.
Definition compression_code (c : CompressionType) : Z :=
  match c with kNoCompression => 0 | kSnappyCompression => 1 end.

Definition kBlockTrailerSize : Z := 5.

Record BlockContents := Contents_of { bc_data : list Z; cachable : bool; heap_allocated : bool }.

(** The port without Snappy. *)
Definition Snappy_Compress (input : list Z) : option (list Z) := None.
Definition Snappy_GetUncompressedLength (input : list Z) : option Z := None.
Definition Snappy_Uncompress (input : list Z) : option (list Z) := None.

Section ReadBlock.
Context {F : Type} {RF : RandomAccessFile F}.

(** [n + kBlockTrailerSize] wraps around for the largest sizes a handle can
    hold, and the trailer is then read outside the buffer. *)
Definition ReadBlock (file : F) (verify_checksums : bool) (handle : BlockHandle)
    : option (Status * BlockContents) :=
  let none := Contents_of [] false false in
  let n := h_size handle in
  let total := u64 (n + kBlockTrailerSize) in
  let '(s, contents, in_scratch) := ra_Read file (h_offset handle) total in
  if negb (ok s) then Some (s, none)
  else if negb (Z.of_nat (length contents) =? total) then Some (Corruption "truncated block read", none)
  else if total <=? n then None
  else
    let crc := Unmask (DecodeFixed32 (drop (Z.to_nat (n + 1)) contents)) in
    let actual := crc_extend 0 (take (Z.to_nat (n + 1)) contents) in
    if verify_checksums && negb (actual =? crc) then Some (Corruption "block checksum mismatch", none)
    else
      let type := s8 (byte_at contents (Z.to_nat n)) in
      let data := take (Z.to_nat n) contents in
      if type =? compression_code kNoCompression then
        Some (OK, Contents_of data in_scratch in_scratch)
      else if type =? compression_code kSnappyCompression then
        match Snappy_GetUncompressedLength data with
        | None => Some (Corruption "corrupted compressed block contents", none)
        | Some ulength =>
            match Snappy_Uncompress data with
            | None => Some (Corruption "corrupted compressed block contents", none)
            | Some ubuf => Some (OK, Contents_of ubuf true true)
            end
        end
      else Some (Corruption "bad block type", none).

End ReadBlock.

(** ** Round trips *)

Definition handle_ok (h : BlockHandle) : Prop := 0 <= h_offset h < 2 ^ 64 /\ 0 <= h_size h < 2 ^ 64.

Lemma BlockHandle_app h dst : BlockHandle_EncodeTo h dst = dst ++ BlockHandle_EncodeTo h [].
Proof. unfold BlockHandle_EncodeTo, PutVarint64. now rewrite app_nil_l, app_assoc. Qed.

Lemma BlockHandle_bytes h : handle_ok h -> is_bytes (BlockHandle_EncodeTo h []).
Proof.
  intros [H1 H2]. unfold BlockHandle_EncodeTo, PutVarint64. rewrite app_nil_l.
  apply is_bytes_app. split; now apply EncodeVarint64_bytes.
Qed.

Lemma BlockHandle_roundtrip h rest : handle_ok h -> is_bytes rest ->
  BlockHandle_DecodeFrom (BlockHandle_EncodeTo h [] ++ rest) = Some (h, rest).
Proof.
  intros [H1 H2] Hr. unfold BlockHandle_DecodeFrom, BlockHandle_EncodeTo, PutVarint64.
  rewrite app_nil_l, <- app_assoc.
  rewrite GetVarint64_Encode; [|done|apply is_bytes_app; split; [now apply EncodeVarint64_bytes|done]].
  rewrite GetVarint64_Encode by done. now destruct h.
Qed.

Lemma BlockHandle_length h : handle_ok h -> (length (BlockHandle_EncodeTo h []) <= kMaxEncodedLength)%nat.
Proof.
  intros [H1 H2]. unfold BlockHandle_EncodeTo, PutVarint64. rewrite app_nil_l, length_app.
  rewrite !EncodeVarint64_varint by lia.
  pose proof (varint_bytes_ok (h_offset h)) as (_ & _ & L1); [lia|].
  pose proof (varint_bytes_ok (h_size h)) as (_ & _ & L2); [lia|]. unfold kMaxEncodedLength. lia.
Qed.

(** The footer has a fixed length and reads back, with what follows it. *)
Lemma Footer_parts f : handle_ok (metaindex_handle f) -> handle_ok (index_handle f) ->
  exists pad, Footer_EncodeTo f [] =
      (BlockHandle_EncodeTo (metaindex_handle f) [] ++ BlockHandle_EncodeTo (index_handle f) [] ++ pad) ++
      EncodeFixed32 0x8b80fb57 ++ EncodeFixed32 0xdb477524 /\
    is_bytes pad /\
    length (BlockHandle_EncodeTo (metaindex_handle f) [] ++ BlockHandle_EncodeTo (index_handle f) [] ++ pad) =
      (2 * kMaxEncodedLength)%nat.
Proof.
  intros Hm Hi. pose proof (BlockHandle_length _ Hm) as L1. pose proof (BlockHandle_length _ Hi) as L2.
  unfold Footer_EncodeTo. rewrite (BlockHandle_app (index_handle f)).
  set (a := BlockHandle_EncodeTo (metaindex_handle f) []) in *.
  set (b := BlockHandle_EncodeTo (index_handle f) []) in *.
  exists (replicate (2 * kMaxEncodedLength - length (a ++ b)) 0).
  split; [|split].
  - unfold string_resize, PutFixed32. rewrite take_ge by (rewrite length_app; lia).
    change (u32 (Z.land kTableMagicNumber 4294967295)) with 0x8b80fb57.
    change (u32 (Z.shiftr kTableMagicNumber 32)) with 0xdb477524. now rewrite <- !app_assoc.
  - apply Forall_replicate. unfold is_byte. lia.
  - rewrite !length_app, length_replicate. lia.
Qed.

Lemma Footer_length f : handle_ok (metaindex_handle f) -> handle_ok (index_handle f) ->
  length (Footer_EncodeTo f []) = kEncodedLength.
Proof.
  intros Hm Hi. destruct (Footer_parts f Hm Hi) as (pad & -> & _ & E).
  rewrite length_app, E, length_app, !length_EncodeFixed32. unfold kEncodedLength. lia.
Qed.

Lemma Footer_roundtrip f rest :
  handle_ok (metaindex_handle f) -> handle_ok (index_handle f) -> is_bytes rest ->
  Footer_DecodeFrom (Footer_EncodeTo f [] ++ rest) = Some (OK, f, rest).
Proof.
  intros Hm Hi Hr. pose proof (Footer_length f Hm Hi) as EL.
  destruct (Footer_parts f Hm Hi) as (pad & Ef & Hpad & E). rewrite Ef in EL |- *.
  unfold Footer_DecodeFrom. rewrite length_app, EL.
  destruct (Nat.ltb_spec (kEncodedLength + length rest) kEncodedLength); [lia|].
  set (h := BlockHandle_EncodeTo (metaindex_handle f) [] ++ _ ++ pad) in *.
  replace (kEncodedLength - 8)%nat with (length h) by (rewrite E; unfold kEncodedLength; lia).
  rewrite <- !app_assoc, drop_app_length.
  rewrite Fixed32_roundtrip by (zpow; lia).
  assert (E4 : forall x (y : list Z), drop 4 (EncodeFixed32 x ++ y) = y) by reflexivity.
  rewrite E4, Fixed32_roundtrip by (zpow; lia).
  change (Z.lor (u64 (Z.shiftl 0xdb477524 32)) 0x8b80fb57 =? kTableMagicNumber) with true. cbn [negb].
  assert (Hb1 := BlockHandle_bytes _ Hm). assert (Hb2 := BlockHandle_bytes _ Hi).
  assert (Hx := EncodeFixed32_bytes 0x8b80fb57). assert (Hy := EncodeFixed32_bytes 0xdb477524).
  unfold h. rewrite <- !app_assoc.
  rewrite BlockHandle_roundtrip; [|done|rewrite !is_bytes_app; repeat split; done].
  rewrite BlockHandle_roundtrip; [|done|rewrite !is_bytes_app; repeat split; done].
  now destruct f.
Qed.

(** ** Reading a stored block *)

(** What [TableBuilder::WriteRawBlock] writes. *)
Definition block_trailer (c : list Z) : list Z :=
  compression_code kNoCompression ::
  EncodeFixed32 (Mask (crc_extend (crc_extend 0 c) [compression_code kNoCompression])).
Definition stored (c : list Z) : list Z := c ++ block_trailer c.

Lemma length_stored c : length (stored c) = (length c + 5)%nat.
Proof. unfold stored, block_trailer. rewrite length_app. simpl. lia. Qed.

Lemma crc_extend_app crc a b :
  0 <= crc < 2 ^ 32 -> is_bytes a -> is_bytes b -> Z.of_nat (length (a ++ b)) < 2 ^ 63 ->
  crc_extend (crc_extend crc a) b = crc_extend crc (a ++ b) /\ 0 <= crc_extend crc (a ++ b) < 2 ^ 32.
Proof.
  intros Hc Ha Hb Hl. assert (Hab : is_bytes (a ++ b)) by (apply is_bytes_app; done).
  rewrite length_app in Hl. unfold crc_extend.
  rewrite !Extend_ok; try done; try (rewrite ?length_app; zpow; lia); simpl.
  2:{ rewrite Extend_ok; try done; try (zpow; lia). now apply crc32c_ref_range. }
  split; [now rewrite crc32c_ref_app|now apply crc32c_ref_range].
Qed.

Lemma ReadBlock_stored {F} `{RL : RandomAccessFileLaws F} (f : F) verify pre c post :
  ra_contents f = pre ++ stored c ++ post -> is_bytes c -> Z.of_nat (length c) + 5 < 2 ^ 63 ->
  exists b, ReadBlock f verify (Handle (Z.of_nat (length pre)) (Z.of_nat (length c))) =
    Some (OK, Contents_of c b b).
Proof.
  intros Hf Hb Hl. unfold ReadBlock. cbn [h_size h_offset].
  rewrite (wrapu_small 64) by (unfold kBlockTrailerSize; zpow; lia).
  destruct (ra_Read_law f (Z.of_nat (length pre)) (Z.of_nat (length c) + kBlockTrailerSize)) as [b E];
    [lia|unfold kBlockTrailerSize; lia|].
  exists b. rewrite E, Hf, Nat2Z.id, drop_app_length. cbn [ok negb].
  replace (Z.to_nat (Z.of_nat (length c) + kBlockTrailerSize)) with (length (stored c))
    by (rewrite length_stored; unfold kBlockTrailerSize; lia).
  rewrite take_app_length, length_stored. unfold kBlockTrailerSize.
  destruct (Z.eqb_spec (Z.of_nat (length c + 5)) (Z.of_nat (length c) + 5)); [|lia]. cbn [negb].
  destruct (Z.leb_spec (Z.of_nat (length c) + 5) (Z.of_nat (length c))); [lia|].
  replace (Z.to_nat (Z.of_nat (length c) + 1)) with (length c + 1)%nat by lia. rewrite Nat2Z.id.
  assert (H0 : is_bytes [compression_code kNoCompression]) by (repeat constructor; unfold is_byte; simpl; lia).
  destruct (crc_extend_app 0 c [compression_code kNoCompression]) as [Ec Rc]; [lia|done|done| |].
  { rewrite length_app. simpl. zpow. lia. }
  unfold stored, block_trailer. rewrite Ec.
  assert (Ed : drop (length c + 1) (c ++ compression_code kNoCompression ::
     EncodeFixed32 (Mask (crc_extend 0 (c ++ [compression_code kNoCompression])))) =
     EncodeFixed32 (Mask (crc_extend 0 (c ++ [compression_code kNoCompression])))).
  { now rewrite drop_app_add. }
  assert (Et : take (length c + 1) (c ++ compression_code kNoCompression ::
     EncodeFixed32 (Mask (crc_extend 0 (c ++ [compression_code kNoCompression])))) =
     c ++ [compression_code kNoCompression]).
  { now rewrite take_app_add. }
  rewrite Ed, Et. rewrite <- (app_nil_r (EncodeFixed32 _)), Fixed32_roundtrip by now apply Mask_range.
  rewrite Unmask_Mask by done. rewrite Z.eqb_refl, andb_false_r.
  unfold byte_at. rewrite app_nth2, Nat.sub_diag by lia. cbn [nth].
  change (s8 (compression_code kNoCompression) =? compression_code kNoCompression) with true. cbv iota.
  now rewrite take_app_length.
Qed.

(** The size of a handle is not checked: for sizes close to 2^64 the number of
    bytes to read wraps around, nothing is read, and the type and the checksum
    are then taken from outside the buffer. *)
Example ReadBlock_size_overflow : ReadBlock (MemFile []) true (Handle 0 (2 ^ 64 - 5)) = None.
Proof. reflexivity. Qed.

(** The footer of a file that is shorter than expected is read past its end. *)
Example Footer_too_short : Footer_DecodeFrom [1; 2; 3] = None.
Proof. reflexivity. Qed.
