(* ===== verification/LvTable.v ===== *)
(** * leveldb: tables (table/table_builder.cc, table/table.cc)

    A table file holds data blocks, a filter block, an index of the data blocks
    and a footer.  The builder writes one from sorted entries; [Open] and
    [InternalGet] find an entry in it.  The cache of blocks is an interface.
    Where a callee would read out of bounds the result is nothing. *)
From Stdlib Require Import ZArith Lia Bool String List.
From stdpp Require Import base list numbers.
From S2P Require Import Prelude LvCoding LvCrc32c LvEnv LvLog LvComparator LvBlock LvFilter LvFormat.

(** The options the table code reads; the comparator is a parameter. *)
Record Options := MkOptions {
  block_size : Z;
  block_restart_interval : Z;
  compression : CompressionType;
  filter_policy : option FilterPolicy;
  paranoid_checks : bool;
}.

(** "filter." *)
Definition filter_prefix : list Z := [102; 105; 108; 116; 101; 114; 46].
Definition filter_key (p : FilterPolicy) : list Z := filter_prefix ++ @policy_Name p.

(** ** Building *)

Record TableBuilder (F : Type) := Rep {
  t_file : F;
  t_offset : Z;
  t_status : Status;
  data_block : BlockBuilder;
  index_block : BlockBuilder;
  t_last_key : list Z;
  num_entries : Z;
  closed : bool;
  filter_block : option FilterBlockBuilder;
  pending_index_entry : bool;
  pending_handle : BlockHandle;
}.
Arguments Rep {F}. Arguments t_file {F}. Arguments t_offset {F}. Arguments t_status {F}.
Arguments data_block {F}. Arguments index_block {F}. Arguments t_last_key {F}.
Arguments num_entries {F}. Arguments closed {F}. Arguments filter_block {F}.
Arguments pending_index_entry {F}. Arguments pending_handle {F}.

Section Builder.
Context {F : Type} {WF : WritableFile F} (C : Comparator) (options : Options).

Definition filter_StartBlock (fb : option FilterBlockBuilder) (offset : Z) : option FilterBlockBuilder :=
  match filter_policy options, fb with
  | Some p, Some b => Some (StartBlock p b offset)
  | _, _ => fb
  end.

Definition make_TableBuilder (file : F) : TableBuilder F :=
  let fb := match filter_policy options with
            | None => None
            | Some _ => Some make_FilterBlockBuilder
            end in
  Rep file 0 OK BlockBuilder_Reset BlockBuilder_Reset [] 0 false (filter_StartBlock fb 0) false
    make_BlockHandle.

Definition set_output (file : F) (offset : Z) (s : Status) (r : TableBuilder F) : TableBuilder F :=
  Rep file offset s (data_block r) (index_block r) (t_last_key r) (num_entries r) (closed r)
    (filter_block r) (pending_index_entry r) (pending_handle r).
Definition set_status (s : Status) (r : TableBuilder F) : TableBuilder F :=
  set_output (t_file r) (t_offset r) s r.
Definition set_data_block (b : BlockBuilder) (r : TableBuilder F) : TableBuilder F :=
  Rep (t_file r) (t_offset r) (t_status r) b (index_block r) (t_last_key r) (num_entries r) (closed r)
    (filter_block r) (pending_index_entry r) (pending_handle r).
Definition set_index_block (b : BlockBuilder) (r : TableBuilder F) : TableBuilder F :=
  Rep (t_file r) (t_offset r) (t_status r) (data_block r) b (t_last_key r) (num_entries r) (closed r)
    (filter_block r) (pending_index_entry r) (pending_handle r).
Definition set_last_key (k : list Z) (n : Z) (r : TableBuilder F) : TableBuilder F :=
  Rep (t_file r) (t_offset r) (t_status r) (data_block r) (index_block r) k n (closed r)
    (filter_block r) (pending_index_entry r) (pending_handle r).
Definition set_closed (r : TableBuilder F) : TableBuilder F :=
  Rep (t_file r) (t_offset r) (t_status r) (data_block r) (index_block r) (t_last_key r) (num_entries r) true
    (filter_block r) (pending_index_entry r) (pending_handle r).
Definition set_filter_block (fb : option FilterBlockBuilder) (r : TableBuilder F) : TableBuilder F :=
  Rep (t_file r) (t_offset r) (t_status r) (data_block r) (index_block r) (t_last_key r) (num_entries r) (closed r)
    fb (pending_index_entry r) (pending_handle r).
Definition set_pending (b : bool) (h : BlockHandle) (r : TableBuilder F) : TableBuilder F :=
  Rep (t_file r) (t_offset r) (t_status r) (data_block r) (index_block r) (t_last_key r) (num_entries r) (closed r)
    (filter_block r) b h.

(** The handle is the caller's variable. *)
Definition WriteRawBlock (r : TableBuilder F) (block_contents : list Z) (type : CompressionType)
    : TableBuilder F * BlockHandle :=
  let handle := Handle (t_offset r) (Z.of_nat (length block_contents)) in
  let '(s, file) := Append (t_file r) block_contents in
  if ok s then
    let crc := crc_extend 0 block_contents in
    let crc := crc_extend crc [compression_code type] in
    let trailer := compression_code type :: EncodeFixed32 (Mask crc) in
    let '(s, file) := Append file trailer in
    let offset := if ok s then u64 (t_offset r + Z.of_nat (length block_contents) + kBlockTrailerSize)
                  else t_offset r in
    (set_output file offset s r, handle)
  else (set_output file (t_offset r) s r, handle).

(** [WriteBlock] without the [Reset] of the block, which its callers do. *)
Definition WriteBlock (r : TableBuilder F) (block : BlockBuilder) : TableBuilder F * BlockHandle :=
  let raw := buffer_ (BlockBuilder_Finish block) in
  let '(block_contents, type) :=
    match compression options with
    | kNoCompression => (raw, kNoCompression)
    | kSnappyCompression =>
        match Snappy_Compress raw with
        | Some compressed =>
            if (length compressed <? length raw - Nat.div (length raw) 8)%nat
            then (compressed, kSnappyCompression) else (raw, kNoCompression)
        | None => (raw, kNoCompression)
        end
    end in
  WriteRawBlock r block_contents type.

Definition is_empty (b : BlockBuilder) : bool := match buffer_ b with [] => true | _ => false end.

Definition TableBuilder_Flush (r : TableBuilder F) : TableBuilder F :=
  if negb (ok (t_status r)) then r
  else if is_empty (data_block r) then r
  else
    let '(r, handle) := WriteBlock r (data_block r) in
    let r := set_data_block BlockBuilder_Reset r in
    let r := set_pending (pending_index_entry r) handle r in
    let r :=
      if ok (t_status r) then
        let r := set_pending true (pending_handle r) r in
        let '(s, file) := Flush (t_file r) in
        set_output file (t_offset r) s r
      else r in
    set_filter_block (filter_StartBlock (filter_block r) (t_offset r)) r.

(** The index entry of the block before, under the key [last_key]. *)
Definition add_index_entry (last_key : list Z) (r : TableBuilder F) : TableBuilder F :=
  let r := set_last_key last_key (num_entries r) r in
  let r := set_index_block
             (BlockBuilder_Add 1 (index_block r) last_key (BlockHandle_EncodeTo (pending_handle r) [])) r in
  set_pending false (pending_handle r) r.

Definition TableBuilder_Add (r : TableBuilder F) (key value : list Z) : TableBuilder F :=
  if negb (ok (t_status r)) then r
  else
    let r := if pending_index_entry r
             then add_index_entry (FindShortestSeparator (t_last_key r) key) r else r in
    let r := match filter_block r with
             | Some fb => set_filter_block (Some (AddKey fb key)) r
             | None => r
             end in
    let r := set_last_key key (num_entries r + 1) r in
    let r := set_data_block
               (BlockBuilder_Add (block_restart_interval options) (data_block r) key value) r in
    if block_size options <=? CurrentSizeEstimate (data_block r) then TableBuilder_Flush r else r.

Definition TableBuilder_Finish (r : TableBuilder F) : TableBuilder F :=
  let r := set_closed (TableBuilder_Flush r) in
  let '(r, filter_block_handle) :=
    match filter_policy options, filter_block r with
    | Some p, Some fb =>
        if ok (t_status r) then WriteRawBlock r (FilterBlock_Finish p fb) kNoCompression
        else (r, make_BlockHandle)
    | _, _ => (r, make_BlockHandle)
    end in
  let '(r, metaindex_block_handle) :=
    if ok (t_status r) then
      let meta_index_block :=
        match filter_policy options with
        | Some p => BlockBuilder_Add (block_restart_interval options) BlockBuilder_Reset (filter_key p)
                      (BlockHandle_EncodeTo filter_block_handle [])
        | None => BlockBuilder_Reset
        end in
      WriteBlock r meta_index_block
    else (r, make_BlockHandle) in
  let '(r, index_block_handle) :=
    if ok (t_status r) then
      let r := if pending_index_entry r
               then add_index_entry (FindShortSuccessor (t_last_key r)) r else r in
      let '(r, handle) := WriteBlock r (index_block r) in
      (set_index_block BlockBuilder_Reset r, handle)
    else (r, make_BlockHandle) in
  if ok (t_status r) then
    let footer_encoding := Footer_EncodeTo (MkFooter metaindex_block_handle index_block_handle) [] in
    let '(s, file) := Append (t_file r) footer_encoding in
    let offset := if ok s then u64 (t_offset r + Z.of_nat (length footer_encoding)) else t_offset r in
    set_output file offset s r
  else r.

Definition TableBuilder_Abandon (r : TableBuilder F) : TableBuilder F := set_closed r.
Definition NumEntries (r : TableBuilder F) : Z := num_entries r.
Definition FileSize (r : TableBuilder F) : Z := t_offset r.

End Builder.

(** ** Iterators over one block (table/iterator.cc) *)

(** The iterator of a block, or the empty iterator with its status. *)
Definition iter_Seek (C : Comparator) (it : NewIterator_result) (target : list Z) : option NewIterator_result :=
  match it with
  | Iterator i => match Block_Seek C i target with Some i => Some (Iterator i) | None => None end
  | _ => Some it
  end.

Definition iter_Valid (it : NewIterator_result) : bool :=
  match it with Iterator i => Block_Valid i | _ => false end.
Definition iter_key (it : NewIterator_result) : list Z :=
  match it with Iterator i => i_key_ i | _ => [] end.
Definition iter_value (it : NewIterator_result) : list Z :=
  match it with Iterator i => Block_value i | _ => [] end.
Definition iter_status (it : NewIterator_result) : Status :=
  match it with Iterator i => i_status_ i | ErrorIterator s => s | EmptyIterator => OK end.

(** ** Caches (include/leveldb/cache.h) *)

(** A lookup that pins its entry until the caller is done with the value, and
    an insertion whose handle is released by then: what stays is the cache. *)
Class Cache (V K : Type) := {
  cache_Lookup : K -> list Z -> option V * K;
  cache_Insert : K -> list Z -> V -> Z -> K;
  cache_Erase : K -> list Z -> K;
  cache_NewId : K -> Z * K;
}.

(** A cache returns what was inserted under a key, or nothing; it may drop
    entries at any time.  Its new ids count up. *)
Class CacheLaws (V K : Type) {BC : Cache V K} := {
  cache_wf : K -> Prop;
  cached : K -> list Z -> option V;
  cache_last : K -> Z;
  Lookup_law c k : cache_wf c -> fst (cache_Lookup c k) = None \/ fst (cache_Lookup c k) = cached c k;
  Lookup_keeps c k k' : cache_wf c ->
    cached (snd (cache_Lookup c k)) k' = None \/ cached (snd (cache_Lookup c k)) k' = cached c k';
  Insert_same c k v charge : cache_wf c -> 0 <= charge < 2 ^ 64 ->
    cached (cache_Insert c k v charge) k = None \/ cached (cache_Insert c k v charge) k = Some v;
  Insert_keeps c k v charge k' : cache_wf c -> 0 <= charge < 2 ^ 64 -> k <> k' ->
    cached (cache_Insert c k v charge) k' = None \/ cached (cache_Insert c k v charge) k' = cached c k';
  Erase_keeps c k k' : cache_wf c ->
    cached (cache_Erase c k) k' = None \/ cached (cache_Erase c k) k' = cached c k';
  NewId_keeps c k : cache_wf c -> cached (snd (cache_NewId c)) k = cached c k;
  Lookup_wf c k : cache_wf c -> cache_wf (snd (cache_Lookup c k));
  Insert_wf c k v charge : cache_wf c -> 0 <= charge < 2 ^ 64 -> cache_wf (cache_Insert c k v charge);
  Erase_wf c k : cache_wf c -> cache_wf (cache_Erase c k);
  NewId_wf c : cache_wf c -> cache_wf (snd (cache_NewId c));
  NewId_law c : cache_wf c -> cache_last c + 1 < 2 ^ 64 ->
    cache_NewId c = (cache_last c + 1, snd (cache_NewId c)) /\
    cache_last (snd (cache_NewId c)) = cache_last c + 1;
  Lookup_last c k : cache_last (snd (cache_Lookup c k)) = cache_last c;
  Insert_last c k v charge : cache_last (cache_Insert c k v charge) = cache_last c;
  Erase_last c k : cache_last (cache_Erase c k) = cache_last c;
}.

(** ** Reading *)

Record Table (F : Type) := MkTable {
  tb_file : F;
  tb_cache_id : Z;
  tb_filter : option FilterBlockReader;
  tb_metaindex_handle : BlockHandle;
  tb_index_block : Block;
}.
Arguments MkTable {F}. Arguments tb_file {F}. Arguments tb_cache_id {F}. Arguments tb_filter {F}.
Arguments tb_metaindex_handle {F}. Arguments tb_index_block {F}.

Section Reader.
Context {F : Type} {RF : RandomAccessFile F} {K : Type} {BC : Cache Block K}.
Context (C : Comparator) (options : Options).

(** [ReadFilter]: the filter reader of the table afterwards. *)
Definition ReadFilter (file : F) (filter_handle_value : list Z) : option (option FilterBlockReader) :=
  match BlockHandle_DecodeFrom filter_handle_value with
  | None => Some None
  | Some (filter_handle, _) =>
      match ReadBlock file (paranoid_checks options) filter_handle with
      | None => None
      | Some (s, block) =>
          if negb (ok s) then Some None else Some (Some (make_FilterBlockReader (bc_data block)))
      end
  end.

Definition ReadMeta (file : F) (footer : Footer) : option (option FilterBlockReader) :=
  match filter_policy options with
  | None => Some None
  | Some policy =>
      match ReadBlock file (paranoid_checks options) (metaindex_handle footer) with
      | None => None
      | Some (s, contents) =>
          if negb (ok s) then Some None
          else
            let meta := make_Block (bc_data contents) in
            let key := filter_key policy in
            match iter_Seek BytewiseComparator (NewIterator meta) key with
            | None => None
            | Some iter =>
                if iter_Valid iter && bool_decide (iter_key iter = key)
                then ReadFilter file (iter_value iter)
                else Some None
            end
      end
  end.

(** [Open]; no cache is the null pointer. *)
Definition Open (file : F) (size : Z) (block_cache : option K)
    : option (Status * option (Table F) * option K) :=
  if size <? Z.of_nat kEncodedLength then
    Some (Corruption "file is too short to be an sstable"%string, None, block_cache)
  else
    let '(s, footer_input, _) := ra_Read file (size - Z.of_nat kEncodedLength) (Z.of_nat kEncodedLength) in
    if negb (ok s) then Some (s, None, block_cache)
    else
      match Footer_DecodeFrom footer_input with
      | None => None
      | Some (s, footer, _) =>
          if negb (ok s) then Some (s, None, block_cache)
          else
            match ReadBlock file (paranoid_checks options) (index_handle footer) with
            | None => None
            | Some (s, index_block_contents) =>
                if ok s then
                  let index_block := make_Block (bc_data index_block_contents) in
                  let '(cache_id, block_cache) :=
                    match block_cache with
                    | Some c => let '(id, c) := cache_NewId c in (id, Some c)
                    | None => (0, None)
                    end in
                  match ReadMeta file footer with
                  | None => None
                  | Some filter =>
                      Some (s, Some (MkTable file cache_id filter (metaindex_handle footer) index_block),
                            block_cache)
                  end
                else Some (s, None, block_cache)
            end
      end.

Definition cache_key (t : Table F) (handle : BlockHandle) : list Z :=
  EncodeFixed64 (tb_cache_id t) ++ EncodeFixed64 (h_offset handle).

(** [BlockReader]: an iterator over the block that [index_value] points to. *)
Definition BlockReader (t : Table F) (verify_checksums fill_cache : bool) (index_value : list Z)
    (block_cache : option K) : option (NewIterator_result * option K) :=
  match BlockHandle_DecodeFrom index_value with
  | None => Some (ErrorIterator bad_block_handle, block_cache)
  | Some (handle, _) =>
      match block_cache with
      | Some c =>
          let key := cache_key t handle in
          let '(hit, c) := cache_Lookup c key in
          match hit with
          | Some block => Some (NewIterator block, Some c)
          | None =>
              match ReadBlock (tb_file t) verify_checksums handle with
              | None => None
              | Some (s, contents) =>
                  if ok s then
                    let block := make_Block (bc_data contents) in
                    let c := if cachable contents && fill_cache then cache_Insert c key block (size_ block) else c in
                    Some (NewIterator block, Some c)
                  else Some (ErrorIterator s, Some c)
              end
          end
      | None =>
          match ReadBlock (tb_file t) verify_checksums handle with
          | None => None
          | Some (s, contents) =>
              if ok s then Some (NewIterator (make_Block (bc_data contents)), None)
              else Some (ErrorIterator s, None)
          end
      end
  end.

(** [filter != nullptr && handle.DecodeFrom(&handle_value).ok() &&
    !filter->KeyMayMatch(handle.offset(), k)] *)
Definition filter_excludes (t : Table F) (handle_value k : list Z) : option bool :=
  match filter_policy options, tb_filter t with
  | Some policy, Some filter =>
      match BlockHandle_DecodeFrom handle_value with
      | Some (handle, _) => negb <$> FilterBlock_KeyMayMatch policy filter (h_offset handle) k
      | None => Some false
      end
  | _, _ => Some false
  end.

(** [InternalGet]: the status, the entry [handle_result] is called with, if it
    is, and the cache. *)
Definition InternalGet (t : Table F) (verify_checksums fill_cache : bool) (k : list Z)
    (block_cache : option K) : option (Status * option (list Z * list Z) * option K) :=
  match iter_Seek C (NewIterator (tb_index_block t)) k with
  | None => None
  | Some iiter =>
      let finish (s : Status) := if ok s then iter_status iiter else s in
      if iter_Valid iiter then
        match filter_excludes t (iter_value iiter) k with
        | None => None
        | Some true => Some (finish OK, None, block_cache)
        | Some false =>
            match BlockReader t verify_checksums fill_cache (iter_value iiter) block_cache with
            | None => None
            | Some (block_iter, block_cache) =>
                match iter_Seek C block_iter k with
                | None => None
                | Some block_iter =>
                    let found := if iter_Valid block_iter
                                 then Some (iter_key block_iter, iter_value block_iter) else None in
                    Some (finish (iter_status block_iter), found, block_cache)
                end
            end
        end
      else Some (finish OK, None, block_cache)
  end.

Definition ApproximateOffsetOf (t : Table F) (key : list Z) : option Z :=
  match iter_Seek C (NewIterator (tb_index_block t)) key with
  | None => None
  | Some index_iter =>
      if iter_Valid index_iter then
        match BlockHandle_DecodeFrom (iter_value index_iter) with
        | Some (handle, _) => Some (h_offset handle)
        | None => Some (h_offset (tb_metaindex_handle t))
        end
      else Some (h_offset (tb_metaindex_handle t))
  end.

End Reader.
