(* ===== verification/LvTableProps.v ===== *)
(** * leveldb: a table finds its entries (theorems about LvTable)

    What the builder writes, as a list of blocks; that opening such a file gives
    a table; and what a lookup in the table returns. *)
From Stdlib Require Import ZArith Lia Bool List Sorted.
From stdpp Require Import base list numbers sorting.
From S2P Require Import Prelude LvCoding LvCrc32c LvEnv LvLog LvComparator LvBlock LvBlockProps.
From S2P Require Import LvFilter LvFilterProps LvFormat LvTable.

(** ** Blocks *)

(** The contents of a block with the given entries. *)
Definition block_of (interval : Z) (entries : list (list Z * list Z)) : list Z :=
  buffer_ (BlockBuilder_Finish (build_block interval entries)).

Lemma build_block_snoc interval entries k v :
  BlockBuilder_Add interval (build_block interval entries) k v = build_block interval (entries ++ [(k, v)]).
Proof. unfold build_block. now rewrite fold_left_app. Qed.

Lemma length_fold_PutFixed32 l acc : length (fold_left PutFixed32 l acc) = (length acc + 4 * length l)%nat.
Proof. rewrite fold_PutFixed32, length_app, length_offsets. done. Qed.

Lemma block_of_size interval entries :
  Z.of_nat (length (block_of interval entries)) = CurrentSizeEstimate (build_block interval entries).
Proof.
  unfold block_of, BlockBuilder_Finish, CurrentSizeEstimate. cbn [buffer_]. unfold PutFixed32 at 1.
  rewrite length_app, length_EncodeFixed32, length_fold_PutFixed32. lia.
Qed.

Lemma PutVarint32_bytes dst x : is_bytes dst -> is_bytes (PutVarint32 dst (u32 x)).
Proof.
  intros H. unfold PutVarint32. apply is_bytes_app. split; [done|].
  apply EncodeVarint32_bytes, wrapu_range. lia.
Qed.

Definition entry_bytes_ok (e : list Z * list Z) : Prop := is_bytes e.1 /\ is_bytes e.2.

Lemma build_block_bytes interval entries :
  Forall entry_bytes_ok entries -> is_bytes (buffer_ (build_block interval entries)).
Proof.
  unfold build_block. induction entries as [|[k v] es IH] using rev_ind; intros H; [constructor|].
  apply Forall_app in H as [H1 H2]. apply Forall_cons in H2 as [[Hk Hv] _].
  rewrite fold_left_app. cbn [fold_left]. unfold BlockBuilder_Add at 1.
  destruct (if counter_ _ <? interval then _ else _) as [[shared restarts] counter]. cbn [buffer_ fst snd].
  apply is_bytes_app. split; [|done]. apply is_bytes_app. split; [|now apply Forall_drop].
  now do 3 apply PutVarint32_bytes; apply IH.
Qed.

Lemma block_of_bytes interval entries :
  Forall entry_bytes_ok entries -> is_bytes (block_of interval entries).
Proof.
  intros H. unfold block_of, BlockBuilder_Finish. cbn [buffer_]. unfold PutFixed32 at 1.
  rewrite fold_PutFixed32. rewrite !is_bytes_app.
  split; [split; [now apply build_block_bytes|]|apply EncodeFixed32_bytes].
  induction (b_restarts_ (build_block interval entries)) as [|x l IH]; [constructor|].
  cbn [map concat]. apply is_bytes_app. split; [apply EncodeFixed32_bytes|done].
Qed.

(** Seeking in a block that was built. *)
Lemma block_seek (C : Comparator) (valid : list Z -> Prop) (L : ComparatorLaws C valid) interval entries k :
  1 <= interval -> StronglySorted (fun a b => Compare a.1 b.1 < 0) entries ->
  Forall entry_bytes_ok entries -> Forall (fun e => valid e.1) entries -> valid k ->
  Z.of_nat (length (block_of interval entries)) < 2 ^ 32 ->
  exists i, iter_Seek C (NewIterator (make_Block (block_of interval entries))) k = Some (Iterator i) /\
    i_status_ i = OK /\ observe i = entries !! first_ge C k entries.
Proof.
  intros Hi Hs Hb Hv Hk Hsz. rewrite block_of_size in Hsz.
  destruct (block_cursor C valid L interval entries [OpSeek k] (first_ge C k entries)) as (i0 & i & E & R & S & O);
    [done|done|done|done|repeat constructor; done|done|done|].
  exists i. unfold block_of. rewrite E. simpl in R. simpl.
  destruct (Block_Seek C i0 k) as [i'|]; [|done]. injection R as ->. done.
Qed.

Lemma observe_Some i k v : observe i = Some (k, v) ->
  iter_Valid (Iterator i) = true /\ iter_key (Iterator i) = k /\ iter_value (Iterator i) = v.
Proof. unfold observe. simpl. destruct (Block_Valid i); [|done]. now intros [= <- <-]. Qed.

Lemma observe_None i : observe i = None -> iter_Valid (Iterator i) = false.
Proof. unfold observe. simpl. now destruct (Block_Valid i). Qed.

(** ** Building *)

Section Build.
Context {F : Type} {WF : WritableFile F} {WL : WritableFileLaws F}.
Context (C : Comparator) (valid : list Z -> Prop) {L : ComparatorLaws C valid} (options : Options).
Hypothesis Hinterval : 1 <= block_restart_interval options.

(** Keys that a lookup takes for the same, such as the versions of a user key:
    a separator does not cut such keys off from what follows it. *)
Context (same : list Z -> list Z -> Prop).
Hypothesis Hsame : forall start limit k, valid start -> valid limit -> valid k -> Compare start limit < 0 ->
  same k limit -> Compare k (FindShortestSeparator start limit) <= 0 -> Compare k start <= 0.

Notation entry := (list Z * list Z)%type.
Notation interval := (block_restart_interval options).
Notation elt := (fun a b : entry => Compare a.1 b.1 < 0).

(** The bytes of the data blocks [ds], and the handle of block [n]. *)
Definition data_of (ds : list (list entry)) : list Z :=
  concat (map (fun d => stored (block_of interval d)) ds).
Definition block_off (ds : list (list entry)) (n : nat) : Z := u64 (Z.of_nat (length (data_of (take n ds)))).
Definition block_handle (ds : list (list entry)) (n : nat) : BlockHandle :=
  Handle (block_off ds n) (Z.of_nat (length (block_of interval (default [] (ds !! n))))).

(** The entries of the index: a separator and the handle of its block. *)
Definition index_entries (ds : list (list entry)) (seps : list (list Z)) : list entry :=
  imap (fun n k => (k, BlockHandle_EncodeTo (block_handle ds n) [])) seps.

(** What the filter builder has been told. *)
Definition filter_blocks (ds : list (list entry)) (cur : list entry) : list (Z * list (list Z)) :=
  imap (fun n d => (block_off ds n, map fst d)) ds ++ [(block_off ds (length ds), map fst cur)].

(** A separator [k] lies between [before] and [after]. *)
Definition sep_between (before after : list entry) (k : list Z) : Prop :=
  valid k /\ (forall e, e ∈ before -> Compare e.1 k <= 0) /\ (forall e, e ∈ after -> Compare k e.1 < 0) /\
  (forall x t, head after = Some x -> valid t -> same t x.1 -> Compare t k <= 0 ->
     exists e, e ∈ before /\ Compare t e.1 <= 0).

Definition seps_ok (ds : list (list entry)) (cur : list entry) (seps : list (list Z)) : Prop :=
  forall n k, seps !! n = Some k -> sep_between (concat (take (S n) ds)) (concat (drop (S n) ds) ++ cur) k.

Lemma sep_between_snoc before after k e :
  sep_between before after k -> (forall x, x ∈ after -> Compare x.1 e.1 < 0) ->
  Forall (fun e => valid e.1) after -> valid e.1 -> after <> [] -> sep_between before (after ++ [e]) k.
Proof.
  intros (V & H1 & H2 & H3) Hlt Hv Hve Hne. destruct after as [|x after]; [done|].
  split; [done|]. split; [done|]. split; [|exact H3].
  intros y Hy. apply elem_of_app in Hy as [Hy|Hy]; [now apply H2|].
  apply list_elem_of_singleton in Hy as ->. apply Forall_cons in Hv as [Hv _].
  apply (Compare_lt_le_trans _ x.1); [done|done|done|apply H2; now left|].
  assert (Compare x.1 e.1 < 0) by (apply Hlt; now left). lia.
Qed.

Record tb_is (r : TableBuilder F) (ds : list (list entry)) (cur : list entry) (seps : list (list Z)) : Prop := {
  ti_status : t_status r = OK;
  ti_written : written (t_file r) = data_of ds;
  ti_offset : t_offset r = block_off ds (length ds);
  ti_data : data_block r = build_block interval cur;
  ti_index : index_block r = build_block 1 (index_entries ds seps);
  ti_last : t_last_key r = from_option fst [] (last (concat ds ++ cur));
  ti_filter : filter_block r = match filter_policy options with
                               | None => None
                               | Some p => Some (build_filters p (filter_blocks ds cur))
                               end;
  ti_count : (length seps + (if pending_index_entry r then 1 else 0))%nat = length ds;
  ti_pending : pending_index_entry r = true -> cur = [] /\ pending_handle r = block_handle ds (length ds - 1);
  ti_current : pending_index_entry r = false -> cur = [] -> ds = [];
  ti_seps : seps_ok ds cur seps;
  ti_nonempty : Forall (fun d => d <> []) ds;
}.

Lemma data_of_snoc ds d : data_of (ds ++ [d]) = data_of ds ++ stored (block_of interval d).
Proof. unfold data_of. rewrite map_app, concat_app. simpl. now rewrite app_nil_r. Qed.

Lemma block_off_snoc ds d n : (n <= length ds)%nat -> block_off (ds ++ [d]) n = block_off ds n.
Proof. intros H. unfold block_off. now rewrite take_app_le. Qed.

Lemma block_off_end ds : block_off ds (length ds) = u64 (Z.of_nat (length (data_of ds))).
Proof. unfold block_off. now rewrite take_ge. Qed.

Lemma block_handle_snoc ds d n : (n < length ds)%nat -> block_handle (ds ++ [d]) n = block_handle ds n.
Proof. intros H. unfold block_handle. now rewrite block_off_snoc, lookup_app_l by lia. Qed.

Lemma index_entries_snoc ds d seps : (length seps <= length ds)%nat ->
  index_entries (ds ++ [d]) seps = index_entries ds seps.
Proof.
  intros H. unfold index_entries. apply imap_ext. intros n k Hn. apply lookup_lt_Some in Hn.
  now rewrite block_handle_snoc by lia.
Qed.

Lemma index_entries_add ds seps k :
  index_entries ds (seps ++ [k]) =
  index_entries ds seps ++ [(k, BlockHandle_EncodeTo (block_handle ds (length seps)) [])].
Proof. unfold index_entries. rewrite imap_app. simpl. now rewrite Nat.add_0_r. Qed.

Lemma build_block_empty i es : is_empty (build_block i es) = true <-> es = [].
Proof.
  split; [|now intros ->]. destruct es as [|[k v] es _] using rev_ind; [done|].
  rewrite <- build_block_snoc. unfold is_empty, BlockBuilder_Add.
  destruct (if counter_ _ <? i then _ else _) as [[shared restarts] counter]. cbn [buffer_].
  match goal with |- match ?b with _ => _ end = _ -> _ => assert (Hb : (1 <= length b)%nat); [|destruct b; [|done]] end.
  - unfold PutVarint32. rewrite !length_app.
    pose proof (varint32_len (u32 (Z.of_nat (length v))) ltac:(apply wrapu_range; lia)). lia.
  - simpl in Hb. lia.
Qed.

(** Writing a block, with or without the request to compress. *)
Lemma WriteRawBlock_ok (r : TableBuilder F) c : 
  exists f, WriteRawBlock r c kNoCompression =
      (set_output f (u64 (t_offset r + Z.of_nat (length c) + kBlockTrailerSize)) OK r,
       Handle (t_offset r) (Z.of_nat (length c))) /\
    written f = written (t_file r) ++ stored c.
Proof.
  unfold WriteRawBlock. destruct (Append_law (t_file r) c) as (f1 & -> & E1). cbn [ok].
  destruct (Append_law f1 (compression_code kNoCompression ::
    EncodeFixed32 (Mask (crc_extend (crc_extend 0 c) [compression_code kNoCompression])))) as (f2 & -> & E2).
  exists f2. split; [done|]. rewrite E2, E1, <- app_assoc. done.
Qed.

Lemma WriteBlock_ok (r : TableBuilder F) b :
  WriteBlock options r b = WriteRawBlock r (buffer_ (BlockBuilder_Finish b)) kNoCompression.
Proof. unfold WriteBlock. now destruct (compression options). Qed.

Lemma offset_step (n : nat) (c : list Z) :
  u64 (u64 (Z.of_nat n) + Z.of_nat (length c) + kBlockTrailerSize) = u64 (Z.of_nat (n + length (stored c))).
Proof.
  rewrite length_stored. unfold kBlockTrailerSize, wrapu.
  rewrite <- Z.add_assoc, Zplus_mod_idemp_l. f_equal. lia.
Qed.

Lemma filter_blocks_flush ds cur p :
  build_filters p (filter_blocks (ds ++ [cur]) []) =
  StartBlock p (build_filters p (filter_blocks ds cur)) (block_off (ds ++ [cur]) (length (ds ++ [cur]))).
Proof.
  unfold build_filters. unfold filter_blocks at 1. rewrite fold_left_app. cbn [fold_left].
  unfold add_block at 1. cbn [fst snd map fold_left]. f_equal.
  unfold filter_blocks. f_equal. rewrite imap_app. cbn [imap]. f_equal.
  - apply imap_ext. intros n d Hn. apply lookup_lt_Some in Hn. now rewrite block_off_snoc by lia.
  - rewrite Nat.add_0_r. now rewrite block_off_snoc.
Qed.

Lemma filter_blocks_add ds cur k v p :
  build_filters p (filter_blocks ds (cur ++ [(k, v)])) = AddKey (build_filters p (filter_blocks ds cur)) k.
Proof.
  unfold build_filters, filter_blocks. rewrite !fold_left_app. cbn [fold_left]. unfold add_block at 1 3.
  cbn [fst snd]. rewrite map_app, fold_left_app. done.
Qed.

Lemma Flush_is r ds cur seps : tb_is r ds cur seps ->
  exists ds' cur', tb_is (TableBuilder_Flush options r) ds' cur' seps /\
    concat ds' ++ cur' = concat ds ++ cur /\ cur' = [] /\
    (pending_index_entry (TableBuilder_Flush options r) = false -> ds' = []).
Proof.
  intros T. unfold TableBuilder_Flush. rewrite (ti_status _ _ _ _ T). cbn [ok negb].
  rewrite (ti_data _ _ _ _ T). destruct (is_empty (build_block interval cur)) eqn:E.
  { apply build_block_empty in E as ->. exists ds, []. split; [done|]. split; [done|]. split; [done|].
    intros Hp. now apply (ti_current _ _ _ _ T). }
  assert (Hne : cur <> []) by (intros ->; now rewrite (proj2 (build_block_empty interval [])) in E).
  assert (Hpend : pending_index_entry r = false).
  { destruct (pending_index_entry r) eqn:Ep; [|done]. now destruct (ti_pending _ _ _ _ T Ep). }
  rewrite WriteBlock_ok.
  destruct (WriteRawBlock_ok r (buffer_ (BlockBuilder_Finish (build_block interval cur)))) as (f & -> & Ew).
  cbn [set_data_block set_pending set_output set_filter_block t_status t_file t_offset ok pending_handle
       pending_index_entry filter_block data_block index_block t_last_key num_entries closed].
  destruct (Flush_law f) as (f' & -> & Ef). cbn [t_offset filter_block].
  fold (block_of interval cur) in *.
  exists (ds ++ [cur]), []. split; [|split; [|done]].
  2:{ rewrite concat_app. simpl. now rewrite !app_nil_r. }
  pose proof (ti_count _ _ _ _ T) as Hcount. rewrite Hpend, Nat.add_0_r in Hcount.
  assert (Eoff : u64 (t_offset r + Z.of_nat (length (block_of interval cur)) + kBlockTrailerSize) =
                 block_off (ds ++ [cur]) (length (ds ++ [cur]))).
  { rewrite (ti_offset _ _ _ _ T), !block_off_end, offset_step, data_of_snoc, length_app. done. }
  constructor; cbn [set_data_block set_pending set_output set_filter_block t_status t_file t_offset ok pending_handle
       pending_index_entry filter_block data_block index_block t_last_key num_entries closed].
  - done.
  - now rewrite Ef, Ew, (ti_written _ _ _ _ T), data_of_snoc.
  - done.
  - done.
  - now rewrite (ti_index _ _ _ _ T), index_entries_snoc by lia.
  - rewrite (ti_last _ _ _ _ T), concat_app. simpl. now rewrite !app_nil_r.
  - rewrite (ti_filter _ _ _ _ T). unfold filter_StartBlock. destruct (filter_policy options) as [p|]; [|done].
    now rewrite filter_blocks_flush, Eoff.
  - rewrite length_app. simpl. lia.
  - intros _. split; [done|]. rewrite length_app. simpl length.
    replace (length ds + 1 - 1)%nat with (length ds) by lia. unfold block_handle.
    rewrite lookup_app_r, Nat.sub_diag, block_off_snoc by lia. now rewrite <- (ti_offset _ _ _ _ T).
  - done.
  - intros n k Hn. pose proof (ti_seps _ _ _ _ T n k Hn) as Hb. apply lookup_lt_Some in Hn.
    rewrite take_app_le, drop_app_le, concat_app by lia. simpl. now rewrite !app_nil_r.
  - apply Forall_app. split; [apply T|]. now repeat constructor.
Qed.

Lemma concat_nonempty (ds : list (list entry)) : Forall (fun d => d <> []) ds -> ds <> [] -> concat ds <> [].
Proof. intros [|d ds' Hd _] Hne; [done|]. simpl. intros E. now apply app_eq_nil in E as [-> _]. Qed.

(** The last entry of the blocks. *)
Lemma last_entry (ds : list (list entry)) : ds <> [] -> Forall (fun d => d <> []) ds ->
  exists e, last (concat ds ++ []) = Some e /\ e ∈ concat ds /\ e ∈ default [] (ds !! (length ds - 1)%nat).
Proof.
  intros Hne Hd. destruct ds as [|d ds _] using rev_ind; [done|].
  apply Forall_app in Hd as [_ Hd]. apply Forall_cons in Hd as [Hd _].
  rewrite app_nil_r, concat_app. cbn [concat]. rewrite app_nil_r.
  destruct d as [|e d _] using rev_ind; [done|]. exists e.
  rewrite app_assoc, last_snoc. split; [done|]. split.
  - apply elem_of_app. right. apply list_elem_of_singleton. done.
  - rewrite length_app. simpl length. rewrite lookup_app_r by lia.
    replace (length ds + 1 - 1 - length ds)%nat with 0%nat by lia. simpl.
    apply elem_of_app. right. apply list_elem_of_singleton. done.
Qed.

(** Adding the index entry of the block before, under a key [k] between it and
    what follows. *)
Lemma add_index_is r ds seps k :
  tb_is r ds [] seps -> pending_index_entry r = true ->
  valid k -> (forall e, e ∈ concat ds -> Compare e.1 k <= 0) ->
  t_status (add_index_entry k r) = OK /\ t_file (add_index_entry k r) = t_file r /\
  t_offset (add_index_entry k r) = t_offset r /\ data_block (add_index_entry k r) = data_block r /\
  index_block (add_index_entry k r) = build_block 1 (index_entries ds (seps ++ [k])) /\
  filter_block (add_index_entry k r) = filter_block r /\
  pending_index_entry (add_index_entry k r) = false /\
  length (seps ++ [k]) = length ds /\ seps_ok ds [] (seps ++ [k]).
Proof.
  intros T Hp Hk Hle. pose proof (ti_count _ _ _ _ T) as Hc. rewrite Hp in Hc.
  destruct (ti_pending _ _ _ _ T Hp) as [_ Eh].
  unfold add_index_entry. cbn [set_last_key set_index_block set_pending t_status t_file t_offset data_block
    index_block filter_block pending_index_entry pending_handle].
  split; [apply T|]. do 3 (split; [done|]). split.
  { rewrite (ti_index _ _ _ _ T), build_block_snoc, index_entries_add, Eh.
    now replace (length ds - 1)%nat with (length seps) by lia. }
  do 2 (split; [done|]). split; [rewrite length_app; simpl; lia|].
  intros n k' Hn. apply lookup_app_Some in Hn as [Hn|[Hlen Hn]]; [now apply (ti_seps _ _ _ _ T)|].
  apply list_lookup_singleton_Some in Hn as [Hn <-].
  rewrite take_ge, drop_ge by lia. split; [done|]. split; [done|].
  split; [intros e He; now apply elem_of_nil in He|done].
Qed.

Lemma sorted_app_lt (l1 l2 : list entry) : StronglySorted elt (l1 ++ l2) ->
  forall a b, a ∈ l1 -> b ∈ l2 -> Compare a.1 b.1 < 0.
Proof.
  induction l1 as [|x l1 IH]; intros Hs a b Ha Hb; [now apply elem_of_nil in Ha|].
  apply StronglySorted_inv in Hs as [Hs Hx]. apply elem_of_cons in Ha as [->|Ha]; [|now apply IH].
  rewrite Forall_forall in Hx. apply Hx, elem_of_app. now right.
Qed.

Lemma sorted_app_r (l1 l2 : list entry) : StronglySorted elt (l1 ++ l2) -> StronglySorted elt l2.
Proof. induction l1 as [|x l1 IH]; intros H; [done|]. apply IH. now apply StronglySorted_inv in H. Qed.

Lemma sorted_app_l (l1 l2 : list entry) : StronglySorted elt (l1 ++ l2) -> StronglySorted elt l1.
Proof.
  induction l1 as [|x l1 IH]; intros H; [constructor|]. apply StronglySorted_inv in H as [H1 H2].
  constructor; [now apply IH|]. now apply Forall_app in H2 as [? _].
Qed.

(** In a sorted list every entry is at most the last one. *)
Lemma sorted_last (l : list entry) e x : StronglySorted elt l -> Forall (fun e => valid e.1) l ->
  last l = Some x -> e ∈ l -> Compare e.1 x.1 <= 0.
Proof.
  intros Hs Hv Hl He. destruct l as [|y l _] using rev_ind; [done|].
  rewrite last_snoc in Hl. injection Hl as ->.
  apply Forall_app in Hv as [_ Hv]. apply Forall_cons in Hv as [Hv _].
  apply elem_of_app in He as [He|He].
  - pose proof (sorted_app_lt l [x] Hs e x He). rewrite list_elem_of_singleton in H. specialize (H eq_refl). lia.
  - apply list_elem_of_singleton in He as ->. rewrite (Compare_refl x.1) by done. lia.
Qed.

(** The builder before the entry is put into the data block: the separator
    has been written if there was one to write. *)
Definition before_entry (r : TableBuilder F) (ds : list (list entry)) (cur : list entry) (seps : list (list Z)) (e : entry) : Prop :=
  t_status r = OK /\ written (t_file r) = data_of ds /\ t_offset r = block_off ds (length ds) /\
  data_block r = build_block interval cur /\ index_block r = build_block 1 (index_entries ds seps) /\
  filter_block r = match filter_policy options with
                   | None => None | Some p => Some (build_filters p (filter_blocks ds cur)) end /\
  pending_index_entry r = false /\ length seps = length ds /\
  seps_ok ds (cur ++ [e]) seps /\ Forall (fun d => d <> []) ds.

Lemma before_entry_ok r ds cur seps k v :
  tb_is r ds cur seps -> StronglySorted elt ((concat ds ++ cur) ++ [(k, v)]) ->
  Forall (fun e => valid e.1) (concat ds ++ cur) -> valid k ->
  exists seps', before_entry
    (if pending_index_entry r then add_index_entry (FindShortestSeparator (t_last_key r) k) r else r)
    ds cur seps' (k, v).
Proof.
  intros T Hs Hv Hk. destruct (pending_index_entry r) eqn:Ep.
  - destruct (ti_pending _ _ _ _ T Ep) as [-> Eh].
    pose proof (ti_count _ _ _ _ T) as Hc. rewrite Ep in Hc.
    assert (Hne : ds <> []) by (intros ->; simpl in Hc; lia).
    destruct (last_entry ds Hne (ti_nonempty _ _ _ _ T)) as (x & El & Hx & _).
    rewrite (ti_last _ _ _ _ T), El. cbn [from_option].
    rewrite app_nil_r in Hv, Hs, El.
    assert (Hvx : valid x.1) by (rewrite Forall_forall in Hv; now apply Hv).
    assert (Hlt : Compare x.1 k < 0)
      by (apply (sorted_app_lt _ _ Hs x (k, v)); [done|now apply list_elem_of_singleton]).
    pose proof (Separator_valid x.1 k Hvx Hk) as Vs.
    destruct (Separator_ok x.1 k Hvx Hk Hlt) as [S1 S2].
    exists (seps ++ [FindShortestSeparator x.1 k]).
    destruct (add_index_is r ds seps (FindShortestSeparator x.1 k) T Ep Vs) as (A1 & A2 & A3 & A4 & A5 & A6 & A7 & A8 & A9).
    { intros e He. apply (Compare_trans _ x.1); [|done|done| |done].
      - rewrite Forall_forall in Hv. now apply Hv.
      - apply (sorted_last (concat ds)); [now apply sorted_app_l in Hs|done|done|done]. }
    unfold before_entry. rewrite A2, A3, A4, A6.
    do 8 (split; [first [done|apply T]|]). split; [|apply T].
    intros n k' Hn. specialize (A9 n k' Hn). simpl in A9 |- *. rewrite app_nil_r in A9.
    apply lookup_app_Some in Hn as [Hn|[Hlen Hn]].
    + (* a block follows this separator *)
      apply lookup_lt_Some in Hn. rewrite <- (take_drop (S n) ds), concat_app in Hs, Hv.
      rewrite <- app_assoc in Hs. apply sorted_app_r in Hs. apply Forall_app in Hv as [_ Hv].
      apply sep_between_snoc; [done| |done|done|].
      * intros y Hy. apply (sorted_app_lt _ _ Hs); [done|now apply list_elem_of_singleton].
      * apply concat_nonempty; [apply Forall_drop, T|]. intros Ed. apply (f_equal length) in Ed.
        rewrite length_drop in Ed. simpl in Ed. lia.
    + apply list_lookup_singleton_Some in Hn as [Hn <-]. destruct A9 as (V & H1 & _).
      rewrite drop_ge by lia. split; [done|]. split; [done|]. split.
      * intros e He. now apply list_elem_of_singleton in He as ->.
      * intros y t [= <-] Vt Ht Hle. exists x. rewrite take_ge by lia. split; [done|]. now apply (Hsame x.1 k).
  - exists seps. pose proof (ti_count _ _ _ _ T) as Hc. rewrite Ep, Nat.add_0_r in Hc.
    unfold before_entry.
    do 8 (split; [first [done|apply T]|]). split; [|apply T].
    intros n k' Hn. pose proof (ti_seps _ _ _ _ T n k' Hn) as Hb.
    rewrite app_assoc. rewrite <- (take_drop (S n) ds), concat_app, <- (app_assoc (concat (take (S n) ds))) in Hs, Hv.
    rewrite <- app_assoc in Hs. apply sorted_app_r in Hs. apply Forall_app in Hv as [_ Hv].
    apply sep_between_snoc; [done| |done|done|].
    + intros y Hy. apply (sorted_app_lt _ _ Hs); [done|now apply list_elem_of_singleton].
    + intros Hnil. apply app_eq_nil in Hnil as [_ Hcur].
      rewrite (ti_current _ _ _ _ T Ep Hcur) in Hc. apply lookup_lt_Some in Hn. simpl in Hc. lia.
Qed.

Lemma Add_is r ds cur seps k v :
  tb_is r ds cur seps -> StronglySorted elt ((concat ds ++ cur) ++ [(k, v)]) ->
  Forall (fun e => valid e.1) (concat ds ++ cur) -> valid k ->
  exists ds' cur' seps', tb_is (TableBuilder_Add C options r k v) ds' cur' seps' /\
    concat ds' ++ cur' = (concat ds ++ cur) ++ [(k, v)].
Proof.
  intros T Hs Hv Hk. unfold TableBuilder_Add. rewrite (ti_status _ _ _ _ T). cbn [ok negb].
  destruct (before_entry_ok r ds cur seps k v T Hs Hv Hk) as (seps' & B). revert B.
  set (r1 := if pending_index_entry r then _ else r). clearbody r1.
  intros (B1 & B2 & B3 & B4 & B5 & B6 & B7 & B8 & B9 & B10).
  set (r2 := match filter_block r1 with Some fb => _ | None => r1 end).
  assert (E2 : t_status r2 = OK /\ t_file r2 = t_file r1 /\ t_offset r2 = t_offset r1 /\
    data_block r2 = data_block r1 /\ index_block r2 = index_block r1 /\ pending_index_entry r2 = false /\
    filter_block r2 = match filter_policy options with
      | None => None | Some p => Some (build_filters p (filter_blocks ds (cur ++ [(k, v)]))) end).
  { unfold r2. rewrite B6. destruct (filter_policy options) as [p|].
    - cbn [set_filter_block t_status t_file t_offset data_block index_block pending_index_entry filter_block].
      rewrite filter_blocks_add. repeat split; done.
    - repeat split; done. }
  clearbody r2. destruct E2 as (D1 & D2 & D3 & D4 & D5 & D6 & D7).
  set (r3 := set_data_block _ _).
  assert (T3 : tb_is r3 ds (cur ++ [(k, v)]) seps').
  { unfold r3. constructor; cbn [set_data_block set_last_key t_status t_file t_offset data_block index_block
      pending_index_entry pending_handle filter_block t_last_key].
    - done.
    - now rewrite D2, B2.
    - now rewrite D3, B3.
    - now rewrite D4, B4, build_block_snoc.
    - now rewrite D5, B5.
    - now rewrite app_assoc, last_snoc.
    - done.
    - now rewrite D6, Nat.add_0_r.
    - rewrite D6. done.
    - intros _ Hnil. now apply app_eq_nil in Hnil as [_ ?].
    - done.
    - done. }
  destruct (block_size options <=? _).
  - destruct (Flush_is r3 ds (cur ++ [(k, v)]) seps' T3) as (ds' & cur' & T' & E & _).
    exists ds', cur', seps'. split; [done|]. now rewrite E, app_assoc.
  - exists ds, (cur ++ [(k, v)]), seps'. split; [done|]. now rewrite app_assoc.
Qed.

(** Adding all entries to a new builder. *)
Definition add_all (entries : list entry) (r : TableBuilder F) : TableBuilder F :=
  fold_left (fun r e => TableBuilder_Add C options r e.1 e.2) entries r.

Lemma make_is f : written f = [] -> tb_is (make_TableBuilder options f) [] [] [].
Proof.
  intros Hf. constructor; try done.
  simpl. unfold filter_StartBlock. now destruct (filter_policy options).
Qed.

Lemma add_all_is es r ds cur seps :
  tb_is r ds cur seps -> StronglySorted elt ((concat ds ++ cur) ++ es) ->
  Forall (fun e => valid e.1) ((concat ds ++ cur) ++ es) ->
  exists ds' cur' seps', tb_is (add_all es r) ds' cur' seps' /\ concat ds' ++ cur' = (concat ds ++ cur) ++ es.
Proof.
  revert r ds cur seps. induction es as [|[k v] es IH]; intros r ds cur seps T Hs Hv.
  - exists ds, cur, seps. split; [done|]. now rewrite app_nil_r.
  - replace ((concat ds ++ cur) ++ (k, v) :: es) with (((concat ds ++ cur) ++ [(k, v)]) ++ es) in *
      by now rewrite <- app_assoc.
    pose proof (sorted_app_l _ _ Hs) as Hs1. apply Forall_app in Hv as [Hv Hves].
    pose proof Hv as Hv2. apply Forall_app in Hv2 as [Hv1 Hvk]. apply Forall_cons in Hvk as [Hvk _].
    destruct (Add_is r ds cur seps k v T Hs1 Hv1 Hvk) as (ds1 & cur1 & seps1 & T1 & E1).
    cbn [add_all fold_left fst snd].
    destruct (IH _ ds1 cur1 seps1 T1) as (ds2 & cur2 & seps2 & T2 & E2).
    + now rewrite E1.
    + rewrite E1. apply Forall_app. done.
    + exists ds2, cur2, seps2. split; [done|]. now rewrite E2, E1.
Qed.

(** ** The finished file *)

Definition filter_bytes (p : FilterPolicy) (ds : list (list entry)) : list Z :=
  FilterBlock_Finish p (build_filters p (filter_blocks ds [])).
Definition filter_part (ds : list (list entry)) : list Z :=
  match filter_policy options with None => [] | Some p => stored (filter_bytes p ds) end.
Definition handle_at (before contents : list Z) : BlockHandle :=
  Handle (u64 (Z.of_nat (length before))) (Z.of_nat (length contents)).
Definition meta_entries (ds : list (list entry)) : list entry :=
  match filter_policy options with
  | None => []
  | Some p => [(filter_key p, BlockHandle_EncodeTo (handle_at (data_of ds) (filter_bytes p ds)) [])]
  end.
Definition meta_block (ds : list (list entry)) : list Z := block_of interval (meta_entries ds).
Definition index_bytes (ds : list (list entry)) (seps : list (list Z)) : list Z :=
  block_of 1 (index_entries ds seps).
Definition footer_of (ds : list (list entry)) (seps : list (list Z)) : Footer :=
  MkFooter (handle_at (data_of ds ++ filter_part ds) (meta_block ds))
           (handle_at (data_of ds ++ filter_part ds ++ stored (meta_block ds)) (index_bytes ds seps)).
Definition table_bytes (ds : list (list entry)) (seps : list (list Z)) : list Z :=
  (data_of ds ++ filter_part ds ++ stored (meta_block ds)) ++ stored (index_bytes ds seps) ++
  Footer_EncodeTo (footer_of ds seps) [].

Lemma handle_of (before c : list Z) (r : TableBuilder F) :
  t_offset r = u64 (Z.of_nat (length before)) ->
  Handle (t_offset r) (Z.of_nat (length c)) = handle_at before c /\
  u64 (t_offset r + Z.of_nat (length c) + kBlockTrailerSize) = u64 (Z.of_nat (length (before ++ stored c))).
Proof. intros ->. split; [done|]. now rewrite offset_step, length_app. Qed.

(** The writes of [Finish] after the flush. *)
Lemma WriteRawBlock_at (r : TableBuilder F) before c :
  t_status r = OK -> written (t_file r) = before -> t_offset r = u64 (Z.of_nat (length before)) ->
  exists f o, WriteRawBlock r c kNoCompression = (set_output f o OK r, handle_at before c) /\
    written f = before ++ stored c /\ o = u64 (Z.of_nat (length (before ++ stored c))).
Proof.
  intros Hs Hw Ho. destruct (WriteRawBlock_ok r c) as (f & -> & Ef).
  destruct (handle_of before c r Ho) as [-> Eo].
  exists f, (u64 (t_offset r + Z.of_nat (length c) + kBlockTrailerSize)).
  split; [done|]. split; [now rewrite Ef, Hw|done].
Qed.

(** After the last flush: all entries are in blocks, and the last separator is
    the one to write. *)
Lemma last_separator r ds seps :
  tb_is r ds [] seps -> (pending_index_entry r = false -> ds = []) ->
  StronglySorted elt (concat ds) -> Forall (fun e => valid e.1) (concat ds) ->
  exists seps', length seps' = length ds /\ seps_ok ds [] seps' /\
    index_block (if pending_index_entry r then add_index_entry (FindShortSuccessor (t_last_key r)) r else r) =
      build_block 1 (index_entries ds seps').
Proof.
  intros T Hp Hs Hv. pose proof (ti_count _ _ _ _ T) as Hc. destruct (pending_index_entry r) eqn:Ep.
  - assert (Hne : ds <> []) by (intros ->; simpl in Hc; lia).
    destruct (last_entry ds Hne (ti_nonempty _ _ _ _ T)) as (x & El & Hx & _).
    rewrite (ti_last _ _ _ _ T), El. cbn [from_option]. rewrite app_nil_r in El.
    assert (Hvx : valid x.1) by (rewrite Forall_forall in Hv; now apply Hv).
    destruct (add_index_is r ds seps (FindShortSuccessor x.1) T Ep (Successor_valid x.1 Hvx))
      as (_ & _ & _ & _ & A5 & _ & _ & A8 & A9).
    { intros e He. apply (Compare_trans _ x.1); [|done|now apply Successor_valid| |now apply Successor_ok].
      - rewrite Forall_forall in Hv. now apply Hv.
      - now apply (sorted_last (concat ds)). }
    now exists (seps ++ [FindShortSuccessor x.1]).
  - exists seps. rewrite (Hp eq_refl) in *. split; [simpl in *; lia|].
    split; [apply T|]. apply T.
Qed.

Ltac fields := cbn [set_data_block set_pending set_output set_filter_block set_closed set_index_block set_last_key
  t_status t_file t_offset ok pending_handle pending_index_entry filter_block data_block index_block t_last_key
  num_entries closed].

(** The filter and the metaindex block. *)
Lemma Finish_meta (r : TableBuilder F) ds :
  t_status r = OK -> written (t_file r) = data_of ds -> t_offset r = block_off ds (length ds) ->
  filter_block r = match filter_policy options with
                   | None => None | Some p => Some (build_filters p (filter_blocks ds [])) end ->
  exists f o, written f = data_of ds ++ filter_part ds /\
    o = u64 (Z.of_nat (length (data_of ds ++ filter_part ds))) /\
    exists h, match filter_policy options, filter_block r with
     | Some p, Some fb => if ok (t_status r) then WriteRawBlock r (FilterBlock_Finish p fb) kNoCompression
                          else (r, make_BlockHandle)
     | _, _ => (r, make_BlockHandle) end = (set_output f o OK r, h) /\
    match filter_policy options with
    | Some p => BlockBuilder_Add interval BlockBuilder_Reset (filter_key p) (BlockHandle_EncodeTo h [])
    | None => BlockBuilder_Reset
    end = build_block interval (meta_entries ds).
Proof.
  intros Hs Hw Ho Hf. rewrite block_off_end in Ho. rewrite Hf. unfold filter_part, meta_entries.
  destruct (filter_policy options) as [p|].
  - rewrite Hs. cbn [ok]. fold (filter_bytes p ds).
    destruct (WriteRawBlock_at r (data_of ds) (filter_bytes p ds) Hs Hw Ho) as (f & o & -> & Ew & Eo).
    exists f, o. split; [done|]. split; [done|]. eexists. split; [reflexivity|done].
  - exists (t_file r), (t_offset r). rewrite app_nil_r. split; [done|]. split; [done|].
    exists make_BlockHandle. split; [|done]. rewrite <- Hs. now destruct r.
Qed.

Lemma Finish_is r ds cur seps :
  tb_is r ds cur seps -> StronglySorted elt (concat ds ++ cur) -> Forall (fun e => valid e.1) (concat ds ++ cur) ->
  exists ds' seps', t_status (TableBuilder_Finish C options r) = OK /\
    written (t_file (TableBuilder_Finish C options r)) = table_bytes ds' seps' /\
    concat ds' = concat ds ++ cur /\ length seps' = length ds' /\ seps_ok ds' [] seps' /\
    Forall (fun d => d <> []) ds'.
Proof.
  intros T Hs Hv. destruct (Flush_is r ds cur seps T) as (ds' & cur' & T' & E & -> & Hp).
  rewrite app_nil_r in E. rewrite <- E in Hs, Hv. unfold TableBuilder_Finish.
  revert T' Hp. generalize (TableBuilder_Flush options r). intros r1 T1 Hp.
  destruct (last_separator r1 ds' seps T1 Hp Hs Hv) as (seps' & Hl & Hok & Ei).
  exists ds', seps'.
  destruct (Finish_meta (set_closed r1) ds') as (f & o & Ef & Eo & h & -> & ->);
    [apply T1|apply T1|apply T1|apply T1|].
  cbn [set_output t_status ok]. rewrite WriteBlock_ok. fold (block_of interval (meta_entries ds')) (meta_block ds').
  match goal with |- context [WriteRawBlock ?r2 (meta_block ds') _] =>
    destruct (WriteRawBlock_at r2 (data_of ds' ++ filter_part ds') (meta_block ds') eq_refl Ef Eo)
      as (f2 & o2 & -> & Ef2 & Eo2) end.
  cbn [set_output t_status ok].
  set (r3 := if pending_index_entry _ then _ else _).
  assert (E3 : t_status r3 = OK /\ t_file r3 = f2 /\ t_offset r3 = o2 /\ index_block r3 = build_block 1 (index_entries ds' seps')).
  { unfold r3. revert Ei. fields. destruct (pending_index_entry r1); unfold add_index_entry; fields; done. }
  destruct E3 as (D1 & D2 & D3 & D4). clearbody r3. rewrite D4, WriteBlock_ok.
  fold (block_of 1 (index_entries ds' seps')) (index_bytes ds' seps').
  rewrite <- app_assoc in Ef2, Eo2.
  destruct (WriteRawBlock_at r3 _ (index_bytes ds' seps') D1 (eq_trans (f_equal written D2) Ef2) (eq_trans D3 Eo2))
    as (f4 & o4 & -> & Ef4 & Eo4).
  fields. fold (footer_of ds' seps').
  destruct (Append_law f4 (Footer_EncodeTo (footer_of ds' seps') [])) as (f5 & -> & Ef5).
  fields. split; [done|]. split; [|split; [done|split; [done|split; [done|apply T1]]]].
  rewrite Ef5, Ef4. unfold table_bytes. now rewrite <- !app_assoc.
Qed.

(** The file a new builder leaves after all entries and [Finish]. *)
Definition built (f : F) (entries : list entry) : F :=
  t_file (TableBuilder_Finish C options (add_all entries (make_TableBuilder options f))).

Lemma table_built_is f entries : written f = [] -> StronglySorted elt entries -> Forall (fun e => valid e.1) entries ->
  exists ds seps, written (built f entries) = table_bytes ds seps /\ concat ds = entries /\
    length seps = length ds /\ seps_ok ds [] seps /\ Forall (fun d => d <> []) ds.
Proof.
  intros Hf Hs Hv.
  destruct (add_all_is entries _ [] [] [] (make_is f Hf) Hs Hv) as (ds & cur & seps & T & E). simpl in E.
  rewrite <- E in Hs, Hv.
  destruct (Finish_is _ ds cur seps T Hs Hv) as (ds' & seps' & _ & Hw & Ec & Hl & Ho & Hn).
  exists ds', seps'. rewrite Ec, E. done.
Qed.

End Build.
