(* ===== verification/LvTableRead.v ===== *)
(** * leveldb: looking up a key in a table (theorems about the reader of LvTable)

    A file with the layout of LvTableProps opens, and a lookup finds the first
    entry at or after the key, whatever the cache of blocks does. *)
From Stdlib Require Import ZArith Lia Bool List Sorted.
From stdpp Require Import base list numbers sorting gmap.
From S2P Require Import Prelude LvCoding LvCrc32c LvEnv LvLog LvComparator LvDbFormat LvBlock LvBlockProps.
From S2P Require Import LvFilter LvFilterProps LvFormat LvTable LvTableProps.

(** ** The first entry at or after a key *)

Section FirstGe.
Context (C : Comparator).
Notation entry := (list Z * list Z)%type.

Lemma first_ge_spec k (l : list entry) :
  (first_ge C k l <= length l)%nat /\
  (forall j e, (j < first_ge C k l)%nat -> l !! j = Some e -> Compare e.1 k < 0) /\
  (forall e, l !! first_ge C k l = Some e -> 0 <= Compare e.1 k).
Proof.
  induction l as [|[x v] l (IH1 & IH2 & IH3)]; simpl.
  - split; [done|]. split; intros; [lia|done].
  - destruct (Z.ltb_spec (Compare x k) 0).
    + split; [lia|]. split; [|done]. intros [|j] e Hj He; simpl in He; [now injection He as <-|].
      apply (IH2 j); [lia|done].
    + split; [lia|]. split; [intros; lia|]. intros e He. simpl in He. now injection He as <-.
Qed.

Lemma first_ge_all k (l : list entry) : (forall e, e ∈ l -> Compare e.1 k < 0) -> l !! first_ge C k l = None.
Proof.
  intros H. destruct (l !! first_ge C k l) as [e|] eqn:E; [|done].
  pose proof (proj2 (proj2 (first_ge_spec k l)) e E). apply list_elem_of_lookup_2 in E. apply H in E. lia.
Qed.

Lemma first_ge_None k (l : list entry) : l !! first_ge C k l = None -> forall e, e ∈ l -> Compare e.1 k < 0.
Proof.
  intros H e He. apply list_elem_of_lookup_1 in He as [j Hj]. apply lookup_ge_None in H.
  apply (proj1 (proj2 (first_ge_spec k l)) j); [|done]. apply lookup_lt_Some in Hj. lia.
Qed.

(** What is smaller than the key can be left out in front. *)
Lemma first_ge_app k (a b : list entry) : (forall e, e ∈ a -> Compare e.1 k < 0) ->
  (a ++ b) !! first_ge C k (a ++ b) = b !! first_ge C k b.
Proof.
  induction a as [|[x v] a IH]; intros H; [done|]. cbn [first_ge app].
  assert (Compare x k < 0) by (apply (H (x, v)); now left).
  destruct (Z.ltb_spec (Compare x k) 0); [|lia]. cbn [lookup list_lookup]. apply IH. intros e He. apply H. now right.
Qed.

(** A hit in the front part is the hit of the whole. *)
Lemma first_ge_front k (a b : list entry) e :
  a !! first_ge C k a = Some e -> (a ++ b) !! first_ge C k (a ++ b) = Some e.
Proof.
  induction a as [|[x v] a IH]; [done|]. cbn [first_ge app].
  destruct (Z.ltb_spec (Compare x k) 0); [|done]. simpl. apply IH.
Qed.

End FirstGe.

(** ** Lists of lists *)

Lemma elem_concat_drop {A} (ds : list (list A)) n j d e :
  (n <= j)%nat -> ds !! j = Some d -> e ∈ d -> e ∈ concat (drop n ds).
Proof.
  intros Hn Hj He. apply list_elem_of_In, in_concat. exists d. split; [|now apply list_elem_of_In].
  apply list_elem_of_In, list_elem_of_lookup. exists (j - n)%nat. rewrite lookup_drop.
  now replace (n + (j - n))%nat with j by lia.
Qed.

Lemma elem_concat_take {A} (ds : list (list A)) n e :
  e ∈ concat (take n ds) -> exists j d, (j < n)%nat /\ ds !! j = Some d /\ e ∈ d.
Proof.
  intros He. apply list_elem_of_In, in_concat in He as (d & Hd & He). apply list_elem_of_In in He.
  apply list_elem_of_In, list_elem_of_lookup in Hd as [j Hj]. apply lookup_take_Some in Hj as [Hj Hlt].
  now exists j, d.
Qed.

Lemma take_split {A} (l : list A) i j : (i <= j)%nat -> take j l = take i l ++ drop i (take j l).
Proof. intros H. rewrite <- (take_drop i (take j l)) at 1. now rewrite take_take, Nat.min_l. Qed.

Lemma sorted_by_lookup {A} (R : A -> A -> Prop) (l : list A) :
  (forall i j a b, (i < j)%nat -> l !! i = Some a -> l !! j = Some b -> R a b) -> StronglySorted R l.
Proof.
  induction l as [|x l IH]; intros H; constructor.
  - apply IH. intros i j a b Hij Ha Hb. apply (H (S i) (S j)); [lia|done|done].
  - apply Forall_lookup. intros j b Hb. apply (H 0%nat (S j)); [lia|done|done].
Qed.

Lemma sorted_lookup {A} (R : A -> A -> Prop) (l : list A) i j a b :
  StronglySorted R l -> (i < j)%nat -> l !! i = Some a -> l !! j = Some b -> R a b.
Proof.
  intros Hs. revert i j. induction Hs as [|x l Hs IH Hx]; intros i j Hij Ha Hb; [done|].
  destruct j as [|j]; [lia|]. destruct i as [|i]; simpl in *.
  - injection Ha as ->. rewrite Forall_lookup in Hx. now apply (Hx j).
  - apply (IH i j); [lia|done|done].
Qed.

Lemma BlockHandle_decode h : handle_ok h -> BlockHandle_DecodeFrom (BlockHandle_EncodeTo h []) = Some (h, []).
Proof. intros H. rewrite <- (app_nil_r (BlockHandle_EncodeTo _ _)). apply BlockHandle_roundtrip; [done|constructor]. Qed.

(** ** Reading *)

(** A lookup in a table leaves the entries that other tables have in the cache
    as they are, or drops them. *)
Definition cache_frame {F K} {BC : Cache Block K} {BL : CacheLaws Block K} (t : Table F) (c c' : option K) : Prop :=
  match c, c' with
  | Some c, Some c' => cache_last c' = cache_last c /\
      forall k, (forall h, k <> cache_key t h) -> cached c' k = None \/ cached c' k = cached c k
  | None, None => True
  | _, _ => False
  end.

Lemma cache_frame_refl {F K} {BC : Cache Block K} {BL : CacheLaws Block K} (t : Table F) (c : option K) :
  cache_frame t c c.
Proof. destruct c as [c|]; [split; [done|]; intros k _; now right|done]. Qed.

(** The id of a table is the new id that the cache gave out. *)
Definition opened {F K} {BC : Cache Block K} (t : Table F) (c c' : option K) : Prop :=
  match c with
  | Some c => (tb_cache_id t, c') = (fst (cache_NewId c), Some (snd (cache_NewId c)))
  | None => (tb_cache_id t, c') = (0, None)
  end.

Section Layout.
Context {F : Type} {RF : RandomAccessFile F} {K : Type} {BC : Cache Block K} {BL : CacheLaws Block K}.
Context (C : Comparator) (valid : list Z -> Prop) (options : Options).

(** The blocks of an open table: [ds] holds their entries, and the index leads to
    them by separators between them. *)
Record table_layout (t : Table F) (good : option K -> Prop) (ds : list (list (list Z * list Z))) (seps : list (list Z)) : Prop := {
  tl_index : tb_index_block t = make_Block (index_bytes options ds seps);
  tl_index_size : CurrentSizeEstimate (build_block 1 (index_entries options ds seps)) < 2 ^ 32;
  tl_index_ok : StronglySorted (fun a b => Compare a.1 b.1 < 0) (index_entries options ds seps) /\
    Forall entry_bytes_ok (index_entries options ds seps) /\ Forall (fun e => valid e.1) (index_entries options ds seps);
  tl_length : length seps = length ds;
  tl_nonempty : Forall (fun d => d <> []) ds;
  tl_block n d : ds !! n = Some d -> CurrentSizeEstimate (build_block (block_restart_interval options) d) < 2 ^ 32;
  tl_read n d verify fill c : ds !! n = Some d -> good c ->
    exists c', BlockReader t verify fill (BlockHandle_EncodeTo (block_handle options ds n) []) c =
      Some (NewIterator (make_Block (block_of (block_restart_interval options) d)), c') /\ good c' /\ cache_frame t c c';
  tl_handle n m d d' : ds !! n = Some d -> ds !! m = Some d' ->
    BlockHandle_EncodeTo (block_handle options ds n) [] = BlockHandle_EncodeTo (block_handle options ds m) [] -> n = m;
  tl_sep n d s : ds !! n = Some d -> seps !! n = Some s ->
    (forall e, e ∈ d -> Compare e.1 s <= 0) /\ (forall e, e ∈ concat (drop (S n) ds) -> Compare s e.1 < 0);
}.

End Layout.

Section Read.
Context {F : Type} {RF : RandomAccessFile F} {RL : RandomAccessFileLaws F}.
Context {K : Type} {BC : Cache Block K} {BL : CacheLaws Block K}.
Context (C : Comparator) (valid : list Z -> Prop) {L : ComparatorLaws C valid} (options : Options).
Context (same : list Z -> list Z -> Prop) (fine : list (list Z) -> Prop).
Hypothesis Hinterval : 1 <= block_restart_interval options.
Hypothesis Hpolicy : forall p, filter_policy options = Some p -> FilterPolicyLaws p fine.
Hypothesis Hmatch : forall p, filter_policy options = Some p ->
  forall k k' f, same k k' -> @KeyMayMatch p k f = @KeyMayMatch p k' f.
Hypothesis Hbytes : forall k, valid k -> is_bytes k.

Notation entry := (list Z * list Z)%type.
Notation interval := (block_restart_interval options).
Notation elt := (fun a b : entry => Compare a.1 b.1 < 0).
Notation data_of := (data_of options).
Notation block_off := (block_off options).
Notation block_handle := (block_handle options).
Notation index_entries := (index_entries options).
Notation index_bytes := (index_bytes options).
Notation table_bytes := (table_bytes options).

Context (ds : list (list entry)) (seps : list (list Z)).
Notation entries := (concat ds).
Hypothesis Hsorted : StronglySorted elt entries.
Hypothesis Hvalid : Forall (fun e => valid e.1) entries.
Hypothesis Hvalues : Forall (fun e => is_bytes e.2) entries.
Hypothesis Hlen : length seps = length ds.
Hypothesis Hseps : seps_ok C valid same ds [] seps.
Hypothesis Hnonempty : Forall (fun d => d <> []) ds.
Hypothesis Hsize : Z.of_nat (length (table_bytes ds seps)) < 2 ^ 32.
Hypothesis Hfine : forall g, g `sublist_of` map fst entries -> fine g.

Context (f : F).
Hypothesis Hf : ra_contents f = table_bytes ds seps.

Lemma sizes :
  Z.of_nat (length (data_of ds)) + Z.of_nat (length (filter_part options ds)) +
  Z.of_nat (length (meta_block options ds)) + 5 + Z.of_nat (length (index_bytes ds seps)) + 5 < 2 ^ 32.
Proof.
  pose proof Hsize as H. unfold LvTableProps.table_bytes in H. rewrite !length_app, !length_stored in H. lia.
Qed.

Lemma entry_ok : Forall entry_bytes_ok entries.
Proof.
  apply Forall_forall. intros e He. rewrite Forall_forall in Hvalid, Hvalues. split; [apply Hbytes, Hvalid|apply Hvalues]; done.
Qed.

Lemma block_split n d : ds !! n = Some d ->
  data_of ds = data_of (take n ds) ++ stored (block_of interval d) ++ data_of (drop (S n) ds).
Proof.
  intros Hn. rewrite <- (take_drop_middle ds n d Hn) at 1. unfold LvTableProps.data_of.
  now rewrite map_app, concat_app.
Qed.

Lemma entries_split n d : ds !! n = Some d ->
  entries = concat (take n ds) ++ d ++ concat (drop (S n) ds).
Proof. intros Hn. rewrite <- (take_drop_middle ds n d Hn) at 1. now rewrite concat_app. Qed.

Lemma block_off_small n : block_off ds n = Z.of_nat (length (data_of (take n ds))) /\
  Z.of_nat (length (data_of (take n ds))) < 2 ^ 32.
Proof.
  pose proof sizes. assert (length (data_of (take n ds)) <= length (data_of ds))%nat.
  { rewrite <- (take_drop n ds) at 2. unfold LvTableProps.data_of. rewrite map_app, concat_app, length_app. lia. }
  split; [|lia]. unfold LvTableProps.block_off. apply wrapu_small. lia.
Qed.

(** Reading data block [n]. *)
Lemma read_data n d verify : ds !! n = Some d ->
  block_handle ds n = Handle (Z.of_nat (length (data_of (take n ds)))) (Z.of_nat (length (block_of interval d))) /\
  handle_ok (block_handle ds n) /\
  exists b, ReadBlock f verify (block_handle ds n) = Some (OK, Contents_of (block_of interval d) b b).
Proof.
  intros Hn. pose proof sizes as Hs. destruct (block_off_small n) as [Eo Ho].
  assert (Hb : Z.of_nat (length (block_of interval d)) < 2 ^ 32).
  { rewrite (block_split n d Hn), !length_app, length_stored in Hs. lia. }
  assert (Eh : block_handle ds n = Handle (Z.of_nat (length (data_of (take n ds)))) (Z.of_nat (length (block_of interval d)))).
  { unfold LvTableProps.block_handle. now rewrite Eo, Hn. }
  split; [done|]. split; [rewrite Eh; split; simpl; lia|]. rewrite Eh.
  eapply ReadBlock_stored; [rewrite Hf; unfold LvTableProps.table_bytes; rewrite (block_split n d Hn); now rewrite <- !app_assoc| |lia].
  apply block_of_bytes. pose proof entry_ok as He. rewrite (entries_split n d Hn) in He.
  now apply Forall_app in He as [_ [? _]%Forall_app].
Qed.

(** Any block behind the data. *)
Lemma read_at before c after verify :
  ra_contents f = before ++ stored c ++ after -> is_bytes c ->
  handle_ok (handle_at before c) /\
  exists b, ReadBlock f verify (handle_at before c) = Some (OK, Contents_of c b b).
Proof.
  intros E Hb. assert (Hl : Z.of_nat (length before) + Z.of_nat (length c) + 5 < 2 ^ 32).
  { pose proof Hsize as H. rewrite <- Hf, E, !length_app, length_stored in H. lia. }
  unfold handle_at. rewrite wrapu_small by lia. split; [split; simpl; lia|].
  eapply ReadBlock_stored; [done|done|lia].
Qed.

(** ** The index *)

Lemma sep_ok n d s : ds !! n = Some d -> seps !! n = Some s ->
  valid s /\ (forall e, e ∈ concat (take n ds) ++ d -> Compare e.1 s <= 0) /\
  (forall e, e ∈ concat (drop (S n) ds) -> Compare s e.1 < 0) /\
  (forall x t, head (concat (drop (S n) ds)) = Some x -> valid t -> same t x.1 -> Compare t s <= 0 ->
     exists e, e ∈ concat (take n ds) ++ d /\ Compare t e.1 <= 0).
Proof.
  intros Hd Hs. pose proof (Hseps n s Hs) as H. rewrite app_nil_r, (take_S_r _ _ _ Hd), concat_app in H.
  cbn [concat] in H. rewrite app_nil_r in H. exact H.
Qed.

Lemma index_lookup n e : index_entries ds seps !! n = Some e ->
  exists d s, ds !! n = Some d /\ seps !! n = Some s /\ e = (s, BlockHandle_EncodeTo (block_handle ds n) []).
Proof.
  unfold LvTableProps.index_entries. rewrite list_lookup_imap. intros H.
  destruct (seps !! n) as [s|] eqn:Es; [|done]. simpl in H. injection H as <-.
  destruct (lookup_lt_is_Some_2 ds n) as [d Hd]; [apply lookup_lt_Some in Es; lia|]. now exists d, s.
Qed.

Lemma in_block n d e : ds !! n = Some d -> e ∈ d -> e ∈ entries /\ valid e.1.
Proof.
  intros Hn He. assert (e ∈ entries).
  { rewrite (entries_split n d Hn). apply elem_of_app. right. apply elem_of_app. now left. }
  split; [done|]. rewrite Forall_forall in Hvalid. now apply Hvalid.
Qed.

Lemma block_head n d : ds !! n = Some d -> exists e, e ∈ d.
Proof.
  intros Hn. rewrite Forall_lookup in Hnonempty. specialize (Hnonempty n d Hn).
  destruct d as [|e d]; [done|]. exists e. now left.
Qed.

Lemma index_sorted : StronglySorted elt (index_entries ds seps).
Proof.
  apply sorted_by_lookup. intros i j a b Hij Ha Hb.
  apply index_lookup in Ha as (di & si & Hdi & Hsi & ->). apply index_lookup in Hb as (dj & sj & Hdj & Hsj & ->).
  simpl. destruct (sep_ok i di si Hdi Hsi) as (V1 & _ & H1 & _). destruct (sep_ok j dj sj Hdj Hsj) as (V2 & H2 & _).
  destruct (block_head j dj Hdj) as [e He]. destruct (in_block j dj e Hdj He) as [_ Ve].
  apply (Compare_lt_le_trans _ e.1); [done|done|done| |apply H2, elem_of_app; now right].
  apply H1. apply (elem_concat_drop ds (S i) j dj); [lia|done|done].
Qed.

Lemma index_ok : Forall entry_bytes_ok (index_entries ds seps) /\ Forall (fun e => valid e.1) (index_entries ds seps).
Proof.
  split; apply Forall_lookup; intros n e (d & s & Hd & Hs & ->)%index_lookup;
    destruct (sep_ok n d s Hd Hs) as [V _]; [|done].
  split; [now apply Hbytes|]. apply BlockHandle_bytes. now apply (read_data n d true).
Qed.

(** The block that the index leads to holds the first entry at or after the
    key, or no entry that is the same as the key. *)
Lemma index_leads k n : valid k -> n = first_ge C k (index_entries ds seps) ->
  match ds !! n with
  | None => forall e, e ∈ entries -> Compare e.1 k < 0
  | Some d =>
      (forall e, d !! first_ge C k d = Some e -> entries !! first_ge C k entries = Some e) /\
      (forall e, entries !! first_ge C k entries = Some e -> same k e.1 -> d !! first_ge C k d = Some e)
  end.
Proof.
  intros Hk ->. destruct (first_ge_spec C k (index_entries ds seps)) as (Hle & Hlt & Hge).
  set (n := first_ge C k (index_entries ds seps)) in *.
  assert (Hbefore : forall e, e ∈ concat (take n ds) -> Compare e.1 k < 0).
  { intros e (j & d & Hj & Hd & He)%elem_concat_take. destruct (in_block j d e Hd He) as [_ Ve].
    destruct (lookup_lt_is_Some_2 seps j) as [s Hs]; [apply lookup_lt_Some in Hd; lia|].
    destruct (sep_ok j d s Hd Hs) as (Vs & H1 & _).
    apply (Compare_le_lt_trans _ s); [done|done|done|apply H1, elem_of_app; now right|].
    apply (Hlt j (s, BlockHandle_EncodeTo (block_handle ds j) [])); [done|].
    unfold LvTableProps.index_entries. now rewrite list_lookup_imap, Hs. }
  destruct (ds !! n) as [d|] eqn:Hd.
  - destruct (lookup_lt_is_Some_2 seps n) as [s Hs]; [apply lookup_lt_Some in Hd; lia|].
    destruct (sep_ok n d s Hd Hs) as (Vs & H1 & H2 & H3).
    assert (Hks : Compare k s <= 0).
    { apply Compare_flip; [done|done|]. apply (Hge (s, BlockHandle_EncodeTo (block_handle ds n) [])).
      unfold LvTableProps.index_entries. now rewrite list_lookup_imap, Hs. }
    rewrite (entries_split n d Hd), first_ge_app by done.
    split; [intros e; apply first_ge_front|].
    intros e He Hsame. destruct (d !! first_ge C k d) as [e'|] eqn:Ed.
    { now rewrite (first_ge_front C k d _ _ Ed) in He. }
    pose proof (first_ge_None C k d Ed) as Hnone. rewrite first_ge_app in He by done.
    destruct (concat (drop (S n) ds)) as [|x rest] eqn:Er; [done|].
    assert (Hx : Compare s x.1 < 0) by (apply H2; now left).
    assert (Vx : valid x.1).
    { rewrite Forall_forall in Hvalid. apply Hvalid. rewrite (entries_split n d Hd), Er.
      apply elem_of_app. right. apply elem_of_app. right. now left. }
    assert (Ex : e = x).
    { destruct x as [xk xv]. cbn [first_ge] in He. simpl in Vx, Hx.
      pose proof (Compare_le_lt_trans k s xk Hk Vs Vx Hks Hx). pose proof (Compare_antisym k xk Hk Vx).
      destruct (Z.ltb_spec (Compare xk k) 0); [lia|]. now injection He as <-. }
    subst e. destruct (H3 x k eq_refl Hk Hsame Hks) as (e & He' & Hke).
    assert (Ve : valid e.1).
    { rewrite Forall_forall in Hvalid. apply Hvalid. rewrite (entries_split n d Hd), app_assoc. apply elem_of_app. now left. }
    apply elem_of_app in He' as [He'|He']; [apply Hbefore in He'|apply Hnone in He'];
      pose proof (Compare_antisym _ _ Ve Hk); lia.
  - intros e He. apply Hbefore. apply lookup_ge_None in Hd. now rewrite take_ge.
Qed.

(** ** The filter *)

Lemma filter_block_keys : concat (map snd (filter_blocks options ds [])) = map fst entries.
Proof.
  unfold filter_blocks. rewrite map_app, concat_app. cbn [map concat snd]. rewrite !app_nil_r.
  generalize (block_off ds). generalize ds. clear. intros l.
  induction l as [|d l IH]; intros off; [done|].
  cbn [imap map concat snd]. rewrite map_app. f_equal. apply (IH (off ∘ S)).
Qed.

Lemma filter_block_at n x : filter_blocks options ds [] !! n = Some x ->
  x.1 = Z.of_nat (length (data_of (take n ds))).
Proof.
  intros H. rewrite <- (proj1 (block_off_small n)). unfold filter_blocks in H.
  apply lookup_app_Some in H as [H|[Hl H]].
  - rewrite list_lookup_imap in H. destruct (ds !! n); [|done]. simpl in H. now injection H as <-.
  - rewrite length_imap in Hl, H. apply list_lookup_singleton_Some in H as [Hn <-].
    simpl. now replace n with (length ds) by lia.
Qed.

Lemma filter_blocks_ok :
  Forall (fun x => 0 <= x.1) (filter_blocks options ds []) /\
  StronglySorted (fun x y => x.1 <= y.1) (filter_blocks options ds []).
Proof.
  split.
  - apply Forall_lookup. intros n x ->%filter_block_at. lia.
  - apply sorted_by_lookup. intros i j a b Hij ->%filter_block_at ->%filter_block_at.
    rewrite (take_split ds i j) by lia. unfold LvTableProps.data_of. rewrite map_app, concat_app, length_app. lia.
Qed.

Lemma filter_size p : filter_policy options = Some p -> Z.of_nat (length (filter_bytes options p ds)) < 2 ^ 32.
Proof. intros Hp. pose proof sizes as H. unfold filter_part in H. rewrite Hp, length_stored in H. lia. Qed.

(** The reader never shifts by too much, and answers the same for keys that
    are the same. *)
Lemma filter_answers p o k : exists b,
  FilterBlock_KeyMayMatch p (make_FilterBlockReader (filter_bytes options p ds)) o k = Some b.
Proof.
  assert (H : exists c, filter_bytes options p ds = c ++ [kFilterBaseLg]) by (eexists; reflexivity).
  destruct H as [c ->]. unfold make_FilterBlockReader. rewrite length_app. simpl length.
  assert (Hb : byte_at (c ++ [kFilterBaseLg]) (length c + 1 - 1) = kFilterBaseLg).
  { unfold byte_at. rewrite app_nth2 by lia. now replace (_ - _)%nat with 0%nat by lia. }
  rewrite Hb. change (u64 (s8 kFilterBaseLg)) with 11.
  unfold FilterBlock_KeyMayMatch.
  destruct (_ <? 5); [|destruct (_ <? _)]; cbn [f_base_lg_ Z.leb Z.compare f_num_ f_offset_ f_data_];
    repeat (destruct (_ <? _) || destruct (_ && _) || destruct (_ =? _)); eauto.
Qed.

Lemma filter_same p k k' r o : filter_policy options = Some p -> same k k' ->
  FilterBlock_KeyMayMatch p r o k = FilterBlock_KeyMayMatch p r o k'.
Proof. intros Hp Hk. unfold FilterBlock_KeyMayMatch. now rewrite (Hmatch p Hp k k' _ Hk). Qed.

Lemma filter_has p n d e k : filter_policy options = Some p -> ds !! n = Some d -> e ∈ d -> same k e.1 ->
  FilterBlock_KeyMayMatch p (make_FilterBlockReader (filter_bytes options p ds)) (block_off ds n) k = Some true.
Proof.
  intros Hp Hn He Hk. rewrite (filter_same p k e.1) by done.
  destruct filter_blocks_ok as [H1 H2].
  eapply (filter_block_covers p fine (Hpolicy p Hp) (filter_blocks options ds []) _ (map fst d));
    [done|done| |now apply filter_size| |now apply list_elem_of_fmap_2].
  - rewrite filter_block_keys. apply Hfine.
  - apply list_elem_of_lookup. exists n. apply lookup_app_l_Some. now rewrite list_lookup_imap, Hn.
Qed.

(** ** The cache and the lookup *)

Section Opened.
Context (t : Table F).
Hypothesis Ht_file : tb_file t = f.
Hypothesis Ht_index : tb_index_block t = make_Block (index_bytes ds seps).
Hypothesis Ht_filter : tb_filter t = match filter_policy options with
  | None => None | Some p => Some (make_FilterBlockReader (filter_bytes options p ds)) end.

(** Blocks cached for this table are its blocks. *)
Definition cache_good (c : option K) : Prop :=
  match c with
  | None => True
  | Some c => cache_wf c /\ forall n d b, ds !! n = Some d ->
      cached c (cache_key t (block_handle ds n)) = Some b -> b = make_Block (block_of interval d)
  end.

Lemma cache_key_inj n m d d' : ds !! n = Some d -> ds !! m = Some d' ->
  cache_key t (block_handle ds n) = cache_key t (block_handle ds m) -> n = m.
Proof.
  intros Hn Hm E. unfold cache_key in E. apply app_inv_head in E. cbn [h_offset LvTableProps.block_handle] in E.
  destruct (block_off_small n) as [En Ln]. destruct (block_off_small m) as [Em Lm]. rewrite En, Em in E.
  apply (f_equal (fun l => DecodeFixed64 (l ++ []))) in E. rewrite !Fixed64_roundtrip in E by lia.
  assert (Hmono : forall i j x, (i < j)%nat -> ds !! i = Some x ->
     (length (data_of (take i ds)) < length (data_of (take j ds)))%nat).
  { intros i j x Hij Hi. rewrite (take_split ds (S i) j), (take_S_r _ _ _ Hi) by lia. unfold LvTableProps.data_of.
    rewrite !map_app, !concat_app. cbn [map concat]. rewrite !length_app, length_stored. lia. }
  destruct (lt_eq_lt_dec n m) as [[Hlt|Heq]|Hlt]; [|done|].
  - pose proof (Hmono n m d Hlt Hn). lia.
  - pose proof (Hmono m n d' Hlt Hm). lia.
Qed.

Lemma cache_drops c c' : cache_good (Some c) -> cache_wf c' ->
  (forall k, cached c' k = None \/ cached c' k = cached c k) -> cache_good (Some c').
Proof.
  intros [_ Hg] Hwf Hc. split; [done|]. intros n d b Hn Hb. destruct (Hc (cache_key t (block_handle ds n))) as [E|E]; rewrite E in Hb; [done|].
  now apply (Hg n d b).
Qed.

Lemma block_size_range n d : ds !! n = Some d -> 0 <= size_ (make_Block (block_of interval d)) < 2 ^ 64.
Proof.
  intros Hn. destruct (read_data n d true Hn) as (E & [_ Hs] & _). rewrite E in Hs. simpl in Hs. unfold make_Block.
  destruct (_ <? 4); simpl; [lia|]. destruct (_ <? _); simpl; lia.
Qed.

Lemma cache_adds c n d : cache_good (Some c) -> ds !! n = Some d ->
  cache_good (Some (cache_Insert c (cache_key t (block_handle ds n)) (make_Block (block_of interval d))
                      (size_ (make_Block (block_of interval d))))).
Proof.
  intros [Hwf Hg] Hn. pose proof (block_size_range n d Hn) as Hc.
  split; [now apply Insert_wf|]. intros m d' b Hm Hb.
  destruct (decide (cache_key t (block_handle ds n) = cache_key t (block_handle ds m))) as [E|E].
  - pose proof (cache_key_inj n m d d' Hn Hm E) as <-. rewrite Hn in Hm. injection Hm as <-.
    destruct (Insert_same c (cache_key t (block_handle ds n)) (make_Block (block_of interval d)) _ Hwf Hc) as [E'|E'];
      rewrite E' in Hb; [done|]. now injection Hb as <-.
  - destruct (Insert_keeps c _ (make_Block (block_of interval d)) _ _ Hwf Hc E) as [E'|E']; rewrite E' in Hb; [done|].
    now apply (Hg m d' b).
Qed.

Lemma BlockReader_ok n d verify fill c : ds !! n = Some d -> cache_good c ->
  exists c', BlockReader t verify fill (BlockHandle_EncodeTo (block_handle ds n) []) c =
    Some (NewIterator (make_Block (block_of interval d)), c') /\ cache_good c' /\ cache_frame t c c'.
Proof.
  intros Hn Hg. destruct (read_data n d verify Hn) as (_ & Hok & b & Er).
  unfold BlockReader. rewrite BlockHandle_decode by done.
  rewrite Ht_file, Er. destruct c as [c|]; [|now exists None].
  pose proof (Lookup_last c (cache_key t (block_handle ds n))) as H4.
  pose proof (proj1 Hg) as Hwf. pose proof (Lookup_law c (cache_key t (block_handle ds n)) Hwf) as H1.
  pose proof (fun k => Lookup_keeps c (cache_key t (block_handle ds n)) k Hwf) as H2.
  pose proof (Lookup_wf c (cache_key t (block_handle ds n)) Hwf) as H3.
  destruct (cache_Lookup c (cache_key t (block_handle ds n))) as [hit c1]. simpl in H1, H2, H3, H4.
  pose proof (cache_drops c c1 Hg H3 H2) as Hg1. destruct hit as [block|].
  - exists (Some c1). split; [|split; [done|split; [done|now intros k _]]]. destruct H1 as [H1|H1]; [done|].
    now rewrite (proj2 Hg n d block Hn (eq_sym H1)).
  - cbn [ok bc_data cachable]. eexists. split; [reflexivity|].
    destruct (b && fill); [|split; [done|split; [done|now intros k _]]].
    split; [now apply cache_adds|]. split; [now rewrite Insert_last|]. intros k Hk.
    destruct (Insert_keeps c1 _ (make_Block (block_of interval d)) _ k H3 (block_size_range n d Hn)
                (fun E => Hk (block_handle ds n) (eq_sym E))) as [E|E]; [now left|]. rewrite E. apply H2.
Qed.

Lemma filter_excludes_ok n d k : ds !! n = Some d ->
  exists b, filter_excludes options t (BlockHandle_EncodeTo (block_handle ds n) []) k = Some b /\
    (b = true -> forall e, e ∈ d -> ~ same k e.1).
Proof.
  intros Hn. destruct (read_data n d true Hn) as (_ & Hok & _). unfold filter_excludes. rewrite Ht_filter.
  case_eq (filter_policy options); [intros p Hp|now exists false].
  rewrite BlockHandle_decode by done.
  destruct (filter_answers p (block_off ds n) k) as [b Eb]. cbn [h_offset LvTableProps.block_handle].
  rewrite Eb. exists (negb b). split; [done|]. intros Hb e He Hs.
  rewrite (filter_has p n d e k Hp Hn He Hs) in Eb. now injection Eb as <-.
Qed.

Lemma InternalGet_ok verify fill k c : valid k -> cache_good c ->
  exists found c', InternalGet C options t verify fill k c = Some (OK, found, c') /\ cache_good c' /\
    cache_frame t c c' /\
    (forall e, found = Some e -> entries !! first_ge C k entries = Some e) /\
    (forall e, entries !! first_ge C k entries = Some e -> same k e.1 -> found = Some e).
Proof.
  intros Hk Hg. destruct index_ok as [Hib Hiv]. unfold InternalGet. rewrite Ht_index.
  destruct (block_seek C valid L 1 (index_entries ds seps) k) as (i & Ei & Es & Eo);
    [lia|apply index_sorted|done|done|done|pose proof sizes; unfold LvTableProps.index_bytes in *; lia|].
  unfold LvTableProps.index_bytes. rewrite Ei. cbn [iter_status]. rewrite Es.
  pose proof (index_leads k _ Hk eq_refl) as Hlead.
  destruct (index_entries ds seps !! first_ge C k (index_entries ds seps)) as [x|] eqn:Ex.
  - apply index_lookup in Ex as (d & s & Hd & Hs & ->).
    apply observe_Some in Eo as (-> & _ & ->). rewrite Hd in Hlead. destruct Hlead as [Hl1 Hl2].
    destruct (filter_excludes_ok _ d k Hd) as (b & -> & Hb). destruct b.
    + exists None, c. split; [done|]. split; [done|]. split; [apply cache_frame_refl|]. split; [done|]. intros e He Hse.
      apply Hl2 in He; [|done]. apply list_elem_of_lookup_2 in He. now destruct (Hb eq_refl e He).
    + destruct (BlockReader_ok _ d verify fill c Hd Hg) as (c' & -> & Hg' & Hfr).
      pose proof entry_ok as Hbok. pose proof Hvalid as Hv. pose proof Hsorted as Hsd.
      rewrite (entries_split _ d Hd) in Hbok, Hv, Hsd.
      apply Forall_app in Hbok as [_ [Hbok _]%Forall_app]. apply Forall_app in Hv as [_ [Hv _]%Forall_app].
      apply sorted_app_r, sorted_app_l in Hsd.
      destruct (block_seek C valid L interval d k) as (j & -> & Ejs & Ejo); [done|done|done|done|done| |].
      { pose proof sizes as Hz. rewrite (block_split _ d Hd), !length_app, length_stored in Hz. lia. }
      cbn [iter_status]. rewrite Ejs. cbn [ok].
      exists (d !! first_ge C k d), c'. split; [|done]. rewrite <- Ejo. unfold observe. simpl.
      now destruct (Block_Valid j).
  - apply observe_None in Eo as ->. exists None, c. split; [done|]. split; [done|]. split; [apply cache_frame_refl|]. split; [done|].
    intros e He _. apply lookup_ge_None in Ex. unfold LvTableProps.index_entries in Ex at 1. rewrite length_imap, Hlen in Ex.
    rewrite (proj2 (lookup_ge_None _ _) Ex) in Hlead. now rewrite first_ge_all in He.
Qed.

Lemma handle_inj n m d d' : ds !! n = Some d -> ds !! m = Some d' ->
  BlockHandle_EncodeTo (block_handle ds n) [] = BlockHandle_EncodeTo (block_handle ds m) [] -> n = m.
Proof.
  intros Hn Hm E. destruct (read_data n d true Hn) as (_ & Hok & _), (read_data m d' true Hm) as (_ & Hok' & _).
  apply (f_equal BlockHandle_DecodeFrom) in E. rewrite !BlockHandle_decode in E by done. injection E as E _.
  apply (cache_key_inj n m d d' Hn Hm). unfold cache_key. unfold LvTableProps.block_handle. cbn [h_offset]. now rewrite E.
Qed.

Lemma layout_ok : table_layout C valid options t cache_good ds seps.
Proof.
  pose proof sizes as Hz. destruct index_ok as [Hib Hiv]. constructor.
  - exact Ht_index.
  - rewrite <- block_of_size. unfold LvTableProps.index_bytes in Hz. lia.
  - split; [apply index_sorted|done].
  - exact Hlen.
  - exact Hnonempty.
  - intros n d Hn. rewrite <- block_of_size. rewrite (block_split n d Hn), !length_app, length_stored in Hz. lia.
  - intros n d verify fill c. apply BlockReader_ok.
  - apply handle_inj.
  - intros n d s Hd Hs. destruct (sep_ok n d s Hd Hs) as (_ & H1 & H2 & _). split; [|done]. intros e He. apply H1, elem_of_app. now right.
Qed.

End Opened.

(** ** Opening *)

Lemma filter_bytes_ok p : filter_policy options = Some p -> is_bytes (filter_bytes options p ds).
Proof. intros Hp. destruct filter_blocks_ok. now apply (filter_block_bytes p fine (Hpolicy p Hp)). Qed.

(** The filter block, where there is one. *)
Lemma read_filter p verify : filter_policy options = Some p ->
  handle_ok (handle_at (data_of ds) (filter_bytes options p ds)) /\
  exists b, ReadBlock f verify (handle_at (data_of ds) (filter_bytes options p ds)) =
    Some (OK, Contents_of (filter_bytes options p ds) b b).
Proof.
  intros Hp. eapply read_at; [|now apply filter_bytes_ok].
  rewrite Hf. unfold LvTableProps.table_bytes, filter_part. rewrite Hp. now rewrite <- !app_assoc.
Qed.

Lemma filter_key_bytes p : filter_policy options = Some p -> is_bytes (filter_key p).
Proof.
  intros Hp. apply is_bytes_app. split; [unfold is_bytes, is_byte; repeat constructor; lia|].
  apply (Name_bytes (FilterPolicyLaws := Hpolicy p Hp)).
Qed.

Lemma meta_ok : Forall entry_bytes_ok (meta_entries options ds).
Proof.
  unfold meta_entries. case_eq (filter_policy options); [intros p Hp|constructor].
  apply Forall_singleton. split; simpl; [now apply filter_key_bytes|].
  apply BlockHandle_bytes. now apply (read_filter p true).
Qed.

Lemma read_meta verify :
  handle_ok (metaindex_handle (footer_of options ds seps)) /\
  exists b, ReadBlock f verify (metaindex_handle (footer_of options ds seps)) =
    Some (OK, Contents_of (meta_block options ds) b b).
Proof.
  eapply read_at; [|apply block_of_bytes, meta_ok].
  rewrite Hf. unfold LvTableProps.table_bytes. now rewrite <- !app_assoc.
Qed.

Lemma read_index verify :
  handle_ok (index_handle (footer_of options ds seps)) /\
  exists b, ReadBlock f verify (index_handle (footer_of options ds seps)) =
    Some (OK, Contents_of (index_bytes ds seps) b b).
Proof.
  eapply read_at; [|apply block_of_bytes, index_ok]. rewrite Hf. reflexivity.
Qed.

Lemma ReadMeta_ok : ReadMeta options f (footer_of options ds seps) =
  Some (match filter_policy options with
        | None => None | Some p => Some (make_FilterBlockReader (filter_bytes options p ds)) end).
Proof.
  unfold ReadMeta. case_eq (filter_policy options); [intros p Hp|done].
  destruct (read_meta (paranoid_checks options)) as (_ & b & ->). cbn [ok negb bc_data].
  pose proof meta_ok as Hm. pose proof sizes as Hz. pose proof (filter_key_bytes p Hp) as Hkb.
  unfold meta_block in *. unfold meta_entries in *. rewrite Hp in Hm, Hz |- *.
  destruct (block_seek BytewiseComparator is_bytes bytewise_laws interval
    [(filter_key p, BlockHandle_EncodeTo (handle_at (data_of ds) (filter_bytes options p ds)) [])] (filter_key p))
    as (i & -> & Es & Eo); [done|constructor; [apply SSorted_nil|apply Forall_nil; exact I]|done|now apply Forall_singleton|done|lia|].
  cbn [first_ge] in Eo. rewrite (Compare_refl (L := bytewise_laws)) in Eo by done. simpl in Eo.
  apply observe_Some in Eo as (-> & -> & ->). rewrite bool_decide_true by done. simpl.
  destruct (read_filter p (paranoid_checks options) Hp) as (Hok & b' & Er).
  unfold ReadFilter. rewrite BlockHandle_decode by done. rewrite Er. done.
Qed.

Lemma Open_ok c : exists t c', Open options f (Z.of_nat (length (table_bytes ds seps))) c = Some (OK, Some t, c') /\
  opened t c c' /\ tb_file t = f /\ tb_index_block t = make_Block (index_bytes ds seps) /\
  tb_filter t = match filter_policy options with
    | None => None | Some p => Some (make_FilterBlockReader (filter_bytes options p ds)) end.
Proof.
  destruct (read_meta (paranoid_checks options)) as (Hm & _).
  destruct (read_index (paranoid_checks options)) as (Hi & b & Ei).
  pose proof (Footer_length _ Hm Hi) as Efl.
  set (pre := (data_of ds ++ filter_part options ds ++ stored (meta_block options ds)) ++ stored (index_bytes ds seps)).
  assert (Et : table_bytes ds seps = pre ++ Footer_EncodeTo (footer_of options ds seps) []).
  { unfold LvTableProps.table_bytes, pre. now rewrite <- !app_assoc. }
  assert (El : length (table_bytes ds seps) = (length pre + kEncodedLength)%nat) by now rewrite Et, length_app, Efl.
  unfold Open. rewrite El.
  destruct (Z.ltb_spec (Z.of_nat (length pre + kEncodedLength)) (Z.of_nat kEncodedLength)); [lia|].
  destruct (ra_Read_law f (Z.of_nat (length pre + kEncodedLength) - Z.of_nat kEncodedLength) (Z.of_nat kEncodedLength))
    as [scratch ->]; [lia|lia|].
  replace (Z.to_nat (Z.of_nat (length pre + kEncodedLength) - Z.of_nat kEncodedLength)) with (length pre) by lia.
  rewrite Nat2Z.id, Hf, Et, drop_app_length, take_ge by lia. cbn [ok negb].
  rewrite <- (app_nil_r (Footer_EncodeTo _ _)), Footer_roundtrip by (done || constructor). cbn [ok negb].
  rewrite Ei. cbn [ok bc_data]. rewrite ReadMeta_ok.
  destruct c as [c|]; [unfold opened; destruct (cache_NewId c)|]; eexists; eexists; (split; [reflexivity|done]).
Qed.

End Read.

(** ** Building a table and looking keys up in it *)

(** What the options must provide: a filter policy that keeps its law and does
    not tell keys apart that a lookup takes for the [same], valid keys that are
    bytes, and separators that do not cut such keys off. *)
Record lookup_setting (C : Comparator) (valid : list Z -> Prop) (options : Options)
    (same : list Z -> list Z -> Prop) (fine : list (list Z) -> Prop) : Prop := {
  ls_interval : 1 <= block_restart_interval options;
  ls_policy p : filter_policy options = Some p -> FilterPolicyLaws p fine;
  ls_match p : filter_policy options = Some p ->
    forall k k' f, same k k' -> @KeyMayMatch p k f = @KeyMayMatch p k' f;
  ls_bytes k : valid k -> is_bytes k;
  ls_same start limit k : valid start -> valid limit -> valid k -> Compare start limit < 0 ->
    same k limit -> Compare k (FindShortestSeparator start limit) <= 0 -> Compare k start <= 0;
}.

(** Entries for a table: sorted, with valid keys, and few enough for the
    filters. *)
Record table_entries (C : Comparator) (valid : list Z -> Prop) (fine : list (list Z) -> Prop)
    (entries : list (list Z * list Z)) : Prop := {
  te_sorted : StronglySorted (fun a b => Compare a.1 b.1 < 0) entries;
  te_valid : Forall (fun e => valid e.1) entries;
  te_values : Forall (fun e => is_bytes e.2) entries;
  te_fine g : g `sublist_of` map fst entries -> fine g;
}.

Section Lookup.
Context {W : Type} {WF : WritableFile W} {WL : WritableFileLaws W}.
Context {F : Type} {RF : RandomAccessFile F} {RL : RandomAccessFileLaws F}.
Context {K : Type} {BC : Cache Block K} {BL : CacheLaws Block K}.
Context (C : Comparator) (valid : list Z -> Prop) {L : ComparatorLaws C valid} (options : Options).
Context (same : list Z -> list Z -> Prop) (fine : list (list Z) -> Prop).

(** The lookups of an open table, for any sequence of them: [good] holds of the
    cache before and after.  It holds of a cache without blocks of the table, and
    whatever happens to the entries of other tables. *)
Record lookups_ok (t : Table F) (entries : list (list Z * list Z)) (good : option K -> Prop) : Prop := {
  lo_none : good None;
  lo_wf c : good (Some c) -> cache_wf c;
  lo_fresh c : cache_wf c -> (forall h, cached c (cache_key t h) = None) -> good (Some c);
  lo_stable c c' : good (Some c) -> cache_wf c' ->
    (forall h, cached c' (cache_key t h) = None \/ cached c' (cache_key t h) = cached c (cache_key t h)) ->
    good (Some c');
  lo_get verify fill k c : valid k -> good c ->
    exists found c', InternalGet C options t verify fill k c = Some (OK, found, c') /\ good c' /\
      cache_frame t c c' /\
      (forall e, found = Some e -> entries !! first_ge C k entries = Some e) /\
      (forall e, entries !! first_ge C k entries = Some e -> same k e.1 -> found = Some e);
  lo_layout : exists ds seps, entries = concat ds /\ table_layout C valid options t good ds seps;
}.

Lemma table_lookups entries w f c0 :
  lookup_setting C valid options same fine -> table_entries C valid fine entries -> written w = [] ->
  ra_contents f = written (built C options w entries) -> Z.of_nat (length (ra_contents f)) < 2 ^ 32 ->
  exists t c, Open options f (Z.of_nat (length (ra_contents f))) c0 = Some (OK, Some t, c) /\
    opened t c0 c /\ exists good, lookups_ok t entries good.
Proof.
  intros [S1 S2 S3 S4 S5] [T1 T2 T3 T4] Hw Hf Hsz.
  destruct (table_built_is C valid options same S5 w entries Hw T1 T2)
    as (ds & seps & E & <- & Hlen & Hseps & Hne).
  rewrite E in Hf. rewrite Hf in Hsz |- *.
  destruct (Open_ok C valid options same fine S1 S2 S4 ds seps T2 T3 Hlen Hseps Hsz f Hf c0)
    as (t & c & Eo & E0 & E1 & E2 & E3).
  exists t, c. split; [done|]. split; [done|]. exists (cache_good options ds t). split.
  - done.
  - intros c1 [Hwf _]. done.
  - intros c1 Hwf Hc. split; [done|]. intros n d b _ Hb. now rewrite Hc in Hb.
  - intros c1 c2 [Hwf Hg] Hwf2 Hc. split; [done|]. intros n d b Hn Hb.
    destruct (Hc (block_handle options ds n)) as [E'|E']; rewrite E' in Hb; [done|]. now apply (Hg n d b).
  - intros verify fill k c1 Hk Hg.
    now apply (InternalGet_ok C valid options same fine S1 S2 S3 S4 ds seps T1 T2 T3 Hlen Hseps Hne Hsz T4 f Hf t E1 E2 E3).
  - exists ds, seps. split; [done|]. now apply (layout_ok C valid options same S4 ds seps T2 T3 Hlen Hseps Hne Hsz f Hf t E1 E2).
Qed.

End Lookup.

(** C12: A table returns what was put into it.  Sorted entries are added to a
    new table builder, which finishes; the file it wrote opens, and a lookup of
    any key succeeds: the entry it reports is the first one at or after the key,
    and it reports it whenever the lookup takes the key of that entry for the
    same as its own.  This holds for any block size, with or without a filter
    policy, with or without a cache that may drop blocks at any time, and for
    any sequence of lookups. *)
Theorem table_get_correct {W F K : Type} {WF : WritableFile W} {WL : WritableFileLaws W}
    {RF : RandomAccessFile F} {RL : RandomAccessFileLaws F} {BC : Cache Block K} {BL : CacheLaws Block K}
    (C : Comparator) (valid : list Z -> Prop) (L : ComparatorLaws C valid) (options : Options)
    (same : list Z -> list Z -> Prop) (fine : list (list Z) -> Prop) (entries : list (list Z * list Z))
    (w : W) (f : F) (c0 : option K) :
  lookup_setting C valid options same fine -> table_entries C valid fine entries -> written w = [] ->
  ra_contents f = written (built C options w entries) -> Z.of_nat (length (ra_contents f)) < 2 ^ 32 ->
  exists t c, Open options f (Z.of_nat (length (ra_contents f))) c0 = Some (OK, Some t, c) /\
    exists good : option K -> Prop, lookups_ok C valid options same t entries good.
Proof.
  intros. destruct (table_lookups C valid options same fine entries w f c0) as (t & c & E & _ & G); try done.
  now exists t, c.
Qed.

(** A cache that keeps everything. *)
#[export] Instance map_cache {V} : Cache V (gmap (list Z) V * Z) := {
  cache_Lookup c k := (fst c !! k, c);
  cache_Insert c k v _ := (<[k := v]> (fst c), snd c);
  cache_Erase c k := (delete k (fst c), snd c);
  cache_NewId c := (snd c + 1, (fst c, snd c + 1));
}.
#[export] Instance map_cache_laws {V} : CacheLaws V (gmap (list Z) V * Z).
Proof.
  refine {| cache_wf := fun _ => True; cached := fun c k => fst c !! k; cache_last := snd |}; intros; simpl; auto.
  - right. apply lookup_insert_eq.
  - right. now apply lookup_insert_ne.
  - destruct (decide (k = k')) as [->|]; [left; apply lookup_delete_eq|right; now apply lookup_delete_ne].
Defined.

Lemma bytewise_setting options (bits_per_key : Z) : 0 <= bits_per_key < 2 ^ 31 ->
  1 <= block_restart_interval options ->
  filter_policy options = None \/ filter_policy options = Some (BloomFilterPolicy bits_per_key) ->
  lookup_setting BytewiseComparator is_bytes options eq few_keys.
Proof.
  intros Hb Hi Hp. split; [done| | |done|].
  - intros p E. destruct Hp as [Hp|Hp]; rewrite Hp in E; [done|]. injection E as <-. now apply bloom_laws.
  - now intros p _ k k' f ->.
  - intros start limit k Hs Hl Hk Hlt -> Hle.
    destruct (Separator_ok (C := BytewiseComparator) start limit Hs Hl Hlt) as [_ H].
    pose proof (Separator_valid (C := BytewiseComparator) start limit Hs Hl) as Vs.
    pose proof (Compare_antisym (C := BytewiseComparator) _ _ Vs Hl). lia.
Qed.

(** Five entries in blocks of two, with a Bloom filter. *)
Definition example_entries : list (list Z * list Z) :=
  [([1], [10]); ([1; 1], [11]); ([3], [12]); ([4; 200], [13]); ([9], [])].
Definition example_options : Options := MkOptions 20 2 kSnappyCompression (Some (BloomFilterPolicy 10)) true.
Definition example_table : mem_file := built BytewiseComparator example_options (MemFile []) example_entries.

Lemma mem_file_contents (f : mem_file) : ra_contents f = written f.
Proof. reflexivity. Qed.

Lemma example_entries_ok : table_entries BytewiseComparator is_bytes few_keys example_entries.
Proof.
  split.
  - repeat constructor.
  - repeat constructor; unfold is_byte; lia.
  - repeat constructor; unfold is_byte; lia.
  - intros g Hg. apply sublist_length in Hg. unfold few_keys. simpl in Hg. lia.
Qed.

Lemma table_get_correct_witness :
  exists t c, Open example_options example_table (Z.of_nat (length (ra_contents example_table))) (Some (∅, 0)) =
      Some (OK, Some t, c) /\
    exists good : option (gmap (list Z) Block * Z) -> Prop,
      lookups_ok BytewiseComparator is_bytes example_options eq t example_entries good.
Proof.
  refine (table_get_correct BytewiseComparator is_bytes bytewise_laws example_options eq few_keys example_entries
           (MemFile []) example_table (Some (∅, 0)) _ example_entries_ok eq_refl _ _).
  - now apply (bytewise_setting example_options 10); [|vm_compute|right].
  - apply mem_file_contents.
  - vm_compute. reflexivity.
Defined.

(** The lookups of that table, computed. *)
Example table_gets :
  match Open example_options example_table (Z.of_nat (length (mem_contents example_table))) (None (A := gmap (list Z) Block * Z)) with
  | Some (OK, Some t, c) =>
      map (fun k => match InternalGet BytewiseComparator example_options t true true k c with
                    | Some (OK, found, _) => found
                    | _ => None
                    end) [[1]; [1; 1]; [4; 200]; [9]; [10]; [2]]
      = [Some ([1], [10]); Some ([1; 1], [11]); Some ([4; 200], [13]); Some ([9], []); None; None]
  | _ => False
  end.
Proof. vm_compute. reflexivity. Qed.
