(* ===== verification/LvVersion.v ===== *)
(** * leveldb: reading from a version (db/version_set.cc, first part)

    A version is the set of table files of the database, in levels.  This file
    models how a version is searched: the binary search for a file, the files
    that overlap a key or a range, the lookup of a key through the table cache,
    which is an interface, and the choice of a level for a new table.  A file
    is a value here: the library shares the records between versions and only
    [allowed_seeks] changes after a version is installed. *)
From Stdlib Require Import ZArith Lia Bool String Ascii List SpecFloat.
From stdpp Require Import base list numbers sorting.
From S2P Require Import Prelude LvCoding LvEnv LvComparator LvDbFormat.

Definition kNumLevels : nat := 7.
Definition kMaxMemCompactLevel : nat := 2.

(** Internal keys are kept as the bytes of [InternalKey::rep_]. *)
Definition make_InternalKey (user_key : list Z) (s : Z) (t : ValueType) : list Z :=
  AppendInternalKey [] (ParsedKey user_key s t).

(** ** Files *)

Record FileMetaData := MkFile {
  f_number : Z;
  f_file_size : Z;
  f_smallest : list Z;
  f_largest : list Z;
  f_allowed_seeks : Z;
}.
#[export] Instance FileMetaData_eq_dec : EqDecision FileMetaData.
Proof. solve_decision. Defined.

Definition TotalFileSize (files : list FileMetaData) : Z :=
  fold_left (fun sum f => s64 (sum + f_file_size f)) files 0.

Definition TargetFileSize (max_file_size : Z) : Z := max_file_size.
Definition MaxGrandParentOverlapBytes (max_file_size : Z) : Z := s64 (u64 (10 * TargetFileSize max_file_size)).
Definition ExpandedCompactionByteSizeLimit (max_file_size : Z) : Z := s64 (u64 (25 * TargetFileSize max_file_size)).
Definition MaxFileSizeForLevel (max_file_size : Z) (level : nat) : Z := TargetFileSize max_file_size.

Section Search.
Context (ucmp : Comparator).
Notation icmp := (internal_compare ucmp).

(** Every round halves the interval. *)
Fixpoint FindFile_loop (fuel : nat) (files : list FileMetaData) (key : list Z) (left right : Z) : option Z :=
  match fuel with
  | O => None
  | S fuel =>
      if left <? right then
        let mid := u32 (left + right) / 2 in
        match files !! Z.to_nat mid with
        | None => None
        | Some f =>
            if icmp (f_largest f) key <? 0
            then FindFile_loop fuel files key (u32 (mid + 1)) right
            else FindFile_loop fuel files key left mid
        end
      else Some right
  end.

Definition FindFile (files : list FileMetaData) (key : list Z) : option Z :=
  FindFile_loop (S (length files)) files key 0 (u32 (Z.of_nat (length files))).

(** The null key is nothing. *)
Definition AfterFile (user_key : option (list Z)) (f : FileMetaData) : bool :=
  match user_key with
  | Some k => 0 <? @Compare ucmp k (ExtractUserKey (f_largest f))
  | None => false
  end.

Definition BeforeFile (user_key : option (list Z)) (f : FileMetaData) : bool :=
  match user_key with
  | Some k => @Compare ucmp k (ExtractUserKey (f_smallest f)) <? 0
  | None => false
  end.

Definition SomeFileOverlapsRange (disjoint_sorted_files : bool) (files : list FileMetaData)
    (smallest_user_key largest_user_key : option (list Z)) : option bool :=
  if negb disjoint_sorted_files then
    Some (existsb (fun f => negb (AfterFile smallest_user_key f || BeforeFile largest_user_key f)) files)
  else
    match (match smallest_user_key with
           | Some k => FindFile files (make_InternalKey k kMaxSequenceNumber kValueTypeForSeek)
           | None => Some 0
           end) with
    | None => None
    | Some index =>
        match files !! Z.to_nat index with
        | None => Some false
        | Some f => Some (negb (BeforeFile largest_user_key f))
        end
    end.

(** ** A version *)

(** The lists of files per level, the file to compact next because of seeks,
    and the level to compact next because of its size with its score, which is
    a [double]; -1 is no level.  The links between versions and their reference
    counts belong to the version set. *)
Record Version := MkVersion {
  files_ : list (list FileMetaData);
  file_to_compact_ : option FileMetaData;
  file_to_compact_level_ : Z;
  compaction_score_ : spec_float;
  compaction_level_ : Z;
}.

(** Integers as [double]: 53 bits, exponents up to 1024, rounded to nearest. *)
Definition double_of (n : Z) : spec_float := binary_normalize 53 1024 n 0 false.
Definition double_div (x y : spec_float) : spec_float := SFdiv 53 1024 x y.
Definition double_mul (x y : spec_float) : spec_float := SFmul 53 1024 x y.

(** The constructor: no files, and -1 in the other fields. *)
Definition make_Version : Version := MkVersion (replicate kNumLevels []) None (-1) (double_of (-1)) (-1).

Definition level_files (v : Version) (level : nat) : list FileMetaData := default [] (files_ v !! level).

(** The files of level 0 that may hold the user key, newest first.  The order
    of [std::sort] is determined because file numbers differ. *)
Definition newest_first (a b : FileMetaData) : Prop := f_number b <= f_number a.
#[export] Instance newest_first_dec a b : Decision (newest_first a b).
Proof. unfold newest_first. apply _. Defined.

Definition may_hold (user_key : list Z) (f : FileMetaData) : bool :=
  (0 <=? @Compare ucmp user_key (ExtractUserKey (f_smallest f))) &&
  (@Compare ucmp user_key (ExtractUserKey (f_largest f)) <=? 0).

Definition level0_files (v : Version) (user_key : list Z) : list FileMetaData :=
  merge_sort newest_first (List.filter (may_hold user_key) (level_files v 0)).

Section ForEach.
(** The callback: its state, and whether to go on. *)
Context {S : Type} (func : S -> nat -> FileMetaData -> option (bool * S)).

Fixpoint for_level0 (fs : list FileMetaData) (s : S) : option (bool * S) :=
  match fs with
  | [] => Some (true, s)
  | f :: fs =>
      match func s 0 f with
      | Some (true, s) => for_level0 fs s
      | r => r
      end
  end.

(** [levels] levels from [level] on. *)
Fixpoint for_levels (levels : nat) (level : nat) (v : Version) (user_key internal_key : list Z) (s : S)
    : option (bool * S) :=
  match levels with
  | O => Some (true, s)
  | Datatypes.S levels =>
      let files := level_files v level in
      let next := for_levels levels (Datatypes.S level) v user_key internal_key in
      match files with
      | [] => next s
      | _ :: _ =>
          match FindFile files internal_key with
          | None => None
          | Some index =>
              match files !! Z.to_nat index with
              | None => next s
              | Some f =>
                  if @Compare ucmp user_key (ExtractUserKey (f_smallest f)) <? 0 then next s
                  else
                    match func s level f with
                    | Some (true, s) => next s
                    | r => r
                    end
              end
          end
      end
  end.

Definition ForEachOverlapping (v : Version) (user_key internal_key : list Z) (s : S) : option S :=
  match for_level0 (level0_files v user_key) s with
  | None => None
  | Some (false, s) => Some s
  | Some (true, s) =>
      match for_levels (kNumLevels - 1) 1 v user_key internal_key s with
      | Some (_, s) => Some s
      | None => None
      end
  end.

End ForEach.

(** ** Looking up a key *)

Inductive SaverState := kNotFound_ | kFound | kDeleted | kCorrupt.
Record Saver := MkSaver { state : SaverState; sv_user_key : list Z; sv_value : list Z }.

Definition SaveValue (s : Saver) (ikey v : list Z) : Saver :=
  match ParseInternalKey ikey with
  | None => MkSaver kCorrupt (sv_user_key s) (sv_value s)
  | Some parsed_key =>
      if @Compare ucmp (user_key parsed_key) (sv_user_key s) =? 0 then
        match type parsed_key with
        | kTypeValue => MkSaver kFound (sv_user_key s) v
        | kTypeDeletion => MkSaver kDeleted (sv_user_key s) (sv_value s)
        end
      else s
  end.

Record GetStats := MkStats { seek_file : option FileMetaData; seek_file_level : Z }.

(** A message as a string of the library. *)
Definition string_of_bytes (l : list Z) : string :=
  string_of_list_ascii (map (fun b => ascii_of_N (Z.to_N b)) l).

End Search.

(** ** The table cache, as the version sees it (db/table_cache.h) *)

(** [Get]: the status, the entry the callback is given if any, and the cache
    afterwards. *)
Class TableCacheGet (T : Type) := {
  tc_Get : T -> Z -> Z -> list Z -> option (Status * option (list Z * list Z) * T);
}.

Section Get.
Context (ucmp : Comparator) {T : Type} {TC : TableCacheGet T}.

(** [State] of [Version::Get], with the table cache of the version set. *)
Record GetState := MkGetState {
  gs_saver : Saver;
  gs_stats : GetStats;
  gs_ikey : list Z;
  last_file_read : option FileMetaData;
  last_file_read_level : Z;
  gs_s : Status;
  gs_found : bool;
  gs_cache : T;
}.

Definition Match (st : GetState) (level : nat) (f : FileMetaData) : option (bool * GetState) :=
  let stats :=
    match seek_file (gs_stats st), last_file_read st with
    | None, Some f => MkStats (Some f) (last_file_read_level st)
    | _, _ => gs_stats st
    end in
  match tc_Get (gs_cache st) (f_number f) (f_file_size f) (gs_ikey st) with
  | None => None
  | Some (s, found_entry, cache) =>
      let saver :=
        match found_entry with
        | Some (k, v) => SaveValue ucmp (gs_saver st) k v
        | None => gs_saver st
        end in
      let next s found := MkGetState saver stats (gs_ikey st) (Some f) (Z.of_nat level) s found cache in
      if negb (ok s) then Some (false, next s true)
      else
        match state saver with
        | kNotFound_ => Some (true, next s (gs_found st))
        | kFound => Some (false, next s true)
        | kDeleted => Some (false, next s (gs_found st))
        | kCorrupt =>
            Some (false, next (mkStatus LvEnv.kCorruption "corrupted key for "
                               (string_of_bytes (sv_user_key saver))) true)
        end
  end.

(** The status, the value, the statistics and the table cache. *)
Definition Version_Get (v : Version) (k : LookupKey) (cache : T) (value : list Z)
    : option (Status * list Z * GetStats * T) :=
  let init := MkGetState (MkSaver kNotFound_ (lookup_user_key k) value) (MkStats None (-1))
                (lookup_internal_key k) None (-1) OK false cache in
  match ForEachOverlapping ucmp Match v (lookup_user_key k) (lookup_internal_key k) init with
  | None => None
  | Some st => Some (if gs_found st then gs_s st else NotFound "", sv_value (gs_saver st), gs_stats st, gs_cache st)
  end.

End Get.

(** ** Statistics *)

(** The file of the version is charged a seek. *)
Definition charge_seek (number : Z) (f : FileMetaData) : FileMetaData :=
  if f_number f =? number
  then MkFile (f_number f) (f_file_size f) (f_smallest f) (f_largest f) (s32 (f_allowed_seeks f - 1))
  else f.

Definition UpdateStats (v : Version) (stats : GetStats) : bool * Version :=
  match seek_file stats with
  | None => (false, v)
  | Some f =>
      let files := map (map (charge_seek (f_number f))) (files_ v) in
      let f := match List.find (fun g => f_number g =? f_number f) (concat files) with
               | Some g => g
               | None => charge_seek (f_number f) f
               end in
      match file_to_compact_ v with
      | None =>
          if f_allowed_seeks f <=? 0
          then (true, MkVersion files (Some f) (seek_file_level stats) (compaction_score_ v) (compaction_level_ v))
          else (false, MkVersion files None (file_to_compact_level_ v) (compaction_score_ v) (compaction_level_ v))
      | Some g =>
          (false, MkVersion files (Some (charge_seek (f_number f) g)) (file_to_compact_level_ v) (compaction_score_ v) (compaction_level_ v))
      end
  end.

(** [State] and [Match] of [RecordReadSample]. *)
Definition sample_match (s : GetStats * Z) (level : nat) (f : FileMetaData) : option (bool * (GetStats * Z)) :=
  let '(stats, matches) := s in
  let matches := s32 (matches + 1) in
  let stats := if matches =? 1 then MkStats (Some f) (Z.of_nat level) else stats in
  Some (matches <? 2, (stats, matches)).

Definition RecordReadSample (ucmp : Comparator) (v : Version) (internal_key : list Z) : option (bool * Version) :=
  match ParseInternalKey internal_key with
  | None => Some (false, v)
  | Some ikey =>
      match ForEachOverlapping ucmp sample_match v (user_key ikey) internal_key (MkStats None (-1), 0) with
      | None => None
      | Some (stats, matches) => Some (if 2 <=? matches then UpdateStats v stats else (false, v))
      end
  end.

(** ** Files that overlap a range *)

Section Overlap.
Context (ucmp : Comparator).

Definition OverlapInLevel (v : Version) (level : nat) (smallest_user_key largest_user_key : option (list Z))
    : option bool :=
  SomeFileOverlapsRange ucmp (0 <? level)%nat (level_files v level) smallest_user_key largest_user_key.

(** The comparisons with the null key are skipped. *)
Definition before_begin (k : list Z) (user_begin : option (list Z)) : bool :=
  match user_begin with Some b => @Compare ucmp k b <? 0 | None => false end.
Definition after_end (k : list Z) (user_end : option (list Z)) : bool :=
  match user_end with Some e => 0 <? @Compare ucmp k e | None => false end.

(** The loop of [GetOverlappingInputs]; a restart moves an end of the range to
    that of another file. *)
Fixpoint inputs_loop (fuel : nat) (level : nat) (files : list FileMetaData) (i : nat)
    (user_begin user_end : option (list Z)) (inputs : list FileMetaData) : option (list FileMetaData) :=
  match fuel with
  | O => None
  | S fuel =>
      match files !! i with
      | None => Some inputs
      | Some f =>
          let i := S i in
          let file_start := ExtractUserKey (f_smallest f) in
          let file_limit := ExtractUserKey (f_largest f) in
          if before_begin file_limit user_begin then inputs_loop fuel level files i user_begin user_end inputs
          else if after_end file_start user_end then inputs_loop fuel level files i user_begin user_end inputs
          else
            let inputs := inputs ++ [f] in
            if (level =? 0)%nat then
              if before_begin file_start user_begin then inputs_loop fuel level files 0 (Some file_start) user_end []
              else if after_end file_limit user_end then inputs_loop fuel level files 0 user_begin (Some file_limit) []
              else inputs_loop fuel level files i user_begin user_end inputs
            else inputs_loop fuel level files i user_begin user_end inputs
      end
  end.

(** Every restart takes one of at most [2 * n] ends for good. *)
Definition inputs_fuel (n : nat) : nat := (2 * n + 1) * (n + 1) + 1.

Definition GetOverlappingInputs (v : Version) (level : nat) (begin end_ : option (list Z))
    : option (list FileMetaData) :=
  let files := level_files v level in
  inputs_loop (inputs_fuel (length files)) level files 0 (ExtractUserKey <$> begin) (ExtractUserKey <$> end_) [].

(** The loop of [PickLevelForMemTableOutput]; every round goes up a level. *)
Fixpoint pick_loop (fuel : nat) (max_file_size : Z) (v : Version) (smallest_user_key largest_user_key : list Z)
    (level : nat) : option nat :=
  match fuel with
  | O => None
  | S fuel =>
      if (level <? kMaxMemCompactLevel)%nat then
        match OverlapInLevel v (level + 1) (Some smallest_user_key) (Some largest_user_key) with
        | None => None
        | Some true => Some level
        | Some false =>
            if (level + 2 <? kNumLevels)%nat then
              match GetOverlappingInputs v (level + 2)
                      (Some (make_InternalKey smallest_user_key kMaxSequenceNumber kValueTypeForSeek))
                      (Some (make_InternalKey largest_user_key 0 kTypeDeletion)) with
              | None => None
              | Some overlaps =>
                  if MaxGrandParentOverlapBytes max_file_size <? TotalFileSize overlaps then Some level
                  else pick_loop fuel max_file_size v smallest_user_key largest_user_key (level + 1)
              end
            else pick_loop fuel max_file_size v smallest_user_key largest_user_key (level + 1)
        end
      else Some level
  end.

Definition PickLevelForMemTableOutput (max_file_size : Z) (v : Version)
    (smallest_user_key largest_user_key : list Z) : option nat :=
  match OverlapInLevel v 0 (Some smallest_user_key) (Some largest_user_key) with
  | None => None
  | Some true => Some O
  | Some false => pick_loop (S kMaxMemCompactLevel) max_file_size v smallest_user_key largest_user_key 0
  end.

End Overlap.
