(* ===== verification/LvVersionProps.v ===== *)
(** * leveldb: a version returns the newest entry (theorems about LvVersion)

    The binary search for a file; and that a lookup through the levels of a
    version, against any table cache that keeps its promise, returns what the
    memtable specification asks for over all entries of all files. *)
From Stdlib Require Import ZArith Lia Bool String List Sorted.
From stdpp Require Import base list numbers sorting.
From S2P Require Import Prelude LvCoding LvEnv LvComparator LvDbFormat LvBlockProps.
From S2P Require Import LvMemTable LvMemTableProps LvTableRead LvVersion.

(** ** The binary search *)

Section FindFile.
Context {C : Comparator} {valid : list Z -> Prop} {CL : ComparatorLaws C valid}.
Notation icmp := (internal_compare C).
Notation ivalid := (internal_valid valid).

(** Files in the order of their largest keys. *)
Definition by_largest (files : list FileMetaData) : Prop :=
  Forall (fun f => ivalid (f_largest f)) files /\
  StronglySorted (fun f g => icmp (f_largest f) (f_largest g) < 0) files.

(** [n] is the first file whose largest key is not before the key. *)
Definition first_file (files : list FileMetaData) (key : list Z) (n : nat) : Prop :=
  (n <= length files)%nat /\
  (forall j f, (j < n)%nat -> files !! j = Some f -> icmp (f_largest f) key < 0) /\
  (forall j f, (n <= j)%nat -> files !! j = Some f -> 0 <= icmp (f_largest f) key).

Lemma FindFile_loop_ok files key fuel left right :
  by_largest files -> ivalid key -> Z.of_nat (length files) < 2 ^ 31 ->
  (left <= right)%nat -> (right <= length files)%nat -> (right - left < fuel)%nat ->
  (forall j f, (j < left)%nat -> files !! j = Some f -> icmp (f_largest f) key < 0) ->
  (forall j f, (right <= j)%nat -> files !! j = Some f -> 0 <= icmp (f_largest f) key) ->
  exists n, FindFile_loop C fuel files key (Z.of_nat left) (Z.of_nat right) = Some (Z.of_nat n) /\
    first_file files key n.
Proof.
  intros [Hv Hs] Hk Hlen. revert left right.
  induction fuel as [|fuel IH]; intros left right Hlr Hr Hf Hbefore Hafter; [lia|]. cbn [FindFile_loop].
  destruct (Z.ltb_spec (Z.of_nat left) (Z.of_nat right)).
  - rewrite wrapu_small by (zpow; lia). rewrite <- Nat2Z.inj_add.
    change 2 with (Z.of_nat 2). rewrite <- Nat2Z.inj_div, Nat2Z.id.
    set (mid := Nat.div (left + right) 2).
    assert (Hm : (left <= mid < right)%nat).
    { unfold mid. split; [apply Nat.div_le_lower_bound; lia|apply Nat.Div0.div_lt_upper_bound; lia]. }
    destruct (lookup_lt_is_Some_2 files mid) as [f Hfm]; [lia|]. rewrite Hfm.
    pose proof Hv as Hv'. rewrite Forall_lookup in Hv'.
    assert (IL := internal_laws (C := C) (valid := valid)).
    assert (Horder : forall i j a b, (i < j)%nat -> files !! i = Some a -> files !! j = Some b ->
              icmp (f_largest a) (f_largest b) < 0).
    { intros i j a b Hij Ha Hb. exact (sorted_lookup _ files i j a b Hs Hij Ha Hb). }
    destruct (Z.ltb_spec (icmp (f_largest f) key) 0) as [Hlt|Hge].
    + rewrite wrapu_small by (zpow; lia). replace (Z.of_nat mid + 1) with (Z.of_nat (S mid)) by lia.
      apply IH; [lia|lia|lia| |done].
      intros j g Hj Hg. destruct (Nat.eq_dec j mid) as [->|Hne]; [rewrite Hfm in Hg; now injection Hg as <-|].
      pose proof (Horder j mid g f ltac:(lia) Hg Hfm).
      apply (@Compare_lt_le_trans _ _ IL _ (f_largest f)); [apply (Hv' j g Hg)|apply (Hv' mid f Hfm)|done|done|].
      simpl. lia.
    + apply IH; [lia|lia|lia|done|].
      intros j g Hj Hg. destruct (Nat.eq_dec j mid) as [->|Hne]; [rewrite Hfm in Hg; now injection Hg as <-|].
      pose proof (Horder mid j f g ltac:(lia) Hfm Hg).
      pose proof (@Compare_flip _ _ IL key (f_largest f) Hk (Hv' mid f Hfm)) as F1.
      pose proof (@Compare_flip _ _ IL key (f_largest g) Hk (Hv' j g Hg)) as F2. simpl in F1, F2.
      apply F2. apply (@Compare_trans _ _ IL _ (f_largest f)); [done|apply (Hv' mid f Hfm)|apply (Hv' j g Hg)| |]; simpl; lia.
  - exists right. split; [done|]. split; [done|]. split; [|done].
    intros j f Hj. apply Hbefore. lia.
Qed.

Lemma FindFile_ok files key :
  by_largest files -> ivalid key -> Z.of_nat (length files) < 2 ^ 31 ->
  exists n, FindFile C files key = Some (Z.of_nat n) /\ first_file files key n.
Proof.
  intros Hb Hk Hlen. unfold FindFile. rewrite wrapu_small by (zpow; lia).
  apply (FindFile_loop_ok files key _ 0 (length files)); try done; try lia.
  intros j f Hj Hl. apply lookup_lt_Some in Hl. lia.
Qed.

End FindFile.

(** ** The specification of a lookup over several sources *)

Section Spec.
Context {C : Comparator} {valid : list Z -> Prop} {CL : ComparatorLaws C valid}.
Context (key : list Z) (s : Z).

(** The entries of the key in [l1] are newer than those in [l2]. *)
Definition newer (l1 l2 : list added) : Prop :=
  forall a b, In a l1 -> In b l2 -> Compare (a_key a) key = 0 -> Compare (a_key b) key = 0 -> a_seq b < a_seq a.

(** Only the entries of the key count. *)
Lemma get_spec_ext (l l' : list added) r :
  (forall b, Compare (a_key b) key = 0 -> In b l <-> In b l') ->
  get_spec (C := C) l key s r -> get_spec (C := C) l' key s r.
Proof.
  intros H [[-> Hm]|(a & Ha & Hk & Hs & Hmax & ->)].
  - left. split; [done|]. intros b Hb Hkb. apply Hm; [now apply H|done].
  - right. exists a. split; [now apply H|]. split; [done|]. split; [done|]. split; [|done].
    intros b Hb Hkb. apply Hmax; [now apply H|done].
Qed.

(** The newer source decides, unless it has nothing. *)
Lemma get_spec_app (l1 l2 : list added) r1 r2 :
  newer l1 l2 -> get_spec (C := C) l1 key s r1 -> get_spec (C := C) l2 key s r2 ->
  get_spec (C := C) (l1 ++ l2) key s (match r1 with Miss => r2 | _ => r1 end).
Proof.
  intros Hn [[-> Hm]|(a & Ha & Hk & Hs & Hmax & Er)] H2.
  - destruct H2 as [[-> Hm2]|(a & Ha & Hk & Hs & Hmax & ->)].
    + left. split; [done|]. intros b Hb Hkb. apply in_app_or in Hb as [Hb|Hb]; auto.
    + right. exists a. split; [apply in_or_app; now right|]. split; [done|]. split; [done|]. split; [|done].
      intros b Hb Hkb Hsb. apply in_app_or in Hb as [Hb|Hb]; [|auto]. specialize (Hm b Hb Hkb). lia.
  - right. exists a. split; [apply in_or_app; now left|]. split; [done|]. split; [done|].
    split; [|rewrite Er; now destruct (a_type a)].
    intros b Hb Hkb Hsb. apply in_app_or in Hb as [Hb|Hb]; [auto|]. specialize (Hn a b Ha Hb Hk Hkb). lia.
Qed.

Lemma get_spec_nil : get_spec (C := C) [] key s Miss.
Proof. left. split; [done|]. intros b []. Qed.

(** A source that certainly has the key stops the search. *)
Lemma get_spec_stop (l1 l2 : list added) r :
  newer l1 l2 -> r <> Miss -> get_spec (C := C) l1 key s r -> get_spec (C := C) (l1 ++ l2) key s r.
Proof.
  intros Hn Hr [[-> Hm]|(a & Ha & Hk & Hs & Hmax & Er)]; [done|].
  right. exists a. split; [apply in_or_app; now left|]. split; [done|]. split; [done|]. split; [|done].
  intros b Hb Hkb Hsb. apply in_app_or in Hb as [Hb|Hb]; [auto|]. specialize (Hn a b Ha Hb Hk Hkb). lia.
Qed.

End Spec.

(** ** One file *)

Section File.
Context {C : Comparator} {valid : list Z -> Prop} {CL : ComparatorLaws C valid}.
Context (valid_bytes : forall k, valid k -> is_bytes k).
Notation icmp := (internal_compare C).
Notation ivalid := (internal_valid valid).

(** The entries of a table that holds [l]. *)
Definition table_of (l : list added) : list (list Z * list Z) := map (fun a => (ikey_of a, a_value a)) l.

(** A file with its contents: sorted, and described by its metadata. *)
Record file_ok (f : FileMetaData) (l : list added) : Prop := {
  fo_valid : Forall (added_valid (valid := valid)) l;
  fo_sorted : StronglySorted (fun a b => icmp (ikey_of a) (ikey_of b) < 0) l;
  fo_smallest : exists a, head l = Some a /\ f_smallest f = ikey_of a;
  fo_largest : exists a, last l = Some a /\ f_largest f = ikey_of a;
}.

(** A lookup in an open table: what is reported is the first entry at or after
    the key, and it is reported if it belongs to the user key. *)
Definition table_answer (es : list (list Z * list Z)) (k : list Z) (found : option (list Z * list Z)) : Prop :=
  (forall e, found = Some e -> es !! first_ge (InternalKeyComparator C) k es = Some e) /\
  (forall e, es !! first_ge (InternalKeyComparator C) k es = Some e ->
     Compare (ExtractUserKey k) (ExtractUserKey e.1) = 0 -> found = Some e).

Context (key : list Z) (s : Z).
Hypothesis Hkey : valid key.
Hypothesis Hs : 0 <= s < 2 ^ 56.
Notation target := (lookup_internal_key (make_LookupKey key s)).

Lemma target_extract : ExtractUserKey target = key /\ ExtractTag target = PackSequenceAndType s kValueTypeForSeek /\
  ivalid target.
Proof.
  destruct (Pack_value s kValueTypeForSeek Hs) as [_ Hr].
  change target with (PutFixed64 key (PackSequenceAndType s kValueTypeForSeek)).
  destruct (Extract_Put key _ Hr) as [-> ->]. split; [done|]. split; [done|]. now apply internal_valid_Put.
Qed.

Lemma ikey_before a : added_ok a ->
  icmp (ikey_of a) target < 0 <-> Compare (a_key a) key < 0 \/ Compare (a_key a) key = 0 /\ s < a_seq a.
Proof.
  intros Ha. rewrite internal_compare_lt. destruct target_extract as (-> & -> & _).
  destruct (ikey_extract a Ha) as [-> ->].
  rewrite (proj1 (Pack_value s kValueTypeForSeek Hs)). unfold tag_of.
  destruct Ha as (Hsa & _). rewrite (proj1 (Pack_value (a_seq a) (a_type a) Hsa)).
  destruct (a_type a); simpl; lia.
Qed.

(** The callback on the entry that was found. *)
Lemma SaveValue_ok a v : added_ok a ->
  SaveValue C (MkSaver kNotFound_ key v) (ikey_of a) (a_value a) =
  if Compare (a_key a) key =? 0
  then match a_type a with
       | kTypeValue => MkSaver kFound key (a_value a)
       | kTypeDeletion => MkSaver kDeleted key v
       end
  else MkSaver kNotFound_ key v.
Proof.
  intros Ha. unfold SaveValue.
  change (ikey_of a) with (AppendInternalKey [] (ParsedKey (a_key a) (a_seq a) (a_type a))).
  rewrite Parse_Append by apply Ha. simpl. now destruct (_ =? 0), (a_type a).
Qed.

(** The outcome of one table, as a saver and as a result. *)
Definition saved (v : list Z) (found : option (list Z * list Z)) : Saver :=
  match found with
  | Some (k, x) => SaveValue C (MkSaver kNotFound_ key v) k x
  | None => MkSaver kNotFound_ key v
  end.
Definition saver_of (v : list Z) (r : get_result) : Saver :=
  match r with
  | Miss => MkSaver kNotFound_ key v
  | Found x => MkSaver kFound key x
  | Deleted => MkSaver kDeleted key v
  end.

(** In a sorted table, what follows an entry is of a later user key, or an older
    version of the same. *)
Lemma sorted_versions l n j a b :
  Forall (added_valid (valid := valid)) l -> StronglySorted (fun a b => icmp (ikey_of a) (ikey_of b) < 0) l ->
  (n <= j)%nat -> l !! n = Some a -> l !! j = Some b ->
  Compare (a_key a) (a_key b) < 0 \/ Compare (a_key a) (a_key b) = 0 /\ a_seq b <= a_seq a.
Proof.
  intros Hl Hsort Hnj Ha Hb. rewrite Forall_lookup in Hl.
  destruct (Hl n a Ha) as [Oa Va], (Hl j b Hb) as [Ob Vb]. destruct (Nat.eq_dec n j) as [<-|Hne].
  - rewrite Ha in Hb. injection Hb as <-. right. rewrite (Compare_refl _ Va). lia.
  - assert (Hab : icmp (ikey_of a) (ikey_of b) < 0) by (apply (sorted_lookup _ l n j a b Hsort); [lia|done|done]).
    apply internal_compare_lt in Hab. destruct (ikey_extract a Oa) as [E1 E2], (ikey_extract b Ob) as [E3 E4].
    rewrite E1, E2, E3, E4 in Hab. pose proof (tag_lt a b Oa Ob). lia.
Qed.

(** Entries of the key in the snapshot are not before the first entry at or
    after the target. *)
Lemma snapshot_position l b j :
  Forall (added_valid (valid := valid)) l -> l !! j = Some b -> Compare (a_key b) key = 0 -> a_seq b <= s ->
  (first_ge (InternalKeyComparator C) target (table_of l) <= j)%nat.
Proof.
  intros Hl Hj Hk Hsb. rewrite Forall_lookup in Hl. destruct (Hl j b Hj) as [Ob _].
  destruct (first_ge_spec (InternalKeyComparator C) target (table_of l)) as (_ & Hlt & _).
  destruct (Nat.lt_ge_cases j (first_ge (InternalKeyComparator C) target (table_of l))) as [Hjn|]; [exfalso|done].
  specialize (Hlt j (ikey_of b, a_value b) Hjn). unfold table_of in Hlt. rewrite list_lookup_fmap, Hj in Hlt.
  specialize (Hlt eq_refl). change (icmp (ikey_of b) target < 0) in Hlt. apply ikey_before in Hlt; [lia|done].
Qed.

Lemma table_answer_get l found v :
  Forall (added_valid (valid := valid)) l -> StronglySorted (fun a b => icmp (ikey_of a) (ikey_of b) < 0) l ->
  table_answer (table_of l) target found ->
  exists r, get_spec (C := C) l key s r /\ saved v found = saver_of v r.
Proof.
  intros Hl Hsort [H1 H2]. pose proof (snapshot_position l) as Hpos.
  destruct (first_ge_spec (InternalKeyComparator C) target (table_of l)) as (_ & _ & Hge).
  set (n := first_ge (InternalKeyComparator C) target (table_of l)) in *.
  assert (Hlook : table_of l !! n = (fun a => (ikey_of a, a_value a)) <$> (l !! n)) by apply list_lookup_fmap.
  rewrite Hlook in H1, H2, Hge.
  destruct (l !! n) as [a|] eqn:En; cbn [fmap option_fmap option_map] in H1, H2, Hge.
  - pose proof Hl as Hl'. rewrite Forall_lookup in Hl'. destruct (Hl' n a En) as [Oa Va].
    specialize (Hge _ eq_refl). change (0 <= icmp (ikey_of a) target) in Hge.
    assert (Hna : ~ icmp (ikey_of a) target < 0) by lia. rewrite ikey_before in Hna by done.
    destruct (Z.eqb_spec (Compare (a_key a) key) 0) as [E|N].
    + exists (match a_type a with kTypeValue => Found (a_value a) | kTypeDeletion => Deleted end). split.
      * right. exists a. split; [apply list_elem_of_In, list_elem_of_lookup; now exists n|].
        split; [done|]. split; [lia|]. split; [|done].
        intros b Ib Hkb Hsb. apply list_elem_of_In, list_elem_of_lookup in Ib as [j Hj].
        destruct (sorted_versions l n j a b Hl Hsort (Hpos b j Hl Hj Hkb Hsb) En Hj) as [Hlt|[_ ?]]; [|done].
        assert (Compare (a_key a) (a_key b) = 0); [|lia]. destruct (Hl' j b Hj) as [_ Vb].
        apply (Compare_eq_trans _ key); [done|done|done|done|now apply Compare_eq_sym].
      * rewrite (H2 _ eq_refl).
        2:{ cbn [fst]. rewrite (proj1 target_extract), (proj1 (ikey_extract a Oa)). now apply Compare_eq_sym. }
        unfold saved. rewrite SaveValue_ok by done. destruct (Z.eqb_spec (Compare (a_key a) key) 0); [|done].
        now destruct (a_type a).
    + exists Miss. split.
      * left. split; [done|]. intros b Ib Hkb. destruct (Z.lt_ge_cases s (a_seq b)) as [|Hsb]; [done|exfalso].
        apply list_elem_of_In, list_elem_of_lookup in Ib as [j Hj]. destruct (Hl' j b Hj) as [_ Vb].
        pose proof (sorted_versions l n j a b Hl Hsort (Hpos b j Hl Hj Hkb ltac:(lia)) En Hj).
        assert (Compare (a_key a) key <= 0); [|lia]. apply (Compare_trans _ (a_key b)); [done|done|done|lia|lia].
      * unfold saved. destruct found as [[k x]|]; [|done]. specialize (H1 _ eq_refl). injection H1 as <- <-.
        rewrite SaveValue_ok by done. destruct (Z.eqb_spec (Compare (a_key a) key) 0); done.
  - exists Miss. split.
    + left. split; [done|]. intros b Ib Hkb. destruct (Z.lt_ge_cases s (a_seq b)) as [|Hsb]; [done|exfalso].
      apply list_elem_of_In, list_elem_of_lookup in Ib as [j Hj].
      pose proof (Hpos b j Hl Hj Hkb ltac:(lia)). apply lookup_ge_None in En. apply lookup_lt_Some in Hj. lia.
    + destruct found as [e|]; [|done]. now specialize (H1 _ eq_refl).
Qed.

End File.

(** ** The table cache, as an interface with laws *)

(** [tc_table t number size] are the entries of the table file of that number
    and size, where there is one; [tc_ok n t] says that the next [n] lookups
    work, since every one may have to open a table. *)
Class TableCacheLaws (C : Comparator) (valid : list Z -> Prop) (T : Type) {TC : TableCacheGet T} := {
  tc_ok : nat -> T -> Prop;
  tc_table : T -> Z -> Z -> option (list (list Z * list Z));
  tc_Get_law n t number size k es :
    tc_ok (S n) t -> tc_table t number size = Some es -> internal_valid valid k -> is_bytes k ->
    exists found t', tc_Get t number size k = Some (OK, found, t') /\ tc_ok n t' /\
      (forall n m, tc_table t' n m = tc_table t n m) /\ table_answer (C := C) es k found;
  tc_ok_less n t : tc_ok (S n) t -> tc_ok n t;
}.

(** ** A version *)

Section Version.
Context {C : Comparator} {valid : list Z -> Prop} {CL : ComparatorLaws C valid}.
Context (valid_bytes : forall k, valid k -> is_bytes k).
Context {T : Type} {TC : TableCacheGet T} {TL : TableCacheLaws C valid T}.
Notation icmp := (internal_compare C).

(** The entries of a level, file by file. *)
Definition level_entries (contents : Z -> list added) (files : list FileMetaData) : list added :=
  concat (map (fun f => contents (f_number f)) files).
Definition version_entries (contents : Z -> list added) (v : Version) : list added :=
  concat (map (level_entries contents) (files_ v)).

(** The invariant of an installed version: every file is what its metadata
    says, the files of the levels above 0 are sorted and disjoint, the numbers
    of the files of level 0 differ, and for each user key newer files of level 0
    and lower levels hold the newer entries. *)
Record version_ok (contents : Z -> list added) (v : Version) : Prop := {
  vo_levels : length (files_ v) = kNumLevels;
  vo_files level f : f ∈ level_files v level -> file_ok (C := C) (valid := valid) f (contents (f_number f));
  vo_sorted level : (1 <= level)%nat ->
    StronglySorted (fun f g => icmp (f_largest f) (f_smallest g) < 0) (level_files v level);
  vo_length level : Z.of_nat (length (level_files v level)) < 2 ^ 31;
  vo_numbers : NoDup (map f_number (level_files v 0));
  vo_level0 f g key : valid key -> f ∈ level_files v 0 -> g ∈ level_files v 0 -> f_number g < f_number f ->
    newer (C := C) key (contents (f_number f)) (contents (f_number g));
  vo_deeper i j f g key : valid key -> (i < j)%nat -> f ∈ level_files v i -> g ∈ level_files v j ->
    newer (C := C) key (contents (f_number f)) (contents (f_number g));
}.

Context (contents : Z -> list added).

Lemma file_entry f a : file_ok (C := C) (valid := valid) f (contents (f_number f)) -> In a (contents (f_number f)) ->
  added_valid (valid := valid) a /\ icmp (f_smallest f) (ikey_of a) <= 0 /\ icmp (ikey_of a) (f_largest f) <= 0.
Proof.
  intros [Hv Hs (x & Hx & Ex) (y & Hy & Ey)] Ha. rewrite Ex, Ey.
  apply list_elem_of_In, list_elem_of_lookup in Ha as [n Hn].
  pose proof Hv as Hv'. rewrite Forall_lookup in Hv'. pose proof (Hv' n a Hn) as Va. split; [done|].
  assert (Hself : icmp (ikey_of a) (ikey_of a) = 0).
  { apply internal_compare_eq. split; [|done]. apply Compare_refl. rewrite (proj1 (ikey_extract a (proj1 Va))). apply Va. }
  rewrite last_lookup in Hy. split.
  - destruct n as [|n]; [destruct (contents (f_number f)); [done|]; simpl in *; simplify_eq; lia|].
    assert (H0 : contents (f_number f) !! 0%nat = Some x) by (destruct (contents (f_number f)); [done|exact Hx]).
    pose proof (sorted_lookup _ _ 0 (S n) x a Hs ltac:(lia) H0 Hn). simpl in *. lia.
  - destruct (Nat.eq_dec n (pred (length (contents (f_number f))))) as [->|Hne]; [rewrite Hn in Hy; injection Hy as <-; lia|].
    pose proof (lookup_lt_Some _ _ _ Hn).
    pose proof (sorted_lookup _ _ n (pred (length (contents (f_number f)))) a y Hs ltac:(lia) Hn Hy). simpl in *. lia.
Qed.

Lemma file_bounds f : file_ok (C := C) (valid := valid) f (contents (f_number f)) ->
  internal_valid valid (f_smallest f) /\ internal_valid valid (f_largest f) /\
  exists a, In a (contents (f_number f)) /\ f_largest f = ikey_of a.
Proof.
  intros [Hv _ (x & Hx & ->) (y & Hy & ->)]. rewrite List.Forall_forall in Hv.
  assert (Ix : In x (contents (f_number f))) by (destruct (contents (f_number f)); [done|injection Hx as ->; now left]).
  assert (Iy : In y (contents (f_number f))) by (apply list_elem_of_In; now apply last_Some_elem_of).
  assert (Hi : forall a, In a (contents (f_number f)) -> internal_valid valid (ikey_of a)).
  { intros a [Oa Va]%Hv. apply internal_valid_Put; [now apply tag_range|done]. }
  split; [now apply Hi|]. split; [now apply Hi|]. now exists y.
Qed.

(** The entries of a level above 0 are sorted. *)
Lemma level_sorted files :
  Forall (fun f => file_ok (C := C) (valid := valid) f (contents (f_number f))) files ->
  StronglySorted (fun f g => icmp (f_largest f) (f_smallest g) < 0) files ->
  StronglySorted (fun a b => icmp (ikey_of a) (ikey_of b) < 0) (level_entries contents files) /\
  Forall (added_valid (valid := valid)) (level_entries contents files).
Proof.
  induction files as [|f files IH]; intros Hf Hs; [split; constructor|].
  apply Forall_cons in Hf as [Hf Hfs]. apply StronglySorted_inv in Hs as [Hs Hfg].
  destruct (IH Hfs Hs) as [IH1 IH2]. unfold level_entries. cbn [map concat]. fold (level_entries contents files).
  assert (IL := internal_laws (C := C) (valid := valid)).
  split; [|apply Forall_app; split; [apply Hf|done]].
  apply StronglySorted_app. split; [|split; [apply Hf|done]].
  intros a b Ha Hb. apply list_elem_of_In in Ha, Hb.
  destruct (file_entry f a Hf Ha) as (Va & _ & Hal).
  unfold level_entries in Hb. apply in_concat in Hb as (l & Hl & Hb). apply in_map_iff in Hl as (g & <- & Hg).
  rewrite List.Forall_forall in Hfs, Hfg. specialize (Hfs g Hg). specialize (Hfg g Hg).
  destruct (file_entry g b Hfs Hb) as (Vb & Hbs & _).
  destruct (file_bounds f Hf) as (_ & Vl & _). destruct (file_bounds g Hfs) as (Vs & _ & _).
  assert (Hi : forall a, added_valid (valid := valid) a -> internal_valid valid (ikey_of a)).
  { intros c [Oc Vc]. apply internal_valid_Put; [now apply tag_range|done]. }
  apply (@Compare_le_lt_trans _ _ IL _ (f_largest f)); [now apply Hi|done|now apply Hi|done|].
  apply (@Compare_lt_le_trans _ _ IL _ (f_smallest g)); [done|done|now apply Hi|done|done].
Qed.

(** ** Looking up a key *)

Section Lookup.
Context (key : list Z) (s : Z) (v0 : list Z) (t0 : T).
Hypothesis Hkey : valid key.
Hypothesis Hs : 0 <= s < 2 ^ 56.
Notation target := (lookup_internal_key (make_LookupKey key s)).
Notation gspec := (get_spec (C := C)).

Definition is_miss (r : get_result) : bool := match r with Miss => true | _ => false end.

(** The state of the search when its outcome so far is [r]. *)
Definition st_is (n : nat) (st : GetState (T := T)) (r : get_result) : Prop :=
  gs_saver st = saver_of key v0 r /\ gs_ikey st = target /\
  gs_found st = (match r with Found _ => true | _ => false end) /\ gs_s st = OK /\
  tc_ok n (gs_cache st) /\ (forall n m, tc_table (gs_cache st) n m = tc_table t0 n m).

Lemma target_bytes : is_bytes target.
Proof.
  change target with (PutFixed64 key (PackSequenceAndType s kValueTypeForSeek)).
  unfold PutFixed64. apply is_bytes_app. split; [now apply valid_bytes|auto with cint].
Qed.

Lemma st_is_less m n st r : (m <= n)%nat -> st_is n st r -> st_is m st r.
Proof.
  intros Hmn (E1 & E2 & E3 & E4 & Hok & Ht). unfold st_is. do 4 (split; [done|]). split; [|done].
  induction Hmn as [|n Hmn IH]; [done|]. apply IH. now apply tc_ok_less.
Qed.

(** Trying a file, on behalf of the entries [l] for which its answer counts. *)
Lemma Match_ok m st level f l :
  st_is (S m) st Miss -> tc_table t0 (f_number f) (f_file_size f) = Some (table_of (contents (f_number f))) ->
  Forall (added_valid (valid := valid)) l -> StronglySorted (fun a b => icmp (ikey_of a) (ikey_of b) < 0) l ->
  (forall found, table_answer (C := C) (table_of (contents (f_number f))) target found ->
     table_answer (C := C) (table_of l) target found) ->
  exists r st', Match C st level f = Some (is_miss r, st') /\ st_is m st' r /\ gspec l key s r.
Proof.
  intros (E1 & E2 & E3 & E4 & Hok & Htab) Hf Hv Hsort Hans. rewrite <- Htab in Hf.
  destruct (target_extract (valid := valid) key s Hkey Hs) as (_ & _ & Vt).
  destruct (tc_Get_law _ _ _ _ target _ Hok Hf Vt target_bytes) as (found & t' & Eg & Hok' & Htab' & Ha).
  destruct (table_answer_get key s Hkey Hs l found v0 Hv Hsort (Hans found Ha)) as (r & Hr & Esv).
  exists r. unfold Match. rewrite E2, Eg. cbn [ok negb].
  assert (Es : (match found with Some (k, x) => SaveValue C (gs_saver st) k x | None => gs_saver st end) = saver_of key v0 r).
  { rewrite <- Esv, E1. now destruct found as [[k x]|]. }
  rewrite Es.
  destruct r; cbn [saver_of state is_miss]; eexists; (split; [reflexivity|]); (split; [|done]); unfold st_is; cbn;
    (split; [done|]; split; [done|]; split; [done|]; split; [done|]; split; [done|]); intros; now rewrite Htab', Htab.
Qed.

Context (v : Version).
Hypothesis Hv : version_ok contents v.
Hypothesis Htables : forall level f, f ∈ level_files v level ->
  tc_table t0 (f_number f) (f_file_size f) = Some (table_of (contents (f_number f))).

Lemma for_level0_ok m fs st :
  Forall (fun f => f ∈ level_files v 0) fs ->
  StronglySorted (fun f g => newer (C := C) key (contents (f_number f)) (contents (f_number g))) fs ->
  st_is (length fs + m) st Miss ->
  exists r st', for_level0 (Match C) fs st = Some (is_miss r, st') /\ st_is m st' r /\
    gspec (level_entries contents fs) key s r.
Proof.
  revert st. induction fs as [|f fs IH]; intros st Hin Hsort Hst; cbn [for_level0].
  - exists Miss, st. split; [done|]. split; [done|]. apply get_spec_nil.
  - apply Forall_cons in Hin as [Hf Hin]. apply StronglySorted_inv in Hsort as [Hsort Hnew].
    pose proof (vo_files _ _ Hv 0 f Hf) as Fo.
    destruct (Match_ok (length fs + m) st 0 f (contents (f_number f)) Hst (Htables 0 f Hf) (fo_valid _ _ Fo) (fo_sorted _ _ Fo)
                (fun _ H => H)) as (r & st1 & Em & Hst1 & Hr).
    rewrite Em. unfold level_entries. cbn [map concat]. fold (level_entries contents fs).
    assert (Hn : newer (C := C) key (contents (f_number f)) (level_entries contents fs)).
    { intros a b Ha Hb. unfold level_entries in Hb. apply in_concat in Hb as (l & Hl & Hb).
      apply in_map_iff in Hl as (g & <- & Hg). rewrite List.Forall_forall in Hnew. now apply (Hnew g Hg a b). }
    destruct r as [|x|].
    + destruct (IH st1 Hin Hsort Hst1) as (r2 & st2 & E2 & Hst2 & Hr2). exists r2, st2. cbn [is_miss].
      split; [done|]. split; [done|]. now apply (get_spec_app key s _ _ Miss r2).
    + exists (Found x), st1. split; [done|]. split; [apply (st_is_less m (length fs + m)); [lia|done]|]. now apply get_spec_stop.
    + exists Deleted, st1. split; [done|]. split; [apply (st_is_less m (length fs + m)); [lia|done]|]. now apply get_spec_stop.
Qed.

(** Level 0: the files that may hold the key, newest first. *)
Lemma level0_files_newer :
  StronglySorted (fun f g => newer (C := C) key (contents (f_number f)) (contents (f_number g))) (level0_files C v key) /\
  Forall (fun f => f ∈ level_files v 0) (level0_files C v key).
Proof.
  assert (HP : level0_files C v key ≡ₚ List.filter (may_hold C key) (level_files v 0)) by apply merge_sort_Permutation.
  assert (Hin : forall f, f ∈ level0_files C v key -> f ∈ level_files v 0).
  { intros f Hf. rewrite HP in Hf. apply list_elem_of_In, filter_In in Hf as [Hf _]. now apply list_elem_of_In. }
  assert (Hnd : NoDup (map f_number (level0_files C v key))).
  { rewrite HP. pose proof (vo_numbers _ _ Hv) as Hn. clear -Hn.
    induction (level_files v 0) as [|f l IH]; [constructor|]. cbn [map List.filter] in *.
    apply NoDup_cons in Hn as [Hf Hn]. destruct (may_hold C key f); [|now apply IH]. cbn [map].
    apply NoDup_cons. split; [|now apply IH]. intros Hx. apply Hf.
    apply list_elem_of_fmap in Hx as (g & -> & Hg). apply list_elem_of_fmap_2.
    apply list_elem_of_In, filter_In in Hg as [Hg _]. now apply list_elem_of_In. }
  assert (Hsort : StronglySorted newest_first (level0_files C v key)).
  { apply StronglySorted_merge_sort.
    - intros a b c. unfold newest_first. lia.
    - intros a b. unfold newest_first. lia. }
  split; [|now apply Forall_forall].
  clear HP. induction Hsort as [|f fs Hsort IH Hf]; constructor.
  - apply IH; [intros g Hg; apply Hin; now right|]. now apply NoDup_cons in Hnd as [_ ?].
  - apply Forall_forall. intros g Hg. rewrite Forall_forall in Hf. specialize (Hf g Hg). unfold newest_first in Hf.
    apply (vo_level0 _ _ Hv); [done|apply Hin; now left|apply Hin; now right|].
    cbn [map] in Hnd. apply NoDup_cons in Hnd as [Hn _].
    assert (f_number g <> f_number f); [|lia]. intros E. apply Hn. rewrite <- E. now apply list_elem_of_fmap_2.
Qed.

(** A file that does not reach the key has none of its entries. *)
Lemma may_hold_ok f a : f ∈ level_files v 0 -> In a (contents (f_number f)) -> Compare (a_key a) key = 0 ->
  may_hold C key f = true.
Proof.
  intros Hf Ha Hk. pose proof (vo_files _ _ Hv 0 f Hf) as Fo.
  destruct (file_entry f a Fo Ha) as ([Oa Va] & H1 & H2).
  destruct (file_bounds f Fo) as ([_ V1] & [_ V2] & _).
  apply internal_compare_le in H1, H2. destruct (ikey_extract a Oa) as [E _]. rewrite E in H1, H2.
  unfold may_hold. apply andb_true_iff. rewrite !Z.leb_le. split.
  - apply Compare_flip; [done|done|]. apply (Compare_trans _ (a_key a)); [done|done|done|lia|lia].
  - apply (Compare_trans _ (a_key a)); [done|done|done| |lia].
    rewrite (Compare_eq_sym (a_key a) key Va Hkey Hk). done.
Qed.

Lemma level0_ok m st : st_is (length (level_files v 0) + m) st Miss ->
  exists r st', for_level0 (Match C) (level0_files C v key) st = Some (is_miss r, st') /\ st_is m st' r /\
    gspec (level_entries contents (level_files v 0)) key s r.
Proof.
  intros Hst. destruct level0_files_newer as [Hn Hin].
  assert (Hlen : (length (level0_files C v key) <= length (level_files v 0))%nat).
  { unfold level0_files. rewrite merge_sort_Permutation. apply List.filter_length_le. }
  destruct (for_level0_ok m (level0_files C v key) st Hin Hn) as (r & st' & E & Hst' & Hr).
  { apply (st_is_less _ (length (level_files v 0) + m)); [lia|done]. }
  exists r, st'. split; [done|]. split; [done|]. apply (get_spec_ext key s _ _ r) with (2 := Hr).
  intros b Hb. unfold level_entries. rewrite !in_concat.
  assert (HP : level0_files C v key ≡ₚ List.filter (may_hold C key) (level_files v 0)) by apply merge_sort_Permutation.
  split; intros (l & Hl & Hbl); exists l; (split; [|done]); apply in_map_iff in Hl as (f & <- & Hf);
    apply in_map_iff; exists f; (split; [done|]).
  - rewrite Forall_forall in Hin. now apply list_elem_of_In, Hin, list_elem_of_In.
  - apply list_elem_of_In. rewrite HP. apply list_elem_of_In, filter_In. split; [done|].
    apply (may_hold_ok f b); [now apply list_elem_of_In|done|done].
Qed.

(** The first file whose largest key is not before the target answers for its
    level. *)
Lemma version_level_split files n f : files !! n = Some f ->
  level_entries contents files =
  level_entries contents (take n files) ++ contents (f_number f) ++ level_entries contents (drop (S n) files).
Proof.
  intros Hn. unfold level_entries. rewrite <- (take_drop_middle files n f Hn) at 1.
  now rewrite map_app, concat_app.
Qed.

Lemma level_before files n :
  Forall (fun f => file_ok (C := C) (valid := valid) f (contents (f_number f))) files ->
  first_file (C := C) files target n ->
  forall e, e ∈ table_of (level_entries contents (take n files)) -> @Compare (InternalKeyComparator C) e.1 target < 0.
Proof.
  intros Hfs (_ & Hlt & _) e He. apply list_elem_of_fmap in He as (a & -> & Ha).
  assert (IL := internal_laws (C := C) (valid := valid)).
  apply list_elem_of_In in Ha. unfold level_entries in Ha. apply in_concat in Ha as (l & Hl & Ha).
  apply in_map_iff in Hl as (f & <- & Hf). apply list_elem_of_In, list_elem_of_lookup in Hf as [j Hj].
  apply lookup_take_Some in Hj as [Hj Hjn]. rewrite Forall_lookup in Hfs. specialize (Hfs j f Hj).
  destruct (file_entry f a Hfs Ha) as ([Oa Va] & _ & Hle). destruct (file_bounds f Hfs) as (_ & Vl & _).
  destruct (target_extract (valid := valid) key s Hkey Hs) as (_ & _ & Vt).
  apply (@Compare_le_lt_trans _ _ IL _ (f_largest f)); [|done|done|done|now apply (Hlt j)].
  apply internal_valid_Put; [now apply tag_range|done].
Qed.

Lemma table_of_app l1 l2 : table_of (l1 ++ l2) = table_of l1 ++ table_of l2.
Proof. apply map_app. Qed.

Lemma level_first files n f :
  Forall (fun f => file_ok (C := C) (valid := valid) f (contents (f_number f))) files ->
  first_file (C := C) files target n -> files !! n = Some f ->
  exists a, In a (contents (f_number f)) /\
    table_of (contents (f_number f)) !! first_ge (InternalKeyComparator C) target (table_of (contents (f_number f)))
      = Some (ikey_of a, a_value a) /\
    table_of (level_entries contents files) !!
      first_ge (InternalKeyComparator C) target (table_of (level_entries contents files)) = Some (ikey_of a, a_value a).
Proof.
  intros Hfs Hff Hn. pose proof (level_before files n Hfs Hff) as Hb.
  pose proof Hfs as Hfs'. rewrite Forall_lookup in Hfs'. specialize (Hfs' n f Hn).
  destruct (file_bounds f Hfs') as (_ & _ & y & Hy & El).
  destruct Hff as (_ & _ & Hge). specialize (Hge n f (Nat.le_refl n) Hn). rewrite El in Hge.
  destruct (table_of (contents (f_number f)) !! first_ge (InternalKeyComparator C) target (table_of (contents (f_number f))))
    as [e|] eqn:E.
  - pose proof (list_elem_of_lookup_2 _ _ _ E) as He. apply list_elem_of_fmap in He as (a & -> & Ha).
    exists a. split; [now apply list_elem_of_In|]. split; [done|].
    rewrite (version_level_split files n f Hn), !table_of_app, first_ge_app by done. now apply first_ge_front.
  - exfalso. assert (Hlt : icmp (ikey_of y) target < 0); [|lia].
    apply (first_ge_None (InternalKeyComparator C) target _ E (ikey_of y, a_value y)).
    unfold table_of. change (ikey_of y, a_value y) with ((fun a => (ikey_of a, a_value a)) y).
    apply list_elem_of_fmap_2. now apply list_elem_of_In.
Qed.

Lemma level_answer files n f found :
  Forall (fun f => file_ok (C := C) (valid := valid) f (contents (f_number f))) files ->
  first_file (C := C) files target n -> files !! n = Some f ->
  table_answer (C := C) (table_of (contents (f_number f))) target found ->
  table_answer (C := C) (table_of (level_entries contents files)) target found.
Proof.
  intros Hfs Hff Hn [H1 H2]. destruct (level_first files n f Hfs Hff Hn) as (a & _ & E1 & E2).
  unfold table_answer. rewrite E2. rewrite E1 in H1, H2. now split.
Qed.

(** Nothing is to be found when no file reaches the target, or when the file
    that does starts behind the key. *)
Lemma level_none files n :
  Forall (fun f => file_ok (C := C) (valid := valid) f (contents (f_number f))) files ->
  first_file (C := C) files target n ->
  match files !! n with None => True | Some f => Compare key (ExtractUserKey (f_smallest f)) < 0 end ->
  table_answer (C := C) (table_of (level_entries contents files)) target None.
Proof.
  intros Hfs Hff Hn. split; [done|]. intros e He Hk. exfalso.
  rewrite (proj1 (target_extract (valid := valid) key s Hkey Hs)) in Hk.
  destruct (files !! n) as [f|] eqn:Ef.
  - destruct (level_first files n f Hfs Hff Ef) as (a & Ha & _ & E2). rewrite E2 in He. injection He as <-.
    pose proof Hfs as Hfs'. rewrite Forall_lookup in Hfs'. specialize (Hfs' n f Ef).
    destruct (file_entry f a Hfs' Ha) as ([Oa Va] & H1 & _). destruct (file_bounds f Hfs') as ([_ Vs] & _).
    apply internal_compare_le in H1. destruct (ikey_extract a Oa) as [E _]. cbn [fst] in Hk. rewrite E in H1, Hk.
    pose proof (Compare_lt_le_trans key _ (a_key a) Hkey Vs Va Hn). lia.
  - pose proof (level_before files n Hfs Hff) as Hb. apply lookup_ge_None in Ef. rewrite take_ge in Hb by done.
    now rewrite first_ge_all in He.
Qed.

Lemma by_largest_ok files :
  Forall (fun f => file_ok (C := C) (valid := valid) f (contents (f_number f))) files ->
  StronglySorted (fun f g => icmp (f_largest f) (f_smallest g) < 0) files -> by_largest (C := C) (valid := valid) files.
Proof.
  intros Hfs Hsort. assert (IL := internal_laws (C := C) (valid := valid)). split.
  - eapply Forall_impl; [exact Hfs|]. intros f Hf. now apply (file_bounds f).
  - induction Hsort as [|f fs Hsort IH Hf]; constructor; apply Forall_cons in Hfs as [Hof Hfs]; [now apply IH|].
    apply Forall_forall. intros g Hg. rewrite Forall_forall in Hf, Hfs.
    destruct (file_bounds f Hof) as (_ & Vl & _). specialize (Hfs g Hg).
    destruct (file_bounds g Hfs) as (Vs & Vg & y & Hy & Ey). destruct (file_entry g y Hfs Hy) as (_ & Hgs & _).
    rewrite <- Ey in Hgs. apply (@Compare_lt_le_trans _ _ IL _ (f_smallest g)); [done|done|done|now apply Hf|done].
Qed.

(** A level above 0. *)
Lemma level_ok m st level : (1 <= level)%nat -> st_is (S m) st Miss -> level_files v level <> [] ->
  exists index, FindFile C (level_files v level) target = Some index /\
  exists r st', match level_files v level !! Z.to_nat index with
                | None => Some (true, st)
                | Some f => if Compare key (ExtractUserKey (f_smallest f)) <? 0 then Some (true, st)
                            else Match C st level f
                end = Some (is_miss r, st') /\ st_is m st' r /\
    gspec (level_entries contents (level_files v level)) key s r.
Proof.
  intros Hl Hst Hne.
  assert (Hfs : Forall (fun f => file_ok (C := C) (valid := valid) f (contents (f_number f))) (level_files v level)).
  { apply Forall_forall. intros f Hf. now apply (vo_files _ _ Hv level). }
  pose proof (vo_sorted _ _ Hv level Hl) as Hsort. destruct (level_sorted _ Hfs Hsort) as [Hes Hev].
  destruct (target_extract (valid := valid) key s Hkey Hs) as (_ & _ & Vt).
  destruct (FindFile_ok _ target (by_largest_ok _ Hfs Hsort) Vt (vo_length _ _ Hv level)) as (n & -> & Hff).
  eexists. split; [reflexivity|]. rewrite Nat2Z.id.
  assert (Hnone : table_answer (C := C) (table_of (level_entries contents (level_files v level))) target None ->
    exists r st', Some (true, st) = Some (is_miss r, st') /\ st_is m st' r /\
      gspec (level_entries contents (level_files v level)) key s r).
  { intros Ha. exists Miss, st. split; [done|]. split; [apply (st_is_less m (S m)); [lia|done]|].
    destruct (table_answer_get key s Hkey Hs _ None v0 Hev Hes Ha) as (r & Hr & E). now destruct r. }
  pose proof (level_none _ n Hfs Hff) as Hno. destruct (level_files v level !! n) as [f|] eqn:Ef; [|now apply Hnone, Hno].
  destruct (Z.ltb_spec (Compare key (ExtractUserKey (f_smallest f))) 0); [now apply Hnone, Hno|].
  apply (Match_ok m st level f); [done| |done|done|].
  - apply (Htables level). apply list_elem_of_lookup. now exists n.
  - intros found. now apply (level_answer _ n f).
Qed.

(** The entries of [n] levels from [level] on. *)
Definition entries_from (level n : nat) : list added :=
  concat (map (fun i => level_entries contents (level_files v i)) (seq level n)).

Lemma in_level a files : In a (level_entries contents files) -> exists f, f ∈ files /\ In a (contents (f_number f)).
Proof.
  intros Ha. unfold level_entries in Ha. apply in_concat in Ha as (l & Hl & Ha). apply in_map_iff in Hl as (f & <- & Hf).
  exists f. split; [now apply list_elem_of_In|done].
Qed.

Lemma level_newer level n :
  newer (C := C) key (level_entries contents (level_files v level)) (entries_from (S level) n).
Proof.
  intros a b (f & Hf & Ha)%in_level Hb. unfold entries_from in Hb. apply in_concat in Hb as (l & Hl & Hb).
  apply in_map_iff in Hl as (j & <- & Hj). apply in_level in Hb as (g & Hg & Hb).
  apply list_elem_of_In, elem_of_seq in Hj. apply (vo_deeper _ _ Hv level j f g key); [done|lia|done|done|done|done].
Qed.

Lemma for_levels_ok m n level st : (1 <= level)%nat -> st_is (n + m) st Miss ->
  exists r st', for_levels C (Match C) n level v key target st = Some (is_miss r, st') /\ st_is m st' r /\
    gspec (entries_from level n) key s r.
Proof.
  revert level st. induction n as [|n IH]; intros level st Hl Hst; cbn [for_levels].
  { exists Miss, st. split; [done|]. split; [done|]. apply get_spec_nil. }
  pose proof (level_newer level n) as Hnew. unfold entries_from at 1. cbn [seq map concat].
  fold (entries_from (S level) n).
  destruct (level_files v level) as [|f0 fs] eqn:El; [apply IH; [lia|apply (st_is_less _ (S n + m)); [lia|done]]|]. rewrite <- El in *.
  destruct (level_ok (n + m) st level Hl Hst) as (index & -> & r & st1 & E & Hst1 & Hr); [now rewrite El|].
  assert (Hgo : forall st1, st_is (n + m) st1 Miss -> gspec (level_entries contents (level_files v level)) key s Miss ->
    exists r st', for_levels C (Match C) n (S level) v key target st1 = Some (is_miss r, st') /\ st_is m st' r /\
      gspec (level_entries contents (level_files v level) ++ entries_from (S level) n) key s r).
  { intros st2 Hst2 Hm. destruct (IH (S level) st2 ltac:(lia) Hst2) as (r2 & st' & E2 & Hst' & Hr2).
    exists r2, st'. split; [done|]. split; [done|]. now apply (get_spec_app key s _ _ Miss r2). }
  destruct (level_files v level !! Z.to_nat index) as [f|].
  2:{ destruct r; try done. injection E as <-. now apply Hgo. }
  destruct (Compare key (ExtractUserKey (f_smallest f)) <? 0).
  { destruct r; try done. injection E as <-. now apply Hgo. }
  rewrite E. destruct r as [|x|]; cbn [is_miss].
  - now apply Hgo.
  - exists (Found x), st1. split; [done|]. split; [apply (st_is_less m (n + m)); [lia|done]|]. now apply get_spec_stop.
  - exists Deleted, st1. split; [done|]. split; [apply (st_is_less m (n + m)); [lia|done]|]. now apply get_spec_stop.
Qed.

(** The status and the value a lookup ends with. *)
Definition outcome (r : get_result) : Status * list Z :=
  match r with
  | Found x => (OK, x)
  | _ => (NotFound ""%string, v0)
  end.

Lemma entries_levels : version_entries contents v = entries_from 0 kNumLevels.
Proof.
  unfold version_entries, entries_from, level_files. rewrite <- (vo_levels _ _ Hv). f_equal.
  generalize (files_ v). clear. intros l. induction l as [|x l IH] using rev_ind; [done|].
  rewrite map_app, length_app. cbn [length map]. rewrite Nat.add_1_r, seq_S, map_app. cbn [map]. f_equal.
  - rewrite IH. apply map_ext_in. intros i Hi. apply in_seq in Hi. now rewrite lookup_app_l by lia.
  - rewrite Nat.add_0_l, lookup_app_r, Nat.sub_diag by lia. done.
Qed.

(** The most tables one lookup tries. *)
Definition most_tables : nat := length (level_files v 0) + (kNumLevels - 1).

Lemma Version_Get_ok m : tc_ok (most_tables + m) t0 ->
  exists r stats t', Version_Get C v (make_LookupKey key s) t0 v0 =
      Some (fst (outcome r), snd (outcome r), stats, t') /\
    get_spec (C := C) (version_entries contents v) key s r /\
    tc_ok m t' /\ (forall n m, tc_table t' n m = tc_table t0 n m).
Proof.
  intros Hok. unfold Version_Get.
  assert (Ek : lookup_user_key (make_LookupKey key s) = key).
  { unfold lookup_user_key, make_LookupKey. cbn [kdata]. rewrite length_app, length_EncodeFixed64, Nat.add_sub.
    apply take_app_length. }
  rewrite Ek. set (st := MkGetState _ _ _ _ _ _ _ _).
  assert (Hst : st_is (length (level_files v 0) + (kNumLevels - 1 + m)) st Miss).
  { unfold st_is, st. rewrite Nat.add_assoc. do 4 (split; [done|]). done. }
  clearbody st. unfold ForEachOverlapping. destruct (level0_ok _ st Hst) as (r & st1 & -> & Hst1 & Hr).
  pose proof (level_newer 0 (kNumLevels - 1)) as Hnew. rewrite entries_levels.
  change (entries_from 0 kNumLevels) with
    (level_entries contents (level_files v 0) ++ entries_from 1 (kNumLevels - 1)).
  assert (Hend : forall st r', st_is m st r' -> exists stats t',
    Some (if gs_found st then gs_s st else NotFound ""%string, sv_value (gs_saver st), gs_stats st, gs_cache st) =
      Some (fst (outcome r'), snd (outcome r'), stats, t') /\ tc_ok m t' /\ (forall n m, tc_table t' n m = tc_table t0 n m)).
  { intros st2 r' (E1 & _ & E3 & E4 & Hok2 & Htab). exists (gs_stats st2), (gs_cache st2). split; [|done].
    rewrite E1, E3, E4. now destruct r'. }
  destruct r as [|x|]; cbn [is_miss].
  - destruct (for_levels_ok m (kNumLevels - 1) 1 st1 ltac:(lia) Hst1) as (r2 & st2 & -> & Hst2 & Hr2).
    destruct (Hend st2 r2 Hst2) as (stats & t' & E & H1 & H2). exists r2, stats, t'.
    split; [done|]. split; [now apply (get_spec_app key s _ _ Miss r2)|done].
  - destruct (Hend st1 _ (st_is_less m (kNumLevels - 1 + m) _ _ ltac:(lia) Hst1)) as (stats & t' & E & H1 & H2). exists (Found x), stats, t'.
    split; [done|]. split; [now apply get_spec_stop|done].
  - destruct (Hend st1 _ (st_is_less m (kNumLevels - 1 + m) _ _ ltac:(lia) Hst1)) as (stats & t' & E & H1 & H2). exists Deleted, stats, t'.
    split; [done|]. split; [now apply get_spec_stop|done].
Qed.

End Lookup.

End Version.
