(* ===== verification/LvFilename.v ===== *)
(** * leveldb: file names (db/filename.cc, util/logging.cc)

    The names of the files of a database, the parser that recognises them when a
    directory is listed, and the decimal numbers in them.  Strings are lists of
    bytes. *)
From Stdlib Require Import ZArith Lia Bool List String Ascii.
From stdpp Require Import base list numbers.
From S2P Require Import Prelude LvCoding LvComparator.

(** The bytes of a string literal. *)
Definition str (s : string) : list Z := map (fun c => Z.of_N (N_of_ascii c)) (list_ascii_of_string s).
Arguments str s%_string.

(** ** Numbers (util/logging.cc) *)

(** The decimal digits of a number below 2^64, of which there are at most 20. *)
Fixpoint decimal_loop (fuel : nat) (num : Z) (acc : list Z) : list Z :=
  match fuel with
  | O => acc
  | S fuel =>
      let acc := (48 + num mod 10) :: acc in
      if num / 10 =? 0 then acc else decimal_loop fuel (num / 10) acc
  end.
Definition decimal (num : Z) : list Z := decimal_loop 20 num [].

Definition AppendNumberTo (s : list Z) (num : Z) : list Z := s ++ decimal num.
Definition NumberToString (num : Z) : list Z := AppendNumberTo [] num.

Definition hex_digit (n : Z) : Z := if n <? 10 then 48 + n else 87 + n.

Definition escaped (c : Z) : list Z :=
  if (32 <=? s8 c) && (s8 c <=? 126) then [c]
  else str "\x" ++ [hex_digit (Z.shiftr c 4); hex_digit (Z.land c 15)].

Definition AppendEscapedStringTo (s value : list Z) : list Z := s ++ concat (map escaped value).
Definition EscapeString (value : list Z) : list Z := AppendEscapedStringTo [] value.

Definition kMaxUint64 : Z := 2 ^ 64 - 1.

(** The loop of [ConsumeDecimalNumber]: nothing is an overflow; otherwise the
    value, what is left of the input, and the number of digits. *)
Fixpoint consume_digits (input : list Z) (value : Z) (digits : nat) : option (Z * list Z * nat) :=
  match input with
  | [] => Some (value, [], digits)
  | ch :: rest =>
      if (ch <? 48) || (57 <? ch) then Some (value, input, digits)
      else if (kMaxUint64 / 10 <? value) || ((value =? kMaxUint64 / 10) && (48 + kMaxUint64 mod 10 <? ch)) then None
      else consume_digits rest (u64 (value * 10 + (ch - 48))) (S digits)
  end.

Definition ConsumeDecimalNumber (input : list Z) : option (Z * list Z) :=
  match consume_digits input 0 0 with
  | None => None
  | Some (value, rest, digits) => if (digits =? 0)%nat then None else Some (value, rest)
  end.

(** ** Names (db/filename.cc) *)

Inductive FileType := kLogFile | kDBLockFile | kTableFile | kDescriptorFile | kCurrentFile | kTempFile | kInfoLogFile.

(** [%06llu] *)
Definition padded (number : Z) : list Z :=
  let d := decimal number in replicate (6 - length d) 48 ++ d.

Definition MakeFileName (dbname : list Z) (number : Z) (suffix : list Z) : list Z :=
  dbname ++ str "/" ++ padded number ++ str "." ++ suffix.

Definition LogFileName (dbname : list Z) (number : Z) : list Z := MakeFileName dbname number (str "log").
Definition TableFileName (dbname : list Z) (number : Z) : list Z := MakeFileName dbname number (str "ldb").
Definition SSTTableFileName (dbname : list Z) (number : Z) : list Z := MakeFileName dbname number (str "sst").
Definition DescriptorFileName (dbname : list Z) (number : Z) : list Z :=
  dbname ++ str "/MANIFEST-" ++ padded number.
Definition CurrentFileName (dbname : list Z) : list Z := dbname ++ str "/CURRENT".
Definition LockFileName (dbname : list Z) : list Z := dbname ++ str "/LOCK".
Definition TempFileName (dbname : list Z) (number : Z) : list Z := MakeFileName dbname number (str "dbtmp").
Definition InfoLogFileName (dbname : list Z) : list Z := dbname ++ str "/LOG".
Definition OldInfoLogFileName (dbname : list Z) : list Z := dbname ++ str "/LOG.old".

(** The number and type of a name without its directory. *)
Definition ParseFileName (filename : list Z) : option (Z * FileType) :=
  let rest := filename in
  if decide (rest = str "CURRENT") then Some (0, kCurrentFile)
  else if decide (rest = str "LOCK") then Some (0, kDBLockFile)
  else if decide (rest = str "LOG" \/ rest = str "LOG.old") then Some (0, kInfoLogFile)
  else if starts_with rest (str "MANIFEST-") then
    match ConsumeDecimalNumber (drop 9 rest) with
    | None => None
    | Some (num, rest) => match rest with [] => Some (num, kDescriptorFile) | _ => None end
    end
  else
    match ConsumeDecimalNumber rest with
    | None => None
    | Some (num, suffix) =>
        if decide (suffix = str ".log") then Some (num, kLogFile)
        else if decide (suffix = str ".sst" \/ suffix = str ".ldb") then Some (num, kTableFile)
        else if decide (suffix = str ".dbtmp") then Some (num, kTempFile)
        else None
    end.

(** ** Digits *)

Definition is_digit (c : Z) : Prop := 48 <= c <= 57.

(** The value of a string of digits. *)
Definition digits_value (acc : Z) (l : list Z) : Z := fold_left (fun v c => v * 10 + (c - 48)) l acc.

Lemma digits_value_app acc a b : digits_value acc (a ++ b) = digits_value (digits_value acc a) b.
Proof. apply fold_left_app. Qed.

Lemma digits_value_mono l acc : Forall is_digit l -> 0 <= acc -> acc <= digits_value acc l.
Proof.
  revert acc. induction l as [|c l IH]; intros acc Hl Ha; [done|]. apply List.Forall_cons_iff in Hl as [Hc Hl].
  unfold is_digit in Hc. cbn [digits_value fold_left]. specialize (IH (acc * 10 + (c - 48)) Hl ltac:(lia)).
  unfold digits_value in IH. lia.
Qed.

(** The scanner computes the value of the longest prefix of digits, or reports
    that it does not fit 64 bits. *)
Lemma consume_digits_ok ds rest value n :
  Forall is_digit ds -> match rest with [] => True | c :: _ => ~ is_digit c end -> 0 <= value < 2 ^ 64 ->
  consume_digits (ds ++ rest) value n =
    if digits_value value ds <? 2 ^ 64 then Some (digits_value value ds, rest, (n + length ds)%nat) else None.
Proof.
  revert value n. induction ds as [|c ds IH]; intros value n Hds Hr Hv.
  - simpl. destruct (Z.ltb_spec value (2 ^ 64)); [|lia]. rewrite Nat.add_0_r.
    destruct rest as [|c rest]; [done|]. simpl. unfold is_digit in Hr.
    destruct (Z.ltb_spec c 48), (Z.ltb_spec 57 c); simpl; try done. lia.
  - apply List.Forall_cons_iff in Hds as [Hc Hds]. pose proof Hc as Hc'. unfold is_digit in Hc.
    cbn [app consume_digits]. destruct (Z.ltb_spec c 48), (Z.ltb_spec 57 c); try lia. cbn [orb].
    cbn [digits_value fold_left]. fold (digits_value (value * 10 + (c - 48)) ds).
    assert (Emax : kMaxUint64 / 10 = 1844674407370955161 /\ kMaxUint64 mod 10 = 5) by (split; reflexivity).
    destruct Emax as [-> ->].
    destruct (Z.ltb_spec 1844674407370955161 value) as [Hbig|Hsm]; cbn [orb].
    { pose proof (digits_value_mono ds (value * 10 + (c - 48)) Hds ltac:(lia)).
      destruct (Z.ltb_spec (digits_value (value * 10 + (c - 48)) ds) (2 ^ 64)); [|done]. zpow. lia. }
    destruct (Z.eqb_spec value 1844674407370955161), (Z.ltb_spec (48 + 5) c); cbn [andb].
    { pose proof (digits_value_mono ds (value * 10 + (c - 48)) Hds ltac:(lia)).
      destruct (Z.ltb_spec (digits_value (value * 10 + (c - 48)) ds) (2 ^ 64)); [|done]. zpow. lia. }
    all: rewrite wrapu_small by (zpow; lia); rewrite IH by (try done; zpow; lia); simpl length;
      now rewrite Nat.add_succ_r.
Qed.

Lemma Consume_digits ds rest : ds <> [] ->
  Forall is_digit ds -> match rest with [] => True | c :: _ => ~ is_digit c end ->
  ConsumeDecimalNumber (ds ++ rest) =
    if digits_value 0 ds <? 2 ^ 64 then Some (digits_value 0 ds, rest) else None.
Proof.
  intros Hne Hds Hr. unfold ConsumeDecimalNumber. rewrite consume_digits_ok by (try done; zpow; lia).
  destruct (_ <? _); [|done]. destruct ds; [done|]. done.
Qed.

Lemma decimal_loop_ok fuel num acc : 0 <= num < 10 ^ Z.of_nat fuel -> Forall is_digit acc -> (0 < fuel)%nat ->
  exists ds, decimal_loop fuel num acc = ds ++ acc /\ Forall is_digit ds /\ ds <> [] /\ digits_value 0 ds = num.
Proof.
  revert num acc. induction fuel as [|fuel IH]; intros num acc Hn Ha Hf; [lia|]. cbn [decimal_loop].
  pose proof (Z.mod_pos_bound num 10 ltac:(lia)) as Hm. pose proof (Z.div_mod num 10 ltac:(lia)) as Hd.
  assert (Hdig : is_digit (48 + num mod 10)) by (unfold is_digit; lia).
  destruct (Z.eqb_spec (num / 10) 0) as [E|E].
  - exists [48 + num mod 10]. split; [done|]. split; [now apply Forall_singleton|]. split; [done|].
    simpl. lia.
  - rewrite Nat2Z.inj_succ, Z.pow_succ_r in Hn by lia.
    assert (Hq : 0 <= num / 10 < 10 ^ Z.of_nat fuel).
    { split; [apply Z.div_pos; lia|apply Z.div_lt_upper_bound; lia]. }
    assert (0 < fuel)%nat by (destruct fuel; [simpl in Hq; lia|lia]).
    destruct (IH (num / 10) ((48 + num mod 10) :: acc) Hq) as (ds & E1 & E2 & E3 & E4); [now constructor|done|].
    exists (ds ++ [48 + num mod 10]). rewrite E1, <- app_assoc. split; [done|].
    split; [apply Forall_app; split; [done|now apply Forall_singleton]|]. split; [now destruct ds|].
    rewrite digits_value_app, E4. simpl. lia.
Qed.

Lemma decimal_ok num : 0 <= num < 2 ^ 64 ->
  Forall is_digit (decimal num) /\ decimal num <> [] /\ digits_value 0 (decimal num) = num.
Proof.
  intros Hn. destruct (decimal_loop_ok 20 num []) as (ds & E & H1 & H2 & H3);
    [change (10 ^ Z.of_nat 20) with 100000000000000000000; zpow; lia|constructor|lia|].
  unfold decimal. rewrite E, app_nil_r. done.
Qed.

Lemma padded_ok num : 0 <= num < 2 ^ 64 ->
  Forall is_digit (padded num) /\ padded num <> [] /\ digits_value 0 (padded num) = num.
Proof.
  intros Hn. destruct (decimal_ok num Hn) as (H1 & H2 & H3). unfold padded. split; [|split].
  - apply Forall_app. split; [apply Forall_replicate; unfold is_digit; lia|done].
  - destruct (decimal num); [done|]. intros E. apply app_eq_nil in E as [_ ?]. done.
  - rewrite digits_value_app.
    replace (digits_value 0 (replicate (6 - length (decimal num)) 48)) with 0; [done|].
    induction (6 - length (decimal num))%nat as [|k IH]; [done|]. exact IH.
Qed.

(** ** Names that the parser recognises *)

(** The files of a database with their names, without the directory. *)
Inductive db_file :=
  | DbLog (n : Z) | DbTable (n : Z) | DbOldTable (n : Z) | DbDescriptor (n : Z) | DbTemp (n : Z)
  | DbCurrent | DbLock | DbInfoLog | DbOldInfoLog.

Definition db_file_name (dbname : list Z) (f : db_file) : list Z :=
  match f with
  | DbLog n => LogFileName dbname n
  | DbTable n => TableFileName dbname n
  | DbOldTable n => SSTTableFileName dbname n
  | DbDescriptor n => DescriptorFileName dbname n
  | DbTemp n => TempFileName dbname n
  | DbCurrent => CurrentFileName dbname
  | DbLock => LockFileName dbname
  | DbInfoLog => InfoLogFileName dbname
  | DbOldInfoLog => OldInfoLogFileName dbname
  end.

Definition db_file_type (f : db_file) : Z * FileType :=
  match f with
  | DbLog n => (n, kLogFile)
  | DbTable n | DbOldTable n => (n, kTableFile)
  | DbDescriptor n => (n, kDescriptorFile)
  | DbTemp n => (n, kTempFile)
  | DbCurrent => (0, kCurrentFile)
  | DbLock => (0, kDBLockFile)
  | DbInfoLog | DbOldInfoLog => (0, kInfoLogFile)
  end.

(** A name that begins with a digit is none of the fixed names. *)
Lemma ParseFileName_number ds suffix : ds <> [] -> Forall is_digit ds -> digits_value 0 ds < 2 ^ 64 ->
  match suffix with [] => True | c :: _ => ~ is_digit c end ->
  ParseFileName (ds ++ suffix) =
    if decide (suffix = str ".log") then Some (digits_value 0 ds, kLogFile)
    else if decide (suffix = str ".sst" \/ suffix = str ".ldb") then Some (digits_value 0 ds, kTableFile)
    else if decide (suffix = str ".dbtmp") then Some (digits_value 0 ds, kTempFile)
    else None.
Proof.
  intros Hne Hds Hlt Hsuf. unfold ParseFileName. rewrite Consume_digits by done.
  destruct (Z.ltb_spec (digits_value 0 ds) (2 ^ 64)); [|lia].
  destruct ds as [|c ds]; [done|]. apply List.Forall_cons_iff in Hds as [Hc _]. unfold is_digit in Hc.
  assert (Hne' : forall a l, ~ 48 <= a <= 57 -> (c :: ds) ++ suffix <> a :: l) by (intros a l Ha [= -> _]; lia).
  destruct (decide ((c :: ds) ++ suffix = str "CURRENT")) as [E|_]; [now apply Hne' in E|].
  destruct (decide ((c :: ds) ++ suffix = str "LOCK")) as [E|_]; [now apply Hne' in E|].
  destruct (decide ((c :: ds) ++ suffix = str "LOG" \/ (c :: ds) ++ suffix = str "LOG.old")) as [[E|E]|_];
    [now apply Hne' in E|now apply Hne' in E|].
  assert (Es : starts_with ((c :: ds) ++ suffix) (str "MANIFEST-") = false).
  { unfold starts_with. apply andb_false_iff. right. apply Z.eqb_neq.
    change (str "MANIFEST-") with [77; 65; 78; 73; 70; 69; 83; 84; 45]. cbn [length app take memcmp].
    destruct (Z.ltb_spec c 77); lia. }
  now rewrite Es.
Qed.

Lemma descriptor_parses dbname n : 0 <= n < 2 ^ 64 ->
  exists rest, DescriptorFileName dbname n = dbname ++ str "/" ++ rest /\ ParseFileName rest = Some (n, kDescriptorFile).
Proof.
  intros Hn. destruct (padded_ok n Hn) as (H1 & H2 & H3).
  exists (str "MANIFEST-" ++ padded n). split; [reflexivity|]. unfold ParseFileName.
  rewrite (decide_False (P := _ = str "CURRENT")), (decide_False (P := _ = str "LOCK")) by done.
  rewrite (decide_False (P := _ = str "LOG" \/ _)) by (now intros [E|E]).
  change (starts_with (str "MANIFEST-" ++ padded n) (str "MANIFEST-")) with true. cbv iota.
  change (drop 9 (str "MANIFEST-" ++ padded n)) with (padded n).
  rewrite <- (app_nil_r (padded n)), Consume_digits by done. rewrite H3.
  destruct (Z.ltb_spec n (2 ^ 64)); [done|lia].
Qed.

Lemma file_name_parses dbname f :
  (forall n t, db_file_type f = (n, t) -> 0 <= n < 2 ^ 64) ->
  exists rest, db_file_name dbname f = dbname ++ str "/" ++ rest /\ ParseFileName rest = Some (db_file_type f).
Proof.
  intros Hf. destruct f as [n|n|n|n|n| | | |].
  1,2,3,5: specialize (Hf n _ eq_refl); destruct (padded_ok n Hf) as (H1 & H2 & H3);
    eexists (padded n ++ _); (split; [reflexivity|]); rewrite ParseFileName_number by (try done; try lia; unfold is_digit; simpl; lia);
    rewrite H3; reflexivity.
  1: now apply descriptor_parses, (Hf n kDescriptorFile).
  all: eexists; split; reflexivity.
Qed.

(** Names of different files differ. *)
Lemma file_name_inj dbname f g :
  (forall n t, db_file_type f = (n, t) -> 0 <= n < 2 ^ 64) -> (forall n t, db_file_type g = (n, t) -> 0 <= n < 2 ^ 64) ->
  db_file_name dbname f = db_file_name dbname g -> db_file_type f = db_file_type g.
Proof.
  intros Hf Hg E. destruct (file_name_parses dbname f Hf) as (r1 & E1 & P1).
  destruct (file_name_parses dbname g Hg) as (r2 & E2 & P2). rewrite E1, E2 in E.
  apply app_inv_head, app_inv_head in E. subst r2. rewrite P1 in P2. now injection P2.
Qed.
