(* ===== verification/LvTableCache.v ===== *)
(** * leveldb: the table cache (db/table_cache.cc)

    Opens the table file of a number on demand, keeps the open tables in a
    cache, and looks keys up in them.  It implements the interface that a
    version uses. *)
From Stdlib Require Import ZArith Lia Bool List Sorted.
From stdpp Require Import base list numbers sorting.
From S2P Require Import Prelude LvCoding LvEnv LvLog LvComparator LvDbFormat LvBlock LvBlockProps LvFilter LvFilterProps.
From S2P Require Import LvFormat LvTable LvTableProps LvTableRead LvFilename LvMemTable LvMemTableProps LvVersion LvVersionProps.

(** ** Environments that open files *)

Class Env (E F : Type) := {
  env_NewRandomAccessFile : E -> list Z -> Status * option F;
}.

Section TableCache.
Context {E F : Type} {EV : Env E F} {RF : RandomAccessFile F}.
(** The cache of open tables and the cache of blocks. *)
Context {K B : Type} {KC : Cache (Table F) K} {BC : Cache Block B}.
Context (C : Comparator) (options : Options).
(** [ReadOptions] *)
Context (verify_checksums fill_cache : bool).

Record TableCache := MkTableCache {
  env_ : E;
  dbname_ : list Z;
  cache_ : K;
  block_cache_ : option B;
}.

Definition set_caches (tc : TableCache) (cache : K) (blocks : option B) : TableCache :=
  MkTableCache (env_ tc) (dbname_ tc) cache blocks.

(** [FindTable]: the handle is the table, which stays in use until the caller
    is done with it. *)
Definition FindTable (tc : TableCache) (file_number file_size : Z) : option (Status * option (Table F) * TableCache) :=
  let key := EncodeFixed64 file_number in
  let '(handle, cache) := cache_Lookup (cache_ tc) key in
  let tc := set_caches tc cache (block_cache_ tc) in
  match handle with
  | Some t => Some (OK, Some t, tc)
  | None =>
      let fname := TableFileName (dbname_ tc) file_number in
      let '(s, file) := env_NewRandomAccessFile (env_ tc) fname in
      let '(s, file) :=
        if negb (ok s) then
          let old_fname := SSTTableFileName (dbname_ tc) file_number in
          let '(s', file') := env_NewRandomAccessFile (env_ tc) old_fname in
          if ok s' then (OK, file') else (s, file)
        else (s, file) in
      match s, file with
      | OK, Some file =>
          match Open options file file_size (block_cache_ tc) with
          | None => None
          | Some (s, table, blocks) =>
              match ok s, table with
              | true, Some t =>
                  Some (s, Some t, set_caches tc (cache_Insert (cache_ tc) key t 1) blocks)
              | _, _ => Some (s, None, set_caches tc (cache_ tc) blocks)
              end
          end
      | s, _ => Some (s, None, tc)
      end
  end.

Definition TableCache_Get (tc : TableCache) (file_number file_size : Z) (k : list Z)
    : option (Status * option (list Z * list Z) * TableCache) :=
  match FindTable tc file_number file_size with
  | None => None
  | Some (s, Some t, tc) =>
      match InternalGet C options t verify_checksums fill_cache k (block_cache_ tc) with
      | None => None
      | Some (s, found, blocks) => Some (s, found, set_caches tc (cache_ tc) blocks)
      end
  | Some (s, None, tc) => Some (s, None, tc)
  end.

Definition Evict (tc : TableCache) (file_number : Z) : TableCache :=
  set_caches tc (cache_Erase (cache_ tc) (EncodeFixed64 file_number)) (block_cache_ tc).

End TableCache.
Arguments TableCache : clear implicits.

(** ** Internal keys as the keys of tables *)

Section InternalKeys.
Context (C : Comparator) (valid : list Z -> Prop) {CL : ComparatorLaws C valid}.
Notation IC := (InternalKeyComparator C).

(** Keys of tables, and the keys that a lookup takes for the same. *)
Definition kvalid (k : list Z) : Prop := internal_valid valid k /\ is_bytes k.
Definition same_user (k k' : list Z) : Prop := @Compare C (ExtractUserKey k) (ExtractUserKey k') = 0.

Context (valid_bytes : forall k, valid k -> is_bytes k).

Lemma kvalid_Put k v : valid k -> 0 <= v < 2 ^ 64 -> kvalid (PutFixed64 k v).
Proof.
  intros Hk Hv. split; [now apply internal_valid_Put|]. unfold PutFixed64. apply is_bytes_app.
  split; [now apply valid_bytes|auto with cint].
Qed.

Lemma kvalid_laws : ComparatorLaws IC kvalid.
Proof.
  assert (IL := internal_laws (C := C) (valid := valid)). split.
  - intros a b [Ha _] [Hb _]. now apply (Compare_antisym (ComparatorLaws := IL)).
  - intros a b c [Ha _] [Hb _] [Hc _]. now apply (Compare_trans (ComparatorLaws := IL)).
  - intros a b [Ha Hab] [Hb _]. split; [now apply (Separator_valid (ComparatorLaws := IL))|].
    simpl. unfold internal_separator. destruct (_ && _); [|done].
    apply kvalid_Put; [apply Separator_valid; [apply Ha|apply Hb]|apply seek_tag_range].
  - intros a b [Ha _] [Hb _]. now apply (Separator_ok (ComparatorLaws := IL)).
  - intros a b [Ha _] [Hb _]. now apply (Separator_same (ComparatorLaws := IL)).
  - intros a [Ha Hab]. split; [now apply (Successor_valid (ComparatorLaws := IL))|].
    simpl. unfold internal_successor. destruct (_ && _); [|done].
    apply kvalid_Put; [apply Successor_valid, Ha|apply seek_tag_range].
  - intros a [Ha _]. now apply (Successor_ok (ComparatorLaws := IL)).
Qed.

(** A separator does not cut the versions of a user key off: it is the last key
    before it, or its user key is before that of the key behind it. *)
Lemma separator_keeps_user start limit k :
  kvalid start -> kvalid limit -> kvalid k -> @Compare IC start limit < 0 -> same_user k limit ->
  @Compare IC k (@FindShortestSeparator IC start limit) <= 0 -> @Compare IC k start <= 0.
Proof.
  intros [[_ Vs] _] [[_ Vl] _] [[_ Vk] _] Hlt Hsame. simpl in *. unfold internal_separator. destruct (_ && _) eqn:Eq; [|done].
  intros Hle. exfalso. apply andb_true_iff in Eq as [_ Eq]. apply Z.ltb_lt in Eq.
  unfold same_user in Hsame. set (tmp := FindShortestSeparator (ExtractUserKey start) (ExtractUserKey limit)) in *.
  pose proof (Separator_valid _ _ Vs Vl) as Vt. fold tmp in Vt.
  apply internal_compare_le in Hle. rewrite (proj1 (Extract_Put tmp _ seek_tag_range)) in Hle.
  apply internal_compare_lt in Hlt as [Hlt|[Heq _]].
  - destruct (Separator_ok _ _ Vs Vl Hlt) as [_ Hsl]. fold tmp in Hsl.
    pose proof (Compare_lt_le_trans tmp _ (ExtractUserKey k) Vt Vl Vk Hsl) as H.
    rewrite (Compare_eq_sym _ _ Vk Vl Hsame) in H. pose proof (Compare_antisym _ _ Vt Vk). lia.
  - pose proof (Separator_same _ _ Vs Vl Heq) as H. fold tmp in H. lia.
Qed.

(** Options of a database: its filter policy, if any, is one for user keys that
    does not tell keys apart that compare equal. *)
Lemma internal_setting options (P : FilterPolicy) fine (PL : FilterPolicyLaws P fine) :
  (forall k k' f, valid k -> valid k' -> @Compare C k k' = 0 -> @KeyMayMatch P k f = @KeyMayMatch P k' f) ->
  1 <= block_restart_interval options ->
  filter_policy options = None \/ filter_policy options = Some (InternalFilterPolicy P) ->
  lookup_setting IC kvalid options (fun k k' => kvalid k /\ kvalid k' /\ same_user k k')
    (fun keys => fine (map ExtractUserKey keys)).
Proof.
  intros Hm Hi Hp. split; [done| | | |].
  - intros p Ep. destruct Hp as [Hp|Hp]; rewrite Hp in Ep; [done|]. injection Ep as <-. now apply internal_filter_laws.
  - intros p Ep k k' f ([[_ Vk] _] & [[_ Vk'] _] & Hs). destruct Hp as [Hp|Hp]; rewrite Hp in Ep; [done|].
    injection Ep as <-. simpl. now apply Hm.
  - now intros k [_ ?].
  - intros start limit k Vs Vl Vk Hlt (_ & _ & Hs). now apply separator_keeps_user.
Qed.

End InternalKeys.

(** ** The table cache keeps its promise *)

Section Laws.
Context {E F W : Type} {EV : Env E F} {RF : RandomAccessFile F} {RL : RandomAccessFileLaws F}.
Context {WF : WritableFile W} {WL : WritableFileLaws W}.
Context {K B : Type} {KC : Cache (Table F) K} {KL : CacheLaws (Table F) K} {BC : Cache Block B} {BL : CacheLaws Block B}.
Context (C : Comparator) (valid : list Z -> Prop) {CL : ComparatorLaws C valid} (options : Options).
Context (fine : list (list Z) -> Prop) (verify fill : bool).
Notation IC := (InternalKeyComparator C).
Notation kvalid := (kvalid valid).
Notation same_user := (fun k k' => kvalid k /\ kvalid k' /\ same_user C k k').

Context {KVL : ComparatorLaws IC kvalid}.
Hypothesis Hsetting : lookup_setting IC kvalid options same_user fine.

(** The table files of the database: for each number the file and the entries
    it was built from. *)
Context (e0 : E) (db0 : list Z) (store : Z -> option (F * list (list Z * list Z))).
Definition store_ok : Prop := forall number f es, store number = Some (f, es) ->
  0 <= number < 2 ^ 64 /\
  env_NewRandomAccessFile e0 (TableFileName db0 number) = (OK, Some f) /\
  table_entries IC kvalid fine es /\ Z.of_nat (length (ra_contents f)) < 2 ^ 32 /\
  exists w : W, written w = [] /\ ra_contents f = written (built IC options w es).
Hypothesis Hstore : store_ok.

(** A table that is open and what the cache of blocks holds for it. *)
Definition table_good (t : Table F) (es : list (list Z * list Z)) (blocks : option B) : Prop :=
  exists good, lookups_ok IC kvalid options same_user t es good /\ good blocks /\
    match blocks with Some c => 0 <= tb_cache_id t <= cache_last c | None => True end.

(** The cache of blocks has nothing under ids it has not given out, of which
    there are at least [n]. *)
Definition blocks_good (n : nat) (blocks : option B) : Prop :=
  match blocks with
  | Some c => cache_wf c /\ 0 <= cache_last c /\ cache_last c + Z.of_nat n < 2 ^ 64 /\
      forall id h, cache_last c < id < 2 ^ 64 -> cached c (EncodeFixed64 id ++ EncodeFixed64 h) = None
  | None => True
  end.

Record tcache_ok (n : nat) (tc : TableCache E K B) : Prop := {
  to_env : env_ tc = e0 /\ dbname_ tc = db0;
  to_wf : cache_wf (cache_ tc);
  to_blocks : blocks_good n (block_cache_ tc);
  to_tables number f es (t : Table F) : store number = Some (f, es) -> cached (cache_ tc) (EncodeFixed64 number) = Some t ->
    table_good t es (block_cache_ tc);
  to_ids number number' f es f' es' (t t' : Table F) : store number = Some (f, es) -> store number' = Some (f', es') ->
    number <> number' -> cached (cache_ tc) (EncodeFixed64 number) = Some t ->
    cached (cache_ tc) (EncodeFixed64 number') = Some t' ->
    match block_cache_ tc with Some _ => tb_cache_id t <> tb_cache_id t' | None => True end;
}.

Lemma Encode64_inj a b x y : 0 <= a < 2 ^ 64 -> 0 <= b < 2 ^ 64 ->
  EncodeFixed64 a ++ x = EncodeFixed64 b ++ y -> a = b.
Proof.
  intros Ha Hb Eq. apply (f_equal DecodeFixed64) in Eq. now rewrite !Fixed64_roundtrip in Eq.
Qed.

(** Another table stays good while one is looked up. *)
Lemma table_good_frame (t t' : Table F) es' c c' :
  table_good t' es' c -> cache_frame t c c' ->
  match c' with Some c' => cache_wf c' | None => True end ->
  match c with Some c => 0 <= tb_cache_id t <= cache_last c /\ tb_cache_id t <> tb_cache_id t' /\ cache_last c < 2 ^ 64
             | None => True end ->
  table_good t' es' c'.
Proof.
  intros (good & L & G & Hid) Hfr Hwf Hne. destruct c as [c|], c' as [c'|]; try done; [|now exists good].
  destruct Hfr as [Hlast Hfr]. destruct Hne as (Hr & Hne & Hmax).
  exists good. split; [done|]. split; [|now rewrite Hlast]. apply (lo_stable _ _ _ _ _ _ _ L c c' G Hwf).
  intros h. apply Hfr. intros h' Heq. unfold cache_key in Heq. apply Encode64_inj in Heq; [done|lia|lia].
Qed.

Lemma blocks_less n c : blocks_good (S n) c -> blocks_good n c.
Proof.
  destruct c as [c|]; [|done]. intros (H1 & H2 & H3 & H4). split; [done|]. split; [done|]. split; [lia|done].
Qed.

(** A lookup in a good table. *)
Lemma get_in_table n t es blocks k :
  table_good t es blocks -> blocks_good n blocks -> Forall (fun e => kvalid e.1) es -> kvalid k ->
  exists found blocks', InternalGet IC options t verify fill k blocks = Some (OK, found, blocks') /\
    table_good t es blocks' /\ blocks_good n blocks' /\ cache_frame t blocks blocks' /\
    table_answer (C := C) es k found.
Proof.
  intros (good & L & G & Hid) Hb Hes Hk.
  destruct (lo_get _ _ _ _ _ _ _ L verify fill k blocks Hk G) as (found & c' & Eg & G' & Hfr & H1 & H2).
  exists found, c'. split; [done|].
  assert (Hlast : match blocks, c' with Some c, Some c' => cache_last c' = cache_last c | None, None => True | _, _ => False end).
  { destruct blocks, c'; try done. apply Hfr. }
  split; [exists good; split; [done|]; split; [done|]; destruct blocks, c'; try done; now rewrite Hlast|].
  split.
  2:{ split; [done|]. split; [done|]. intros e He Hu. apply H2; [done|]. split; [done|]. split; [|done].
      apply list_elem_of_lookup_2 in He. rewrite Forall_forall in Hes. now apply Hes. }
  destruct blocks as [c|], c' as [c'|]; try done. destruct Hb as (Hw & H0 & Hn & Hfree).
  split; [now apply (lo_wf _ _ _ _ _ _ _ L)|]. rewrite Hlast. split; [done|]. split; [done|].
  intros id h Hi. destruct Hfr as [_ Hfr]. destruct (Hfr (EncodeFixed64 id ++ EncodeFixed64 h)) as [Eq|Eq]; [|done|].
  - intros h' Heq. unfold cache_key in Heq. apply Encode64_inj in Heq; lia.
  - rewrite Eq. now apply Hfree.
Qed.

(** The ids of other open tables differ from that of [t]. *)
Definition other_ids (number : Z) (t : Table F) (tc : TableCache E K B) : Prop :=
  forall number' f' es' t', store number' = Some (f', es') -> number <> number' ->
    cached (cache_ tc) (EncodeFixed64 number') = Some t' ->
    match block_cache_ tc with Some _ => tb_cache_id t <> tb_cache_id t' | None => True end.

Lemma Encode64_ne a b : 0 <= a < 2 ^ 64 -> 0 <= b < 2 ^ 64 -> a <> b -> EncodeFixed64 a <> EncodeFixed64 b.
Proof. intros Ha Hb Hne Eq. apply Hne, (Encode64_inj a b [] []); [done|done|now rewrite Eq]. Qed.

(** Dropping tables keeps the invariant. *)
Lemma tcache_drops n tc cache : tcache_ok n tc -> cache_wf cache ->
  (forall k, cached cache k = None \/ cached cache k = cached (cache_ tc) k) ->
  tcache_ok n (set_caches tc cache (block_cache_ tc)).
Proof.
  intros T Hwf Hc. split; [apply T|done|apply T| |]; cbn [set_caches cache_ block_cache_].
  - intros number f es t Hs Ht. destruct (Hc (EncodeFixed64 number)) as [Eq|Eq]; rewrite Eq in Ht; [done|].
    now apply (to_tables _ _ T number f).
  - intros number number' f es f' es' t t' Hs Hs' Hne Ht Ht'.
    destruct (Hc (EncodeFixed64 number)) as [Eq|Eq]; rewrite Eq in Ht; [done|].
    destruct (Hc (EncodeFixed64 number')) as [Eq'|Eq']; rewrite Eq' in Ht'; [done|].
    now apply (to_ids _ _ T number number' f es f' es').
Qed.

(** What a new id does to the cache of blocks. *)
Lemma new_id n (t : Table F) blocks blocks' :
  blocks_good (S n) blocks -> opened t blocks blocks' ->
  blocks_good n blocks' /\
  match blocks, blocks' with
  | Some c, Some c' => tb_cache_id t = cache_last c + 1 /\ cache_last c' = cache_last c + 1 /\
      (forall k, cached c' k = cached c k) /\ forall h, cached c' (cache_key t h) = None
  | None, None => True
  | _, _ => False
  end.
Proof.
  intros Hb Ho. destruct blocks as [c|]; unfold opened in Ho.
  - destruct Hb as (Hw & H0 & Hn & Hfree). destruct (NewId_law c Hw ltac:(lia)) as [E1 E2].
    rewrite E1 in Ho. simpl in Ho. injection Ho as Eid ->. split.
    + split; [now apply NewId_wf|]. rewrite E2. split; [lia|]. split; [lia|].
      intros id h Hi. rewrite NewId_keeps by done. apply Hfree. lia.
    + split; [done|]. split; [done|]. split; [intros k; now apply NewId_keeps|].
      intros h. rewrite NewId_keeps by done. unfold cache_key. rewrite Eid. apply Hfree. lia.
  - now injection Ho as _ ->.
Qed.

(** The other tables after a new id. *)
Lemma table_good_new n (t t' : Table F) es' blocks blocks' :
  blocks_good (S n) blocks -> opened t blocks blocks' -> table_good t' es' blocks ->
  table_good t' es' blocks' /\
  match blocks' with Some _ => tb_cache_id t <> tb_cache_id t' | None => True end.
Proof.
  intros Hb Ho (good & L & G & Hid). destruct (new_id n t blocks blocks' Hb Ho) as [Hb' H].
  destruct blocks as [c|], blocks' as [c'|]; try done; [|split; [now exists good|done]].
  destruct H as (E1 & E2 & Hc & _). split; [|lia]. exists good. split; [done|]. split; [|rewrite E2; lia].
  apply (lo_stable _ _ _ _ _ _ _ L c c' G); [apply Hb'|]. intros h. right. apply Hc.
Qed.

Lemma FindTable_ok n tc number f es : tcache_ok (S n) tc -> store number = Some (f, es) ->
  exists t tc', FindTable options tc number (Z.of_nat (length (ra_contents f))) = Some (OK, Some t, tc') /\
    tcache_ok n tc' /\ table_good t es (block_cache_ tc') /\ other_ids number t tc' /\
    (forall t', cached (cache_ tc') (EncodeFixed64 number) = Some t' -> t' = t).
Proof.
  intros T Hs. destruct (Hstore number f es Hs) as (Hnum & He & Hes & Hsz & w & Hw & Hf).
  unfold FindTable. pose proof (to_wf _ _ T) as Hwf.
  pose proof (Lookup_law (cache_ tc) (EncodeFixed64 number) Hwf) as H1.
  pose proof (fun k => Lookup_keeps (cache_ tc) (EncodeFixed64 number) k Hwf) as H2.
  pose proof (Lookup_wf (cache_ tc) (EncodeFixed64 number) Hwf) as H3.
  destruct (cache_Lookup (cache_ tc) (EncodeFixed64 number)) as [handle cache]. simpl in H1, H2, H3.
  pose proof (tcache_drops _ tc cache T H3 H2) as T1.
  destruct handle as [t|].
  - destruct H1 as [H1|H1]; [done|]. exists t, (set_caches tc cache (block_cache_ tc)). split; [done|]. split.
    + destruct T1 as [A1 A2 A3 A4 A5]. split; try done. now apply blocks_less.
    + split; [now apply (to_tables _ _ T number f)|]. cbn [set_caches cache_ block_cache_]. split.
      * intros number' f' es' t' Hs' Hne Ht'. cbn [set_caches cache_ block_cache_] in *.
        destruct (H2 (EncodeFixed64 number')) as [Eq|Eq]; rewrite Eq in Ht'; [done|].
        now apply (to_ids _ _ T number number' f es f' es').
      * intros t' Ht'. destruct (H2 (EncodeFixed64 number)) as [Eq|Eq]; rewrite Eq in Ht'; [done|].
        rewrite <- H1 in Ht'. now injection Ht'.
  - cbn [set_caches env_ dbname_ cache_ block_cache_]. destruct (to_env _ _ T) as [-> ->]. rewrite He. cbn [ok negb].
    destruct (table_lookups (K := B) IC kvalid options same_user fine es w f (block_cache_ tc) Hsetting Hes Hw Hf Hsz)
      as (t & blocks & -> & Ho & good & L). cbn [ok].
    destruct (new_id n t _ _ (to_blocks _ _ T) Ho) as [Hb' Hnew].
    assert (Hgood : table_good t es blocks).
    { exists good. split; [done|]. pose proof (to_blocks _ _ T) as HB. revert HB Hnew.
      destruct (block_cache_ tc) as [c|], blocks as [c'|]; try done; intros HB Hnew.
      - destruct Hnew as (E1 & E2 & _ & Hfree). split; [apply (lo_fresh _ _ _ _ _ _ _ L); [apply Hb'|done]|].
        destruct HB as (_ & H0 & _). lia.
      - split; [apply L|done]. }
    assert (Hins : forall number' f' es' t', store number' = Some (f', es') ->
      cached (cache_Insert cache (EncodeFixed64 number) t 1) (EncodeFixed64 number') = Some t' ->
      (number' = number /\ t' = t) \/ (number' <> number /\ cached (cache_ tc) (EncodeFixed64 number') = Some t')).
    { intros number' f' es' t' Hs' Ht'. destruct (Hstore number' f' es' Hs') as (Hnum' & _).
      destruct (Z.eq_dec number' number) as [->|Hne].
      - left. split; [done|]. destruct (Insert_same cache (EncodeFixed64 number) t 1 H3 ltac:(lia)) as [Eq|Eq];
          rewrite Eq in Ht'; [done|]. now injection Ht' as <-.
      - right. split; [done|]. pose proof (Encode64_ne number number' Hnum Hnum' ltac:(done)) as Hk.
        destruct (Insert_keeps cache (EncodeFixed64 number) t 1 _ H3 ltac:(lia) Hk) as [Eq|Eq]; rewrite Eq in Ht'; [done|].
        destruct (H2 (EncodeFixed64 number')) as [Eq'|Eq']; rewrite Eq' in Ht'; done. }
    eexists t, _. split; [reflexivity|]. split; [|split; [done|split]].
    + split; cbn [set_caches env_ dbname_ cache_ block_cache_]; [apply T|now apply Insert_wf|done| |].
      * intros number' f' es' t' Hs' Ht'. destruct (Hins number' f' es' t' Hs' Ht') as [[-> ->]|[Hne Hc]].
        { rewrite Hs in Hs'. now injection Hs' as <- <-. }
        now apply (table_good_new n t t' es' _ _ (to_blocks _ _ T) Ho), (to_tables _ _ T number' f').
      * intros n1 n2 f1 es1 f2 es2 t1 t2 Hs1 Hs2 Hne Ht1 Ht2.
        destruct (Hins n1 f1 es1 t1 Hs1 Ht1) as [[-> ->]|[Hne1 Hc1]], (Hins n2 f2 es2 t2 Hs2 Ht2) as [[-> ->]|[Hne2 Hc2]].
        { done. }
        { apply (table_good_new n t t2 es2 _ _ (to_blocks _ _ T) Ho). now apply (to_tables _ _ T n2 f2). }
        { destruct blocks; [apply not_eq_sym|done].
          now apply (table_good_new n t t1 es1 _ _ (to_blocks _ _ T) Ho), (to_tables _ _ T n1 f1). }
        pose proof (to_ids _ _ T n1 n2 f1 es1 f2 es2 t1 t2 Hs1 Hs2 Hne Hc1 Hc2) as Hi. revert Hi Hnew.
        destruct (block_cache_ tc), blocks; done.
    + intros n2 f2 es2 t2 Hs2 Hne Ht2. cbn [set_caches cache_ block_cache_] in *.
      destruct (Hins n2 f2 es2 t2 Hs2 Ht2) as [[-> ->]|[Hne2 Hc2]]; [done|].
      apply (table_good_new n t t2 es2 _ _ (to_blocks _ _ T) Ho). now apply (to_tables _ _ T n2 f2).
    + intros t' Ht'. destruct (Hins number f es t' Hs Ht') as [[_ ?]|[? _]]; done.
Qed.

(** ** The interface of the version *)

Definition table_cache_get : TableCacheGet (TableCache E K B) :=
  {| tc_Get := TableCache_Get IC options verify fill |}.

Definition stored_table (tc : TableCache E K B) (number size : Z) : option (list (list Z * list Z)) :=
  match store number with
  | Some (f, es) => if size =? Z.of_nat (length (ra_contents f)) then Some es else None
  | None => None
  end.

Lemma TableCache_Get_ok n tc number f es k : tcache_ok (S n) tc -> store number = Some (f, es) -> kvalid k ->
  exists found tc', TableCache_Get IC options verify fill tc number (Z.of_nat (length (ra_contents f))) k =
      Some (OK, found, tc') /\ tcache_ok n tc' /\ table_answer (C := C) es k found.
Proof.
  intros T Hs Hk. destruct (Hstore number f es Hs) as (_ & _ & Hes & _). destruct (FindTable_ok n tc number f es T Hs) as (t & tc1 & Ef & T1 & Hgood & Hids & Hown).
  destruct (get_in_table n t es _ k Hgood (to_blocks _ _ T1) (te_valid _ _ _ _ Hes) Hk) as (found & blocks & Eg & Hgood' & Hb & Hfr & Ha).
  unfold TableCache_Get. rewrite Ef, Eg. eexists found, _. split; [reflexivity|]. split; [|done].
  split; cbn [set_caches env_ dbname_ cache_ block_cache_]; [apply T1|apply T1|done| |].
  - intros number' f' es' t' Hs' Ht'. destruct (Z.eq_dec number' number) as [->|Hne].
    { rewrite (Hown t' Ht'). rewrite Hs in Hs'. now injection Hs' as <- <-. }
    apply (table_good_frame t t' es' (block_cache_ tc1)); [now apply (to_tables _ _ T1 number' f')|done| |].
    + destruct blocks; [apply Hb|done].
    + pose proof (Hids number' f' es' t' Hs' ltac:(done) Ht') as Hi. pose proof (to_blocks _ _ T1) as HB.
      destruct Hgood as (_ & _ & _ & Hid). destruct (block_cache_ tc1); [|done].
      destruct HB as (_ & _ & ? & _). split; [done|]. split; [done|lia].
  - intros n1 n2 f1 es1 f2 es2 t1 t2 Hs1 Hs2 Hne Ht1 Ht2.
    pose proof (to_ids _ _ T1 n1 n2 f1 es1 f2 es2 t1 t2 Hs1 Hs2 Hne Ht1 Ht2) as Hi. revert Hi Hfr.
    destruct (block_cache_ tc1), blocks; done.
Qed.

(** The table cache is one for versions. *)
Definition table_cache_laws : TableCacheLaws C valid (TableCache E K B) (TC := table_cache_get).
Proof.
  refine {| tc_ok := tcache_ok; tc_table := stored_table |}.
  - intros n tc number size k es Hok Hes Hk Hb. unfold stored_table in Hes.
    destruct (store number) as [[f es0]|] eqn:Hs; [|done].
    destruct (Z.eqb_spec size (Z.of_nat (length (ra_contents f)))) as [->|]; [|done]. injection Hes as ->.
    destruct (TableCache_Get_ok n tc number f es k Hok Hs (conj Hk Hb)) as (found & tc' & Eg & Hok' & Ha).
    now exists found, tc'.
  - intros n tc [A1 A2 A3 A4 A5]. split; try done. now apply blocks_less.
Defined.

End Laws.

(** ** Lists of entries in the order of their internal keys *)

Section Entries.
Context {C : Comparator} {valid : list Z -> Prop} {CL : ComparatorLaws C valid}.
Notation icmp := (internal_compare C).

Definition same_key (a b : added) : Prop := Compare (a_key a) (a_key b) = 0.

Definition entries_ok (l : list added) : Prop :=
  Forall (added_valid (valid := valid)) l /\ StronglySorted (fun a b => icmp (ikey_of a) (ikey_of b) < 0) l.

(** The internal key and the value of an entry. *)
Definition entry_pair (a : added) : list Z * list Z := (ikey_of a, a_value a).

Lemma Parse_ikey a : added_ok a -> ParseInternalKey (ikey_of a) = Some (ParsedKey (a_key a) (a_seq a) (a_type a)).
Proof. intros Ha. unfold ikey_of. exact (Parse_Append (ParsedKey (a_key a) (a_seq a) (a_type a)) (proj1 Ha)). Qed.

Lemma ikey_valid a : added_valid (valid := valid) a -> internal_valid valid (ikey_of a).
Proof. intros [Ha Hk]. apply internal_valid_Put; [now apply tag_range|done]. Qed.

Lemma ikey_kvalid a : added_valid (valid := valid) a -> kvalid valid (ikey_of a).
Proof. intros Ha. split; [now apply ikey_valid|]. apply ikey_bytes, Ha. Qed.

Lemma entries_order a b : added_valid (valid := valid) a -> added_valid (valid := valid) b -> icmp (ikey_of a) (ikey_of b) < 0 ->
  Compare (a_key a) (a_key b) < 0 \/ same_key a b /\ a_seq b <= a_seq a.
Proof.
  intros [Oa Va] [Ob Vb] H. apply internal_compare_lt in H. destruct (ikey_extract a Oa) as [E1 E2], (ikey_extract b Ob) as [E3 E4].
  rewrite E1, E2, E3, E4 in H. unfold same_key. pose proof (tag_lt a b Oa Ob). lia.
Qed.

Lemma entries_app l1 l2 : entries_ok (l1 ++ l2) -> entries_ok l1 /\ entries_ok l2 /\
  forall a b, a ∈ l1 -> b ∈ l2 -> icmp (ikey_of a) (ikey_of b) < 0.
Proof. intros [Hv Hs]. apply Forall_app in Hv as [V1 V2]. apply StronglySorted_app in Hs as (H1 & S1 & S2). done. Qed.

Lemma entries_cut pre a post : entries_ok (pre ++ a :: post) ->
  added_valid (valid := valid) a /\ (forall b, b ∈ pre -> added_valid (valid := valid) b /\ icmp (ikey_of b) (ikey_of a) < 0) /\
  (forall b, b ∈ post -> added_valid (valid := valid) b /\ icmp (ikey_of a) (ikey_of b) < 0).
Proof.
  intros [Hv Hs]. rewrite Forall_forall in Hv. apply StronglySorted_app in Hs as (H1 & _ & H2). apply StronglySorted_inv in H2 as [_ H2].
  rewrite Forall_forall in H2. split; [apply Hv, elem_of_app; right; now left|]. split; intros b Hb.
  - split; [apply Hv, elem_of_app; now left|]. apply H1; [done|now left].
  - split; [apply Hv, elem_of_app; right; now right|]. now apply H2.
Qed.
Lemma pairs_ok l : entries_ok l -> Forall (fun e => kvalid valid e.1) (map entry_pair l) /\
  StronglySorted (fun a b => icmp a.1 b.1 < 0) (map entry_pair l).
Proof.
  intros [Hv Hs]. split.
  - apply Forall_map. eapply Forall_impl; [exact Hv|]. intros a Ha. now apply ikey_kvalid.
  - clear Hv. induction Hs as [|a l Hs IH Ha]; simpl; constructor; [done|]. now apply Forall_map.
Qed.
End Entries.
