(* ===== verification/LvDbGet.v ===== *)
(** * leveldb: reading from the database (DBImpl::Get, db/db_impl.cc)

    A read looks into the memtable, the immutable memtable that is being
    written out, and the current version.  The theorem of this file puts the
    read path together: memtables over skip lists, versions over the table
    cache, tables over blocks, filters and caches. *)
From Stdlib Require Import ZArith Lia Bool String List Sorted.
From stdpp Require Import base list numbers sorting gmap.
From S2P Require Import Prelude LvCoding LvEnv LvLog LvComparator LvDbFormat LvBlock LvBlockProps LvFilter LvFilterProps.
From S2P Require Import LvFormat LvTable LvTableProps LvTableRead LvFilename LvWriteBatch LvSkipList LvMemTable LvMemTableProps.
From S2P Require Import LvVersion LvVersionProps LvTableCache.

Section Db.
Context (user_comparator : Comparator) {T : Type} {TC : TableCacheGet T}.

(** The fields that a read uses. *)
Record DBImpl := MkDB {
  db_mem : MemTable;
  db_imm : option MemTable;
  db_current : Version;
  db_last_sequence : Z;
  db_table_cache : T;
}.

(** [mem->Get]: whether the search ends here, with the value and the status. *)
Definition mem_answer (r : get_result) (value : list Z) : option (Status * list Z) :=
  match r with
  | Miss => None
  | Found v => Some (OK, v)
  | Deleted => Some (NotFound "", value)
  end.

(** [Get]: the status and the value, whether a compaction may have to be
    scheduled, and the database afterwards.  The references it takes for the
    time of the read are dropped again. *)
Definition DBImpl_Get (db : DBImpl) (snapshot_option : option Z) (key value : list Z)
    : option (Status * list Z * bool * DBImpl) :=
  let snapshot := match snapshot_option with Some s => s | None => db_last_sequence db end in
  let lkey := make_LookupKey key snapshot in
  match Get user_comparator (db_mem db) lkey with
  | None => None
  | Some r =>
      match mem_answer r value with
      | Some (s, v) => Some (s, v, false, db)
      | None =>
          match (match db_imm db with
                 | Some imm => Get user_comparator imm lkey
                 | None => Some Miss
                 end) with
          | None => None
          | Some r =>
              match mem_answer r value with
              | Some (s, v) => Some (s, v, false, db)
              | None =>
                  match Version_Get user_comparator (db_current db) lkey (db_table_cache db) value with
                  | None => None
                  | Some (s, v, stats, cache) =>
                      let '(schedule, current) := UpdateStats (db_current db) stats in
                      Some (s, v, schedule, MkDB (db_mem db) (db_imm db) current (db_last_sequence db) cache)
                  end
              end
          end
      end
  end.

End Db.
Arguments DBImpl : clear implicits.
Arguments MkDB {T}. Arguments db_mem {T}. Arguments db_imm {T}. Arguments db_current {T}.
Arguments db_last_sequence {T}. Arguments db_table_cache {T}.

Section Read.
Context {C : Comparator} {valid : list Z -> Prop} {CL : ComparatorLaws C valid}.
Context (valid_bytes : forall k, valid k -> is_bytes k).
Context {T : Type} {TC : TableCacheGet T} {TL : TableCacheLaws C valid T}.

(** The database holds [lm] in the memtable, [li] in the immutable one, and the
    files [contents]; each holds newer entries than those after it. *)
Record db_is (db : DBImpl T) (lm li : list added) (contents : Z -> list added) : Prop := {
  di_mem : mem_is (C := C) (valid := valid) (db_mem db) lm;
  di_imm : match db_imm db with Some imm => mem_is (C := C) (valid := valid) imm li | None => li = [] end;
  di_version : version_ok (C := C) (valid := valid) contents (db_current db);
  di_tables level f : f ∈ level_files (db_current db) level ->
    tc_table (db_table_cache db) (f_number f) (f_file_size f) = Some (table_of (contents (f_number f)));
  di_mem_newer key : newer (C := C) key lm (li ++ version_entries contents (db_current db));
  di_imm_newer key : newer (C := C) key li (version_entries contents (db_current db));
}.

(** The most tables one read tries. *)
Definition read_tables (db : DBImpl T) : nat := most_tables (db_current db).

(** Charging a seek changes nothing that a read depends on. *)
Definition same_file (g : FileMetaData -> FileMetaData) : Prop :=
  forall f, f_number (g f) = f_number f /\ f_file_size (g f) = f_file_size f /\
    f_smallest (g f) = f_smallest f /\ f_largest (g f) = f_largest f.

Lemma charge_same n : same_file (charge_seek n).
Proof. intros f. unfold charge_seek. now destruct (_ =? _). Qed.

Lemma version_ok_map contents g v v' : same_file g ->
  length (files_ v') = length (files_ v) -> (forall level, level_files v' level = map g (level_files v level)) ->
  version_ok (C := C) (valid := valid) contents v -> version_ok (C := C) (valid := valid) contents v'.
Proof.
  intros Hg Hl Hf [V1 V2 V3 V4 V5 V6 V7].
  assert (Hin : forall level f, f ∈ level_files v' level -> exists f0, f = g f0 /\ f0 ∈ level_files v level).
  { intros level f. rewrite Hf. apply list_elem_of_fmap. }
  split.
  - now rewrite Hl.
  - intros level f (f0 & -> & H0)%Hin. destruct (Hg f0) as (E1 & _ & E3 & E4).
    destruct (V2 level f0 H0) as [A1 A2 A3 A4]. rewrite E1. split; [done|done|now rewrite E3|now rewrite E4].
  - intros level Hlev. rewrite Hf. specialize (V3 level Hlev). clear -V3 Hg.
    induction V3 as [|f fs V3 IH Hfs]; constructor; [done|]. apply Forall_forall.
    intros x Hx. apply list_elem_of_fmap in Hx as (y & -> & Hy). rewrite Forall_forall in Hfs.
    destruct (Hg f) as (_ & _ & _ & E4), (Hg y) as (_ & _ & E3 & _). rewrite E3, E4. now apply Hfs.
  - intros level. rewrite Hf, length_map. apply V4.
  - rewrite Hf, map_map. rewrite (map_ext _ f_number) by (intros f; apply Hg). done.
  - intros f f' key Vk (f0 & -> & H0)%Hin (f1 & -> & H1)%Hin.
    rewrite !(proj1 (Hg _)). now apply V6.
  - intros i j f f' key Vk Hij (f0 & -> & H0)%Hin (f1 & -> & H1)%Hin.
    rewrite !(proj1 (Hg _)). now apply (V7 i j).
Qed.

Lemma version_entries_map contents g v v' : same_file g -> files_ v' = map (map g) (files_ v) ->
  version_entries contents v' = version_entries contents v.
Proof.
  intros Hg E. unfold version_entries. rewrite E, map_map. f_equal. apply map_ext. intros fs.
  unfold level_entries. rewrite map_map. f_equal. apply map_ext. intros f. now rewrite (proj1 (Hg f)).
Qed.

(** What [UpdateStats] does to the files. *)
Lemma UpdateStats_files v stats : exists g, same_file g /\ files_ (snd (UpdateStats v stats)) = map (map g) (files_ v).
Proof.
  unfold UpdateStats. destruct (seek_file stats) as [f|].
  - exists (charge_seek (f_number f)). split; [apply charge_same|].
    destruct (file_to_compact_ v); [done|]. now destruct (_ <=? 0).
  - exists id. split; [done|]. cbn [snd]. rewrite (map_ext (map id) id) by (intros l; apply map_id). now rewrite map_id.
Qed.

Lemma db_is_read db lm li contents stats t' :
  db_is db lm li contents -> (forall n m, tc_table t' n m = tc_table (db_table_cache db) n m) ->
  db_is (MkDB (db_mem db) (db_imm db) (snd (UpdateStats (db_current db) stats)) (db_last_sequence db) t') lm li contents /\
  length (level_files (snd (UpdateStats (db_current db) stats)) 0) = length (level_files (db_current db) 0).
Proof.
  intros [D1 D2 D3 D4 D5 D6] Ht. destruct (UpdateStats_files (db_current db) stats) as (g & Hg & Ef).
  assert (Hl : forall level, level_files (snd (UpdateStats (db_current db) stats)) level = map g (level_files (db_current db) level)).
  { intros level. unfold level_files. rewrite Ef, list_lookup_fmap. now destruct (files_ (db_current db) !! level). }
  split; [|now rewrite Hl, length_map].
  split; cbn [db_mem db_imm db_current db_table_cache]; [done|done| | | |].
  - apply (version_ok_map contents g (db_current db)); [done|now rewrite Ef, length_map|done|done].
  - intros level f Hf. rewrite Hl in Hf. apply list_elem_of_fmap in Hf as (f0 & -> & Hf).
    destruct (Hg f0) as (E1 & E2 & _). rewrite E1, E2, Ht. now apply (D4 level).
  - intros key. now rewrite (version_entries_map contents g _ _ Hg Ef).
  - intros key. now rewrite (version_entries_map contents g _ _ Hg Ef).
Qed.

Lemma DBImpl_Get_ok db lm li contents snapshot key value m :
  db_is db lm li contents -> tc_ok (read_tables db + m) (db_table_cache db) ->
  valid key -> Z.of_nat (length key) + 8 < 2 ^ 32 ->
  let s := match snapshot with Some s => s | None => db_last_sequence db end in
  0 <= s < 2 ^ 56 ->
  exists r schedule db', DBImpl_Get C db snapshot key value =
      Some (fst (outcome value r), snd (outcome value r), schedule, db') /\
    get_spec (C := C) (lm ++ li ++ version_entries contents (db_current db)) key s r /\
    db_is db' lm li contents /\ read_tables db' = read_tables db /\ tc_ok m (db_table_cache db').
Proof.
  intros D Hok Hk Hlen s Hs. unfold DBImpl_Get. fold s.
  assert (Hless : tc_ok m (db_table_cache db)).
  { clear -Hok TL. induction (read_tables db) as [|k IH]; [done|]. apply IH. now apply tc_ok_less. }
  destruct (Get_ok valid_bytes (db_mem db) lm key s (di_mem _ _ _ _ D) Hk Hlen Hs) as (r1 & -> & Hr1).
  pose proof (di_mem_newer _ _ _ _ D key) as Hn1. pose proof (di_imm_newer _ _ _ _ D key) as Hn2.
  destruct r1 as [|x|]; cbn [mem_answer].
  2: exists (Found x), false, db; split; [done|]; split; [now apply get_spec_stop|done].
  2: exists Deleted, false, db; split; [done|]; split; [now apply get_spec_stop|done].
  assert (Hi : exists r2, (match db_imm db with
                           | Some imm => Get C imm (make_LookupKey key s)
                           | None => Some Miss end) = Some r2 /\ get_spec (C := C) li key s r2).
  { pose proof (di_imm _ _ _ _ D) as H. destruct (db_imm db) as [imm|].
    - now apply Get_ok.
    - exists Miss. split; [done|]. rewrite H. apply get_spec_nil. }
  destruct Hi as (r2 & -> & Hr2). destruct r2 as [|x|]; cbn [mem_answer].
  2: exists (Found x), false, db; split; [done|]; split; [|done];
    apply (get_spec_app key s lm _ Miss _ Hn1 Hr1); now apply get_spec_stop.
  2: exists Deleted, false, db; split; [done|]; split; [|done];
    apply (get_spec_app key s lm _ Miss _ Hn1 Hr1); now apply get_spec_stop.
  destruct (Version_Get_ok valid_bytes contents key s value (db_table_cache db) Hk Hs (db_current db)
              (di_version _ _ _ _ D) (di_tables _ _ _ _ D) m Hok) as (r3 & stats & t' & -> & Hr3 & Hok' & Ht').
  destruct (db_is_read db lm li contents stats t' D Ht') as [D' El].
  destruct (UpdateStats (db_current db) stats) as [schedule current]. cbn [snd] in *.
  eexists r3, schedule, _. split; [reflexivity|]. split; [|split; [done|split; [|done]]].
  - apply (get_spec_app key s lm _ Miss _ Hn1 Hr1), (get_spec_app key s li _ Miss _ Hn2 Hr2 Hr3).
  - unfold read_tables, most_tables. cbn [db_current]. now rewrite El.
Qed.

End Read.

(** C1: A read returns the newest value.  A database holds entries in its
    memtable, in an immutable memtable and in table files in levels, which were
    written by the table builder and are described correctly by the current
    version; newer entries of a key are in the memtables before the files and in
    lower levels before higher ones.  Then a read of any key at any snapshot
    succeeds and returns the newest entry of the key that is not newer than the
    snapshot, over all these places: its value, or that there is none or that it
    was deleted.  The database is left able to do so again, whatever tables and
    blocks the caches kept. *)
Theorem db_get_correct {E F W K B : Type} {EV : Env E F} {RF : RandomAccessFile F} {RL : RandomAccessFileLaws F}
    {WF : WritableFile W} {WL : WritableFileLaws W}
    {KC : Cache (Table F) K} {KL : CacheLaws (Table F) K} {BC : Cache Block B} {BL : CacheLaws Block B}
    (C : Comparator) (valid : list Z -> Prop) (CL : ComparatorLaws C valid)
    (valid_bytes : forall k, valid k -> is_bytes k)
    (options : Options) (fine : list (list Z) -> Prop) (verify fill : bool)
    (setting : lookup_setting (InternalKeyComparator C) (kvalid valid) options
       (fun k k' => kvalid valid k /\ kvalid valid k' /\ same_user C k k') fine)
    (e0 : E) (db0 : list Z) (store : Z -> option (F * list (list Z * list Z)))
    (files : store_ok (W := W) C valid options fine e0 db0 store)
    (db : DBImpl (TableCache E K B)) (lm li : list added) (contents : Z -> list added)
    (snapshot : option Z) (key value : list Z) (m : nat) :
  db_is (C := C) (valid := valid)
    (TL := table_cache_laws C valid (KVL := kvalid_laws C valid valid_bytes) options fine verify fill setting
             e0 db0 store files) db lm li contents ->
  tcache_ok C valid options e0 db0 store (read_tables db + m) (db_table_cache db) ->
  valid key -> Z.of_nat (length key) + 8 < 2 ^ 32 ->
  0 <= (match snapshot with Some s => s | None => db_last_sequence db end) < 2 ^ 56 ->
  exists r schedule db',
    DBImpl_Get C (TC := table_cache_get C options verify fill) db snapshot key value =
      Some (fst (outcome value r), snd (outcome value r), schedule, db') /\
    get_spec (C := C) (lm ++ li ++ version_entries contents (db_current db)) key
      (match snapshot with Some s => s | None => db_last_sequence db end) r /\
    db_is (C := C) (valid := valid)
      (TL := table_cache_laws C valid (KVL := kvalid_laws C valid valid_bytes) options fine verify fill setting
               e0 db0 store files) db' lm li contents /\
    tcache_ok C valid options e0 db0 store m (db_table_cache db').
Proof.
  intros D Hok Hk Hl Hs.
  destruct (DBImpl_Get_ok valid_bytes (TL := table_cache_laws C valid (KVL := kvalid_laws C valid valid_bytes) options fine
              verify fill setting e0 db0 store files) db lm li contents snapshot key value m D Hok Hk Hl Hs)
    as (r & schedule & db' & Eg & Hr & D' & _ & Hok').
  now exists r, schedule, db'.
Qed.

(** ** A database with a memtable and two files *)

Module Example.

Definition options : Options := MkOptions 30 2 kNoCompression (Some (InternalFilterPolicy (BloomFilterPolicy 10))) true.
Definition name : list Z := str "db".

(** A newer file in level 0, which deletes a key, and an older one in level 1. *)
Definition l7 : list added := [Added 60 kTypeDeletion [1] []; Added 50 kTypeValue [2] [20]].
Definition l3 : list added := [Added 10 kTypeValue [1] [11]; Added 11 kTypeValue [3] [33]].
Definition lm : list added := [Added 100 kTypeValue [1] [99]].
Definition contents (number : Z) : list added := if number =? 7 then l7 else l3.

Definition file_with (l : list added) : mem_file :=
  LvTableProps.built (InternalKeyComparator BytewiseComparator) options (MemFile []) (table_of l).
Definition store (number : Z) : option (mem_file * list (list Z * list Z)) :=
  if number =? 7 then Some (file_with l7, table_of l7)
  else if number =? 3 then Some (file_with l3, table_of l3) else None.

(** An environment with these files. *)
Definition env : Type := list Z -> option mem_file.
#[global] Instance mem_env : Env env mem_file := {
  env_NewRandomAccessFile e fname :=
    match e fname with Some f => (OK, Some f) | None => (IOError "no such file", None) end;
}.
Definition e0 : env := fun fname =>
  if bool_decide (fname = TableFileName name 7) then Some (file_with l7)
  else if bool_decide (fname = TableFileName name 3) then Some (file_with l3) else None.

Definition meta (number : Z) (smallest largest : added) : FileMetaData :=
  MkFile number (Z.of_nat (length (ra_contents (file_with (contents number))))) (ikey_of smallest) (ikey_of largest) 100.
Definition file7 : FileMetaData := meta 7 (Added 60 kTypeDeletion [1] []) (Added 50 kTypeValue [2] [20]).
Definition file3 : FileMetaData := meta 3 (Added 10 kTypeValue [1] [11]) (Added 11 kTypeValue [3] [33]).
Definition version : Version := MkVersion [[file7]; [file3]; []; []; []; []; []] None (-1) (LvVersion.double_of (-1)) (-1).

Definition tables : Type := gmap (list Z) (Table mem_file) * Z.
Definition blocks : Type := gmap (list Z) Block * Z.
Definition cache : TableCache env tables blocks := MkTableCache e0 name (∅, 0) (Some (∅, 0)).

Definition fine : list (list Z) -> Prop := fun keys => few_keys (map ExtractUserKey keys).

Section Valid.
Context (valid : list Z -> Prop) {CL : ComparatorLaws BytewiseComparator valid} (valid_bytes : forall k, valid k -> is_bytes k).
Hypothesis valid_keys : valid [1] /\ valid [2] /\ valid [3].

Lemma added_lists : Forall (added_valid (valid := valid)) (l7 ++ l3 ++ lm).
Proof.
  unfold l7, l3, lm, added_valid, added_ok, is_bytes, is_byte. cbn [app]. destruct valid_keys as (V1 & V2 & V3).
  repeat (apply List.Forall_cons; [|]); try apply List.Forall_nil;
    cbn [a_seq a_key a_value length]; (split; [|done]);
    (split; [lia|]); (split; [repeat constructor; lia|]); (split; [repeat constructor; lia|]); lia.
Qed.

Lemma setting : lookup_setting (InternalKeyComparator BytewiseComparator) (kvalid valid) options
  (fun k k' => kvalid valid k /\ kvalid valid k' /\ same_user BytewiseComparator k k') fine.
Proof.
  apply (internal_setting BytewiseComparator valid options (BloomFilterPolicy 10) few_keys (bloom_laws 10 ltac:(lia)));
    [|vm_compute; discriminate|now right].
  intros k k' f _ _ Hc. simpl in Hc. rewrite slice_compare_lex in Hc. now rewrite (lex_eq _ _ Hc).
Qed.

(** Sorted lists of few valid entries make a table. *)
Lemma entries_ok l : Forall (added_valid (valid := valid)) l ->
  StronglySorted (fun a b => internal_compare BytewiseComparator (ikey_of a) (ikey_of b) < 0) l -> Z.of_nat (length l) < 2 ^ 31 ->
  table_entries (InternalKeyComparator BytewiseComparator) (kvalid valid) fine (table_of l).
Proof.
  intros Hv Hs Hl. rewrite List.Forall_forall in Hv. split.
  - clear Hv Hl. induction Hs as [|a l Hs IH Ha]; constructor; [done|]. apply Forall_forall.
    intros e He. apply list_elem_of_fmap in He as (b & -> & Hb). rewrite Forall_forall in Ha. now apply Ha.
  - apply Forall_forall. intros e He. apply list_elem_of_fmap in He as (a & -> & Ha%list_elem_of_In).
    destruct (Hv a Ha) as [Oa Va]. apply kvalid_Put; [done|done|now apply tag_range].
  - apply Forall_forall. intros e He. apply list_elem_of_fmap in He as (a & -> & Ha%list_elem_of_In).
    destruct (Hv a Ha) as [(_ & _ & Hb & _) _]. done.
  - intros g Hg. apply sublist_length in Hg. unfold fine, few_keys. unfold table_of in Hg. rewrite !length_map in *. lia.
Qed.

Lemma lists_sorted :
  StronglySorted (fun a b => internal_compare BytewiseComparator (ikey_of a) (ikey_of b) < 0) l7 /\
  StronglySorted (fun a b => internal_compare BytewiseComparator (ikey_of a) (ikey_of b) < 0) l3.
Proof. split; repeat constructor. Qed.

Lemma store_good : store_ok (W := mem_file) BytewiseComparator valid options fine e0 name store.
Proof.
  destruct lists_sorted as [S7 S3]. pose proof added_lists as HA.
  apply Forall_app in HA as [H7 HA]. apply Forall_app in HA as [H3 _].
  intros number f es Hs. unfold store in Hs.
  destruct (Z.eqb_spec number 7) as [->|_]; [|destruct (Z.eqb_spec number 3) as [->|_]; [|discriminate Hs]];
    apply Some_inj, pair_equal_spec in Hs as [<- <-].
  - split; [lia|]. split; [unfold env_NewRandomAccessFile, mem_env, e0; now rewrite bool_decide_true|].
    split; [now apply entries_ok|]. split; [vm_compute; reflexivity|]. exists (MemFile []). split; [done|apply mem_file_contents].
  - split; [lia|]. split.
    { unfold env_NewRandomAccessFile, mem_env, e0. rewrite bool_decide_false by (vm_compute; discriminate).
      now rewrite bool_decide_true. }
    split; [now apply entries_ok|]. split; [vm_compute; reflexivity|]. exists (MemFile []). split; [done|apply mem_file_contents].
Qed.

Lemma cache_ready n : Z.of_nat n < 2 ^ 63 -> tcache_ok BytewiseComparator valid options e0 name store n cache.
Proof.
  intros Hn. split; [done|done| | |].
  - split; [done|]. split; [simpl; lia|]. split; [simpl; zpow; lia|]. intros id h _. apply lookup_empty.
  - intros number f es t _ Ht. simpl in Ht. now rewrite lookup_empty in Ht.
  - intros n1 n2 f1 es1 f2 es2 t1 t2 _ _ _ Ht _. simpl in Ht. now rewrite lookup_empty in Ht.
Qed.

(** The levels of the version. *)
Lemma level_cases level f : f ∈ level_files version level -> (level = 0%nat /\ f = file7) \/ (level = 1%nat /\ f = file3).
Proof.
  unfold level_files, version. cbn [files_]. intros Hf.
  destruct level as [|[|level]]; cbn [lookup list_lookup default] in Hf.
  - left. split; [done|]. now apply list_elem_of_singleton in Hf.
  - right. split; [done|]. now apply list_elem_of_singleton in Hf.
  - exfalso. do 5 (destruct level as [|level]; [now apply elem_of_nil in Hf|]). now apply elem_of_nil in Hf.
Qed.

Lemma newer_by_seq key l l' n : Forall (fun a => n <= a_seq a) l -> Forall (fun a => a_seq a < n) l' ->
  newer (C := BytewiseComparator) key l l'.
Proof.
  intros H1 H2 a b Ha Hb _ _. rewrite List.Forall_forall in H1, H2. specialize (H1 a Ha). specialize (H2 b Hb). lia.
Qed.

Lemma version_good : version_ok (C := BytewiseComparator) (valid := valid) contents version.
Proof.
  pose proof added_lists as HA. apply Forall_app in HA as [H7 HA]. apply Forall_app in HA as [H3 _].
  destruct lists_sorted as [S7 S3]. split.
  - reflexivity.
  - intros level f [[-> ->]|[-> ->]]%level_cases.
    + split; [done|done|eexists; split; reflexivity|eexists; split; reflexivity].
    + split; [done|done|eexists; split; reflexivity|eexists; split; reflexivity].
  - intros level _. destruct level as [|[|[|[|[|[|[|level]]]]]]]; repeat constructor.
  - intros level. destruct level as [|[|[|[|[|[|[|level]]]]]]]; vm_compute; reflexivity.
  - apply NoDup_singleton.
  - intros f g key _ [[_ ->]|[Ex _]]%level_cases [[_ ->]|[Ey _]]%level_cases Hn; try discriminate; lia.
  - intros i j f g key _ Hij [[-> ->]|[-> ->]]%level_cases [[-> ->]|[-> ->]]%level_cases; try lia.
    apply (newer_by_seq key l7 l3 50); unfold l7, l3; repeat constructor; simpl; lia.
Qed.

End Valid.

Lemma byte_keys : is_bytes [1] /\ is_bytes [2] /\ is_bytes [3].
Proof. repeat split; repeat constructor; unfold is_byte; lia. Qed.

Definition database (m : MemTable) : DBImpl (TableCache env tables blocks) := MkDB m None version 100 cache.

Notation laws := (table_cache_laws BytewiseComparator is_bytes
  (KVL := kvalid_laws BytewiseComparator is_bytes (fun _ H => H)) options fine true true (setting is_bytes) e0 name store (store_good is_bytes (fun _ H => H) byte_keys)).

Lemma database_is m : mem_is (C := BytewiseComparator) (valid := is_bytes) m lm ->
  db_is (C := BytewiseComparator) (valid := is_bytes) (TL := laws) (database m) lm [] contents.
Proof.
  intros Hm. assert (Hnew : forall key, newer (C := BytewiseComparator) key lm (version_entries contents version)).
  { intros key. apply (newer_by_seq key _ _ 100); unfold lm; repeat constructor; simpl; lia. }
  split; cbn [database db_mem db_imm db_current db_table_cache]; [done|done|apply (version_good is_bytes byte_keys)| |exact Hnew|intros key a b []].
  intros level f [[-> ->]|[-> ->]]%level_cases; unfold tc_table, table_cache_laws, stored_table, store;
    cbn [f_number f_file_size file7 file3 meta Z.eqb Pos.eqb contents]; now rewrite Z.eqb_refl.
Qed.

End Example.

Lemma db_get_correct_witness :
  exists m, Add BytewiseComparator make_MemTable 100 kTypeValue [1] [99] = Some m /\
  exists r schedule db',
    DBImpl_Get BytewiseComparator (TC := table_cache_get (F := mem_file) BytewiseComparator Example.options true true)
      (Example.database m) (Some 70) [1] [] =
      Some (fst (outcome [] r), snd (outcome [] r), schedule, db') /\
    get_spec (C := BytewiseComparator) (Example.lm ++ [] ++ version_entries Example.contents Example.version) [1] 70 r.
Proof.
  pose proof (Example.added_lists is_bytes Example.byte_keys) as HA. apply Forall_app in HA as [_ HA]. apply Forall_app in HA as [_ Hm].
  destruct (Add_ok (C := BytewiseComparator) (valid := is_bytes) make_MemTable [] (Added 100 kTypeValue [1] [99]))
    as (m & Em & Hmem); [apply make_mem_is|now apply List.Forall_inv in Hm|intros []|].
  exists m. split; [done|].
  destruct (db_get_correct (W := mem_file) BytewiseComparator is_bytes bytewise_laws (fun _ H => H) Example.options Example.fine true true
    (Example.setting is_bytes) Example.e0 Example.name Example.store (Example.store_good is_bytes (fun _ H => H) Example.byte_keys) (Example.database m) Example.lm []
    Example.contents (Some 70) [1] [] 10) as (r & schedule & db' & Eg & Hr & _).
  - now apply Example.database_is.
  - apply (Example.cache_ready is_bytes); [exact Example.byte_keys|vm_compute; reflexivity].
  - repeat constructor; unfold is_byte; lia.
  - simpl. lia.
  - simpl. lia.
  - exists r, schedule, db'. split; [exact Eg|exact Hr].
Defined.

(** The reads of that database, computed: the value of the memtable, the
    deletion in level 0, the old value in level 1, other keys, and no value. *)
Example db_gets :
  match Add BytewiseComparator make_MemTable 100 kTypeValue [1] [99] with
  | Some m =>
      map (fun q => match DBImpl_Get BytewiseComparator (TC := table_cache_get (F := mem_file) BytewiseComparator Example.options true true)
                            (Example.database m) (snd q) (fst q) [] with
                    | Some (s, v, _, _) => (code s, v)
                    | None => (kIOError, [])
                    end)
          [([1], None); ([1], Some 70); ([1], Some 40); ([1], Some 5); ([2], None); ([3], Some 11); ([4], None)]
      = [(kOk, [99]); (LvEnv.kNotFound, []); (kOk, [11]); (LvEnv.kNotFound, []); (kOk, [20]); (kOk, [33]); (LvEnv.kNotFound, [])]
  | None => False
  end.
Proof. vm_compute. reflexivity. Qed.
