(* ===== verification/LvOverlap.v ===== *)
(** * leveldb: files that overlap a range (theorems about LvVersion)

    The inputs of a compaction, which grow at level 0 until they are closed, and
    the test whether a range overlaps a level. *)
From Stdlib Require Import ZArith Lia Bool List Sorted.
From stdpp Require Import base list numbers sorting.
From S2P Require Import Prelude LvCoding LvEnv LvComparator LvDbFormat.
From S2P Require Import LvTableRead LvVersion LvVersionProps.

Section Overlap.
Context {C : Comparator} {valid : list Z -> Prop} {CL : ComparatorLaws C valid}.

Notation start_of := (fun f => ExtractUserKey (f_smallest f)).
Notation limit_of := (fun f => ExtractUserKey (f_largest f)).

(** A file overlaps the range from [b] to [e]; nothing is no bound. *)
Definition overlaps (b e : option (list Z)) (f : FileMetaData) : bool :=
  negb (before_begin C (limit_of f) b) && negb (after_end C (start_of f) e).

(** A file lies inside the range. *)
Definition inside (b e : option (list Z)) (f : FileMetaData) : bool :=
  negb (before_begin C (start_of f) b) && negb (after_end C (limit_of f) e).

Definition bound_valid (b : option (list Z)) : Prop := match b with Some k => valid k | None => True end.
Definition file_valid (f : FileMetaData) : Prop := valid (start_of f) /\ valid (limit_of f).

(** Lower and upper bounds that are at least as wide. *)
Definition wider_begin (b b' : option (list Z)) : Prop :=
  match b, b' with Some k, Some k' => @Compare C k' k <= 0 | None, None => True | _, _ => False end.
Definition wider_end (e e' : option (list Z)) : Prop :=
  match e, e' with Some k, Some k' => @Compare C k k' <= 0 | None, None => True | _, _ => False end.

Context (level : nat) (files : list FileMetaData).
Hypothesis Hfiles : Forall file_valid files.

(** How many files stick out of the range on either side. *)
Definition out_left (b : option (list Z)) : nat := length (List.filter (fun f => before_begin C (start_of f) b) files).
Definition out_right (e : option (list Z)) : nat := length (List.filter (fun f => after_end C (limit_of f) e) files).

Lemma filter_lt (p q : FileMetaData -> bool) (l : list FileMetaData) f :
  (forall g, g ∈ l -> q g = true -> p g = true) -> f ∈ l -> p f = true -> q f = false ->
  (length (List.filter q l) < length (List.filter p l))%nat.
Proof.
  induction l as [|g l IH]; intros Hpq Hf Hp Hq; [now apply elem_of_nil in Hf|].
  assert (Hle : (length (List.filter q l) <= length (List.filter p l))%nat).
  { clear -Hpq. induction l as [|x l IH]; [done|]. cbn [List.filter].
    assert (Hx : q x = true -> p x = true) by (apply Hpq; right; left).
    assert (IH' : (length (List.filter q l) <= length (List.filter p l))%nat).
    { apply IH. intros y Hy. apply Hpq. apply elem_of_cons in Hy as [->|Hy]; [now left|right; now right]. }
    destruct (q x); [rewrite (Hx eq_refl); simpl; lia|]. destruct (p x); simpl; lia. }
  cbn [List.filter]. apply elem_of_cons in Hf as [->|Hf].
  - rewrite Hp, Hq. simpl. lia.
  - assert (Hlt : (length (List.filter q l) < length (List.filter p l))%nat)
      by (apply IH; [intros x Hx; apply Hpq; now right|done|done|done]).
    assert (Hx : q g = true -> p g = true) by (apply Hpq; now left).
    destruct (q g); [rewrite (Hx eq_refl); simpl; lia|]. destruct (p g); simpl; lia.
Qed.

Lemma valid_in f : f ∈ files -> valid (start_of f) /\ valid (limit_of f).
Proof. intros Hf. rewrite Forall_forall in Hfiles. now apply Hfiles. Qed.

(** Moving a bound out to that of a file that stuck out. *)
Lemma out_left_less b f : bound_valid b -> f ∈ files -> before_begin C (start_of f) b = true ->
  (out_left (Some (start_of f)) < out_left b)%nat /\ wider_begin b (Some (start_of f)).
Proof.
  intros Hb Hf Hout. destruct b as [k|]; [|done]. simpl in Hb, Hout. apply Z.ltb_lt in Hout.
  destruct (valid_in f Hf) as [Vf _]. split; [|simpl; lia].
  apply (filter_lt _ _ files f); [|done|simpl; now apply Z.ltb_lt|simpl; rewrite (Compare_refl _ Vf); done].
  intros g Hg. simpl. rewrite !Z.ltb_lt. destruct (valid_in g Hg) as [Vg _]. intros H.
  apply (Compare_lt_le_trans _ (start_of f)); [done|done|done|done|lia].
Qed.

Lemma out_right_less e f : bound_valid e -> f ∈ files -> after_end C (limit_of f) e = true ->
  (out_right (Some (limit_of f)) < out_right e)%nat /\ wider_end e (Some (limit_of f)).
Proof.
  intros He Hf Hout. destruct e as [k|]; [|done]. simpl in He, Hout. apply Z.ltb_lt in Hout.
  destruct (valid_in f Hf) as [_ Vf]. pose proof (Compare_antisym k _ He Vf) as Ha. split; [|simpl; lia].
  apply (filter_lt _ _ files f); [|done|simpl; now apply Z.ltb_lt|simpl; rewrite (Compare_refl _ Vf); done].
  intros g Hg. simpl. rewrite !Z.ltb_lt. destruct (valid_in g Hg) as [_ Vg]. intros H.
  apply (Compare_antisym _ _ He Vg). apply (Compare_lt_le_trans _ (limit_of f)); [done|done|done|lia|].
  apply (Compare_flip _ _ Vf Vg). lia.
Qed.

Lemma wider_begin_refl b : bound_valid b -> wider_begin b b.
Proof. destruct b as [k|]; [|done]. intros Hk. simpl. rewrite (Compare_refl _ Hk). lia. Qed.
Lemma wider_end_refl e : bound_valid e -> wider_end e e.
Proof. destruct e as [k|]; [|done]. intros Hk. simpl. rewrite (Compare_refl _ Hk). lia. Qed.

Lemma wider_begin_trans a b c : bound_valid a -> bound_valid b -> bound_valid c ->
  wider_begin a b -> wider_begin b c -> wider_begin a c.
Proof. destruct a, b, c; try done. simpl. intros. now apply (Compare_trans _ l0). Qed.
Lemma wider_end_trans a b c : bound_valid a -> bound_valid b -> bound_valid c ->
  wider_end a b -> wider_end b c -> wider_end a c.
Proof. destruct a, b, c; try done. simpl. intros. now apply (Compare_trans _ l0). Qed.

(** The loop ends with the files that overlap the range it ends with, which is
    at least as wide as the one it began with; at level 0 these files lie inside
    it, elsewhere it is the same range. *)
Definition inputs_result (b e b' e' : option (list Z)) (inputs : list FileMetaData) : Prop :=
  inputs = List.filter (overlaps b' e') files /\
  wider_begin b b' /\ wider_end e e' /\
  (if (level =? 0)%nat then Forall (fun f => inside b' e' f = true) inputs else b' = b /\ e' = e).

Lemma inputs_loop_ok fuel i b e inputs :
  bound_valid b -> bound_valid e -> (i <= length files)%nat ->
  inputs = List.filter (overlaps b e) (take i files) ->
  ((level =? 0)%nat = true -> Forall (fun f => inside b e f = true) inputs) ->
  ((out_left b + out_right e) * (length files + 1) + (length files - i) < fuel)%nat ->
  exists b' e' inputs', inputs_loop C fuel level files i b e inputs = Some inputs' /\
    bound_valid b' /\ bound_valid e' /\ inputs_result b e b' e' inputs'.
Proof.
  revert i b e inputs. induction fuel as [|fuel IH]; intros i b e inputs Hb He Hi Hin Hclosed Hfuel; [lia|].
  cbn [inputs_loop]. destruct (files !! i) as [f|] eqn:Ef.
  - pose proof (list_elem_of_lookup_2 _ _ _ Ef) as Hf. pose proof (lookup_lt_Some _ _ _ Ef) as Hlt.
    assert (Hstep : forall keep, overlaps b e f = keep ->
       List.filter (overlaps b e) (take (S i) files) = inputs ++ (if keep then [f] else [])).
    { intros keep Hk. rewrite (take_S_r _ _ _ Ef), List.filter_app, <- Hin. cbn [List.filter]. now rewrite Hk. }
    destruct (before_begin C (limit_of f) b) eqn:E1.
    { apply IH; [done|done|lia|rewrite (Hstep false) by (unfold overlaps; now rewrite E1); now rewrite app_nil_r|done|lia]. }
    destruct (after_end C (start_of f) e) eqn:E2.
    { apply IH; [done|done|lia|rewrite (Hstep false) by (unfold overlaps; now rewrite E1, E2); now rewrite app_nil_r|done|lia]. }
    specialize (Hstep true ltac:(unfold overlaps; now rewrite E1, E2)).
    destruct (level =? 0)%nat eqn:El.
    + destruct (before_begin C (start_of f) b) eqn:E3; [|destruct (after_end C (limit_of f) e) eqn:E4].
      * destruct (out_left_less b f Hb Hf E3) as [Hless Hw]. destruct (valid_in f Hf) as [Vf _].
        destruct (IH 0%nat (Some (start_of f)) e []) as (b' & e' & inp & Er & Vb & Ve & R1 & R2 & R3 & R4);
          [done|done|lia|done|intros _; constructor|nia|].
        exists b', e', inp. split; [done|]. split; [done|]. split; [done|]. rewrite El in R4. split; [done|].
        split; [now apply (wider_begin_trans b (Some (start_of f)))|]. split; [done|]. now rewrite El.
      * destruct (out_right_less e f He Hf E4) as [Hless Hw]. destruct (valid_in f Hf) as [_ Vf].
        destruct (IH 0%nat b (Some (limit_of f)) []) as (b' & e' & inp & Er & Vb & Ve & R1 & R2 & R3 & R4);
          [done|done|lia|done|intros _; constructor|nia|].
        exists b', e', inp. split; [done|]. split; [done|]. split; [done|]. rewrite El in R4. split; [done|].
        split; [done|]. split; [now apply (wider_end_trans e (Some (limit_of f)))|]. now rewrite El.
      * apply IH; [done|done|lia|done| |lia]. intros _. apply Forall_app. split; [now apply Hclosed|].
        apply Forall_singleton. unfold inside. now rewrite E3, E4.
    + apply IH; [done|done|lia|done|done|lia].
  - exists b, e, inputs. split; [done|]. split; [done|]. split; [done|]. apply lookup_ge_None in Ef.
    rewrite take_ge in Hin by lia. split; [done|]. split; [now apply wider_begin_refl|]. split; [now apply wider_end_refl|].
    destruct (level =? 0)%nat; [now apply Hclosed|done].
Qed.

Lemma inputs_ok b e : bound_valid b -> bound_valid e ->
  exists b' e' inputs, inputs_loop C (inputs_fuel (length files)) level files 0 b e [] = Some inputs /\
    bound_valid b' /\ bound_valid e' /\ inputs_result b e b' e' inputs.
Proof.
  intros Hb He. apply inputs_loop_ok; [done|done|lia|done|intros _; constructor|].
  assert (H1 : (out_left b <= length files)%nat) by apply List.filter_length_le.
  assert (H2 : (out_right e <= length files)%nat) by apply List.filter_length_le.
  unfold inputs_fuel. nia.
Qed.

End Overlap.

Section Theorems.
Context {C : Comparator} {valid : list Z -> Prop} {CL : ComparatorLaws C valid}.

Notation start_of := (fun f => ExtractUserKey (f_smallest f)).
Notation limit_of := (fun f => ExtractUserKey (f_largest f)).

(** Two files have user keys in common, as far as their ends tell. *)
Definition touch (f g : FileMetaData) : Prop :=
  @Compare C (start_of f) (limit_of g) <= 0 /\ @Compare C (start_of g) (limit_of f) <= 0.

(** A file that touches one inside a range overlaps the range. *)
Lemma touch_overlaps b e f g : file_valid (valid := valid) f -> file_valid (valid := valid) g ->
  bound_valid (valid := valid) b -> bound_valid (valid := valid) e ->
  inside (C := C) b e g = true -> touch f g -> overlaps (C := C) b e f = true.
Proof.
  intros [V1 V2] [V3 V4] Vb Ve Hin [T1 T2]. unfold inside, overlaps in *. b2p. apply andb_true_iff. rewrite !negb_true_iff.
  split.
  - destruct b as [k|]; [|done]. simpl in *. apply Z.ltb_ge. apply Z.ltb_ge in H. apply (Compare_flip k); [done|done|].
    apply (Compare_trans _ (start_of g)); [done|done|done|now apply Compare_flip|done].
  - destruct e as [k|]; [|done]. simpl in *. apply Z.ltb_ge. apply Z.ltb_ge in H0.
    apply (Compare_trans _ (limit_of g)); [done|done|done|done|done].
Qed.

Lemma overlapping_inputs_ok (v : Version) (level : nat) (begin end_ : option (list Z)) :
  Forall (file_valid (valid := valid)) (level_files v level) ->
  bound_valid (valid := valid) (ExtractUserKey <$> begin) -> bound_valid (valid := valid) (ExtractUserKey <$> end_) ->
  exists b e inputs, GetOverlappingInputs C v level begin end_ = Some inputs /\
    inputs = List.filter (overlaps (C := C) b e) (level_files v level) /\
    bound_valid (valid := valid) b /\ bound_valid (valid := valid) e /\
    wider_begin (C := C) (ExtractUserKey <$> begin) b /\ wider_end (C := C) (ExtractUserKey <$> end_) e /\
    (level = 0%nat -> forall f g, f ∈ level_files v level -> g ∈ inputs -> touch f g -> f ∈ inputs) /\
    (level <> 0%nat -> b = (ExtractUserKey <$> begin) /\ e = (ExtractUserKey <$> end_)).
Proof.
  intros Hf Hb He. unfold GetOverlappingInputs.
  destruct (inputs_ok level (level_files v level) Hf _ _ Hb He) as (b & e & inputs & Eq & Vb & Ve & R1 & R2 & R3 & R4).
  exists b, e, inputs. do 6 (split; [done|]).
  destruct (Nat.eqb_spec level 0) as [->|Hne]; (split; [|done]); [|done].
  intros _ f g Hfl Hg Ht. rewrite Forall_forall in Hf, R4.
  assert (Hgl : g ∈ level_files v 0).
  { rewrite R1 in Hg. apply list_elem_of_In, filter_In in Hg as [Hg _]. now apply list_elem_of_In. }
  rewrite R1. apply list_elem_of_In, filter_In. split; [now apply list_elem_of_In|].
  apply (touch_overlaps b e f g); [now apply Hf|now apply Hf|done|done|now apply R4|done].
Qed.

(** C32: The inputs of a compaction are complete.  For any level and any range,
    bounded or not, the search for overlapping files terminates, although at
    level 0 it starts over whenever a file widens the range; it returns exactly
    the files of the level that overlap the final range, which contains the
    given one; at level 0 no file outside the result touches one inside it, and
    at other levels the range is not widened. *)
Theorem overlapping_inputs_correct (v : Version) (level : nat) (begin end_ : option (list Z)) :
  Forall (file_valid (valid := valid)) (level_files v level) ->
  bound_valid (valid := valid) (ExtractUserKey <$> begin) -> bound_valid (valid := valid) (ExtractUserKey <$> end_) ->
  exists b e inputs, GetOverlappingInputs C v level begin end_ = Some inputs /\
    inputs = List.filter (overlaps (C := C) b e) (level_files v level) /\
    wider_begin (C := C) (ExtractUserKey <$> begin) b /\ wider_end (C := C) (ExtractUserKey <$> end_) e /\
    (level = 0%nat -> forall f g, f ∈ level_files v level -> g ∈ inputs -> touch f g -> f ∈ inputs) /\
    (level <> 0%nat -> b = (ExtractUserKey <$> begin) /\ e = (ExtractUserKey <$> end_)).
Proof.
  intros Hf Hb He. destruct (overlapping_inputs_ok v level begin end_ Hf Hb He) as (b & e & inputs & H1 & H2 & _ & _ & H3).
  now exists b, e, inputs.
Qed.

(** ** The test for an overlap *)

(** What the test means: some file reaches into the range. *)
Definition range_hits (small large : option (list Z)) (files : list FileMetaData) : bool :=
  existsb (fun f => negb (AfterFile C small f) && negb (BeforeFile C large f)) files.

(** Files of a level above 0, with valid keys. *)
Record level_good (files : list FileMetaData) : Prop := {
  lg_valid : Forall (fun f => internal_valid valid (f_smallest f) /\ internal_valid valid (f_largest f) /\
     internal_compare C (f_smallest f) (f_largest f) <= 0 /\
     ExtractTag (f_largest f) <= PackSequenceAndType kMaxSequenceNumber kValueTypeForSeek) files;
  lg_sorted : StronglySorted (fun f g => internal_compare C (f_largest f) (f_smallest g) < 0) files;
  lg_length : Z.of_nat (length files) < 2 ^ 31;
}.

Lemma level_good_largest files : level_good files -> by_largest (C := C) (valid := valid) files.
Proof.
  intros [Hv Hs _]. assert (IL := internal_laws (C := C) (valid := valid)). split.
  - eapply Forall_impl; [exact Hv|]. now intros f (_ & ? & _).
  - clear -Hv Hs IL. induction Hs as [|f fs Hs IH Hf]; constructor; apply Forall_cons in Hv as [Hvf Hv]; [now apply IH|].
    apply Forall_forall. intros g Hg. rewrite Forall_forall in Hv, Hf. destruct (Hv g Hg) as (V1 & V2 & Hle & _).
    destruct Hvf as (_ & Vl & _).
    apply (@Compare_lt_le_trans _ _ IL _ (f_smallest g)); [done|done|done|now apply Hf|done].
Qed.

(** The first possible key of a user key is at or before the end of a file
    exactly if the user key is. *)
Lemma largest_reaches k f : valid k -> internal_valid valid (f_largest f) ->
  ExtractTag (f_largest f) <= PackSequenceAndType kMaxSequenceNumber kValueTypeForSeek ->
  internal_compare C (f_largest f) (make_InternalKey k kMaxSequenceNumber kValueTypeForSeek) < 0 <->
  AfterFile C (Some k) f = true.
Proof.
  intros Hk [_ Vl] Ht. rewrite internal_compare_lt.
  change (make_InternalKey k kMaxSequenceNumber kValueTypeForSeek) with
    (PutFixed64 k (PackSequenceAndType kMaxSequenceNumber kValueTypeForSeek)).
  destruct (Extract_Put k _ seek_tag_range) as [-> ->]. unfold AfterFile. rewrite Z.ltb_lt.
  pose proof (Compare_antisym _ _ Vl Hk). lia.
Qed.

(** Later files start after the earlier ones end, also for user keys. *)
Lemma later_start files i j f g : level_good files -> (i < j)%nat -> files !! i = Some f -> files !! j = Some g ->
  @Compare C (start_of f) (start_of g) <= 0.
Proof.
  intros [Hv Hs _] Hij Hf Hg. rewrite Forall_lookup in Hv.
  destruct (Hv i f Hf) as ([_ V1] & [_ V2] & Hle & _), (Hv j g Hg) as ([_ V3] & _).
  pose proof (sorted_lookup _ files i j f g Hs Hij Hf Hg) as Hlt. simpl in Hlt.
  apply internal_compare_lt in Hlt. apply internal_compare_le in Hle.
  apply (Compare_trans _ (limit_of f)); [done|done|done|lia|lia].
Qed.

Lemma range_hits_none small large files n : level_good files ->
  bound_valid (valid := valid) small -> bound_valid (valid := valid) large ->
  (forall j f, (j < n)%nat -> files !! j = Some f -> AfterFile C small f = true) ->
  match files !! n with Some f => BeforeFile C large f = true | None => True end ->
  range_hits small large files = false.
Proof.
  intros Hg Vs Vl Hbefore Hn. destruct (range_hits small large files) eqn:E; [exfalso|done].
  apply existsb_exists in E as (f & Hf & Hh). apply list_elem_of_In, list_elem_of_lookup in Hf as [j Hj].
  apply andb_true_iff in Hh as [H1 H2]. rewrite negb_true_iff in H1, H2.
  destruct (Nat.lt_ge_cases j n) as [Hjn|Hjn]; [now rewrite (Hbefore j f Hjn Hj) in H1|].
  destruct (lookup_lt_is_Some_2 files n) as [g Hgn]; [apply lookup_lt_Some in Hj; lia|]. rewrite Hgn in Hn.
  destruct large as [k|]; [|done]. simpl in Vl, Hn, H2. apply Z.ltb_lt in Hn. apply Z.ltb_ge in H2.
  pose proof (lg_valid _ Hg) as Hv. rewrite Forall_lookup in Hv.
  destruct (Hv n g Hgn) as ([_ V1] & _), (Hv j f Hj) as ([_ V2] & _).
  destruct (Nat.eq_dec j n) as [->|Hne]; [rewrite Hgn in Hj; injection Hj as <-; lia|].
  pose proof (later_start files n j g f Hg ltac:(lia) Hgn Hj).
  pose proof (Compare_lt_le_trans k _ _ Vl V1 V2 Hn H). lia.
Qed.

(** The bisection finds the only file that can decide. *)
Lemma overlap_exact (disjoint : bool) (files : list FileMetaData) (small large : option (list Z)) :
  bound_valid (valid := valid) small -> bound_valid (valid := valid) large ->
  (disjoint = true -> level_good files) ->
  SomeFileOverlapsRange C disjoint files small large = Some (range_hits small large files).
Proof.
  intros Vs Vl Hg. unfold SomeFileOverlapsRange. destruct disjoint; cbn [negb].
  2:{ f_equal. unfold range_hits. clear. induction files as [|f fs IH]; [done|]. cbn [existsb].
      now rewrite IH, negb_orb. }
  specialize (Hg eq_refl).
  assert (Hidx : exists n, (match small with
      | Some k => FindFile C files (make_InternalKey k kMaxSequenceNumber kValueTypeForSeek)
      | None => Some 0 end) = Some (Z.of_nat n) /\
      (forall j f, (j < n)%nat -> files !! j = Some f -> AfterFile C small f = true) /\
      (forall f, files !! n = Some f -> AfterFile C small f = false)).
  { pose proof (lg_valid _ Hg) as Hv. rewrite Forall_lookup in Hv. destruct small as [k|].
    - destruct (FindFile_ok files (make_InternalKey k kMaxSequenceNumber kValueTypeForSeek) (level_good_largest files Hg))
        as (n & -> & Hle & H1 & H2); [apply internal_valid_Put; [apply seek_tag_range|done]|apply Hg|].
      exists n. split; [done|]. split.
      + intros j f Hj Hf. destruct (Hv j f Hf) as (_ & V & _ & Ht). apply largest_reaches; [done|done|done|now apply (H1 j)].
      + intros f Hf. destruct (Hv n f Hf) as (_ & V & _ & Ht). specialize (H2 n f (Nat.le_refl n) Hf).
        destruct (AfterFile C (Some k) f) eqn:E; [|done]. apply largest_reaches in E; [lia|done|done|done].
    - exists 0%nat. split; [done|]. split; [intros; lia|done]. }
  destruct Hidx as (n & -> & H1 & H2). rewrite Nat2Z.id.
  destruct (files !! n) as [f|] eqn:Ef.
  - destruct (BeforeFile C large f) eqn:Eb.
    + rewrite (range_hits_none small large files n Hg Vs Vl H1); [done|now rewrite Ef].
    + symmetry. f_equal. apply existsb_exists. exists f. split; [apply list_elem_of_In, list_elem_of_lookup; now exists n|].
      now rewrite (H2 f eq_refl), Eb.
  - rewrite (range_hits_none small large files n Hg Vs Vl H1); [done|now rewrite Ef].
Qed.

(** The overlap test is exact on every path.  For a level whose files may
    overlap it looks at all files, for a sorted level it searches by bisection;
    in both cases, and with either bound missing, it answers whether some file
    of the level reaches into the range. *)
Theorem overlap_test_exact (disjoint : bool) (files : list FileMetaData) (small large : option (list Z)) :
  bound_valid (valid := valid) small -> bound_valid (valid := valid) large ->
  (disjoint = true -> level_good files) ->
  SomeFileOverlapsRange C disjoint files small large = Some (range_hits small large files).
Proof. apply overlap_exact. Qed.

(** ** The level for a new table *)

(** Files of level [l] have user keys in the range, and the bytes of these
    files. *)
Definition hit (v : Version) (small large : list Z) (l : nat) : bool :=
  range_hits (Some small) (Some large) (level_files v l).
Definition bytes_overlapping (v : Version) (small large : list Z) (l : nat) : Z :=
  TotalFileSize (List.filter (overlaps (C := C) (Some small) (Some large)) (level_files v l)).

(** The files that the range of a new table overlaps, at a level below 0. *)
Lemma grandparents v small large l : valid small -> valid large -> Forall (file_valid (valid := valid)) (level_files v l) -> (0 < l)%nat ->
  GetOverlappingInputs C v l (Some (make_InternalKey small kMaxSequenceNumber kValueTypeForSeek)) (Some (make_InternalKey large 0 kTypeDeletion))
  = Some (List.filter (overlaps (C := C) (Some small) (Some large)) (level_files v l)).
Proof.
  intros Vs Vl Hval Hl. unfold GetOverlappingInputs.
  assert (E1 : ExtractUserKey <$> Some (make_InternalKey small kMaxSequenceNumber kValueTypeForSeek) = Some small).
  { cbn [fmap option_fmap option_map]. f_equal.
    change (make_InternalKey small kMaxSequenceNumber kValueTypeForSeek) with
      (PutFixed64 small (PackSequenceAndType kMaxSequenceNumber kValueTypeForSeek)).
    now rewrite (proj1 (Extract_Put small _ seek_tag_range)). }
  assert (E2 : ExtractUserKey <$> Some (make_InternalKey large 0 kTypeDeletion) = Some large).
  { cbn [fmap option_fmap option_map]. f_equal. change (make_InternalKey large 0 kTypeDeletion) with (PutFixed64 large 0).
    now rewrite (proj1 (Extract_Put large 0 ltac:(zpow; lia))). }
  rewrite E1, E2.
  destruct (inputs_ok l (level_files v l) Hval (Some small) (Some large)) as (b & e & inputs & Ei & _ & _ & R); [done|done|].
  rewrite Ei. destruct R as (-> & R). f_equal. destruct R as (_ & _ & R). destruct (Nat.eqb_spec l 0); [lia|]. destruct R as [-> ->]. done.
Qed.

Lemma pick_loop_ok fuel max v small large level :
  valid small -> valid large ->
  (forall l, (1 <= l <= kMaxMemCompactLevel)%nat -> level_good (level_files v l)) ->
  (forall l, Forall (file_valid (valid := valid)) (level_files v l)) ->
  (level <= kMaxMemCompactLevel)%nat -> (kMaxMemCompactLevel - level < fuel)%nat ->
  exists l, pick_loop C fuel max v small large level = Some l /\ (level <= l <= kMaxMemCompactLevel)%nat /\
    (forall i, (level < i <= l)%nat -> hit v small large i = false /\
       bytes_overlapping v small large (i + 1) <= MaxGrandParentOverlapBytes max) /\
    ((l < kMaxMemCompactLevel)%nat -> hit v small large (l + 1) = true \/
       MaxGrandParentOverlapBytes max < bytes_overlapping v small large (l + 2)).
Proof.
  intros Vs Vl Hgood Hval. revert level. induction fuel as [|fuel IH]; intros level Hle Hf; [lia|].
  cbn [pick_loop]. destruct (Nat.ltb_spec level kMaxMemCompactLevel) as [Hlt|Hge].
  2:{ exists level. split; [done|]. split; [lia|]. split; [intros i Hi; lia|lia]. }
  unfold OverlapInLevel. destruct (Nat.ltb_spec 0 (level + 1)); [|lia].
  rewrite overlap_exact by (try done; intros _; apply Hgood; lia). fold (hit v small large (level + 1)).
  destruct (hit v small large (level + 1)) eqn:E.
  { exists level. split; [done|]. split; [lia|]. split; [intros i Hi; lia|now left]. }
  destruct (Nat.ltb_spec (level + 2) kNumLevels) as [_|Hbad]; [|unfold kMaxMemCompactLevel, kNumLevels in *; lia].
  rewrite grandparents by (done || lia). fold (bytes_overlapping v small large (level + 2)).
  destruct (Z.ltb_spec (MaxGrandParentOverlapBytes max) (bytes_overlapping v small large (level + 2))) as [Hb|Hb].
  { exists level. split; [done|]. split; [lia|]. split; [intros i Hi; lia|now right]. }
  destruct (IH (level + 1)%nat) as (l & El & Hl & Hn & Hs); [lia|lia|]. exists l. split; [done|]. split; [lia|]. split; [|done].
  intros i Hi. destruct (Nat.eq_dec i (level + 1)%nat) as [->|Hne]; [|apply Hn; lia].
  split; [done|]. now replace (level + 1 + 1)%nat with (level + 2)%nat by lia.
Qed.

(** C33: The level for a table written from a memtable.  If a file of level 0 has
    user keys in the range of the table, the table goes to level 0.  Otherwise it
    goes to the deepest level, up to the limit, that can be reached by steps to a
    level that has no file with keys in the range and under which the files with
    keys in the range are not too large together: so no file of any level down
    to the chosen one has keys in the range, and entries of the table's keys are
    only in deeper levels; and the choice stops above the limit only when the
    next level has such a file or the one under it too many bytes. *)
Theorem pick_level_safe (max_file_size : Z) (v : Version) (small large : list Z) :
  valid small -> valid large ->
  (forall l, (1 <= l <= kMaxMemCompactLevel)%nat -> level_good (level_files v l)) ->
  (forall l, Forall (file_valid (valid := valid)) (level_files v l)) ->
  exists level, PickLevelForMemTableOutput C max_file_size v small large = Some level /\
    (level <= kMaxMemCompactLevel)%nat /\
    if hit v small large 0 then level = 0%nat
    else (forall l, (l <= level)%nat -> hit v small large l = false) /\
      (forall l, (1 <= l <= level)%nat -> bytes_overlapping v small large (l + 1) <= MaxGrandParentOverlapBytes max_file_size) /\
      ((level < kMaxMemCompactLevel)%nat -> hit v small large (level + 1) = true \/
         MaxGrandParentOverlapBytes max_file_size < bytes_overlapping v small large (level + 2)).
Proof.
  intros Vs Vl Hgood Hval. unfold PickLevelForMemTableOutput, OverlapInLevel. cbn [Nat.ltb Nat.leb].
  rewrite overlap_exact by done. fold (hit v small large 0).
  destruct (hit v small large 0) eqn:E.
  { exists 0%nat. split; [done|]. split; [lia|done]. }
  destruct (pick_loop_ok (S kMaxMemCompactLevel) max_file_size v small large 0 Vs Vl Hgood Hval)
    as (l & El & Hl & Hn & Hs); [lia|lia|].
  exists l. split; [done|]. split; [lia|]. split; [|split; [|done]].
  - intros i Hi. destruct i as [|i]; [done|]. apply Hn. lia.
  - intros i Hi. apply Hn. lia.
Qed.

End Theorems.

(** ** Examples *)

Module OverlapExample.
Definition file (n k1 k2 : Z) : FileMetaData :=
  MkFile n 10 (make_InternalKey [k1] 5 kTypeValue) (make_InternalKey [k2] 5 kTypeValue) 100.

(** Level 0 has a chain of files that touch and one that does not; level 1 is
    sorted. *)
Definition level0 : list FileMetaData := [file 1 4 6; file 2 6 8; file 3 1 2; file 4 7 9].
Definition level1 : list FileMetaData := [file 5 2 3; file 6 5 5; file 7 9 12].
Definition version : Version := MkVersion [level0; level1; []; []; []; []; []] None (-1) (LvVersion.double_of (-1)) (-1).

Lemma files_valid l : Forall (file_valid (valid := is_bytes)) (level_files version l).
Proof.
  destruct l as [|[|[|[|[|[|[|l]]]]]]]; unfold file_valid, is_bytes, is_byte;
    repeat constructor; simpl; lia.
Qed.

Lemma levels_good l : (1 <= l <= kMaxMemCompactLevel)%nat ->
  level_good (C := BytewiseComparator) (valid := is_bytes) (level_files version l).
Proof.
  unfold kMaxMemCompactLevel. intros Hl. assert (Hc : l = 1%nat \/ l = 2%nat) by lia. destruct Hc as [-> | ->].
  - split; [|repeat constructor|vm_compute; reflexivity].
    unfold internal_valid, is_bytes, is_byte. repeat constructor; simpl; try lia; vm_compute; discriminate.
  - split; [constructor|constructor|vm_compute; reflexivity].
Qed.
End OverlapExample.

(** The compaction of [4..5] at level 0 takes three files. *)
Example inputs_computed :
  GetOverlappingInputs BytewiseComparator OverlapExample.version 0
    (Some (make_InternalKey [4] 9 kTypeValue)) (Some (make_InternalKey [5] 1 kTypeValue)) =
  Some [OverlapExample.file 1 4 6; OverlapExample.file 2 6 8; OverlapExample.file 4 7 9].
Proof. vm_compute. reflexivity. Qed.

Lemma overlapping_inputs_correct_witness :
  exists b e inputs, GetOverlappingInputs BytewiseComparator OverlapExample.version 0
      (Some (make_InternalKey [4] 9 kTypeValue)) None = Some inputs /\
    inputs = List.filter (overlaps (C := BytewiseComparator) b e) (level_files OverlapExample.version 0).
Proof.
  destruct (overlapping_inputs_correct (valid := is_bytes) OverlapExample.version 0
    (Some (make_InternalKey [4] 9 kTypeValue)) None) as (b & e & inputs & E1 & E2 & _).
  - apply OverlapExample.files_valid.
  - repeat constructor; unfold is_byte; lia.
  - exact I.
  - exists b, e, inputs. split; [exact E1|exact E2].
Defined.

Lemma overlap_test_exact_witness :
  SomeFileOverlapsRange BytewiseComparator true (level_files OverlapExample.version 1) (Some [6]) (Some [8]) =
  Some (range_hits (C := BytewiseComparator) (Some [6]) (Some [8]) (level_files OverlapExample.version 1)).
Proof.
  apply (overlap_test_exact (valid := is_bytes)).
  - repeat constructor; unfold is_byte; lia.
  - repeat constructor; unfold is_byte; lia.
  - intros _. apply OverlapExample.levels_good. unfold kMaxMemCompactLevel. lia.
Defined.

(** Nothing is in the way of [13..14], so that table goes as deep as it may. *)
Lemma pick_level_safe_witness :
  PickLevelForMemTableOutput BytewiseComparator 2000 OverlapExample.version [13] [14] = Some kMaxMemCompactLevel.
Proof.
  destruct (pick_level_safe (C := BytewiseComparator) (valid := is_bytes) 2000 OverlapExample.version [13] [14]) as (level & E & Hle & H).
  - repeat constructor; unfold is_byte; lia.
  - repeat constructor; unfold is_byte; lia.
  - intros l. apply OverlapExample.levels_good.
  - intros l. apply OverlapExample.files_valid.
  - rewrite E. f_equal. change (hit (C := BytewiseComparator) OverlapExample.version [13] [14] 0) with false in H. destruct H as (_ & _ & H).
    destruct (Nat.lt_ge_cases level kMaxMemCompactLevel) as [Hlt|Hge]; [|lia]. exfalso. specialize (H Hlt).
    unfold kMaxMemCompactLevel in Hlt. destruct level as [|[|level]]; [| |lia]; destruct H as [H|H]; revert H; vm_compute; discriminate.
Defined.
