(* ===== verification/LvVersionEdit.v ===== *)
(** * leveldb: edits of the set of files (db/version_edit.h, db/version_edit.cc)

    The record that the manifest log holds for every change of the file set,
    and its encoding.  A decoding error leaves the fields that were read before
    it. *)
From Stdlib Require Import ZArith Lia Bool String List Sorted.
From stdpp Require Import base list numbers sorting.
From S2P Require Import Prelude LvCoding LvEnv LvDbFormat LvWriteBatch LvVersion.

Inductive Tag := kComparator | kLogNumber | kNextFileNumber | kLastSequence | kCompactPointer | kDeletedFile
  | kNewFile | kPrevLogNumber.

Definition tag_code (t : Tag) : Z :=
  match t with
  | kComparator => 1 | kLogNumber => 2 | kNextFileNumber => 3 | kLastSequence => 4
  | kCompactPointer => 5 | kDeletedFile => 6 | kNewFile => 7 | kPrevLogNumber => 9
  end.

(** The cases of the switch. *)
Definition tag_of_code (c : Z) : option Tag :=
  if c =? 1 then Some kComparator else if c =? 2 then Some kLogNumber
  else if c =? 9 then Some kPrevLogNumber else if c =? 3 then Some kNextFileNumber
  else if c =? 4 then Some kLastSequence else if c =? 5 then Some kCompactPointer
  else if c =? 6 then Some kDeletedFile else if c =? 7 then Some kNewFile else None.

(** [deleted_files_] is a set in the order of its pairs of level and number. *)
Record VersionEdit := MkEdit {
  comparator_ : list Z;
  log_number_ : Z;
  prev_log_number_ : Z;
  next_file_number_ : Z;
  last_sequence_ : Z;
  has_comparator_ : bool;
  has_log_number_ : bool;
  has_prev_log_number_ : bool;
  has_next_file_number_ : bool;
  has_last_sequence_ : bool;
  compact_pointers_ : list (Z * list Z);
  deleted_files_ : list (Z * Z);
  new_files_ : list (Z * FileMetaData);
}.

Definition Edit_Clear (e : VersionEdit) : VersionEdit :=
  MkEdit [] 0 0 0 0 false false false false false (compact_pointers_ e) [] [].

(** The constructor: the vectors are empty before [Clear]. *)
Definition make_VersionEdit : VersionEdit :=
  Edit_Clear (MkEdit [] 0 0 0 0 false false false false false [] [] []).

Definition SetComparatorName (name : list Z) (e : VersionEdit) : VersionEdit :=
  MkEdit name (log_number_ e) (prev_log_number_ e) (next_file_number_ e) (last_sequence_ e) true (has_log_number_ e)
    (has_prev_log_number_ e) (has_next_file_number_ e) (has_last_sequence_ e) (compact_pointers_ e) (deleted_files_ e)
    (new_files_ e).
Definition SetLogNumber (num : Z) (e : VersionEdit) : VersionEdit :=
  MkEdit (comparator_ e) num (prev_log_number_ e) (next_file_number_ e) (last_sequence_ e) (has_comparator_ e) true
    (has_prev_log_number_ e) (has_next_file_number_ e) (has_last_sequence_ e) (compact_pointers_ e) (deleted_files_ e)
    (new_files_ e).
Definition SetPrevLogNumber (num : Z) (e : VersionEdit) : VersionEdit :=
  MkEdit (comparator_ e) (log_number_ e) num (next_file_number_ e) (last_sequence_ e) (has_comparator_ e)
    (has_log_number_ e) true (has_next_file_number_ e) (has_last_sequence_ e) (compact_pointers_ e) (deleted_files_ e)
    (new_files_ e).
Definition SetNextFile (num : Z) (e : VersionEdit) : VersionEdit :=
  MkEdit (comparator_ e) (log_number_ e) (prev_log_number_ e) num (last_sequence_ e) (has_comparator_ e)
    (has_log_number_ e) (has_prev_log_number_ e) true (has_last_sequence_ e) (compact_pointers_ e) (deleted_files_ e)
    (new_files_ e).
Definition SetLastSequence (seq : Z) (e : VersionEdit) : VersionEdit :=
  MkEdit (comparator_ e) (log_number_ e) (prev_log_number_ e) (next_file_number_ e) seq (has_comparator_ e)
    (has_log_number_ e) (has_prev_log_number_ e) (has_next_file_number_ e) true (compact_pointers_ e) (deleted_files_ e)
    (new_files_ e).
Definition SetCompactPointer (level : Z) (key : list Z) (e : VersionEdit) : VersionEdit :=
  MkEdit (comparator_ e) (log_number_ e) (prev_log_number_ e) (next_file_number_ e) (last_sequence_ e) (has_comparator_ e)
    (has_log_number_ e) (has_prev_log_number_ e) (has_next_file_number_ e) (has_last_sequence_ e)
    (compact_pointers_ e ++ [(level, key)]) (deleted_files_ e) (new_files_ e).

(** [std::pair::operator<] and [std::set::insert] *)
Definition pair_lt (a b : Z * Z) : bool := (a.1 <? b.1) || ((a.1 =? b.1) && (a.2 <? b.2)).
Fixpoint set_insert (x : Z * Z) (l : list (Z * Z)) : list (Z * Z) :=
  match l with
  | [] => [x]
  | y :: l' => if pair_lt x y then x :: l else if pair_lt y x then y :: set_insert x l' else l
  end.

Definition RemoveFile (level file : Z) (e : VersionEdit) : VersionEdit :=
  MkEdit (comparator_ e) (log_number_ e) (prev_log_number_ e) (next_file_number_ e) (last_sequence_ e) (has_comparator_ e)
    (has_log_number_ e) (has_prev_log_number_ e) (has_next_file_number_ e) (has_last_sequence_ e)
    (compact_pointers_ e) (set_insert (level, file) (deleted_files_ e)) (new_files_ e).

(** A new file record allows 2^30 seeks. *)
Definition push_file (level : Z) (f : FileMetaData) (e : VersionEdit) : VersionEdit :=
  MkEdit (comparator_ e) (log_number_ e) (prev_log_number_ e) (next_file_number_ e) (last_sequence_ e) (has_comparator_ e)
    (has_log_number_ e) (has_prev_log_number_ e) (has_next_file_number_ e) (has_last_sequence_ e)
    (compact_pointers_ e) (deleted_files_ e) (new_files_ e ++ [(level, f)]).
Definition AddFile (level file file_size : Z) (smallest largest : list Z) (e : VersionEdit) : VersionEdit :=
  push_file level (MkFile file file_size smallest largest (Z.shiftl 1 30)) e.

(** ** Encoding *)

Definition encode_if (b : bool) (f : list Z -> list Z) (dst : list Z) : list Z := if b then f dst else dst.
Definition PutTag (t : Tag) (dst : list Z) : list Z := PutVarint32 dst (tag_code t).

Definition Edit_EncodeTo (e : VersionEdit) (dst : list Z) : list Z :=
  let dst := encode_if (has_comparator_ e)
    (fun dst => PutLengthPrefixedSlice (PutTag kComparator dst) (comparator_ e)) dst in
  let dst := encode_if (has_log_number_ e) (fun dst => PutVarint64 (PutTag kLogNumber dst) (log_number_ e)) dst in
  let dst := encode_if (has_prev_log_number_ e)
    (fun dst => PutVarint64 (PutTag kPrevLogNumber dst) (prev_log_number_ e)) dst in
  let dst := encode_if (has_next_file_number_ e)
    (fun dst => PutVarint64 (PutTag kNextFileNumber dst) (next_file_number_ e)) dst in
  let dst := encode_if (has_last_sequence_ e)
    (fun dst => PutVarint64 (PutTag kLastSequence dst) (last_sequence_ e)) dst in
  let dst := fold_left (fun dst p => PutLengthPrefixedSlice (PutVarint32 (PutTag kCompactPointer dst) (u32 p.1)) p.2)
    (compact_pointers_ e) dst in
  let dst := fold_left (fun dst p => PutVarint64 (PutVarint32 (PutTag kDeletedFile dst) (u32 p.1)) p.2)
    (deleted_files_ e) dst in
  fold_left (fun dst p =>
      let f := p.2 in
      let dst := PutVarint32 (PutTag kNewFile dst) (u32 p.1) in
      let dst := PutVarint64 dst (f_number f) in
      let dst := PutVarint64 dst (f_file_size f) in
      let dst := PutLengthPrefixedSlice dst (f_smallest f) in
      PutLengthPrefixedSlice dst (f_largest f))
    (new_files_ e) dst.

(** ** Decoding *)

(** An internal key must not be empty. *)
Definition GetInternalKey (input : list Z) : option (list Z * list Z) :=
  match GetLengthPrefixedSlice input with
  | Some ([], _) => None
  | r => r
  end.

Definition GetLevel (input : list Z) : option (Z * list Z) :=
  match GetVarint32 input with
  | Some (v, input) => if v <? Z.of_nat kNumLevels then Some (v, input) else None
  | None => None
  end.

(** The body of the loop for one tag: the edit and the rest of the input, or the
    message. *)
Definition decode_field (t : Tag) (input : list Z) (e : VersionEdit) : (VersionEdit * list Z) + string :=
  match t with
  | kComparator =>
      match GetLengthPrefixedSlice input with
      | Some (s, input) => inl (SetComparatorName s e, input)
      | None => inr "comparator name"%string
      end
  | kLogNumber =>
      match GetVarint64 input with
      | Some (n, input) => inl (SetLogNumber n e, input)
      | None => inr "log number"%string
      end
  | kPrevLogNumber =>
      match GetVarint64 input with
      | Some (n, input) => inl (SetPrevLogNumber n e, input)
      | None => inr "previous log number"%string
      end
  | kNextFileNumber =>
      match GetVarint64 input with
      | Some (n, input) => inl (SetNextFile n e, input)
      | None => inr "next file number"%string
      end
  | kLastSequence =>
      match GetVarint64 input with
      | Some (n, input) => inl (SetLastSequence n e, input)
      | None => inr "last sequence number"%string
      end
  | kCompactPointer =>
      match GetLevel input with
      | Some (level, input) =>
          match GetInternalKey input with
          | Some (key, input) => inl (SetCompactPointer level key e, input)
          | None => inr "compaction pointer"%string
          end
      | None => inr "compaction pointer"%string
      end
  | kDeletedFile =>
      match GetLevel input with
      | Some (level, input) =>
          match GetVarint64 input with
          | Some (number, input) => inl (RemoveFile level number e, input)
          | None => inr "deleted file"%string
          end
      | None => inr "deleted file"%string
      end
  | kNewFile =>
      let fields :=
        match GetLevel input with
        | Some (level, input) =>
            match GetVarint64 input with
            | Some (number, input) =>
                match GetVarint64 input with
                | Some (file_size, input) =>
                    match GetInternalKey input with
                    | Some (smallest, input) =>
                        match GetInternalKey input with
                        | Some (largest, input) =>
                            Some (level, MkFile number file_size smallest largest (Z.shiftl 1 30), input)
                        | None => None
                        end
                    | None => None
                    end
                | None => None
                end
            | None => None
            end
        | None => None
        end in
      match fields with
      | Some (level, f, input) => inl (push_file level f e, input)
      | None => inr "new-file entry"%string
      end
  end.

Definition edit_corrupt (msg : string) : Status := mkStatus LvEnv.kCorruption "VersionEdit" msg.

(** The loop; every round reads a tag.  Nothing is left open: the fuel is the
    length of the input. *)
Fixpoint decode_loop (fuel : nat) (input : list Z) (e : VersionEdit) : option (Status * VersionEdit) :=
  match fuel with
  | O => None
  | S fuel =>
      match GetVarint32 input with
      | None => Some (if (length input =? 0)%nat then OK else edit_corrupt "invalid tag", e)
      | Some (tag, input) =>
          match tag_of_code tag with
          | None => Some (edit_corrupt "unknown tag", e)
          | Some t =>
              match decode_field t input e with
              | inl (e, input) => decode_loop fuel input e
              | inr msg => Some (edit_corrupt msg, e)
              end
          end
      end
  end.

Definition Edit_DecodeFrom (e : VersionEdit) (src : list Z) : option (Status * VersionEdit) :=
  decode_loop (S (length src)) src (Edit_Clear e).

(** ** Round trip *)

(** An edit as the list of its entries, in the order they are written. *)
Inductive item :=
  | IComparator (s : list Z) | ILog (n : Z) | IPrevLog (n : Z) | INextFile (n : Z) | ILastSequence (n : Z)
  | IPointer (level : Z) (key : list Z) | IDeleted (level number : Z) | INew (level : Z) (f : FileMetaData).

Definition if_list {A} (b : bool) (x : A) : list A := if b then [x] else [].
Definition items_of (e : VersionEdit) : list item :=
  if_list (has_comparator_ e) (IComparator (comparator_ e)) ++
  if_list (has_log_number_ e) (ILog (log_number_ e)) ++
  if_list (has_prev_log_number_ e) (IPrevLog (prev_log_number_ e)) ++
  if_list (has_next_file_number_ e) (INextFile (next_file_number_ e)) ++
  if_list (has_last_sequence_ e) (ILastSequence (last_sequence_ e)) ++
  map (fun p => IPointer p.1 p.2) (compact_pointers_ e) ++
  map (fun p => IDeleted p.1 p.2) (deleted_files_ e) ++
  map (fun p => INew p.1 p.2) (new_files_ e).

Definition enc_item (i : item) : list Z :=
  match i with
  | IComparator s => PutTag kComparator [] ++ enc_slice s
  | ILog n => PutTag kLogNumber [] ++ EncodeVarint64 n
  | IPrevLog n => PutTag kPrevLogNumber [] ++ EncodeVarint64 n
  | INextFile n => PutTag kNextFileNumber [] ++ EncodeVarint64 n
  | ILastSequence n => PutTag kLastSequence [] ++ EncodeVarint64 n
  | IPointer l k => PutTag kCompactPointer [] ++ EncodeVarint32 (u32 l) ++ enc_slice k
  | IDeleted l n => PutTag kDeletedFile [] ++ EncodeVarint32 (u32 l) ++ EncodeVarint64 n
  | INew l f => PutTag kNewFile [] ++ EncodeVarint32 (u32 l) ++ EncodeVarint64 (f_number f) ++
                EncodeVarint64 (f_file_size f) ++ enc_slice (f_smallest f) ++ enc_slice (f_largest f)
  end.

Definition item_tag (i : item) : Tag :=
  match i with
  | IComparator _ => kComparator | ILog _ => kLogNumber | IPrevLog _ => kPrevLogNumber | INextFile _ => kNextFileNumber
  | ILastSequence _ => kLastSequence | IPointer _ _ => kCompactPointer | IDeleted _ _ => kDeletedFile
  | INew _ _ => kNewFile
  end.

Definition apply_item (e : VersionEdit) (i : item) : VersionEdit :=
  match i with
  | IComparator s => SetComparatorName s e | ILog n => SetLogNumber n e | IPrevLog n => SetPrevLogNumber n e
  | INextFile n => SetNextFile n e | ILastSequence n => SetLastSequence n e
  | IPointer l k => SetCompactPointer l k e | IDeleted l n => RemoveFile l n e | INew l f => push_file l f e
  end.

Definition number_ok (n : Z) : Prop := 0 <= n < 2 ^ 64.
Definition level_ok (l : Z) : Prop := 0 <= l < Z.of_nat kNumLevels.
Definition key_ok (k : list Z) : Prop := slice_ok k /\ k <> [].
Definition item_ok (i : item) : Prop :=
  match i with
  | IComparator s => slice_ok s
  | ILog n | IPrevLog n | INextFile n | ILastSequence n => number_ok n
  | IPointer l k => level_ok l /\ key_ok k
  | IDeleted l n => level_ok l /\ number_ok n
  | INew l f => level_ok l /\ number_ok (f_number f) /\ number_ok (f_file_size f) /\ key_ok (f_smallest f) /\
                key_ok (f_largest f) /\ f_allowed_seeks f = Z.shiftl 1 30
  end.

Lemma PutTag_app t dst : PutTag t dst = dst ++ EncodeVarint32 (tag_code t).
Proof. reflexivity. Qed.

Lemma edit_tag_roundtrip t rest : is_bytes rest -> GetVarint32 (EncodeVarint32 (tag_code t) ++ rest) = Some (tag_code t, rest).
Proof. intros H. apply GetVarint32_Encode; [destruct t; simpl; zpow; lia|done]. Qed.

Lemma Level_roundtrip l rest : level_ok l -> is_bytes rest -> GetLevel (EncodeVarint32 (u32 l) ++ rest) = Some (l, rest).
Proof.
  unfold level_ok, kNumLevels. intros Hl Hr. unfold GetLevel.
  rewrite (wrapu_small 32) by (zpow; lia). rewrite GetVarint32_Encode by (try done; zpow; lia).
  destruct (Z.ltb_spec l (Z.of_nat kNumLevels)); [done|unfold kNumLevels in *; lia].
Qed.

Lemma Key_roundtrip k rest : key_ok k -> is_bytes rest -> GetInternalKey (enc_slice k ++ rest) = Some (k, rest).
Proof.
  intros [[Hb Hl] Hne] Hr. unfold GetInternalKey. rewrite Get_enc_slice by done. now destruct k.
Qed.

Lemma level_bytes l : is_bytes (EncodeVarint32 (u32 l)).
Proof. apply EncodeVarint32_bytes, wrapu_range. lia. Qed.

Lemma item_bytes i : item_ok i -> is_bytes (enc_item i).
Proof.
  assert (Ht : forall t, is_bytes (EncodeVarint32 (tag_code t))).
  { intros t. apply EncodeVarint32_bytes. destruct t; simpl; zpow; lia. }
  destruct i; cbn [enc_item item_ok]; rewrite PutTag_app; cbn [app]; rewrite ?is_bytes_app;
    unfold key_ok, number_ok; intros H; decompose [and] H;
    repeat split; auto using enc_slice_bytes, EncodeVarint64_bytes, level_bytes.
Qed.

(** One entry is read back. *)
Lemma decode_item i e rest : item_ok i -> is_bytes rest ->
  exists mid, enc_item i ++ rest = EncodeVarint32 (tag_code (item_tag i)) ++ mid /\ is_bytes mid /\
    decode_field (item_tag i) mid e = inl (apply_item e i, rest).
Proof.
  intros Hi Hr. pose proof (item_bytes i Hi) as Hb.
  destruct i as [s|n|n|n|n|l k|l n|l f]; cbn [enc_item item_tag apply_item item_ok decode_field] in *;
    rewrite PutTag_app in *; cbn [app] in *; rewrite !is_bytes_app in Hb; decompose [and] Hb;
    rewrite <- !app_assoc; eexists; (split; [reflexivity|]);
    (split; [rewrite ?is_bytes_app; auto 10|]).
  - now rewrite Get_enc_slice.
  - now rewrite GetVarint64_Encode.
  - now rewrite GetVarint64_Encode.
  - now rewrite GetVarint64_Encode.
  - now rewrite GetVarint64_Encode.
  - rewrite Level_roundtrip; [|apply Hi|apply is_bytes_app; done]. now rewrite Key_roundtrip by (done || apply Hi).
  - rewrite Level_roundtrip; [|apply Hi|apply is_bytes_app; done]. now rewrite GetVarint64_Encode by (done || apply Hi).
  - destruct Hi as (Hl & Hn & Hsz & Hks & Hkl & Hseeks).
    rewrite Level_roundtrip by (try done; rewrite ?is_bytes_app; auto 10).
    rewrite GetVarint64_Encode by (try done; rewrite ?is_bytes_app; auto 10).
    rewrite GetVarint64_Encode by (try done; rewrite ?is_bytes_app; auto 10).
    rewrite Key_roundtrip by (try done; rewrite ?is_bytes_app; auto 10).
    rewrite Key_roundtrip by done. rewrite <- Hseeks. now destruct f.
Qed.

Lemma tag_code_roundtrip t : tag_of_code (tag_code t) = Some t.
Proof. now destruct t. Qed.

Lemma tag_nonempty t : (1 <= length (EncodeVarint32 (tag_code t)))%nat.
Proof. destruct t; vm_compute; lia. Qed.

Lemma decode_items items e fuel : Forall item_ok items -> (length (concat (map enc_item items)) < fuel)%nat ->
  decode_loop fuel (concat (map enc_item items)) e = Some (OK, fold_left apply_item items e).
Proof.
  revert e fuel. induction items as [|i items IH]; intros e fuel Hi Hf; (destruct fuel as [|fuel]; [lia|]); [done|].
  apply List.Forall_cons_iff in Hi as [Hi His]. cbn [map concat] in *. cbn [fold_left decode_loop].
  assert (Hr : is_bytes (concat (map enc_item items))).
  { apply Forall_concat, List.Forall_map. eapply List.Forall_impl; [|exact His]. intros. now apply item_bytes. }
  destruct (decode_item i e _ Hi Hr) as (mid & E & Hm & Ed). rewrite E in Hf |- *.
  rewrite edit_tag_roundtrip by done. rewrite tag_code_roundtrip, Ed. apply IH; [done|].
  apply (f_equal length) in E. rewrite !length_app in *. pose proof (tag_nonempty (item_tag i)).
  assert (1 <= length (enc_item i))%nat; [|lia].
  destruct i; cbn [enc_item]; rewrite PutTag_app, length_app; cbn [length app]; rewrite ?length_app;
    match goal with |- context [tag_code ?t] => pose proof (tag_nonempty t) end; lia.
Qed.

Lemma encode_if_app b f dst x : (forall d, f d = d ++ x) -> encode_if b f dst = dst ++ (if b then x else []).
Proof. intros Hf. destruct b; [apply Hf|now rewrite app_nil_r]. Qed.

Lemma fold_app {A} (f : list Z -> A -> list Z) (g : A -> list Z) l dst :
  (forall d x, f d x = d ++ g x) -> fold_left f l dst = dst ++ concat (map g l).
Proof.
  intros Hf. revert dst. induction l as [|x l IH]; intros dst; [now rewrite app_nil_r|].
  cbn [fold_left map concat]. now rewrite IH, Hf, <- app_assoc.
Qed.

Lemma enc_if b i : concat (map enc_item (if_list b i)) = if b then enc_item i else [].
Proof. destruct b; [apply app_nil_r|done]. Qed.

Lemma EncodeTo_items e dst : Edit_EncodeTo e dst = dst ++ concat (map enc_item (items_of e)).
Proof.
  unfold Edit_EncodeTo.
  rewrite (fold_app _ (fun p => enc_item (INew p.1 p.2)) (new_files_ e)).
  2:{ intros d [l f]. cbn [enc_item]. rewrite PutTag_app, !PutLengthPrefixedSlice_app. unfold PutVarint32, PutVarint64, PutTag, PutVarint32.
      cbn [app]. now rewrite <- !app_assoc. }
  rewrite (fold_app _ (fun p => enc_item (IDeleted p.1 p.2)) (deleted_files_ e)).
  2:{ intros d [l n]. cbn [enc_item]. unfold PutVarint32, PutVarint64, PutTag, PutVarint32. now rewrite <- !app_assoc. }
  rewrite (fold_app _ (fun p => enc_item (IPointer p.1 p.2)) (compact_pointers_ e)).
  2:{ intros d [l k]. cbn [enc_item]. rewrite !PutLengthPrefixedSlice_app. unfold PutVarint32, PutTag, PutVarint32. now rewrite <- !app_assoc. }
  unfold items_of. rewrite !map_app, !concat_app, !enc_if, !map_map.
  rewrite (encode_if_app _ _ _ (enc_item (ILastSequence (last_sequence_ e))))
    by (intros d; cbn [enc_item]; unfold PutVarint64, PutTag, PutVarint32; now rewrite <- !app_assoc).
  rewrite (encode_if_app _ _ _ (enc_item (INextFile (next_file_number_ e))))
    by (intros d; cbn [enc_item]; unfold PutVarint64, PutTag, PutVarint32; now rewrite <- !app_assoc).
  rewrite (encode_if_app _ _ _ (enc_item (IPrevLog (prev_log_number_ e))))
    by (intros d; cbn [enc_item]; unfold PutVarint64, PutTag, PutVarint32; now rewrite <- !app_assoc).
  rewrite (encode_if_app _ _ _ (enc_item (ILog (log_number_ e))))
    by (intros d; cbn [enc_item]; unfold PutVarint64, PutTag, PutVarint32; now rewrite <- !app_assoc).
  rewrite (encode_if_app _ _ _ (enc_item (IComparator (comparator_ e))))
    by (intros d; cbn [enc_item]; rewrite PutLengthPrefixedSlice_app; unfold PutTag, PutVarint32; now rewrite <- !app_assoc).
  now rewrite <- !app_assoc.
Qed.

(** Edits that can be written: flags that are not set leave their field at its
    default, and the deleted files are a set. *)
Record edit_ok (e : VersionEdit) : Prop := {
  eo_items : Forall item_ok (items_of e);
  eo_comparator : has_comparator_ e = false -> comparator_ e = [];
  eo_log : has_log_number_ e = false -> log_number_ e = 0;
  eo_prev : has_prev_log_number_ e = false -> prev_log_number_ e = 0;
  eo_next : has_next_file_number_ e = false -> next_file_number_ e = 0;
  eo_last : has_last_sequence_ e = false -> last_sequence_ e = 0;
  eo_deleted : StronglySorted (fun a b => pair_lt a b = true) (deleted_files_ e);
}.

Lemma pair_lt_asym a b : pair_lt a b = true -> pair_lt b a = false.
Proof.
  unfold pair_lt. intros H. apply orb_true_iff in H. apply orb_false_iff.
  rewrite andb_true_iff, !Z.ltb_lt, Z.eqb_eq in H. rewrite andb_false_iff, !Z.ltb_ge, Z.eqb_neq. lia.
Qed.

(** Inserting in order appends. *)
Lemma set_insert_last x l : Forall (fun y => pair_lt y x = true) l -> set_insert x l = l ++ [x].
Proof.
  induction l as [|y l IH]; intros H; [done|]. apply List.Forall_cons_iff in H as [Hy Hl]. cbn [set_insert app].
  rewrite (pair_lt_asym y x Hy), Hy. f_equal. now apply IH.
Qed.

Lemma apply_pointers l e : fold_left apply_item (map (fun p => IPointer p.1 p.2) l) e =
  MkEdit (comparator_ e) (log_number_ e) (prev_log_number_ e) (next_file_number_ e) (last_sequence_ e) (has_comparator_ e)
    (has_log_number_ e) (has_prev_log_number_ e) (has_next_file_number_ e) (has_last_sequence_ e)
    (compact_pointers_ e ++ l) (deleted_files_ e) (new_files_ e).
Proof.
  revert e. induction l as [|[x k] l IH]; intros e; cbn [map fold_left]; [rewrite app_nil_r; now destruct e|].
  rewrite IH. cbn. now rewrite <- app_assoc.
Qed.

Lemma apply_deleted l e : StronglySorted (fun a b => pair_lt a b = true) (deleted_files_ e ++ l) ->
  fold_left apply_item (map (fun p => IDeleted p.1 p.2) l) e =
  MkEdit (comparator_ e) (log_number_ e) (prev_log_number_ e) (next_file_number_ e) (last_sequence_ e) (has_comparator_ e)
    (has_log_number_ e) (has_prev_log_number_ e) (has_next_file_number_ e) (has_last_sequence_ e)
    (compact_pointers_ e) (deleted_files_ e ++ l) (new_files_ e).
Proof.
  revert e. induction l as [|[x n] l IH]; intros e Hs; cbn [map fold_left]; [rewrite app_nil_r; now destruct e|].
  assert (Hlast : set_insert (x, n) (deleted_files_ e) = deleted_files_ e ++ [(x, n)]).
  { apply set_insert_last, List.Forall_forall. intros y Hy.
    apply StronglySorted_app in Hs as (Hs & _). apply (Hs y (x, n)); [now apply list_elem_of_In|now left]. }
  rewrite IH; cbn; rewrite Hlast, <- app_assoc; done.
Qed.

Lemma apply_new l e : fold_left apply_item (map (fun p => INew p.1 p.2) l) e =
  MkEdit (comparator_ e) (log_number_ e) (prev_log_number_ e) (next_file_number_ e) (last_sequence_ e) (has_comparator_ e)
    (has_log_number_ e) (has_prev_log_number_ e) (has_next_file_number_ e) (has_last_sequence_ e)
    (compact_pointers_ e) (deleted_files_ e) (new_files_ e ++ l).
Proof.
  revert e. induction l as [|[x f] l IH]; intros e; cbn [map fold_left]; [rewrite app_nil_r; now destruct e|].
  rewrite IH. cbn. now rewrite <- app_assoc.
Qed.

(** Applying the entries of an edit to a cleared one: the pointers that were
    there stay in front. *)
Lemma apply_items e0 e : edit_ok e ->
  fold_left apply_item (items_of e) (Edit_Clear e0) =
  MkEdit (comparator_ e) (log_number_ e) (prev_log_number_ e) (next_file_number_ e) (last_sequence_ e) (has_comparator_ e)
    (has_log_number_ e) (has_prev_log_number_ e) (has_next_file_number_ e) (has_last_sequence_ e)
    (compact_pointers_ e0 ++ compact_pointers_ e) (deleted_files_ e) (new_files_ e).
Proof.
  intros [_ H1 H2 H3 H4 H5 H6]. unfold items_of. rewrite !fold_left_app, apply_new, apply_pointers.
  destruct e as [a b c d f h1 h2 h3 h4 h5 p q r]; cbn in *.
  rewrite apply_deleted by (now destruct h1, h2, h3, h4, h5).
  destruct h1, h2, h3, h4, h5; cbn; repeat match goal with H : false = false -> _ |- _ => rewrite (H eq_refl); clear H end;
    reflexivity.
Qed.


(** ** Decoding any bytes *)

(** What a reader takes from the front: bytes are left, and fewer. *)
Definition shorter (rest input : list Z) : Prop := is_bytes rest /\ (length rest < length input)%nat.

Lemma reads_shorter W n p v rest : 0 <= W -> is_bytes p -> reads_varint W n p (Some (v, rest)) ->
  0 <= v < 2 ^ W /\ shorter rest p.
Proof.
  intros HW Hp [H _]. destruct (H v rest eq_refl) as (w & -> & Hw & _ & ->).
  apply is_bytes_app in Hp as [_ Hr]. split; [now apply wrapu_range|]. split; [done|]. rewrite length_app.
  destruct w; [done|]. simpl. lia.
Qed.

Lemma GetVarint32_shorter p v rest : is_bytes p -> GetVarint32 p = Some (v, rest) -> 0 <= v < 2 ^ 32 /\ shorter rest p.
Proof. intros Hp E. eapply reads_shorter; [lia|done|]. rewrite <- E. now apply GetVarint32Ptr_reads. Qed.

Lemma GetVarint64_shorter p v rest : is_bytes p -> GetVarint64 p = Some (v, rest) -> number_ok v /\ shorter rest p.
Proof. intros Hp E. eapply (reads_shorter 64); [lia|done|]. rewrite <- E. now apply GetVarint64Ptr_reads. Qed.

Lemma GetSlice_shorter p s rest : is_bytes p -> GetLengthPrefixedSlice p = Some (s, rest) -> slice_ok s /\ shorter rest p.
Proof.
  unfold GetLengthPrefixedSlice. intros Hp E. destruct (GetVarint32 p) as [[v r]|] eqn:Ev; [|done].
  destruct (GetVarint32_shorter _ _ _ Hp Ev) as (Hv & Hr & Hl).
  destruct (Z.leb_spec v (Z.of_nat (length r))); [|done]. injection E as <- <-.
  repeat split; rewrite ?length_take, ?length_drop; try lia; [now apply Forall_take|now apply Forall_drop].
Qed.

Lemma GetInternalKey_shorter p k rest : is_bytes p -> GetInternalKey p = Some (k, rest) -> key_ok k /\ shorter rest p.
Proof.
  unfold GetInternalKey. intros Hp E. destruct (GetLengthPrefixedSlice p) as [[s r]|] eqn:Es; [|done].
  destruct (GetSlice_shorter _ _ _ Hp Es) as [Hs Hr]. destruct s; [done|]. injection E as <- <-. done.
Qed.

Lemma GetLevel_shorter p l rest : is_bytes p -> GetLevel p = Some (l, rest) -> level_ok l /\ shorter rest p.
Proof.
  unfold GetLevel. intros Hp E. destruct (GetVarint32 p) as [[v r]|] eqn:Ev; [|done].
  destruct (GetVarint32_shorter _ _ _ Hp Ev) as (Hv & Hr). destruct (Z.ltb_spec v (Z.of_nat kNumLevels)); [|done].
  injection E as <- <-. split; [split; [lia|done]|done].
Qed.

Lemma shorter_trans a b c : shorter a b -> shorter b c -> shorter a c.
Proof. intros [? ?] [? ?]. split; [done|lia]. Qed.

(** The next reader of the goal's hypothesis, with what it gives. *)
Ltac read_next :=
  match goal with
  | Hp : is_bytes ?p, E : context [match ?g ?p with Some _ => _ | None => _ end] |- _ =>
      let x := fresh "x" in let r := fresh "r" in let Eg := fresh "Eg" in
      destruct (g p) as [[x r]|] eqn:Eg; [|done];
      first [apply (GetLevel_shorter p x r Hp) in Eg | apply (GetInternalKey_shorter p x r Hp) in Eg
            | apply (GetVarint64_shorter p x r Hp) in Eg | apply (GetSlice_shorter p x r Hp) in Eg];
      destruct Eg as (? & ? & ?)
  end.

(** One entry: what is read is an entry that could have been written. *)
Lemma decode_field_item t input e e' rest : is_bytes input -> decode_field t input e = inl (e', rest) ->
  shorter rest input /\ exists i, item_ok i /\ e' = apply_item e i.
Proof.
  intros Hp E. destruct t; cbn [decode_field] in E; repeat read_next; injection E as <- <-.
  - split; [split; [done|lia]|]. now exists (IComparator x).
  - split; [split; [done|lia]|]. now exists (ILog x).
  - split; [split; [done|lia]|]. now exists (INextFile x).
  - split; [split; [done|lia]|]. now exists (ILastSequence x).
  - split; [split; [done|lia]|]. now exists (IPointer x x0).
  - split; [split; [done|lia]|]. now exists (IDeleted x x0).
  - split; [split; [done|lia]|]. now exists (INew x (MkFile x0 x1 x2 x3 (Z.shiftl 1 30))).
  - split; [split; [done|lia]|]. now exists (IPrevLog x).
Qed.

Lemma pair_lt_trans a b c : pair_lt a b = true -> pair_lt b c = true -> pair_lt a c = true.
Proof. unfold pair_lt. rewrite !orb_true_iff, !andb_true_iff, !Z.ltb_lt, !Z.eqb_eq. lia. Qed.

Lemma set_insert_elem x y l : List.In y (set_insert x l) -> y = x \/ List.In y l.
Proof.
  induction l as [|z l IH]; cbn [set_insert]; [intros [->|[]]; now left|].
  destruct (pair_lt x z); [intros [->|H]; auto|]. destruct (pair_lt z x); [|now right].
  intros [->|H]; [right; now left|]. destruct (IH H); [now left|right; now right].
Qed.

Lemma set_insert_sorted x l : StronglySorted (fun a b => pair_lt a b = true) l ->
  StronglySorted (fun a b => pair_lt a b = true) (set_insert x l).
Proof.
  induction 1 as [|z l Hl IH Hz]; cbn [set_insert]; [repeat constructor|].
  destruct (pair_lt x z) eqn:Exz; [|destruct (pair_lt z x) eqn:Ezx].
  - constructor; [now constructor|]. constructor; [done|]. eapply List.Forall_impl; [|exact Hz].
    intros a Ha. now apply (pair_lt_trans _ z).
  - constructor; [exact IH|]. apply List.Forall_forall. intros y Hy. rewrite List.Forall_forall in Hz.
    destruct (set_insert_elem _ _ _ Hy) as [->|Hy']; [done|now apply Hz].
  - now constructor.
Qed.

Lemma if_list_ok b i : Forall item_ok (if_list b i) <-> (b = true -> item_ok i).
Proof. destruct b; [|now split]. split; [intros H _; now apply List.Forall_inv in H|intros H; constructor; [now apply H|done]]. Qed.

Lemma items_of_ok e : Forall item_ok (items_of e) <->
  (has_comparator_ e = true -> slice_ok (comparator_ e)) /\ (has_log_number_ e = true -> number_ok (log_number_ e)) /\
  (has_prev_log_number_ e = true -> number_ok (prev_log_number_ e)) /\
  (has_next_file_number_ e = true -> number_ok (next_file_number_ e)) /\
  (has_last_sequence_ e = true -> number_ok (last_sequence_ e)) /\
  Forall (fun p => item_ok (IPointer p.1 p.2)) (compact_pointers_ e) /\
  Forall (fun p => item_ok (IDeleted p.1 p.2)) (deleted_files_ e) /\
  Forall (fun p => item_ok (INew p.1 p.2)) (new_files_ e).
Proof. unfold items_of. now rewrite !Forall_app, !if_list_ok, !List.Forall_map. Qed.

(** An edit keeps its form as entries are added. *)
Lemma apply_item_ok e i : edit_ok e -> item_ok i -> edit_ok (apply_item e i).
Proof.
  intros [Hi H1 H2 H3 H4 H5 Hd] Hok. apply items_of_ok in Hi.
  constructor; [apply items_of_ok; destruct Hi as (I1 & I2 & I3 & I4 & I5 & I6 & I7 & I8)|..];
    destruct i as [s|n|n|n|n|l k|l n|l f]; cbn in *; try done.
  - do 5 (split; [done|]). split_and!; try done. apply Forall_app_2; [done|]. apply List.Forall_cons; [exact Hok|done].
  - do 6 (split; [done|]). split; [|done]. rewrite List.Forall_forall in *. intros y Hy.
    destruct (set_insert_elem _ _ _ Hy) as [->|Hy']; [done|now apply I7].
  - do 5 (split; [done|]). split_and!; try done. apply Forall_app_2; [done|]. apply List.Forall_cons; [exact Hok|done].
  - now apply set_insert_sorted.
Qed.

Lemma decode_loop_ok fuel input e : is_bytes input -> (length input < fuel)%nat -> edit_ok e ->
  exists st e', decode_loop fuel input e = Some (st, e') /\ edit_ok e' /\
    exists items, Forall item_ok items /\ e' = fold_left apply_item items e.
Proof.
  revert input e. induction fuel as [|fuel IH]; intros input e Hp Hf He; [lia|]. cbn [decode_loop].
  destruct (GetVarint32 input) as [[tag r]|] eqn:Et; [|do 2 eexists; split; [done|split; [done|now exists []]]].
  destruct (GetVarint32_shorter _ _ _ Hp Et) as (_ & Hr & Hl).
  destruct (tag_of_code tag) as [t|]; [|do 2 eexists; split; [done|split; [done|now exists []]]].
  destruct (decode_field t r e) as [[e1 rest]|msg] eqn:Ed; [|do 2 eexists; split; [done|split; [done|now exists []]]].
  destruct (decode_field_item t r e e1 rest Hr Ed) as ([Hb Hs] & i & Hi & ->).
  destruct (IH rest (apply_item e i)) as (st & e' & E & He' & items & Hit & ->);
    [done|lia|now apply apply_item_ok|].
  do 2 eexists. split; [exact E|]. split; [done|]. exists (i :: items). now split; [constructor|].
Qed.

Lemma make_edit_ok : edit_ok make_VersionEdit.
Proof. constructor; try done; constructor. Qed.

Lemma edit_roundtrip e0 e : edit_ok e ->
  Edit_DecodeFrom e0 (Edit_EncodeTo e []) =
  Some (OK, MkEdit (comparator_ e) (log_number_ e) (prev_log_number_ e) (next_file_number_ e) (last_sequence_ e)
    (has_comparator_ e) (has_log_number_ e) (has_prev_log_number_ e) (has_next_file_number_ e) (has_last_sequence_ e)
    (compact_pointers_ e0 ++ compact_pointers_ e) (deleted_files_ e) (new_files_ e)).
Proof.
  intros He. unfold Edit_DecodeFrom. rewrite EncodeTo_items. cbn [app].
  rewrite decode_items by (try lia; apply He). now rewrite apply_items.
Qed.

(** C34: The record of a version edit is read back as it was written: decoding
    the encoding of an edit with a fresh edit object gives status OK and the
    same edit, with its comparator name, its numbers and their flags, its
    compaction pointers, deleted files and new files in order.  Decoding into an
    object that was used before keeps that object's compaction pointers in
    front, since [Clear] does not empty them. *)
Theorem version_edit_roundtrip e : edit_ok e ->
  Edit_DecodeFrom make_VersionEdit (Edit_EncodeTo e []) = Some (OK, e) /\
  (forall e0 st e', Edit_DecodeFrom e0 (Edit_EncodeTo e []) = Some (st, e') ->
     st = OK /\ compact_pointers_ e' = compact_pointers_ e0 ++ compact_pointers_ e /\ new_files_ e' = new_files_ e).
Proof.
  intros He. split; [rewrite edit_roundtrip by done; now destruct e|].
  intros e0 st e' E. rewrite edit_roundtrip in E by done. apply Some_inj, pair_equal_spec in E as [<- <-]. done.
Qed.

(** Decoding accepts no ill-formed edit and always returns.  For any bytes
    the loop ends within the length of the input, with success or a corruption
    status, and the edit it leaves - after an error the fields read before it -
    has levels below the number of levels, non-empty keys, 64-bit numbers and a
    sorted set of deleted files; so it can be encoded and read back. *)
Theorem version_edit_decode_total src : is_bytes src ->
  exists st e, Edit_DecodeFrom make_VersionEdit src = Some (st, e) /\ edit_ok e /\
    Edit_DecodeFrom make_VersionEdit (Edit_EncodeTo e []) = Some (OK, e).
Proof.
  intros Hs. unfold Edit_DecodeFrom at 1.
  destruct (decode_loop_ok (S (length src)) src (Edit_Clear make_VersionEdit)) as (st & e & E & He & _);
    [done|lia|apply make_edit_ok|].
  exists st, e. split; [exact E|]. split; [done|]. rewrite edit_roundtrip by done. now destruct e.
Qed.

Definition example_edit : VersionEdit :=
  AddFile 2 9 4096 [97; 1; 0; 0; 0; 0; 0; 0; 0] [122; 1; 0; 0; 0; 0; 0; 0; 0]
    (RemoveFile 1 7 (RemoveFile 1 3 (SetCompactPointer 1 [98; 1; 0; 0; 0; 0; 0; 0; 0]
      (SetLastSequence 300 (SetNextFile 12 (SetLogNumber 8 (SetComparatorName [97; 98] make_VersionEdit))))))).

Lemma example_edit_ok : edit_ok example_edit.
Proof.
  unfold example_edit, AddFile.
  repeat match goal with
  | |- edit_ok (push_file ?l ?f ?e) => change (edit_ok (apply_item e (INew l f)))
  | |- edit_ok (RemoveFile ?l ?f ?e) => change (edit_ok (apply_item e (IDeleted l f)))
  | |- edit_ok (SetCompactPointer ?l ?f ?e) => change (edit_ok (apply_item e (IPointer l f)))
  | |- edit_ok (SetLastSequence ?n ?e) => change (edit_ok (apply_item e (ILastSequence n)))
  | |- edit_ok (SetNextFile ?n ?e) => change (edit_ok (apply_item e (INextFile n)))
  | |- edit_ok (SetLogNumber ?n ?e) => change (edit_ok (apply_item e (ILog n)))
  | |- edit_ok (SetComparatorName ?n ?e) => change (edit_ok (apply_item e (IComparator n)))
  | |- edit_ok (apply_item ?e ?i) => apply apply_item_ok
  end; try apply make_edit_ok;
    cbn; unfold level_ok, number_ok, key_ok, slice_ok, is_bytes, is_byte; repeat split; try (repeat constructor; lia);
    try done; cbn; lia.
Qed.

Lemma version_edit_roundtrip_witness :
  Edit_DecodeFrom make_VersionEdit (Edit_EncodeTo example_edit []) = Some (OK, example_edit).
Proof. exact (proj1 (version_edit_roundtrip example_edit example_edit_ok)). Defined.

Lemma version_edit_decode_total_witness :
  exists st e, Edit_DecodeFrom make_VersionEdit [2; 8; 7; 9; 1] = Some (st, e) /\ edit_ok e /\
    Edit_DecodeFrom make_VersionEdit (Edit_EncodeTo e []) = Some (OK, e).
Proof. apply (version_edit_decode_total [2; 8; 7; 9; 1]). unfold is_bytes, is_byte. repeat constructor; lia. Defined.

(** A level that is out of range ends the decoding after the log number. *)
Example decode_bad_level :
  Edit_DecodeFrom make_VersionEdit [2; 8; 7; 9; 1] =
  Some (edit_corrupt "new-file entry", SetLogNumber 8 make_VersionEdit).
Proof. reflexivity. Qed.

(** [Clear] keeps the compaction pointers of the edit. *)
Lemma Clear_keeps_pointers e : compact_pointers_ (Edit_Clear e) = compact_pointers_ e.
Proof. reflexivity. Qed.
