(* ===== verification/LvBuilder.v ===== *)
(** * leveldb: new versions from edits (VersionSet::Builder and VersionSet::Finalize of db/version_set.cc)

    A builder collects the changes that a sequence of edits makes to the files
    of a version, level by level, and writes the resulting version; [Finalize]
    then picks the level to compact next.  The assertions of the code are not
    steps of the model: LvBuilderProps shows that the files are in order. *)
From Stdlib Require Import ZArith Lia Bool List SpecFloat.
From stdpp Require Import base list gmap numbers.
From S2P Require Import Prelude LvCoding LvEnv LvComparator LvDbFormat LvVersion LvVersionEdit.

Definition kL0_CompactionTrigger : Z := 4.

Section Builder.
Context (ucmp : Comparator).
Notation icmp := (internal_compare ucmp).

(** [BySmallestKey] *)
Definition BySmallestKey (f1 f2 : FileMetaData) : bool :=
  let r := icmp (f_smallest f1) (f_smallest f2) in
  if negb (r =? 0) then r <? 0 else f_number f1 <? f_number f2.

(** [std::set::insert] of a [FileSet]: an equivalent element stays. *)
Fixpoint FileSet_insert (f : FileMetaData) (l : list FileMetaData) : list FileMetaData :=
  match l with
  | [] => [f]
  | g :: l' =>
      if BySmallestKey f g then f :: l
      else if BySmallestKey g f then g :: FileSet_insert f l' else l
  end.

Record LevelState := MkLevelState { deleted_files : gset Z; added_files : list FileMetaData }.

(** The base version, one state per level, and the compaction pointers, which
    belong to the version set and are updated as edits are applied. *)
Record Builder := MkBuilder {
  base_ : Version;
  levels_ : list LevelState;
  compact_pointer_ : list (list Z);
}.

Definition make_Builder (base : Version) (compact_pointer : list (list Z)) : Builder :=
  MkBuilder base (replicate kNumLevels (MkLevelState ∅ [])) compact_pointer.

(** An access to one of the arrays outside its bounds has no result. *)
Definition update_at {A} (level : Z) (f : A -> A) (l : list A) : option (list A) :=
  if level <? 0 then None
  else match l !! Z.to_nat level with
       | Some x => Some (<[Z.to_nat level := f x]> l)
       | None => None
       end.

Fixpoint fold_option {A B} (f : A -> B -> option A) (l : list B) (a : A) : option A :=
  match l with
  | [] => Some a
  | b :: l => match f a b with Some a => fold_option f l a | None => None end
  end.

(** The seeks a file of this size may cost before it is compacted. *)
Definition seeks_for (file_size : Z) : Z :=
  let allowed_seeks := s32 (file_size / 16384) in
  if allowed_seeks <? 100 then 100 else allowed_seeks.

Definition delete_file (s : LevelState) (number : Z) : LevelState :=
  MkLevelState ({[number]} ∪ deleted_files s) (added_files s).

Definition with_seeks (f : FileMetaData) : FileMetaData :=
  MkFile (f_number f) (f_file_size f) (f_smallest f) (f_largest f) (seeks_for (f_file_size f)).

Definition add_file (s : LevelState) (f : FileMetaData) : LevelState :=
  let f := with_seeks f in
  MkLevelState (deleted_files s ∖ {[f_number f]}) (FileSet_insert f (added_files s)).

Definition Apply (b : Builder) (edit : VersionEdit) : option Builder :=
  match fold_option (fun ptrs p => update_at p.1 (fun _ => p.2) ptrs) (compact_pointers_ edit) (compact_pointer_ b) with
  | None => None
  | Some ptrs =>
      match fold_option (fun ls p => update_at p.1 (fun s => delete_file s p.2) ls) (deleted_files_ edit) (levels_ b) with
      | None => None
      | Some ls =>
          match fold_option (fun ls p => update_at p.1 (fun s => add_file s p.2) ls) (new_files_ edit) ls with
          | None => None
          | Some ls => Some (MkBuilder (base_ b) ls ptrs)
          end
      end
  end.

Definition MaybeAddFile (deleted : gset Z) (files : list FileMetaData) (f : FileMetaData) : list FileMetaData :=
  if decide (f_number f ∈ deleted) then files else files ++ [f].

(** [std::upper_bound]: the elements before the first one that is after [f],
    and the others. *)
Fixpoint upper_bound (f : FileMetaData) (l : list FileMetaData) : list FileMetaData * list FileMetaData :=
  match l with
  | [] => ([], [])
  | g :: l' =>
      if BySmallestKey f g then ([], l)
      else let '(before, rest) := upper_bound f l' in (g :: before, rest)
  end.

(** The files of one level of the new version. *)
Fixpoint save_level (deleted : gset Z) (base added files : list FileMetaData) : list FileMetaData :=
  match added with
  | [] => fold_left (MaybeAddFile deleted) base files
  | added_file :: added =>
      let '(smaller, base) := upper_bound added_file base in
      let files := fold_left (MaybeAddFile deleted) smaller files in
      save_level deleted base added (MaybeAddFile deleted files added_file)
  end.

Definition SaveTo (b : Builder) (v : Version) : Version :=
  MkVersion
    (imap (fun level files =>
       match levels_ b !! level with
       | Some s => save_level (deleted_files s) (level_files (base_ b) level) (added_files s) files
       | None => files
       end) (files_ v))
    (file_to_compact_ v) (file_to_compact_level_ v) (compaction_score_ v) (compaction_level_ v).

(** ** Finalize *)

Fixpoint max_bytes_loop (level : nat) (result : spec_float) : spec_float :=
  match level with
  | S (S _ as level) => max_bytes_loop level (double_mul result (double_of 10))
  | _ => result
  end.

Definition MaxBytesForLevel (level : nat) : spec_float :=
  max_bytes_loop level (double_mul (double_of 10) (double_of 1048576)).

Definition level_score (v : Version) (level : nat) : spec_float :=
  match level with
  | O => double_div (double_of (Z.of_nat (length (level_files v level)))) (double_of kL0_CompactionTrigger)
  | _ => double_div (double_of (u64 (TotalFileSize (level_files v level)))) (MaxBytesForLevel level)
  end.

Definition Finalize_loop (v : Version) : Z * spec_float :=
  fold_left (fun best level =>
      let score := level_score v level in
      if SFltb best.2 score then (Z.of_nat level, score) else best)
    (seq 0 (kNumLevels - 1)) (-1, double_of (-1)).

Definition Finalize (v : Version) : Version :=
  let '(best_level, best_score) := Finalize_loop v in
  MkVersion (files_ v) (file_to_compact_ v) (file_to_compact_level_ v) best_score best_level.

End Builder.

Arguments Finalize_loop : simpl never.
