(* ===== verification/LvBuilderProps.v ===== *)
(** * leveldb: new versions are what the edits say (theorems about LvBuilder)

    The files of a level that a builder writes are in the order of their
    smallest keys and are exactly those of the base version and the edits that
    were not deleted; applying a whole sequence of edits with one builder gives
    the version that applying them one by one gives; and the level chosen for
    the next compaction exists and has files when its score asks for one. *)
From Stdlib Require Import ZArith Lia Bool List Sorted SpecFloat Permutation.
From stdpp Require Import base list gmap numbers sorting.
From S2P Require Import Prelude LvCoding LvEnv LvComparator LvDbFormat LvWriteBatch LvVersion LvVersionEdit LvBuilder.

(** ** Order *)

Section Order.
Context {C : Comparator} {valid : list Z -> Prop} {CL : ComparatorLaws C valid}.
Notation icmp := (internal_compare C).
Notation ivalid := (internal_valid valid).

Definition file_lt (f g : FileMetaData) : Prop := BySmallestKey C f g = true.
Definition smallest_valid (f : FileMetaData) : Prop := ivalid (f_smallest f).

Lemma file_lt_iff f g : file_lt f g <->
  icmp (f_smallest f) (f_smallest g) < 0 \/
  icmp (f_smallest f) (f_smallest g) = 0 /\ f_number f < f_number g.
Proof.
  unfold file_lt, BySmallestKey. destruct (Z.eqb_spec (icmp (f_smallest f) (f_smallest g)) 0); simpl; rewrite Z.ltb_lt; lia.
Qed.

Lemma icmp_eq_sym a b : ivalid a -> ivalid b -> icmp a b = 0 -> icmp b a = 0.
Proof.
  intros Ha Hb H. assert (IL := internal_laws (C := C) (valid := valid)). now apply (@Compare_eq_sym _ _ IL).
Qed.

Lemma icmp_flip_lt a b : ivalid a -> ivalid b -> icmp a b < 0 <-> 0 < icmp b a.
Proof.
  intros Ha Hb. assert (IL := internal_laws (C := C) (valid := valid)).
  pose proof (@Compare_flip _ _ IL a b Ha Hb) as H1. pose proof (@Compare_flip _ _ IL b a Hb Ha) as H2.
  pose proof (@Compare_eq_sym _ _ IL a b Ha Hb) as H3. simpl in *. lia.
Qed.

Lemma file_lt_trans f g h : smallest_valid f -> smallest_valid g -> smallest_valid h ->
  file_lt f g -> file_lt g h -> file_lt f h.
Proof.
  rewrite !file_lt_iff. intros Hf Hg Hh H1 H2. assert (IL := internal_laws (C := C) (valid := valid)).
  assert (Hle : icmp (f_smallest f) (f_smallest h) <= 0).
  { apply (@Compare_trans _ _ IL _ (f_smallest g)); [done|done|done|simpl; lia|simpl; lia]. }
  destruct (Z.eq_dec (icmp (f_smallest f) (f_smallest h)) 0) as [E|N]; [|lia].
  apply icmp_eq_sym in E as E'; [|done|done].
  assert (~ icmp (f_smallest f) (f_smallest g) < 0).
  { intros Hx. assert (Hy : icmp (f_smallest h) (f_smallest g) < 0).
    { apply (@Compare_le_lt_trans _ _ IL _ (f_smallest f)); [done|done|done|simpl; lia|exact Hx]. }
    apply icmp_flip_lt in Hy; [lia|done|done]. }
  assert (~ icmp (f_smallest g) (f_smallest h) < 0); [|lia].
  intros Hx. assert (Hy : icmp (f_smallest g) (f_smallest f) < 0).
  { apply (@Compare_lt_le_trans _ _ IL _ (f_smallest h)); [done|done|done|exact Hx|simpl; lia]. }
  apply icmp_flip_lt in Hy; [lia|done|done].
Qed.

Lemma file_lt_irrefl f : smallest_valid f -> ~ file_lt f f.
Proof.
  rewrite file_lt_iff. intros Hf. assert (IL := internal_laws (C := C) (valid := valid)).
  pose proof (@Compare_refl _ _ IL _ Hf) as E. simpl in E. lia.
Qed.

Lemma file_lt_total f g : smallest_valid f -> smallest_valid g -> f_number f <> f_number g ->
  ~ file_lt f g -> file_lt g f.
Proof.
  rewrite !file_lt_iff. intros Hf Hg Hn H. pose proof (icmp_flip_lt _ _ Hf Hg). pose proof (icmp_flip_lt _ _ Hg Hf).
  pose proof (icmp_eq_sym _ _ Hf Hg). lia.
Qed.

(** Sorted lists of files with the same elements are equal. *)
Lemma files_sorted_unique l1 l2 :
  Forall smallest_valid l1 -> StronglySorted file_lt l1 -> StronglySorted file_lt l2 ->
  (forall f, f ∈ l1 <-> f ∈ l2) -> l1 = l2.
Proof.
  intros Hv H1 H2 He.
  assert (Hv2 : Forall smallest_valid l2).
  { rewrite Forall_forall in *. intros f Hf. now apply Hv, He. }
  assert (Hnd : forall l, Forall smallest_valid l -> StronglySorted file_lt l -> NoDup l).
  { clear -CL. induction 2 as [|f l Hs IH Hf]; [constructor|]. apply List.Forall_cons_iff in H as [Hvf Hvl].
    constructor; [|now apply IH]. intros Hin. rewrite Forall_forall in Hf. now apply (file_lt_irrefl f), Hf. }
  rewrite Forall_forall in Hv, Hv2.
  apply (StronglySorted_unique_strong file_lt); [|done|done|].
  - intros f g Hf Hg Hfg Hgf. exfalso. apply (file_lt_irrefl f); [now apply Hv|].
    apply (file_lt_trans f g f); auto.
  - apply NoDup_Permutation; [| |done]; apply Hnd; try done; now apply Forall_forall.
Qed.

(** ** One level *)

(** The order in which the files of the base and the added ones are visited. *)
Fixpoint visit (base added : list FileMetaData) : list FileMetaData :=
  match added with
  | [] => base
  | a :: added => let '(smaller, base) := upper_bound C a base in smaller ++ a :: visit base added
  end.

Definition keep (deleted : gset Z) (l : list FileMetaData) : list FileMetaData :=
  filter (fun f => f_number f ∉ deleted) l.

Lemma MaybeAddFile_fold deleted l files : fold_left (MaybeAddFile deleted) l files = files ++ keep deleted l.
Proof.
  revert files. induction l as [|f l IH]; intros files; cbn [fold_left]; [now rewrite app_nil_r|].
  rewrite IH. unfold MaybeAddFile, keep. rewrite filter_cons.
  destruct (decide (f_number f ∈ deleted)), (decide (f_number f ∉ deleted)); try done. now rewrite <- app_assoc.
Qed.

Lemma save_level_visit deleted base added files :
  save_level C deleted base added files = files ++ keep deleted (visit base added).
Proof.
  revert base files. induction added as [|a added IH]; intros base files; cbn [save_level visit];
    [apply MaybeAddFile_fold|].
  destruct (upper_bound C a base) as [smaller rest]. rewrite IH, MaybeAddFile_fold.
  change (MaybeAddFile deleted (files ++ keep deleted smaller) a) with
    (fold_left (MaybeAddFile deleted) [a] (files ++ keep deleted smaller)).
  rewrite MaybeAddFile_fold. unfold keep. rewrite filter_app, (filter_app _ [a] (visit rest added) : filter _ (a :: _) = _).
  now rewrite <- !app_assoc.
Qed.

Lemma upper_bound_app f l smaller rest : upper_bound C f l = (smaller, rest) -> l = smaller ++ rest.
Proof.
  revert smaller. induction l as [|g l IH]; intros smaller; cbn [upper_bound]; [intros [= <- <-]; done|].
  destruct (BySmallestKey C f g); [intros [= <- <-]; done|].
  destruct (upper_bound C f l) as [b r]. intros [= <- <-]. simpl. f_equal. now apply IH.
Qed.

Lemma upper_bound_smaller f l smaller rest : upper_bound C f l = (smaller, rest) ->
  Forall (fun g => ~ file_lt f g) smaller.
Proof.
  revert smaller. induction l as [|g l IH]; intros smaller; cbn [upper_bound]; [intros [= <- <-]; constructor|].
  destruct (BySmallestKey C f g) eqn:E; [intros [= <- <-]; constructor|].
  destruct (upper_bound C f l) as [b r]. intros [= <- <-]. constructor; [unfold file_lt; now rewrite E|now apply IH].
Qed.

Lemma upper_bound_rest f l smaller rest : Forall smallest_valid l -> smallest_valid f -> StronglySorted file_lt l ->
  upper_bound C f l = (smaller, rest) -> Forall (fun g => file_lt f g) rest.
Proof.
  intros Hv Hf Hs. revert smaller. induction Hs as [|g l Hs IH Hg]; intros smaller; cbn [upper_bound];
    [intros [= <- <-]; constructor|].
  apply List.Forall_cons_iff in Hv as [Hvg Hvl]. destruct (BySmallestKey C f g) eqn:E.
  - intros [= <- <-]. constructor; [done|]. rewrite Forall_forall in *. intros h Hh.
    apply (file_lt_trans f g h); auto.
  - destruct (upper_bound C f l) as [b r]. intros [= <- <-]. now apply (IH Hvl b).
Qed.

Lemma visit_perm base added : Permutation (visit base added) (base ++ added).
Proof.
  revert base. induction added as [|a added IH]; intros base; cbn [visit]; [now rewrite app_nil_r|].
  destruct (upper_bound C a base) as [smaller rest] eqn:E. apply upper_bound_app in E as ->.
  rewrite IH, <- !app_assoc. apply Permutation_app_head. apply Permutation_middle.
Qed.

Lemma visit_sorted base added :
  Forall smallest_valid (base ++ added) -> StronglySorted file_lt base -> StronglySorted file_lt added ->
  (forall f g, f ∈ base -> g ∈ added -> f_number f <> f_number g) ->
  StronglySorted file_lt (visit base added).
Proof.
  intros Hv Hb Ha Hn. revert base Hv Hb Hn.
  induction Ha as [|a added Ha IH Hlt]; intros base Hv Hb Hn; cbn [visit]; [done|].
  apply Forall_app in Hv as [Hvb Hva]. apply List.Forall_cons_iff in Hva as [Hva Hvd].
  destruct (upper_bound C a base) as [smaller rest] eqn:E.
  pose proof (upper_bound_app _ _ _ _ E) as Eb. pose proof (upper_bound_smaller _ _ _ _ E) as Hs.
  pose proof (upper_bound_rest _ _ _ _ Hvb Hva Hb E) as Hr. subst base.
  apply Forall_app in Hvb as [Hvs Hvr]. apply StronglySorted_app in Hb as (Hsr & Hsort & Hrest).
  rewrite Forall_forall in Hvs, Hvr, Hvd, Hs, Hlt.
  assert (Hvis : StronglySorted file_lt (visit rest added)).
  { apply IH; [|done|]; [apply Forall_app; split; now apply Forall_forall|].
    intros f g Hf Hg. apply Hn; [apply elem_of_app; now right|now right]. }
  assert (Hsa : forall f, f ∈ smaller -> file_lt f a).
  { intros f Hf. apply file_lt_total; [done|now apply Hvs| |now apply Hs].
    apply not_eq_sym, Hn; [apply elem_of_app; now left|now left]. }
  assert (Hav : forall f, f ∈ visit rest added -> file_lt a f).
  { intros f Hf. rewrite (visit_perm rest added) in Hf. apply elem_of_app in Hf as [Hf|Hf].
    - rewrite Forall_forall in Hr. now apply Hr.
    - now apply Hlt. }
  assert (Hvv : forall f, f ∈ visit rest added -> smallest_valid f).
  { intros f Hf. rewrite (visit_perm rest added) in Hf. apply elem_of_app in Hf as [Hf|Hf]; auto. }
  apply StronglySorted_app. split; [|split; [done|]].
  - intros f g Hf Hg. apply elem_of_cons in Hg as [->|Hg]; [now apply Hsa|].
    apply (file_lt_trans f a g); auto.
  - constructor; [done|]. now apply Forall_forall.
Qed.

End Order.

Lemma filter_keep_all {A} (P : A -> Prop) `{forall x, Decision (P x)} (l : list A) : (forall x, x ∈ l -> P x) -> filter P l = l.
Proof.
  induction l as [|x l IH]; intros Hl; [done|]. rewrite filter_cons_True by (apply Hl; now left).
  f_equal. apply IH. intros y Hy. apply Hl. now right.
Qed.

Lemma filter_keep_none {A} (P : A -> Prop) `{forall x, Decision (P x)} (l : list A) : (forall x, x ∈ l -> ~ P x) -> filter P l = [].
Proof.
  induction l as [|x l IH]; intros Hl; [done|]. rewrite filter_cons_False by (apply Hl; now left).
  apply IH. intros y Hy. apply Hl. now right.
Qed.

Lemma sorted_filter {A} (R : A -> A -> Prop) (P : A -> Prop) `{forall x, Decision (P x)} (l : list A) :
  StronglySorted R l -> StronglySorted R (filter P l).
Proof.
  induction 1 as [|x l Hs IH Hx]; [constructor|]. rewrite filter_cons. destruct (decide (P x)); [|done].
  constructor; [done|]. rewrite Forall_forall in *. intros y Hy. apply list_elem_of_filter in Hy as [_ Hy]. auto.
Qed.

(** ** Updates of an array, level by level *)

Lemma update_at_ok {A} level (f : A -> A) l : 0 <= level < Z.of_nat (length l) ->
  exists x, l !! Z.to_nat level = Some x /\ update_at level f l = Some (<[Z.to_nat level := f x]> l).
Proof.
  intros H. destruct (lookup_lt_is_Some_2 l (Z.to_nat level)) as [x Hx]; [lia|].
  exists x. split; [done|]. unfold update_at. destruct (Z.ltb_spec level 0); [lia|]. now rewrite Hx.
Qed.

(** Those of a list of changes that concern one level. *)
Definition at_level {B} (level : nat) (l : list (Z * B)) : list B :=
  map snd (filter (fun p => p.1 = Z.of_nat level) l).

Lemma at_level_cons {B} level (p : Z * B) l :
  at_level level (p :: l) = if decide (p.1 = Z.of_nat level) then p.2 :: at_level level l else at_level level l.
Proof. unfold at_level. rewrite filter_cons. now destruct (decide _). Qed.

Lemma at_level_app {B} level (l1 l2 : list (Z * B)) : at_level level (l1 ++ l2) = at_level level l1 ++ at_level level l2.
Proof. unfold at_level. now rewrite filter_app, map_app. Qed.

Lemma fold_update {A B} (g : A -> B -> A) (changes : list (Z * B)) (l : list A) :
  Forall (fun p => 0 <= p.1 < Z.of_nat (length l)) changes ->
  exists l', fold_option (fun ls p => update_at p.1 (fun x => g x p.2) ls) changes l = Some l' /\
    length l' = length l /\
    forall i x, l !! i = Some x -> l' !! i = Some (fold_left g (at_level i changes) x).
Proof.
  revert l. induction changes as [|p changes IH]; intros l H; cbn [fold_option]; [now exists l|].
  apply List.Forall_cons_iff in H as [Hp H].
  destruct (update_at_ok p.1 (fun x => g x p.2) l Hp) as (y & Hy & ->).
  destruct (IH (<[Z.to_nat p.1 := g y p.2]> l)) as (l' & E & Hl & Hi);
    [now rewrite length_insert|]. exists l'. rewrite length_insert in Hl. split; [done|]. split; [done|].
  intros i x Hx. rewrite at_level_cons. destruct (decide (p.1 = Z.of_nat i)) as [Ep|Np].
  - rewrite Ep, Nat2Z.id in *. rewrite Hx in Hy. injection Hy as <-. apply (Hi i (g x p.2)).
    apply list_lookup_insert_eq. apply lookup_lt_Some in Hx. lia.
  - apply Hi. rewrite list_lookup_insert_ne; [done|lia].
Qed.

(** ** One edit on one level *)

Section Edits.
Context {C : Comparator} {valid : list Z -> Prop} {CL : ComparatorLaws C valid}.
Notation file_lt := (file_lt (C := C)).
Notation smallest_valid := (smallest_valid (valid := valid)).

Definition numbers (l : list FileMetaData) : list Z := map f_number l.

Lemma FileSet_insert_ok f l :
  smallest_valid f -> Forall smallest_valid l -> StronglySorted file_lt l -> f_number f ∉ numbers l ->
  StronglySorted file_lt (FileSet_insert C f l) /\ Permutation (FileSet_insert C f l) (f :: l).
Proof.
  intros Hf Hv Hs Hn. induction Hs as [|g l Hs IH Hg]; cbn [FileSet_insert]; [split; [repeat constructor|done]|].
  apply List.Forall_cons_iff in Hv as [Hvg Hvl]. apply not_elem_of_cons in Hn as [Hng Hn].
  destruct (BySmallestKey C f g) eqn:E1; [|destruct (BySmallestKey C g f) eqn:E2].
  - split; [|done]. constructor; [now constructor|]. constructor; [done|]. rewrite Forall_forall in *.
    intros h Hh. apply (file_lt_trans (valid := valid) f g h); auto.
  - destruct (IH Hvl Hn) as [Hs' Hp]. split.
    + constructor; [done|]. rewrite Hp. constructor; [done|done].
    + rewrite Hp. constructor.
  - exfalso. unfold LvBuilderProps.file_lt in *. enough (BySmallestKey C g f = true) by congruence.
    apply (file_lt_total (valid := valid) f g); [done|done|done|]. unfold LvBuilderProps.file_lt. congruence.
Qed.

Lemma delete_fold ns s :
  fold_left delete_file ns s = MkLevelState (list_to_set ns ∪ deleted_files s) (added_files s).
Proof.
  revert s. induction ns as [|n ns IH]; intros s; cbn [fold_left].
  - destruct s as [d a]. cbn. f_equal. set_solver.
  - rewrite IH. unfold delete_file. cbn. f_equal. set_solver.
Qed.

Lemma add_fold fs s :
  fold_left (add_file C) fs s =
  MkLevelState (deleted_files s ∖ list_to_set (numbers fs))
    (fold_left (fun l f => FileSet_insert C f l) (map with_seeks fs) (added_files s)).
Proof.
  revert s. induction fs as [|f fs IH]; intros s; cbn [fold_left map numbers].
  - destruct s as [d a]. cbn. f_equal. set_solver.
  - rewrite IH. unfold add_file. cbn. f_equal. set_solver.
Qed.

Lemma insert_fold fs l :
  Forall smallest_valid (fs ++ l) -> StronglySorted file_lt l -> NoDup (numbers (fs ++ l)) ->
  StronglySorted file_lt (fold_left (fun l f => FileSet_insert C f l) fs l) /\
  Permutation (fold_left (fun l f => FileSet_insert C f l) fs l) (fs ++ l).
Proof.
  revert l. induction fs as [|f fs IH]; intros l Hv Hs Hn; cbn [fold_left app]; [done|].
  cbn [app numbers map] in *. apply List.Forall_cons_iff in Hv as [Hf Hv]. apply NoDup_cons in Hn as [Hfn Hn].
  pose proof Hv as Hv'. apply Forall_app in Hv' as [Hvf Hvl].
  destruct (FileSet_insert_ok f l) as [Hs' Hp]; [done|done|done| |].
  { intros Hin. apply Hfn. unfold numbers. rewrite map_app. apply elem_of_app. now right. }
  destruct (IH (FileSet_insert C f l)) as [Hs2 Hp2]; [|done| |].
  - apply Forall_app. split; [done|]. rewrite Hp. now constructor.
  - unfold numbers. rewrite map_app, Hp. cbn [map]. rewrite <- Permutation_middle. constructor; [|].
    + now rewrite <- map_app.
    + now rewrite <- map_app.
  - split; [done|]. rewrite Hp2, Hp. symmetry. apply Permutation_middle.
Qed.

(** What an edit does to the set of files of a level. *)
Definition edit_deletes (e : VersionEdit) (level : nat) : list Z := at_level level (deleted_files_ e).
Definition edit_adds (e : VersionEdit) (level : nat) : list FileMetaData :=
  map with_seeks (at_level level (new_files_ e)).

Lemma numbers_with_seeks l : numbers (map with_seeks l) = numbers l.
Proof. unfold numbers. rewrite map_map. now apply map_ext. Qed.

(** The levels an edit names exist. *)
Definition levels_exist (e : VersionEdit) : Prop :=
  Forall (fun p => 0 <= p.1 < Z.of_nat kNumLevels) (compact_pointers_ e) /\
  Forall (fun p => 0 <= p.1 < Z.of_nat kNumLevels) (deleted_files_ e) /\
  Forall (fun p => 0 <= p.1 < Z.of_nat kNumLevels) (new_files_ e).

(** The files that the builder will write for a level. *)
Definition builder_level (b : Builder) (level : nat) : list FileMetaData :=
  match levels_ b !! level with
  | Some s => save_level C (deleted_files s) (level_files (base_ b) level) (added_files s) []
  | None => []
  end.

(** A builder in use: every level's added files are in order, differ in number
    from each other and from the base's. *)
Record builder_ok (b : Builder) : Prop := {
  bo_levels : length (levels_ b) = kNumLevels;
  bo_pointers : length (compact_pointer_ b) = kNumLevels;
  bo_base level : StronglySorted file_lt (level_files (base_ b) level);
  bo_added level s : levels_ b !! level = Some s -> StronglySorted file_lt (added_files s);
  bo_valid level s : levels_ b !! level = Some s ->
    Forall smallest_valid (level_files (base_ b) level ++ added_files s);
  bo_numbers level s : levels_ b !! level = Some s -> NoDup (numbers (level_files (base_ b) level ++ added_files s));
}.

Lemma builder_level_elem b level s f : levels_ b !! level = Some s ->
  f ∈ builder_level b level <->
  (f ∈ level_files (base_ b) level \/ f ∈ added_files s) /\ f_number f ∉ deleted_files s.
Proof.
  intros E. unfold builder_level. rewrite E, save_level_visit. cbn [app]. unfold keep.
  rewrite list_elem_of_filter, (visit_perm _ _), elem_of_app. tauto.
Qed.

Lemma builder_level_sorted b level : builder_ok b -> StronglySorted file_lt (builder_level b level).
Proof.
  intros [Hl Hp Hb Ha Hv Hn]. unfold builder_level. destruct (levels_ b !! level) as [s|] eqn:E; [|constructor].
  rewrite save_level_visit. cbn [app]. unfold keep.
  apply sorted_filter. apply (visit_sorted (valid := valid)); [now apply Hv|apply Hb|now apply (Ha level)|].
  intros f g Hf Hg Heq. specialize (Hn level s E). unfold numbers in Hn. rewrite map_app in Hn.
  apply NoDup_app in Hn as (_ & Hd & _). apply (Hd (f_number f)).
  - apply list_elem_of_fmap. now exists f.
  - rewrite Heq. apply list_elem_of_fmap. now exists g.
Qed.

(** All files of a level that the builder has seen. *)
Definition seen (b : Builder) (level : nat) : list FileMetaData :=
  level_files (base_ b) level ++ match levels_ b !! level with Some s => added_files s | None => [] end.

(** New files have new numbers and valid keys. *)
Definition edit_fresh (b : Builder) (e : VersionEdit) : Prop :=
  forall level, NoDup (numbers (edit_adds e level ++ seen b level)) /\ Forall smallest_valid (edit_adds e level).

(** The pointers after an edit. *)
Definition pointers_after (ptrs : list (list Z)) (e : VersionEdit) : list (list Z) :=
  fold_left (fun ptrs p => <[Z.to_nat p.1 := p.2]> ptrs) (compact_pointers_ e) ptrs.

Lemma pointers_fold changes ptrs : Forall (fun p => 0 <= p.1 < Z.of_nat (length ptrs)) changes ->
  fold_option (fun ptrs p => update_at p.1 (fun _ => p.2) ptrs) changes ptrs =
  Some (fold_left (fun ptrs (p : Z * list Z) => <[Z.to_nat p.1 := p.2]> ptrs) changes ptrs).
Proof.
  revert ptrs. induction changes as [|p changes IH]; intros ptrs H; cbn [fold_option fold_left]; [done|].
  apply List.Forall_cons_iff in H as [Hp H]. destruct (update_at_ok p.1 (fun _ => p.2) ptrs Hp) as (y & Hy & ->).
  apply IH. now rewrite length_insert.
Qed.

Lemma pointers_length e ptrs : length (pointers_after ptrs e) = length ptrs.
Proof.
  unfold pointers_after. revert ptrs. induction (compact_pointers_ e) as [|p l IH]; intros ptrs; cbn [fold_left]; [done|].
  now rewrite IH, length_insert.
Qed.

(** The state of a level after an edit. *)
Definition level_after (e : VersionEdit) (level : nat) (s : LevelState) : LevelState :=
  fold_left (add_file C) (at_level level (new_files_ e)) (fold_left delete_file (edit_deletes e level) s).

Lemma Apply_levels b e :
  length (levels_ b) = kNumLevels -> length (compact_pointer_ b) = kNumLevels -> levels_exist e ->
  exists ls, Apply C b e = Some (MkBuilder (base_ b) ls (pointers_after (compact_pointer_ b) e)) /\
    length ls = kNumLevels /\
    forall level s, levels_ b !! level = Some s -> ls !! level = Some (level_after e level s).
Proof.
  intros Hl Hp (Hc & Hd & Hn). unfold Apply. rewrite pointers_fold by now rewrite Hp.
  destruct (fold_update delete_file (deleted_files_ e) (levels_ b)) as (l1 & -> & Hl1 & H1); [now rewrite Hl|].
  destruct (fold_update (add_file C) (new_files_ e) l1) as (l2 & -> & Hl2 & H2); [now rewrite Hl1, Hl|].
  exists l2. split; [done|]. split; [congruence|]. intros level s Hs. apply H2, H1, Hs.
Qed.

Lemma level_after_is e level s :
  level_after e level s =
  MkLevelState ((list_to_set (edit_deletes e level) ∪ deleted_files s) ∖ list_to_set (numbers (edit_adds e level)))
    (fold_left (fun l f => FileSet_insert C f l) (edit_adds e level) (added_files s)).
Proof.
  unfold level_after. rewrite add_fold, delete_fold. cbn [deleted_files added_files].
  unfold edit_adds. now rewrite numbers_with_seeks.
Qed.

(** An edit adds its new files to a level and takes its deleted files away. *)
Lemma Apply_ok b e : builder_ok b -> levels_exist e -> edit_fresh b e ->
  exists b', Apply C b e = Some b' /\ builder_ok b' /\ base_ b' = base_ b /\
    compact_pointer_ b' = pointers_after (compact_pointer_ b) e /\
    (forall level, (level < kNumLevels)%nat -> Permutation (seen b' level) (edit_adds e level ++ seen b level)) /\
    forall level f, (level < kNumLevels)%nat ->
      f ∈ builder_level b' level <->
      f ∈ edit_adds e level \/ f ∈ builder_level b level /\ f_number f ∉ edit_deletes e level.
Proof.
  intros [Hl Hp Hb Ha Hv Hn] Hex Hfr.
  destruct (Apply_levels b e Hl Hp Hex) as (ls & E & Hls & Hlev).
  set (b' := MkBuilder (base_ b) ls (pointers_after (compact_pointer_ b) e)) in *.
  assert (Hstate : forall level, (level < kNumLevels)%nat -> exists s, levels_ b !! level = Some s /\
            ls !! level = Some (level_after e level s) /\
            StronglySorted file_lt (added_files (level_after e level s)) /\
            Permutation (added_files (level_after e level s)) (edit_adds e level ++ added_files s)).
  { intros level Hlt. destruct (lookup_lt_is_Some_2 (levels_ b) level) as [s Hs]; [lia|]. exists s.
    split; [done|]. split; [now apply Hlev|]. rewrite level_after_is. cbn [added_files].
    destruct (Hfr level) as [Hnd Hval]. unfold seen in Hnd. rewrite Hs in Hnd.
    pose proof (Hv level s Hs) as Hvs. apply Forall_app in Hvs as [_ Hvs].
    apply insert_fold; [apply Forall_app; now split|now apply (Ha level)|].
    eapply NoDup_Permutation_proper in Hnd;
      [|unfold numbers; rewrite !map_app; rewrite (Permutation_app_comm (map f_number (level_files _ _))), app_assoc; reflexivity].
    apply NoDup_app in Hnd as (Hnd & _). unfold numbers. now rewrite map_app. }
  assert (Hseen : forall level, (level < kNumLevels)%nat -> Permutation (seen b' level) (edit_adds e level ++ seen b level)).
  { intros level Hlt. destruct (Hstate level Hlt) as (s & Hs & Hs' & _ & Hperm). unfold seen. cbn [levels_ base_ b'].
    rewrite Hs, Hs', Hperm. rewrite !app_assoc. apply Permutation_app_tail, Permutation_app_comm. }
  exists b'. split; [exact E|].
  assert (Hin : forall level s', ls !! level = Some s' -> (level < kNumLevels)%nat).
  { intros level s' Hs'. apply lookup_lt_Some in Hs'. lia. }
  split; [constructor; cbn [levels_ base_ b' compact_pointer_]|].
  - done.
  - now rewrite pointers_length.
  - done.
  - intros level s' Hs'. destruct (Hstate level (Hin _ _ Hs')) as (s & Hs & Hs2 & Hsort & _).
    rewrite Hs' in Hs2. now injection Hs2 as ->.
  - intros level s' Hs'. pose proof (Hseen level (Hin _ _ Hs')) as Hperm. unfold seen in Hperm at 1.
    cbn [levels_ base_ b'] in Hperm. rewrite Hs' in Hperm. rewrite Hperm. apply Forall_app.
    split; [apply Hfr|]. unfold seen. destruct (levels_ b !! level) as [s|] eqn:Es; [now apply Hv|].
    destruct (Hstate level (Hin _ _ Hs')) as (s & Hs & _). congruence.
  - intros level s' Hs'. pose proof (Hseen level (Hin _ _ Hs')) as Hperm. unfold seen in Hperm at 1.
    cbn [levels_ base_ b'] in Hperm. rewrite Hs' in Hperm. unfold numbers. rewrite Hperm. apply Hfr.
  - split; [done|]. split; [done|]. split; [done|]. intros level f Hlt.
    destruct (Hstate level Hlt) as (s & Hs & Hs' & _ & Hperm).
    rewrite (builder_level_elem b' level _ f Hs'), (builder_level_elem b level s f Hs), Hperm, elem_of_app.
    rewrite level_after_is. cbn [deleted_files base_ b']. destruct (Hfr level) as [Hnd _].
    unfold seen in Hnd. rewrite Hs in Hnd. unfold numbers in Hnd. rewrite map_app in Hnd.
    apply NoDup_app in Hnd as (_ & Hd & _).
    assert (Hadd : f ∈ edit_adds e level -> f_number f ∈ numbers (edit_adds e level)).
    { intros Hf. apply list_elem_of_fmap. now exists f. }
    assert (Hold : f ∈ level_files (base_ b) level \/ f ∈ added_files s -> f_number f ∉ numbers (edit_adds e level)).
    { intros Hf Hin'. apply (Hd (f_number f) Hin'). rewrite map_app, elem_of_app.
      destruct Hf as [Hf|Hf]; [left|right]; apply list_elem_of_fmap; now exists f. }
    rewrite elem_of_difference, elem_of_union, !elem_of_list_to_set. tauto.
Qed.

(** ** A whole sequence of edits *)

Lemma seen_lt b level s : levels_ b !! level = Some s -> seen b level = level_files (base_ b) level ++ added_files s.
Proof. intros E. unfold seen. now rewrite E. Qed.

(** The files written are among those seen. *)
Lemma builder_level_numbers b level (extra : list FileMetaData) : builder_ok b -> (level < kNumLevels)%nat ->
  NoDup (numbers (extra ++ seen b level)) -> NoDup (numbers (extra ++ builder_level b level)).
Proof.
  intros Hok Hlt Hn. destruct (lookup_lt_is_Some_2 (levels_ b) level) as [s Hs]; [rewrite bo_levels; [lia|done]|].
  rewrite (seen_lt b level s Hs) in Hn. unfold builder_level. rewrite Hs, save_level_visit. cbn [app].
  unfold numbers, keep in *. rewrite <- (visit_perm (C := C) (level_files _ _)) in Hn. rewrite map_app in *.
  apply NoDup_app in Hn as (H1 & H2 & H3). apply NoDup_app. split; [done|].
  assert (Hsub : sublist (map f_number (filter (fun f => f_number f ∉ deleted_files s)
            (visit (C := C) (level_files (base_ b) level) (added_files s))))
            (map f_number (visit (C := C) (level_files (base_ b) level) (added_files s)))).
  { apply fmap_sublist, sublist_filter. }
  split; [|now apply (sublist_NoDup _ _ H3)].
  intros n Hn1 Hn2. apply (H2 n Hn1). now apply (elem_of_sublist _ _ n Hn2).
Qed.

Lemma make_Builder_level v ptrs level : (level < kNumLevels)%nat ->
  builder_level (make_Builder v ptrs) level = level_files v level /\ seen (make_Builder v ptrs) level = level_files v level.
Proof.
  intros Hlt. unfold builder_level, seen, make_Builder. cbn [levels_ base_].
  rewrite lookup_replicate_2 by done. cbn [deleted_files added_files]. rewrite save_level_visit, app_nil_r.
  split; [|done]. cbn [app visit]. unfold keep. apply filter_keep_all. intros. set_solver.
Qed.

(** What the version set needs of a version to build on it. *)
Record base_ok (v : Version) (ptrs : list (list Z)) : Prop := {
  ba_pointers : length ptrs = kNumLevels;
  ba_files : length (files_ v) = kNumLevels;
  ba_sorted level : StronglySorted file_lt (level_files v level);
  ba_valid level : Forall smallest_valid (level_files v level);
  ba_numbers level : NoDup (numbers (level_files v level));
}.

Lemma make_Builder_ok v ptrs : base_ok v ptrs -> builder_ok (make_Builder v ptrs).
Proof.
  intros [H1 H2 H3 H4 H5]. constructor; cbn [make_Builder levels_ base_ compact_pointer_]; try done;
    intros level s Hs; apply lookup_replicate in Hs as [-> _]; cbn [added_files]; rewrite ?app_nil_r; try done.
  constructor.
Qed.

Lemma SaveTo_level b level : (level < kNumLevels)%nat ->
  level_files (SaveTo C b make_Version) level = builder_level b level.
Proof.
  intros Hlt. unfold level_files, SaveTo, builder_level. cbn [files_ make_Version].
  rewrite list_lookup_imap, lookup_replicate_2 by done. cbn [fmap option_fmap option_map default].
  now destruct (levels_ b !! level).
Qed.

Lemma SaveTo_length b : length (files_ (SaveTo C b make_Version)) = kNumLevels.
Proof. unfold SaveTo. cbn [files_]. now rewrite length_imap. Qed.

Lemma SaveTo_above b level : (kNumLevels <= level)%nat -> level_files (SaveTo C b make_Version) level = [].
Proof.
  intros H. unfold level_files. rewrite lookup_ge_None_2; [done|]. now rewrite SaveTo_length.
Qed.

Lemma SaveTo_base b : builder_ok b -> base_ok (SaveTo C b make_Version) (compact_pointer_ b).
Proof.
  intros Hok.
  assert (Hlev : forall level, level_files (SaveTo C b make_Version) level = [] \/
            (level < kNumLevels)%nat /\ level_files (SaveTo C b make_Version) level = builder_level b level).
  { intros level. destruct (Nat.lt_ge_cases level kNumLevels); [right; split; [done|now apply SaveTo_level]|left; now apply SaveTo_above]. }
  constructor; [now apply bo_pointers|apply SaveTo_length|..]; intros level; destruct (Hlev level) as [->|[Hlt ->]];
    try constructor.
  - now apply builder_level_sorted.
  - destruct (lookup_lt_is_Some_2 (levels_ b) level) as [s Hs]; [rewrite bo_levels; [lia|done]|].
    apply Forall_forall. intros f Hf. apply (builder_level_elem b level s) in Hf as [Hf _]; [|done].
    pose proof (bo_valid b Hok level s Hs) as Hv. rewrite Forall_forall in Hv. apply Hv, elem_of_app, Hf.
  - apply (builder_level_numbers b level []); [done|done|]. cbn [app].
    destruct (lookup_lt_is_Some_2 (levels_ b) level) as [s Hs]; [rewrite bo_levels; [lia|done]|].
    rewrite (seen_lt b level s Hs). now apply (bo_numbers b Hok level s).
Qed.

(** The version that an edit installs, as [LogAndApply] computes it. *)
Definition install (v : Version) (ptrs : list (list Z)) (e : VersionEdit) : option (Version * list (list Z)) :=
  match Apply C (make_Builder v ptrs) e with
  | Some b => Some (Finalize (SaveTo C b make_Version), compact_pointer_ b)
  | None => None
  end.

Definition install_all (v : Version) (ptrs : list (list Z)) (es : list VersionEdit) : option (Version * list (list Z)) :=
  fold_option (fun s e => install s.1 s.2 e) es (v, ptrs).

Lemma Finalize_files v : files_ (Finalize v) = files_ v.
Proof. unfold Finalize. now destruct (Finalize_loop v). Qed.

Lemma Finalize_level v level : level_files (Finalize v) level = level_files v level.
Proof. unfold level_files. now rewrite Finalize_files. Qed.

Lemma Finalize_base v ptrs : base_ok v ptrs -> base_ok (Finalize v) ptrs.
Proof.
  intros [H1 H2 H3 H4 H5]. constructor; intros; rewrite ?Finalize_files, ?Finalize_level; auto.
Qed.

(** Fresh numbers for a whole sequence, given the files that were seen. *)
Definition edits_fresh (old : nat -> list FileMetaData) (es : list VersionEdit) : Prop :=
  Forall levels_exist es /\
  forall level, NoDup (numbers (concat (map (fun e => edit_adds e level) es) ++ old level)) /\
    Forall (fun e => Forall smallest_valid (edit_adds e level)) es.

Lemma no_adds e level : levels_exist e -> (kNumLevels <= level)%nat -> edit_adds e level = [].
Proof.
  intros (_ & _ & H) Hl. unfold edit_adds, at_level. rewrite filter_keep_none; [done|].
  intros p Hp. rewrite Forall_forall in H. specialize (H p Hp). unfold kNumLevels in *. lia.
Qed.

Lemma edits_fresh_cons old e es : edits_fresh old (e :: es) ->
  levels_exist e /\
  (forall level, NoDup (numbers (edit_adds e level ++ old level)) /\ Forall smallest_valid (edit_adds e level)) /\
  forall new, (forall level, (level < kNumLevels)%nat -> Permutation (new level) (edit_adds e level ++ old level)) ->
    (forall level, (kNumLevels <= level)%nat -> new level = old level) ->
    edits_fresh new es.
Proof.
  intros [Hex H]. apply List.Forall_cons_iff in Hex as [He Hex]. split; [done|]. split.
  - intros level. destruct (H level) as [Hn Hv]. split; [|now apply List.Forall_inv in Hv].
    cbn [map concat] in Hn. unfold numbers in *. rewrite !map_app in *.
    rewrite (Permutation_app_comm (map f_number (edit_adds e level))), <- app_assoc in Hn.
    now apply NoDup_app in Hn as (_ & _ & Hn).
  - intros new Hnew Habove. split; [done|]. intros level. destruct (H level) as [Hn Hv].
    split; [|now apply List.Forall_inv_tail in Hv].
    assert (Hp : Permutation (new level) (edit_adds e level ++ old level)).
    { destruct (Nat.lt_ge_cases level kNumLevels); [now apply Hnew|]. rewrite Habove, no_adds by done. done. }
    unfold numbers in *. rewrite Hp. cbn [map concat] in Hn. rewrite !map_app in *.
    rewrite <- app_assoc, !app_assoc in Hn. rewrite app_assoc.
    now rewrite (Permutation_app_comm (map f_number (concat _)) (map f_number (edit_adds e level))).
Qed.

(** The same edit on a builder in use and on the version it would write. *)
Lemma install_step b v e : builder_ok b -> base_ok v (compact_pointer_ b) ->
  (forall level, (level < kNumLevels)%nat -> level_files v level = builder_level b level) ->
  levels_exist e -> edit_fresh b e ->
  exists b' v', Apply C b e = Some b' /\ install v (compact_pointer_ b) e = Some (v', compact_pointer_ b') /\
    builder_ok b' /\ base_ok v' (compact_pointer_ b') /\
    (forall level, (level < kNumLevels)%nat -> level_files v' level = builder_level b' level) /\
    (forall level, (level < kNumLevels)%nat -> Permutation (seen b' level) (edit_adds e level ++ seen b level)) /\
    (forall level, (kNumLevels <= level)%nat -> seen b' level = seen b level) /\
    forall level f, (level < kNumLevels)%nat ->
      f ∈ level_files v' level <-> f ∈ edit_adds e level \/ f ∈ level_files v level /\ f_number f ∉ edit_deletes e level.
Proof.
  intros Hb Hv Heq Hex Hfr.
  destruct (Apply_ok b e Hb Hex Hfr) as (b' & Eb & Hb' & Bb & Pb & Sb & Lb).
  assert (Hfr2 : edit_fresh (make_Builder v (compact_pointer_ b)) e).
  { intros level. destruct (Hfr level) as [Hn Hval]. split; [|done].
    destruct (Nat.lt_ge_cases level kNumLevels) as [Hlt|Hge].
    - rewrite (proj2 (make_Builder_level v _ level Hlt)), Heq by done. now apply builder_level_numbers.
    - rewrite no_adds by done. cbn [app]. unfold seen, make_Builder. cbn [base_ levels_].
      rewrite lookup_ge_None_2 by now rewrite length_replicate. rewrite app_nil_r. apply Hv. }
  destruct (Apply_ok (make_Builder v (compact_pointer_ b)) e (make_Builder_ok _ _ Hv) Hex Hfr2)
    as (c & Ec & Hc & Bc & Pc & Sc & Lc).
  exists b', (Finalize (SaveTo C c make_Version)). split; [done|].
  cbn [make_Builder compact_pointer_] in Pc.
  assert (Epc : compact_pointer_ c = compact_pointer_ b') by congruence.
  split; [unfold install; now rewrite Ec, Epc|]. split; [done|].
  split; [rewrite <- Epc; now apply Finalize_base, SaveTo_base|].
  assert (Hlev : forall level, (level < kNumLevels)%nat -> builder_level c level = builder_level b' level).
  { intros level Hlt. apply (files_sorted_unique (C := C) (valid := valid));
      [|now apply builder_level_sorted|now apply builder_level_sorted|].
    - rewrite <- SaveTo_level by done. now apply SaveTo_base.
    - intros f. rewrite Lc, Lb by done. rewrite (proj1 (make_Builder_level v _ level Hlt)). now rewrite Heq. }
  split; [intros level Hlt; now rewrite Finalize_level, SaveTo_level, Hlev|].
  split; [done|]. split.
  - intros level Hge. unfold seen. rewrite Bb.
    rewrite !lookup_ge_None_2; [done|rewrite bo_levels; [lia|done]|rewrite bo_levels; [lia|done]].
  - intros level f Hlt. rewrite Finalize_level, SaveTo_level by done. rewrite Lc by done.
    now rewrite (proj1 (make_Builder_level v _ level Hlt)).
Qed.

(** The files of a level after a sequence of edits, as a list without order. *)
Definition replay (level : nat) (es : list VersionEdit) (files : list FileMetaData) : list FileMetaData :=
  fold_left (fun files e => filter (fun f => f_number f ∉ edit_deletes e level) files ++ edit_adds e level) es files.

Lemma replay_elem level es l1 l2 : (forall f, f ∈ l1 <-> f ∈ l2) -> forall f, f ∈ replay level es l1 <-> f ∈ replay level es l2.
Proof.
  revert l1 l2. induction es as [|e es IH]; intros l1 l2 H f; cbn [replay fold_left]; [apply H|].
  apply IH. intros g. rewrite !elem_of_app, !list_elem_of_filter, H. tauto.
Qed.

Lemma install_all_step es b v : builder_ok b -> base_ok v (compact_pointer_ b) ->
  (forall level, (level < kNumLevels)%nat -> level_files v level = builder_level b level) ->
  edits_fresh (seen b) es ->
  exists b' v', fold_option (Apply C) es b = Some b' /\
    install_all v (compact_pointer_ b) es = Some (v', compact_pointer_ b') /\
    builder_ok b' /\ base_ok v' (compact_pointer_ b') /\
    (forall level, (level < kNumLevels)%nat -> level_files v' level = builder_level b' level) /\
    forall level f, (level < kNumLevels)%nat -> f ∈ level_files v' level <-> f ∈ replay level es (level_files v level).
Proof.
  revert b v. induction es as [|e es IH]; intros b v Hb Hv Heq Hfr.
  { exists b, v. unfold install_all. cbn [fold_option replay fold_left]. done. }
  destruct (edits_fresh_cons _ _ _ Hfr) as (Hex & Hfe & Hrest).
  destruct (install_step b v e Hb Hv Heq Hex Hfe) as (b1 & v1 & E1 & E2 & Hb1 & Hv1 & Heq1 & Hs1 & Hs2 & Hl1).
  destruct (IH b1 v1 Hb1 Hv1 Heq1 (Hrest _ Hs1 Hs2)) as (b' & v' & E3 & E4 & Hb' & Hv' & Heq' & Hl').
  exists b', v'. unfold install_all in *. cbn [fold_option fst snd]. rewrite E1, E2.
  split; [done|]. split; [done|]. split; [done|]. split; [done|]. split; [done|].
  intros level f Hlt. rewrite Hl' by done. cbn [replay fold_left]. apply replay_elem. intros g.
  rewrite Hl1 by done. rewrite elem_of_app, list_elem_of_filter. tauto.
Qed.

Lemma files_ext v w : length (files_ v) = kNumLevels -> length (files_ w) = kNumLevels ->
  (forall level, (level < kNumLevels)%nat -> level_files v level = level_files w level) -> files_ v = files_ w.
Proof.
  intros Hv Hw H. apply list_eq. intros i. destruct (Nat.lt_ge_cases i kNumLevels) as [Hi|Hi].
  - specialize (H i Hi). unfold level_files in H.
    destruct (lookup_lt_is_Some_2 (files_ v) i) as [x Ex]; [lia|].
    destruct (lookup_lt_is_Some_2 (files_ w) i) as [y Ey]; [lia|]. rewrite Ex, Ey in *. now f_equal.
  - rewrite !lookup_ge_None_2 by lia. done.
Qed.

(** Both ways of applying edits, from a version and pointers. *)
Lemma build_all v ptrs es : base_ok v ptrs -> edits_fresh (level_files v) es ->
  exists b v' ptrs', fold_option (Apply C) es (make_Builder v ptrs) = Some b /\
    install_all v ptrs es = Some (v', ptrs') /\
    files_ (SaveTo C b make_Version) = files_ v' /\ compact_pointer_ b = ptrs' /\ base_ok v' ptrs' /\
    forall level f, (level < kNumLevels)%nat -> f ∈ level_files v' level <-> f ∈ replay level es (level_files v level).
Proof.
  intros Hv Hfr.
  destruct (install_all_step es (make_Builder v ptrs) v) as (b & v' & E1 & E2 & Hb & Hv' & Heq & Hl).
  - now apply make_Builder_ok.
  - done.
  - intros level Hlt. symmetry. now apply make_Builder_level.
  - destruct Hfr as [Hex Hn]. split; [done|]. intros level. destruct (Hn level) as [Hn1 Hn2]. split; [|done].
    unfold seen, make_Builder. cbn [base_ levels_]. destruct (decide (level < kNumLevels)%nat).
    + rewrite lookup_replicate_2 by done. now rewrite app_nil_r.
    + rewrite lookup_ge_None_2 by (rewrite length_replicate; lia). now rewrite app_nil_r.
  - exists b, v', (compact_pointer_ b). split; [done|]. split; [done|]. split; [|done].
    apply files_ext; [apply SaveTo_length|apply Hv'|]. intros level Hlt. now rewrite SaveTo_level, Heq.
Qed.

(** C17: Applying a whole sequence of edits with one builder gives the version
    that applying them one after the other, with a new version for each, would
    give: the same files in every level, and the same compaction pointers.
    Every level of that version is in the order of its files' smallest keys and
    holds exactly the files that the edits leave, with the seek allowance set
    for new files.  New files must have new numbers, as the version set hands
    them out. *)
Theorem builder_batch_equiv v ptrs es : base_ok v ptrs -> edits_fresh (level_files v) es ->
  exists b v' ptrs', fold_option (Apply C) es (make_Builder v ptrs) = Some b /\
    install_all v ptrs es = Some (v', ptrs') /\
    files_ (SaveTo C b make_Version) = files_ v' /\ compact_pointer_ b = ptrs' /\
    forall level, (level < kNumLevels)%nat ->
      StronglySorted (fun f g => BySmallestKey C f g = true) (level_files v' level) /\
      forall f, f ∈ level_files v' level <-> f ∈ replay level es (level_files v level).
Proof.
  intros Hv Hfr. destruct (build_all v ptrs es Hv Hfr) as (b & v' & ptrs' & E1 & E2 & E3 & E4 & Hv' & Hl).
  exists b, v', ptrs'. split; [done|]. split; [done|]. split; [done|]. split; [done|].
  intros level Hlt. split; [apply Hv'|]. intros f. now apply Hl.
Qed.

End Edits.

(** ** Scores *)

(** A [double] that is a number and has no minus sign. *)
Definition nonneg (x : spec_float) : Prop :=
  match x with
  | S754_zero s | S754_infinity s | S754_finite s _ _ => s = false
  | S754_nan => False
  end.

Lemma shr_1_nonneg r : 0 <= shr_m r -> 0 <= shr_m (shr_1 r).
Proof. destruct r as [[|[p|p|]|p] ? ?]; simpl; lia. Qed.

Lemma iter_shr_nonneg p r : 0 <= shr_m r -> 0 <= shr_m (SpecFloat.iter_pos shr_1 p r).
Proof. revert r. induction p as [p IH|p IH|]; intros r Hr; cbn [SpecFloat.iter_pos]; auto using shr_1_nonneg. Qed.

Lemma shr_fexp_nonneg prec emax m e l : 0 <= m -> 0 <= shr_m (shr_fexp prec emax m e l).1.
Proof.
  intros Hm. unfold shr_fexp, shr. assert (H0 : 0 <= shr_m (shr_record_of_loc m l)).
  { destruct l as [|[]]; simpl; done. }
  destruct (_ - e); cbn [fst]; try done. now apply iter_shr_nonneg.
Qed.

Lemma round_nonneg prec emax m e l : 0 <= m -> nonneg (binary_round_aux prec emax false m e l).
Proof.
  intros Hm. unfold binary_round_aux.
  pose proof (shr_fexp_nonneg prec emax m e l Hm) as H1. destruct (shr_fexp prec emax m e l) as [r1 e1]. cbn [fst] in H1.
  set (m1 := round_nearest_even (shr_m r1) (loc_of_shr_record r1)).
  assert (Hm1 : 0 <= m1).
  { unfold m1, round_nearest_even. destruct (loc_of_shr_record r1) as [|[]]; try lia. destruct (Z.even _); lia. }
  pose proof (shr_fexp_nonneg prec emax m1 e1 loc_Exact Hm1) as H2.
  destruct (shr_fexp prec emax m1 e1 loc_Exact) as [r2 e2]. cbn [fst] in H2.
  destruct (shr_m r2); [done| |lia]. now destruct (_ <=? _).
Qed.

Lemma double_of_nonneg n : 0 <= n -> nonneg (double_of n).
Proof.
  intros Hn. unfold double_of, binary_normalize. destruct n as [|p|p]; [done| |lia].
  unfold binary_round. destruct (shl_align _ _ _) as [mz ez]. now apply round_nonneg.
Qed.

Lemma div_eucl_nonneg a b q r : 0 <= a -> 0 < b -> Z.div_eucl a b = (q, r) -> 0 <= q.
Proof. intros Ha Hb E. replace q with (a / b) by (unfold Z.div; now rewrite E). now apply Z.div_pos. Qed.

(** Dividing by a positive number. *)
Lemma div_nonneg x m e : nonneg x -> nonneg (double_div x (S754_finite false m e)).
Proof.
  destruct x as [s|s| |s mx ex]; cbn [nonneg]; intros Hs; try done; subst; cbn; try done.
  unfold double_div, SFdiv. destruct (SFdiv_core_binary _ _ _ _ _ _) as [[q e'] l] eqn:E. apply round_nonneg.
  unfold SFdiv_core_binary in E. destruct (Z.div_eucl _ _) as [q' r] eqn:Ed in E. injection E as <- _ _.
  revert Ed. apply div_eucl_nonneg; [|lia]. destruct (_ - _); [lia| |lia]. apply Z.shiftl_nonneg. lia.
Qed.

Lemma MaxBytes_finite level : (1 <= level < kNumLevels - 1)%nat -> exists m e, MaxBytesForLevel level = S754_finite false m e.
Proof.
  unfold kNumLevels. intros H.
  assert (Hc : level = 1%nat \/ level = 2%nat \/ level = 3%nat \/ level = 4%nat \/ level = 5%nat) by lia.
  destruct Hc as [ -> | [ -> | [ -> | [ -> | -> ]]]]; vm_compute; eauto.
Qed.

Lemma level_score_nonneg v level : (level < kNumLevels - 1)%nat -> nonneg (level_score v level).
Proof.
  intros Hl. unfold level_score. destruct level as [|level].
  - change (double_of kL0_CompactionTrigger) with (S754_finite false 4503599627370496 (-50)).
    apply div_nonneg, double_of_nonneg. lia.
  - destruct (MaxBytes_finite (S level)) as (m & e & ->); [lia|]. apply div_nonneg, double_of_nonneg.
    apply wrapu_range. lia.
Qed.

(** An empty level has the score 0. *)
Lemma level_score_empty v level : (level < kNumLevels - 1)%nat -> level_files v level = [] ->
  level_score v level = S754_zero false.
Proof.
  intros Hl E. unfold level_score. rewrite E. destruct level as [|level]; [reflexivity|].
  destruct (MaxBytes_finite (S level)) as (m & e & ->); [lia|]. reflexivity.
Qed.

Lemma double_lt_best a b c : nonneg a -> nonneg b -> nonneg c -> SFltb a b = true -> SFltb a c = false -> SFltb b c = false.
Proof.
  unfold SFltb.
  destruct a as [s1|s1| |s1 m1 e1], b as [s2|s2| |s2 m2 e2], c as [s3|s3| |s3 m3 e3]; cbn [nonneg SFcompare];
    intros Ha Hb Hc; try done; subst; try done.
  destruct (Z.compare_spec e1 e2), (Z.compare_spec e1 e3), (Z.compare_spec e2 e3); subst; try lia; try done;
    change (Pos.compare_cont Eq) with Pos.compare;
    repeat match goal with |- context [Pos.compare ?x ?y] => destruct (Pos.compare_spec x y) end; try done; lia.
Qed.

(** The choice so far: a level below [n] with its own score, which no other
    level below [n] exceeds. *)
Definition best_below (v : Version) (n : nat) (best : Z * spec_float) : Prop :=
  exists level, (level < n)%nat /\ best = (Z.of_nat level, level_score v level) /\
    forall l, (l < n)%nat -> SFltb (level_score v level) (level_score v l) = false.

Lemma minus_one_lt x : nonneg x -> SFltb (double_of (-1)) x = true.
Proof. destruct x as [[]|[]| |[] m e]; simpl; try done. Qed.

Lemma double_lt_irrefl x : SFltb x x = false.
Proof.
  unfold SFltb. destruct x as [[]|[]| |[] m e]; cbn [SFcompare]; try done;
    rewrite Z.compare_refl; change (Pos.compare_cont Eq m m) with (Pos.compare m m); now rewrite Pos.compare_refl.
Qed.

Lemma best_step v n best : (n < kNumLevels - 1)%nat -> best_below v n best ->
  best_below v (S n) (if SFltb best.2 (level_score v n) then (Z.of_nat n, level_score v n) else best).
Proof.
  intros Hn (level & Hlt & -> & Hmax). cbn [snd]. pose proof (level_score_nonneg v) as Hnn.
  destruct (SFltb (level_score v level) (level_score v n)) eqn:E.
  - exists n. split; [lia|]. split; [done|]. intros l Hl. destruct (Nat.eq_dec l n) as [->|Hne]; [apply double_lt_irrefl|].
    apply (double_lt_best (level_score v level)); [apply Hnn; lia..|done|apply Hmax; lia].
  - exists level. split; [lia|]. split; [done|]. intros l Hl. destruct (Nat.eq_dec l n) as [->|Hne]; [done|].
    apply Hmax. lia.
Qed.

Lemma best_fold v k n best : (n + k <= kNumLevels - 1)%nat -> best_below v n best ->
  best_below v (n + k) (fold_left (fun best level =>
      if SFltb best.2 (level_score v level) then (Z.of_nat level, level_score v level) else best) (seq n k) best).
Proof.
  revert n best. induction k as [|k IH]; intros n best Hk Hb; cbn [seq fold_left]; [now rewrite Nat.add_0_r|].
  rewrite Nat.add_succ_r, <- Nat.add_succ_l. apply IH; [lia|]. now apply best_step; [lia|].
Qed.

Lemma Finalize_best v : best_below v (kNumLevels - 1) (Finalize_loop v).
Proof.
  unfold Finalize_loop. change (seq 0 (kNumLevels - 1)) with (0%nat :: seq 1 5). cbn [fold_left snd].
  rewrite minus_one_lt by (apply level_score_nonneg; unfold kNumLevels; lia).
  apply (best_fold v 5 1); [unfold kNumLevels; lia|]. exists 0%nat. split; [lia|]. split; [done|].
  intros l Hl. replace l with 0%nat by lia. apply double_lt_irrefl.
Qed.

(** C35: The level chosen for the next compaction is one that has a level below
    it, its recorded score is its own and no level has a higher one, and a score
    of 1 or more is only recorded for a level that has files; the code of
    PickCompaction relies on both when it indexes the levels.  Scores are
    computed as the code does, with rounded division of [double]s. *)
Theorem finalize_choice v :
  let v' := Finalize v in
  exists level, compaction_level_ v' = Z.of_nat level /\ (level + 1 < kNumLevels)%nat /\
    compaction_score_ v' = level_score v level /\
    (forall l, (l + 1 < kNumLevels)%nat -> SFltb (compaction_score_ v') (level_score v l) = false) /\
    (SFleb (double_of 1) (compaction_score_ v') = true -> level_files v level <> []).
Proof.
  destruct (Finalize_best v) as (level & Hlt & E & Hmax). unfold kNumLevels in *. exists level.
  unfold Finalize. rewrite E. cbn [compaction_level_ compaction_score_].
  split; [done|]. split; [lia|]. split; [done|]. split; [intros l Hl; apply Hmax; lia|].
  intros Hs Hempty. now rewrite level_score_empty in Hs by (done || (unfold kNumLevels; lia)).
Qed.

(** ** Examples *)

Module BuilderExample.
Definition file (n k1 k2 size : Z) : FileMetaData :=
  MkFile n size (make_InternalKey [k1] 5 kTypeValue) (make_InternalKey [k2] 5 kTypeValue) 100.
Definition pointers : list (list Z) := replicate kNumLevels [].

(** Two files, then a compaction that replaces one of them by one of level 1. *)
Definition edit1 : VersionEdit := push_file 0 (file 5 1 9 100) (push_file 0 (file 4 3 7 4000000) make_VersionEdit).
Definition edit2 : VersionEdit :=
  SetCompactPointer 0 (make_InternalKey [7] 5 kTypeValue) (push_file 1 (file 6 3 7 90) (RemoveFile 0 4 make_VersionEdit)).

Lemma no_adds_2 e level : List.In e [edit1; edit2] -> edit_adds e (S (S level)) = [].
Proof.
  intros He. unfold edit_adds, at_level. rewrite filter_keep_none; [done|]. intros p Hp.
  destruct He as [<-|[<-|[]]]; cbn in Hp; repeat (apply elem_of_cons in Hp as [->|Hp]; [cbn; lia|]);
    now apply elem_of_nil in Hp.
Qed.

Lemma no_more_adds level : numbers (concat (map (fun e => edit_adds e (S (S level))) [edit1; edit2]) ++
  level_files make_Version (S (S level))) = [].
Proof.
  cbn [map concat]. rewrite !no_adds_2 by (simpl; auto). cbn [app].
  now destruct level as [|[|[|[|[|level]]]]].
Qed.
End BuilderExample.

Example builder_files :
  match fold_option (Apply BytewiseComparator) [BuilderExample.edit1; BuilderExample.edit2]
          (make_Builder make_Version BuilderExample.pointers) with
  | Some b => map (map (fun f => (f_number f, f_allowed_seeks f))) (files_ (SaveTo BytewiseComparator b make_Version))
  | None => []
  end = [[(5, 100)]; [(6, 100)]; []; []; []; []; []].
Proof. vm_compute. reflexivity. Qed.

Lemma builder_batch_equiv_witness :
  exists b v' ptrs', fold_option (Apply BytewiseComparator) [BuilderExample.edit1; BuilderExample.edit2]
      (make_Builder make_Version BuilderExample.pointers) = Some b /\
    install_all (C := BytewiseComparator) make_Version BuilderExample.pointers [BuilderExample.edit1; BuilderExample.edit2]
      = Some (v', ptrs') /\
    files_ (SaveTo BytewiseComparator b make_Version) = files_ v' /\ compact_pointer_ b = ptrs'.
Proof.
  destruct (builder_batch_equiv (C := BytewiseComparator) (valid := is_bytes) make_Version BuilderExample.pointers
    [BuilderExample.edit1; BuilderExample.edit2]) as (b & v' & ptrs' & E1 & E2 & E3 & E4 & _).
  - constructor; try done; intros [|[|[|[|[|[|[|level]]]]]]]; constructor.
  - split; [repeat constructor; simpl; lia|].
    intros [|[|level]]; [..|rewrite BuilderExample.no_more_adds; split; [constructor|]].
    + split; [apply (bool_decide_unpack _); vm_compute; exact I|].
      repeat constructor; unfold is_byte; simpl; lia.
    + split; [apply (bool_decide_unpack _); vm_compute; exact I|].
      repeat constructor; unfold is_byte; simpl; lia.
    + apply List.Forall_forall. intros e He. rewrite BuilderExample.no_adds_2 by done. constructor.
  - exists b, v', ptrs'. split; [exact E1|]. split; [exact E2|]. split; [exact E3|exact E4].
Defined.
