(* ===== verification/LvManifest.v ===== *)
(** * leveldb: the version set and its manifest (VersionSet of db/version_set.cc, SetCurrentFile of db/filename.cc,
      the file helpers of util/env.cc)

    The version set writes every edit to a log, the manifest, before it installs
    the version that results, and finds the manifest again through the file
    CURRENT.  The environment is a type class that threads the state of a file
    system; a writable file is a handle into it.  The mutex that LogAndApply
    releases while it writes is not modelled: no other thread may call it then,
    and the other fields it uses are read before. *)
From Stdlib Require Import ZArith Lia Bool String List SpecFloat.
From stdpp Require Import base list gmap numbers.
From S2P Require Import Prelude LvCoding LvEnv LvLog LvComparator LvDbFormat LvFilename LvVersion LvVersionEdit LvBuilder.

(** ** The environment (include/leveldb/env.h) *)

(** [E] is the state of the file system.  A call that succeeds gives a file. [W] is a handle of a file that is open for
    writing, [R] a file that is read from its beginning. *)
Class FileEnv (E W R : Type) := {
  env_NewWritableFile : E -> list Z -> Status * option W * E;
  env_NewAppendableFile : E -> list Z -> Status * option W * E;
  env_NewSequentialFile : E -> list Z -> Status * option R;
  env_RemoveFile : E -> list Z -> Status * E;
  env_RenameFile : E -> list Z -> list Z -> Status * E;
  env_GetFileSize : E -> list Z -> Status * Z;
  file_Append : E -> W -> list Z -> Status * (E * W);
  file_Flush : E -> W -> Status * (E * W);
  file_Sync : E -> W -> Status * (E * W);
  file_Close : E -> W -> Status * (E * W);
}.

(** A file system with an open file is a file to the log writer. *)
#[export] Instance env_file {E W R} {EV : FileEnv E W R} : WritableFile (E * W) := {
  Append f d := file_Append f.1 f.2 d;
  Flush f := file_Flush f.1 f.2;
}.

Section Files.
Context {E W R : Type} {EV : FileEnv E W R} {SR : SequentialFile R}.

Definition DoWriteStringToFile (e : E) (data fname : list Z) (should_sync : bool) : Status * E :=
  let '(s, file, e) := env_NewWritableFile e fname in
  match (if ok s then file else None) with
  | None => (s, e)
  | Some f =>
      let '(s, (e, f)) := file_Append e f data in
      let '(s, (e, f)) := if ok s && should_sync then file_Sync e f else (s, (e, f)) in
      let '(s, (e, f)) := if ok s then file_Close e f else (s, (e, f)) in
      let e := if negb (ok s) then (env_RemoveFile e fname).2 else e in
      (s, e)
  end.

Definition WriteStringToFileSync (e : E) (data fname : list Z) : Status * E := DoWriteStringToFile e data fname true.

(** [ReadFileToString] reads pieces of 8192 bytes until one is empty. *)
Fixpoint read_pieces (fuel : nat) (file : R) (data : list Z) : option (Status * list Z) :=
  match fuel with
  | O => None
  | S fuel =>
      match Read file 8192 with
      | (s, fragment, file) =>
          if negb (ok s) then Some (s, data)
          else if (length fragment =? 0)%nat then Some (s, data ++ fragment)
          else read_pieces fuel file (data ++ fragment)
      end
  end.

Definition ReadFileToString (fuel : nat) (e : E) (fname : list Z) : option (Status * list Z) :=
  let '(s, file) := env_NewSequentialFile e fname in
  match (if ok s then file else None) with
  | Some file => read_pieces fuel file []
  | None => Some (s, [])
  end.

Definition SetCurrentFile (e : E) (dbname : list Z) (descriptor_number : Z) : Status * E :=
  let manifest := DescriptorFileName dbname descriptor_number in
  let contents := drop (length dbname + 1) manifest in
  let tmp := TempFileName dbname descriptor_number in
  let '(s, e) := WriteStringToFileSync e (contents ++ [10]) tmp in
  let '(s, e) := if ok s then env_RenameFile e tmp (CurrentFileName dbname) else (s, e) in
  let e := if negb (ok s) then (env_RemoveFile e tmp).2 else e in
  (s, e).

End Files.

(** ** The version set *)

(** [vs_log] is [descriptor_log_] with [descriptor_file_] in it: the two are
    null together.  Older versions that readers still hold are left out. *)
Record VersionSet (E W : Type) := MkVersionSet {
  vs_env : E;
  vs_dbname : list Z;
  next_file_number : Z;
  manifest_file_number : Z;
  last_sequence : Z;
  log_number : Z;
  prev_log_number : Z;
  vs_log : option (Writer.WriterState W);
  vs_current : Version;
  vs_pointers : list (list Z);
}.
Arguments MkVersionSet {E W}. Arguments vs_env {E W}. Arguments vs_dbname {E W}. Arguments next_file_number {E W}.
Arguments manifest_file_number {E W}. Arguments last_sequence {E W}. Arguments log_number {E W}.
Arguments prev_log_number {E W}. Arguments vs_log {E W}. Arguments vs_current {E W}. Arguments vs_pointers {E W}.

Section VersionSet.
Context {E W R : Type} {EV : FileEnv E W R} {SR : SequentialFile R}.
Context (ucmp : Comparator) (comparator_name : list Z).
(** [options_->max_file_size] and [options_->reuse_logs] *)
Context (max_file_size : Z) (reuse_logs : bool).
Notation VS := (VersionSet E W).

Definition make_VersionSet (e : E) (dbname : list Z) : VS :=
  MkVersionSet e dbname 2 0 0 0 0 None make_Version (replicate kNumLevels []).

(** New values of some fields. *)
Definition set_env (vs : VS) (e : E) (w : option (Writer.WriterState W)) : VS :=
  MkVersionSet e (vs_dbname vs) (next_file_number vs) (manifest_file_number vs) (last_sequence vs) (log_number vs)
    (prev_log_number vs) w (vs_current vs) (vs_pointers vs).
Definition set_pointers (vs : VS) (ptrs : list (list Z)) : VS :=
  MkVersionSet (vs_env vs) (vs_dbname vs) (next_file_number vs) (manifest_file_number vs) (last_sequence vs) (log_number vs)
    (prev_log_number vs) (vs_log vs) (vs_current vs) ptrs.
Definition set_next_file (vs : VS) (n : Z) : VS :=
  MkVersionSet (vs_env vs) (vs_dbname vs) n (manifest_file_number vs) (last_sequence vs) (log_number vs)
    (prev_log_number vs) (vs_log vs) (vs_current vs) (vs_pointers vs).

Definition AppendVersion (vs : VS) (v : Version) : VS :=
  MkVersionSet (vs_env vs) (vs_dbname vs) (next_file_number vs) (manifest_file_number vs) (last_sequence vs) (log_number vs)
    (prev_log_number vs) (vs_log vs) v (vs_pointers vs).

Definition NewFileNumber (vs : VS) : Z * VS := (next_file_number vs, set_next_file vs (u64 (next_file_number vs + 1))).

Definition ReuseFileNumber (vs : VS) (file_number : Z) : VS :=
  if next_file_number vs =? u64 (file_number + 1) then set_next_file vs file_number else vs.

Definition MarkFileNumberUsed (vs : VS) (number : Z) : VS :=
  if next_file_number vs <=? number then set_next_file vs (u64 (number + 1)) else vs.

Definition NumLevelFiles (vs : VS) (level : nat) : Z :=
  wraps 32 (u32 (Z.of_nat (length (level_files (vs_current vs) level)))).
Definition NumLevelBytes (vs : VS) (level : nat) : Z := TotalFileSize (level_files (vs_current vs) level).
Definition NeedsCompaction (vs : VS) : bool :=
  SFleb (double_of 1) (compaction_score_ (vs_current vs)) ||
  match file_to_compact_ (vs_current vs) with Some _ => true | None => false end.

(** The writer with the file system its file is in. *)
Definition open_log (e : E) (w : Writer.WriterState W) : Writer.WriterState (E * W) :=
  Writer.Mk (e, Writer.dest_ w) (Writer.block_offset_ w).
Definition close_log (w : Writer.WriterState (E * W)) : E * Writer.WriterState W :=
  ((Writer.dest_ w).1, Writer.Mk (Writer.dest_ w).2 (Writer.block_offset_ w)).

Definition log_record (e : E) (w : Writer.WriterState W) (record : list Z) : option (Status * E * Writer.WriterState W) :=
  match Writer.AddRecord (open_log e w) record with
  | Some (s, w) => let '(e, w) := close_log w in Some (s, e, w)
  | None => None
  end.

(** The edit that describes the current version. *)
Definition snapshot_edit (vs : VS) : VersionEdit :=
  let edit := SetComparatorName comparator_name make_VersionEdit in
  let edit := fold_left (fun edit level =>
      match vs_pointers vs !! level with
      | Some ((_ :: _) as key) => SetCompactPointer (Z.of_nat level) key edit
      | _ => edit
      end) (seq 0 kNumLevels) edit in
  fold_left (fun edit level =>
      fold_left (fun edit f => AddFile (Z.of_nat level) (f_number f) (f_file_size f) (f_smallest f) (f_largest f) edit)
        (level_files (vs_current vs) level) edit) (seq 0 kNumLevels) edit.

Definition WriteSnapshot (vs : VS) (e : E) (w : Writer.WriterState W) : option (Status * E * Writer.WriterState W) :=
  log_record e w (Edit_EncodeTo (snapshot_edit vs) []).

(** The record of the edit and its synchronisation. *)
Definition log_edit (e : E) (w : Writer.WriterState W) (edit : VersionEdit) : option (Status * E * Writer.WriterState W) :=
  match log_record e w (Edit_EncodeTo edit []) with
  | None => None
  | Some (s, e, w) =>
      if ok s then
        let '(s, (e, f)) := file_Sync e (Writer.dest_ w) in
        Some (s, e, Writer.Mk f (Writer.block_offset_ w))
      else Some (s, e, w)
  end.

(** The numbers that every record carries. *)
Definition complete_edit (vs : VS) (edit : VersionEdit) : VersionEdit :=
  let edit := if has_log_number_ edit then edit else SetLogNumber (log_number vs) edit in
  let edit := if has_prev_log_number_ edit then edit else SetPrevLogNumber (prev_log_number vs) edit in
  SetLastSequence (last_sequence vs) (SetNextFile (next_file_number vs) edit).

(** A new descriptor file with a snapshot, where there is none yet: the status,
    and the state. *)
Definition open_manifest (vs : VS) : option (Status * VS) :=
  match vs_log vs with
  | Some _ => Some (OK, vs)
  | None =>
      let '(s, file, e) := env_NewWritableFile (vs_env vs) (DescriptorFileName (vs_dbname vs) (manifest_file_number vs)) in
      match (if ok s then file else None) with
      | None => Some (s, set_env vs e None)
      | Some f =>
          match WriteSnapshot vs e (Writer.make_Writer f) with
          | Some (s, e, w) => Some (s, set_env vs e (Some w))
          | None => None
          end
      end
  end.

Definition LogAndApply (vs : VS) (edit : VersionEdit) : option (Status * VersionEdit * VS) :=
  let edit := complete_edit vs edit in
  match Apply ucmp (make_Builder (vs_current vs) (vs_pointers vs)) edit with
  | None => None
  | Some b =>
      let v := Finalize (SaveTo ucmp b make_Version) in
      let vs := set_pointers vs (compact_pointer_ b) in
      let new_manifest := match vs_log vs with Some _ => false | None => true end in
      let manifest := DescriptorFileName (vs_dbname vs) (manifest_file_number vs) in
      match open_manifest vs with
      | None => None
      | Some (s, vs) =>
          let written :=
            match vs_log vs with
            | Some w =>
                if ok s then
                  match log_edit (vs_env vs) w edit with
                  | Some (s, e, w) => Some (s, set_env vs e (Some w))
                  | None => None
                  end
                else Some (s, vs)
            | None => Some (s, vs)
            end in
          match written with
          | None => None
          | Some (s, vs) =>
              let '(s, vs) :=
                if ok s && new_manifest then
                  let '(s, e) := SetCurrentFile (vs_env vs) (vs_dbname vs) (manifest_file_number vs) in
                  (s, set_env vs e (vs_log vs))
                else (s, vs) in
              if ok s then
                let vs := AppendVersion vs v in
                Some (s, edit,
                  MkVersionSet (vs_env vs) (vs_dbname vs) (next_file_number vs) (manifest_file_number vs)
                    (last_sequence vs) (log_number_ edit) (prev_log_number_ edit) (vs_log vs) (vs_current vs) (vs_pointers vs))
              else if new_manifest then
                Some (s, edit, set_env vs (env_RemoveFile (vs_env vs) manifest).2 None)
              else Some (s, edit, vs)
          end
      end
  end.

(** ** Recovery *)

(** The local variables of the loop that reads the manifest. *)
Record recovery := MkRecovery {
  rc_status : Status;
  rc_builder : Builder;
  rc_log_number : option Z;
  rc_prev_log_number : option Z;
  rc_next_file : option Z;
  rc_last_sequence : option Z;
}.

Definition set_if (b : bool) (x : Z) (old : option Z) : option Z := if b then Some x else old.

(** One record. *)
Definition recover_record (rc : recovery) (record : list Z) : option recovery :=
  match Edit_DecodeFrom make_VersionEdit record with
  | None => None
  | Some (s, edit) =>
      let s :=
        if ok s && (has_comparator_ edit && negb (bool_decide (comparator_ edit = comparator_name)))
        then mkStatus kInvalidArgument
               (string_of_bytes (comparator_ edit) ++ " does not match existing comparator ")
               (string_of_bytes comparator_name)
        else s in
      match (if ok s then Apply ucmp (rc_builder rc) edit else Some (rc_builder rc)) with
      | None => None
      | Some b =>
          Some (MkRecovery s b
            (set_if (has_log_number_ edit) (log_number_ edit) (rc_log_number rc))
            (set_if (has_prev_log_number_ edit) (prev_log_number_ edit) (rc_prev_log_number rc))
            (set_if (has_next_file_number_ edit) (next_file_number_ edit) (rc_next_file rc))
            (set_if (has_last_sequence_ edit) (last_sequence_ edit) (rc_last_sequence rc)))
      end
  end.

(** [LogReporter]: the status is that of the first report. *)
Definition reported (s : Status) (reports : list (Z * Status)) : Status :=
  if ok s then match reports with [] => s | (_, st) :: _ => st end else s.

Definition set_status (rc : recovery) (s : Status) : recovery :=
  MkRecovery s (rc_builder rc) (rc_log_number rc) (rc_prev_log_number rc) (rc_next_file rc) (rc_last_sequence rc).

(** The loop; [rfuel] is the bound of each [ReadRecord]. *)
Fixpoint recover_loop (fuel rfuel : nat) (r : Reader.ReaderState R) (rc : recovery) : option recovery :=
  match fuel with
  | O => None
  | S fuel =>
      match Reader.ReadRecord rfuel r with
      | None => None
      | Some (found, record, r) =>
          let rc := set_status rc (reported (rc_status rc) (Reader.reports r)) in
          if found && ok (rc_status rc) then
            match recover_record rc record with
            | Some rc => recover_loop fuel rfuel r rc
            | None => None
            end
          else Some rc
      end
  end.

Definition ReuseManifest (vs : VS) (dscname dscbase : list Z) : bool * VS :=
  if negb reuse_logs then (false, vs) else
  match ParseFileName dscbase with
  | Some (manifest_number, kDescriptorFile) =>
      let '(s, manifest_size) := env_GetFileSize (vs_env vs) dscname in
      if negb (ok s) || (TargetFileSize max_file_size <=? manifest_size) then (false, vs)
      else
        let '(r, file, e) := env_NewAppendableFile (vs_env vs) dscname in
        match (if ok r then file else None) with
        | None => (false, set_env vs e (vs_log vs))
        | Some f =>
            (true, MkVersionSet e (vs_dbname vs) (next_file_number vs) manifest_number (last_sequence vs)
                     (log_number vs) (prev_log_number vs) (Some (Writer.make_Writer_at f manifest_size))
                     (vs_current vs) (vs_pointers vs))
        end
  | _ => (false, vs)
  end.

(** What follows the loop: the missing entries, the file numbers, and the
    version. *)
Definition recover_finish (vs : VS) (rc : recovery) (dscname current : list Z) : Status * bool * VS :=
  let s := rc_status rc in
  let vs := set_pointers vs (compact_pointer_ (rc_builder rc)) in
  if negb (ok s) then (s, false, vs) else
  let s :=
    match rc_next_file rc, rc_log_number rc, rc_last_sequence rc with
    | None, _, _ => Corruption "no meta-nextfile entry in descriptor"
    | _, None, _ => Corruption "no meta-lognumber entry in descriptor"
    | _, _, None => Corruption "no last-sequence-number entry in descriptor"
    | _, _, _ => s
    end in
  let prev := default 0 (rc_prev_log_number rc) in
  let log := default 0 (rc_log_number rc) in
  let next := default 0 (rc_next_file rc) in
  let vs := MarkFileNumberUsed (MarkFileNumberUsed vs prev) log in
  if negb (ok s) then (s, false, vs) else
  let v := Finalize (SaveTo ucmp (rc_builder rc) make_Version) in
  let vs := AppendVersion vs v in
  let vs := MkVersionSet (vs_env vs) (vs_dbname vs) (u64 (next + 1)) next (default 0 (rc_last_sequence rc)) log prev
              (vs_log vs) (vs_current vs) (vs_pointers vs) in
  let '(reused, vs) := ReuseManifest vs dscname current in
  (s, negb reused, vs).

(** [Recover]: the status, whether [*save_manifest] was set, and the state. *)
Definition Recover (fuel rfuel : nat) (vs : VS) : option (Status * bool * VS) :=
  match ReadFileToString fuel (vs_env vs) (CurrentFileName (vs_dbname vs)) with
  | None => None
  | Some (s, current) =>
      if negb (ok s) then Some (s, false, vs)
      else if negb (bool_decide (list.last current = Some 10))
      then Some (Corruption "CURRENT file does not end with newline", false, vs)
      else
        let current := take (length current - 1) current in
        let dscname := vs_dbname vs ++ [47] ++ current in
        let '(s, file) := env_NewSequentialFile (vs_env vs) dscname in
        match (if ok s then file else None) with
        | None =>
            Some (if IsNotFound s
                  then mkStatus LvEnv.kCorruption "CURRENT points to a non-existent file" (ToString s) else s, false, vs)
        | Some f =>
            let rc := MkRecovery OK (make_Builder (vs_current vs) (vs_pointers vs)) None None None None in
            match recover_loop fuel rfuel (Reader.make_Reader f true true 0) rc with
            | Some rc => Some (recover_finish vs rc dscname current)
            | None => None
            end
        end
  end.

End VersionSet.
