(* ===== verification/LvManifestProps.v ===== *)
(** * leveldb: the manifest survives a crash (theorems about LvManifest)

    Laws of a file system that does not fail, with directory entries and file
    contents; what LogAndApply leaves in it; and that recovery from the manifest,
    cut at any byte behind the first edit, gives the version, the numbers and
    the compaction pointers of the last edit that was written completely. *)
From Stdlib Require Import ZArith Lia Bool String List Sorted SpecFloat Permutation.
From stdpp Require Import base list gmap numbers sorting.
From S2P Require Import Prelude LvCoding LvEnv LvLog LvLogProps LvComparator LvDbFormat LvWriteBatch LvFilename.
From S2P Require Import LvVersion LvVersionEdit LvBuilder LvBuilderProps LvManifest.

(** ** A file system that does not fail *)

(** [fs_dir e name] is the file of that name, [fs_data e i] what is in a file;
    a handle belongs to a file, whatever its name. *)
Class FileEnvLaws (E W R : Type) {EV : FileEnv E W R} {SR : SequentialFile R} {SL : SequentialFileLaws R} := {
  fs_file : Type;
  fs_dir : E -> list Z -> option fs_file;
  fs_data : E -> fs_file -> list Z;
  fs_handle : W -> fs_file;
  NewWritableFile_law e name :
    exists w e', env_NewWritableFile e name = (OK, Some w, e') /\ fs_dir e' name = Some (fs_handle w) /\
      fs_data e' (fs_handle w) = [] /\
      (forall n, n <> name -> fs_dir e' n = fs_dir e n /\ fs_dir e n <> Some (fs_handle w)) /\
      (forall i, i <> fs_handle w -> fs_data e' i = fs_data e i);
  file_Append_law e w d :
    exists e' w', file_Append e w d = (OK, (e', w')) /\ fs_handle w' = fs_handle w /\
      (forall n, fs_dir e' n = fs_dir e n) /\
      fs_data e' (fs_handle w) = fs_data e (fs_handle w) ++ d /\
      (forall i, i <> fs_handle w -> fs_data e' i = fs_data e i);
  file_Flush_law e w :
    exists e' w', file_Flush e w = (OK, (e', w')) /\ fs_handle w' = fs_handle w /\
      (forall n, fs_dir e' n = fs_dir e n) /\ (forall i, fs_data e' i = fs_data e i);
  file_Sync_law e w :
    exists e' w', file_Sync e w = (OK, (e', w')) /\ fs_handle w' = fs_handle w /\
      (forall n, fs_dir e' n = fs_dir e n) /\ (forall i, fs_data e' i = fs_data e i);
  file_Close_law e w :
    exists e' w', file_Close e w = (OK, (e', w')) /\
      (forall n, fs_dir e' n = fs_dir e n) /\ (forall i, fs_data e' i = fs_data e i);
  RenameFile_law e from to i : fs_dir e from = Some i -> from <> to ->
    exists e', env_RenameFile e from to = (OK, e') /\ fs_dir e' to = Some i /\
      (forall n, n <> from -> n <> to -> fs_dir e' n = fs_dir e n) /\ (forall j, fs_data e' j = fs_data e j);
  NewSequentialFile_law e name i : fs_dir e name = Some i ->
    exists r, env_NewSequentialFile e name = (OK, Some r) /\ unread r = fs_data e i;
  RemoveFile_law e name :
    (forall n, n <> name -> fs_dir (env_RemoveFile e name).2 n = fs_dir e n) /\
    (forall i, fs_data (env_RemoveFile e name).2 i = fs_data e i);
  RemoveFile_gone e name : fs_dir (env_RemoveFile e name).2 name = None;
}.

Section Log.
Context {E W R : Type} {EV : FileEnv E W R} {SR : SequentialFile R} {SL : SequentialFileLaws R} {EL : FileEnvLaws E W R}.

(** Only the handle's file has changed, from one file system to the other. *)
Definition only_file (a b : E * W) : Prop :=
  fs_handle b.2 = fs_handle a.2 /\ (forall n, fs_dir b.1 n = fs_dir a.1 n) /\
  (forall i, i <> fs_handle a.2 -> fs_data b.1 i = fs_data a.1 i).

Lemma only_file_refl a : only_file a a.
Proof. done. Qed.

Lemma only_file_trans a b c : only_file a b -> only_file b c -> only_file a c.
Proof.
  intros (H1 & H2 & H3) (K1 & K2 & K3). split; [congruence|]. split; [intros n; now rewrite K2|].
  intros i Hi. rewrite K3 by congruence. now apply H3.
Qed.

#[export] Instance only_file_preorder : PreOrder only_file.
Proof. split; [exact only_file_refl|exact only_file_trans]. Qed.

#[export, program] Instance env_file_laws : WritableFileLaws (E * W) := {
  written f := fs_data f.1 (fs_handle f.2);
}.
Next Obligation.
  intros [e w] d. cbn [Append env_file fst snd]. destruct (file_Append_law e w d) as (e' & w' & -> & Eh & _ & Ed & _).
  exists (e', w'). cbn. now rewrite Eh.
Qed.
Next Obligation.
  intros [e w]. cbn [Flush env_file fst snd]. destruct (file_Flush_law e w) as (e' & w' & -> & Eh & _ & Ed).
  exists (e', w'). cbn. now rewrite Eh.
Qed.

Lemma Append_only (f : E * W) d : only_file f (Append f d).2.
Proof.
  destruct f as [e w]. destruct (file_Append_law e w d) as (e' & w' & E' & Eh & Ed & _ & Eo). cbn. now rewrite E'.
Qed.

Lemma Flush_only (f : E * W) : only_file f (Flush f).2.
Proof.
  destruct f as [e w]. destruct (file_Flush_law e w) as (e' & w' & E' & Eh & Ed & Eo). cbn. rewrite E'. cbn.
  split; [done|]. split; [done|]. intros i _. apply Eo.
Qed.

Lemma Emit_only (w : Writer.WriterState (E * W)) ty p :
  only_file (Writer.dest_ w) (Writer.dest_ (Writer.EmitPhysicalRecord w ty p).2).
Proof.
  unfold Writer.EmitPhysicalRecord.
  match goal with |- context [Append (Writer.dest_ w) ?b] =>
    pose proof (Append_only (Writer.dest_ w) b) as H1; destruct (Append (Writer.dest_ w) b) as [s f] end.
  cbn [snd] in H1. destruct (ok s); [|exact H1].
  pose proof (Append_only f p) as H2. destruct (Append f p) as [s2 f2]. cbn [snd] in H2.
  destruct (ok s2); [|cbn; now transitivity f]. pose proof (Flush_only f2) as H3. destruct (Flush f2) as [s3 f3].
  cbn [snd] in H3. cbn. transitivity f; [done|]. now transitivity f2.
Qed.

Lemma Switch_only (w : Writer.WriterState (E * W)) : only_file (Writer.dest_ w) (Writer.dest_ (Writer.SwitchBlock w)).
Proof.
  unfold Writer.SwitchBlock. destruct (_ <? _); [|reflexivity]. cbn [Writer.dest_]. destruct (_ <? _); [|reflexivity].
  apply Append_only.
Qed.

Lemma AddRecord_only fuel (w : Writer.WriterState (E * W)) data begin s w' :
  Writer.AddRecord_loop fuel w data begin = Some (s, w') -> only_file (Writer.dest_ w) (Writer.dest_ w').
Proof.
  revert w data begin. induction fuel as [|fuel IH]; intros w data begin; cbn [Writer.AddRecord_loop]; [done|].
  match goal with |- context [Writer.EmitPhysicalRecord ?a ?b ?c] =>
    pose proof (Emit_only a b c) as H1; destruct (Writer.EmitPhysicalRecord a b c) as [s1 w1] end.
  cbn [snd] in H1. pose proof (Switch_only w) as H0.
  destruct (_ && _).
  - intros E1. apply IH in E1. transitivity (Writer.dest_ w1); [|done]. now transitivity (Writer.dest_ (Writer.SwitchBlock w)).
  - intros [= <- <-]. now transitivity (Writer.dest_ (Writer.SwitchBlock w)).
Qed.

(** A record is appended to the file of the log, and nothing else happens. *)
Lemma log_record_ok e (w : Writer.WriterState W) data :
  is_bytes data -> 0 <= Writer.block_offset_ w <= kBlockSize ->
  exists e' w' items, log_record e w data = Some (OK, e', w') /\
    fragments (Writer.block_offset_ w) true data items (Writer.block_offset_ w') /\
    fs_handle (Writer.dest_ w') = fs_handle (Writer.dest_ w) /\
    fs_data e' (fs_handle (Writer.dest_ w)) = fs_data e (fs_handle (Writer.dest_ w)) ++ enc_items items /\
    (forall n, fs_dir e' n = fs_dir e n) /\
    (forall i, i <> fs_handle (Writer.dest_ w) -> fs_data e' i = fs_data e i).
Proof.
  intros Hd Hw. destruct (AddRecord_ok (open_log e w) data Hd Hw) as (w1 & items & E1 & HF & EW).
  pose proof E1 as Eo. apply AddRecord_only in Eo as (O1 & O2 & O3).
  unfold log_record. rewrite E1. exists (Writer.dest_ w1).1, (Writer.Mk (Writer.dest_ w1).2 (Writer.block_offset_ w1)), items.
  cbn in *. rewrite O1 in EW. repeat split; done.
Qed.

End Log.

(** ** A log as a list of records, with its end *)

Inductive logged_to : Z -> list (list Z) -> list (list LvLogProps.item) -> Z -> Prop :=
  | logged_to_nil off : logged_to off [] [] off
  | logged_to_snoc off records l off1 data items off2 :
      logged_to off records l off1 -> fragments off1 true data items off2 ->
      logged_to off (records ++ [data]) (l ++ [items]) off2.

Lemma logged_to_app off records l off1 rest l2 :
  logged_to off records l off1 -> logged off1 rest l2 -> logged off (records ++ rest) (l ++ l2).
Proof.
  intros H. revert rest l2. induction H as [|off records l off1 data items off2 H IH HF]; intros rest l2 Hl; [done|].
  rewrite <- !app_assoc. apply IH. cbn [app]. now apply logged_cons with off2.
Qed.

Lemma logged_to_logged off records l off1 : logged_to off records l off1 -> logged off records l.
Proof. intros H. rewrite <- (app_nil_r records), <- (app_nil_r l). eapply logged_to_app; [exact H|constructor]. Qed.

Lemma logged_to_off off records l off1 : logged_to off records l off1 -> 0 <= off <= kBlockSize -> 0 <= off1 <= kBlockSize.
Proof.
  induction 1 as [|off records l off1 data items off2 H IH HF]; intros Ho; [done|]. apply (fragments_off _ _ _ _ _ HF). auto.
Qed.

Lemma logged_to_length off records l off1 : logged_to off records l off1 -> length l = length records.
Proof. induction 1; [done|]. rewrite !length_app. cbn. lia. Qed.

Lemma enc_log_app l1 l2 : enc_log (l1 ++ l2) = enc_log l1 ++ enc_log l2.
Proof. unfold enc_log. now rewrite map_app, concat_app. Qed.

(** Which records are complete, by the length of the log up to them. *)
Lemma complete_iff l n j k : complete l n j -> (k <= length l)%nat -> (k <= j)%nat <-> (length (enc_log (take k l)) <= n)%nat.
Proof.
  intros (H1 & H2 & H3) Hk. assert (Hmono : forall a b, (a <= b)%nat -> (length (enc_log (take a l)) <= length (enc_log (take b l)))%nat).
  { intros a b Hab. rewrite <- (take_drop a (take b l)), take_take, Nat.min_l, enc_log_app, length_app by done. lia. }
  split; [intros H; specialize (Hmono k j H); lia|]. intros H. destruct (Nat.le_gt_cases k j) as [|L]; [done|]. specialize (H3 ltac:(lia)). specialize (Hmono (S j) k L). lia.
Qed.

(** ** Reading the manifest *)

Section Recover.
Context {E W R : Type} {EV : FileEnv E W R} {SR : SequentialFile R} {SL : SequentialFileLaws R}.
Context (ucmp : Comparator) (comparator_name : list Z).

(** One edit, as the loop applies it. *)
Definition rc_step (rc : recovery) (e : VersionEdit) : option recovery :=
  match Apply ucmp (rc_builder rc) e with
  | Some b =>
      Some (MkRecovery OK b
        (set_if (has_log_number_ e) (log_number_ e) (rc_log_number rc))
        (set_if (has_prev_log_number_ e) (prev_log_number_ e) (rc_prev_log_number rc))
        (set_if (has_next_file_number_ e) (next_file_number_ e) (rc_next_file rc))
        (set_if (has_last_sequence_ e) (last_sequence_ e) (rc_last_sequence rc)))
  | None => None
  end.

(** An edit that can be written and is of this comparator. *)
Definition edit_of (e : VersionEdit) : Prop :=
  edit_ok e /\ (has_comparator_ e = true -> comparator_ e = comparator_name).

Definition record_of (e : VersionEdit) : list Z := Edit_EncodeTo e [].

Lemma record_bytes e : edit_ok e -> is_bytes (record_of e).
Proof.
  intros He. unfold record_of. rewrite EncodeTo_items. cbn [app].
  apply Forall_concat, List.Forall_map. eapply List.Forall_impl; [|apply He]. intros. now apply item_bytes.
Qed.

Lemma recover_record_ok rc e : edit_of e -> recover_record ucmp comparator_name rc (record_of e) = rc_step rc e.
Proof.
  intros [He Hc]. unfold recover_record, record_of. rewrite edit_roundtrip by done.
  replace (MkEdit _ _ _ _ _ _ _ _ _ _ _ _ _) with e by now destruct e. cbn [ok andb].
  replace (has_comparator_ e && negb (bool_decide (comparator_ e = comparator_name))) with false; [done|].
  destruct (has_comparator_ e); [|done]. now rewrite bool_decide_eq_true_2 by now apply Hc.
Qed.

Lemma rc_step_status rc e rc' : rc_step rc e = Some rc' -> rc_status rc' = OK.
Proof. unfold rc_step. destruct (Apply ucmp (rc_builder rc) e); [|done]. now intros [= <-]. Qed.

Lemma set_status_same rc : rc_status rc = OK -> set_status rc OK = rc.
Proof. destruct rc. cbn. now intros ->. Qed.

(** The loop applies the edits whose records are complete. *)
Lemma recover_loop_ok off es l :
  logged off (map record_of es) l -> Forall edit_of es ->
  forall fuel rfuel n (r : Reader.ReaderState R) rc rc_all,
    (length es < fuel)%nat -> (n < rfuel)%nat -> at_ r off (take n (enc_log l)) -> rc_status rc = OK ->
    fold_option rc_step es rc = Some rc_all ->
    exists j rc', recover_loop ucmp comparator_name fuel rfuel r rc = Some rc' /\ complete l n j /\
      fold_option rc_step (take j es) rc = Some rc'.
Proof.
  revert off l. induction es as [|e es IH]; intros off l HL He fuel rfuel n r rc rc_all Hf Hr A Hs Hall;
    (destruct fuel as [|fuel]; [cbn [length] in Hf; lia|]); (destruct rfuel as [|rfuel]; [lia|]); cbn [recover_loop].
  - inversion HL; subst. change (enc_log []) with (@nil Z) in A. rewrite take_nil in A.
    destruct (ReadRecord_end off rfuel r A) as (r' & -> & Er). unfold reported. rewrite Er, Hs. cbn [ok].
    rewrite set_status_same by done. exists 0%nat, rc. cbn [andb]. split; [done|]. split; [|done].
    unfold complete, enc_log. simpl. lia.
  - cbn [map] in HL. inversion HL as [|off0 data records items rest off' HF HL']; subst. apply List.Forall_cons_iff in He as [He Hes].
    change (enc_log (items :: rest)) with (enc_items items ++ enc_log rest) in A.
    destruct (ReadRecord_ok off _ items off' (enc_log rest) (S rfuel) n r HF (record_bytes e (proj1 He)) Hr A) as [P1 P2].
    destruct (Nat.ltb_spec n (length (enc_items items))) as [L|L].
    + destruct P2 as (r' & -> & Er); [lia|]. unfold reported. rewrite Er, Hs. cbn [ok].
      rewrite set_status_same by done. exists 0%nat, rc. cbn [andb]. split; [done|]. split; [|done].
      unfold complete, enc_log. cbn [take map concat length]. rewrite take_0. cbn [map concat]. rewrite app_nil_r. simpl. lia.
    + destruct P1 as (r' & -> & A'); [lia|]. unfold reported. rewrite (at_reports _ _ _ A'), Hs. cbn [ok].
      rewrite set_status_same by done. rewrite Hs. cbn [andb ok]. rewrite recover_record_ok by done.
      cbn [fold_option] in Hall. destruct (rc_step rc e) as [rc1|] eqn:E1; [|done].
      destruct (IH off' rest HL' Hes fuel (S rfuel) (n - length (enc_items items))%nat r' rc1 rc_all)
        as (j & rc' & E2 & C2 & E3); [cbn [length] in Hf; lia|lia|exact A'|now apply (rc_step_status rc e)|done|].
      exists (S j), rc'. split; [done|]. split; [now apply complete_cons|]. cbn [take fold_option]. now rewrite E1.
Qed.

(** The builder of the steps, and the numbers of the last edit. *)
Lemma rc_steps_builder es rc b : fold_option (Apply ucmp) es (rc_builder rc) = Some b ->
  exists rc', fold_option rc_step es rc = Some rc' /\ rc_builder rc' = b.
Proof.
  revert rc. induction es as [|e es IH]; intros rc; cbn [fold_option]; [intros [= <-]; now exists rc|].
  unfold rc_step. destruct (Apply ucmp (rc_builder rc) e) as [b1|]; [|done]. intros H.
  apply (IH (MkRecovery OK b1 _ _ _ _)). exact H.
Qed.

Lemma fold_option_app {A B} (f : A -> B -> option A) l1 l2 a :
  fold_option f (l1 ++ l2) a = match fold_option f l1 a with Some a => fold_option f l2 a | None => None end.
Proof. revert a. induction l1 as [|b l1 IH]; intros a; cbn [fold_option app]; [done|]. now destruct (f a b). Qed.

Lemma rc_steps_status es rc rc' : fold_option rc_step es rc = Some rc' -> rc_status rc = OK -> rc_status rc' = OK.
Proof.
  revert rc. induction es as [|e es IH]; intros rc E1 Hs; cbn [fold_option] in E1; [now injection E1 as <-|].
  destruct (rc_step rc e) as [rc1|] eqn:E2; [|done]. apply (IH rc1 E1). now apply (rc_step_status rc e).
Qed.

Lemma rc_steps_no_next es rc rc' : fold_option rc_step es rc = Some rc' -> rc_next_file rc = None ->
  (forall e, e ∈ es -> has_next_file_number_ e = false) -> rc_next_file rc' = None.
Proof.
  revert rc. induction es as [|e es IH]; intros rc E1 Hn Hno; cbn [fold_option] in E1; [now injection E1 as <-|].
  unfold rc_step in E1 at 1. destruct (Apply ucmp (rc_builder rc) e); [|done].
  apply IH in E1; [done| |intros y Hy; apply Hno; now right]. cbn. now rewrite Hno by now left.
Qed.

(** An edit with all four numbers. *)
Definition edit_complete (e : VersionEdit) : Prop :=
  has_log_number_ e = true /\ has_prev_log_number_ e = true /\ has_next_file_number_ e = true /\ has_last_sequence_ e = true.

Lemma rc_steps_last es e rc rc' : edit_complete e -> fold_option rc_step (es ++ [e]) rc = Some rc' ->
  rc_status rc' = OK /\ rc_log_number rc' = Some (log_number_ e) /\ rc_prev_log_number rc' = Some (prev_log_number_ e) /\
  rc_next_file rc' = Some (next_file_number_ e) /\ rc_last_sequence rc' = Some (last_sequence_ e).
Proof.
  intros (H1 & H2 & H3 & H4). rewrite fold_option_app. destruct (fold_option rc_step es rc) as [rc1|]; [|done].
  cbn [fold_option]. unfold rc_step. destruct (Apply ucmp (rc_builder rc1) e); [|done]. intros [= <-]. cbn.
  now rewrite H1, H2, H3, H4.
Qed.

End Recover.

(** ** The file CURRENT *)

Section Current.
Context {E W R : Type} {EV : FileEnv E W R} {SR : SequentialFile R} {SL : SequentialFileLaws R} {EL : FileEnvLaws E W R}.

Lemma read_pieces_ok fuel (file : R) data : (length (unread file) < fuel)%nat ->
  read_pieces fuel file data = Some (OK, data ++ unread file).
Proof.
  revert file data. induction fuel as [|fuel IH]; intros file data Hf; [lia|]. cbn [read_pieces].
  destruct (Read_law file 8192 ltac:(lia)) as (file' & -> & Eu). cbn [ok negb].
  destruct (length (take (Z.to_nat 8192) (unread file)) =? 0)%nat eqn:El.
  - apply Nat.eqb_eq in El. rewrite length_take in El.
    assert (unread file = []) as ->; [|now rewrite take_nil]. destruct (unread file); [done|]. cbn [length] in El. lia.
  - apply Nat.eqb_neq in El. rewrite length_take in El. rewrite IH.
    + rewrite Eu, <- app_assoc. now rewrite take_drop.
    + rewrite Eu, length_drop. lia.
Qed.

Lemma ReadFileToString_ok fuel e name i : fs_dir e name = Some i -> (length (fs_data e i) < fuel)%nat ->
  ReadFileToString (W := W) fuel e name = Some (OK, fs_data e i).
Proof.
  intros Hd Hf. unfold ReadFileToString. destruct (NewSequentialFile_law e name i Hd) as (r & -> & Er). cbn [ok].
  rewrite read_pieces_ok by now rewrite Er. now rewrite Er.
Qed.

Lemma WriteStringToFileSync_ok e data name :
  exists i e', WriteStringToFileSync e data name = (OK, e') /\ fs_dir e' name = Some i /\ fs_data e' i = data /\
    (forall n, n <> name -> fs_dir e' n = fs_dir e n /\ fs_dir e n <> Some i) /\
    (forall j, j <> i -> fs_data e' j = fs_data e j).
Proof.
  unfold WriteStringToFileSync, DoWriteStringToFile.
  destruct (NewWritableFile_law e name) as (w & e1 & -> & D1 & C1 & O1 & R1). cbn [ok].
  destruct (file_Append_law e1 w data) as (e2 & w2 & -> & H2 & D2 & C2 & O2). cbn [ok andb].
  destruct (file_Sync_law e2 w2) as (e3 & w3 & -> & H3 & D3 & C3). cbn [ok].
  destruct (file_Close_law e3 w3) as (e4 & w4 & -> & D4 & C4). cbn [ok negb].
  exists (fs_handle w), e4. split; [done|]. rewrite D4, D3, D2. split; [done|]. split; [rewrite C4, C3, C2, C1; done|].
  split; [intros n Hn; rewrite D4, D3, D2; now apply O1|].
  intros j Hj. rewrite C4, C3, O2 by done. now apply R1.
Qed.

Lemma names_differ dbname f g :
  (forall n t, db_file_type f = (n, t) -> 0 <= n < 2 ^ 64) -> (forall n t, db_file_type g = (n, t) -> 0 <= n < 2 ^ 64) ->
  db_file_type f <> db_file_type g -> db_file_name dbname f <> db_file_name dbname g.
Proof. intros Hf Hg Hn Heq. apply Hn. now apply (file_name_inj dbname). Qed.

(** The base name of a manifest. *)
Definition manifest_base (number : Z) : list Z := str "MANIFEST-" ++ padded number.

Lemma manifest_name dbname number : DescriptorFileName dbname number = dbname ++ [47] ++ manifest_base number.
Proof. reflexivity. Qed.

Lemma SetCurrentFile_ok e dbname number : 0 <= number < 2 ^ 64 ->
  exists i e', SetCurrentFile e dbname number = (OK, e') /\ fs_dir e' (CurrentFileName dbname) = Some i /\
    fs_data e' i = manifest_base number ++ [10] /\
    (forall j, fs_dir e (DescriptorFileName dbname number) = Some j ->
       fs_dir e' (DescriptorFileName dbname number) = Some j /\ j <> i /\ fs_data e' j = fs_data e j).
Proof.
  intros Hn. unfold SetCurrentFile.
  replace (drop (length dbname + 1) (DescriptorFileName dbname number)) with (manifest_base number).
  2:{ rewrite manifest_name, app_assoc. rewrite drop_app_length'; [done|]. rewrite length_app. simpl. lia. }
  assert (Htc : TempFileName dbname number <> CurrentFileName dbname).
  { change (db_file_name dbname (DbTemp number) <> db_file_name dbname DbCurrent). apply names_differ; [| |done];
      intros ? ? [= <- <-]; lia. }
  assert (Hmt : DescriptorFileName dbname number <> TempFileName dbname number).
  { change (db_file_name dbname (DbDescriptor number) <> db_file_name dbname (DbTemp number)). apply names_differ; [| |done];
      intros ? ? [= <- <-]; lia. }
  assert (Hmc : DescriptorFileName dbname number <> CurrentFileName dbname).
  { change (db_file_name dbname (DbDescriptor number) <> db_file_name dbname DbCurrent). apply names_differ; [| |done];
      intros ? ? [= <- <-]; lia. }
  destruct (WriteStringToFileSync_ok e (manifest_base number ++ [10]) (TempFileName dbname number))
    as (i & e1 & -> & D1 & C1 & O1 & R1). cbn [ok].
  destruct (RenameFile_law e1 _ (CurrentFileName dbname) i D1 Htc) as (e2 & -> & D2 & O2 & C2). cbn [ok negb].
  exists i, e2. split; [done|]. split; [done|]. split; [now rewrite C2|].
  intros j Hj. rewrite O2 by done. destruct (O1 _ Hmt) as [Eo No]. rewrite Eo.
  assert (Hji : j <> i) by congruence. split; [done|]. split; [done|]. rewrite C2. now apply R1.
Qed.

End Current.
