(* ===== verification/LvRecovery.v ===== *)
(** * leveldb: a database reopens with the version it last recorded (theorems about LvManifest, continued)

    The edit that describes a version; what a run of LogAndApply leaves in the
    file system; and recovery from it after a crash at any byte of the
    manifest.  Seek allowances are not recorded: versions are compared without
    them. *)
From Stdlib Require Import ZArith Lia Bool String List Sorted SpecFloat Permutation.
From stdpp Require Import base list gmap numbers sorting.
From S2P Require Import Prelude LvCoding LvEnv LvLog LvLogProps LvComparator LvDbFormat LvWriteBatch LvFilename.
From S2P Require Import LvVersion LvVersionEdit LvBuilder LvBuilderProps LvManifest LvManifestProps.

(** ** Versions without their seek allowances *)

Definition recorded (v : Version) : list (list FileMetaData) := map (map with_seeks) (files_ v).

Lemma recorded_level v level : default [] (recorded v !! level) = map with_seeks (level_files v level).
Proof.
  unfold recorded, level_files. rewrite list_lookup_fmap. now destruct (files_ v !! level).
Qed.

Section Seeks.
Context {C : Comparator} {valid : list Z -> Prop} {CL : ComparatorLaws C valid}.

Lemma BySmallestKey_seeks f g : BySmallestKey C (with_seeks f) (with_seeks g) = BySmallestKey C f g.
Proof. reflexivity. Qed.

Lemma with_seeks_twice f : with_seeks (with_seeks f) = with_seeks f.
Proof. reflexivity. Qed.

Lemma upper_bound_seeks f l : upper_bound C (with_seeks f) (map with_seeks l) =
  (map with_seeks (upper_bound C f l).1, map with_seeks (upper_bound C f l).2).
Proof.
  induction l as [|g l IH]; cbn [map upper_bound]; [done|]. rewrite BySmallestKey_seeks.
  destruct (BySmallestKey C f g); [done|]. rewrite IH. now destruct (upper_bound C f l).
Qed.

Lemma MaybeAdd_seeks d l files : map with_seeks (fold_left (MaybeAddFile d) l files) =
  fold_left (MaybeAddFile d) (map with_seeks l) (map with_seeks files).
Proof.
  revert files. induction l as [|f l IH]; intros files; cbn [fold_left map]; [done|]. rewrite IH. f_equal.
  unfold MaybeAddFile. cbn. destruct (decide _); [done|]. now rewrite map_app.
Qed.

Lemma save_level_seeks d base added files : map with_seeks (save_level C d base added files) =
  save_level C d (map with_seeks base) (map with_seeks added) (map with_seeks files).
Proof.
  revert base files. induction added as [|a added IH]; intros base files; cbn [save_level map]; [apply MaybeAdd_seeks|].
  rewrite upper_bound_seeks. destruct (upper_bound C a base) as [smaller rest]. cbn [fst snd].
  rewrite IH. f_equal. rewrite <- MaybeAdd_seeks.
  change (MaybeAddFile d (fold_left (MaybeAddFile d) smaller files) a) with
    (fold_left (MaybeAddFile d) [a] (fold_left (MaybeAddFile d) smaller files)).
  now rewrite MaybeAdd_seeks.
Qed.

(** Versions that are recorded the same way stay so under an edit. *)
Lemma install_recorded v w p q e v1 p1 : length (files_ v) = kNumLevels -> length (files_ w) = kNumLevels ->
  length p = kNumLevels -> length q = kNumLevels -> levels_exist e ->
  recorded v = recorded w -> install (C := C) v p e = Some (v1, p1) ->
  exists w1 q1, install (C := C) w q e = Some (w1, q1) /\ recorded v1 = recorded w1.
Proof.
  intros Hv Hw Hp Hq Hex Heq. unfold install.
  destruct (Apply_levels (C := C) (make_Builder v p) e) as (ls & -> & Hl1 & H1);
    [done|done|done|]. destruct (Apply_levels (C := C) (make_Builder w q) e) as (ls2 & -> & Hl2 & H2); [done|done|done|].
  intros [= <- <-]. do 2 eexists. split; [reflexivity|]. unfold recorded. rewrite !Finalize_files.
  assert (Els : forall level, (level < kNumLevels)%nat -> ls !! level = ls2 !! level).
  { intros level Hlt. cbn [make_Builder levels_] in H1, H2. rewrite (H1 level (MkLevelState ∅ [])) by now apply lookup_replicate_2.
    now rewrite (H2 level (MkLevelState ∅ [])) by now apply lookup_replicate_2. }
  apply list_eq. intros level. rewrite !list_lookup_fmap. unfold SaveTo. cbn [files_ levels_ base_ make_Version].
  rewrite !list_lookup_imap. destruct (decide (level < kNumLevels)%nat) as [Hlt|Hge].
  - rewrite !lookup_replicate_2 by done. cbn. rewrite <- Els by done. destruct (ls !! level) as [s|]; [|done].
    f_equal. rewrite !save_level_seeks. f_equal. rewrite <- !recorded_level. now rewrite Heq.
  - rewrite (lookup_ge_None_2 (replicate kNumLevels [])) by (rewrite length_replicate; lia). done.
Qed.

End Seeks.

(** ** The edit that describes a version *)

Section Snapshot.
Context {E W : Type}.
Context (comparator_name : list Z).
Notation snapshot_edit := (snapshot_edit (E := E) (W := W) comparator_name).

Definition unopened (f : FileMetaData) : FileMetaData :=
  MkFile (f_number f) (f_file_size f) (f_smallest f) (f_largest f) (Z.shiftl 1 30).

Definition described (v : Version) (levels : list nat) : list (Z * FileMetaData) :=
  concat (map (fun level => map (fun f => (Z.of_nat level, unopened f)) (level_files v level)) levels).

Lemma add_files_fold level fs edit :
  fold_left (fun edit f => AddFile level (f_number f) (f_file_size f) (f_smallest f) (f_largest f) edit) fs edit =
  MkEdit (comparator_ edit) (log_number_ edit) (prev_log_number_ edit) (next_file_number_ edit) (last_sequence_ edit)
    (has_comparator_ edit) (has_log_number_ edit) (has_prev_log_number_ edit) (has_next_file_number_ edit)
    (has_last_sequence_ edit) (compact_pointers_ edit) (deleted_files_ edit)
    (new_files_ edit ++ map (fun f => (level, unopened f)) fs).
Proof.
  revert edit. induction fs as [|f fs IH]; intros edit; cbn [fold_left map]; [rewrite app_nil_r; now destruct edit|].
  rewrite IH. cbn. now rewrite <- app_assoc.
Qed.

Lemma add_levels_fold v levels edit :
  fold_left (fun edit level =>
      fold_left (fun edit f => AddFile (Z.of_nat level) (f_number f) (f_file_size f) (f_smallest f) (f_largest f) edit)
        (level_files v level) edit) levels edit =
  MkEdit (comparator_ edit) (log_number_ edit) (prev_log_number_ edit) (next_file_number_ edit) (last_sequence_ edit)
    (has_comparator_ edit) (has_log_number_ edit) (has_prev_log_number_ edit) (has_next_file_number_ edit)
    (has_last_sequence_ edit) (compact_pointers_ edit) (deleted_files_ edit) (new_files_ edit ++ described v levels).
Proof.
  revert edit. induction levels as [|level levels IH]; intros edit; cbn [fold_left].
  - unfold described. cbn. rewrite app_nil_r. now destruct edit.
  - rewrite IH, add_files_fold. unfold described. cbn. now rewrite <- app_assoc.
Qed.

(** The pointers that are set. *)
Definition set_pointers_of (ptrs : list (list Z)) (levels : list nat) : list (Z * list Z) :=
  concat (map (fun level => match ptrs !! level with Some ((_ :: _) as key) => [(Z.of_nat level, key)] | _ => [] end) levels).

Lemma pointers_edit_fold ptrs levels edit :
  fold_left (fun edit level =>
      match ptrs !! level with
      | Some ((_ :: _) as key) => SetCompactPointer (Z.of_nat level) key edit
      | _ => edit
      end) levels edit =
  MkEdit (comparator_ edit) (log_number_ edit) (prev_log_number_ edit) (next_file_number_ edit) (last_sequence_ edit)
    (has_comparator_ edit) (has_log_number_ edit) (has_prev_log_number_ edit) (has_next_file_number_ edit)
    (has_last_sequence_ edit) (compact_pointers_ edit ++ set_pointers_of ptrs levels) (deleted_files_ edit) (new_files_ edit).
Proof.
  revert edit. induction levels as [|level levels IH]; intros edit; cbn [fold_left].
  - unfold set_pointers_of. cbn. rewrite app_nil_r. now destruct edit.
  - unfold set_pointers_of. cbn [map concat]. rewrite IH. destruct (ptrs !! level) as [[|x k]|]; cbn; try done.
    now rewrite <- app_assoc.
Qed.

Lemma snapshot_is (vs : VersionSet E W) : snapshot_edit vs =
  MkEdit comparator_name 0 0 0 0 true false false false false (set_pointers_of (vs_pointers vs) (seq 0 kNumLevels)) []
    (described (vs_current vs) (seq 0 kNumLevels)).
Proof. unfold LvManifest.snapshot_edit. now rewrite add_levels_fold, pointers_edit_fold. Qed.

Lemma at_level_described v level levels : NoDup levels ->
  at_level level (described v levels) = if decide (level ∈ levels) then map unopened (level_files v level) else [].
Proof.
  intros Hn. induction Hn as [|l levels Hl Hn IH]; [done|]. unfold described. cbn [map concat]. fold (described v levels).
  rewrite at_level_app, IH.
  assert (E1 : at_level level (map (fun f => (Z.of_nat l, unopened f)) (level_files v l)) =
               if decide (l = level) then map unopened (level_files v l) else []).
  { unfold at_level. destruct (decide (l = level)) as [->|Hne].
    - rewrite filter_keep_all; [now rewrite map_map|]. intros p Hp. apply list_elem_of_fmap in Hp as (f & -> & _). done.
    - rewrite filter_keep_none; [done|]. intros p Hp. apply list_elem_of_fmap in Hp as (f & -> & _). cbn. lia. }
  rewrite E1. destruct (decide (l = level)) as [->|Hne].
  - rewrite (decide_False (P := level ∈ levels)) by done. rewrite (decide_True (P := level ∈ level :: levels)) by now left.
    now rewrite app_nil_r.
  - destruct (decide (level ∈ levels)); [rewrite (decide_True (P := level ∈ l :: levels)); [done|now right]|].
    rewrite (decide_False (P := level ∈ l :: levels)); [done|]. intros [|]%elem_of_cons; congruence.
Qed.

Lemma snapshot_adds (vs : VersionSet E W) level : (level < kNumLevels)%nat ->
  edit_adds (snapshot_edit vs) level = map with_seeks (level_files (vs_current vs) level).
Proof.
  intros Hlt. unfold edit_adds. rewrite snapshot_is. cbn [new_files_]. rewrite at_level_described by apply NoDup_seq.
  rewrite decide_True by (apply elem_of_seq; lia). now rewrite map_map.
Qed.

Lemma set_pointers_elem ptrs levels p : p ∈ set_pointers_of ptrs levels ->
  exists level, level ∈ levels /\ p.1 = Z.of_nat level /\ ptrs !! level = Some p.2 /\ p.2 <> [].
Proof.
  intros Hp. unfold set_pointers_of in Hp. apply list_elem_of_In, in_concat in Hp as (l & Hl & Hp).
  apply in_map_iff in Hl as (level & <- & Hlev). apply list_elem_of_In in Hlev, Hp.
  destruct (ptrs !! level) as [[|x k]|] eqn:Ek; try now apply elem_of_nil in Hp.
  apply list_elem_of_singleton in Hp as ->. exists level. cbn [fst snd]. split; [done|]. split; [done|]. split; [exact Ek|discriminate].
Qed.

Lemma described_elem v levels p : p ∈ described v levels ->
  exists level f, level ∈ levels /\ p = (Z.of_nat level, unopened f) /\ f ∈ level_files v level.
Proof.
  intros Hp. unfold described in Hp. apply list_elem_of_In, in_concat in Hp as (l & Hl & Hp).
  apply in_map_iff in Hl as (level & <- & Hlev). apply list_elem_of_In in Hlev, Hp.
  apply list_elem_of_fmap in Hp as (f & -> & Hf). now exists level, f.
Qed.

(** Files and pointers that can be recorded. *)
Definition recordable (v : Version) (ptrs : list (list Z)) : Prop :=
  (forall level f, f ∈ level_files v level -> number_ok (f_number f) /\ number_ok (f_file_size f) /\
     key_ok (f_smallest f) /\ key_ok (f_largest f)) /\
  Forall slice_ok ptrs.

Lemma seq_level level : level ∈ seq 0 kNumLevels -> level_ok (Z.of_nat level).
Proof. rewrite elem_of_seq. unfold level_ok. lia. Qed.

Lemma snapshot_ok (vs : VersionSet E W) : slice_ok comparator_name -> recordable (vs_current vs) (vs_pointers vs) ->
  edit_of comparator_name (snapshot_edit vs) /\ levels_exist (snapshot_edit vs).
Proof.
  intros Hc [Hf Hp]. rewrite snapshot_is.
  assert (Hptr : Forall (fun p => level_ok p.1 /\ key_ok p.2) (set_pointers_of (vs_pointers vs) (seq 0 kNumLevels))).
  { apply Forall_forall. intros p Hin. apply set_pointers_elem in Hin as (level & Hl & E1 & E2 & Hne).
    rewrite E1. split; [now apply seq_level|]. split; [|done]. rewrite Forall_forall in Hp. apply Hp.
    apply list_elem_of_lookup. now exists level. }
  assert (Hnew : Forall (fun p => item_ok (INew p.1 p.2)) (described (vs_current vs) (seq 0 kNumLevels))).
  { apply Forall_forall. intros p Hin. apply described_elem in Hin as (level & f & Hl & -> & Hin). cbn.
    destruct (Hf level f Hin) as (H1 & H2 & H3 & H4). split; [now apply seq_level|done]. }
  set (ptrs := set_pointers_of (vs_pointers vs) (seq 0 kNumLevels)) in *.
  set (files := described (vs_current vs) (seq 0 kNumLevels)) in *. clearbody ptrs files.
  split; [split|].
  - constructor; cbn [has_comparator_ has_log_number_ has_prev_log_number_ has_next_file_number_ has_last_sequence_
      deleted_files_]; try done; [|constructor]. apply items_of_ok. cbn. split; [now intros _|].
    do 4 (split; [done|]). split; [exact Hptr|]. split; [constructor|exact Hnew].
  - done.
  - split; [|split]; cbn.
    + eapply List.Forall_impl; [|exact Hptr]. now intros p [Hl _].
    + constructor.
    + eapply List.Forall_impl; [|exact Hnew]. now intros p [Hl _].
Qed.

End Snapshot.

(** ** One call of LogAndApply *)

Section Run.
Context {C : Comparator} {valid : list Z -> Prop} {CL : ComparatorLaws C valid}.
Context {E W R : Type} {EV : FileEnv E W R} {SR : SequentialFile R} {SL : SequentialFileLaws R} {EL : FileEnvLaws E W R}.
Context (comparator_name : list Z) (name_ok : slice_ok comparator_name).
Notation VS := (VersionSet E W).
Notation start_pointers := (replicate kNumLevels (@nil Z)).
Notation install_all := (install_all (C := C)).
Notation edits_fresh := (edits_fresh (valid := valid)).
Notation base_ok := (base_ok (C := C) (valid := valid)).

(** A version set in use. *)
Record state_ok (vs : VS) : Prop := {
  so_base : base_ok (vs_current vs) (vs_pointers vs);
  so_recordable : recordable (vs_current vs) (vs_pointers vs);
  so_next : number_ok (next_file_number vs);
  so_last : number_ok (last_sequence vs);
  so_log : number_ok (log_number vs);
  so_prev : number_ok (prev_log_number vs);
  so_manifest : number_ok (manifest_file_number vs);
}.

(** An edit that a client may pass. *)
Definition client_edit (e : VersionEdit) : Prop := edit_ok e /\ has_comparator_ e = false /\ levels_exist e.

Lemma complete_same vs e level : edit_adds (complete_edit (E := E) (W := W) vs e) level = edit_adds e level /\
  edit_deletes (complete_edit (E := E) (W := W) vs e) level = edit_deletes e level.
Proof. unfold complete_edit. destruct (has_log_number_ e); cbn; destruct (has_prev_log_number_ e); done. Qed.

Lemma complete_edit_ok (vs : VS) e : state_ok vs -> client_edit e ->
  edit_of comparator_name (complete_edit vs e) /\ levels_exist (complete_edit vs e) /\ edit_complete (complete_edit vs e).
Proof.
  intros Hs (He & Hc & Hl). unfold complete_edit.
  assert (H1 : edit_ok (if has_log_number_ e then e else SetLogNumber (log_number vs) e)).
  { destruct (has_log_number_ e); [done|]. apply (apply_item_ok e (ILog (log_number vs))); [done|apply Hs]. }
  set (e1 := if has_log_number_ e then e else SetLogNumber (log_number vs) e) in *.
  assert (H2 : edit_ok (if has_prev_log_number_ e1 then e1 else SetPrevLogNumber (prev_log_number vs) e1)).
  { destruct (has_prev_log_number_ e1); [done|]. apply (apply_item_ok e1 (IPrevLog (prev_log_number vs))); [done|apply Hs]. }
  set (e2 := if has_prev_log_number_ e1 then e1 else SetPrevLogNumber (prev_log_number vs) e1) in *.
  split; [split|split].
  - apply (apply_item_ok _ (ILastSequence (last_sequence vs))); [|apply Hs].
    apply (apply_item_ok _ (INextFile (next_file_number vs))); [done|apply Hs].
  - cbn. unfold e2, e1. destruct (has_log_number_ e); cbn; destruct (has_prev_log_number_ e); cbn; now rewrite Hc.
  - unfold levels_exist in *. cbn. unfold e2, e1. destruct (has_log_number_ e) eqn:El; cbn; destruct (has_prev_log_number_ e) eqn:Ep; cbn; done.
  - unfold edit_complete. cbn. unfold e2, e1. destruct (has_log_number_ e) eqn:El; cbn; destruct (has_prev_log_number_ e) eqn:Ep; cbn; done.
Qed.

(** The files that edits leave are among those they added. *)
Lemma replay_added level es files f : f ∈ replay level es files ->
  f ∈ files ++ concat (map (fun e => edit_adds e level) es).
Proof.
  revert files. induction es as [|e es IH]; intros files; cbn [replay fold_left map concat]; [now rewrite app_nil_r|].
  intros H. apply IH in H. rewrite !elem_of_app, list_elem_of_filter in *. tauto.
Qed.

Lemma make_base_ok : base_ok make_Version start_pointers.
Proof. constructor; try done; intros [|[|[|[|[|[|[|level]]]]]]]; constructor. Qed.

Lemma edits_fresh_prefix old es1 es2 : edits_fresh old (es1 ++ es2) -> edits_fresh old es1.
Proof.
  intros [H1 H2]. apply Forall_app in H1 as [H1 _]. split; [done|]. intros level. destruct (H2 level) as [Hn Hv].
  apply Forall_app in Hv as [Hv _]. split; [|done]. unfold numbers in *. rewrite (map_app _ es1 es2), concat_app, !map_app in Hn.
  rewrite map_app. rewrite (Permutation_app_comm (map f_number (concat (map _ es1)))) in Hn. rewrite <- app_assoc in Hn.
  now apply NoDup_app in Hn as (_ & _ & Hn).
Qed.

(** An edit whose files are new in a history is new for the version that the
    history gives. *)
Lemma history_fresh es e vr pr (v : Version) (ptrs : list (list Z)) :
  edits_fresh (level_files make_Version) (es ++ [e]) -> install_all make_Version start_pointers es = Some (vr, pr) ->
  recorded v = recorded vr -> base_ok v ptrs ->
  edit_fresh (valid := valid) (make_Builder v ptrs) e.
Proof.
  intros Hfr Hi Hrec Hb level.
  destruct (build_all make_Version start_pointers es make_base_ok (edits_fresh_prefix _ _ _ Hfr))
    as (b & v' & p' & _ & E2 & _ & _ & _ & Hel). rewrite Hi in E2. injection E2 as <- <-.
  destruct Hfr as [Hex Hn]. destruct (Hn level) as [Hnd Hv]. apply Forall_app in Hex as [_ Hex]. apply List.Forall_inv in Hex.
  apply Forall_app in Hv as [_ Hv]. apply List.Forall_inv in Hv. split; [|done].
  destruct (Nat.lt_ge_cases level kNumLevels) as [Hlt|Hge].
  2:{ rewrite no_adds by done. unfold seen, make_Builder. cbn [base_ levels_].
      rewrite lookup_ge_None_2 by now rewrite length_replicate. rewrite app_nil_r. cbn [app]. apply Hb. }
  rewrite (proj2 (make_Builder_level (C := C) v ptrs level Hlt)). unfold numbers. rewrite map_app.
  assert (Hnums : map f_number (level_files v level) = map f_number (level_files vr level)).
  { rewrite <- (numbers_with_seeks (level_files v level) : map _ _ = map _ _).
    rewrite <- (numbers_with_seeks (level_files vr level) : map _ _ = map _ _).
    unfold numbers. rewrite <- !recorded_level. now rewrite Hrec. }
  unfold numbers in Hnd. rewrite (map_app _ es [e]), concat_app in Hnd. cbn [map concat] in Hnd.
  replace (level_files make_Version level) with (@nil FileMetaData) in Hnd
    by (now destruct level as [|[|[|[|[|[|[|level]]]]]]]).
  rewrite !app_nil_r, map_app in Hnd. apply NoDup_app in Hnd as (_ & Hd & Hne).
  apply NoDup_app. split; [done|]. split; [|apply Hb].
  intros n Hn1 Hn2. rewrite Hnums in Hn2. apply list_elem_of_fmap in Hn2 as (f & -> & Hf).
  apply Hel in Hf; [|done]. apply replay_added in Hf.
  replace (level_files make_Version level) with (@nil FileMetaData) in Hf
    by (now destruct level as [|[|[|[|[|[|[|level]]]]]]]).
  apply (Hd (f_number f)); [|done]. apply list_elem_of_fmap. now exists f.
Qed.

Lemma recordable_after v ptrs e : recordable v ptrs -> edit_ok e -> recordable v (pointers_after ptrs e).
Proof.
  intros [H1 H2] He. split; [done|].
  pose proof (proj1 (items_of_ok e) (eo_items e He)) as (_ & _ & _ & _ & _ & Hptr & _). clear -H2 Hptr.
  unfold pointers_after. revert ptrs H2. induction (compact_pointers_ e) as [|q l IH]; intros ptrs Hp; cbn [fold_left]; [done|].
  apply List.Forall_cons_iff in Hptr as [Hq Hl]. apply IH; [done|]. apply Forall_insert; [done|]. apply Hq.
Qed.

(** The version that LogAndApply installs. *)
Lemma install_state v ptrs e : base_ok v ptrs -> recordable v ptrs -> levels_exist e -> edit_ok e ->
  edit_fresh (valid := valid) (make_Builder v ptrs) e ->
  exists b, Apply C (make_Builder v ptrs) e = Some b /\
    install (C := C) v ptrs e = Some (Finalize (SaveTo C b make_Version), compact_pointer_ b) /\
    base_ok (Finalize (SaveTo C b make_Version)) (compact_pointer_ b) /\
    recordable (Finalize (SaveTo C b make_Version)) (compact_pointer_ b).
Proof.
  intros Hb Hr Hex He Hfr.
  destruct (Apply_ok (make_Builder v ptrs) e (make_Builder_ok _ _ Hb) Hex Hfr) as (b & Eb & Hok & _ & Ep & _ & Hel).
  exists b. split; [done|]. split; [unfold install; now rewrite Eb|]. split; [now apply Finalize_base, SaveTo_base|].
  destruct Hr as [Hr Hp]. pose proof (proj1 (items_of_ok e) (eo_items e He)) as (_ & _ & _ & _ & _ & Hptr & _ & Hnew).
  split.
  - intros level f Hf. rewrite Finalize_level in Hf.
    destruct (Nat.lt_ge_cases level kNumLevels) as [Hlt|Hge]; [|rewrite SaveTo_above in Hf by done; now apply elem_of_nil in Hf].
    rewrite SaveTo_level in Hf by done. apply Hel in Hf; [|done]. destruct Hf as [Hf|[Hf _]].
    + unfold edit_adds, at_level in Hf. apply list_elem_of_fmap in Hf as (g & -> & Hg).
      apply list_elem_of_fmap in Hg as (q & -> & Hq). apply list_elem_of_filter in Hq as [_ Hq].
      rewrite Forall_forall in Hnew. destruct (Hnew q Hq) as (_ & H1 & H2 & H3 & H4 & _). done.
    + apply (Hr level). now rewrite (proj1 (make_Builder_level (C := C) v ptrs level Hlt)) in Hf.
  - rewrite Ep. cbn [make_Builder compact_pointer_]. now apply (recordable_after v).
Qed.

(** What is in the manifest. *)
Definition manifest_bytes (vs : VS) : list Z :=
  match fs_dir (vs_env vs) (DescriptorFileName (vs_dbname vs) (manifest_file_number vs)) with Some i => fs_data (vs_env vs) i | None => [] end.

(** The manifest in the file system holds the edits [es], as the records [l],
    CURRENT names it, and the edits give the current version. *)
Record manifest_is (vs : VS) (es : list VersionEdit) (l : list (list LvLogProps.item)) : Prop := {
  mi_state : state_ok vs;
  mi_log : exists w i, vs_log vs = Some w /\
    fs_dir (vs_env vs) (DescriptorFileName (vs_dbname vs) (manifest_file_number vs)) = Some (fs_handle (Writer.dest_ w)) /\
    fs_data (vs_env vs) (fs_handle (Writer.dest_ w)) = enc_log l /\
    logged_to 0 (map record_of es) l (Writer.block_offset_ w) /\
    fs_dir (vs_env vs) (CurrentFileName (vs_dbname vs)) = Some i /\ i <> fs_handle (Writer.dest_ w) /\
    fs_data (vs_env vs) i = manifest_base (manifest_file_number vs) ++ [10];
  mi_edits : Forall (edit_of comparator_name) es /\ Forall levels_exist es;
  mi_version : exists vr pr, install_all make_Version start_pointers es = Some (vr, pr) /\
    recorded (vs_current vs) = recorded vr;
}.

(** The numbers of the version set are those of the last edit. *)
Definition last_numbers (vs : VS) (es : list VersionEdit) : Prop :=
  exists es0 e, es = es0 ++ [e] /\ edit_complete e /\ log_number_ e = log_number vs /\
    prev_log_number_ e = prev_log_number vs /\ next_file_number_ e = next_file_number vs /\
    last_sequence_ e = last_sequence vs.

(** The record of an edit, with the synchronisation of the file. *)
Lemma log_edit_ok e w edit : edit_ok edit -> 0 <= Writer.block_offset_ w <= kBlockSize ->
  exists e' w' items, log_edit e w edit = Some (OK, e', w') /\
    fragments (Writer.block_offset_ w) true (record_of edit) items (Writer.block_offset_ w') /\
    fs_handle (Writer.dest_ w') = fs_handle (Writer.dest_ w) /\
    fs_data e' (fs_handle (Writer.dest_ w)) = fs_data e (fs_handle (Writer.dest_ w)) ++ enc_items items /\
    (forall n, fs_dir e' n = fs_dir e n) /\
    (forall i, i <> fs_handle (Writer.dest_ w) -> fs_data e' i = fs_data e i).
Proof.
  intros He Hw. destruct (log_record_ok e w (record_of edit) (record_bytes edit He) Hw)
    as (e1 & w1 & items & E1 & HF & Hh & Hd & Hn & Ho).
  unfold log_edit. fold (record_of edit). rewrite E1. cbn [ok].
  destruct (file_Sync_law e1 (Writer.dest_ w1)) as (e2 & f2 & -> & H2 & N2 & D2).
  exists e2, (Writer.Mk f2 (Writer.block_offset_ w1)), items. cbn [Writer.block_offset_ Writer.dest_].
  split; [done|]. split; [done|]. split; [congruence|]. split; [now rewrite D2|].
  split; [intros n; now rewrite N2|]. intros i Hi. rewrite D2. now apply Ho.
Qed.

Lemma manifest_not_current db n : number_ok n -> DescriptorFileName db n <> CurrentFileName db.
Proof.
  intros Hn. change (db_file_name db (DbDescriptor n) <> db_file_name db DbCurrent).
  apply names_differ; [| |done]; intros ? ? [= <- <-]; unfold number_ok in Hn; lia.
Qed.

(** The state after the new version was installed. *)
Lemma installed_state (vs : VS) e b env w :
  state_ok vs -> edit_ok e -> edit_complete e ->
  base_ok (Finalize (SaveTo C b make_Version)) (compact_pointer_ b) ->
  recordable (Finalize (SaveTo C b make_Version)) (compact_pointer_ b) ->
  state_ok (MkVersionSet env (vs_dbname vs) (next_file_number vs) (manifest_file_number vs) (last_sequence vs)
    (log_number_ e) (prev_log_number_ e) w (Finalize (SaveTo C b make_Version)) (compact_pointer_ b)).
Proof.
  intros Hs He (H1 & H2 & _ & _) Hb Hr. destruct (proj1 (items_of_ok e) (eo_items e He)) as (_ & K1 & K2 & _).
  constructor; cbn; try done; try apply Hs; [now apply K1|now apply K2].
Qed.

(** A later call: the record is appended. *)
Lemma LogAndApply_next (vs : VS) es l e : manifest_is vs es l -> client_edit e ->
  edits_fresh (level_files make_Version) (es ++ [complete_edit vs e]) ->
  exists items vs', LogAndApply C comparator_name vs e = Some (OK, complete_edit vs e, vs') /\
    vs_dbname vs' = vs_dbname vs /\ manifest_file_number vs' = manifest_file_number vs /\
    manifest_is vs' (es ++ [complete_edit vs e]) (l ++ [items]) /\ last_numbers vs' (es ++ [complete_edit vs e]).
Proof.
  intros [Hs (w & i & Ew & Dm & Cm & HL & Dc & Ni & Cc) [Hes Hex] (vr & pr & Hi & Hrec)] He Hfr.
  destruct (complete_edit_ok vs e Hs He) as (He1 & Hl1 & Hc1). set (e1 := complete_edit vs e) in *.
  destruct (install_state (vs_current vs) (vs_pointers vs) e1) as (b & Eb & Ei & Hb & Hr);
    [apply Hs|apply Hs|done|apply He1|now apply (history_fresh es e1 vr pr); [| | |apply Hs]|].
  destruct (log_edit_ok (vs_env vs) w e1) as (env' & w' & items & El & HF & Hh & Hd & Hn & Ho);
    [apply He1|apply (logged_to_off _ _ _ _ HL); unfold kBlockSize; lia|].
  unfold LogAndApply. fold e1. rewrite Eb. unfold open_manifest. cbn [set_pointers vs_log vs_env]. rewrite Ew.
  cbn [ok vs_log vs_env set_pointers]. rewrite Ew, El. cbn [ok andb].
  exists items. eexists. split; [reflexivity|]. split; [done|]. split; [done|].
  split; [constructor|exists es, e1; cbn; repeat split; try done; apply Hc1].
  - cbn. apply (installed_state vs e1 b env' (Some w')); try done. apply He1.
  - cbn. exists w', i. rewrite Hh, !Hn. split; [done|]. split; [done|].
    split; [rewrite Hd, Cm, enc_log_app; unfold enc_log; cbn [map concat]; now rewrite app_nil_r|].
    split; [rewrite map_app; cbn [map]; now apply logged_to_snoc with (Writer.block_offset_ w)|].
    split; [done|]. split; [done|]. now rewrite Ho.
  - split; apply Forall_app; split; try done; now constructor.
  - cbn [vs_current AppendVersion set_env set_pointers].
    destruct (build_all make_Version start_pointers es make_base_ok (edits_fresh_prefix _ _ _ Hfr))
      as (b0 & v0 & p0 & _ & E0 & _ & _ & Hb0 & _). rewrite Hi in E0. injection E0 as <- <-.
    destruct (install_recorded (vs_current vs) vr (vs_pointers vs) pr e1 _ _ (ba_files _ _ (so_base _ Hs)) (ba_files _ _ Hb0)
      (ba_pointers _ _ (so_base _ Hs)) (ba_pointers _ _ Hb0) Hl1 Hrec Ei) as (w1 & q1 & E1 & Er).
    exists w1, q1. split; [|done]. unfold LvBuilderProps.install_all in *. rewrite fold_option_app, Hi. cbn [fold_option fst snd].
    now rewrite E1.
Qed.

Lemma sorted_with_seeks l : StronglySorted (file_lt (C := C)) l -> StronglySorted (file_lt (C := C)) (map with_seeks l).
Proof.
  induction 1 as [|f l Hs IH Hf]; cbn [map]; constructor; [done|]. apply List.Forall_map. exact Hf.
Qed.

(** Replaying a snapshot gives the version it describes. *)
Lemma snapshot_install (vs : VS) : base_ok (vs_current vs) (vs_pointers vs) -> recordable (vs_current vs) (vs_pointers vs) ->
  exists v p, install (C := C) make_Version start_pointers (snapshot_edit comparator_name vs) = Some (v, p) /\
    recorded v = recorded (vs_current vs) /\ base_ok v p.
Proof.
  intros Hb Hr. destruct (snapshot_ok comparator_name vs name_ok Hr) as [_ Hex].
  set (snap := snapshot_edit comparator_name vs) in *.
  assert (Hadds : forall level, edit_adds snap level = map with_seeks (level_files (vs_current vs) level)).
  { intros level. destruct (Nat.lt_ge_cases level kNumLevels) as [Hlt|Hge]; [now apply snapshot_adds|].
    rewrite no_adds by done. unfold level_files. rewrite lookup_ge_None_2; [done|]. rewrite (ba_files _ _ Hb). lia. }
  assert (Hfr : edit_fresh (valid := valid) (make_Builder make_Version start_pointers) snap).
  { intros level. rewrite Hadds. split.
    - replace (seen (make_Builder make_Version start_pointers) level) with (@nil FileMetaData)
        by now destruct level as [|[|[|[|[|[|[|level]]]]]]]. rewrite app_nil_r, numbers_with_seeks. apply Hb.
    - apply List.Forall_map. apply (ba_valid _ _ Hb level). }
  destruct (install_step (make_Builder make_Version start_pointers) make_Version snap
    (make_Builder_ok _ _ make_base_ok) make_base_ok) as (b & v & _ & Ei & _ & Hv & _ & _ & _ & Hel); [|done|done|].
  { intros level Hlt. symmetry. now apply make_Builder_level. }
  exists v, (compact_pointer_ b). split; [done|]. split; [|done].
  assert (Hlev : forall level, level_files v level = map with_seeks (level_files (vs_current vs) level)).
  { intros level. destruct (Nat.lt_ge_cases level kNumLevels) as [Hlt|Hge].
    2:{ unfold level_files. rewrite !lookup_ge_None_2; [done|rewrite (ba_files _ _ Hb); lia|rewrite (ba_files _ _ Hv); lia]. }
    apply (files_sorted_unique (C := C) (valid := valid)); [apply Hv|apply Hv|apply sorted_with_seeks, Hb|].
    intros f. rewrite Hel by done. rewrite Hadds. split; [intros [?|[Hf _]]; [done|]|now left].
    replace (level_files make_Version level) with (@nil FileMetaData) in Hf
      by now destruct level as [|[|[|[|[|[|[|level]]]]]]]. now apply elem_of_nil in Hf. }
  apply list_eq. intros level. specialize (Hlev level). unfold recorded. rewrite !list_lookup_fmap.
  unfold level_files in Hlev. destruct (Nat.lt_ge_cases level kNumLevels) as [Hlt|Hge].
  - destruct (lookup_lt_is_Some_2 (files_ v) level) as [x Ex]; [rewrite (ba_files _ _ Hv); lia|].
    destruct (lookup_lt_is_Some_2 (files_ (vs_current vs)) level) as [y Ey]; [rewrite (ba_files _ _ Hb); lia|].
    rewrite Ex, Ey in *. cbn in *. subst x. now rewrite map_map.
  - rewrite !lookup_ge_None_2; [done|rewrite (ba_files _ _ Hb); lia|rewrite (ba_files _ _ Hv); lia].
Qed.

(** The snapshot that the first call writes: the pointers are already those
    after the edit. *)
Definition first_snapshot (vs : VS) (e : VersionEdit) : VersionEdit :=
  snapshot_edit comparator_name (set_pointers vs (pointers_after (vs_pointers vs) e)).

(** The first call: a new manifest with a snapshot and the record, and CURRENT. *)
Lemma LogAndApply_first (vs : VS) e : state_ok vs -> vs_log vs = None -> client_edit e ->
  edits_fresh (level_files make_Version) [first_snapshot vs e; complete_edit vs e] ->
  exists l vs', LogAndApply C comparator_name vs e = Some (OK, complete_edit vs e, vs') /\
    vs_dbname vs' = vs_dbname vs /\ manifest_file_number vs' = manifest_file_number vs /\
    manifest_is vs' [first_snapshot vs e; complete_edit vs e] l /\ last_numbers vs' [first_snapshot vs e; complete_edit vs e].
Proof.
  intros Hs Hnone He Hfr.
  destruct (complete_edit_ok vs e Hs He) as (He1 & Hl1 & Hc1).
  assert (Hptrs : pointers_after (vs_pointers vs) (complete_edit vs e) = pointers_after (vs_pointers vs) e).
  { unfold pointers_after, complete_edit. destruct (has_log_number_ e); cbn; destruct (has_prev_log_number_ e); done. }
  set (e1 := complete_edit vs e) in *.
  assert (Hrec0 : recordable (vs_current vs) (pointers_after (vs_pointers vs) e)).
  { apply recordable_after; [apply Hs|apply He]. }
  set (vs1 := set_pointers vs (pointers_after (vs_pointers vs) e)).
  assert (Hb1 : base_ok (vs_current vs1) (vs_pointers vs1)).
  { destruct (so_base _ Hs) as [B1 B2 B3 B4 B5]. constructor; cbn; try done. now rewrite pointers_length. }
  destruct (snapshot_install vs1 Hb1 Hrec0) as (vr & pr & Ei0 & Hrec & Hbr).
  destruct (snapshot_ok comparator_name vs1 name_ok Hrec0) as [Hsnap Hsl].
  change (snapshot_edit comparator_name vs1) with (first_snapshot vs e) in *. set (snap := first_snapshot vs e) in *.
  assert (Hi0 : install_all make_Version start_pointers [snap] = Some (vr, pr)).
  { unfold LvBuilderProps.install_all. cbn [fold_option fst snd]. now rewrite Ei0. }
  destruct (install_state (vs_current vs) (vs_pointers vs) e1) as (b & Eb & Ei & Hb & Hr);
    [apply Hs|apply Hs|done|apply He1|apply (history_fresh [snap] e1 vr pr); [done|done|done|apply Hs]|].
  assert (Epb : compact_pointer_ b = pointers_after (vs_pointers vs) e).
  { destruct (Apply_levels (C := C) (make_Builder (vs_current vs) (vs_pointers vs)) e1) as (ls & Ea & _ & _);
      [done|apply (so_base _ Hs)|done|]. rewrite Eb in Ea. injection Ea as ->. cbn. exact Hptrs. }
  destruct (NewWritableFile_law (vs_env vs) (DescriptorFileName (vs_dbname vs) (manifest_file_number vs)))
    as (f & e2 & E2 & D2 & C2 & O2 & R2).
  destruct (log_record_ok e2 (Writer.make_Writer f) (record_of snap) (record_bytes snap (proj1 Hsnap)))
    as (e3 & w3 & items3 & E3 & HF3 & Hh3 & Hd3 & Hn3 & Ho3); [cbn; unfold kBlockSize; lia|].
  cbn [Writer.make_Writer Writer.dest_ Writer.block_offset_] in *.
  destruct (log_edit_ok e3 w3 e1) as (e4 & w4 & items4 & E4 & HF4 & Hh4 & Hd4 & Hn4 & Ho4);
    [apply He1|apply (fragments_off _ _ _ _ _ HF3); unfold kBlockSize; lia|].
  destruct (SetCurrentFile_ok e4 (vs_dbname vs) (manifest_file_number vs)) as (i & e5 & E5 & D5 & C5 & M5);
    [apply Hs|].
  assert (Dm : fs_dir e4 (DescriptorFileName (vs_dbname vs) (manifest_file_number vs)) = Some (fs_handle f))
    by now rewrite Hn4, Hn3.
  destruct (M5 _ Dm) as (D6 & N6 & C6).
  unfold LogAndApply. fold e1. rewrite Eb. unfold open_manifest. cbn [set_pointers vs_log vs_env vs_dbname manifest_file_number].
  rewrite Hnone, E2. cbn [ok]. unfold WriteSnapshot. rewrite Epb. fold vs1. fold snap.
  change (snapshot_edit comparator_name vs1) with snap. fold (record_of snap). rewrite E3.
  cbn [set_env vs_log vs_env ok]. rewrite E4. cbn [ok andb set_env vs_env vs_dbname vs_log manifest_file_number vs1 set_pointers].
  rewrite E5. cbn [ok].
  exists ([items3] ++ [items4]). eexists. split; [reflexivity|]. split; [done|]. split; [done|].
  split; [constructor|exists [snap], e1; cbn; repeat split; try done; apply Hc1].
  - cbn. rewrite <- Epb. apply (installed_state vs e1 b e5 (Some w4)); try done. apply He1.
  - cbn [vs_log vs_env vs_dbname manifest_file_number set_env set_pointers AppendVersion]. exists w4, i. rewrite Hh4, Hh3. split; [done|]. split; [done|].
    split; [rewrite C6, <- Hh3, Hd4, Hh3, Hd3, C2, enc_log_app; unfold enc_log; cbn [map concat app]; now rewrite !app_nil_r|].
    split; [|split; [done|split; [done|done]]].
    change (map record_of [snap; e1]) with (([] ++ [record_of snap]) ++ [record_of e1]).
    apply logged_to_snoc with (Writer.block_offset_ w3); [|done].
    apply (logged_to_snoc 0 [] [] 0 (record_of snap) items3); [constructor|done].
  - split; (apply List.Forall_cons; [done|]); (apply List.Forall_cons; [done|]); apply List.Forall_nil.
  - cbn [vs_current AppendVersion set_env set_pointers].
    destruct (install_recorded (vs_current vs) vr (vs_pointers vs) pr e1 _ _ (ba_files _ _ (so_base _ Hs)) (ba_files _ _ Hbr)
      (ba_pointers _ _ (so_base _ Hs)) (ba_pointers _ _ Hbr) Hl1 (eq_sym Hrec) Ei) as (w1 & q1 & Ew1 & Er).
    exists w1, q1. split; [|done]. unfold LvBuilderProps.install_all in *. cbn [fold_option fst snd]. rewrite Ei0. cbn [fst snd].
    now rewrite Ew1.
Qed.

(** ** Recovery *)

Context (max_file_size : Z) (reuse_logs : bool).

Lemma ReuseManifest_keeps (vs : VS) a b :
  let vs' := (ReuseManifest max_file_size reuse_logs vs a b).2 in
  vs_current vs' = vs_current vs /\ next_file_number vs' = next_file_number vs /\ last_sequence vs' = last_sequence vs /\
  log_number vs' = log_number vs /\ prev_log_number vs' = prev_log_number vs.
Proof.
  unfold ReuseManifest. destruct reuse_logs; [|done]. cbn [negb].
  destruct (ParseFileName b) as [[n []]|]; try done. destruct (env_GetFileSize _ _) as [s size].
  destruct (_ || _); [done|]. destruct (env_NewAppendableFile _ _) as [[r file] e]. destruct (if ok r then file else None); done.
Qed.

(** A file system with the manifest cut after [n] bytes. *)
Definition crashed (e e' : E) (db : list Z) (number : Z) (n : nat) : Prop :=
  forall i j, fs_dir e (DescriptorFileName db number) = Some i -> fs_dir e (CurrentFileName db) = Some j ->
    exists i' j', fs_dir e' (DescriptorFileName db number) = Some i' /\ fs_dir e' (CurrentFileName db) = Some j' /\
      fs_data e' i' = take n (fs_data e i) /\ fs_data e' j' = fs_data e j.

(** The edits that are complete in the first bytes of the manifest. *)
Definition no_next_file : Status := Corruption "no meta-nextfile entry in descriptor".

Lemma Recover_ok (vs : VS) es l e' n fuel rfuel :
  manifest_is vs es l -> edits_fresh (level_files make_Version) es ->
  crashed (vs_env vs) e' (vs_dbname vs) (manifest_file_number vs) n ->
  (length es < fuel)%nat -> (length (manifest_base (manifest_file_number vs)) + 1 < fuel)%nat ->
  (forall i, fs_dir (vs_env vs) (DescriptorFileName (vs_dbname vs) (manifest_file_number vs)) = Some i ->
     (length (fs_data (vs_env vs) i) < rfuel)%nat) ->
  exists k st save vs',
    Recover C comparator_name max_file_size reuse_logs fuel rfuel (make_VersionSet e' (vs_dbname vs)) = Some (st, save, vs') /\
    (k <= length es)%nat /\
    (forall q, (q <= length es)%nat -> (q <= k)%nat <-> (length (enc_log (take q l)) <= n)%nat) /\
    ((forall e, e ∈ take k es -> has_next_file_number_ e = false) -> st = no_next_file) /\
    (forall es0 e, take k es = es0 ++ [e] -> edit_complete e ->
       st = OK /\ log_number vs' = log_number_ e /\ prev_log_number vs' = prev_log_number_ e /\
       next_file_number vs' = u64 (next_file_number_ e + 1) /\ last_sequence vs' = last_sequence_ e /\
       exists vr pr, install_all make_Version start_pointers (take k es) = Some (vr, pr) /\
         recorded (vs_current vs') = recorded vr).
Proof.
  intros [Hs (w & i & Ew & Dm & Cm & HL & Dc & Ni & Cc) [Hes Hex] _] Hfr Hcr Hf Hf2 Hrf.
  destruct (Hcr _ _ Dm Dc) as (i' & j' & Dm' & Dc' & Cm' & Cc'). rewrite Cm in Cm'. rewrite Cc in Cc'.
  specialize (Hrf _ Dm). rewrite Cm in Hrf.
  pose proof (logged_to_logged _ _ _ _ HL) as HLo.
  destruct (build_all make_Version start_pointers es make_base_ok Hfr) as (b & _ & _ & Eb & _).
  set (rc0 := MkRecovery OK (make_Builder make_Version start_pointers) None None None None).
  destruct (rc_steps_builder C es rc0 b Eb) as (rc_all & Eall & _).
  destruct (NewSequentialFile_law e' _ i' Dm') as (r & Er & Ur).
  assert (Hlen : length l = length es) by (rewrite <- (length_map record_of es); now apply (logged_to_length _ _ _ _ HL)).
  set (m := length (fs_data e' i')).
  assert (Hm : fs_data e' i' = take m (enc_log l)).
  { unfold m. rewrite Cm' at 1. rewrite Cm', length_take.
    destruct (Nat.le_ge_cases n (length (enc_log l))); [now rewrite Nat.min_l|now rewrite Nat.min_r, firstn_all, firstn_all2]. }
  destruct (recover_loop_ok C comparator_name kBlockSize es l (logged_0 _ _ HLo) Hes fuel rfuel m
    (Reader.make_Reader r true true 0) rc0 rc_all) as (k & rc' & El & HC & Ek);
    [done|unfold m; rewrite Cm', length_take; lia|apply make_at_0; now rewrite Ur|done|done|].
  pose proof (rc_steps_status C (take k es) rc0 rc' Ek eq_refl) as Hok.
  exists k. unfold Recover. cbn [make_VersionSet vs_env vs_dbname vs_current vs_pointers].
  rewrite (ReadFileToString_ok fuel e' _ j' Dc') by (rewrite Cc', length_app; cbn [length]; lia). rewrite Cc'. cbn [ok negb].
  rewrite last_snoc, bool_decide_eq_true_2 by done. cbn [negb].
  rewrite length_app. cbn [length]. rewrite Nat.add_sub, take_app_length.
  rewrite <- manifest_name, Er. cbn [ok]. fold rc0. rewrite El.
  match goal with |- context [recover_finish ?a ?b ?c ?d ?e ?f ?g] => destruct (recover_finish a b c d e f g) as [[st save] vs'] eqn:Ef end.
  exists st, save, vs'. split; [reflexivity|]. pose proof (proj1 HC). split; [lia|]. split.
  { intros q Hq. rewrite (complete_iff l m k q) by (done || lia). unfold m. rewrite Cm', length_take.
    assert (length (enc_log (take q l)) <= length (enc_log l))%nat; [|lia]. rewrite <- (take_drop q l) at 2. rewrite enc_log_app, length_app. lia. }
  unfold recover_finish in Ef. rewrite Hok in Ef. cbn [ok negb] in Ef. split.
  - intros Hno. pose proof (rc_steps_no_next C (take k es) rc0 rc' Ek eq_refl Hno) as Hn.
    rewrite Hn in Ef. cbn [ok negb] in Ef. now injection Ef as <- _ _.
  - intros es0 e Ees Hcomp. rewrite Ees in Ek. destruct (rc_steps_last C es0 e rc0 rc' Hcomp Ek) as (_ & N1 & N2 & N3 & N4).
    rewrite N1, N2, N3, N4 in Ef. cbn [default ok negb] in Ef.
    match type of Ef with context [ReuseManifest ?a ?b ?c ?d ?e] => pose proof (ReuseManifest_keeps c d e) as (K1 & K2 & K3 & K4 & K5);
      destruct (ReuseManifest a b c d e) as [reused vsr] end.
    injection Ef as <- _ <-. cbn [snd] in *. rewrite K1, K2, K3, K4, K5. cbn. split; [done|]. do 4 (split; [done|]).
    assert (Hfrk : edits_fresh (level_files make_Version) (take k es)).
    { apply (edits_fresh_prefix _ _ (drop k es)). now rewrite take_drop. }
    destruct (build_all make_Version start_pointers (take k es) make_base_ok Hfrk) as (bk & vk & pk & E1 & E2 & E3 & _).
    rewrite <- Ees in Ek. destruct (rc_steps_builder C (take k es) rc0 bk E1) as (rck & Erck & Ebk).
    rewrite Ek in Erck. injection Erck as <-. exists vk, pk. split; [done|].
    unfold recorded. rewrite Finalize_files, Ebk. now rewrite E3.
Qed.

(** ** Runs *)

(** What may happen to a version set between two calls: the database allocates
    numbers, counts seeks, moves compaction pointers and works on other files. *)
Definition meanwhile (vs vs2 : VS) : Prop :=
  state_ok vs2 /\ vs_dbname vs2 = vs_dbname vs /\ manifest_file_number vs2 = manifest_file_number vs /\
  vs_log vs2 = vs_log vs /\ recorded (vs_current vs2) = recorded (vs_current vs) /\
  forall name, name = DescriptorFileName (vs_dbname vs) (manifest_file_number vs) \/ name = CurrentFileName (vs_dbname vs) ->
    fs_dir (vs_env vs2) name = fs_dir (vs_env vs) name /\
    forall i, fs_dir (vs_env vs) name = Some i -> fs_data (vs_env vs2) i = fs_data (vs_env vs) i.

Lemma manifest_meanwhile vs vs2 es l : manifest_is vs es l -> meanwhile vs vs2 -> manifest_is vs2 es l.
Proof.
  intros [Hs (w & i & Ew & Dm & Cm & HL & Dc & Ni & Cc) Hes (vr & pr & Hi & Hrec)] (Hs2 & Hdb & Hmn & Hlog & Hcur & Hfs).
  constructor; [done| |done|].
  - exists w, i. rewrite Hdb, Hmn. destruct (Hfs _ (or_introl eq_refl)) as [F1 F2], (Hfs _ (or_intror eq_refl)) as [F3 F4].
    rewrite Hlog, F1, F3, (F2 _ Dm), (F4 _ Dc). done.
  - exists vr, pr. split; [done|]. now rewrite Hcur.
Qed.

Record step := MkStep { st_change : VS -> VS; st_edit : VersionEdit }.

Definition step_ok (st : step) : Prop :=
  client_edit (st_edit st) /\ forall vs, state_ok vs -> meanwhile vs (st_change st vs).

Definition run_step (vs : VS) (st : step) : option VS :=
  match LogAndApply C comparator_name (st_change st vs) (st_edit st) with
  | Some (OK, _, vs) => Some vs
  | _ => None
  end.

(** New numbers for all files of a run. *)
Definition run_fresh (vs : VS) (steps : list step) : Prop :=
  edits_fresh (level_files (vs_current vs)) (map st_edit steps).

Lemma recorded_numbers v w level : recorded v = recorded w -> numbers (level_files v level) = numbers (level_files w level).
Proof.
  intros H. rewrite <- (numbers_with_seeks (level_files v level)), <- (numbers_with_seeks (level_files w level)).
  now rewrite <- !recorded_level, H.
Qed.

(** The history of a run has new numbers: a snapshot, and edits with the files
    of the run's. *)
Lemma history_of_run (vs vs1 : VS) e es steps : state_ok vs1 -> recorded (vs_current vs1) = recorded (vs_current vs) ->
  client_edit e -> run_fresh vs steps -> Forall levels_exist es ->
  (forall level, map (fun e => edit_adds e level) es = map (fun st => edit_adds (st_edit st) level) steps) ->
  edits_fresh (level_files make_Version) (first_snapshot vs1 e :: es).
Proof.
  intros Hs Hrec He [Hex Hfr] Hes Hadds.
  assert (Hb : recordable (vs_current vs1) (pointers_after (vs_pointers vs1) e)).
  { apply recordable_after; [apply Hs|apply He]. }
  destruct (snapshot_ok comparator_name (set_pointers vs1 (pointers_after (vs_pointers vs1) e)) name_ok Hb) as [_ Hsl].
  change (snapshot_edit comparator_name _) with (first_snapshot vs1 e) in Hsl.
  split; [now constructor|]. intros level. destruct (Hfr level) as [Hn Hv]. cbn [map concat].
  assert (Hsnap : edit_adds (first_snapshot vs1 e) level = map with_seeks (level_files (vs_current vs1) level)).
  { destruct (Nat.lt_ge_cases level kNumLevels) as [Hlt|Hge].
    - exact (snapshot_adds comparator_name (set_pointers vs1 (pointers_after (vs_pointers vs1) e)) level Hlt).
    - rewrite no_adds by done. unfold level_files. rewrite lookup_ge_None_2; [done|].
      rewrite (ba_files _ _ (so_base _ Hs)). lia. }
  replace (level_files make_Version level) with (@nil FileMetaData)
    by now destruct level as [|[|[|[|[|[|[|level]]]]]]]. rewrite app_nil_r. split.
  - unfold numbers in *. rewrite map_app, Hadds, Hsnap. rewrite map_app, map_map in Hn.
    rewrite (numbers_with_seeks (level_files (vs_current vs1) level) : map _ _ = map _ _),
      (recorded_numbers _ _ level Hrec : map _ _ = map _ _).
    now rewrite Permutation_app_comm.
  - constructor; [rewrite Hsnap; apply List.Forall_map, (ba_valid _ _ (so_base _ Hs) level)|].
    assert (Hm : Forall (Forall (smallest_valid (valid := valid))) (map (fun e => edit_adds e level) es)).
    { rewrite Hadds, <- (map_map st_edit (fun e => edit_adds e level)). apply List.Forall_map. exact Hv. }
    rewrite List.Forall_map in Hm. exact Hm.
Qed.

(** What a run has left: the snapshot and one record per step, and after every
    step the version that the records up to it give. *)
Definition run_leaves (vs0 : VS) (snap : VersionEdit) (steps : list step) (vs : VS) (es : list VersionEdit) (l : list (list LvLogProps.item)) : Prop :=
  fold_option run_step steps vs0 = Some vs /\ vs_dbname vs = vs_dbname vs0 /\
  manifest_file_number vs = manifest_file_number vs0 /\ length es = length steps /\
  (forall level, map (fun e => edit_adds e level) es = map (fun st => edit_adds (st_edit st) level) steps) /\
  manifest_is vs (snap :: es) l /\ last_numbers vs (snap :: es) /\ edits_fresh (level_files make_Version) (snap :: es) /\
  forall k, (1 <= k <= length steps)%nat -> exists vk vr pr, fold_option run_step (take k steps) vs0 = Some vk /\
    install_all make_Version start_pointers (take (S k) (snap :: es)) = Some (vr, pr) /\
    recorded (vs_current vk) = recorded vr /\ last_numbers vk (take (S k) (snap :: es)) /\ manifest_bytes vk = enc_log (take (S k) l).

Lemma manifest_bytes_is vs es l : manifest_is vs es l -> manifest_bytes vs = enc_log l.
Proof. intros Hm. destruct (mi_log _ _ _ Hm) as (w & i & _ & Dm & Cm & _). unfold manifest_bytes. now rewrite Dm. Qed.

Lemma manifest_length vs es l : manifest_is vs es l -> length l = length es.
Proof.
  intros Hm. destruct (mi_log _ _ _ Hm) as (w & i & _ & _ & _ & HL & _). rewrite <- (length_map record_of es). now apply (logged_to_length _ _ _ _ HL).
Qed.

Lemma run_first vs0 st : state_ok vs0 -> vs_log vs0 = None -> step_ok st -> run_fresh vs0 [st] ->
  exists vs es l, run_leaves vs0 (first_snapshot (st_change st vs0) (st_edit st)) [st] vs es l.
Proof.
  intros Hs Hnone [He Hst] Hfr. destruct (Hst vs0 Hs) as (Hs1 & Hdb & Hmn & Hlog & Hrec & _).
  set (vs1 := st_change st vs0) in *. destruct (complete_edit_ok vs1 (st_edit st) Hs1 He) as (_ & Hl1 & _).
  assert (Hadds : forall level, map (fun e => edit_adds e level) [complete_edit vs1 (st_edit st)] =
            map (fun st => edit_adds (st_edit st) level) [st]).
  { intros level. cbn [map]. f_equal. apply complete_same. }
  assert (Hh : edits_fresh (level_files make_Version) [first_snapshot vs1 (st_edit st); complete_edit vs1 (st_edit st)]).
  { apply (history_of_run vs0 vs1 (st_edit st) _ [st]); try done. now constructor. }
  destruct (LogAndApply_first vs1 (st_edit st) Hs1) as (l & vs & El & Edb & Emn & Hm & Hln); [congruence|done|done|].
  exists vs, [complete_edit vs1 (st_edit st)], l. unfold run_leaves. cbn [fold_option]. unfold run_step. fold vs1. rewrite El.
  split; [done|]. split; [congruence|]. split; [congruence|]. split; [done|]. split; [done|]. split; [done|].
  split; [done|]. split; [done|]. intros k Hk. cbn [length] in Hk. replace k with 1%nat by lia. cbn [take fold_option].
  fold vs1. rewrite El. destruct (mi_version _ _ _ Hm) as (vr & pr & Ei & Er). exists vs, vr, pr. do 4 (split; [done|]).
  rewrite take_ge; [now apply (manifest_bytes_is _ _ _ Hm)|]. now rewrite (manifest_length _ _ _ Hm).
Qed.

Lemma run_more vs0 st0 steps st vs es l :
  state_ok vs0 -> step_ok st0 -> step_ok st -> (1 <= length steps)%nat ->
  run_fresh vs0 (steps ++ [st]) ->
  run_leaves vs0 (first_snapshot (st_change st0 vs0) (st_edit st0)) steps vs es l ->
  exists vs' es' l', run_leaves vs0 (first_snapshot (st_change st0 vs0) (st_edit st0)) (steps ++ [st]) vs' es' l'.
Proof.
  intros Hs0 [He0 Hst0] [He Hst] Hlen Hfr (Er & Edb & Emn & Hle & Hadds & Hm & Hln & Hh & Hk).
  set (snap := first_snapshot (st_change st0 vs0) (st_edit st0)) in *.
  pose proof (Hst vs (mi_state _ _ _ Hm)) as Hmean. pose proof (manifest_meanwhile _ _ _ _ Hm Hmean) as Hm2.
  destruct Hmean as (Hs2 & Hdb2 & Hmn2 & _). set (vs2 := st_change st vs) in *.
  destruct (complete_edit_ok vs2 (st_edit st) Hs2 He) as (_ & Hl1 & _). set (e1 := complete_edit vs2 (st_edit st)) in *.
  assert (Hadds' : forall level, map (fun e => edit_adds e level) (es ++ [e1]) =
            map (fun st => edit_adds (st_edit st) level) (steps ++ [st])).
  { intros level. rewrite !map_app, Hadds. cbn [map]. do 2 f_equal. apply complete_same. }
  assert (Hh' : edits_fresh (level_files make_Version) (snap :: es ++ [e1])).
  { destruct (Hst0 vs0 Hs0) as (Hs1 & _ & _ & _ & Hrec & _).
    apply (history_of_run vs0 (st_change st0 vs0) (st_edit st0) _ (steps ++ [st])); try done.
    destruct (mi_edits _ _ _ Hm) as [_ Hex]. apply List.Forall_cons_iff in Hex as [_ Hex].
    apply Forall_app. split; [done|]. now constructor. }
  destruct (LogAndApply_next vs2 (snap :: es) l (st_edit st) Hm2 He Hh') as (items & vs' & El & Edb' & Emn' & Hm' & Hln').
  exists vs', (es ++ [e1]), (l ++ [items]). unfold run_leaves. rewrite fold_option_app, Er. cbn [fold_option]. unfold run_step at 1. fold vs2.
  rewrite El. split; [done|]. split; [congruence|]. split; [congruence|]. split; [rewrite !length_app; cbn; lia|].
  split; [done|]. split; [done|]. split; [done|]. split; [done|].
  intros k Hkk. rewrite length_app in Hkk. cbn [length] in Hkk. destruct (Nat.le_gt_cases k (length steps)) as [Hle'|Hgt].
  - destruct (Hk k) as (vk & vr & pr & E1 & E2 & E3 & E4 & E5); [lia|]. exists vk, vr, pr.
    rewrite (take_app_le l) by (rewrite (manifest_length _ _ _ Hm); cbn; lia).
    rewrite take_app_le by lia. cbn [take]. cbn [take] in E2, E4, E5. rewrite take_app_le by lia. done.
  - replace k with (S (length steps)) by lia. destruct (mi_version _ _ _ Hm') as (vr & pr & Ei & Erec).
    exists vs', vr, pr. rewrite (take_ge (l ++ [items])) by (rewrite (manifest_length _ _ _ Hm'); cbn; rewrite length_app; cbn; lia).
    rewrite (manifest_bytes_is _ _ _ Hm'). rewrite take_ge by (rewrite length_app; cbn; lia). rewrite fold_option_app, Er. cbn [fold_option].
    unfold run_step. fold vs2. rewrite El. split; [done|].
    rewrite take_ge by (cbn; rewrite length_app; cbn; lia). done.
Qed.

Lemma run_ok vs0 st steps : state_ok vs0 -> vs_log vs0 = None -> Forall step_ok (st :: steps) -> run_fresh vs0 (st :: steps) ->
  exists vs es l, run_leaves vs0 (first_snapshot (st_change st vs0) (st_edit st)) (st :: steps) vs es l.
Proof.
  intros Hs Hnone Hok. apply List.Forall_cons_iff in Hok as [Hst Hok].
  induction steps as [|x steps IH] using rev_ind; intros Hfr; [now apply run_first|].
  apply Forall_app in Hok as [Hok Hx]. apply List.Forall_inv in Hx.
  change (st :: steps ++ [x]) with ((st :: steps) ++ [x]) in *.
  destruct (IH Hok) as (vs & es & l & Hl).
  { unfold run_fresh in *. rewrite map_app in Hfr. now apply edits_fresh_prefix in Hfr. }
  apply (run_more vs0 st (st :: steps) x vs es l); try done. cbn. lia.
Qed.

(** C4: The manifest survives a crash.  However often the database records an
    edit, every call of LogAndApply succeeds on a file system that does.  If the
    manifest is then cut after any number n of bytes, recovery brings back exactly
    the edits whose records are complete: a call is among the first k just if
    all that the manifest held when it returned lies within the n bytes.
    Recovery returns with the version after these k calls - the same files in
    the same order in every level, whatever happened to seek counts - and with
    its log numbers, sequence number and next file number.  If no call is
    among them, recovery reports corruption. *)
Theorem manifest_recovery (vs0 : VS) (steps : list step) :
  state_ok vs0 -> vs_log vs0 = None -> steps <> [] -> Forall step_ok steps -> run_fresh vs0 steps ->
  exists vs, fold_option run_step steps vs0 = Some vs /\
    forall e' n, crashed (vs_env vs) e' (vs_dbname vs0) (manifest_file_number vs0) n ->
    exists fuel0, forall fuel, (fuel0 <= fuel)%nat ->
    exists k st save vs',
      Recover C comparator_name max_file_size reuse_logs fuel fuel (make_VersionSet e' (vs_dbname vs0)) = Some (st, save, vs') /\
      (k <= length steps)%nat /\
      (forall q, (1 <= q <= length steps)%nat -> exists vq, fold_option run_step (take q steps) vs0 = Some vq /\
         ((q <= k)%nat <-> (length (manifest_bytes vq) <= n)%nat)) /\
      (k = 0%nat -> st = no_next_file) /\
      ((0 < k)%nat -> st = OK /\
         exists vk, fold_option run_step (take k steps) vs0 = Some vk /\
           recorded (vs_current vs') = recorded (vs_current vk) /\
           log_number vs' = log_number vk /\ prev_log_number vs' = prev_log_number vk /\
           last_sequence vs' = last_sequence vk /\ next_file_number vs' = u64 (next_file_number vk + 1)).
Proof.
  intros Hs Hnone Hne Hok Hfr. destruct steps as [|st0 steps]; [done|].
  destruct (run_ok vs0 st0 steps Hs Hnone Hok Hfr) as (vs & es & l & Er & Edb & Emn & Hle & _ & Hm & _ & Hh & Hk).
  set (snap := first_snapshot (st_change st0 vs0) (st_edit st0)) in *.
  exists vs. split; [done|]. intros e' n Hcr. rewrite <- Edb in Hcr |- *. rewrite <- Emn in Hcr.
  destruct (mi_log _ _ _ Hm) as (w & i & _ & Dm & _).
  exists (S (length (snap :: es) + (length (manifest_base (manifest_file_number vs)) + 1) +
             length (fs_data (vs_env vs) (fs_handle (Writer.dest_ w)))))%nat.
  intros fuel Hfuel.
  destruct (Recover_ok vs (snap :: es) l e' n fuel fuel Hm Hh Hcr) as (k & st & save & vs' & Erec & Hkl & Hiff & Hnone' & Hsome);
    [lia|lia|intros i0 Hi0; rewrite Dm in Hi0; injection Hi0 as <-; lia|].
  exists (k - 1)%nat, st, save, vs'. cbn [length] in *. split; [done|]. split; [lia|]. split; [|split].
  - intros q Hq. destruct (Hk q) as (vq & _ & _ & E1 & _ & _ & _ & E5); [lia|]. exists vq. split; [done|]. rewrite E5, <- Hiff by lia. lia.
  - intros Hk0. apply Hnone'. intros e He. assert (Hk1 : k = 0%nat \/ k = 1%nat) by lia.
    assert (He' : e = snap). { destruct Hk1 as [-> | ->]; cbn [take] in He; [now apply elem_of_nil in He|].
      rewrite take_0 in He. now apply list_elem_of_singleton in He. }
    subst e. unfold snap, first_snapshot. now rewrite snapshot_is.
  - intros Hpos. destruct (Hk (k - 1)%nat) as (vk & vr & pr & E1 & E2 & E3 & (es0 & e & Ees & Hc & N1 & N2 & N3 & N4) & _); [lia|].
    replace (S (k - 1)) with k in * by lia.
    destruct (Hsome es0 e Ees Hc) as (-> & M1 & M2 & M3 & M4 & vr' & pr' & E5 & E6).
    rewrite E2 in E5. injection E5 as <- <-. split; [done|]. exists vk. split; [done|].
    split; [congruence|]. split; [congruence|]. split; [congruence|]. split; [congruence|]. now rewrite M3, N3.
Qed.

End Run.

(** ** A file system in memory *)

Module MemFs.
Record fs := MkFs { dir : gmap (list Z) nat; data : gmap nat (list Z) }.

(** A new file gets a number that no name has. *)
Definition new_file (e : fs) (name : list Z) : nat * fs :=
  let i := fresh (map_img (SA := gset nat) (dir e)) in
  (i, MkFs (<[name := i]> (dir e)) (<[i := []]> (data e))).

#[global] Instance env : FileEnv fs nat mem_file := {
  env_NewWritableFile e name := let '(i, e) := new_file e name in (OK, Some i, e);
  env_NewAppendableFile e name :=
    match dir e !! name with
    | Some i => (OK, Some i, e)
    | None => let '(i, e) := new_file e name in (OK, Some i, e)
    end;
  env_NewSequentialFile e name :=
    match dir e !! name with
    | Some i => (OK, Some (MemFile (default [] (data e !! i))))
    | None => (NotFound "", None)
    end;
  env_RemoveFile e name := (OK, MkFs (delete name (dir e)) (data e));
  env_RenameFile e from to :=
    match dir e !! from with
    | Some i => (OK, MkFs (<[to := i]> (delete from (dir e))) (data e))
    | None => (NotFound "", e)
    end;
  env_GetFileSize e name :=
    match dir e !! name with
    | Some i => (OK, Z.of_nat (length (default [] (data e !! i))))
    | None => (NotFound "", 0)
    end;
  file_Append e i d := (OK, (MkFs (dir e) (<[i := default [] (data e !! i) ++ d]> (data e)), i));
  file_Flush e i := (OK, (e, i));
  file_Sync e i := (OK, (e, i));
  file_Close e i := (OK, (e, i));
}.

#[global, program] Instance laws : FileEnvLaws fs nat mem_file := {
  fs_file := nat;
  fs_dir e name := dir e !! name;
  fs_data e i := default [] (data e !! i);
  fs_handle i := i;
}.
Next Obligation.
  intros e name. cbn. do 2 eexists. split; [reflexivity|]. cbn. rewrite !lookup_insert_eq. split; [done|]. split; [done|].
  split.
  - intros n Hn. rewrite lookup_insert_ne by done. split; [done|]. intros Hd.
    apply (is_fresh (map_img (SA := gset nat) (dir e))). now apply (elem_of_map_img_2 _ n).
  - intros i Hi. now rewrite lookup_insert_ne by done.
Qed.
Next Obligation.
  intros e w d. cbn. do 2 eexists. split; [reflexivity|]. cbn. rewrite lookup_insert_eq. split; [done|]. split; [done|].
  split; [done|]. intros i Hi. now rewrite lookup_insert_ne by done.
Qed.
Next Obligation. intros e w. now exists e, w. Qed.
Next Obligation. intros e w. now exists e, w. Qed.
Next Obligation. intros e w. now exists e, w. Qed.
Next Obligation.
  intros e from to i Hi Hne. cbn in *. rewrite Hi. eexists. split; [reflexivity|]. cbn. rewrite lookup_insert_eq. split; [done|].
  split; [|done]. intros n H1 H2. rewrite lookup_insert_ne by done. now rewrite lookup_delete_ne.
Qed.
Next Obligation. intros e name i Hi. cbn in *. rewrite Hi. eexists. split; reflexivity. Qed.
Next Obligation. intros e name. cbn. split; [|done]. intros n Hn. now rewrite lookup_delete_ne. Qed.
Next Obligation. intros e name. cbn. apply lookup_delete_eq. Qed.
End MemFs.

Module RecoveryExample.
Definition name : list Z := str "leveldb.BytewiseComparator".
Definition db : list Z := str "db".

(** A new database, and an edit that records its first table. *)
Definition start : VersionSet MemFs.fs nat := set_next_file (make_VersionSet (MemFs.MkFs ∅ ∅) db) 5.
Definition edit : VersionEdit :=
  AddFile 0 4 90 (make_InternalKey [3] 5 kTypeValue) (make_InternalKey [7] 5 kTypeValue) make_VersionEdit.
Definition steps : list (step (E := MemFs.fs) (W := nat)) := [MkStep (fun vs => vs) edit].

Lemma edit_good : client_edit edit.
Proof.
  split; [|split; [done|]].
  - change (edit_ok (apply_item make_VersionEdit (INew 0
      (MkFile 4 90 (make_InternalKey [3] 5 kTypeValue) (make_InternalKey [7] 5 kTypeValue) (Z.shiftl 1 30))))).
    apply apply_item_ok; [apply make_edit_ok|]. cbn [item_ok f_number f_file_size f_smallest f_largest f_allowed_seeks].
    assert (Hk : forall k, is_byte k -> key_ok (make_InternalKey [k] 5 kTypeValue)).
    { intros k Hk. split; [split; [|vm_compute; reflexivity]|discriminate].
      change (is_bytes ([k] ++ EncodeFixed64 (PackSequenceAndType 5 kTypeValue))). apply is_bytes_app.
      split; [apply List.Forall_cons; [exact Hk|apply List.Forall_nil]|]. vm_compute. repeat constructor; discriminate. }
    split; [split; vm_compute; [discriminate|reflexivity]|]. split; [split; vm_compute; [discriminate|reflexivity]|].
    split; [split; vm_compute; [discriminate|reflexivity]|]. split; [apply Hk; unfold is_byte; lia|].
    split; [apply Hk; unfold is_byte; lia|reflexivity].
  - repeat constructor; cbn; lia.
Qed.

Lemma start_ok : state_ok (C := BytewiseComparator) (valid := is_bytes) start.
Proof.
  constructor; try (unfold number_ok; cbn; lia); [apply make_base_ok|]. split.
  - intros level f Hf. exfalso. revert Hf. now destruct level as [|[|[|[|[|[|[|level]]]]]]]; intros Hf; apply elem_of_nil in Hf.
  - repeat constructor; cbn; lia.
Qed.

Lemma start_fresh : run_fresh (valid := is_bytes) start steps.
Proof.
  split; [constructor; [apply edit_good|constructor]|]. intros [|level].
  - split; [apply (bool_decide_unpack _); vm_compute; exact I|]. repeat constructor; unfold is_byte; cbn; lia.
  - assert (Hno : edit_adds edit (S level) = []).
    { unfold edit_adds, at_level. rewrite filter_keep_none; [done|]. intros p Hp.
      apply list_elem_of_singleton in Hp as ->. cbn. lia. }
    cbn [map steps st_edit concat]. rewrite Hno. split; [|constructor; [constructor|constructor]].
    now destruct level as [|[|[|[|[|[|level]]]]]]; constructor.
Qed.
End RecoveryExample.

Lemma manifest_recovery_witness :
  exists vs fuel save vs',
    fold_option (run_step (C := BytewiseComparator) (R := mem_file) RecoveryExample.name) RecoveryExample.steps RecoveryExample.start = Some vs /\
    Recover (W := nat) (R := mem_file) BytewiseComparator RecoveryExample.name 2097152 false fuel fuel (make_VersionSet (vs_env vs) RecoveryExample.db)
      = Some (OK, save, vs') /\
    recorded (vs_current vs') = recorded (vs_current vs).
Proof.
  destruct (manifest_recovery (C := BytewiseComparator) (valid := is_bytes) (R := mem_file) RecoveryExample.name
    ltac:(split; [apply Forall_forall; intros x Hx; revert x Hx; apply Forall_forall; repeat constructor; cbn; lia|vm_compute; reflexivity])
    2097152 false RecoveryExample.start RecoveryExample.steps) as (vs & Er & Hrec).
  - apply RecoveryExample.start_ok.
  - reflexivity.
  - discriminate.
  - constructor; [|constructor]. split; [apply RecoveryExample.edit_good|]. intros vs Hs. unfold meanwhile. cbn [st_change]. done.
  - apply RecoveryExample.start_fresh.
  - set (n := match fs_dir (vs_env vs) (DescriptorFileName RecoveryExample.db 0) with
              | Some i => length (fs_data (vs_env vs) i) | None => 0%nat end).
    destruct (Hrec (vs_env vs) n) as (fuel0 & Hf).
    + intros i j Hi Hj. exists i, j. split; [done|]. split; [done|]. split; [|done].
      unfold n. change (vs_dbname RecoveryExample.start) with RecoveryExample.db in Hi.
      change (manifest_file_number RecoveryExample.start) with 0 in Hi. rewrite Hi. now rewrite firstn_all.
    + destruct (Hf fuel0 (le_n _)) as (k & st & save & vs' & E1 & Hle & Hiff & _ & Hpos).
      destruct (Hiff 1%nat) as (vq & Eq & Hq); [cbn; lia|]. cbn [take RecoveryExample.steps] in Eq. change [MkStep _ _] with RecoveryExample.steps in Eq. rewrite Er in Eq. injection Eq as <-.
      assert (Hk : k = 1%nat).
      { cbn in Hle. enough (1 <= k)%nat by lia. apply Hq. unfold manifest_bytes, n.
        assert (Ed : option_map (fun v => (vs_dbname v, manifest_file_number v)) (Some vs) = Some (RecoveryExample.db, 0)).
        { rewrite <- Er. vm_compute. reflexivity. }
        cbn [option_map] in Ed. injection Ed as -> ->. now destruct (fs_dir _ _). }
      subst k. destruct (Hpos ltac:(lia)) as (-> & vk & Ek & Erec & _).
      cbn [take RecoveryExample.steps] in Ek. change [MkStep _ _] with RecoveryExample.steps in Ek. rewrite Er in Ek.
      injection Ek as <-. exists vs, fuel0, save, vs'. split; [exact Er|]. split; [exact E1|exact Erec].
Defined.
