(* ===== verification/LvCompaction.v ===== *)
(** * leveldb: choosing what to compact (the Compaction class and its makers in db/version_set.cc)

    The files of a level to compact, the files of the next level that overlap
    them, and the questions the compaction asks while it runs.  Files are
    values, as in LvVersion; the references that a compaction holds on its
    input version are left out. *)
From Stdlib Require Import ZArith Lia Bool List SpecFloat.
From stdpp Require Import base list numbers.
From S2P Require Import Prelude LvCoding LvEnv LvLog LvComparator LvDbFormat LvVersion LvVersionEdit LvBuilder LvManifest.

Record Compaction := MkCompaction {
  level_ : nat;
  max_output_file_size_ : Z;
  input_version_ : Version;
  edit_ : VersionEdit;
  inputs_0 : list FileMetaData;
  inputs_1 : list FileMetaData;
  grandparents_ : list FileMetaData;
  grandparent_index_ : nat;
  seen_key_ : bool;
  overlapped_bytes_ : Z;
  level_ptrs_ : list nat;
}.

Section Compaction.
Context (ucmp : Comparator) (max_file_size : Z).
Notation icmp := (internal_compare ucmp).

(** The constructor, and the inputs that its callers set. *)
Definition make_Compaction (level : nat) (v : Version) (inputs : list FileMetaData) : Compaction :=
  MkCompaction level (MaxFileSizeForLevel max_file_size level) v make_VersionEdit inputs [] [] 0 false 0
    (replicate kNumLevels O).

(** ** Ranges *)

(** The range of no files is a pair of empty keys. *)
Definition GetRange (inputs : list FileMetaData) : list Z * list Z :=
  match inputs with
  | [] => ([], [])
  | f :: inputs =>
      fold_left (fun r f =>
          let smallest := if icmp (f_smallest f) r.1 <? 0 then f_smallest f else r.1 in
          let largest := if 0 <? icmp (f_largest f) r.2 then f_largest f else r.2 in
          (smallest, largest)) inputs (f_smallest f, f_largest f)
  end.

Definition GetRange2 (inputs1 inputs2 : list FileMetaData) : list Z * list Z := GetRange (inputs1 ++ inputs2).

(** ** Boundary files *)

Definition FindLargestKey (files : list FileMetaData) : option (list Z) :=
  match files with
  | [] => None
  | f :: files =>
      Some (fold_left (fun key f => if 0 <? icmp (f_largest f) key then f_largest f else key) files (f_largest f))
  end.

Definition FindSmallestBoundaryFile (level_files : list FileMetaData) (largest_key : list Z) : option FileMetaData :=
  fold_left (fun best f =>
      if (0 <? icmp (f_smallest f) largest_key) &&
         (@Compare ucmp (ExtractUserKey (f_smallest f)) (ExtractUserKey largest_key) =? 0) then
        match best with
        | None => Some f
        | Some b => if icmp (f_smallest f) (f_smallest b) <? 0 then Some f else best
        end
      else best) level_files None.

(** Every round takes a later file of the level. *)
Fixpoint boundary_loop (fuel : nat) (level_files : list FileMetaData) (largest_key : list Z)
    (compaction_files : list FileMetaData) : option (list FileMetaData) :=
  match fuel with
  | O => None
  | S fuel =>
      match FindSmallestBoundaryFile level_files largest_key with
      | Some f => boundary_loop fuel level_files (f_largest f) (compaction_files ++ [f])
      | None => Some compaction_files
      end
  end.

Definition AddBoundaryInputs (level_files compaction_files : list FileMetaData) : option (list FileMetaData) :=
  match FindLargestKey compaction_files with
  | None => Some compaction_files
  | Some largest_key => boundary_loop (S (length level_files)) level_files largest_key compaction_files
  end.

(** ** The other inputs *)

(** The inputs of both levels, and the range [smallest, largest] of the first
    and [all_start, all_limit] of both. *)
Record inputs := MkInputs {
  in_0 : list FileMetaData;
  in_1 : list FileMetaData;
  in_range : list Z * list Z;
  in_all : list Z * list Z;
}.

(** Growing the inputs of the level without growing those of the next. *)
Definition expand_inputs (v : Version) (level : nat) (i : inputs) : option inputs :=
  match in_1 i with
  | [] => Some i
  | _ :: _ =>
      match GetOverlappingInputs ucmp v level (Some (in_all i).1) (Some (in_all i).2) with
      | None => None
      | Some expanded0 =>
          match AddBoundaryInputs (level_files v level) expanded0 with
          | None => None
          | Some expanded0 =>
              if (length (in_0 i) <? length expanded0)%nat &&
                 (s64 (TotalFileSize (in_1 i) + TotalFileSize expanded0) <? ExpandedCompactionByteSizeLimit max_file_size) then
                let new_range := GetRange expanded0 in
                match GetOverlappingInputs ucmp v (level + 1) (Some new_range.1) (Some new_range.2) with
                | None => None
                | Some expanded1 =>
                    if (length expanded1 =? length (in_1 i))%nat
                    then Some (MkInputs expanded0 expanded1 new_range (GetRange2 expanded0 expanded1))
                    else Some i
                end
              else Some i
          end
      end
  end.

(** Without a next level the code would read behind the array of levels. *)
Definition choose_inputs (v : Version) (level : nat) (inputs0 : list FileMetaData) : option inputs :=
  if (kNumLevels <=? level + 1)%nat then None else
  match AddBoundaryInputs (level_files v level) inputs0 with
  | None => None
  | Some inputs0 =>
      let range := GetRange inputs0 in
      match GetOverlappingInputs ucmp v (level + 1) (Some range.1) (Some range.2) with
      | None => None
      | Some inputs1 => expand_inputs v level (MkInputs inputs0 inputs1 range (GetRange2 inputs0 inputs1))
      end
  end.

Section VersionSet.
Context {E W : Type}.
Notation VS := (VersionSet E W).

Definition SetupOtherInputs (vs : VS) (c : Compaction) : option (Compaction * VS) :=
  let v := vs_current vs in
  let level := level_ c in
  match choose_inputs v level (inputs_0 c) with
  | None => None
  | Some i =>
      match (if (level + 2 <? kNumLevels)%nat
             then GetOverlappingInputs ucmp v (level + 2) (Some (in_all i).1) (Some (in_all i).2)
             else Some (grandparents_ c)) with
      | None => None
      | Some grandparents =>
          match update_at (Z.of_nat level) (fun _ => (in_range i).2) (vs_pointers vs) with
          | None => None
          | Some ptrs =>
              Some (MkCompaction level (max_output_file_size_ c) (input_version_ c)
                      (SetCompactPointer (Z.of_nat level) (in_range i).2 (edit_ c)) (in_0 i) (in_1 i) grandparents
                      (grandparent_index_ c) (seen_key_ c) (overlapped_bytes_ c) (level_ptrs_ c),
                    set_pointers vs ptrs)
          end
      end
  end.

(** The first file of the level after its pointer, or the first of all. *)
Definition next_to_compact (vs : VS) (level : nat) : option FileMetaData :=
  let files := level_files (vs_current vs) level in
  let pointer := default [] (vs_pointers vs !! level) in
  match List.find (fun f => (length pointer =? 0)%nat || (0 <? icmp (f_largest f) pointer)) files with
  | Some f => Some f
  | None => head files
  end.

(** No result stands for an access outside a vector. *)
Definition PickCompaction (vs : VS) : option (option Compaction * VS) :=
  let v := vs_current vs in
  let picked :=
    if SFleb (double_of 1) (compaction_score_ v) then
      if compaction_level_ v <? 0 then None
      else
        let level := Z.to_nat (compaction_level_ v) in
        match next_to_compact vs level with
        | Some f => Some (Some (level, f))
        | None => None
        end
    else
      match file_to_compact_ v with
      | Some f => if file_to_compact_level_ v <? 0 then None else Some (Some (Z.to_nat (file_to_compact_level_ v), f))
      | None => Some None
      end in
  match picked with
  | None => None
  | Some None => Some (None, vs)
  | Some (Some (level, f)) =>
      match (if (level =? 0)%nat
             then let r := GetRange [f] in GetOverlappingInputs ucmp v 0 (Some r.1) (Some r.2)
             else Some [f]) with
      | None => None
      | Some inputs =>
          match SetupOtherInputs vs (make_Compaction level v inputs) with
          | Some (c, vs) => Some (Some c, vs)
          | None => None
          end
      end
  end.

(** The files up to the one that reaches the limit. *)
Fixpoint take_until (limit total : Z) (files : list FileMetaData) : list FileMetaData :=
  match files with
  | [] => []
  | f :: files =>
      let total := u64 (total + f_file_size f) in
      if limit <=? total then [f] else f :: take_until limit total files
  end.

Definition CompactRange (vs : VS) (level : nat) (begin end_ : option (list Z)) : option (option Compaction * VS) :=
  let v := vs_current vs in
  match GetOverlappingInputs ucmp v level begin end_ with
  | None => None
  | Some [] => Some (None, vs)
  | Some inputs =>
      let inputs := if (0 <? level)%nat then take_until (MaxFileSizeForLevel max_file_size level) 0 inputs else inputs in
      match SetupOtherInputs vs (make_Compaction level v inputs) with
      | Some (c, vs) => Some (Some c, vs)
      | None => None
      end
  end.

(** [MaxNextLevelOverlappingBytes] *)
Definition overlap_bytes (v : Version) (level : nat) (result : Z) (f : FileMetaData) : option Z :=
  match GetOverlappingInputs ucmp v (level + 1) (Some (f_smallest f)) (Some (f_largest f)) with
  | None => None
  | Some overlaps => Some (if result <? TotalFileSize overlaps then TotalFileSize overlaps else result)
  end.

Definition MaxNextLevelOverlappingBytes (vs : VS) : option Z :=
  fold_option (fun result level => fold_option (overlap_bytes (vs_current vs) level) (level_files (vs_current vs) level) result)
    (seq 1 (kNumLevels - 2)) 0.

End VersionSet.

(** ** Questions *)

Definition IsTrivialMove (c : Compaction) : bool :=
  (length (inputs_0 c) =? 1)%nat && (length (inputs_1 c) =? 0)%nat &&
  (TotalFileSize (grandparents_ c) <=? MaxGrandParentOverlapBytes max_file_size).

Definition AddInputDeletions (c : Compaction) (edit : VersionEdit) : VersionEdit :=
  let edit := fold_left (fun edit f => RemoveFile (Z.of_nat (level_ c)) (f_number f) edit) (inputs_0 c) edit in
  fold_left (fun edit f => RemoveFile (Z.of_nat (level_ c + 1)) (f_number f) edit) (inputs_1 c) edit.

(** ** Results (CompactionState::Output and InstallCompactionResults in db/db_impl.cc) *)

Record Output := MkOutput {
  o_number : Z;
  o_file_size : Z;
  o_smallest : list Z;
  o_largest : list Z;
}.

(** The edit that replaces the inputs by the outputs. *)
Definition results_edit (c : Compaction) (outputs : list Output) : VersionEdit :=
  fold_left (fun edit out =>
      AddFile (Z.of_nat (level_ c + 1)) (o_number out) (o_file_size out) (o_smallest out) (o_largest out) edit)
    outputs (AddInputDeletions c (edit_ c)).

(** ** Questions while it runs *)

(** The scan of one level from its pointer: whether the key is in a file's
    range, and the new pointer. *)
Fixpoint scan_level (user_key : list Z) (files : list FileMetaData) (ptr : nat) : bool * nat :=
  match files with
  | [] => (false, ptr)
  | f :: files =>
      if @Compare ucmp user_key (ExtractUserKey (f_largest f)) <=? 0
      then (0 <=? @Compare ucmp user_key (ExtractUserKey (f_smallest f)), ptr)
      else scan_level user_key files (S ptr)
  end.

(** [n] levels from [lvl] on. *)
Fixpoint base_level_loop (n lvl : nat) (v : Version) (user_key : list Z) (ptrs : list nat) : bool * list nat :=
  match n with
  | O => (true, ptrs)
  | S n =>
      let ptr := default O (ptrs !! lvl) in
      let '(hit, ptr) := scan_level user_key (drop ptr (level_files v lvl)) ptr in
      let ptrs := <[lvl := ptr]> ptrs in
      if hit then (false, ptrs) else base_level_loop n (S lvl) v user_key ptrs
  end.

Definition set_ptrs (c : Compaction) (ptrs : list nat) : Compaction :=
  MkCompaction (level_ c) (max_output_file_size_ c) (input_version_ c) (edit_ c) (inputs_0 c) (inputs_1 c)
    (grandparents_ c) (grandparent_index_ c) (seen_key_ c) (overlapped_bytes_ c) ptrs.

Definition IsBaseLevelForKey (c : Compaction) (user_key : list Z) : bool * Compaction :=
  let '(r, ptrs) :=
    base_level_loop (kNumLevels - (level_ c + 2)) (level_ c + 2) (input_version_ c) user_key (level_ptrs_ c) in
  (r, set_ptrs c ptrs).

(** The grandparent files that end before the key. *)
Fixpoint skip_grandparents (internal_key : list Z) (files : list FileMetaData) (seen : bool) (index : nat) (bytes : Z)
    : nat * Z :=
  match files with
  | [] => (index, bytes)
  | f :: files =>
      if 0 <? icmp internal_key (f_largest f)
      then skip_grandparents internal_key files seen (S index) (if seen then s64 (bytes + f_file_size f) else bytes)
      else (index, bytes)
  end.

Definition ShouldStopBefore (c : Compaction) (internal_key : list Z) : bool * Compaction :=
  let '(index, bytes) :=
    skip_grandparents internal_key (drop (grandparent_index_ c) (grandparents_ c)) (seen_key_ c)
      (grandparent_index_ c) (overlapped_bytes_ c) in
  let stop := MaxGrandParentOverlapBytes max_file_size <? bytes in
  (stop, MkCompaction (level_ c) (max_output_file_size_ c) (input_version_ c) (edit_ c) (inputs_0 c) (inputs_1 c)
           (grandparents_ c) index true (if stop then 0 else bytes) (level_ptrs_ c)).

End Compaction.
