(* ===== verification/LvCompactionProps.v ===== *)
(** * leveldb: a compaction keeps the order of versions (theorems about LvCompaction)

    The inputs that are chosen for a compaction are closed: no file that stays
    behind in the level has older entries of a key than the inputs have, and no
    file that stays behind in the next level lies between the inputs.  So
    replacing the inputs by sorted outputs of the same entries keeps the
    invariant of versions that lookups rely on. *)
From Stdlib Require Import ZArith Lia Bool List Sorted SpecFloat Permutation.
From stdpp Require Import base list gmap numbers sorting.
From S2P Require Import Prelude LvCoding LvEnv LvComparator LvDbFormat LvMemTable LvMemTableProps LvTableRead.
From S2P Require Import LvVersion LvVersionProps LvOverlap LvVersionEdit LvBuilder LvBuilderProps LvManifest LvCompaction.

Section Files.
Context {C : Comparator} {valid : list Z -> Prop} {CL : ComparatorLaws C valid}.
Notation icmp := (internal_compare C).
Notation ivalid := (internal_valid valid).
Notation start_of := (fun f => ExtractUserKey (f_smallest f)).
Notation limit_of := (fun f => ExtractUserKey (f_largest f)).

(** Keys that are valid and in order. *)
Definition shaped (f : FileMetaData) : Prop :=
  ivalid (f_smallest f) /\ ivalid (f_largest f) /\ icmp (f_smallest f) (f_largest f) <= 0.

Definition before (f g : FileMetaData) : Prop := icmp (f_largest f) (f_smallest g) < 0.

Lemma icmp_le_trans a b c : ivalid a -> ivalid b -> ivalid c -> icmp a b <= 0 -> icmp b c <= 0 -> icmp a c <= 0.
Proof. intros Ha Hb Hc. assert (IL := internal_laws (C := C) (valid := valid)). now apply (@Compare_trans _ _ IL). Qed.

Lemma icmp_lt_le a b c : ivalid a -> ivalid b -> ivalid c -> icmp a b < 0 -> icmp b c <= 0 -> icmp a c < 0.
Proof. intros Ha Hb Hc. assert (IL := internal_laws (C := C) (valid := valid)). now apply (@Compare_lt_le_trans _ _ IL). Qed.

Lemma icmp_le_lt a b c : ivalid a -> ivalid b -> ivalid c -> icmp a b <= 0 -> icmp b c < 0 -> icmp a c < 0.
Proof. intros Ha Hb Hc. assert (IL := internal_laws (C := C) (valid := valid)). now apply (@Compare_le_lt_trans _ _ IL). Qed.

Lemma icmp_refl a : ivalid a -> icmp a a = 0.
Proof. intros Ha. assert (IL := internal_laws (C := C) (valid := valid)). now apply (@Compare_refl _ _ IL). Qed.

Lemma icmp_not_lt a b : ivalid a -> ivalid b -> ~ icmp a b < 0 -> icmp b a <= 0.
Proof.
  intros Ha Hb H. assert (IL := internal_laws (C := C) (valid := valid)). pose proof (@Compare_flip _ _ IL b a Hb Ha). simpl in *. lia.
Qed.

Lemma icmp_user a b : icmp a b <= 0 -> Compare (ExtractUserKey a) (ExtractUserKey b) <= 0.
Proof. intros H. apply internal_compare_le in H. lia. Qed.

Lemma user_icmp a b : Compare (ExtractUserKey a) (ExtractUserKey b) < 0 -> icmp a b < 0.
Proof. intros H. apply internal_compare_lt. now left. Qed.

(** ** Ranges *)

Definition in_range_of (r : list Z * list Z) (f : FileMetaData) : Prop :=
  icmp r.1 (f_smallest f) <= 0 /\ icmp (f_largest f) r.2 <= 0.

Lemma range_fold fs r : Forall shaped fs -> ivalid r.1 -> ivalid r.2 ->
  let r' := fold_left (fun r f =>
      let smallest := if icmp (f_smallest f) r.1 <? 0 then f_smallest f else r.1 in
      let largest := if 0 <? icmp (f_largest f) r.2 then f_largest f else r.2 in
      (smallest, largest)) fs r in
  ivalid r'.1 /\ ivalid r'.2 /\ icmp r'.1 r.1 <= 0 /\ icmp r.2 r'.2 <= 0 /\ Forall (in_range_of r') fs.
Proof.
  revert r. induction fs as [|f fs IH]; intros r Hf V1 V2; cbn [fold_left].
  - cbv zeta. rewrite !icmp_refl by done. split; [done|]. split; [done|]. split; [lia|]. split; [lia|constructor].
  - apply List.Forall_cons_iff in Hf as [(Vs & Vl & Hsl) Hf].
    set (r1 := (if icmp (f_smallest f) r.1 <? 0 then f_smallest f else r.1,
                if 0 <? icmp (f_largest f) r.2 then f_largest f else r.2)).
    assert (H1 : ivalid r1.1 /\ icmp r1.1 r.1 <= 0 /\ icmp r1.1 (f_smallest f) <= 0).
    { unfold r1. cbn [fst]. destruct (Z.ltb_spec (icmp (f_smallest f) r.1) 0); rewrite ?icmp_refl by done.
      - split; [done|]. lia.
      - split; [done|]. split; [lia|]. apply icmp_not_lt; [done|done|lia]. }
    assert (H2 : ivalid r1.2 /\ icmp r.2 r1.2 <= 0 /\ icmp (f_largest f) r1.2 <= 0).
    { unfold r1. cbn [snd]. destruct (Z.ltb_spec 0 (icmp (f_largest f) r.2)); rewrite ?icmp_refl by done.
      - split; [done|]. split; [|lia]. apply icmp_not_lt; [done|done|lia].
      - split; [done|]. lia. }
    destruct H1 as (W1 & H11 & H12), H2 as (W2 & H21 & H22).
    destruct (IH r1 Hf W1 W2) as (K1 & K2 & K3 & K4 & K5). cbv zeta in *.
    split; [done|]. split; [done|]. split; [now apply (icmp_le_trans _ r1.1)|]. split; [now apply (icmp_le_trans _ r1.2)|].
    constructor; [|done]. split; [now apply (icmp_le_trans _ r1.1)|now apply (icmp_le_trans _ r1.2)].
Qed.

Lemma GetRange_ok fs : fs <> [] -> Forall shaped fs ->
  ivalid (GetRange C fs).1 /\ ivalid (GetRange C fs).2 /\ Forall (in_range_of (GetRange C fs)) fs.
Proof.
  intros Hne Hf. destruct fs as [|f fs]; [done|]. apply List.Forall_cons_iff in Hf as [(Vs & Vl & Hsl) Hf].
  destruct (range_fold fs (f_smallest f, f_largest f) Hf Vs Vl) as (K1 & K2 & K3 & K4 & K5). cbv zeta in *.
  unfold GetRange. split; [done|]. split; [done|]. constructor; [now split|done].
Qed.

(** ** Boundary files *)

Lemma FindLargestKey_ok f fs : Forall shaped (f :: fs) ->
  exists g, g ∈ f :: fs /\ FindLargestKey C (f :: fs) = Some (f_largest g) /\
    Forall (fun h => icmp (f_largest h) (f_largest g) <= 0) (f :: fs).
Proof.
  intros Hf. apply List.Forall_cons_iff in Hf as [Hf Hfs]. cbn [FindLargestKey].
  assert (H : forall fs g, Forall shaped fs -> shaped g -> exists g', (g' = g \/ g' ∈ fs) /\
    fold_left (fun key f => if 0 <? icmp (f_largest f) key then f_largest f else key) fs (f_largest g) = f_largest g' /\
    icmp (f_largest g) (f_largest g') <= 0 /\ Forall (fun h => icmp (f_largest h) (f_largest g') <= 0) fs).
  { clear f fs Hf Hfs. induction fs as [|h fs IH]; intros g Hfs Hg; cbn [fold_left].
    - exists g. rewrite icmp_refl by apply Hg. split; [now left|]. split; [done|]. split; [lia|constructor].
    - apply List.Forall_cons_iff in Hfs as [Hh Hfs]. destruct Hg as (Vg1 & Vg & Hg), Hh as (Vh1 & Vh & Hh).
      destruct (Z.ltb_spec 0 (icmp (f_largest h) (f_largest g))) as [Hlt|Hge].
      + destruct (IH h Hfs ltac:(done)) as (g' & Hin & E & Hle & Hall). exists g'.
        assert (Vg' : ivalid (f_largest g')).
        { destruct Hin as [->|Hin]; [done|]. rewrite Forall_forall in Hfs. apply (Hfs g' Hin). }
        split; [right; destruct Hin as [->|Hin]; [now left|now right]|]. split; [done|].
        split; [|constructor; done]. apply (icmp_le_trans _ (f_largest h)); [done|done|done| |done].
        apply icmp_not_lt; [done|done|lia].
      + destruct (IH g Hfs ltac:(done)) as (g' & Hin & E & Hle & Hall). exists g'.
        assert (Vg' : ivalid (f_largest g')).
        { destruct Hin as [->|Hin]; [done|]. rewrite Forall_forall in Hfs. apply (Hfs g' Hin). }
        split; [destruct Hin as [->|Hin]; [now left|right; now right]|]. split; [done|]. split; [done|].
        constructor; [|done]. apply (icmp_le_trans _ (f_largest g)); [done|done|done|lia|done]. }
  destruct (H fs f Hfs Hf) as (g & Hin & E & Hle & Hall). exists g.
  split; [destruct Hin as [->|Hin]; [now left|now right]|]. split; [now rewrite E|]. now constructor.
Qed.

(** A file that starts behind the key, with the same user key. *)
Definition at_boundary (key : list Z) (f : FileMetaData) : Prop :=
  0 < icmp (f_smallest f) key /\ Compare (start_of f) (ExtractUserKey key) = 0.

Lemma FindSmallestBoundaryFile_ok fs key : Forall shaped fs ->
  match FindSmallestBoundaryFile C fs key with
  | Some f => f ∈ fs /\ at_boundary key f /\ forall g, g ∈ fs -> at_boundary key g -> icmp (f_smallest f) (f_smallest g) <= 0
  | None => forall g, g ∈ fs -> ~ at_boundary key g
  end.
Proof.
  intros Hf. unfold FindSmallestBoundaryFile.
  set (step := fun best f => _ : option FileMetaData).
  assert (H : forall l seen best, Forall shaped (seen ++ l) ->
    match best with
    | Some f => f ∈ seen /\ at_boundary key f /\ forall g, g ∈ seen -> at_boundary key g -> icmp (f_smallest f) (f_smallest g) <= 0
    | None => forall g, g ∈ seen -> ~ at_boundary key g
    end ->
    match fold_left step l best with
    | Some f => f ∈ seen ++ l /\ at_boundary key f /\
        forall g, g ∈ seen ++ l -> at_boundary key g -> icmp (f_smallest f) (f_smallest g) <= 0
    | None => forall g, g ∈ seen ++ l -> ~ at_boundary key g
    end).
  { induction l as [|x l IH]; intros seen best Hv Hb; cbn [fold_left]; [now rewrite app_nil_r|].
    replace (seen ++ x :: l) with ((seen ++ [x]) ++ l) in * by now rewrite <- app_assoc.
    apply IH; [done|]. apply Forall_app in Hv as [Hv _]. apply Forall_app in Hv as [Hv Hx]. apply List.Forall_inv in Hx as (Vx & _).
    assert (Hat : (0 <? icmp (f_smallest x) key) && (Compare (start_of x) (ExtractUserKey key) =? 0) = true <-> at_boundary key x).
    { unfold at_boundary. now rewrite andb_true_iff, Z.ltb_lt, Z.eqb_eq. }
    unfold step. destruct ((0 <? icmp (f_smallest x) key) && (Compare (start_of x) (ExtractUserKey key) =? 0)) eqn:Ex.
    - assert (Hxx : at_boundary key x) by now apply Hat. destruct best as [f|].
      + destruct Hb as (Hin & Hbf & Hmin). rewrite Forall_forall in Hv. destruct (Hv f Hin) as (Vf & _).
        destruct (Z.ltb_spec (icmp (f_smallest x) (f_smallest f)) 0) as [Hlt|Hge].
        * split; [apply elem_of_app; right; now left|]. split; [done|]. intros g Hg Hbg.
          apply elem_of_app in Hg as [Hg|Hg]; [|apply list_elem_of_singleton in Hg as ->; rewrite icmp_refl by done; lia].
          destruct (Hv g Hg) as (Vg & _). apply (icmp_le_trans _ (f_smallest f)); [done|done|done|lia|now apply Hmin].
        * split; [apply elem_of_app; now left|]. split; [done|]. intros g Hg Hbg.
          apply elem_of_app in Hg as [Hg|Hg]; [now apply Hmin|]. apply list_elem_of_singleton in Hg as ->.
          apply icmp_not_lt; [done|done|lia].
      + split; [apply elem_of_app; right; now left|]. split; [done|]. intros g Hg Hbg.
        apply elem_of_app in Hg as [Hg|Hg]; [now destruct (Hb g Hg)|]. apply list_elem_of_singleton in Hg as ->.
        rewrite icmp_refl by done. lia.
    - assert (Hxx : ~ at_boundary key x) by (rewrite <- Hat; congruence). destruct best as [f|].
      + destruct Hb as (Hin & Hbf & Hmin). split; [apply elem_of_app; now left|]. split; [done|]. intros g Hg Hbg.
        apply elem_of_app in Hg as [Hg|Hg]; [now apply Hmin|]. apply list_elem_of_singleton in Hg as ->. done.
      + intros g Hg. apply elem_of_app in Hg as [Hg|Hg]; [now apply Hb|]. now apply list_elem_of_singleton in Hg as ->. }
  apply (H fs [] None); [done|]. intros g Hg. now apply elem_of_nil in Hg.
Qed.

(** ** Segments of a sorted level *)

Lemma before_le f g : shaped f -> shaped g -> before f g -> icmp (f_smallest f) (f_smallest g) < 0 /\ icmp (f_largest f) (f_largest g) < 0.
Proof.
  intros (V1 & V2 & H) (W1 & W2 & K) Hb. split; [now apply (icmp_le_lt _ (f_largest f))|now apply (icmp_lt_le _ (f_smallest g))].
Qed.

(** The elements of a segment and those around it. *)
Lemma segment_order pre seg post f g : StronglySorted before (pre ++ seg ++ post) -> g ∈ seg ->
  (f ∈ pre -> before f g) /\ (f ∈ post -> before g f).
Proof.
  intros Hs Hg. apply StronglySorted_app in Hs as (H1 & _ & Hs). apply StronglySorted_app in Hs as (H2 & _ & _).
  split; intros Hf; [apply H1; [done|apply elem_of_app; now left]|now apply H2].
Qed.

Lemma in_segment (pre seg post : list FileMetaData) f : f ∈ seg -> f ∈ pre ++ seg ++ post.
Proof. intros Hf. rewrite !elem_of_app. auto. Qed.
Lemma in_post (pre seg post : list FileMetaData) f : f ∈ post -> f ∈ pre ++ seg ++ post.
Proof. intros Hf. rewrite !elem_of_app. auto. Qed.

(** The next file of the level is a boundary file or there is none. *)
Definition no_boundary (g : FileMetaData) (post : list FileMetaData) : Prop :=
  match post with h :: _ => Compare (start_of h) (limit_of g) <> 0 | [] => True end.

Lemma boundary_segment pre s g post : Forall shaped (pre ++ (s ++ [g]) ++ post) ->
  StronglySorted before (pre ++ (s ++ [g]) ++ post) ->
  match FindSmallestBoundaryFile C (pre ++ (s ++ [g]) ++ post) (f_largest g) with
  | Some h => exists post', post = h :: post'
  | None => no_boundary g post
  end.
Proof.
  intros Hv Hs. pose proof (FindSmallestBoundaryFile_ok _ (f_largest g) Hv) as H.
  assert (Hgs : g ∈ s ++ [g]) by (apply elem_of_app; right; now left).
  assert (Vg : shaped g). { rewrite Forall_forall in Hv. apply Hv. now apply in_segment. }
  assert (Hhead : forall h post', post = h :: post' -> Compare (start_of h) (limit_of g) = 0 -> at_boundary (f_largest g) h).
  { intros h post' -> Ec. split; [|done]. assert (Hb : before g h) by (apply (segment_order _ _ _ h g Hs Hgs); now left).
    assert (Vh : shaped h). { rewrite Forall_forall in Hv. apply Hv. apply in_post. now left. }
    unfold before in Hb. destruct Vg as (_ & V2 & _), Vh as (W1 & _). assert (IL := internal_laws (C := C) (valid := valid)).
    pose proof (@Compare_flip _ _ IL (f_smallest h) (f_largest g) W1 V2). simpl in *. lia. }
  destruct (FindSmallestBoundaryFile C _ _) as [f|].
  - destruct H as (Hin & [Hgt Hu] & Hmin). rewrite Forall_forall in Hv. pose proof (Hv f Hin) as Vf.
    rewrite (elem_of_app pre), (elem_of_app (s ++ [g])), (elem_of_app s) in Hin. destruct Hin as [Hin|[[Hin|Hin]|Hin]].
    + exfalso. assert (Hb : before f g) by now apply (segment_order _ _ _ f g Hs Hgs).
      destruct Vf as (F1 & F2 & F3), Vg as (G1 & G2 & G3). unfold before in Hb.
      assert (icmp (f_smallest f) (f_largest g) <= 0); [|lia].
      apply (icmp_le_trans _ (f_largest f)); [done|done|done|done|]. apply (icmp_le_trans _ (f_smallest g)); [done|done|done|lia|done].
    + exfalso. apply StronglySorted_app in Hs as (_ & _ & Hs). apply StronglySorted_app in Hs as (_ & Hs & _).
      apply StronglySorted_app in Hs as (Hs & _ & _). assert (Hb : before f g) by (apply Hs; [done|now left]).
      destruct Vf as (F1 & F2 & F3), Vg as (G1 & G2 & G3). unfold before in Hb.
      assert (icmp (f_smallest f) (f_largest g) <= 0); [|lia].
      apply (icmp_le_trans _ (f_largest f)); [done|done|done|done|]. apply (icmp_le_trans _ (f_smallest g)); [done|done|done|lia|done].
    + exfalso. apply list_elem_of_singleton in Hin as ->. destruct Vg as (G1 & G2 & G3). lia.
    + destruct post as [|h post']; [now apply elem_of_nil in Hin|]. exists post'.
      apply elem_of_cons in Hin as [->|Hin]; [done|]. exfalso.
      pose proof Hs as Hs'. apply StronglySorted_app in Hs' as (_ & _ & Hs'). apply StronglySorted_app in Hs' as (_ & _ & Hs').
      apply StronglySorted_inv in Hs' as [_ Hh]. rewrite Forall_forall in Hh. pose proof (Hh f Hin) as Hhf.
      assert (Hhin : h ∈ pre ++ (s ++ [g]) ++ h :: post') by (apply in_post; now left).
      pose proof (Hv h Hhin) as Vh. destruct (before_le h f Vh Vf Hhf) as [Hlt _].
      assert (Hb : before g h) by (apply (segment_order _ _ _ h g Hs Hgs); now left).
      assert (Ec : Compare (start_of h) (limit_of g) = 0).
      { pose proof (icmp_user (f_largest g) (f_smallest h) ltac:(unfold before in Hb; lia)) as U1.
        pose proof (icmp_user (f_smallest h) (f_smallest f) ltac:(lia)) as U2.
        destruct Vg as (_ & [_ VL] & _), Vh as ([_ VS] & _), Vf as ([_ VF] & _).
        assert (U3 : Compare (start_of h) (limit_of g) <= 0).
        { apply (Compare_trans _ (start_of f)); [done|done|done|done|]. lia. }
        pose proof (Compare_flip (limit_of g) (start_of h) VL VS). lia. }
      pose proof (Hmin h Hhin (Hhead h post' eq_refl Ec)) as Hle.
      assert (Hlt2 : icmp (f_smallest h) (f_smallest h) < 0).
      { destruct Vh as (W1 & _), Vf as (W2 & _). apply (icmp_lt_le _ (f_smallest f)); done. }
      destruct Vh as (W1 & _). rewrite icmp_refl in Hlt2 by done. lia.
  - unfold no_boundary. destruct post as [|h post']; [done|]. intros Ec.
    apply (H h); [apply in_post; now left|]. now apply (Hhead h post').
Qed.

Lemma boundary_loop_segment fuel pre s g post : Forall shaped (pre ++ (s ++ [g]) ++ post) ->
  StronglySorted before (pre ++ (s ++ [g]) ++ post) -> (length post < fuel)%nat ->
  exists s' g' post', boundary_loop C fuel (pre ++ (s ++ [g]) ++ post) (f_largest g) (s ++ [g]) = Some (s' ++ [g']) /\
    pre ++ (s ++ [g]) ++ post = pre ++ (s' ++ [g']) ++ post' /\ no_boundary g' post' /\
    forall f, f ∈ s ++ [g] -> f ∈ s' ++ [g'].
Proof.
  revert s g post. induction fuel as [|fuel IH]; intros s g post Hv Hs Hf; [lia|]. cbn [boundary_loop].
  pose proof (boundary_segment pre s g post Hv Hs) as Hb.
  destruct (FindSmallestBoundaryFile C _ _) as [h|].
  - destruct Hb as (post' & ->). cbn [length] in Hf.
    assert (E : pre ++ (s ++ [g]) ++ h :: post' = pre ++ ((s ++ [g]) ++ [h]) ++ post') by now rewrite <- !app_assoc.
    rewrite E in *. destruct (IH (s ++ [g]) h post' Hv Hs) as (s' & g' & post2 & E1 & E2 & Hn & Hin); [lia|].
    exists s', g', post2. split; [done|]. split; [done|]. split; [done|]. intros f Hf'. apply Hin, elem_of_app. now left.
  - exists s, g, post. done.
Qed.

(** ** Inputs that leave nothing older behind *)

(** A file that stays is before every input in the order of the keys, or has no
    user key in common with it. *)
Definition apart (f g : FileMetaData) : Prop :=
  before f g \/ Compare (limit_of g) (start_of f) < 0 \/ Compare (limit_of f) (start_of g) < 0.

Definition closed_in (files ins : list FileMetaData) : Prop :=
  (forall f, f ∈ ins -> f ∈ files) /\ forall f g, f ∈ files -> f ∉ ins -> g ∈ ins -> apart f g.

Lemma segment_closed pre s g post : Forall shaped (pre ++ (s ++ [g]) ++ post) ->
  StronglySorted before (pre ++ (s ++ [g]) ++ post) -> no_boundary g post ->
  closed_in (pre ++ (s ++ [g]) ++ post) (s ++ [g]).
Proof.
  intros Hv Hs Hn. split; [intros f Hf; now apply in_segment|].
  intros f x Hf Hnot Hx. rewrite (elem_of_app pre), (elem_of_app (s ++ [g])) in Hf.
  rewrite Forall_forall in Hv. assert (Hxv : shaped x) by now apply Hv, in_segment.
  destruct Hf as [Hf|[Hf|Hf]]; [left; now apply (segment_order _ _ _ f x Hs Hx)|done|].
  right. left. destruct post as [|h post']; [now apply elem_of_nil in Hf|].
  assert (Hgs : g ∈ s ++ [g]) by (apply elem_of_app; right; now left).
  assert (Vg : shaped g) by now apply Hv, in_segment.
  assert (Vh : shaped h) by (apply Hv, in_post; now left).
  assert (Vf : shaped f) by now apply Hv, in_post.
  assert (Hbh : before g h) by (apply (segment_order _ _ _ h g Hs Hgs); now left).
  (* x ends at or before g, g ends before h, h begins at or before f *)
  assert (U1 : Compare (limit_of x) (limit_of g) <= 0).
  { apply icmp_user. apply elem_of_app in Hx as [Hx|Hx].
    - apply StronglySorted_app in Hs as (_ & _ & Hs). apply StronglySorted_app in Hs as (_ & Hs & _).
      apply StronglySorted_app in Hs as (Hs & _ & _). assert (Hb : before x g) by (apply Hs; [done|now left]).
      destruct (before_le x g Hxv Vg Hb). lia.
    - apply list_elem_of_singleton in Hx as ->. rewrite icmp_refl by apply Vg. lia. }
  assert (U3 : Compare (start_of h) (start_of f) <= 0).
  { apply icmp_user. apply elem_of_cons in Hf as [->|Hf]; [rewrite icmp_refl by apply Vh; lia|].
    apply StronglySorted_app in Hs as (_ & _ & Hs). apply StronglySorted_app in Hs as (_ & _ & Hs).
    apply StronglySorted_inv in Hs as [_ Hh]. rewrite Forall_forall in Hh. destruct (before_le h f Vh Vf (Hh f Hf)). lia. }
  destruct Hxv as (_ & [_ X] & _), Vg as (_ & [_ G] & _), Vh as ([_ Hh1] & _), Vf as ([_ F] & _).
  assert (U2 : Compare (limit_of g) (start_of h) < 0).
  { pose proof (icmp_user (f_largest g) (f_smallest h) ltac:(unfold before in Hbh; lia)) as U.
    cbn [no_boundary] in Hn. destruct (Z.eq_dec (Compare (limit_of g) (start_of h)) 0) as [Ec|]; [|lia].
    apply Compare_eq_sym in Ec; [done|done|done]. }
  apply (Compare_le_lt_trans _ (limit_of g)); [done|done|done|done|].
  apply (Compare_lt_le_trans _ (start_of h)); done.
Qed.

(** The files of a sorted level that overlap a range are a segment of it. *)
Lemma filter_prefix (p : FileMetaData -> bool) (R : FileMetaData -> FileMetaData -> Prop) l :
  StronglySorted R l -> (forall x y, x ∈ l -> y ∈ l -> R x y -> p x = false -> p y = false) ->
  exists post, l = List.filter p l ++ post.
Proof.
  induction 1 as [|x l Hs IH Hx]; intros Hp; [now exists []|]. cbn [List.filter]. destruct (p x) eqn:Ex.
  - destruct IH as (post & E); [intros a b Ha Hb; apply Hp; now right|]. exists post. cbn [app]. now f_equal.
  - exists (x :: l). replace (List.filter p l) with (@nil FileMetaData); [done|].
    assert (Hall : forall y, y ∈ l -> p y = false).
    { intros y Hy. rewrite Forall_forall in Hx. apply (Hp x y); [now left|now right|now apply Hx|done]. }
    clear -Hall. induction l as [|y l IH]; [done|]. cbn [List.filter]. rewrite Hall by now left. apply IH. intros z Hz. apply Hall. now right.
Qed.

Lemma filter_segment (q1 q2 : FileMetaData -> bool) (R : FileMetaData -> FileMetaData -> Prop) l :
  StronglySorted R l -> (forall x y, x ∈ l -> y ∈ l -> R x y -> q1 y = true -> q1 x = true) ->
  (forall x y, x ∈ l -> y ∈ l -> R x y -> q2 x = true -> q2 y = true) ->
  exists pre post, l = pre ++ List.filter (fun x => negb (q1 x) && negb (q2 x)) l ++ post.
Proof.
  induction 1 as [|x l Hs IH Hx]; intros H1 H2; [now exists [], []|].
  rewrite Forall_forall in Hx. destruct (q1 x) eqn:E1.
  - destruct IH as (pre & post & E); [intros a b Ha Hb; apply H1; now right|intros a b Ha Hb; apply H2; now right|].
    exists (x :: pre), post. cbn [List.filter app]. rewrite E1. cbn [negb andb]. now f_equal.
  - destruct (filter_prefix (fun x => negb (q1 x) && negb (q2 x)) R (x :: l)) as (post & E).
    + constructor; [done|now apply Forall_forall].
    + assert (Hno : forall y, y ∈ x :: l -> q1 y = false).
      { intros y Hy. apply elem_of_cons in Hy as [->|Hy]; [done|]. destruct (q1 y) eqn:Ey; [|done].
        rewrite (H1 x y) in E1; [done|now left|now right|now apply Hx|done]. }
      intros a b Ha Hb Hab. rewrite !Hno by done. cbn [negb andb]. rewrite !negb_false_iff. now apply H2.
    + exists [], post. exact E.
Qed.

Lemma overlap_segment b e files : Forall shaped files -> StronglySorted before files ->
  bound_valid (valid := valid) b -> bound_valid (valid := valid) e ->
  exists pre post, files = pre ++ List.filter (overlaps (C := C) b e) files ++ post.
Proof.
  intros Hv Hs Vb Ve. rewrite Forall_forall in Hv.
  apply (filter_segment (fun f => before_begin C (limit_of f) b) (fun f => after_end C (start_of f) e) before files Hs).
  - intros x y Hx Hy Hxy. destruct (before_le x y (Hv x Hx) (Hv y Hy) Hxy) as [_ Hl].
    destruct b as [k|]; [|done]. cbn. rewrite !Z.ltb_lt. intros Hk.
    destruct (Hv x Hx) as (_ & [_ X] & _), (Hv y Hy) as (_ & [_ Y] & _).
    apply (Compare_le_lt_trans _ (limit_of y)); [done|done|done|apply icmp_user; lia|done].
  - intros x y Hx Hy Hxy. destruct (before_le x y (Hv x Hx) (Hv y Hy) Hxy) as [Hl _].
    destruct e as [k|]; [|done]. cbn. rewrite !Z.ltb_lt. intros Hk.
    destruct (Hv x Hx) as ([_ X] & _), (Hv y Hy) as ([_ Y] & _).
    apply Compare_antisym; [done|done|]. apply (Compare_lt_le_trans _ (start_of x)); [done|done|done| |apply icmp_user; lia].
    now apply Compare_antisym.
Qed.

(** ** Choosing the inputs *)

(** A level of a version: above 0 it is sorted. *)
Definition level_shape (level : nat) (files : list FileMetaData) : Prop :=
  Forall shaped files /\ (level <> 0%nat -> StronglySorted before files).

(** Inputs to begin with: a segment of the level or, at level 0, files with all
    that touch them. *)
Definition first_inputs (level : nat) (files ins : list FileMetaData) : Prop :=
  match level with
  | O => (forall f, f ∈ ins -> f ∈ files) /\ forall f g, f ∈ files -> g ∈ ins -> touch (C := C) f g -> f ∈ ins
  | S _ => exists pre post, files = pre ++ ins ++ post
  end.

Lemma not_touch_apart f g : shaped f -> shaped g -> ~ touch (C := C) f g -> apart f g.
Proof.
  intros ([_ F1] & [_ F2] & _) ([_ G1] & [_ G2] & _) Hn. unfold touch in Hn. unfold apart. right.
  destruct (Z.le_gt_cases (Compare (start_of f) (limit_of g)) 0) as [H1|H1].
  - right. apply Compare_antisym; [done|done|]. lia.
  - left. apply Compare_antisym; [done|done|]. lia.
Qed.

Lemma AddBoundaryInputs_ok level files ins : level_shape level files -> first_inputs level files ins ->
  exists ins', AddBoundaryInputs C files ins = Some ins' /\ closed_in files ins' /\ (forall f, f ∈ ins -> f ∈ ins').
Proof.
  intros [Hv Hs] Hf. destruct ins as [|f0 ins0] eqn:Ei.
  { exists []. split; [done|]. split; [|done]. split; [intros f Hin; now apply elem_of_nil in Hin|].
    intros f g _ _ Hg. now apply elem_of_nil in Hg. }
  rewrite <- Ei in *. assert (Hsub : forall f, f ∈ ins -> f ∈ files).
  { destruct level; [apply Hf|]. destruct Hf as (pre & post & ->). intros f. apply in_segment. }
  assert (Hvi : Forall shaped ins). { rewrite Forall_forall in *. auto. }
  rewrite Ei in Hvi. destruct (FindLargestKey_ok f0 ins0 Hvi) as (g & Hg & Ek & Hmax). rewrite <- Ei in *.
  unfold AddBoundaryInputs. rewrite Ek. destruct level as [|level].
  - (* at level 0 a boundary file would touch the largest *)
    destruct Hf as [_ Hcl]. cbn [boundary_loop]. pose proof (FindSmallestBoundaryFile_ok files (f_largest g) Hv) as Hb.
    rewrite Forall_forall in Hv, Hmax. destruct (FindSmallestBoundaryFile C files (f_largest g)) as [h|].
    + exfalso. destruct Hb as (Hh & [Hgt Hu] & _). destruct (Hv g (Hsub g Hg)) as (G1 & G2 & G3), (Hv h Hh) as (H1 & H2 & H3).
      assert (Hin : h ∈ ins).
      { apply (Hcl h g Hh Hg). split; [lia|].
        apply (Compare_trans _ (limit_of g)); [apply G1|apply G2|apply H2|now apply icmp_user|].
        apply (Compare_trans _ (start_of h)); [apply G2|apply H1|apply H2| |now apply icmp_user].
        apply (Compare_eq_sym _ _ (proj2 H1) (proj2 G2)) in Hu. lia. }
      assert (icmp (f_smallest h) (f_largest g) <= 0); [|lia].
      apply (icmp_le_trans _ (f_largest h)); [done|done|done|done|now apply Hmax].
    + exists ins. split; [done|]. split; [|done]. split; [done|]. intros f x Hff Hnot Hx.
      apply not_touch_apart; [now apply Hv|now apply Hv, Hsub|]. intros Ht. now apply Hnot, (Hcl f x).
  - destruct Hf as (pre & post & Efiles). specialize (Hs ltac:(lia)).
    destruct (exists_last (l := ins)) as (s & z & Ez); [rewrite Ei; discriminate|].
    assert (Hgz : f_largest g = f_largest z \/ before g z).
    { rewrite Ez in Hg. apply elem_of_app in Hg as [Hg|Hg]; [|apply list_elem_of_singleton in Hg as ->; now left].
      right. rewrite Efiles, Ez in Hs. apply StronglySorted_app in Hs as (_ & _ & Hs).
      apply StronglySorted_app in Hs as (_ & Hs & _). apply StronglySorted_app in Hs as (Hs & _ & _). apply Hs; [done|now left]. }
    assert (Hzi : z ∈ ins) by (rewrite Ez; apply elem_of_app; right; now left).
    assert (Egz : f_largest g = f_largest z).
    { destruct Hgz as [|Hb]; [done|]. exfalso. rewrite Forall_forall in Hmax, Hv.
      destruct (before_le g z (Hv g (Hsub g Hg)) (Hv z (Hsub z Hzi)) Hb) as [_ Hlt].
      specialize (Hmax z Hzi). destruct (Hv g (Hsub g Hg)) as (_ & G2 & _), (Hv z (Hsub z Hzi)) as (_ & Z2 & _).
      assert (IL := internal_laws (C := C) (valid := valid)). pose proof (@Compare_antisym _ _ IL _ _ G2 Z2). simpl in *. lia. }
    rewrite Egz. rewrite Efiles, Ez in Hv, Hs |- *.
    destruct (boundary_loop_segment (S (length (pre ++ (s ++ [z]) ++ post))) pre s z post Hv Hs)
      as (s' & g' & post' & E1 & E2 & Hn & Hin); [rewrite !length_app; lia|].
    exists (s' ++ [g']). split; [done|]. split; [|done]. rewrite E2 in Hv, Hs |- *. now apply segment_closed.
Qed.

Definition user_range (r : list Z * list Z) : option (list Z) * option (list Z) :=
  (Some (ExtractUserKey r.1), Some (ExtractUserKey r.2)).

(** The files of a level that overlap a range of keys. *)
Definition overlapping (r : list Z * list Z) (files : list FileMetaData) : list FileMetaData :=
  List.filter (overlaps (C := C) (user_range r).1 (user_range r).2) files.

Section Version.
Context (v : Version) (levels_ok : forall level, level_shape level (level_files v level)).

Lemma shaped_valid f : shaped f -> file_valid (valid := valid) f.
Proof. intros ([_ H1] & [_ H2] & _). now split. Qed.

Lemma level_valid level : Forall (file_valid (valid := valid)) (level_files v level).
Proof. eapply Forall_impl; [apply (levels_ok level)|]. intros f. apply shaped_valid. Qed.

(** The search in a level gives inputs to begin with. *)
Lemma search_overlap level r : ivalid r.1 -> ivalid r.2 ->
  exists ins, GetOverlappingInputs C v level (Some r.1) (Some r.2) = Some ins /\
    first_inputs level (level_files v level) ins /\
    (forall f, f ∈ overlapping r (level_files v level) -> f ∈ ins) /\
    (level <> 0%nat -> ins = overlapping r (level_files v level)).
Proof.
  intros V1 V2. destruct (overlapping_inputs_ok v level (Some r.1) (Some r.2) (level_valid level))
    as (b & e & ins & E & Ein & Vb & Ve & Hb & He & H0 & Hn); [apply V1|apply V2|].
  exists ins. split; [done|]. cbn [fmap option_fmap option_map] in *.
  assert (Hsub : forall f, f ∈ ins -> f ∈ level_files v level).
  { intros f. rewrite Ein, !list_elem_of_In, filter_In. tauto. }
  split; [|split].
  - destruct level as [|level]; [split; [done|now apply H0]|]. destruct (Hn ltac:(lia)) as [Eb Ee].
    destruct (levels_ok (S level)) as [Hv Hs]. rewrite Ein.
    apply overlap_segment; [done|now apply Hs|rewrite Eb; apply V1|rewrite Ee; apply V2].
  - destruct b as [kb|]; [|done]. destruct e as [ke|]; [|done]. cbn in Hb, He.
    intros f Hf. unfold overlapping in Hf. rewrite list_elem_of_In, filter_In in Hf. destruct Hf as [Hf Ho].
    rewrite Ein. apply list_elem_of_In, filter_In. split; [done|]. unfold overlaps in *. cbn in *.
    rewrite andb_true_iff, !negb_true_iff, !Z.ltb_ge in *. destruct Ho as [Ho1 Ho2].
    apply list_elem_of_In in Hf. pose proof (levels_ok level) as [Hv _]. rewrite Forall_forall in Hv. destruct (Hv f Hf) as ([_ F1] & [_ F2] & _).
    cbn in Vb, Ve. pose proof (proj2 V1) as U1. pose proof (proj2 V2) as U2. split.
    + apply (Compare_flip kb); [done|done|]. apply (Compare_trans _ (ExtractUserKey r.1)); [done|done|done|done|].
      now apply Compare_flip.
    + now apply (Compare_trans _ (ExtractUserKey r.2)).
  - intros Hne. destruct (Hn Hne) as [-> ->]. exact Ein.
Qed.

(** The inputs of both levels when they are chosen. *)
Record inputs_closed (level : nat) (i : inputs) : Prop := {
  ic_some : in_0 i <> [];
  ic_closed : closed_in (level_files v level) (in_0 i);
  ic_range : in_range i = GetRange C (in_0 i);
  ic_next : in_1 i = overlapping (in_range i) (level_files v (level + 1));
}.

Lemma closed_shaped level ins : closed_in (level_files v level) ins -> Forall shaped ins.
Proof.
  intros [Hsub _]. destruct (levels_ok level) as [Hv _]. rewrite Forall_forall in *. auto.
Qed.

Lemma overlapping_shaped level r : Forall shaped (overlapping r (level_files v level)).
Proof.
  destruct (levels_ok level) as [Hv _]. rewrite Forall_forall in *. intros f Hf. apply Hv.
  unfold overlapping in Hf. rewrite list_elem_of_In, filter_In in Hf. now apply list_elem_of_In.
Qed.

Lemma next_level level r : ivalid r.1 -> ivalid r.2 ->
  GetOverlappingInputs C v (level + 1) (Some r.1) (Some r.2) = Some (overlapping r (level_files v (level + 1))).
Proof.
  intros V1 V2. destruct (search_overlap (level + 1) r V1 V2) as (ins & E & _ & _ & Hn). rewrite E, Hn by lia. done.
Qed.

Lemma expand_inputs_ok max level i : inputs_closed level i -> in_all i = GetRange2 C (in_0 i) (in_1 i) ->
  exists i', expand_inputs C max v level i = Some i' /\ inputs_closed level i' /\ in_all i' = GetRange2 C (in_0 i') (in_1 i').
Proof.
  intros Hi Ha. unfold expand_inputs.
  assert (Hgo : forall o, (exists i', o = Some i' /\ inputs_closed level i' /\ in_all i' = GetRange2 C (in_0 i') (in_1 i')) ->
    exists i', match in_1 i with [] => Some i | _ :: _ => o end = Some i' /\ inputs_closed level i' /\ in_all i' = GetRange2 C (in_0 i') (in_1 i')).
  { intros o Ho. destruct (in_1 i) eqn:E1; [exists i; rewrite <- E1 in Ha; exact (conj eq_refl (conj Hi Ha))|exact Ho]. }
  apply Hgo. clear Hgo.
  assert (Hall : Forall shaped (in_0 i ++ in_1 i)).
  { apply Forall_app. split; [apply (closed_shaped level), Hi|]. rewrite (ic_next _ _ Hi). apply overlapping_shaped. }
  destruct (GetRange_ok (in_0 i ++ in_1 i)) as (V1 & V2 & _); [|done|].
  { intros E. apply app_eq_nil in E as [E _]. now apply (ic_some _ _ Hi). }
  change (GetRange C (in_0 i ++ in_1 i)) with (GetRange2 C (in_0 i) (in_1 i)) in V1, V2. rewrite <- Ha in V1, V2.
  destruct (search_overlap level (in_all i) V1 V2) as (ins & E & Hf & _). rewrite E.
  destruct (AddBoundaryInputs_ok level _ ins (levels_ok level) Hf) as (ins' & E' & Hc & _). rewrite E'.
  destruct (length (in_0 i) <? length ins')%nat eqn:El; [|now exists i]. cbn [andb].
  destruct (_ <? _); [|now exists i].
  assert (Hne : ins' <> []) by (intros ->; apply Nat.ltb_lt in El; cbn in El; lia).
  destruct (GetRange_ok ins' Hne (closed_shaped level _ Hc)) as (W1 & W2 & _).
  rewrite next_level by done. destruct (_ =? _)%nat; [|now exists i].
  eexists. split; [reflexivity|]. now constructor.
Qed.

Lemma choose_inputs_ok max level ins : (level + 1 < kNumLevels)%nat ->
  first_inputs level (level_files v level) ins -> ins <> [] ->
  exists i, choose_inputs C max v level ins = Some i /\ inputs_closed level i /\ in_all i = GetRange2 C (in_0 i) (in_1 i).
Proof.
  intros Hl Hf Hne. unfold choose_inputs. destruct (Nat.leb_spec kNumLevels (level + 1)); [lia|].
  destruct (AddBoundaryInputs_ok level _ ins (levels_ok level) Hf) as (ins' & -> & Hc & Hin).
  assert (Hne' : ins' <> []).
  { intros ->. destruct ins as [|x l]; [done|]. specialize (Hin x ltac:(now left)). now apply elem_of_nil in Hin. }
  destruct (GetRange_ok ins' Hne' (closed_shaped level _ Hc)) as (W1 & W2 & _).
  rewrite next_level by done. apply expand_inputs_ok; [|done]. now constructor.
Qed.

(** ** What the choice guarantees *)

(** A file of the next level that is no input lies before all inputs or behind
    all of them. *)
Lemma next_level_outside level i h : inputs_closed level i -> h ∈ level_files v (level + 1) -> h ∉ in_1 i ->
  (forall g, g ∈ in_0 i ++ in_1 i -> before h g) \/ (forall g, g ∈ in_0 i ++ in_1 i -> before g h).
Proof.
  intros Hi Hh Hnot. pose proof (closed_shaped level _ (ic_closed _ _ Hi)) as Hv0.
  destruct (GetRange_ok (in_0 i) (ic_some _ _ Hi) Hv0) as (V1 & V2 & Hr). rewrite <- (ic_range _ _ Hi) in *.
  destruct (levels_ok (level + 1)) as [Hv Hs]. specialize (Hs ltac:(lia)). rewrite Forall_forall in Hv, Hr, Hv0.
  pose proof (Hv h Hh) as (H1 & H2 & H3).
  assert (Hno : overlaps (C := C) (user_range (in_range i)).1 (user_range (in_range i)).2 h = false).
  { destruct (overlaps _ _ h) eqn:Eo; [|done]. exfalso. apply Hnot. rewrite (ic_next _ _ Hi). unfold overlapping.
    apply list_elem_of_In, filter_In. split; [now apply list_elem_of_In|done]. }
  (* files of the same level are in order *)
  assert (Horder : forall g, g ∈ level_files v (level + 1) -> g <> h -> before h g \/ before g h).
  { intros g Hg Hne. apply list_elem_of_lookup in Hh as [n Hn]. apply list_elem_of_lookup in Hg as [m Hm].
    destruct (Nat.lt_trichotomy n m) as [Hlt|[Heq|Hlt]].
    - left. exact (sorted_lookup _ _ n m h g Hs Hlt Hn Hm).
    - subst m. congruence.
    - right. exact (sorted_lookup _ _ m n g h Hs Hlt Hm Hn). }
  assert (Hin1 : forall g, g ∈ in_1 i -> g ∈ level_files v (level + 1) /\ g <> h /\
            Compare (ExtractUserKey (in_range i).1) (limit_of g) <= 0 /\ Compare (start_of g) (ExtractUserKey (in_range i).2) <= 0).
  { intros g Hg. split.
    - rewrite (ic_next _ _ Hi) in Hg. unfold overlapping in Hg. rewrite list_elem_of_In, filter_In in Hg. apply list_elem_of_In, Hg.
    - split; [intros ->; done|]. rewrite (ic_next _ _ Hi) in Hg. unfold overlapping in Hg. rewrite list_elem_of_In, filter_In in Hg.
      destruct Hg as [Hg Ho]. apply list_elem_of_In in Hg. destruct (Hv g Hg) as (G1 & G2 & _).
      unfold overlaps in Ho. cbn in Ho. rewrite andb_true_iff, !negb_true_iff, !Z.ltb_ge in Ho. destruct Ho as [Ho1 Ho2].
      split; [apply (Compare_flip _ _ (proj2 V1) (proj2 G2)); lia|lia]. }
  unfold overlaps in Hno. cbn in Hno. rewrite andb_false_iff, !negb_false_iff, !Z.ltb_lt in Hno. destruct Hno as [Hl|Hg].
  - left. intros g Hg. apply elem_of_app in Hg as [Hg|Hg].
    + destruct (Hr g Hg) as [R1 _]. apply user_icmp. destruct (Hv0 g Hg) as (G1 & _).
      apply (Compare_lt_le_trans _ (ExtractUserKey (in_range i).1)); [apply H2|apply V1|apply G1|done|now apply icmp_user].
    + destruct (Hin1 g Hg) as (Hg1 & Hne & Hb & _). destruct (Horder g Hg1 Hne) as [|Hx]; [done|]. exfalso.
      destruct (before_le g h (Hv g Hg1) (Hv h Hh) Hx) as [_ Hll]. destruct (Hv g Hg1) as (_ & G2 & _).
      assert (Compare (limit_of h) (limit_of h) < 0).
      { apply (Compare_lt_le_trans _ (ExtractUserKey (in_range i).1)); [apply H2|apply V1|apply H2|done|].
        apply (Compare_trans _ (limit_of g)); [apply V1|apply G2|apply H2|done|apply icmp_user; lia]. }
      rewrite Compare_refl in H; [lia|apply H2].
  - right. intros g Hg'. apply elem_of_app in Hg' as [Hg'|Hg'].
    + destruct (Hr g Hg') as [_ R2]. apply user_icmp. destruct (Hv0 g Hg') as (_ & G2 & _).
      apply (Compare_le_lt_trans _ (ExtractUserKey (in_range i).2)); [apply G2|apply V2|apply H1|now apply icmp_user|].
      now apply Compare_antisym; [apply V2|apply H1|].
    + destruct (Hin1 g Hg') as (Hg1 & Hne & _ & Hb). destruct (Horder g Hg1 Hne) as [Hx|]; [|done]. exfalso.
      destruct (before_le h g (Hv h Hh) (Hv g Hg1) Hx) as [Hll _]. destruct (Hv g Hg1) as (G1 & _).
      assert (Compare (start_of h) (start_of h) < 0).
      { apply (Compare_le_lt_trans _ (ExtractUserKey (in_range i).2)); [apply H1|apply V2|apply H1| |].
        - apply (Compare_trans _ (start_of g)); [apply H1|apply G1|apply V2|apply icmp_user; lia|done].
        - now apply Compare_antisym; [apply V2|apply H1|]. }
      rewrite Compare_refl in H; [lia|apply H1].
Qed.

End Version.
End Files.
