(* ===== verification/LvCompactionInstall.v ===== *)
(** * leveldb: a compaction keeps the invariant of versions (theorems about LvCompaction)

    The compactions that the version set hands out, of the level with the
    highest score, of the file with too many seeks or of a range of keys, have
    closed inputs; and installing their results gives a version on which
    lookups are correct again. *)
From Stdlib Require Import ZArith Lia Bool List Sorted SpecFloat Permutation.
From stdpp Require Import base list gmap numbers sorting.
From S2P Require Import Prelude LvCoding LvEnv LvComparator LvDbFormat LvMemTable LvMemTableProps LvTableRead.
From S2P Require Import LvVersion LvVersionProps LvOverlap LvVersionEdit LvBuilder LvBuilderProps LvManifest LvCompaction LvCompactionProps.

(** ** The edit of the results *)

Definition output_file (o : Output) : FileMetaData :=
  MkFile (o_number o) (o_file_size o) (o_smallest o) (o_largest o) (Z.shiftl 1 30).

Lemma set_insert_iff x y l : y ∈ set_insert x l <-> y = x \/ y ∈ l.
Proof.
  induction l as [|z l IH]; cbn [set_insert]; [now rewrite elem_of_cons|].
  destruct (pair_lt x z) eqn:E1; [now rewrite elem_of_cons|]. destruct (pair_lt z x) eqn:E2.
  - rewrite !elem_of_cons, IH. tauto.
  - assert (x = z) as ->; [|rewrite elem_of_cons; tauto].
    unfold pair_lt in *. destruct x as [a b], z as [c d]. cbn [fst snd] in *.
    rewrite orb_false_iff, andb_false_iff, Z.eqb_neq, !Z.ltb_ge in *. f_equal; lia.
Qed.

Lemma remove_fold level fs e :
  let e' := fold_left (fun edit f => RemoveFile level (f_number f) edit) fs e in
  compact_pointers_ e' = compact_pointers_ e /\ new_files_ e' = new_files_ e /\
  forall p, p ∈ deleted_files_ e' <-> p ∈ deleted_files_ e \/ p.1 = level /\ p.2 ∈ numbers fs.
Proof.
  revert e. induction fs as [|f fs IH]; intros e; cbn [fold_left].
  - split; [done|]. split; [done|]. intros p. rewrite elem_of_nil. tauto.
  - destruct (IH (RemoveFile level (f_number f) e)) as (H1 & H2 & H3). cbv zeta in *. rewrite H1, H2.
    split; [done|]. split; [done|]. intros [a b]. rewrite H3. cbn [RemoveFile deleted_files_ numbers map fst snd].
    rewrite set_insert_iff, pair_equal_spec, elem_of_cons. fold (numbers fs). tauto.
Qed.

Lemma at_level_elem {B} level (l : list (Z * B)) b : b ∈ at_level level l <-> (Z.of_nat level, b) ∈ l.
Proof.
  unfold at_level. rewrite list_elem_of_fmap. split.
  - intros ([a b'] & -> & H). apply list_elem_of_filter in H as [Ha H]. cbn [fst snd] in *. now rewrite <- Ha.
  - intros H. exists (Z.of_nat level, b). split; [done|]. apply list_elem_of_filter. done.
Qed.

Lemma add_fold_files level outs e :
  let e' := fold_left (fun edit out =>
      AddFile level (o_number out) (o_file_size out) (o_smallest out) (o_largest out) edit) outs e in
  compact_pointers_ e' = compact_pointers_ e /\ deleted_files_ e' = deleted_files_ e /\
  new_files_ e' = new_files_ e ++ map (fun o => (level, output_file o)) outs.
Proof.
  revert e. induction outs as [|o outs IH]; intros e; cbn [fold_left map]; [now rewrite app_nil_r|].
  destruct (IH (AddFile level (o_number o) (o_file_size o) (o_smallest o) (o_largest o) e)) as (H1 & H2 & H3).
  cbv zeta in *. rewrite H1, H2, H3. cbn [AddFile push_file compact_pointers_ deleted_files_ new_files_].
  now rewrite <- app_assoc.
Qed.

(** What the edit of the results adds and deletes, when the compaction's own
    edit only moves a pointer. *)
Lemma results_edit_ok c outs : new_files_ (edit_ c) = [] -> deleted_files_ (edit_ c) = [] ->
  let e := results_edit c outs in
  compact_pointers_ e = compact_pointers_ (edit_ c) /\
  new_files_ e = map (fun o => (Z.of_nat (level_ c + 1), output_file o)) outs /\
  forall p, p ∈ deleted_files_ e <->
    p.1 = Z.of_nat (level_ c) /\ p.2 ∈ numbers (inputs_0 c) \/ p.1 = Z.of_nat (level_ c + 1) /\ p.2 ∈ numbers (inputs_1 c).
Proof.
  intros En Ed. unfold results_edit.
  destruct (add_fold_files (Z.of_nat (level_ c + 1)) outs (AddInputDeletions c (edit_ c))) as (H1 & H2 & H3). cbv zeta in *.
  rewrite H1, H2, H3. unfold AddInputDeletions.
  destruct (remove_fold (Z.of_nat (level_ c)) (inputs_0 c) (edit_ c)) as (A1 & A2 & A3).
  destruct (remove_fold (Z.of_nat (level_ c + 1)) (inputs_1 c)
    (fold_left (fun edit f => RemoveFile (Z.of_nat (level_ c)) (f_number f) edit) (inputs_0 c) (edit_ c))) as (B1 & B2 & B3).
  cbv zeta in *. rewrite B1, A1, B2, A2, En. split; [done|]. split; [done|]. intros p. rewrite B3, A3, Ed, elem_of_nil. tauto.
Qed.

Lemma results_adds c outs level : new_files_ (edit_ c) = [] -> deleted_files_ (edit_ c) = [] ->
  edit_adds (results_edit c outs) level = if (level =? level_ c + 1)%nat then map with_seeks (map output_file outs) else [].
Proof.
  intros En Ed. destruct (results_edit_ok c outs En Ed) as (_ & E & _). cbv zeta in E. unfold edit_adds. rewrite E. clear E.
  unfold at_level. induction outs as [|o outs IH]; [now destruct (_ =? _)%nat|]. cbn [map]. rewrite filter_cons. cbn [fst].
  destruct (Nat.eqb_spec level (level_ c + 1)) as [->|Hne].
  - destruct (decide _); [|lia]. cbn [map snd]. now rewrite IH.
  - destruct (decide _); [lia|]. exact IH.
Qed.

Lemma results_deletes c outs level n : new_files_ (edit_ c) = [] -> deleted_files_ (edit_ c) = [] ->
  n ∈ edit_deletes (results_edit c outs) level <->
    level = level_ c /\ n ∈ numbers (inputs_0 c) \/ level = (level_ c + 1)%nat /\ n ∈ numbers (inputs_1 c).
Proof.
  intros En Ed. destruct (results_edit_ok c outs En Ed) as (_ & _ & E). cbv zeta in E. unfold edit_deletes.
  rewrite at_level_elem, E. cbn [fst snd]. intuition lia.
Qed.

(** ** The compactions that are handed out *)

Section Choice.
Context {C : Comparator} {valid : list Z -> Prop} {CL : ComparatorLaws C valid}.
Notation icmp := (internal_compare C).
Notation ivalid := (internal_valid valid).
Context {E W : Type} (max : Z).
Notation VS := (VersionSet E W).

(** What the fields of a version say about the next compaction: a level with
    files above the last, a file of such a level. *)
Record pick_ok (v : Version) : Prop := {
  po_score : SFleb (double_of 1) (compaction_score_ v) = true ->
    exists level, compaction_level_ v = Z.of_nat level /\ (level + 1 < kNumLevels)%nat /\ level_files v level <> [];
  po_seek f : file_to_compact_ v = Some f ->
    exists level, file_to_compact_level_ v = Z.of_nat level /\ (level + 1 < kNumLevels)%nat /\ f ∈ level_files v level;
}.

(** A version that was just installed is in that state, *)
Lemma Finalize_pick v : file_to_compact_ v = None -> pick_ok (Finalize v).
Proof.
  intros En. destruct (Finalize_best v) as (level & Hlt & Eb & _).
  constructor; unfold Finalize; rewrite Eb; cbn [compaction_score_ compaction_level_ file_to_compact_]; [|congruence].
  intros Hs. exists level. split; [done|]. split; [unfold kNumLevels in *; lia|]. unfold level_files. cbn [files_]. intros Hempty.
  now rewrite level_score_empty in Hs.
Qed.

(** and charging a seek to one of its files keeps it there. *)
Lemma UpdateStats_pick v stats : pick_ok v -> NoDup (numbers (concat (files_ v))) ->
  (forall f, seek_file stats = Some f -> exists level, seek_file_level stats = Z.of_nat level /\
     (level + 1 < kNumLevels)%nat /\ f ∈ level_files v level) ->
  pick_ok (snd (UpdateStats v stats)).
Proof.
  intros [P1 P2] Hnd Hst. unfold UpdateStats. destruct (seek_file stats) as [f|]; [|now constructor].
  set (g := charge_seek (f_number f)).
  assert (Hlev : forall level, default [] (map (map g) (files_ v) !! level) = map g (level_files v level)).
  { intros level. unfold level_files. rewrite list_lookup_fmap. now destruct (files_ v !! level). }
  assert (Hscore : forall v', files_ v' = map (map g) (files_ v) -> compaction_score_ v' = compaction_score_ v ->
    compaction_level_ v' = compaction_level_ v -> SFleb (double_of 1) (compaction_score_ v') = true ->
    exists level, compaction_level_ v' = Z.of_nat level /\ (level + 1 < kNumLevels)%nat /\ level_files v' level <> []).
  { intros v' Ef Es El Hs. rewrite Es in Hs. destruct (P1 Hs) as (level & E1 & Hl & Hne). exists level. rewrite El.
    split; [done|]. split; [done|]. unfold level_files. rewrite Ef, Hlev. intros Hn. now apply map_eq_nil in Hn. }
  destruct (Hst f eq_refl) as (level & Els & Hl & Hf).
  assert (Hfind : List.find (fun x => f_number x =? f_number f) (concat (map (map g) (files_ v))) = Some (g f)).
  { rewrite <- concat_map. assert (Hin : f ∈ concat (files_ v)).
    { unfold level_files in Hf. destruct (files_ v !! level) as [fs|] eqn:Efs; [|now apply elem_of_nil in Hf].
      apply list_elem_of_In, in_concat. exists fs. split; [|now apply list_elem_of_In].
      apply list_elem_of_In, list_elem_of_lookup. now exists level. }
    revert Hnd Hin. generalize (concat (files_ v)). intros l. induction l as [|x l IH]; intros Hnd Hin; [now apply elem_of_nil in Hin|].
    cbn [map List.find numbers] in *. apply NoDup_cons in Hnd as [Hx Hnd]. replace (f_number (g x)) with (f_number x) by (unfold g, charge_seek; now destruct (_ =? _)).
    destruct (Z.eqb_spec (f_number x) (f_number f)) as [Ex|Nx].
    - apply elem_of_cons in Hin as [->|Hin]; [done|]. exfalso. apply Hx. rewrite Ex. now apply list_elem_of_fmap_2.
    - apply elem_of_cons in Hin as [->|Hin]; [done|]. now apply IH. }
  rewrite Hfind. destruct (file_to_compact_ v) as [h|] eqn:Eh.
  - cbn [snd]. constructor; [now apply Hscore|]. cbn [file_to_compact_ file_to_compact_level_]. intros x [= <-].
    destruct (P2 h eq_refl) as (lh & E1 & Hlh & Hh). exists lh. split; [done|]. split; [done|].
    unfold level_files. cbn [files_]. rewrite Hlev. replace (f_number (g f)) with (f_number f) by (unfold g, charge_seek; now destruct (_ =? _)).
    fold g. now apply list_elem_of_fmap_2.
  - destruct (_ <=? 0); cbn [snd]; (constructor; [now apply Hscore|]); cbn [file_to_compact_ file_to_compact_level_]; [|congruence].
    intros x [= <-]. exists level. split; [done|]. split; [done|]. unfold level_files. cbn [files_]. rewrite Hlev. now apply list_elem_of_fmap_2.
Qed.

(** A compaction with closed inputs whose edit only moves the pointer of its
    level. *)
Record compaction_ok (v : Version) (c : Compaction) : Prop := {
  co_level : (level_ c + 1 < kNumLevels)%nat;
  co_version : input_version_ c = v;
  co_some : inputs_0 c <> [];
  co_closed : closed_in (C := C) (level_files v (level_ c)) (inputs_0 c);
  co_next : inputs_1 c = overlapping (C := C) (GetRange C (inputs_0 c)) (level_files v (level_ c + 1));
  co_adds : new_files_ (edit_ c) = [];
  co_deletes : deleted_files_ (edit_ c) = [];
  co_pointers : Forall (fun p => 0 <= p.1 < Z.of_nat kNumLevels) (compact_pointers_ (edit_ c));
  co_ptrs : level_ptrs_ c = replicate kNumLevels 0%nat;
}.

Context (vs : VS) (v_ok : forall level, level_shape (C := C) (valid := valid) level (level_files (vs_current vs) level)).
Context (ptrs_ok : length (vs_pointers vs) = kNumLevels).
Notation v := (vs_current vs).

Lemma SetupOtherInputs_ok level ins : (level + 1 < kNumLevels)%nat ->
  first_inputs (C := C) level (level_files v level) ins -> ins <> [] ->
  exists c vs', SetupOtherInputs C max vs (make_Compaction max level v ins) = Some (c, vs') /\
    compaction_ok v c /\ level_ c = level /\ vs_current vs' = v /\ length (vs_pointers vs') = kNumLevels.
Proof.
  intros Hl Hf Hne. unfold SetupOtherInputs. cbn [make_Compaction level_ inputs_0].
  destruct (choose_inputs_ok v v_ok max level ins Hl Hf Hne) as (i & -> & Hi & Ha).
  destruct (GetRange_ok (C := C) (valid := valid) (in_0 i ++ in_1 i)) as (V1 & V2 & _).
  { intros En. apply app_eq_nil in En as [En _]. now apply (ic_some _ _ _ Hi). }
  { apply Forall_app. split; [apply (closed_shaped v v_ok level), Hi|]. rewrite (ic_next _ _ _ Hi). now apply overlapping_shaped. }
  change (GetRange C (in_0 i ++ in_1 i)) with (GetRange2 C (in_0 i) (in_1 i)) in V1, V2. rewrite <- Ha in V1, V2.
  assert (Hg : exists gs, (if (level + 2 <? kNumLevels)%nat
      then GetOverlappingInputs C v (level + 2) (Some (in_all i).1) (Some (in_all i).2)
      else Some (grandparents_ (make_Compaction max level v ins))) = Some gs).
  { destruct (_ <? _)%nat; [|eauto]. destruct (search_overlap v v_ok (level + 2) (in_all i) V1 V2) as (gs & -> & _). eauto. }
  destruct Hg as (gs & ->).
  destruct (update_at_ok (Z.of_nat level) (fun _ => (in_range i).2) (vs_pointers vs)) as (y & Hy & ->); [lia|].
  eexists _, _. split; [reflexivity|]. split; [|split; [done|split; [done|]]].
  - constructor; cbn; try done; [apply Hi|apply Hi|rewrite <- (ic_range _ _ _ Hi); apply Hi|].
    constructor; [cbn [fst]; lia|constructor].
  - cbn [set_pointers vs_pointers]. now rewrite length_insert.
Qed.

(** Level 0 begins with everything that touches the chosen file, any other
    level with the file alone. *)
Lemma one_input level f : f ∈ level_files v level ->
  exists ins, (if (level =? 0)%nat
      then GetOverlappingInputs C v 0 (Some (GetRange C [f]).1) (Some (GetRange C [f]).2)
      else Some [f]) = Some ins /\
    first_inputs (C := C) level (level_files v level) ins /\ ins <> [].
Proof.
  intros Hf. destruct level as [|level]; cbn [Nat.eqb].
  - destruct (v_ok 0) as [Hv _]. rewrite Forall_forall in Hv. destruct (Hv f Hf) as (V1 & V2 & Hle).
    destruct (search_overlap v v_ok 0 (f_smallest f, f_largest f) V1 V2) as (ins & Ei & Hfi & Hov & _).
    exists ins. split; [exact Ei|]. split; [done|]. assert (Hin : f ∈ ins).
    { apply Hov. unfold overlapping. apply list_elem_of_In, filter_In. split; [now apply list_elem_of_In|].
      unfold overlaps. cbn. rewrite andb_true_iff, !negb_true_iff, !Z.ltb_ge. split; [|now apply icmp_user].
      apply (Compare_flip _ _ (proj2 V1) (proj2 V2)). now apply icmp_user. }
    intros ->. now apply elem_of_nil in Hin.
  - exists [f]. split; [done|]. split; [|done]. apply list_elem_of_split in Hf as (pre & post & Ef). now exists pre, post.
Qed.

Lemma next_to_compact_ok level : level_files v level <> [] ->
  exists f, next_to_compact C vs level = Some f /\ f ∈ level_files v level.
Proof.
  intros Hne. unfold next_to_compact. destruct (List.find _ _) as [f|] eqn:Ef.
  - exists f. split; [done|]. apply find_some in Ef as [Ef _]. now apply list_elem_of_In.
  - destruct (level_files v level) as [|f fs]; [done|]. exists f. split; [done|now left].
Qed.

(** The choice never leaves the arrays. *)
Lemma PickCompaction_ok : pick_ok v ->
  exists oc vs', PickCompaction C max vs = Some (oc, vs') /\
    (forall c, oc = Some c -> compaction_ok v c) /\ vs_current vs' = v /\ length (vs_pointers vs') = kNumLevels.
Proof.
  intros [P1 P2]. unfold PickCompaction.
  assert (Hgo : forall level f, (level + 1 < kNumLevels)%nat -> f ∈ level_files v level ->
    exists oc vs', match (if (level =? 0)%nat
             then let r := GetRange C [f] in GetOverlappingInputs C v 0 (Some r.1) (Some r.2)
             else Some [f]) with
      | None => None
      | Some inputs =>
          match SetupOtherInputs C max vs (make_Compaction max level v inputs) with
          | Some (c, vs) => Some (Some c, vs)
          | None => None
          end
      end = Some (oc, vs') /\ (forall c, oc = Some c -> compaction_ok v c) /\ vs_current vs' = v /\
      length (vs_pointers vs') = kNumLevels).
  { intros level f Hl Hf. destruct (one_input level f Hf) as (ins & Ei & Hfi & Hne). cbv zeta. rewrite Ei.
    destruct (SetupOtherInputs_ok level ins Hl Hfi Hne) as (c & vs' & -> & Hc & _ & Hv & Hp).
    exists (Some c), vs'. split; [done|]. split; [|done]. now intros c' [= <-]. }
  destruct (SFleb _ _).
  - destruct (P1 eq_refl) as (level & -> & Hl & Hne). destruct (Z.ltb_spec (Z.of_nat level) 0); [lia|]. rewrite Nat2Z.id.
    destruct (next_to_compact_ok level Hne) as (f & -> & Hf). now apply Hgo.
  - destruct (file_to_compact_ v) as [f|].
    + destruct (P2 f eq_refl) as (level & -> & Hl & Hf). destruct (Z.ltb_spec (Z.of_nat level) 0); [lia|]. rewrite Nat2Z.id.
      now apply Hgo.
    + exists None, vs. done.
Qed.

Lemma take_until_prefix limit total fs : exists post, fs = take_until limit total fs ++ post.
Proof.
  revert total. induction fs as [|f fs IH]; intros total; cbn [take_until]; [now exists []|].
  destruct (_ <=? _); [now exists fs|]. destruct (IH (u64 (total + f_file_size f))) as (post & Ep).
  exists post. cbn [app]. now f_equal.
Qed.

Lemma CompactRange_ok level begin end_ : (level + 1 < kNumLevels)%nat ->
  bound_valid (valid := valid) (ExtractUserKey <$> begin) -> bound_valid (valid := valid) (ExtractUserKey <$> end_) ->
  exists oc vs', CompactRange C max vs level begin end_ = Some (oc, vs') /\
    (forall c, oc = Some c -> compaction_ok v c /\ level_ c = level) /\ vs_current vs' = v /\
    length (vs_pointers vs') = kNumLevels.
Proof.
  intros Hl Vb Ve. unfold CompactRange.
  destruct (overlapping_inputs_ok v level begin end_ (level_valid v v_ok level) Vb Ve)
    as (b & e & ins & -> & Ei & Vb' & Ve' & _ & _ & H0 & _).
  destruct ins as [|f ins]; [now exists None, vs|]. set (l := f :: ins) in *.
  set (l' := if (0 <? level)%nat then _ else _).
  assert (Hf : first_inputs (C := C) level (level_files v level) l' /\ l' <> []).
  { destruct level as [|level]; subst l'; cbn [Nat.ltb Nat.leb].
    - split; [|done]. split; [|now apply H0]. intros g. rewrite Ei, !list_elem_of_In, filter_In. tauto.
    - destruct (take_until_prefix (MaxFileSizeForLevel max (S level)) 0 l) as (post & Ep).
      destruct (v_ok (S level)) as [Hv Hs].
      destruct (overlap_segment (C := C) (valid := valid) b e (level_files v (S level)) Hv (Hs ltac:(lia)) Vb' Ve') as (pre & post' & Es).
      rewrite <- Ei in Es. split; [|subst l; cbn [take_until]; now destruct (_ <=? _)].
      exists pre, (post ++ post'). rewrite Es at 1. rewrite Ep at 1. now rewrite <- app_assoc. }
  destruct Hf as [Hf Hne]. destruct (SetupOtherInputs_ok level l' Hl Hf Hne) as (c & vs' & -> & Hc & Hlc & Hv & Hp).
  exists (Some c), vs'. split; [done|]. split; [|done]. now intros c' [= <-].
Qed.

End Choice.

(** ** Installing the results *)

Section Install.
Context {C : Comparator} {valid : list Z -> Prop} {CL : ComparatorLaws C valid}.
Notation icmp := (internal_compare C).
Notation ivalid := (internal_valid valid).
Notation file_ok := (file_ok (C := C) (valid := valid)).
Notation newer := (newer (C := C)).

(** Every version of a key has its own sequence number. *)
Definition unique_versions (l : list added) : Prop :=
  forall a b, In a l -> In b l -> Compare (a_key a) (a_key b) = 0 -> a_seq a = a_seq b -> a = b.

Lemma file_ok_shaped f l : file_ok f l -> shaped (C := C) (valid := valid) f.
Proof.
  intros Hf. pose (contents := fun _ : Z => l). change (file_ok f (contents (f_number f))) in Hf.
  destruct (file_bounds contents f Hf) as (V1 & V2 & a & Ha & Ea). split; [done|]. split; [done|].
  rewrite Ea. now apply (file_entry contents).
Qed.

Lemma apart_newer f g lf lg key : file_ok f lf -> file_ok g lg -> unique_versions (lf ++ lg) -> valid key ->
  apart (C := C) f g -> newer key lf lg.
Proof.
  intros Hf Hg Hu Vk Ha a b Ia Ib Ka Kb.
  destruct (file_entry (fun _ => lf) f a Hf Ia) as ([Oa Va] & A1 & A2), (file_entry (fun _ => lg) g b Hg Ib) as ([Ob Vb] & B1 & B2).
  destruct (file_ok_shaped f lf Hf) as (F1 & F2 & _), (file_ok_shaped g lg Hg) as (G1 & G2 & _).
  assert (Eab : Compare (a_key a) (a_key b) = 0).
  { apply (Compare_eq_trans _ key); [done|done|done|done|now apply Compare_eq_sym]. }
  assert (Wa : ivalid (ikey_of a)) by (apply internal_valid_Put; [now apply tag_range|done]).
  assert (Wb : ivalid (ikey_of b)) by (apply internal_valid_Put; [now apply tag_range|done]).
  pose proof (ikey_extract a Oa) as [Xa Ta]. pose proof (ikey_extract b Ob) as [Xb Tb].
  destruct Ha as [Hb|Hd].
  - assert (Hlt : icmp (ikey_of a) (ikey_of b) < 0).
    { apply (icmp_le_lt (C := C) (valid := valid) _ (f_largest f)); [done|done|done|done|].
      now apply (icmp_lt_le (C := C) (valid := valid) _ (f_smallest g)). }
    assert (Hne : a_seq a <> a_seq b).
    { intros Es. rewrite (Hu a b) in Hlt; [|apply in_or_app; now left|apply in_or_app; now right|done|done].
      rewrite (icmp_refl (C := C) (valid := valid)) in Hlt by done. lia. }
    apply internal_compare_lt in Hlt. rewrite Xa, Xb, Ta, Tb in Hlt.
    pose proof (tag_lt a b Oa Ob). lia.
  - exfalso. apply icmp_user in A1, A2, B1, B2. rewrite Xa in A1, A2. rewrite Xb in B1, B2. destruct Hd as [Hd|Hd].
    + assert (Compare (a_key b) (a_key a) < 0); [|apply Compare_eq_sym in Eab; [lia|done|done]].
      apply (Compare_le_lt_trans _ (ExtractUserKey (f_largest g))); [done|apply G2|done|done|].
      apply (Compare_lt_le_trans _ (ExtractUserKey (f_smallest f))); [apply G2|apply F1|done|done|done].
    + assert (Compare (a_key a) (a_key b) < 0); [|lia].
      apply (Compare_le_lt_trans _ (ExtractUserKey (f_largest f))); [done|apply F2|done|done|].
      apply (Compare_lt_le_trans _ (ExtractUserKey (f_smallest g))); [apply F2|apply G1|done|done|done].
Qed.

(** Files in the order of the builder that do not overlap are sorted. *)
Lemma sorted_before l : StronglySorted (file_lt (C := C)) l -> Forall (shaped (C := C) (valid := valid)) l ->
  (forall f g, f ∈ l -> g ∈ l -> f <> g -> before (C := C) f g \/ before (C := C) g f) -> StronglySorted (before (C := C)) l.
Proof.
  induction 1 as [|f l Hs IH Hf]; intros Hv Hd; constructor.
  - apply IH; [now apply List.Forall_inv_tail in Hv|]. intros g h Hg Hh. apply Hd; now right.
  - rewrite Forall_forall in Hf, Hv |- *. intros g Hg. pose proof (Hf g Hg) as Hlt.
    pose proof (Hv f ltac:(now left)) as Vf. pose proof (Hv g ltac:(now right)) as Vg.
    assert (Hne : f <> g) by (intros ->; now apply (file_lt_irrefl (C := C) (valid := valid) g (proj1 Vg))).
    destruct (Hd f g ltac:(now left) ltac:(now right) Hne) as [|Hb]; [done|exfalso].
    destruct (before_le (C := C) (valid := valid) g f Vg Vf Hb) as [Hb' _].
    apply (file_lt_irrefl (C := C) (valid := valid) f (proj1 Vf)).
    apply (file_lt_trans (C := C) (valid := valid) _ g); [apply Vf|apply Vg|apply Vf|done|]. apply file_lt_iff. now left.
Qed.

Lemma sorted_pairs l f g : StronglySorted (before (C := C)) l -> f ∈ l -> g ∈ l -> f <> g ->
  before (C := C) f g \/ before (C := C) g f.
Proof.
  intros Hs Hf Hg Hne. apply list_elem_of_lookup in Hf as [i Hi]. apply list_elem_of_lookup in Hg as [j Hj].
  destruct (Nat.lt_trichotomy i j) as [H|[->|H]].
  - left. now apply (sorted_lookup _ l i j f g Hs).
  - congruence.
  - right. now apply (sorted_lookup _ l j i g f Hs).
Qed.

Context (contents : Z -> list added) (v : Version) (c : Compaction) (outs : list Output).
Hypothesis Hv : version_ok (C := C) (valid := valid) contents v.
Hypothesis Huniq : unique_versions (version_entries contents v).
Hypothesis Hc : compaction_ok (C := C) v c.

(** What a compaction has written: sorted tables of entries of the inputs, in
    files with new numbers. *)
Record outputs_ok : Prop := {
  oo_files o : o ∈ outs -> file_ok (output_file o) (contents (o_number o));
  oo_sorted : StronglySorted (before (C := C)) (map output_file outs);
  oo_entries o a : o ∈ outs -> In a (contents (o_number o)) ->
    exists f, f ∈ inputs_0 c ++ inputs_1 c /\ In a (contents (f_number f));
  oo_numbers : NoDup (map o_number outs ++ numbers (level_files v (level_ c + 1)));
  oo_length : Z.of_nat (length outs + length (level_files v (level_ c + 1))) < 2 ^ 31;
}.
Hypothesis Ho : outputs_ok.

Lemma version_shape level : level_shape (C := C) (valid := valid) level (level_files v level).
Proof.
  split; [|intros Hne; apply (vo_sorted _ _ Hv); lia].
  apply Forall_forall. intros f Hf. apply (file_ok_shaped f (contents (f_number f))). now apply (vo_files _ _ Hv level).
Qed.

Lemma level_in level f : f ∈ level_files v level -> (level < kNumLevels)%nat.
Proof.
  intros Hf. destruct (Nat.lt_ge_cases level kNumLevels) as [|Hge]; [done|]. unfold level_files in Hf.
  rewrite lookup_ge_None_2 in Hf; [now apply elem_of_nil in Hf|]. now rewrite (vo_levels _ _ Hv).
Qed.

Lemma file_entries level f a : f ∈ level_files v level -> In a (contents (f_number f)) -> In a (version_entries contents v).
Proof.
  intros Hf Ha. unfold level_files in Hf. destruct (files_ v !! level) as [fs|] eqn:Efs; [|now apply elem_of_nil in Hf].
  unfold version_entries. apply in_concat. exists (level_entries contents fs). split.
  - apply in_map, list_elem_of_In, list_elem_of_lookup. now exists level.
  - unfold level_entries. apply in_concat. exists (contents (f_number f)). split; [|done].
    apply (in_map (fun f => contents (f_number f))). now apply list_elem_of_In.
Qed.

Lemma input_level f : f ∈ inputs_0 c ++ inputs_1 c ->
  f ∈ inputs_0 c /\ f ∈ level_files v (level_ c) \/ f ∈ inputs_1 c /\ f ∈ level_files v (level_ c + 1).
Proof.
  rewrite elem_of_app. intros [Hf|Hf]; [left; split; [done|]; now apply (co_closed _ _ Hc)|right; split; [done|]].
  rewrite (co_next _ _ Hc) in Hf. unfold overlapping in Hf. rewrite list_elem_of_In, filter_In in Hf. now apply list_elem_of_In.
Qed.

Lemma newer_parts key l1 l2 : (forall a b, In a l1 -> In b l2 -> newer key [a] [b]) -> newer key l1 l2.
Proof. intros H a b Ia Ib. apply (H a b Ia Ib); now left. Qed.

(** The entries of an output are older than those of the files that stay above
    it, *)
Lemma stays_newer i f o key : valid key -> f ∈ level_files v i -> (i <= level_ c)%nat -> (i = level_ c -> f ∉ inputs_0 c) ->
  o ∈ outs -> newer key (contents (f_number f)) (contents (o_number o)).
Proof.
  intros Vk Hf Hi Hnot Hout a b Ia Ib Ka Kb. destruct (oo_entries Ho o b Hout Ib) as (g & Hg & Ig).
  apply input_level in Hg as [[Hg0 Hg]|[Hg0 Hg]].
  - destruct (Nat.eq_dec i (level_ c)) as [->|Hne]; [|apply (vo_deeper _ _ Hv i (level_ c) f g key); [done|lia|done..]].
    apply (apart_newer f g (contents (f_number f)) (contents (f_number g)) key); try done; try now apply (vo_files _ _ Hv (level_ c)).
    + intros x y Hx Hy. apply Huniq; (apply in_app_or in Hx, Hy; destruct Hx, Hy; eauto using file_entries).
    + apply (co_closed _ _ Hc); [done|now apply Hnot|done].
  - apply (vo_deeper _ _ Hv i (level_ c + 1) f g key); [done|lia|done..].
Qed.

(** and newer than those below. *)
Lemma below_older j o g key : valid key -> g ∈ level_files v j -> (level_ c + 1 < j)%nat -> o ∈ outs ->
  newer key (contents (o_number o)) (contents (f_number g)).
Proof.
  intros Vk Hg Hj Hout a b Ia Ib Ka Kb. destruct (oo_entries Ho o a Hout Ia) as (f & Hf & If).
  apply input_level in Hf as [[_ Hf]|[_ Hf]];
    [apply (vo_deeper _ _ Hv (level_ c) j f g key)|apply (vo_deeper _ _ Hv (level_ c + 1) j f g key)]; try done; lia.
Qed.

(** An output lies between the smallest and the largest keys of the inputs. *)
Lemma output_range o : o ∈ outs ->
  exists f g, f ∈ inputs_0 c ++ inputs_1 c /\ g ∈ inputs_0 c ++ inputs_1 c /\
    icmp (f_smallest f) (o_smallest o) <= 0 /\ icmp (o_largest o) (f_largest g) <= 0.
Proof.
  intros Hout. destruct (oo_files Ho o Hout) as [Hva _ (x & Hx & Ex) (y & Hy & Ey)]. cbn [output_file f_smallest f_largest] in Ex, Ey.
  assert (Ix : In x (contents (o_number o))) by (destruct (contents (o_number o)); [done|injection Hx as ->; now left]).
  assert (Iy : In y (contents (o_number o))) by (apply list_elem_of_In; now apply last_Some_elem_of).
  destruct (oo_entries Ho o x Hout Ix) as (f & Hf & If), (oo_entries Ho o y Hout Iy) as (g & Hg & Ig).
  assert (Hin : forall h, h ∈ inputs_0 c ++ inputs_1 c -> file_ok h (contents (f_number h))).
  { intros h Hh. apply input_level in Hh as [[_ Hh]|[_ Hh]]; now apply (vo_files _ _ Hv _ h Hh). }
  exists f, g. split; [done|]. split; [done|]. rewrite Ex, Ey. split.
  - now apply (file_entry contents f x (Hin f Hf)).
  - now apply (file_entry contents g y (Hin g Hg)).
Qed.

(** The outputs and the files of the next level that stay do not overlap. *)
Lemma outputs_apart h o : h ∈ level_files v (level_ c + 1) -> h ∉ inputs_1 c -> o ∈ outs ->
  before (C := C) h (output_file o) \/ before (C := C) (output_file o) h.
Proof.
  intros Hh Hn Hout. destruct (output_range o Hout) as (f & g & Hf & Hg & H1 & H2).
  assert (Hi : inputs_closed (C := C) v (level_ c)
    (MkInputs (inputs_0 c) (inputs_1 c) (GetRange C (inputs_0 c)) (GetRange2 C (inputs_0 c) (inputs_1 c)))).
  { constructor; cbn [in_0 in_1 in_range]; [apply Hc|apply Hc|done|apply Hc]. }
  assert (Hsh : forall x, x ∈ inputs_0 c ++ inputs_1 c -> shaped (C := C) (valid := valid) x).
  { intros x Hx. apply input_level in Hx as [[_ Hx]|[_ Hx]]; pose proof (version_shape) as Hs;
      [destruct (Hs (level_ c)) as [Hs' _]|destruct (Hs (level_ c + 1)%nat) as [Hs' _]]; rewrite Forall_forall in Hs'; now apply Hs'. }
  destruct (version_shape (level_ c + 1)) as [Hsl _]. rewrite Forall_forall in Hsl. destruct (Hsl h Hh) as (V1 & V2 & _).
  destruct (file_ok_shaped _ _ (oo_files Ho o Hout)) as (O1 & O2 & _). cbn [output_file f_smallest f_largest] in O1, O2.
  destruct (next_level_outside v version_shape (level_ c) _ h Hi Hh Hn) as [Hb|Hb]; cbn [in_0 in_1] in Hb.
  - left. unfold before. cbn [output_file f_smallest]. destruct (Hsh f Hf) as (F1 & _).
    now apply (icmp_lt_le (C := C) (valid := valid) _ (f_smallest f)); [..|apply Hb|].
  - right. unfold before. cbn [output_file f_largest]. destruct (Hsh g Hg) as (_ & F1 & _).
    now apply (icmp_le_lt (C := C) (valid := valid) _ (f_largest g)); [..|apply Hb].
Qed.

(** ** The new version *)

Notation edit := (results_edit c outs).

Lemma results_fresh : (forall level, NoDup (numbers (level_files v level))) -> edits_fresh (valid := valid) (level_files v) [edit].
Proof.
  intros Hnd. destruct (results_edit_ok c outs (co_adds _ _ Hc) (co_deletes _ _ Hc)) as (E1 & E2 & E3). cbv zeta in *.
  pose proof (co_level _ _ Hc) as Hl. split.
  - apply List.Forall_cons; [|constructor]. split; [rewrite E1; apply Hc|]. split.
    + apply Forall_forall. intros p Hp. rewrite E3 in Hp. unfold kNumLevels in *. lia.
    + rewrite E2. apply Forall_forall. intros p Hp. apply list_elem_of_fmap in Hp as (o & -> & _). cbn [fst]. unfold kNumLevels in *. lia.
  - intros level. cbn [map concat]. rewrite app_nil_r, (results_adds c outs level (co_adds _ _ Hc) (co_deletes _ _ Hc)).
    destruct (Nat.eqb_spec level (level_ c + 1)) as [->|Hne].
    + split; [unfold numbers; rewrite map_app, !map_map; apply (oo_numbers Ho)|].
      apply List.Forall_cons; [|constructor]. rewrite (results_adds c outs _ (co_adds _ _ Hc) (co_deletes _ _ Hc)), Nat.eqb_refl.
      apply Forall_forall. intros f Hf. apply list_elem_of_fmap in Hf as (g & -> & Hg).
      apply list_elem_of_fmap in Hg as (o & -> & Hout). apply (file_ok_shaped _ _ (oo_files Ho o Hout)).
    + split; [apply Hnd|]. apply List.Forall_cons; [|constructor].
      rewrite (results_adds c outs _ (co_adds _ _ Hc) (co_deletes _ _ Hc)). destruct (Nat.eqb_spec level (level_ c + 1)); [done|constructor].
Qed.

(** The files of a level before and after. *)
Lemma results_level level f : (forall level, NoDup (numbers (level_files v level))) ->
  f ∈ replay level [edit] (level_files v level) <->
    (level = level_ c + 1 /\ exists o, o ∈ outs /\ f = with_seeks (output_file o))%nat \/
    f ∈ level_files v level /\ (level = level_ c -> f ∉ inputs_0 c) /\ (level = level_ c + 1 -> f ∉ inputs_1 c)%nat.
Proof.
  intros Hnd. unfold replay. cbn [fold_left]. rewrite elem_of_app, list_elem_of_filter.
  rewrite (results_adds c outs level (co_adds _ _ Hc) (co_deletes _ _ Hc)),
    (results_deletes c outs level _ (co_adds _ _ Hc) (co_deletes _ _ Hc)).
  assert (Hin : forall ins, (forall g, g ∈ ins -> g ∈ level_files v level) -> f ∈ level_files v level ->
    f_number f ∈ numbers ins -> f ∈ ins).
  { intros ins Hsub Hf Hn. apply list_elem_of_fmap in Hn as (g & Eg & Hg). pose proof (Hnd level) as Hn. unfold numbers in Hn.
    replace f with g; [done|]. specialize (Hsub g Hg). apply list_elem_of_lookup in Hsub as [i Hi].
    apply list_elem_of_lookup in Hf as [j Hj]. assert (i = j); [|congruence].
    apply (NoDup_lookup _ i j (f_number f) Hn); rewrite list_lookup_fmap; [rewrite Hi; cbn; congruence|now rewrite Hj]. }
  assert (Hadd : f ∈ (if (level =? level_ c + 1)%nat then map with_seeks (map output_file outs) else []) <->
    (level = level_ c + 1 /\ exists o, o ∈ outs /\ f = with_seeks (output_file o))%nat).
  { destruct (Nat.eqb_spec level (level_ c + 1)) as [->|Hne]; [|rewrite elem_of_nil; tauto].
    rewrite map_map, list_elem_of_fmap. split; [intros (o & -> & Hx)|intros [_ (o & Hx & ->)]]; eauto. }
  rewrite Hadd. split.
  - intros [[Hn Hf]|Hf]; [right|now left]. split; [done|].
    split; intros -> Hx; apply Hn; [left|right]; (split; [done|now apply list_elem_of_fmap_2]).
  - intros [Hf|(Hf & H1 & H2)]; [now right|left]. split; [|done].
    intros [[-> Hn]|[-> Hn]]; [apply H1|apply H2]; try done; apply Hin; try done; intros g Hg.
    + now apply (co_closed _ _ Hc).
    + destruct (input_level g) as [[_ K]|[_ K]]; [apply elem_of_app; now right| |done].
      rewrite (co_next _ _ Hc) in Hg. unfold overlapping in Hg. rewrite list_elem_of_In, filter_In in Hg. now apply list_elem_of_In.
Qed.

Context (v' : Version) (ptrs : list (list Z)).
Hypothesis Hbase : base_ok (C := C) (valid := valid) v ptrs.
Hypothesis Hlevels : length (files_ v') = kNumLevels.
Hypothesis Hsorted' : forall level, StronglySorted (file_lt (C := C)) (level_files v' level).
Hypothesis Hnumbers' : forall level, NoDup (numbers (level_files v' level)).
Hypothesis Hreplay : forall level f, (level < kNumLevels)%nat ->
  f ∈ level_files v' level <-> f ∈ replay level [edit] (level_files v level).

(** Every file of the new version is an output or was kept. *)
Lemma new_file level f : f ∈ level_files v' level ->
  (level = level_ c + 1 /\ exists o, o ∈ outs /\ f = with_seeks (output_file o))%nat \/
  f ∈ level_files v level /\ (level = level_ c -> f ∉ inputs_0 c) /\ (level = level_ c + 1 -> f ∉ inputs_1 c)%nat.
Proof.
  intros Hf. apply results_level; [apply (ba_numbers _ _ Hbase)|]. apply Hreplay; [|done].
  destruct (Nat.lt_ge_cases level kNumLevels) as [|Hge]; [done|]. unfold level_files in Hf.
  rewrite lookup_ge_None_2 in Hf; [now apply elem_of_nil in Hf|]. now rewrite Hlevels.
Qed.

Lemma new_file_ok level f : f ∈ level_files v' level -> file_ok f (contents (f_number f)).
Proof.
  intros Hf. destruct (new_file level f Hf) as [[_ (o & Hout & ->)]|(Hold & _)]; [|now apply (vo_files _ _ Hv level)].
  destruct (oo_files Ho o Hout) as [A1 A2 A3 A4]. now split.
Qed.

Lemma new_level_sorted level : (1 <= level)%nat -> StronglySorted (before (C := C)) (level_files v' level).
Proof.
  intros Hl. apply sorted_before; [apply Hsorted'| |].
  - apply Forall_forall. intros f Hf. apply (file_ok_shaped _ _ (new_file_ok level f Hf)).
  - intros f g Hf Hg Hne.
    destruct (new_file level f Hf) as [[El (o & Hout & ->)]|(Hof & _ & Hkf)],
      (new_file level g Hg) as [[El' (o' & Hout' & ->)]|(Hog & _ & Hkg)].
    + apply (sorted_pairs _ (output_file o) (output_file o') (oo_sorted Ho));
        [now apply list_elem_of_fmap_2|now apply list_elem_of_fmap_2|congruence].
    + subst level. destruct (outputs_apart g o Hog (Hkg eq_refl) Hout); [now right|now left].
    + subst level. now apply outputs_apart; [|apply Hkf|].
    + apply (sorted_pairs (level_files v level)); [now apply (vo_sorted _ _ Hv)|done|done|done].
Qed.

Lemma new_level_length level : Z.of_nat (length (level_files v' level)) < 2 ^ 31.
Proof.
  assert (Hnd : NoDup (level_files v' level)) by exact (NoDup_fmap_1 f_number _ (Hnumbers' level)).
  destruct (Nat.eq_dec level (level_ c + 1)%nat) as [->|Hne].
  - assert (Hle : (length (level_files v' (level_ c + 1)) <= length (map (fun o => with_seeks (output_file o)) outs ++ level_files v (level_ c + 1)))%nat).
    { apply NoDup_incl_length; [now apply NoDup_ListNoDup|]. intros f Hf. apply list_elem_of_In in Hf.
      apply in_or_app. destruct (new_file _ f Hf) as [[_ (o & Hout & ->)]|(Hold & _)]; [left|right; now apply list_elem_of_In].
      apply in_map_iff. exists o. split; [done|now apply list_elem_of_In]. }
    rewrite length_app, length_map in Hle. pose proof (oo_length Ho). lia.
  - assert (Hle : (length (level_files v' level) <= length (level_files v level))%nat).
    { apply NoDup_incl_length; [now apply NoDup_ListNoDup|]. intros f Hf. apply list_elem_of_In. apply list_elem_of_In in Hf.
      destruct (new_file _ f Hf) as [[-> _]|(Hold & _)]; [|done]. now destruct (Hne eq_refl). }
    pose proof (vo_length _ _ Hv level). lia.
Qed.

Lemma new_version_ok : version_ok (C := C) (valid := valid) contents v'.
Proof.
  split; [done|apply new_file_ok|apply new_level_sorted|apply new_level_length|apply (Hnumbers' 0)| |].
  - intros f g key Vk Hf Hg. destruct (new_file 0 f Hf) as [[Ez _]|(Hof & _)]; [lia|].
    destruct (new_file 0 g Hg) as [[Ez _]|(Hog & _)]; [lia|]. now apply (vo_level0 _ _ Hv).
  - intros i j f g key Vk Hij Hf Hg.
    destruct (new_file i f Hf) as [[El (o & Hout & ->)]|(Hof & Hk0 & _)], (new_file j g Hg) as [[El' (o' & Hout' & ->)]|(Hog & _)].
    + lia.
    + cbn [with_seeks output_file f_number]. apply (below_older j); [done|done|lia|done].
    + cbn [with_seeks output_file f_number]. apply (stays_newer i); [done|done|lia|done|done].
    + now apply (vo_deeper _ _ Hv i j).
Qed.

(** No entry appears that was not there. *)
Lemma new_entries a : In a (version_entries contents v') -> In a (version_entries contents v).
Proof.
  intros Ha. unfold version_entries in Ha. apply in_concat in Ha as (l & Hl & Ha). apply in_map_iff in Hl as (fs & <- & Hfs).
  unfold level_entries in Ha. apply in_concat in Ha as (l & Hl & Ha). apply in_map_iff in Hl as (f & <- & Hf).
  apply list_elem_of_In, list_elem_of_lookup in Hfs as [level Hlev]. apply list_elem_of_In in Hf.
  assert (Hf' : f ∈ level_files v' level) by (unfold level_files; now rewrite Hlev).
  destruct (new_file level f Hf') as [[_ (o & Hout & ->)]|(Hold & _)]; [|now apply (file_entries level f)].
  destruct (oo_entries Ho o a Hout Ha) as (g & Hg & Ig).
  destruct (input_level g Hg) as [[_ Hg']|[_ Hg']]; eapply file_entries; eauto.
Qed.

End Install.

(** ** Compactions keep versions correct *)

Section Compactions.
Context {C : Comparator} {valid : list Z -> Prop} {CL : ComparatorLaws C valid}.
Context {E W : Type} (max : Z).

(** The state of a version set that compactions rely on and keep. *)
Record set_ok (contents : Z -> list added) (v : Version) (ptrs : list (list Z)) : Prop := {
  so_version : version_ok (C := C) (valid := valid) contents v;
  so_unique : unique_versions (C := C) (version_entries contents v);
  so_base : base_ok (C := C) (valid := valid) v ptrs;
  so_pick : pick_ok v;
}.

(** The compactions that the version set hands out. *)
Inductive handed_out (vs : VersionSet E W) : option Compaction -> VersionSet E W -> Prop :=
| handed_picked oc vs' : PickCompaction C max vs = Some (oc, vs') -> handed_out vs oc vs'
| handed_range level begin end_ oc vs' : (level + 1 < kNumLevels)%nat ->
    bound_valid (valid := valid) (ExtractUserKey <$> begin) -> bound_valid (valid := valid) (ExtractUserKey <$> end_) ->
    CompactRange C max vs level begin end_ = Some (oc, vs') -> handed_out vs oc vs'.

Lemma set_ok_shape contents v ptrs : set_ok contents v ptrs ->
  forall level, level_shape (C := C) (valid := valid) level (level_files v level).
Proof. intros H. apply (version_shape contents). apply H. Qed.

Lemma handed_out_ok contents vs c vs' : set_ok contents (vs_current vs) (vs_pointers vs) -> handed_out vs (Some c) vs' ->
  compaction_ok (C := C) (vs_current vs) c /\ vs_current vs' = vs_current vs /\ length (vs_pointers vs') = kNumLevels.
Proof.
  intros Hs H. pose proof (set_ok_shape _ _ _ Hs) as Hsh. pose proof (ba_pointers _ _ (so_base _ _ _ Hs)) as Hp.
  inversion H as [oc vs1 Ep|level b e oc vs1 Hl Vb Ve Er]; subst.
  - destruct (PickCompaction_ok max vs Hsh Hp (so_pick _ _ _ Hs)) as (oc & vs1 & E1 & Hc & Hv & Hp').
    rewrite E1 in Ep. injection Ep as -> ->. split; [now apply Hc|done].
  - destruct (CompactRange_ok max vs Hsh Hp level b e Hl Vb Ve) as (oc & vs1 & E1 & Hc & Hv & Hp').
    rewrite E1 in Er. injection Er as -> ->. split; [now apply Hc|done].
Qed.

Lemma base_ok_pointers v ptrs ptrs' : base_ok (C := C) (valid := valid) v ptrs -> length ptrs' = kNumLevels ->
  base_ok (C := C) (valid := valid) v ptrs'.
Proof. intros [H1 H2 H3 H4 H5] Hl. now constructor. Qed.

Lemma install_results contents v ptrs c outs : set_ok contents v ptrs -> compaction_ok (C := C) v c ->
  outputs_ok (C := C) (valid := valid) contents v c outs ->
  exists v' ptrs', install (C := C) v ptrs (results_edit c outs) = Some (v', ptrs') /\ set_ok contents v' ptrs' /\
    (forall a, In a (version_entries contents v') -> In a (version_entries contents v)) /\
    forall level f, (level < kNumLevels)%nat ->
      f ∈ level_files v' level <-> f ∈ replay level [results_edit c outs] (level_files v level).
Proof.
  intros [Hv Hu Hb Hp] Hc Ho.
  destruct (build_all v ptrs [results_edit c outs] Hb (results_fresh contents v c outs Hc Ho (ba_numbers _ _ Hb)))
    as (b & v' & ptrs' & _ & E2 & _ & _ & Hb' & Hl).
  unfold install_all in E2. cbn [fold_option fst snd] in E2. destruct (install v ptrs (results_edit c outs)) as [[w p]|] eqn:Ei; [|done].
  injection E2 as -> ->. exists v', ptrs'. split; [done|].
  pose proof (new_entries contents v c outs Hc Ho v' ptrs Hb (ba_files _ _ Hb') Hl) as Hent. split; [|done].
  constructor.
  - apply (new_version_ok contents v c outs Hv Hu Hc Ho v' ptrs Hb); try apply Hb'. exact Hl.
  - intros a1 a2 H1 H2. apply Hu; now apply Hent.
  - done.
  - unfold install in Ei. destruct (Apply C _ _) as [b'|]; [|done]. injection Ei as <- _. now apply Finalize_pick.
Qed.

(** C7: Compactions keep the database readable.  From a version on which
    lookups are correct, picking a compaction and compacting a range never index
    outside the levels; and whatever compaction is handed out, if its outputs
    are sorted tables of entries of its inputs in files with new numbers, the
    version that installs them is again one on which lookups are correct: every
    file is what its metadata says, the levels above 0 are sorted and disjoint,
    and of every key the lower levels hold the newer entries.  It also has a
    choice of the next compaction that can be followed, so the argument repeats. *)
Theorem compaction_keeps_version contents (vs : VersionSet E W) : set_ok contents (vs_current vs) (vs_pointers vs) ->
  (exists oc vs', PickCompaction C max vs = Some (oc, vs')) /\
  (forall level begin end_, (level + 1 < kNumLevels)%nat ->
     bound_valid (valid := valid) (ExtractUserKey <$> begin) -> bound_valid (valid := valid) (ExtractUserKey <$> end_) ->
     exists oc vs', CompactRange C max vs level begin end_ = Some (oc, vs')) /\
  forall c vs' outs, handed_out vs (Some c) vs' ->
    outputs_ok (C := C) (valid := valid) contents (vs_current vs) c outs ->
    exists v' ptrs', install (C := C) (vs_current vs') (vs_pointers vs') (results_edit c outs) = Some (v', ptrs') /\
      set_ok contents v' ptrs'.
Proof.
  intros Hs. pose proof (set_ok_shape _ _ _ Hs) as Hsh. pose proof (ba_pointers _ _ (so_base _ _ _ Hs)) as Hp.
  split; [|split].
  - destruct (PickCompaction_ok max vs Hsh Hp (so_pick _ _ _ Hs)) as (oc & vs' & E1 & _). eauto.
  - intros level b e Hl Vb Ve. destruct (CompactRange_ok max vs Hsh Hp level b e Hl Vb Ve) as (oc & vs' & E1 & _). eauto.
  - intros c vs' outs Hh Ho. destruct (handed_out_ok _ _ _ _ Hs Hh) as (Hc & Ev & Hp'). rewrite Ev.
    destruct (install_results contents (vs_current vs) (vs_pointers vs') c outs) as (v' & ptrs' & Ei & Hs' & _); [|done|done|eauto].
    destruct Hs as [H1 H2 H3 H4]. constructor; try done. now apply (base_ok_pointers _ (vs_pointers vs)).
Qed.

End Compactions.

(** ** An example *)

Module CompactionExample.
Notation BC := BytewiseComparator.
Definition l5 : list added := [Added 30 kTypeValue [1] [11]; Added 20 kTypeDeletion [3] []].
Definition l6 : list added := [Added 10 kTypeValue [2] [22]; Added 5 kTypeValue [3] [33]].
Definition l9 : list added := [Added 30 kTypeValue [1] [11]; Added 10 kTypeValue [2] [22]; Added 20 kTypeDeletion [3] []].
(** What remains of both when the deletion is dropped. *)
Definition l10 : list added := [Added 30 kTypeValue [1] [11]; Added 10 kTypeValue [2] [22]].
Definition contents (n : Z) : list added :=
  if n =? 5 then l5 else if n =? 6 then l6 else if n =? 9 then l9 else if n =? 10 then l10 else [].

Definition file (n size : Z) (a b : added) : FileMetaData := MkFile n size (ikey_of a) (ikey_of b) 100.
Definition file5 : FileMetaData := file 5 20000000 (Added 30 kTypeValue [1] [11]) (Added 20 kTypeDeletion [3] []).
Definition file6 : FileMetaData := file 6 1000 (Added 10 kTypeValue [2] [22]) (Added 5 kTypeValue [3] [33]).

(** A level 1 that is over its limit. *)
Definition version : Version := Finalize (MkVersion [[]; [file5]; [file6]; []; []; []; []] None (-1) (double_of (-1)) (-1)).
Definition pointers : list (list Z) := replicate kNumLevels [].
Definition vs : VersionSet unit unit := MkVersionSet tt [] 9 1 30 0 0 None version pointers.
Definition outputs : list Output := [MkOutput 9 500 (ikey_of (Added 30 kTypeValue [1] [11])) (ikey_of (Added 20 kTypeDeletion [3] []))].

Lemma example_lists : Forall (added_valid (valid := is_bytes)) (l5 ++ l6 ++ l9).
Proof. unfold l5, l6, l9. repeat constructor; unfold is_byte; simpl; lia. Qed.

Lemma example_lists_sorted :
  StronglySorted (fun a b => internal_compare BC (ikey_of a) (ikey_of b) < 0) l5 /\
  StronglySorted (fun a b => internal_compare BC (ikey_of a) (ikey_of b) < 0) l6 /\
  StronglySorted (fun a b => internal_compare BC (ikey_of a) (ikey_of b) < 0) l9.
Proof. split; [|split]; repeat constructor. Qed.

Lemma file_good n size a b l : contents n = l -> head l = Some a -> last l = Some b ->
  Forall (added_valid (valid := is_bytes)) l -> StronglySorted (fun a b => internal_compare BC (ikey_of a) (ikey_of b) < 0) l ->
  file_ok (C := BC) (valid := is_bytes) (file n size a b) (contents n).
Proof. intros -> Ha Hb Hv Hs. split; [done|done|now exists a|now exists b]. Qed.

Lemma files_good : file_ok (C := BC) (valid := is_bytes) file5 l5 /\ file_ok (C := BC) (valid := is_bytes) file6 l6 /\
  forall o, o ∈ outputs -> file_ok (C := BC) (valid := is_bytes) (output_file o) (contents (o_number o)).
Proof.
  pose proof example_lists as HA. apply Forall_app in HA as [H5 HA]. apply Forall_app in HA as [H6 H9].
  destruct example_lists_sorted as (S5 & S6 & S9). split; [exact (file_good 5 _ _ _ l5 eq_refl eq_refl eq_refl H5 S5)|].
  split; [exact (file_good 6 _ _ _ l6 eq_refl eq_refl eq_refl H6 S6)|].
  intros o Ho. apply list_elem_of_singleton in Ho as ->. split; [done|done|eexists; split; reflexivity|eexists; split; reflexivity].
Qed.

Lemma example_level_cases level f : f ∈ level_files version level -> (level = 1%nat /\ f = file5) \/ (level = 2%nat /\ f = file6).
Proof.
  unfold version. rewrite Finalize_level. unfold level_files. cbn [files_]. intros Hf.
  destruct level as [|[|[|level]]]; cbn [lookup list_lookup default] in Hf.
  - now apply elem_of_nil in Hf.
  - left. split; [done|]. now apply list_elem_of_singleton in Hf.
  - right. split; [done|]. now apply list_elem_of_singleton in Hf.
  - exfalso. do 4 (destruct level as [|level]; [now apply elem_of_nil in Hf|]). now apply elem_of_nil in Hf.
Qed.

Lemma levels level : level_files version level = match level with 1 => [file5] | 2 => [file6] | _ => [] end%nat.
Proof. unfold version. rewrite Finalize_level. destruct level as [|[|[|[|[|[|[|level]]]]]]]; reflexivity. Qed.

Lemma singleton_sorted (R : FileMetaData -> FileMetaData -> Prop) level : StronglySorted R (level_files version level).
Proof. rewrite levels. destruct level as [|[|[|level]]]; repeat constructor. Qed.

Lemma example_version_good : version_ok (C := BC) (valid := is_bytes) contents version.
Proof.
  destruct files_good as (F5 & F6 & _). split.
  - unfold version. rewrite Finalize_files. reflexivity.
  - intros level f [[-> ->]|[-> ->]]%example_level_cases; [exact F5|exact F6].
  - intros level _. apply singleton_sorted.
  - intros level. rewrite levels. destruct level as [|[|[|level]]]; simpl; lia.
  - rewrite levels. constructor.
  - intros f g key _ [[Ex _]|[Ex _]]%example_level_cases; discriminate Ex.
  - intros i j f g key _ Hij [[-> ->]|[-> ->]]%example_level_cases [[-> ->]|[-> ->]]%example_level_cases; try lia.
    intros a b Ha Hb _ _. assert (15 <= a_seq a /\ a_seq b < 15); [|lia]. split.
    + assert (H : Forall (fun a => 15 <= a_seq a) l5) by (repeat constructor; simpl; lia).
      rewrite List.Forall_forall in H. now apply H.
    + assert (H : Forall (fun a => a_seq a < 15) l6) by (repeat constructor; simpl; lia).
      rewrite List.Forall_forall in H. now apply H.
Qed.

Lemma entries_unique : unique_versions (C := BC) (version_entries contents version).
Proof.
  intros a b Ha Hb _ Hs.
  assert (Hn : NoDup (map a_seq (l5 ++ l6))) by (apply (bool_decide_unpack _); vm_compute; exact I).
  assert (Ev : version_entries contents version = l5 ++ l6).
  { unfold version_entries, version. rewrite Finalize_files. vm_compute. reflexivity. }
  rewrite Ev in Ha, Hb. apply list_elem_of_In, list_elem_of_lookup in Ha as [i Hi]. apply list_elem_of_In, list_elem_of_lookup in Hb as [j Hj].
  assert (i = j); [|congruence]. apply (NoDup_lookup _ i j (a_seq a) Hn); rewrite list_lookup_fmap; [now rewrite Hi|rewrite Hj; cbn; congruence].
Qed.

Lemma state_good : set_ok (C := BC) (valid := is_bytes) contents (vs_current vs) (vs_pointers vs).
Proof.
  split; [apply example_version_good|apply entries_unique| |now apply Finalize_pick].
  cbn [vs vs_current vs_pointers]. constructor.
  - reflexivity.
  - unfold version. rewrite Finalize_files. reflexivity.
  - intros level. apply singleton_sorted.
  - intros level. apply Forall_forall. intros f Hf. apply (file_ok_shaped (C := BC) f (contents (f_number f))).
    now apply (vo_files _ _ example_version_good level).
  - intros level. rewrite levels. destruct level as [|[|[|level]]]; try constructor; apply NoDup_singleton || apply NoDup_nil_2 || idtac.
    all: cbn; repeat constructor; set_solver.
Qed.
End CompactionExample.

Lemma compaction_keeps_version_witness :
  exists c vs' v' ptrs', PickCompaction BytewiseComparator 2097152 CompactionExample.vs = Some (Some c, vs') /\
    level_ c = 1%nat /\
    install (C := BytewiseComparator) (vs_current vs') (vs_pointers vs') (results_edit c CompactionExample.outputs)
      = Some (v', ptrs') /\
    set_ok (C := BytewiseComparator) (valid := is_bytes) CompactionExample.contents v' ptrs'.
Proof.
  destruct (compaction_keeps_version (C := BytewiseComparator) (valid := is_bytes) 2097152 CompactionExample.contents
    CompactionExample.vs CompactionExample.state_good) as ((oc & vs' & E) & _ & H).
  assert (Hc : exists c, oc = Some c /\ level_ c = 1%nat /\ inputs_0 c = [CompactionExample.file5] /\
    inputs_1 c = [CompactionExample.file6]).
  { assert (Ec : fmap (fun p => p.1) (PickCompaction BytewiseComparator 2097152 CompactionExample.vs) = Some oc) by now rewrite E.
    vm_compute in Ec. apply Some_inj in Ec. subst oc. eexists. split; [reflexivity|]. split; [reflexivity|]. split; reflexivity. }
  destruct Hc as (c & -> & El & E0 & E1). exists c, vs'.
  destruct (H c vs' CompactionExample.outputs) as (v' & ptrs' & Ei & Hs); 
    [apply handed_picked; exact E| |exists v', ptrs'; exact (conj E (conj El (conj Ei Hs)))].
  constructor.
  - apply CompactionExample.files_good.
  - repeat constructor.
  - intros o a Ho Ha. apply list_elem_of_singleton in Ho as ->. rewrite E0, E1. cbn [o_number] in Ha.
    change (In a CompactionExample.l9) in Ha. destruct Ha as [<-|[<-|[<-|[]]]].
    + exists CompactionExample.file5. split; [now left|]. now left.
    + exists CompactionExample.file6. split; [right; now left|]. now left.
    + exists CompactionExample.file5. split; [now left|]. right. now left.
  - rewrite El. cbn [vs_current CompactionExample.vs]. rewrite CompactionExample.levels.
    apply (bool_decide_unpack _). vm_compute. exact I.
  - rewrite El. cbn [vs_current CompactionExample.vs]. rewrite CompactionExample.levels. cbn. lia.
Defined.
