(* ===== verification/LvIterator.v ===== *)
(** * leveldb: iterators (include/leveldb/iterator.h, table/iterator_wrapper.h, table/iterator.cc, table/merger.cc)

    The interface that all iterators of the library implement, as a type class
    with the behaviour of a cursor on sorted entries as its law; the wrapper
    that caches the key; and the iterator that merges others. *)
From Stdlib Require Import ZArith Lia Bool String List Sorted.
From stdpp Require Import base list numbers.
From S2P Require Import Prelude LvCoding LvEnv LvComparator LvBlock LvBlockProps LvTable.

(** ** The interface *)

(** [Next], [Prev], [key] and [value] require a valid iterator.  No result
    stands for a violated assertion, a read outside the data or a loop that did
    not end. *)
Class Iter (I : Type) := {
  it_Valid : I -> bool;
  it_SeekToFirst : I -> option I;
  it_SeekToLast : I -> option I;
  it_Seek : I -> list Z -> option I;
  it_Next : I -> option I;
  it_Prev : I -> option I;
  it_key : I -> list Z;
  it_value : I -> list Z;
  it_status : I -> Status;
}.

Definition it_run {I} `{Iter I} (i : I) (op : block_op) : option I :=
  match op with
  | OpFirst => it_SeekToFirst i
  | OpLast => it_SeekToLast i
  | OpNext => if it_Valid i then it_Next i else None
  | OpPrev => if it_Valid i then it_Prev i else None
  | OpSeek target => it_Seek i target
  end.

(** An iterator over sorted entries follows a cursor on them, an index that is
    past the entries when the iterator is not valid. *)
Class IterLaws (C : Comparator) (valid : list Z -> Prop) (I : Type) {It : Iter I} := {
  it_at : I -> list (list Z * list Z) -> nat -> Prop;
  it_at_le i es n : it_at i es n -> (n <= length es)%nat;
  it_at_valid i es n : it_at i es n -> it_Valid i = (n <? length es)%nat;
  it_at_entry i es n k v : it_at i es n -> es !! n = Some (k, v) -> it_key i = k /\ it_value i = v;
  it_at_status i es n : it_at i es n -> it_status i = OK;
  it_at_step i es n op m : it_at i es n -> op_valid valid op -> cursor_op C es n op = Some m ->
    exists i', it_run i op = Some i' /\ it_at i' es m;
}.

(** The law, one operation at a time and for a whole run. *)
Section Steps.
Context {C : Comparator} {valid : list Z -> Prop} {I : Type} {It : Iter I} {IL : IterLaws C valid I}.

Lemma it_first_at i es n : it_at i es n -> exists i', it_SeekToFirst i = Some i' /\ it_at i' es 0.
Proof. intros H. exact (it_at_step i es n OpFirst 0 H Logic.I eq_refl). Qed.

Lemma it_last_at i es n : it_at i es n -> exists i', it_SeekToLast i = Some i' /\ it_at i' es (length es - 1).
Proof. intros H. exact (it_at_step i es n OpLast _ H Logic.I eq_refl). Qed.

Lemma it_seek_at i es n t : it_at i es n -> valid t -> exists i', it_Seek i t = Some i' /\ it_at i' es (first_ge C t es).
Proof. intros H V. exact (it_at_step i es n (OpSeek t) _ H V eq_refl). Qed.

Lemma it_next_at i es n : it_at i es n -> (n < length es)%nat -> exists i', it_Next i = Some i' /\ it_at i' es (S n).
Proof.
  intros H Hn. destruct (it_at_step i es n OpNext (S n) H Logic.I) as (i' & E & H').
  - unfold cursor_op. apply Nat.ltb_lt in Hn. now rewrite Hn.
  - unfold it_run in E. rewrite (it_at_valid _ _ _ H) in E. apply Nat.ltb_lt in Hn. rewrite Hn in E. eauto.
Qed.

Lemma it_prev_at i es n : it_at i es n -> (n < length es)%nat ->
  exists i', it_Prev i = Some i' /\ it_at i' es (match n with O => length es | S m => m end).
Proof.
  intros H Hn. destruct (it_at_step i es n OpPrev (match n with O => length es | S m => m end) H Logic.I) as (i' & E & H').
  - unfold cursor_op. apply Nat.ltb_lt in Hn. now rewrite Hn.
  - unfold it_run in E. rewrite (it_at_valid _ _ _ H) in E. apply Nat.ltb_lt in Hn. rewrite Hn in E. eauto.
Qed.

(** What a user of the iterator sees. *)
Definition it_entry (i : I) : option (list Z * list Z) := if it_Valid i then Some (it_key i, it_value i) else None.

Lemma it_entry_at i es n : it_at i es n -> it_entry i = es !! n.
Proof.
  intros H. unfold it_entry. rewrite (it_at_valid i es n H).
  destruct (Nat.ltb_spec n (length es)) as [Hlt|Hge]; [|now rewrite lookup_ge_None_2].
  destruct (lookup_lt_is_Some_2 es n Hlt) as [[k v] El]. destruct (it_at_entry i es n k v H El) as [-> ->]. now rewrite El.
Qed.

Lemma it_follows ops i es n m : it_at i es n -> Forall (op_valid valid) ops -> run_ops (cursor_op C es) n ops = Some m ->
  exists i', run_ops it_run i ops = Some i' /\ it_status i' = OK /\ it_entry i' = es !! m.
Proof.
  intros H Ho. revert i n H. induction Ho as [|op ops Hop Ho IH]; intros i n H Hr; cbn [run_ops] in *.
  - injection Hr as <-. exists i. split; [done|]. split; [exact (it_at_status i es n H)|exact (it_entry_at i es n H)].
  - destruct (cursor_op C es n op) as [k|] eqn:Ec; [|done]. destruct (it_at_step i es n op k H Hop Ec) as (i' & E & H').
    rewrite E. exact (IH i' k H' Hr).
Qed.
End Steps.

(** ** The iterator of a block *)

#[export] Instance block_iter (C : Comparator) : Iter BlockIter := {
  it_Valid := Block_Valid;
  it_SeekToFirst := Block_SeekToFirst;
  it_SeekToLast := Block_SeekToLast;
  it_Seek := Block_Seek C;
  it_Next := Block_Next;
  it_Prev := Block_Prev;
  it_key := i_key_;
  it_value := Block_value;
  it_status := i_status_;
}.

(** A block that was built from sorted entries. *)
Record block_of {C : Comparator} {valid : list Z -> Prop} (l : list bitem) (ridx : list nat) : Prop := {
  bk_restarts : restarts_ok l ridx;
  bk_prefixes : prefixes [] l;
  bk_items : Forall bitem_ok l;
  bk_size : rs l + 4 * Z.of_nat (length ridx) + 4 < 2 ^ 32;
  bk_sorted : StronglySorted (fun a b => Compare (b_key a) (b_key b) < 0) l;
  bk_valid : Forall (fun i => valid (b_key i)) l;
}.

#[export, refine] Instance block_laws (C : Comparator) (valid : list Z -> Prop) {CL : ComparatorLaws C valid} :
    IterLaws C valid BlockIter (It := block_iter C) := {
  it_at i es n := exists l ridx, block_of (C := C) (valid := valid) l ridx /\ es = map item_entry l /\ at_entry l ridx i n;
}.
Proof.
  - intros i es n (l & ridx & B & -> & A). rewrite length_map. destruct A as [_ [(_ & _ & (it & Hit & _) & _)|(-> & _)]]; [|done].
    apply lookup_lt_Some in Hit. lia.
  - intros i es n (l & ridx & B & -> & A). rewrite length_map. exact (at_entry_valid l ridx (bk_items _ _ B) i n A).
  - intros i es n k v (l & ridx & B & -> & A) Hl. pose proof (at_entry_observe l ridx (bk_items _ _ B) i n A) as Ho.
    rewrite Hl in Ho. unfold observe in Ho. destruct (Block_Valid i); [|done]. injection Ho as E1 E2. now split.
  - intros i es n (l & ridx & B & -> & A). exact (proj1 A).
  - intros i es n op m (l & ridx & B & -> & A) Ho Hc.
    destruct (cursor_step C valid l ridx (bk_restarts _ _ B) (bk_prefixes _ _ B) (bk_items _ _ B) (bk_size _ _ B)
      (bk_sorted _ _ B) (bk_valid _ _ B) i n op m A Ho Hc) as (i' & E & A').
    exists i'. split; [destruct op; exact E|]. now exists l, ridx.
Defined.

(** A new iterator over a built block is not valid yet. *)
Lemma block_iter_fresh (C : Comparator) (valid : list Z -> Prop) (CL : ComparatorLaws C valid) interval entries :
  1 <= interval ->
  StronglySorted (fun a b => Compare a.1 b.1 < 0) entries ->
  Forall (fun e => is_bytes e.1 /\ is_bytes e.2) entries -> Forall (fun e => valid e.1) entries ->
  CurrentSizeEstimate (build_block interval entries) < 2 ^ 32 ->
  exists i, NewIterator (make_Block (buffer_ (BlockBuilder_Finish (build_block interval entries)))) = Iterator i /\
    it_at (C := C) (valid := valid) i entries (length entries).
Proof.
  intros Hint Hs Hb Hv Hsz.
  destruct (build_block_built interval entries Hint) as (l & ridx & B & El).
  pose proof (build_ok interval entries l ridx B El Hb Hsz) as Hl.
  pose proof (bt_ok _ _ _ B) as Hr. pose proof (bt_prefixes _ _ _ B) as Hp.
  assert (Hsize : rs l + 4 * Z.of_nat (length ridx) + 4 < 2 ^ 32).
  { revert Hsz. unfold CurrentSizeEstimate, rs. rewrite (bt_buffer _ _ _ B), (bt_restarts _ _ _ B), length_map. lia. }
  rewrite (Finish_contents _ l ridx B Hsize), (make_Block_contents l ridx) by done.
  exists (make_Iter (contents l ridx) (rs l) (Z.of_nat (length ridx))). split.
  - pose proof (num_restarts_pos l ridx Hr). pose proof (length_contents l ridx) as Elen.
    unfold NewIterator, NumRestarts. cbn [size_ data_ restart_offset_]. rewrite NumRestarts_contents by done. unfold rs in Elen.
    destruct (Z.ltb_spec (Z.of_nat (length (contents l ridx))) 4); [lia|].
    destruct (Z.eqb_spec (Z.of_nat (length ridx)) 0); [lia|done].
  - exists l, ridx. split; [|split; [done|]].
    + constructor; try done; [apply (StronglySorted_map item_entry (fun a b => Compare a.1 b.1 < 0)); now rewrite El|].
      rewrite <- El, List.Forall_map in Hv. done.
    + rewrite <- El, length_map. split; [done|]. right. done.
Qed.

(** ** Wrappers (table/iterator_wrapper.h) *)

(** A pointer to an iterator with its validity and its key. *)
Record IteratorWrapper (I : Type) := MkWrapper {
  w_iter : option I;
  w_valid : bool;
  w_key : list Z;
}.
Arguments MkWrapper {I}. Arguments w_iter {I}. Arguments w_valid {I}. Arguments w_key {I}.

Section Wrapper.
Context {I : Type} {It : Iter I}.

(** [Update] keeps the old key of an iterator that is not valid. *)
Definition wrapper_Update (i : I) (key : list Z) : IteratorWrapper I :=
  MkWrapper (Some i) (it_Valid i) (if it_Valid i then it_key i else key).

Definition make_Wrapper : IteratorWrapper I := MkWrapper None false [].

Definition wrapper_Set (w : IteratorWrapper I) (iter : option I) : IteratorWrapper I :=
  match iter with
  | None => MkWrapper None false (w_key w)
  | Some i => wrapper_Update i (w_key w)
  end.

(** An operation on the iterator, which must be there, and the update. *)
Definition wrapper_do (w : IteratorWrapper I) (f : I -> option I) : option (IteratorWrapper I) :=
  match w_iter w with
  | None => None
  | Some i => match f i with Some i => Some (wrapper_Update i (w_key w)) | None => None end
  end.

#[export] Instance wrapper_iter : Iter (IteratorWrapper I) := {
  it_Valid w := w_valid w;
  it_SeekToFirst w := wrapper_do w it_SeekToFirst;
  it_SeekToLast w := wrapper_do w it_SeekToLast;
  it_Seek w target := wrapper_do w (fun i => it_Seek i target);
  it_Next w := wrapper_do w it_Next;
  it_Prev w := wrapper_do w it_Prev;
  it_key w := w_key w;
  it_value w := match w_iter w with Some i => it_value i | None => [] end;
  it_status w := match w_iter w with Some i => it_status i | None => OK end;
}.

(** A wrapper around an iterator is an iterator over the same entries. *)
Definition wrapper_at {C valid} {IL : IterLaws C valid I} (w : IteratorWrapper I) es n : Prop :=
  exists i, w_iter w = Some i /\ it_at i es n /\ w_valid w = it_Valid i /\ (w_valid w = true -> w_key w = it_key i).

Lemma wrapper_Set_at {C valid} {IL : IterLaws C valid I} (w : IteratorWrapper I) i es n :
  it_at i es n -> wrapper_at (wrapper_Set w (Some i)) es n.
Proof. intros H. exists i. cbn. split; [done|]. split; [done|]. split; [done|]. now intros ->. Qed.

#[export, refine] Instance wrapper_laws {C valid} {IL : IterLaws C valid I} : IterLaws C valid (IteratorWrapper I) := {
  it_at := wrapper_at;
}.
Proof.
  - intros w es n (i & _ & Hi & _). now apply it_at_le in Hi.
  - intros w es n (i & _ & Hi & Ev & _). cbn. rewrite Ev. now apply it_at_valid.
  - intros w es n k v (i & Ei & Hi & Ev & Ek) Hl. cbn. rewrite Ei. destruct (it_at_entry i es n k v Hi Hl) as [<- <-].
    split; [|done]. apply Ek. rewrite Ev, (it_at_valid i es n Hi). apply Nat.ltb_lt. now apply lookup_lt_Some in Hl.
  - intros w es n (i & Ei & Hi & _). cbn. rewrite Ei. now apply (it_at_status i es n).
  - intros w es n op m (i & Ei & Hi & Ev & Ek) Hv Hc. destruct (it_at_step i es n op m Hi Hv Hc) as (i' & Er & Hi').
    exists (wrapper_Update i' (w_key w)). split; [|now apply (wrapper_Set_at w)].
    destruct op; cbn [it_run] in Er |- *; cbn [it_SeekToFirst it_SeekToLast it_Next it_Prev it_Seek it_Valid wrapper_iter];
      unfold wrapper_do; rewrite ?Ei, ?Ev; try (now rewrite Er);
      destruct (it_Valid i); try done; now rewrite Er.
Defined.
End Wrapper.

(** ** Iterators of two kinds *)

#[export] Instance sum_iter {I J} {II : Iter I} {IJ : Iter J} : Iter (I + J) := {
  it_Valid s := match s with inl i => it_Valid i | inr j => it_Valid j end;
  it_SeekToFirst s := match s with inl i => inl <$> it_SeekToFirst i | inr j => inr <$> it_SeekToFirst j end;
  it_SeekToLast s := match s with inl i => inl <$> it_SeekToLast i | inr j => inr <$> it_SeekToLast j end;
  it_Seek s t := match s with inl i => inl <$> it_Seek i t | inr j => inr <$> it_Seek j t end;
  it_Next s := match s with inl i => inl <$> it_Next i | inr j => inr <$> it_Next j end;
  it_Prev s := match s with inl i => inl <$> it_Prev i | inr j => inr <$> it_Prev j end;
  it_key s := match s with inl i => it_key i | inr j => it_key j end;
  it_value s := match s with inl i => it_value i | inr j => it_value j end;
  it_status s := match s with inl i => it_status i | inr j => it_status j end;
}.

#[export, refine] Instance sum_laws {C valid I J} {II : Iter I} {IJ : Iter J} {LI : IterLaws C valid I} {LJ : IterLaws C valid J} :
    IterLaws C valid (I + J) := {
  it_at s es n := match s with inl i => it_at i es n | inr j => it_at j es n end;
}.
Proof.
  - intros [i|j] es n; [exact (it_at_le i es n)|exact (it_at_le j es n)].
  - intros [i|j] es n; [exact (it_at_valid i es n)|exact (it_at_valid j es n)].
  - intros [i|j] es n k v; [exact (it_at_entry i es n k v)|exact (it_at_entry j es n k v)].
  - intros [i|j] es n; [exact (it_at_status i es n)|exact (it_at_status j es n)].
  - intros [i|j] es n op m Ha Hv Hc;
      [destruct (it_at_step i es n op m Ha Hv Hc) as (x & Er & Hx); exists (inl x)
      |destruct (it_at_step j es n op m Ha Hv Hc) as (x & Er & Hx); exists (inr x)]; (split; [|done]);
      destruct op; cbn [it_run] in Er |- *;
      cbn [it_SeekToFirst it_SeekToLast it_Next it_Prev it_Seek it_Valid sum_iter];
      try (now rewrite Er); (destruct (it_Valid i) || destruct (it_Valid j)); try done; now rewrite Er.
Defined.

(** ** The empty iterator, with or without an error (table/iterator.cc) *)

Inductive EmptyIter := NewErrorIterator (s : Status).
Definition NewEmptyIterator : EmptyIter := NewErrorIterator OK.

#[export] Instance empty_iter : Iter EmptyIter := {
  it_Valid _ := false;
  it_SeekToFirst i := Some i;
  it_SeekToLast i := Some i;
  it_Seek i _ := Some i;
  it_Next _ := None;
  it_Prev _ := None;
  it_key _ := [];
  it_value _ := [];
  it_status i := match i with NewErrorIterator s => s end;
}.

#[export, refine] Instance empty_laws C valid : IterLaws C valid EmptyIter := {
  it_at i es n := i = NewEmptyIterator /\ es = [] /\ n = O;
}.
Proof.
  - now intros i es n (-> & -> & ->).
  - now intros i es n (-> & -> & ->).
  - now intros i es n k v (-> & -> & ->).
  - now intros i es n (-> & -> & ->).
  - intros i es n op m (-> & -> & ->) _ Hc. exists NewEmptyIterator.
    destruct op; cbn in Hc |- *; try discriminate; injection Hc as <-; done.
Defined.

(** ** Merging (table/merger.cc) *)

Inductive Direction := kForward | kReverse.

Record MergingIterator (I : Type) := MkMerging {
  children_ : list (IteratorWrapper I);
  current_ : option nat;
  direction_ : Direction;
}.
Arguments MkMerging {I}. Arguments children_ {I}. Arguments current_ {I}. Arguments direction_ {I}.

Section Merging.
Context {I : Type} {It : Iter I} (comparator_ : Comparator).
Notation cmp := (@Compare comparator_).
Notation wrapped := (IteratorWrapper I).

Definition make_MergingIterator (children : list I) : MergingIterator I :=
  MkMerging (map (fun i => wrapper_Set make_Wrapper (Some i)) children) None kForward.

(** An operation on every child. *)
Fixpoint for_children (f : nat -> wrapped -> option wrapped) (n : nat) (children : list wrapped) : option (list wrapped) :=
  match children with
  | [] => Some []
  | c :: children =>
      match f n c with
      | None => None
      | Some c => match for_children f (S n) children with Some cs => Some (c :: cs) | None => None end
      end
  end.

(** The children from [n] on, with the best so far. *)
Fixpoint FindSmallest_loop (n : nat) (children : list wrapped) (smallest : option (nat * wrapped)) : option (nat * wrapped) :=
  match children with
  | [] => smallest
  | child :: children =>
      let smallest :=
        if it_Valid child then
          match smallest with
          | None => Some (n, child)
          | Some (_, s) => if cmp (it_key child) (it_key s) <? 0 then Some (n, child) else smallest
          end
        else smallest in
      FindSmallest_loop (S n) children smallest
  end.
Definition FindSmallest (children : list wrapped) : option nat := fst <$> FindSmallest_loop 0 children None.

(** From the last child to the first; [n] is one more than the index of the
    next. *)
Fixpoint FindLargest_loop (n : nat) (rev_children : list wrapped) (largest : option (nat * wrapped)) : option (nat * wrapped) :=
  match rev_children with
  | [] => largest
  | child :: children =>
      let largest :=
        if it_Valid child then
          match largest with
          | None => Some ((n - 1)%nat, child)
          | Some (_, l) => if 0 <? cmp (it_key child) (it_key l) then Some ((n - 1)%nat, child) else largest
          end
        else largest in
      FindLargest_loop (n - 1) children largest
  end.
Definition FindLargest (children : list wrapped) : option nat := fst <$> FindLargest_loop (length children) (rev children) None.

Definition merging_Valid (m : MergingIterator I) : bool := match current_ m with Some _ => true | None => false end.

(** The current child, when there is one. *)
Definition merging_current (m : MergingIterator I) : option wrapped :=
  match current_ m with Some n => children_ m !! n | None => None end.
Definition merging_key (m : MergingIterator I) : list Z :=
  match merging_current m with Some c => it_key c | None => [] end.
Definition merging_value (m : MergingIterator I) : list Z :=
  match merging_current m with Some c => it_value c | None => [] end.

Definition find_forward (children : list wrapped) : MergingIterator I := MkMerging children (FindSmallest children) kForward.
Definition find_reverse (children : list wrapped) : MergingIterator I := MkMerging children (FindLargest children) kReverse.

Definition merging_SeekToFirst (m : MergingIterator I) : option (MergingIterator I) :=
  find_forward <$> for_children (fun _ c => it_SeekToFirst c) 0 (children_ m).
Definition merging_SeekToLast (m : MergingIterator I) : option (MergingIterator I) :=
  find_reverse <$> for_children (fun _ c => it_SeekToLast c) 0 (children_ m).
Definition merging_Seek (m : MergingIterator I) (target : list Z) : option (MergingIterator I) :=
  find_forward <$> for_children (fun _ c => it_Seek c target) 0 (children_ m).

(** The other children are put after the key, or before it. *)
Definition after_key (key : list Z) (child : wrapped) : option wrapped :=
  match it_Seek child key with
  | None => None
  | Some child => if it_Valid child && (cmp key (it_key child) =? 0) then it_Next child else Some child
  end.
Definition before_key (key : list Z) (child : wrapped) : option wrapped :=
  match it_Seek child key with
  | None => None
  | Some child => if it_Valid child then it_Prev child else it_SeekToLast child
  end.
Definition others (current : nat) (f : wrapped -> option wrapped) (n : nat) (child : wrapped) : option wrapped :=
  if (n =? current)%nat then Some child else f child.

(** One step of the current child. *)
Definition step_current (current : nat) (f : wrapped -> option wrapped) (children : list wrapped) : option (list wrapped) :=
  match children !! current with
  | None => None
  | Some c => match f c with Some c => Some (<[current := c]> children) | None => None end
  end.

Definition merging_Next (m : MergingIterator I) : option (MergingIterator I) :=
  match current_ m with
  | None => None
  | Some current =>
      match (match direction_ m with
             | kForward => Some (children_ m)
             | kReverse => for_children (others current (after_key (merging_key m))) 0 (children_ m)
             end) with
      | None => None
      | Some children => find_forward <$> step_current current it_Next children
      end
  end.

Definition merging_Prev (m : MergingIterator I) : option (MergingIterator I) :=
  match current_ m with
  | None => None
  | Some current =>
      match (match direction_ m with
             | kReverse => Some (children_ m)
             | kForward => for_children (others current (before_key (merging_key m))) 0 (children_ m)
             end) with
      | None => None
      | Some children => find_reverse <$> step_current current it_Prev children
      end
  end.

(** The first status that is not OK, or that of the last child. *)
Fixpoint merging_status (s : Status) (children : list wrapped) : Status :=
  match children with
  | [] => s
  | c :: children => if ok (it_status c) then merging_status (it_status c) children else it_status c
  end.

#[export] Instance merging_iter : Iter (MergingIterator I) := {
  it_Valid := merging_Valid;
  it_SeekToFirst := merging_SeekToFirst;
  it_SeekToLast := merging_SeekToLast;
  it_Seek := merging_Seek;
  it_Next := merging_Next;
  it_Prev := merging_Prev;
  it_key := merging_key;
  it_value := merging_value;
  it_status m := merging_status OK (children_ m);
}.
End Merging.

Definition NewMergingIterator {I} {It : Iter I} (children : list I) : EmptyIter + (I + MergingIterator I) :=
  match children with
  | [] => inl NewEmptyIterator
  | [c] => inr (inl c)
  | _ => inr (inr (make_MergingIterator children))
  end.
