(* ===== verification/LvMergerProps.v ===== *)
(** * leveldb: a merging iterator is an iterator over all entries (theorems about LvIterator)

    The children stand where the cursor cuts the merged entries in two: moving
    forward each is at its first entry behind the cut, moving backward at its
    last entry before it. *)
From Stdlib Require Import ZArith Lia Bool List Sorted.
From stdpp Require Import base list numbers sorting.
From S2P Require Import Prelude LvCoding LvEnv LvComparator LvBlock LvBlockProps LvTableRead LvIterator.

Section Merge.
Context {C : Comparator} {valid : list Z -> Prop} {CL : ComparatorLaws C valid}.
Notation entry := (list Z * list Z)%type.
Definition key_lt (a b : entry) : Prop := Compare a.1 b.1 < 0.

(** [M] is the sorted list of the entries of [ess], whose keys all differ. *)
Record merge_of (ess : list (list entry)) (M : list entry) : Prop := {
  mo_sorted : StronglySorted key_lt M;
  mo_valid : Forall (fun e => valid e.1) M;
  mo_each i es : ess !! i = Some es -> StronglySorted key_lt es;
  mo_elem e : e ∈ M <-> exists i es, ess !! i = Some es /\ e ∈ es;
  mo_apart i j es es' e e' : ess !! i = Some es -> ess !! j = Some es' -> i <> j -> e ∈ es -> e' ∈ es' ->
    Compare e.1 e'.1 <> 0;
}.

(** ** Positions in sorted lists *)

Lemma entry_lt_irrefl e : valid e.1 -> ~ key_lt e e.
Proof. intros V H. unfold key_lt in H. rewrite Compare_refl in H by done. lia. Qed.

Lemma sorted_index_lt l i j a b : Forall (fun e => valid e.1) l -> StronglySorted key_lt l ->
  l !! i = Some a -> l !! j = Some b -> key_lt a b -> (i < j)%nat.
Proof.
  intros Hv Hs Ha Hb Hab. rewrite Forall_lookup in Hv. pose proof (Hv _ _ Ha) as Va. pose proof (Hv _ _ Hb) as Vb.
  destruct (Nat.lt_trichotomy i j) as [|[->|H]]; [done| |].
  - rewrite Ha in Hb. injection Hb as <-. now apply entry_lt_irrefl in Hab.
  - pose proof (sorted_lookup _ l j i b a Hs H Hb Ha) as Hba. unfold key_lt in *.
    pose proof (Compare_antisym _ _ Vb Va). lia.
Qed.

Lemma sorted_index_eq l i j a b : Forall (fun e => valid e.1) l -> StronglySorted key_lt l ->
  l !! i = Some a -> l !! j = Some b -> Compare a.1 b.1 = 0 -> i = j.
Proof.
  intros Hv Hs Ha Hb Hab. rewrite Forall_lookup in Hv. pose proof (Hv _ _ Ha) as Va. pose proof (Hv _ _ Hb) as Vb.
  destruct (Nat.lt_trichotomy i j) as [H|[->|H]]; [|done|].
  - pose proof (sorted_lookup _ l i j a b Hs H Ha Hb) as K. unfold key_lt in K. lia.
  - pose proof (sorted_lookup _ l j i b a Hs H Hb Ha) as K. unfold key_lt in K. apply Compare_eq_sym in Hab; [lia|done|done].
Qed.

Lemma first_ge_iff t l j e : valid t -> Forall (fun e => valid e.1) l -> StronglySorted key_lt l -> l !! j = Some e ->
  (j < first_ge C t l)%nat <-> Compare e.1 t < 0.
Proof.
  intros Vt Hv Hs He. destruct (first_ge_spec C t l) as (_ & Hlt & Hge). split; [intros Hj; now apply (Hlt j)|].
  intros Hlt'. destruct (Nat.lt_ge_cases j (first_ge C t l)) as [|Hj]; [done|exfalso].
  rewrite Forall_lookup in Hv.
  destruct (lookup_lt_is_Some_2 l (first_ge C t l)) as [x Hx]; [apply lookup_lt_Some in He; lia|].
  specialize (Hge x Hx). pose proof (Hv _ _ Hx) as Vx. pose proof (Hv _ _ He) as Ve.
  destruct (Nat.eq_dec j (first_ge C t l)) as [->|Hne]; [rewrite Hx in He; injection He as <-; lia|].
  pose proof (sorted_lookup _ l (first_ge C t l) j x e Hs ltac:(lia) Hx He) as K. unfold key_lt in K.
  assert (Compare x.1 t < 0); [|lia]. apply (Compare_lt_le_trans _ e.1); [done|done|done|done|lia].
Qed.

Lemma elem_take {A} (l : list A) n x : x ∈ take n l <-> exists j, (j < n)%nat /\ l !! j = Some x.
Proof.
  rewrite list_elem_of_lookup. split.
  - intros [j Hj]. apply lookup_take_Some in Hj as [Hj Hlt]. now exists j.
  - intros (j & Hj & Hl). exists j. now apply lookup_take_Some.
Qed.

(** The step back of a cursor. *)
Definition prev_pos (q len : nat) : nat := match q with O => len | S q => q end.

(** ** The cut *)

Context (ess : list (list entry)) (M : list entry) (HM : merge_of ess M).

Definition cut (n : nat) (es : list entry) (p : nat) : Prop :=
  (p <= length es)%nat /\ forall j e, es !! j = Some e -> (j < p)%nat <-> e ∈ take n M.

Lemma es_valid i es : ess !! i = Some es -> Forall (fun e => valid e.1) es.
Proof.
  intros Hi. apply Forall_forall. intros e He. pose proof (mo_valid _ _ HM) as Hv. rewrite Forall_forall in Hv.
  apply Hv, (mo_elem _ _ HM). now exists i, es.
Qed.

Lemma es_in_M i es j e : ess !! i = Some es -> es !! j = Some e -> exists a, M !! a = Some e.
Proof.
  intros Hi Hj. apply list_elem_of_lookup, (mo_elem _ _ HM). exists i, es. split; [done|]. apply list_elem_of_lookup. now exists j.
Qed.

Lemma M_index_unique a b e : M !! a = Some e -> M !! b = Some e -> a = b.
Proof.
  intros Ha Hb. pose proof (mo_valid _ _ HM) as Hv. apply (sorted_index_eq M a b e e Hv (mo_sorted _ _ HM) Ha Hb).
  apply Compare_refl. rewrite Forall_lookup in Hv. now apply (Hv a).
Qed.

Lemma in_take_iff a n e : M !! a = Some e -> e ∈ take n M <-> (a < n)%nat.
Proof.
  intros Ha. rewrite elem_take. split; [|now exists a]. intros (j & Hj & Hl). now rewrite (M_index_unique a j e).
Qed.

Lemma cut_unique n es p q : cut n es p -> cut n es q -> p = q.
Proof.
  intros [Hp Hp'] [Hq Hq']. destruct (Nat.lt_trichotomy p q) as [H|[H|H]]; [|done|]; exfalso.
  - destruct (lookup_lt_is_Some_2 es p) as [e He]; [lia|]. pose proof (Hp' _ _ He). pose proof (Hq' _ _ He). assert (p < p)%nat by tauto. lia.
  - destruct (lookup_lt_is_Some_2 es q) as [e He]; [lia|]. pose proof (Hp' _ _ He). pose proof (Hq' _ _ He). assert (q < q)%nat by tauto. lia.
Qed.

Lemma cut_first es : cut 0 es 0.
Proof. split; [lia|]. intros j e _. rewrite take_0, elem_of_nil. split; [lia|done]. Qed.

Lemma cut_last i es : ess !! i = Some es -> cut (length M) es (length es).
Proof.
  intros Hi. split; [done|]. intros j e Hj. destruct (es_in_M i es j e Hi Hj) as [a Ha]. rewrite (in_take_iff a) by done.
  apply lookup_lt_Some in Hj, Ha. lia.
Qed.

(** Seeking a key cuts the children where it cuts the merged entries. *)
Lemma cut_seek i es t : ess !! i = Some es -> valid t -> cut (first_ge C t M) es (first_ge C t es).
Proof.
  intros Hi Vt. split; [apply first_ge_spec|]. intros j e Hj. destruct (es_in_M i es j e Hi Hj) as [a Ha].
  rewrite (in_take_iff a) by done.
  rewrite (first_ge_iff t es j e Vt (es_valid i es Hi) (mo_each _ _ HM i es Hi) Hj).
  now rewrite (first_ge_iff t M a e Vt (mo_valid _ _ HM) (mo_sorted _ _ HM) Ha).
Qed.

Lemma M_first_ge n e : M !! n = Some e -> first_ge C e.1 M = n.
Proof.
  intros Hn. pose proof (mo_valid _ _ HM) as Hv. pose proof Hv as Hv'. rewrite Forall_lookup in Hv'.
  apply first_ge_intro.
  - intros j x Hj Hx. apply (sorted_lookup _ M j n x e (mo_sorted _ _ HM) Hj Hx Hn).
  - apply lookup_lt_Some in Hn. lia.
  - intros x Hx. rewrite Hn in Hx. injection Hx as <-. rewrite Compare_refl by now apply (Hv' n). lia.
Qed.

Lemma cut_exists i es n : ess !! i = Some es -> (n <= length M)%nat -> exists p, cut n es p.
Proof.
  intros Hi Hn. destruct (decide (n = length M)) as [->|Hne]; [exists (length es); now apply (cut_last i)|].
  destruct (lookup_lt_is_Some_2 M n) as [e He]; [lia|]. exists (first_ge C e.1 es). rewrite <- (M_first_ge n e He) at 1.
  apply (cut_seek i); [done|]. pose proof (mo_valid _ _ HM) as Hv. rewrite Forall_lookup in Hv. now apply (Hv n).
Qed.

(** The next entry is the one at the cut in its own list, and the others are cut
    at the same place. *)
Lemma cut_step_here i es n p e : ess !! i = Some es -> M !! n = Some e -> e ∈ es -> cut n es p ->
  es !! p = Some e /\ cut (S n) es (S p).
Proof.
  intros Hi Hn He [Hp Hcut]. apply list_elem_of_lookup in He as [j Hj].
  assert (Hjp : j = p).
  { destruct (Nat.lt_trichotomy j p) as [H|[H|H]]; [exfalso|done|exfalso].
    - apply (Hcut j e Hj) in H. apply (in_take_iff n n e Hn) in H. lia.
    - destruct (lookup_lt_is_Some_2 es p) as [x Hx]; [apply lookup_lt_Some in Hj; lia|].
      pose proof (sorted_lookup _ es p j x e (mo_each _ _ HM i es Hi) H Hx Hj) as Hlt.
      destruct (es_in_M i es p x Hi Hx) as [a Ha].
      pose proof (sorted_index_lt M a n x e (mo_valid _ _ HM) (mo_sorted _ _ HM) Ha Hn Hlt) as Hlt'.
      assert (p < p)%nat; [|lia]. apply (Hcut p x Hx). now apply (in_take_iff a). }
  subst j. split; [done|]. split; [apply lookup_lt_Some in Hj; lia|].
  intros j x Hx. destruct (es_in_M i es j x Hi Hx) as [a Ha]. rewrite (in_take_iff a) by done.
  specialize (Hcut j x Hx). rewrite (in_take_iff a) in Hcut by done.
  assert (j = p <-> a = n); [|lia]. split; intros ->.
  - rewrite Hj in Hx. injection Hx as <-. now apply (M_index_unique a n e).
  - rewrite Hn in Ha. injection Ha as <-. apply (sorted_index_eq es j p e e (es_valid i es Hi) (mo_each _ _ HM i es Hi) Hx Hj).
    apply Compare_refl. pose proof (mo_valid _ _ HM) as Hv. rewrite Forall_lookup in Hv. now apply (Hv n).
Qed.

Lemma cut_step_other i es n p e : ess !! i = Some es -> M !! n = Some e -> e ∉ es -> cut n es p <-> cut (S n) es p.
Proof.
  intros Hi Hn He. unfold cut. split; intros [Hp Hcut]; (split; [done|]); intros j x Hx; rewrite (Hcut j x Hx);
    destruct (es_in_M i es j x Hi Hx) as [a Ha]; rewrite !(in_take_iff a) by done.
  all: assert (a <> n); [|lia]; intros ->; rewrite Hn in Ha; injection Ha as <-; apply He, list_elem_of_lookup; now exists j.
Qed.

(** What stands at the cut is not before the next entry, what stands before it
    is. *)
Lemma cut_behind i es n p e x : ess !! i = Some es -> M !! n = Some e -> cut n es p -> es !! p = Some x -> e ∉ es -> key_lt e x.
Proof.
  intros Hi Hn [_ Hcut] Hx He. destruct (es_in_M i es p x Hi Hx) as [a Ha].
  specialize (Hcut p x Hx). rewrite (in_take_iff a) in Hcut by done.
  apply (sorted_lookup _ M n a e x (mo_sorted _ _ HM)); [|done|done].
  assert (a <> n); [|lia]. intros ->. rewrite Hn in Ha. injection Ha as <-. apply He, list_elem_of_lookup. now exists p.
Qed.

Lemma cut_before i es n p e x : ess !! i = Some es -> M !! n = Some e -> cut n es (S p) -> es !! p = Some x -> key_lt x e.
Proof.
  intros Hi Hn [_ Hcut] Hx. destruct (es_in_M i es p x Hi Hx) as [a Ha].
  specialize (Hcut p x Hx). rewrite (in_take_iff a) in Hcut by done.
  apply (sorted_lookup _ M a n x e (mo_sorted _ _ HM)); [lia|done|done].
Qed.

(** The list that an entry belongs to. *)
Lemma owner n e : M !! n = Some e -> exists c es, ess !! c = Some es /\ e ∈ es /\
  forall i es', ess !! i = Some es' -> i <> c -> e ∉ es'.
Proof.
  intros Hn. assert (Hin : e ∈ M) by (apply list_elem_of_lookup; now exists n).
  destruct (proj1 (mo_elem _ _ HM e) Hin) as (c & es & Hc & He). exists c, es. split; [done|]. split; [done|].
  intros i es' Hi Hne He'. apply (mo_apart _ _ HM i c es' es e e Hi Hc Hne He' He). apply Compare_refl.
  pose proof (mo_valid _ _ HM) as Hv. rewrite Forall_lookup in Hv. now apply (Hv n).
Qed.

(** ** The children *)

Context {I : Type} {It : Iter I} {IL : IterLaws C valid I}.
Notation WL := (wrapper_laws (IL := IL)).

(** Every child is at a position of its list that satisfies [P]. *)
Definition kids (P : nat -> list entry -> nat -> Prop) (children : list (IteratorWrapper I)) : Prop :=
  length children = length ess /\
  forall i c es, children !! i = Some c -> ess !! i = Some es -> exists p, it_at c es p /\ P i es p.

Lemma kids_impl (P Q : nat -> list entry -> nat -> Prop) children :
  (forall i es p, ess !! i = Some es -> P i es p -> Q i es p) -> kids P children -> kids Q children.
Proof.
  intros H [Hl Hk]. split; [done|]. intros i c es Hc He. destruct (Hk i c es Hc He) as (p & Ha & Hp). exists p. eauto.
Qed.

(** An operation on all children. *)
Lemma for_children_ok (P Q : nat -> list entry -> nat -> Prop) f children :
  kids P children ->
  (forall i c es p, ess !! i = Some es -> it_at c es p -> P i es p -> exists c' p', f i c = Some c' /\ it_at c' es p' /\ Q i es p') ->
  exists children', for_children f 0 children = Some children' /\ kids Q children'.
Proof.
  intros [Hl Hk] Hf.
  assert (H : forall cs n, (forall j c, cs !! j = Some c -> exists es, ess !! (n + j)%nat = Some es /\ exists p, it_at c es p /\ P (n + j)%nat es p) ->
    exists cs', for_children f n cs = Some cs' /\ length cs' = length cs /\
      forall j c' es, cs' !! j = Some c' -> ess !! (n + j)%nat = Some es -> exists p, it_at c' es p /\ Q (n + j)%nat es p).
  { induction cs as [|c cs IH]; intros n H; cbn [for_children]; [exists []; split; [done|]; split; [done|]; intros j c' es Hj; done|].
    destruct (H 0%nat c eq_refl) as (es & He & p & Ha & Hp). rewrite Nat.add_0_r in He, Hp.
    destruct (Hf n c es p He Ha Hp) as (c' & p' & -> & Ha' & Hq).
    destruct (IH (S n)) as (cs' & -> & Hlen & Hcs').
    { intros j x Hj. destruct (H (S j) x Hj) as (es1 & He1 & Hp1). exists es1. rewrite Nat.add_succ_r in He1, Hp1. done. }
    exists (c' :: cs'). split; [done|]. split; [cbn; congruence|]. intros [|j] x es1 Hj He1; cbn in Hj.
    - injection Hj as <-. rewrite Nat.add_0_r in *. rewrite He in He1. injection He1 as <-. eauto.
    - rewrite Nat.add_succ_r in *. now apply (Hcs' j x es1). }
  destruct (H children 0%nat) as (cs' & E & Hlen & Hcs').
  { intros j c Hc. destruct (lookup_lt_is_Some_2 ess j) as [es He]; [apply lookup_lt_Some in Hc; lia|].
    exists es. split; [done|]. now apply (Hk j c es). }
  exists cs'. split; [done|]. split; [lia|]. exact Hcs'.
Qed.

(** One step of one child. *)
Lemma step_current_ok (P Q : nat -> list entry -> nat -> Prop) children c es f :
  kids P children -> ess !! c = Some es ->
  (forall i es p, ess !! i = Some es -> i <> c -> P i es p -> Q i es p) ->
  (forall x p, it_at x es p -> P c es p -> exists x' p', f x = Some x' /\ it_at x' es p' /\ Q c es p') ->
  exists children', step_current c f children = Some children' /\ kids Q children'.
Proof.
  intros [Hl Hk] He Ho Hf. unfold step_current.
  destruct (lookup_lt_is_Some_2 children c) as [x Hx]; [apply lookup_lt_Some in He; lia|]. rewrite Hx.
  destruct (Hk c x es Hx He) as (p & Ha & Hp). destruct (Hf x p Ha Hp) as (x' & p' & -> & Ha' & Hq).
  eexists. split; [reflexivity|]. split; [now rewrite length_insert|]. intros i y es' Hy He'.
  destruct (decide (i = c)) as [->|Hne].
  - rewrite list_lookup_insert_eq in Hy by now apply lookup_lt_Some in Hx. injection Hy as <-. rewrite He in He'. injection He' as <-. eauto.
  - rewrite list_lookup_insert_ne in Hy by done. destruct (Hk i y es' Hy He') as (q & Haq & Hpq). exists q. split; [done|]. now apply Ho.
Qed.

(** ** The search for the next child *)

Lemma FindSmallest_none n children : (forall y, y ∈ children -> it_Valid y = false) ->
  FindSmallest_loop C n children None = None.
Proof.
  revert n. induction children as [|y children IH]; intros n H; cbn [FindSmallest_loop]; [done|].
  rewrite H by now left. apply IH. intros z Hz. apply H. now right.
Qed.

Lemma FindSmallest_kept n children c x :
  (forall y, y ∈ children -> it_Valid y = true -> 0 <= Compare (it_key y) (it_key x)) ->
  FindSmallest_loop C n children (Some (c, x)) = Some (c, x).
Proof.
  revert n. induction children as [|y children IH]; intros n H; cbn [FindSmallest_loop]; [done|].
  destruct (it_Valid y) eqn:Ev.
  - destruct (Z.ltb_spec (Compare (it_key y) (it_key x)) 0); [specialize (H y ltac:(now left) Ev); lia|].
    apply IH. intros z Hz. apply H. now right.
  - apply IH. intros z Hz. apply H. now right.
Qed.

(** The only smallest valid child is found. *)
Lemma FindSmallest_ok n children c x s :
  children !! c = Some x -> it_Valid x = true ->
  (forall j y, children !! j = Some y -> j <> c -> it_Valid y = true -> 0 < Compare (it_key y) (it_key x) /\ Compare (it_key x) (it_key y) < 0) ->
  match s with Some (_, y) => Compare (it_key x) (it_key y) < 0 | None => True end ->
  FindSmallest_loop C n children s = Some ((n + c)%nat, x).
Proof.
  revert n c s. induction children as [|z children IH]; intros n c s Hc Hv Hall Hs; [done|]. cbn [FindSmallest_loop].
  destruct c as [|c]; cbn in Hc.
  - injection Hc as ->. rewrite Hv, Nat.add_0_r.
    replace (match s with None => Some (n, x) | Some (_, s0) => _ end) with (Some (n, x)).
    2:{ destruct s as [[m y]|]; [|done]. destruct (Z.ltb_spec (Compare (it_key x) (it_key y)) 0); [done|lia]. }
    apply FindSmallest_kept. intros y Hy Hvy. apply list_elem_of_lookup in Hy as [j Hj].
    destruct (Hall (S j) y Hj ltac:(lia) Hvy). lia.
  - rewrite Nat.add_succ_r, <- Nat.add_succ_l. apply IH; [done|done| |].
    + intros j y Hj Hne. apply (Hall (S j)); [done|lia].
    + destruct (it_Valid z) eqn:Ez; [|done]. destruct (Hall 0%nat z eq_refl ltac:(lia) Ez) as [H1 H2].
      destruct s as [[m y]|]; [|done]. now destruct (_ <? 0).
Qed.

Lemma FindLargest_none n children : (forall y, y ∈ children -> it_Valid y = false) ->
  FindLargest_loop C n children None = None.
Proof.
  revert n. induction children as [|y children IH]; intros n H; cbn [FindLargest_loop]; [done|].
  rewrite H by now left. apply IH. intros z Hz. apply H. now right.
Qed.

Lemma FindLargest_kept n children c x :
  (forall y, y ∈ children -> it_Valid y = true -> Compare (it_key y) (it_key x) <= 0) ->
  FindLargest_loop C n children (Some (c, x)) = Some (c, x).
Proof.
  revert n. induction children as [|y children IH]; intros n H; cbn [FindLargest_loop]; [done|].
  destruct (it_Valid y) eqn:Ev.
  - destruct (Z.ltb_spec 0 (Compare (it_key y) (it_key x))); [specialize (H y ltac:(now left) Ev); lia|].
    apply IH. intros z Hz. apply H. now right.
  - apply IH. intros z Hz. apply H. now right.
Qed.

Lemma FindLargest_ok n rchildren c x s :
  rchildren !! c = Some x -> it_Valid x = true -> (length rchildren <= n)%nat ->
  (forall j y, rchildren !! j = Some y -> j <> c -> it_Valid y = true -> Compare (it_key y) (it_key x) < 0 /\ 0 < Compare (it_key x) (it_key y)) ->
  match s with Some (_, y) => 0 < Compare (it_key x) (it_key y) | None => True end ->
  FindLargest_loop C n rchildren s = Some ((n - 1 - c)%nat, x).
Proof.
  revert n c s. induction rchildren as [|z rchildren IH]; intros n c s Hc Hv Hn Hall Hs; [done|]. cbn [FindLargest_loop length] in *.
  destruct c as [|c]; cbn in Hc.
  - injection Hc as ->. rewrite Hv, Nat.sub_0_r.
    replace (match s with None => Some ((n - 1)%nat, x) | Some (_, s0) => _ end) with (Some ((n - 1)%nat, x)).
    2:{ destruct s as [[m y]|]; [|done]. destruct (Z.ltb_spec 0 (Compare (it_key x) (it_key y))); [done|lia]. }
    apply FindLargest_kept. intros y Hy Hvy. apply list_elem_of_lookup in Hy as [j Hj].
    destruct (Hall (S j) y Hj ltac:(lia) Hvy). lia.
  - replace (n - 1 - S c)%nat with (n - 1 - 1 - c)%nat by lia. apply IH; [done|done|lia| |].
    + intros j y Hj Hne. apply (Hall (S j)); [done|lia].
    + destruct (it_Valid z) eqn:Ez; [|done]. destruct (Hall 0%nat z eq_refl ltac:(lia) Ez) as [H1 H2].
      destruct s as [[m y]|]; [|done]. now destruct (0 <? _).
Qed.

(** ** The iterator *)

(** Forward, the children are at the cut; backward, one before it. *)
Definition at_cut (n : nat) (_ : nat) (es : list entry) (p : nat) : Prop := cut n es p.
Definition before_cut (n : nat) (_ : nat) (es : list entry) (p : nat) : Prop :=
  exists q, cut n es q /\ p = prev_pos q (length es).
Definition anywhere (_ : nat) (_ : list entry) (_ : nat) : Prop := True.

Definition merging_at (m : MergingIterator I) (n : nat) : Prop :=
  (n <= length M)%nat /\
  match M !! n with
  | None => current_ m = None /\ kids anywhere (children_ m)
  | Some e => exists c es, current_ m = Some c /\ ess !! c = Some es /\ e ∈ es /\
      match direction_ m with
      | kForward => kids (at_cut n) (children_ m)
      | kReverse => kids (before_cut (S n)) (children_ m)
      end
  end.

(** The positions of the current child. *)
Lemma here_forward c es n p e : ess !! c = Some es -> M !! n = Some e -> e ∈ es -> cut n es p -> es !! p = Some e.
Proof. intros Hc Hn He Hp. now destruct (cut_step_here c es n p e Hc Hn He Hp). Qed.

Lemma here_reverse c es n p e : ess !! c = Some es -> M !! n = Some e -> e ∈ es -> before_cut (S n) c es p ->
  cut n es p /\ es !! p = Some e.
Proof.
  intros Hc Hn He (q & Hq & ->). destruct (cut_exists c es n Hc) as [p Hp]; [apply lookup_lt_Some in Hn; lia|].
  destruct (cut_step_here c es n p e Hc Hn He Hp) as [Hl Hp']. now rewrite (cut_unique _ _ _ _ Hq Hp').
Qed.

Lemma other_reverse i es n p e : ess !! i = Some es -> M !! n = Some e -> e ∉ es ->
  before_cut (S n) i es p <-> before_cut n i es p.
Proof.
  intros Hi Hn He. unfold before_cut. split; intros (q & Hq & ->); exists q; (split; [|done]);
    now apply (cut_step_other i es n q e Hi Hn He).
Qed.

Lemma kid_key (c : IteratorWrapper I) es p k v : it_at c es p -> es !! p = Some (k, v) -> it_Valid c = true /\ it_key c = k /\ it_value c = v.
Proof.
  intros Ha Hl. split; [|now apply (it_at_entry (IterLaws := WL) c es p)]. rewrite (it_at_valid (IterLaws := WL) c es p Ha). apply Nat.ltb_lt. now apply lookup_lt_Some in Hl.
Qed.

Lemma kid_valid (c : IteratorWrapper I) es p : it_at c es p -> it_Valid c = true -> exists x, es !! p = Some x /\ it_key c = x.1.
Proof.
  intros Ha Hv. rewrite (it_at_valid (IterLaws := WL) c es p Ha) in Hv. apply Nat.ltb_lt in Hv. destruct (lookup_lt_is_Some_2 es p Hv) as [[k v] Hl].
  exists (k, v). split; [done|]. now apply (it_at_entry (IterLaws := WL) c es p k v).
Qed.

Lemma M_valid n e : M !! n = Some e -> valid e.1.
Proof. intros Hn. pose proof (mo_valid _ _ HM) as Hv. rewrite Forall_lookup in Hv. now apply (Hv n). Qed.

Lemma es_key_valid i es p x : ess !! i = Some es -> es !! p = Some x -> valid x.1.
Proof. intros Hi Hx. pose proof (es_valid i es Hi) as Hv. rewrite Forall_lookup in Hv. now apply (Hv p). Qed.

Lemma forward_at n children : (n <= length M)%nat -> kids (at_cut n) children -> merging_at (find_forward C children) n.
Proof.
  intros Hn Hk. split; [done|]. unfold find_forward, FindSmallest. cbn [current_ children_ direction_].
  destruct (M !! n) as [e|] eqn:En.
  - destruct (owner n e En) as (c & es & Hc & He & Hother). exists c, es. destruct Hk as [Hl Hk].
    destruct (lookup_lt_is_Some_2 children c) as [x Hx]; [apply lookup_lt_Some in Hc; lia|].
    destruct (Hk c x es Hx Hc) as (p & Ha & Hp). pose proof (here_forward c es n p e Hc En He Hp) as Hle. destruct e as [k v].
    destruct (kid_key x es p k v Ha Hle) as (Hvx & Hkx & _). split; [|now split; [|split; [|split]]].
    rewrite (FindSmallest_ok 0 children c x None Hx Hvx); [done| |done].
    intros j y Hy Hne Hvy. destruct (lookup_lt_is_Some_2 ess j) as [es' He']; [apply lookup_lt_Some in Hy; lia|].
    destruct (Hk j y es' Hy He') as (q & Hq & Hcut). destruct (kid_valid y es' q Hq Hvy) as (z & Hz & ->). rewrite Hkx.
    pose proof (cut_behind j es' n q (k, v) z He' En Hcut Hz (Hother j es' He' Hne)) as Hlt. unfold key_lt in Hlt. cbn [fst] in Hlt.
    split; [|done]. apply Compare_antisym in Hlt; [done|apply (M_valid n _ En)|now apply (es_key_valid j es' q)].
  - rewrite FindSmallest_none; [split; [done|]; now apply (kids_impl (at_cut n))|].
    intros y Hy. apply list_elem_of_lookup in Hy as [j Hj]. destruct Hk as [Hl Hk].
    destruct (lookup_lt_is_Some_2 ess j) as [es He]; [apply lookup_lt_Some in Hj; lia|].
    destruct (Hk j y es Hj He) as (p & Ha & Hp). rewrite (it_at_valid (IterLaws := WL) y es p Ha).
    apply lookup_ge_None in En. replace n with (length M) in Hp by lia.
    rewrite (cut_unique _ _ _ _ Hp (cut_last j es He)). apply Nat.ltb_irrefl.
Qed.

Lemma reverse_at m children : (m <= length M)%nat -> kids (before_cut m) children ->
  merging_at (find_reverse C children) (prev_pos m (length M)).
Proof.
  intros Hm Hk. unfold merging_at, find_reverse, FindLargest. cbn [current_ children_ direction_]. destruct Hk as [Hl Hk].
  destruct m as [|n]; cbn [prev_pos].
  - split; [done|]. rewrite lookup_ge_None_2 by done. rewrite FindLargest_none; [split; [done|]; split; [done|]|].
    + intros i c es Hc He. destruct (Hk i c es Hc He) as (p & Ha & _). now exists p.
    + intros y Hy. apply list_elem_of_In, in_rev, list_elem_of_In, list_elem_of_lookup in Hy as [j Hj].
      destruct (lookup_lt_is_Some_2 ess j) as [es He]; [apply lookup_lt_Some in Hj; lia|].
      destruct (Hk j y es Hj He) as (p & Ha & q & Hq & ->). rewrite (it_at_valid (IterLaws := WL) y es _ Ha).
      rewrite (cut_unique _ _ _ _ Hq (cut_first es)). cbn [prev_pos]. apply Nat.ltb_irrefl.
  - split; [lia|]. destruct (lookup_lt_is_Some_2 M n) as [e En]; [lia|]. rewrite En.
    destruct (owner n e En) as (c & es & Hc & He & Hother). exists c, es.
    destruct (lookup_lt_is_Some_2 children c) as [x Hx]; [apply lookup_lt_Some in Hc; lia|].
    destruct (Hk c x es Hx Hc) as (p & Ha & Hp). destruct (here_reverse c es n p e Hc En He Hp) as [Hcp Hle]. destruct e as [k v].
    destruct (kid_key x es p k v Ha Hle) as (Hvx & Hkx & _). split; [|now split; [|split; [|split]]].
    pose proof (lookup_lt_Some _ _ _ Hx) as Hlt.
    rewrite (FindLargest_ok (length children) (rev children) (length children - 1 - c) x None); [cbn; f_equal; lia| |done|rewrite length_rev; lia| |done].
    { rewrite rev_alt. change (rev_append children []) with (reverse children). rewrite reverse_lookup by lia. rewrite <- Hx. f_equal. lia. }
    intros j y Hy Hne Hvy. pose proof (lookup_lt_Some _ _ _ Hy) as Hjl. rewrite length_rev in Hjl.
    rewrite rev_alt in Hy. change (rev_append children []) with (reverse children) in Hy. rewrite reverse_lookup in Hy by lia.
    set (j' := (length children - S j)%nat) in *. assert (Hne' : j' <> c) by lia.
    destruct (lookup_lt_is_Some_2 ess j') as [es' He']; [lia|].
    destruct (Hk j' y es' Hy He') as (q & Hq & Hcut). destruct (kid_valid y es' q Hq Hvy) as (z & Hz & ->). rewrite Hkx.
    pose proof (Hother j' es' He' Hne') as Hnot. apply (other_reverse j' es' n q (k, v) He' En Hnot) in Hcut.
    destruct Hcut as ([|r] & Hr & ->); cbn [prev_pos] in *; [apply lookup_lt_Some in Hz; lia|].
    pose proof (cut_before j' es' n r (k, v) z He' En Hr Hz) as Hlt'. unfold key_lt in Hlt'. cbn [fst] in Hlt'.
    split; [done|]. apply Compare_antisym in Hlt'; [done|now apply (es_key_valid j' es' r)|apply (M_valid n _ En)].
Qed.

(** ** Its operations *)

Lemma kid_step (c : IteratorWrapper I) es n op m : it_at c es n -> op_valid valid op -> cursor_op C es n op = Some m ->
  exists c', it_run c op = Some c' /\ it_at c' es m.
Proof. apply it_at_step. Qed.

(** The cut at the key of the cursor is where [Seek] to it goes. *)
Lemma cut_key i es n e : ess !! i = Some es -> M !! n = Some e -> cut n es (first_ge C e.1 es).
Proof. intros Hi Hn. rewrite <- (M_first_ge n e Hn) at 1. apply (cut_seek i); [done|now apply (M_valid n)]. Qed.

Lemma merging_key_at m n e : merging_at m n -> M !! n = Some e -> merging_key m = e.1 /\ merging_value m = e.2.
Proof.
  intros [Hn Hm] En. rewrite En in Hm. destruct Hm as (c & es & Hc & He & Hin & Hk). destruct e as [k v].
  unfold merging_key, merging_value, merging_current. rewrite Hc.
  assert (Hx : exists x p, children_ m !! c = Some x /\ it_at x es p /\ es !! p = Some (k, v)).
  { assert (Hl : length (children_ m) = length ess) by (destruct (direction_ m); apply Hk).
    destruct (lookup_lt_is_Some_2 (children_ m) c) as [x Hx]; [apply lookup_lt_Some in He; lia|]. exists x.
    destruct (direction_ m); destruct Hk as [_ Hk]; destruct (Hk c x es Hx He) as (p & Ha & Hp); exists p; (split; [done|]); (split; [done|]).
    - now apply (here_forward c es n).
    - now apply (here_reverse c es n). }
  destruct Hx as (x & p & -> & Ha & Hle). now destruct (kid_key x es p k v Ha Hle) as (_ & -> & ->).
Qed.

Lemma seek_forward f op n m : (forall c, f c = it_run c op) -> op_valid valid op -> (n <= length M)%nat ->
  kids anywhere (children_ m) ->
  (forall i es p, ess !! i = Some es -> exists q, cursor_op C es p op = Some q /\ cut n es q) ->
  exists m', find_forward C <$> for_children (fun _ c => f c) 0 (children_ m) = Some m' /\ merging_at m' n.
Proof.
  intros Ef Ho Hn Hk Hcut.
  destruct (for_children_ok anywhere (at_cut n) (fun _ c => f c) (children_ m) Hk) as (cs & -> & Hcs).
  { intros i c es p Hi Ha _. destruct (Hcut i es p Hi) as (q & Eq & Hq). destruct (kid_step c es p op q Ha Ho Eq) as (c' & E' & Ha').
    exists c', q. rewrite Ef. done. }
  eexists. split; [reflexivity|]. now apply forward_at.
Qed.

Lemma kids_all m n : merging_at m n -> kids anywhere (children_ m).
Proof.
  intros [_ Hm]. destruct (M !! n) as [e|]; [|apply Hm]. destruct Hm as (c & es & _ & _ & _ & Hk).
  destruct (direction_ m); revert Hk; now apply kids_impl.
Qed.

Lemma SeekToFirst_at m n : merging_at m n -> exists m', merging_SeekToFirst C m = Some m' /\ merging_at m' 0.
Proof.
  intros Hm. apply (seek_forward it_SeekToFirst OpFirst 0 m); [done|done|lia|now apply (kids_all m n)|].
  intros i es p _. exists 0%nat. split; [done|apply cut_first].
Qed.

Lemma Seek_at m n t : merging_at m n -> valid t -> exists m', merging_Seek C m t = Some m' /\ merging_at m' (first_ge C t M).
Proof.
  intros Hm Vt. apply (seek_forward (fun c => it_Seek c t) (OpSeek t) _ m); [done|done|apply first_ge_spec|now apply (kids_all m n)|].
  intros i es p Hi. exists (first_ge C t es). split; [done|now apply (cut_seek i)].
Qed.

Lemma SeekToLast_at m n : merging_at m n -> exists m', merging_SeekToLast C m = Some m' /\ merging_at m' (length M - 1).
Proof.
  intros Hm. unfold merging_SeekToLast.
  destruct (for_children_ok anywhere (before_cut (length M)) (fun _ c => it_SeekToLast c) (children_ m) (kids_all m n Hm)) as (cs & -> & Hcs).
  { intros i c es p Hi Ha _. destruct (kid_step c es p OpLast (length es - 1) Ha) as (c' & E' & Ha'); [done|done|].
    exists c', (length es - 1)%nat. split; [done|]. split; [done|]. exists (length es). split; [now apply (cut_last i)|].
    destruct (length es); cbn [prev_pos]; lia. }
  eexists. split; [reflexivity|]. replace (length M - 1)%nat with (prev_pos (length M) (length M)); [now apply reverse_at|].
  destruct (length M); cbn [prev_pos]; lia.
Qed.

(** Before the current child steps forward, all children are at the cut. *)
Lemma turn_forward m n e c es : merging_at m n -> M !! n = Some e -> current_ m = Some c -> ess !! c = Some es -> e ∈ es ->
  exists cs, match direction_ m with
             | kForward => Some (children_ m)
             | kReverse => for_children (others c (after_key C (merging_key m))) 0 (children_ m)
             end = Some cs /\ kids (at_cut n) cs.
Proof.
  intros Hm En Ec He Hin. destruct (merging_key_at m n e Hm En) as [Ek _]. destruct Hm as [_ Hm]. rewrite En in Hm.
  destruct Hm as (c' & es' & Ec' & He' & Hin' & Hk). rewrite Ec in Ec'. injection Ec' as <-. destruct (direction_ m); [now exists (children_ m)|].
  apply (for_children_ok (before_cut (S n)) (at_cut n)); [done|]. intros i x esi p Hi Ha Hp. unfold others.
  destruct (Nat.eqb_spec i c) as [->|Hne].
  - exists x, p. split; [done|]. split; [done|]. rewrite He in Hi. injection Hi as <-. now apply (here_reverse c es n p e).
  - rewrite Ek. unfold after_key. destruct (kid_step x esi p (OpSeek e.1) (first_ge C e.1 esi) Ha) as (y & Ey & Hy); [now apply (M_valid n)|done|].
    cbn [it_run] in Ey. rewrite Ey. exists y, (first_ge C e.1 esi). split; [|split; [done|now apply (cut_key i)]].
    destruct (it_Valid y) eqn:Ev; [|done]. destruct (kid_valid y esi _ Hy Ev) as (z & Hz & ->). cbn [andb].
    destruct (Z.eqb_spec (Compare e.1 z.1) 0) as [E0|]; [exfalso|done].
    apply (mo_apart _ _ HM c i es esi e z He Hi); [done|done|apply list_elem_of_lookup; eauto|done].
Qed.

Lemma Next_at m n e : merging_at m n -> M !! n = Some e -> exists m', merging_Next C m = Some m' /\ merging_at m' (S n).
Proof.
  intros Hm En. pose proof Hm as [Hn Hm']. rewrite En in Hm'. destruct Hm' as (c & es & Ec & He & Hin & _).
  unfold merging_Next. rewrite Ec. destruct (turn_forward m n e c es Hm En Ec He Hin) as (cs & -> & Hk).
  destruct (owner n e En) as (c0 & es0 & Hc0 & He0 & Hother).
  assert (c0 = c) as ->. { destruct (Nat.eq_dec c0 c); [done|]. exfalso. now apply (Hother c es He). }
  destruct (step_current_ok (at_cut n) (at_cut (S n)) cs c es it_Next Hk He) as (cs' & -> & Hk').
  - intros i esi p Hi Hne. now apply (cut_step_other i esi n p e Hi En (Hother i esi Hi Hne)).
  - intros x p Ha Hp. destruct (cut_step_here c es n p e He En Hin Hp) as [Hl Hp'].
    pose proof (lookup_lt_Some _ _ _ Hl) as Hlt. destruct (kid_step x es p OpNext (S p) Ha) as (x' & Ex & Hx'); [done|cbn [cursor_op]; now rewrite (proj2 (Nat.ltb_lt _ _) Hlt)|].
    cbn [it_run] in Ex. rewrite (it_at_valid (IterLaws := WL) x es p Ha), (proj2 (Nat.ltb_lt _ _) Hlt) in Ex. now exists x', (S p).
  - eexists. split; [reflexivity|]. apply forward_at; [apply lookup_lt_Some in En; lia|done].
Qed.

(** Before it steps back, the others are before the cut. *)
Definition half_turned (n c : nat) (i : nat) (es : list entry) (p : nat) : Prop :=
  if (i =? c)%nat then cut n es p else before_cut n i es p.

Lemma turn_back m n e c es : merging_at m n -> M !! n = Some e -> current_ m = Some c -> ess !! c = Some es -> e ∈ es ->
  exists cs, match direction_ m with
             | kReverse => Some (children_ m)
             | kForward => for_children (others c (before_key (merging_key m))) 0 (children_ m)
             end = Some cs /\ kids (half_turned n c) cs.
Proof.
  intros Hm En Ec He Hin. destruct (merging_key_at m n e Hm En) as [Ek _]. destruct Hm as [_ Hm]. rewrite En in Hm.
  destruct Hm as (c' & es' & Ec' & He' & Hin' & Hk). rewrite Ec in Ec'. injection Ec' as <-. unfold half_turned. destruct (direction_ m).
  - apply (for_children_ok (at_cut n)); [done|]. intros i x esi p Hi Ha Hp. unfold others.
    destruct (Nat.eqb_spec i c) as [->|Hne]; [now exists x, p|]. rewrite Ek. unfold before_key.
    destruct (kid_step x esi p (OpSeek e.1) (first_ge C e.1 esi) Ha) as (y & Ey & Hy); [now apply (M_valid n)|done|].
    cbn [it_run] in Ey. rewrite Ey. pose proof (cut_key i esi n e Hi En) as Hq. set (q := first_ge C e.1 esi) in *.
    rewrite (it_at_valid (IterLaws := WL) y esi q Hy). pose proof (it_at_le (IterLaws := WL) y esi q Hy) as Hle. destruct (Nat.ltb_spec q (length esi)) as [Hlt|Hge].
    + destruct (kid_step y esi q OpPrev (prev_pos q (length esi)) Hy) as (z & Ez & Hz); [done|cbn [cursor_op]; now rewrite (proj2 (Nat.ltb_lt _ _) Hlt)|].
      cbn [it_run] in Ez. rewrite (it_at_valid (IterLaws := WL) y esi q Hy), (proj2 (Nat.ltb_lt _ _) Hlt) in Ez. exists z, (prev_pos q (length esi)).
      split; [done|]. split; [done|]. now exists q.
    + destruct (kid_step y esi q OpLast (length esi - 1) Hy) as (z & Ez & Hz); [done|done|]. cbn [it_run] in Ez.
      exists z, (length esi - 1)%nat. split; [done|]. split; [done|]. exists q. split; [done|].
      replace q with (length esi) by lia. destruct (length esi); cbn [prev_pos]; lia.
  - exists (children_ m). split; [done|]. revert Hk. apply kids_impl. intros i esi p Hi Hp.
    destruct (Nat.eqb_spec i c) as [->|Hne].
    + rewrite He in Hi. injection Hi as <-. now apply (here_reverse c es n p e).
    + apply (other_reverse i esi n p e Hi En); [|done]. destruct (owner n e En) as (c0 & es0 & Hc0 & He0 & Hother).
      apply (Hother i esi Hi). intros ->. destruct (Nat.eq_dec c c0) as [->|Hne']; [done|]. now apply (Hother c es He Hne').
Qed.

Lemma Prev_at m n e : merging_at m n -> M !! n = Some e -> exists m', merging_Prev C m = Some m' /\ merging_at m' (prev_pos n (length M)).
Proof.
  intros Hm En. pose proof Hm as [Hn Hm']. rewrite En in Hm'. destruct Hm' as (c & es & Ec & He & Hin & _).
  unfold merging_Prev. rewrite Ec. destruct (turn_back m n e c es Hm En Ec He Hin) as (cs & -> & Hk).
  destruct (step_current_ok (half_turned n c) (before_cut n) cs c es it_Prev Hk He) as (cs' & -> & Hk').
  - intros i esi p Hi Hne. unfold half_turned. destruct (Nat.eqb_spec i c); [done|auto].
  - unfold half_turned. rewrite Nat.eqb_refl. intros x p Ha Hp.
    pose proof (lookup_lt_Some _ _ _ (here_forward c es n p e He En Hin Hp)) as Hlt.
    destruct (kid_step x es p OpPrev (prev_pos p (length es)) Ha) as (x' & Ex & Hx'); [done|cbn [cursor_op]; now rewrite (proj2 (Nat.ltb_lt _ _) Hlt)|].
    cbn [it_run] in Ex. rewrite (it_at_valid (IterLaws := WL) x es p Ha), (proj2 (Nat.ltb_lt _ _) Hlt) in Ex. exists x', (prev_pos p (length es)).
    split; [done|]. split; [done|]. now exists p.
  - eexists. split; [reflexivity|]. now apply reverse_at.
Qed.

Lemma merging_status_ok s children : s = OK -> kids anywhere children -> merging_status s children = OK.
Proof.
  intros -> [Hl Hk]. assert (H : forall c, c ∈ children -> it_status c = OK).
  { intros c Hc. apply list_elem_of_lookup in Hc as [j Hj]. destruct (lookup_lt_is_Some_2 ess j) as [es He]; [apply lookup_lt_Some in Hj; lia|].
    destruct (Hk j c es Hj He) as (p & Ha & _). now apply (it_at_status (IterLaws := WL) c es p). }
  clear Hl Hk. induction children as [|c children IH]; [done|]. cbn [merging_status]. rewrite H by now left. cbn [ok].
  apply IH. intros x Hx. apply H. now right.
Qed.

Lemma merging_step m n op n' : merging_at m n -> op_valid valid op -> cursor_op C M n op = Some n' ->
  exists m', it_run (H := merging_iter C) m op = Some m' /\ merging_at m' n'.
Proof.
  intros Hm Ho Hc. assert (Hv : forall e, M !! n = Some e -> merging_Valid m = true).
  { intros e En. destruct Hm as [_ Hm]. rewrite En in Hm. destruct Hm as (c & es & Ec & _). unfold merging_Valid. now rewrite Ec. }
  destruct op; cbn [cursor_op it_run] in *; cbn [it_SeekToFirst it_SeekToLast it_Seek it_Next it_Prev it_Valid merging_iter].
  - injection Hc as <-. now apply (SeekToFirst_at m n).
  - injection Hc as <-. now apply (SeekToLast_at m n).
  - destruct (Nat.ltb_spec n (length M)) as [Hlt|]; [|done]. destruct (lookup_lt_is_Some_2 M n Hlt) as [e En].
    rewrite (Hv e En). injection Hc as <-. now apply (Next_at m n e).
  - destruct (Nat.ltb_spec n (length M)) as [Hlt|]; [|done]. destruct (lookup_lt_is_Some_2 M n Hlt) as [e En].
    rewrite (Hv e En). injection Hc as <-. now apply (Prev_at m n e).
  - injection Hc as <-. now apply (Seek_at m n).
Qed.

Lemma merging_valid_at m n : merging_at m n -> merging_Valid m = (n <? length M)%nat.
Proof.
  intros [Hn Hm]. unfold merging_Valid. destruct (Nat.ltb_spec n (length M)) as [Hlt|Hge].
  - destruct (lookup_lt_is_Some_2 M n Hlt) as [e En]. rewrite En in Hm. destruct Hm as (c & es & -> & _). done.
  - rewrite lookup_ge_None_2 in Hm by done. destruct Hm as [-> _]. done.
Qed.

Lemma make_merging_at children : Forall2 (fun c es => it_at c es (length es)) children ess ->
  merging_at (make_MergingIterator children) (length M).
Proof.
  intros Hf. split; [done|]. rewrite lookup_ge_None_2 by done. split; [done|]. cbn [children_ make_MergingIterator].
  split; [rewrite length_map; now apply Forall2_length in Hf|]. intros i w es Hw He. rewrite list_lookup_fmap in Hw.
  destruct (children !! i) as [c|] eqn:Hc; [|done]. injection Hw as <-. exists (length es). split; [|done].
  exact (wrapper_Set_at make_Wrapper c es (length es) (Forall2_lookup_lr _ _ _ i _ _ Hf Hc He)).
Qed.
End Merge.

(** A merging iterator over iterators that keep their promise keeps it, too. *)
#[export, refine] Instance merging_laws {C valid} {CL : ComparatorLaws C valid} {I} {It : Iter I} {IL : IterLaws C valid I} :
    IterLaws C valid (MergingIterator I) (It := merging_iter C) := {
  it_at m M n := exists ess, merge_of (C := C) (valid := valid) ess M /\ merging_at (C := C) (valid := valid) ess M m n;
}.
Proof.
  - intros m M n (ess & HM & Hn & _). done.
  - intros m M n (ess & HM & Hm). exact (merging_valid_at ess M m n Hm).
  - intros m M n k v (ess & HM & Hm) Hl. exact (merging_key_at ess M HM m n (k, v) Hm Hl).
  - intros m M n (ess & HM & Hm). exact (merging_status_ok ess OK (children_ m) eq_refl (kids_all ess M m n Hm)).
  - intros m M n op n' (ess & HM & Hm) Ho Hc. destruct (merging_step ess M HM m n op n' Hm Ho Hc) as (m' & E & Hm'). exists m'. eauto.
Defined.

(** ** The choice of the iterator *)

Section New.
Context {C : Comparator} {valid : list Z -> Prop} {CL : ComparatorLaws C valid}.
Context {I : Type} {It : Iter I} {IL : IterLaws C valid I}.
Notation entry := (list Z * list Z)%type.

Lemma key_sorted_unique (l1 l2 : list entry) : Forall (fun e => valid e.1) l1 ->
  StronglySorted (key_lt (C := C)) l1 -> StronglySorted (key_lt (C := C)) l2 -> (forall e, e ∈ l1 <-> e ∈ l2) -> l1 = l2.
Proof.
  intros Hv H1 H2 He.
  assert (Hnd : forall l, Forall (fun e : entry => valid e.1) l -> StronglySorted (key_lt (C := C)) l -> NoDup l).
  { intros l Hl Hs. apply NoDup_alt. intros i j e Hi Hj. apply (sorted_index_eq (C := C) (valid := valid) l i j e e Hl Hs Hi Hj).
    apply Compare_refl. rewrite Forall_lookup in Hl. now apply (Hl i). }
  assert (Hv2 : Forall (fun e : entry => valid e.1) l2).
  { rewrite Forall_forall in *. intros e H. now apply Hv, He. }
  apply (StronglySorted_unique_strong (key_lt (C := C))); [|done|done|].
  - intros x y Hx Hy H3 H4. unfold key_lt in *. rewrite Forall_forall in Hv, Hv2.
    apply Compare_antisym in H3; [lia|now apply Hv|now apply Hv2].
  - apply NoDup_Permutation; [now apply Hnd|now apply Hnd|done].
Qed.

(** New iterators over [ess] that are merged are an iterator over [M]. *)
Lemma NewMerging_at children ess M : merge_of (C := C) (valid := valid) ess M ->
  Forall2 (fun c es => it_at c es (length es)) children ess ->
  it_at (It := sum_iter (IJ := sum_iter (IJ := merging_iter C))) (C := C) (valid := valid) (NewMergingIterator children) M (length M).
Proof.
  intros HM Hf. destruct children as [|c [|c' children]].
  - apply Forall2_nil_inv_l in Hf as ->. cbn. split; [done|]. assert (M = []) as ->; [|done].
    destruct M as [|e M]; [done|exfalso]. destruct (proj1 (mo_elem _ _ HM e) ltac:(now left)) as (i & es & Hi & _). done.
  - apply Forall2_cons_inv_l in Hf as (es & ess' & Hc & Hf & ->). apply Forall2_nil_inv_l in Hf as ->. cbn.
    assert (M = es) as ->; [|done]. apply key_sorted_unique; [apply HM|apply HM|now apply (mo_each _ _ HM 0)|].
    intros e. rewrite (mo_elem _ _ HM). split; [|intros He; now exists 0%nat, es].
    intros ([|i] & es' & Hi & He); [now injection Hi as <-|done].
  - exists ess. split; [done|]. now apply make_merging_at.
Qed.

(** C10: Merging iterators whose keys are all different gives the iterator over
    all their entries.  For any children that follow a cursor on their own sorted
    entries, no two of which have the same key in one list or in two (as the
    internal keys of a database, which carry their sequence numbers), the
    iterator made of them (none, the only child, or one that merges) follows a
    cursor on the sorted list of all entries, under any sequence of SeekToFirst,
    SeekToLast, Seek, Next and Prev that the cursor allows, with any change of
    direction in between, and without an error.  With equal keys in two children
    a change of direction loses entries (see [duplicates_lost]). *)
Theorem merging_refines_cursor children ess M ops n : merge_of (C := C) (valid := valid) ess M ->
  Forall2 (fun c es => it_at c es (length es)) children ess -> Forall (op_valid valid) ops ->
  run_ops (cursor_op C M) (length M) ops = Some n ->
  let It' := sum_iter (IJ := sum_iter (IJ := merging_iter C)) in
  exists m, run_ops (it_run (H := It')) (NewMergingIterator children) ops = Some m /\ it_status (Iter := It') m = OK /\
    (if it_Valid (Iter := It') m then Some (it_key (Iter := It') m, it_value (Iter := It') m) else None) = M !! n.
Proof.
  intros HM Hf Ho Hr. cbv zeta. exact (it_follows (It := sum_iter (IJ := sum_iter (IJ := merging_iter C))) ops
    (NewMergingIterator children) M (length M) n (NewMerging_at children ess M HM Hf) Ho Hr).
Qed.

End New.

(** ** An example *)

Module MergeExample.
Definition es1 : list (list Z * list Z) := [([1], [10]); ([4], [40]); ([6], [60])].
Definition es2 : list (list Z * list Z) := [([2], [20]); ([5], [50])].
Definition merged : list (list Z * list Z) := [([1], [10]); ([2], [20]); ([4], [40]); ([5], [50]); ([6], [60])].
Definition ops : list block_op := [OpSeek [3]; OpNext; OpPrev; OpPrev; OpNext; OpNext].

Lemma bytes_entries : Forall (fun e => is_bytes e.1 /\ is_bytes e.2) (es1 ++ es2 ++ merged).
Proof. unfold es1, es2, merged. repeat constructor; unfold is_byte; simpl; lia. Qed.

Lemma each_sorted : StronglySorted (key_lt (C := BytewiseComparator)) es1 /\
  StronglySorted (key_lt (C := BytewiseComparator)) es2 /\ StronglySorted (key_lt (C := BytewiseComparator)) merged.
Proof. split; [|split]; repeat constructor. Qed.

Lemma keys_apart : forall e e', e ∈ es1 -> e' ∈ es2 -> @Compare BytewiseComparator e.1 e'.1 <> 0 /\ @Compare BytewiseComparator e'.1 e.1 <> 0.
Proof.
  assert (H : Forall (fun e => Forall (fun e' => @Compare BytewiseComparator e.1 e'.1 <> 0 /\ @Compare BytewiseComparator e'.1 e.1 <> 0) es2) es1)
    by (repeat constructor; vm_compute; discriminate).
  intros e e' He He'. rewrite Forall_forall in H. specialize (H e He). rewrite Forall_forall in H. now apply H.
Qed.

Lemma example_merge : merge_of (C := BytewiseComparator) (valid := is_bytes) [es1; es2] merged.
Proof.
  pose proof bytes_entries as HB. apply Forall_app in HB as [_ HB]. apply Forall_app in HB as [_ HB]. destruct each_sorted as (S1 & S2 & SM).
  constructor; [done| | | |].
  - eapply Forall_impl; [exact HB|]. now intros e [H _].
  - intros [|[|i]] es Hi; cbn in Hi; [injection Hi as <-|injection Hi as <-|]; done.
  - intros e. transitivity (e ∈ es1 \/ e ∈ es2).
    + unfold merged, es1, es2. rewrite !elem_of_cons, elem_of_nil. tauto.
    + split; [intros [He|He]; [exists 0%nat, es1|exists 1%nat, es2]; done|].
      intros ([|[|i]] & es & Hi & He); cbn in Hi; [injection Hi as <-; now left|injection Hi as <-; now right|done].
  - intros [|[|i]] [|[|j]] es es' e e' Hi Hj Hne He He'; cbn in Hi, Hj; try done; injection Hi as <-; injection Hj as <-.
    + now destruct (keys_apart e e' He He').
    + now destruct (keys_apart e' e He' He).
Qed.
End MergeExample.

Lemma merging_refines_cursor_witness :
  exists i1 i2 m,
    let It' := sum_iter (IJ := sum_iter (IJ := merging_iter BytewiseComparator)) in
    NewIterator (make_Block (buffer_ (BlockBuilder_Finish (build_block 2 MergeExample.es1)))) = Iterator i1 /\
    NewIterator (make_Block (buffer_ (BlockBuilder_Finish (build_block 2 MergeExample.es2)))) = Iterator i2 /\
    run_ops (it_run (H := It')) (NewMergingIterator [i1; i2]) MergeExample.ops = Some m /\
    (if it_Valid (Iter := It') m then Some (it_key (Iter := It') m, it_value (Iter := It') m) else None) = Some ([5], [50]).
Proof.
  pose proof MergeExample.bytes_entries as HB. apply Forall_app in HB as [H1 HB]. apply Forall_app in HB as [H2 _].
  destruct MergeExample.each_sorted as (S1 & S2 & _).
  destruct (block_iter_fresh BytewiseComparator is_bytes bytewise_laws 2 MergeExample.es1) as (i1 & E1 & A1); [lia|exact S1|exact H1| |vm_compute; reflexivity|].
  { eapply Forall_impl; [exact H1|]. now intros e [H _]. }
  destruct (block_iter_fresh BytewiseComparator is_bytes bytewise_laws 2 MergeExample.es2) as (i2 & E2 & A2); [lia|exact S2|exact H2| |vm_compute; reflexivity|].
  { eapply Forall_impl; [exact H2|]. now intros e [H _]. }
  destruct (merging_refines_cursor (C := BytewiseComparator) (valid := is_bytes) [i1; i2] [MergeExample.es1; MergeExample.es2]
    MergeExample.merged MergeExample.ops 3 MergeExample.example_merge) as (m & Er & _ & Eo).
  - apply Forall2_cons_2; [exact A1|]. apply Forall2_cons_2; [exact A2|constructor].
  - unfold MergeExample.ops. repeat constructor; unfold is_byte; lia.
  - vm_compute. reflexivity.
  - exists i1, i2, m. split; [exact E1|]. split; [exact E2|]. split; [exact Er|exact Eo].
Defined.

(** ** Equal keys in two children *)

(** merger.h promises that a key that K children hold is yielded K times.  Going
    back from the last of two equal keys and then forward again, the entry that
    was left is skipped: the iterator is at its end where a cursor on both
    entries is at the second. *)
Lemma duplicates_lost : exists i1 i2 m1 m2 m3,
  let block v := make_Block (buffer_ (BlockBuilder_Finish (build_block 2 [([7], [v])]))) in
  let It' := sum_iter (IJ := sum_iter (IJ := merging_iter BytewiseComparator)) in
  NewIterator (block 1) = Iterator i1 /\ NewIterator (block 2) = Iterator i2 /\
  it_run (H := It') (NewMergingIterator [i1; i2]) OpLast = Some m1 /\
  it_run (H := It') m1 OpPrev = Some m2 /\ it_Valid (Iter := It') m2 = true /\
  it_key (Iter := It') m2 = [7] /\ it_value (Iter := It') m2 = [1] /\
  it_run (H := It') m2 OpNext = Some m3 /\ it_Valid (Iter := It') m3 = false.
Proof. do 5 eexists. repeat (split; [vm_compute; reflexivity|]). vm_compute. reflexivity. Qed.
