(* ===== verification/LvCompactWork.v ===== *)
(** * leveldb: doing a compaction (CompactionState and its functions in db/db_impl.cc)

    The loop that reads the merged inputs, drops the entries that no read can
    see any more and writes the others to new tables.  The input is any
    iterator.  The flag that shuts the database down is an argument, its value
    at each test; flushing a memtable in between, statistics and logging are
    left out.  The file system lives in the version set while no table is being
    written, and in the file of the table otherwise. *)
From Stdlib Require Import ZArith Lia Bool String List SpecFloat.
From stdpp Require Import base list numbers.
From S2P Require Import Prelude LvCoding LvEnv LvLog LvComparator LvDbFormat LvFilename LvBlock LvFilter LvTable LvVersion LvVersionEdit LvBuilder.
From S2P Require Import LvManifest LvCompaction LvIterator.

(** ** What is dropped *)

(** The variables of the loop that follow the user key. *)
Record DropState := MkDrop {
  current_user_key : list Z;
  has_current_user_key : bool;
  last_sequence_for_key : Z;
}.
Definition make_DropState : DropState := MkDrop [] false kMaxSequenceNumber.

Section Drop.
Context (ucmp : Comparator) (smallest_snapshot : Z).

Definition drop_key (c : Compaction) (ds : DropState) (key : list Z) : bool * DropState * Compaction :=
  match ParseInternalKey key with
  | None => (false, make_DropState, c)
  | Some ikey =>
      let ds :=
        if negb (has_current_user_key ds) || negb (@Compare ucmp (user_key ikey) (current_user_key ds) =? 0)
        then MkDrop (user_key ikey) true kMaxSequenceNumber
        else ds in
      let '(drop, c) :=
        if last_sequence_for_key ds <=? smallest_snapshot then (true, c)
        else
          match type ikey with
          | kTypeDeletion =>
              if sequence ikey <=? smallest_snapshot then IsBaseLevelForKey ucmp c (user_key ikey) else (false, c)
          | kTypeValue => (false, c)
          end in
      (drop, MkDrop (current_user_key ds) (has_current_user_key ds) (sequence ikey), c)
  end.

End Drop.

(** ** The tables that are written *)

Record CompactionState (E W : Type) := MkState {
  compaction : Compaction;
  smallest_snapshot : Z;
  outputs : list Output;
  builder : option (TableBuilder (E * W));
  total_bytes : Z;
}.
Arguments MkState {E W}. Arguments compaction {E W}. Arguments smallest_snapshot {E W}. Arguments outputs {E W}.
Arguments builder {E W}. Arguments total_bytes {E W}.

Section Work.
Context {E W R I : Type} {EV : FileEnv E W R} {SR : SequentialFile R} {It : Iter I}.
Context (ucmp : Comparator) (comparator_name : list Z) (options : Options) (max_file_size : Z).
(** The status of [table_cache_->NewIterator] for a file number and size. *)
Context (table_status : E -> Z -> Z -> Status).
Notation VS := (VersionSet E W).
Notation State := (CompactionState E W).
Notation IC := (InternalKeyComparator ucmp).

Definition set_compaction (c : Compaction) (st : State) : State :=
  MkState c (smallest_snapshot st) (outputs st) (builder st) (total_bytes st).
Definition set_builder (b : option (TableBuilder (E * W))) (st : State) : State :=
  MkState (compaction st) (smallest_snapshot st) (outputs st) b (total_bytes st).

Fixpoint update_last (f : Output -> Output) (l : list Output) : list Output :=
  match l with
  | [] => []
  | [o] => [f o]
  | o :: l => o :: update_last f l
  end.

(** A change of the last output. *)
Definition current_output (f : Output -> Output) (st : State) : State :=
  MkState (compaction st) (smallest_snapshot st) (update_last f (outputs st)) (builder st) (total_bytes st).

Definition OpenCompactionOutputFile (st : State) (vs : VS) : Status * State * VS :=
  let '(file_number, vs) := NewFileNumber vs in
  let st := MkState (compaction st) (smallest_snapshot st) (outputs st ++ [MkOutput file_number 0 [] []])
              (builder st) (total_bytes st) in
  let fname := TableFileName (vs_dbname vs) file_number in
  let '(s, file, e) := env_NewWritableFile (vs_env vs) fname in
  let vs := set_env vs e (vs_log vs) in
  match (if ok s then file else None) with
  | Some f => (s, set_builder (Some (make_TableBuilder options (e, f))) st, vs)
  | None => (s, st, vs)
  end.

(** [input_status] is the status of the input iterator. *)
Definition FinishCompactionOutputFile (st : State) (vs : VS) (input_status : Status) : option (Status * State * VS) :=
  match builder st, outputs st !! (length (outputs st) - 1)%nat with
  | Some b, Some out =>
      let output_number := o_number out in
      let current_entries := NumEntries b in
      let b := if ok input_status then TableBuilder_Finish IC options b else TableBuilder_Abandon b in
      let s := if ok input_status then t_status b else input_status in
      let current_bytes := FileSize b in
      let st := current_output (fun o => MkOutput (o_number o) current_bytes (o_smallest o) (o_largest o)) st in
      let st := MkState (compaction st) (smallest_snapshot st) (outputs st) None (u64 (total_bytes st + current_bytes)) in
      let '(e, f) := t_file b in
      let '(s, (e, f)) := if ok s then file_Sync e f else (s, (e, f)) in
      let '(s, (e, f)) := if ok s then file_Close e f else (s, (e, f)) in
      let s := if ok s && (0 <? current_entries) then table_status e output_number current_bytes else s in
      Some (s, st, set_env vs e (vs_log vs))
  | _, _ => None
  end.

(** An entry that is kept. *)
Definition add_entry (st : State) (vs : VS) (input_status : Status) (key value : list Z)
    : option (Status * State * VS) :=
  let '(s, st, vs) :=
    match builder st with None => OpenCompactionOutputFile st vs | Some _ => (OK, st, vs) end in
  if negb (ok s) then Some (s, st, vs)
  else
    match builder st with
    | None => None
    | Some b =>
        let st :=
          if NumEntries b =? 0
          then current_output (fun o => MkOutput (o_number o) (o_file_size o) key (o_largest o)) st else st in
        let st := current_output (fun o => MkOutput (o_number o) (o_file_size o) (o_smallest o) key) st in
        let b := TableBuilder_Add IC options b key value in
        let st := set_builder (Some b) st in
        if max_output_file_size_ (compaction st) <=? FileSize b
        then FinishCompactionOutputFile st vs input_status
        else Some (s, st, vs)
    end.

(** One round of the loop, up to the call of [Next]. *)
Definition compaction_round (st : State) (vs : VS) (ds : DropState) (input_status : Status) (key value : list Z)
    : option (Status * State * VS * DropState) :=
  let '(stop, c) := ShouldStopBefore ucmp max_file_size (compaction st) key in
  let st := set_compaction c st in
  match (match builder st with
         | Some _ => if stop then FinishCompactionOutputFile st vs input_status else Some (OK, st, vs)
         | None => Some (OK, st, vs)
         end) with
  | None => None
  | Some (s, st, vs) =>
      if negb (ok s) then Some (s, st, vs, ds)
      else
        let '(drop, ds, c) := drop_key ucmp (smallest_snapshot st) (compaction st) ds key in
        let st := set_compaction c st in
        if drop then Some (s, st, vs, ds)
        else
          match add_entry st vs input_status key value with
          | Some (s, st, vs) => Some (s, st, vs, ds)
          | None => None
          end
  end.

(** [n] counts the tests of [shutting_down_]. *)
Fixpoint compaction_loop (fuel : nat) (shutting_down : nat -> bool) (n : nat) (input : I) (st : State) (vs : VS)
    (ds : DropState) : option (Status * I * State * VS) :=
  match fuel with
  | O => None
  | S fuel =>
      if it_Valid input && negb (shutting_down n) then
        match compaction_round st vs ds (it_status input) (it_key input) (it_value input) with
        | None => None
        | Some (s, st, vs, ds) =>
            if negb (ok s) then Some (s, input, st, vs)
            else
              match it_Next input with
              | None => None
              | Some input => compaction_loop fuel shutting_down (S n) input st vs ds
              end
        end
      else Some (OK, input, st, vs)
  end.

(** [InstallCompactionResults] *)
Definition InstallCompactionResults (st : State) (vs : VS) : option (Status * VS) :=
  match LogAndApply ucmp comparator_name vs (results_edit (compaction st) (outputs st)) with
  | Some (s, _, vs) => Some (s, vs)
  | None => None
  end.

(** The work up to the installation.  [last_test] is what [shutting_down_] is
    after the loop. *)
Definition write_outputs (fuel : nat) (shutting_down : nat -> bool) (last_test : bool) (snapshot : Z)
    (c : Compaction) (input : I) (vs : VS) : option (Status * State * VS) :=
  let st := MkState c snapshot [] None 0 in
  match it_SeekToFirst input with
  | None => None
  | Some input =>
      match compaction_loop fuel shutting_down 0 input st vs make_DropState with
      | None => None
      | Some (s, input, st, vs) =>
          let s := if ok s && last_test then IOError "Deleting DB during compaction" else s in
          match (if ok s then
                   match builder st with
                   | Some _ => FinishCompactionOutputFile st vs (it_status input)
                   | None => Some (s, st, vs)
                   end
                 else Some (s, st, vs)) with
          | None => None
          | Some (s, st, vs) => Some (if ok s then it_status input else s, st, vs)
          end
      end
  end.

Definition DoCompactionWork (fuel : nat) (shutting_down : nat -> bool) (last_test : bool) (oldest_snapshot : option Z)
    (c : Compaction) (input : I) (vs : VS) : option (Status * State * VS) :=
  let snapshot := match oldest_snapshot with Some s => s | None => last_sequence vs end in
  match write_outputs fuel shutting_down last_test snapshot c input vs with
  | None => None
  | Some (s, st, vs) =>
      if ok s then
        match InstallCompactionResults st vs with
        | Some (s, vs) => Some (s, st, vs)
        | None => None
        end
      else Some (s, st, vs)
  end.

End Work.
