(* ===== verification/LvDropProps.v ===== *)
(** * leveldb: a compaction drops only what no read can see (theorems about LvCompactWork)

    Which entries of the merged inputs are dropped, and that dropping them
    changes no read at a snapshot that is still in use. *)
From Stdlib Require Import ZArith Lia Bool List Sorted SpecFloat.
From stdpp Require Import base list gmap numbers sorting.
From S2P Require Import Prelude LvCoding LvEnv LvComparator LvDbFormat LvMemTable LvMemTableProps LvTableRead.
From S2P Require Import LvVersion LvVersionProps LvOverlap LvVersionEdit LvBuilder LvBuilderProps LvManifest LvCompaction.
From S2P Require Import LvCompactionProps LvCompactionInstall LvCompactWork LvTableCache.

(** The entries that are kept. *)
Section Keep.
Context (C : Comparator) (ss : Z).

Fixpoint keep_entries (c : Compaction) (ds : DropState) (l : list added) : list added :=
  match l with
  | [] => []
  | a :: l =>
      let '(drop, ds, c) := drop_key C ss c ds (ikey_of a) in
      if drop then keep_entries c ds l else a :: keep_entries c ds l
  end.
End Keep.

Section Drop.
Context {C : Comparator} {valid : list Z -> Prop} {CL : ComparatorLaws C valid}.
Notation entries_ok := (LvTableCache.entries_ok (C := C) (valid := valid)).
Notation same_key := (LvTableCache.same_key (C := C)).
Notation icmp := (internal_compare C).
Notation ivalid := (internal_valid valid).
Notation start_of := (fun f => ExtractUserKey (f_smallest f)).
Notation limit_of := (fun f => ExtractUserKey (f_largest f)).
Context (ss : Z) (v : Version).
Hypothesis v_shape : forall level, level_shape (C := C) (valid := valid) level (level_files v level).

(** ** Base levels *)

(** No file below the outputs has the user key in its range. *)
Definition base_key (level : nat) (k : list Z) : Prop :=
  forall lvl f, (level + 2 <= lvl < kNumLevels)%nat -> f ∈ level_files v lvl ->
    Compare k (start_of f) < 0 \/ Compare (limit_of f) k < 0.

(** The files that the pointers have passed end before the key. *)
Definition passed (ptrs : list nat) (k : list Z) : Prop :=
  length ptrs = kNumLevels /\
  forall lvl j f, (j < default 0%nat (ptrs !! lvl))%nat -> level_files v lvl !! j = Some f -> Compare (limit_of f) k < 0.

Lemma file_shape level f : f ∈ level_files v level -> shaped (C := C) (valid := valid) f.
Proof. intros Hf. destruct (v_shape level) as [H _]. rewrite Forall_forall in H. now apply H. Qed.

Lemma passed_more ptrs k k' : valid k -> valid k' -> Compare k k' <= 0 -> passed ptrs k -> passed ptrs k'.
Proof.
  intros V V' Hle [Hl Hp]. split; [done|]. intros lvl j f Hj Hf.
  destruct (file_shape lvl f) as (_ & [_ VL] & _); [apply list_elem_of_lookup; eauto|].
  apply (Compare_lt_le_trans _ k); [done|done|done|now apply (Hp lvl j)|done].
Qed.

(** The scan of a level from a pointer that has passed only files before the
    key. *)
Lemma scan_level_ok lvl k ptr hit ptr' : valid k -> lvl <> 0%nat -> (ptr <= length (level_files v lvl))%nat ->
  (forall j f, (j < ptr)%nat -> level_files v lvl !! j = Some f -> Compare (limit_of f) k < 0) ->
  scan_level C k (drop ptr (level_files v lvl)) ptr = (hit, ptr') ->
  (forall j f, (j < ptr')%nat -> level_files v lvl !! j = Some f -> Compare (limit_of f) k < 0) /\
  (hit = false -> forall f, f ∈ level_files v lvl -> Compare k (start_of f) < 0 \/ Compare (limit_of f) k < 0).
Proof.
  intros Vk Hne. remember (drop ptr (level_files v lvl)) as files eqn:Ef. revert ptr Ef.
  induction files as [|f files IH]; intros ptr Ef Hptr Hp; cbn [scan_level].
  - intros [= <- <-]. split; [done|]. intros _ f Hf. right. apply list_elem_of_lookup in Hf as [j Hj]. apply (Hp j); [|done].
    apply lookup_lt_Some in Hj. assert (length (drop ptr (level_files v lvl)) = 0%nat) by now rewrite <- Ef. rewrite length_drop in *. lia.
  - assert (Hf : level_files v lvl !! ptr = Some f).
    { rewrite <- (Nat.add_0_r ptr), <- lookup_drop, <- Ef. done. }
    destruct (file_shape lvl f) as ([_ V1] & [_ V2] & _); [apply list_elem_of_lookup; eauto|].
    destruct (Z.leb_spec (Compare k (limit_of f)) 0) as [Hle|Hgt].
    + intros [= <- <-]. split; [done|]. intros Hhit g Hg. apply Z.leb_gt in Hhit.
      apply list_elem_of_lookup in Hg as [j Hj]. destruct (Nat.lt_ge_cases j ptr) as [Hlt|Hge]; [right; now apply (Hp j)|left].
      destruct (Nat.eq_dec j ptr) as [->|Hne']; [rewrite Hf in Hj; now injection Hj as <-|].
      destruct (v_shape lvl) as [_ Hs]. pose proof (sorted_lookup _ _ ptr j f g (Hs Hne) ltac:(lia) Hf Hj) as Hb.
      destruct (before_le (C := C) (valid := valid) f g) as [Hb' _]; [apply (file_shape lvl), list_elem_of_lookup; eauto|apply (file_shape lvl), list_elem_of_lookup; eauto|done|].
      destruct (file_shape lvl g) as ([_ W1] & _); [apply list_elem_of_lookup; eauto|].
      apply (Compare_lt_le_trans _ (start_of f)); [done|done|done|done|apply icmp_user; lia].
    + apply (IH (S ptr)); [|apply lookup_lt_Some in Hf; lia|].
      * rewrite <- Nat.add_1_r, <- drop_drop, <- Ef. done.
      * intros j g Hj Hg. destruct (Nat.eq_dec j ptr) as [->|]; [|apply (Hp j); [lia|done]].
        rewrite Hf in Hg. injection Hg as <-. apply (Compare_antisym _ _ V2 Vk). lia.
Qed.

Lemma base_level_loop_ok n lvl ptrs k hit ptrs' : valid k -> (1 <= lvl)%nat -> (lvl + n <= kNumLevels)%nat ->
  (forall l, (default 0%nat (ptrs !! l) <= length (level_files v l))%nat) -> passed ptrs k ->
  base_level_loop C n lvl v k ptrs = (hit, ptrs') ->
  (forall l, (default 0%nat (ptrs' !! l) <= length (level_files v l))%nat) /\ passed ptrs' k /\
  (hit = true -> forall l f, (lvl <= l < lvl + n)%nat -> f ∈ level_files v l -> Compare k (start_of f) < 0 \/ Compare (limit_of f) k < 0).
Proof.
  intros Vk. revert lvl ptrs. induction n as [|n IH]; intros lvl ptrs Hlvl Hn Hb Hp; cbn [base_level_loop].
  - intros [= <- <-]. split; [done|]. split; [done|]. intros _ l f Hl. lia.
  - destruct (scan_level C k _ _) as [h p] eqn:Es. pose proof (fun H => scan_level_ok lvl k _ h p Vk ltac:(lia) (Hb lvl) H Es) as Hscan.
    destruct Hp as [Hlen Hp]. destruct Hscan as [Hp' Hno]; [intros j f; apply Hp|].
    assert (Hbound : (p <= length (level_files v lvl))%nat).
    { clear -Es Hb. specialize (Hb lvl). set (q := default 0%nat (ptrs !! lvl)) in *. clearbody q.
      remember (drop q (level_files v lvl)) as files eqn:Ef. revert q Ef Es Hb.
      induction files as [|f files IH]; intros q Ef Es Hb; cbn [scan_level] in Es; [injection Es as _ <-; done|].
      assert (q < length (level_files v lvl))%nat.
      { assert (length (drop q (level_files v lvl)) = S (length files)) by now rewrite <- Ef. rewrite length_drop in *. lia. }
      destruct (_ <=? 0); [injection Es as _ <-; done|]. apply (IH (S q)); [|done|lia]. rewrite <- Nat.add_1_r, <- drop_drop, <- Ef. done. }
    assert (Hpass : passed (<[lvl := p]> ptrs) k /\ forall l, (default 0%nat (<[lvl := p]> ptrs !! l) <= length (level_files v l))%nat).
    { split; [split; [now rewrite length_insert|]|]; intros l.
      - intros j f. destruct (decide (l = lvl)) as [->|Hne]; [rewrite list_lookup_insert_eq by lia; apply Hp'|rewrite list_lookup_insert_ne by done; apply Hp].
      - destruct (decide (l = lvl)) as [->|Hne]; [rewrite list_lookup_insert_eq by lia; done|rewrite list_lookup_insert_ne by done; apply Hb]. }
    destruct h; [intros [= <- <-]; now destruct Hpass|]. intros E.
    destruct (IH (S lvl) _ ltac:(lia) ltac:(lia) (proj2 Hpass) (proj1 Hpass) E) as (H1 & H2 & H3). split; [done|]. split; [done|].
    intros Ht l f Hl Hf. destruct (Nat.eq_dec l lvl) as [->|]; [now apply Hno|]. apply (H3 Ht l); [lia|done].
Qed.

(** The fields that the question about base levels depends on. *)
Definition base_state (level : nat) (c : Compaction) (k : list Z) : Prop :=
  level_ c = level /\ input_version_ c = v /\ passed (level_ptrs_ c) k /\
  forall l, (default 0%nat (level_ptrs_ c !! l) <= length (level_files v l))%nat.

Lemma IsBaseLevelForKey_ok level c k b c' : valid k -> (level + 1 < kNumLevels)%nat -> base_state level c k ->
  IsBaseLevelForKey C c k = (b, c') -> base_state level c' k /\ (b = true -> base_key level k).
Proof.
  intros Vk Hl (E1 & E2 & Hp & Hb). unfold IsBaseLevelForKey. rewrite E1, E2. destruct (base_level_loop C _ _ v k _) as [h ptrs] eqn:El.
  intros [= <- <-]. destruct (base_level_loop_ok (kNumLevels - (level + 2)) (level + 2) _ _ _ _ Vk ltac:(lia) ltac:(unfold kNumLevels in *; lia) Hb Hp El) as (H1 & H2 & H3).
  split; [split; [done|split; [done|split; [done|done]]]|]. intros Ht lvl f Hr Hf. apply (H3 Ht lvl); [unfold kNumLevels in *; lia|done].
Qed.

(** ** One decision *)

(** The state after the entries [pre]. *)
Definition drop_at (pre : list added) (ds : DropState) : Prop :=
  match last pre with
  | None => ds = make_DropState
  | Some a => has_current_user_key ds = true /\ valid (current_user_key ds) /\
      Compare (a_key a) (current_user_key ds) = 0 /\ last_sequence_for_key ds = a_seq a
  end.

(** An entry of the same key before [a] is followed only by such entries. *)
Lemma last_same pre x a post b : entries_ok ((pre ++ [x]) ++ a :: post) -> b ∈ pre ++ [x] -> same_key b a ->
  same_key x a /\ a_seq x <= a_seq b.
Proof.
  intros Hok Hb Hba. destruct (entries_cut _ _ _ Hok) as (Va & Hpre & _).
  destruct (Hpre x) as [Vx Hxa]; [apply elem_of_app; right; now left|]. destruct (Hpre b Hb) as [Vb Hbx].
  apply elem_of_app in Hb as [Hb|Hb]; [|apply list_elem_of_singleton in Hb as ->; split; [done|lia]].
  assert (Hlt : icmp (ikey_of b) (ikey_of x) < 0).
  { destruct Hok as [_ Hs]. apply StronglySorted_app in Hs as (_ & Hs & _). apply StronglySorted_app in Hs as (Hs & _ & _).
    apply Hs; [done|now left]. }
  destruct Va as [Oa Ka], Vx as [Ox Kx], Vb as [Ob Kb].
  destruct (entries_order b x (conj Ob Kb) (conj Ox Kx) Hlt) as [H|[H Hseq]], (entries_order x a (conj Ox Kx) (conj Oa Ka) Hxa) as [H'|[H' _]];
    unfold same_key in *.
  - exfalso. assert (Compare (a_key b) (a_key a) < 0); [|lia]. apply (Compare_lt_le_trans _ (a_key x)); [done|done|done|done|lia].
  - exfalso. assert (Compare (a_key b) (a_key a) < 0); [|lia]. apply (Compare_lt_le_trans _ (a_key x)); [done|done|done|done|lia].
  - exfalso. assert (Compare (a_key b) (a_key a) < 0); [|lia]. apply (Compare_le_lt_trans _ (a_key x)); [done|done|done|lia|done].
  - done.
Qed.

Context (level : nat) (Hlevel : (level + 1 < kNumLevels)%nat) (Hss : 0 <= ss < kMaxSequenceNumber).

(** Why [a] is dropped, and when it must be. *)
Definition hidden (seen : list added) (a : added) : Prop := exists b, b ∈ seen /\ same_key b a /\ a_seq b <= ss.
Definition obsolete (a : added) : Prop := a_type a = kTypeDeletion /\ a_seq a <= ss /\ base_key level (a_key a).

Lemma drop_key_ok pre a post c ds drop ds' c' : entries_ok (pre ++ a :: post) -> drop_at pre ds -> base_state level c (a_key a) ->
  drop_key C ss c ds (ikey_of a) = (drop, ds', c') ->
  drop_at (pre ++ [a]) ds' /\ base_state level c' (a_key a) /\
  (drop = true -> hidden pre a \/ obsolete a) /\ (hidden pre a -> drop = true).
Proof.
  intros Hok Hds Hc. destruct (entries_cut _ _ _ Hok) as ([Oa Va] & Hpre & _). unfold drop_key. rewrite (Parse_ikey a Oa). cbn [user_key sequence type].
  set (ds1 := if _ || _ then _ else ds).
  assert (H1 : has_current_user_key ds1 = true /\ valid (current_user_key ds1) /\ Compare (a_key a) (current_user_key ds1) = 0 /\
    (last_sequence_for_key ds1 <= ss <-> hidden pre a)).
  { unfold drop_at in Hds. destruct pre as [|p0 pre0] using rev_ind.
    - cbn in Hds. subst ds. unfold ds1. cbn. split; [done|]. split; [done|]. split; [now apply Compare_refl|].
      split; [lia|]. intros (b & Hb & _). now apply elem_of_nil in Hb.
    - clear IHpre0. rewrite last_snoc in Hds. destruct Hds as (Hh & Vc & Ek & Es).
      destruct (Hpre p0) as [[Op Vp] Hpa]; [apply elem_of_app; right; now left|].
      unfold ds1. rewrite Hh. cbn [negb orb].
      destruct (Z.eqb_spec (Compare (a_key a) (current_user_key ds)) 0) as [E0|N0]; cbn [negb].
      + split; [done|]. split; [done|]. split; [done|]. rewrite Es.
        assert (Hpk : same_key p0 a). { unfold same_key. apply (Compare_eq_trans _ (current_user_key ds)); [done|done|done|done|now apply Compare_eq_sym]. }
        split; [intros Hle; exists p0; split; [apply elem_of_app; right; now left|done]|].
        intros (b & Hb & Hba & Hbs). destruct (last_same pre0 p0 a post b Hok Hb Hba). lia.
      + cbn. split; [done|]. split; [done|]. split; [now apply Compare_refl|]. split; [lia|]. intros (b & Hb & Hba & _). exfalso.
        destruct (last_same pre0 p0 a post b Hok Hb Hba) as [Hx _]. apply N0. unfold same_key in Hx.
        apply (Compare_eq_trans _ (a_key p0)); [done|done|done|now apply Compare_eq_sym|done]. }
  clearbody ds1. destruct H1 as (Hh & Vc & Ek & Hhid).
  assert (Hat : drop_at (pre ++ [a]) (MkDrop (current_user_key ds1) (has_current_user_key ds1) (a_seq a))).
  { unfold drop_at. rewrite last_snoc. cbn. done. }
  destruct (Z.leb_spec (last_sequence_for_key ds1) ss) as [Hle|Hgt].
  - intros [= <- <- <-]. split; [done|]. split; [done|]. split; [|done]. intros _. left. now apply Hhid.
  - assert (Hno : hidden pre a -> False) by (intros Hx; apply Hhid in Hx; lia).
    destruct (a_type a) eqn:Et; [|intros [= <- <- <-]; split; [done|]; split; [done|]; split; [done|]; intros Hx; now destruct (Hno Hx)].
    destruct (Z.leb_spec (a_seq a) ss) as [Has|Has]; [|intros [= <- <- <-]; split; [done|]; split; [done|]; split; [done|]; intros Hx; now destruct (Hno Hx)].
    destruct (IsBaseLevelForKey C c (a_key a)) as [b c1] eqn:Eb. intros [= <- <- <-].
    destruct (IsBaseLevelForKey_ok level c (a_key a) b c1 Va Hlevel Hc Eb) as [Hc1 Hbase].
    split; [done|]. split; [done|]. split; [|intros Hx; now destruct (Hno Hx)]. intros ->. right. split; [done|]. split; [done|]. now apply Hbase.
Qed.

Lemma base_state_more c k k' : valid k -> valid k' -> Compare k k' <= 0 -> base_state level c k -> base_state level c k'.
Proof. intros V V' Hle (E1 & E2 & Hp & Hb). split; [done|]. split; [done|]. split; [now apply (passed_more _ k)|done]. Qed.

(** ** All decisions *)

Lemma keep_ok l : forall pre c ds, entries_ok (pre ++ l) -> drop_at pre ds ->
  (forall a, a ∈ l -> base_state level c (a_key a)) ->
  (forall a, a ∈ keep_entries C ss c ds l -> a ∈ l) /\
  (forall a, a ∈ l -> a ∉ keep_entries C ss c ds l -> (exists b, b ∈ pre ++ l /\ same_key b a /\ icmp (ikey_of b) (ikey_of a) < 0 /\ a_seq b <= ss) \/ obsolete a) /\
  (forall a b, a ∈ l -> b ∈ pre ++ l -> same_key b a -> icmp (ikey_of b) (ikey_of a) < 0 -> a_seq b <= ss -> a ∉ keep_entries C ss c ds l) /\
  sublist (keep_entries C ss c ds l) l.
Proof.
  induction l as [|x l IH]; intros pre c ds Hok Hds Hc; cbn [keep_entries].
  { split; [done|]. split; [intros a Ha; now apply elem_of_nil in Ha|]. split; [intros a b Ha; now apply elem_of_nil in Ha|constructor]. }
  destruct (drop_key C ss c ds (ikey_of x)) as [[drop ds'] c'] eqn:Ed.
  destruct (entries_cut _ _ _ Hok) as ([Ox Vx] & Hpre & Hpost).
  destruct (drop_key_ok pre x l c ds drop ds' c' Hok Hds (Hc x ltac:(now left)) Ed) as (Hds' & Hc' & Hdrop & Hmust).
  assert (Eapp : (pre ++ [x]) ++ l = pre ++ x :: l) by now rewrite <- app_assoc.
  destruct (IH (pre ++ [x]) c' ds') as (K1 & K2 & K3 & K4); [now rewrite Eapp|done| |].
  { intros a Ha. destruct (Hpost a Ha) as [[Oa Va] Hlt]. apply (base_state_more c' (a_key x)); [done|done| |done].
    destruct (entries_order x a (conj Ox Vx) (conj Oa Va) Hlt) as [H|[H _]]; unfold same_key in *; lia. }
  rewrite Eapp in K2, K3.
  assert (Hx : x ∉ l).
  { intros Hin. destruct (Hpost x Hin) as [_ Hlt]. assert (Hr : icmp (ikey_of x) (ikey_of x) = 0).
    { apply (icmp_refl (C := C) (valid := valid)). apply internal_valid_Put; [now apply tag_range|done]. } lia. }
  assert (Hself : forall b, b ∈ pre ++ x :: l -> icmp (ikey_of b) (ikey_of x) < 0 -> b ∈ pre).
  { intros b Hb Hlt. apply elem_of_app in Hb as [Hb|Hb]; [done|exfalso]. assert (IL := internal_laws (C := C) (valid := valid)).
    assert (Wx : ivalid (ikey_of x)) by (apply internal_valid_Put; [now apply tag_range|done]).
    apply elem_of_cons in Hb as [->|Hb]; [rewrite (icmp_refl (C := C) (valid := valid)) in Hlt by done; lia|].
    destruct (Hpost b Hb) as [[Ob Vb] Hlt']. assert (Wb : ivalid (ikey_of b)) by (apply internal_valid_Put; [now apply tag_range|done]).
    pose proof (@Compare_antisym _ _ IL (ikey_of b) (ikey_of x) Wb Wx). simpl in *. lia. }
  destruct drop.
  - split; [intros a Ha; right; now apply K1|]. split; [|split].
    + intros a Ha Hna. apply elem_of_cons in Ha as [->|Ha]; [|now apply K2].
      destruct (Hdrop eq_refl) as [(b & Hb & Hk & Hs)|Ho]; [left|now right]. exists b. destruct (Hpre b Hb) as [_ Hlt].
      split; [apply elem_of_app; now left|done].
    + intros a b Ha Hb Hk Hlt Hs. apply elem_of_cons in Ha as [->|Ha]; [intros Hin; now apply Hx, K1|now apply (K3 a b)].
    + now constructor.
  - split; [intros a Ha; apply elem_of_cons in Ha as [->|Ha]; [now left|right; now apply K1]|]. split; [|split].
    + intros a Ha Hna. apply elem_of_cons in Ha as [->|Ha]; [destruct Hna; now left|]. apply K2; [done|]. intros Hin. apply Hna. now right.
    + intros a b Ha Hb Hk Hlt Hs Hin. apply elem_of_cons in Ha as [->|Ha].
      * assert (Hh : hidden pre x) by (exists b; split; [now apply Hself|done]). specialize (Hmust Hh). done.
      * apply elem_of_cons in Hin as [->|Hin]; [done|]. now apply (K3 a b).
    + now constructor.
Qed.
End Drop.

(** ** Reads *)

(** What a reader sees. *)
Definition visible (r : get_result) : option (list Z) := match r with Found x => Some x | _ => None end.

Section Reads.
Context {C : Comparator} {valid : list Z -> Prop} {CL : ComparatorLaws C valid}.
Notation icmp := (internal_compare C).
Notation start_of := (fun f => ExtractUserKey (f_smallest f)).
Notation limit_of := (fun f => ExtractUserKey (f_largest f)).

(** Dropping [l] to [kept] beside the entries [rest], in terms of what is known
    about the dropped entries. *)
Lemma reads_same (rest : added -> Prop) (l kept before_ after_ : list added) ss s key r r' :
  unique_versions (C := C) before_ ->
  (forall a, In a before_ <-> rest a \/ a ∈ l) -> (forall a, In a after_ <-> rest a \/ a ∈ kept) ->
  Forall (added_valid (valid := valid)) before_ -> valid key -> ss <= s ->
  (forall a, a ∈ kept -> a ∈ l) ->
  (forall a, a ∈ l -> a ∉ kept ->
     (exists b, b ∈ l /\ same_key (C := C) b a /\ a_seq a < a_seq b <= ss) \/
     a_type a = kTypeDeletion /\ a_seq a <= ss /\ forall b, rest b -> same_key (C := C) b a -> a_seq a < a_seq b) ->
  (forall a b, a ∈ l -> b ∈ l -> same_key (C := C) b a -> a_seq a < a_seq b <= ss -> a ∉ kept) ->
  get_spec (C := C) before_ key s r -> get_spec (C := C) after_ key s r' -> visible r = visible r'.
Proof.
  intros Hu Hb Ha Hv Vk Hss K1 K2 K3 Hr Hr'. rewrite List.Forall_forall in Hv.
  assert (Hsub : forall a, In a after_ -> In a before_). { intros a. rewrite Ha, Hb. intros [H|H]; auto. }
  assert (Hsame : forall a b, In a before_ -> In b before_ -> Compare (a_key a) key = 0 -> Compare (a_key b) key = 0 -> same_key (C := C) a b).
  { intros a b Hina Hinb Ka Kb. unfold same_key. apply (Compare_eq_trans _ key); [now apply Hv|done|now apply Hv|done|]. apply Compare_eq_sym; [now apply Hv|done|done]. }
  destruct Hr as [[-> Hmiss]|(a & Hin & Hk & Hs & Hmax & ->)].
  - destruct Hr' as [[-> _]|(a' & Hin' & Hk' & Hs' & _)]; [done|]. specialize (Hmiss a' (Hsub a' Hin') Hk'). lia.
  - destruct Hr' as [[-> Hmiss]|(a' & Hin' & Hk' & Hs' & Hmax' & ->)].
    + destruct (a_type a) eqn:Et; [done|]. exfalso. assert (Hnot : ~ In a after_) by (intros H; specialize (Hmiss a H Hk); lia).
      rewrite Ha in Hnot. apply Hb in Hin as [H|H]; [tauto|]. destruct (K2 a H ltac:(tauto)) as [(b & Hbl & Hbk & Hbs)|(Et' & _)]; [|congruence].
      assert (Hinb : In b before_) by (apply Hb; now right). assert (Hina : In a before_) by (apply Hb; now right).
      specialize (Hmax b Hinb). assert (a_seq b <= a_seq a); [|lia]. apply Hmax; [|lia].
      apply (Compare_eq_trans _ (a_key a)); [now apply Hv|now apply Hv|done|done|done].
    + pose proof (Hmax a' (Hsub a' Hin') Hk' Hs') as Hle.
      assert (Hcase : In a after_ \/ ~ In a after_).
      { destruct (Z.eq_dec (a_seq a') (a_seq a)) as [E|N].
        - left. rewrite (Hu a a'); [done|done|now apply Hsub|now apply Hsame; [|apply Hsub| |]|done].
        - right. intros H. specialize (Hmax' a H Hk Hs). lia. }
      destruct Hcase as [Hafter|Hnot].
      * assert (a = a') as ->; [|done]. apply Hu; [done|now apply Hsub|now apply Hsame; [|apply Hsub| |]|]. specialize (Hmax' a Hafter Hk Hs). lia.
      * pose proof Hnot as Hnot'. rewrite Ha in Hnot. pose proof Hin as Hin0. apply Hb in Hin as [H|H]; [tauto|].
        assert (Hlt : a_seq a' < a_seq a).
        { assert (a_seq a' <> a_seq a); [|lia]. intros E. assert (a' = a) as ->; [|done]. apply Hu; [now apply Hsub|done|apply Hsame; auto|done]. }
        destruct (K2 a H ltac:(tauto)) as [(b & Hbl & Hbk & Hbs)|(Et & Hs1 & Hrest)].
        { exfalso. assert (Hinb : In b before_) by (apply Hb; now right). assert (a_seq b <= a_seq a); [|lia]. apply Hmax; [done| |lia].
          apply (Compare_eq_trans _ (a_key a)); [now apply Hv|now apply Hv|done|done|done]. }
        rewrite Et. exfalso. pose proof (Hsub a' Hin') as Hin0'. assert (Hkk : same_key (C := C) a' a) by now apply Hsame.
        pose proof Hin' as Hin1. apply Ha in Hin1 as [Hr|Hk1]; [specialize (Hrest a' Hr Hkk); lia|].
        apply (K3 a' a (K1 a' Hk1) H); [|lia|done]. unfold same_key in *. apply Compare_eq_sym; [now apply Hv|now apply Hv|done].
Qed.

Lemma version_entries_iff contents v a :
  In a (version_entries contents v) <-> exists level f, f ∈ level_files v level /\ In a (contents (f_number f)).
Proof.
  split.
  - intros Ha. unfold version_entries in Ha. apply in_concat in Ha as (l & Hl & Ha). apply in_map_iff in Hl as (fs & <- & Hfs).
    unfold level_entries in Ha. apply in_concat in Ha as (l & Hl & Ha). apply in_map_iff in Hl as (f & <- & Hf).
    apply list_elem_of_In, list_elem_of_lookup in Hfs as [level Hlev]. exists level, f. split; [|done].
    unfold level_files. rewrite Hlev. now apply list_elem_of_In.
  - intros (level & f & Hf & Ha). now apply (file_entries contents v level f).
Qed.

Context (contents : Z -> list added) (v : Version) (ptrs : list (list Z)) (c : Compaction) (ss : Z) (M : list added).
Hypothesis Hset : set_ok (C := C) (valid := valid) contents v ptrs.
Hypothesis Hc : compaction_ok (C := C) v c.

(** The merged inputs. *)
Hypothesis HM : entries_ok (C := C) (valid := valid) M.
Hypothesis HMin : forall a, a ∈ M <-> exists f, f ∈ inputs_0 c ++ inputs_1 c /\ In a (contents (f_number f)).

(** No file that stays in the next level begins with the user key that an input
    of that level ends with. *)
Definition whole_keys : Prop :=
  forall h g, h ∈ level_files v (level_ c + 1) -> h ∉ inputs_1 c -> g ∈ inputs_1 c -> Compare (start_of h) (limit_of g) <> 0.

Definition stays (level : nat) (f : FileMetaData) : Prop :=
  f ∈ level_files v level /\ (level = level_ c -> f ∉ inputs_0 c) /\ (level = level_ c + 1 -> f ∉ inputs_1 c)%nat.

Lemma shape level : level_shape (C := C) (valid := valid) level (level_files v level).
Proof. apply (set_ok_shape contents v ptrs Hset). Qed.

(** The files of the next level that stay have nothing older. *)
Lemma next_level_apart h g : whole_keys -> h ∈ level_files v (level_ c + 1) -> h ∉ inputs_1 c -> g ∈ inputs_0 c ++ inputs_1 c ->
  apart (C := C) h g.
Proof.
  intros Hw Hh Hn Hg. destruct (shape (level_ c + 1)) as [Hsh _]. rewrite Forall_forall in Hsh. destruct (Hsh h Hh) as (H1 & H2 & H3).
  assert (Hsg : shaped (C := C) (valid := valid) g).
  { destruct (input_level v c Hc g Hg) as [[_ Hl]|[_ Hl]]; [destruct (shape (level_ c)) as [Hs _]|destruct (shape (level_ c + 1)) as [Hs _]];
      rewrite Forall_forall in Hs; now apply Hs. }
  destruct Hsg as (G1 & G2 & G3). apply elem_of_app in Hg as [Hg|Hg].
  - (* an input of the level: the user ranges are disjoint *)
    assert (Hno : overlaps (C := C) (user_range (GetRange C (inputs_0 c))).1 (user_range (GetRange C (inputs_0 c))).2 h = false).
    { destruct (overlaps _ _ h) eqn:Eo; [|done]. exfalso. apply Hn. rewrite (co_next _ _ Hc). unfold overlapping.
      apply list_elem_of_In, filter_In. split; [now apply list_elem_of_In|done]. }
    destruct (GetRange_ok (C := C) (valid := valid) (inputs_0 c) (co_some _ _ Hc)) as (V1 & V2 & Hr).
    { apply (closed_shaped v shape (level_ c)), Hc. }
    rewrite Forall_forall in Hr. destruct (Hr g Hg) as [R1 R2]. apply icmp_user in R1, R2.
    unfold overlaps in Hno. cbn in Hno. rewrite andb_false_iff, !negb_false_iff, !Z.ltb_lt in Hno. right. destruct Hno as [Hl|Hl].
    + right. apply (Compare_lt_le_trans _ (ExtractUserKey (GetRange C (inputs_0 c)).1)); [apply H2|apply V1|apply G1|done|done].
    + left. apply (Compare_le_lt_trans _ (ExtractUserKey (GetRange C (inputs_0 c)).2)); [apply G2|apply V2|apply H1|done|].
      now apply Compare_antisym; [apply V2|apply H1|].
  - (* an input of the next level: before it, or behind it with another key *)
    assert (Hgl : g ∈ level_files v (level_ c + 1)).
    { rewrite (co_next _ _ Hc) in Hg. unfold overlapping in Hg. rewrite list_elem_of_In, filter_In in Hg. now apply list_elem_of_In. }
    assert (Hne : h <> g) by (intros ->; done). destruct (shape (level_ c + 1)) as [_ Hs]. specialize (Hs ltac:(lia)).
    destruct (sorted_pairs (level_files v (level_ c + 1)) h g Hs Hh Hgl Hne) as [Hb|Hb]; [now left|]. right. left.
    pose proof (icmp_user (C := C) (f_largest g) (f_smallest h) ltac:(unfold before in Hb; lia)) as U.
    specialize (Hw h g Hh Hn Hg). destruct (Z.eq_dec (Compare (limit_of g) (start_of h)) 0) as [E0|]; [|lia].
    apply Compare_eq_sym in E0; [done|apply G2|apply H1].
Qed.

(** So nothing that stays is older than a dropped deletion. *)
Lemma obsolete_rest a level f b : whole_keys -> a ∈ M -> obsolete (C := C) ss v (level_ c) a -> stays level f ->
  In b (contents (f_number f)) -> same_key (C := C) b a -> a_seq a < a_seq b.
Proof.
  intros Hw Ha (_ & _ & Hbase) (Hf & Hn0 & Hn1) Hb Hk. apply HMin in Ha as (g & Hg & Ha). pose proof (so_version _ _ _ Hset) as Hv.
  pose proof (vo_files _ _ Hv level f Hf) as Ff. destruct (file_entry contents f b Ff Hb) as ([Ob Vb] & B1 & B2).
  destruct (file_bounds contents f Ff) as (F1 & F2 & _). pose proof (ikey_extract b Ob) as [Xb _].
  assert (Fg : file_ok (C := C) (valid := valid) g (contents (f_number g)) /\ exists lg, g ∈ level_files v lg /\ (lg = level_ c /\ g ∈ inputs_0 c \/ lg = level_ c + 1)%nat).
  { destruct (input_level v c Hc g Hg) as [[H0 Hl]|[H0 Hl]]; (split; [now apply (vo_files _ _ Hv _ g Hl)|]);
      eexists; (split; [exact Hl|auto]). }
  destruct Fg as [Fg (lg & Hlg & Elg)]. destruct (file_entry contents g a Fg Ha) as ([Oa Va] & _).
  assert (Hself : Compare (a_key a) (a_key a) = 0) by now apply Compare_refl.
  assert (Happ : apart (C := C) f g -> a_seq a < a_seq b).
  { intros Hap. apply (apart_newer f g (contents (f_number f)) (contents (f_number g)) (a_key a) Ff Fg); try done.
    intros x y Hx Hy. apply (so_unique _ _ _ Hset); apply version_entries_iff;
      [apply in_app_or in Hx as [Hx|Hx]|apply in_app_or in Hy as [Hy|Hy]]; eauto. }
  destruct (Nat.lt_trichotomy level (level_ c)) as [Hlt|[->|Hgt]].
  - apply (vo_deeper _ _ Hv level lg f g (a_key a)); [done|lia|done|done|done|done|done|done].
  - destruct Elg as [[-> Hg0]| ->].
    + apply Happ. apply (co_closed _ _ Hc); [done|now apply Hn0|done].
    + apply (vo_deeper _ _ Hv (level_ c) (level_ c + 1) f g (a_key a)); [done|lia|done|done|done|done|done|done].
  - destruct (Nat.eq_dec level (level_ c + 1)%nat) as [->|Hne].
    + apply Happ, next_level_apart; [done|done|now apply Hn1|done].
    + exfalso. pose proof (level_in contents v Hv level f Hf) as Hlk. destruct (Hbase level f ltac:(lia) Hf) as [Hlo|Hhi].
      * apply icmp_user in B1. rewrite Xb in B1. assert (Compare (a_key a) (a_key b) < 0).
        { apply (Compare_lt_le_trans _ (start_of f)); [done|apply F1|done|done|done]. }
        unfold same_key in Hk. apply Compare_eq_sym in Hk; [lia|done|done].
      * apply icmp_user in B2. rewrite Xb in B2. assert (Compare (a_key b) (a_key a) < 0); [|unfold same_key in Hk; lia].
        apply (Compare_le_lt_trans _ (limit_of f)); [done|apply F2|done|done|done].
Qed.

(** What the decisions mean for the entries of the compaction. *)
Lemma keep_inputs : 0 <= ss < kMaxSequenceNumber -> whole_keys ->
  let kept := keep_entries C ss c make_DropState M in
  (forall a, a ∈ kept -> a ∈ M) /\
  (forall a, a ∈ M -> a ∉ kept ->
     (exists b, b ∈ M /\ same_key (C := C) b a /\ a_seq a < a_seq b <= ss) \/
     a_type a = kTypeDeletion /\ a_seq a <= ss /\
     forall b, (exists level f, stays level f /\ In b (contents (f_number f))) -> same_key (C := C) b a -> a_seq a < a_seq b) /\
  (forall a b, a ∈ M -> b ∈ M -> same_key (C := C) b a -> a_seq a < a_seq b <= ss -> a ∉ kept) /\
  sublist kept M.
Proof.
  intros Hss Hw kept. pose proof (proj1 HM) as HvM. rewrite Forall_forall in HvM.
  assert (Huniq : forall a b, a ∈ M -> b ∈ M -> same_key (C := C) a b -> a_seq a = a_seq b -> a = b).
  { intros a b Ha Hb. apply HMin in Ha as (f & Hf & Ha). apply HMin in Hb as (g & Hg & Hb). apply (so_unique _ _ _ Hset); apply version_entries_iff.
    - destruct (input_level v c Hc f Hf) as [[_ H]|[_ H]]; eauto.
    - destruct (input_level v c Hc g Hg) as [[_ H]|[_ H]]; eauto. }
  destruct (keep_ok ss v shape (level_ c) (co_level _ _ Hc) Hss M [] c make_DropState) as (K1 & K2 & K3 & K4).
  - exact HM.
  - done.
  - intros a Ha. split; [done|]. split; [apply Hc|]. rewrite (co_ptrs _ _ Hc). split; [split; [done|]|]; intros l.
    + intros j f Hj. destruct (decide (l < kNumLevels)%nat); [rewrite lookup_replicate_2 in Hj by done|rewrite lookup_ge_None_2 in Hj by (rewrite length_replicate; lia)]; cbn in Hj; lia.
    + destruct (decide (l < kNumLevels)%nat); [rewrite lookup_replicate_2 by done|rewrite lookup_ge_None_2 by (rewrite length_replicate; lia)]; cbn; lia.
  - cbn [app] in K2, K3. fold kept in K1, K2, K3, K4. split; [done|]. split; [|split; [|done]].
    + intros a Ha Hn. destruct (K2 a Ha Hn) as [(b & Hb & Hk & Hlt & Hs)|Ho].
      * left. exists b. split; [done|]. split; [done|]. destruct (entries_order b a (HvM b Hb) (HvM a Ha) Hlt) as [H|[_ Hle]]; [unfold same_key in Hk; lia|].
        assert (a_seq a <> a_seq b); [|lia]. intros E. assert (a = b) as ->; [|].
        { apply Huniq; [done|done| |done]. unfold same_key in *. apply Compare_eq_sym; [now apply HvM|now apply HvM|done]. }
        rewrite (icmp_refl (C := C) (valid := valid)) in Hlt; [lia|]. destruct (HvM b Hb) as [Ob Vb]. apply internal_valid_Put; [now apply tag_range|done].
      * right. pose proof Ho as (Et & Hs & _). split; [done|]. split; [done|]. intros b (level & f & Hst & Hb) Hk.
        now apply (obsolete_rest a level f b Hw Ha Ho Hst Hb).
    + intros a b Ha Hb Hk [Hlt Hs]. apply (K3 a b Ha Hb Hk); [|done]. apply internal_compare_lt.
      destruct (HvM a Ha) as [Oa Va], (HvM b Hb) as [Ob Vb].
      destruct (ikey_extract a Oa) as [E1 E2], (ikey_extract b Ob) as [E3 E4]. rewrite E1, E2, E3, E4. right. split; [exact Hk|].
      pose proof (tag_lt a b Oa Ob Hlt). lia.
Qed.

Lemma entries_valid : Forall (added_valid (valid := valid)) (version_entries contents v).
Proof.
  apply List.Forall_forall. intros a Ha. apply version_entries_iff in Ha as (level & f & Hf & Ha).
  pose proof (vo_files _ _ (so_version _ _ _ Hset) level f Hf) as Ff. now apply (file_entry contents f a Ff).
Qed.

Context (outs : list Output).
Hypothesis Ho : outputs_ok (C := C) (valid := valid) contents v c outs.
Hypothesis Hkept : forall a, (exists o, o ∈ outs /\ In a (contents (o_number o))) <-> a ∈ keep_entries C ss c make_DropState M.

Lemma installed_reads v' ptrs' key s r r' : 0 <= ss < kMaxSequenceNumber -> whole_keys ->
  install (C := C) v ptrs (results_edit c outs) = Some (v', ptrs') -> valid key -> ss <= s ->
  get_spec (C := C) (version_entries contents v) key s r -> get_spec (C := C) (version_entries contents v') key s r' ->
  visible r = visible r'.
Proof.
  intros Hss Hw Ei Vk Hs Hr Hr'.
  destruct (install_results contents v ptrs c outs Hset Hc Ho) as (w & p & Ei' & Hset' & _ & Hl). rewrite Ei in Ei'. injection Ei' as <- <-.
  destruct (keep_inputs Hss Hw) as (K1 & K2 & K3 & _). cbv zeta in *.
  assert (Hlev : forall level f, (level < kNumLevels)%nat -> f ∈ level_files v' level <->
     (level = level_ c + 1 /\ exists o, o ∈ outs /\ f = with_seeks (output_file o))%nat \/ stays level f).
  { intros level f Hlt. rewrite Hl by done. apply (results_level v c outs Hc). apply (ba_numbers _ _ (so_base _ _ _ Hset)). }
  apply (reads_same (fun a => exists level f, stays level f /\ In a (contents (f_number f))) M (keep_entries C ss c make_DropState M)
    (version_entries contents v) (version_entries contents v') ss s key r r'); try done; [apply Hset| | |apply entries_valid].
  - intros a. rewrite version_entries_iff, HMin. split.
    + intros (level & f & Hf & Ha). destruct (decide (level = level_ c)) as [->|N1].
      * destruct (decide (f ∈ inputs_0 c)) as [Hin|Hout].
        -- right. exists f. split; [apply elem_of_app; now left|done].
        -- left. exists (level_ c), f. split; [|done]. split; [done|]. split; [done|]. lia.
      * destruct (decide (level = level_ c + 1)%nat) as [->|N2].
        -- destruct (decide (f ∈ inputs_1 c)) as [Hin|Hout].
           ++ right. exists f. split; [apply elem_of_app; now right|done].
           ++ left. exists (level_ c + 1)%nat, f. split; [|done]. split; [done|]. split; [lia|done].
        -- left. exists level, f. split; [|done]. split; [done|]. split; [done|done].
    + intros [(level & f & (Hf & _) & Ha)|(f & Hf & Ha)]; [eauto|]. destruct (input_level v c Hc f Hf) as [[_ H]|[_ H]]; eauto.
  - intros a. rewrite version_entries_iff, <- Hkept. split.
    + intros (level & f & Hf & Ha). pose proof (level_in contents v' (so_version _ _ _ Hset') level f Hf) as Hlt.
      apply (Hlev level f Hlt) in Hf as [[_ (o & Hout & ->)]|Hst]; [right|left; eauto]. exists o. done.
    + intros [(level & f & Hst & Ha)|(o & Hout & Ha)].
      * exists level, f. split; [|done]. pose proof (level_in contents v (so_version _ _ _ Hset) level f (proj1 Hst)). apply Hlev; [done|now right].
      * exists (level_ c + 1)%nat, (with_seeks (output_file o)). split; [|done]. apply Hlev; [apply Hc|]. left. split; [done|]. eauto.
Qed.
End Reads.

(** C6: A compaction changes no read that is still possible, provided that its
    inputs hold whole user keys.  Of the merged entries of its inputs a
    compaction keeps those that the loop does not drop; once they are installed
    in place of the inputs, every read of every key, at any snapshot not older
    than the oldest one in use, shows the same value as before, or no value if it
    showed none: what was dropped was hidden by a newer entry, or was a deletion
    with nothing left to hide, so a deleted key may become an absent one.  The
    condition [whole_keys] says that no file that stays in the next level begins
    with the user key that an input of that level ends with; the code does not
    ensure it, and without it the conclusion is false
    (see [deletion_dropped_too_early]). *)
Theorem compaction_keeps_reads {C : Comparator} {valid : list Z -> Prop} {CL : ComparatorLaws C valid} {E W : Type} (max : Z)
    (contents : Z -> list added) (vs vs' : VersionSet E W) (c : Compaction) (ss : Z) (M : list added) (outs : list Output) :
  set_ok (C := C) (valid := valid) contents (vs_current vs) (vs_pointers vs) ->
  handed_out (C := C) (valid := valid) max vs (Some c) vs' ->
  entries_ok (C := C) (valid := valid) M ->
  (forall a, a ∈ M <-> exists f, f ∈ inputs_0 c ++ inputs_1 c /\ In a (contents (f_number f))) ->
  whole_keys (C := C) (vs_current vs) c -> 0 <= ss < kMaxSequenceNumber ->
  outputs_ok (C := C) (valid := valid) contents (vs_current vs) c outs ->
  (forall a, (exists o, o ∈ outs /\ In a (contents (o_number o))) <-> a ∈ keep_entries C ss c make_DropState M) ->
  exists v' ptrs', install (C := C) (vs_current vs') (vs_pointers vs') (results_edit c outs) = Some (v', ptrs') /\
    forall key s r r', valid key -> ss <= s ->
      get_spec (C := C) (version_entries contents (vs_current vs)) key s r ->
      get_spec (C := C) (version_entries contents v') key s r' -> visible r = visible r'.
Proof.
  intros Hset Hh HM HMin Hw Hss Ho Hk. destruct (handed_out_ok max contents vs c vs' Hset Hh) as (Hc & Ev & Hp). rewrite Ev.
  assert (Hset' : set_ok (C := C) (valid := valid) contents (vs_current vs) (vs_pointers vs')).
  { destruct Hset as [H1 H2 H3 H4]. constructor; try done. now apply (base_ok_pointers _ (vs_pointers vs)). }
  destruct (install_results contents (vs_current vs) (vs_pointers vs') c outs Hset' Hc Ho) as (v' & ptrs' & Ei & _). exists v', ptrs'.
  split; [done|]. intros key s r r' Vk Hs. now apply (installed_reads contents (vs_current vs) (vs_pointers vs') c ss M Hset' Hc HM HMin outs Ho Hk v' ptrs').
Qed.

(** ** Examples *)

Module DropExample.
Import CompactionExample.
Definition merged : list added :=
  [Added 30 kTypeValue [1] [11]; Added 10 kTypeValue [2] [22]; Added 20 kTypeDeletion [3] []; Added 5 kTypeValue [3] [33]].
Definition outputs10 : list Output := [MkOutput 10 500 (ikey_of (Added 30 kTypeValue [1] [11])) (ikey_of (Added 10 kTypeValue [2] [22]))].

Lemma merged_ok : entries_ok (C := BC) (valid := is_bytes) merged.
Proof. split; unfold merged; repeat constructor; unfold is_byte; simpl; lia. Qed.
End DropExample.

Lemma compaction_keeps_reads_witness :
  exists c vs' v' ptrs', PickCompaction BytewiseComparator 2097152 CompactionExample.vs = Some (Some c, vs') /\
    keep_entries BytewiseComparator 25 c make_DropState DropExample.merged = CompactionExample.l10 /\
    install (C := BytewiseComparator) (vs_current vs') (vs_pointers vs') (results_edit c DropExample.outputs10) = Some (v', ptrs') /\
    forall s r r', 25 <= s ->
      get_spec (C := BytewiseComparator) (version_entries CompactionExample.contents CompactionExample.version) [3] s r ->
      get_spec (C := BytewiseComparator) (version_entries CompactionExample.contents v') [3] s r' -> visible r = visible r'.
Proof.
  assert (Hp : exists c vs', PickCompaction BytewiseComparator 2097152 CompactionExample.vs = Some (Some c, vs') /\
    level_ c = 1%nat /\ inputs_0 c = [CompactionExample.file5] /\ inputs_1 c = [CompactionExample.file6] /\
    keep_entries BytewiseComparator 25 c make_DropState DropExample.merged = CompactionExample.l10).
  { eexists _, _. split; [vm_compute; reflexivity|]. split; [reflexivity|]. split; [reflexivity|]. split; [reflexivity|]. vm_compute. reflexivity. }
  destruct Hp as (c & vs' & E & El & E0 & E1 & Ek). exists c, vs'.
  destruct (compaction_keeps_reads (C := BytewiseComparator) (valid := is_bytes) 2097152 CompactionExample.contents CompactionExample.vs vs' c 25
    DropExample.merged DropExample.outputs10 CompactionExample.state_good) as (v' & ptrs' & Ei & Hr).
  - apply handed_picked. exact E.
  - apply DropExample.merged_ok.
  - intros a. rewrite E0, E1. split.
    + intros Ha. unfold DropExample.merged in Ha. rewrite !elem_of_cons, elem_of_nil in Ha. destruct Ha as [->|[->|[->|[->|[]]]]].
      * exists CompactionExample.file5. split; [now left|now left].
      * exists CompactionExample.file6. split; [right; now left|now left].
      * exists CompactionExample.file5. split; [now left|right; now left].
      * exists CompactionExample.file6. split; [right; now left|right; now left].
    + intros (f & Hf & Ha). cbn [app] in Hf. rewrite !elem_of_cons, elem_of_nil in Hf. unfold DropExample.merged. rewrite !elem_of_cons.
      destruct Hf as [->|[->|[]]].
      * change (In a CompactionExample.l5) in Ha. destruct Ha as [<-|[<-|[]]]; tauto.
      * change (In a CompactionExample.l6) in Ha. destruct Ha as [<-|[<-|[]]]; tauto.
  - intros h g Hh Hn Hg. rewrite El in Hh. cbn [vs_current CompactionExample.vs] in Hh. rewrite CompactionExample.levels in Hh. cbn in Hh.
    apply list_elem_of_singleton in Hh as ->. rewrite E1 in Hn. destruct Hn. now left.
  - split; [lia|vm_compute; reflexivity].
  - constructor.
    + intros o Ho. apply list_elem_of_singleton in Ho as ->. split; [|repeat constructor|eexists; split; reflexivity|eexists; split; reflexivity].
      change (Forall (added_valid (valid := is_bytes)) CompactionExample.l10). unfold CompactionExample.l10. repeat constructor; unfold is_byte; simpl; lia.
    + repeat constructor.
    + intros o a Ho Ha. apply list_elem_of_singleton in Ho as ->. rewrite E0, E1. change (In a CompactionExample.l10) in Ha. destruct Ha as [<-|[<-|[]]].
      * exists CompactionExample.file5. split; [now left|now left].
      * exists CompactionExample.file6. split; [right; now left|now left].
    + rewrite El. cbn [vs_current CompactionExample.vs]. rewrite CompactionExample.levels. apply (bool_decide_unpack _). vm_compute. exact I.
    + rewrite El. cbn [vs_current CompactionExample.vs]. rewrite CompactionExample.levels. cbn. lia.
  - intros a. rewrite Ek. split.
    + intros (o & Ho & Ha). apply list_elem_of_singleton in Ho as ->. now apply list_elem_of_In.
    + intros Ha. exists (MkOutput 10 500 (ikey_of (Added 30 kTypeValue [1] [11])) (ikey_of (Added 10 kTypeValue [2] [22]))).
      split; [now left|now apply list_elem_of_In].
  - exists v', ptrs'. split; [exact E|]. split; [exact Ek|]. split; [exact Ei|]. intros s r r' Hs. apply Hr; [|exact Hs]. repeat constructor; lia.
Defined.

(** Two files of level 2 share the user key 3: the first ends with its deletion,
    the second begins with the value it deletes.  A compaction of level 1 takes
    the first only, since the second is outside the range of level 1. *)
Module BoundaryExample.
Notation BC := BytewiseComparator.
Definition a1 : added := Added 30 kTypeValue [1] [11].
Definition l6 : list added := [Added 10 kTypeValue [1] [12]; Added 8 kTypeDeletion [3] []].
Definition l7 : list added := [Added 4 kTypeValue [3] [33]].
Definition contents (n : Z) : list added := if n =? 5 then [a1] else if n =? 6 then l6 else if n =? 7 then l7 else if n =? 9 then [a1] else [].
Definition file (n : Z) (a b : added) : FileMetaData := MkFile n 1000 (ikey_of a) (ikey_of b) 100.
Definition file5 : FileMetaData := file 5 a1 a1.
Definition file6 : FileMetaData := file 6 (Added 10 kTypeValue [1] [12]) (Added 8 kTypeDeletion [3] []).
Definition file7 : FileMetaData := file 7 (Added 4 kTypeValue [3] [33]) (Added 4 kTypeValue [3] [33]).
Definition version : Version := MkVersion [[]; [file5]; [file6; file7]; []; []; []; []] None (-1) (double_of (-1)) (-1).
Definition vs : VersionSet unit unit := MkVersionSet tt [] 9 1 30 0 0 None version (replicate kNumLevels []).
Definition outputs : list Output := [MkOutput 9 500 (ikey_of a1) (ikey_of a1)].

Lemma boundary_levels level f : f ∈ level_files version level ->
  level = 1%nat /\ f = file5 \/ level = 2%nat /\ f = file6 \/ level = 2%nat /\ f = file7.
Proof.
  unfold level_files, version. cbn [files_]. intros Hf.
  destruct level as [|[|[|level]]]; cbn [lookup list_lookup default] in Hf.
  - now apply elem_of_nil in Hf.
  - apply list_elem_of_singleton in Hf as ->. now left.
  - apply elem_of_cons in Hf as [->|Hf]; [right; now left|]. apply list_elem_of_singleton in Hf as ->. right. now right.
  - exfalso. do 4 (destruct level as [|level]; [now apply elem_of_nil in Hf|]). now apply elem_of_nil in Hf.
Qed.

Lemma boundary_version_ok : version_ok (C := BC) (valid := is_bytes) contents version.
Proof.
  assert (HA : Forall (added_valid (valid := is_bytes)) (a1 :: l6 ++ l7)).
  { unfold a1, l6, l7. repeat constructor; unfold is_byte; simpl; lia. }
  apply List.Forall_cons_iff in HA as [H5 HA]. apply Forall_app in HA as [H6 H7].
  split.
  - reflexivity.
  - intros level f Hf. apply boundary_levels in Hf as [[_ ->]|[[_ ->]|[_ ->]]].
    + split; [now constructor|repeat constructor|now exists a1|now exists a1].
    + split; [exact H6|repeat constructor|eexists; split; reflexivity|eexists; split; reflexivity].
    + split; [exact H7|repeat constructor|eexists; split; reflexivity|eexists; split; reflexivity].
  - intros level _. unfold level_files, version. cbn [files_]. destruct level as [|[|[|[|[|[|[|level]]]]]]]; repeat constructor.
  - intros level. unfold level_files, version. cbn [files_]. destruct level as [|[|[|[|[|[|[|level]]]]]]]; vm_compute; reflexivity.
  - constructor.
  - intros f g key _ Hf. apply boundary_levels in Hf as [[Ex _]|[[Ex _]|[Ex _]]]; discriminate Ex.
  - intros i j f g key _ Hij Hf Hg. apply boundary_levels in Hf, Hg.
    destruct Hf as [[-> ->]|[[-> ->]|[-> ->]]], Hg as [[-> ->]|[[-> ->]|[-> ->]]]; try lia; intros a b [<-|[]] Hb _ _.
    + destruct Hb as [<-|[<-|[]]]; simpl; lia.
    + destruct Hb as [<-|[]]; simpl; lia.
Qed.
End BoundaryExample.

(** The deletion is dropped although the value that it deletes stays in the
    other file of the level, and a read finds the deleted value again. *)
Lemma deletion_dropped_too_early :
  exists c vs' v' ptrs', CompactRange BytewiseComparator 2097152 BoundaryExample.vs 1 None None = Some (Some c, vs') /\
    inputs_0 c = [BoundaryExample.file5] /\ inputs_1 c = [BoundaryExample.file6] /\
    keep_entries BytewiseComparator 40 c make_DropState (BoundaryExample.a1 :: BoundaryExample.l6) = [BoundaryExample.a1] /\
    install (C := BytewiseComparator) (vs_current vs') (vs_pointers vs') (results_edit c BoundaryExample.outputs) = Some (v', ptrs') /\
    get_spec (C := BytewiseComparator) (version_entries BoundaryExample.contents BoundaryExample.version) [3] 40 Deleted /\
    get_spec (C := BytewiseComparator) (version_entries BoundaryExample.contents v') [3] 40 (Found [33]).
Proof.
  eexists _, _, _, _. split; [vm_compute; reflexivity|]. split; [reflexivity|]. split; [reflexivity|]. split; [vm_compute; reflexivity|].
  split; [vm_compute; reflexivity|]. split.
  - right. exists (Added 8 kTypeDeletion [3] []). split; [right; right; now left|]. split; [reflexivity|]. split; [simpl; lia|]. split; [|reflexivity].
    intros b Hb Hk _. destruct Hb as [<-|[<-|[<-|[<-|[]]]]]; vm_compute in Hk; try discriminate; simpl; lia.
  - right. exists (Added 4 kTypeValue [3] [33]). split; [right; now left|]. split; [reflexivity|]. split; [simpl; lia|]. split; [|reflexivity].
    intros b Hb Hk _. destruct Hb as [<-|[<-|[]]]; vm_compute in Hk; try discriminate; simpl; lia.
Qed.

(** A compaction of a range takes two files of level 1 with a gap between them.
    A memtable that is flushed meanwhile with a key in the gap is placed in level
    2, where the output of the compaction then covers it. *)
Module GapExample.
Notation BC := BytewiseComparator.
Definition ik (k s : Z) : list Z := ikey_of (Added s kTypeValue [k] []).
Definition file (n k s : Z) : FileMetaData := MkFile n 1000 (ik k s) (ik k s) 100.
Definition version : Version := MkVersion [[]; [file 5 1 10; file 6 9 11]; []; []; []; []; []] None (-1) (double_of (-1)) (-1).
Definition vs : VersionSet unit unit := MkVersionSet tt [] 9 1 30 0 0 None version (replicate kNumLevels []).
Definition flush : VersionEdit := AddFile 2 8 1000 (ik 5 20) (ik 5 20) make_VersionEdit.
Definition outputs : list Output := [MkOutput 9 2000 (ik 1 10) (ik 9 11)].
End GapExample.

Lemma flush_between_range_inputs :
  exists c vs' v1 p1 v2 p2,
    CompactRange BytewiseComparator 2097152 GapExample.vs 1 None None = Some (Some c, vs') /\
    map f_number (inputs_0 c) = [5; 6] /\
    PickLevelForMemTableOutput BytewiseComparator 2097152 (vs_current vs') [5] [5] = Some 2%nat /\
    install (C := BytewiseComparator) (vs_current vs') (vs_pointers vs') GapExample.flush = Some (v1, p1) /\
    install (C := BytewiseComparator) v1 p1 (results_edit c GapExample.outputs) = Some (v2, p2) /\
    map f_number (level_files v2 2) = [9; 8] /\
    FindFile BytewiseComparator (level_files v2 2) (GapExample.ik 5 40) = Some 0.
Proof.
  eexists _, _, _, _, _, _. split; [vm_compute; reflexivity|]. split; [reflexivity|]. split; [vm_compute; reflexivity|].
  split; [vm_compute; reflexivity|]. split; [vm_compute; reflexivity|]. split; vm_compute; reflexivity.
Qed.
