(* ===== verification/LvDbIter.v ===== *)
(** * leveldb: the iterator of the database (db/db_iter.cc)

    The iterator that users see.  It runs over an iterator of internal keys and
    shows, for each user key, the newest value at a sequence number.  The
    database, which is told about samples of the keys that are read, is an
    interface.  The capacity of the saved value is not modelled: it only decides
    when memory is given back. *)
From Stdlib Require Import ZArith Lia Bool String List.
From stdpp Require Import base list numbers.
From S2P Require Import Prelude LvCoding LvEnv LvComparator LvDbFormat LvSkipList LvIterator.

(** [config::kReadBytesPeriod] *)
Definition kReadBytesPeriod : Z := 1048576.

(** [DBImpl::RecordReadSample]; no result stands for a violated assertion. *)
Class ReadSampler (D : Type) := { db_RecordReadSample : D -> list Z -> option D }.

Record DBIter (D I : Type) := MkDBIter {
  db_ : D;
  d_iter : I;
  d_sequence : Z;
  d_status : Status;
  saved_key_ : list Z;
  saved_value_ : list Z;
  d_direction : Direction;
  d_valid : bool;
  d_rnd : Z;
  bytes_until_read_sampling_ : Z;
}.
Arguments MkDBIter {D I}. Arguments db_ {D I}. Arguments d_iter {D I}. Arguments d_sequence {D I}. Arguments d_status {D I}.
Arguments saved_key_ {D I}. Arguments saved_value_ {D I}. Arguments d_direction {D I}. Arguments d_valid {D I}.
Arguments d_rnd {D I}. Arguments bytes_until_read_sampling_ {D I}.

(** The value and the next state of the generator. *)
Definition RandomCompactionPeriod (rnd : Z) : Z * Z :=
  let rnd := Random_Next rnd in (rnd mod (2 * kReadBytesPeriod), rnd).

Section DBIter.
Context {D I : Type} {RS : ReadSampler D} {It : Iter I} (user_comparator_ : Comparator).
Notation Iterator := (DBIter D I).
Notation compare := (@Compare user_comparator_).

Definition make_DBIter (db : D) (iter : I) (s seed : Z) : Iterator :=
  let '(period, rnd) := RandomCompactionPeriod (Random_make seed) in
  MkDBIter db iter s OK [] [] kForward false rnd period.

Definition set_iter (i : I) (d : Iterator) : Iterator :=
  MkDBIter (db_ d) i (d_sequence d) (d_status d) (saved_key_ d) (saved_value_ d) (d_direction d) (d_valid d) (d_rnd d)
    (bytes_until_read_sampling_ d).
Definition set_saved (k v : list Z) (d : Iterator) : Iterator :=
  MkDBIter (db_ d) (d_iter d) (d_sequence d) (d_status d) k v (d_direction d) (d_valid d) (d_rnd d)
    (bytes_until_read_sampling_ d).
Definition set_mode (dir : Direction) (valid : bool) (d : Iterator) : Iterator :=
  MkDBIter (db_ d) (d_iter d) (d_sequence d) (d_status d) (saved_key_ d) (saved_value_ d) dir valid (d_rnd d)
    (bytes_until_read_sampling_ d).
Definition set_dstatus (s : Status) (d : Iterator) : Iterator :=
  MkDBIter (db_ d) (d_iter d) (d_sequence d) s (saved_key_ d) (saved_value_ d) (d_direction d) (d_valid d) (d_rnd d)
    (bytes_until_read_sampling_ d).

Definition set_sampling (db : D) (rnd bytes_until : Z) (d : Iterator) : Iterator :=
  MkDBIter db (d_iter d) (d_sequence d) (d_status d) (saved_key_ d) (saved_value_ d) (d_direction d) (d_valid d) rnd bytes_until.

(** [SaveKey] and [ClearSavedValue] *)
Definition SaveKey (k : list Z) (d : Iterator) : Iterator := set_saved k (saved_value_ d) d.
Definition ClearSavedValue (d : Iterator) : Iterator := set_saved (saved_key_ d) [] d.

(** ** Reading a key *)

(** The loop that samples what is read. *)
Fixpoint sample_loop (fuel : nat) (bytes_read : Z) (k : list Z) (db : D) (rnd bytes_until : Z) : option (D * Z * Z) :=
  match fuel with
  | O => None
  | S fuel =>
      if bytes_until <? bytes_read then
        let '(period, rnd) := RandomCompactionPeriod rnd in
        match db_RecordReadSample db k with
        | None => None
        | Some db => sample_loop fuel bytes_read k db rnd (u64 (bytes_until + period))
        end
      else Some (db, rnd, bytes_until)
  end.

(** At most every second period is zero. *)
Definition sample_fuel (bytes_read : Z) : nat := 2 * S (Z.to_nat bytes_read).

Definition ParseKey (d : Iterator) : option (option ParsedInternalKey * Iterator) :=
  let k := it_key (d_iter d) in
  let bytes_read := u64 (Z.of_nat (length k) + Z.of_nat (length (it_value (d_iter d)))) in
  match sample_loop (sample_fuel bytes_read) bytes_read k (db_ d) (d_rnd d) (bytes_until_read_sampling_ d) with
  | None => None
  | Some (db, rnd, bytes_until) =>
      let d := set_sampling db rnd (u64 (bytes_until - bytes_read)) d in
      match ParseInternalKey k with
      | None => Some (None, set_dstatus (Corruption "corrupted internal key in DBIter") d)
      | Some ikey => Some (Some ikey, d)
      end
  end.

(** ** Forward *)

(** The key to skip is always [saved_key_]. *)
Fixpoint FindNextUserEntry (fuel : nat) (skipping : bool) (d : Iterator) : option Iterator :=
  match fuel with
  | O => None
  | S fuel =>
      match ParseKey d with
      | None => None
      | Some (ikey, d) =>
          let '(found, skipping, d) :=
            match ikey with
            | None => (false, skipping, d)
            | Some ikey =>
                if sequence ikey <=? d_sequence d then
                  match type ikey with
                  | kTypeDeletion => (false, true, SaveKey (user_key ikey) d)
                  | kTypeValue =>
                      if skipping && (compare (user_key ikey) (saved_key_ d) <=? 0)
                      then (false, skipping, d)
                      else (true, skipping, SaveKey [] (set_mode (d_direction d) true d))
                  end
                else (false, skipping, d)
            end in
          if found then Some d
          else
            match it_Next (d_iter d) with
            | None => None
            | Some i =>
                let d := set_iter i d in
                if it_Valid i then FindNextUserEntry fuel skipping d
                else Some (set_mode (d_direction d) false (SaveKey [] d))
            end
      end
  end.

Definition DBIter_Next (fuel : nat) (d : Iterator) : option Iterator :=
  if negb (d_valid d) then None
  else
    let '(moved, d) :=
      match d_direction d with
      | kReverse =>
          (if negb (it_Valid (d_iter d)) then it_SeekToFirst (d_iter d) else it_Next (d_iter d),
           set_mode kForward (d_valid d) d)
      | kForward => (it_Next (d_iter d), SaveKey (ExtractUserKey (it_key (d_iter d))) d)
      end in
    match moved with
    | None => None
    | Some i =>
        let d := set_iter i d in
        if negb (it_Valid i) then Some (SaveKey [] (set_mode (d_direction d) false d))
        else FindNextUserEntry fuel true d
    end.

(** ** Backward *)

(** The loop of [FindPrevUserEntry], which ends at a [break] or at the front. *)
Fixpoint find_prev_loop (fuel : nat) (value_type : ValueType) (d : Iterator) : option (ValueType * Iterator) :=
  match fuel with
  | O => None
  | S fuel =>
      match ParseKey d with
      | None => None
      | Some (ikey, d) =>
          let '(stop, value_type, d) :=
            match ikey with
            | None => (false, value_type, d)
            | Some ikey =>
                if sequence ikey <=? d_sequence d then
                  if negb (bool_decide (value_type = kTypeDeletion)) && (compare (user_key ikey) (saved_key_ d) <? 0)
                  then (true, value_type, d)
                  else
                    match type ikey with
                    | kTypeDeletion => (false, kTypeDeletion, set_saved [] [] d)
                    | kTypeValue =>
                        (false, kTypeValue, set_saved (ExtractUserKey (it_key (d_iter d))) (it_value (d_iter d)) d)
                    end
                else (false, value_type, d)
            end in
          if stop then Some (value_type, d)
          else
            match it_Prev (d_iter d) with
            | None => None
            | Some i =>
                let d := set_iter i d in
                if it_Valid i then find_prev_loop fuel value_type d else Some (value_type, d)
            end
      end
  end.

Definition FindPrevUserEntry (fuel : nat) (d : Iterator) : option Iterator :=
  match (if it_Valid (d_iter d) then find_prev_loop fuel kTypeDeletion d else Some (kTypeDeletion, d)) with
  | None => None
  | Some (kTypeDeletion, d) => Some (set_mode kForward false (set_saved [] [] d))
  | Some (kTypeValue, d) => Some (set_mode (d_direction d) true d)
  end.

(** The scan back over the entries of the current key. *)
Fixpoint scan_back (fuel : nat) (d : Iterator) : option (bool * Iterator) :=
  match fuel with
  | O => None
  | S fuel =>
      match it_Prev (d_iter d) with
      | None => None
      | Some i =>
          let d := set_iter i d in
          if negb (it_Valid i) then Some (false, set_saved [] [] (set_mode (d_direction d) false d))
          else if compare (ExtractUserKey (it_key i)) (saved_key_ d) <? 0 then Some (true, d)
          else scan_back fuel d
      end
  end.

Definition DBIter_Prev (fuel : nat) (d : Iterator) : option Iterator :=
  if negb (d_valid d) then None
  else
    match d_direction d with
    | kForward =>
        match scan_back fuel (SaveKey (ExtractUserKey (it_key (d_iter d))) d) with
        | None => None
        | Some (false, d) => Some d
        | Some (true, d) => FindPrevUserEntry fuel (set_mode kReverse (d_valid d) d)
        end
    | kReverse => FindPrevUserEntry fuel d
    end.

(** ** Positioning *)

(** What follows a positioning of the iterator in the forward direction. *)
Definition start_forward (fuel : nat) (moved : option I) (d : Iterator) : option Iterator :=
  match moved with
  | None => None
  | Some i =>
      let d := set_iter i d in
      if it_Valid i then FindNextUserEntry fuel false d else Some (set_mode (d_direction d) false d)
  end.

Definition DBIter_Seek (fuel : nat) (d : Iterator) (target : list Z) : option Iterator :=
  let d := ClearSavedValue (set_mode kForward (d_valid d) d) in
  let d := SaveKey (AppendInternalKey [] (ParsedKey target (d_sequence d) kValueTypeForSeek)) d in
  start_forward fuel (it_Seek (d_iter d) (saved_key_ d)) d.

Definition DBIter_SeekToFirst (fuel : nat) (d : Iterator) : option Iterator :=
  let d := ClearSavedValue (set_mode kForward (d_valid d) d) in
  start_forward fuel (it_SeekToFirst (d_iter d)) d.

Definition DBIter_SeekToLast (fuel : nat) (d : Iterator) : option Iterator :=
  let d := ClearSavedValue (set_mode kReverse (d_valid d) d) in
  match it_SeekToLast (d_iter d) with
  | None => None
  | Some i => FindPrevUserEntry fuel (set_iter i d)
  end.

Definition DBIter_key (d : Iterator) : list Z :=
  match d_direction d with kForward => ExtractUserKey (it_key (d_iter d)) | kReverse => saved_key_ d end.
Definition DBIter_value (d : Iterator) : list Z :=
  match d_direction d with kForward => it_value (d_iter d) | kReverse => saved_value_ d end.
Definition DBIter_status (d : Iterator) : Status := if ok (d_status d) then it_status (d_iter d) else d_status d.

(** The loops are given [fuel] rounds, enough when it is more than the number of
    internal entries. *)
Definition db_iter (fuel : nat) : Iter Iterator := {|
  it_Valid := d_valid;
  it_SeekToFirst := DBIter_SeekToFirst fuel;
  it_SeekToLast := DBIter_SeekToLast fuel;
  it_Seek := DBIter_Seek fuel;
  it_Next := DBIter_Next fuel;
  it_Prev := DBIter_Prev fuel;
  it_key := DBIter_key;
  it_value := DBIter_value;
  it_status := DBIter_status;
|}.
End DBIter.
