(* ===== verification/LvDbIterProps.v ===== *)
(** * leveldb: the database iterator shows the newest values (theorems about LvDbIter)

    The rows that a user sees at a sequence number, and that the iterator is a
    cursor on them. *)
From Stdlib Require Import ZArith Lia Bool List Sorted.
From stdpp Require Import base list numbers sorting.
From S2P Require Import Prelude LvCoding LvEnv LvComparator LvDbFormat LvSkipList LvMemTable LvMemTableProps LvBlock LvBlockProps.
From S2P Require Import LvTableRead LvTableCache LvIterator LvMergerProps LvDbIter.

(** ** Sampling *)

Definition seed_ok (rnd : Z) : Prop := 0 < rnd < 2147483647.

Lemma Random_make_ok s : seed_ok (Random_make s).
Proof.
  unfold Random_make, seed_ok. assert (H : 0 <= Z.land s 0x7fffffff < 2147483648).
  { change 0x7fffffff with (Z.ones 31). rewrite Z.land_ones by lia. apply Z.mod_pos_bound. lia. }
  destruct (Z.eqb_spec (Z.land s 0x7fffffff) 0); [simpl; lia|]. destruct (Z.eqb_spec (Z.land s 0x7fffffff) 2147483647); simpl; lia.
Qed.

Lemma period_ok rnd p rnd' : seed_ok rnd -> RandomCompactionPeriod rnd = (p, rnd') -> seed_ok rnd' /\ 0 <= p < 2 ^ 21.
Proof.
  intros H [= <- <-]. destruct (Random_Next_mod rnd H) as [_ Hn]. split; [exact Hn|]. zpow. apply Z.mod_pos_bound. reflexivity.
Qed.

(** No two periods in a row are zero. *)
Lemma zero_periods_apart :
  forallb (fun m => negb (Random_Next (Z.of_nat m * 2097152) mod 2097152 =? 0)) (seq 1 1023) = true.
Proof. vm_compute. reflexivity. Qed.

Lemma period_twice rnd p1 rnd1 p2 rnd2 : seed_ok rnd -> RandomCompactionPeriod rnd = (p1, rnd1) ->
  RandomCompactionPeriod rnd1 = (p2, rnd2) -> 1 <= p1 + p2.
Proof.
  intros H E1 E2. destruct (period_ok _ _ _ H E1) as [H1 Hp1], (period_ok rnd1 p2 rnd2) as [H2 Hp2]; [now destruct (period_ok _ _ _ H E1)|done|].
  destruct (Z.eq_dec p1 0) as [Z1|]; [|lia]. destruct (Z.eq_dec p2 0) as [Z2|]; [|lia]. exfalso.
  injection E1 as E1 R1. injection E2 as E2 R2. unfold kReadBytesPeriod in *. change (2 * 1048576) with 2097152 in *. rewrite R1 in E1. rewrite R2 in E2.
  assert (Em : rnd1 = rnd1 / 2097152 * 2097152) by (pose proof (Z.div_mod rnd1 2097152 ltac:(lia)); lia).
  unfold seed_ok in H1. assert (Hm : 1 <= rnd1 / 2097152 <= 1023).
  { split; [|apply Z.lt_succ_r, Z.div_lt_upper_bound; lia]. destruct (Z.le_gt_cases 1 (rnd1 / 2097152)); [done|].
    pose proof (Z.div_pos rnd1 2097152 ltac:(lia) ltac:(lia)). lia. }
  pose proof zero_periods_apart as Hz. rewrite forallb_forall in Hz. specialize (Hz (Z.to_nat (rnd1 / 2097152))).
  rewrite Z2Nat.id, <- Em, R2 in Hz by lia. rewrite in_seq in Hz. specialize (Hz ltac:(lia)). rewrite E2, Z2 in Hz. done.
Qed.

(** What the database promises about samples. *)
Class ReadSamplerLaws (valid : list Z -> Prop) (D : Type) {RS : ReadSampler D} := {
  sampler_ok : D -> Prop;
  sampler_step db k : sampler_ok db -> internal_valid valid k ->
    exists db', db_RecordReadSample db k = Some db' /\ sampler_ok db';
}.

Section Sample.
Context {valid : list Z -> Prop} {D : Type} {RS : ReadSampler D} {RL : ReadSamplerLaws valid D}.

(** The loop ends: two rounds add at least one byte. *)
Lemma sample_loop_ok m n db rnd b k : Z.of_nat m = Z.max 0 (n - b) -> 0 <= b -> b < n + 2 ^ 22 -> 0 <= n < 2 ^ 62 -> sampler_ok db -> seed_ok rnd ->
  internal_valid valid k ->
  forall fuel, (2 * m < fuel)%nat -> exists db' rnd' b', sample_loop fuel n k db rnd b = Some (db', rnd', b') /\
    sampler_ok db' /\ seed_ok rnd' /\ n <= b' < n + 2 ^ 22.
Proof.
  revert db rnd b. induction m as [m IH] using lt_wf_ind. intros db rnd b Em Hb Hb' Hn Hdb Hr Hk [|fuel] Hf; [lia|]. cbn [sample_loop].
  destruct (Z.ltb_spec b n) as [Hlt|Hge]; [|exists db, rnd, b; split_and!; [done|done|done|lia|lia]].
  destruct (RandomCompactionPeriod rnd) as [p1 rnd1] eqn:E1. destruct (period_ok _ _ _ Hr E1) as [Hr1 Hp1].
  destruct (sampler_step db k Hdb Hk) as (db1 & Es & Hdb1). rewrite Es.
 assert (Ew : u64 (b + p1) = b + p1) by (apply wrapu_small; zpow; lia). rewrite Ew.
  destruct fuel as [|fuel]; [lia|]. cbn [sample_loop].
  destruct (Z.ltb_spec (b + p1) n) as [Hlt1|Hge1]; [|exists db1, rnd1, (b + p1); split_and!; [done|done|done|lia|lia]].
  destruct (RandomCompactionPeriod rnd1) as [p2 rnd2] eqn:E2. destruct (period_ok _ _ _ Hr1 E2) as [Hr2 Hp2].
  destruct (sampler_step db1 k Hdb1 Hk) as (db2 & Es2 & Hdb2). rewrite Es2.
  pose proof (period_twice _ _ _ _ _ Hr E1 E2) as Htwo.
  assert (Ew2 : u64 (b + p1 + p2) = b + p1 + p2) by (apply wrapu_small; zpow; lia). rewrite Ew2.
  destruct (Z.le_gt_cases n (b + p1 + p2)) as [Hle|Hgt].
  - destruct fuel as [|fuel]; [lia|]. cbn [sample_loop]. destruct (Z.ltb_spec (b + p1 + p2) n); [lia|].
    exists db2, rnd2, (b + p1 + p2). split_and!; [done|done|done|lia|lia].
  - apply (IH (Z.to_nat (n - (b + p1 + p2)))); try done; lia.
Qed.
End Sample.

(** ** The rows *)

Section Rows.
Context {C : Comparator} {valid : list Z -> Prop} {CL : ComparatorLaws C valid} (s : Z).
Notation entries_ok := (LvTableCache.entries_ok (C := C) (valid := valid)).
Notation icmp := (internal_compare C).

Definition row (a : added) : list Z * list Z := (a_key a, a_value a).

(** Entries up to this key are hidden. *)
Definition hidden_by (skip : option (list Z)) (a : added) : bool :=
  match skip with Some k => @Compare C (a_key a) k <=? 0 | None => false end.

(** The rows of entries that follow others, and what the later ones have to skip. *)
Fixpoint user_rows (skip : option (list Z)) (l : list added) : list (list Z * list Z) :=
  match l with
  | [] => []
  | a :: l =>
      if s <? a_seq a then user_rows skip l
      else
        match a_type a with
        | kTypeDeletion => user_rows (Some (a_key a)) l
        | kTypeValue => if hidden_by skip a then user_rows skip l else row a :: user_rows (Some (a_key a)) l
        end
  end.

Fixpoint next_skip (skip : option (list Z)) (l : list added) : option (list Z) :=
  match l with
  | [] => skip
  | a :: l =>
      if s <? a_seq a then next_skip skip l
      else
        match a_type a with
        | kTypeDeletion => next_skip (Some (a_key a)) l
        | kTypeValue => if hidden_by skip a then next_skip skip l else next_skip (Some (a_key a)) l
        end
  end.

Lemma rows_app skip l1 l2 : user_rows skip (l1 ++ l2) = user_rows skip l1 ++ user_rows (next_skip skip l1) l2.
Proof.
  revert skip. induction l1 as [|a l1 IH]; intros skip; [done|]. simpl. destruct (s <? a_seq a); [done|].
  destruct (a_type a); [done|]. destruct (hidden_by skip a); [done|]. simpl. now rewrite IH.
Qed.

Lemma skip_app skip l1 l2 : next_skip skip (l1 ++ l2) = next_skip (next_skip skip l1) l2.
Proof.
  revert skip. induction l1 as [|a l1 IH]; intros skip; [done|]. simpl. destruct (s <? a_seq a); [done|].
  destruct (a_type a); [done|]. now destruct (hidden_by skip a).
Qed.

Definition invisible (a : added) : Prop := s < a_seq a.

Lemma rows_invisible skip l : Forall invisible l -> user_rows skip l = [] /\ next_skip skip l = skip.
Proof.
  intros H. induction H as [|a l Ha H IH]; [done|]. simpl. unfold invisible in Ha. destruct (Z.ltb_spec s (a_seq a)); [done|lia].
Qed.

Lemma next_skip_in skip l k : next_skip skip l = Some k -> skip = Some k \/ exists a, a ∈ l /\ a_seq a <= s /\ k = a_key a.
Proof.
  revert skip. induction l as [|a l IH]; intros skip; simpl; [now left|].
  assert (Hlater : forall sk, next_skip sk l = Some k -> sk = skip \/ sk = Some (a_key a) /\ a_seq a <= s ->
    skip = Some k \/ exists b, b ∈ a :: l /\ a_seq b <= s /\ k = a_key b).
  { intros sk E Hsk. destruct (IH sk E) as [->|(b & Hb & H)]; [|right; exists b; split; [now right|done]].
    destruct Hsk as [->|[[= ->] Ha]]; [now left|]. right. exists a. split; [now left|done]. }
  destruct (Z.ltb_spec s (a_seq a)); [intros E; apply (Hlater _ E); now left|].
  destruct (a_type a); [intros E; apply (Hlater _ E); right; split; [done|lia]|].
  destruct (hidden_by skip a); intros E; apply (Hlater _ E); [now left|right; split; [done|lia]].
Qed.

(** Every row comes from a visible value that nothing before it hides. *)
Lemma rows_from skip l k v : (k, v) ∈ user_rows skip l -> exists pre a post, l = pre ++ a :: post /\ (k, v) = row a /\
  a_seq a <= s /\ a_type a = kTypeValue /\ hidden_by (next_skip skip pre) a = false.
Proof.
  revert skip. induction l as [|a l IH]; intros skip; cbn [user_rows]; [now intros H%elem_of_nil|].
  assert (Hlater : forall sk, next_skip skip [a] = sk -> (k, v) ∈ user_rows sk l ->
    exists pre b post, a :: l = pre ++ b :: post /\ (k, v) = row b /\ a_seq b <= s /\ a_type b = kTypeValue /\ hidden_by (next_skip skip pre) b = false).
  { intros sk <- H. destruct (IH _ H) as (pre & b & post & -> & Hb). exists (a :: pre), b, post. split; [done|].
    change (a :: pre) with ([a] ++ pre). now rewrite skip_app. }
  cbn [next_skip] in Hlater. destruct (Z.ltb_spec s (a_seq a)); [now apply Hlater|].
  destruct (a_type a) eqn:Et; [now apply Hlater|]. destruct (hidden_by skip a) eqn:Eh; [now apply Hlater|].
  intros [E|Hin]%elem_of_cons; [|now apply (Hlater _ eq_refl) in Hin]. exists [], a, l. done.
Qed.

Lemma rows_in skip l k v : (k, v) ∈ user_rows skip l -> exists a, a ∈ l /\ a_seq a <= s /\ (k, v) = row a.
Proof.
  intros (pre & a & post & -> & E & Hs & _)%rows_from. exists a. split; [apply elem_of_app; right; now left|]. done.
Qed.

Lemma iter_entries_valid l : entries_ok l -> Forall (fun a => valid (a_key a)) l.
Proof. intros [H _]. eapply Forall_impl; [exact H|]. now intros a [_ V]. Qed.

(** The order of the user keys of sorted entries. *)
Lemma keys_ordered pre a post b c : entries_ok (pre ++ a :: post) -> b ∈ pre ++ [a] -> c ∈ a :: post -> Compare (a_key b) (a_key c) <= 0.
Proof.
  intros Hok Hb Hc. destruct (entries_cut _ _ _ Hok) as (Va & Hpre & Hpost).
  assert (Hb' : Compare (a_key b) (a_key a) <= 0 /\ valid (a_key b)).
  { apply elem_of_app in Hb as [Hb|Hb%list_elem_of_singleton]; [|subst; split; [rewrite Compare_refl; [lia|apply Va]|apply Va]].
    destruct (Hpre b Hb) as [Vb Hlt]. split; [|apply Vb]. destruct (entries_order b a Vb Va Hlt) as [H|[H _]]; [|unfold same_key in H]; lia. }
  assert (Hc' : Compare (a_key a) (a_key c) <= 0 /\ valid (a_key c)).
  { apply elem_of_cons in Hc as [->|Hc]; [split; [rewrite Compare_refl; [lia|apply Va]|apply Va]|].
    destruct (Hpost c Hc) as [Vc Hlt]. split; [|apply Vc]. destruct (entries_order a c Va Vc Hlt) as [H|[H _]]; [|unfold same_key in H]; lia. }
  apply (Compare_trans _ (a_key a)); [apply Hb'|apply Va|apply Hc'|apply Hb'|apply Hc'].
Qed.

(** A visible entry is at or before what is skipped after it. *)
Lemma skip_covers l b : entries_ok l -> b ∈ l -> a_seq b <= s -> exists k, next_skip None l = Some k /\ Compare (a_key b) k <= 0.
Proof.
  intros Hok Hb Hs. apply list_elem_of_split in Hb as (l1 & l2 & ->). rewrite skip_app. cbn [next_skip].
  destruct (Z.ltb_spec s (a_seq b)); [lia|]. destruct (entries_cut _ _ _ Hok) as (Vb & Hpre & Hpost).
  assert (Hskip : exists k, match a_type b with kTypeDeletion => next_skip (Some (a_key b)) l2
      | kTypeValue => if hidden_by (next_skip None l1) b then next_skip (next_skip None l1) l2 else next_skip (Some (a_key b)) l2 end = next_skip (Some k) l2 /\
      Compare (a_key b) k <= 0 /\ valid k).
  { assert (Hself : Compare (a_key b) (a_key b) <= 0 /\ valid (a_key b)) by (split; [rewrite Compare_refl; [lia|apply Vb]|apply Vb]).
    destruct (a_type b); [now exists (a_key b)|]. destruct (hidden_by _ b) eqn:Eh; [|now exists (a_key b)].
    destruct (next_skip None l1) as [k|] eqn:Ek; [|done]. exists k. split; [done|]. simpl in Eh. apply Z.leb_le in Eh. split; [done|].
    destruct (next_skip_in _ _ _ Ek) as [|(c & Hc & _ & ->)]; [done|]. apply (Hpre c Hc). }
  destruct Hskip as (k & -> & Hk & Vk). clear -Hk Vk Hpost Vb CL.
  revert k Hk Vk. induction l2 as [|c l2 IH]; intros k Hk Vk; [now exists k|]. simpl.
  assert (Hl : forall d, d ∈ l2 -> added_valid (valid := valid) d /\ icmp (ikey_of b) (ikey_of d) < 0) by (intros d Hd; apply Hpost; now right).
  destruct (Hpost c ltac:(now left)) as [Vc Hlt].
  assert (Compare (a_key b) (a_key c) <= 0) by (destruct (entries_order b c Vb Vc Hlt) as [H|[H _]]; [|unfold same_key in H]; lia).
  destruct (s <? a_seq c); [now apply IH|]. destruct (a_type c); [apply IH; [done|done|apply Vc]|].
  destruct (_ <=? 0); [now apply IH|]. apply IH; [done|done|apply Vc].
Qed.

(** ** The entry that a row comes from *)

Definition current_entry (pre : list added) (a : added) : Prop :=
  a_seq a <= s /\ a_type a = kTypeValue /\ hidden_by (next_skip None pre) a = false.

Lemma current_rows pre a post : current_entry pre a ->
  user_rows None (pre ++ a :: post) = user_rows None pre ++ row a :: user_rows (Some (a_key a)) post /\
  next_skip None (pre ++ [a]) = Some (a_key a).
Proof.
  intros (Hs & Ht & Hh). rewrite rows_app, skip_app. simpl. destruct (Z.ltb_spec s (a_seq a)); [lia|]. now rewrite Ht, Hh.
Qed.

(** No visible entry of the same key is before it. *)
Lemma current_first pre a post b : entries_ok (pre ++ a :: post) -> current_entry pre a -> b ∈ pre -> a_seq b <= s ->
  Compare (a_key b) (a_key a) < 0.
Proof.
  intros Hok (_ & _ & Hh) Hb Hs. destruct (entries_cut _ _ _ Hok) as (Va & Hpre & _). destruct (entries_app _ _ Hok) as (Hok1 & _ & _).
  destruct (skip_covers pre b Hok1 Hb Hs) as (k & Ek & Hk). rewrite Ek in Hh. simpl in Hh. apply Z.leb_gt in Hh.
  destruct (next_skip_in _ _ _ Ek) as [|(c & Hc & _ & ->)]; [done|]. destruct (Hpre b Hb) as [[_ Vb] _], (Hpre c Hc) as [[_ Vc] _].
  apply Compare_antisym in Hh; [|done|apply Va]. apply (Compare_le_lt_trans _ (a_key c)); try done. apply Va.
Qed.

(** ** What the rows are *)

(** The rows behind a key have greater keys. *)
Lemma rows_after k0 l : valid k0 -> Forall (fun b => valid (a_key b) /\ Compare k0 (a_key b) <= 0) l ->
  forall k1 k v, valid k1 -> Compare k0 k1 <= 0 -> (k, v) ∈ user_rows (Some k1) l -> Compare k0 k < 0.
Proof.
  intros V0 Hl. induction Hl as [|b l [Vb Hb] Hl IH]; intros k1 k v V1 H1; cbn [user_rows]; [now intros H%elem_of_nil|].
  destruct (s <? a_seq b); [now apply IH|]. destruct (a_type b); [now apply IH|]. cbn [hidden_by].
  destruct (Z.leb_spec (Compare (a_key b) k1) 0) as [|Hgt]; [now apply IH|].
  intros [[= -> ->]|Hin]%elem_of_cons; [|now apply (IH _ _ _ Vb Hb) in Hin].
  apply Compare_antisym in Hgt; [|done|done]. now apply (Compare_le_lt_trans _ k1).
Qed.

Lemma rows_sorted skip l : entries_ok l -> StronglySorted (key_lt (C := C)) (user_rows skip l).
Proof.
  revert skip. induction l as [|a l IH]; intros skip Hok; cbn [user_rows]; [constructor|].
  destruct (entries_app [a] l Hok) as (_ & Hl & _). specialize (fun sk => IH sk Hl).
  destruct (s <? a_seq a); [apply IH|]. destruct (a_type a); [apply IH|]. destruct (hidden_by skip a); [apply IH|].
  constructor; [apply IH|]. apply Forall_forall. intros [k v] Hin.
  pose proof (iter_entries_valid _ Hok) as Hv. apply Forall_cons in Hv as [Va Hv].
  apply (rows_after (a_key a) l Va) with (k1 := a_key a) (v := v); [|done|rewrite Compare_refl; [lia|done]|done].
  rewrite Forall_forall in Hv |- *. intros b Hb. split; [now apply Hv|].
  apply (keys_ordered [] a l a b Hok); [now left|now right].
Qed.

(** The rows are the values that a lookup finds. *)
Lemma rows_spec l key v : entries_ok l -> valid key ->
  get_spec (C := C) l key s (Found v) <-> exists k, (k, v) ∈ user_rows None l /\ Compare k key = 0.
Proof.
  intros Hok Vk. split.
  - intros [[? _]|(a & Ha & Hka & Hs & Hmax & Ev)]; [done|]. destruct (a_type a) eqn:Et; [done|]. injection Ev as ->.
    apply list_elem_of_In, list_elem_of_split in Ha as (pre & post & ->). destruct (entries_cut _ _ _ Hok) as (Va & Hpre & _).
    exists (a_key a). split; [|done]. assert (Hc : current_entry pre a).
    { split; [done|]. split; [done|]. destruct (next_skip None pre) as [k|] eqn:Ek; [|done]. simpl. apply Z.leb_gt.
      destruct (next_skip_in None pre k Ek) as [|(b & Hb & Hsb & ->)]; [done|]. destruct (Hpre b Hb) as [Vb Hlt].
      apply Compare_antisym; [apply Vb|apply Va|]. destruct (entries_order b a Vb Va Hlt) as [|[Hsame Hle]]; [done|exfalso].
      assert (Hbk : Compare (a_key b) key = 0) by (apply (Compare_eq_trans _ (a_key a)); [apply Vb|apply Va|done|done|done]).
      assert (Hin : In b (pre ++ a :: post)) by (apply list_elem_of_In, elem_of_app; now left). specialize (Hmax b Hin Hbk Hsb).
      apply internal_compare_lt in Hlt. destruct (ikey_extract a (proj1 Va)) as [E1 E2], (ikey_extract b (proj1 Vb)) as [E3 E4].
      rewrite E1, E2, E3, E4 in Hlt. unfold same_key in Hsame. unfold tag_of in Hlt.
      destruct (Pack_value (a_seq a) (a_type a) (proj1 (proj1 Va))) as [P1 _], (Pack_value (a_seq b) (a_type b) (proj1 (proj1 Vb))) as [P2 _].
      rewrite P1, P2, Et in Hlt. destruct (a_type b); simpl in Hlt; lia. }
    destruct (current_rows pre a post Hc) as [-> _]. apply elem_of_app. right. now left.
  - intros (k & (pre & a & post & -> & [= -> ->] & Hs & Et & Hh)%rows_from & Hk). right. exists a.
    split; [apply list_elem_of_In, elem_of_app; right; now left|]. split; [done|]. split; [done|]. split; [|now rewrite Et].
    intros b Hb Hbk Hsb. apply list_elem_of_In, elem_of_app in Hb. destruct (entries_cut _ _ _ Hok) as (Va & Hpre & Hpost).
    destruct Hb as [Hb|[->|Hb]%elem_of_cons]; [exfalso|done|].
    + pose proof (current_first pre a post b Hok (conj Hs (conj Et Hh)) Hb Hsb) as Hlt. destruct (Hpre b Hb) as [[_ Vb] _].
      apply Compare_eq_sym in Hk; [|apply Va|done]. pose proof (Compare_eq_trans _ _ _ Vb Vk (proj2 Va) Hbk Hk). lia.
    + destruct (Hpost b Hb) as [Vb Hlt]. destruct (entries_order a b Va Vb Hlt) as [Hl|[_ ?]]; [exfalso|done].
      apply Compare_eq_sym in Hbk; [|apply Vb|done]. pose proof (Compare_eq_trans _ _ _ (proj2 Va) Vk (proj2 Vb) Hk Hbk). lia.
Qed.
End Rows.

(** ** The iterator *)

Section Iterator.
Context {C : Comparator} {valid : list Z -> Prop} {CL : ComparatorLaws C valid}.
Context {D I : Type} {RS : ReadSampler D} {RL : ReadSamplerLaws valid D} {It : Iter I}.
Context {IL : IterLaws (InternalKeyComparator C) (kvalid valid) I}.
Notation entries_ok := (LvTableCache.entries_ok (C := C) (valid := valid)).
Context (valid_bytes : forall k, valid k -> is_bytes k).
Context (s : Z) (L : list added) (Hs : 0 <= s < 2 ^ 56) (HL : entries_ok L).
Notation es := (map entry_pair L).
Notation iat := (it_at (IterLaws := IL)).
Notation user_rows := (user_rows (C := C) s).
Notation next_skip := (next_skip (C := C) s).
Notation current_entry := (current_entry (C := C) s).

(** What stays the same all the time. *)
Record steady (d : DBIter D I) : Prop := {
  st_sequence : d_sequence d = s;
  st_status : d_status d = OK;
  st_rnd : seed_ok (d_rnd d);
  st_bytes : 0 <= bytes_until_read_sampling_ d < 2 ^ 22;
  st_db : sampler_ok (db_ d);
}.

Lemma steady_iter i d : steady d -> steady (set_iter i d).
Proof. now intros []. Qed.
Lemma steady_saved k v d : steady d -> steady (set_saved k v d).
Proof. now intros []. Qed.
Lemma steady_mode dir b d : steady d -> steady (set_mode dir b d).
Proof. now intros []. Qed.
Hint Resolve steady_iter steady_saved steady_mode : core.

Lemma entry_at pre a post i : L = pre ++ a :: post -> iat i es (length pre) ->
  it_Valid i = true /\ it_key i = ikey_of a /\ it_value i = a_value a /\ added_valid (valid := valid) a.
Proof.
  intros E Hi. assert (He : es !! length pre = Some (entry_pair a)).
  { rewrite E, map_app. replace (length pre) with (length (map entry_pair pre)) by apply length_map. now apply list_lookup_middle. }
  destruct (it_at_entry i es _ _ _ Hi He) as [Ek Ev]. rewrite (it_at_valid i es _ Hi). apply lookup_lt_Some in He.
  split; [now apply Nat.ltb_lt|]. split; [done|]. split; [done|]. rewrite E in HL. now destruct (entries_cut _ _ _ HL).
Qed.

Lemma ParseKey_at d pre a post : steady d -> L = pre ++ a :: post -> iat (d_iter d) es (length pre) ->
  exists db rnd b, ParseKey d = Some (Some (ParsedKey (a_key a) (a_seq a) (a_type a)), set_sampling db rnd b d) /\
    steady (set_sampling db rnd b d).
Proof.
  intros Hd E Hi. destruct (entry_at pre a post _ E Hi) as (_ & Ek & Ev & Va). unfold ParseKey. rewrite Ek, Ev. destruct Va as [Oa Va].
  assert (Hlen : 0 <= Z.of_nat (length (ikey_of a)) + Z.of_nat (length (a_value a)) < 2 ^ 62).
  { destruct Oa as (_ & _ & _ & H1 & H2). unfold ikey_of, PutFixed64. rewrite length_app, length_EncodeFixed64. lia. }
  rewrite wrapu_small by lia. set (n := Z.of_nat _ + _) in *. destruct Hd as [E1 E2 Hr Hb Hdb].
  destruct (sample_loop_ok (valid := valid) (Z.to_nat (n - bytes_until_read_sampling_ d)) n (db_ d) (d_rnd d) (bytes_until_read_sampling_ d) (ikey_of a))
    with (fuel := sample_fuel n) as (db & rnd & b & Es & Hdb' & Hr' & Hb'); [lia|lia|lia|done|done|done|now apply ikey_valid|unfold sample_fuel; lia|].
  rewrite Es, (Parse_ikey a Oa). exists db, rnd, (u64 (b - n)). split; [done|]. constructor; try done.
  cbn. rewrite wrapu_small by lia. lia.
Qed.

(** The iterator after a step. *)
Lemma next_at pre a post i : L = pre ++ a :: post -> iat i es (length pre) ->
  exists i', it_Next i = Some i' /\ iat i' es (length (pre ++ [a])) /\ it_Valid i' = negb (bool_decide (post = [])).
Proof.
  intros E Hi. destruct (it_next_at i es _ Hi) as (i' & Ei & Hi'); [rewrite length_map, E, length_app; simpl; lia|].
  exists i'. split; [done|]. rewrite length_app, Nat.add_1_r. split; [done|]. rewrite (it_at_valid _ _ _ Hi'), length_map, E, length_app.
  destruct post as [|b post]; simpl; [apply Nat.ltb_ge|apply Nat.ltb_lt]; lia.
Qed.

(** The position of the last entry of a prefix, or none. *)
Definition end_of (pre : list added) : nat := match pre with [] => length L | _ => length pre - 1 end.

Lemma prev_at pre a post i : L = pre ++ a :: post -> iat i es (length pre) ->
  exists i', it_Prev i = Some i' /\ iat i' es (end_of pre).
Proof.
  intros E Hi. destruct (it_prev_at i es _ Hi) as (i' & Ei & Hi'); [rewrite length_map, E, length_app; simpl; lia|].
  exists i'. split; [done|]. rewrite length_map in Hi'. unfold end_of. destruct pre as [|b pre]; [done|]. simpl in *. now rewrite Nat.sub_0_r.
Qed.

Lemma end_of_snoc pre x : end_of (pre ++ [x]) = length pre.
Proof. unfold end_of. rewrite length_app. destruct pre; simpl; lia. Qed.

Lemma end_of_all : end_of L = (length L - 1)%nat.
Proof. unfold end_of. now case L. Qed.

Lemma end_invalid i : iat i es (length L) -> it_Valid i = false.
Proof. intros Hi. rewrite (it_at_valid _ _ _ Hi), length_map. apply Nat.ltb_irrefl. Qed.

(** ** Positions *)

(** Moving forward the iterator is at the entry of the row, moving backward
    before all visible entries of its key. *)
Definition forward_at (d : DBIter D I) (n : nat) : Prop :=
  exists pre a post, L = pre ++ a :: post /\ current_entry pre a /\ iat (d_iter d) es (length pre) /\
    d_direction d = kForward /\ d_valid d = true /\ n = length (user_rows None pre).

Definition reverse_at (d : DBIter D I) (n : nat) : Prop :=
  exists pre mid a post, L = pre ++ mid ++ a :: post /\ Forall (invisible s) mid /\ current_entry (pre ++ mid) a /\
    iat (d_iter d) es (end_of pre) /\ d_direction d = kReverse /\ d_valid d = true /\
    (saved_key_ d, saved_value_ d) = row a /\ n = length (user_rows None pre).

Definition past_end (d : DBIter D I) (n : nat) : Prop :=
  d_valid d = false /\ n = length (user_rows None L) /\ exists p, iat (d_iter d) es p.

Definition positioned (d : DBIter D I) (n : nat) : Prop := steady d /\ (forward_at d n \/ reverse_at d n \/ past_end d n).

(** ** Forward *)

(** What has to be skipped is what the entries before leave. *)
Definition skip_agrees (pre post : list added) (skip : option (list Z)) : Prop :=
  forall c, c ∈ post -> hidden_by (C := C) skip c = hidden_by (C := C) (next_skip None pre) c.

Notation skip_of skipping d := (if (skipping : bool) then Some (saved_key_ d) else None).

(** A round that goes on to the next entry. *)
Lemma go_on fuel skipping d pre a post n : L = pre ++ a :: post -> steady d -> d_direction d = kForward ->
  iat (d_iter d) es (length pre) -> (post = [] -> n = length (user_rows None L)) ->
  (post <> [] -> forall i', iat i' es (length (pre ++ [a])) ->
    exists d', FindNextUserEntry C fuel skipping (set_iter i' d) = Some d' /\ positioned d' n) ->
  exists d', match it_Next (d_iter d) with
    | None => None
    | Some i => let d := set_iter i d in if it_Valid i then FindNextUserEntry C fuel skipping d
        else Some (set_mode (d_direction d) false (SaveKey [] d)) end = Some d' /\ positioned d' n.
Proof.
  intros E Hd Edir Hi Hn Hgo. destruct (next_at pre a post _ E Hi) as (i' & En & Hi' & Ev). rewrite En, Ev.
  destruct post as [|c post]; cbn [bool_decide negb]; [|now apply Hgo].
  eexists. split; [reflexivity|]. split; [unfold SaveKey; auto|]. right. right. split; [done|]. split; [now apply Hn|].
  now exists (length (pre ++ [a])).
Qed.

Lemma find_next_ok post : forall fuel pre d skipping, (length post <= fuel)%nat -> L = pre ++ post -> post <> [] -> steady d ->
  d_direction d = kForward -> iat (d_iter d) es (length pre) -> skip_agrees pre post (skip_of skipping d) ->
  exists d', FindNextUserEntry C fuel skipping d = Some d' /\ positioned d' (length (user_rows None pre)).
Proof.
  induction post as [|a post IH]; intros fuel pre d skipping Hf E Hne Hd Edir Hi Hsk; [done|clear Hne].
  destruct fuel as [|fuel]; [simpl in Hf; lia|]. cbn [FindNextUserEntry].
  destruct (ParseKey_at d pre a post Hd E Hi) as (db & rnd & b & Ep & Hd'). rewrite Ep. set (d1 := set_sampling db rnd b d) in *.
  change (d_sequence d1) with (d_sequence d). rewrite (st_sequence d Hd). cbn [sequence user_key type].
  (* going on with the next entry, the row of which is not [a] *)
  assert (Hgo : forall skipping' d2, steady d2 -> d_direction d2 = kForward -> d_iter d2 = d_iter d ->
    user_rows None (pre ++ [a]) = user_rows None pre -> skip_agrees (pre ++ [a]) post (skip_of skipping' d2) ->
    exists d', match it_Next (d_iter d2) with
      | None => None
      | Some i => let d := set_iter i d2 in if it_Valid i then FindNextUserEntry C fuel skipping' d
          else Some (set_mode (d_direction d) false (SaveKey [] d)) end = Some d' /\ positioned d' (length (user_rows None pre))).
  { intros skipping' d2 H2 Ed2 Ei2 Er Hsk2. apply (go_on fuel skipping' d2 pre a post); [done|done|done|now rewrite Ei2| |].
    - intros ->. now rewrite E, Er.
    - intros Hne i' Hi'. rewrite <- Er. apply IH; [simpl in *; lia|now rewrite <- app_assoc|done|auto|done|done|done]. }
  destruct (Z.leb_spec (a_seq a) s) as [Hvis|Hinv].
  - destruct (a_type a) eqn:Et.
    + apply Hgo; [unfold SaveKey; auto|done|done| |].
      * rewrite rows_app. simpl. destruct (Z.ltb_spec s (a_seq a)); [lia|]. now rewrite Et, app_nil_r.
      * intros c Hc. rewrite skip_app. simpl. destruct (Z.ltb_spec s (a_seq a)); [lia|]. now rewrite Et.
    + change (saved_key_ d1) with (saved_key_ d).
      assert (Hh : skipping && (Compare (a_key a) (saved_key_ d) <=? 0) = hidden_by (C := C) (next_skip None pre) a).
      { rewrite <- (Hsk a) by now left. now destruct skipping. }
      rewrite Hh. destruct (hidden_by (next_skip None pre) a) eqn:Eh.
      * apply Hgo; [done|done|done| |].
        -- rewrite rows_app. simpl. destruct (Z.ltb_spec s (a_seq a)); [lia|]. now rewrite Et, Eh, app_nil_r.
        -- intros c Hc. rewrite skip_app. simpl. destruct (Z.ltb_spec s (a_seq a)); [lia|]. rewrite Et, Eh. apply Hsk. now right.
      * eexists. split; [reflexivity|]. split; [unfold SaveKey; auto|]. left. exists pre, a, post. split; [done|]. split; [done|]. done.
  - apply Hgo; [done|done|done| |].
    + rewrite rows_app. simpl. destruct (Z.ltb_spec s (a_seq a)); [|lia]. now rewrite app_nil_r.
    + intros c Hc. rewrite skip_app. simpl. destruct (Z.ltb_spec s (a_seq a)); [|lia]. apply Hsk. now right.
Qed.

(** Entries that are passed whatever comes before them. *)
Lemma find_next_block B : forall fuel pre d post, (length (B ++ post) <= fuel)%nat -> L = pre ++ B ++ post -> B ++ post <> [] ->
  steady d -> d_direction d = kForward -> iat (d_iter d) es (length pre) ->
  Forall (fun b => invisible s b \/ a_type b = kTypeValue /\ Compare (a_key b) (saved_key_ d) <= 0) B ->
  skip_agrees (pre ++ B) post (Some (saved_key_ d)) ->
  exists d', FindNextUserEntry C fuel true d = Some d' /\ positioned d' (length (user_rows None (pre ++ B))).
Proof.
  induction B as [|b B IH]; intros fuel pre d post Hf E Hne Hd Edir Hi HB Hsk.
  - rewrite app_nil_r in *. now apply (find_next_ok post fuel pre d true).
  - destruct fuel as [|fuel]; [simpl in Hf; lia|]. cbn [FindNextUserEntry]. clear Hne. apply Forall_cons in HB as [Hb HB].
    destruct (ParseKey_at d pre b (B ++ post) Hd E Hi) as (db & rnd & n & Ep & Hd'). rewrite Ep. set (d1 := set_sampling db rnd n d) in *.
    change (d_sequence d1) with (d_sequence d). rewrite (st_sequence d Hd). cbn [sequence user_key type].
    change (saved_key_ d1) with (saved_key_ d).
    assert (Epass : (if a_seq b <=? s then match a_type b with kTypeDeletion => (false, true, SaveKey (a_key b) d1)
        | kTypeValue => if true && (@Compare C (a_key b) (saved_key_ d) <=? 0) then (false, true, d1)
            else (true, true, SaveKey [] (set_mode (d_direction d1) true d1)) end else (false, true, d1)) = (false, true, d1)).
    { destruct (Z.leb_spec (a_seq b) s); [|done]. destruct Hb as [Hb|[-> Hb]]; [unfold invisible in Hb; lia|].
      destruct (Z.leb_spec (Compare (a_key b) (saved_key_ d)) 0); [done|lia]. }
    rewrite Epass. apply (go_on fuel true d1 pre b (B ++ post)); [done|done|done|done| |].
    + intros En. apply app_eq_nil in En as [-> ->]. now rewrite E.
    + intros Hne i' Hi'. replace (pre ++ b :: B) with ((pre ++ [b]) ++ B) in * by now rewrite <- app_assoc.
      apply (IH fuel (pre ++ [b]) (set_iter i' d1) post); [simpl in Hf; lia|now rewrite <- app_assoc|done|auto|done|done|done|done].
Qed.

Context (fuel : nat) (Hfuel : (length L < fuel)%nat).

Lemma next_forward d n : steady d -> forward_at d n -> exists d', DBIter_Next C fuel d = Some d' /\ positioned d' (S n).
Proof.
  intros Hd (pre & a & post & E & Ha & Hi & Edir & Ev & ->). destruct (entry_at pre a post _ E Hi) as (_ & Ek & _ & Va).
  destruct (current_rows (C := C) s pre a [] Ha) as [Er Es]. destruct (ikey_extract a (proj1 Va)) as [Eu _].
  replace (S (length (user_rows None pre))) with (length (user_rows None (pre ++ [a]))) by (rewrite Er, length_app; simpl; lia).
  unfold DBIter_Next. rewrite Ev, Edir, Ek, Eu. cbn [negb]. destruct (next_at pre a post _ E Hi) as (i' & En & Hi' & Evi). rewrite En, Evi, negb_involutive.
  destruct post as [|c post]; cbn [bool_decide].
  - eexists. split; [reflexivity|]. split; [unfold SaveKey; auto|]. right. right. split; [done|]. split; [now rewrite E|]. now exists (length (pre ++ [a])).
  - apply find_next_ok with (post := c :: post); [rewrite E, length_app in Hfuel; simpl in *; lia|now rewrite <- app_assoc|done|unfold SaveKey; auto|done|done|].
    intros x _. now rewrite Es.
Qed.

Lemma next_reverse d n : steady d -> reverse_at d n -> exists d', DBIter_Next C fuel d = Some d' /\ positioned d' (S n).
Proof.
  intros Hd (pre & mid & a & post & E & Hmid & Ha & Hi & Edir & Ev & Esv & ->). injection Esv as Esk Esv.
  destruct (current_rows (C := C) s (pre ++ mid) a [] Ha) as [Er Es].
  assert (Hrows : user_rows None (pre ++ mid) = user_rows None pre).
  { rewrite rows_app. destruct (rows_invisible (C := C) s (next_skip None pre) mid Hmid) as [-> _]. apply app_nil_r. }
  replace (S (length (user_rows None pre))) with (length (user_rows None (pre ++ mid ++ [a]))) by (rewrite app_assoc, Er, Hrows, length_app; simpl; lia).
  unfold DBIter_Next. rewrite Ev, Edir. cbn [negb].
  assert (Hmove : exists i', (if negb (it_Valid (d_iter d)) then it_SeekToFirst (d_iter d) else it_Next (d_iter d)) = Some i' /\ iat i' es (length pre)).
  { destruct pre as [|x pre _] using rev_ind.
    - rewrite (end_invalid _ Hi). now apply (it_first_at _ _ _ Hi).
    - rewrite end_of_snoc in Hi. rewrite <- app_assoc in E. destruct (next_at pre x _ _ E Hi) as (i' & En & Hi' & _).
      destruct (entry_at pre x _ _ E Hi) as (-> & _). now exists i'. }
  destruct Hmove as (i' & -> & Hi'). destruct (mid ++ a :: post) as [|y rest] eqn:Ey; [now destruct mid|].
  destruct (entry_at pre y rest _ E Hi') as (-> & _). cbn [negb].
  replace (mid ++ a :: post) with ((mid ++ [a]) ++ post) in Ey by now rewrite <- app_assoc.
  apply find_next_block with (post := post); [|now rewrite Ey|now rewrite Ey|auto|done|done| |].
  - rewrite Ey. rewrite E, length_app in Hfuel. simpl in *. lia.
  - cbn [saved_key_ set_iter set_mode]. apply Forall_app. split; [eapply Forall_impl; [exact Hmid|now left]|]. constructor; [|constructor]. right.
    split; [apply Ha|]. rewrite Esk, Compare_refl; [lia|]. rewrite E, <- Ey, <- app_assoc, app_assoc in HL. now destruct (entries_cut _ _ _ HL) as [[_ V] _].
  - intros x _. rewrite app_assoc, Es. cbn. now rewrite Esk.
Qed.

Lemma start_forward_ok i d pre post : steady d -> d_direction d = kForward -> L = pre ++ post -> iat i es (length pre) ->
  skip_agrees pre post None ->
  exists d', start_forward C fuel (Some i) d = Some d' /\ positioned d' (length (user_rows None pre)).
Proof.
  intros Hd Edir E Hi Hsk. cbn [start_forward]. destruct post as [|a post].
  - rewrite app_nil_r in E. subst pre. rewrite (end_invalid i Hi). eexists. split; [reflexivity|]. split; [auto|].
    right. right. split; [done|]. split; [done|]. now exists (length L).
  - destruct (entry_at pre a post _ E Hi) as (-> & _). apply find_next_ok with (post := a :: post); try done; [|auto].
    rewrite E, length_app in Hfuel. simpl in *. lia.
Qed.

Lemma first_ok d p : steady d -> iat (d_iter d) es p -> exists d', DBIter_SeekToFirst C fuel d = Some d' /\ positioned d' 0.
Proof.
  intros Hd Hi. unfold DBIter_SeekToFirst. cbn [d_iter ClearSavedValue set_saved set_mode].
  destruct (it_first_at _ _ _ Hi) as (i' & -> & Hi'). apply (start_forward_ok i' _ [] L); [unfold ClearSavedValue; auto|done|done|done|done].
Qed.

(** The entries before a position that is sought are those that a user who
    seeks the key does not want to see. *)
Lemma seek_split t : valid t ->
  let key := AppendInternalKey [] (ParsedKey t s kValueTypeForSeek) in
  exists pre post, L = pre ++ post /\ first_ge (InternalKeyComparator C) key es = length pre /\
    (forall b, b ∈ pre -> a_seq b <= s -> Compare (a_key b) t < 0) /\ (forall c, c ∈ post -> 0 <= Compare (a_key c) t).
Proof.
  intros Vt key. set (n := first_ge (InternalKeyComparator C) key es).
  destruct (first_ge_spec (InternalKeyComparator C) key es) as (Hn & Hlt & _). fold n in Hn, Hlt. rewrite length_map in Hn.
  assert (Hkey : ExtractUserKey key = t /\ ExtractTag key = PackSequenceAndType s kTypeValue).
  { apply Extract_Put. now apply Pack_value. }
  assert (Vkey : kvalid valid key) by (apply kvalid_Put; [done|done|now apply Pack_value]).
  assert (Hall : forall j a, L !! j = Some a -> added_valid (valid := valid) a).
  { intros j a Hj. destruct HL as [Hv _]. rewrite Forall_lookup in Hv. now apply (Hv j). }
  exists (take n L), (drop n L). rewrite take_drop, length_take, Nat.min_l by done. split; [done|]. split; [done|]. split.
  - intros b Hb Hsb. apply elem_take in Hb as (j & Hj & Hl). destruct (Hall j b Hl) as [Ob Vb].
    specialize (Hlt j (entry_pair b) Hj). rewrite list_lookup_fmap, Hl in Hlt. specialize (Hlt eq_refl).
    change (internal_compare C (ikey_of b) key < 0) in Hlt. apply internal_compare_lt in Hlt.
    destruct Hkey as [E1 E2], (ikey_extract b Ob) as [E3 E4]. rewrite E1, E2, E3, E4 in Hlt. destruct Hlt as [|[_ Htag]]; [done|exfalso].
    unfold tag_of in Htag. destruct (Pack_value s kTypeValue Hs) as [P1 _], (Pack_value (a_seq b) (a_type b) (proj1 Ob)) as [P2 _].
    rewrite P1, P2 in Htag. destruct (a_type b); simpl in Htag; lia.
  - intros c Hc. apply list_elem_of_lookup in Hc as [j Hj]. rewrite lookup_drop in Hj. destruct (Hall _ c Hj) as [Oc Vc].
    destruct (Z.le_gt_cases 0 (Compare (a_key c) t)) as [|Hlt']; [done|exfalso].
    assert (Hc : (n + j < n)%nat); [|lia]. apply (first_ge_iff (C := InternalKeyComparator C) (valid := kvalid valid) (CL := kvalid_laws C valid valid_bytes) key es (n + j) (entry_pair c)).
    + done.
    + exact (proj1 (pairs_ok L HL)).
    + exact (proj2 (pairs_ok L HL)).
    + now rewrite list_lookup_fmap, Hj.
    + apply internal_compare_lt. destruct Hkey as [E1 _], (ikey_extract c Oc) as [E3 _]. left. cbn [entry_pair fst]. now rewrite E1, E3.
Qed.

Lemma seek_ok d p t : steady d -> iat (d_iter d) es p -> valid t ->
  exists d', DBIter_Seek C fuel d t = Some d' /\ positioned d' (first_ge C t (user_rows None L)).
Proof.
  intros Hd Hi Vt. unfold DBIter_Seek. cbn [d_iter saved_key_ d_sequence SaveKey ClearSavedValue set_saved set_mode]. rewrite (st_sequence d Hd).
  destruct (seek_split t Vt) as (pre & post & E & Eg & Hpre & Hpost).
  set (key := AppendInternalKey _ _) in *. assert (Vkey : kvalid valid key) by (apply kvalid_Put; [done|done|now apply Pack_value]).
  destruct (it_seek_at (IL := IL) (d_iter d) es p key Hi Vkey) as (i' & -> & Hi'). rewrite Eg in Hi'.
  assert (Hagree : skip_agrees pre post None).
  { intros c Hc. destruct (next_skip None pre) as [k|] eqn:Ek; [|done]. simpl. symmetry. apply Z.leb_gt.
    destruct (next_skip_in (C := C) s None pre k Ek) as [|(b & Hb & Hsb & ->)]; [done|].
    rewrite E in HL. destruct (entries_app _ _ HL) as ([V1 _] & [V2 _] & _). rewrite Forall_forall in V1, V2.
    destruct (V1 b Hb) as [_ Vb], (V2 c Hc) as [_ Vc]. apply Compare_antisym; [done|done|].
    apply (Compare_lt_le_trans _ t); [done|done|done|now apply Hpre|]. now apply Compare_flip, Hpost. }
  assert (Eseek : first_ge C t (user_rows None L) = length (user_rows None pre)).
  { rewrite E, rows_app. apply first_ge_intro.
    - intros j [k v] Hj Hl. rewrite lookup_app_l in Hl by done.
      assert (Hin : (k, v) ∈ user_rows None pre) by (apply list_elem_of_lookup; eauto).
      destruct (rows_in s _ _ k v Hin) as (b & Hb & Hsb & [= -> ->]). now apply Hpre.
    - rewrite length_app. lia.
    - intros [k v] Hl. rewrite lookup_app_r, Nat.sub_diag in Hl by done.
      assert (Hin : (k, v) ∈ user_rows (next_skip None pre) post) by (apply list_elem_of_lookup; eauto).
      destruct (rows_in s _ _ k v Hin) as (b & Hb & Hsb & [= -> ->]). now apply Hpost. }
  rewrite Eseek. apply start_forward_ok with (post := post); try done. unfold SaveKey, ClearSavedValue. auto.
Qed.

(** ** Backward *)

(** What the entries passed so far have left: nothing to show, or the row of
    their first visible entry. *)
Definition scanned (vt : ValueType) (d : DBIter D I) (done : list added) : Prop :=
  match vt with
  | kTypeDeletion => forall skip, user_rows skip done = []
  | kTypeValue => exists mid a rest, done = mid ++ a :: rest /\ Forall (invisible s) mid /\ a_seq a <= s /\ a_type a = kTypeValue /\
      (saved_key_ d, saved_value_ d) = row a /\ user_rows (Some (a_key a)) rest = []
  end.

(** Skipping depends only on the order of the key. *)
Lemma rows_skip_same k k' l : Forall (fun a => valid (a_key a)) l -> valid k -> valid k' -> Compare k k' = 0 ->
  user_rows (Some k) l = user_rows (Some k') l.
Proof.
  intros Hl Vk Vk' E. induction Hl as [|a l Va Hl IH]; [done|]. simpl. destruct (s <? a_seq a); [done|]. destruct (a_type a); [done|].
  assert ((Compare (a_key a) k <=? 0) = (Compare (a_key a) k' <=? 0)) as ->; [|now rewrite IH].
  apply eq_true_iff_eq. rewrite !Z.leb_le. split; intros H.
  - apply (Compare_trans _ k); [done|done|done|done|lia].
  - apply (Compare_trans _ k'); [done|done|done|done|]. rewrite Compare_eq_sym; [lia|done|done|done].
Qed.

(** A visible entry in front of what was scanned hides all of it. *)
Lemma scanned_hidden vt d x done : entries_ok (x :: done) -> scanned vt d done ->
  (vt = kTypeValue -> 0 <= Compare (a_key x) (saved_key_ d)) -> user_rows (Some (a_key x)) done = [].
Proof.
  intros Hok Hsc Hle. destruct vt; [apply Hsc|]. destruct Hsc as (mid & a & rest & -> & Hmid & Ha & Et & Esv & Er). injection Esv as Esk _.
  specialize (Hle eq_refl). rewrite Esk in Hle.
  assert (Hax : Compare (a_key x) (a_key a) = 0 /\ valid (a_key x) /\ valid (a_key a) /\ Forall (fun b => valid (a_key b)) rest).
  { pose proof (iter_entries_valid _ Hok) as Hv. apply Forall_cons in Hv as [Vx Hv]. apply Forall_app in Hv as [_ Hv]. apply Forall_cons in Hv as [Va Hv].
    split; [|done]. pose proof (keys_ordered (C := C) (valid := valid) [] x (mid ++ a :: rest) x a Hok ltac:(now left)) as Hk.
    rewrite elem_of_cons, elem_of_app, elem_of_cons in Hk. specialize (Hk ltac:(auto)). lia. }
  destruct Hax as (E0 & Vx & Va & Vr). rewrite rows_app. destruct (rows_invisible (C := C) s (Some (a_key x)) mid Hmid) as [-> ->]. simpl.
  destruct (Z.ltb_spec s (a_seq a)); [lia|]. rewrite Et. rewrite (Compare_eq_sym _ _ Vx Va E0). simpl.
  now rewrite (rows_skip_same (a_key x) (a_key a)).
Qed.

Lemma scanned_current cur mid a rest : entries_ok (cur ++ mid ++ a :: rest) -> Forall (invisible s) mid -> a_seq a <= s -> a_type a = kTypeValue ->
  (forall b, b ∈ cur -> a_seq b <= s -> Compare (a_key b) (a_key a) < 0) -> current_entry (cur ++ mid) a.
Proof.
  intros Hok Hmid Ha Et Hcur. split; [done|]. split; [done|]. rewrite skip_app.
  destruct (rows_invisible (C := C) s (next_skip None cur) mid Hmid) as [_ ->].
  destruct (next_skip None cur) as [k|] eqn:Ek; [|done]. simpl. apply Z.leb_gt.
  destruct (next_skip_in (C := C) s None cur k Ek) as [|(b & Hb & Hsb & ->)]; [done|].
  pose proof (iter_entries_valid _ Hok) as Hv. apply Forall_app in Hv as [V1 Hv]. apply Forall_app in Hv as [_ Hv]. apply Forall_cons in Hv as [Va _].
  rewrite Forall_forall in V1. apply Compare_antisym; [now apply V1|done|now apply Hcur].
Qed.

(** The scan of a prefix [P] ends at its last row. *)
Definition last_row_at (P tail : list added) (vt : ValueType) (d : DBIter D I) : Prop :=
  match vt with
  | kTypeDeletion => user_rows None P = [] /\ exists p, iat (d_iter d) es p
  | kTypeValue => exists pre mid a rest, P = pre ++ mid ++ a :: rest /\ Forall (invisible s) mid /\ current_entry (pre ++ mid) a /\
      iat (d_iter d) es (end_of pre) /\ (saved_key_ d, saved_value_ d) = row a /\ user_rows (Some (a_key a)) rest = []
  end.

Lemma scan_end d vt done tail : L = done ++ tail -> scanned vt d done -> iat (d_iter d) es (length L) -> last_row_at done tail vt d.
Proof.
  intros E Hsc Hi. destruct vt; [split; [apply Hsc|now exists (length L)]|].
  destruct Hsc as (mid & a & rest & -> & Hmid & Ha & Et & Esv & Er). exists [], mid, a, rest. split; [done|]. split; [done|].
  split; [|done]. apply (scanned_current [] mid a rest); [|done|done|done|now intros b Hb%elem_of_nil].
  rewrite E in HL. now destruct (entries_app _ _ HL).
Qed.

Lemma find_prev_loop_ok n : forall cur fl done tail d vt x, length cur = n -> (n < fl)%nat -> L = (cur ++ [x]) ++ done ++ tail -> steady d ->
  d_direction d = kReverse -> iat (d_iter d) es (length cur) -> scanned vt d done ->
  exists vt' d', find_prev_loop C fl vt d = Some (vt', d') /\ steady d' /\ d_direction d' = kReverse /\
    last_row_at ((cur ++ [x]) ++ done) tail vt' d'.
Proof.
  induction n as [n IH] using lt_wf_ind. intros cur [|fl] done tail d vt x En Hf E Hd Edir Hi Hsc; [lia|]. cbn [find_prev_loop].
  rewrite <- app_assoc in E. destruct (ParseKey_at d cur x (done ++ tail) Hd E Hi) as (db & rnd & nb & Ep & Hd'). rewrite Ep.
  destruct (entry_at cur x (done ++ tail) _ E Hi) as (_ & Ek & Ev & Va). destruct (ikey_extract x (proj1 Va)) as [Eu _].
  set (d1 := set_sampling db rnd nb d) in *. change (d_sequence d1) with (d_sequence d). change (d_iter d1) with (d_iter d).
  change (saved_key_ d1) with (saved_key_ d). rewrite (st_sequence d Hd), Ek, Ev, Eu. cbn [sequence user_key type].
  assert (Hok : entries_ok (cur ++ x :: done)).
  { rewrite E in HL. change ([x] ++ done ++ tail) with ((x :: done) ++ tail) in HL. rewrite app_assoc in HL. now destruct (entries_app _ _ HL). }
  assert (Hokx : entries_ok (x :: done)) by now destruct (entries_app _ _ Hok) as (_ & H & _).
  rewrite <- app_assoc. change ([x] ++ done) with (x :: done).
  assert (Hgo : forall vt2 d2, steady d2 -> d_direction d2 = kReverse -> d_iter d2 = d_iter d -> scanned vt2 d2 (x :: done) ->
    exists vt' d', match it_Prev (d_iter d2) with
      | None => None
      | Some i => let d := set_iter i d2 in if it_Valid i then find_prev_loop C fl vt2 d else Some (vt2, d) end = Some (vt', d') /\
      steady d' /\ d_direction d' = kReverse /\ last_row_at (cur ++ x :: done) tail vt' d').
  { intros vt2 d2 H2 Ed2 Ei2 Hsc2. rewrite Ei2. destruct (prev_at cur x (done ++ tail) _ E Hi) as (i' & -> & Hi').
    destruct cur as [|y cur _] using rev_ind.
    - rewrite (end_invalid _ Hi'). eexists _, _. split; [reflexivity|]. split; [auto|]. split; [done|]. now apply scan_end.
    - rewrite end_of_snoc in Hi'. rewrite length_app in En. simpl in En. rewrite <- app_assoc in E.
      destruct (entry_at cur y _ _ E Hi') as (-> & _).
      apply (IH (length cur) ltac:(lia) cur fl (x :: done) tail (set_iter i' d2) vt2 y); [done|lia| |auto|done|done|done].
      rewrite E, <- !app_assoc. done. }
  destruct (Z.leb_spec (a_seq x) s) as [Hvis|Hinv].
  - destruct (negb (bool_decide (vt = kTypeDeletion)) && (Compare (a_key x) (saved_key_ d) <? 0)) eqn:Estop.
    + apply andb_prop in Estop as [Evt Hlt]. apply Z.ltb_lt in Hlt. destruct vt; [done|].
      exists kTypeValue, d1. split; [done|]. split; [done|]. split; [done|].
      destruct Hsc as (mid & a & rest & -> & Hmid & Ha & Et & Esv & Er). exists (cur ++ [x]), mid, a, rest.
      split; [now rewrite <- app_assoc|]. split; [done|]. rewrite end_of_snoc. split; [|done].
      apply (scanned_current (cur ++ [x]) mid a rest); [now rewrite <- app_assoc|done|done|done|]. intros b Hb _. injection Esv as Esk _. rewrite Esk in Hlt.
      pose proof (keys_ordered (C := C) (valid := valid) cur x _ b x Hok Hb ltac:(now left)) as Hbx.
      pose proof (iter_entries_valid _ Hok) as Hv. rewrite Forall_forall in Hv.
      apply (Compare_le_lt_trans _ (a_key x)); [| | |done|done]; apply Hv.
      * apply elem_of_app in Hb as [Hb|Hb%list_elem_of_singleton]; [apply elem_of_app; now left|subst b; apply elem_of_app; right; now left].
      * apply elem_of_app. right. now left.
      * rewrite elem_of_app, elem_of_cons, elem_of_app, elem_of_cons. auto.
    + assert (Hhid : user_rows (Some (a_key x)) done = []).
      { apply (scanned_hidden vt d x done Hokx Hsc). intros ->. simpl in Estop. apply Z.ltb_ge in Estop. done. }
      destruct (a_type x) eqn:Et; (apply Hgo; [auto|done|done|]).
      * intros skip. simpl. destruct (Z.ltb_spec s (a_seq x)); [lia|]. now rewrite Et.
      * exists [], x, done. done.
  - apply Hgo; [done|done|done|]. destruct vt.
    + intros skip. simpl. destruct (Z.ltb_spec s (a_seq x)); [|lia]. apply Hsc.
    + destruct Hsc as (mid & a & rest & -> & Hmid & H). exists (x :: mid), a, rest. split; [done|]. split; [now constructor|done].
Qed.

(** [FindPrevUserEntry] from the end of a prefix shows the last row of the
    prefix. *)
Lemma find_prev_ok d P tail : steady d -> d_direction d = kReverse -> L = P ++ tail -> iat (d_iter d) es (end_of P) ->
  exists d', FindPrevUserEntry C fuel d = Some d' /\ positioned d' (prev_pos (length (user_rows None P)) (length (user_rows None L))).
Proof.
  intros Hd Edir E Hi. unfold FindPrevUserEntry.
  assert (Hloop : exists vt d', (if it_Valid (d_iter d) then find_prev_loop C fuel kTypeDeletion d else Some (kTypeDeletion, d)) = Some (vt, d') /\
    steady d' /\ d_direction d' = kReverse /\ last_row_at P tail vt d').
  { destruct P as [|x P _] using rev_ind.
    - rewrite (end_invalid _ Hi). exists kTypeDeletion, d. split; [done|]. split; [done|]. split; [done|]. split; [done|]. now exists (length L).
    - rewrite end_of_snoc in Hi. pose proof E as E'. rewrite <- app_assoc in E'. destruct (entry_at P x _ _ E' Hi) as (-> & _).
      destruct (find_prev_loop_ok (length P) P fuel [] tail d kTypeDeletion x) as (vt & d' & Ef & H); try done.
      + rewrite E', length_app in Hfuel. lia.
      + rewrite app_nil_r in H. eauto. }
  destruct Hloop as (vt & d' & -> & Hd' & Edir' & Hrow). destruct vt.
  - destruct Hrow as [Er (p & Hp)]. rewrite Er. eexists. split; [reflexivity|]. split; [auto|]. right. right. split; [done|]. split; [done|]. now exists p.
  - destruct Hrow as (pre & mid & a & rest & EP & Hmid & Ha & Hi' & Esv & Er). eexists. split; [reflexivity|]. split; [auto|]. right. left.
    exists pre, mid, a, (rest ++ tail). split; [rewrite E, EP, <- !app_assoc; done|]. split; [done|]. split; [done|]. split; [done|].
    split; [done|]. split; [done|]. split; [done|].
    destruct (current_rows (C := C) s (pre ++ mid) a rest Ha) as [Erows _]. rewrite <- app_assoc in Erows. rewrite <- EP, Er in Erows.
    assert (Emid : user_rows None (pre ++ mid) = user_rows None pre).
    { rewrite rows_app. destruct (rows_invisible (C := C) s (next_skip None pre) mid Hmid) as [-> _]. apply app_nil_r. }
    rewrite Emid in Erows. rewrite Erows, length_app, Nat.add_1_r. done.
Qed.

Lemma last_ok d p : steady d -> iat (d_iter d) es p ->
  exists d', DBIter_SeekToLast C fuel d = Some d' /\ positioned d' (length (user_rows None L) - 1).
Proof.
  intros Hd Hi. unfold DBIter_SeekToLast. cbn [d_iter ClearSavedValue set_saved set_mode].
  destruct (it_last_at _ _ _ Hi) as (i' & -> & Hi'). rewrite length_map in Hi'.
  destruct (find_prev_ok (set_iter i' (ClearSavedValue (set_mode kReverse (d_valid d) d))) L []) as (d' & E & H);
    [unfold ClearSavedValue; auto|done|now rewrite app_nil_r|now rewrite end_of_all|].
  exists d'. split; [done|]. replace (_ - 1)%nat with (prev_pos (length (user_rows None L)) (length (user_rows None L))); [done|].
  destruct (length (user_rows None L)); simpl; lia.
Qed.

Lemma prev_reverse d n : steady d -> reverse_at d n ->
  exists d', DBIter_Prev C fuel d = Some d' /\ positioned d' (prev_pos n (length (user_rows None L))).
Proof.
  intros Hd (pre & mid & a & post & E & Hmid & Ha & Hi & Edir & Ev & Esv & ->). unfold DBIter_Prev. rewrite Ev, Edir. cbn [negb].
  now apply (find_prev_ok d pre (mid ++ a :: post)).
Qed.

(** The scan back to the first entry of a smaller key. *)
Lemma scan_back_ok n : forall cur x rest d fl, length cur = n -> (n < fl)%nat -> L = cur ++ x :: rest -> steady d -> iat (d_iter d) es (length cur) ->
  exists d', steady d' /\ d_direction d' = d_direction d /\
    ((scan_back C fl d = Some (false, d') /\ d_valid d' = false /\ (forall b, b ∈ cur -> 0 <= Compare (a_key b) (saved_key_ d)) /\
       exists p, iat (d_iter d') es p) \/
     (exists P y grp, scan_back C fl d = Some (true, d') /\ cur = P ++ y :: grp /\ iat (d_iter d') es (length P) /\
        (forall b, b ∈ grp -> 0 <= Compare (a_key b) (saved_key_ d)))).
Proof.
  induction n as [n IH] using lt_wf_ind. intros cur x rest d [|fl] En Hf E Hd Hi; [lia|]. cbn [scan_back].
  destruct (prev_at cur x rest _ E Hi) as (i' & -> & Hi'). destruct cur as [|y cur _] using rev_ind.
  - rewrite (end_invalid _ Hi'). eexists. split; [|split; [|left; split; [reflexivity|]]]; [auto|done|]. split; [done|].
    split; [now intros b Hb%elem_of_nil|]. now exists (length L).
  - rewrite end_of_snoc in Hi'. rewrite <- app_assoc in E. destruct (entry_at cur y _ _ E Hi') as (-> & Ek & _ & Vy). rewrite length_app in En. simpl in En.
    destruct (ikey_extract y (proj1 Vy)) as [Eu _]. rewrite Ek, Eu. cbn [negb saved_key_ set_iter].
    destruct (Z.ltb_spec (Compare (a_key y) (saved_key_ d)) 0) as [Hlt|Hge].
    + exists (set_iter i' d). split; [auto|]. split; [done|]. right. exists cur, y, []. split; [done|]. split; [done|]. split; [done|]. now intros b Hb%elem_of_nil.
    + destruct (IH (length cur) ltac:(lia) cur y (x :: rest) (set_iter i' d) fl) as (d' & Hd' & Edir & Hres); [done|lia|done|auto|done|].
      exists d'. split; [done|]. split; [done|]. destruct Hres as [(Ef & Ev & Hall & Hp)|(P & z & grp & Ef & Ec & Hi2 & Hall)].
      * left. split; [done|]. split; [done|]. split; [|done]. intros b [Hb|Hb%list_elem_of_singleton]%elem_of_app; [now apply Hall|now subst].
      * right. exists P, z, (grp ++ [y]). split; [done|]. split; [now rewrite Ec, <- app_assoc|]. split; [done|].
        intros b [Hb|Hb%list_elem_of_singleton]%elem_of_app; [now apply Hall|now subst].
Qed.

Lemma prev_forward d n : steady d -> forward_at d n ->
  exists d', DBIter_Prev C fuel d = Some d' /\ positioned d' (prev_pos n (length (user_rows None L))).
Proof.
  intros Hd (pre & a & post & E & Ha & Hi & Edir & Ev & ->). destruct (entry_at pre a post _ E Hi) as (_ & Ek & _ & Va).
  destruct (ikey_extract a (proj1 Va)) as [Eu _]. unfold DBIter_Prev. rewrite Ev, Edir, Ek, Eu. cbn [negb].
  pose proof HL as Hok. rewrite E in Hok.
  assert (Hinv : forall l, (forall b, b ∈ l -> b ∈ pre) -> (forall b, b ∈ l -> 0 <= Compare (a_key b) (a_key a)) -> Forall (invisible s) l).
  { intros l Hl Hge. apply Forall_forall. intros b Hb. unfold invisible. destruct (Z.lt_ge_cases s (a_seq b)) as [|Hsb]; [done|].
    pose proof (current_first (C := C) (valid := valid) s pre a post b Hok Ha (Hl b Hb) Hsb). specialize (Hge b Hb). lia. }
  destruct (scan_back_ok (length pre) pre a post (SaveKey (a_key a) d) fuel) as (d' & Hd' & Edir' & Hres);
    [done|rewrite E, length_app in Hfuel; lia|done|unfold SaveKey; auto|done|].
  destruct Hres as [(-> & Ev' & Hall & Hp)|(P & y & grp & -> & -> & Hi' & Hall)].
  - exists d'. split; [done|]. split; [done|]. right. right. split; [done|].
    destruct (rows_invisible (C := C) s None pre (Hinv pre (fun b H => H) Hall)) as [-> _]. done.
  - assert (Hgrp : Forall (invisible s) grp) by (apply Hinv; [intros b Hb; rewrite elem_of_app, elem_of_cons; auto|exact Hall]).
    assert (Er : user_rows None (P ++ y :: grp) = user_rows None (P ++ [y])).
    { replace (P ++ y :: grp) with ((P ++ [y]) ++ grp) by now rewrite <- app_assoc.
      rewrite rows_app. destruct (rows_invisible (C := C) s (next_skip None (P ++ [y])) grp Hgrp) as [-> _]. apply app_nil_r. }
    rewrite Er. apply (find_prev_ok _ (P ++ [y]) (grp ++ a :: post)); [auto|done|rewrite E, <- !app_assoc; done|]. now rewrite end_of_snoc.
Qed.

(** ** All operations *)

Lemma positioned_iter d n : positioned d n -> exists p, iat (d_iter d) es p.
Proof. intros [_ [(pre & a & post & _ & _ & H & _)|[(pre & mid & a & post & _ & _ & _ & H & _)|(_ & _ & H)]]]; eauto. Qed.

Lemma row_lookup pre mid a post : L = pre ++ mid ++ a :: post -> Forall (invisible s) mid -> current_entry (pre ++ mid) a ->
  user_rows None L !! length (user_rows None pre) = Some (row a).
Proof.
  intros E Hmid Ha. rewrite E, app_assoc. destruct (current_rows (C := C) s (pre ++ mid) a post Ha) as [-> _].
  rewrite rows_app. destruct (rows_invisible (C := C) s (next_skip None pre) mid Hmid) as [-> _]. rewrite app_nil_r. now apply list_lookup_middle.
Qed.

Lemma positioned_row d n : positioned d n ->
  (if d_valid d then Some (DBIter_key d, DBIter_value d) else None) = user_rows None L !! n.
Proof.
  intros [Hd [(pre & a & post & E & Ha & Hi & Edir & -> & ->)|[(pre & mid & a & post & E & Hmid & Ha & Hi & Edir & -> & Esv & ->)|(-> & -> & _)]]].
  - assert (Ha' : current_entry (pre ++ []) a) by now rewrite app_nil_r. rewrite (row_lookup pre [] a post E ltac:(constructor) Ha').
    unfold DBIter_key, DBIter_value. rewrite Edir. destruct (entry_at pre a post _ E Hi) as (_ & -> & -> & Va).
    now destruct (ikey_extract a (proj1 Va)) as [-> _].
  - rewrite (row_lookup pre mid a post E Hmid Ha). unfold DBIter_key, DBIter_value. rewrite Edir. now rewrite Esv.
  - now rewrite lookup_ge_None_2.
Qed.

Lemma positioned_step d n op m : positioned d n -> op_valid valid op -> cursor_op C (user_rows None L) n op = Some m ->
  exists d', it_run (H := db_iter C fuel) d op = Some d' /\ positioned d' m.
Proof.
  intros Hp Ho Hc. destruct (positioned_iter d n Hp) as [p Hi]. pose proof (positioned_row d n Hp) as Hrow. destruct Hp as [Hd Hpos].
  assert (Hat : (n < length (user_rows None L))%nat -> d_valid d = true /\ (forward_at d n \/ reverse_at d n)).
  { intros Hn. destruct Hpos as [H|[H|(_ & -> & _)]]; [| |lia].
    - split; [|now left]. now destruct H as (? & ? & ? & _ & _ & _ & _ & ? & _).
    - split; [|now right]. now destruct H as (? & ? & ? & ? & _ & _ & _ & _ & _ & ? & _). }
  destruct op as [| | | |t]; cbn [cursor_op it_run] in *; cbn [it_SeekToFirst it_SeekToLast it_Seek it_Next it_Prev it_Valid db_iter].
  - injection Hc as <-. now apply (first_ok d p).
  - injection Hc as <-. now apply (last_ok d p).
  - destruct (Nat.ltb_spec n (length (user_rows None L))) as [Hn|]; [|done]. injection Hc as <-. destruct (Hat Hn) as [-> [H|H]];
      [now apply next_forward|now apply next_reverse].
  - destruct (Nat.ltb_spec n (length (user_rows None L))) as [Hn|]; [|done]. injection Hc as <-. destruct (Hat Hn) as [-> [H|H]];
      [now apply prev_forward|now apply prev_reverse].
  - injection Hc as <-. now apply (seek_ok d p).
Qed.
End Iterator.

(** The database iterator keeps the promise of iterators, with user keys in the
    place of internal keys. *)
#[export, refine] Instance db_laws {C valid} {CL : ComparatorLaws C valid} (valid_bytes : forall k, valid k -> is_bytes k) {D I} {RS : ReadSampler D} {RL : ReadSamplerLaws valid D}
    {It : Iter I} {IL : IterLaws (InternalKeyComparator C) (kvalid valid) I} (fuel : nat) :
    IterLaws C valid (DBIter D I) (It := db_iter C fuel) := {
  it_at d rows n := exists s L, 0 <= s < 2 ^ 56 /\ entries_ok (C := C) (valid := valid) L /\ (length L < fuel)%nat /\
    rows = user_rows (C := C) s None L /\ positioned (C := C) (valid := valid) s L d n;
}.
Proof.
  - intros d rows n (s & L & Hs & HL & Hf & -> & Hp). pose proof (positioned_row s L HL d n Hp) as Hrow. destruct Hp as [_ [Hp|[Hp|(_ & -> & _)]]]; [| |done].
    + destruct Hp as (pre & a & post & _ & _ & _ & _ & Ev & _). rewrite Ev in Hrow. symmetry in Hrow. apply lookup_lt_Some in Hrow. lia.
    + destruct Hp as (pre & mid & a & post & _ & _ & _ & _ & _ & Ev & _). rewrite Ev in Hrow. symmetry in Hrow. apply lookup_lt_Some in Hrow. lia.
  - intros d rows n (s & L & Hs & HL & Hf & -> & Hp). pose proof (positioned_row s L HL d n Hp) as Hrow. cbn [it_Valid db_iter].
    destruct (d_valid d); symmetry; [apply Nat.ltb_lt; symmetry in Hrow; now apply lookup_lt_Some in Hrow|].
    apply Nat.ltb_ge. symmetry in Hrow. now apply lookup_ge_None_1.
  - intros d rows n k v (s & L & Hs & HL & Hf & -> & Hp) Hl. pose proof (positioned_row s L HL d n Hp) as Hrow. rewrite Hl in Hrow.
    destruct (d_valid d); [|done]. now injection Hrow.
  - intros d rows n (s & L & Hs & HL & Hf & -> & Hp). destruct (positioned_iter s L d n Hp) as [p Hi]. cbn [it_status db_iter]. unfold DBIter_status.
    rewrite (st_status _ _ (proj1 Hp)). cbn. now apply it_at_status in Hi.
  - intros d rows n op m (s & L & Hs & HL & Hf & -> & Hp) Ho Hc.
    destruct (positioned_step valid_bytes s L Hs HL fuel Hf d n op m Hp Ho Hc) as (d' & E & Hp'). exists d'. split; [done|]. now exists s, L.
Defined.

Lemma make_DBIter_at {C valid} {CL : ComparatorLaws C valid} (valid_bytes : forall k, valid k -> is_bytes k) {D I} {RS : ReadSampler D} {RL : ReadSamplerLaws valid D}
    {It : Iter I} {IL : IterLaws (InternalKeyComparator C) (kvalid valid) I} (fuel : nat) (L : list added) (s seed : Z) (db : D) (i : I) p :
  entries_ok (C := C) (valid := valid) L -> (length L < fuel)%nat -> 0 <= s < 2 ^ 56 -> sampler_ok db ->
  it_at (IterLaws := IL) i (map entry_pair L) p ->
  it_at (IterLaws := db_laws valid_bytes fuel) (make_DBIter db i s seed) (user_rows (C := C) s None L) (length (user_rows (C := C) s None L)).
Proof.
  intros HL Hf Hs Hdb Hi. exists s, L. split; [done|]. split; [done|]. split; [done|]. split; [done|].
  unfold make_DBIter. destruct (RandomCompactionPeriod (Random_make seed)) as [per rnd] eqn:Ep.
  destruct (period_ok _ _ _ (Random_make_ok seed) Ep) as [Hr Hper]. split; [constructor; try done; cbn; lia|].
  right. right. split; [done|]. split; [done|]. now exists p.
Qed.

(** The database iterator shows, for each user key in order, the newest value
    at its sequence number.  Over any iterator of internal keys that follows a
    cursor on the sorted entries, the rows are sorted by user key, they are
    exactly the values that lookups at the sequence number find, and any sequence
    of SeekToFirst, SeekToLast, Seek, Next and Prev that a cursor on the rows
    allows shows the row the cursor is at, without an error and with loops that
    take at most as many rounds as there are entries. *)
Theorem db_iter_refines_cursor {C valid} {CL : ComparatorLaws C valid} (valid_bytes : forall k, valid k -> is_bytes k) {D I} {RS : ReadSampler D} {RL : ReadSamplerLaws valid D}
    {It : Iter I} {IL : IterLaws (InternalKeyComparator C) (kvalid valid) I}
    (fuel : nat) (L : list added) (s seed : Z) (db : D) (i : I) (p : nat) (ops : list block_op) (n : nat) :
  entries_ok (C := C) (valid := valid) L -> (length L < fuel)%nat -> 0 <= s < 2 ^ 56 -> sampler_ok db ->
  it_at (IterLaws := IL) i (map entry_pair L) p -> Forall (op_valid valid) ops ->
  let rows := user_rows (C := C) s None L in
  run_ops (cursor_op C rows) (length rows) ops = Some n ->
  StronglySorted (key_lt (C := C)) rows /\
  (forall key v, valid key -> get_spec (C := C) L key s (Found v) <-> exists k, (k, v) ∈ rows /\ Compare k key = 0) /\
  exists d, run_ops (it_run (H := db_iter C fuel)) (make_DBIter db i s seed) ops = Some d /\
    it_status (Iter := db_iter C fuel) d = OK /\ it_entry (It := db_iter C fuel) d = rows !! n.
Proof.
  intros HL Hf Hs Hdb Hi Ho rows Hr. split; [now apply (rows_sorted (valid := valid))|]. split; [intros key v; now apply rows_spec|].
  now apply (it_follows (IL := db_laws valid_bytes fuel) ops _ rows (length rows) n); [apply (make_DBIter_at valid_bytes fuel L s seed db i p)| |].
Qed.
