(* ===== verification/LvTwoLevel.v ===== *)
(** * leveldb: iterators over an index and the blocks it points to (table/two_level_iterator.cc)

    The values of the index iterator say how to make the iterators of the data.
    The function that makes them takes an argument with state, such as a cache;
    others who share it may change it between two operations. *)
From Stdlib Require Import ZArith Lia Bool List Sorted.
From stdpp Require Import base list numbers.
From S2P Require Import Prelude LvCoding LvEnv LvIterator.

Record TwoLevelIterator (A I J : Type) := MkTwoLevel {
  arg_ : A;
  tl_status : Status;
  index_iter_ : IteratorWrapper I;
  data_iter_ : IteratorWrapper J;
  data_block_handle_ : list Z;
}.
Arguments MkTwoLevel {A I J}. Arguments arg_ {A I J}. Arguments tl_status {A I J}. Arguments index_iter_ {A I J}.
Arguments data_iter_ {A I J}. Arguments data_block_handle_ {A I J}.

Section TwoLevel.
Context {A I J : Type} {II : Iter I} {IJ : Iter J}.
(** The iterator for an index value, and the argument afterwards. *)
Context (block_function_ : A -> list Z -> option (J * A)).
Notation Iterator := (TwoLevelIterator A I J).

Definition make_TwoLevel (index_iter : I) (arg : A) : Iterator :=
  MkTwoLevel arg OK (wrapper_Set make_Wrapper (Some index_iter)) (wrapper_Set make_Wrapper None) [].

(** Somebody else changes the argument. *)
Definition set_arg (a : A) (t : Iterator) : Iterator :=
  MkTwoLevel a (tl_status t) (index_iter_ t) (data_iter_ t) (data_block_handle_ t).
Definition set_index (w : IteratorWrapper I) (t : Iterator) : Iterator :=
  MkTwoLevel (arg_ t) (tl_status t) w (data_iter_ t) (data_block_handle_ t).
Definition set_data (w : IteratorWrapper J) (t : Iterator) : Iterator :=
  MkTwoLevel (arg_ t) (tl_status t) (index_iter_ t) w (data_block_handle_ t).

Definition SaveError (s : Status) (t : Iterator) : Iterator :=
  MkTwoLevel (arg_ t) (if ok (tl_status t) && negb (ok s) then s else tl_status t) (index_iter_ t) (data_iter_ t)
    (data_block_handle_ t).

(** Whether there is a data iterator. *)
Definition has_data (t : Iterator) : bool := match w_iter (data_iter_ t) with Some _ => true | None => false end.

Definition SetDataIterator (data_iter : option J) (t : Iterator) : Iterator :=
  let t := if has_data t then SaveError (it_status (data_iter_ t)) t else t in
  set_data (wrapper_Set (data_iter_ t) data_iter) t.

Definition InitDataBlock (t : Iterator) : option Iterator :=
  if negb (it_Valid (index_iter_ t)) then Some (SetDataIterator None t)
  else
    let handle := it_value (index_iter_ t) in
    if has_data t && bool_decide (handle = data_block_handle_ t) then Some t
    else
      match block_function_ (arg_ t) handle with
      | None => None
      | Some (iter, arg) =>
          Some (SetDataIterator (Some iter) (MkTwoLevel arg (tl_status t) (index_iter_ t) (data_iter_ t) handle))
      end.

(** An operation on the index followed by the choice of the block and, if there
    is one, an operation on the data. *)
Definition move_index (f : IteratorWrapper I -> option (IteratorWrapper I)) (g : IteratorWrapper J -> option (IteratorWrapper J))
    (t : Iterator) : option Iterator :=
  match f (index_iter_ t) with
  | None => None
  | Some w =>
      match InitDataBlock (set_index w t) with
      | None => None
      | Some t => if has_data t then match g (data_iter_ t) with Some w => Some (set_data w t) | None => None end else Some t
      end
  end.

Fixpoint SkipEmptyDataBlocksForward (fuel : nat) (t : Iterator) : option Iterator :=
  match fuel with
  | O => None
  | S fuel =>
      if negb (has_data t) || negb (it_Valid (data_iter_ t)) then
        if negb (it_Valid (index_iter_ t)) then Some (SetDataIterator None t)
        else
          match move_index it_Next it_SeekToFirst t with
          | None => None
          | Some t => SkipEmptyDataBlocksForward fuel t
          end
      else Some t
  end.

Fixpoint SkipEmptyDataBlocksBackward (fuel : nat) (t : Iterator) : option Iterator :=
  match fuel with
  | O => None
  | S fuel =>
      if negb (has_data t) || negb (it_Valid (data_iter_ t)) then
        if negb (it_Valid (index_iter_ t)) then Some (SetDataIterator None t)
        else
          match move_index it_Prev it_SeekToLast t with
          | None => None
          | Some t => SkipEmptyDataBlocksBackward fuel t
          end
      else Some t
  end.

Definition TwoLevel_Seek (fuel : nat) (t : Iterator) (target : list Z) : option Iterator :=
  match move_index (fun w => it_Seek w target) (fun w => it_Seek w target) t with
  | None => None
  | Some t => SkipEmptyDataBlocksForward fuel t
  end.
Definition TwoLevel_SeekToFirst (fuel : nat) (t : Iterator) : option Iterator :=
  match move_index it_SeekToFirst it_SeekToFirst t with
  | None => None
  | Some t => SkipEmptyDataBlocksForward fuel t
  end.
Definition TwoLevel_SeekToLast (fuel : nat) (t : Iterator) : option Iterator :=
  match move_index it_SeekToLast it_SeekToLast t with
  | None => None
  | Some t => SkipEmptyDataBlocksBackward fuel t
  end.

Definition TwoLevel_Next (fuel : nat) (t : Iterator) : option Iterator :=
  if negb (it_Valid (data_iter_ t)) then None
  else match it_Next (data_iter_ t) with None => None | Some w => SkipEmptyDataBlocksForward fuel (set_data w t) end.
Definition TwoLevel_Prev (fuel : nat) (t : Iterator) : option Iterator :=
  if negb (it_Valid (data_iter_ t)) then None
  else match it_Prev (data_iter_ t) with None => None | Some w => SkipEmptyDataBlocksBackward fuel (set_data w t) end.

Definition TwoLevel_status (t : Iterator) : Status :=
  if negb (ok (it_status (index_iter_ t))) then it_status (index_iter_ t)
  else if has_data t && negb (ok (it_status (data_iter_ t))) then it_status (data_iter_ t)
  else tl_status t.

(** The loops are given [fuel] rounds, enough when it is more than the number of
    entries of the index. *)
Definition two_level_iter (fuel : nat) : Iter Iterator := {|
  it_Valid t := it_Valid (data_iter_ t);
  it_SeekToFirst := TwoLevel_SeekToFirst fuel;
  it_SeekToLast := TwoLevel_SeekToLast fuel;
  it_Seek := TwoLevel_Seek fuel;
  it_Next := TwoLevel_Next fuel;
  it_Prev := TwoLevel_Prev fuel;
  it_key t := it_key (data_iter_ t);
  it_value t := it_value (data_iter_ t);
  it_status := TwoLevel_status;
|}.
End TwoLevel.
