(* ===== verification/LvTwoLevelProps.v ===== *)
(** * leveldb: a two-level iterator runs over all blocks (theorems about LvTwoLevel)

    The iterator is a cursor on the concatenation of the blocks, empty blocks
    included, whatever happens to the shared argument between two operations. *)
From Stdlib Require Import ZArith Lia Bool List Sorted.
From stdpp Require Import base list numbers.
From S2P Require Import Prelude LvCoding LvEnv LvComparator LvBlock LvBlockProps LvTableRead LvIterator LvMergerProps LvTwoLevel.

Lemma first_ge_skip (C : Comparator) k (a b : list (list Z * list Z)) : (forall e, e ∈ a -> Compare e.1 k < 0) ->
  first_ge C k (a ++ b) = (length a + first_ge C k b)%nat.
Proof.
  induction a as [|[x v] a IH]; intros H; [done|]. simpl. assert (Hx : Compare x k < 0) by (apply (H (x, v)); now left).
  destruct (Z.ltb_spec (Compare x k) 0); [|lia]. now rewrite IH by (intros e He; apply H; now right).
Qed.

Lemma first_ge_stop (C : Comparator) k (a b : list (list Z * list Z)) : (forall e, e ∈ b -> 0 <= Compare e.1 k) ->
  first_ge C k (a ++ b) = first_ge C k a.
Proof.
  intros H. induction a as [|[x v] a IH]; simpl; [|now rewrite IH]. destruct b as [|[x v] b]; [done|]. simpl.
  assert (Hx : 0 <= Compare x k) by (apply (H (x, v)); now left). destruct (Z.ltb_spec (Compare x k) 0); [lia|done].
Qed.

Section Concat.
Context {C : Comparator} {valid : list Z -> Prop} {CL : ComparatorLaws C valid}.
Context {A I J : Type} {II : Iter I} {IJ : Iter J} {LI : IterLaws C valid I} {LJ : IterLaws C valid J}.
Context (block_function : A -> list Z -> option (J * A)).
Notation entry := (list Z * list Z)%type.
Notation Iterator := (TwoLevelIterator A I J).
Notation iat := (it_at (IterLaws := LI)).
Notation jat := (it_at (IterLaws := LJ)).

(** [good] is what is known about the argument, [ix] the entries of the index
    and [ds] the blocks they point to. *)
Record two_level_of (good : A -> Prop) (ix : list entry) (ds : list (list entry)) : Prop := {
  tw_length : length ix = length ds;
  tw_block n k h d a : ix !! n = Some (k, h) -> ds !! n = Some d -> good a ->
    exists j a', block_function a h = Some (j, a') /\ good a' /\ exists p, jat j d p;
  tw_handle n m k k' h : ix !! n = Some (k, h) -> ix !! m = Some (k', h) -> ds !! n = ds !! m;
  tw_valid k h : (k, h) ∈ ix -> valid k;
  tw_entry d e : d ∈ ds -> e ∈ d -> valid e.1;
  tw_last n k h d e : ix !! n = Some (k, h) -> ds !! n = Some d -> e ∈ d -> Compare e.1 k <= 0;
  tw_first n m k h d e : ix !! n = Some (k, h) -> ds !! m = Some d -> (n < m)%nat -> e ∈ d -> Compare k e.1 < 0;
  tw_sorted n m k h k' h' : ix !! n = Some (k, h) -> ix !! m = Some (k', h') -> (n < m)%nat -> Compare k k' <= 0;
}.

Context (good : A -> Prop) (ix : list entry) (ds : list (list entry)) (HT : two_level_of good ix ds).

(** The number of entries before a block. *)
Definition off (b : nat) : nat := length (concat (take b ds)).

Lemma before_S b d : ds !! b = Some d -> off (S b) = (off b + length d)%nat.
Proof. intros H. unfold off. rewrite (take_S_r _ _ d) by done. rewrite concat_app, length_app. simpl. now rewrite app_nil_r. Qed.

Lemma off_all b : (length ds <= b)%nat -> off b = length (concat ds).
Proof. intros H. unfold off. now rewrite take_ge. Qed.

Lemma concat_at b d : ds !! b = Some d -> concat ds = concat (take b ds) ++ d ++ concat (drop (S b) ds).
Proof. intros Hb. transitivity (concat (take b ds ++ d :: drop (S b) ds)); [now rewrite take_drop_middle|now rewrite concat_app]. Qed.

Lemma off_lookup b d k e : ds !! b = Some d -> d !! k = Some e -> concat ds !! (off b + k)%nat = Some e.
Proof.
  intros Hb Hk. rewrite (concat_at b d Hb). unfold off.
  rewrite lookup_app_r by lia. replace (length (concat (take b ds)) + k - _)%nat with k by lia.
  rewrite lookup_app_l; [done|]. now apply lookup_lt_Some in Hk.
Qed.

(** ** States *)

Record steady (t : Iterator) : Prop := {
  ts_good : good (arg_ t);
  ts_status : tl_status t = OK;
  ts_data : has_data t = true -> exists c d key k, ix !! c = Some (key, data_block_handle_ t) /\ ds !! c = Some d /\ wrapper_at (data_iter_ t) d k;
}.

(** The index is at entry [b], and the data at entry [k] of the block, or there
    is no data behind the last block. *)
Definition inside (t : Iterator) (b k : nat) : Prop :=
  steady t /\ wrapper_at (index_iter_ t) ix b /\
  match ix !! b, ds !! b with
  | Some (_, h), Some d => has_data t = true /\ data_block_handle_ t = h /\ wrapper_at (data_iter_ t) d k
  | _, _ => has_data t = false /\ k = O
  end.

Definition two_level_at (t : Iterator) (n : nat) : Prop :=
  (exists b d k, inside t b k /\ ds !! b = Some d /\ (k < length d)%nat /\ n = (off b + k)%nat) \/
  (steady t /\ has_data t = false /\ w_valid (data_iter_ t) = false /\ (exists b, wrapper_at (index_iter_ t) ix b) /\ n = length (concat ds)).

(** ** One step of the index *)

Lemma wrapper_status (w : IteratorWrapper J) d k : wrapper_at w d k -> it_status w = OK.
Proof. intros H. exact (it_at_status (IterLaws := wrapper_laws (IL := LJ)) w d k H). Qed.

Lemma data_status t : steady t -> has_data t = true -> it_status (data_iter_ t) = OK.
Proof. intros Ht Eh. destruct (ts_data t Ht Eh) as (c & d & key & k & _ & _ & Hw). exact (wrapper_status _ _ _ Hw). Qed.

Lemma SetDataIterator_ok (t : Iterator) j : tl_status t = OK -> (has_data t = true -> it_status (data_iter_ t) = OK) ->
  SetDataIterator j t = MkTwoLevel (arg_ t) OK (index_iter_ t) (wrapper_Set (data_iter_ t) j) (data_block_handle_ t).
Proof.
  intros Es Hd. unfold SetDataIterator. destruct (has_data t) eqn:Eh.
  - unfold SaveError. rewrite (Hd eq_refl), Es. done.
  - unfold set_data. now rewrite Es.
Qed.

(** [g] puts the data at the entry [pos d] of a block. *)
Definition puts (g : IteratorWrapper J -> option (IteratorWrapper J)) (pos : list entry -> nat) : Prop :=
  forall w d k, d ∈ ds -> wrapper_at w d k -> exists w', g w = Some w' /\ wrapper_at w' d (pos d).

Lemma wrapper_at_valid (w : IteratorWrapper I) b : wrapper_at w ix b -> w_valid w = (b <? length ix)%nat.
Proof. intros H. exact (it_at_valid (IterLaws := wrapper_laws (IL := LI)) w ix b H). Qed.

Lemma move_index_ok f g pos t w b : steady t -> f (index_iter_ t) = Some w -> wrapper_at w ix b -> puts g pos ->
  exists t', move_index block_function f g t = Some t' /\
    inside t' b (match ds !! b with Some d => pos d | None => O end).
Proof.
  intros Ht Ef Hw Hg. unfold move_index. rewrite Ef. unfold InitDataBlock. cbn [it_Valid wrapper_iter index_iter_ set_index].
  rewrite (wrapper_at_valid w b Hw).
  destruct (Nat.ltb_spec b (length ix)) as [Hb|Hb]; cbn [negb].
  - destruct (lookup_lt_is_Some_2 ix b Hb) as [[key h] Eb]. rewrite (tw_length _ _ _ HT) in Hb. destruct (lookup_lt_is_Some_2 ds b Hb) as [d Ed]. rewrite Ed.
    pose proof (it_at_entry (IterLaws := wrapper_laws (IL := LI)) w ix b key h Hw Eb) as [_ Eh]. rewrite Eh.
    change (has_data (set_index w t)) with (has_data t). change (data_block_handle_ (set_index w t)) with (data_block_handle_ t).
    assert (Hd : d ∈ ds) by (apply list_elem_of_lookup; eauto).
    destruct (has_data t && bool_decide (h = data_block_handle_ t)) eqn:Ekeep.
    + apply andb_prop in Ekeep as [Ehas Ekeep%bool_decide_eq_true]. change (has_data (set_index w t)) with (has_data t). rewrite Ehas.
      destruct (ts_data t Ht Ehas) as (c & d' & key' & k & Ec & Ed' & Hd'). rewrite <- Ekeep in Ec.
      pose proof (tw_handle _ _ _ HT _ _ _ _ _ Eb Ec) as Esame. rewrite Ed, Ed' in Esame. injection Esame as <-.
      destruct (Hg (data_iter_ t) d k Hd Hd') as (w' & Eg & Hw'). cbn [data_iter_ set_index]. rewrite Eg. eexists. split; [reflexivity|].
      assert (Hhas : has_data (set_data w' (set_index w t)) = true) by (unfold has_data; cbn; destruct Hw' as (j & -> & _); done).
      split; [|split; [done|]]; [|rewrite Eb, Ed; done].
      constructor; [apply Ht|apply Ht|]. intros _. exists b, d, key, (pos d). cbn. now rewrite <- Ekeep.
    + cbn [arg_ set_index tl_status index_iter_ data_iter_].
      destruct (tw_block _ _ _ HT b key h d (arg_ t) Eb Ed (ts_good t Ht)) as (j & a' & -> & Ha' & p & Hj).
      rewrite SetDataIterator_ok; [|apply Ht|exact (data_status t Ht)]. cbn [has_data w_iter data_iter_ wrapper_Set arg_ index_iter_ data_block_handle_ wrapper_Update].
      assert (Hj' : wrapper_at (wrapper_Set (data_iter_ t) (Some j)) d p) by now apply wrapper_Set_at.
      destruct (Hg _ d p Hd Hj') as (w' & Eg & Hw'). cbn [wrapper_Set] in Eg. rewrite Eg. eexists. split; [reflexivity|].
      assert (Hhas : match w_iter w' with Some _ => true | None => false end = true) by (destruct Hw' as (x & -> & _); done).
      split; [|split; [done|]]; [|rewrite Eb, Ed; done].
      constructor; [done|done|]. intros _. exists b, d, key, (pos d). done.
  - rewrite SetDataIterator_ok; [|apply Ht|exact (data_status t Ht)]. cbn. eexists. split; [reflexivity|].
    split; [|split; [done|]].
    + constructor; [apply Ht|done|done].
    + rewrite (lookup_ge_None_2 ix) by done. split; [done|]. now rewrite (lookup_ge_None_2 ds) by (rewrite <- (tw_length _ _ _ HT); done).
Qed.

(** ** Skipping empty blocks *)

Lemma inside_index t b k : inside t b k -> it_Valid (index_iter_ t) = (b <? length ds)%nat /\ wrapper_at (index_iter_ t) ix b.
Proof. intros (_ & Hw & _). split; [|done]. rewrite <- (tw_length _ _ _ HT). now apply wrapper_at_valid. Qed.

Lemma inside_data t b k d : inside t b k -> ds !! b = Some d ->
  has_data t = true /\ wrapper_at (data_iter_ t) d k /\ it_Valid (data_iter_ t) = (k <? length d)%nat.
Proof.
  intros (_ & _ & H) Ed. destruct (lookup_lt_is_Some_2 ix b) as [[key h] Eb]; [rewrite (tw_length _ _ _ HT); now apply lookup_lt_Some in Ed|].
  rewrite Eb, Ed in H. destruct H as (Hh & _ & Hw). split; [done|]. split; [done|]. exact (it_at_valid (IterLaws := wrapper_laws (IL := LJ)) _ d k Hw).
Qed.

Lemma inside_end t b k : inside t b k -> (length ds <= b)%nat -> has_data t = false /\ k = O.
Proof. intros (_ & _ & H) Hb. rewrite (lookup_ge_None_2 ds) in H by done. now destruct (ix !! b) as [[]|]. Qed.

(** At the end of the index there is nothing left. *)
Lemma no_data_at t b : steady t -> wrapper_at (index_iter_ t) ix b -> two_level_at (SetDataIterator None t) (length (concat ds)).
Proof.
  intros Ht Hw. rewrite SetDataIterator_ok; [|apply Ht|exact (data_status t Ht)]. right. split; [constructor; [apply Ht|done|done]|].
  split; [done|]. split; [done|]. split; [now exists b|done].
Qed.

Lemma puts_first : puts it_SeekToFirst (fun _ => 0%nat).
Proof. intros w d k _ Hw. exact (it_first_at (IL := wrapper_laws (IL := LJ)) w d k Hw). Qed.
Lemma puts_last : puts it_SeekToLast (fun d => (length d - 1)%nat).
Proof. intros w d k _ Hw. exact (it_last_at (IL := wrapper_laws (IL := LJ)) w d k Hw). Qed.
Lemma puts_seek target : valid target -> puts (fun w => it_Seek w target) (first_ge C target).
Proof. intros V w d k _ Hw. exact (it_seek_at (IL := wrapper_laws (IL := LJ)) w d k target Hw V). Qed.

Lemma skip_forward_ok m : forall b k t fuel, (length ds - b = m)%nat -> (b <= length ds)%nat -> (m < fuel)%nat -> inside t b k ->
  (forall d, ds !! b = Some d -> (k <= length d)%nat) ->
  exists t', SkipEmptyDataBlocksForward block_function fuel t = Some t' /\ two_level_at t' (off b + k).
Proof.
  induction m as [|m IH]; intros b k t [|fuel] Em Hb Hf Hin Hk; try lia; cbn [SkipEmptyDataBlocksForward].
  - destruct (inside_end t b k Hin ltac:(lia)) as [-> ->]. destruct (inside_index t b 0 Hin) as [-> Hw]. cbn [negb orb].
    destruct (Nat.ltb_spec b (length ds)); [lia|]. cbn [negb]. eexists. split; [reflexivity|].
    rewrite off_all, Nat.add_0_r by lia. apply (no_data_at t b); [apply Hin|done].
  - destruct (lookup_lt_is_Some_2 ds b) as [d Ed]; [lia|]. specialize (Hk d Ed). destruct (inside_data t b k d Hin Ed) as (-> & Hw & ->). cbn [negb orb].
    destruct (Nat.ltb_spec k (length d)) as [Hlt|Hge]; cbn [negb].
    + exists t. split; [done|]. left. now exists b, d, k.
    + destruct (inside_index t b k Hin) as [-> Hi]. destruct (Nat.ltb_spec b (length ds)); [|lia]. cbn [negb].
      destruct (it_next_at (IL := wrapper_laws (IL := LI)) _ _ _ Hi) as (w & Ew & Hw'); [rewrite (tw_length _ _ _ HT); lia|].
      destruct (move_index_ok it_Next it_SeekToFirst (fun _ => 0%nat) t w (S b) (proj1 Hin) Ew Hw' puts_first) as (t' & -> & Hin').
      replace (off b + k)%nat with (off (S b) + 0)%nat by (rewrite (before_S b d Ed); lia).
      replace (match ds !! S b with Some _ => 0 | None => 0 end)%nat with 0%nat in Hin' by now destruct (ds !! S b).
      apply IH; [lia|lia|lia|done|]. intros; lia.
Qed.

(** The data is not valid: the entry before the block is wanted. *)
Lemma skip_backward_ok b : forall t fuel d, (S b < fuel)%nat -> ds !! b = Some d -> inside t b (length d) ->
  exists t', SkipEmptyDataBlocksBackward block_function fuel t = Some t' /\ two_level_at t' (prev_pos (off b) (length (concat ds))).
Proof.
  induction b as [|b IH]; intros t [|fuel] d Hf Ed Hin; try lia; cbn [SkipEmptyDataBlocksBackward].
  all: destruct (inside_data t _ _ d Hin Ed) as (-> & Hw & ->); rewrite Nat.ltb_irrefl; cbn [negb orb].
  all: destruct (inside_index t _ _ Hin) as [-> Hi]; pose proof (lookup_lt_Some _ _ _ Ed) as Hb.
  all: apply Nat.ltb_lt in Hb as Hb'; rewrite Hb'; cbn [negb].
  all: destruct (it_prev_at (IL := wrapper_laws (IL := LI)) _ _ _ Hi) as (w & Ew & Hw'); [now rewrite (tw_length _ _ _ HT)|].
  all: destruct (move_index_ok it_Prev it_SeekToLast (fun d => (length d - 1)%nat) t w _ (proj1 Hin) Ew Hw' puts_last) as (t' & -> & Hin').
  - rewrite (tw_length _ _ _ HT) in Hin', Hw'. destruct fuel as [|fuel]; [lia|]. cbn [SkipEmptyDataBlocksBackward].
    destruct (inside_end t' _ _ Hin' ltac:(lia)) as [-> _]. destruct (inside_index t' _ _ Hin') as [-> Hi']. rewrite Nat.ltb_irrefl. cbn [negb orb].
    eexists. split; [reflexivity|]. apply (no_data_at t' (length ds)); [apply Hin'|done].
  - destruct (lookup_lt_is_Some_2 ds b) as [d' Ed']; [lia|]. rewrite Ed' in Hin'. rewrite (before_S b d' Ed').
    destruct d' as [|e d'].
    + rewrite Nat.add_0_r. apply (IH t' fuel []); [lia|done|done].
    + destruct fuel as [|fuel]; [lia|]. cbn [SkipEmptyDataBlocksBackward].
      destruct (inside_data t' _ _ _ Hin' Ed') as (-> & Hw2 & ->). replace (_ <? _)%nat with true by (symmetry; apply Nat.ltb_lt; simpl; lia).
      cbn [negb orb]. exists t'. split; [done|]. left. exists b, (e :: d'), (length (e :: d') - 1)%nat. split; [done|]. split; [done|].
      split; [simpl; lia|]. simpl. rewrite Nat.add_succ_r. simpl. lia.
Qed.

(** ** All operations *)

(** The index leads to the block of the entry that is sought. *)
Lemma seek_block target : valid target -> let b := first_ge C target ix in
  first_ge C target (concat ds) = (off b + match ds !! b with Some d => first_ge C target d | None => 0 end)%nat.
Proof.
  intros Vt b. destruct (first_ge_spec C target ix) as (Hb & Hbefore & Hat). fold b in Hb, Hbefore, Hat.
  assert (Hsmall : forall e, e ∈ concat (take b ds) -> Compare e.1 target < 0).
  { intros e He. apply elem_concat_take in He as (m & d & Hm & Ed & He).
    destruct (lookup_lt_is_Some_2 ix m) as [[key h] Em]; [rewrite (tw_length _ _ _ HT); now apply lookup_lt_Some in Ed|].
    apply (Compare_le_lt_trans _ key); [|now apply (tw_valid _ _ _ HT key h), (list_elem_of_lookup_2 _ m)|done| |now apply (Hbefore m (key, h))].
    - apply (tw_entry _ _ _ HT d e); [now apply (list_elem_of_lookup_2 _ m)|done].
    - now apply (tw_last _ _ _ HT m key h d e). }
  destruct (ds !! b) as [d|] eqn:Ed.
  - rewrite (concat_at b d Ed), first_ge_skip by done. unfold off. f_equal. apply first_ge_stop. intros e He.
    destruct (lookup_lt_is_Some_2 ix b) as [[key h] Eb]; [rewrite (tw_length _ _ _ HT); now apply lookup_lt_Some in Ed|].
    apply list_elem_of_In, in_concat in He as (d' & Hd' & He). apply list_elem_of_In in He. apply list_elem_of_In, list_elem_of_lookup in Hd' as [m Hm].
    rewrite lookup_drop in Hm. specialize (Hat _ Eb). simpl in Hat.
    assert (Hlt : Compare key e.1 < 0) by (apply (tw_first _ _ _ HT b (S b + m) key h d' e); [done|done|lia|done]).
    assert (Ve : valid e.1) by (apply (tw_entry _ _ _ HT d' e); [now apply (list_elem_of_lookup_2 _ (S b + m))|done]).
    assert (Vk : valid key) by now apply (tw_valid _ _ _ HT key h), (list_elem_of_lookup_2 _ b).
    apply Compare_flip; [done|done|]. assert (Compare target e.1 < 0); [|lia]. apply (Compare_le_lt_trans _ key); [done|done|done| |done].
    now apply Compare_flip.
  - apply lookup_ge_None in Ed. rewrite off_all, Nat.add_0_r by done. rewrite take_ge in Hsmall by done.
    rewrite <- (app_nil_r (concat ds)) at 1. rewrite first_ge_skip by done. simpl. lia.
Qed.

Context (fuel : nat) (Hfuel : (length ds < fuel)%nat).

Lemma two_level_parts t n : two_level_at t n -> steady t /\ exists b, wrapper_at (index_iter_ t) ix b.
Proof. intros [(b & d & k & (Ht & Hi & _) & _)|(Ht & _ & _ & Hi & _)]; eauto. Qed.

(** What happens to the argument does not matter. *)
Lemma two_level_set_arg t n a : two_level_at t n -> good a -> two_level_at (set_arg a t) n.
Proof.
  intros Ht Ha. assert (Hst : forall t, steady t -> steady (set_arg a t)) by (intros t' [H1 H2 H3]; constructor; done).
  destruct Ht as [(b & d & k & (Hs & Hi & Hd) & Ed & Hk & ->)|(Hs & H)]; [left|right].
  - exists b, d, k. split; [|done]. split; [now apply Hst|]. done.
  - split; [now apply Hst|]. exact H.
Qed.

Lemma forward_start f g pos t w b : steady t -> f (index_iter_ t) = Some w -> wrapper_at w ix b -> puts g pos ->
  (b <= length ds)%nat -> (forall d, ds !! b = Some d -> (pos d <= length d)%nat) ->
  exists t', match move_index block_function f g t with Some t => SkipEmptyDataBlocksForward block_function fuel t | None => None end = Some t' /\
    two_level_at t' (off b + match ds !! b with Some d => pos d | None => 0 end).
Proof.
  intros Ht Ef Hw Hg Hb Hpos. destruct (move_index_ok f g pos t w b Ht Ef Hw Hg) as (t' & -> & Hin).
  apply (skip_forward_ok (length ds - b)); [done|done|lia|done|]. intros d Ed. rewrite Ed. now apply Hpos.
Qed.

Lemma index_le (w : IteratorWrapper I) b : wrapper_at w ix b -> (b <= length ds)%nat.
Proof. intros (i & _ & Hi & _). rewrite <- (tw_length _ _ _ HT). now apply (it_at_le (IterLaws := LI)) in Hi. Qed.

Lemma two_level_first t n : two_level_at t n -> exists t', TwoLevel_SeekToFirst block_function fuel t = Some t' /\ two_level_at t' 0.
Proof.
  intros [Ht [b Hi]]%two_level_parts. destruct (it_first_at (IL := wrapper_laws (IL := LI)) _ _ _ Hi) as (w & Ew & Hw).
  destruct (forward_start it_SeekToFirst it_SeekToFirst (fun _ => 0%nat) t w 0 Ht Ew Hw puts_first) as (t' & E & H); [lia|intros; lia|].
  exists t'. split; [exact E|]. replace 0%nat with (off 0 + match ds !! 0%nat with Some _ => 0 | None => 0 end)%nat; [done|]. now destruct (ds !! 0%nat).
Qed.

Lemma two_level_seek t n target : two_level_at t n -> valid target ->
  exists t', TwoLevel_Seek block_function fuel t target = Some t' /\ two_level_at t' (first_ge C target (concat ds)).
Proof.
  intros [Ht [b Hi]]%two_level_parts Vt. destruct (it_seek_at (IL := wrapper_laws (IL := LI)) _ _ _ target Hi Vt) as (w & Ew & Hw).
  rewrite (seek_block target Vt). apply (forward_start (fun w => it_Seek w target) (fun w => it_Seek w target) (first_ge C target) t w _ Ht Ew Hw).
  - now apply puts_seek.
  - now apply (index_le w).
  - intros d _. apply first_ge_spec.
Qed.

Lemma two_level_last t n : two_level_at t n ->
  exists t', TwoLevel_SeekToLast block_function fuel t = Some t' /\ two_level_at t' (length (concat ds) - 1).
Proof.
  intros [Ht [b0 Hi]]%two_level_parts. destruct (it_last_at (IL := wrapper_laws (IL := LI)) _ _ _ Hi) as (w & Ew & Hw).
  unfold TwoLevel_SeekToLast. rewrite (tw_length _ _ _ HT) in Hw.
  destruct (move_index_ok it_SeekToLast it_SeekToLast (fun d => (length d - 1)%nat) t w _ Ht Ew Hw puts_last) as (t' & -> & Hin).
  destruct (ds !! (length ds - 1)%nat) as [d|] eqn:Ed.
  - assert (Etot : length (concat ds) = (off (length ds - 1) + length d)%nat).
    { rewrite <- (before_S _ _ Ed). apply lookup_lt_Some in Ed. symmetry. apply off_all. lia. }
    destruct d as [|e d].
    + destruct (skip_backward_ok (length ds - 1) t' fuel []) as (t2 & E & H); [apply lookup_lt_Some in Ed; lia|done|done|].
      exists t2. split; [done|]. simpl in Etot. rewrite Nat.add_0_r in Etot. rewrite <- Etot in H. destruct (length (concat ds)); [done|]. simpl. now rewrite Nat.sub_0_r.
    + destruct fuel as [|fl]; [lia|]. cbn [SkipEmptyDataBlocksBackward]. destruct (inside_data t' _ _ _ Hin Ed) as (-> & _ & ->).
      replace (_ <? _)%nat with true by (symmetry; apply Nat.ltb_lt; simpl; lia). cbn [negb orb]. exists t'. split; [done|]. left.
      exists (length ds - 1)%nat, (e :: d), (length (e :: d) - 1)%nat. split; [done|]. split; [done|]. split; [simpl; lia|]. rewrite Etot. simpl. lia.
  - apply lookup_ge_None in Ed. assert (Hnil : ds = []) by (apply length_zero_iff_nil; lia).
    destruct fuel as [|fl]; [lia|]. cbn [SkipEmptyDataBlocksBackward]. destruct (inside_end t' _ _ Hin Ed) as [-> _]. cbn [negb orb].
    destruct (inside_index t' _ _ Hin) as [-> Hi']. destruct (Nat.ltb_spec (length ds - 1) (length ds)); [lia|]. cbn [negb].
    eexists. split; [reflexivity|]. replace (length (concat ds) - 1)%nat with (length (concat ds)) by now rewrite Hnil.
    eapply no_data_at; [apply Hin|exact Hi'].
Qed.

(** Valid positions are inside a block. *)
Lemma two_level_inside t n : two_level_at t n -> (n < length (concat ds))%nat ->
  exists b d k, inside t b k /\ ds !! b = Some d /\ (k < length d)%nat /\ n = (off b + k)%nat.
Proof. intros [H|(_ & _ & _ & _ & ->)] Hn; [done|]. now apply Nat.lt_irrefl in Hn. Qed.

(** Another position in the block. *)
Lemma inside_set_data t b k d w k' : inside t b k -> ds !! b = Some d -> wrapper_at w d k' -> inside (set_data w t) b k'.
Proof.
  intros (Ht & Hi & H) Ed Hw. destruct (lookup_lt_is_Some_2 ix b) as [[key h] Eb]; [rewrite (tw_length _ _ _ HT); now apply lookup_lt_Some in Ed|].
  rewrite Eb, Ed in H. destruct H as (Hh & Eh & _).
  assert (Hhas : has_data (set_data w t) = true) by (unfold has_data; cbn; destruct Hw as (j & -> & _); done).
  split; [|split; [done|]]; [|now rewrite Eb, Ed]. constructor; [apply Ht|apply Ht|]. intros _. exists b, d, key, k'. cbn. now rewrite Eh.
Qed.

Lemma two_level_next t n : two_level_at t n -> (n < length (concat ds))%nat ->
  exists t', TwoLevel_Next block_function fuel t = Some t' /\ two_level_at t' (S n).
Proof.
  intros Ht Hn. destruct (two_level_inside t n Ht Hn) as (b & d & k & Hin & Ed & Hk & ->).
  destruct (inside_data t b k d Hin Ed) as (_ & Hw & Ev). unfold TwoLevel_Next. rewrite Ev. apply Nat.ltb_lt in Hk as Hk'. rewrite Hk'. cbn [negb].
  destruct (it_next_at (IL := wrapper_laws (IL := LJ)) _ _ _ Hw Hk) as (w & Ew & Hw'). rewrite Ew.
  rewrite <- Nat.add_succ_r. pose proof (lookup_lt_Some _ _ _ Ed). apply (skip_forward_ok (length ds - b)); [done|lia|lia|now apply (inside_set_data t b k d)|].
  intros d' Ed'. rewrite Ed in Ed'. injection Ed' as <-. lia.
Qed.

Lemma two_level_prev t n : two_level_at t n -> (n < length (concat ds))%nat ->
  exists t', TwoLevel_Prev block_function fuel t = Some t' /\ two_level_at t' (prev_pos n (length (concat ds))).
Proof.
  intros Ht Hn. destruct (two_level_inside t n Ht Hn) as (b & d & k & Hin & Ed & Hk & ->).
  destruct (inside_data t b k d Hin Ed) as (_ & Hw & Ev). unfold TwoLevel_Prev. rewrite Ev. apply Nat.ltb_lt in Hk as Hk'. rewrite Hk'. cbn [negb].
  destruct (it_prev_at (IL := wrapper_laws (IL := LJ)) _ _ _ Hw Hk) as (w & Ew & Hw'). rewrite Ew.
  pose proof (inside_set_data t b k d w _ Hin Ed Hw') as Hin'. pose proof (lookup_lt_Some _ _ _ Ed) as Hb. destruct k as [|k].
  - rewrite Nat.add_0_r. apply (skip_backward_ok b _ fuel d); [lia|done|done].
  - rewrite Nat.add_succ_r. cbn [prev_pos]. destruct fuel as [|fl]; [lia|]. cbn [SkipEmptyDataBlocksBackward].
    destruct (inside_data _ _ _ _ Hin' Ed) as (-> & _ & ->). replace (_ <? _)%nat with true by (symmetry; apply Nat.ltb_lt; lia). cbn [negb orb].
    eexists. split; [reflexivity|]. left. exists b, d, k. split; [done|]. split; [done|]. split; [lia|done].
Qed.

Lemma two_level_valid t n : two_level_at t n -> it_Valid (data_iter_ t) = (n <? length (concat ds))%nat.
Proof.
  intros [(b & d & k & Hin & Ed & Hk & ->)|(_ & _ & Ev & _ & ->)].
  - destruct (inside_data t b k d Hin Ed) as (_ & _ & ->).
    destruct (lookup_lt_is_Some_2 d k Hk) as [e Ee]. pose proof (off_lookup b d k e Ed Ee) as H. apply lookup_lt_Some in H.
    apply Nat.ltb_lt in Hk, H. now rewrite Hk, H.
  - cbn [it_Valid wrapper_iter]. now rewrite Ev, Nat.ltb_irrefl.
Qed.

Lemma two_level_entry t n e : two_level_at t n -> concat ds !! n = Some e -> it_key (data_iter_ t) = e.1 /\ it_value (data_iter_ t) = e.2.
Proof.
  intros [(b & d & k & Hin & Ed & Hk & ->)|(_ & _ & _ & _ & ->)] Hl; [|now rewrite lookup_ge_None_2 in Hl].
  destruct (inside_data t b k d Hin Ed) as (_ & Hw & _). destruct (lookup_lt_is_Some_2 d k Hk) as [[k1 v1] Ee].
  rewrite (off_lookup b d k _ Ed Ee) in Hl. injection Hl as <-. exact (it_at_entry (IterLaws := wrapper_laws (IL := LJ)) _ d k k1 v1 Hw Ee).
Qed.

Lemma two_level_ok t n : two_level_at t n -> TwoLevel_status t = OK.
Proof.
  intros [Hs [b Hi]]%two_level_parts. unfold TwoLevel_status. rewrite (it_at_status (IterLaws := wrapper_laws (IL := LI)) _ _ _ Hi). cbn [ok negb].
  destruct (has_data t) eqn:Eh; [rewrite (data_status t Hs Eh)|]; apply Hs.
Qed.

Lemma two_level_step t n op m : two_level_at t n -> op_valid valid op -> cursor_op C (concat ds) n op = Some m ->
  exists t', it_run (H := two_level_iter block_function fuel) t op = Some t' /\ two_level_at t' m.
Proof.
  intros Ht Ho Hc. pose proof (two_level_valid t n Ht) as Hv.
  destruct op as [| | | |target]; cbn [cursor_op it_run] in *; cbn [it_SeekToFirst it_SeekToLast it_Seek it_Next it_Prev it_Valid two_level_iter].
  - injection Hc as <-. now apply (two_level_first t n).
  - injection Hc as <-. now apply (two_level_last t n).
  - destruct (Nat.ltb_spec n (length (concat ds))) as [Hn|]; [|done]. injection Hc as <-. change (w_valid (data_iter_ t)) with (it_Valid (data_iter_ t)).
    rewrite Hv. now apply two_level_next.
  - destruct (Nat.ltb_spec n (length (concat ds))) as [Hn|]; [|done]. injection Hc as <-. rewrite Hv. now apply two_level_prev.
  - injection Hc as <-. now apply (two_level_seek t n).
Qed.
End Concat.

(** A two-level iterator keeps the promise of iterators. *)
#[export, refine] Instance two_level_laws {C valid} {CL : ComparatorLaws C valid} {A I J} {II : Iter I} {IJ : Iter J}
    {LI : IterLaws C valid I} {LJ : IterLaws C valid J} (block_function : A -> list Z -> option (J * A)) (fuel : nat) :
    IterLaws C valid (TwoLevelIterator A I J) (It := two_level_iter block_function fuel) := {
  it_at t es n := exists good ix ds, two_level_of (C := C) (valid := valid) block_function good ix ds /\ (length ds < fuel)%nat /\
    es = concat ds /\ two_level_at (C := C) (valid := valid) good ix ds t n;
}.
Proof.
  - intros t es n (good & ix & ds & HT & Hf & -> & [(b & d & k & _ & Ed & Hk & ->)|(_ & _ & _ & _ & ->)]); [|done].
    destruct (lookup_lt_is_Some_2 d k Hk) as [e Ee]. pose proof (off_lookup ds b d k e Ed Ee) as H. apply lookup_lt_Some in H. lia.
  - intros t es n (good & ix & ds & HT & Hf & -> & Ht). exact (two_level_valid block_function good ix ds HT t n Ht).
  - intros t es n key v (good & ix & ds & HT & Hf & -> & Ht) Hl. exact (two_level_entry block_function good ix ds HT t n (key, v) Ht Hl).
  - intros t es n (good & ix & ds & HT & Hf & -> & Ht). exact (two_level_ok good ix ds t n Ht).
  - intros t es n op m (good & ix & ds & HT & Hf & -> & Ht) Ho Hc.
    destruct (two_level_step block_function good ix ds HT fuel Hf t n op m Ht Ho Hc) as (t' & E & H). exists t'. split; [done|]. now exists good, ix, ds.
Defined.

Lemma make_TwoLevel_at {C valid} {CL : ComparatorLaws C valid} {A I J} {II : Iter I} {IJ : Iter J}
    {LI : IterLaws C valid I} {LJ : IterLaws C valid J} (block_function : A -> list Z -> option (J * A)) (fuel : nat) good ix ds (i : I) (a : A) p :
  two_level_of (C := C) (valid := valid) block_function good ix ds -> (length ds < fuel)%nat -> good a -> it_at (IterLaws := LI) i ix p ->
  it_at (IterLaws := two_level_laws block_function fuel) (make_TwoLevel i a) (concat ds) (length (concat ds)).
Proof.
  intros HT Hf Ha Hi. exists good, ix, ds. split; [done|]. split; [done|]. split; [done|]. right.
  split; [constructor; done|]. split; [done|]. split; [done|]. split; [|done]. exists p. now apply wrapper_Set_at.
Qed.
