(* ===== verification/LvTableIter.v ===== *)
(** * leveldb: iterators of tables (Table::NewIterator, TableCache::NewIterator)

    The iterator of an open table runs over its index and reads the blocks
    through the cache; the table cache makes iterators for file numbers. *)
From Stdlib Require Import ZArith Lia Bool List Sorted.
From stdpp Require Import base list gmap numbers sorting.
From S2P Require Import Prelude LvCoding LvEnv LvLog LvComparator LvDbFormat LvBlock LvBlockProps LvFilter LvFilterProps.
From S2P Require Import LvFormat LvTable LvTableProps LvTableRead LvFilename LvTableCache LvIterator LvMergerProps LvTwoLevel LvTwoLevelProps.

(** ** What [Block::NewIterator] returns is an iterator *)

(** [SeekToFirst], [SeekToLast], [Next] and [Prev] of a block iterator or of one
    without entries. *)
Definition result_do (f : BlockIter -> option BlockIter) (it : NewIterator_result) : option NewIterator_result :=
  match it with Iterator i => Iterator <$> f i | it => Some it end.
Definition result_step (f : BlockIter -> option BlockIter) (it : NewIterator_result) : option NewIterator_result :=
  match it with Iterator i => Iterator <$> f i | _ => None end.

#[export] Instance result_iter (C : Comparator) : Iter NewIterator_result := {
  it_Valid := iter_Valid;
  it_SeekToFirst := result_do Block_SeekToFirst;
  it_SeekToLast := result_do Block_SeekToLast;
  it_Seek := iter_Seek C;
  it_Next := result_step Block_Next;
  it_Prev := result_step Block_Prev;
  it_key := iter_key;
  it_value := iter_value;
  it_status := iter_status;
}.

#[export, refine] Instance result_laws (C : Comparator) (valid : list Z -> Prop) {CL : ComparatorLaws C valid} :
    IterLaws C valid NewIterator_result (It := result_iter C) := {
  it_at r es n := exists i, r = Iterator i /\ it_at (IterLaws := block_laws C valid) i es n;
}.
Proof.
  - intros r es n (i & -> & H). exact (it_at_le i es n H).
  - intros r es n (i & -> & H). exact (it_at_valid i es n H).
  - intros r es n k v (i & -> & H). exact (it_at_entry i es n k v H).
  - intros r es n (i & -> & H). exact (it_at_status i es n H).
  - intros r es n op m (i & -> & H) Ho Hc. destruct (it_at_step i es n op m H Ho Hc) as (i' & E & H').
    exists (Iterator i'). split; [|now exists i'].
    destruct op; cbn [it_run it_Valid it_SeekToFirst it_SeekToLast it_Seek it_Next it_Prev block_iter result_iter] in E |- *;
      cbn [iter_Seek iter_Valid result_do result_step]; try (now rewrite E); destruct (Block_Valid i); [now rewrite E|done|now rewrite E|done].
Defined.

(** ** The iterator of a table *)

Section Table.
Context {F : Type} {RF : RandomAccessFile F} {K : Type} {BC : Cache Block K} {BL : CacheLaws Block K}.
Context (C : Comparator).
(** [ReadOptions] *)
Context (verify_checksums fill_cache : bool).

(** [BlockReader] with the table and the cache as its argument. *)
Definition block_reader (arg : Table F * option K) (index_value : list Z) : option (NewIterator_result * (Table F * option K)) :=
  match BlockReader (fst arg) verify_checksums fill_cache index_value (snd arg) with
  | Some (it, c) => Some (it, (fst arg, c))
  | None => None
  end.

Notation TableIterator := (TwoLevelIterator (Table F * option K) NewIterator_result NewIterator_result).

Definition Table_NewIterator (t : Table F) (block_cache : option K) : TableIterator :=
  make_TwoLevel (II := result_iter C) (NewIterator (tb_index_block t)) (t, block_cache).

(** Iterators of tables with fewer than [fuel] blocks. *)
Definition table_iter (fuel : nat) : Iter TableIterator :=
  two_level_iter (II := result_iter C) (IJ := result_iter C) block_reader fuel.

Context (valid : list Z -> Prop) {CL : ComparatorLaws C valid} (options : Options).
Definition table_iter_laws (fuel : nat) : IterLaws C valid TableIterator (It := table_iter fuel) :=
  two_level_laws (LI := result_laws C valid) (LJ := result_laws C valid) block_reader fuel.

(** The blocks of a table are what the iterator needs. *)
Lemma layout_two_level t good ds seps : 1 <= block_restart_interval options ->
  table_layout C valid options t good ds seps ->
  StronglySorted (fun a b => Compare a.1 b.1 < 0) (concat ds) -> Forall entry_bytes_ok (concat ds) -> Forall (fun e => valid e.1) (concat ds) ->
  two_level_of (C := C) (valid := valid) (LJ := result_laws C valid) block_reader (fun a => fst a = t /\ good (snd a)) (index_entries options ds seps) ds.
Proof.
  intros Hint Hl Hs Hb Hv. destruct (tl_index_ok _ _ _ _ _ _ _ Hl) as (Is & Ib & Iv). pose proof (tl_length _ _ _ _ _ _ _ Hl) as Hlen.
  assert (Hix : forall n k h, index_entries options ds seps !! n = Some (k, h) ->
    seps !! n = Some k /\ h = BlockHandle_EncodeTo (block_handle options ds n) [] /\ exists d, ds !! n = Some d).
  { intros n k h. unfold index_entries. rewrite list_lookup_imap. destruct (seps !! n) as [s|] eqn:Es; [|done]. intros [= <- <-].
    split; [done|]. split; [done|]. apply lookup_lt_is_Some_2. rewrite <- Hlen. now apply lookup_lt_Some in Es. }
  assert (Hsub : forall n d, ds !! n = Some d -> concat ds = concat (take n ds) ++ d ++ concat (drop (S n) ds)).
  { intros n d Hn. transitivity (concat (take n ds ++ d :: drop (S n) ds)); [now rewrite take_drop_middle|now rewrite concat_app]. }
  constructor.
  - unfold index_entries. now rewrite length_imap.
  - intros n k h d [t' c] Hn Hd [Et Hg]. cbn in Et, Hg. subst t'. destruct (Hix n k h Hn) as (_ & -> & _).
    destruct (tl_read _ _ _ _ _ _ _ Hl n d verify_checksums fill_cache c Hd Hg) as (c' & Er & Hg' & _).
    unfold block_reader. cbn [fst snd]. rewrite Er. eexists _, _. split; [reflexivity|]. split; [done|].
    rewrite (Hsub n d Hd) in Hs, Hb, Hv. apply Forall_app in Hb as [_ [Hb _]%Forall_app]. apply Forall_app in Hv as [_ [Hv _]%Forall_app].
    apply sorted_app_r, sorted_app_l in Hs. destruct (block_iter_fresh C valid CL (block_restart_interval options) d) as (i & Ei & Hi); try done.
    { now apply (tl_block _ _ _ _ _ _ _ Hl n). }
    unfold LvTableProps.block_of. rewrite Ei. exists (length d), i. done.
  - intros n m k k' h Hn Hm. destruct (Hix n k h Hn) as (_ & -> & d & Hd), (Hix m k' _ Hm) as (_ & E & d' & Hd').
    now rewrite (tl_handle _ _ _ _ _ _ _ Hl n m d d' Hd Hd' E).
  - intros k h Hin. rewrite Forall_forall in Iv. now apply (Iv (k, h)).
  - intros d e Hd He. apply list_elem_of_lookup in Hd as [n Hn]. rewrite (Hsub n d Hn), !Forall_app in Hv.
    destruct Hv as (_ & Hv & _). rewrite Forall_forall in Hv. now apply Hv.
  - intros n k h d e Hn Hd He. destruct (Hix n k h Hn) as (Hk & _). destruct (tl_sep _ _ _ _ _ _ _ Hl n d k Hd Hk) as [H _]. now apply H.
  - intros n m k h d e Hn Hm Hlt He. destruct (Hix n k h Hn) as (Hk & _ & d' & Hd'). destruct (tl_sep _ _ _ _ _ _ _ Hl n d' k Hd' Hk) as [_ H].
    apply H. apply (elem_concat_drop ds (S n) m d); [lia|done|done].
  - intros n m k h k' h' Hn Hm Hlt. pose proof (sorted_lookup _ _ n m _ _ Is Hlt Hn Hm) as H. simpl in H. lia.
Qed.

(** A new iterator of an open table. *)
Lemma table_iterator_at fuel t good ds seps c : 1 <= block_restart_interval options ->
  table_layout C valid options t good ds seps ->
  StronglySorted (fun a b => Compare a.1 b.1 < 0) (concat ds) -> Forall entry_bytes_ok (concat ds) -> Forall (fun e => valid e.1) (concat ds) ->
  good c -> (length (concat ds) < fuel)%nat ->
  it_at (IterLaws := table_iter_laws fuel) (Table_NewIterator t c) (concat ds) (length (concat ds)).
Proof.
  intros Hint Hl Hs Hb Hv Hc Hf.
  assert (Hn : (length ds <= length (concat ds))%nat).
  { pose proof (tl_nonempty _ _ _ _ _ _ _ Hl) as Hne. clear -Hne. induction Hne as [|d ds Hd Hne IH]; [done|]. simpl. rewrite length_app.
    destruct d; [done|]. simpl. lia. }
  destruct (tl_index_ok _ _ _ _ _ _ _ Hl) as (Is & Ib & Iv).
  destruct (block_iter_fresh C valid CL 1 (index_entries options ds seps)) as (i & Ei & Hi); [lia|done|done|done|apply Hl|].
  unfold Table_NewIterator. rewrite (tl_index _ _ _ _ _ _ _ Hl). unfold index_bytes, LvTableProps.block_of. rewrite Ei.
  apply (make_TwoLevel_at (LI := result_laws C valid) (LJ := result_laws C valid) block_reader fuel (fun a => fst a = t /\ good (snd a))
    (index_entries options ds seps) ds (Iterator i) (t, c) (length (index_entries options ds seps))); [now apply layout_two_level|lia|done|now exists i].
Qed.

(** Operations with the cache of blocks as others leave it before each. *)
Fixpoint run_shared (fuel : nat) (i : TableIterator) (steps : list (option K * block_op)) : option TableIterator :=
  match steps with
  | [] => Some i
  | (c, op) :: steps =>
      match it_run (H := table_iter fuel) (set_arg (fst (arg_ i), c) i) op with
      | None => None
      | Some i => run_shared fuel i steps
      end
  end.

Lemma run_shared_ok fuel t good ds seps c steps n : 1 <= block_restart_interval options ->
  table_layout C valid options t good ds seps ->
  StronglySorted (fun a b => Compare a.1 b.1 < 0) (concat ds) -> Forall entry_bytes_ok (concat ds) -> Forall (fun e => valid e.1) (concat ds) ->
  good c -> (length (concat ds) < fuel)%nat -> Forall (fun step => good (fst step) /\ op_valid valid (snd step)) steps ->
  run_ops (cursor_op C (concat ds)) (length (concat ds)) (map snd steps) = Some n ->
  exists i, run_shared fuel (Table_NewIterator t c) steps = Some i /\ it_status (Iter := table_iter fuel) i = OK /\
    it_entry (It := table_iter fuel) i = concat ds !! n.
Proof.
  intros Hint Hl Hs Hb Hv Hc Hf Hsteps Hr. pose proof (layout_two_level t good ds seps Hint Hl Hs Hb Hv) as HT.
  assert (Hn : (length ds < fuel)%nat).
  { pose proof (tl_nonempty _ _ _ _ _ _ _ Hl) as Hne. enough (length ds <= length (concat ds))%nat by lia. clear -Hne.
    induction Hne as [|d ds Hd Hne IH]; [done|]. simpl. rewrite length_app. destruct d; [done|]. simpl. lia. }
  assert (Hstart : two_level_at (C := C) (valid := valid) (LI := result_laws C valid) (LJ := result_laws C valid)
    (fun a => fst a = t /\ good (snd a)) (index_entries options ds seps) ds (Table_NewIterator t c) (length (concat ds))).
  { destruct (tl_index_ok _ _ _ _ _ _ _ Hl) as (Is & Ib & Iv).
    destruct (block_iter_fresh C valid CL 1 (index_entries options ds seps)) as (i & Ei & Hi); [lia|done|done|done|apply Hl|].
    unfold Table_NewIterator. rewrite (tl_index _ _ _ _ _ _ _ Hl). unfold index_bytes, LvTableProps.block_of. rewrite Ei.
    right. split; [constructor; done|]. split; [done|]. split; [done|]. split; [|done]. exists (length (index_entries options ds seps)).
    apply wrapper_Set_at. now exists i. }
  revert Hstart Hr. generalize (length (concat ds)) at 1 2. generalize (Table_NewIterator t c).
  induction Hsteps as [|[c' op] steps [Hg Ho] Hsteps IH]; intros i k Hi Hr; cbn [map snd run_ops run_shared] in *.
  - injection Hr as ->. exists i. split; [done|]. split; [exact (two_level_ok _ _ _ i n Hi)|].
    unfold it_entry. cbn [it_Valid it_key it_value table_iter two_level_iter]. rewrite (two_level_valid _ _ _ _ HT i n Hi).
    destruct (Nat.ltb_spec n (length (concat ds))) as [Hlt|Hge]; [|now rewrite lookup_ge_None_2].
    destruct (lookup_lt_is_Some_2 _ _ Hlt) as [[key v] E]. destruct (two_level_entry _ _ _ _ HT i n (key, v) Hi E) as [-> ->]. now rewrite E.
  - destruct (cursor_op C (concat ds) k op) as [k'|] eqn:Ec; [|done].
    assert (Ha : fst (arg_ i) = t) by (destruct (two_level_parts _ _ _ i k Hi) as [[[H _] _ _] _]; exact H). rewrite Ha.
    destruct (two_level_step block_reader _ _ _ HT fuel Hn (set_arg (t, c') i) k op k') as (i' & E & Hi'); [now apply two_level_set_arg|done|done|].
    cbn [fst snd] in *. unfold table_iter. rewrite E. now apply (IH i' k').
Qed.
End Table.

(** C13: The iterator of a table runs over exactly the entries the table was built
    from.  Sorted entries are added to a table builder, the file it wrote is
    opened, and an iterator is made: under any sequence of SeekToFirst,
    SeekToLast, Seek, Next and Prev that a cursor on the entries allows it shows
    the entry the cursor is at, without an error, across all blocks and with
    whatever other users of the block cache leave in it before each operation. *)
Theorem table_iter_refines_cursor {W F K : Type} {WF : WritableFile W} {WL : WritableFileLaws W}
    {RF : RandomAccessFile F} {RL : RandomAccessFileLaws F} {BC : Cache Block K} {BL : CacheLaws Block K}
    (C : Comparator) (valid : list Z -> Prop) (L : ComparatorLaws C valid) (options : Options)
    (same : list Z -> list Z -> Prop) (fine : list (list Z) -> Prop) (entries : list (list Z * list Z))
    (w : W) (f : F) (c0 : option K) (verify fill : bool) (fuel : nat) :
  lookup_setting C valid options same fine -> table_entries C valid fine entries -> written w = [] ->
  ra_contents f = written (built C options w entries) -> Z.of_nat (length (ra_contents f)) < 2 ^ 32 ->
  (length entries < fuel)%nat ->
  exists t c1, Open options f (Z.of_nat (length (ra_contents f))) c0 = Some (OK, Some t, c1) /\
    exists good : option K -> Prop, lookups_ok C valid options same t entries good /\
      forall c steps n, good c -> Forall (fun step => good (fst step) /\ op_valid valid (snd step)) steps ->
        run_ops (cursor_op C entries) (length entries) (map snd steps) = Some n ->
        exists i, run_shared C verify fill fuel (Table_NewIterator C t c) steps = Some i /\
          it_status (Iter := table_iter C verify fill fuel) i = OK /\
          it_entry (It := table_iter C verify fill fuel) i = entries !! n.
Proof.
  intros Hset Hes Hw Hf Hsz Hfuel. destruct (table_lookups C valid options same fine entries w f c0 Hset Hes Hw Hf Hsz) as (t & c & Eo & _ & good & G).
  exists t, c. split; [done|]. exists good. split; [done|]. intros c1 steps n Hc1 Hsteps Hr.
  destruct (lo_layout _ _ _ _ _ _ _ G) as (ds & seps & -> & Hl). destruct Hes as [T1 T2 T3 _].
  apply (run_shared_ok C verify fill valid options fuel t good ds seps c1 steps n (ls_interval _ _ _ _ _ Hset) Hl T1); try done.
  apply Forall_forall. intros e He. rewrite Forall_forall in T2, T3. split; [apply (ls_bytes _ _ _ _ _ Hset), T2|apply T3]; done.
Qed.

(** ** An example *)

Lemma table_iter_refines_cursor_witness :
  exists t c1 i, Open example_options example_table (Z.of_nat (length (ra_contents example_table))) (Some (∅, 0)) = Some (OK, Some t, c1) /\
    run_shared BytewiseComparator true true 10 (Table_NewIterator BytewiseComparator t (None (A := gmap (list Z) Block * Z)))
      [(None, OpLast); (None, OpPrev)] = Some i /\
    it_entry (It := table_iter BytewiseComparator true true 10) i = example_entries !! (length example_entries - 2)%nat.
Proof.
  destruct (table_iter_refines_cursor (K := gmap (list Z) Block * Z) BytewiseComparator is_bytes bytewise_laws example_options eq few_keys
    example_entries (MemFile []) example_table (Some (∅, 0)) true true 10) as (t & c1 & Eo & good & G & H).
  - now apply (bytewise_setting example_options 10); [|vm_compute|right].
  - exact example_entries_ok.
  - reflexivity.
  - apply mem_file_contents.
  - vm_compute. reflexivity.
  - vm_compute. lia.
  - destruct (H None [(None, OpLast); (None, OpPrev)] (length example_entries - 2)%nat) as (i & E & _ & Ei).
    + apply G.
    + repeat constructor; apply G.
    + vm_compute. reflexivity.
    + exists t, c1, i. split; [exact Eo|]. split; [exact E|exact Ei].
Defined.
