(* ===== verification/LvVersionIter.v ===== *)
(** * leveldb: iterators of versions and of the whole database

    The iterator over the files of a level, the concatenation of their tables,
    the iterators a version contributes (db/version_set.cc), the iterator of a
    memtable (db/memtable.cc), the input of a compaction, and the iterator that
    DBImpl makes of all of them (db/db_impl.cc).  The table cache is an interface;
    each iterator carries the cache as it last saw it. *)
From Stdlib Require Import ZArith Lia Bool String List.
From stdpp Require Import base list numbers.
From S2P Require Import Prelude LvCoding LvEnv LvComparator LvDbFormat LvSkipList LvMemTable LvVersion LvDbGet LvCompaction.
From S2P Require Import LvIterator LvTwoLevel LvDbIter.

(** [TableCache::NewIterator]: an iterator in error, or one over the table. *)
Class TableCacheIter (T J : Type) := { tc_NewIterator : T -> Z -> Z -> option ((EmptyIter + J) * T) }.

(** ** The files of a level *)

Record LevelFileNumIterator := MkLevelIter { flist_ : list FileMetaData; index_ : Z }.

Definition flist_size (files : list FileMetaData) : Z := Z.of_nat (length files).
Definition make_LevelIter (files : list FileMetaData) : LevelFileNumIterator := MkLevelIter files (u32 (flist_size files)).
Definition level_Valid (i : LevelFileNumIterator) : bool := index_ i <? flist_size (flist_ i).
Definition level_file (i : LevelFileNumIterator) : option FileMetaData := flist_ i !! Z.to_nat (index_ i).
Definition set_index_ (n : Z) (i : LevelFileNumIterator) : LevelFileNumIterator := MkLevelIter (flist_ i) n.

(** The number and the size of a file as an index value. *)
Definition file_value (f : FileMetaData) : list Z := EncodeFixed64 (f_number f) ++ EncodeFixed64 (f_file_size f).

#[export] Instance level_iter (ucmp : Comparator) : Iter LevelFileNumIterator := {
  it_Valid := level_Valid;
  it_Seek i target := match FindFile ucmp (flist_ i) target with Some n => Some (set_index_ n i) | None => None end;
  it_SeekToFirst i := Some (set_index_ 0 i);
  it_SeekToLast i := Some (set_index_ (if flist_size (flist_ i) =? 0 then 0 else u32 (u32 (flist_size (flist_ i)) - 1)) i);
  it_Next i := if level_Valid i then Some (set_index_ (u32 (index_ i + 1)) i) else None;
  it_Prev i :=
    if level_Valid i
    then Some (set_index_ (if index_ i =? 0 then u32 (flist_size (flist_ i)) else u32 (index_ i - 1)) i) else None;
  it_key i := match level_file i with Some f => f_largest f | None => [] end;
  it_value i := match level_file i with Some f => file_value f | None => [] end;
  it_status _ := OK;
}.

Section Version.
Context (ucmp : Comparator) {T J : Type} {TI : TableCacheIter T J} {IJ : Iter J}.
(** Iterators of single files and of the files of a level. *)
Notation FileIterator := (EmptyIter + J)%type.
Notation ConcatIterator := (TwoLevelIterator T LevelFileNumIterator FileIterator).

Definition GetFileIterator (cache : T) (value : list Z) : option (FileIterator * T) :=
  if negb (length value =? 16)%nat
  then Some (inl (NewErrorIterator (Corruption "FileReader invoked with unexpected value")), cache)
  else tc_NewIterator cache (DecodeFixed64 value) (DecodeFixed64 (drop 8 value)).

Definition concat_of (files : list FileMetaData) (cache : T) : ConcatIterator :=
  make_TwoLevel (II := level_iter ucmp) (make_LevelIter files) cache.
Definition NewConcatenatingIterator (v : Version) (level : nat) (cache : T) : ConcatIterator := concat_of (level_files v level) cache.

(** The iterators of some files, one by one. *)
Fixpoint file_iterators (files : list FileMetaData) (cache : T) : option (list FileIterator * T) :=
  match files with
  | [] => Some ([], cache)
  | f :: files =>
      match tc_NewIterator cache (f_number f) (f_file_size f) with
      | None => None
      | Some (it, cache) =>
          match file_iterators files cache with
          | None => None
          | Some (its, cache) => Some (it :: its, cache)
          end
      end
  end.

(** The levels from [level] on, [n] of them. *)
Fixpoint level_iterators (n level : nat) (v : Version) (cache : T) : list ConcatIterator :=
  match n with
  | O => []
  | S n =>
      if bool_decide (level_files v level = []) then level_iterators n (S level) v cache
      else NewConcatenatingIterator v level cache :: level_iterators n (S level) v cache
  end.

Definition AddIterators (v : Version) (cache : T) : option (list (FileIterator + ConcatIterator) * T) :=
  match file_iterators (level_files v 0) cache with
  | None => None
  | Some (its, cache) => Some (map inl its ++ map inr (level_iterators (kNumLevels - 1) 1 v cache), cache)
  end.

(** The iterators for the inputs of one of the two levels. *)
Definition input_iterators (level : nat) (files : list FileMetaData) (cache : T)
    : option (list (FileIterator + ConcatIterator) * T) :=
  if bool_decide (files = []) then Some ([], cache)
  else if (level =? 0)%nat then
    match file_iterators files cache with
    | None => None
    | Some (its, cache) => Some (map inl its, cache)
    end
  else Some ([inr (concat_of files cache)], cache).

(** The iterators that the inputs of a compaction are merged from. *)
Definition input_list (c : Compaction) (cache : T) : option (list (FileIterator + ConcatIterator) * T) :=
  match input_iterators (level_ c) (inputs_0 c) cache with
  | None => None
  | Some (its0, cache) =>
      match input_iterators (level_ c + 1) (inputs_1 c) cache with
      | None => None
      | Some (its1, cache) =>
          let space := (if (level_ c =? 0)%nat then length (inputs_0 c) + 1 else 2)%nat in
          if (length (its0 ++ its1) <=? space)%nat then Some (its0 ++ its1, cache) else None
      end
  end.

(** Iterators of single files or of levels of fewer than [fuel] files. *)
Definition source_iter (fuel : nat) : Iter (FileIterator + ConcatIterator) :=
  sum_iter (II := sum_iter) (IJ := two_level_iter (II := level_iter ucmp) (IJ := sum_iter) GetFileIterator fuel).

(** A new merging iterator asks its children only whether they are valid, which
    takes no fuel. *)
Definition MakeInputIterator (c : Compaction) (cache : T) :=
  match input_list c cache with
  | None => None
  | Some (list, cache) => Some (NewMergingIterator (It := source_iter 0) list, cache)
  end.
End Version.

(** ** Memtables *)

Record MemTableIterator := MkMemIter { mi_mem : MemTable; mi_node : option nat }.
Definition MemTable_NewIterator (m : MemTable) : MemTableIterator := MkMemIter m None.

Definition mem_move (i : MemTableIterator) (node : option (option nat)) : option MemTableIterator := MkMemIter (mi_mem i) <$> node.

#[export] Instance mem_iter (ucmp : Comparator) : Iter MemTableIterator := {
  it_Valid i := Iter_Valid (mi_node i);
  it_Seek i k := mem_move i (MemTableIterator_Seek ucmp (mi_mem i) k);
  it_SeekToFirst i := mem_move i (Some (Iter_SeekToFirst (table_ (mi_mem i))));
  it_SeekToLast i := mem_move i (Iter_SeekToLast (table_ (mi_mem i)));
  it_Next i := if Iter_Valid (mi_node i) then mem_move i (Some (Iter_Next (table_ (mi_mem i)) (mi_node i))) else None;
  it_Prev i := if Iter_Valid (mi_node i) then mem_move i (Iter_Prev (entry_compare ucmp) (table_ (mi_mem i)) (mi_node i)) else None;
  it_key i := default [] (MemTableIterator_key (mi_mem i) (mi_node i));
  it_value i := default [] (MemTableIterator_value (mi_mem i) (mi_node i));
  it_status _ := OK;
}.

(** ** The database *)

Section Db.
Context (ucmp : Comparator) {T J : Type} {TI : TableCacheIter T J} {IJ : Iter J}.
Notation FileIterator := (EmptyIter + J)%type.
Notation ConcatIterator := (TwoLevelIterator T LevelFileNumIterator FileIterator).
Notation Child := (MemTableIterator + (FileIterator + ConcatIterator))%type.
Notation InternalIterator := (EmptyIter + (Child + MergingIterator Child))%type.

Definition child_iter (fuel : nat) : Iter Child := sum_iter (II := mem_iter ucmp) (IJ := source_iter ucmp fuel).
Definition internal_iter (fuel : nat) : Iter InternalIterator :=
  sum_iter (IJ := sum_iter (II := child_iter fuel) (IJ := merging_iter (It := child_iter fuel) (InternalKeyComparator ucmp))).

(** The child iterators, the database with the memtables and the cache in use,
    the last sequence number and the new seed. *)
Definition internal_children (db : DBImpl T) : option (list Child * DBImpl T) :=
  let mem := inl (MemTable_NewIterator (db_mem db)) in
  let imm := match db_imm db with Some imm => [inl (MemTable_NewIterator imm)] | None => [] end in
  match AddIterators ucmp (db_current db) (db_table_cache db) with
  | None => None
  | Some (its, cache) =>
      Some (mem :: imm ++ map inr its,
            MkDB (Ref (db_mem db)) (Ref <$> db_imm db) (db_current db) (db_last_sequence db) cache)
  end.

Definition NewInternalIterator (db : DBImpl T) (seed : Z) : option (InternalIterator * Z * Z * DBImpl T) :=
  match internal_children db with
  | None => None
  | Some (list, db') => Some (NewMergingIterator (It := child_iter 0) list, db_last_sequence db, u32 (seed + 1), db')
  end.

(** [DBImpl::NewIterator].  The samples of what is read go to the current
    version. *)
Definition DBImpl_NewIterator (db : DBImpl T) (seed : Z) (snapshot : option Z)
    : option (DBIter Version InternalIterator * Z * DBImpl T) :=
  match NewInternalIterator db seed with
  | None => None
  | Some (iter, latest_snapshot, seed, db) =>
      let s := match snapshot with Some s => s | None => latest_snapshot end in
      Some (make_DBIter (db_current db) iter s seed, seed, db)
  end.
End Db.

(** [DBImpl::RecordReadSample], without the compaction it may schedule. *)
#[export] Instance version_sampler (ucmp : Comparator) : ReadSampler Version := {
  db_RecordReadSample v k := snd <$> RecordReadSample ucmp v k;
}.
