(* ===== verification/LvVersionIterProps.v ===== *)
(** * leveldb: scanning the database (theorems about LvVersionIter)

    The iterators of memtables, files, levels and compaction inputs keep the law
    of iterators, and the iterator of the database shows what reads find. *)
From Stdlib Require Import ZArith Lia Bool List Sorted Permutation.
From stdpp Require Import base list numbers sorting gmap.
From S2P Require Import Prelude LvCoding LvEnv LvComparator LvDbFormat LvSkipList LvSkipListProps LvMemTable LvMemTableProps LvBlock LvBlockProps.
From S2P Require Import LvTableRead LvVersion LvVersionProps LvTableCache LvDbGet LvCompaction LvIterator LvMergerProps.
From S2P Require Import LvDbIter LvDbIterProps LvTwoLevel LvTwoLevelProps LvVersionIter.

Section Laws.
Context {C : Comparator} {valid : list Z -> Prop} {CL : ComparatorLaws C valid}.
Notation IC := (InternalKeyComparator C).
Notation icmp := (internal_compare C).

(** ** The files of a level *)

Definition file_pair (f : FileMetaData) : list Z * list Z := (f_largest f, file_value f).

Definition level_at (i : LevelFileNumIterator) (es : list (list Z * list Z)) (n : nat) : Prop :=
  es = map file_pair (flist_ i) /\ by_largest (C := C) (valid := valid) (flist_ i) /\ Z.of_nat (length (flist_ i)) < 2 ^ 31 /\
  (n <= length (flist_ i))%nat /\ index_ i = Z.of_nat n.

Lemma level_at_valid i es n : level_at i es n -> level_Valid i = (n <? length es)%nat.
Proof.
  intros (-> & _ & _ & _ & E). unfold level_Valid, flist_size. rewrite E, length_map.
  destruct (Z.ltb_spec (Z.of_nat n) (Z.of_nat (length (flist_ i)))); destruct (Nat.ltb_spec n (length (flist_ i))); lia || done.
Qed.

#[export, refine] Instance level_laws : IterLaws IC (kvalid valid) LevelFileNumIterator (It := level_iter C) := {
  it_at := level_at;
}.
Proof.
  - intros i es n (-> & _ & _ & Hn & _). now rewrite length_map.
  - intros i es n H. now apply level_at_valid.
  - intros i es n k v (-> & _ & _ & _ & E) Hl. cbn [it_key it_value level_iter]. unfold level_file. rewrite E, Nat2Z.id.
    rewrite list_lookup_fmap in Hl. destruct (flist_ i !! n); [|done]. now injection Hl as <- <-.
  - done.
  - intros i es n op m Hat Ho Hc. pose proof (level_at_valid i es n Hat) as Hv. destruct Hat as (-> & Hb & Hlen & Hn & E).
    assert (Hto : forall k, (k <= length (flist_ i))%nat -> level_at (set_index_ (Z.of_nat k) i) (map file_pair (flist_ i)) k).
    { intros k Hk. split; [done|]. split; [done|]. split; [done|]. split; [done|done]. }
    unfold cursor_op in Hc. rewrite length_map in Hc, Hv.
    destruct op as [| | | |t]; cbn [it_run it_SeekToFirst it_SeekToLast it_Seek it_Next it_Prev it_Valid level_iter].
    + injection Hc as <-. eexists. split; [reflexivity|]. apply (Hto 0%nat). lia.
    + injection Hc as <-. eexists. split; [reflexivity|]. unfold flist_size. destruct (Z.eqb_spec (Z.of_nat (length (flist_ i))) 0) as [E0|E0].
      * replace (length (flist_ i) - 1)%nat with 0%nat by lia. apply (Hto 0%nat). lia.
      * rewrite (wrapu_small 32 (Z.of_nat _)), wrapu_small by (zpow; lia).
        replace (Z.of_nat (length (flist_ i)) - 1) with (Z.of_nat (length (flist_ i) - 1)) by lia. apply Hto. lia.
    + rewrite Hv. destruct (Nat.ltb_spec n (length (flist_ i))) as [Hlt|]; [|done]. injection Hc as <-. eexists. split; [reflexivity|].
      rewrite E, wrapu_small by (zpow; lia). replace (Z.of_nat n + 1) with (Z.of_nat (S n)) by lia. apply Hto. lia.
    + rewrite Hv. destruct (Nat.ltb_spec n (length (flist_ i))) as [Hlt|]; [|done]. injection Hc as <-. eexists. split; [reflexivity|].
      rewrite E. unfold flist_size. destruct n as [|n]; [cbn [Z.of_nat Z.eqb]|destruct (Z.eqb_spec (Z.of_nat (S n)) 0); [lia|]].
      * rewrite wrapu_small by (zpow; lia). apply Hto. lia.
      * rewrite wrapu_small by (zpow; lia). replace (Z.of_nat (S n) - 1) with (Z.of_nat n) by lia. apply Hto. lia.
    + injection Hc as <-. destruct (FindFile_ok (flist_ i) t Hb (proj1 Ho) Hlen) as (k & -> & Hk & Hlt & Hge). eexists. split; [reflexivity|].
      replace (first_ge IC t (map file_pair (flist_ i))) with k; [now apply Hto|]. symmetry. apply first_ge_intro.
      * intros j e Hj Hl. rewrite list_lookup_fmap in Hl. destruct (flist_ i !! j) as [f|] eqn:Ef; [|done]. injection Hl as <-. now apply (Hlt j f).
      * now rewrite length_map.
      * intros e Hl. rewrite list_lookup_fmap in Hl. destruct (flist_ i !! k) as [f|] eqn:Ef; [|done]. injection Hl as <-. now apply (Hge k f).
Defined.

(** ** Memtables *)

(** How many entries are before a key, in a sorted list. *)
Lemma filter_first_ge (l : list added) t : entries_ok (C := C) (valid := valid) l -> kvalid valid t ->
  length (List.filter (fun a => icmp (ikey_of a) t <? 0) l) = first_ge IC t (map entry_pair l).
Proof.
  intros [Hv Hs] Vt. induction Hs as [|a l Hs IH Ha]; [done|]. apply Forall_cons in Hv as [Va Hv]. cbn [List.filter map first_ge entry_pair].
  change (@Compare IC (ikey_of a) t) with (icmp (ikey_of a) t). destruct (Z.ltb_spec (icmp (ikey_of a) t) 0) as [Hlt|Hge]; [simpl; now rewrite IH|].
  assert (Hnone : forall b, In b l -> (icmp (ikey_of b) t <? 0) = false).
  { intros b Hb. apply list_elem_of_In in Hb. rewrite Forall_forall in Ha, Hv. specialize (Ha b Hb). specialize (Hv b Hb). apply Z.ltb_ge.
    assert (IL := internal_laws (C := C) (valid := valid)). destruct Vt as [Vt _].
    apply (@Compare_flip _ _ IL t (ikey_of b) Vt (ikey_valid b Hv)). apply (@Compare_trans _ _ IL _ (ikey_of a)); [done|now apply ikey_valid|now apply ikey_valid| |simpl; lia].
    now apply (@Compare_flip _ _ IL t (ikey_of a) Vt (ikey_valid a Va)). }
  clear -Hnone. induction l as [|b l IH]; [done|]. simpl. rewrite (Hnone b) by now left. apply IH. intros c Hc. apply Hnone. now right.
Qed.

Notation ev := (entry_valid (valid := valid)).
Notation mem_at_position := (at_position (compare_ := entry_compare C) (valid := ev)).

Definition mem_at (i : MemTableIterator) (es : list (list Z * list Z)) (n : nat) : Prop :=
  exists l, entries_ok (C := C) (valid := valid) l /\ es = map entry_pair l /\ (n <= length l)%nat /\
    mem_at_position (table_ (mi_mem i)) (map entry_of l) (mi_node i) n.

Lemma position_represents s ks node p : mem_at_position s ks node p -> represents (compare_ := entry_compare C) (valid := ev) s ks.
Proof. intros (L & I & E & _). now exists L. Qed.

Lemma position_end s ks : represents (compare_ := entry_compare C) (valid := ev) s ks -> mem_at_position s ks None (length ks).
Proof.
  intros (L & I & <-). exists L. split; [done|]. split; [done|]. rewrite keys_length by now apply (inv_keyed0 (compare_ := entry_compare C) (valid := ev)).
  now rewrite lookup_ge_None_2.
Qed.

Context (valid_bytes : forall k, valid k -> is_bytes k) (valid_short : forall k, valid k -> Z.of_nat (length k) + 8 < 2 ^ 32).

Lemma kvalid_length k : kvalid valid k -> Z.of_nat (length k) < 2 ^ 32.
Proof.
  intros [[Hl V] _]. apply valid_short in V. unfold ExtractUserKey in V. rewrite length_take in V. lia.
Qed.

Lemma mem_at_step i es n op m : mem_at i es n -> op_valid (kvalid valid) op -> cursor_op IC es n op = Some m ->
  exists i', it_run (H := mem_iter C) i op = Some i' /\ mem_at i' es m.
Proof.
  intros (l & Hl & -> & Hn & Hp) Ho Hc. pose proof (position_represents _ _ _ _ Hp) as R. pose proof (position_valid _ _ _ _ Hp) as Hv.
  unfold cursor_op in Hc. rewrite !length_map in *.
  assert (Hto : forall node k, (k <= length l)%nat -> mem_at_position (table_ (mi_mem i)) (map entry_of l) node k ->
    mem_at (MkMemIter (mi_mem i) node) (map entry_pair l) k) by (intros node k Hk H; now exists l).
  pose proof (position_end _ _ R) as Hend. rewrite length_map in Hend.
  destruct op as [| | | |t]; cbn [it_run it_SeekToFirst it_SeekToLast it_Seek it_Next it_Prev it_Valid mem_iter mem_move fmap option_fmap option_map].
  - injection Hc as <-. eexists. split; [reflexivity|]. apply Hto; [lia|now apply position_first].
  - injection Hc as <-. destruct (position_last _ _ R) as (node & -> & Hnode). eexists. split; [reflexivity|]. rewrite length_map in Hnode.
    apply Hto; [lia|]. destruct (length l) as [|q]; [now subst|]. simpl. now rewrite Nat.sub_0_r.
  - rewrite Hv. destruct (Nat.ltb_spec n (length l)) as [Hlt|]; [|done]. injection Hc as <-. eexists. split; [reflexivity|]. apply Hto; [lia|].
    apply position_Next; [done|now rewrite length_map].
  - rewrite Hv. destruct (Nat.ltb_spec n (length l)) as [Hlt|]; [|done]. injection Hc as <-.
    destruct (position_Prev _ _ _ _ Hp) as (node & -> & Hnode); [now rewrite length_map|]. eexists. split; [reflexivity|].
    destruct n as [|n]; [subst; now apply Hto|]. apply Hto; [lia|done].
  - injection Hc as <-. cbn [op_valid] in Ho. unfold MemTableIterator_Seek. pose proof (kvalid_length t Ho) as Hlen.
    pose proof (EncodeKey_ok t (proj2 Ho) Hlen) as Et. assert (Vt : ev (EncodeKey t)) by (unfold entry_valid; rewrite Et; apply Ho).
    destruct (position_Seek _ _ (EncodeKey t) R Vt) as (node & -> & Hnode). eexists. split; [reflexivity|].
    assert (Ecount : length (List.filter (lt_key (compare_ := entry_compare C) (EncodeKey t)) (map entry_of l)) = first_ge IC t (map entry_pair l)).
    { rewrite <- (filter_first_ge l t Hl Ho). destruct Hl as [Hv' _]. clear -Hv' Et. induction Hv' as [|a l Va Hv' IH]; [done|]. simpl.
      assert (lt_key (compare_ := entry_compare C) (EncodeKey t) (entry_of a) = (icmp (ikey_of a) t <? 0)) as ->.
      { unfold lt_key, entry_compare. now rewrite Et, (entry_key_ok a (proj1 Va)). }
      destruct (icmp (ikey_of a) t <? 0); simpl; now rewrite IH. }
    rewrite Ecount in Hnode. apply Hto; [|done]. rewrite <- (length_map entry_pair l). apply first_ge_spec.
Qed.

#[export, refine] Instance mem_laws : IterLaws IC (kvalid valid) MemTableIterator (It := mem_iter C) := {
  it_at := mem_at;
}.
Proof.
  - intros i es n (l & _ & -> & Hn & _). now rewrite length_map.
  - intros i es n (l & _ & -> & _ & Hp). rewrite length_map. pose proof (position_valid _ _ _ _ Hp) as H. now rewrite length_map in H.
  - intros i es n k v (l & [Hv _] & -> & _ & Hp) Hl. rewrite list_lookup_fmap in Hl. destruct (l !! n) as [a|] eqn:Ea; [|done]. injection Hl as <- <-.
    pose proof (position_key _ _ _ _ Hp) as Hk. rewrite list_lookup_fmap, Ea in Hk. cbn [it_key it_value mem_iter].
    rewrite Forall_lookup in Hv. destruct (Hv n a Ea) as [Oa _]. unfold Iter_key in Hk. destruct (mi_node i) as [x|]; [|done].
    destruct (iterator_entry (mi_mem i) x a Oa Hk) as [-> ->]. done.
  - done.
  - exact mem_at_step.
Defined.

(** A new iterator of a memtable. *)
Lemma mem_iterator_at m l : mem_is (C := C) (valid := valid) m l ->
  exists l', Permutation l l' /\ entries_ok (C := C) (valid := valid) l' /\
    it_at (IterLaws := mem_laws) (MemTable_NewIterator m) (map entry_pair l') (length l').
Proof.
  intros (Hv & _ & ks & R & P). destruct (Permutation_map_inv _ _ P) as (l' & -> & Pl). exists l'. split; [done|].
  assert (Hv' : Forall (added_valid (valid := valid)) l') by now rewrite <- Pl.
  assert (Hok : entries_ok (C := C) (valid := valid) l').
  { split; [done|]. apply sorted_by_lookup. intros i j a b Hij Ha Hb. destruct R as (L & I & E).
    pose proof (inv_keyed0 (compare_ := entry_compare C) (valid := ev) _ _ I) as HK.
    assert (Hk : forall n x, l' !! n = Some x -> exists y, L 0%nat !! n = Some y /\ key_ (table_ m) !! y = Some (entry_of x)).
    { intros n x Hx. assert (Hn : keys (table_ m) (L 0%nat) !! n = Some (entry_of x)) by (rewrite E, list_lookup_fmap, Hx; done).
      rewrite keys_lookup in Hn by done. destruct (L 0%nat !! n) as [y|]; [|done]. now exists y. }
    destruct (Hk i a Ha) as (x & Hx & Ex), (Hk j b Hb) as (y & Hy & Ey).
    pose proof (sorted_lookup _ _ i j x y (inv_sorted (compare_ := entry_compare C) (valid := ev) _ _ I) Hij Hx Hy) as Hless.
    unfold less in Hless. rewrite Forall_lookup in Hv'. destruct (Hv' i a Ha) as [Oa _], (Hv' j b Hb) as [Ob _].
    rewrite <- (entry_compare_ok a b Oa Ob). destruct Hless as (ka & kb & E1 & E2 & Hlt). simplify_eq. done. }
  split; [done|]. exists l'. split; [done|]. split; [done|]. split; [done|]. rewrite <- (length_map entry_of l'). now apply position_end.
Qed.
End Laws.

(** ** Files and levels *)

(** What the table cache promises: an iterator over the entries of the table. *)
Class TableCacheIterLaws (C : Comparator) (valid : list Z -> Prop) (T J : Type) {TI : TableCacheIter T J} {IJ : Iter J}
    {LJ : IterLaws (InternalKeyComparator C) (kvalid valid) J} := {
  tci_ok : T -> Prop;
  tci_table : Z -> Z -> option (list (list Z * list Z));
  tci_new t number size es : tci_ok t -> tci_table number size = Some es -> 0 <= number < 2 ^ 64 -> 0 <= size < 2 ^ 64 ->
    exists j t', tc_NewIterator t number size = Some (inr j, t') /\ tci_ok t' /\ it_at (IterLaws := LJ) j es (length es);
}.

Section Sources.
Context {C : Comparator} {valid : list Z -> Prop} {CL : ComparatorLaws C valid}.
Context (valid_bytes : forall k, valid k -> is_bytes k) (valid_short : forall k, valid k -> Z.of_nat (length k) + 8 < 2 ^ 32).
Context {T J : Type} {TI : TableCacheIter T J} {IJ : Iter J} {LJ : IterLaws (InternalKeyComparator C) (kvalid valid) J}.
Context {TIL : TableCacheIterLaws C valid T J}.
Context (contents : Z -> list added) (fuel : nat).
Notation IC := (InternalKeyComparator C).
Notation icmp := (internal_compare C).
Notation KL := (kvalid_laws C valid valid_bytes).
Notation FileIterator := (EmptyIter + J)%type.
Notation ConcatIterator := (TwoLevelIterator T LevelFileNumIterator FileIterator).

Definition file_laws : IterLaws IC (kvalid valid) FileIterator := sum_laws (LI := empty_laws IC (kvalid valid)) (LJ := LJ).
Definition concat_laws : IterLaws IC (kvalid valid) ConcatIterator
    (It := two_level_iter (II := level_iter C) (IJ := sum_iter) GetFileIterator fuel) :=
  two_level_laws (CL := KL) (LI := level_laws) (LJ := file_laws) GetFileIterator fuel.
Definition source_laws : IterLaws IC (kvalid valid) (FileIterator + ConcatIterator) (It := source_iter C fuel) :=
  sum_laws (LI := file_laws) (LJ := concat_laws).

(** A file whose table the cache can open. *)
Record open_file (f : FileMetaData) : Prop := {
  of_ok : file_ok (C := C) (valid := valid) f (contents (f_number f));
  of_number : 0 <= f_number f < 2 ^ 64;
  of_size : 0 <= f_file_size f < 2 ^ 64;
  of_table : tci_table (f_number f) (f_file_size f) = Some (table_of (contents (f_number f)));
}.

Lemma file_iterator_at f cache : open_file f -> tci_ok cache ->
  exists j cache', tc_NewIterator cache (f_number f) (f_file_size f) = Some (j, cache') /\ tci_ok cache' /\
    it_at (IterLaws := file_laws) j (map entry_pair (contents (f_number f))) (length (contents (f_number f))).
Proof.
  intros [Hf Hn Hz Ht] Hc. destruct (tci_new cache _ _ _ Hc Ht Hn Hz) as (j & cache' & E & Hc' & Hj). exists (inr j), cache'.
  split; [done|]. split; [done|]. unfold table_of in Hj. rewrite length_map in Hj. exact Hj.
Qed.

Lemma file_iterators_at files cache : Forall open_file files -> tci_ok cache ->
  exists its cache', file_iterators files cache = Some (its, cache') /\ tci_ok cache' /\
    Forall2 (fun it f => it_at (IterLaws := file_laws) it (map entry_pair (contents (f_number f))) (length (contents (f_number f)))) its files.
Proof.
  intros Hf. revert cache. induction Hf as [|f files Hf Hfs IH]; intros cache Hc; cbn [file_iterators].
  - exists [], cache. split; [done|]. split; [done|constructor].
  - destruct (file_iterator_at f cache Hf Hc) as (j & c1 & -> & Hc1 & Hj). destruct (IH c1 Hc1) as (its & c2 & -> & Hc2 & Hits).
    exists (j :: its), c2. split; [done|]. split; [done|]. now constructor.
Qed.

Lemma file_value_inj f g : 0 <= f_number f < 2 ^ 64 -> 0 <= f_number g < 2 ^ 64 -> file_value f = file_value g -> f_number f = f_number g.
Proof. intros Hf Hg E. unfold file_value in E. now apply Encode64_inj in E. Qed.

Lemma GetFileIterator_at f cache : open_file f -> tci_ok cache ->
  exists j cache', GetFileIterator cache (file_value f) = Some (j, cache') /\ tci_ok cache' /\
    it_at (IterLaws := file_laws) j (map entry_pair (contents (f_number f))) (length (contents (f_number f))).
Proof.
  intros Hf Hc. pose proof (file_iterator_at f cache Hf Hc) as H. unfold GetFileIterator, file_value. rewrite length_app, !length_EncodeFixed64.
  cbn [Nat.eqb Nat.add negb]. rewrite Fixed64_roundtrip by apply Hf.
  replace 8%nat with (length (EncodeFixed64 (f_number f))) by apply length_EncodeFixed64. rewrite drop_app_length.
  rewrite <- (app_nil_r (EncodeFixed64 (f_file_size f))), Fixed64_roundtrip by apply Hf. exact H.
Qed.

(** The files of a level and their tables. *)
Lemma level_two_level files : Forall open_file files -> StronglySorted (fun f g => icmp (f_largest f) (f_smallest g) < 0) files ->
  two_level_of (C := IC) (valid := kvalid valid) (LJ := file_laws) GetFileIterator tci_ok (map file_pair files)
    (map (fun f => map entry_pair (contents (f_number f))) files).
Proof.
  intros Hf Hs. pose proof Hf as Hf'. rewrite Forall_lookup in Hf'.
  assert (IL := internal_laws (C := C) (valid := valid)).
  assert (Hix : forall n k h, map file_pair files !! n = Some (k, h) -> exists f, files !! n = Some f /\ k = f_largest f /\ h = file_value f).
  { intros n k h. rewrite list_lookup_fmap. destruct (files !! n) as [f|]; [|done]. intros [= <- <-]. now exists f. }
  assert (Hds : forall n d, map (fun f => map entry_pair (contents (f_number f))) files !! n = Some d ->
    exists f, files !! n = Some f /\ d = map entry_pair (contents (f_number f))).
  { intros n d. rewrite list_lookup_fmap. destruct (files !! n) as [f|]; [|done]. intros [= <-]. now exists f. }
  assert (Hent : forall f e, open_file f -> e ∈ map entry_pair (contents (f_number f)) -> exists a, e = entry_pair a /\
    added_valid (valid := valid) a /\ icmp (f_smallest f) (ikey_of a) <= 0 /\ icmp (ikey_of a) (f_largest f) <= 0).
  { intros f e Ho He. apply list_elem_of_fmap in He as (a & -> & Ha). exists a. split; [done|].
    apply (file_entry contents f a (of_ok f Ho)). now apply list_elem_of_In. }
  assert (Hb : forall n f, files !! n = Some f -> internal_valid valid (f_smallest f) /\ internal_valid valid (f_largest f) /\ kvalid valid (f_largest f)).
  { intros n f Hn. destruct (of_ok f (Hf' n f Hn)) as [Fv _ (a & Ha & Ea) (b & Hb & Eb)]. rewrite Forall_forall in Fv.
    assert (Va : added_valid (valid := valid) a) by (apply Fv; destruct (contents (f_number f)); [done|injection Ha as ->; now left]).
    assert (Vb : added_valid (valid := valid) b) by (apply Fv; rewrite last_lookup in Hb; now apply list_elem_of_lookup_2 in Hb).
    rewrite Ea, Eb. split; [now apply ikey_valid|]. split; [now apply ikey_valid|now apply ikey_kvalid]. }
  constructor.
  - now rewrite !length_map.
  - intros n k h d a Hn Hd Ha. destruct (Hix n k h Hn) as (f & Ef & _ & ->), (Hds n d Hd) as (f' & Ef' & ->). rewrite Ef in Ef'. injection Ef' as <-.
    destruct (GetFileIterator_at f a (Hf' n f Ef) Ha) as (j & a' & E & Ha' & Hj). exists j, a'. split; [done|]. split; [done|]. eauto.
  - intros n m k k' h Hn Hm. destruct (Hix n k h Hn) as (f & Ef & _ & ->), (Hix m k' _ Hm) as (g & Eg & _ & E).
    apply file_value_inj in E; [|apply (Hf' n f Ef)|apply (Hf' m g Eg)]. rewrite !list_lookup_fmap, Ef, Eg. cbn. now rewrite E.
  - intros k h Hin. apply list_elem_of_fmap in Hin as (f & [= -> ->] & Hin). apply list_elem_of_lookup in Hin as [n Hn]. now apply (Hb n f).
  - intros d e Hd He. apply list_elem_of_fmap in Hd as (f & -> & Hin). rewrite Forall_forall in Hf.
    destruct (Hent f e (Hf f Hin) He) as (a & -> & Va & _). now apply ikey_kvalid.
  - intros n k h d e Hn Hd He. destruct (Hix n k h Hn) as (f & Ef & -> & _), (Hds n d Hd) as (f' & Ef' & ->). rewrite Ef in Ef'. injection Ef' as <-.
    destruct (Hent f e (Hf' n f Ef) He) as (a & -> & _ & _ & H). exact H.
  - intros n m k h d e Hn Hm Hlt He. destruct (Hix n k h Hn) as (f & Ef & -> & _), (Hds m d Hm) as (g & Eg & ->).
    destruct (Hent g e (Hf' m g Eg) He) as (a & -> & Va & H & _). destruct (Hb n f Ef) as (_ & Vf & _), (Hb m g Eg) as (Vg & _).
    apply (@Compare_lt_le_trans _ _ IL _ (f_smallest g)); [done|done|now apply ikey_valid|exact (sorted_lookup _ files n m f g Hs Hlt Ef Eg)|exact H].
  - intros n m k h k' h' Hn Hm Hlt. destruct (Hix n k h Hn) as (f & Ef & -> & _), (Hix m k' h' Hm) as (g & Eg & -> & _).
    destruct (Hb n f Ef) as (_ & Vf & _), (Hb m g Eg) as (Vs & Vg & _). pose proof (sorted_lookup _ files n m f g Hs Hlt Ef Eg) as H.
    destruct (of_ok g (Hf' m g Eg)) as [Fv _ _ (y & Hy & Ey)]. rewrite last_lookup in Hy. apply list_elem_of_lookup_2 in Hy.
    destruct (file_entry contents g y (of_ok g (Hf' m g Eg)) (proj1 (list_elem_of_In _ _) Hy)) as (_ & H1 & _). rewrite <- Ey in H1.
    apply (@Compare_trans _ _ IL _ (f_smallest g)); [done|done|done| |exact H1]. apply Z.lt_le_incl. exact H.
Qed.

Lemma concat_at_level files cache : Forall open_file files -> StronglySorted (fun f g => icmp (f_largest f) (f_smallest g) < 0) files ->
  Z.of_nat (length files) < 2 ^ 31 -> (length files < fuel)%nat -> tci_ok cache ->
  it_at (IterLaws := concat_laws) (concat_of C files cache) (map entry_pair (level_entries contents files)) (length (level_entries contents files)).
Proof.
  intros Hf Hs Hlen Hfuel Hc. pose proof (level_two_level files Hf Hs) as HT.
  assert (E : concat (map (fun f => map entry_pair (contents (f_number f))) files) = map entry_pair (level_entries contents files)).
  { unfold level_entries. rewrite concat_map, map_map. done. }
  rewrite <- (length_map entry_pair (level_entries contents files)), <- E.
  apply (make_TwoLevel_at (CL := KL) (LI := level_laws) (LJ := file_laws) GetFileIterator fuel tci_ok (map file_pair files) _ (make_LevelIter files) cache (length files));
    [done|now rewrite length_map|done|].
  split; [done|]. split; [|split; [done|split; [done|]]].
  - apply (by_largest_ok contents); [|done]. eapply Forall_impl; [exact Hf|]. now intros f [? _ _ _].
  - cbn. unfold flist_size. rewrite wrapu_small by (zpow; lia). done.
Qed.
End Sources.
