(* ===== verification/LvScan.v ===== *)
(** * leveldb: scanning the database (TableCache::NewIterator, and theorems about LvVersionIter)

    The table cache looks a table up or opens it and makes an iterator over it.
    The theorems are for a cache of tables that reads without a cache of blocks:
    with one, each table that is opened takes an id of 64 bits, and what is known
    of an iterator has no bound on how often tables are opened.  The iterators of a
    version and of the memtables together run over all entries
    of the database, and the iterator made of them shows what reads find. *)
From Stdlib Require Import ZArith Lia Bool List Sorted Permutation.
From stdpp Require Import base list numbers sorting gmap.
From S2P Require Import Prelude LvCoding LvEnv LvLog LvComparator LvDbFormat LvMemTable LvMemTableProps LvBlock LvBlockProps LvFilter LvFilterProps LvFormat LvTable LvTableProps LvTableRead.
From S2P Require Import LvFilename LvVersion LvVersionProps LvTableCache LvDbGet LvCompaction LvIterator LvMergerProps LvDbIter LvDbIterProps LvTwoLevel LvTwoLevelProps LvTableIter LvVersionIter LvVersionIterProps.

Section Iterators.
Context {E F : Type} {EV : Env E F} {RF : RandomAccessFile F}.
Context {K B : Type} {KC : Cache (Table F) K} {BC : Cache Block B}.
Context (C : Comparator) (options : Options) (verify_checksums fill_cache : bool).
Notation TableIterator := (TwoLevelIterator (Table F * option B) NewIterator_result NewIterator_result).

Definition TableCache_NewIterator (tc : TableCache E K B) (file_number file_size : Z)
    : option ((EmptyIter + TableIterator) * TableCache E K B) :=
  match FindTable options tc file_number file_size with
  | None => None
  | Some (s, Some t, tc) => Some (inr (Table_NewIterator C t (block_cache_ tc)), tc)
  | Some (s, None, tc) => Some (inl (NewErrorIterator s), tc)
  end.

#[export] Instance table_cache_iter : TableCacheIter (TableCache E K B) TableIterator := { tc_NewIterator := TableCache_NewIterator }.
End Iterators.

Section Laws.
Context {E F W : Type} {EV : Env E F} {RF : RandomAccessFile F} {RL : RandomAccessFileLaws F}.
Context {WF : WritableFile W} {WL : WritableFileLaws W}.
Context {K B : Type} {KC : Cache (Table F) K} {KL : CacheLaws (Table F) K} {BC : Cache Block B} {BL : CacheLaws Block B}.
Context (C : Comparator) (valid : list Z -> Prop) {CL : ComparatorLaws C valid} (options : Options).
Context (fine : list (list Z) -> Prop) (verify fill : bool).
Notation IC := (InternalKeyComparator C).
Notation kvalid := (LvTableCache.kvalid valid).
Notation same_user := (fun k k' => kvalid k /\ kvalid k' /\ same_user C k k').

Context {KVL : ComparatorLaws IC kvalid}.
Hypothesis Hsetting : lookup_setting IC kvalid options same_user fine.
Context (e0 : E) (db0 : list Z) (store : Z -> option (F * list (list Z * list Z))).
Hypothesis Hstore : store_ok (W := W) C valid options fine e0 db0 store.
Context (fuel : nat).

(** Opening a table without a cache of blocks leaves it without one. *)
Lemma Open_no_blocks (f : F) size s t c : Open options f size (@None B) = Some (s, t, c) -> c = None.
Proof.
  unfold Open. destruct (size <? _); [congruence|]. destruct (ra_Read _ _ _) as [[s0 footer_input] ?]. destruct (negb (ok s0)); [congruence|].
  destruct (Footer_DecodeFrom _) as [[[s1 footer] ?]|]; [|done]. destruct (negb (ok s1)); [congruence|].
  destruct (ReadBlock _ _ _) as [[s2 ?]|]; [|done]. destruct (ok s2); [|congruence]. destruct (ReadMeta _ _ _); congruence.
Qed.

Lemma FindTable_no_blocks tc number size s t tc' : block_cache_ tc = None ->
  FindTable options tc number size = Some (s, t, tc') -> block_cache_ tc' = None.
Proof.
  intros Hb. unfold FindTable. destruct (cache_Lookup _ _) as [[h|] cache]; [intros [= _ _ <-]; done|]. cbn [set_caches env_ dbname_ cache_ block_cache_].
  destruct (env_NewRandomAccessFile _ _) as [s1 f1]. match goal with |- context [let '(s, file) := ?x in _] => destruct x as [s2 f2] end.
  rewrite Hb. destruct s2, f2; try congruence; [|intros [= _ _ <-]; done..].
  destruct (Open _ _ _ _) as [[[s3 t3] blocks]|] eqn:Eo; [|done]. apply Open_no_blocks in Eo as ->.
  destruct (ok s3); [destruct t3|]; now intros [= _ _ <-].
Qed.

(** A cache of tables that reads without a cache of blocks. *)
Definition iterators_ok (tc : TableCache E K B) : Prop :=
  block_cache_ tc = None /\ forall n, tcache_ok C valid options e0 db0 store n tc.

(** The tables of fewer than [fuel] entries. *)
Definition iterated_table (number size : Z) : option (list (list Z * list Z)) :=
  match store number with
  | Some (f, es) => if (size =? Z.of_nat (length (ra_contents f))) && (length es <? fuel)%nat then Some es else None
  | None => None
  end.

Lemma TableCache_NewIterator_ok tc number size es : iterators_ok tc -> iterated_table number size = Some es ->
  exists i tc', TableCache_NewIterator IC options tc number size = Some (inr i, tc') /\ iterators_ok tc' /\
    it_at (IterLaws := table_iter_laws IC verify fill kvalid fuel) i es (length es).
Proof.
  intros [Hb T] Hes. unfold iterated_table in Hes. destruct (store number) as [[f es']|] eqn:Hs; [|done].
  destruct (Z.eqb_spec size (Z.of_nat (length (ra_contents f)))) as [->|]; [|done]. cbn [andb] in Hes.
  destruct (Nat.ltb_spec (length es') fuel) as [Hf|]; [|done]. injection Hes as ->.
  destruct (FindTable_ok (W := W) C valid options fine Hsetting e0 db0 store Hstore 0 tc number f es (T 1%nat) Hs) as (t & tc' & Ef & T' & Hg & _).
  pose proof (FindTable_no_blocks _ _ _ _ _ _ Hb Ef) as Hb'. unfold TableCache_NewIterator. rewrite Ef. eexists _, tc'. split; [reflexivity|]. split.
  - split; [done|]. intros n. destruct T' as [A1 A2 A3 A4 A5]. split; try done. now rewrite Hb'.
  - destruct Hg as (good & L & G & _). destruct (lo_layout _ _ _ _ _ _ _ L) as (ds & seps & -> & Hl).
    destruct (Hstore number f (concat ds) Hs) as (_ & _ & [T1 T2 T3 _] & _).
    apply (table_iterator_at IC verify fill kvalid options fuel t good ds seps); try done; [apply Hsetting|].
    apply Forall_forall. intros e He. rewrite Forall_forall in T2, T3. split; [apply (ls_bytes _ _ _ _ _ Hsetting), T2|apply T3]; done.
Qed.

Definition table_cache_iter_laws : TableCacheIterLaws C valid (TableCache E K B) _
    (TI := table_cache_iter IC options) (IJ := table_iter IC verify fill fuel) (LJ := table_iter_laws IC verify fill kvalid fuel).
Proof.
  refine {| tci_ok := iterators_ok; tci_table := iterated_table |}. intros tc number size es Hok Ht _ _. now apply TableCache_NewIterator_ok.
Defined.
End Laws.

(** ** Lists whose entries together are a sorted list *)

Section Merge.
Context {C : Comparator} {valid : list Z -> Prop} {CL : ComparatorLaws C valid}.
Notation entry := (list Z * list Z)%type.

Lemma keys_NoDup (M : list entry) : Forall (fun e => valid e.1) M -> StronglySorted (key_lt (C := C)) M -> NoDup M.
Proof.
  intros Hv Hs. induction Hs as [|e M Hs IH He]; constructor; apply Forall_cons in Hv as [Ve Hv]; [|now apply IH].
  intros Hin. rewrite Forall_forall in He. exact (entry_lt_irrefl e Ve (He e Hin)).
Qed.

Lemma sorted_same (M : list entry) e e' : Forall (fun e => valid e.1) M -> StronglySorted (key_lt (C := C)) M ->
  e ∈ M -> e' ∈ M -> Compare e.1 e'.1 = 0 -> e = e'.
Proof.
  intros Hv Hs [i Hi]%list_elem_of_lookup [j Hj]%list_elem_of_lookup He. rewrite Forall_lookup in Hv.
  pose proof (Compare_eq_sym _ _ (Hv i e Hi) (Hv j e' Hj) He) as Ha. destruct (Nat.lt_trichotomy i j) as [H|[->|H]].
  - pose proof (sorted_lookup _ M i j e e' Hs H Hi Hj) as Hlt. unfold key_lt in Hlt. lia.
  - congruence.
  - pose proof (sorted_lookup _ M j i e' e Hs H Hj Hi) as Hlt. unfold key_lt in Hlt. lia.
Qed.

Lemma NoDup_lists (ess : list (list entry)) i j es es' e : NoDup (concat ess) -> ess !! i = Some es -> ess !! j = Some es' ->
  i <> j -> e ∈ es -> ~ e ∈ es'.
Proof.
  revert i j. induction ess as [|x ess IH]; intros i j; [done|]. cbn [concat]. rewrite NoDup_app. intros (_ & Hx & Hess) Hi Hj Hij He He'.
  assert (Hin : forall k es, ess !! k = Some es -> e ∈ es -> e ∈ concat ess).
  { intros k l Hk Hl. apply list_elem_of_In, in_concat. exists l. split; apply list_elem_of_In; [now apply list_elem_of_lookup_2 in Hk|done]. }
  destruct i as [|i], j as [|j]; simpl in Hi, Hj; [done| | |].
  - injection Hi as ->. exact (Hx e He (Hin j es' Hj He')).
  - injection Hj as ->. exact (Hx e He' (Hin i es Hi He)).
  - apply (IH i j Hess Hi Hj ltac:(lia) He He').
Qed.

Lemma merge_of_perm ess M : Forall (fun e => valid e.1) M -> StronglySorted (key_lt (C := C)) M ->
  Forall (StronglySorted (key_lt (C := C))) ess -> Permutation (concat ess) M -> merge_of (C := C) (valid := valid) ess M.
Proof.
  intros Hv Hs He HP. assert (Hin : forall e, e ∈ M <-> exists i es, ess !! i = Some es /\ e ∈ es).
  { intros e. rewrite <- HP, list_elem_of_In, in_concat. split.
    - intros (es & Hes & H). apply list_elem_of_In in Hes, H. apply list_elem_of_lookup in Hes as [i Hi]. now exists i, es.
    - intros (i & es & Hi & H). exists es. split; apply list_elem_of_In; [now apply list_elem_of_lookup_2 in Hi|done]. }
  constructor; [done|done| |done|].
  - intros i es Hi. rewrite Forall_lookup in He. now apply (He i).
  - intros i j es es' e e' Hi Hj Hij Hee Hee' Heq.
    assert (e = e') as <- by (apply (sorted_same M); [done|done|apply Hin; now exists i, es|apply Hin; now exists j, es'|done]).
    revert Hee'. apply (NoDup_lists ess i j es es' e); [|done..]. rewrite HP. now apply keys_NoDup.
Qed.
End Merge.

(** ** Samples *)

Section Sampler.
Context {C : Comparator} {valid : list Z -> Prop} {CL : ComparatorLaws C valid} (contents : Z -> list added).

Lemma sample_level0 fs st : exists b st', for_level0 sample_match fs st = Some (b, st').
Proof.
  revert st. induction fs as [|f fs IH]; intros st; cbn [for_level0]; [eauto|]. unfold sample_match. destruct st as [stats m].
  destruct (_ <? 2); [apply IH|eauto].
Qed.

Lemma sample_levels v uk ik : version_ok (C := C) (valid := valid) contents v -> internal_valid valid ik ->
  forall n level st, (1 <= level)%nat -> exists b st', for_levels C sample_match n level v uk ik st = Some (b, st').
Proof.
  intros V Vk. induction n as [|n IH]; intros level st Hl; cbn [for_levels]; [eauto|].
  destruct (level_files v level) as [|f0 fs] eqn:El; [apply IH; lia|]. rewrite <- El.
  destruct (FindFile_ok (C := C) (valid := valid) (level_files v level) ik) as (k & -> & _); [|done|apply V|].
  { apply (by_largest_ok contents); [|now apply V]. apply Forall_forall. intros f. now apply V. }
  destruct (level_files v level !! Z.to_nat (Z.of_nat k)) as [f|]; [|apply IH; lia].
  destruct (Compare uk _ <? 0); [apply IH; lia|]. unfold sample_match. destruct st as [stats m]. destruct (_ <? 2); [apply IH; lia|eauto].
Qed.

(** Charging a file for the samples leaves the version as it was otherwise. *)
Lemma version_stats v stats : version_ok (C := C) (valid := valid) contents v ->
  version_ok (C := C) (valid := valid) contents (snd (UpdateStats v stats)).
Proof.
  intros V. destruct (UpdateStats_files v stats) as (g & Hg & Ef). apply (version_ok_map contents g v); [done|now rewrite Ef, length_map| |done].
  intros level. unfold level_files. rewrite Ef, list_lookup_fmap. now destruct (files_ v !! level).
Qed.

#[export, refine] Instance version_sampler_laws : ReadSamplerLaws valid Version (RS := version_sampler C) := {
  sampler_ok := version_ok (C := C) (valid := valid) contents;
}.
Proof.
  intros v k V Vk. cbn [db_RecordReadSample version_sampler]. unfold RecordReadSample. destruct (ParseInternalKey k) as [ik|]; [|now exists v].
  unfold ForEachOverlapping. destruct (sample_level0 (level0_files C v (user_key ik)) (MkStats None (-1), 0)) as ([|] & st & ->).
  2:{ destruct st as [stats m]. eexists. split; [reflexivity|]. destruct (2 <=? m); [|done]. now apply version_stats. }
  destruct (sample_levels v (user_key ik) k V Vk (kNumLevels - 1) 1 st ltac:(lia)) as (b & [stats m] & ->).
  eexists. split; [reflexivity|]. destruct (2 <=? m); [|done]. now apply version_stats.
Defined.
End Sampler.

(** ** The iterators of a version *)

Section Scan.
Context {C : Comparator} {valid : list Z -> Prop} {CL : ComparatorLaws C valid}.
Context (valid_bytes : forall k, valid k -> is_bytes k) (valid_short : forall k, valid k -> Z.of_nat (length k) + 8 < 2 ^ 32).
Context {T J : Type} {TI : TableCacheIter T J} {IJ : Iter J} {LJ : IterLaws (InternalKeyComparator C) (kvalid valid) J}.
Context {TIL : TableCacheIterLaws C valid T J}.
Context (contents : Z -> list added) (fuel : nat).
Notation IC := (InternalKeyComparator C).
Notation icmp := (internal_compare C).
Notation KL := (kvalid_laws C valid valid_bytes).
Notation open_file := (LvVersionIterProps.open_file (C := C) (valid := valid) (T := T) (J := J) contents).
Notation slaws := (source_laws (C := C) (valid := valid) (T := T) (J := J) valid_bytes fuel).
Notation pairs := (map entry_pair).
Notation sorted := (StronglySorted (key_lt (C := IC))).
Notation Source := (EmptyIter + J + TwoLevelIterator T LevelFileNumIterator (EmptyIter + J))%type.

(** Iterators that together are about to run over [l]. *)
Definition new_over {I : Type} {It : Iter I} (LI : IterLaws IC (kvalid valid) I) (its : list I) (l : list added) : Prop :=
  exists ess, Forall2 (fun i es => it_at (IterLaws := LI) i es (length es)) its ess /\ Forall sorted ess /\ concat ess = pairs l.

Lemma new_over_app {I} {It : Iter I} (LI : IterLaws IC (kvalid valid) I) its its' l l' :
  new_over LI its l -> new_over LI its' l' -> new_over LI (its ++ its') (l ++ l').
Proof.
  intros (e1 & H1 & S1 & E1) (e2 & H2 & S2 & E2). exists (e1 ++ e2). split; [now apply Forall2_app|]. split; [now apply Forall_app|].
  now rewrite concat_app, map_app, E1, E2.
Qed.

Lemma new_over_one {I} {It : Iter I} (LI : IterLaws IC (kvalid valid) I) i l : entries_ok (C := C) (valid := valid) l ->
  it_at (IterLaws := LI) i (pairs l) (length l) -> new_over LI [i] l.
Proof.
  intros Hl Hi. exists [pairs l]. rewrite <- (length_map entry_pair l) in Hi. split; [now repeat constructor|]. split; [|simpl; apply app_nil_r].
  constructor; [|done]. now apply pairs_ok in Hl as [_ Hs].
Qed.

(** Iterators as alternatives of a sum. *)
Lemma new_over_inl {I J'} {It : Iter I} {It' : Iter J'} (LI : IterLaws IC (kvalid valid) I) (LJ' : IterLaws IC (kvalid valid) J') its l :
  new_over LI its l -> new_over (sum_laws (LI := LI) (LJ := LJ')) (map inl its) l.
Proof. intros (ess & H & R). exists ess. split; [|done]. apply Forall2_fmap_l. exact H. Qed.
Lemma new_over_inr {I J'} {It : Iter I} {It' : Iter J'} (LI : IterLaws IC (kvalid valid) I) (LJ' : IterLaws IC (kvalid valid) J') its l :
  new_over LJ' its l -> new_over (sum_laws (LI := LI) (LJ := LJ')) (map inr its) l.
Proof. intros (ess & H & R). exists ess. split; [|done]. apply Forall2_fmap_l. exact H. Qed.

Lemma file_entries_ok f : open_file f -> entries_ok (C := C) (valid := valid) (contents (f_number f)).
Proof. intros [[Fv Fs _ _] _ _ _]. now split. Qed.

Lemma files_over files cache : Forall open_file files -> tci_ok cache ->
  exists its cache', file_iterators files cache = Some (its, cache') /\ tci_ok cache' /\
    new_over (file_laws (C := C) (valid := valid)) its (level_entries contents files).
Proof.
  intros Hf Hc. destruct (file_iterators_at contents files cache Hf Hc) as (its & cache' & E & Hc' & H). exists its, cache'.
  split; [done|]. split; [done|]. clear E. induction H as [|i f its files Hi H IH]; [now exists []|]. apply Forall_cons in Hf as [Hf Hfs].
  apply (new_over_app _ [i] its (contents (f_number f))); [|now apply IH]. apply new_over_one; [now apply file_entries_ok|done].
Qed.

(** A version whose files the cache can open. *)
Record open_version (v : Version) : Prop := {
  ov_ok : version_ok (C := C) (valid := valid) contents v;
  ov_files level f : f ∈ level_files v level -> open_file f;
  ov_fuel level : (length (level_files v level) < fuel)%nat;
}.

Lemma level_over files cache : Forall open_file files -> StronglySorted (fun f g => icmp (f_largest f) (f_smallest g) < 0) files ->
  Z.of_nat (length files) < 2 ^ 31 -> (length files < fuel)%nat -> tci_ok cache ->
  new_over (concat_laws (C := C) (valid := valid) (T := T) (J := J) valid_bytes fuel) [concat_of C files cache] (level_entries contents files).
Proof.
  intros Hf Hs Hl Hn Hc. apply new_over_one; [|now apply (concat_at_level (TIL := TIL) valid_bytes contents)]. destruct (level_sorted contents files) as [H1 H2]; [|done|done].
  eapply Forall_impl; [exact Hf|]. now intros f [? _ _ _].
Qed.

Lemma levels_over v cache n level : open_version v -> tci_ok cache -> (1 <= level)%nat ->
  new_over (concat_laws (C := C) (valid := valid) (T := T) (J := J) valid_bytes fuel) (level_iterators C n level v cache) (entries_from contents v level n).
Proof.
  intros V Hc. revert level. induction n as [|n IH]; intros level Hl; [now exists []|]. cbn [level_iterators].
  unfold entries_from. cbn [seq map concat]. fold (entries_from contents v (S level) n). case_bool_decide as Hd.
  - rewrite Hd. apply IH. lia.
  - apply (new_over_app _ [_]); [|apply IH; lia]. destruct V as [V Vf Vn]. apply level_over; [|now apply V|apply V|done|done].
    apply Forall_forall. intros f. apply Vf.
Qed.

Lemma AddIterators_over v cache : open_version v -> tci_ok cache ->
  exists its cache', AddIterators C v cache = Some (its, cache') /\ tci_ok cache' /\ new_over slaws its (version_entries contents v).
Proof.
  intros V Hc. unfold AddIterators. destruct (files_over (level_files v 0) cache) as (its & c' & -> & Hc' & H0); [|done|].
  { apply Forall_forall. intros f. apply (ov_files v V). }
  eexists _, c'. split; [reflexivity|]. split; [done|]. rewrite (entries_levels contents v (ov_ok v V)).
  change (entries_from contents v 0 kNumLevels) with (level_entries contents (level_files v 0) ++ entries_from contents v 1 (kNumLevels - 1)).
  apply new_over_app; [now apply new_over_inl|]. apply new_over_inr. now apply levels_over.
Qed.

(** The merged iterator of some new iterators. *)
Lemma merged_at {I} {It : Iter I} (LI : IterLaws IC (kvalid valid) I) its l L : new_over LI its l ->
  entries_ok (C := C) (valid := valid) L -> Permutation L l ->
  it_at (It := sum_iter (IJ := sum_iter (IJ := merging_iter IC)))
    (IterLaws := sum_laws (LI := empty_laws IC (kvalid valid)) (LJ := sum_laws (LI := LI) (LJ := merging_laws (CL := KL))))
    (NewMergingIterator its) (pairs L) (length L).
Proof.
  intros (ess & Hf & Hs & E) HL HP. rewrite <- (length_map entry_pair L). destruct (pairs_ok L HL) as [Hv Hso].
  apply (NewMerging_at (CL := KL) its ess); [|done]. apply (merge_of_perm (CL := KL)); [done|done|done|]. rewrite E. now apply Permutation_map.
Qed.

(** ** The input of a compaction *)

Lemma inputs_over level files cache : Forall open_file files -> Z.of_nat (length files) < 2 ^ 31 -> (length files < fuel)%nat -> tci_ok cache ->
  (level <> 0%nat -> StronglySorted (fun f g => icmp (f_largest f) (f_smallest g) < 0) files) ->
  exists its cache', input_iterators C level files cache = Some (its, cache') /\ tci_ok cache' /\ new_over slaws its (level_entries contents files) /\
    (length its <= if (level =? 0)%nat then length files else 1)%nat.
Proof.
  intros Hf Hl Hn Hc Hs. unfold input_iterators. case_bool_decide as Hd.
  { exists [], cache. rewrite Hd. split; [done|]. split; [done|]. split; [now exists []|simpl; lia]. }
  destruct (Nat.eqb_spec level 0) as [->|Hne].
  - destruct (files_over files cache Hf Hc) as (its & c' & E & Hc' & Hits). rewrite E. eexists _, c'. split; [reflexivity|]. split; [done|].
    split; [now apply new_over_inl|]. rewrite length_map. destruct Hits as (ess & Hits & _).
    destruct (file_iterators_at contents files cache Hf Hc) as (its' & c2 & E' & _ & H2). rewrite E in E'. injection E' as <- <-.
    apply Forall2_length in H2. lia.
  - eexists _, cache. split; [reflexivity|]. split; [done|]. split; [|simpl; lia]. apply (new_over_inr _ _ [_]). apply level_over; auto.
Qed.

(** The inputs of a compaction whose files the cache can open. *)
Record open_inputs (c : Compaction) : Prop := {
  oi_files : Forall open_file (inputs_0 c ++ inputs_1 c);
  oi_length : Z.of_nat (length (inputs_0 c)) < 2 ^ 31 /\ Z.of_nat (length (inputs_1 c)) < 2 ^ 31;
  oi_fuel : (length (inputs_0 c) < fuel)%nat /\ (length (inputs_1 c) < fuel)%nat;
  oi_sorted0 : level_ c <> 0%nat -> StronglySorted (fun f g => icmp (f_largest f) (f_smallest g) < 0) (inputs_0 c);
  oi_sorted1 : StronglySorted (fun f g => icmp (f_largest f) (f_smallest g) < 0) (inputs_1 c);
}.

(** Iterators over single files and levels, merged. *)
Definition merged_laws : IterLaws IC (kvalid valid) (EmptyIter + (Source + MergingIterator Source))
    (It := sum_iter (IJ := sum_iter (II := source_iter C fuel) (IJ := merging_iter (It := source_iter C fuel) IC))) :=
  sum_laws (LI := empty_laws IC (kvalid valid)) (LJ := sum_laws (LI := slaws) (LJ := merging_laws (CL := KL) (IL := slaws))).

Lemma MakeInput_at c cache L : open_inputs c -> tci_ok cache -> entries_ok (C := C) (valid := valid) L ->
  Permutation L (level_entries contents (inputs_0 c) ++ level_entries contents (inputs_1 c)) ->
  exists it cache', MakeInputIterator C c cache = Some (it, cache') /\ tci_ok cache' /\
    it_at (IterLaws := merged_laws) it (pairs L) (length L).
Proof.
  intros [Hf [Hl0 Hl1] [Hn0 Hn1] Hs0 Hs1] Hc HL HP. apply Forall_app in Hf as [Hf0 Hf1]. unfold MakeInputIterator, input_list.
  destruct (inputs_over (level_ c) (inputs_0 c) cache Hf0 Hl0 Hn0 Hc Hs0) as (its0 & c0 & -> & Hc0 & H0 & B0).
  destruct (inputs_over (level_ c + 1) (inputs_1 c) c0 Hf1 Hl1 Hn1 Hc0 (fun _ => Hs1)) as (its1 & c1 & -> & Hc1 & H1 & B1).
  replace (level_ c + 1 =? 0)%nat with false in B1 by (symmetry; apply Nat.eqb_neq; lia).
  destruct (Nat.leb_spec (length (its0 ++ its1)) (if (level_ c =? 0)%nat then length (inputs_0 c) + 1 else 2)) as [_|Hgt].
  - eexists _, c1. split; [reflexivity|]. split; [done|]. apply (merged_at slaws _ _ L (new_over_app _ _ _ _ _ H0 H1) HL HP).
  - rewrite length_app in Hgt. destruct (level_ c =? 0)%nat; lia.
Qed.

(** ** The database *)

Definition child_laws : IterLaws IC (kvalid valid) _ (It := child_iter C fuel) :=
  sum_laws (LI := mem_laws (C := C) (valid := valid) valid_short) (LJ := slaws).
Definition internal_laws_of : IterLaws IC (kvalid valid) _ (It := internal_iter C fuel) :=
  sum_laws (LI := empty_laws IC (kvalid valid)) (LJ := sum_laws (LI := child_laws) (LJ := merging_laws (CL := KL) (IL := child_laws))).

(** The database holds [lm] in the memtable, [li] in the immutable one, and the
    files [contents], which the cache can open. *)
Record scan_db (db : DBImpl T) (lm li : list added) : Prop := {
  sd_mem : mem_is (C := C) (valid := valid) (db_mem db) lm;
  sd_imm : match db_imm db with Some imm => mem_is (C := C) (valid := valid) imm li | None => li = [] end;
  sd_version : open_version (db_current db);
  sd_cache : tci_ok (db_table_cache db);
}.

Lemma mem_over m l : mem_is (C := C) (valid := valid) m l ->
  exists l', Permutation l l' /\ new_over (mem_laws (C := C) (valid := valid) valid_short) [MemTable_NewIterator m] l'.
Proof.
  intros Hm. destruct (mem_iterator_at valid_short m l Hm) as (l' & HP & Hl & Hi). exists l'. split; [done|]. now apply new_over_one.
Qed.

Lemma internal_over db lm li : scan_db db lm li ->
  exists its db' l, internal_children C db = Some (its, db') /\ db_current db' = db_current db /\ tci_ok (db_table_cache db') /\
    new_over child_laws its l /\ Permutation (lm ++ li ++ version_entries contents (db_current db)) l.
Proof.
  intros [Hm Hi Hv Hc]. unfold internal_children. destruct (AddIterators_over _ _ Hv Hc) as (its & c & -> & Hc' & H).
  destruct (mem_over _ _ Hm) as (l1 & P1 & H1). assert (Hi' : exists l2, Permutation li l2 /\ new_over (mem_laws (C := C) (valid := valid) valid_short)
    (match db_imm db with Some imm => [MemTable_NewIterator imm] | None => [] end) l2).
  { destruct (db_imm db) as [imm|]; [now apply mem_over|]. exists []. split; [now rewrite Hi|now exists []]. }
  destruct Hi' as (l2 & P2 & H2). eexists _, _, (l1 ++ l2 ++ version_entries contents (db_current db)). split; [reflexivity|].
  split; [done|]. split; [done|]. split; [|now rewrite P1, P2].
  apply (new_over_app child_laws [_]); [now apply (new_over_inl (mem_laws valid_short) slaws [_])|]. apply new_over_app; [|now apply new_over_inr].
  replace (match db_imm db with Some imm => [inl (MemTable_NewIterator imm)] | None => [] end)
    with (map (@inl _ Source) (match db_imm db with Some imm => [MemTable_NewIterator imm] | None => [] end)) by now destruct (db_imm db).
  now apply new_over_inl.
Qed.

Lemma get_spec_perm (l l' : list added) key s r : Permutation l l' -> get_spec (C := C) l key s r -> get_spec (C := C) l' key s r.
Proof. intros HP. apply get_spec_ext. intros b _. split; intros H; [now rewrite <- HP|now rewrite HP]. Qed.

Lemma NewIterator_at db lm li L seed snapshot : scan_db db lm li -> entries_ok (C := C) (valid := valid) L ->
  Permutation L (lm ++ li ++ version_entries contents (db_current db)) -> (length L < fuel)%nat ->
  let s := match snapshot with Some s => s | None => db_last_sequence db end in 0 <= s < 2 ^ 56 ->
  exists it db', DBImpl_NewIterator C db seed snapshot = Some (it, u32 (seed + 1), db') /\ tci_ok (db_table_cache db') /\
    it_at (IterLaws := db_laws (RL := version_sampler_laws contents) (IL := internal_laws_of) valid_bytes fuel) it
      (user_rows (C := C) s None L) (length (user_rows (C := C) s None L)).
Proof.
  intros D HL HP Hf s Hs. unfold DBImpl_NewIterator, NewInternalIterator.
  destruct (internal_over db lm li D) as (its & db' & l & -> & Ecur & Hc & Hov & Pl). eexists _, db'. split; [reflexivity|]. split; [done|].
  apply (make_DBIter_at (RL := version_sampler_laws contents) (IL := internal_laws_of) valid_bytes fuel L s _ _ _ (length L)); [done|done|done| |].
  - rewrite Ecur. apply D.
  - apply (merged_at child_laws its l L Hov HL). now rewrite HP.
Qed.
End Scan.

(** C2: A scan of the database shows exactly what reads find.  A database has
    entries in its memtable, an immutable memtable and table files in levels, no
    two of the same key and sequence number.  [DBImpl::NewIterator] succeeds, and
    under any sequence of SeekToFirst, SeekToLast, Seek, Next and Prev that a
    cursor on the rows allows the iterator shows the row the cursor is at,
    without an error: the rows are sorted by user key and are exactly the values
    that reads at the snapshot find, over all these places, through the merge of
    the memtables, the files of level 0 and the levels, whatever is recorded of
    the reads for compactions. *)
Theorem db_scan_correct {C : Comparator} {valid : list Z -> Prop} {CL : ComparatorLaws C valid}
    (valid_bytes : forall k, valid k -> is_bytes k) (valid_short : forall k, valid k -> Z.of_nat (length k) + 8 < 2 ^ 32)
    {T J : Type} {TI : TableCacheIter T J} {IJ : Iter J} {LJ : IterLaws (InternalKeyComparator C) (kvalid valid) J}
    {TIL : TableCacheIterLaws C valid T J} (contents : Z -> list added) (fuel : nat)
    (db : DBImpl T) (lm li L : list added) (seed : Z) (snapshot : option Z) :
  scan_db (C := C) (valid := valid) contents fuel db lm li -> entries_ok (C := C) (valid := valid) L ->
  Permutation L (lm ++ li ++ version_entries contents (db_current db)) -> (length L < fuel)%nat ->
  let s := match snapshot with Some s => s | None => db_last_sequence db end in
  0 <= s < 2 ^ 56 ->
  let iter := db_iter (RS := version_sampler C) (It := internal_iter C fuel) C fuel in
  let rows := user_rows (C := C) s None L in
  StronglySorted (key_lt (C := C)) rows /\
    (forall key v, valid key ->
       get_spec (C := C) (lm ++ li ++ version_entries contents (db_current db)) key s (Found v) <->
       exists k, (k, v) ∈ rows /\ Compare k key = 0) /\
    exists it seed' db', DBImpl_NewIterator C db seed snapshot = Some (it, seed', db') /\
      forall ops n, Forall (op_valid valid) ops -> run_ops (cursor_op C rows) (length rows) ops = Some n ->
        exists d, run_ops (it_run (H := iter)) it ops = Some d /\ it_status (Iter := iter) d = OK /\ it_entry (It := iter) d = rows !! n.
Proof.
  intros D HL HP Hf s Hs iter rows. split; [now apply (rows_sorted (valid := valid))|]. split.
  - intros key v Vk. unfold rows. rewrite <- (rows_spec s L key v HL Vk). split; apply get_spec_perm; [now symmetry|done].
  - destruct (NewIterator_at valid_bytes valid_short contents fuel db lm li L seed snapshot D HL HP Hf Hs) as (it & db' & E & _ & Hit).
    exists it, (u32 (seed + 1)), db'. split; [done|]. intros ops n Ho Hr.
    exact (it_follows (IL := db_laws (RL := version_sampler_laws contents) (IL := internal_laws_of valid_bytes valid_short fuel) valid_bytes fuel) ops it _ _ n Hit Ho Hr).
Qed.

(** ** An example *)

Module ScanExample.
(** Keys that fit in a memtable entry. *)
Definition short_bytes (k : list Z) : Prop := is_bytes k /\ Z.of_nat (length k) + 8 < 2 ^ 32.

Lemma successor_loop_length pre k : (length (bytewise_successor_loop pre k) <= length pre + length k)%nat.
Proof.
  revert pre. induction k as [|b k IH]; intros pre; simpl; [lia|]. destruct (negb (b =? 255)); [rewrite length_app; simpl; lia|].
  specialize (IH (pre ++ [b])). rewrite length_app in IH. simpl in IH. lia.
Qed.

Lemma separator_length a b : (length (bytewise_separator a b) <= length a)%nat.
Proof.
  unfold bytewise_separator. destruct (Nat.leb_spec (Nat.min (length a) (length b)) (common_prefix a b)); [done|].
  destruct (_ && _); [|done]. rewrite length_app, length_take. simpl. lia.
Qed.

#[global] Instance short_laws : ComparatorLaws BytewiseComparator short_bytes.
Proof.
  destruct bytewise_laws as [A1 A2 A3 A4 A5 A6 A7]. split.
  - intros a b [Ha _] [Hb _]. now apply A1.
  - intros a b c [Ha _] [Hb _] [Hc _]. now apply (A2 a b c).
  - intros a b [Ha La] [Hb _]. split; [now apply A3|]. pose proof (separator_length a b). simpl. lia.
  - intros a b [Ha _] [Hb _]. now apply A4.
  - intros a b [Ha _] [Hb _]. now apply A5.
  - intros a [Ha La]. split; [now apply A6|]. pose proof (successor_loop_length [] a). simpl in *. unfold bytewise_successor. lia.
  - intros a [Ha _]. now apply A7.
Qed.

Lemma short_keys : short_bytes [1] /\ short_bytes [2] /\ short_bytes [3].
Proof. destruct Example.byte_keys as (H1 & H2 & H3). repeat split; done. Qed.

Definition cache : TableCache Example.env Example.tables Example.blocks := MkTableCache Example.e0 Example.name (∅, 0) None.
Definition database (m : MemTable) : DBImpl (TableCache Example.env Example.tables Example.blocks) := MkDB m None Example.version 100 cache.

Definition entries : list added :=
  [Added 100 kTypeValue [1] [99]; Added 60 kTypeDeletion [1] []; Added 10 kTypeValue [1] [11]; Added 50 kTypeValue [2] [20]; Added 11 kTypeValue [3] [33]].

Lemma version_lists : version_entries Example.contents Example.version = Example.l7 ++ Example.l3.
Proof. reflexivity. Qed.

Lemma entries_perm : Permutation entries (Example.lm ++ [] ++ version_entries Example.contents Example.version).
Proof.
  rewrite version_lists. unfold entries, Example.lm, Example.l7, Example.l3. cbn [app]. do 2 constructor. apply perm_swap.
Qed.

Lemma entries_fine : entries_ok (C := BytewiseComparator) (valid := short_bytes) entries.
Proof.
  split; [|repeat constructor]. pose proof (Example.added_lists short_bytes short_keys) as HA. rewrite entries_perm, version_lists. cbn [app].
  rewrite Permutation_app_comm, <- app_assoc. exact HA.
Qed.

Notation claws := (table_cache_iter_laws (W := mem_file) BytewiseComparator short_bytes
  (KVL := kvalid_laws BytewiseComparator short_bytes (fun _ H => proj1 H)) Example.options Example.fine true true
  (Example.setting short_bytes) Example.e0 Example.name Example.store (Example.store_good short_bytes (fun _ H => proj1 H) short_keys) 10).

Lemma file_opens level f : f ∈ level_files Example.version level ->
  LvVersionIterProps.open_file (C := BytewiseComparator) (valid := short_bytes) (TIL := claws) Example.contents f.
Proof.
  intros Hf. assert (Hsize : forall f, f = Example.file7 \/ f = Example.file3 -> 0 <= f_file_size f < 2 ^ 64)
    by (intros g [-> | ->]; vm_compute; (split; [discriminate|reflexivity])).
  pose proof (vo_files _ _ (Example.version_good short_bytes short_keys) level f Hf) as Hok.
  destruct (Example.level_cases level f Hf) as [[-> ->]|[-> ->]]; (constructor; [done|split; reflexivity || done|auto|]);
    unfold tci_table, table_cache_iter_laws, iterated_table, Example.store; cbn [f_number f_file_size Example.file7 Example.file3 Example.meta Z.eqb Pos.eqb Example.contents];
    now rewrite Z.eqb_refl.
Qed.

Lemma database_opens m : mem_is (C := BytewiseComparator) (valid := short_bytes) m Example.lm ->
  scan_db (C := BytewiseComparator) (valid := short_bytes) (TIL := claws) Example.contents 10 (database m) Example.lm [].
Proof.
  intros Hm. split; [done|done| |].
  - split; [apply (Example.version_good short_bytes short_keys)|exact file_opens|].
    intros level. do 7 (destruct level as [|level]; [vm_compute; lia|]). vm_compute. lia.
  - split; [done|]. intros n. split; [done|done|done| |].
    + intros number f es t _ Ht. simpl in Ht. now rewrite lookup_empty in Ht.
    + intros n1 n2 f1 es1 f2 es2 t1 t2 _ _ _ Ht _. simpl in Ht. now rewrite lookup_empty in Ht.
Qed.
End ScanExample.

Lemma db_scan_correct_witness :
  exists m it seed' db' d, Add BytewiseComparator make_MemTable 100 kTypeValue [1] [99] = Some m /\
    DBImpl_NewIterator BytewiseComparator (TI := table_cache_iter (F := mem_file) (InternalKeyComparator BytewiseComparator) Example.options)
      (IJ := table_iter (F := mem_file) (InternalKeyComparator BytewiseComparator) true true 10) (ScanExample.database m) 7 (Some 70) = Some (it, seed', db') /\
    let iter := db_iter (RS := version_sampler BytewiseComparator)
      (It := internal_iter (TI := table_cache_iter (F := mem_file) (InternalKeyComparator BytewiseComparator) Example.options)
               (IJ := table_iter (F := mem_file) (InternalKeyComparator BytewiseComparator) true true 10) BytewiseComparator 10) BytewiseComparator 10 in
    run_ops (it_run (H := iter)) it [OpLast; OpPrev; OpNext; OpSeek [1]] = Some d /\ it_status (Iter := iter) d = OK /\
    it_entry (It := iter) d = Some ([2], [20]).
Proof.
  pose proof (Example.added_lists ScanExample.short_bytes ScanExample.short_keys) as HA. apply Forall_app in HA as [_ HA]. apply Forall_app in HA as [_ Hm].
  destruct (Add_ok (C := BytewiseComparator) (valid := ScanExample.short_bytes) make_MemTable [] (Added 100 kTypeValue [1] [99]))
    as (m & Em & Hmem); [apply make_mem_is|now apply List.Forall_inv in Hm|intros []|].
  destruct (db_scan_correct (TIL := table_cache_iter_laws (W := mem_file) BytewiseComparator ScanExample.short_bytes
      (KVL := kvalid_laws BytewiseComparator ScanExample.short_bytes (fun _ H => proj1 H)) Example.options Example.fine true true
      (Example.setting ScanExample.short_bytes) Example.e0 Example.name Example.store
      (Example.store_good ScanExample.short_bytes (fun _ H => proj1 H) ScanExample.short_keys) 10)
    (fun _ H => proj1 H) (fun _ H => proj2 H) Example.contents 10 (ScanExample.database m) Example.lm [] ScanExample.entries 7 (Some 70)) as (_ & _ & it & seed' & db' & E & H).
  - now apply ScanExample.database_opens.
  - exact ScanExample.entries_fine.
  - exact ScanExample.entries_perm.
  - simpl. lia.
  - simpl. lia.
  - destruct (H [OpLast; OpPrev; OpNext; OpSeek [1]] 0%nat) as (d & Er & Es & Ee); [|reflexivity|].
    + repeat (apply Forall_cons; split; [try exact I|]); [|apply Forall_nil; exact I]. exact (proj1 ScanExample.short_keys).
    + exists m, it, seed', db', d. split; [exact Em|]. split; [exact E|]. split; [exact Er|]. split; [exact Es|exact Ee].
Defined.

(** The scans of that database, computed: all rows after SeekToFirst and Nexts at
    three snapshots, and one backward. *)
Example db_scans :
  let iter := db_iter (RS := version_sampler BytewiseComparator)
    (It := internal_iter (TI := table_cache_iter (F := mem_file) (InternalKeyComparator BytewiseComparator) Example.options)
             (IJ := table_iter (F := mem_file) (InternalKeyComparator BytewiseComparator) true true 10) BytewiseComparator 10) BytewiseComparator 10 in
  match Add BytewiseComparator make_MemTable 100 kTypeValue [1] [99] with
  | Some m =>
      map (fun q => match DBImpl_NewIterator BytewiseComparator
                            (TI := table_cache_iter (F := mem_file) (InternalKeyComparator BytewiseComparator) Example.options)
                            (IJ := table_iter (F := mem_file) (InternalKeyComparator BytewiseComparator) true true 10) (ScanExample.database m) 7 (fst q) with
                    | Some (it, _, _) => map (fun ops => match run_ops (it_run (H := iter)) it ops with Some d => it_entry (It := iter) d | None => None end) (snd q)
                    | None => []
                    end)
          [(None, [[OpFirst]; [OpFirst; OpNext]; [OpFirst; OpNext; OpNext]; [OpFirst; OpNext; OpNext; OpNext]]);
           (Some 70, [[OpFirst]; [OpFirst; OpNext]; [OpFirst; OpNext; OpNext]]);
           (Some 40, [[OpLast]; [OpLast; OpPrev]; [OpLast; OpPrev; OpPrev]; [OpLast; OpPrev; OpNext]])]
      = [[Some ([1], [99]); Some ([2], [20]); Some ([3], [33]); None]; [Some ([2], [20]); Some ([3], [33]); None];
         [Some ([3], [33]); Some ([1], [11]); None; Some ([3], [33])]]
  | None => False
  end.
Proof. vm_compute. reflexivity. Qed.
