(* ===== verification/LvDbWrite.v ===== *)
(** * leveldb: writing and opening (db/builder.cc; tables of memtables, the replay of logs, the write path and opening of db/db_impl.cc)

    A memtable becomes a table file; on opening, the records of a log are
    inserted into memtables again, which become tables or stay; a write joins the
    updates of several writers, logs them and inserts them.  The file system is
    that of LvManifest.  The estimate of the memory of a memtable, which decides
    when it is full, and the check that a new table opens are arguments.  Counting
    pending outputs, statistics and the information log are left out.

    A new database gets a manifest; an existing one is recovered from its
    manifest and the logs that the manifest does not cover, in the order of their
    numbers; then a new log is begun, the recovered tables are recorded, and
    files that nobody needs any more are removed.  The directory operations of
    the environment are a type class beside that of LvManifest.  The versions
    that readers hold are an argument where the list of versions is walked. *)
From Stdlib Require Import ZArith Lia Bool String List.
From stdpp Require Import base list gmap numbers sorting.
From S2P Require Import Prelude LvCoding LvEnv LvLog LvComparator LvDbFormat LvWriteBatch LvSkipList LvMemTable LvTable LvFilename.
From S2P Require Import LvVersion LvVersionEdit LvBuilder LvManifest LvIterator LvTwoLevel LvDbIter LvVersionIter.

(** ** Tables from iterators (db/builder.cc) *)

Section Build.
Context {E W R I : Type} {EV : FileEnv E W R} {It : Iter I}.
Context (ucmp : Comparator) (options : Options).
(** The status of [table_cache->NewIterator] for a file number and size. *)
Context (table_status : E -> Z -> Z -> Status).
Notation IC := (InternalKeyComparator ucmp).

(** The loop over the entries; [largest] is the last key so far. *)
Fixpoint build_loop (fuel : nat) (iter : I) (largest : list Z) (b : TableBuilder (E * W))
    : option (I * list Z * TableBuilder (E * W)) :=
  match fuel with
  | O => None
  | S fuel =>
      if it_Valid iter then
        let key := it_key iter in
        let b := TableBuilder_Add IC options b key (it_value iter) in
        match it_Next iter with
        | None => None
        | Some iter => build_loop fuel iter key b
        end
      else Some (iter, largest, b)
  end.

(** From the new file on: the status, the iterator, the size and the range. *)
Definition build_file (fuel : nat) (e : E) (file : W) (iter : I) (number : Z)
    : option (Status * I * FileMetaData * E) :=
  let smallest := it_key iter in
  match build_loop fuel iter [] (make_TableBuilder options (e, file)) with
  | None => None
  | Some (iter, largest, b) =>
      let b := TableBuilder_Finish IC options b in
      let s := t_status b in
      let file_size := if ok s then FileSize b else 0 in
      let '(e, f) := t_file b in
      let '(s, (e, f)) := if ok s then file_Sync e f else (s, (e, f)) in
      let '(s, (e, f)) := if ok s then file_Close e f else (s, (e, f)) in
      let s := if ok s then table_status e number file_size else s in
      Some (s, iter, MkFile number file_size smallest largest (Z.shiftl 1 30), e)
  end.

(** The file is removed unless it was written completely. *)
Definition BuildTable (fuel : nat) (dbname : list Z) (e : E) (iter : I) (number : Z) : option (Status * FileMetaData * E) :=
  let empty := MkFile number 0 [] [] (Z.shiftl 1 30) in
  match it_SeekToFirst iter with
  | None => None
  | Some iter =>
      let fname := TableFileName dbname number in
      let finish (s : Status) (iter : I) (meta : FileMetaData) (e : E) :=
        let s := if negb (ok (it_status iter)) then it_status iter else s in
        let e := if ok s && (0 <? f_file_size meta) then e else (env_RemoveFile e fname).2 in
        Some (s, meta, e) in
      if it_Valid iter then
        let '(s, file, e) := env_NewWritableFile e fname in
        match (if ok s then file else None) with
        | None => Some (s, empty, e)
        | Some f =>
            match build_file fuel e f iter number with
            | None => None
            | Some (s, iter, meta, e) => finish s iter meta e
            end
        end
      else finish OK iter empty e
  end.
End Build.

(** ** Memtables and logs (db/db_impl.cc) *)

Section Db.
Context {E W R : Type} {EV : FileEnv E W R} {SR : SequentialFile R}.
Context (ucmp : Comparator) (options : Options) (max_file_size : Z).
(** [options_.reuse_logs] and [options_.write_buffer_size] *)
Context (reuse_logs : bool) (write_buffer_size : Z).
(** [MemTable::ApproximateMemoryUsage] *)
Context (memory_usage : MemTable -> Z).
Context (table_status : E -> Z -> Z -> Status).
Notation VS := (VersionSet E W).

(** [base] is the version that picks the level, or none while recovering. *)
Definition WriteLevel0Table (fuel : nat) (vs : VS) (mem : MemTable) (edit : VersionEdit) (base : option Version)
    : option (Status * VersionEdit * VS) :=
  let '(number, vs) := NewFileNumber vs in
  match BuildTable (It := mem_iter ucmp) ucmp options table_status fuel (vs_dbname vs) (vs_env vs) (MemTable_NewIterator mem) number with
  | None => None
  | Some (s, meta, e) =>
      let vs := set_env vs e (vs_log vs) in
      if ok s && (0 <? f_file_size meta) then
        match (match base with
               | Some v => PickLevelForMemTableOutput ucmp max_file_size v (ExtractUserKey (f_smallest meta)) (ExtractUserKey (f_largest meta))
               | None => Some 0%nat
               end) with
        | None => None
        | Some level =>
            Some (s, AddFile (Z.of_nat level) (f_number meta) (f_file_size meta) (f_smallest meta) (f_largest meta) edit, vs)
        end
      else Some (s, edit, vs)
  end.

Definition MaybeIgnoreError (s : Status) : Status := if ok s || paranoid_checks options then s else OK.

(** What the replay of a log changes: the status, the memtable that is being
    filled, the number of tables written, whether the manifest has to be saved,
    the edit, the largest sequence number, and the version set. *)
Record log_recovery := MkLogRecovery {
  lr_status : Status;
  lr_mem : option MemTable;
  lr_compactions : Z;
  lr_save : bool;
  lr_edit : VersionEdit;
  lr_max : Z;
  lr_vs : VS;
}.

Definition set_lr_status (s : Status) (st : log_recovery) : log_recovery :=
  MkLogRecovery s (lr_mem st) (lr_compactions st) (lr_save st) (lr_edit st) (lr_max st) (lr_vs st).

(** [LogReporter]: with paranoid checks the first report becomes the status. *)
Definition log_reported (s : Status) (reports : list (Z * Status)) : Status :=
  if paranoid_checks options then reported s reports else s.

(** Writes the memtable to a table. *)
Definition flush_mem (fuel : nat) (st : log_recovery) (mem : MemTable) : option log_recovery :=
  match WriteLevel0Table fuel (lr_vs st) mem (lr_edit st) None with
  | None => None
  | Some (s, edit, vs) => Some (MkLogRecovery s None (lr_compactions st) true edit (lr_max st) vs)
  end.

(** One record of at least twelve bytes; the loop goes on while the status is
    fine. *)
Definition recover_batch (fuel : nat) (st : log_recovery) (record : list Z) : option (bool * log_recovery) :=
  let batch := SetContents record in
  let mem := match lr_mem st with Some m => m | None => Ref make_MemTable end in
  match InsertInto ucmp batch mem with
  | (_, None) => None
  | (s, Some mem) =>
      let s := MaybeIgnoreError s in
      let st := MkLogRecovery s (Some mem) (lr_compactions st) (lr_save st) (lr_edit st) (lr_max st) (lr_vs st) in
      if negb (ok s) then Some (false, st)
      else
        let last_seq := u64 (Sequence batch + Count batch - 1) in
        let st := MkLogRecovery s (Some mem) (lr_compactions st) (lr_save st) (lr_edit st)
                    (if lr_max st <? last_seq then last_seq else lr_max st) (lr_vs st) in
        if write_buffer_size <? memory_usage mem then
          let st := MkLogRecovery s (Some mem) (lr_compactions st + 1) (lr_save st) (lr_edit st) (lr_max st) (lr_vs st) in
          match flush_mem fuel st mem with
          | None => None
          | Some st => Some (ok (lr_status st), st)
          end
        else Some (true, st)
  end.

(** The loop; [rfuel] is the bound of each [ReadRecord], [mfuel] that of the
    tables. *)
Fixpoint recover_log_loop (fuel rfuel mfuel : nat) (r : Reader.ReaderState R) (st : log_recovery) : option log_recovery :=
  match fuel with
  | O => None
  | S fuel =>
      match Reader.ReadRecord rfuel r with
      | None => None
      | Some (found, record, r) =>
          let st := set_lr_status (log_reported (lr_status st) (Reader.reports r)) st in
          if found && ok (lr_status st) then
            if (length record <? 12)%nat then
              recover_log_loop fuel rfuel mfuel r
                (set_lr_status (log_reported (lr_status st) [(Z.of_nat (length record), Corruption "log record too small")]) st)
            else
              match recover_batch mfuel st record with
              | None => None
              | Some (true, st) => recover_log_loop fuel rfuel mfuel r st
              | Some (false, st) => Some st
              end
          else Some st
      end
  end.

(** The memtable and the log that are used again. *)
Definition reuse_log (log_name : list Z) (st : log_recovery) : log_recovery * option (MemTable * Writer.WriterState W) :=
  let '(s, lfile_size) := env_GetFileSize (vs_env (lr_vs st)) log_name in
  if negb (ok s) then (st, None)
  else
    let '(s, file, e) := env_NewAppendableFile (vs_env (lr_vs st)) log_name in
    let vs := set_env (lr_vs st) e (vs_log (lr_vs st)) in
    let st := MkLogRecovery (lr_status st) (lr_mem st) (lr_compactions st) (lr_save st) (lr_edit st) (lr_max st) vs in
    match (if ok s then file else None) with
    | None => (st, None)
    | Some f =>
        let mem := match lr_mem st with Some m => m | None => Ref make_MemTable end in
        (MkLogRecovery (lr_status st) None (lr_compactions st) (lr_save st) (lr_edit st) (lr_max st) vs,
         Some (mem, Writer.make_Writer_at f lfile_size))
    end.

(** The result is the state, with what is used again. *)
Definition RecoverLogFile (fuel rfuel mfuel : nat) (log_number : Z) (last_log save_manifest : bool) (edit : VersionEdit) (max_sequence : Z)
    (vs : VS) : option (log_recovery * option (MemTable * Writer.WriterState W)) :=
  let fname := LogFileName (vs_dbname vs) log_number in
  let '(s, file) := env_NewSequentialFile (vs_env vs) fname in
  match (if ok s then file else None) with
  | None => Some (MkLogRecovery (MaybeIgnoreError s) None 0 save_manifest edit max_sequence vs, None)
  | Some file =>
      match recover_log_loop fuel rfuel mfuel (Reader.make_Reader file true true 0) (MkLogRecovery s None 0 save_manifest edit max_sequence vs) with
      | None => None
      | Some st =>
          let '(st, reused) :=
            if ok (lr_status st) && reuse_logs && last_log && (lr_compactions st =? 0) then reuse_log fname st else (st, None) in
          match lr_mem st with
          | None => Some (st, reused)
          | Some mem =>
              if ok (lr_status st) then
                match flush_mem mfuel st mem with
                | None => None
                | Some st => Some (st, reused)
                end
              else Some (MkLogRecovery (lr_status st) None (lr_compactions st) (lr_save st) (lr_edit st) (lr_max st) (lr_vs st), reused)
          end
      end
  end.
End Db.

(** ** Writers *)

(** [DBImpl::Writer]; a writer without a batch waits for a compaction. *)
Record Writer := MkWriter { wr_batch : option WriteBatch; wr_sync : bool }.

(** The loop over the other writers: the batch, whether it is [tmp_batch_], and
    how many of the writers are in the group. *)
Fixpoint group_loop (first tmp : WriteBatch) (first_sync : bool) (max_size : Z) (writers : list Writer) (size : Z)
    (result : WriteBatch) (in_tmp : bool) : WriteBatch * bool * nat :=
  match writers with
  | [] => (result, in_tmp, 0%nat)
  | w :: writers =>
      if wr_sync w && negb first_sync then (result, in_tmp, 0%nat)
      else
        match wr_batch w with
        | None =>
            let '(result, in_tmp, n) := group_loop first tmp first_sync max_size writers size result in_tmp in
            (result, in_tmp, S n)
        | Some b =>
            let size := u64 (size + ByteSize b) in
            if max_size <? size then (result, in_tmp, 0%nat)
            else
              let result := if in_tmp then result else AppendBatch tmp first in
              let '(result, in_tmp, n) :=
                group_loop first tmp first_sync max_size writers size (AppendBatch result b) true in
              (result, in_tmp, S n)
        end
  end.

Definition BuildBatchGroup (first tmp : WriteBatch) (first_sync : bool) (writers : list Writer) : WriteBatch * bool * nat :=
  let size := ByteSize first in
  let max_size := if size <=? Z.shiftl 128 10 then u64 (size + Z.shiftl 128 10) else Z.shiftl 1 20 in
  group_loop first tmp first_sync max_size writers size first false.

(** What a writer at the front of the queue works on. *)
Record DBState (E W : Type) := MkDBState {
  ds_vs : VersionSet E W;
  ds_mem : MemTable;
  ds_imm : option MemTable;
  ds_log : Writer.WriterState W;
  ds_log_number : Z;
  ds_bg_error : Status;
  ds_tmp : WriteBatch;
}.
Arguments MkDBState {E W}. Arguments ds_vs {E W}. Arguments ds_mem {E W}. Arguments ds_imm {E W}. Arguments ds_log {E W}.
Arguments ds_log_number {E W}. Arguments ds_bg_error {E W}. Arguments ds_tmp {E W}.

Section Write.
Context {E W R : Type} {EV : FileEnv E W R} {SR : SequentialFile R}.
Context (ucmp : Comparator) (comparator_name : list Z) (options : Options) (max_file_size write_buffer_size : Z).
Context (memory_usage : MemTable -> Z) (table_status : E -> Z -> Z -> Status).
Notation DB := (DBState E W).

Definition set_last_sequence (n : Z) (vs : VersionSet E W) : VersionSet E W :=
  MkVersionSet (vs_env vs) (vs_dbname vs) (next_file_number vs) (manifest_file_number vs) n (log_number vs)
    (prev_log_number vs) (vs_log vs) (vs_current vs) (vs_pointers vs).

Definition RecordBackgroundError (s : Status) (old : Status) : Status := if ok old then s else old.

(** The turn of the writer at the front, after [MakeRoomForWrite] has returned
    [room]: the status, which is that of all writers of the group, how many
    others are in the group, and the state.  Nothing if the insertion did not
    end. *)
Definition write_group (room : Status) (sync : bool) (updates : option WriteBatch) (writers : list Writer) (db : DB)
    : option (Status * nat * DB) :=
  match (if ok room then updates else None) with
  | None => Some (room, 0%nat, db)
  | Some first =>
      let last_sequence := last_sequence (ds_vs db) in
      let '(batch, in_tmp, n) := BuildBatchGroup first (ds_tmp db) sync writers in
      let batch := SetSequence batch (u64 (last_sequence + 1)) in
      let last_sequence := u64 (last_sequence + Count batch) in
      match log_record (vs_env (ds_vs db)) (ds_log db) (Contents batch) with
      | None => None
      | Some (s, e, log) =>
          let logged := ok s in
          let '(s, (e, f)) := if ok s && sync then file_Sync e (Writer.dest_ log) else (s, (e, Writer.dest_ log)) in
          let log := Writer.Mk f (Writer.block_offset_ log) in
          let sync_error := logged && negb (ok s) in
          match (if ok s then InsertInto ucmp batch (ds_mem db) else (s, Some (ds_mem db))) with
          | (_, None) => None
          | (s, Some mem) =>
              let bg_error := if sync_error then RecordBackgroundError s (ds_bg_error db) else ds_bg_error db in
              let tmp := if in_tmp then Clear else ds_tmp db in
              let vs := set_last_sequence last_sequence (set_env (ds_vs db) e (vs_log (ds_vs db))) in
              Some (s, n, MkDBState vs mem (ds_imm db) log (ds_log_number db) bg_error tmp)
          end
      end
  end.

(** A new log and an empty memtable; the old one waits to be written. *)
Definition switch_memtable (db : DB) : Status * DB :=
  let '(new_log_number, vs) := NewFileNumber (ds_vs db) in
  let '(s, lfile, e) := env_NewWritableFile (vs_env vs) (LogFileName (vs_dbname vs) new_log_number) in
  let vs := set_env vs e (vs_log vs) in
  match (if ok s then lfile else None) with
  | None => (s, MkDBState (ReuseFileNumber vs new_log_number) (ds_mem db) (ds_imm db) (ds_log db) (ds_log_number db) (ds_bg_error db) (ds_tmp db))
  | Some f =>
      (s, MkDBState vs (Ref make_MemTable) (Some (ds_mem db)) (Writer.make_Writer f) new_log_number (ds_bg_error db) (ds_tmp db))
  end.

Definition kL0_SlowdownWritesTrigger : Z := 8.
Definition kL0_StopWritesTrigger : Z := 12.

(** [background] is what other threads do to the state while the mutex is
    released. *)
Fixpoint MakeRoomForWrite (fuel : nat) (background : DB -> DB) (force allow_delay : bool) (db : DB) : option (Status * DB) :=
  match fuel with
  | O => None
  | S fuel =>
      if negb (ok (ds_bg_error db)) then Some (ds_bg_error db, db)
      else if allow_delay && (kL0_SlowdownWritesTrigger <=? NumLevelFiles (ds_vs db) 0) then
        MakeRoomForWrite fuel background force false (background db)
      else if negb force && (memory_usage (ds_mem db) <=? write_buffer_size) then Some (OK, db)
      else if (match ds_imm db with Some _ => true | None => false end) || (kL0_StopWritesTrigger <=? NumLevelFiles (ds_vs db) 0) then
        MakeRoomForWrite fuel background force allow_delay (background db)
      else
        let '(s, db) := switch_memtable db in
        if negb (ok s) then Some (s, db) else MakeRoomForWrite fuel background false allow_delay db
  end.

(** The front writer's [Write], once it is its turn. *)
Definition DBImpl_Write (fuel : nat) (background : DB -> DB) (sync : bool) (updates : option WriteBatch) (writers : list Writer)
    (db : DB) : option (Status * nat * DB) :=
  let force := match updates with None => true | Some _ => false end in
  match MakeRoomForWrite fuel background force (negb force) db with
  | None => None
  | Some (room, db) => write_group room sync updates writers db
  end.

(** [CompactMemTable], up to the removal of obsolete files. *)
Definition CompactMemTable (fuel : nat) (shutting_down : bool) (db : DB) : option (Status * DB) :=
  match ds_imm db with
  | None => None
  | Some imm =>
      match WriteLevel0Table ucmp options max_file_size table_status fuel (ds_vs db) imm make_VersionEdit (Some (vs_current (ds_vs db))) with
      | None => None
      | Some (s, edit, vs) =>
          let s := if ok s && shutting_down then IOError "Deleting DB during memtable compaction" else s in
          let installed :=
            if ok s then LogAndApply ucmp comparator_name vs (SetLogNumber (ds_log_number db) (SetPrevLogNumber 0 edit))
            else Some (s, edit, vs) in
          match installed with
          | None => None
          | Some (s, _, vs) =>
              if ok s then Some (s, MkDBState vs (ds_mem db) None (ds_log db) (ds_log_number db) (ds_bg_error db) (ds_tmp db))
              else Some (s, MkDBState vs (ds_mem db) (Some imm) (ds_log db) (ds_log_number db)
                              (RecordBackgroundError s (ds_bg_error db)) (ds_tmp db))
          end
      end
  end.
End Write.

(** ** Opening a database *)

(** Directories and locks (include/leveldb/env.h); a lock is found by its name. *)
Class DirEnv (E : Type) := {
  env_CreateDir : E -> list Z -> Status * E;
  env_RemoveDir : E -> list Z -> Status * E;
  env_GetChildren : E -> list Z -> Status * list (list Z);
  env_FileExists : E -> list Z -> bool;
  env_LockFile : E -> list Z -> Status * E;
  env_UnlockFile : E -> list Z -> Status * E;
}.

(** [VersionSet::AddLiveFiles], for the versions of the list. *)
Definition AddLiveFiles (versions : list Version) (live : gset Z) : gset Z :=
  fold_left (fun live v => fold_left (fun live level => fold_left (fun live f => {[f_number f]} ∪ live) (level_files v level) live) (seq 0 kNumLevels) live)
    versions live.

Section Open.
Context {E W R : Type} {EV : FileEnv E W R} {SR : SequentialFile R} {DE : DirEnv E}.
Context (ucmp : Comparator) (comparator_name : list Z) (options : Options) (max_file_size : Z).
(** [options_.reuse_logs], [write_buffer_size], [create_if_missing] and [error_if_exists] *)
Context (reuse_logs : bool) (write_buffer_size : Z) (create_if_missing error_if_exists : bool).
Context (memory_usage : MemTable -> Z) (table_status : E -> Z -> Z -> Status).
Notation VS := (VersionSet E W).

Definition NewDB (dbname : list Z) (e : E) : option (Status * E) :=
  let new_db := SetLastSequence 0 (SetNextFile 2 (SetLogNumber 0 (SetComparatorName comparator_name make_VersionEdit))) in
  let manifest := DescriptorFileName dbname 1 in
  let '(s, file, e) := env_NewWritableFile e manifest in
  match (if ok s then file else None) with
  | None => Some (s, e)
  | Some f =>
      match log_record e (LvLog.Writer.make_Writer f) (Edit_EncodeTo new_db []) with
      | None => None
      | Some (s, e, log) =>
          let '(s, (e, _)) := if ok s then file_Close e (LvLog.Writer.dest_ log) else (s, (e, LvLog.Writer.dest_ log)) in
          if ok s then Some (SetCurrentFile e dbname 1) else Some (s, (env_RemoveFile e manifest).2)
      end
  end.

(** ** Obsolete files *)

Definition keep_file (live : gset Z) (vs : VS) (number : Z) (type : FileType) : bool :=
  match type with
  | kLogFile => (log_number vs <=? number) || (number =? prev_log_number vs)
  | kDescriptorFile => manifest_file_number vs <=? number
  | kTableFile | kTempFile => bool_decide (number ∈ live)
  | kCurrentFile | kDBLockFile | kInfoLogFile => true
  end.

Definition is_obsolete (live : gset Z) (vs : VS) (filename : list Z) : bool :=
  match ParseFileName filename with
  | Some (number, type) => negb (keep_file live vs number type)
  | None => false
  end.

(** The version set, and the numbers of the tables that are evicted from the
    table cache. *)
Definition RemoveObsoleteFiles (bg_error : Status) (pending_outputs : gset Z) (versions : list Version) (vs : VS) : VS * list Z :=
  if negb (ok bg_error) then (vs, [])
  else
    let live := AddLiveFiles versions pending_outputs in
    let filenames := (env_GetChildren (vs_env vs) (vs_dbname vs)).2 in
    let files_to_delete := List.filter (is_obsolete live vs) filenames in
    let evicted := omap (fun name => match ParseFileName name with Some (number, kTableFile) => Some number | _ => None end) files_to_delete in
    let e := fold_left (fun e filename => (env_RemoveFile e (vs_dbname vs ++ str "/" ++ filename)).2) files_to_delete (vs_env vs) in
    (set_env vs e (vs_log vs), evicted).

(** ** Recovery *)

(** The numbers of the logs to replay, in the order of the directory, and the
    tables that were not found. *)
Fixpoint scan_children (min_log prev_log : Z) (filenames : list (list Z)) (logs : list Z) (expected : gset Z) : list Z * gset Z :=
  match filenames with
  | [] => (logs, expected)
  | name :: filenames =>
      match ParseFileName name with
      | Some (number, type) =>
          let logs := match type with
                      | kLogFile => if (min_log <=? number) || (number =? prev_log) then logs ++ [number] else logs
                      | _ => logs
                      end in
          scan_children min_log prev_log filenames logs (expected ∖ {[number]})
      | None => scan_children min_log prev_log filenames logs expected
      end
  end.

(** What opening has so far: whether the manifest has to be saved, the edit, the
    largest sequence number, the version set, and a memtable with its log if a log
    is used again. *)
Record opening := MkOpening {
  op_save : bool;
  op_edit : VersionEdit;
  op_max : Z;
  op_vs : VS;
  op_mem : option (Z * MemTable * LvLog.Writer.WriterState W);
}.

(** The loop over the logs. *)
Fixpoint recover_logs (fuel rfuel mfuel : nat) (logs : list Z) (st : opening) : option (Status * opening) :=
  match logs with
  | [] => Some (OK, st)
  | number :: logs =>
      let last_log := match logs with [] => true | _ => false end in
      match RecoverLogFile ucmp options max_file_size reuse_logs write_buffer_size memory_usage table_status fuel rfuel mfuel number last_log
              (op_save st) (op_edit st) (op_max st) (op_vs st) with
      | None => None
      | Some (lr, reused) =>
          let mem := match reused with Some (m, w) => Some (number, m, w) | None => op_mem st end in
          if negb (ok (lr_status lr)) then Some (lr_status lr, MkOpening (lr_save lr) (lr_edit lr) (lr_max lr) (lr_vs lr) mem)
          else recover_logs fuel rfuel mfuel logs (MkOpening (lr_save lr) (lr_edit lr) (lr_max lr) (MarkFileNumberUsed (lr_vs lr) number) mem)
      end
  end.

(** The smallest number of a set. *)
Definition set_first (X : gset Z) : option Z := head (merge_sort Z.le (elements X)).

(** From the manifest on. *)
Definition recover_versions (fuel rfuel mfuel : nat) (edit : VersionEdit) (vs : VS) : option (Status * opening) :=
  match Recover ucmp comparator_name max_file_size reuse_logs fuel rfuel vs with
  | None => None
  | Some (s, save_manifest, vs) =>
      let st := MkOpening save_manifest edit 0 vs None in
      if negb (ok s) then Some (s, st)
      else
        let '(s, filenames) := env_GetChildren (vs_env vs) (vs_dbname vs) in
        if negb (ok s) then Some (s, st)
        else
          let '(logs, expected) := scan_children (log_number vs) (prev_log_number vs) filenames [] (AddLiveFiles [vs_current vs] ∅) in
          match set_first expected with
          | Some number =>
              Some (mkStatus LvEnv.kCorruption (string_of_bytes (decimal (Z.of_nat (size expected)) ++ str " missing files; e.g."))
                      (string_of_bytes (TableFileName (vs_dbname vs) number)), st)
          | None =>
              match recover_logs fuel rfuel mfuel (merge_sort Z.le logs) st with
              | None => None
              | Some (s, st) =>
                  if negb (ok s) then Some (s, st)
                  else
                    let vs := if last_sequence (op_vs st) <? op_max st then set_last_sequence (op_max st) (op_vs st) else op_vs st in
                    Some (OK, MkOpening (op_save st) (op_edit st) (op_max st) vs (op_mem st))
              end
          end
  end.

Definition DBImpl_Recover (fuel rfuel mfuel : nat) (edit : VersionEdit) (vs : VS) : option (Status * opening) :=
  let dbname := vs_dbname vs in
  let stop (s : Status) (e : E) := Some (s, MkOpening false edit 0 (set_env vs e (vs_log vs)) None) in
  let e := (env_CreateDir (vs_env vs) dbname).2 in
  let '(s, e) := env_LockFile e (LockFileName dbname) in
  if negb (ok s) then stop s e
  else if negb (env_FileExists e (CurrentFileName dbname)) then
    if create_if_missing then
      match NewDB dbname e with
      | None => None
      | Some (s, e) => if negb (ok s) then stop s e else recover_versions fuel rfuel mfuel edit (set_env vs e (vs_log vs))
      end
    else stop (mkStatus LvEnv.kInvalidArgument (string_of_bytes dbname) "does not exist (create_if_missing is false)") e
  else if error_if_exists then stop (mkStatus LvEnv.kInvalidArgument (string_of_bytes dbname) "exists (error_if_exists is true)") e
  else recover_versions fuel rfuel mfuel edit (set_env vs e (vs_log vs)).

(** ** [DB::Open] *)

(** A new log and memtable, unless a log is used again. *)
Definition open_log_file (st : opening) : Status * VersionEdit * VS * option (Z * MemTable * LvLog.Writer.WriterState W) :=
  match op_mem st with
  | Some mem => (OK, op_edit st, op_vs st, Some mem)
  | None =>
      let '(new_log_number, vs) := NewFileNumber (op_vs st) in
      let '(s, lfile, e) := env_NewWritableFile (vs_env vs) (LogFileName (vs_dbname vs) new_log_number) in
      let vs := set_env vs e (vs_log vs) in
      match (if ok s then lfile else None) with
      | None => (s, op_edit st, vs, None)
      | Some f => (s, SetLogNumber new_log_number (op_edit st), vs, Some (new_log_number, Ref make_MemTable, LvLog.Writer.make_Writer f))
      end
  end.

(** The status, and the database if it is fine.  The destructor, which gives
    up the lock after an error, is left out. *)
Definition DB_Open (fuel rfuel mfuel : nat) (dbname : list Z) (e : E) : option (Status * option (DBState E W) * E) :=
  match DBImpl_Recover fuel rfuel mfuel make_VersionEdit (make_VersionSet e dbname) with
  | None => None
  | Some (s, st) =>
      if negb (ok s) then Some (s, None, vs_env (op_vs st))
      else
        let '(s, edit, vs, mem) := open_log_file st in
        match (if ok s then mem else None) with
        | None => Some (s, None, vs_env vs)
        | Some (number, mem, log) =>
            let saved :=
              if op_save st then LogAndApply ucmp comparator_name vs (SetLogNumber number (SetPrevLogNumber 0 edit)) else Some (OK, edit, vs) in
            match saved with
            | None => None
            | Some (s, _, vs) =>
                if negb (ok s) then Some (s, None, vs_env vs)
                else
                  let vs := (RemoveObsoleteFiles OK ∅ [vs_current vs] vs).1 in
                  Some (OK, Some (MkDBState vs mem None log number OK Clear), vs_env vs)
            end
        end
  end.

(** [DestroyDB] *)
Fixpoint destroy_files (dbname : list Z) (filenames : list (list Z)) (result : Status) (e : E) : Status * E :=
  match filenames with
  | [] => (result, e)
  | name :: filenames =>
      match ParseFileName name with
      | Some (_, kDBLockFile) | None => destroy_files dbname filenames result e
      | Some _ =>
          let '(del, e) := env_RemoveFile e (dbname ++ str "/" ++ name) in
          destroy_files dbname filenames (if ok result && negb (ok del) then del else result) e
      end
  end.

Definition DestroyDB (dbname : list Z) (e : E) : Status * E :=
  let '(result, filenames) := env_GetChildren e dbname in
  if negb (ok result) then (OK, e)
  else
    let lockname := LockFileName dbname in
    let '(result, e) := env_LockFile e lockname in
    if ok result then
      let '(result, e) := destroy_files dbname filenames result e in
      let e := (env_UnlockFile e lockname).2 in
      let e := (env_RemoveFile e lockname).2 in
      let e := (env_RemoveDir e dbname).2 in
      (result, e)
    else (result, e).
End Open.
