(* ===== verification/LvReplay.v ===== *)
(** * leveldb: tables of memtables and the replay of a log (theorems about LvDbWrite)

    BuildTable writes the table of the entries of an iterator, whatever the file
    system, and that file opens.  The tables that the replay of a log writes hold exactly the updates of the
    batches that are complete in the log. *)
From Stdlib Require Import ZArith Lia Bool String List Sorted Permutation.
From stdpp Require Import base list gmap numbers sorting.
From S2P Require Import Prelude LvCoding LvEnv LvLog LvLogProps LvComparator LvDbFormat LvWriteBatch LvMemTable LvMemTableProps LvBlock LvBlockProps.
From S2P Require Import LvFormat LvTable LvTableProps LvTableRead LvFilename LvVersion LvVersionProps LvTableCache LvVersionEdit LvBuilder LvManifest LvManifestProps.
From S2P Require Import LvIterator LvMergerProps LvTableCache LvTwoLevel LvDbIter LvVersionIter LvVersionIterProps LvDbWrite.

(** ** The builder and its file *)

(** The fields of a changed builder. *)
Ltac builder_fields := cbn [set_data_block set_pending set_output set_filter_block set_closed set_index_block set_last_key
  t_status t_file t_offset ok pending_handle pending_index_entry filter_block data_block index_block t_last_key num_entries closed].

(** [Finish] after the filter block. *)
Definition finish_rest {F} {WF : WritableFile F} (C : Comparator) (options : Options) (x : TableBuilder F * BlockHandle) : TableBuilder F :=
  let '(r, filter_block_handle) := x in
  let '(r, metaindex_block_handle) :=
    if ok (t_status r) then
      WriteBlock options r
        (match filter_policy options with
         | Some p => BlockBuilder_Add (block_restart_interval options) BlockBuilder_Reset (filter_key p) (BlockHandle_EncodeTo filter_block_handle [])
         | None => BlockBuilder_Reset
         end)
    else (r, make_BlockHandle) in
  let '(r, index_block_handle) :=
    if ok (t_status r) then
      let r := if pending_index_entry r then add_index_entry (FindShortSuccessor (t_last_key r)) r else r in
      let '(r, handle) := WriteBlock options r (index_block r) in (set_index_block BlockBuilder_Reset r, handle)
    else (r, make_BlockHandle) in
  if ok (t_status r) then
    let footer_encoding := Footer_EncodeTo (MkFooter metaindex_block_handle index_block_handle) [] in
    let '(s, file) := Append (t_file r) footer_encoding in
    let offset := if ok s then u64 (t_offset r + Z.of_nat (length footer_encoding)) else t_offset r in
    set_output file offset s r
  else r.

Section Track.
Context {F : Type} {WF : WritableFile F} {WL : WritableFileLaws F} (C : Comparator) (options : Options).
(** What appending and flushing do to a file. *)
Context (Rel : F -> F -> Prop) {PO : PreOrder Rel}.
Hypothesis Append_rel : forall f d, Rel f (Append f d).2.
Hypothesis Flush_rel : forall f, Rel f (Flush f).2.

Record tracked (f0 : F) (r : TableBuilder F) : Prop := {
  tr_status : t_status r = OK;
  tr_offset : t_offset r = u64 (Z.of_nat (length (written (t_file r))));
  tr_rel : Rel f0 (t_file r);
}.

Lemma WriteRawBlock_tracked f0 r c ty : tracked f0 r -> tracked f0 (WriteRawBlock r c ty).1.
Proof.
  intros [Ts To Tr]. unfold WriteRawBlock. pose proof (Append_rel (t_file r) c) as R1. destruct (Append_law (t_file r) c) as (f1 & E1 & W1).
  rewrite E1 in *. cbn [ok snd] in *.
  match goal with |- context [Append f1 ?d] => pose proof (Append_rel f1 d) as R2; destruct (Append_law f1 d) as (f2 & E2 & W2) end.
  rewrite E2 in *. cbn [snd] in R2. constructor; cbn; [done| |].
  - rewrite W2, W1, !length_app, length_cons, length_EncodeFixed32, To. unfold wrapu, kBlockTrailerSize.
    rewrite <- Z.add_assoc, Zplus_mod_idemp_l. f_equal. lia.
  - etransitivity; [exact Tr|]. etransitivity; [exact R1|exact R2].
Qed.

Lemma WriteBlock_tracked f0 r b : tracked f0 r -> tracked f0 (WriteBlock options r b).1.
Proof. intros T. unfold WriteBlock. destruct (compression options); now apply WriteRawBlock_tracked. Qed.

Lemma Flush_tracked f0 r : tracked f0 r -> tracked f0 (TableBuilder_Flush options r).
Proof.
  intros T. unfold TableBuilder_Flush. rewrite (tr_status _ _ T). cbn [ok negb]. destruct (is_empty (data_block r)); [done|].
  pose proof (WriteBlock_tracked f0 r (data_block r) T) as T1. destruct (WriteBlock options r (data_block r)) as [r1 h]. destruct T1 as [Ts To Tr].
  cbn [fst] in *. builder_fields. rewrite Ts. cbn [ok]. pose proof (Flush_rel (t_file r1)) as Rf. destruct (Flush_law (t_file r1)) as (f & Ef & Wf).
  builder_fields. rewrite Ef in *. cbn [snd] in Rf. constructor; builder_fields; [done|now rewrite Wf|]. etransitivity; [exact Tr|exact Rf].
Qed.

Lemma add_index_tracked f0 r k : tracked f0 r -> tracked f0 (add_index_entry k r).
Proof. intros [? ? ?]. now constructor. Qed.

Lemma Add_tracked f0 r k v : tracked f0 r -> tracked f0 (TableBuilder_Add C options r k v).
Proof.
  intros T. unfold TableBuilder_Add. rewrite (tr_status _ _ T). cbn [ok negb].
  set (r1 := if pending_index_entry r then _ else _). assert (T1 : tracked f0 r1) by (unfold r1; destruct (pending_index_entry r); [now apply add_index_tracked|done]).
  clearbody r1. set (r2 := match filter_block r1 with Some _ => _ | None => _ end).
  assert (T2 : tracked f0 r2) by (unfold r2; destruct (filter_block r1); [|done]; now destruct T1).
  clearbody r2. assert (T3 : tracked f0 (set_data_block (BlockBuilder_Add (block_restart_interval options) (data_block (set_last_key k (num_entries r2 + 1) r2)) k v)
    (set_last_key k (num_entries r2 + 1) r2))) by now destruct T2.
  destruct (_ <=? _); [now apply Flush_tracked|done].
Qed.

Lemma add_all_tracked f0 es r : tracked f0 r -> tracked f0 (add_all C options es r).
Proof. revert r. induction es as [|[k v] es IH]; intros r T; [done|]. cbn [add_all fold_left fst snd]. apply IH. now apply Add_tracked. Qed.

Lemma finish_rest_tracked f0 x : tracked f0 x.1 ->
  tracked f0 (finish_rest C options x) /\ (0 < length (written (t_file (finish_rest C options x))))%nat.
Proof.
  destruct x as [r h]. cbn [fst]. intros T. unfold finish_rest. rewrite (tr_status _ _ T). cbn [ok].
  match goal with |- context [WriteBlock options r ?b] => pose proof (WriteBlock_tracked f0 r b T) as T3; destruct (WriteBlock options r b) as [r3 h3] end.
  cbn [fst] in T3. rewrite (tr_status _ _ T3). cbn [ok]. set (r4 := if pending_index_entry r3 then _ else _).
  assert (T4 : tracked f0 r4) by (unfold r4; destruct (pending_index_entry r3); [now apply add_index_tracked|done]). clearbody r4.
  pose proof (WriteBlock_tracked f0 r4 (index_block r4) T4) as T5. destruct (WriteBlock options r4 (index_block r4)) as [r5 h5]. cbn [fst] in T5. destruct T5 as [S5 O5 R5].
  builder_fields. rewrite S5. cbn [ok]. builder_fields.
  match goal with |- context [Append (t_file r5) ?d] => pose proof (Append_rel (t_file r5) d) as R6; destruct (Append_law (t_file r5) d) as (f & Ef & Wf) end.
  rewrite Ef in *. cbn [snd] in R6. split; [constructor; builder_fields; [done| |etransitivity; [exact R5|exact R6]]|].
  - rewrite Wf, length_app, O5. unfold wrapu. rewrite Zplus_mod_idemp_l. f_equal. lia.
  - builder_fields. rewrite Wf, length_app. unfold Footer_EncodeTo, PutFixed32. rewrite !length_app, !length_EncodeFixed32. lia.
Qed.

Lemma Finish_tracked f0 r : tracked f0 r ->
  tracked f0 (TableBuilder_Finish C options r) /\ (0 < length (written (t_file (TableBuilder_Finish C options r))))%nat.
Proof.
  intros T. unfold TableBuilder_Finish. assert (T1 : tracked f0 (set_closed (TableBuilder_Flush options r))) by (destruct (Flush_tracked f0 r T); now constructor).
  revert T1. generalize (set_closed (TableBuilder_Flush options r)). intros r1 T1.
  match goal with |- context [let '(r, h) := ?x in _] => assert (T2 : tracked f0 x.1); [|exact (finish_rest_tracked f0 x T2)] end.
  destruct (filter_policy options) as [p|]; [|done]. destruct (filter_block r1); [|done]. rewrite (tr_status _ _ T1). cbn [ok]. now apply WriteRawBlock_tracked.
Qed.

Lemma make_tracked f : written f = [] -> tracked f (make_TableBuilder options f).
Proof. intros Hf. constructor; cbn; [done|now rewrite Hf|reflexivity]. Qed.
End Track.

(** ** What a table looks like does not depend on the kind of file *)

Section Same.
Context {F G : Type} {WF : WritableFile F} {WL : WritableFileLaws F} {WG : WritableFile G} {WGL : WritableFileLaws G} (C : Comparator) (options : Options).

(** The same builder with another file. *)
Definition with_file (g : G) (r : TableBuilder F) : TableBuilder G :=
  Rep g (t_offset r) (t_status r) (data_block r) (index_block r) (t_last_key r) (num_entries r) (closed r) (filter_block r)
    (pending_index_entry r) (pending_handle r).

Definition same_builder (r : TableBuilder F) (q : TableBuilder G) : Prop :=
  exists g, q = with_file g r /\ written g = written (t_file r) /\ t_status r = OK.

Lemma WriteRawBlock_same r q c ty : same_builder r q ->
  same_builder (WriteRawBlock r c ty).1 (WriteRawBlock q c ty).1 /\ (WriteRawBlock r c ty).2 = (WriteRawBlock q c ty).2.
Proof.
  intros (g & -> & Hw & Hs). unfold WriteRawBlock. destruct (Append_law (t_file r) c) as (f1 & -> & W1), (Append_law g c) as (g1 & E1 & V1).
  builder_fields. cbn [with_file t_file t_offset]. rewrite E1. cbn [ok].
  match goal with |- context [Append f1 ?d] => destruct (Append_law f1 d) as (f2 & -> & W2), (Append_law g1 d) as (g2 & E2 & V2) end.
  rewrite E2. cbn [ok fst snd]. split; [|done]. exists g2. split; [done|]. split; [|done]. builder_fields. congruence.
Qed.

Lemma WriteBlock_same r q b : same_builder r q ->
  same_builder (WriteBlock options r b).1 (WriteBlock options q b).1 /\ (WriteBlock options r b).2 = (WriteBlock options q b).2.
Proof. intros H. unfold WriteBlock. destruct (compression options); now apply WriteRawBlock_same. Qed.

Lemma Flush_same r q : same_builder r q -> same_builder (TableBuilder_Flush options r) (TableBuilder_Flush options q).
Proof.
  intros H. pose proof (WriteBlock_same r q (data_block r) H) as [H1 H2]. unfold TableBuilder_Flush.
  assert (E : t_status q = t_status r /\ data_block q = data_block r /\ t_status r = OK) by (destruct H as (g & -> & _ & Hs); done).
  destruct E as (-> & -> & ->). cbn [ok negb]. destruct (is_empty (data_block r)); [done|].
  destruct (WriteBlock options r (data_block r)) as [r1 h1], (WriteBlock options q (data_block r)) as [q1 k1]. cbn [fst snd] in *. subst k1.
  destruct H1 as (g & -> & Hw & Hs). builder_fields. cbn [with_file t_status t_file t_offset filter_block pending_index_entry]. rewrite Hs. cbn [ok]. builder_fields.
  destruct (Flush_law (t_file r1)) as (f2 & -> & W2), (Flush_law g) as (g2 & E2 & V2). cbn [with_file t_file]. rewrite E2.
  exists g2. split; [done|]. split; [|done]. builder_fields. congruence.
Qed.

Lemma Add_same r q k v : same_builder r q -> same_builder (TableBuilder_Add C options r k v) (TableBuilder_Add C options q k v).
Proof.
  intros (g & -> & Hw & Hs). unfold TableBuilder_Add. cbn [with_file t_status]. rewrite Hs. cbn [ok negb].
  set (r1 := if pending_index_entry r then _ else r). set (q1 := if pending_index_entry (with_file g r) then _ else _).
  assert (E1 : q1 = with_file g r1 /\ t_file r1 = t_file r /\ t_status r1 = OK) by (unfold q1, r1; cbn [with_file pending_index_entry]; destruct (pending_index_entry r); done).
  destruct E1 as (-> & F1 & S1). clearbody r1.
  set (r2 := match filter_block r1 with Some _ => _ | None => r1 end). set (q2 := match filter_block (with_file g r1) with Some _ => _ | None => _ end).
  assert (E2 : q2 = with_file g r2 /\ t_file r2 = t_file r1 /\ t_status r2 = OK) by (unfold q2, r2; cbn [with_file filter_block]; destruct (filter_block r1); done).
  destruct E2 as (-> & F2 & S2). clearbody r2.
  assert (H3 : forall b, same_builder (set_data_block b (set_last_key k (num_entries r2 + 1) r2)) (set_data_block b (set_last_key k (num_entries r2 + 1) (with_file g r2))))
    by (intros b; exists g; split; [done|]; split; [builder_fields; congruence|done]).
  cbn [with_file num_entries]. specialize (H3 (BlockBuilder_Add (block_restart_interval options) (data_block r2) k v)). builder_fields. cbn [with_file data_block].
  destruct (_ <=? _); [now apply Flush_same|done].
Qed.

Lemma add_all_same es r q : same_builder r q -> same_builder (add_all C options es r) (add_all C options es q).
Proof. revert r q. induction es as [|[k v] es IH]; intros r q H; [done|]. cbn [add_all fold_left fst snd]. apply IH. now apply Add_same. Qed.

Lemma finish_rest_same x y : same_builder x.1 y.1 -> x.2 = y.2 -> same_builder (finish_rest C options x) (finish_rest C options y).
Proof.
  destruct x as [r hr], y as [q hq]. intros H Eh. cbn [fst snd] in H, Eh. unfold finish_rest. subst hq. pose proof (WriteBlock_same r q (match filter_policy options with
    | Some p => BlockBuilder_Add (block_restart_interval options) BlockBuilder_Reset (filter_key p) (BlockHandle_EncodeTo hr []) | None => BlockBuilder_Reset end) H) as [H1 H2].
  assert (E : t_status q = OK /\ t_status r = OK) by (destruct H as (g & -> & _ & Hs); done). destruct E as [-> ->]. cbn [ok].
  destruct (WriteBlock options r _) as [r1 m1], (WriteBlock options q _) as [q1 m2]. cbn [fst snd] in *. subst m2.
  destruct H1 as (g & -> & Hw & Hs). cbn [with_file t_status pending_index_entry t_last_key]. rewrite Hs. cbn [ok].
  set (r2 := if pending_index_entry r1 then add_index_entry _ r1 else r1). set (q2 := if pending_index_entry r1 then add_index_entry _ (with_file g r1) else _).
  assert (E2 : q2 = with_file g r2 /\ t_file r2 = t_file r1 /\ t_status r2 = OK) by (unfold q2, r2; destruct (pending_index_entry r1); done).
  destruct E2 as (-> & F2 & S2). clearbody r2.
  assert (H2 : same_builder r2 (with_file g r2)) by (exists g; split; [done|]; split; [now rewrite F2|done]).
  pose proof (WriteBlock_same r2 (with_file g r2) (index_block r2) H2) as [H3 H4]. cbn [with_file index_block].
  fold (with_file g r2). destruct (WriteBlock options r2 _) as [r3 m3], (WriteBlock options (with_file g r2) _) as [q3 m4]. cbn [fst snd] in *. subst m4.
  destruct H3 as (g3 & -> & Hw3 & Hs3). builder_fields. cbn [with_file t_status t_file t_offset]. rewrite Hs3. cbn [ok].
  match goal with |- context [Append (t_file r3) ?d] => destruct (Append_law (t_file r3) d) as (f4 & -> & W4), (Append_law g3 d) as (g4 & -> & V4) end.
  exists g4. split; [done|]. split; [|done]. builder_fields. congruence.
Qed.

Lemma Finish_same r q : same_builder r q -> same_builder (TableBuilder_Finish C options r) (TableBuilder_Finish C options q).
Proof.
  intros H. unfold TableBuilder_Finish. assert (H1 : same_builder (set_closed (TableBuilder_Flush options r)) (set_closed (TableBuilder_Flush options q)))
    by (destruct (Flush_same r q H) as (g & -> & Hw & Hs); now exists g).
  revert H1. generalize (set_closed (TableBuilder_Flush options r)), (set_closed (TableBuilder_Flush options q)). intros r1 q1 H1.
  assert (E1 : filter_block q1 = filter_block r1 /\ t_status q1 = OK /\ t_status r1 = OK) by (destruct H1 as (g & -> & _ & Hs); done).
  destruct E1 as (-> & Sq & Sr). rewrite Sq, Sr. cbn [ok].
  apply finish_rest_same; (destruct (filter_policy options) as [p|]; [|done]); (destruct (filter_block r1); [|done]); now apply WriteRawBlock_same.
Qed.

Lemma built_same (f : F) (g : G) es : written f = [] -> written g = [] -> written (built C options f es) = written (built C options g es).
Proof.
  intros Hf Hg. assert (H : same_builder (make_TableBuilder options f) (make_TableBuilder options g)).
  { exists g. split; [done|]. split; [|done]. cbn. congruence. }
  destruct (Finish_same _ _ (add_all_same es _ _ H)) as (g' & E & Hw & _). unfold built. now rewrite E.
Qed.
End Same.

(** The bytes of the table of some entries. *)
Definition table_image (C : Comparator) (options : Options) (es : list (list Z * list Z)) : list Z :=
  written (built C options (MemFile []) es).

(** ** [BuildTable] *)

Section Loop.
Context {E W R I : Type} {EV : FileEnv E W R} {C : Comparator} {valid : list Z -> Prop} {It : Iter I}.
Context {LI : IterLaws (InternalKeyComparator C) (kvalid valid) I} (options : Options).

Lemma build_loop_ok es fuel (i : I) p largest (b : TableBuilder (E * W)) : it_at (IterLaws := LI) i es p -> (length es - p < fuel)%nat ->
  exists i', build_loop C options fuel i largest b =
      Some (i', from_option fst largest (last (drop p es)), add_all (InternalKeyComparator C) options (drop p es) b) /\ it_at (IterLaws := LI) i' es (length es).
Proof.
  revert i p largest b. induction fuel as [|fuel IH]; intros i p largest b Hi Hf; [lia|]. cbn [build_loop]. rewrite (it_at_valid i es p Hi).
  destruct (Nat.ltb_spec p (length es)) as [Hp|Hp].
  - destruct (lookup_lt_is_Some_2 es p Hp) as [[k v] Ek]. destruct (it_at_entry i es p k v Hi Ek) as [-> ->].
    destruct (it_next_at i es p Hi Hp) as (i1 & -> & Hi1). rewrite (drop_S es (k, v) p Ek).
    destruct (IH i1 (S p) k (TableBuilder_Add (InternalKeyComparator C) options b k v) Hi1 ltac:(lia)) as (i' & E1 & Hi'). exists i'. split; [|done].
    rewrite E1. f_equal. f_equal. f_equal. rewrite last_cons. now destruct (last (drop (S p) es)).
  - exists i. rewrite drop_ge by done. split; [done|]. pose proof (it_at_le i es p Hi). now replace (length es) with p by lia.
Qed.
End Loop.

Section Tables.
Context {E W R : Type} {EV : FileEnv E W R} {SR : SequentialFile R} {SL : SequentialFileLaws R} {EL : FileEnvLaws E W R}.
Context {C : Comparator} {valid : list Z -> Prop} {CL : ComparatorLaws C valid} (options : Options).
Context (table_status : E -> Z -> Z -> Status).
Notation IC := (InternalKeyComparator C).
Notation pairs := (map entry_pair).

Lemma table_image_pos C' es : (0 < length (table_image C' options es))%nat.
Proof.
  unfold table_image, built. assert (PO : PreOrder (fun _ _ : mem_file => True)) by now split.
  apply (Finish_tracked C' options (fun _ _ => True) (fun _ _ => I) (fun _ => I) (MemFile [])), (add_all_tracked C' options (fun _ _ => True) (fun _ _ => I) (fun _ => I)).
  now apply make_tracked.
Qed.

(** The file of a number is the table of some entries. *)
Definition image (l : list added) : list Z := table_image IC options (pairs l).
Definition table_at (dbname : list Z) (e : E) (number : Z) (l : list added) : Prop :=
  exists i, fs_dir e (TableFileName dbname number) = Some i /\ fs_data e i = image l.
(** Entries that a table can hold. *)
Definition table_entries_ok (l : list added) : Prop :=
  entries_ok (C := C) (valid := valid) l /\ l <> [] /\ Z.of_nat (length (image l)) < 2 ^ 32.

(** Files of other names stay. *)
Definition fs_same (names : list Z -> Prop) (e e' : E) : Prop :=
  forall n, ~ names n -> fs_dir e' n = fs_dir e n /\ forall i, fs_dir e n = Some i -> fs_data e' i = fs_data e i.

(** The record of a new file. *)
Definition new_meta (number : Z) (l : list added) : FileMetaData :=
  MkFile number (Z.of_nat (length (image l))) (from_option ikey_of [] (head l)) (from_option ikey_of [] (last l)) (Z.shiftl 1 30).

(** A table that was written completely opens. *)
Context (dbname : list Z).
Hypothesis table_opens : forall e number l, table_entries_ok l -> table_at dbname e number l ->
  table_status e number (Z.of_nat (length (image l))) = OK.

Context {I : Type} {It : Iter I} {LI : IterLaws IC (kvalid valid) I}.

Lemma build_file_ok fuel e (w : W) (i : I) number l : it_at (IterLaws := LI) i (pairs l) 0 -> table_entries_ok l -> (length l < fuel)%nat ->
  fs_data e (fs_handle w) = [] -> fs_dir e (TableFileName dbname number) = Some (fs_handle w) ->
  exists i' e', build_file C options table_status fuel e w i number = Some (OK, i', new_meta number l, e') /\ it_at (IterLaws := LI) i' (pairs l) (length l) /\
    0 < Z.of_nat (length (image l)) /\
    table_at dbname e' number l /\ (forall n, fs_dir e' n = fs_dir e n) /\ (forall j, j <> fs_handle w -> fs_data e' j = fs_data e j).
Proof.
  intros Hi Hl Hf Hw Hd. unfold build_file. rewrite <- (length_map entry_pair) in Hf.
  destruct (build_loop_ok options (pairs l) fuel i 0 [] (make_TableBuilder options (e, w)) Hi ltac:(lia)) as (i' & -> & Hi').
  rewrite drop_0. rewrite length_map in Hi'.
  assert (Ek : it_key i = from_option ikey_of [] (head l)).
  { destruct l as [|a l]; [now destruct Hl as (_ & ? & _)|]. now destruct (it_at_entry i _ 0 (ikey_of a) (a_value a) Hi eq_refl) as [-> _]. }
  assert (El : from_option fst [] (last (pairs l)) = from_option ikey_of [] (last l)) by (rewrite fmap_last; now destruct (last l)).
  assert (T : tracked only_file (e, w) (TableBuilder_Finish IC options (add_all IC options (pairs l) (make_TableBuilder options (e, w)))) /\
    (0 < length (written (t_file (TableBuilder_Finish IC options (add_all IC options (pairs l) (make_TableBuilder options (e, w)))))))%nat).
  { apply (Finish_tracked IC options only_file Append_only Flush_only), (add_all_tracked IC options only_file Append_only Flush_only). apply (make_tracked options only_file). exact Hw. }
  pose proof (built_same (F := E * W) IC options (e, w) (MemFile []) (pairs l) Hw eq_refl) as Eb. unfold built at 1 in Eb. fold (image l) in Eb.
  revert T Eb. generalize (TableBuilder_Finish IC options (add_all IC options (pairs l) (make_TableBuilder options (e, w)))). intros b [[Ts To (O1 & O2 & O3)] Hpos] Eb. rewrite Eb in Hpos. change (written (built IC options (MemFile []) (pairs l))) with (image l) in Hpos.
  destruct Hl as (Hl & Hne & Hsmall). rewrite Ts. cbn [ok]. unfold FileSize. rewrite To, Eb.
  change (written (built IC options (MemFile []) (pairs l))) with (image l). rewrite wrapu_small by (zpow; lia).
  destruct (t_file b) as [e1 w1]. cbn [fst snd] in *. destruct (file_Sync_law e1 w1) as (e2 & w2 & -> & H2 & D2 & S2). cbn [ok].
  destruct (file_Close_law e2 w2) as (e3 & w3 & -> & D3 & S3). cbn [ok].
  assert (Ht : table_at dbname e3 number l).
  { exists (fs_handle w). split; [now rewrite D3, D2, O2|]. rewrite S3, S2, <- O1. exact Eb. }
  exists i', e3. rewrite (table_opens e3 number l); [|done|done]. split; [now rewrite Ek, El|]. split; [done|]. split; [lia|]. split; [done|].
  split; [intros n; now rewrite D3, D2, O2|]. intros j Hj. rewrite S3, S2. now apply O3.
Qed.

(** A table is written from the entries of an iterator, and no other file
    changes. *)
Lemma BuildTable_ok fuel e (i : I) p number l : it_at (IterLaws := LI) i (pairs l) p -> table_entries_ok l -> (length l < fuel)%nat ->
  exists e', BuildTable C options table_status fuel dbname e i number = Some (OK, new_meta number l, e') /\
    table_at dbname e' number l /\ fs_same (eq (TableFileName dbname number)) e e'.
Proof.
  intros Hi Hl Hf. unfold BuildTable. destruct (it_first_at i _ p Hi) as (i0 & -> & Hi0). rewrite (it_at_valid i0 _ 0 Hi0), length_map.
  assert (H0 : (0 < length l)%nat) by (destruct l; [now destruct Hl as (_ & ? & _)|simpl; lia]). apply Nat.ltb_lt in H0. rewrite H0.
  destruct (NewWritableFile_law e (TableFileName dbname number)) as (w & e1 & -> & Hd & Hw & Ho & Hdata). cbn [ok].
  destruct (build_file_ok fuel e1 w i0 number l Hi0 Hl Hf Hw Hd) as (i' & e' & -> & Hi' & Hsz & Ht & D & S).
  rewrite (it_at_status i' _ _ Hi'). cbn [ok negb andb f_file_size new_meta].
  apply Z.ltb_lt in Hsz. rewrite Hsz. exists e'. split; [done|]. split; [done|].
  intros n Hn. assert (Hne : n <> TableFileName dbname number) by congruence. destruct (Ho n Hne) as [E1 N1]. split; [now rewrite D|].
  intros j Hj. rewrite S by congruence. apply Hdata. congruence.
Qed.

(** Without entries there is no table. *)
Lemma BuildTable_empty fuel e (i : I) p number : it_at (IterLaws := LI) i [] p ->
  BuildTable C options table_status fuel dbname e i number =
    Some (OK, MkFile number 0 [] [] (Z.shiftl 1 30), (env_RemoveFile e (TableFileName dbname number)).2).
Proof.
  intros Hi. unfold BuildTable. destruct (it_first_at i _ p Hi) as (i0 & -> & Hi0). rewrite (it_at_valid i0 _ 0 Hi0), (it_at_status i0 _ 0 Hi0). done.
Qed.

Lemma table_at_same (P : list Z -> Prop) e e' number l : fs_same P e e' -> ~ P (TableFileName dbname number) ->
  table_at dbname e number l -> table_at dbname e' number l.
Proof. intros S HP (i & Hd & Hc). destruct (S _ HP) as [D1 D2]. exists i. split; [congruence|]. now rewrite D2. Qed.
End Tables.

Lemma table_name_inj dbname a b : 0 <= a < 2 ^ 64 -> 0 <= b < 2 ^ 64 -> a <> b -> TableFileName dbname a <> TableFileName dbname b.
Proof.
  intros Ha Hb Hne. change (db_file_name dbname (DbTable a) <> db_file_name dbname (DbTable b)). apply names_differ; [intros ? ? [= <- <-]; lia..|].
  cbn. congruence.
Qed.

(** ** Batches in a log *)

(** Batches with the sequence numbers they got, one after the other. *)
Inductive history {valid : list Z -> Prop} : Z -> list (Z * list update) -> Z -> Prop :=
  | history_nil s : history s [] s
  | history_cons s us bs s' : Forall (update_valid (valid := valid)) us -> Z.of_nat (length us) < 2 ^ 31 ->
      history (s + Z.of_nat (length us)) bs s' -> history s ((s, us) :: bs) s'.
Arguments history valid : clear implicits.

Lemma history_le valid s bs s' : history valid s bs s' -> s <= s'.
Proof. induction 1; lia. Qed.

(** The entries of the batches, and the record of one. *)
Definition history_entries (bs : list (Z * list update)) : list added := concat (map (fun b => number b.1 b.2) bs).
Definition batch_record (b : Z * list update) : list Z :=
  EncodeFixed64 b.1 ++ EncodeFixed32 (Z.of_nat (length b.2)) ++ enc_updates b.2.

Lemma batch_record_is b : batch_is (batch_record b) b.1 b.2.
Proof. done. Qed.

(** The largest sequence number of some batches, if they have any. *)
Definition history_max (m : Z) (bs : list (Z * list update)) : Z :=
  fold_left (fun m b => Z.max m (b.1 + Z.of_nat (length b.2) - 1)) bs m.

(** ** The replay *)

Section Replay.
Context {E W R : Type} {EV : FileEnv E W R} {SR : SequentialFile R} {SL : SequentialFileLaws R} {EL : FileEnvLaws E W R}.
Context {C : Comparator} {valid : list Z -> Prop} {CL : ComparatorLaws C valid}.
Context (valid_bytes : forall k, valid k -> is_bytes k) (valid_short : forall k, valid k -> Z.of_nat (length k) + 8 < 2 ^ 32).
Context (options : Options) (max_file_size write_buffer_size : Z) (memory_usage : MemTable -> Z) (table_status : E -> Z -> Z -> Status).
Context (dbname : list Z).
Notation IC := (InternalKeyComparator C).
Notation VS := (VersionSet E W).
Notation table_ok := (table_entries_ok (C := C) (valid := valid) options).
Notation entries_ok := (LvTableCache.entries_ok (C := C) (valid := valid)).
Notation image := (image (C := C) options).

Hypothesis table_opens : forall e number l, table_ok l -> table_at (C := C) options dbname e number l ->
  table_status e number (Z.of_nat (length (image l))) = OK.

(** What writing tables changes: the edit has the [files] as well, with their
    numbers and entries, and they are in the file system. *)
Record replayed (vs0 : VS) (edit0 : VersionEdit) (files : list (Z * list added)) (edit : VersionEdit) (vs : VS) : Prop := {
  rp_edit : edit = fold_left (fun e p => push_file 0 (new_meta (C := C) options p.1 p.2) e) files edit0;
  rp_vs : vs = set_env (set_next_file vs0 (next_file_number vs)) (vs_env vs) (vs_log vs0);
  rp_next : 0 <= next_file_number vs0 <= next_file_number vs;
  rp_numbers : Forall (fun p => next_file_number vs0 <= p.1 < next_file_number vs) files;
  rp_sorted : StronglySorted (fun p q => p.1 < q.1) files;
  rp_tables : Forall (fun p => table_ok p.2 /\ table_at (C := C) options dbname (vs_env vs) p.1 p.2) files;
  rp_same : fs_same (fun n => exists k, next_file_number vs0 <= k < next_file_number vs /\ n = TableFileName dbname k) (vs_env vs0) (vs_env vs);
}.

Lemma replayed_nil vs edit : 0 <= next_file_number vs -> replayed vs edit [] edit vs.
Proof.
  intros H. constructor; [done|now destruct vs|lia|constructor|constructor|constructor|]. intros n _. done.
Qed.

(** A memtable whose entries fit into a table, in whatever order. *)
Definition fits (l : list added) : Prop := forall l', Permutation l l' -> entries_ok l' -> Z.of_nat (length (image l')) < 2 ^ 32.

Lemma fs_same_weaken (P Q : list Z -> Prop) (e e' : E) : (forall n, P n -> Q n) -> fs_same P e e' -> fs_same Q e e'.
Proof. intros H S n Hn. apply S. auto. Qed.

Lemma fs_same_trans (P : list Z -> Prop) (e1 e2 e3 : E) : fs_same P e1 e2 -> fs_same P e2 e3 -> fs_same P e1 e3.
Proof.
  intros S1 S2 n Hn. destruct (S1 n Hn) as [D1 C1], (S2 n Hn) as [D2 C2]. split; [congruence|]. intros i Hi. rewrite C2 by congruence. now apply C1.
Qed.

(** One more memtable. *)
Lemma WriteLevel0_ok fuel vs0 edit0 files edit vs m l : replayed vs0 edit0 files edit vs -> vs_dbname vs = dbname -> next_file_number vs + 1 < 2 ^ 64 ->
  mem_is (C := C) (valid := valid) m l -> fits l -> (length l < fuel)%nat ->
  exists files' edit' vs', WriteLevel0Table C options max_file_size table_status fuel vs m edit None = Some (OK, edit', vs') /\
    replayed vs0 edit0 (files ++ files') edit' vs' /\ next_file_number vs' = next_file_number vs + 1 /\
    Permutation (concat (map snd files')) l /\ (length files' <= 1)%nat.
Proof.
  intros HR Hdb Hnext Hm Hfit Hf. unfold WriteLevel0Table, NewFileNumber. destruct HR as [R1 R2 R3 R4 R5 R6 R7].
  destruct (mem_iterator_at valid_short m l Hm) as (l' & HP & Hl & Hi). rewrite wrapu_small by (zpow; lia).
  change (vs_dbname (set_next_file vs (next_file_number vs + 1))) with (vs_dbname vs). change (vs_env (set_next_file vs (next_file_number vs + 1))) with (vs_env vs).
  rewrite Hdb. rewrite (Permutation_length HP) in Hf.
  set (number := next_file_number vs) in *. assert (Hnum : 0 <= number < 2 ^ 64) by lia.
  assert (Hmore : forall e' files', fs_same (eq (TableFileName dbname number)) (vs_env vs) e' ->
    Forall (fun p => p.1 = number /\ table_ok p.2 /\ table_at (C := C) options dbname e' p.1 p.2) files' -> (length files' <= 1)%nat ->
    let vs' := set_env (set_next_file vs (number + 1)) e' (vs_log vs) in
    replayed vs0 edit0 (files ++ files') (fold_left (fun e p => push_file 0 (new_meta (C := C) options p.1 p.2) e) files' edit) vs').
  { intros e' files' Hs Hnew Hone vs'. unfold vs'. constructor; cbn [set_env set_next_file vs_env next_file_number vs_log].
    - rewrite R1, fold_left_app. done.
    - rewrite R2. cbn. now rewrite R2.
    - unfold number in *. lia.
    - apply Forall_app. split; [eapply Forall_impl; [exact R4|]|eapply Forall_impl; [exact Hnew|]].
      + intros p Hp. cbn in *. unfold number. lia.
      + intros p (-> & _). cbn. unfold number in *. lia.
    - apply StronglySorted_app. split; [|split; [done|]].
      + intros p q Hp Hq. rewrite Forall_forall in R4, Hnew. specialize (R4 p Hp). destruct (Hnew q Hq) as (-> & _). unfold number. lia.
      + destruct files' as [|p [|q files']]; [constructor|now repeat constructor|simpl in Hone; lia].
    - apply Forall_app. split; [|eapply Forall_impl; [exact Hnew|now intros p (_ & ?)]]. apply Forall_forall. intros p Hp.
      rewrite Forall_forall in R4, R6. specialize (R4 p Hp). destruct (R6 p Hp) as [T1 T2]. split; [done|].
      apply (table_at_same options dbname _ _ _ _ _ Hs); [|done]. apply table_name_inj; [lia|lia|unfold number in *; lia].
    - apply (fs_same_trans _ _ (vs_env vs)).
      + eapply fs_same_weaken; [|exact R7]. intros n (k & Hk & ->). exists k. split; [lia|done].
      + eapply fs_same_weaken; [|exact Hs]. intros n <-. exists number. split; [unfold number in *; lia|done]. }
  destruct (decide (l' = [])) as [->|Hne].
  - rewrite (BuildTable_empty (LI := mem_laws valid_short) options table_status dbname fuel (vs_env vs) _ 0 number Hi). cbn [ok andb f_file_size Z.ltb Z.compare].
    destruct (RemoveFile_law (vs_env vs) (TableFileName dbname number)) as [D1 D2]. eexists [], edit, _. split; [reflexivity|].
    split; [|split; [done|split; [now rewrite HP|simpl; lia]]]. apply (Hmore _ []); [|constructor|simpl; lia]. intros n Hn. split; [apply D1; congruence|]. intros i _. apply D2.
  - assert (Hok : table_ok l') by (split; [done|]; split; [done|]; now apply Hfit).
    destruct (BuildTable_ok (LI := mem_laws valid_short) options table_status dbname table_opens fuel (vs_env vs) _ (length l') number l' Hi Hok Hf) as (e' & -> & Ht & Hs).
    cbn [ok andb f_file_size new_meta]. destruct Hok as (Ho1 & Ho2 & Ho3). destruct (Z.ltb_spec 0 (Z.of_nat (length (image l')))) as [_|Hz].
    + eexists [(number, l')], _, _. split; [reflexivity|]. split; [|split; [done|simpl; rewrite app_nil_r; split; [done|lia]]].
      apply (Hmore e' [(number, l')] Hs); [|simpl; lia]. constructor; [|done]. done.
    + exfalso. pose proof (table_image_pos options IC (map entry_pair l')) as Hp. unfold LvReplay.image in Hz. lia.
Qed.

Lemma InsertInto_batch m l b seq us : mem_is (C := C) (valid := valid) m l -> batch_is b seq us -> Forall (update_valid (valid := valid)) us ->
  0 <= seq -> seq + Z.of_nat (length us) < 2 ^ 56 -> Z.of_nat (length us) < 2 ^ 31 -> (forall a, In a l -> a_seq a < seq) ->
  exists m', InsertInto C b m = (OK, Some m') /\ mem_is (C := C) (valid := valid) m' (rev (number seq us) ++ l).
Proof.
  intros Hm B Hu H0 Hs Hn Hlt. destruct (run_inserter valid_bytes us l m seq Hm Hu H0 Hs Hlt) as (m' & E1 & M). exists m'. split; [|done].
  unfold InsertInto. rewrite (batch_sequence _ seq us B) by (zpow; lia). rewrite (Iterate_ok _ seq us _ B); [now rewrite E1| |done].
  eapply Forall_impl; [exact Hu|]. apply (update_valid_ok valid_bytes).
Qed.

(** The state of the replay after the batches [done]: the tables written so far,
    older ones first, and the entries of the memtable. *)
Record recovering (vs0 : VS) (edit0 : VersionEdit) (max0 : Z) (next : Z) (past : list (Z * list update)) (files : list (Z * list added)) (cur : list added)
    (st : log_recovery (E := E) (W := W)) : Prop := {
  rv_status : lr_status st = OK;
  rv_max : lr_max st = history_max max0 past;
  rv_files : replayed vs0 edit0 files (lr_edit st) (lr_vs st);
  rv_mem : match lr_mem st with Some m => mem_is (C := C) (valid := valid) m cur | None => cur = [] end;
  rv_perm : Permutation (concat (map snd files) ++ cur) (history_entries past);
  rv_order : StronglySorted (fun p q => forall a b, a ∈ p.2 -> b ∈ q.2 -> a_seq a < a_seq b) files;
  rv_older : Forall (fun p => forall a b, a ∈ p.2 -> b ∈ cur -> a_seq a < a_seq b) files;
  rv_seq : forall a, a ∈ history_entries past -> a_seq a < next;
  rv_count : next_file_number (lr_vs st) <= next_file_number vs0 + Z.of_nat (length past);
}.

Lemma replayed_dbname vs0 edit0 files edit vs : replayed vs0 edit0 files edit vs -> vs_dbname vs = vs_dbname vs0.
Proof. intros R0. now rewrite (rp_vs _ _ _ _ _ R0). Qed.

Lemma in_files (a : added) (files : list (Z * list added)) : a ∈ concat (map snd files) <-> exists p, p ∈ files /\ a ∈ p.2.
Proof.
  rewrite list_elem_of_In, in_concat. split.
  - intros (l & Hl & Ha). apply in_map_iff in Hl as (p & <- & Hp). exists p. now rewrite !list_elem_of_In.
  - intros (p & Hp & Ha). exists p.2. split; [apply in_map, list_elem_of_In, Hp|now apply list_elem_of_In].
Qed.

(** Writing the memtable to a table. *)
Lemma flush_ok fuel vs0 edit0 max0 next past files cur st m : recovering vs0 edit0 max0 next past files cur st -> lr_mem st = Some m ->
  vs_dbname vs0 = dbname -> next_file_number vs0 + Z.of_nat (length past) + 1 < 2 ^ 64 -> fits cur -> (length cur < fuel)%nat ->
  exists files' st', flush_mem C options max_file_size table_status fuel st m = Some st' /\
    lr_status st' = OK /\ lr_max st' = lr_max st /\ lr_mem st' = None /\ replayed vs0 edit0 files' (lr_edit st') (lr_vs st') /\
    Permutation (concat (map snd files')) (history_entries past) /\
    StronglySorted (fun p q => forall a b, a ∈ p.2 -> b ∈ q.2 -> a_seq a < a_seq b) files' /\
    next_file_number (lr_vs st') = next_file_number (lr_vs st) + 1 /\ lr_save st' = true.
Proof.
  intros [Rs Rm Rf Rme Rp Ro Rl Rq Rc] Em Hdb Hn Hfit Hfu. rewrite Em in Rme. unfold flush_mem.
  destruct (WriteLevel0_ok fuel vs0 edit0 files _ _ m cur Rf) as (new & edit' & vs' & -> & Rf' & Hnext & HP & Hone); [now rewrite (replayed_dbname _ _ _ _ _ Rf)|lia|done|done|done|].
  eexists (files ++ new), _. split; [reflexivity|]. cbn [lr_status lr_max lr_mem lr_edit lr_vs lr_save]. split; [done|]. split; [done|]. split; [done|]. split; [done|].
  split; [now rewrite map_app, concat_app, HP|]. split; [|done]. apply StronglySorted_app. split; [|split; [done|]].
  - intros p q Hp Hq a b Ha Hb. rewrite Forall_forall in Rl. apply (Rl p Hp a b Ha). rewrite <- HP. apply in_files. now exists q.
  - destruct new as [|p [|q new]]; [constructor|repeat constructor|simpl in Hone; lia].
Qed.

Lemma history_entries_app bs cs : history_entries (bs ++ cs) = history_entries bs ++ history_entries cs.
Proof. unfold history_entries. now rewrite map_app, concat_app. Qed.

Lemma entries_snoc past b : history_entries (past ++ [b]) = history_entries past ++ number b.1 b.2.
Proof. rewrite history_entries_app. unfold history_entries at 2. simpl. now rewrite app_nil_r. Qed.

(** One batch in the memtable. *)
Lemma recovering_insert vs0 edit0 max0 next past files cur st us m mem' c save :
  recovering vs0 edit0 max0 next past files cur st ->
  mem_is (C := C) (valid := valid) mem' (rev (number next us) ++ cur) -> m = history_max max0 (past ++ [(next, us)]) ->
  recovering vs0 edit0 max0 (next + Z.of_nat (length us)) (past ++ [(next, us)]) files (rev (number next us) ++ cur)
    (MkLogRecovery OK (Some mem') c save (lr_edit st) m (lr_vs st)).
Proof.
  intros [Rs Rm Rf Rme Rp Ro Rl Rq Rc] Hm ->. constructor; cbn [lr_status lr_max lr_edit lr_vs lr_mem]; try done.
  - rewrite entries_snoc, <- Rp, <- Permutation_rev. cbn [fst snd]. rewrite <- app_assoc. apply Permutation_app_head, Permutation_app_comm.
  - rewrite Forall_forall in Rl |- *. intros p Hp a b Ha Hb. apply elem_of_app in Hb as [Hb|Hb]; [|now apply (Rl p Hp)].
    apply list_elem_of_In in Hb. rewrite <- in_rev in Hb. apply number_seq in Hb. apply (Z.lt_le_trans _ next); [|lia]. apply Rq. rewrite <- Rp. apply elem_of_app. left. apply in_files. now exists p.
  - intros a Ha. rewrite entries_snoc in Ha. apply elem_of_app in Ha as [Ha|Ha]; [specialize (Rq a Ha); lia|]. apply list_elem_of_In, number_seq in Ha. simpl in Ha. lia.
  - rewrite length_app. simpl. lia.
Qed.

Lemma recover_batch_ok fuel vs0 edit0 max0 next past files cur st us :
  recovering vs0 edit0 max0 next past files cur st -> vs_dbname vs0 = dbname -> next_file_number vs0 + Z.of_nat (length past) + 2 < 2 ^ 64 ->
  1 <= next -> next + Z.of_nat (length us) < 2 ^ 56 -> Forall (update_valid (valid := valid)) us -> Z.of_nat (length us) < 2 ^ 31 ->
  (forall l, l ⊆+ history_entries (past ++ [(next, us)]) -> fits l) -> (length (history_entries (past ++ [(next, us)])) < fuel)%nat ->
  exists files' cur' st', recover_batch C options max_file_size write_buffer_size memory_usage table_status fuel st (batch_record (next, us)) = Some (true, st') /\
    recovering vs0 edit0 max0 (next + Z.of_nat (length us)) (past ++ [(next, us)]) files' cur' st'.
Proof.
  intros HR Hdb Hnum Hnext Hseq Hu Hlen Hfit Hf. pose proof HR as [Rs Rm Rf Rme Rp Ro Rl Rq Rc]. unfold recover_batch, SetContents.
  set (mem := match lr_mem st with Some m => m | None => Ref make_MemTable end).
  assert (Hm : mem_is (C := C) (valid := valid) mem cur) by (unfold mem; destruct (lr_mem st); [done|subst cur; apply make_mem_is]).
  pose proof (batch_record_is (next, us)) as HB. cbn [fst snd] in HB.
  destruct (InsertInto_batch mem cur _ next us Hm HB Hu) as (mem' & -> & Hm'); [lia|lia|lia| |].
  { intros a Ha. apply Rq. rewrite <- Rp. apply elem_of_app. right. now apply list_elem_of_In. }
  change (MaybeIgnoreError options OK) with OK. cbn [ok negb lr_compactions lr_save lr_edit lr_max lr_vs].
  rewrite (batch_sequence _ next us HB) by (zpow; lia). rewrite (batch_count _ next us HB Hlen). rewrite wrapu_small by (zpow; lia).
  set (m' := if lr_max st <? next + Z.of_nat (length us) - 1 then next + Z.of_nat (length us) - 1 else lr_max st).
  assert (Hmax : m' = history_max max0 (past ++ [(next, us)])).
  { unfold m', history_max. rewrite fold_left_app. cbn [fold_left fst snd]. fold (history_max max0 past). rewrite <- Rm. destruct (Z.ltb_spec (lr_max st) (next + Z.of_nat (length us) - 1)); lia. }
  pose proof (fun c save => recovering_insert _ _ _ _ _ _ _ _ us m' mem' c save HR Hm' Hmax) as HR'.
  destruct (write_buffer_size <? memory_usage mem'); [|eexists files, _, _; split; [reflexivity|]; apply HR'].
  specialize (HR' (lr_compactions st + 1) (lr_save st)). pose proof (rv_perm _ _ _ _ _ _ _ _ HR') as HP.
  assert (Hsub : rev (number next us) ++ cur ⊆+ history_entries (past ++ [(next, us)])) by (rewrite <- HP; apply submseteq_inserts_l; reflexivity).
  destruct (flush_ok fuel _ _ _ _ _ _ _ _ mem' HR') as (files' & st' & -> & F1 & F2 & F3 & F4 & F5 & F6 & F7 & F8);
    [done|done|rewrite length_app; simpl; lia|now apply Hfit|apply submseteq_length in Hsub; lia|].
  rewrite F1. cbn [ok]. eexists files', [], st'. split; [reflexivity|]. destruct HR' as [Qs Qm Qf Qme Qp Qo Ql Qq Qc].
  constructor; try done; [now rewrite F2|now rewrite F3|now rewrite app_nil_r|apply Forall_forall; intros p _ a b _ Hb; inversion Hb|].
  rewrite F7. cbn [lr_vs]. rewrite length_app. simpl. lia.
Qed.

Lemma batch_record_bytes b : Forall (update_valid (valid := valid)) b.2 -> is_bytes (batch_record b).
Proof.
  intros H. unfold batch_record. rewrite !is_bytes_app. split; [auto with cint|]. split; [auto with cint|]. apply enc_updates_bytes.
  eapply Forall_impl; [exact H|]. apply (update_valid_ok valid_bytes).
Qed.

Lemma batch_record_long b : (length (batch_record b) <? 12)%nat = false.
Proof. apply Nat.ltb_ge. unfold batch_record. rewrite !length_app, length_EncodeFixed64, length_EncodeFixed32. lia. Qed.

Lemma lr_status_same (st : log_recovery (E := E) (W := W)) : lr_status st = OK -> set_lr_status OK st = st.
Proof. destruct st. cbn. now intros ->. Qed.

Lemma no_reports s : log_reported options s [] = s.
Proof. unfold log_reported. now destruct (paranoid_checks options), s. Qed.

(** The loop inserts the batches whose records are complete. *)
Lemma recover_log_loop_ok vs0 edit0 max0 s' fuel rfuel mfuel : vs_dbname vs0 = dbname -> s' < 2 ^ 56 ->
  forall bs off l next past n (r : Reader.ReaderState R) files cur st, logged off (map batch_record bs) l -> history valid next bs s' -> 1 <= next ->
    recovering vs0 edit0 max0 next past files cur st -> next_file_number vs0 + Z.of_nat (length (past ++ bs)) + 1 < 2 ^ 64 ->
    (forall l, l ⊆+ history_entries (past ++ bs) -> fits l) -> (length (history_entries (past ++ bs)) < mfuel)%nat ->
    (length bs < fuel)%nat -> (n < rfuel)%nat -> at_ r off (take n (enc_log l)) ->
    exists j next' files' cur' st', recover_log_loop C options max_file_size write_buffer_size memory_usage table_status fuel rfuel mfuel r st = Some st' /\
      complete l n j /\ recovering vs0 edit0 max0 next' (past ++ take j bs) files' cur' st'.
Proof.
  intros Hdb Hs'. revert fuel. induction fuel as [|fuel IH]; intros bs off l next past n r files cur st HL HH Hnext HR Hnum Hfit Hm Hf Hr A; [lia|].
  destruct rfuel as [|rfuel]; [lia|]. cbn [recover_log_loop]. pose proof (rv_status _ _ _ _ _ _ _ _ HR) as Hst. destruct HH as [s0|s0 us bs s' Hu Hlen HH].
  - inversion HL; subst. change (enc_log []) with (@nil Z) in A. rewrite take_nil in A. destruct (ReadRecord_end off rfuel r A) as (r' & -> & Er).
    rewrite Er, no_reports, Hst, lr_status_same by done. cbn [andb]. exists 0%nat, s0, files, cur, st. rewrite take_0, app_nil_r. split; [done|].
    split; [|done]. unfold complete, enc_log. simpl. lia.
  - cbn [map] in HL. inversion HL as [|off0 data records items rest off' HF HL']; subst.
    change (enc_log (items :: rest)) with (enc_items items ++ enc_log rest) in A.
    destruct (ReadRecord_ok off _ items off' (enc_log rest) (S rfuel) n r HF (batch_record_bytes (s0, us) Hu) Hr A) as [P1 P2].
    destruct (Nat.ltb_spec n (length (enc_items items))) as [L|L].
    + destruct P2 as (r' & -> & Er); [lia|]. rewrite Er, no_reports, Hst, lr_status_same by done. cbn [andb].
      exists 0%nat, s0, files, cur, st. rewrite take_0, app_nil_r. split; [done|]. split; [|done]. unfold complete, enc_log.
      cbn [take map concat length]. rewrite take_0. cbn [map concat]. rewrite app_nil_r. simpl. lia.
    + destruct P1 as (r' & -> & A'); [lia|]. rewrite (at_reports _ _ _ A'), no_reports, Hst, lr_status_same, Hst by done. cbn [andb ok].
      rewrite batch_record_long. pose proof (history_le _ _ _ _ HH). rewrite cons_middle, app_assoc in Hfit, Hm, Hnum.
      destruct (recover_batch_ok mfuel vs0 edit0 max0 s0 past files cur st us HR) as (files1 & cur1 & st1 & -> & HR1); [done| |lia|lia|done|done| |
        |].
      * rewrite !length_app in Hnum. simpl in Hnum. lia.
      * intros l Hl. apply Hfit. rewrite Hl, (history_entries_app (past ++ [_]) bs). now apply submseteq_inserts_r.
      * rewrite (history_entries_app (past ++ [_]) bs), length_app in Hm. lia.
      * destruct (IH bs off' rest (s0 + Z.of_nat (length us)) (past ++ [(s0, us)]) (n - length (enc_items items))%nat r' files1 cur1 st1)
          as (j & next' & files' & cur' & st' & E2 & C2 & R2); try done; [lia|cbn [length] in Hf; lia|lia|].
        exists (S j), next', files', cur', st'. split; [done|]. split; [now apply complete_cons|]. cbn [take]. now rewrite cons_middle, app_assoc.
Qed.

(** What the replay of the batches [bs] gives: no error, the largest sequence
    number, and tables for level 0 that hold exactly the updates of [bs], each
    table with updates that are older than those of the next one; nothing but
    these tables is different in the file system. *)
Record replay_of (vs0 : VS) (edit0 : VersionEdit) (max0 : Z) (bs : list (Z * list update)) (files : list (Z * list added)) (st : log_recovery (E := E) (W := W)) : Prop := {
  ro_status : lr_status st = OK;
  ro_max : lr_max st = history_max max0 bs;
  ro_files : replayed vs0 edit0 files (lr_edit st) (lr_vs st);
  ro_entries : Permutation (concat (map snd files)) (history_entries bs);
  ro_order : StronglySorted (fun p q => forall a b, a ∈ p.2 -> b ∈ q.2 -> a_seq a < a_seq b) files;
  ro_count : next_file_number (lr_vs st) <= next_file_number vs0 + Z.of_nat (length bs) + 1;
}.

Lemma RecoverLogFile_ok reuse_logs fuel rfuel mfuel log_number last_log save vs0 edit0 max0 s s' bs l n i :
  vs_dbname vs0 = dbname -> reuse_logs && last_log = false -> history valid s bs s' -> 1 <= s -> s' < 2 ^ 56 ->
  0 <= next_file_number vs0 -> next_file_number vs0 + Z.of_nat (length bs) + 1 < 2 ^ 64 ->
  fs_dir (vs_env vs0) (LogFileName dbname log_number) = Some i -> fs_data (vs_env vs0) i = take n (enc_log l) -> logged 0 (map batch_record bs) l ->
  (forall l, l ⊆+ history_entries bs -> fits l) -> (length (history_entries bs) < mfuel)%nat -> (length bs < fuel)%nat -> (n < rfuel)%nat ->
  exists j files st, RecoverLogFile C options max_file_size reuse_logs write_buffer_size memory_usage table_status fuel rfuel mfuel log_number last_log save edit0 max0 vs0
      = Some (st, None) /\ complete l n j /\ replay_of vs0 edit0 max0 (take j bs) files st.
Proof.
  intros Hdb Hreuse HH Hs Hs' Hnum0 Hnum Hdir Hdata HL Hfit Hm Hf Hr. unfold RecoverLogFile. rewrite Hdb.
  destruct (NewSequentialFile_law _ _ _ Hdir) as (r & -> & Hun). cbn [ok]. rewrite Hdata in Hun.
  assert (HR : recovering vs0 edit0 max0 s [] [] [] (MkLogRecovery OK None 0 save edit0 max0 vs0)).
  { constructor; cbn [lr_status lr_max lr_edit lr_vs lr_mem]; try done; [now apply replayed_nil|apply SSorted_nil|intros a Ha; inversion Ha|simpl; lia]. }
  destruct (recover_log_loop_ok vs0 edit0 max0 s' fuel rfuel mfuel Hdb Hs' bs kBlockSize l s [] n (Reader.make_Reader r true true 0) [] [] _ (logged_0 _ _ HL) HH Hs HR)
    as (j & next' & files & cur & st & -> & HC & HR'); [exact Hnum|exact Hfit|exact Hm|done|done|now apply make_at_0|]. cbn [app] in HR'.
  pose proof HR' as [Rs Rm Rf Rme Rp Ro Rl Rq Rc]. rewrite Rs. cbn [ok andb]. rewrite Hreuse. cbn [andb].
  destruct (lr_mem st) as [m|] eqn:Em.
  - rewrite Rs. cbn [ok]. assert (Hsub : cur ⊆+ history_entries bs).
    { rewrite <- (take_drop j bs), history_entries_app. apply submseteq_inserts_r. rewrite <- Rp. now apply submseteq_inserts_l. }
    destruct (flush_ok mfuel _ _ _ _ _ _ _ _ m HR' Em Hdb) as (files' & st' & -> & F1 & F2 & F3 & F4 & F5 & F6 & F7 & F8);
      [rewrite length_take; lia|now apply Hfit|apply submseteq_length in Hsub; lia|].
    exists j, files', st'. split; [done|]. split; [done|]. constructor; try done; [now rewrite F2|lia].
  - subst cur. rewrite app_nil_r in Rp. exists j, files, st. split; [done|]. split; [done|]. constructor; try done. lia.
Qed.
End Replay.
