(* ===== verification/LvDurable.v ===== *)
(** * leveldb: writes survive a crash (theorems about the write path of LvDbWrite)

    Writers that are served in groups, a log that is cut at any byte, and its
    replay: the groups whose records are complete come back, and no others.  A
    writer that waits for room gets it, as long as the background work makes
    progress; and a log that could not be synced stops all later writes. *)
From Stdlib Require Import ZArith Lia Bool String List Sorted Permutation.
From stdpp Require Import base list gmap numbers sorting.
From S2P Require Import Prelude LvCoding LvEnv LvLog LvLogProps LvComparator LvDbFormat LvWriteBatch LvMemTable LvMemTableProps LvBlock LvBlockProps.
From S2P Require Import LvFormat LvTable LvTableProps LvTableRead LvFilename LvVersion LvVersionProps LvTableCache LvVersionEdit LvBuilder LvManifest LvManifestProps.
From S2P Require Import LvIterator LvMergerProps LvTableCache LvTwoLevel LvDbIter LvVersionIter LvVersionIterProps LvDbWrite LvReplay LvRecovery LvScan LvFilter LvFilterProps.

(** ** Groups *)

(** The updates that a writer asks for. *)
Definition writer_is (w : Writer) (us : list update) : Prop :=
  match wr_batch w with Some b => LvWriteBatch.built b us | None => us = [] end.

Lemma group_loop_ok first seq0 us0 first_sync max_size : batch_is first seq0 us0 -> forall ws uss size result in_tmp acc seq,
  Forall2 writer_is ws uss -> batch_is result seq acc -> (in_tmp = false -> result = first /\ acc = us0) -> Z.of_nat (length (acc ++ concat uss)) < 2 ^ 31 ->
  exists b t n seq', group_loop first Clear first_sync max_size ws size result in_tmp = (b, t, n) /\ (n <= length ws)%nat /\
    batch_is b seq' (acc ++ concat (take n uss)).
Proof.
  intros Hfirst ws uss size result in_tmp acc seq HW. revert size result in_tmp acc seq.
  induction HW as [|w us ws uss Hw HW IH]; intros size result in_tmp acc seq HB Ht Hlen; cbn [group_loop].
  - exists result, in_tmp, 0%nat, seq. simpl. rewrite app_nil_r. split; [done|]. split; [lia|done].
  - assert (Hstop : exists b t n seq', (result, in_tmp, 0%nat) = (b, t, n) /\ (n <= length (w :: ws))%nat /\ batch_is b seq' (acc ++ concat (take n (us :: uss)))).
    { exists result, in_tmp, 0%nat, seq. rewrite take_0. cbn [concat]. rewrite app_nil_r. split; [done|]. split; [simpl; lia|done]. }
    destruct (_ && _); [exact Hstop|]. unfold writer_is in Hw. cbn [concat] in Hlen. rewrite app_assoc in Hlen. destruct (wr_batch w) as [b|].
    + destruct (max_size <? _); [exact Hstop|]. rewrite length_app in Hlen. rewrite length_app in Hlen.
      destruct (built_is b us Hw ltac:(lia)) as [seqb Hb].
      assert (HR : exists seq1, batch_is (if in_tmp then result else AppendBatch Clear first) seq1 acc).
      { destruct in_tmp; [now exists seq|]. destruct (Ht eq_refl) as [-> ->]. exists 0. change us0 with ([] ++ us0). eapply AppendBatch_batch; [apply Clear_batch|exact Hfirst|simpl; lia]. }
      destruct HR as [seq1 HR]. pose proof (AppendBatch_batch _ _ _ _ _ _ HR Hb ltac:(lia)) as HA.
      destruct (IH (wrapu 64 (size + ByteSize b)) _ true _ seq1 HA) as (b' & t & n & seq' & -> & Hn & HB'); [done|rewrite !length_app; lia|].
      exists b', t, (S n), seq'. split; [done|]. split; [simpl; lia|]. cbn [take concat]. now rewrite app_assoc.
    + subst us. rewrite app_nil_r in Hlen. destruct (IH size result in_tmp acc seq HB Ht Hlen) as (b' & t & n & seq' & -> & Hn & HB').
      exists b', t, (S n), seq'. split; [done|]. split; [simpl; lia|exact HB'].
Qed.

(** A call of [Write]: the batch with its updates, and the writers behind it with
    theirs. *)
Record call := MkCall { c_sync : bool; c_batch : WriteBatch; c_updates : list update; c_others : list (Writer * list update) }.

(** The updates of the group when the first [n] other writers are in it. *)
Definition group_updates (c : call) (n : nat) : list update := c_updates c ++ concat (take n (map snd (c_others c))).
Definition call_updates (c : call) : list update := group_updates c (length (c_others c)).

Lemma group_updates_sub c n : group_updates c n ⊆+ call_updates c.
Proof.
  unfold call_updates, group_updates. apply submseteq_skips_l. rewrite (take_ge _ (length (c_others c))) by (rewrite length_map; lia).
  rewrite <- (take_drop n (map snd (c_others c))) at 2. rewrite concat_app. now apply submseteq_inserts_r.
Qed.

(** Groups get consecutive sequence numbers. *)
Fixpoint batches (s : Z) (uss : list (list update)) : list (Z * list update) :=
  match uss with
  | [] => []
  | us :: uss => (s, us) :: batches (s + Z.of_nat (length us)) uss
  end.

Lemma length_batches s uss : length (batches s uss) = length uss.
Proof. revert s. induction uss; intros s; simpl; auto. Qed.

Lemma batches_snoc s uss us : batches s (uss ++ [us]) = batches s uss ++ [(s + Z.of_nat (length (concat uss)), us)].
Proof.
  revert s. induction uss as [|u uss IH]; intros s; simpl; [now rewrite Z.add_0_r|]. now rewrite IH, length_app, Nat2Z.inj_add, Z.add_assoc.
Qed.

Lemma length_number s us : length (number s us) = length us.
Proof. revert s. induction us as [|[] us IH]; intros s; cbn [number length]; auto. Qed.

Lemma history_count s uss : length (history_entries (batches s uss)) = length (concat uss).
Proof.
  revert s. induction uss as [|us uss IH]; intros s; [done|]. change (history_entries (batches s (us :: uss))) with (number s us ++ history_entries (batches (s + Z.of_nat (length us)) uss)).
  cbn [concat]. rewrite !length_app, IH, length_number. done.
Qed.

(** ** The turn of a writer *)

Section Durable.
Context {E W R : Type} {EV : FileEnv E W R} {SR : SequentialFile R} {SL : SequentialFileLaws R} {EL : FileEnvLaws E W R}.
Context {C : Comparator} {valid : list Z -> Prop} {CL : ComparatorLaws C valid}.
Context (valid_bytes : forall k, valid k -> is_bytes k) (valid_short : forall k, valid k -> Z.of_nat (length k) + 8 < 2 ^ 32).
Notation DB := (DBState E W).

Definition call_ok (c : call) : Prop :=
  LvWriteBatch.built (c_batch c) (c_updates c) /\ Forall (fun w => writer_is w.1 w.2) (c_others c) /\
  Forall (update_valid (valid := valid)) (call_updates c) /\ Z.of_nat (length (call_updates c)) < 2 ^ 31.

(** What is in the file of the log. *)
Definition log_contents (db : DB) : list Z := fs_data (vs_env (ds_vs db)) (fs_handle (Writer.dest_ (ds_log db))).

(** The state after the groups [uss], the first of which got the number [s]:
    they are what the log and the memtable hold. *)
Record holds (s : Z) (uss : list (list update)) (l : list (list LvLogProps.item)) (db : DB) : Prop := {
  hd_last : last_sequence (ds_vs db) = s + Z.of_nat (length (concat uss)) - 1;
  hd_tmp : ds_tmp db = Clear;
  hd_log : logged_to 0 (map batch_record (batches s uss)) l (Writer.block_offset_ (ds_log db));
  hd_data : log_contents db = enc_log l;
  hd_mem : mem_is (C := C) (valid := valid) (ds_mem db) (rev (history_entries (batches s uss)));
  hd_seq : forall a, In a (history_entries (batches s uss)) -> a_seq a < s + Z.of_nat (length (concat uss));
}.

Lemma valid_group c n : call_ok c -> Forall (update_valid (valid := valid)) (group_updates c n) /\ Z.of_nat (length (group_updates c n)) < 2 ^ 31.
Proof.
  intros (_ & _ & Hu & Hl). pose proof (group_updates_sub c n) as Hs. split; [|apply submseteq_length in Hs; lia].
  rewrite Forall_forall in Hu |- *. intros u Hin. apply Hu. eapply elem_of_submseteq; [exact Hin|exact Hs].
Qed.

(** The other files of a database, before and after writes. *)
Definition only_log (db db' : DB) : Prop :=
  fs_handle (Writer.dest_ (ds_log db')) = fs_handle (Writer.dest_ (ds_log db)) /\
  (forall n, fs_dir (vs_env (ds_vs db')) n = fs_dir (vs_env (ds_vs db)) n) /\
  (forall i, i <> fs_handle (Writer.dest_ (ds_log db)) -> fs_data (vs_env (ds_vs db')) i = fs_data (vs_env (ds_vs db)) i) /\
  ds_log_number db' = ds_log_number db /\ vs_dbname (ds_vs db') = vs_dbname (ds_vs db) /\
  ds_bg_error db' = ds_bg_error db /\ vs_current (ds_vs db') = vs_current (ds_vs db).

Lemma only_log_refl a : only_log a a.
Proof. done. Qed.

Lemma only_log_trans a b c : only_log a b -> only_log b c -> only_log a c.
Proof.
  intros (A1 & A2 & A3 & A4) (B1 & B2 & B3 & B4). split; [congruence|]. split; [intros n; now rewrite B2|]. split; [|intuition congruence].
  intros i Hi. rewrite B3 by congruence. now apply A3.
Qed.

Lemma write_group_ok s uss l db c : holds s uss l db -> call_ok c -> 1 <= s -> s + Z.of_nat (length (concat uss)) + Z.of_nat (length (call_updates c)) < 2 ^ 56 ->
  exists n items db', write_group C OK (c_sync c) (Some (c_batch c)) (map fst (c_others c)) db = Some (OK, n, db') /\
    (n <= length (c_others c))%nat /\ holds s (uss ++ [group_updates c n]) (l ++ [items]) db' /\ only_log db db'.
Proof.
  intros [H1 H2 H3 H4 H5 H6] Hc Hs Hlt. pose proof Hc as (Hb & Hw & Hu & Hlen). unfold write_group, BuildBatchGroup. cbn [ok]. rewrite H2.
  assert (Hcat : call_updates c = c_updates c ++ concat (map snd (c_others c))) by (unfold call_updates, group_updates; now rewrite take_ge by (rewrite length_map; lia)).
  destruct (built_is _ _ Hb) as [seq0 B0]; [rewrite Hcat, length_app in Hlen; lia|].
  destruct (group_loop_ok (c_batch c) seq0 (c_updates c) (c_sync c)
      (if ByteSize (c_batch c) <=? Z.shiftl 128 10 then wrapu 64 (ByteSize (c_batch c) + Z.shiftl 128 10) else Z.shiftl 1 20) B0
      (map fst (c_others c)) (map snd (c_others c)) (ByteSize (c_batch c)) (c_batch c) false (c_updates c) seq0) as (b & t & n & seq' & -> & Hn & B);
    [now apply Forall2_fmap, Forall_Forall2_diag|done|done|now rewrite <- Hcat|].
  rewrite length_map in Hn. fold (group_updates c n) in B. destruct (valid_group c n Hc) as [Hug Hlg]. set (us := group_updates c n) in *.
  assert (Hle : Z.of_nat (length us) <= Z.of_nat (length (call_updates c))) by (pose proof (submseteq_length _ _ (group_updates_sub c n)); fold us in H; lia).
  set (nx := s + Z.of_nat (length (concat uss))) in *. rewrite H1. replace (nx - 1 + 1) with nx by lia. rewrite (wrapu_small _ nx) by (zpow; lia).
  pose proof (batch_SetSequence b seq' us B nx) as Bx. rewrite (batch_count _ nx us Bx Hlg). rewrite wrapu_small by (zpow; lia).
  assert (Ebx : SetSequence b nx = batch_record (nx, us)) by exact Bx. unfold Contents. rewrite Ebx in *.
  destruct (log_record_ok (vs_env (ds_vs db)) (ds_log db) (batch_record (nx, us))) as (e1 & w1 & items & -> & HF & G1 & G2 & G3 & G4);
    [now apply (batch_record_bytes valid_bytes)|apply (logged_to_off _ _ _ _ H3); unfold kBlockSize; lia|]. cbn [ok andb].
  destruct (InsertInto_batch valid_bytes _ _ _ nx us H5 Bx Hug) as (m' & EI & Hm'); [lia|lia|done|intros a Ha; rewrite <- in_rev in Ha; now apply H6|].
  assert (HS : exists e2 f2, (if c_sync c then file_Sync e1 (Writer.dest_ w1) else (OK, (e1, Writer.dest_ w1))) = (OK, (e2, f2)) /\
    fs_handle f2 = fs_handle (Writer.dest_ w1) /\ (forall n, fs_dir e2 n = fs_dir e1 n) /\ (forall i, fs_data e2 i = fs_data e1 i)).
  { destruct (c_sync c); [|now exists e1, (Writer.dest_ w1)]. destruct (file_Sync_law e1 (Writer.dest_ w1)) as (e2 & f2 & ? & ? & ? & ?). now exists e2, f2. }
  destruct HS as (e2 & f2 & -> & S1 & S2 & S3). cbn [ok andb negb]. rewrite EI.
  eexists n, items, _. split; [reflexivity|]. split; [done|]. assert (Et : (if t then Clear else Clear) = Clear) by now destruct t.
  rewrite Et. split; [|split; [cbn; congruence|]; split; [intros k; cbn; now rewrite S2|]; split; [intros i Hi; cbn; rewrite S3; now apply G4|done]].
  assert (Hcount : s + Z.of_nat (length (concat (uss ++ [us]))) = nx + Z.of_nat (length us)) by (rewrite concat_app, length_app; simpl; rewrite app_nil_r; unfold nx; lia).
  fold us. constructor; rewrite ?Hcount, ?batches_snoc, ?entries_snoc; fold nx; cbn [ds_vs ds_tmp ds_log ds_mem last_sequence set_last_sequence Writer.block_offset_ fst snd]; try done.
  - lia.
  - rewrite map_app. cbn [map]. now apply logged_to_snoc with (Writer.block_offset_ (ds_log db)).
  - unfold log_contents in *. cbn. rewrite S1, S3, G1, G2, H4, enc_log_app. unfold enc_log at 3. simpl. now rewrite app_nil_r.
  - now rewrite rev_app_distr.
  - intros a Ha. apply in_app_or in Ha as [Ha|Ha]; [specialize (H6 a Ha); lia|]. apply number_seq in Ha. lia.
Qed.

(** ** Calls of [Write] one after the other *)

Context (write_buffer_size : Z) (memory_usage : MemTable -> Z) (background : DB -> DB).

(** How many others were in the group of each call; nothing if a call failed. *)
Fixpoint run_writes (db : DB) (calls : list call) : option (list nat * DB) :=
  match calls with
  | [] => Some ([], db)
  | c :: calls =>
      match DBImpl_Write C write_buffer_size memory_usage 1 background (c_sync c) (Some (c_batch c)) (map fst (c_others c)) db with
      | Some (OK, n, db) =>
          match run_writes db calls with
          | Some (ns, db) => Some (n :: ns, db)
          | None => None
          end
      | _ => None
      end
  end.

(** Writes need not wait, and the memtable is not full before any of the calls. *)
Definition ready (db : DB) : Prop := ds_bg_error db = OK /\ NumLevelFiles (ds_vs db) 0 < kL0_SlowdownWritesTrigger.
Definition roomy (db : DB) (calls : list call) : Prop :=
  forall k ns db', run_writes db (take k calls) = Some (ns, db') -> memory_usage (ds_mem db') <= write_buffer_size.

Lemma room_ok fuel force db : ready db -> memory_usage (ds_mem db) <= write_buffer_size ->
  MakeRoomForWrite write_buffer_size memory_usage (S fuel) background false force db = Some (OK, db).
Proof.
  intros [Hb Hl] Hm. cbn [MakeRoomForWrite]. rewrite Hb. cbn [ok negb andb]. rewrite (proj2 (Z.leb_gt _ _) Hl), andb_false_r. now rewrite (proj2 (Z.leb_le _ _) Hm).
Qed.

Lemma ready_only db db' : ready db -> only_log db db' -> ready db'.
Proof. intros [H1 H2] (_ & _ & _ & _ & _ & Hb & Hc). split; [congruence|]. unfold NumLevelFiles in *. now rewrite Hc. Qed.

Definition total (calls : list call) : Z := Z.of_nat (length (concat (map call_updates calls))).

Lemma run_writes_ok calls : forall s uss l db, holds s uss l db -> ready db -> Forall call_ok calls -> 1 <= s ->
  s + Z.of_nat (length (concat uss)) + total calls < 2 ^ 56 -> roomy db calls ->
  exists ns ls db', run_writes db calls = Some (ns, db') /\ length ns = length calls /\ length ls = length calls /\
    holds s (uss ++ zip_with group_updates calls ns) (l ++ ls) db' /\ only_log db db' /\
    (forall k ns' db', run_writes db (take k calls) = Some (ns', db') -> log_contents db' = enc_log (l ++ take k ls)).
Proof.
  induction calls as [|c calls IH]; intros s uss l db HH Hrdy Hok Hs Hlt Hroom.
  - exists [], [], db. cbn. rewrite !app_nil_r. split; [done|]. do 3 (split; [done|]). split; [apply only_log_refl|].
    intros k ns' db'. rewrite take_nil. intros [= <- <-]. rewrite take_nil, app_nil_r. apply (hd_data _ _ _ _ HH).
  - apply List.Forall_cons_iff in Hok as [Hc Hok]. unfold total in Hlt. cbn [map concat] in Hlt. rewrite length_app in Hlt. fold (total calls) in Hlt.
    assert (Hm : memory_usage (ds_mem db) <= write_buffer_size) by (apply (Hroom 0%nat [] db); done).
    destruct (write_group_ok s uss l db c HH Hc Hs) as (n & items & db1 & E1 & Hn & H1 & O1); [lia|].
    assert (EW : DBImpl_Write C write_buffer_size memory_usage 1 background (c_sync c) (Some (c_batch c)) (map fst (c_others c)) db = Some (OK, n, db1)).
    { unfold DBImpl_Write. cbn [negb]. now rewrite (room_ok 0) by done. }
    pose proof (submseteq_length _ _ (group_updates_sub c n)) as Hg.
    destruct (IH s (uss ++ [group_updates c n]) (l ++ [items]) db1 H1 (ready_only _ _ Hrdy O1) Hok Hs) as (ns & ls & db2 & E2 & L1 & L2 & H2 & O2 & K2).
    { rewrite concat_app, length_app. simpl. rewrite app_nil_r. unfold total in *. lia. }
    { intros k ns db' E2. apply (Hroom (S k) (n :: ns) db'). cbn [take run_writes]. now rewrite EW, E2. }
    exists (n :: ns), (items :: ls), db2. cbn [run_writes]. rewrite EW, E2. split; [done|]. split; [simpl; lia|]. split; [simpl; lia|].
    split; [cbn [zip_with]; now rewrite <- !app_assoc in H2|]. split; [now apply (only_log_trans _ db1)|].
    intros [|k] ns' db'; cbn [take run_writes].
    + intros [= <- <-]. rewrite app_nil_r. apply (hd_data _ _ _ _ HH).
    + rewrite EW. destruct (run_writes db1 (take k calls)) as [[ns1 db1']|] eqn:E3; [|done]. intros [= <- <-]. apply K2 in E3. now rewrite <- app_assoc in E3.
Qed.

(** A new log, and an empty memtable. *)
Lemma switch_memtable_ok db : ds_tmp db = Clear -> ready db ->
  exists db', switch_memtable db = (OK, db') /\ holds (last_sequence (ds_vs db) + 1) [] [] db' /\ ready db' /\ ds_imm db' = Some (ds_mem db) /\
    vs_dbname (ds_vs db') = vs_dbname (ds_vs db) /\
    fs_dir (vs_env (ds_vs db')) (LogFileName (vs_dbname (ds_vs db)) (ds_log_number db')) = Some (fs_handle (Writer.dest_ (ds_log db'))).
Proof.
  intros Ht [Hb Hl]. unfold switch_memtable, NewFileNumber. cbn [vs_env vs_dbname set_next_file].
  destruct (NewWritableFile_law (vs_env (ds_vs db)) (LogFileName (vs_dbname (ds_vs db)) (next_file_number (ds_vs db)))) as (w & e' & -> & D1 & D2 & _).
  cbn [ok]. eexists. split; [reflexivity|]. split; [|done]. constructor; cbn; try done; [lia|constructor|apply make_mem_is].
Qed.

Lemma batches_history s uss : Forall (fun us => Forall (update_valid (valid := valid)) us /\ Z.of_nat (length us) < 2 ^ 31) uss ->
  history valid s (batches s uss) (s + Z.of_nat (length (concat uss))).
Proof.
  intros H. revert s. induction H as [|us uss [H1 H2] _ IH]; intros s; cbn [batches concat]; [rewrite Z.add_0_r; constructor|].
  rewrite length_app, Nat2Z.inj_add, Z.add_assoc. now constructor.
Qed.

Lemma groups_valid calls ns : Forall call_ok calls -> Forall (fun us => Forall (update_valid (valid := valid)) us /\ Z.of_nat (length us) < 2 ^ 31) (zip_with group_updates calls ns).
Proof.
  intros H. revert ns. induction H as [|c calls Hc _ IH]; intros [|n ns]; cbn [zip_with]; try constructor; [now apply valid_group|apply IH].
Qed.

Lemma groups_total calls ns : Z.of_nat (length (concat (zip_with group_updates calls ns))) <= total calls.
Proof.
  unfold total. revert ns. induction calls as [|c calls IH]; intros [|n ns]; cbn [zip_with map concat]; try (simpl; lia).
  rewrite !length_app. specialize (IH ns). pose proof (submseteq_length _ _ (group_updates_sub c n)). lia.
Qed.
End Durable.

(** ** A crash, and the replay *)

Section Crash.
Context {E W R : Type} {EV : FileEnv E W R} {SR : SequentialFile R} {SL : SequentialFileLaws R} {EL : FileEnvLaws E W R}.
Context {C : Comparator} {valid : list Z -> Prop} {CL : ComparatorLaws C valid}.
Context (valid_bytes : forall k, valid k -> is_bytes k) (valid_short : forall k, valid k -> Z.of_nat (length k) + 8 < 2 ^ 32).
Context (options : Options) (max_file_size write_buffer_size : Z) (memory_usage : MemTable -> Z) (background : DBState E W -> DBState E W).
Context (table_status : E -> Z -> Z -> Status) (dbname : list Z).
Hypothesis table_opens : forall e number l, table_entries_ok (C := C) (valid := valid) options l -> table_at (C := C) options dbname e number l ->
  table_status e number (Z.of_nat (length (image (C := C) options l))) = OK.
Notation run := (run_writes (C := C) write_buffer_size memory_usage background).

(** The log of [db] is found again with its first [n] bytes, whatever else
    the file system holds. *)
Definition cut_log (n : nat) (db : DBState E W) (vs : VersionSet E W) : Prop :=
  exists i, fs_dir (vs_env vs) (LogFileName (vs_dbname vs) (ds_log_number db)) = Some i /\ fs_data (vs_env vs) i = take n (log_contents db).

(** C3: Writes survive a crash, whole groups of them and in order.  After a
    switch to a new memtable and log, let any number of calls of DBImpl::Write
    follow, each with other writers in the queue, while the memtable is not
    full.  Every call succeeds; the memtable holds the updates of the groups
    that BuildBatchGroup has put together, and the last sequence number counts
    them.  If the process then stops and only the first n bytes of the log are
    found again, DBImpl::RecoverLogFile succeeds: the tables that it adds to
    level 0 hold exactly the updates of the first j groups, with the same
    sequence numbers, older ones in older tables; the largest sequence number
    is theirs; no other file changes; and a call is among the first j just if
    all of the log that it had written lies within the n bytes, so no call is
    lost whose log data had reached the disk. *)
Theorem writes_survive_crash db0 calls : vs_dbname (ds_vs db0) = dbname -> ds_tmp db0 = Clear -> ready db0 ->
  0 <= last_sequence (ds_vs db0) -> last_sequence (ds_vs db0) + 1 + total calls < 2 ^ 56 -> Forall (call_ok (valid := valid)) calls ->
  exists db, switch_memtable db0 = (OK, db) /\ (roomy (C := C) write_buffer_size memory_usage background db calls ->
  exists ns db', run db calls = Some (ns, db') /\ length ns = length calls /\
    let bs := batches (last_sequence (ds_vs db0) + 1) (zip_with group_updates calls ns) in
    mem_is (C := C) (valid := valid) (ds_mem db') (rev (history_entries bs)) /\
    last_sequence (ds_vs db') = last_sequence (ds_vs db0) + Z.of_nat (length (history_entries bs)) /\
    forall n vs reuse_logs last_log save edit max fuel rfuel mfuel,
      vs_dbname vs = dbname -> cut_log n db' vs -> reuse_logs && last_log = false ->
      0 <= next_file_number vs -> next_file_number vs + Z.of_nat (length calls) + 1 < 2 ^ 64 ->
      (forall l, l ⊆+ history_entries bs -> fits (C := C) (valid := valid) options l) ->
      (length calls < fuel)%nat -> (n < rfuel)%nat -> (length (history_entries bs) < mfuel)%nat ->
      exists j files st,
        RecoverLogFile C options max_file_size reuse_logs write_buffer_size memory_usage table_status fuel rfuel mfuel
          (ds_log_number db') last_log save edit max vs = Some (st, None) /\
        replay_of (C := C) (valid := valid) options dbname vs edit max (take j bs) files st /\
        forall k ns' db'', (k <= length calls)%nat -> run db (take k calls) = Some (ns', db'') ->
          (k <= j)%nat <-> (length (log_contents db'') <= n)%nat).
Proof.
  intros Hdb Ht Hrdy H0 Hlt Hok. destruct (switch_memtable_ok (C := C) (valid := valid) db0 Ht Hrdy) as (db & E1 & HH & Hr1 & _ & D1 & D2).
  exists db. split; [done|]. intros Hroom.
  destruct (run_writes_ok valid_bytes write_buffer_size memory_usage background calls _ [] [] db HH Hr1 Hok) as (ns & ls & db' & E2 & L1 & L2 & H2 & O2 & K2);
    [lia|simpl; lia|done|]. cbn [app] in H2, K2. exists ns, db'. split; [done|]. split; [done|].
  set (uss := zip_with group_updates calls ns) in *. set (s := last_sequence (ds_vs db0) + 1) in *. intros bs. destruct H2 as [I1 I2 I3 I4 I5 I6].
  pose proof (batches_history (valid := valid) s uss (groups_valid calls ns Hok)) as Hist.
  pose proof (groups_total calls ns) as Htot. fold uss in Htot.
  assert (Hbs : length bs = length calls) by (unfold bs, uss; rewrite length_batches, length_zip_with; lia).
  split; [done|]. split; [rewrite I1; unfold bs; rewrite history_count; unfold s; lia|].
  intros n vs reuse_logs last_log save edit max fuel rfuel mfuel Hvs (i & Hi1 & Hi2) Hreuse Hn0 Hn Hfit Hf Hrf Hmf. rewrite Hvs in Hi1. rewrite I4 in Hi2.
  destruct (RecoverLogFile_ok valid_bytes valid_short options max_file_size write_buffer_size memory_usage table_status dbname table_opens reuse_logs fuel rfuel mfuel
    (ds_log_number db') last_log save vs edit max s _ bs ls n i Hvs Hreuse Hist) as (j & files & st & ER & HC & HR);
    [unfold s; lia|unfold s in *; lia|done|rewrite Hbs; done|done|done|now apply (logged_to_logged _ _ _ _ I3)|done|done|lia|done|].
  exists j, files, st. split; [done|]. split; [done|]. intros k ns' db'' Hk Ek. rewrite (K2 _ _ _ Ek). apply complete_iff; [done|lia].
Qed.
End Crash.

(** ** Two calls, with another writer in the queue of the first *)

Module CrashExample.
Definition db : list Z := str "db".
Definition options : Options := MkOptions 30 2 kNoCompression None true.
Notation short_bytes := ScanExample.short_bytes.

(** A table opens if Table::Open accepts its file. *)
Definition table_status (e : MemFs.fs) (number size : Z) : Status :=
  match MemFs.dir e !! TableFileName db number with
  | None => NotFound ""
  | Some i =>
      match Open (K := gmap (list Z) Block * Z) options (MemFile (default [] (MemFs.data e !! i))) size None with
      | Some (s, _, _) => s
      | None => Corruption ""
      end
  end.

Lemma table_setting : lookup_setting (InternalKeyComparator BytewiseComparator) (kvalid short_bytes) options
  (fun k k' => kvalid short_bytes k /\ kvalid short_bytes k' /\ same_user BytewiseComparator k k') (fun _ => True).
Proof.
  destruct (internal_setting BytewiseComparator short_bytes options (BloomFilterPolicy 10) few_keys (bloom_laws 10 ltac:(lia))) as [S1 S2 S3 S4 S5]; [|vm_compute; discriminate|now left|].
  - intros k k' f _ _ Hc. simpl in Hc. rewrite slice_compare_lex in Hc. now rewrite (lex_eq _ _ Hc).
  - split; done.
Qed.

Lemma entries_table l : entries_ok (C := BytewiseComparator) (valid := short_bytes) l ->
  table_entries (InternalKeyComparator BytewiseComparator) (kvalid short_bytes) (fun _ => True) (map entry_pair l).
Proof.
  intros [Hv Hs]. rewrite List.Forall_forall in Hv. split; [|apply Forall_forall..|done].
  - clear Hv. induction Hs as [|a l Hs IH Ha]; constructor; [done|]. apply Forall_forall.
    intros e He. apply list_elem_of_fmap in He as (b & -> & Hb). rewrite Forall_forall in Ha. now apply Ha.
  - intros e He. apply list_elem_of_fmap in He as (a & -> & Ha%list_elem_of_In). destruct (Hv a Ha) as [Oa Va]. apply kvalid_Put; [now intros k []|done|now apply tag_range].
  - intros e He. apply list_elem_of_fmap in He as (a & -> & Ha%list_elem_of_In). destruct (Hv a Ha) as [(_ & _ & Hb & _) _]. done.
Qed.

Lemma table_opens e number l : table_entries_ok (C := BytewiseComparator) (valid := short_bytes) options l ->
  table_at (C := BytewiseComparator) (E := MemFs.fs) options db e number l ->
  table_status e number (Z.of_nat (length (image (C := BytewiseComparator) options l))) = OK.
Proof.
  intros (H1 & _ & H3) Hat. assert (Hi : exists i : nat, MemFs.dir e !! TableFileName db number = Some i /\
    default [] (MemFs.data e !! i) = image (C := BytewiseComparator) options l) by exact Hat.
  destruct Hi as (i & Hi & Hd). unfold table_status. rewrite Hi, Hd.
  destruct (table_lookups (W := mem_file) (F := mem_file) (K := gmap (list Z) Block * Z) _ _ (L := kvalid_laws BytewiseComparator short_bytes (fun _ H => proj1 H))
    options _ _ (map entry_pair l) (MemFile []) (MemFile (image (C := BytewiseComparator) options l)) None table_setting (entries_table l H1)) as (t & c & Eo & _);
    [done|reflexivity|exact H3|].
  change (ra_contents (MemFile (image (C := BytewiseComparator) options l))) with (image (C := BytewiseComparator) options l) in Eo. now rewrite Eo.
Qed.

(** The size of a table of any of the entries in any order. *)
Lemma small_fits L : forallb (fun p => forallb (fun m => Z.of_nat (length (image (C := BytewiseComparator) options (take m p))) <? 2 ^ 32) (seq 0 (S (length L)))) (permutations L) = true ->
  forall l, l ⊆+ L -> fits (C := BytewiseComparator) (valid := short_bytes) options l.
Proof.
  intros H l Hl l' HP _. apply submseteq_Permutation in Hl as (k & HL). rewrite HP in HL.
  rewrite forallb_forall in H. specialize (H (l' ++ k)). rewrite <- list_elem_of_In, permutations_Permutation in H. specialize (H HL).
  rewrite forallb_forall in H. specialize (H (length l')). rewrite take_app_length in H. apply Z.ltb_lt, H, in_seq.
  apply Permutation_length in HL. rewrite length_app in HL. lia.
Qed.

Definition version_set (e : MemFs.fs) : VersionSet MemFs.fs nat := set_next_file (make_VersionSet e db) 5.
Definition start : DBState MemFs.fs nat :=
  MkDBState (version_set (MemFs.MkFs ∅ ∅)) make_MemTable None (LvLog.Writer.make_Writer 0%nat) 3 OK Clear.
Definition calls : list call :=
  [MkCall true (Put Clear [1] [10]) [UPut [1] [10]] [(MkWriter (Some (Delete Clear [2])) false, [UDelete [2]])];
   MkCall false (Put Clear [1] [11]) [UPut [1] [11]] []].
Notation run := (run_writes (C := BytewiseComparator) (E := MemFs.fs) (W := nat) 4096 (fun _ => 100) (fun db => db)).
Definition opened : DBState MemFs.fs nat := (switch_memtable start).2.

Lemma calls_ok : Forall (call_ok (valid := short_bytes)) calls.
Proof.
  assert (Hk : short_bytes [1] /\ short_bytes [2]) by (destruct ScanExample.short_keys as (? & ? & _); done). destruct Hk as [H1 H2].
  assert (B1 : forall v, LvWriteBatch.built (Put Clear [1] v) [UPut [1] v]) by (intros v; apply (built_Put _ []), built_Clear).
  assert (B2 : LvWriteBatch.built (Delete Clear [2]) [UDelete [2]]) by apply (built_Delete _ []), built_Clear.
  assert (V1 : forall v, is_byte v -> update_valid (valid := short_bytes) (UPut [1] [v])) by (intros v Hv; cbn; repeat split; try apply H1; repeat constructor; try apply Hv; lia).
  assert (V2 : update_valid (valid := short_bytes) (UDelete [2])) by (cbn; repeat split; try apply H2; lia).
  constructor; [|constructor; [|constructor]]; (split; [apply B1|]); cbn [c_others c_updates call_updates group_updates length map take concat app];
    (split; [|split; [|cbn; lia]]); repeat (first [apply B2 | apply V1; unfold is_byte; lia | apply V2 | constructor]).
Qed.

(** The file system after the crash: the first [n] bytes of the log. *)
Definition found (n : nat) (d : DBState MemFs.fs nat) : VersionSet MemFs.fs nat :=
  version_set (MemFs.MkFs {[LogFileName db (ds_log_number d) := 0%nat]} {[0%nat := take n (log_contents d)]}).

Lemma found_log n d : cut_log n d (found n d).
Proof.
  exists 0%nat. split; [exact (lookup_singleton_eq (M := gmap (list Z)) _ _)|].
  change (default [] (({[0%nat := take n (log_contents d)]} : gmap nat (list Z)) !! 0%nat) = take n (log_contents d)). now rewrite lookup_singleton_eq.
Qed.
End CrashExample.

Lemma writes_survive_crash_witness :
  exists ns d j files st, run_writes (C := BytewiseComparator) 4096 (fun _ => 100) (fun db => db) CrashExample.opened CrashExample.calls = Some (ns, d) /\
    RecoverLogFile BytewiseComparator CrashExample.options 2097152 false 4096 (fun _ => 100) CrashExample.table_status 3 41 4
      (ds_log_number d) true false make_VersionEdit 0 (CrashExample.found 40 d) = Some (st, None) /\
    replay_of (C := BytewiseComparator) (valid := ScanExample.short_bytes) CrashExample.options CrashExample.db (CrashExample.found 40 d) make_VersionEdit 0
      (take j (batches 1 (zip_with group_updates CrashExample.calls ns))) files st /\ j = 1%nat.
Proof.
  destruct (writes_survive_crash (C := BytewiseComparator) (valid := ScanExample.short_bytes) (fun _ H => proj1 H) (fun _ H => proj2 H) CrashExample.options 2097152 4096
    (fun _ => 100) (fun db => db) CrashExample.table_status CrashExample.db CrashExample.table_opens CrashExample.start CrashExample.calls) as (d0 & E0 & H);
    [reflexivity|reflexivity|split; [reflexivity|vm_compute; reflexivity]|vm_compute; discriminate|vm_compute; reflexivity|exact CrashExample.calls_ok|].
  assert (Ed : d0 = CrashExample.opened) by (unfold CrashExample.opened; now rewrite E0). subst d0.
  destruct H as (ns & d & Er & Hlen & Hmem & Hseq & H); [intros k ns d _; lia|].
  assert (Ens : ns = [1; 0]%nat).
  { assert (Ev : option_map fst (run_writes (C := BytewiseComparator) 4096 (fun _ => 100) (fun db => db) CrashExample.opened CrashExample.calls) = Some [1; 0]%nat) by (vm_compute; reflexivity).
    rewrite Er in Ev. now injection Ev. }
  subst ns.
  destruct (H 40%nat (CrashExample.found 40 d) false true false make_VersionEdit 0 3%nat 41%nat 4%nat) as (j & files & st & E1 & HR & Hj);
    [reflexivity|apply CrashExample.found_log|reflexivity|vm_compute; discriminate|vm_compute; reflexivity|apply CrashExample.small_fits; vm_compute; reflexivity|simpl; lia|lia|vm_compute; lia|].
  exists [1; 0]%nat, d, j, files, st. split; [exact Er|]. split; [exact E1|]. split; [exact HR|].
  assert (Hsize : forall k size, option_map (fun p => length (log_contents p.2)) (run_writes (C := BytewiseComparator) 4096 (fun _ => 100) (fun db => db) CrashExample.opened
      (take k CrashExample.calls)) = Some size -> (k <= 2)%nat -> (k <= j)%nat <-> (size <= 40)%nat).
  { intros k size Es Hk. destruct (run_writes _ _ _ _ (take k CrashExample.calls)) as [[ns' d']|] eqn:Ek; [|discriminate Es]. injection Es as <-. now apply (Hj k ns' d' Hk). }
  pose proof (Hsize 1%nat 27%nat ltac:(vm_compute; reflexivity)). pose proof (Hsize 2%nat 51%nat ltac:(vm_compute; reflexivity)). lia.
Defined.

(** The same, computed: with 40 bytes of the log one table of the two updates of
    the first group; with all of it one with the three updates; with one byte
    less, again those of the first group; without a byte nothing. *)
Example crash_replays :
  match run_writes (C := BytewiseComparator) 4096 (fun _ => 100) (fun db => db) CrashExample.opened CrashExample.calls with
  | Some (_, d) =>
      map (fun n => match RecoverLogFile BytewiseComparator CrashExample.options 2097152 false 4096 (fun _ => 100) CrashExample.table_status 3 99 4
                            (ds_log_number d) true false make_VersionEdit 0 (CrashExample.found n d) with
                    | Some (st, None) => Some (lr_status st, lr_max st, map (fun p => (p.1, f_number p.2, ExtractUserKey (f_smallest p.2), ExtractUserKey (f_largest p.2))) (new_files_ (lr_edit st)))
                    | _ => None
                    end) [40; 51; 50; 0]%nat
      = [Some (OK, 2, [(0, 5, [1], [2])]); Some (OK, 3, [(0, 5, [1], [2])]); Some (OK, 2, [(0, 5, [1], [2])]); Some (OK, 0, [])]
  | None => False
  end.
Proof. vm_compute. reflexivity. Qed.

(** ** Waiting writers, and logs that fail *)

(** ** Room for a write *)

Section Room.
Context {E W R : Type} {EV : FileEnv E W R} {SR : SequentialFile R} {SL : SequentialFileLaws R} {EL : FileEnvLaws E W R}.
Context (write_buffer_size : Z) (memory_usage : MemTable -> Z).
Notation DB := (DBState E W).

(** The states in which [MakeRoomForWrite] waits for a signal. *)
Definition must_wait (db : DB) : Prop := ds_imm db <> None \/ kL0_StopWritesTrigger <= NumLevelFiles (ds_vs db) 0.

(** What the other threads do while the mutex is released: they keep the
    memtable, report no error, and have less work left each time that a writer
    has to wait. *)
Record progress (background : DB -> DB) (pending : DB -> nat) : Prop := {
  pg_mem db : ds_mem (background db) = ds_mem db;
  pg_error db : ds_bg_error db = OK -> ds_bg_error (background db) = OK;
  pg_sequence db : last_sequence (ds_vs (background db)) = last_sequence (ds_vs db);
  pg_le db : (pending (background db) <= pending db)%nat;
  pg_lt db : must_wait db -> (pending (background db) < pending db)%nat;
}.

(** Either there is room in the memtable, or it waits to be written and the
    new one is empty, with a new log. *)
Definition room_in (mem : MemTable) (force : bool) (db : DB) : Prop :=
  ds_mem db = mem /\ force = false /\ memory_usage mem <= write_buffer_size \/
  ds_mem db = Ref make_MemTable /\ ds_imm db = Some mem /\ LvLog.Writer.block_offset_ (ds_log db) = 0 /\
    fs_dir (vs_env (ds_vs db)) (LogFileName (vs_dbname (ds_vs db)) (ds_log_number db)) = Some (fs_handle (LvLog.Writer.dest_ (ds_log db))) /\
    fs_data (vs_env (ds_vs db)) (fs_handle (LvLog.Writer.dest_ (ds_log db))) = [].

Lemma switch_memtable_room db : exists db', switch_memtable db = (OK, db') /\ room_in (ds_mem db) true db' /\
  ds_bg_error db' = ds_bg_error db /\ vs_current (ds_vs db') = vs_current (ds_vs db) /\ last_sequence (ds_vs db') = last_sequence (ds_vs db) /\ ds_mem db' = Ref make_MemTable.
Proof.
  unfold switch_memtable, NewFileNumber. cbn [vs_env vs_dbname set_next_file].
  destruct (NewWritableFile_law (vs_env (ds_vs db)) (LogFileName (vs_dbname (ds_vs db)) (next_file_number (ds_vs db)))) as (w & e' & -> & D1 & D2 & _).
  cbn [ok]. eexists. split; [reflexivity|]. split; [right; done|done].
Qed.

(** C9: A writer does not wait for ever.  While the other threads make
    progress whenever a writer has to wait, and an empty memtable is not full,
    DBImpl::MakeRoomForWrite returns after at most as many rounds as there is
    work left, and three more.  It returns without an error, and then there is
    room: in the memtable as it was, unless the call was to switch, or in an empty
    one with a new, empty log, and the old one is kept to be written to a
    table. *)
Theorem room_is_made background pending fuel force allow_delay db : progress background pending -> ds_bg_error db = OK ->
  memory_usage (Ref make_MemTable) <= write_buffer_size -> (pending db + 3 <= fuel)%nat ->
  exists db', MakeRoomForWrite write_buffer_size memory_usage fuel background force allow_delay db = Some (OK, db') /\
    room_in (ds_mem db) force db' /\ ds_bg_error db' = OK /\ last_sequence (ds_vs db') = last_sequence (ds_vs db).
Proof.
  intros P Hb Hempty Hf. assert (Hf' : (pending db + (if allow_delay then 1 else 0) + 2 <= fuel)%nat) by (destruct allow_delay; lia). clear Hf.
  revert allow_delay db Hb Hf'. induction fuel as [|fuel IH]; intros allow_delay db Hb Hf; [lia|]. cbn [MakeRoomForWrite]. rewrite Hb. cbn [ok negb].
  pose proof (pg_le _ _ P db) as Hle. pose proof (pg_error _ _ P db Hb) as Hb'.
  destruct (allow_delay && (kL0_SlowdownWritesTrigger <=? NumLevelFiles (ds_vs db) 0)) eqn:Hslow.
  { apply andb_prop in Hslow as [-> _]. destruct (IH false (background db) Hb') as (db' & H1 & H2 & H3 & H4); [lia|]. exists db'.
    rewrite (pg_mem _ _ P) in H2. rewrite (pg_sequence _ _ P) in H4. done. }
  destruct (negb force && (memory_usage (ds_mem db) <=? write_buffer_size)) eqn:Hroom.
  { apply andb_prop in Hroom as [Hfo Hm]. apply negb_true_iff in Hfo. apply Z.leb_le in Hm. exists db. split; [done|]. split; [now left|done]. }
  destruct (_ || _) eqn:Hwait.
  - assert (Hw : must_wait db).
    { apply orb_prop in Hwait as [Hw|Hw]; [left; now destruct (ds_imm db)|right; now apply Z.leb_le]. }
    pose proof (pg_lt _ _ P db Hw). destruct (IH allow_delay (background db) Hb') as (db' & H1 & H2 & H3 & H4); [destruct allow_delay; lia|]. exists db'.
    rewrite (pg_mem _ _ P) in H2. rewrite (pg_sequence _ _ P) in H4. done.
  - destruct (switch_memtable_room db) as (db1 & -> & R1 & B1 & V1 & L1 & M1). cbn [ok negb]. destruct fuel as [|fuel]; [lia|].
    cbn [MakeRoomForWrite]. rewrite B1, Hb. cbn [ok negb]. unfold NumLevelFiles in Hslow |- *. rewrite V1, Hslow, M1. rewrite (proj2 (Z.leb_le _ _) Hempty). cbn [andb].
    exists db1. split; [done|]. split; [|split; [congruence|done]]. destruct R1 as [(_ & ? & _)|R1]; [done|now right].
Qed.
End Room.

(** ** A log that cannot be synced *)

Section SyncError.
Context {E W R : Type} {EV : FileEnv E W R} (C : Comparator) (write_buffer_size : Z) (memory_usage : MemTable -> Z).

(** C16: A log that could not be synced stops the database.  A call of
    DBImpl::Write with the sync option has added its record to the log, and the
    file could not be synced, so that nobody knows what is in it.  Then all
    writers of the group get that error, nothing is inserted into the memtable,
    and every later call of Write, with any batch and any other writers, fails at
    once with the same error and changes nothing, so a record never follows one
    that may be missing. *)
Theorem failed_sync_stops_writes (db : DBState E W) first writers batch in_tmp n e1 log s e2 f2 :
  BuildBatchGroup first (ds_tmp db) true writers = (batch, in_tmp, n) ->
  log_record (vs_env (ds_vs db)) (ds_log db) (Contents (SetSequence batch (wrapu 64 (last_sequence (ds_vs db) + 1)))) = Some (OK, e1, log) ->
  file_Sync e1 (LvLog.Writer.dest_ log) = (s, (e2, f2)) -> s <> OK -> ds_bg_error db = OK ->
  exists db', write_group C OK true (Some first) writers db = Some (s, n, db') /\ ds_mem db' = ds_mem db /\ ds_imm db' = ds_imm db /\
    vs_current (ds_vs db') = vs_current (ds_vs db) /\
    forall fuel background sync updates others,
      DBImpl_Write C write_buffer_size memory_usage (S fuel) background sync updates others db' = Some (s, 0%nat, db').
Proof.
  intros EB EL ES Hs Hb. assert (Hok : ok s = false) by now destruct s. unfold write_group. cbn [ok]. rewrite EB, EL. cbn [ok andb]. rewrite ES, Hok. cbn [negb].
  eexists. split; [reflexivity|]. do 3 (split; [done|]). intros fuel background sync updates others. unfold DBImpl_Write.
  cbn [MakeRoomForWrite ds_bg_error]. rewrite Hb. unfold RecordBackgroundError. cbn [ok]. rewrite Hok. cbn [negb]. unfold write_group. now rewrite Hok.
Qed.
End SyncError.

(** ** Examples *)

Module RoomExample.
Definition db : list Z := str "db".
Definition file (n : Z) : FileMetaData := MkFile n 100 (make_InternalKey [n] 5 kTypeValue) (make_InternalKey [n] 5 kTypeValue) (Z.shiftl 1 30).
Definition with_level0 (l : list FileMetaData) (v : Version) : Version :=
  MkVersion (<[0%nat := l]> (files_ v)) (file_to_compact_ v) (file_to_compact_level_ v) (compaction_score_ v) (compaction_level_ v).
Definition version : Version := with_level0 (map file [1; 2; 3; 4; 5; 6; 7; 8; 9; 10; 11; 12; 13]) make_Version.

Definition set_current (v : Version) (vs : VersionSet MemFs.fs nat) : VersionSet MemFs.fs nat :=
  MkVersionSet (vs_env vs) (vs_dbname vs) (next_file_number vs) (manifest_file_number vs) (last_sequence vs) (log_number vs)
    (prev_log_number vs) (vs_log vs) v (vs_pointers vs).

(** Thirteen files in level 0, and a memtable that waits already. *)
Definition start : DBState MemFs.fs nat :=
  MkDBState (set_current version (set_next_file (make_VersionSet (MemFs.MkFs ∅ ∅) db) 20)) make_MemTable (Some make_MemTable)
    (LvLog.Writer.make_Writer 0%nat) 15 OK Clear.

(** The background work writes the memtable that waits, or else moves a file of
    level 0 away. *)
Definition background (d : DBState MemFs.fs nat) : DBState MemFs.fs nat :=
  match ds_imm d with
  | Some _ => MkDBState (ds_vs d) (ds_mem d) None (ds_log d) (ds_log_number d) (ds_bg_error d) (ds_tmp d)
  | None =>
      MkDBState (set_current (with_level0 (tail (level_files (vs_current (ds_vs d)) 0)) (vs_current (ds_vs d))) (ds_vs d)) (ds_mem d) None (ds_log d)
        (ds_log_number d) (ds_bg_error d) (ds_tmp d)
  end.
Definition pending (d : DBState MemFs.fs nat) : nat :=
  (match ds_imm d with Some _ => 1 | None => 0 end) + length (level_files (vs_current (ds_vs d)) 0).

Lemma level0_tail v : length (level_files (with_level0 (tail (level_files v 0)) v) 0) = Nat.pred (length (level_files v 0)).
Proof. unfold level_files, with_level0. cbn [files_]. destruct (files_ v) as [|l ls]; [done|]. cbn. now destruct l. Qed.

Lemma background_progress : progress background pending.
Proof.
  split; intros d; unfold background, pending; destruct (ds_imm d) eqn:E; cbn [ds_mem ds_bg_error ds_vs ds_imm vs_current set_current last_sequence]; try done.
  - lia.
  - rewrite level0_tail. lia.
  - intros _. lia.
  - intros [H|H]; [now rewrite E in H|]. rewrite level0_tail. unfold NumLevelFiles, kL0_StopWritesTrigger in H.
    destruct (length (level_files (vs_current (ds_vs d)) 0)) as [|k]; [exfalso; vm_compute in H; now apply H|lia].
Qed.

(** A file system whose files cannot be synced. *)
Definition failing : FileEnv MemFs.fs nat mem_file := {|
  env_NewWritableFile := env_NewWritableFile; env_NewAppendableFile := env_NewAppendableFile; env_NewSequentialFile := env_NewSequentialFile;
  env_RemoveFile := env_RemoveFile; env_RenameFile := env_RenameFile; env_GetFileSize := env_GetFileSize; file_Append := file_Append (FileEnv := MemFs.env);
  file_Flush := file_Flush (FileEnv := MemFs.env); file_Sync := fun e i => (IOError "sync", (e, i)); file_Close := file_Close (FileEnv := MemFs.env);
|}.
End RoomExample.

Lemma room_is_made_witness :
  exists d, MakeRoomForWrite (EV := MemFs.env) 4096 (fun _ => 100) 17 RoomExample.background true false RoomExample.start = Some (OK, d) /\
    ds_imm d = Some make_MemTable /\ ds_bg_error d = OK.
Proof.
  destruct (room_is_made (EV := MemFs.env) 4096 (fun _ => 100) RoomExample.background RoomExample.pending 17 true false RoomExample.start RoomExample.background_progress) as (d & E & [(_ & H & _)|(_ & H & _)] & Hb & _);
    [reflexivity|lia|vm_compute; lia|discriminate H|]. exists d. split; [exact E|]. split; [exact H|exact Hb].
Defined.

Lemma failed_sync_stops_writes_witness :
  exists d, write_group (EV := RoomExample.failing) BytewiseComparator OK true (Some (Put Clear [1] [2])) [] RoomExample.start = Some (IOError "sync", 0%nat, d) /\
    DBImpl_Write (EV := RoomExample.failing) BytewiseComparator 4096 (fun _ => 100) 1 (fun d => d) false (Some (Put Clear [3] [4])) [] d = Some (IOError "sync", 0%nat, d).
Proof.
  destruct (log_record (EV := RoomExample.failing) (vs_env (ds_vs RoomExample.start)) (ds_log RoomExample.start)
    (Contents (SetSequence (Put Clear [1] [2]) (wrapu 64 (last_sequence (ds_vs RoomExample.start) + 1))))) as [[[s e1] log]|] eqn:EL; [|vm_compute in EL; discriminate EL].
  assert (Hs : s = OK) by (vm_compute in EL; now injection EL). subst s.
  destruct (failed_sync_stops_writes (EV := RoomExample.failing) BytewiseComparator 4096 (fun _ => 100) RoomExample.start (Put Clear [1] [2]) [] (Put Clear [1] [2]) false 0 e1 log
    (IOError "sync") e1 (LvLog.Writer.dest_ log)) as (d & E1 & _ & _ & _ & E2); [reflexivity|exact EL|reflexivity|discriminate|reflexivity|].
  exists d. split; [exact E1|]. apply (E2 0%nat).
Defined.
