(* ===== verification/LvOpenProps.v ===== *)
(** * leveldb: opening a database (theorems about LvDbWrite)

    Obsolete files are removed, and no others; the logs are replayed in their
    order. *)
From Stdlib Require Import ZArith Lia Bool String List Sorted Permutation.
From stdpp Require Import base list gmap numbers sorting.
From S2P Require Import Prelude LvCoding LvEnv LvLog LvLogProps LvComparator LvDbFormat LvWriteBatch LvMemTable LvMemTableProps LvTable LvTableRead LvFilename.
From S2P Require Import LvVersion LvVersionEdit LvBuilder LvManifest LvManifestProps LvRecovery LvTableCache LvDbIter LvVersionIter LvDbWrite LvReplay LvScan LvDurable.

(** ** Live files *)

Lemma fold_union {A} (step : gset Z -> A -> gset Z) (P : A -> Z -> Prop) :
  (forall X a n, n ∈ step X a <-> n ∈ X \/ P a n) -> forall l X n, n ∈ fold_left step l X <-> n ∈ X \/ exists a, a ∈ l /\ P a n.
Proof.
  intros H l. induction l as [|a l IH]; intros X n; cbn [fold_left]; [set_solver|]. rewrite IH, H. set_solver.
Qed.

(** A version lists a table. *)
Definition lists_table (v : Version) (number : Z) : Prop := exists level f, (level < kNumLevels)%nat /\ f ∈ level_files v level /\ f_number f = number.

Lemma in_live versions live n : n ∈ AddLiveFiles versions live <-> n ∈ live \/ exists v, v ∈ versions /\ lists_table v n.
Proof.
  unfold AddLiveFiles. apply (fold_union _ lists_table). intros X v m.
  rewrite (fold_union _ (fun level m => exists f, f ∈ level_files v level /\ f_number f = m)).
  - unfold lists_table. split; (intros [H|H]; [now left|right]).
    + destruct H as (level & Hl & f & Hf). exists level, f. split; [|done]. apply list_elem_of_In, in_seq in Hl. lia.
    + destruct H as (level & f & Hl & Hf). exists level. split; [apply list_elem_of_In, in_seq; lia|]. now exists f.
  - intros Y level k. rewrite (fold_union _ (fun f k => f_number f = k)); [done|]. intros Z0 f k0. set_solver.
Qed.

Section Obsolete.
Context {E W R : Type} {EV : FileEnv E W R} {SR : SequentialFile R} {SL : SequentialFileLaws R} {EL : FileEnvLaws E W R} {DE : DirEnv E}.
Notation VS := (VersionSet E W).

(** What the database can still need, by the number and the type of the file. *)
Definition needed (pending : gset Z) (versions : list Version) (vs : VS) (f : Z * FileType) : Prop :=
  match f.2 with
  | kLogFile => log_number vs <= f.1 \/ f.1 = prev_log_number vs
  | kDescriptorFile => manifest_file_number vs <= f.1
  | kTableFile | kTempFile => f.1 ∈ pending \/ exists v, v ∈ versions /\ lists_table v f.1
  | kCurrentFile | kDBLockFile | kInfoLogFile => True
  end.

Lemma keep_needed pending versions vs number type :
  keep_file (AddLiveFiles versions pending) vs number type = true <-> needed pending versions vs (number, type).
Proof.
  destruct type; cbn; try done; rewrite ?orb_true_iff, ?Z.leb_le, ?Z.eqb_eq; try done; rewrite bool_decide_eq_true; apply in_live.
Qed.

(** Files that are removed one after the other. *)
Lemma removed_dir (names : list (list Z)) (path : list Z -> list Z) e n :
  fs_dir (fold_left (fun e name => (env_RemoveFile e (path name)).2) names e) n =
    (if decide (n ∈ map path names) then None else fs_dir e n).
Proof.
  revert e. induction names as [|name names IH]; intros e; cbn [fold_left map]; [now rewrite decide_False by set_solver|].
  rewrite IH. destruct (decide (n ∈ map path names)) as [H|H]; [now rewrite decide_True by set_solver|].
  destruct (decide (n = path name)) as [->|Hne]; [rewrite RemoveFile_gone, decide_True by set_solver; done|].
  rewrite decide_False by set_solver. now apply RemoveFile_law.
Qed.

Lemma removed_data (names : list (list Z)) (path : list Z -> list Z) e i :
  fs_data (fold_left (fun e name => (env_RemoveFile e (path name)).2) names e) i = fs_data e i.
Proof.
  revert e. induction names as [|name names IH]; intros e; cbn [fold_left]; [done|]. rewrite IH. apply (RemoveFile_law e (path name)).
Qed.

Lemma path_inj (dbname a b : list Z) : dbname ++ str "/" ++ a = dbname ++ str "/" ++ b -> a = b.
Proof. intros H. now apply app_inv_head, app_inv_head in H. Qed.

Lemma obsolete_spec pending versions vs name : is_obsolete (AddLiveFiles versions pending) vs name = true <->
  exists f, ParseFileName name = Some f /\ ~ needed pending versions vs f.
Proof.
  unfold is_obsolete. destruct (ParseFileName name) as [[number type]|]; [|split; [done|now intros (f & ? & _)]].
  rewrite negb_true_iff, <- not_true_iff_false, keep_needed. split; [intros H; now exists (number, type)|now intros (f & [= <-] & H)].
Qed.

(** C8: Obsolete files are removed, and only they.  DBImpl::RemoveObsoleteFiles
    never touches a file that the database can still need: a table that is
    listed by the current version or by one that a reader holds, or is being
    written; a log from the log number of the version set on, or the previous
    one; the manifest and newer ones; CURRENT, the lock and the information
    logs; nor a file whose name is not one of a database.  The contents of files
    do not change.  After an error of the background work nothing is removed.
    Otherwise every other file that the directory lists under a name of a
    database is gone, and the tables evicted from the table cache are exactly
    those among them. *)
Theorem obsolete_files_removed bg_error pending versions vs :
  let '(vs', evicted) := RemoveObsoleteFiles bg_error pending versions vs in
  let path name := vs_dbname vs ++ str "/" ++ name in
  let children := (env_GetChildren (vs_env vs) (vs_dbname vs)).2 in
  (forall f, (forall n t, db_file_type f = (n, t) -> 0 <= n < 2 ^ 64) -> needed pending versions vs (db_file_type f) ->
    fs_dir (vs_env vs') (db_file_name (vs_dbname vs) f) = fs_dir (vs_env vs) (db_file_name (vs_dbname vs) f)) /\
  (forall name, ParseFileName name = None -> fs_dir (vs_env vs') (path name) = fs_dir (vs_env vs) (path name)) /\
  (forall i, fs_data (vs_env vs') i = fs_data (vs_env vs) i) /\
  (bg_error <> OK -> vs' = vs /\ evicted = []) /\
  (bg_error = OK -> forall name f, name ∈ children -> ParseFileName name = Some f -> ~ needed pending versions vs f -> fs_dir (vs_env vs') (path name) = None) /\
  (bg_error = OK -> forall number, number ∈ evicted <->
    exists name, name ∈ children /\ ParseFileName name = Some (number, kTableFile) /\ ~ needed pending versions vs (number, kTableFile)).
Proof.
  unfold RemoveObsoleteFiles. destruct (ok bg_error) eqn:Hok; cbn [negb]; [|destruct bg_error; [done|]; done].
  assert (bg_error = OK) as -> by now destruct bg_error. cbn [vs_env set_env].
  set (children := (env_GetChildren (vs_env vs) (vs_dbname vs)).2). set (del := List.filter _ children).
  assert (Hdel : forall name, name ∈ del <-> name ∈ children /\ exists f, ParseFileName name = Some f /\ ~ needed pending versions vs f).
  { intros name. unfold del. now rewrite !list_elem_of_In, filter_In, obsolete_spec. }
  assert (Hstay : forall name, (forall f, ParseFileName name = Some f -> needed pending versions vs f) ->
    ~ (vs_dbname vs ++ str "/" ++ name) ∈ map (fun name => vs_dbname vs ++ str "/" ++ name) del).
  { intros name Hn Hin. apply list_elem_of_fmap in Hin as (name' & Heq & Hd). apply path_inj in Heq as <-. apply Hdel in Hd as (_ & f & Hp & Hnn). apply Hnn, Hn, Hp. }
  split; [|split; [|split; [intros i; apply (removed_data del (fun name => vs_dbname vs ++ str "/" ++ name))|split; [done|split]]]].
  - intros f Hr Hn. rewrite (removed_dir del (fun name => vs_dbname vs ++ str "/" ++ name)). destruct (file_name_parses (vs_dbname vs) f Hr) as (rest & -> & Hp).
    rewrite decide_False; [done|]. apply Hstay. intros f' Hf'. congruence.
  - intros name Hp. rewrite (removed_dir del (fun name => vs_dbname vs ++ str "/" ++ name)), decide_False; [done|]. apply Hstay. congruence.
  - intros _ name f Hc Hp Hn. rewrite (removed_dir del (fun name => vs_dbname vs ++ str "/" ++ name)), decide_True; [done|].
    apply list_elem_of_fmap. exists name. split; [done|]. apply Hdel. split; [done|]. now exists f.
  - intros _ number. rewrite list_elem_of_omap. split.
    + intros (name & Hd & He). apply Hdel in Hd as (Hc & f & Hp & Hn). rewrite Hp in He. destruct f as [n []]; try done. injection He as ->. now exists name.
    + intros (name & Hc & Hp & Hn). exists name. rewrite Hp. split; [|done]. apply Hdel. split; [done|]. now exists (number, kTableFile).
Qed.
End Obsolete.

(** ** Several logs *)

(** A log: its number, the batches that were written to it, the records, and how
    many bytes of them were found. *)
Record log_file := MkLogFile { lf_number : Z; lf_batches : list (Z * list update); lf_items : list (list LvLogProps.item); lf_cut : nat }.

Definition recovered (lfs : list log_file) (js : list nat) : list (Z * list update) :=
  concat (zip_with (fun lf j => take j (lf_batches lf)) lfs js).

Lemma history_app valid s bs cs s' : history valid s (bs ++ cs) s' -> exists m, history valid s bs m /\ history valid m cs s'.
Proof.
  revert s. induction bs as [|b bs IH]; intros s H; [exists s; split; [constructor|done]|]. inversion H as [|s0 us bs0 s0' Hu Hl HH]; subst.
  destruct (IH _ HH) as (m & H1 & H2). exists m. split; [now constructor|done].
Qed.

Lemma history_seq valid s bs s' a : history valid s bs s' -> a ∈ history_entries bs -> s <= a_seq a < s'.
Proof.
  induction 1 as [s|s us bs s' Hu Hl HH IH]; intros Ha; [inversion Ha|]. pose proof (history_le _ _ _ _ HH).
  change (history_entries ((s, us) :: bs)) with (number s us ++ history_entries bs) in Ha. apply elem_of_app in Ha as [Ha|Ha]; [|specialize (IH Ha); lia].
  apply list_elem_of_In, number_seq in Ha. lia.
Qed.

Lemma entries_take j bs a : a ∈ history_entries (take j bs) -> a ∈ history_entries bs.
Proof. intros H. rewrite <- (take_drop j bs), history_entries_app. apply elem_of_app. now left. Qed.

Lemma history_max_app m bs cs : history_max m (bs ++ cs) = history_max (history_max m bs) cs.
Proof. unfold history_max. now rewrite fold_left_app. Qed.

(** ** The names of the directory *)

Section Children.
Context {E W : Type}.

(** The number of a name of a log that the manifest does not cover. *)
Definition uncovered_log (vs : VersionSet E W) (name : list Z) : option Z :=
  match ParseFileName name with
  | Some (number, kLogFile) => if (log_number vs <=? number) || (number =? prev_log_number vs) then Some number else None
  | _ => None
  end.

Definition number_of (name : list Z) : option Z := option_map fst (ParseFileName name).

Lemma scan_children_ok vs names logs expected :
  scan_children (log_number vs) (prev_log_number vs) names logs expected = (logs ++ omap (uncovered_log vs) names, expected ∖ list_to_set (omap number_of names)).
Proof.
  revert logs expected. induction names as [|name names IH]; intros logs expected; cbn [scan_children].
  - cbn. rewrite app_nil_r. f_equal. set_solver.
  - cbn [omap list_omap]. destruct (ParseFileName name) as [[n t]|] eqn:Ep.
    + assert (El : uncovered_log vs name = match t with kLogFile => if (log_number vs <=? n) || (n =? prev_log_number vs) then Some n else None | _ => None end)
        by (unfold uncovered_log; now rewrite Ep).
      assert (En : number_of name = Some n) by (unfold number_of; now rewrite Ep). rewrite IH, El, En. f_equal; [|cbn [list_to_set]; set_solver].
      destruct t; try done. destruct (_ || _); [now rewrite <- app_assoc|done].
    + assert (El : uncovered_log vs name = None) by (unfold uncovered_log; now rewrite Ep). assert (En : number_of name = None) by (unfold number_of; now rewrite Ep).
      rewrite El, En. apply IH.
Qed.

Lemma set_first_none X : set_first X = None <-> X = ∅.
Proof.
  unfold set_first. rewrite <- leibniz_equiv_iff, <- elements_empty_iff. pose proof (merge_sort_Permutation Z.le (elements X)) as HP. split.
  - intros H. destruct (merge_sort Z.le (elements X)) as [|a l]; [|discriminate H]. now apply Permutation_nil_l in HP.
  - intros H. rewrite H. reflexivity.
Qed.

Lemma expected_empty v names : AddLiveFiles [v] ∅ ∖ list_to_set (omap number_of names) = (∅ : gset Z) <->
  (forall n, lists_table v n -> exists name t, name ∈ names /\ ParseFileName name = Some (n, t)).
Proof.
  assert (Hin : forall n, n ∈ omap number_of names <-> exists name t, name ∈ names /\ ParseFileName name = Some (n, t)).
  { intros n. rewrite list_elem_of_omap. unfold number_of. split.
    - intros (name & Hn & Hp). destruct (ParseFileName name) as [[n' t]|] eqn:E1; [|done]. injection Hp as <-. now exists name, t.
    - intros (name & t & Hn & Hp). exists name. now rewrite Hp. }
  assert (Hlive : forall n, n ∈ AddLiveFiles [v] ∅ <-> lists_table v n).
  { intros n. rewrite in_live. split; [intros [H|(v' & Hv & H)]; [now apply not_elem_of_empty in H|]; now apply list_elem_of_singleton in Hv as ->|].
    intros H. right. exists v. split; [now apply list_elem_of_singleton|done]. }
  split.
  - intros He n Hn. apply Hin. apply Hlive in Hn. destruct (decide (n ∈ omap number_of names)) as [|Hno]; [done|]. exfalso.
    assert (n ∈ (∅ : gset Z)); [|set_solver]. rewrite <- He. apply elem_of_difference. split; [done|]. now rewrite elem_of_list_to_set.
  - intros H. apply set_eq. intros n. rewrite elem_of_difference, elem_of_list_to_set, Hlive, Hin. split; [intros [H1 H2]; exfalso; now apply H2, H|set_solver].
Qed.

End Children.

Section Logs.
Context {E W R : Type} {EV : FileEnv E W R} {SR : SequentialFile R} {SL : SequentialFileLaws R} {EL : FileEnvLaws E W R}.
Context {C : Comparator} {valid : list Z -> Prop} {CL : ComparatorLaws C valid}.
Context (valid_bytes : forall k, valid k -> is_bytes k) (valid_short : forall k, valid k -> Z.of_nat (length k) + 8 < 2 ^ 32).
Context (options : Options) (max_file_size write_buffer_size : Z) (memory_usage : MemTable -> Z) (table_status : E -> Z -> Z -> Status).
Context (dbname : list Z).
Notation VS := (VersionSet E W).
Notation replayed := (replayed (C := C) (valid := valid) options dbname).
Notation replay_of := (replay_of (C := C) (valid := valid) options dbname).
Hypothesis table_opens : forall e number l, table_entries_ok (C := C) (valid := valid) options l -> table_at (C := C) options dbname e number l ->
  table_status e number (Z.of_nat (length (image (C := C) options l))) = OK.

Lemma replayed_trans (vs0 vs1 vs2 : VS) edit0 edit1 edit2 files1 files2 : next_file_number vs2 < 2 ^ 64 ->
  replayed vs0 edit0 files1 edit1 vs1 -> replayed vs1 edit1 files2 edit2 vs2 -> replayed vs0 edit0 (files1 ++ files2) edit2 vs2.
Proof.
  intros Hb [A1 A2 A3 A4 A5 A6 A7] [B1 B2 B3 B4 B5 B6 B7]. rewrite Forall_forall in A4, B4. constructor.
  - now rewrite fold_left_app, <- A1.
  - rewrite B2. rewrite A2 at 1. cbn. now rewrite A2.
  - lia.
  - apply Forall_app. split; apply Forall_forall; intros p Hp; [specialize (A4 p Hp)|specialize (B4 p Hp)]; cbn in *; lia.
  - apply StronglySorted_app. split; [|done]. intros p q Hp Hq. specialize (A4 p Hp). specialize (B4 q Hq). cbn in *. lia.
  - apply Forall_app. split; [|done]. rewrite Forall_forall in A6 |- *. intros p Hp. destruct (A6 p Hp) as [T1 T2]. split; [done|].
    apply (table_at_same options dbname _ _ _ _ _ B7); [|done]. intros (k & Hk & Hn). revert Hn. specialize (A4 p Hp). cbn in A4. apply table_name_inj; lia.
  - apply (fs_same_trans _ _ (vs_env vs1)); (eapply fs_same_weaken; [|eassumption]); intros n (k & Hk & ->); exists k; (split; [lia|done]).
Qed.

Lemma replayed_mark (vs0 vs1 : VS) edit0 edit1 files number : number + 1 < 2 ^ 64 -> 0 <= number ->
  replayed vs0 edit0 files edit1 vs1 -> replayed vs0 edit0 files edit1 (MarkFileNumberUsed vs1 number).
Proof.
  intros Hb Hn HR. unfold MarkFileNumberUsed. destruct (Z.leb_spec (next_file_number vs1) number) as [L|L]; [|done].
  rewrite wrapu_small by (zpow; lia). destruct HR as [A1 A2 A3 A4 A5 A6 A7]. constructor; cbn [next_file_number vs_env set_next_file]; try done.
  - rewrite A2. cbn. now rewrite A2.
  - lia.
  - eapply Forall_impl; [exact A4|]. intros p Hp. cbn in *. lia.
  - eapply fs_same_weaken; [|exact A7]. intros n (k & Hk & ->). exists k. split; [lia|done].
Qed.

(** The bytes of a log that were found. *)
Definition on_disk (e : E) (lf : log_file) : Prop :=
  exists i, fs_dir e (LogFileName dbname (lf_number lf)) = Some i /\ fs_data e i = take (lf_cut lf) (enc_log (lf_items lf)).

(** A log of batches that can be replayed within the bounds of the loops. *)
Record log_ok (fuel rfuel mfuel : nat) (lf : log_file) : Prop := {
  lo_logged : logged 0 (map batch_record (lf_batches lf)) (lf_items lf);
  lo_fits l : l ⊆+ history_entries (lf_batches lf) -> fits (C := C) (valid := valid) options l;
  lo_fuel : (length (lf_batches lf) < fuel)%nat;
  lo_rfuel : (lf_cut lf < rfuel)%nat;
  lo_mfuel : (length (history_entries (lf_batches lf)) < mfuel)%nat;
}.

Lemma on_disk_same a b (e e' : E) lf : 0 <= a -> b <= 2 ^ 64 -> 0 <= lf_number lf < 2 ^ 64 ->
  fs_same (fun n => exists k, a <= k < b /\ n = TableFileName dbname k) e e' -> on_disk e lf -> on_disk e' lf.
Proof.
  intros Ha Hb Hn HS (i & D1 & D2). assert (Hne : ~ exists k, a <= k < b /\ LogFileName dbname (lf_number lf) = TableFileName dbname k).
  { intros (k & Hk & Hx). revert Hx. change (db_file_name dbname (DbLog (lf_number lf)) <> db_file_name dbname (DbTable k)).
    apply names_differ; [intros ? ? [= <- <-]; lia..|cbn; congruence]. }
  destruct (HS _ Hne) as [F1 F2]. exists i. rewrite F1, (F2 i D1). done.
Qed.

Lemma recovered_in lfs js a : a ∈ history_entries (recovered lfs js) -> a ∈ history_entries (concat (map lf_batches lfs)).
Proof.
  unfold recovered. revert js. induction lfs as [|lf lfs IH]; intros [|j js]; cbn [zip_with concat map]; try (intros H; now inversion H).
  rewrite !history_entries_app, !elem_of_app. intros [H|H]; [left; now apply (entries_take j)|right; now apply (IH js)].
Qed.

Notation older := (StronglySorted (fun p q : Z * list added => forall a b, a ∈ p.2 -> b ∈ q.2 -> a_seq a < a_seq b)).

Lemma older_app files1 files2 m : older files1 -> older files2 -> (forall a, a ∈ concat (map snd files1) -> a_seq a < m) ->
  (forall a, a ∈ concat (map snd files2) -> m <= a_seq a) -> older (files1 ++ files2).
Proof.
  intros H1 H2 L1 L2. apply StronglySorted_app. split; [|done]. intros p q Hp Hq a b Ha Hb. apply (Z.lt_le_trans _ m); [apply L1|apply L2]; apply in_files; eauto.
Qed.

Lemma recover_logs_ok fuel rfuel mfuel lfs : forall s s' N (st : opening),
  history valid s (concat (map lf_batches lfs)) s' -> 1 <= s -> s' < 2 ^ 56 -> vs_dbname (op_vs st) = dbname ->
  0 <= next_file_number (op_vs st) <= N -> Forall (fun lf => 0 <= lf_number lf < N) lfs ->
  N + Z.of_nat (length (concat (map lf_batches lfs)) + length lfs) + 1 < 2 ^ 64 ->
  Forall (log_ok fuel rfuel mfuel) lfs -> Forall (on_disk (vs_env (op_vs st))) lfs ->
  exists js files st', recover_logs C options max_file_size false write_buffer_size memory_usage table_status fuel rfuel mfuel (map lf_number lfs) st = Some (OK, st') /\
    Forall2 (fun lf j => complete (lf_items lf) (lf_cut lf) j) lfs js /\ op_mem st' = op_mem st /\
    op_max st' = history_max (op_max st) (recovered lfs js) /\ replayed (op_vs st) (op_edit st) files (op_edit st') (op_vs st') /\
    Permutation (concat (map snd files)) (history_entries (recovered lfs js)) /\ older files /\
    Forall (fun lf => lf_number lf < next_file_number (op_vs st')) lfs /\
    next_file_number (op_vs st') <= N + Z.of_nat (length (concat (map lf_batches lfs)) + length lfs).
Proof.
  induction lfs as [|lf lfs IH]; intros s s' N st HH Hs Hs' Hdb Hnext Hnum Htot Hok Hdisk; cbn [map recover_logs].
  - exists [], [], st. split; [done|]. split; [constructor|]. split; [done|]. split; [done|]. split; [apply replayed_nil; lia|].
    split; [done|]. split; [apply SSorted_nil|]. split; [constructor|lia].
  - cbn [map concat length] in HH, Htot |- *. rewrite length_app in Htot |- *. apply history_app in HH as (m & HH1 & HH2). pose proof (history_le _ _ _ _ HH1). pose proof (history_le _ _ _ _ HH2).
    apply List.Forall_cons_iff in Hnum as [Hn1 Hnum]. apply List.Forall_cons_iff in Hok as [Ho1 Hok]. apply List.Forall_cons_iff in Hdisk as [(i & Hd1 & Hd2) Hdisk].
    destruct Ho1 as [Hlog Hfits Hfu Hrf Hmf].
    destruct (RecoverLogFile_ok valid_bytes valid_short options max_file_size write_buffer_size memory_usage table_status dbname table_opens false fuel rfuel mfuel
      (lf_number lf) (match map lf_number lfs with [] => true | _ => false end) (op_save st) (op_vs st) (op_edit st) (op_max st) s m (lf_batches lf) (lf_items lf) (lf_cut lf) i)
      as (j & files & lr & -> & HC & [Q1 Q2 Q3 Q4 Q5 Q6]); try done; [lia|lia|lia|]. rewrite Q1. cbn [ok negb].
    assert (Hcount : next_file_number (lr_vs lr) <= N + Z.of_nat (length (lf_batches lf)) + 1) by (rewrite length_take in Q6; lia).
    pose proof (replayed_mark _ _ _ _ _ (lf_number lf) ltac:(lia) ltac:(lia) Q3) as Q3'.
    set (vs1 := MarkFileNumberUsed (lr_vs lr) (lf_number lf)) in *.
    assert (Hmark : lf_number lf < next_file_number vs1 <= N + Z.of_nat (length (lf_batches lf)) + 1).
    { unfold vs1, MarkFileNumberUsed. destruct (Z.leb_spec (next_file_number (lr_vs lr)) (lf_number lf)); [|lia]. cbn. rewrite wrapu_small by (zpow; lia). lia. }
    destruct (IH m s' (N + Z.of_nat (length (lf_batches lf)) + 1) (MkOpening (lr_save lr) (lr_edit lr) (lr_max lr) vs1 (op_mem st)))
      as (js & files' & st' & E1 & K1 & K2 & K3 & K4 & K5 & K6 & K7 & K8); cbn [op_vs op_max op_edit op_mem] in *; try done; [lia|now rewrite (rp_vs _ _ _ _ _ _ _ Q3')| | |lia| |].
    + pose proof (rp_next _ _ _ _ _ _ _ Q3'). lia.
    + eapply Forall_impl; [exact Hnum|]. intros lf' ?. cbn in *. lia.
    + rewrite Forall_forall in Hdisk, Hnum |- *. intros lf' Hin. eapply on_disk_same; [| | |exact (rp_same _ _ _ _ _ _ _ Q3')|now apply Hdisk];
        [pose proof (rp_next _ _ _ _ _ _ _ Q3'); lia|lia|specialize (Hnum lf' Hin); cbn in Hnum; lia].
    + exists (j :: js), (files ++ files'), st'. split; [exact E1|]. split; [now constructor|]. split; [done|].
      change (recovered (lf :: lfs) (j :: js)) with (take j (lf_batches lf) ++ recovered lfs js). rewrite history_max_app, <- Q2, history_entries_app.
      split; [done|]. split; [eapply replayed_trans; [|exact Q3'|exact K4]; lia|]. split; [now rewrite map_app, concat_app, Q4, K5|].
      split; [|split; [constructor; [pose proof (rp_next _ _ _ _ _ _ _ K4); lia|done]|lia]].
      apply (older_app _ _ m); [done|done|intros a Ha..].
      * rewrite Q4 in Ha. apply entries_take in Ha. apply (history_seq _ _ _ _ _ HH1 Ha).
      * rewrite K5 in Ha. apply recovered_in in Ha. apply (history_seq _ _ _ _ _ HH2 Ha).
Qed.

(** ** Recovery from the manifest and the logs *)

Context {DE : DirEnv E} (comparator_name : list Z).

(** C5: Opening replays the logs in their order.  The manifest has been
    recovered, the directory lists every table of its version, and the logs that
    the manifest does not cover are those of the list, each of them cut at some
    byte.  Then DBImpl::Recover succeeds.  For every log the batches that are
    complete in it come back, and together they are exactly what the new tables
    of level 0 hold: older updates are in older tables, also across logs,
    whatever the order of the directory; the last sequence number covers them
    and is never lowered; no log keeps a number that a new file could get; and
    no file but the new tables changes. *)
Theorem recovery_replays_logs fuel rfuel mfuel edit vs save vs1 names lfs s s' N :
  Recover C comparator_name max_file_size false fuel rfuel vs = Some (OK, save, vs1) -> vs_dbname vs1 = dbname ->
  env_GetChildren (vs_env vs1) dbname = (OK, names) ->
  (forall n, lists_table (vs_current vs1) n -> exists name t, name ∈ names /\ ParseFileName name = Some (n, t)) ->
  Permutation (omap (uncovered_log vs1) names) (map lf_number lfs) -> StronglySorted Z.le (map lf_number lfs) ->
  history valid s (concat (map lf_batches lfs)) s' -> 1 <= s -> s' < 2 ^ 56 ->
  0 <= next_file_number vs1 <= N -> Forall (fun lf => 0 <= lf_number lf < N) lfs ->
  N + Z.of_nat (length (concat (map lf_batches lfs)) + length lfs) + 1 < 2 ^ 64 ->
  Forall (log_ok fuel rfuel mfuel) lfs -> Forall (on_disk (vs_env vs1)) lfs ->
  exists js files st, recover_versions C comparator_name options max_file_size false write_buffer_size memory_usage table_status fuel rfuel mfuel edit vs = Some (OK, st) /\
    Forall2 (fun lf j => complete (lf_items lf) (lf_cut lf) j) lfs js /\
    last_sequence (op_vs st) = Z.max (last_sequence vs1) (history_max 0 (recovered lfs js)) /\
    op_edit st = fold_left (fun e p => push_file 0 (new_meta (C := C) options p.1 p.2) e) files edit /\
    Permutation (concat (map snd files)) (history_entries (recovered lfs js)) /\ older files /\
    Forall (fun p => next_file_number vs1 <= p.1 < next_file_number (op_vs st) /\ table_at (C := C) options dbname (vs_env (op_vs st)) p.1 p.2) files /\
    Forall (fun lf => lf_number lf < next_file_number (op_vs st)) lfs /\
    fs_same (fun n => exists k, next_file_number vs1 <= k < next_file_number (op_vs st) /\ n = TableFileName dbname k) (vs_env vs1) (vs_env (op_vs st)).
Proof.
  intros HR Hdb HG Htab HP Hsort HH Hs Hs' Hnext Hnum Htot Hok Hdisk. unfold recover_versions. rewrite HR. cbn [ok negb]. rewrite Hdb, HG. cbn [ok negb].
  rewrite scan_children_ok. rewrite (proj2 (expected_empty _ _) Htab). rewrite (proj2 (set_first_none ∅) eq_refl). cbn [app].
  assert (Esort : merge_sort Z.le (omap (uncovered_log vs1) names) = map lf_number lfs).
  { apply (StronglySorted_unique Z.le); [apply StronglySorted_merge_sort; apply _|done|]. rewrite merge_sort_Permutation. exact HP. }
  rewrite Esort. destruct (recover_logs_ok fuel rfuel mfuel lfs s s' N (MkOpening save edit 0 vs1 None) HH Hs Hs' Hdb Hnext Hnum Htot Hok Hdisk)
    as (js & files & st & -> & K1 & K2 & K3 & [A1 A2 A3 A4 A5 A6 A7] & K5 & K6 & K7 & K8). cbn [ok negb op_vs op_max op_edit] in *.
  exists js, files. eexists. split; [reflexivity|]. cbn [op_vs op_edit]. rewrite <- K3. assert (Hlast : last_sequence (op_vs st) = last_sequence vs1) by now rewrite A2.
  split; [done|]. destruct (Z.ltb_spec (last_sequence (op_vs st)) (op_max st)) as [L|L]; cbn [set_last_sequence last_sequence vs_env next_file_number].
  all: split; [lia|]; split; [done|]; split; [done|]; split; [done|]; split; [|done].
  all: rewrite Forall_forall in A4, A6 |- *; intros p Hp; split; [now apply A4|now apply A6].
Qed.

End Logs.

Section Missing.
Context {E W R : Type} {EV : FileEnv E W R} {SR : SequentialFile R} {DE : DirEnv E} {C : Comparator}.
Context (options : Options) (max_file_size write_buffer_size : Z) (memory_usage : MemTable -> Z) (table_status : E -> Z -> Z -> Status) (comparator_name : list Z).

(** C39: A missing table is noticed.  If the recovered version lists a table and
    the directory lists no file of that number, DBImpl::Recover reports a
    corruption and does not replay a log, so that nothing is written. *)
Theorem missing_table_is_corruption reuse_logs fuel rfuel mfuel edit vs save vs1 names n :
  Recover C comparator_name max_file_size reuse_logs fuel rfuel vs = Some (OK, save, vs1) ->
  env_GetChildren (vs_env vs1) (vs_dbname vs1) = (OK, names) -> lists_table (vs_current vs1) n ->
  (forall name t, name ∈ names -> ParseFileName name <> Some (n, t)) ->
  exists s st, recover_versions C comparator_name options max_file_size reuse_logs write_buffer_size memory_usage table_status fuel rfuel mfuel edit vs = Some (s, st) /\
    IsCorruption s = true /\ op_vs st = vs1 /\ op_edit st = edit.
Proof.
  intros HR HG Hl Hno. unfold recover_versions. rewrite HR. cbn [ok negb]. rewrite HG. cbn [ok negb]. rewrite scan_children_ok.
  destruct (set_first _) as [k|] eqn:Es; [eexists _, _; split; [reflexivity|done]|]. exfalso.
  destruct (proj1 (expected_empty _ _) (proj1 (set_first_none _) Es) n Hl) as (name & t & Hn & Hp). now apply (Hno name t).
Qed.
End Missing.

(** ** Examples *)

Module OpenExample.
Notation C := BytewiseComparator.
Notation short_bytes := ScanExample.short_bytes.
Definition name : list Z := RecoveryExample.name.
Definition db : list Z := CrashExample.db.

(** The names of a directory in the file system of LvRecovery; nobody else has
    the lock. *)
#[global] Instance dirs : DirEnv MemFs.fs := {
  env_CreateDir e _ := (OK, e);
  env_RemoveDir e _ := (OK, e);
  env_GetChildren e d := (OK, omap (fun n => if starts_with n (d ++ str "/") then Some (drop (length d + 1) n) else None) (map fst (map_to_list (MemFs.dir e))));
  env_FileExists e n := bool_decide (is_Some (MemFs.dir e !! n));
  env_LockFile e _ := (OK, e);
  env_UnlockFile e _ := (OK, e);
}.

(** A new database with two logs; the first one lacks its last byte. *)
Definition batches3 : list (Z * list update) := [(1, [UPut [1] [10]]); (2, [UDelete [2]])].
Definition batches4 : list (Z * list update) := [(3, [UPut [3] [30]])].
Definition log_bytes (bs : list (Z * list update)) : list Z := LvLogProps.log_of (MemFile []) (map batch_record bs).
Definition new_db : MemFs.fs := match NewDB (EV := MemFs.env) name db (MemFs.MkFs ∅ ∅) with Some (_, e) => e | None => MemFs.MkFs ∅ ∅ end.
Definition cut3 : nat := length (log_bytes batches3) - 1.
Definition with_logs : MemFs.fs :=
  MemFs.MkFs (<[LogFileName db 4 := 104%nat]> (<[LogFileName db 3 := 103%nat]> (MemFs.dir new_db)))
    (<[104%nat := log_bytes batches4]> (<[103%nat := take cut3 (log_bytes batches3)]> (MemFs.data new_db))).
Definition start : VersionSet MemFs.fs nat := make_VersionSet with_logs db.
Definition recovered_set : VersionSet MemFs.fs nat :=
  match Recover (R := mem_file) C name 2097152 false 10 100 start with Some (_, _, vs) => vs | None => start end.

Lemma recovers : Recover (R := mem_file) C name 2097152 false 10 100 start = Some (OK, true, recovered_set).
Proof. vm_compute. reflexivity. Qed.

Lemma batches_valid : history short_bytes 1 (batches3 ++ batches4) 4.
Proof.
  destruct ScanExample.short_keys as (H1 & H2 & H3).
  assert (V : forall k v, short_bytes [k] -> is_byte v -> update_valid (valid := short_bytes) (UPut [k] [v])).
  { intros k v Hk Hv. cbn. split; [done|]. split; [simpl; lia|]. split; [|simpl; lia]. apply List.Forall_cons; [exact Hv|apply List.Forall_nil]. }
  assert (V2 : update_valid (valid := short_bytes) (UDelete [2])) by (cbn; split; [done|lia]).
  unfold batches3, batches4. cbn [app]. constructor; [constructor; [apply V; [done|unfold is_byte; lia]|constructor]|simpl; lia|].
  constructor; [constructor; [apply V2|constructor]|simpl; lia|]. constructor; [constructor; [apply V; [done|unfold is_byte; lia]|constructor]|simpl; lia|]. constructor.
Qed.

(** The records of a log. *)
Lemma log_items bs s s' : history short_bytes s bs s' -> exists l, logged 0 (map batch_record bs) l /\ enc_log l = log_bytes bs.
Proof.
  intros HH. destruct (write_all_ok (Writer.make_Writer (MemFile [])) (map batch_record bs)) as (l & HL & HJ); [|cbn; unfold kBlockSize; lia|].
  - apply Forall_forall. intros r Hr. apply list_elem_of_fmap in Hr as (b & -> & Hb).
    assert (Hv : Forall (update_valid (valid := short_bytes)) b.2).
    { revert b Hb. induction HH as [s|s us bs s' Hu Hl HH IH]; intros b Hb; [inversion Hb|]. apply elem_of_cons in Hb as [->|Hb]; [done|now apply IH]. }
    apply (batch_record_bytes (valid := short_bytes) (fun _ H => proj1 H) b Hv).
  - exists l. split; [exact HL|]. destruct (HJ (length (map batch_record bs))) as (w' & E1 & E2). unfold log_bytes, LvLogProps.log_of.
    rewrite take_ge in E1 by done. rewrite E1, E2. cbn [written]. simpl. f_equal. assert (length l = length (map batch_record bs)) as <- by (clear -HL; induction HL; simpl; congruence).
    now rewrite firstn_all.
Qed.
End OpenExample.

Lemma recovery_replays_logs_witness :
  exists (js : list nat) files st,
    recover_versions (EV := MemFs.env) BytewiseComparator OpenExample.name CrashExample.options 2097152 false 4096 (fun _ => 100) CrashExample.table_status 10 100 10
      make_VersionEdit OpenExample.start = Some (OK, st) /\
    Permutation (concat (map snd files)) (history_entries (take (default 0%nat (js !! 0%nat)) OpenExample.batches3 ++ take (default 0%nat (js !! 1%nat)) OpenExample.batches4)) /\
    op_edit st = fold_left (fun e p => push_file 0 (new_meta (C := BytewiseComparator) CrashExample.options p.1 p.2) e) files make_VersionEdit.
Proof.
  pose proof OpenExample.batches_valid as HH. pose proof HH as HH'. apply history_app in HH' as (m & HH3 & HH4).
  destruct (OpenExample.log_items _ _ _ HH3) as (l3 & HL3 & EL3). destruct (OpenExample.log_items _ _ _ HH4) as (l4 & HL4 & EL4).
  set (lfs := [MkLogFile 3 OpenExample.batches3 l3 OpenExample.cut3; MkLogFile 4 OpenExample.batches4 l4 50]).
  destruct (recovery_replays_logs (EV := MemFs.env) (C := BytewiseComparator) (valid := ScanExample.short_bytes) (fun _ H => proj1 H) (fun _ H => proj2 H) CrashExample.options 2097152 4096
    (fun _ => 100) CrashExample.table_status CrashExample.db CrashExample.table_opens OpenExample.name 10 100 10 make_VersionEdit OpenExample.start true OpenExample.recovered_set
    (env_GetChildren (vs_env OpenExample.recovered_set) CrashExample.db).2 lfs 1 4 10 OpenExample.recovers) as (js & files & st & E1 & K1 & _ & K2 & K3 & _).
  - reflexivity.
  - reflexivity.
  - intros n (level & f & Hl & Hf & _). exfalso. revert Hf. assert (El : level_files (vs_current OpenExample.recovered_set) level = []); [|rewrite El; intros Hf; inversion Hf].
    unfold kNumLevels in Hl. do 7 (destruct level as [|level]; [vm_compute; reflexivity|]). lia.
  - apply (bool_decide_unpack _). vm_compute. exact I.
  - constructor; [constructor; [apply SSorted_nil|constructor]|constructor; [cbn; lia|constructor]].
  - exact HH.
  - lia.
  - lia.
  - vm_compute. split; discriminate.
  - repeat constructor; cbn; lia.
  - cbn. lia.
  - repeat (apply List.Forall_cons; [split; cbn [lf_batches lf_items lf_cut]; [done|apply CrashExample.small_fits; vm_compute; reflexivity|vm_compute; lia|vm_compute; lia|vm_compute; lia]|]). apply List.Forall_nil.
  - apply List.Forall_cons; [exists 103%nat; cbn [lf_number lf_items lf_cut]; rewrite EL3; vm_compute; split; reflexivity|].
    apply List.Forall_cons; [exists 104%nat; cbn [lf_number lf_items lf_cut]; rewrite EL4; vm_compute; split; reflexivity|apply List.Forall_nil].
  - exists js, files, st. split; [exact E1|]. split; [|exact K2]. rewrite K3. inversion K1 as [|? j3 ? js' _ K4]; subst. inversion K4 as [|? j4 ? js'' _ K5]; subst. inversion K5; subst.
    unfold recovered, lfs. cbn [zip_with concat lf_batches]. now rewrite app_nil_r.
Defined.

(** That replay, computed: the first batch of the first log and the batch of the
    second one come back, in two tables, and the sequence number is the last
    one.  The tables get the numbers 3 and 4, which are those of the logs: the
    numbers of the logs are marked as used only after they were replayed. *)
Example replayed_logs :
  match recover_versions (EV := MemFs.env) BytewiseComparator OpenExample.name CrashExample.options 2097152 false 4096 (fun _ => 100) CrashExample.table_status 10 100 10
          make_VersionEdit OpenExample.start with
  | Some (s, st) =>
      (s, last_sequence (op_vs st), map (fun p => (p.1, f_number p.2, ExtractUserKey (f_smallest p.2), ExtractUserKey (f_largest p.2))) (new_files_ (op_edit st)))
      = (OK, 3, [(0, 3, [1], [1]); (0, 4, [3], [3])])
  | None => False
  end.
Proof. vm_compute. reflexivity. Qed.

(** A manifest that lists the table 4, which is not there. *)
Definition lost_table : VersionSet MemFs.fs nat :=
  make_VersionSet (match fold_option (run_step (C := BytewiseComparator) (R := mem_file) RecoveryExample.name) RecoveryExample.steps RecoveryExample.start with
                   | Some vs => vs_env vs | None => MemFs.MkFs ∅ ∅ end) RecoveryExample.db.
Definition lost_table_set : VersionSet MemFs.fs nat :=
  match Recover (R := mem_file) BytewiseComparator RecoveryExample.name 2097152 false 10 500 lost_table with Some (_, _, vs) => vs | None => lost_table end.

Lemma listed (e : MemFs.fs) (d : list Z) : env_GetChildren e d = (OK, (env_GetChildren e d).2).
Proof. reflexivity. Qed.

Lemma lost_table_recovers : Recover (R := mem_file) BytewiseComparator RecoveryExample.name 2097152 false 10 500 lost_table = Some (OK, true, lost_table_set).
Proof. vm_compute. reflexivity. Qed.

Lemma lost_table_lists : lists_table (vs_current lost_table_set) 4.
Proof.
  assert (El : map f_number (level_files (vs_current lost_table_set) 0) = [4]) by (vm_compute; reflexivity).
  revert El. generalize (vs_current lost_table_set). intros v El. assert (Hin : In 4 (map f_number (level_files v 0))) by (rewrite El; now left).
  apply in_map_iff in Hin as (f & Hf & Hin). exists 0%nat, f. split; [unfold kNumLevels; lia|]. split; [now apply list_elem_of_In|done].
Qed.

Lemma lost_table_names : omap number_of (env_GetChildren (vs_env lost_table_set) (vs_dbname lost_table_set)).2 = [0; 0].
Proof. vm_compute. reflexivity. Qed.

Lemma missing_table_is_corruption_witness :
  exists s st,
    recover_versions (EV := MemFs.env) BytewiseComparator RecoveryExample.name CrashExample.options 2097152 false 4096 (fun _ => 100) CrashExample.table_status 10 500 10
      make_VersionEdit lost_table = Some (s, st) /\ IsCorruption s = true.
Proof.
  destruct (missing_table_is_corruption (EV := MemFs.env) (C := BytewiseComparator) CrashExample.options 2097152 4096 (fun _ => 100) CrashExample.table_status RecoveryExample.name
    false 10 500 10 make_VersionEdit lost_table true lost_table_set (env_GetChildren (vs_env lost_table_set) (vs_dbname lost_table_set)).2 4) as (s & st & E1 & E2 & _).
  - exact lost_table_recovers.
  - apply listed.
  - exact lost_table_lists.
  - intros name t Hn Hp.
    assert (Hin : 4 ∈ omap number_of (env_GetChildren (vs_env lost_table_set) (vs_dbname lost_table_set)).2)
      by (apply list_elem_of_omap; exists name; split; [exact Hn|unfold number_of; now rewrite Hp]).
    rewrite lost_table_names in Hin. apply list_elem_of_In in Hin as [H|[H|[]]]; discriminate H.
  - exists s, st. split; [exact E1|exact E2].
Defined.

(** Opening the database with the two logs, computed: the logs 3 and 4 have become
    the tables 3 and 4 and are removed with the old manifest; the new log and the
    new manifest have the numbers 5 and 2.  The last sequence number is 3. *)
Example opened_database :
  match DB_Open (R := mem_file) BytewiseComparator OpenExample.name CrashExample.options 2097152 false 4096 true false (fun _ => 100) CrashExample.table_status 10 500 10
          OpenExample.db OpenExample.with_logs with
  | Some (s, Some d, e) =>
      (s, ds_log_number d, last_sequence (ds_vs d), map (fun f => (f_number f, ExtractUserKey (f_smallest f))) (level_files (vs_current (ds_vs d)) 0),
       merge_sort Z.le (omap number_of (env_GetChildren e OpenExample.db).2))
      = (OK, 5, 3, [(3, [1]); (4, [3])], [0; 2; 3; 4; 5])
  | _ => False
  end.
Proof. vm_compute. reflexivity. Qed.

(** A database that must exist does not, and one that must not does. *)
Example open_refused :
  let open create error e := match DB_Open (R := mem_file) BytewiseComparator OpenExample.name CrashExample.options 2097152 false 4096 create error (fun _ => 100)
                                      CrashExample.table_status 10 500 10 OpenExample.db e with
                             | Some (s, d, _) => (s, match d with Some _ => true | None => false end)
                             | None => (OK, false)
                             end in
  open false false (MemFs.MkFs ∅ ∅) = (mkStatus LvEnv.kInvalidArgument "db" "does not exist (create_if_missing is false)", false) /\
  open true true OpenExample.new_db = (mkStatus LvEnv.kInvalidArgument "db" "exists (error_if_exists is true)", false) /\
  open true false (MemFs.MkFs ∅ ∅) = (OK, true).
Proof. vm_compute. repeat split; reflexivity. Qed.
